(* ===== verification/_CoqProject ===== *)
-Q . S2P
Prelude.v
GoStrings.v
Urls.v
Paths.v
FileSystem.v
Artifacts.v
Model.v
Float64.v
Database.v
Batches.v
Keyset.v
Filter.v
Faultless.v
Events.v
Runs.v
Sample.v
RunData.v
Downsample.v
Experiments.v
Registry.v
RegistryLaws.v
Prompts.v
Workspaces.v
Sessions.v
Integrations.v
Access.v
Datasets.v
Inputs.v
Lineage.v
Search.v
TimeTravel.v
Replay.v
MlflowApi.v
ApiLogic.v
RegistryApi.v
Isolation.v
Ownership.v
EchoLog.v
Egress.v
Federation.v
NativeApi.v
NativeLaws.v
FederationApi.v
Tenants.v
Oidc.v
CAS.v
ArtifactApi.v
S3.v
S3Laws.v
Service.v
Dispatcher.v
DispatcherLaws.v
Login.v
LoginLaws.v
Migrations.v
Grpc.v
RateLimit.v
Analytics.v
Metrics.v
Config.v
Front.v
Backup.v
BackupLaws.v
Migrator.v
MigratorLaws.v
ImportLaws.v
Server.v
Command.v
SyncDelivery.v
Operator.v
