(* ===== verification/Prelude.v ===== *)
(** * litemlflow, verified

    litemlflow is a single-binary experiment tracker that speaks the MLflow
    REST protocol over a SQLite store.  A request passes the middlewares of
    internal/server (authentication, tenant, role), is routed to a handler of
    internal/api, and the handler calls methods of internal/store, which run
    SQL statements on the tables of internal/migrations.  Around that path lie
    artifact and dataset storage, webhooks, federation between instances,
    logins, the command line and the operator that deploys it.  This library
    models them, bottom up, and proves what each layer promises to the next.

    ** Files and what they model

    Foundations.
    - Prelude.v: results and errors of Go functions, generic lemmas on lists,
      maps, sorting and paging, tactics and hint databases.
    - GoStrings.v, Urls.v, Paths.v: the functions of [strings], [strconv],
      [unicode], [net/url], [path] and [filepath] the code calls, on byte
      strings.
    - Model.v: internal/model/types.go, structs as records, validators.
    - Float64.v: [float64] addition, subtraction, multiplication, division
      and comparison, exact with rounding to nearest even.
    - Database.v: the schema (migrations/baseline/v2_baseline.sql) as the
      record [DB] of tables, and the store monad [M]: state passing over
      [DB], a clock that is read and advances, errors as values, [tx] for a
      transaction that is rolled back on an error.
    - FileSystem.v, Faultless.v: a tree of files with the system calls the
      code makes, each of which may fail, and their behaviour when none does.

    The store (internal/store).  One definition per method, with the name of
    the method; the helper definitions next to it are its SQL statements and
    loops.
    - Keyset.v, Filter.v, Batches.v: key-set cursors, the run filter language,
      and the batched loading of tags, which several methods share.
    - Events.v, Runs.v, TimeTravel.v, Replay.v: runs, run tags, the event log
      they write, and the reconstruction of earlier states from it.
    - RunData.v, Downsample.v: metrics, parameters, spans, evals and notes;
      the LTTB downsampling of metric histories.
    - Experiments.v, Search.v, Lineage.v, Analytics.v: experiments, the paged
      run search, parents and children of runs, aggregates over runs.
    - Registry.v, RegistryLaws.v: the model registry and its theorems.
    - Prompts.v, Datasets.v, Inputs.v, Workspaces.v, Sessions.v,
      Integrations.v: prompts, dataset versions, the inputs of runs, tenants
      and members, login sessions, and peers, webhooks and dashboards.
    - Migrations.v: the runner of internal/migrations that brings a database
      to a version, and back.
    - Sample.v: a small database on which witnesses are evaluated.

    Files and objects (internal/artifact, internal/datasets).
    - Artifacts.v: the class [ArtifactStore], which states what handlers rely
      on, and the store on the file system; S3.v, S3Laws.v: the one on S3.
    - CAS.v: the content-addressed blobs of datasets.

    The APIs.  A handler is a computation of the store that ends in a reply
    (status, error code, body, webhook events).
    - MlflowApi.v, RegistryApi.v, ArtifactApi.v: internal/api/mlflow;
      ApiLogic.v has the rules to reason about handlers.
    - NativeApi.v, NativeLaws.v: internal/api/native, the calling side of
      the federated search and the listing of the echo log included.
    - Isolation.v, Ownership.v, Tenants.v: the APIs together, and what a call
      in one workspace may read and change of another.

    Other instances and users (internal/webhooks, federation, auth).
    - Egress.v: the guard on outbound connections.
    - EchoLog.v, Dispatcher.v, DispatcherLaws.v, SyncDelivery.v: the delivery
      of webhooks, as a transition system over threads and a queue, and the
      test delivery.
    - Federation.v, FederationApi.v: signed requests between instances and
      the endpoint that answers a federated search.
    - Oidc.v, Login.v, LoginLaws.v: OpenID Connect, sessions and their
      cookies.

    The process (internal/server, config, metrics, grpcotlp, cmd).
    - Access.v: the middlewares that decide who reaches a handler, with the
      password check of internal/auth; Service.v: middlewares, routes and
      handlers composed.
    - RateLimit.v, Front.v, Metrics.v: the limiter of logins, the outer
      middlewares with the janitor, and the metrics endpoint.
    - Server.v: server.go, the parts put together: start-up, the whole chain
      (with the limiter inside the authentication, the cap on bodies and the
      deadlines), and the shutdown as a transition system.
    - Grpc.v: the OTLP receiver over gRPC.
    - Config.v, Command.v: settings, and the command line of
      cmd/litemlflow/main.go with its small subcommands.
    - Backup.v, BackupLaws.v: the commands [backup] and [restore].
    - Migrator.v, MigratorLaws.v, ImportLaws.v: the importer from MLflow.
    - Operator.v: the reconciler of operator/controllers against an API
      server whose calls can fail, and the start of the server in its pods.

    ** What the theorems show

    - Time travel (Replay.v): reading a run as of [T] refines the abstract
      specification "what [GetRun] and [GetTags] returned at [T]", whatever
      operations ran since; and it stays in its workspace.
    - Paging (Search.v, Experiments.v, RunData.v, RegistryLaws.v): following
      the tokens of a listing ends and yields every matching row exactly once
      in order.
    - Derived data: the trigger-maintained table of latest metrics is the
      newest observation of each metric; batched tag loading equals the query
      per item; downsampling returns points of the series, within bounds;
      analytics return the aggregates of the latest values, and a run that
      attains a maximum.
    - The run filter (Filter.v): the parser never panics on ASCII input, its
      SQL is parameterised, and quoted lists round-trip.
    - The registry (RegistryLaws.v): referential integrity under any sequence
      of operations, version numbers, stage transitions, renames, aliases.
    - Writes: creation, deduplication, atomicity and idempotence of the
      operations on experiments, metrics, parameters, spans, datasets,
      prompts, workspaces and sessions, errors included.
    - Lineage: the walks end, stay in their workspace, repeat nothing, and
      return everything below their caps.
    - Access control, isolation and their composition (Access.v, Isolation.v,
      RegistryApi.v, Tenants.v, Service.v): who reaches a handler, that
      replies and effects stay in the workspace of the request, and both
      together for a request that enters the server.  What all workspaces
      share (the directory of workspaces, the echo log) is named there.
    - Storage: uploads are atomic whatever system call fails, blobs have the
      hash they are stored under, handlers stay within their run on every
      store that keeps the interface, and uploads to S3 follow its protocol.
    - Webhooks and federation: under every schedule each job that was enqueued
      is in exactly one place (the queue, one thread, the finished
      deliveries), what is sent is for a subscriber and signed with its
      secret, and until the shutdown what is not enqueued is counted as
      dropped; a shutdown ends, and leaves in the queue at most the jobs of
      notifications that were between their check and their send when it
      began; blocked addresses are exactly the reserved ranges; and unsigned
      federated requests learn nothing.
    - Logins: what a session and an OpenID Connect callback require, that the
      two halves of the flow fit, and that attempts are limited per client as
      by an exact token bucket.
    - The process: accepted settings are well formed, flags say what is asked,
      the v2 alias keeps paths and decoded names, every request is answered as
      the chain decides and, unless its handler panics, is measured, the
      janitor sweeps exactly the stale runs and old events or leaves them when
      its statement fails, gRPC has the policy of HTTP and stores the same
      spans, and the store is closed last.
    - Life cycle: the database is always at a version, a backup of a directory
      restores, an import is faithful and can be resumed, the operator
      converges on the fields it owns and its pods start exactly when the
      resource gives them what they need.
    - Where the code does not do what it means to, a theorem beside the
      property says so on a concrete state (a webhook job lost at the
      shutdown, the shared echo log, an accepted time stamp of long ago, an
      undecoded member name under v2, a touch of a session after the store
      was closed, services of two resources that collide, and others).

    ** Bounds and fuel

    Loops that Go bounds by a constant use it as their fuel: the ancestor
    walk ([maxAncestorDepth] = 256), the descendants (depth and fan-out of
    the options), the dataset lineage (256 rows), the retries of a write race,
    the two levels of addresses inside addresses of the outbound guard.  Page
    functions run with a fuel that bounds the number of pages, and the
    theorems prove that the number of rows is enough; the walk of a backup
    uses the size of the tree, which is proved to bound its depth; an upload
    in parts uses the length of its body.  Where the length of a loop is up
    to a service (the pages of an S3 listing, the pages and directories of an
    import), running out of fuel is a result of its own ([SRunning],
    [ImpEndless]) that no theorem takes for a success.  [int64] columns are
    [Z]; where the code converts them to [float64] (cursors, event payloads,
    downsampling, counters, token buckets) the conversion is modelled, and
    theorems carry the bound 2^53 under which it is exact.

    ** Parameters

    What the code calls and the repository does not contain is an argument:
    SHA-256, HMAC, RSA and bcrypt, random draws, [strconv.ParseFloat] and
    [FormatFloat], [time.ParseDuration], the parsers and texts of IP addresses,
    the environment, JSON and XML codecs, SQLite's [LIKE], its evaluation of
    one filter clause, of a migration script and of [VACUUM INTO], what a
    group's [AVG] and a [LIMIT 1] without an order yield, the answers of the
    network (identity provider, peers, webhook targets, S3, a tracking
    server), which system, driver and Kubernetes calls fail, and the routing
    by chi.  Nothing is assumed of them unless a theorem says so.

    ** Not modelled

    Failures of the database driver inside the methods of the store (the
    migration runner and the janitor's sweeps have them); the text of error messages and logs; base64
    around cursors; the bytes of gzip and tar; TLS and the sockets.  The test
    double of the store, the generator of the baseline schema, the Terraform
    provider, the UI and the Python client, which are tools or clients: they
    are listed in PROJECT.json with the reason.  Concurrency is modelled where
    the code depends on it: the clock between two reads, the interleaving of a
    read with another method's transaction (Replay.v), write races, the
    threads of the dispatcher, and the shutdown. *)

From stdpp Require Export base list gmap strings sorting.
From Stdlib Require Export ZArith Lia.

Open Scope Z_scope.

(** The lemmas that preserve the invariants of the store's tables. *)
Create HintDb store.
(** The equations that run a method of the store monad. *)
Create Rewrite HintDb exec.

(** * Results and errors

    Go functions of the store return [(T, error)].  The model keeps the
    class of the error, i.e. what [errors.Is] and the predicates
    [isUniqueViolation] / [isFKViolation] distinguish, and drops its text. *)

Inductive err :=
  | ErrNotFound
  | ErrAlreadyExists
  | ErrConflict
  | ErrInvalidFilter
  | ErrInvalidStage
  | ErrInvalidValue
  | ErrReplayLimitExceeded
  | SqlUnique          (* "UNIQUE constraint failed" / "PRIMARY KEY" *)
  | SqlForeignKey      (* "FOREIGN KEY constraint failed" *)
  | SqlCheck           (* "CHECK constraint failed" *)
  | ErrPanic           (* a Go run-time panic, e.g. slice bounds out of range *)
  | ErrOther.          (* errors.New / fmt.Errorf with no sentinel *)

#[export] Instance err_eq_dec : EqDecision err.
Proof. solve_decision. Defined.

Inductive result (A : Type) :=
  | Ok (a : A)
  | Err (e : err).
Arguments Ok {A} a.
Arguments Err {A} e.

#[export] Instance result_eq_dec `{EqDecision A} : EqDecision (result A).
Proof. solve_decision. Defined.

#[export] Instance result_ret : MRet result := λ A a, Ok a.
#[export] Instance result_bind : MBind result := λ A B f r,
  match r with Ok a => f a | Err e => Err e end.
#[export] Instance result_fmap : FMap result := λ A B f r,
  match r with Ok a => Ok (f a) | Err e => Err e end.

Definition is_ok {A} (r : result A) : bool :=
  match r with Ok _ => true | Err _ => false end.

Definition of_option {A} (e : err) (o : option A) : result A :=
  match o with Some a => Ok a | None => Err e end.

(** [if cond { return err }] guards. *)
Definition guard_err (b : bool) (e : err) : result unit :=
  if b then Err e else Ok tt.

(** * Integers of fixed width *)

Definition int64_min : Z := - 2 ^ 63.
Definition int64_max : Z := 2 ^ 63 - 1.
Definition in_int64 (z : Z) : Prop := int64_min <= z <= int64_max.

#[export] Instance in_int64_dec z : Decision (in_int64 z).
Proof. unfold in_int64. apply _. Defined.

(** Two's complement wrap-around of an [int64] operation. *)
Definition wrap64 (z : Z) : Z := (z + 2 ^ 63) `mod` 2 ^ 64 - 2 ^ 63.

Lemma wrap64_id z : in_int64 z → wrap64 z = z.
Proof.
  unfold in_int64, wrap64, int64_min, int64_max. intros.
  rewrite Z.mod_small; lia.
Qed.

Lemma wrap64_range z : in_int64 (wrap64 z).
Proof.
  unfold in_int64, wrap64, int64_min, int64_max.
  pose proof (Z.mod_pos_bound (z + 2 ^ 63) (2 ^ 64)). lia.
Qed.

(** [float64(z)] for an integer [z], read back as the integer it denotes:
    IEEE-754 binary64 rounding (53-bit significand, ties to even). *)
Definition float64_round (z : Z) : Z :=
  let e := Z.max 0 (Z.log2 (Z.abs z) + 1 - 53) in
  let q := Z.abs z / 2 ^ e in
  let r := Z.abs z `mod` 2 ^ e in
  let half := 2 ^ (e - 1) in
  let up := if e =? 0 then false
            else (half <? r) || ((half =? r) && Z.odd q) in
  Z.sgn z * ((if up then q + 1 else q) * 2 ^ e).

Definition float64_exact (z : Z) : Prop := Z.abs z < 2 ^ 53.

#[export] Instance float64_exact_dec z : Decision (float64_exact z).
Proof. unfold float64_exact. apply _. Defined.

Lemma float64_round_exact z : float64_exact z → float64_round z = z.
Proof.
  unfold float64_exact, float64_round. intros Hz.
  assert (Z.log2 (Z.abs z) < 53) as Hl.
  { destruct (decide (z = 0)) as [->|]; [simpl; lia|].
    apply Z.log2_lt_pow2; lia. }
  rewrite (Z.max_l 0) by lia. rewrite Z.pow_0_r, Z.div_1_r. simpl.
  rewrite Z.mul_1_r. lia.
Qed.

#[global] Arguments float64_round : simpl never.
#[global] Arguments wrap64 : simpl never.

(** * Total orders

    The interface between tables and everything that sorts them: a
    three-way comparison that is a total order.  [ORDER BY] clauses, key-set
    cursors and [sort.Slice] calls are all proved against it. *)

Class TotalCmp (A : Type) := {
  cmp : A → A → comparison;
  cmp_eq_iff x y : cmp x y = Eq ↔ x = y;
  cmp_opp x y : cmp y x = CompOpp (cmp x y);
  cmp_lt_trans x y z : cmp x y = Lt → cmp y z = Lt → cmp x z = Lt
}.

Definition cmp_lt `{TotalCmp A} (x y : A) : Prop := cmp x y = Lt.
Definition cmp_le `{TotalCmp A} (x y : A) : Prop := cmp x y ≠ Gt.

#[export] Instance cmp_lt_dec `{TotalCmp A} : RelDecision (cmp_lt (A:=A)).
Proof. intros x y. unfold cmp_lt. apply _. Defined.
#[export] Instance cmp_le_dec `{TotalCmp A} : RelDecision (cmp_le (A:=A)).
Proof. intros x y. unfold cmp_le. apply _. Defined.

Section total_cmp.
Context `{TotalCmp A}.

Lemma cmp_refl (x : A) : cmp x x = Eq.
Proof. by apply cmp_eq_iff. Qed.

#[export] Instance cmp_lt_strict : StrictOrder (cmp_lt (A:=A)).
Proof.
  split.
  - intros x Hx. unfold cmp_lt in Hx. by rewrite cmp_refl in Hx.
  - intros x y z. apply cmp_lt_trans.
Qed.

Lemma cmp_trichotomy (x y : A) : cmp_lt x y ∨ x = y ∨ cmp_lt y x.
Proof.
  unfold cmp_lt. rewrite (cmp_opp x y). pose proof (cmp_eq_iff x y).
  destruct (cmp x y); simpl; intuition congruence.
Qed.

Lemma cmp_le_iff (x y : A) : cmp_le x y ↔ cmp_lt x y ∨ x = y.
Proof.
  unfold cmp_le, cmp_lt. pose proof (cmp_eq_iff x y).
  destruct (cmp x y); simpl; intuition congruence.
Qed.

Lemma cmp_lt_not_le (x y : A) : cmp_lt x y ↔ ¬ cmp_le y x.
Proof.
  unfold cmp_le, cmp_lt. rewrite (cmp_opp x y).
  destruct (cmp x y); simpl; intuition congruence.
Qed.

#[export] Instance cmp_le_total : Total (cmp_le (A:=A)).
Proof.
  intros x y. destruct (cmp_trichotomy x y) as [?|[?|?]];
    rewrite !cmp_le_iff; auto.
Qed.

#[export] Instance cmp_le_trans : Transitive (cmp_le (A:=A)).
Proof.
  intros x y z. rewrite !cmp_le_iff.
  intros [?|Hxy] [?|Hyz]; subst; auto. left. etransitivity; eassumption.
Qed.

#[export] Instance cmp_le_antisym : AntiSymm (=) (cmp_le (A:=A)).
Proof.
  intros x y. rewrite !cmp_le_iff. intros [Hxy|Hxy] [Hyx|Hyx]; auto.
  exfalso. apply (irreflexivity cmp_lt x). etransitivity; eassumption.
Qed.
End total_cmp.

#[export] Instance Z_total_cmp : TotalCmp Z.
Proof.
  refine {| cmp := Z.compare |}.
  - apply Z.compare_eq_iff.
  - intros. by rewrite Z.compare_antisym.
  - intros x y z. rewrite !Z.compare_lt_iff. lia.
Defined.

(** SQLite's BINARY collation and Go's [<] on strings: bytewise order. *)
Fixpoint string_cmp (s t : string) : comparison :=
  match s, t with
  | EmptyString, EmptyString => Eq
  | EmptyString, String _ _ => Lt
  | String _ _, EmptyString => Gt
  | String a s', String b t' =>
      match N.compare (Ascii.N_of_ascii a) (Ascii.N_of_ascii b) with
      | Eq => string_cmp s' t'
      | c => c
      end
  end.

Lemma N_of_ascii_inj a b : Ascii.N_of_ascii a = Ascii.N_of_ascii b → a = b.
Proof.
  intros Hab. rewrite <- (Ascii.ascii_N_embedding a), <- (Ascii.ascii_N_embedding b).
  by rewrite Hab.
Qed.

#[export] Instance string_total_cmp : TotalCmp string.
Proof.
  refine {| cmp := string_cmp |}.
  - induction x as [|a s IH]; intros [|b t]; simpl; try (split; congruence).
    destruct (N.compare_spec (Ascii.N_of_ascii a) (Ascii.N_of_ascii b)) as [Hab|Hab|Hab].
    + apply N_of_ascii_inj in Hab as ->. rewrite IH. split; congruence.
    + split; [done|]. intros [= ? ?]; subst. lia.
    + split; [done|]. intros [= ? ?]; subst. lia.
  - induction x as [|a s IH]; intros [|b t]; simpl; try done.
    rewrite (N.compare_antisym (Ascii.N_of_ascii a)).
    destruct (N.compare _ _); simpl; auto.
  - induction x as [|a s IH]; intros [|b t] [|c u]; simpl; try done.
    destruct (N.compare_spec (Ascii.N_of_ascii a) (Ascii.N_of_ascii b)) as [Hab|Hab|Hab];
    destruct (N.compare_spec (Ascii.N_of_ascii b) (Ascii.N_of_ascii c)) as [Hbc|Hbc|Hbc];
    destruct (N.compare_spec (Ascii.N_of_ascii a) (Ascii.N_of_ascii c)) as [Hac|Hac|Hac];
      try done; try lia; eauto.
Defined.

#[export] Instance prod_total_cmp `{TotalCmp A, TotalCmp B} : TotalCmp (A * B).
Proof.
  refine {| cmp := λ p q, match cmp p.1 q.1 with
                          | Eq => cmp p.2 q.2 | c => c end |}.
  - intros [a b] [a' b']; simpl. destruct (cmp a a') eqn:E.
    + apply cmp_eq_iff in E as ->. rewrite cmp_eq_iff. split; congruence.
    + split; [done|]. intros [= -> _]. by rewrite cmp_refl in E.
    + split; [done|]. intros [= -> _]. by rewrite cmp_refl in E.
  - intros [a b] [a' b']; simpl. rewrite (cmp_opp a a').
    destruct (cmp a a'); simpl; auto using cmp_opp.
  - intros [a b] [a' b'] [a'' b'']; simpl.
    destruct (cmp a a') eqn:E1; [apply cmp_eq_iff in E1 as ->| |done];
    destruct (cmp a' a'') eqn:E2; try done.
    + intros. by eapply cmp_lt_trans.
    + apply cmp_eq_iff in E2 as ->. by rewrite E1.
    + intros _ _. by rewrite (cmp_lt_trans _ _ _ E1 E2).
Defined.

(** A column sorted [DESC]. *)
Record desc (A : Type) := Desc { undesc : A }.
Arguments Desc {A}.
Arguments undesc {A}.

#[export] Instance desc_total_cmp `{TotalCmp A} : TotalCmp (desc A).
Proof.
  refine {| cmp := λ x y, cmp (undesc y) (undesc x) |}.
  - intros [x] [y]; simpl. rewrite cmp_eq_iff. split; congruence.
  - intros [x] [y]; simpl. apply cmp_opp.
  - intros [x] [y] [z]; simpl. intros ? ?. by eapply cmp_lt_trans.
Defined.

(** * Lists *)

Section lists.
Context {A B : Type}.

Lemma filter_none (P : A → Prop) `{∀ x, Decision (P x)} (l : list A) :
  (∀ x, x ∈ l → ¬ P x) → filter P l = [].
Proof.
  induction l as [|x l IH]; intros Hl; [done|].
  rewrite filter_cons_False by (apply Hl; left). apply IH. intros y Hy.
  apply Hl. by right.
Qed.

Lemma filter_all (P : A → Prop) `{∀ x, Decision (P x)} (l : list A) :
  (∀ x, x ∈ l → P x) → filter P l = l.
Proof.
  induction l as [|x l IH]; intros Hl; [done|].
  rewrite filter_cons_True by (apply Hl; left). f_equal. apply IH.
  intros y Hy. apply Hl. by right.
Qed.

Lemma filter_ext_in (P Q : A → Prop) `{∀ x, Decision (P x), ∀ x, Decision (Q x)} (l : list A) :
  (∀ x, x ∈ l → P x ↔ Q x) → filter P l = filter Q l.
Proof.
  induction l as [|x l IH]; intros Hl; [done|]. rewrite !filter_cons.
  rewrite IH by (intros; apply Hl; by right).
  pose proof (Hl x) as Hx. destruct (decide (P x)), (decide (Q x)); try done; exfalso; set_solver.
Qed.

Lemma NoDup_fmap_filter (f : A → B) (P : A → Prop) `{∀ x, Decision (P x)} (l : list A) :
  NoDup (f <$> l) → NoDup (f <$> filter P l).
Proof.
  induction l as [|x l IH]; simpl; [done|].
  rewrite NoDup_cons, filter_cons. intros [Hx Hl]. case_decide; [|by auto].
  simpl. apply NoDup_cons. split; [|by auto].
  rewrite list_elem_of_fmap in Hx |- *. intros (y & Hy & [_ ?]%list_elem_of_filter). eauto.
Qed.

(** The rows of a table that a query keeps have unique keys. *)
Lemma NoDup_fmap_omap {K K'} (f : A → option B) (k : A → K) (key : B → K') (g : K' → K) (l : list A) :
  (∀ a b, f a = Some b → k a = g (key b)) →
  NoDup (k <$> l) → NoDup (key <$> omap f l).
Proof.
  intros Hf. induction l as [|a l IH]; [constructor|].
  rewrite fmap_cons, NoDup_cons. intros [Hni Hl]. cbn. destruct (f a) as [b|] eqn:E; [|auto].
  cbn. apply NoDup_cons. split; [|auto]. intros Hin. apply Hni.
  apply list_elem_of_fmap in Hin as (b' & Hk & Hin).
  apply list_elem_of_omap in Hin as (a' & Hin & Hf').
  rewrite (Hf _ _ E), Hk, <- (Hf _ _ Hf'). by apply list_elem_of_fmap_2.
Qed.

Lemma StronglySorted_filter (R : relation A) (P : A → Prop) `{∀ x, Decision (P x)} (l : list A) :
  StronglySorted R l → StronglySorted R (filter P l).
Proof.
  induction 1 as [|x l Hs IH Hx]; [constructor|].
  rewrite filter_cons. case_decide; [|done]. constructor; [done|].
  rewrite Forall_forall in Hx |- *. intros y [_ Hy]%list_elem_of_filter. by apply Hx.
Qed.
End lists.

(** * SQL aggregates *)

(** [MAX(col)], [None] for NULL. *)
Definition sql_max (l : list Z) : option Z :=
  match l with [] => None | v :: vs => Some (foldr Z.max v vs) end.

(** [COALESCE(MAX(col), 0) + 1]. *)
Definition sql_next (l : list Z) : Z := default 0 (sql_max l) + 1.

Lemma sql_max_Some l m : sql_max l = Some m ↔ m ∈ l ∧ ∀ x, x ∈ l → x ≤ m.
Proof.
  assert (∀ v vs, foldr Z.max v vs ∈ v :: vs ∧ ∀ x, x ∈ v :: vs → x ≤ foldr Z.max v vs) as Hf.
  { intros v vs. induction vs as [|u vs [Hin Hle]]; cbn; [set_solver by lia|]. split.
    - destruct (Z.max_spec u (foldr Z.max v vs)) as [[_ ->]|[_ ->]]; set_solver.
    - intros x Hx. assert (x = u ∨ x ∈ v :: vs) as [->|Hx'] by set_solver; [lia|]. specialize (Hle x Hx'). lia. }
  destruct l as [|v vs]; cbn; [set_solver|]. destruct (Hf v vs) as [Hin Hle]. split.
  - by intros [= <-].
  - intros [Hm Hmax]. f_equal. apply Z.le_antisymm; auto.
Qed.

Lemma sql_max_None l : sql_max l = None ↔ l = [].
Proof. by destruct l. Qed.

Lemma sql_next_gt l x : x ∈ l → x < sql_next l.
Proof.
  intros Hx. unfold sql_next. destruct (sql_max l) as [m|] eqn:E; cbn.
  - apply sql_max_Some in E as [_ Hle]. specialize (Hle _ Hx). lia.
  - apply sql_max_None in E. subst. by apply elem_of_nil in Hx.
Qed.

Lemma sql_next_pred l : sql_next l = 1 ∨ sql_next l - 1 ∈ l.
Proof.
  unfold sql_next. destruct (sql_max l) as [m|] eqn:E; cbn; [right|by left].
  apply sql_max_Some in E as [Hin _]. by replace (m + 1 - 1) with m by lia.
Qed.

(** * Sorting a table by a key *)

Section sort_by.
Context {A K : Type} `{TotalCmp K} (key : A → K).

Definition key_le (x y : A) : Prop := cmp_le (key x) (key y).
Definition key_lt (x y : A) : Prop := cmp_lt (key x) (key y).

#[export] Instance key_le_dec : RelDecision key_le.
Proof. intros x y. unfold key_le. apply _. Defined.
#[export] Instance key_le_total : Total key_le.
Proof. intros x y. unfold key_le. apply cmp_le_total. Qed.
#[export] Instance key_le_trans : Transitive key_le.
Proof. intros x y z. unfold key_le. apply cmp_le_trans. Qed.

(** [ORDER BY key]: the rows in key order.  The rows of one table with a
    unique key have only one such order ([sort_by_unique]). *)
Definition sort_by (l : list A) : list A := merge_sort key_le l.

Lemma sort_by_perm l : sort_by l ≡ₚ l.
Proof. apply merge_sort_Permutation. Qed.

Lemma elem_of_sort_by x l : x ∈ sort_by l ↔ x ∈ l.
Proof. by rewrite sort_by_perm. Qed.

Lemma length_sort_by l : length (sort_by l) = length l.
Proof. by rewrite sort_by_perm. Qed.

Lemma sort_by_le l : StronglySorted key_le (sort_by l).
Proof. apply StronglySorted_merge_sort; apply _. Qed.

(** With unique keys the order is strict. *)
Lemma StronglySorted_le_lt l :
  NoDup (key <$> l) → StronglySorted key_le l → StronglySorted key_lt l.
Proof.
  induction l as [|x l IH]; simpl; [constructor|].
  rewrite NoDup_cons. intros [Hx Hl] Hs. apply StronglySorted_inv in Hs as [Hs Hle].
  constructor; [by apply IH|]. rewrite Forall_forall in Hle |- *. intros y Hy.
  specialize (Hle y Hy). unfold key_le, key_lt in *.
  apply cmp_le_iff in Hle as [?|Heq]; [done|].
  exfalso. apply Hx. rewrite Heq. by apply list_elem_of_fmap_2.
Qed.

Lemma StronglySorted_lt_NoDup l : StronglySorted key_lt l → NoDup l.
Proof.
  induction 1 as [|x l Hs IH Hx]; constructor; [|done]. intros Hin.
  rewrite Forall_forall in Hx. by apply (irreflexivity cmp_lt (key x)), Hx.
Qed.

Lemma sort_by_lt l : NoDup (key <$> l) → StronglySorted key_lt (sort_by l).
Proof.
  intros Hd. apply StronglySorted_le_lt; [|apply sort_by_le].
  by rewrite sort_by_perm.
Qed.

Lemma StronglySorted_lt_unique l1 l2 :
  StronglySorted key_lt l1 → StronglySorted key_lt l2 → l1 ≡ₚ l2 → l1 = l2.
Proof.
  intros H1 H2 Hp. apply (StronglySorted_unique_strong key_lt); [|done..].
  intros x y _ _ Hxy Hyx. exfalso. unfold key_lt in *.
  apply (irreflexivity cmp_lt (key x)). etransitivity; eassumption.
Qed.

(** [ORDER BY key LIMIT 1]. *)
Lemma head_sort_by l x :
  NoDup (key <$> l) → head (sort_by l) = Some x ↔ x ∈ l ∧ ∀ y, y ∈ l → key_le x y.
Proof.
  intros Hd. split.
  - intros Hh. destruct (sort_by l) as [|x' l'] eqn:E; [done|]. injection Hh as ->.
    assert (x ∈ sort_by l) as Hx by (rewrite E; left).
    rewrite elem_of_sort_by in Hx. split; [done|]. intros y Hy.
    rewrite <- elem_of_sort_by, E in Hy. pose proof (sort_by_le l) as Hs. rewrite E in Hs.
    apply StronglySorted_inv in Hs as [_ Hs]. rewrite Forall_forall in Hs.
    apply elem_of_cons in Hy as [->|Hy]; [|auto]. unfold key_le. apply cmp_le_iff. by right.
  - intros [Hx Hle]. destruct (sort_by l) as [|x' l'] eqn:E.
    { rewrite <- elem_of_sort_by, E in Hx. by apply elem_of_nil in Hx. }
    rewrite <- elem_of_sort_by, E in Hx. apply elem_of_cons in Hx as [->|Hx]; [done|].
    pose proof (sort_by_lt l Hd) as Hs. rewrite E in Hs.
    apply StronglySorted_inv in Hs as [_ Hs]. rewrite Forall_forall in Hs.
    assert (key_le x x') as Hle' by (apply Hle; rewrite <- elem_of_sort_by, E; left).
    exfalso. by apply (cmp_lt_not_le (key x') (key x)), Hle'; apply Hs.
Qed.

(** A row with the highest key comes last. *)
Lemma sort_by_snoc l x :
  NoDup (key <$> l) → (∀ y, y ∈ l → key_lt y x) → sort_by (x :: l) = sort_by l ++ [x].
Proof.
  intros Hd Hx. apply StronglySorted_lt_unique.
  - apply sort_by_lt. rewrite fmap_cons. apply NoDup_cons. split; [|done].
    intros (y & Heq & Hy)%list_elem_of_fmap. specialize (Hx y Hy). unfold key_lt in Hx. rewrite Heq in Hx.
    by apply irreflexivity in Hx; [|apply _].
  - apply StronglySorted_app_2; [|by apply sort_by_lt|repeat constructor].
    intros y z Hy Hz. apply list_elem_of_singleton in Hz as ->. apply Hx. by apply elem_of_sort_by.
  - rewrite !sort_by_perm. apply Permutation_cons_append.
Qed.

(** The sorted order does not depend on the order of the scan. *)
Lemma sort_by_unique l1 l2 :
  NoDup (key <$> l1) → l1 ≡ₚ l2 → sort_by l1 = sort_by l2.
Proof.
  intros Hd Hp. apply StronglySorted_lt_unique.
  - by apply sort_by_lt.
  - apply sort_by_lt. by rewrite <- Hp.
  - by rewrite !sort_by_perm.
Qed.
End sort_by.

(** * Key-set pagination

    A page is the first [n] rows strictly after the cursor; a full page is
    followed by a cursor to its last row.  This is the shape of every paged
    query of the store: [LIMIT n+1], drop the extra row, encode the last. *)

Section paging.
Context {A K : Type} `{TotalCmp K} (key : A → K).

Definition after (cur : option K) (x : A) : Prop :=
  match cur with None => True | Some k => cmp_lt k (key x) end.

#[export] Instance after_dec cur : ∀ x, Decision (after cur x).
Proof. intros x. unfold after. destruct cur; apply _. Defined.

(** [WHERE key > cursor ORDER BY key LIMIT n+1], then the split. *)
Definition page (n : nat) (rows : list A) (cur : option K) : list A * option K :=
  let out := take (S n) (sort_by key (filter (after cur) rows)) in
  if decide (n < length out)%nat then
    let out' := take n out in
    (out', key <$> last out')
  else (out, None).

(** A client that follows the tokens, with [fuel] requests at most. *)
Fixpoint pages (fuel n : nat) (rows : list A) (cur : option K) : option (list (list A)) :=
  match fuel with
  | O => None
  | S fuel' =>
      match page n rows cur with
      | (out, None) => Some [out]
      | (out, Some k) => cons out <$> pages fuel' n rows (Some k)
      end
  end.

(** On a sorted list, "strictly after the cursor" is the rest of the list. *)
Lemma filter_after_sorted l1 x l2 :
  StronglySorted (key_lt key) (l1 ++ x :: l2) →
  filter (after (Some (key x))) (l1 ++ x :: l2) = l2.
Proof.
  intros Hs. rewrite filter_app, filter_cons_False
    by (simpl; apply irreflexivity; apply _).
  pose proof Hs as [Hcross [_ Hs2]]%StronglySorted_app.
  apply StronglySorted_cons in Hs2 as [Hx _].
  rewrite (filter_none _ l1), (filter_all _ l2); [done| |].
  - rewrite Forall_forall in Hx. exact Hx.
  - intros y Hy Hlt.
    apply (irreflexivity cmp_lt (key y)).
    etransitivity; [apply (Hcross y x); [done|left]|done].
Qed.

Lemma sort_by_filter (P : A → Prop) `{∀ x, Decision (P x)} rows :
  NoDup (key <$> rows) → sort_by key (filter P rows) = filter P (sort_by key rows).
Proof.
  intros Hd. apply (StronglySorted_lt_unique key).
  - apply sort_by_lt. by apply NoDup_fmap_filter.
  - apply StronglySorted_filter. by apply sort_by_lt.
  - by rewrite !sort_by_perm.
Qed.

(** One page from a cursor in the middle of the sorted table. *)
Lemma page_suffix n rows cur rest :
  NoDup (key <$> rows) →
  filter (after cur) (sort_by key rows) = rest →
  page n rows cur =
    if decide (n < length rest)%nat
    then (take n rest, key <$> last (take n rest)) else (rest, None).
Proof.
  intros Hd Hr. unfold page. rewrite sort_by_filter, Hr by done.
  rewrite length_take.
  destruct (decide (n < length rest)%nat) as [Hlt|Hge].
  - rewrite decide_True by lia. by rewrite take_take, Nat.min_l by lia.
  - rewrite decide_False by lia. by rewrite take_ge by lia.
Qed.

(** Following the tokens from a cursor returns, in order and without
    repetition, every row after the cursor, in at most one request more
    than there are rows left. *)
Lemma pages_complete_from fuel n rows l1 cur rest :
  (0 < n)%nat → NoDup (key <$> rows) →
  sort_by key rows = l1 ++ rest →
  filter (after cur) (sort_by key rows) = rest →
  (length rest < fuel)%nat →
  ∃ ps, pages fuel n rows cur = Some ps ∧ concat ps = rest.
Proof.
  intros Hn Hd. revert l1 cur rest.
  induction fuel as [|fuel IH]; intros l1 cur rest Hsplit Hr Hf; [lia|].
  cbn [pages]. rewrite (page_suffix n rows cur rest Hd Hr).
  destruct (decide (n < length rest)%nat) as [Hlt|Hge].
  - destruct (last_is_Some (take n rest)) as [_ Hlast].
    destruct Hlast as [x Hx].
    { intros Ht. apply (f_equal length) in Ht. rewrite length_take in Ht.
      simpl in Ht. lia. }
    rewrite Hx. simpl.
    apply last_Some in Hx as [l' Hl'].
    assert (sort_by key rows = (l1 ++ l') ++ x :: drop n rest) as Hsplit'.
    { rewrite Hsplit, <- (take_drop n rest) at 1. rewrite Hl'.
      by rewrite <- !(assoc_L (++)). }
    pose proof (sort_by_lt key rows Hd) as Hsort.
    destruct (IH ((l1 ++ l') ++ [x]) (Some (key x)) (drop n rest)) as (ps & Hps & Hc).
    + rewrite Hsplit'. by rewrite <- (app_assoc (l1 ++ l') [x]).
    + rewrite Hsplit'. apply filter_after_sorted. by rewrite <- Hsplit'.
    + rewrite length_drop. lia.
    + exists (take n rest :: ps). rewrite Hps. split; [done|].
      simpl. rewrite Hc. apply take_drop.
  - exists [rest]. split; [done|]. simpl. apply app_nil_r.
Qed.

Theorem pages_complete n rows :
  (0 < n)%nat → NoDup (key <$> rows) →
  ∃ ps, pages (S (length rows)) n rows None = Some ps ∧
        concat ps = sort_by key rows.
Proof.
  intros Hn Hd. apply (pages_complete_from _ _ _ [] None); [done..| |].
  - apply filter_all. done.
  - rewrite length_sort_by. lia.
Qed.

(** A cursor points at a row of the table. *)
Lemma page_next_in n rows cur out k :
  page n rows cur = (out, Some k) → ∃ x, x ∈ rows ∧ k = key x.
Proof.
  unfold page. case_decide; [|done]. intros [= _ Hl]. apply fmap_Some in Hl as (x & Hx & ->).
  exists x. split; [|done]. apply last_Some in Hx as [l' Hl'].
  assert (x ∈ take n (take (S n) (sort_by key (filter (after cur) rows)))) as Hin
    by (rewrite Hl'; apply elem_of_app; right; by left).
  rewrite take_take in Hin. apply elem_of_take in Hin as (i & Hi & _).
  apply list_elem_of_lookup_2, elem_of_sort_by, list_elem_of_filter in Hi. by destruct Hi.
Qed.

Lemma page_in n rows cur out next x : page n rows cur = (out, next) → x ∈ out → x ∈ rows.
Proof.
  unfold page. intros Hp Hx.
  assert (x ∈ sort_by key (filter (after cur) rows)) as Hin; [|by apply elem_of_sort_by, list_elem_of_filter in Hin as [_ ?]].
  case_decide; injection Hp as <- _; rewrite ?take_take in Hx;
    apply elem_of_take in Hx as (i & Hi & _); by apply list_elem_of_lookup_2 in Hi.
Qed.

Lemma length_page n rows cur out next :
  page n rows cur = (out, next) → (length out ≤ n)%nat.
Proof.
  unfold page. case_decide as Hd; intros [= <- _].
  - rewrite !length_take. lia.
  - lia.
Qed.
End paging.
