(* ===== verification/GoStrings.v ===== *)
(** * Go strings

    A Go [string] is a byte sequence; so is Rocq's [string].  This file
    models the functions of the packages [strings], [strconv] and
    [unicode] that the repository calls, with the lemmas on them that the
    components share.

    [TrimSpace] and [Fields] use Unicode white space, matched on its UTF-8
    encoding.  [ToUpper] and [ToLower] map the ASCII letters and the three
    code points outside ASCII that map into it (U+0131 and U+017F upwards,
    U+212A downwards); the case of other non-ASCII letters is left alone, as
    the code only looks for ASCII key words in the result. *)

From S2P Require Import Prelude.
From Stdlib Require Import DecimalString DecimalZ DecimalPos.
From Stdlib Require Import Ascii.

Open Scope Z_scope.

#[global] Arguments String.append !_ _ : simpl nomatch.

Abbreviation slen := String.length.

Definition byte_of (c : Ascii.ascii) : N := Ascii.N_of_ascii c.

(** ** Concatenation, slices and search *)

(** [s[:n]] and [s[n:]] for [0 <= n <= len s]. *)
Fixpoint stake (n : nat) (s : string) : string :=
  match n, s with
  | S n', String c s' => String c (stake n' s')
  | _, _ => EmptyString
  end.

Fixpoint sdrop (n : nat) (s : string) : string :=
  match n, s with
  | O, _ => s
  | S n', String _ s' => sdrop n' s'
  | S _, EmptyString => EmptyString
  end.

(** [s[i:j]] where Go panics when the bounds are out of range. *)
Definition slice (s : string) (i j : nat) : result string :=
  if decide (i ≤ j ∧ j ≤ slen s)%nat
  then Ok (stake (j - i) (sdrop i s)) else Err ErrPanic.

Fixpoint HasPrefix (s p : string) : bool :=
  match p, s with
  | EmptyString, _ => true
  | String b p', String a s' => bool_decide (a = b) && HasPrefix s' p'
  | String _ _, EmptyString => false
  end.

Definition TrimPrefix (s p : string) : string :=
  if HasPrefix s p then sdrop (slen p) s else s.

Definition CutPrefix (s p : string) : option string :=
  if HasPrefix s p then Some (sdrop (slen p) s) else None.

Definition HasSuffix (s p : string) : bool :=
  (slen p <=? slen s)%nat && bool_decide (sdrop (slen s - slen p) s = p).

Definition TrimSuffix (s p : string) : string :=
  if HasSuffix s p then stake (slen s - slen p) s else s.

(** [strings.Index]: the least offset at which [p] occurs. *)
Fixpoint Index (s p : string) : option nat :=
  if HasPrefix s p then Some O
  else match s with
       | EmptyString => None
       | String _ s' => S <$> Index s' p
       end.

Fixpoint LastIndex (s p : string) : option nat :=
  match (match s with EmptyString => None | String _ s' => S <$> LastIndex s' p end) with
  | Some i => Some i
  | None => if HasPrefix s p then Some O else None
  end.

Definition Contains (s p : string) : bool := bool_decide (is_Some (Index s p)).

(** [strings.Cut(s, sep)]: the parts before and after the first [sep]. *)
Definition Cut (s sep : string) : option (string * string) :=
  match Index s sep with
  | Some i => Some (stake i s, sdrop (i + slen sep) s)
  | None => None
  end.

Fixpoint any_byte (f : Ascii.ascii → bool) (s : string) : bool :=
  match s with
  | EmptyString => false
  | String c s' => f c || any_byte f s'
  end.

Definition ContainsAny (s chars : string) : bool :=
  any_byte (λ c, any_byte (λ d, bool_decide (c = d)) chars) s.

Definition Join (sep : string) (l : list string) : string :=
  match l with
  | [] => EmptyString
  | x :: l' => x +:+ foldr (λ y acc, sep +:+ y +:+ acc) EmptyString l'
  end.

(** [strings.Split(s, sep)] for a one-byte separator. *)
Fixpoint Split1 (sep : Ascii.ascii) (s : string) : list string :=
  match s with
  | EmptyString => [EmptyString]
  | String c s' =>
      if bool_decide (c = sep) then EmptyString :: Split1 sep s'
      else match Split1 sep s' with
           | w :: ws => String c w :: ws
           | [] => [String c EmptyString]
           end
  end.

(** ** Reversal, used for the functions that scan from the right *)

Fixpoint srev_app (s acc : string) : string :=
  match s with
  | EmptyString => acc
  | String c s' => srev_app s' (String c acc)
  end.

Definition srev (s : string) : string := srev_app s EmptyString.

(** ** White space *)

(** Drop one leading white-space rune, if there is one. *)
Definition byte_in (lo hi : N) (c : Ascii.ascii) : bool :=
  ((lo <=? byte_of c) && (byte_of c <=? hi))%N.
Definition byte_is (b : N) (c : Ascii.ascii) : bool := (byte_of c =? b)%N.

Definition ascii_space (c : Ascii.ascii) : bool := byte_in 9 13 c || byte_is 32 c.

Definition drop_space (s : string) : option string :=
  match s with
  | EmptyString => None
  | String a s1 =>
      if ascii_space a then Some s1 else
      match s1 with
      | EmptyString => None
      | String b s2 =>
          (* U+0085, U+00A0 *)
          if byte_is 194 a && (byte_is 133 b || byte_is 160 b) then Some s2 else
          match s2 with
          | EmptyString => None
          | String c s3 =>
              if (byte_is 225 a && byte_is 154 b && byte_is 128 c)          (* U+1680 *)
              || (byte_is 226 a && byte_is 128 b &&
                   (byte_in 128 138 c || byte_is 168 c || byte_is 169 c || byte_is 175 c))
              || (byte_is 226 a && byte_is 129 b && byte_is 159 c)          (* U+205F *)
              || (byte_is 227 a && byte_is 128 b && byte_is 128 c)          (* U+3000 *)
              then Some s3 else None
          end
      end
  end.

(** The same from the right, on the reversed string. *)
Definition drop_space_rev (s : string) : option string :=
  match s with
  | EmptyString => None
  | String c s1 =>
      if ascii_space c then Some s1 else
      match s1 with
      | EmptyString => None
      | String b s2 =>
          if byte_is 194 b && (byte_is 133 c || byte_is 160 c) then Some s2 else
          match s2 with
          | EmptyString => None
          | String a s3 =>
              if (byte_is 225 a && byte_is 154 b && byte_is 128 c)
              || (byte_is 226 a && byte_is 128 b &&
                   (byte_in 128 138 c || byte_is 168 c || byte_is 169 c || byte_is 175 c))
              || (byte_is 226 a && byte_is 129 b && byte_is 159 c)
              || (byte_is 227 a && byte_is 128 b && byte_is 128 c)
              then Some s3 else None
          end
      end
  end.

(** [fuel = len s] is enough: every step drops at least one byte. *)
Fixpoint drop_spaces (step : string → option string) (fuel : nat) (s : string) : string :=
  match fuel with
  | O => s
  | S fuel' => match step s with Some s' => drop_spaces step fuel' s' | None => s end
  end.

Definition TrimLeftSpace (s : string) : string := drop_spaces drop_space (slen s) s.
Definition TrimRightSpace (s : string) : string :=
  srev (drop_spaces drop_space_rev (slen s) (srev s)).
Definition TrimSpace (s : string) : string := TrimRightSpace (TrimLeftSpace s).

(** [strings.Fields]: maximal runs of non-space.  [cur] is the reversed
    current word. *)
Fixpoint fields_go (fuel : nat) (s cur : string) : list string :=
  let flush := if decide (cur = EmptyString) then [] else [srev cur] in
  match fuel with
  | O => flush
  | S fuel' =>
      match drop_space s with
      | Some s' => flush ++ fields_go fuel' s' EmptyString
      | None => match s with
                | EmptyString => flush
                | String c s' => fields_go fuel' s' (String c cur)
                end
      end
  end.

Definition Fields (s : string) : list string := fields_go (S (slen s)) s EmptyString.

(** [strings.Trim(s, cutset)] and [TrimRight] for ASCII cut sets. *)
Fixpoint trim_left_set (cutset s : string) : string :=
  match s with
  | EmptyString => EmptyString
  | String c s' =>
      if any_byte (λ d, bool_decide (c = d)) cutset then trim_left_set cutset s' else s
  end.

Definition TrimRight (s cutset : string) : string := srev (trim_left_set cutset (srev s)).
Definition Trim (s cutset : string) : string := TrimRight (trim_left_set cutset s) cutset.

(** The cut set of the filter parsers: the single and the double quote. *)
Definition quotes : string := String "039"%char (String "034"%char EmptyString).

(** [strings.TrimRight(s, "/")]. *)
Fixpoint TrimRightSlash (s : string) : string :=
  match s with
  | EmptyString => EmptyString
  | String c s' =>
      match TrimRightSlash s' with
      | EmptyString => if byte_is 47 c then EmptyString else String c EmptyString
      | t => String c t
      end
  end.

(** ** Case *)

Definition upper_byte (c : Ascii.ascii) : Ascii.ascii :=
  if byte_in 97 122 c then Ascii.ascii_of_N (byte_of c - 32) else c.
Definition lower_byte (c : Ascii.ascii) : Ascii.ascii :=
  if byte_in 65 90 c then Ascii.ascii_of_N (byte_of c + 32) else c.

Fixpoint ToUpper (s : string) : string :=
  match s with
  | EmptyString => EmptyString
  | String a s1 =>
      match s1 with
      | String b s2 =>
          if byte_is 196 a && byte_is 177 b then String "I"%char (ToUpper s2)      (* U+0131 *)
          else if byte_is 197 a && byte_is 191 b then String "S"%char (ToUpper s2) (* U+017F *)
          else String (upper_byte a) (ToUpper s1)
      | EmptyString => String (upper_byte a) EmptyString
      end
  end.

Fixpoint ToLower (s : string) : string :=
  match s with
  | EmptyString => EmptyString
  | String a s1 =>
      match s1 with
      | String b (String c s3) =>
          if byte_is 226 a && byte_is 132 b && byte_is 170 c                  (* U+212A *)
          then String "k"%char (ToLower s3) else String (lower_byte a) (ToLower s1)
      | _ => String (lower_byte a) (ToLower s1)
      end
  end.

Definition ascii_only (s : string) : bool := negb (any_byte (byte_in 128 255) s).

(** ** Decimal integers *)

(** [strconv.FormatInt(z, 10)] and [%d]. *)
Definition FormatInt (z : Z) : string := NilZero.string_of_int (Z.to_int z).

(** [strconv.ParseInt(s, 10, 64)]: an optional sign, at least one digit,
    and the value in range. *)
Definition parse_digits (s : string) : option Z :=
  match s with
  | EmptyString => None
  | _ => Z.of_uint <$> NilEmpty.uint_of_string s
  end.

Definition ParseInt (s : string) : option Z :=
  let v := match s with
           | String "-"%char s' => Z.opp <$> parse_digits s'
           | String "+"%char s' => parse_digits s'
           | _ => parse_digits s
           end in
  match v with
  | Some z => if decide (in_int64 z) then Some z else None
  | None => None
  end.

(** * Lemmas *)

Lemma slen_app s t : slen (s +:+ t) = (slen s + slen t)%nat.
Proof. induction s as [|c s IH]; simpl; [done|]. by rewrite IH. Qed.

Lemma sapp_nil_r s : s +:+ EmptyString = s.
Proof. induction s as [|c s IH]; simpl; [done|]. by rewrite IH. Qed.

Lemma sapp_assoc s t u : (s +:+ t) +:+ u = s +:+ (t +:+ u).
Proof. induction s as [|c s IH]; simpl; [done|]. by rewrite IH. Qed.

Lemma stake_app s t : stake (slen s) (s +:+ t) = s.
Proof. induction s as [|c s IH]; simpl; [by destruct t|]. by rewrite IH. Qed.

Lemma sdrop_app s t : sdrop (slen s) (s +:+ t) = t.
Proof. by induction s. Qed.

Lemma sdrop_app_plus s t n : sdrop (slen s + n) (s +:+ t) = sdrop n t.
Proof. by induction s. Qed.

Lemma stake_sdrop n s : stake n s +:+ sdrop n s = s.
Proof.
  revert s. induction n as [|n IH]; intros [|c s]; simpl; [done..|]. by rewrite IH.
Qed.

Lemma slen_stake n s : slen (stake n s) = Nat.min n (slen s).
Proof.
  revert s. induction n as [|n IH]; intros [|c s]; simpl; [done..|]. by rewrite IH.
Qed.

Lemma slen_sdrop n s : slen (sdrop n s) = (slen s - n)%nat.
Proof.
  revert s. induction n as [|n IH]; intros [|c s]; simpl; [done..|]. by rewrite IH.
Qed.

Lemma HasPrefix_nil s : HasPrefix s EmptyString = true.
Proof. by destruct s. Qed.

Lemma HasPrefix_app s p : HasPrefix (p +:+ s) p = true.
Proof.
  induction p as [|b p IH]; simpl; [apply HasPrefix_nil|].
  by rewrite bool_decide_eq_true_2.
Qed.

Lemma HasPrefix_spec s p : HasPrefix s p = true ↔ ∃ t, s = p +:+ t.
Proof.
  split.
  - revert s. induction p as [|b p IH]; intros s; simpl; [by exists s|].
    destruct s as [|a s]; [done|]. intros [Ha Hp]%andb_prop.
    apply bool_decide_eq_true_1 in Ha as ->. destruct (IH s Hp) as [t ->]. by exists t.
  - intros [t ->]. apply HasPrefix_app.
Qed.

Lemma TrimPrefix_app p s : TrimPrefix (p +:+ s) p = s.
Proof. unfold TrimPrefix. by rewrite HasPrefix_app, sdrop_app. Qed.

Lemma Index_spec s p i :
  Index s p = Some i →
  s = stake i s +:+ p +:+ sdrop (i + slen p) s ∧ (i + slen p ≤ slen s)%nat.
Proof.
  revert i. induction s as [|c s IH]; intros i; cbn [Index].
  - destruct p; simpl; [|done]. by intros [= <-].
  - destruct (HasPrefix (String c s) p) eqn:Hp.
    + intros [= <-]. apply HasPrefix_spec in Hp as [t Ht]. rewrite Ht. simpl.
      rewrite sdrop_app, slen_app. split; [done|lia].
    + destruct (Index s p) as [j|]; [|done]. intros [= <-]. simpl.
      destruct (IH j eq_refl) as [Hs Hl]. split; [by rewrite <- Hs|lia].
Qed.

Lemma Index_le s p i : Index s p = Some i → (i + slen p ≤ slen s)%nat.
Proof. intros H. by apply Index_spec in H as [_ H]. Qed.

Lemma LastIndex_app_not_in s c t :
  any_byte (λ d, bool_decide (d = c)) t = false →
  LastIndex (s +:+ String c t) (String c EmptyString) = Some (slen s).
Proof.
  intros Ht.
  assert (LastIndex t (String c EmptyString) = None) as Hnone.
  { induction t as [|d t IH]; simpl in *; [done|].
    apply orb_false_iff in Ht as [Hd Ht]. rewrite IH by done. simpl. by rewrite Hd. }
  induction s as [|d s IH]; simpl.
  - rewrite Hnone. simpl. by rewrite bool_decide_eq_true_2, HasPrefix_nil.
  - by rewrite IH.
Qed.

(** Reversal. *)
Lemma srev_app_app s acc acc' : srev_app s (acc +:+ acc') = srev_app s acc +:+ acc'.
Proof.
  revert acc. induction s as [|c s IH]; intros acc; simpl; [done|].
  by rewrite <- (IH (String c acc)).
Qed.

Lemma srev_cons c s : srev (String c s) = srev s +:+ String c EmptyString.
Proof. unfold srev. simpl. by rewrite <- srev_app_app. Qed.

Lemma srev_app_distr s t : srev (s +:+ t) = srev t +:+ srev s.
Proof.
  induction s as [|c s IH]; simpl.
  - by rewrite sapp_nil_r.
  - by rewrite !srev_cons, IH, sapp_assoc.
Qed.

Lemma srev_involutive s : srev (srev s) = s.
Proof.
  induction s as [|c s IH]; [done|]. by rewrite srev_cons, srev_app_distr, IH.
Qed.

Lemma slen_srev s : slen (srev s) = slen s.
Proof.
  induction s as [|c s IH]; [done|].
  rewrite srev_cons, slen_app. simpl. lia.
Qed.

(** A string that starts and ends with a non-space is its own [TrimSpace]. *)
Lemma drop_spaces_none step fuel s : step s = None → drop_spaces step fuel s = s.
Proof. intros H. destruct fuel; simpl; [done|]. by rewrite H. Qed.

Lemma TrimSpace_id s :
  drop_space s = None → drop_space_rev (srev s) = None → TrimSpace s = s.
Proof.
  intros H1 H2. unfold TrimSpace, TrimLeftSpace, TrimRightSpace.
  rewrite (drop_spaces_none drop_space) by done.
  rewrite drop_spaces_none by done. apply srev_involutive.
Qed.

Lemma drop_space_ascii c s :
  byte_in 128 255 c = false → ascii_space c = false → drop_space (String c s) = None.
Proof.
  unfold byte_in, drop_space, byte_is. intros Hc ->.
  assert (byte_of c < 128 ∨ 255 < byte_of c)%N as Hb.
  { apply andb_false_iff in Hc as [?%N.leb_gt|?%N.leb_gt]; lia. }
  assert (∀ k, (128 <= k <= 255)%N → (byte_of c =? k)%N = false) as Hk.
  { intros k ?. apply N.eqb_neq. lia. }
  destruct s as [|b [|d s]]; try done; by rewrite !Hk by lia.
Qed.

(** A byte below 128 is a rune of its own, also from the right. *)
Lemma drop_space_rev_ascii c s :
  byte_in 128 255 c = false → ascii_space c = false → drop_space_rev (String c s) = None.
Proof.
  unfold byte_in, drop_space_rev, byte_is. intros Hc ->.
  assert (byte_of c < 128 ∨ 255 < byte_of c)%N as Hb.
  { apply andb_false_iff in Hc as [?%N.leb_gt|?%N.leb_gt]; lia. }
  assert (∀ k, (128 <= k <= 255)%N → (byte_of c =? k)%N = false) as Hk.
  { intros k ?. apply N.eqb_neq. lia. }
  assert ((128 <=? byte_of c) && (byte_of c <=? 138) = false)%N as Hr.
  { apply andb_false_iff. rewrite !N.leb_gt. lia. }
  destruct s as [|b [|d s]]; try done; unfold byte_in; rewrite ?Hr, !Hk by lia;
    by rewrite ?andb_false_r.
Qed.

(** Case mapping of ASCII strings keeps every offset. *)
Lemma slen_ToUpper_ascii s : ascii_only s = true → slen (ToUpper s) = slen s.
Proof.
  unfold ascii_only. rewrite negb_true_iff.
  induction s as [|a s IH]; [done|]. simpl. intros [Ha Hs]%orb_false_iff.
  specialize (IH Hs).
  assert (byte_is 196 a = false ∧ byte_is 197 a = false) as [H1 H2].
  { unfold byte_is, byte_in in *. rewrite !N.eqb_neq.
    apply andb_false_iff in Ha as [?%N.leb_gt|?%N.leb_gt]; lia. }
  destruct s as [|b s]; [done|]. rewrite H1, H2.
  cbn [andb String.length]. f_equal. exact IH.
Qed.

(** Decimal round trip. *)
Lemma uint_string_nonempty u : u ≠ Decimal.Nil → NilEmpty.string_of_uint u ≠ EmptyString.
Proof. by destruct u. Qed.

Definition is_digit (c : Ascii.ascii) : bool := byte_in 48 57 c.

Lemma string_of_uint_digits u :
  any_byte (λ c, negb (is_digit c)) (NilEmpty.string_of_uint u) = false.
Proof. induction u; simpl; auto. Qed.

Lemma parse_digits_uint u :
  u ≠ Decimal.Nil → parse_digits (NilEmpty.string_of_uint u) = Some (Z.of_uint u).
Proof.
  intros Hu. unfold parse_digits.
  destruct (NilEmpty.string_of_uint u) eqn:E; [by apply uint_string_nonempty in E|].
  by rewrite <- E, NilEmpty.usu.
Qed.

Lemma ParseInt_digits u :
  u ≠ Decimal.Nil →
  ParseInt (NilEmpty.string_of_uint u) =
    if decide (in_int64 (Z.of_uint u)) then Some (Z.of_uint u) else None.
Proof.
  intros Hu. pose proof (parse_digits_uint u Hu) as Hp. unfold ParseInt.
  destruct u; try done; simpl in *; by rewrite Hp.
Qed.

Lemma to_uint_nonnil p : Pos.to_uint p ≠ Decimal.Nil.
Proof. apply Unsigned.to_uint_nonnil. Qed.

Lemma ParseInt_FormatInt z : in_int64 z → ParseInt (FormatInt z) = Some z.
Proof.
  intros Hz. unfold FormatInt.
  destruct z as [|p|p]; simpl.
  - done.
  - assert (NilZero.string_of_uint (Pos.to_uint p) = NilEmpty.string_of_uint (Pos.to_uint p)) as ->.
    { pose proof (to_uint_nonnil p). by destruct (Pos.to_uint p). }
    rewrite ParseInt_digits by apply to_uint_nonnil.
    assert (Z.of_uint (Pos.to_uint p) = Zpos p) as -> by apply (DecimalZ.of_to (Zpos p)).
    by rewrite decide_True.
  - assert (NilZero.string_of_uint (Pos.to_uint p) = NilEmpty.string_of_uint (Pos.to_uint p)) as ->.
    { pose proof (to_uint_nonnil p). by destruct (Pos.to_uint p). }
    unfold ParseInt. rewrite parse_digits_uint by apply to_uint_nonnil. simpl.
    assert (Z.of_uint (Pos.to_uint p) = Zpos p) as -> by apply (DecimalZ.of_to (Zpos p)).
    simpl. by rewrite decide_True.
Qed.

Lemma any_byte_app f s t : any_byte f (s +:+ t) = any_byte f s || any_byte f t.
Proof. induction s as [|c s IH]; [done|]. cbn. by rewrite IH, orb_assoc. Qed.

(** A decimal number has digits and a minus sign only. *)
Lemma any_byte_weaken f g s :
  (∀ c, g c = true → f c = true) → any_byte f s = false → any_byte g s = false.
Proof.
  intros Hfg. induction s as [|c s IH]; simpl; [done|]. rewrite !orb_false_iff.
  intros [Hc Hs]. split; [|auto]. destruct (g c) eqn:E; [|done]. rewrite Hfg in Hc by done. done.
Qed.

Lemma FormatInt_digits z c :
  is_digit c = false → byte_is 45 c = false →
  any_byte (λ d, bool_decide (d = c)) (FormatInt z) = false.
Proof.
  intros Hd Hm.
  assert (∀ u, u ≠ Decimal.Nil →
    any_byte (λ d, bool_decide (d = c)) (NilZero.string_of_uint u) = false) as Hu.
  { intros u Hne. assert (NilZero.string_of_uint u = NilEmpty.string_of_uint u) as -> by by destruct u.
    apply (any_byte_weaken (λ c, negb (is_digit c))); [|apply string_of_uint_digits].
    intros d Hdc%bool_decide_eq_true. subst d. by rewrite Hd. }
  unfold FormatInt. destruct z as [|p|p]; cbn [Z.to_int NilZero.string_of_int].
  - by apply (Hu (Decimal.D0 Decimal.Nil)).
  - apply Hu, to_uint_nonnil.
  - cbn [any_byte]. rewrite Hu by apply to_uint_nonnil. rewrite orb_false_r.
    apply bool_decide_eq_false. intros <-. done.
Qed.

Lemma Index_app_not_in s c t :
  any_byte (λ d, bool_decide (d = c)) s = false →
  Index (s +:+ String c t) (String c EmptyString) = Some (slen s).
Proof.
  induction s as [|a s IH]; cbn [any_byte String.append Index HasPrefix].
  - by rewrite bool_decide_eq_true_2, HasPrefix_nil by done.
  - intros [Ha Hs]%orb_false_iff. rewrite Ha. cbn [andb]. by rewrite (IH Hs).
Qed.

Lemma Cut_app_not_in s c t :
  any_byte (λ d, bool_decide (d = c)) s = false →
  Cut (s +:+ String c t) (String c EmptyString) = Some (s, t).
Proof.
  intros Hs. unfold Cut. rewrite Index_app_not_in by done.
  by rewrite stake_app, sdrop_app_plus.
Qed.

(** ** UTF-8

    [json.Marshal] writes U+FFFD for every byte that is not part of a valid
    UTF-8 sequence (unicode/utf8.DecodeRune); valid text is unchanged. *)

Definition utf8_cont (a : Ascii.ascii) : bool := byte_in 128 191 a.

(** The range of the second byte after the leading byte [a]. *)
Definition utf8_second (a b : Ascii.ascii) : bool :=
  if byte_is 224 a then byte_in 160 191 b
  else if byte_is 237 a then byte_in 128 159 b
  else if byte_is 240 a then byte_in 144 191 b
  else if byte_is 244 a then byte_in 128 143 b
  else utf8_cont b.

Definition utf8_error : string :=
  String (Ascii.ascii_of_N 239) (String (Ascii.ascii_of_N 191) (String (Ascii.ascii_of_N 189) EmptyString)).

Fixpoint utf8_coerce (s : string) : string :=
  match s with
  | EmptyString => EmptyString
  | String a s1 =>
      if byte_in 0 127 a then String a (utf8_coerce s1) else
      if byte_in 194 223 a then
        match s1 with
        | String b s2 => if utf8_cont b then String a (String b (utf8_coerce s2))
                         else (utf8_error ++ utf8_coerce s1)%string
        | EmptyString => utf8_error
        end else
      if byte_in 224 239 a then
        match s1 with
        | String b (String c s3) =>
            if utf8_second a b && utf8_cont c
            then String a (String b (String c (utf8_coerce s3)))
            else (utf8_error ++ utf8_coerce s1)%string
        | _ => (utf8_error ++ utf8_coerce s1)%string
        end else
      if byte_in 240 244 a then
        match s1 with
        | String b (String c (String d s4)) =>
            if utf8_second a b && utf8_cont c && utf8_cont d
            then String a (String b (String c (String d (utf8_coerce s4))))
            else (utf8_error ++ utf8_coerce s1)%string
        | _ => (utf8_error ++ utf8_coerce s1)%string
        end
      else (utf8_error ++ utf8_coerce s1)%string
  end.

#[global] Arguments utf8_coerce : simpl never.

Definition valid_utf8 (s : string) : Prop := utf8_coerce s = s.

#[export] Instance valid_utf8_dec s : Decision (valid_utf8 s).
Proof. unfold valid_utf8. apply _. Defined.
