(* ===== verification/Urls.v ===== *)
(** * Escaping in URLs (package net/url)

    The escapes of path segments and of query components, and that each is
    undone by its inverse. *)

From S2P Require Import Prelude GoStrings.
From Stdlib Require Import Ascii.

Open Scope Z_scope.

Definition unreserved (c : ascii) : bool :=
  byte_in 65 90 c || byte_in 97 122 c || byte_in 48 57 c || byte_is 45 c || byte_is 95 c || byte_is 46 c || byte_is 126 c.
Definition upper_hex (n : N) : ascii := if (n <? 10)%N then ascii_of_N (48 + n) else ascii_of_N (55 + n).

Definition percent (c : ascii) (s : string) : string :=
  String "%" (String (upper_hex (byte_of c / 16)) (String (upper_hex (byte_of c mod 16)) s)).

(** [url.QueryEscape] *)
Fixpoint QueryEscape (s : string) : string :=
  match s with
  | EmptyString => EmptyString
  | String c s' =>
      if unreserved c then String c (QueryEscape s')
      else if byte_is 32 c then String "+" (QueryEscape s')
      else percent c (QueryEscape s')
  end.

(** What else a path segment may hold: [$ & + : = @]. *)
Definition segment_extra (c : ascii) : bool :=
  byte_is 36 c || byte_is 38 c || byte_is 43 c || byte_is 58 c || byte_is 61 c || byte_is 64 c.

(** [url.PathEscape] *)
Fixpoint PathEscape (s : string) : string :=
  match s with
  | EmptyString => EmptyString
  | String c s' => if unreserved c || segment_extra c then String c (PathEscape s') else percent c (PathEscape s')
  end.

Definition unhex_digit (c : ascii) : option N :=
  if byte_in 48 57 c then Some (byte_of c - 48)%N
  else if byte_in 97 102 c then Some (byte_of c - 87)%N
  else if byte_in 65 70 c then Some (byte_of c - 55)%N else None.

Fixpoint unescape (plus : bool) (s : string) : option string :=
  match s with
  | EmptyString => Some EmptyString
  | String c s1 =>
      if byte_is 37 c then
        match s1 with
        | String a (String b s2) =>
            x ← unhex_digit a; y ← unhex_digit b; t ← unescape plus s2; Some (String (ascii_of_N (16 * x + y)) t)
        | _ => None
        end
      else String (if plus && byte_is 43 c then " "%char else c) <$> unescape plus s1
  end.

(** [url.PathUnescape] and [url.QueryUnescape] *)
Definition PathUnescape : string → option string := unescape false.
Definition QueryUnescape : string → option string := unescape true.

(** [url.Values.Encode] of single values given by ascending key. *)
Definition Encode (l : list (string * string)) : string :=
  Join "&" ((λ p, QueryEscape p.1 +:+ "=" +:+ QueryEscape p.2) <$> l).

(** ** Round trips *)

Lemma byte_is_eq n c : byte_is n c = true → c = ascii_of_N n.
Proof. unfold byte_is, byte_of. intros E%N.eqb_eq. by rewrite <- E, ascii_N_embedding. Qed.

Definition all_bytes : list ascii := ascii_of_N ∘ N.of_nat <$> seq 0 256.

Lemma all_bytes_spec (f : ascii → bool) : forallb f all_bytes = true → ∀ c, f c = true.
Proof.
  intros Hf c. rewrite forallb_forall in Hf. apply Hf, list_elem_of_In, list_elem_of_fmap.
  exists (N.to_nat (N_of_ascii c)). split; [by cbn; rewrite N2Nat.id, ascii_N_embedding|].
  apply elem_of_seq. pose proof (N_ascii_bounded c). lia.
Qed.

Lemma unescape_percent plus c s : unescape plus (percent c s) = String c <$> unescape plus s.
Proof.
  unfold percent. cbn [unescape]. change (byte_is 37 "%") with true. cbv match.
  assert (forallb (λ c, bool_decide (unhex_digit (upper_hex (byte_of c / 16)) = Some (byte_of c / 16)%N) &&
    bool_decide (unhex_digit (upper_hex (byte_of c mod 16)) = Some (byte_of c mod 16)%N)) all_bytes = true) as Hall by (vm_compute; reflexivity).
    pose proof (all_bytes_spec _ Hall c) as Hh. cbv beta in Hh. clear Hall.
  apply andb_prop in Hh as [->%bool_decide_eq_true ->%bool_decide_eq_true]. cbn [mbind option_bind].
  destruct (unescape plus s) as [t|]; [|done]. cbn. do 2 f_equal.
  rewrite <- N.div_mod by done. apply ascii_N_embedding.
Qed.

Lemma unescape_plain plus c s :
  byte_is 37 c = false → plus && byte_is 43 c = false → unescape plus (String c s) = String c <$> unescape plus s.
Proof. intros H1 H2. cbn [unescape]. by rewrite H1, H2. Qed.

Lemma PathEscape_plain c : unreserved c || segment_extra c = true → byte_is 37 c = false.
Proof.
  intros Hc. assert (forallb (λ c, negb (unreserved c || segment_extra c) || negb (byte_is 37 c)) all_bytes = true) as Hall by (vm_compute; reflexivity).
  pose proof (all_bytes_spec _ Hall c) as Hp. cbv beta in Hp. rewrite Hc in Hp. by apply negb_true_iff.
Qed.

Lemma PathEscape_roundtrip s : PathUnescape (PathEscape s) = Some s.
Proof.
  unfold PathUnescape. induction s as [|c s IH]; [done|]. cbn [PathEscape]. destruct (unreserved c || segment_extra c) eqn:Hc.
  - rewrite unescape_plain; [by rewrite IH|by apply PathEscape_plain|done].
  - by rewrite unescape_percent, IH.
Qed.

Lemma QueryEscape_roundtrip s : QueryUnescape (QueryEscape s) = Some s.
Proof.
  induction s as [|c s IH]; [done|]. unfold QueryUnescape in *. cbn [QueryEscape]. destruct (unreserved c) eqn:Hc.
  - assert (forallb (λ c, negb (unreserved c) || (negb (byte_is 37 c) && negb (byte_is 43 c))) all_bytes = true) as Hall by (vm_compute; reflexivity).
    pose proof (all_bytes_spec _ Hall c) as Hp. cbv beta in Hp. clear Hall.
    rewrite Hc in Hp. apply andb_prop in Hp as [H1%negb_true_iff H2%negb_true_iff]. rewrite unescape_plain; [by rewrite IH|done|by rewrite H2].
  - destruct (byte_is 32 c) eqn:Hs; [|by rewrite unescape_percent, IH]. cbn [unescape].
    change (byte_is 37 "+") with false. change (byte_is 43 "+") with true. cbn [andb]. rewrite IH. cbn. do 2 f_equal.
    assert (forallb (λ c, negb (byte_is 32 c) || bool_decide (" "%char = c)) all_bytes = true) as Hall by (vm_compute; reflexivity).
    pose proof (all_bytes_spec _ Hall c) as Hp. cbv beta in Hp. clear Hall.
    rewrite Hs in Hp. by apply bool_decide_eq_true in Hp.
Qed.

(** ** Splitting at a separator that does not occur in what is joined *)

Definition avoids (sep : ascii) (s : string) : bool := negb (any_byte (λ c, bool_decide (c = sep)) s).

Lemma QueryEscape_avoids sep s :
  unreserved sep = false → sep ≠ "+"%char → sep ≠ "%"%char → avoids sep (QueryEscape s) = true.
Proof.
  intros Hsep Hp Hq. unfold avoids. apply negb_true_iff. induction s as [|c s IH]; [done|]. cbn [QueryEscape].
  destruct (unreserved c) eqn:Hc; [cbn [any_byte]; rewrite IH; rewrite bool_decide_eq_false_2; [done|]; intros ->; congruence|].
  destruct (byte_is 32 c); [cbn [any_byte]; rewrite IH, bool_decide_eq_false_2; [done|]; by intros <-|].
  unfold percent. cbn [any_byte]. rewrite IH.
  assert (∀ n, (n < 16)%N → bool_decide (upper_hex n = sep) = false) as Hd.
  { intros n Hn. apply bool_decide_eq_false. intros <-.
    assert (unreserved (upper_hex n) = true) as Hu; [|by rewrite Hu in Hsep].
    assert (forallb (λ n, unreserved (upper_hex (N.of_nat n))) (seq 0 16) = true) as Hall by (vm_compute; reflexivity).
    rewrite forallb_forall in Hall. rewrite <- (N2Nat.id n). apply Hall, in_seq. lia. }
  assert (byte_of c < 256)%N by apply N_ascii_bounded.
  rewrite !Hd by (try apply N.mod_lt; try apply N.Div0.div_lt_upper_bound; lia).
  rewrite bool_decide_eq_false_2; [done|]. by intros <-.
Qed.

Lemma avoids_cons sep c s : avoids sep (String c s) = true ↔ c ≠ sep ∧ avoids sep s = true.
Proof. unfold avoids. cbn [any_byte]. by rewrite negb_orb, andb_true_iff, negb_true_iff, bool_decide_eq_false. Qed.

Lemma avoids_app sep s t : avoids sep (s +:+ t) = true ↔ avoids sep s = true ∧ avoids sep t = true.
Proof.
  induction s as [|c s IH]; [naive_solver|]. cbn [String.append]. rewrite !avoids_cons, IH. tauto.
Qed.

Lemma Split1_avoids sep s : avoids sep s = true → Split1 sep s = [s].
Proof.
  induction s as [|c s IH]; [done|]. intros [Hc Hs]%avoids_cons. cbn [Split1]. by rewrite bool_decide_eq_false_2, IH.
Qed.

Lemma Split1_at sep s t : avoids sep s = true → Split1 sep (s +:+ String sep t) = s :: Split1 sep t.
Proof.
  induction s as [|c s IH]; [intros _; cbn; by rewrite bool_decide_eq_true_2|]. intros [Hc Hs]%avoids_cons.
  cbn [Split1 String.append]. by rewrite bool_decide_eq_false_2, IH.
Qed.

Lemma Split1_Join_avoids sep l :
  l ≠ [] → Forall (λ x, avoids sep x = true) l → Split1 sep (Join (String sep EmptyString) l) = l.
Proof.
  intros Hl Hall. induction Hall as [|x [|y l] Hx Hall IH]; [done|cbn; by rewrite sapp_nil_r, Split1_avoids|].
  change (Join (String sep EmptyString) (x :: y :: l)) with (x +:+ String sep (Join (String sep EmptyString) (y :: l))).
  by rewrite Split1_at, IH.
Qed.
