(* ===== verification/Paths.v ===== *)
(** * Slash-separated paths (packages path and path/filepath)

    [Clean], [Join] and [Abs] as the artifact and dataset stores call them, on
    a Unix system, and what they mean on lists of components. *)

From S2P Require Import Prelude GoStrings.
From Stdlib Require Import Ascii.

Open Scope Z_scope.

(** ** Operations *)

Notation slash := "/"%char (only parsing).

(** The components of a path, resolved against a stack (innermost first):
    empty ones and ["."] are dropped, [".."] pops.  Above the root of an
    absolute path there is nothing; a relative path keeps the [".."]. *)
Fixpoint resolve (rooted : bool) (st segs : list string) : list string :=
  match segs with
  | [] => reverse st
  | s :: segs' =>
      if decide (s = EmptyString ∨ s = "."%string) then resolve rooted st segs'
      else if decide (s = ".."%string) then
        match st with
        | [] => if rooted then resolve rooted [] segs' else resolve rooted [s] segs'
        | t :: st' => if decide (t = ".."%string) then resolve rooted (s :: st) segs' else resolve rooted st' segs'
        end
      else resolve rooted (s :: st) segs'
  end.

Definition IsAbs (s : string) : bool := HasPrefix s "/".

Definition Clean (s : string) : string :=
  if decide (s = EmptyString) then "."%string
  else if IsAbs s then "/" +:+ Join "/" (resolve true [] (Split1 slash s))
  else let out := Join "/" (resolve false [] (Split1 slash s)) in
       if decide (out = EmptyString) then "."%string else out.

(** [path.Join] and [filepath.Join]: leading empty elements are skipped. *)
Fixpoint path_Join (elem : list string) : string :=
  match elem with
  | [] => EmptyString
  | e :: elem' => if decide (e = EmptyString) then path_Join elem' else Clean (Join "/" elem)
  end.

(** [filepath.Abs] in the directory [wd]. *)
Definition Abs (wd path : string) : string :=
  if IsAbs path then Clean path else path_Join [wd; path].

(** [filepath.Dir] of a clean absolute path is the path without its last
    component. *)
Definition absolute (l : list string) : string := "/" +:+ Join "/" l.

(** The components of an absolute path. *)
Definition components (s : string) : list string := resolve true [] (Split1 slash s).

(** [path.Base] *)
Definition Base (s : string) : string :=
  if decide (s = EmptyString) then "."%string
  else let t := TrimRightSlash s in
       if decide (t = EmptyString) then "/"%string else default EmptyString (last (Split1 slash t)).

(** ** Components *)

(** What a component of a clean absolute path is. *)
Definition no_slash (s : string) : bool := negb (any_byte (λ c, bool_decide (c = slash)) s).
Definition plain (s : string) : Prop :=
  s ≠ EmptyString ∧ s ≠ "."%string ∧ s ≠ ".."%string ∧ no_slash s = true.

Lemma no_slash_cons c s : no_slash (String c s) = true ↔ c ≠ slash ∧ no_slash s = true.
Proof.
  unfold no_slash. cbn [any_byte]. rewrite negb_orb, andb_true_iff, negb_true_iff, bool_decide_eq_false. done.
Qed.

Lemma Split1_no_slash s : Forall (λ x, no_slash x = true) (Split1 slash s).
Proof.
  induction s as [|c s IH]; [by apply Forall_cons_2, Forall_nil_2|]. cbn [Split1]. case_bool_decide as Hc.
  - by apply Forall_cons_2.
  - destruct (Split1 slash s) as [|w ws]; [apply Forall_cons_2, Forall_nil_2; by apply no_slash_cons|].
    apply Forall_cons in IH as [Hw Hws]. apply Forall_cons_2; [|done]. by apply no_slash_cons.
Qed.

Lemma Split1_nonempty c s : Split1 c s ≠ [].
Proof. induction s as [|d s IH]; cbn; [done|]. destruct (bool_decide _); [done|]. by destruct (Split1 c s). Qed.

Lemma Split1_single s : no_slash s = true → Split1 slash s = [s].
Proof.
  induction s as [|c s IH]; [done|]. intros [Hc Hs]%no_slash_cons. cbn [Split1].
  rewrite bool_decide_eq_false_2, IH by done. done.
Qed.

(** Splitting at a slash. *)
Lemma Split1_app s t : Split1 slash (s +:+ String slash t) = Split1 slash s ++ Split1 slash t.
Proof.
  induction s as [|c s IH]; [done|]. cbn [Split1 String.append].
  rewrite IH. destruct (bool_decide (c = slash)); [done|].
  pose proof (Split1_nonempty slash s). by destruct (Split1 slash s) as [|w ws].
Qed.

Lemma Join_cons x y l : Join "/" (x :: y :: l) = x +:+ String slash (Join "/" (y :: l)).
Proof. done. Qed.

Lemma Split1_Join l : l ≠ [] → Split1 slash (Join "/" l) = l ≫= Split1 slash.
Proof.
  induction l as [|x [|y l] IH]; intros Hl; [done|cbn; by rewrite sapp_nil_r, app_nil_r|].
  rewrite Join_cons, Split1_app, IH by done. done.
Qed.

Lemma Split1_Join_single l : l ≠ [] → Forall (λ x, no_slash x = true) l → Split1 slash (Join "/" l) = l.
Proof.
  intros Hl Hall. rewrite Split1_Join by done. clear Hl. induction Hall as [|x l Hx Hall IH]; [done|].
  cbn. by rewrite Split1_single, IH.
Qed.

(** ** Resolution *)

Lemma resolve_app_plain b st l segs :
  Forall plain l → resolve b st (l ++ segs) = resolve b (reverse l ++ st) segs.
Proof.
  intros Hl. revert st. induction Hl as [|x l (H0 & H1 & H2 & _) Hl IH]; intros st; [done|].
  cbn [app resolve]. rewrite decide_False, decide_False by naive_solver. rewrite IH, reverse_cons. by rewrite <- app_assoc.
Qed.

Lemma resolve_push b st x segs : plain x → resolve b st (x :: segs) = resolve b (x :: st) segs.
Proof. intros (H0 & H1 & H2 & _). cbn [resolve]. rewrite decide_False by naive_solver. by rewrite decide_False. Qed.

Lemma resolve_pop b st x segs : plain x → resolve b st (x :: ".."%string :: segs) = resolve b st segs.
Proof.
  intros Hx. rewrite resolve_push by done. destruct Hx as (_ & _ & H2 & _). cbn [resolve].
  rewrite (decide_False (P := ".."%string = EmptyString ∨ _)), decide_True, decide_False by naive_solver. done.
Qed.

Lemma resolve_skip b st segs : resolve b st (EmptyString :: segs) = resolve b st segs.
Proof. done. Qed.

Lemma resolve_plain_onto b st l : Forall plain l → resolve b st l = reverse st ++ l.
Proof.
  intros Hl. rewrite <- (app_nil_r l) at 1. rewrite resolve_app_plain by done. cbn. by rewrite reverse_app, reverse_involutive.
Qed.

Lemma resolve_plain b l : Forall plain l → resolve b [] l = l.
Proof.
  intros Hl. rewrite <- (app_nil_r l) at 1. rewrite resolve_app_plain by done. cbn. by rewrite app_nil_r, reverse_involutive.
Qed.

Lemma resolve_rooted_plain st segs :
  Forall plain st → Forall (λ x, no_slash x = true) segs → Forall plain (resolve true st segs).
Proof.
  intros Hst Hs. revert st Hst. induction Hs as [|s segs Hs Hsegs IH]; intros st Hst; cbn [resolve].
  { by apply Forall_reverse. }
  destruct (decide (s = EmptyString ∨ s = "."%string)) as [|H1]; [by apply IH|].
  destruct (decide (s = ".."%string)) as [H2|H2].
  - destruct st as [|t st]; [by apply IH|]. apply Forall_cons in Hst as [(? & ? & Ht & ?) Hst].
    rewrite decide_False by done. by apply IH.
  - apply IH, Forall_cons_2; [|done]. unfold plain. naive_solver.
Qed.

Lemma components_plain s : Forall plain (components s).
Proof. apply resolve_rooted_plain; [apply Forall_nil_2|apply Split1_no_slash]. Qed.

(** The dots a resolved relative path begins with. *)
Definition stack_ok (st : list string) : Prop :=
  ∃ n l, st = reverse l ++ replicate n ".."%string ∧ Forall plain l.

Lemma resolve_rooted_pop st n segs :
  Forall plain st →
  resolve true st (replicate n ".."%string ++ segs) = resolve true (drop n st) segs.
Proof.
  revert st. induction n as [|n IH]; intros st Hst; [done|]. cbn [replicate app resolve].
  rewrite decide_False, decide_True by naive_solver.
  destruct st as [|t st]; [by rewrite IH, drop_nil|]. apply Forall_cons in Hst as [(? & ? & Ht & ?) Hst].
  rewrite decide_False by done. by rewrite IH.
Qed.

(** Resolving a resolved relative path is resolving the path. *)
Lemma resolve_twice st st' segs :
  Forall plain st → stack_ok st' →
  Forall (λ x, no_slash x = true) segs →
  resolve true st (resolve false st' segs) = resolve true st (reverse st' ++ segs).
Proof.
  intros Hst Hst' Hs. revert st' Hst'. induction Hs as [|s segs Hs Hsegs IH]; intros st' Hst'; cbn [resolve].
  { by rewrite app_nil_r. }
  assert (∀ st segs, s = EmptyString ∨ s = "."%string → resolve true st (reverse st' ++ s :: segs) = resolve true st (reverse st' ++ segs)) as Hskip.
  { clear. intros st segs Hs. revert st. induction (reverse st') as [|x l IHl]; intros st; cbn [app resolve].
    - by rewrite decide_True.
    - repeat case_decide; try apply IHl; by destruct st; rewrite ?IHl; repeat case_decide; rewrite ?IHl. }
  destruct (decide (s = EmptyString ∨ s = "."%string)) as [H1|H1]; [by rewrite IH, Hskip|].
  destruct Hst' as (n & l & -> & Hl).
  destruct (decide (s = ".."%string)) as [->|H2].
  - destruct l as [|x l _] using rev_ind.
    + cbn [reverse rev_append app]. destruct n as [|n]; cbn [replicate].
      * rewrite IH; [done|]. exists 1%nat, []. done.
      * rewrite decide_True by done. change (".."%string :: ".."%string :: replicate n ".."%string) with (replicate (S (S n)) ".."%string).
        rewrite IH by (by exists (S (S n)), []). f_equal. change (rev_append (".."%string :: replicate n ".."%string) []) with (reverse (replicate (S n) ".."%string)).
        by rewrite !reverse_replicate, (replicate_S_end (S n)), <- app_assoc.
    + apply Forall_app in Hl as [Hl Hx]. apply Forall_singleton in Hx as (Hx0 & Hx1 & Hx & Hx2). rewrite reverse_snoc. cbn [app].
      rewrite decide_False by done. rewrite IH by (by exists n, l). rewrite reverse_cons, <- !app_assoc. cbn [app].
      rewrite !reverse_app, reverse_involutive, reverse_replicate, <- !app_assoc, !resolve_rooted_pop by done.
      by rewrite !resolve_app_plain, resolve_pop by done.
  - rewrite IH.
    + by rewrite reverse_cons, <- app_assoc.
    + exists n, (l ++ [s]). split; [by rewrite reverse_snoc|]. apply Forall_app_2; [done|]. apply Forall_singleton. unfold plain. naive_solver.
Qed.

(** ** Paths of components *)

Lemma components_absolute l : Forall plain l → components (absolute l) = l.
Proof.
  intros Hl. unfold components, absolute. cbn [String.append Split1]. rewrite bool_decide_eq_true_2 by done.
  cbn [resolve]. rewrite decide_True by auto. destruct l as [|x l]; [done|].
  rewrite Split1_Join_single; [by apply resolve_plain|done|]. eapply Forall_impl; [done|]. by intros ? (_ & _ & _ & ?).
Qed.

Lemma absolute_inj l1 l2 : Forall plain l1 → Forall plain l2 → absolute l1 = absolute l2 → l1 = l2.
Proof. intros H1 H2 H. by rewrite <- (components_absolute l1), <- (components_absolute l2), H. Qed.

Lemma Clean_abs s : IsAbs s = true → Clean s = absolute (components s).
Proof. intros H. unfold Clean. rewrite decide_False, H; [done|]. by intros ->. Qed.

Lemma resolve_app st a b : resolve true st (a ++ b) = resolve true (reverse (resolve true st a)) b.
Proof.
  revert st. induction a as [|x a IH]; intros st; cbn [app resolve]; [by rewrite reverse_involutive|].
  repeat case_decide; try apply IH. destruct st; [apply IH|]. case_decide; apply IH.
Qed.

(** The components a path stands for in the directory [wd]. *)
Definition abs_components (wd s : string) : list string :=
  resolve true [] (if IsAbs s then Split1 slash s else Split1 slash wd ++ Split1 slash s).

Lemma abs_components_plain wd s : Forall plain (abs_components wd s).
Proof.
  apply resolve_rooted_plain; [apply Forall_nil_2|]. destruct (IsAbs s); [apply Split1_no_slash|].
  apply Forall_app_2; apply Split1_no_slash.
Qed.

Lemma IsAbs_app s t : IsAbs s = true → IsAbs (s +:+ t) = true.
Proof. unfold IsAbs. rewrite !HasPrefix_spec. intros [u ->]. exists (u +:+ t). by rewrite sapp_assoc. Qed.

Lemma Abs_spec wd s : IsAbs wd = true → s ≠ EmptyString → Abs wd s = absolute (abs_components wd s).
Proof.
  intros Hwd Hs. unfold Abs, abs_components. destruct (IsAbs s) eqn:Ha; [by rewrite Clean_abs|].
  cbn [path_Join]. rewrite decide_False by (by intros ->). rewrite Clean_abs by (by apply IsAbs_app).
  unfold components. cbn [Join foldr]. rewrite sapp_nil_r. change ("/" +:+ s) with (String slash s). by rewrite Split1_app.
Qed.

Lemma resolve_dot st b : resolve true st ["."%string] = reverse st ∧ resolve b st [EmptyString] = reverse st.
Proof. cbn [resolve]. by rewrite !decide_True by auto. Qed.

Lemma stack_ok_no_slash st segs :
  Forall (λ x, no_slash x = true) st → Forall (λ x, no_slash x = true) segs →
  Forall (λ x, no_slash x = true) (resolve false st segs).
Proof.
  intros Hst Hs. revert st Hst. induction Hs as [|s segs Hs Hsegs IH]; intros st Hst; cbn [resolve]; [by apply Forall_reverse|].
  repeat case_decide; try (apply IH; try done; by apply Forall_cons_2).
  destruct st as [|t st]; [apply IH; by apply Forall_cons_2|]. case_decide; [by apply IH, Forall_cons_2|].
  apply Forall_cons in Hst as [_ Hst]. by apply IH.
Qed.

Lemma IsAbs_no_slash x s : x ≠ EmptyString → no_slash x = true → IsAbs (x +:+ s) = false.
Proof.
  destruct x as [|c x]; [done|]. intros _ [Hc _]%no_slash_cons. unfold IsAbs. cbn [String.append HasPrefix].
  destruct (Ascii.eqb_spec c slash); [done|]. by rewrite bool_decide_eq_false_2.
Qed.

(** Cleaning changes nothing of what a path stands for. *)
Lemma abs_components_Clean wd s : s ≠ EmptyString → abs_components wd (Clean s) = abs_components wd s.
Proof.
  intros Hs. unfold abs_components, Clean. rewrite decide_False by done. destruct (IsAbs s) eqn:Ha.
  - change ("/" +:+ Join "/" (resolve true [] (Split1 slash s))) with (absolute (components s)).
    rewrite (HasPrefix_app (Join "/" (components s)) "/" : IsAbs (absolute (components s)) = true). apply (components_absolute (components s)), components_plain.
  - cbv zeta. set (l := resolve false [] (Split1 slash s)).
    assert (Forall (λ x, no_slash x = true) l) as Hl by (apply stack_ok_no_slash; [apply Forall_nil_2|apply Split1_no_slash]).
    assert (resolve true [] (Split1 slash wd ++ l) = resolve true [] (Split1 slash wd ++ Split1 slash s)) as Hres.
    { rewrite !(resolve_app _ (Split1 slash wd)). unfold l. rewrite resolve_twice; [done|..|apply Split1_no_slash].
      - apply Forall_reverse, resolve_rooted_plain; [apply Forall_nil_2|apply Split1_no_slash].
      - by exists 0%nat, []. }
    assert (l = [] ∨ ∃ x l', l = x :: l' ∧ x ≠ EmptyString) as [Hnil|(x & l' & Hcons & Hx)].
    { assert (Forall (λ x, x ≠ EmptyString) l) as Hne; [|destruct l as [|x l']; [by left|right; exists x, l'; split; [done|by apply Forall_cons in Hne as [? _]]]].
      unfold l. clear. assert (Forall (λ x : string, x ≠ EmptyString) []) as Hst by apply Forall_nil_2. revert Hst. generalize (@nil string) as st.
      induction (Split1 slash s) as [|y segs IH]; intros st Hst; cbn [resolve]; [by apply Forall_reverse|].
      repeat case_decide; try (apply IH; try done; apply Forall_cons_2; naive_solver).
      destruct st as [|t st]; [apply IH, Forall_cons_2; [by subst|done]|]. case_decide; [apply IH, Forall_cons_2; [by subst|done]|].
      apply Forall_cons in Hst as [_ Hst]. by apply IH. }
    + rewrite Hnil in Hres |- *. cbn [Join]. rewrite decide_True by done. change (IsAbs ".") with false. cbv match.
      rewrite <- Hres. rewrite app_nil_r. change (Split1 slash ".") with ["."%string]. rewrite resolve_app.
      rewrite (proj1 (resolve_dot _ true)). by rewrite reverse_involutive.
    + assert (Join "/" l ≠ EmptyString) as Hj by (rewrite Hcons; by destruct x).
      rewrite decide_False by done.
      assert (IsAbs (Join "/" l) = false) as ->.
      { rewrite Hcons. apply IsAbs_no_slash; [done|]. rewrite Hcons in Hl. by apply Forall_cons in Hl as [? _]. }
      rewrite Split1_Join_single by (done || rewrite Hcons; done). done.
Qed.

(** Where the elements joined to a directory lead. *)
Lemma Abs_join wd root l :
  IsAbs wd = true → root ≠ EmptyString →
  Abs wd (path_Join (root :: l)) = absolute (resolve true (reverse (abs_components wd root)) (l ≫= Split1 slash)).
Proof.
  intros Hwd Hroot. cbn [path_Join]. rewrite decide_False by done. set (s := Join "/" (root :: l)).
  assert (s ≠ EmptyString) as Hs by (by destruct root).
  assert (Clean s ≠ EmptyString) as Hc.
  { unfold Clean. rewrite decide_False by done. destruct (IsAbs s); [done|]. cbv zeta. by case_decide. }
  rewrite Abs_spec, abs_components_Clean by done. f_equal. unfold abs_components.
  assert (IsAbs s = IsAbs root) as ->.
  { unfold s. destruct root as [|c root]; [done|]. unfold IsAbs. cbn [Join String.append HasPrefix]. by rewrite !HasPrefix_nil. }
  assert (Split1 slash s = Split1 slash root ++ (l ≫= Split1 slash)) as ->.
  { unfold s. by rewrite Split1_Join. }
  destruct (IsAbs root); rewrite ?app_assoc, resolve_app; done.
Qed.

(** [filepath.Dir] *)
Definition Dir (s : string) : string :=
  Clean (match LastIndex s "/" with Some i => stake (S i) s | None => EmptyString end).

Lemma Join_snoc l x : l ≠ [] → Join "/" (l ++ [x]) = Join "/" l +:+ String slash x.
Proof.
  induction l as [|y [|z l] IH]; intros Hl; [done|cbn; by rewrite !sapp_nil_r|].
  change ((y :: z :: l) ++ [x]) with (y :: (z :: l ++ [x])). rewrite !Join_cons, sapp_assoc. f_equal. cbn [String.append]. f_equal. by apply IH.
Qed.

Lemma no_slash_any x : no_slash x = true → any_byte (λ c, bool_decide (c = slash)) x = false.
Proof. unfold no_slash. by rewrite negb_true_iff. Qed.

Lemma stake_app_plus s t n : stake (slen s + n) (s +:+ t) = s +:+ stake n t.
Proof. induction s as [|c s IH]; [done|]. cbn. by rewrite IH. Qed.

Lemma Dir_absolute l x : Forall plain l → plain x → Dir (absolute (l ++ [x])) = absolute l.
Proof.
  intros Hl Hx. unfold Dir, absolute. destruct (decide (l = [])) as [->|Hne].
  - cbn [app Join foldr]. rewrite sapp_nil_r.
    pose proof (LastIndex_app_not_in EmptyString slash x (no_slash_any x (proj2 (proj2 (proj2 Hx))))) as Hi. cbn [String.append] in Hi |- *.
    rewrite Hi. done.
  - rewrite Join_snoc, <- sapp_assoc by done.
    pose proof (LastIndex_app_not_in ("/" +:+ Join "/" l) slash x (no_slash_any x (proj2 (proj2 (proj2 Hx))))) as Hi.
    rewrite Hi.
    rewrite <- Nat.add_1_r, stake_app_plus. cbn [stake].
    rewrite Clean_abs by (by apply IsAbs_app, IsAbs_app). unfold components.
    rewrite (Split1_app ("/" +:+ Join "/" l) EmptyString), resolve_app.
    change (resolve true [] (Split1 slash ("/" +:+ Join "/" l))) with (components (absolute l)).
    rewrite components_absolute by done. rewrite (proj2 (resolve_dot _ true)), reverse_involutive. done.
Qed.

(** A path below a directory. *)
Lemma absolute_app l l' : l ≠ [] → l' ≠ [] → absolute (l ++ l') = absolute l +:+ String slash (Join "/" l').
Proof.
  intros Hl Hl'. unfold absolute. rewrite sapp_assoc. f_equal. induction l as [|x [|y l] IH]; [done|..].
  - destruct l' as [|y l']; [done|]. cbn [app]. rewrite Join_cons. by rewrite (sapp_nil_r x : Join "/" [x] = x).
  - change ((x :: y :: l) ++ l') with (x :: y :: (l ++ l')). rewrite !Join_cons, sapp_assoc. f_equal. cbn [String.append].
    f_equal. by apply IH.
Qed.
