(* ===== verification/FileSystem.v ===== *)
(** * The file system (package os)

    A tree of directories and files, the system calls the artifact and the
    dataset stores make on it, and a monad that threads it.  Any call may
    fail at any time: which ones do, and how much a failing write or removal
    has done, is the class [Faults].  Paths are absolute and clean; there are
    no symbolic links and one caller at a time. *)

From S2P Require Import Prelude GoStrings Paths.

Open Scope Z_scope.

(** ** The tree *)

Inductive node := NDir | NFile (content : string).
#[export] Instance node_eq_dec : EqDecision node.
Proof. solve_decision. Defined.

Notation path := (list string) (only parsing).
Notation tree := (gmap (list string) node) (only parsing).
Record Disk := mkDisk { dk_tree : tree; dk_tick : nat }.

Inductive os_error := ENOENT | ENOTDIR | EISDIR | ENOTEMPTY | EINVAL | EIO.
#[export] Instance os_error_eq_dec : EqDecision os_error.
Proof. solve_decision. Defined.

(** A call fails, a failing write has written a prefix, a failing removal has
    left what leads to some paths. *)
Class Faults := { io_fault : nat → bool; io_written : nat → nat; io_kept : nat → list path }.

(** ** The monad *)

Section monad.
Context {E : Type}.

Definition D (A : Type) : Type := Disk → (E + A) * Disk.

#[export] Instance D_ret : MRet D := λ A a d, (inr a, d).
#[export] Instance D_bind : MBind D := λ A B f m d,
  match m d with
  | (inr a, d') => f a d'
  | (inl e, d') => (inl e, d')
  end.

Definition throw {A} (e : E) : D A := λ d, (inl e, d).
(** The outcome of a call as a value. *)
Definition attempt {A} (m : D A) : D (E + A) := λ d, let '(r, d') := m d in (inr r, d').
(** [defer]: [after] runs whatever [body] returned; its outcome is dropped. *)
Definition deferred {A} (body : D A) (after : D unit) : D A := λ d, let '(r, d') := body d in (r, (after d').2).
End monad.
Arguments D : clear implicits.

(** ** System calls *)

Section calls.
Context `{Faults} {E : Type} (os : os_error → E).

Definition syscall {A} (f : Disk → (os_error + A) * tree) (fault : Disk → tree) : D E A := λ d,
  if io_fault (dk_tick d) then (inl (os EIO), mkDisk (fault d) (S (dk_tick d)))
  else let '(r, t) := f d in
       (match r with inl e => inl (os e) | inr a => inr a end, mkDisk t (S (dk_tick d))).

(** The node a path leads to, through directories. *)
Fixpoint lookup_path (t : tree) (pre rest : path) : os_error + node :=
  match t !! pre, rest with
  | None, _ => inl ENOENT
  | Some n, [] => inr n
  | Some NDir, x :: rest' => lookup_path t (pre ++ [x]) rest'
  | Some (NFile _), _ :: _ => inl ENOTDIR
  end.

Definition has_nul (s : string) : bool := any_byte (byte_is 0) s.

Definition os_Stat (s : string) : D E node :=
  if has_nul s then throw (os EINVAL) else
  syscall (λ d, (lookup_path (dk_tree d) [] (components s), dk_tree d)) dk_tree.

(** [os.MkdirAll]: the directories that are missing, from the top. *)
Fixpoint mkdirs (pre rest : path) : D E unit :=
  match rest with
  | [] => mret tt
  | x :: rest' =>
      let p := pre ++ [x] in
      _ ← syscall (λ d, match dk_tree d !! p with
                        | Some NDir => (inr tt, dk_tree d)
                        | Some (NFile _) => (inl ENOTDIR, dk_tree d)
                        | None => (inr tt, <[p := NDir]> (dk_tree d))
                        end) dk_tree;
      mkdirs p rest'
  end.

Definition MkdirAll (s : string) : D E unit :=
  if has_nul s then throw (os EINVAL) else mkdirs [] (components s).

(** The directory that a path is in. *)
Definition parent_dir (t : tree) (p : path) : os_error + unit :=
  match lookup_path t [] (removelast p) with
  | inl e => inl e
  | inr NDir => inr tt
  | inr (NFile _) => inl ENOTDIR
  end.

(** [os.OpenFile(s, O_CREATE|O_TRUNC|O_WRONLY)] *)
Definition OpenTrunc (s : string) : D E unit :=
  if has_nul s then throw (os EINVAL) else
  let p := components s in
  syscall (λ d, match parent_dir (dk_tree d) p with
                | inl e => (inl e, dk_tree d)
                | inr _ => match dk_tree d !! p with
                           | Some NDir => (inl EISDIR, dk_tree d)
                           | _ => (inr tt, <[p := NFile EmptyString]> (dk_tree d))
                           end
                end) dk_tree.

(** Writing to the open file, which is seen at its path while it is there. *)
Definition put_file (p : path) (data : string) (t : tree) : tree :=
  match t !! p with Some (NFile _) => <[p := NFile data]> t | _ => t end.

Definition Write (s data : string) : D E unit :=
  let p := components s in
  syscall (λ d, (inr tt, put_file p data (dk_tree d)))
    (λ d, put_file p (stake (io_written (dk_tick d)) data) (dk_tree d)).

(** [Sync], [Close], [Chmod]: calls that change no content. *)
Definition Flush : D E unit := syscall (λ d, (inr tt, dk_tree d)) dk_tree.

(** [os.Rename] of a file. *)
Definition Rename (old new : string) : D E unit :=
  let p := components old in let q := components new in
  syscall (λ d, match dk_tree d !! p, parent_dir (dk_tree d) q with
                | None, _ => (inl ENOENT, dk_tree d)
                | Some n, inl e => (inl e, dk_tree d)
                | Some NDir, inr _ => (inl EISDIR, dk_tree d)
                | Some (NFile c), inr _ =>
                    match dk_tree d !! q with
                    | Some NDir => (inl EISDIR, dk_tree d)
                    | _ => (inr tt, <[q := NFile c]> (delete p (dk_tree d)))
                    end
                end) dk_tree.

(** Something is in the directory. *)
Definition occupied (t : tree) (p : path) : bool :=
  bool_decide (map_Exists (λ q _, p `prefix_of` q ∧ p ≠ q) t).

(** [os.Remove] *)
Definition Remove (s : string) : D E unit :=
  if has_nul s then throw (os EINVAL) else
  let p := components s in
  syscall (λ d, match lookup_path (dk_tree d) [] p with
                | inl e => (inl e, dk_tree d)
                | inr NDir => if occupied (dk_tree d) p then (inl ENOTEMPTY, dk_tree d)
                              else (inr tt, delete p (dk_tree d))
                | inr (NFile _) => (inr tt, delete p (dk_tree d))
                end) dk_tree.

(** [os.RemoveAll]; what survives a failing one stays connected. *)
Definition RemoveAll (s : string) : D E unit :=
  let p := components s in
  syscall (λ d, (inr tt, filter (λ e, ¬ p `prefix_of` e.1) (dk_tree d)))
    (λ d, filter (λ e, ¬ p `prefix_of` e.1 ∨ Exists (λ k, e.1 `prefix_of` k) (io_kept (dk_tick d))) (dk_tree d)).

(** [os.ReadDir]: the names and the nodes in a directory, by name. *)
Definition children (t : tree) (p : path) : list (string * node) :=
  omap (λ e, match reverse e.1 with
             | x :: r => if decide (reverse r = p) then Some (x, e.2) else None
             | [] => None
             end) (map_to_list t).

Definition ReadDir (s : string) : D E (list (string * node)) :=
  let p := components s in
  syscall (λ d, (inr (sort_by fst (children (dk_tree d) p)), dk_tree d)) dk_tree.
End calls.

Create HintDb disk.

Lemma elem_of_children t p x n : (x, n) ∈ children t p ↔ t !! (p ++ [x]) = Some n.
Proof.
  unfold children. rewrite list_elem_of_omap. split.
  - intros ([q n'] & Hq%elem_of_map_to_list & Hm). cbn [fst snd] in Hm. destruct (reverse q) as [|y r] eqn:Hr; [done|].
    destruct (decide _) as [<-|]; [|done]. injection Hm as <- <-. rewrite <- Hq. f_equal.
    apply (f_equal reverse) in Hr. by rewrite reverse_involutive, reverse_cons in Hr.
  - intros Hp. exists (p ++ [x], n). split; [by apply elem_of_map_to_list|]. cbn [fst snd]. rewrite reverse_snoc.
    by rewrite decide_True by apply reverse_involutive.
Qed.

(** ** Well-formed trees *)

Definition tree_wf (t : tree) : Prop :=
  t !! [] = Some NDir ∧ (∀ p x, is_Some (t !! (p ++ [x])) → t !! p = Some NDir) ∧
  (∀ p, is_Some (t !! p) → Forall plain p).

Lemma lookup_path_spec t pre rest :
  tree_wf t →
  match lookup_path t pre rest with
  | inr n => t !! (pre ++ rest) = Some n
  | inl _ => t !! (pre ++ rest) = None
  end.
Proof.
  intros (_ & Hwf & _). revert pre. induction rest as [|x rest IH]; intros pre; cbn [lookup_path].
  { rewrite app_nil_r. by destruct (t !! pre) as [[]|]. }
  assert (∀ n, t !! (pre ++ x :: rest) = Some n → t !! pre = Some NDir) as Hup.
  { clear IH. intros n Hn. revert pre x n Hn. induction rest as [|y rest IH]; intros pre x n Hn; [by apply (Hwf pre x)|].
    apply (Hwf pre x). rewrite (IH (pre ++ [x]) y n); [done|]. by rewrite <- app_assoc. }
  destruct (t !! pre) as [[|c]|] eqn:Hp.
  - specialize (IH (pre ++ [x])). by rewrite <- app_assoc in IH.
  - destruct (t !! (pre ++ x :: rest)) eqn:E; [|done]. by specialize (Hup _ eq_refl).
  - destruct (t !! (pre ++ x :: rest)) eqn:E; [|done]. by specialize (Hup _ eq_refl).
Qed.

Lemma lookup_root t p :
  tree_wf t →
  match lookup_path t [] p with inr n => t !! p = Some n | inl _ => t !! p = None end.
Proof. apply (lookup_path_spec t [] p). Qed.

Lemma tree_wf_dir t p q : tree_wf t → is_Some (t !! (p ++ q)) → q ≠ [] → t !! p = Some NDir.
Proof.
  intros Hwf. induction q as [|x q IH] using rev_ind; [done|]. rewrite app_assoc. intros Hq _.
  pose proof (proj1 (proj2 Hwf) _ _ Hq) as Hd. destruct (decide (q = [])) as [->|Hne]; [by rewrite app_nil_r in Hd|].
  apply IH; [|done]. by rewrite Hd.
Qed.

(** Adding a node to a directory, replacing one without contents. *)
Lemma tree_wf_insert t p x n :
  tree_wf t → t !! p = Some NDir → plain x → (n = NDir ∨ t !! (p ++ [x]) ≠ Some NDir) → tree_wf (<[p ++ [x] := n]> t).
Proof.
  intros (H0 & Hwf & Hpl) Hp Hx Hn. split_and!.
  - rewrite lookup_insert_ne; [done|]. by destruct p.
  - intros q y Hq. destruct (decide (p ++ [x] = q ++ [y])) as [Heq|Hne].
    + apply app_inj_tail in Heq as [<- <-]. rewrite lookup_insert_ne; [done|]. intros E%(f_equal length). rewrite length_app in E. cbn in E. lia.
    + rewrite lookup_insert_ne in Hq by done. specialize (Hwf q y Hq).
      destruct (decide (p ++ [x] = q)) as [<-|]; [|by rewrite lookup_insert_ne].
      rewrite lookup_insert_eq. destruct Hn as [->|Hn]; [done|]. by rewrite Hwf in Hn.
  - intros q Hq. destruct (decide (p ++ [x] = q)) as [<-|]; [|rewrite lookup_insert_ne in Hq by done; by apply Hpl].
    apply Forall_app_2; [apply Hpl; by rewrite Hp|by apply Forall_singleton].
Qed.

(** ** What a call touches *)

Definition file_at (t : tree) (p : path) : option string :=
  match t !! p with Some (NFile c) => Some c | _ => None end.

(** The call keeps the tree well formed and changes no file outside [P]. *)
Definition touches {E A} (P : path → Prop) (m : D E A) : Prop := ∀ d,
  tree_wf (dk_tree d) →
  tree_wf (dk_tree (m d).2) ∧ ∀ q, ¬ P q → file_at (dk_tree (m d).2) q = file_at (dk_tree d) q.

Lemma file_at_insert t p q c : file_at (<[p := NFile c]> t) q = if decide (p = q) then Some c else file_at t q.
Proof. unfold file_at. case_decide as Hpq; [by subst; rewrite lookup_insert_eq|by rewrite lookup_insert_ne]. Qed.

Lemma file_at_insert_dir t p q : file_at t p = None → file_at (<[p := NDir]> t) q = file_at t q.
Proof. unfold file_at. intros Hp. destruct (decide (p = q)) as [->|]; [by rewrite lookup_insert_eq|by rewrite lookup_insert_ne]. Qed.

Lemma file_at_delete t p q : file_at (delete p t) q = if decide (p = q) then None else file_at t q.
Proof. unfold file_at. case_decide as Hpq; [by subst; rewrite lookup_delete_eq|by rewrite lookup_delete_ne]. Qed.

Lemma tree_wf_delete t p : tree_wf t → p ≠ [] → (∀ y, t !! (p ++ [y]) = None) → tree_wf (delete p t).
Proof.
  intros (H0 & Hwf & Hpl) Hp Hempty. split_and!; [by rewrite lookup_delete_ne| |].
  2: { intros q [n [_ Hq]%lookup_delete_Some]. apply Hpl. by rewrite Hq. }
  intros q y [n [Hne Hq]%lookup_delete_Some]. destruct (decide (p = q)) as [<-|]; [by rewrite Hempty in Hq|].
  rewrite lookup_delete_ne by done. by apply (Hwf q y).
Qed.

Lemma file_no_children t p c y : tree_wf t → t !! p = Some (NFile c) → t !! (p ++ [y]) = None.
Proof. intros (_ & Hwf & _) Hp. destruct (t !! (p ++ [y])) eqn:E; [|done]. specialize (Hwf p y). rewrite E, Hp in Hwf. by discriminate Hwf. Qed.

Lemma tree_wf_filter t (F : path * node → Prop) `{!∀ e, Decision (F e)} (Q : path → Prop) :
  (∀ p n, F (p, n) ↔ Q p) → tree_wf t → Q [] → (∀ p x, Q (p ++ [x]) → Q p) → tree_wf (filter F t).
Proof.
  intros HF (H0 & Hwf & Hpl) HQ0 HQ. split_and!; [apply map_lookup_filter_Some_2; [done|by apply HF]| |].
  2: { intros p [n [Hn _]%map_lookup_filter_Some]. apply Hpl. by rewrite Hn. }
  intros p x [n [Hn HQn]%map_lookup_filter_Some]. apply HF in HQn.
  apply map_lookup_filter_Some_2; [by eapply Hwf|]. apply HF. by eapply HQ.
Qed.

Lemma file_at_filter_True t (F : path * node → Prop) `{!∀ e, Decision (F e)} q :
  (∀ n, F (q, n)) → file_at (filter F t) q = file_at t q.
Proof. unfold file_at. intros HF. rewrite map_lookup_filter. destruct (t !! q) as [n|]; [|done]. cbn. by rewrite option_guard_True. Qed.

Lemma file_at_filter_False t (F : path * node → Prop) `{!∀ e, Decision (F e)} q :
  (∀ n, ¬ F (q, n)) → file_at (filter F t) q = None.
Proof. unfold file_at. intros HF. rewrite map_lookup_filter. destruct (t !! q) as [n|]; [|done]. cbn. by rewrite option_guard_False. Qed.

Section touches.
Context `{Faults} {E : Type} (os : os_error → E).
Implicit Types (P : path → Prop).

Lemma touches_weaken {A} P P' (m : D E A) : (∀ q, P q → P' q) → touches P m → touches P' m.
Proof. intros HP Hm d Hwf. destruct (Hm d Hwf) as [? Hq]. split; [done|]. naive_solver. Qed.

Lemma touches_ret {A} P (a : A) : touches P (mret a : D E A).
Proof. done. Qed.

Lemma touches_throw {A} P e : touches P (throw e : D E A).
Proof. done. Qed.

Lemma touches_bind {A B} P (m : D E A) (f : A → D E B) :
  touches P m → (∀ a, touches P (f a)) → touches P (m ≫= f).
Proof.
  intros Hm Hf d Hwf. unfold mbind, D_bind. specialize (Hm d Hwf). destruct (m d) as [[e|a] d1]; [done|]. cbn [snd] in Hm.
  destruct Hm as [Hwf1 H1]. destruct (Hf a d1 Hwf1) as [Hwf2 H2]. split; [done|]. intros q Hq. by rewrite H2, H1.
Qed.

Lemma touches_attempt {A} P (m : D E A) : touches P m → touches P (attempt m).
Proof. intros Hm d Hwf. unfold attempt. specialize (Hm d Hwf). by destruct (m d). Qed.

Lemma touches_deferred {A} P (m : D E A) (after : D E unit) : touches P m → touches P after → touches P (deferred m after).
Proof.
  intros Hm Ha d Hwf. unfold deferred. specialize (Hm d Hwf). destruct (m d) as [r d1]. cbn [snd] in *. destruct Hm as [Hwf1 H1].
  destruct (Ha d1 Hwf1) as [Hwf2 H2]. split; [done|]. intros q Hq. by rewrite H2, H1.
Qed.

Lemma touches_syscall {A} P (f : Disk → (os_error + A) * tree) fault :
  (∀ d, tree_wf (dk_tree d) → tree_wf (f d).2 ∧ ∀ q, ¬ P q → file_at (f d).2 q = file_at (dk_tree d) q) →
  (∀ d, tree_wf (dk_tree d) → tree_wf (fault d) ∧ ∀ q, ¬ P q → file_at (fault d) q = file_at (dk_tree d) q) →
  touches P (syscall os f fault).
Proof.
  intros Hf Hfault d Hwf. unfold syscall. destruct (io_fault _); cbn; [by apply Hfault|].
  specialize (Hf d Hwf). by destruct (f d) as [[e|a] t].
Qed.

Lemma touches_Stat P s : touches P (os_Stat os s).
Proof. unfold os_Stat. destruct (has_nul s); [apply touches_throw|]. by apply touches_syscall. Qed.

Lemma touches_Flush P : touches P (Flush os).
Proof. by apply touches_syscall. Qed.

Lemma touches_ReadDir P s : touches P (ReadDir os s).
Proof. by apply touches_syscall. Qed.

Lemma put_file_spec p data t :
  tree_wf t → tree_wf (put_file p data t) ∧ ∀ q, p ≠ q → file_at (put_file p data t) q = file_at t q.
Proof.
  intros Hwf. unfold put_file. destruct (t !! p) as [[|c]|] eqn:Hp; [done| |done]. split.
  - destruct p as [|x p _] using rev_ind; [by rewrite (proj1 Hwf) in Hp|].
    assert (Forall plain (p ++ [x])) as Hpl by (apply (proj2 (proj2 Hwf)); by rewrite Hp).
    apply Forall_app in Hpl as [_ Hx]. apply Forall_cons in Hx as [Hx _].
    apply tree_wf_insert; [done| |done|right; congruence]. by eapply (proj1 (proj2 Hwf)).
  - intros q Hq. rewrite file_at_insert. by rewrite decide_False.
Qed.

Lemma touches_Write P s data : P (components s) → touches P (Write os s data).
Proof.
  intros HP. apply touches_syscall; cbn; intros d Hwf;
    (edestruct put_file_spec as [H1 H2]; [exact Hwf|split; [apply H1|]]; intros q Hq; apply H2; by intros <-).
Qed.

Lemma touches_mkdirs P pre rest :
  Forall plain rest → ∀ d, tree_wf (dk_tree d) → dk_tree d !! pre = Some NDir →
  let r := mkdirs os pre rest d in
  tree_wf (dk_tree r.2) ∧ (∀ q, ¬ P q → file_at (dk_tree r.2) q = file_at (dk_tree d) q) ∧
  (∀ q n, dk_tree d !! q = Some n → dk_tree r.2 !! q = Some n).
Proof.
  intros Hpl. revert pre. induction Hpl as [|x rest Hx Hpl IH]; intros pre d Hwf Hpre; [done|]. cbn [mkdirs]. unfold mbind, D_bind, syscall.
  destruct (io_fault (dk_tick d)); [done|]. destruct (dk_tree d !! (pre ++ [x])) as [[|c]|] eqn:Hp; cbn [fst snd dk_tree].
  - by apply (IH (pre ++ [x]) (mkDisk (dk_tree d) (S (dk_tick d)))).
  - done.
  - destruct (IH (pre ++ [x]) (mkDisk (<[pre ++ [x] := NDir]> (dk_tree d)) (S (dk_tick d)))) as (H1 & H2 & H3).
    + cbn. apply tree_wf_insert; auto.
    + cbn. by rewrite lookup_insert_eq.
    + cbn [dk_tree] in *. split_and!; [done| |].
      * intros q Hq. rewrite H2 by done. apply file_at_insert_dir. unfold file_at. by rewrite Hp.
      * intros q n Hq. apply H3. rewrite lookup_insert_ne; [done|]. intros <-. congruence.
Qed.

Lemma touches_MkdirAll P s : touches P (MkdirAll os s).
Proof.
  unfold MkdirAll. destruct (has_nul s); [apply touches_throw|]. intros d Hwf.
  destruct (touches_mkdirs P [] (components s) (components_plain s) d Hwf (proj1 Hwf)) as (? & ? & _). done.
Qed.

(** The directories made are those that lead to the last. *)
Lemma mkdirs_new pre rest d q :
  ¬ q `prefix_of` pre ++ rest → dk_tree (mkdirs os pre rest d).2 !! q = dk_tree d !! q.
Proof.
  revert pre d. induction rest as [|x rest IH]; intros pre d Hq; [done|]. cbn [mkdirs]. unfold mbind, D_bind, syscall.
  assert (¬ q `prefix_of` (pre ++ [x]) ++ rest) as Hq' by (by rewrite <- app_assoc).
  destruct (io_fault (dk_tick d)); [done|]. destruct (dk_tree d !! (pre ++ [x])) as [[|c]|] eqn:Hp; cbn [fst snd dk_tree].
  - by rewrite IH.
  - done.
  - rewrite IH by done. cbn. rewrite lookup_insert_ne; [done|]. intros <-. apply Hq'. by apply prefix_app_r.
Qed.

Lemma MkdirAll_new s d q : ¬ q `prefix_of` components s → dk_tree (MkdirAll os s d).2 !! q = dk_tree d !! q.
Proof. unfold MkdirAll. destruct (has_nul s); [done|]. apply (mkdirs_new [] (components s)). Qed.

Lemma parent_dir_ok t p : tree_wf t → parent_dir t p = inr tt → t !! removelast p = Some NDir.
Proof.
  intros Hwf. unfold parent_dir. pose proof (lookup_root t (removelast p) Hwf) as Hl.
  destruct (lookup_path _ _ _) as [|[]]; done.
Qed.

Lemma insert_file_wf t p c :
  tree_wf t → Forall plain p → parent_dir t p = inr tt → t !! p ≠ Some NDir → tree_wf (<[p := NFile c]> t).
Proof.
  intros Hwf Hpl Hpar Hp. apply parent_dir_ok in Hpar; [|done]. destruct p as [|x p _] using rev_ind; [by destruct Hwf|].
  rewrite removelast_last in Hpar. apply Forall_app in Hpl as [_ Hx]. apply Forall_cons in Hx as [Hx _]. apply tree_wf_insert; auto.
Qed.

Lemma touches_OpenTrunc P s : P (components s) → touches P (OpenTrunc os s).
Proof.
  intros HP. unfold OpenTrunc. destruct (has_nul s); [apply touches_throw|]. apply touches_syscall; [|done]. intros d Hwf.
  destruct (parent_dir (dk_tree d) (components s)) as [|[]] eqn:Hpar; [done|].
  destruct (dk_tree d !! components s) as [[|c]|] eqn:Hp; [done|..]; cbn [snd];
    (split; [apply insert_file_wf; [done|apply components_plain|done|congruence]|]; intros q Hq; rewrite file_at_insert, decide_False; [done|by intros <-]).
Qed.

Lemma touches_Remove P s : components s ≠ [] → P (components s) → touches P (Remove os s).
Proof.
  intros Hne HP. unfold Remove. destruct (has_nul s); [apply touches_throw|]. apply touches_syscall; [|done]. intros d Hwf.
  pose proof (lookup_root (dk_tree d) (components s) Hwf) as Hl.
  assert (∀ q, ¬ P q → file_at (delete (components s) (dk_tree d)) q = file_at (dk_tree d) q) as Hfile.
  { intros q Hq. rewrite file_at_delete, decide_False; [done|]. by intros <-. }
  destruct (lookup_path _ _ _) as [e|[|c]]; [done|..].
  - destruct (occupied _ _) eqn:Ho; [done|]. split; [|done]. apply tree_wf_delete; [done..|]. intros y.
    unfold occupied in Ho. apply bool_decide_eq_false in Ho. destruct (dk_tree d !! (components s ++ [y])) as [n|] eqn:Hy; [|done].
    exfalso. apply Ho. exists (components s ++ [y]), n. split; [done|]. split; [by apply prefix_app_r|].
    intros Heq%(f_equal length). rewrite length_app in Heq. cbn in Heq. lia.
  - split; [|done]. apply tree_wf_delete; [done..|]. intros y. by eapply file_no_children.
Qed.

Lemma touches_Rename P old new :
  P (components old) → P (components new) → components old ≠ components new → touches P (Rename os old new).
Proof.
  intros HP HQ Hne. apply touches_syscall; [|done]. intros d Hwf. cbn.
  destruct (dk_tree d !! components old) as [[|c]|] eqn:Ho; [by destruct (parent_dir _ _)| |done].
  destruct (parent_dir (dk_tree d) (components new)) as [|[]] eqn:Hpar; [done|].
  assert (components old ≠ []) as Hnil by (intros Heq; rewrite Heq, (proj1 Hwf) in Ho; done).
  assert (tree_wf (delete (components old) (dk_tree d))) as Hwf1.
  { apply tree_wf_delete; [done..|]. intros y. by eapply file_no_children. }
  assert (dk_tree d !! components new ≠ Some NDir →
    tree_wf (<[components new := NFile c]> (delete (components old) (dk_tree d))) ∧
    ∀ q, ¬ P q → file_at (<[components new := NFile c]> (delete (components old) (dk_tree d))) q = file_at (dk_tree d) q) as Hok.
  { intros Hn. split.
    - pose proof (components_plain new) as Hpl. destruct (components new) as [|x p _] using rev_ind; [by destruct Hwf|].
      apply Forall_app in Hpl as [_ Hx]. apply Forall_cons in Hx as [Hx _]. apply parent_dir_ok in Hpar; [|done].
      rewrite removelast_last in Hpar. apply tree_wf_insert; [done| |done|].
      + rewrite lookup_delete_ne; [done|]. congruence.
      + right. by rewrite lookup_delete_ne.
    - intros q Hq. rewrite file_at_insert, decide_False by (by intros <-). rewrite file_at_delete, decide_False by (by intros <-). done. }
  destruct (dk_tree d !! components new) as [[|c']|]; [done|by apply Hok..].
Qed.

Lemma touches_RemoveAll P s :
  components s ≠ [] → (∀ q, components s `prefix_of` q → P q) → touches P (RemoveAll os s).
Proof.
  intros Hne HP.
  assert (∀ p x, ¬ components s `prefix_of` (p ++ [x]) → ¬ components s `prefix_of` p) as Hup.
  { intros p x Hn Hp. apply Hn. by apply prefix_app_r. }
  assert (¬ components s `prefix_of` []) as Hroot by (intros ?%prefix_nil_inv; done).
  apply touches_syscall; cbn; intros d Hwf.
  - split; [apply (tree_wf_filter _ _ (λ p, ¬ components s `prefix_of` p)); done|]. intros q Hq.
    apply file_at_filter_True. cbn. naive_solver.
  - split; [apply (tree_wf_filter _ _ (λ p, ¬ components s `prefix_of` p ∨ Exists (λ k, p `prefix_of` k) (io_kept (dk_tick d)))); [done|done|by left|]|].
    + intros p x [Hp|Hp]; [left; by eapply Hup|right]. eapply Exists_impl; [done|]. cbn. intros k Hk.
      etrans; [|done]. by apply prefix_app_r.
    + intros q Hq. apply file_at_filter_True. cbn. naive_solver.
Qed.
End touches.

(** ** What a call that succeeds did *)

Section success.
Context `{Faults} {E : Type} (os : os_error → E).

Lemma bind_inr {A B} (m : D E A) (f : A → D E B) d b d' :
  (m ≫= f) d = (inr b, d') → ∃ a d1, m d = (inr a, d1) ∧ f a d1 = (inr b, d').
Proof. unfold mbind, D_bind. destruct (m d) as [[e|a] d1]; [done|]. eauto. Qed.

Lemma syscall_inr {A} (f : Disk → (os_error + A) * tree) fault d a d' :
  syscall os f fault d = (inr a, d') → f d = (inr a, dk_tree d').
Proof. unfold syscall. destruct (io_fault _); [done|]. destruct (f d) as [[e|a'] t]; [done|]. by intros [= <- <-]. Qed.

Lemma OpenTrunc_inr s d d' : OpenTrunc os s d = (inr tt, d') → dk_tree d' !! components s = Some (NFile EmptyString).
Proof.
  unfold OpenTrunc. destruct (has_nul s); [done|]. intros Hf%syscall_inr. destruct (parent_dir _ _); [done|].
  destruct (dk_tree d !! _) as [[|c]|]; [done|..]; injection Hf as <-; by rewrite lookup_insert_eq.
Qed.

Lemma Write_inr s data d c d' :
  Write os s data d = (inr tt, d') → dk_tree d !! components s = Some (NFile c) → dk_tree d' !! components s = Some (NFile data).
Proof. intros Hf%syscall_inr Hd. injection Hf as <-. unfold put_file. by rewrite Hd, lookup_insert_eq. Qed.

Lemma Flush_inr d d' : Flush os d = (inr tt, d') → dk_tree d' = dk_tree d.
Proof. intros Hf%syscall_inr. by injection Hf. Qed.

Lemma Rename_inr old new d c d' :
  Rename os old new d = (inr tt, d') → dk_tree d !! components old = Some (NFile c) →
  dk_tree d' !! components new = Some (NFile c).
Proof.
  intros Hf%syscall_inr Hd. cbv beta in Hf. rewrite Hd in Hf. destruct (parent_dir _ _); [done|].
  destruct (dk_tree d !! components new) as [[|c']|]; [done|..]; injection Hf as <-; by rewrite lookup_insert_eq.
Qed.

Lemma Rename_inl old new d e d' : Rename os old new d = (inl e, d') → dk_tree d' = dk_tree d.
Proof.
  unfold Rename, syscall. destruct (io_fault _); [by intros [= <- <-]|].
  destruct (dk_tree d !! components old) as [[|c]|]; [destruct (parent_dir _ _); by intros [= <- <-]| |by intros [= <- <-]].
  destruct (parent_dir _ _); [by intros [= <- <-]|].
  destruct (dk_tree d !! components new) as [[|c']|]; by intros [= <- <-].
Qed.

(** Looking up what is there, without a fault. *)
Lemma Stat_spec s d :
  tree_wf (dk_tree d) →
  let r := os_Stat os s d in
  dk_tree r.2 = dk_tree d ∧
  match r.1 with
  | inr n => dk_tree d !! components s = Some n
  | inl e' => ∃ e, e' = os e ∧ (e = ENOENT → dk_tree d !! components s = None)
  end.
Proof.
  intros Hwf. unfold os_Stat. destruct (has_nul s); [split; [done|]; by exists EINVAL|].
  unfold syscall. destruct (io_fault _); [split; [done|]; by exists EIO|].
  pose proof (lookup_root (dk_tree d) (components s) Hwf) as Hl.
  destruct (lookup_path _ _ _) as [e|n]; (split; [done|]); [by exists e|done].
Qed.
End success.

#[export] Hint Resolve touches_ret touches_throw touches_bind touches_attempt touches_deferred touches_Stat touches_Flush
  touches_ReadDir touches_Write touches_MkdirAll touches_OpenTrunc touches_Remove touches_Rename touches_RemoveAll : disk.
