(* ===== verification/Artifacts.v ===== *)
(** * Artifacts (internal/artifact/store.go)

    The interface of an artifact store with what it promises to the handlers,
    and the store on the file system that keeps the promise. *)

From S2P Require Import Prelude GoStrings Paths FileSystem.

Open Scope Z_scope.

(** ** The interface *)

(** A request body: the bytes, and how reading ends after them. *)
Inductive read_error := MaxBytesError | ReadError.
Record Reader := mkReader { rd_data : string; rd_err : option read_error }.

Inductive artifact_error :=
  | ErrArtifactNotFound | ErrInvalidPath | ErrPayloadTooBig
  | ErrReading (e : read_error) | ErrOs (e : os_error) | ErrBackend.
#[export] Instance read_error_eq_dec : EqDecision read_error.
Proof. solve_decision. Defined.
#[export] Instance artifact_error_eq_dec : EqDecision artifact_error.
Proof. solve_decision. Defined.

Record ListEntry := mkListEntry { le_Path : string; le_IsDir : bool; le_Size : Z }.

Notation "'res' A" := (artifact_error + A)%type (at level 60, only parsing).

Class ArtifactStore (St : Type) := {
  art_Upload : string → string → Reader → Z → St → (artifact_error + unit) * St;
  art_Open : string → string → St → (artifact_error + string * Z) * St;
  art_Delete : string → string → St → (artifact_error + unit) * St;
  art_List : string → string → St → (artifact_error + list ListEntry) * St }.

(** [io.LimitReader(r, n)]: a reader that ends after [n] bytes. *)
Definition LimitReader (r : Reader) (n : Z) : Reader :=
  if Z.of_nat (slen (rd_data r)) <? n then r else mkReader (stake (Z.to_nat n) (rd_data r)) None.

(** The path of an artifact in its run. *)
Definition rel_components (relPath : string) : list string := components ("/" +:+ relPath).

(** What an artifact store promises: each run has artifacts, at paths; an
    upload that succeeds stores the body, which respects the limit; reading
    returns what is stored; deleting removes a path and what is below it; a
    listing shows the artifacts that are at a path and directly below it; and
    whatever an operation returns, the artifacts of other runs stay. *)
Class ArtifactStoreOk (St : Type) `{ArtifactStore St} := {
  art_inv : St → Prop;
  art_run : string → Prop;
  artifact : St → string → list string → option string;
  art_upload_law run rel r max st :
    art_inv st → art_run run → max < int64_max →
    let '(o, st') := art_Upload run rel r max st in
    art_inv st' ∧
    (∀ run' p, art_run run' → run' ≠ run → artifact st' run' p = artifact st run' p) ∧
    (o = inr tt → artifact st' run (rel_components rel) = Some (rd_data r) ∧ rd_err r = None ∧
       (0 < max → Z.of_nat (slen (rd_data r)) ≤ max));
  art_open_law run rel st :
    art_inv st → art_run run →
    let '(o, st') := art_Open run rel st in
    art_inv st' ∧ (∀ run' p, art_run run' → artifact st' run' p = artifact st run' p) ∧
    (∀ c n, o = inr (c, n) → artifact st run (rel_components rel) = Some c ∧ n = Z.of_nat (slen c)) ∧
    (o = inl ErrArtifactNotFound → artifact st run (rel_components rel) = None);
  art_delete_law run rel st :
    art_inv st → art_run run →
    let '(o, st') := art_Delete run rel st in
    art_inv st' ∧
    (∀ run' p, art_run run' → run' ≠ run ∨ ¬ rel_components rel `prefix_of` p → artifact st' run' p = artifact st run' p) ∧
    (o = inr tt → ∀ p, rel_components rel `prefix_of` p → artifact st' run p = None);
  art_list_law run dir st :
    art_inv st → art_run run →
    let '(o, st') := art_List run dir st in
    art_inv st' ∧ (∀ run' p, art_run run' → artifact st' run' p = artifact st run' p) ∧
    (∀ l e, o = inr l → e ∈ l → le_IsDir e = false →
       (rel_components (le_Path e) = rel_components dir ∨ ∃ x, rel_components (le_Path e) = rel_components dir ++ [x]) ∧
       ∃ c, artifact st run (rel_components (le_Path e)) = Some c ∧ le_Size e = Z.of_nat (slen c)) ∧
    (∀ l x c, o = inr l → artifact st run (rel_components dir ++ [x]) = Some c →
       ∃ e, e ∈ l ∧ le_IsDir e = false ∧ rel_components (le_Path e) = rel_components dir ++ [x]) }.

(** ** The file system store *)

Record FilesystemStore := mkFilesystemStore { fs_Root : string }.

Section filesystem.
Context `{Faults}.
(** The working directory of the server, and the store. *)
Context (wd : string) (f : FilesystemStore).

Definition NewFilesystemStore (root : string) : D artifact_error FilesystemStore :=
  if decide (root = EmptyString) then throw ErrBackend else
  _ ← MkdirAll ErrOs (Abs wd root); mret (mkFilesystemStore root).

Definition absoluteFor (runID relPath : string) : option string :=
  if decide (runID = EmptyString) then None
  else if ContainsAny runID "/\" then None
  else let clean := Clean ("/" +:+ relPath) in
       let clean := if decide (clean = "/"%string) then EmptyString else clean in
       let full := path_Join [fs_Root f; runID; clean] in
       let absRoot := Abs wd (path_Join [fs_Root f; runID]) in
       let absFull := Abs wd full in
       if negb (HasPrefix (absFull +:+ "/") (absRoot +:+ "/")) && bool_decide (absFull ≠ absRoot) then None
       else Some absFull.

(** [io.Copy] into the open file: the number of bytes written. *)
Definition Copy (tmp : string) (r : Reader) : D artifact_error Z :=
  _ ← Write ErrOs tmp (rd_data r);
  match rd_err r with
  | Some e => throw (ErrReading e)
  | None => mret (Z.of_nat (slen (rd_data r)))
  end.

(** The part of [Upload] that the deferred removal follows. *)
Definition write_artifact (tmp abs : string) (r : Reader) (maxSize : Z) : D artifact_error unit :=
  let src := if 0 <? maxSize then LimitReader r (wrap64 (maxSize + 1)) else r in
  written ← Copy tmp src;
  if (0 <? maxSize) && (maxSize <? written) then throw ErrPayloadTooBig else
  _ ← Flush ErrOs; (* Sync *)
  _ ← Flush ErrOs; (* Close *)
  Rename ErrOs tmp abs.

Definition Upload (runID relPath : string) (r : Reader) (maxSize : Z) : D artifact_error unit :=
  match absoluteFor runID relPath with
  | None => throw ErrInvalidPath
  | Some abs =>
      if decide (abs = Abs wd (path_Join [fs_Root f; runID])) then throw ErrInvalidPath else
      _ ← MkdirAll ErrOs (Dir abs);
      let tmp := abs +:+ ".part" in
      _ ← OpenTrunc ErrOs tmp;
      deferred (write_artifact tmp abs r maxSize) (Remove ErrOs tmp)
  end.

(** [os.IsNotExist] is the missing entry, not a file on the way. *)
Definition Open (runID relPath : string) : D artifact_error (string * Z) :=
  match absoluteFor runID relPath with
  | None => throw ErrInvalidPath
  | Some abs =>
      st ← attempt (os_Stat ErrOs abs);
      match st with
      | inl (ErrOs ENOENT) => throw ErrArtifactNotFound
      | inl e => throw e
      | inr NDir => throw ErrInvalidPath
      | inr (NFile c) => _ ← Flush ErrOs; mret (c, Z.of_nat (slen c))
      end
  end.

Definition Delete (runID relPath : string) : D artifact_error unit :=
  match absoluteFor runID relPath with
  | None => throw ErrInvalidPath
  | Some abs =>
      st ← attempt (os_Stat ErrOs abs);
      match st with
      | inl (ErrOs ENOENT) => throw ErrArtifactNotFound
      | inl e => throw e
      | inr _ => RemoveAll ErrOs abs
      end
  end.

Definition list_entry (dir : string) (e : string * node) : ListEntry :=
  let rel := if decide (dir = EmptyString ∨ dir = "."%string) then e.1 else path_Join [dir; e.1] in
  match e.2 with
  | NDir => mkListEntry rel true 0
  | NFile c => mkListEntry rel false (Z.of_nat (slen c))
  end.

Definition List (runID dir : string) : D artifact_error (list ListEntry) :=
  match absoluteFor runID dir with
  | None => throw ErrInvalidPath
  | Some abs =>
      st ← attempt (os_Stat ErrOs abs);
      match st with
      | inl (ErrOs ENOENT) => mret []
      | inl e => throw e
      | inr (NFile c) => mret [mkListEntry dir false (Z.of_nat (slen c))]
      | inr NDir => entries ← ReadDir ErrOs abs; mret (list_entry dir <$> entries)
      end
  end.

(** ** Where artifacts are *)

(** Run ids that are a plain name; those that [NewRunID] makes are. *)
Definition plain_run (run : string) : Prop := plain run ∧ ContainsAny run "\" = false.

Definition root_components : list string := abs_components wd (fs_Root f).
Definition run_path (run : string) (p : list string) : list string := root_components ++ run :: p.

Lemma rel_components_plain rel : Forall plain (rel_components rel).
Proof. apply components_plain. Qed.

Lemma run_path_plain run p : plain_run run → Forall plain p → Forall plain (run_path run p).
Proof. intros [Hr _] Hp. apply Forall_app_2; [apply abs_components_plain|by apply Forall_cons_2]. Qed.

Lemma ContainsAny_run run : plain_run run → ContainsAny run "/\" = false.
Proof.
  intros [(_ & _ & _ & Hs) Hb]. apply no_slash_any in Hs. unfold ContainsAny in *. cbn [any_byte] in *.
  induction run as [|c run IH]; [done|]. cbn [any_byte] in *. apply orb_false_iff in Hs as [H1 H2], Hb as [H3 H4].
  rewrite IH by done. rewrite H1. by rewrite !orb_false_r in *.
Qed.

Context (Hwd : IsAbs wd = true) (Hroot : fs_Root f ≠ EmptyString).

Lemma Abs_run run : plain_run run → Abs wd (path_Join [fs_Root f; run]) = absolute (run_path run []).
Proof.
  intros [Hr _]. rewrite Abs_join by done. cbn [mbind list_bind]. rewrite app_nil_r, Split1_single by apply Hr.
  rewrite resolve_push by done. cbn [resolve]. by rewrite reverse_cons, reverse_involutive.
Qed.

Lemma Abs_rel run rel :
  plain_run run →
  let clean := Clean ("/" +:+ rel) in
  Abs wd (path_Join [fs_Root f; run; if decide (clean = "/"%string) then EmptyString else clean]) =
  absolute (run_path run (rel_components rel)).
Proof.
  intros [Hr _]. cbv zeta. rewrite Abs_join by done. cbn [mbind list_bind]. rewrite app_nil_r, (Split1_single run) by apply Hr.
  cbn [app]. rewrite resolve_push by done. f_equal.
  assert (Clean ("/" +:+ rel) = absolute (rel_components rel)) as -> by (apply (Clean_abs ("/" +:+ rel)), (HasPrefix_app rel "/")).
  pose proof (rel_components_plain rel) as Hp. unfold run_path. fold root_components.
  destruct (rel_components rel) as [|x l] eqn:Hl.
  - rewrite decide_True by done. rewrite (proj2 (resolve_dot _ true) : resolve true _ (Split1 _ EmptyString) = _).
    by rewrite reverse_cons, reverse_involutive.
  - rewrite decide_False by (unfold absolute; apply Forall_cons in Hp as [[Hx _] _]; destruct x; cbn; [done|by injection 1]).
    assert (Split1 slash (absolute (x :: l)) = EmptyString :: x :: l) as ->.
    { unfold absolute. cbn [String.append Split1]. rewrite bool_decide_eq_true_2 by done. f_equal.
      apply Split1_Join_single; [done|]. eapply Forall_impl; [done|]. by intros ? (_ & _ & _ & ?). }
    rewrite resolve_skip, resolve_plain_onto by done. by rewrite reverse_cons, reverse_involutive, <- app_assoc.
Qed.

Lemma absolute_prefix l l' : l ≠ [] → HasPrefix (absolute (l ++ l') +:+ "/") (absolute l +:+ "/") = true.
Proof.
  intros Hl. destruct (decide (l' = [])) as [->|Hl']; [rewrite app_nil_r; apply HasPrefix_spec; exists EmptyString; by rewrite sapp_nil_r|].
  rewrite absolute_app by done. apply HasPrefix_spec. exists (Join "/" l' +:+ "/"). rewrite !sapp_assoc. done.
Qed.

(** The path of an artifact: below the directory of its run. *)
Lemma absoluteFor_spec run rel :
  plain_run run → absoluteFor run rel = Some (absolute (run_path run (rel_components rel))).
Proof.
  intros Hr. unfold absoluteFor. rewrite decide_False by apply Hr. rewrite ContainsAny_run by done. cbv zeta.
  rewrite Abs_rel, Abs_run by done.
  assert (run_path run (rel_components rel) = run_path run [] ++ rel_components rel) as -> by (unfold run_path; by rewrite <- app_assoc).
  rewrite absolute_prefix; [done|]. unfold run_path. by destruct root_components.
Qed.

(** The file an upload writes first. *)
Lemma part_path l x : absolute (l ++ [x]) +:+ ".part" = absolute (l ++ [x +:+ ".part"]).
Proof.
  unfold absolute. rewrite sapp_assoc. f_equal. destruct (decide (l = [])) as [->|Hl]; [cbn; by rewrite !sapp_nil_r|].
  rewrite !Join_snoc, sapp_assoc by done. done.
Qed.

Lemma part_plain x : plain x → plain (x +:+ ".part").
Proof.
  intros (H0 & H1 & H2 & H3). destruct x as [|c x]; [done|]. split_and!; [done|..].
  - intros [= _ E]. by destruct x.
  - intros [= _ E]. by destruct x as [|? [|? x]].
  - apply no_slash_cons in H3 as [Hc H3]. cbn [String.append]. apply no_slash_cons. split; [done|]. clear -H3.
    induction x as [|d x IH]; [done|]. apply no_slash_cons in H3 as [Hd H3]. cbn [String.append]. apply no_slash_cons. auto.
Qed.

Lemma part_neq (x : string) : x +:+ ".part" ≠ x.
Proof. intros E%(f_equal slen). rewrite slen_app in E. cbn in E. lia. Qed.

Definition target (run rel : string) : list string := run_path run (rel_components rel).
Definition part_of (run rel : string) : list string :=
  run_path run (removelast (rel_components rel) ++ [default EmptyString (last (rel_components rel)) +:+ ".part"]).

Lemma target_spec run rel :
  plain_run run → rel_components rel ≠ [] →
  absolute (target run rel) +:+ ".part" = absolute (part_of run rel) ∧ components (absolute (target run rel)) = target run rel ∧
  components (absolute (part_of run rel)) = part_of run rel ∧ part_of run rel ≠ target run rel ∧
  absolute (target run rel) ≠ absolute (run_path run []) ∧ part_of run rel ≠ [].
Proof.
  intros Hr Hne. unfold target, part_of. pose proof (rel_components_plain rel) as Hp.
  destruct (rel_components rel) as [|x l _] using rev_ind; [done|]. rewrite removelast_last, last_snoc. cbn [default].
  apply Forall_app in Hp as [Hl Hx]. apply Forall_cons in Hx as [Hx _].
  assert (∀ y, run_path run (l ++ [y]) = run_path run l ++ [y]) as Hsnoc by (intros y; unfold run_path; by rewrite <- app_assoc).
  assert (∀ y, plain y → Forall plain (run_path run (l ++ [y]))) as Hpl.
  { intros y Hy. apply run_path_plain; [done|]. by apply Forall_app_2, Forall_singleton. }
  split_and!; try (apply components_absolute; auto using part_plain).
  - rewrite !Hsnoc. apply part_path.
  - rewrite !Hsnoc. intros [_ E]%app_inj_tail. by apply part_neq in E.
  - intros E%absolute_inj; [|by apply Hpl|by apply run_path_plain, Forall_nil_2]. apply app_inv_head in E. by destruct l.
  - unfold run_path. by destruct root_components.
Qed.

Lemma touches_write_artifact P tmp abs r max :
  P (components tmp) → P (components abs) → components tmp ≠ components abs → touches P (write_artifact tmp abs r max).
Proof.
  intros Htmp Habs Hne. apply touches_bind.
  - apply touches_bind; [by apply touches_Write|intros _]. destruct (rd_err _); auto with disk.
  - intros n. destruct (_ && _); [apply touches_throw|]. apply touches_bind; [apply touches_Flush|intros _].
    apply touches_bind; [apply touches_Flush|intros _]. by apply touches_Rename.
Qed.

Lemma touches_upload run rel r max :
  plain_run run → touches (λ q, q = target run rel ∨ q = part_of run rel) (Upload run rel r max).
Proof.
  intros Hr. unfold Upload. rewrite absoluteFor_spec, Abs_run by done. fold (target run rel).
  destruct (decide (rel_components rel = [])) as [E|E].
  { unfold target. rewrite E, decide_True by done. apply touches_throw. }
  destruct (target_spec run rel Hr E) as (Hpart & Ec & Et & Hne & Hroot' & Hnil). rewrite decide_False, Hpart by done.
  set (P := λ q, _ ∨ _). assert (P (components (absolute (part_of run rel)))) as HP by (rewrite Et; by right).
  apply touches_bind; [auto with disk|intros _]. apply touches_bind; [by apply touches_OpenTrunc|intros _].
  apply touches_deferred; [|apply touches_Remove; [by rewrite Et|done]].
  apply touches_write_artifact; [done|rewrite Ec; by left|by rewrite Ec, Et].
Qed.

Lemma run_path_inj run run' p p' : run_path run p = run_path run' p' → run = run' ∧ p = p'.
Proof. intros E%app_inv_head. by injection E. Qed.

Lemma limit_ok r max :
  max < int64_max →
  let src := if 0 <? max then LimitReader r (wrap64 (max + 1)) else r in
  rd_err src = None → (0 <? max) && (max <? Z.of_nat (slen (rd_data src))) = false →
  rd_data src = rd_data r ∧ rd_err r = None ∧ (0 < max → Z.of_nat (slen (rd_data r)) ≤ max).
Proof.
  intros Hmax. destruct (Z.ltb_spec 0 max) as [Hpos|Hpos]; cbn [andb]; [|intros ? _; split_and!; [done..|lia]].
  assert (in_int64 (max + 1)) by (unfold in_int64, int64_min, int64_max in *; lia).
  rewrite wrap64_id by done. unfold LimitReader. destruct (Z.ltb_spec (Z.of_nat (slen (rd_data r))) (max + 1)); cbn.
  - intros He. intros _. split_and!; [done..|lia].
  - intros _. rewrite slen_stake. intros Hlt%Z.ltb_ge. lia.
Qed.

Lemma write_artifact_stores tmp abs r max d c d' :
  max < int64_max → dk_tree d !! components tmp = Some (NFile c) → write_artifact tmp abs r max d = (inr tt, d') →
  dk_tree d' !! components abs = Some (NFile (rd_data r)) ∧ rd_err r = None ∧ (0 < max → Z.of_nat (slen (rd_data r)) ≤ max).
Proof.
  unfold write_artifact. intros Hmax Hd (n & d1 & Hcopy & Hbody)%bind_inr. revert Hcopy Hbody. set (src := if 0 <? max then _ else _).
  unfold Copy. intros ([] & d2 & Hw & Hcopy)%bind_inr. eapply Write_inr in Hw; [|done].
  destruct (rd_err src) eqn:Herr; [done|]. injection Hcopy as <- <-. destruct (_ && _) eqn:Hbig; [done|].
  intros ([] & d3 & Hf1%Flush_inr & Hbody)%bind_inr. apply bind_inr in Hbody as ([] & d4 & Hf2%Flush_inr & Hren).
  eapply Rename_inr in Hren; [|rewrite Hf2, Hf1; exact Hw]. destruct (limit_ok r max Hmax Herr Hbig) as (Hdata & ? & ?).
  split_and!; [|done..]. rewrite Hren. do 2 f_equal. exact Hdata.
Qed.

(** What a successful upload stored. *)
Lemma upload_stores run rel r max d d' :
  plain_run run → tree_wf (dk_tree d) → max < int64_max → Upload run rel r max d = (inr tt, d') →
  file_at (dk_tree d') (run_path run (rel_components rel)) = Some (rd_data r) ∧ rd_err r = None ∧
  (0 < max → Z.of_nat (slen (rd_data r)) ≤ max).
Proof.
  intros Hr Hwf Hmax. unfold Upload. rewrite absoluteFor_spec, Abs_run by done. fold (target run rel).
  destruct (decide (rel_components rel = [])) as [E|E].
  { unfold target. by rewrite E, decide_True by done. }
  destruct (target_spec run rel Hr E) as (Hpart & Ec & Et & Hne & Hroot' & Hnil). rewrite decide_False, Hpart by done.
  intros ([] & d1 & H1 & HU)%bind_inr. apply bind_inr in HU as ([] & d2 & H2 & HU).
  pose proof (touches_MkdirAll ErrOs (λ _, False) (Dir (absolute (target run rel))) d Hwf) as [Hwf1 _]. rewrite H1 in Hwf1.
  pose proof (touches_OpenTrunc ErrOs (λ q, q = part_of run rel) (absolute (part_of run rel)) Et d1 Hwf1) as [Hwf2 _]. rewrite H2 in Hwf2.
  apply OpenTrunc_inr in H2. cbn [snd] in *. unfold deferred in HU.
  destruct (write_artifact _ _ r max d2) as [o d3] eqn:Hbody. injection HU as -> <-.
  assert (tree_wf (dk_tree d3)) as Hwf3.
  { pose proof (touches_write_artifact (λ _, True) (absolute (part_of run rel)) (absolute (target run rel)) r max) as Ht.
    destruct (Ht I I ltac:(by rewrite Ec, Et) d2 Hwf2) as [Hwf3 _]. by rewrite Hbody in Hwf3. }
  destruct (write_artifact_stores _ _ _ _ _ _ _ Hmax H2 Hbody) as [Hstored Hr']. split; [|done]. rewrite Ec in Hstored.
  pose proof (touches_Remove ErrOs (λ q, q = part_of run rel) (absolute (part_of run rel))) as Hrm.
  rewrite Et in Hrm. destruct (Hrm Hnil eq_refl d3 Hwf3) as [_ Hrm']. fold (target run rel).
  rewrite Hrm' by (intros Eq; by apply Hne). unfold file_at. by rewrite Hstored.
Qed.

(** A failed upload leaves the artifact that was there. *)
Lemma bind_inl_touches {A B} P (m : D artifact_error A) (k : A → D artifact_error B) d e d' :
  tree_wf (dk_tree d) → touches P m →
  (∀ a d1, tree_wf (dk_tree d1) → k a d1 = (inl e, d') → ∀ q, ¬ P q → file_at (dk_tree d') q = file_at (dk_tree d1) q) →
  (m ≫= k) d = (inl e, d') → ∀ q, ¬ P q → file_at (dk_tree d') q = file_at (dk_tree d) q.
Proof.
  intros Hwf Hm Hk. unfold mbind, D_bind. specialize (Hm d Hwf). destruct (m d) as [[e'|a] d1]; cbn [snd] in Hm.
  - intros [= <- <-]. apply Hm.
  - intros E q Hq. destruct Hm as [Hwf1 Hm]. rewrite (Hk a d1 Hwf1 E q Hq). by apply Hm.
Qed.

Lemma write_artifact_fails tmp abs r max d e d' :
  tree_wf (dk_tree d) → write_artifact tmp abs r max d = (inl e, d') →
  ∀ q, q ≠ components tmp → file_at (dk_tree d') q = file_at (dk_tree d) q.
Proof.
  intros Hwf. unfold write_artifact. apply bind_inl_touches; [done|..].
  - apply touches_bind; [by apply touches_Write|intros _]. destruct (rd_err _); auto with disk.
  - intros n d1 Hwf1. destruct (_ && _); [by intros [= <- <-]|]. apply bind_inl_touches; [done|apply touches_Flush|].
    intros _ d2 Hwf2. apply bind_inl_touches; [done|apply touches_Flush|]. intros _ d3 Hwf3 HR%Rename_inl. by rewrite HR.
Qed.

Lemma upload_fails run rel r max d e d' :
  plain_run run → tree_wf (dk_tree d) → Upload run rel r max d = (inl e, d') →
  file_at (dk_tree d') (target run rel) = file_at (dk_tree d) (target run rel).
Proof.
  intros Hr Hwf. unfold Upload. rewrite absoluteFor_spec, Abs_run by done. fold (target run rel).
  destruct (decide (rel_components rel = [])) as [E|E].
  { unfold target. rewrite E, decide_True by done. by intros [= <- <-]. }
  destruct (target_spec run rel Hr E) as (Hpart & Ec & Et & Hne & Hroot' & Hnil). rewrite decide_False, Hpart by done.
  intros HU. revert HU. cut (∀ q, ¬ q = part_of run rel → file_at (dk_tree d') q = file_at (dk_tree d) q → file_at (dk_tree d') q = file_at (dk_tree d) q); [|done]. intros _ HU.
  refine (bind_inl_touches (λ q, q = part_of run rel) _ _ d e d' Hwf (touches_MkdirAll _ _ _) _ HU (target run rel) _); [|by intros Eq; apply Hne].
  intros _ d1 Hwf1. apply bind_inl_touches; [done|apply touches_OpenTrunc; by rewrite Et|].
  intros _ d2 Hwf2. unfold deferred. destruct (write_artifact _ _ r max d2) as [o d3] eqn:Hbody. intros [= -> <-] q Hq.
  assert (tree_wf (dk_tree d3)) as Hwf3.
  { pose proof (touches_write_artifact (λ _, True) (absolute (part_of run rel)) (absolute (target run rel)) r max) as Ht.
    destruct (Ht I I ltac:(by rewrite Ec, Et) d2 Hwf2) as [Hwf3 _]. by rewrite Hbody in Hwf3. }
  pose proof (touches_Remove ErrOs (λ q, q = part_of run rel) (absolute (part_of run rel))) as Hrm.
  rewrite Et in Hrm. destruct (Hrm Hnil eq_refl d3 Hwf3) as [_ Hrm']. rewrite Hrm' by done.
  eapply write_artifact_fails; [done|done|by rewrite Et].
Qed.

(** ** The other operations *)

Lemma try_bind {A B} (m : D artifact_error A) (k : artifact_error + A → D artifact_error B) d :
  (attempt m ≫= k) d = k (m d).1 (m d).2.
Proof. unfold mbind, D_bind, attempt. by destruct (m d). Qed.

Lemma components_target run rel : plain_run run → components (absolute (target run rel)) = target run rel.
Proof. intros Hr. apply components_absolute, run_path_plain; [done|apply rel_components_plain]. Qed.

Lemma open_spec run rel d :
  plain_run run → tree_wf (dk_tree d) →
  let r := Open run rel d in
  dk_tree r.2 = dk_tree d ∧
  (∀ c n, r.1 = inr (c, n) → file_at (dk_tree d) (target run rel) = Some c ∧ n = Z.of_nat (slen c)) ∧
  (r.1 = inl ErrArtifactNotFound → dk_tree d !! target run rel = None).
Proof.
  intros Hr Hwf. unfold Open. rewrite absoluteFor_spec by done. fold (target run rel). rewrite try_bind.
  pose proof (Stat_spec ErrOs (absolute (target run rel)) d Hwf) as [Ht Hst]. rewrite components_target in Hst by done.
  destruct (os_Stat ErrOs (absolute (target run rel)) d) as [[e|[|c]] d1]; cbn [fst snd] in *.
  - destruct Hst as (e' & -> & Hst). destruct e'; split_and!; try done. intros _. by apply Hst.
  - done.
  - unfold mbind, D_bind, Flush, syscall. destruct (io_fault _); cbn; [done|].
    split_and!; [done| |done]. intros c' n [= <- <-]. unfold file_at. by rewrite Hst.
Qed.

Lemma delete_spec run rel d :
  plain_run run → tree_wf (dk_tree d) →
  let r := Delete run rel d in
  tree_wf (dk_tree r.2) ∧
  (∀ q, ¬ target run rel `prefix_of` q → file_at (dk_tree r.2) q = file_at (dk_tree d) q) ∧
  (r.1 = inr tt → ∀ q, target run rel `prefix_of` q → dk_tree r.2 !! q = None) ∧
  (r.1 = inl ErrArtifactNotFound → dk_tree d !! target run rel = None).
Proof.
  intros Hr Hwf. unfold Delete. rewrite absoluteFor_spec by done. fold (target run rel). rewrite try_bind.
  pose proof (Stat_spec ErrOs (absolute (target run rel)) d Hwf) as [Ht Hst].
  pose proof (components_target run rel Hr) as Ec. rewrite Ec in Hst.
  assert (∀ d1, dk_tree d1 = dk_tree d → let r := RemoveAll ErrOs (absolute (target run rel)) d1 in
    tree_wf (dk_tree r.2) ∧ (∀ q, ¬ target run rel `prefix_of` q → file_at (dk_tree r.2) q = file_at (dk_tree d) q) ∧
    (r.1 = inr tt → ∀ q, target run rel `prefix_of` q → dk_tree r.2 !! q = None) ∧ r.1 ≠ inl ErrArtifactNotFound) as Hrm.
  { intros d1 Hd1. pose proof (touches_RemoveAll ErrOs (λ q, target run rel `prefix_of` q) (absolute (target run rel))) as Hrm.
    rewrite Ec in Hrm. destruct (Hrm ltac:(unfold target, run_path; by destruct root_components) ltac:(done) d1 ltac:(by rewrite Hd1)) as [H1 H2].
    rewrite <- Hd1. split_and!; [done..| |].
    - intros Hr1 q Hq. destruct (RemoveAll _ _ d1) as [r d2] eqn:Hd2. cbn in Hr1. subst r. apply syscall_inr in Hd2. injection Hd2 as Hd2.
      cbn. rewrite <- Hd2, Ec. apply map_lookup_filter_None. right. cbn. naive_solver.
    - unfold RemoveAll, syscall. by destruct (io_fault _). }
  destruct (os_Stat ErrOs (absolute (target run rel)) d) as [[e|n] d1]; cbn [fst snd] in *.
  - destruct Hst as (e' & -> & Hst). destruct e'; cbn; rewrite Ht; split_and!; try done. intros _. by apply Hst.
  - destruct (Hrm d1 Ht) as (? & ? & ? & ?). split_and!; done.
Qed.

(** The entries of a listing are where they say. *)
Lemma rel_components_abs rel : rel_components rel = abs_components "/" rel.
Proof.
  unfold rel_components, components, abs_components. cbn [String.append Split1]. rewrite bool_decide_eq_true_2 by done.
  rewrite resolve_skip. by destruct (IsAbs rel).
Qed.

Lemma rel_components_entry dir x n :
  plain x → rel_components (le_Path (list_entry dir (x, n))) = rel_components dir ++ [x].
Proof.
  intros Hx. assert (rel_components x = [x]) as Hone.
  { rewrite rel_components_abs. unfold abs_components. rewrite Split1_single by apply Hx.
    change (Split1 slash "/") with [EmptyString; EmptyString].
    destruct (IsAbs x); cbn [app]; by rewrite ?resolve_skip, resolve_plain by (by apply Forall_singleton). }
  assert (le_Path (list_entry dir (x, n)) = if decide (dir = EmptyString ∨ dir = "."%string) then x else path_Join [dir; x]) as ->
    by (unfold list_entry; by destruct n).
  case_decide as Hd; [by destruct Hd as [-> | ->]|]. rewrite !rel_components_abs. cbn [path_Join].
  rewrite decide_False by naive_solver. rewrite abs_components_Clean by (by destruct dir; [naive_solver|]).
  unfold abs_components. assert (Split1 slash (Join "/" [dir; x]) = Split1 slash dir ++ [x]) as ->.
  { rewrite Split1_Join by done. cbn. by rewrite app_nil_r, (Split1_single x) by apply Hx. }
  assert (∀ l, resolve true [] (l ++ [x]) = resolve true [] l ++ [x]) as Hsnoc.
  { intros l. by rewrite resolve_app, resolve_plain_onto, reverse_involutive by (by apply Forall_singleton). }
  assert (IsAbs (Join "/" [dir; x]) = IsAbs dir) as ->.
  { destruct dir as [|c dir]; [naive_solver|]. unfold IsAbs. cbn [Join String.append HasPrefix]. by rewrite !HasPrefix_nil. }
  by destruct (IsAbs dir); rewrite ?app_assoc, Hsnoc.
Qed.

Lemma list_spec run dir d :
  plain_run run → tree_wf (dk_tree d) →
  let r := List run dir d in
  dk_tree r.2 = dk_tree d ∧
  (∀ l, r.1 = inr l → dk_tree d !! target run dir = Some NDir →
     (∀ x n, dk_tree d !! (target run dir ++ [x]) = Some n → list_entry dir (x, n) ∈ l) ∧
     (∀ e, e ∈ l → ∃ x n, dk_tree d !! (target run dir ++ [x]) = Some n ∧ e = list_entry dir (x, n))) ∧
  (∀ l e, r.1 = inr l → e ∈ l → le_IsDir e = false →
     (rel_components (le_Path e) = rel_components dir ∨ ∃ x, rel_components (le_Path e) = rel_components dir ++ [x]) ∧
     ∃ c, file_at (dk_tree d) (run_path run (rel_components (le_Path e))) = Some c ∧ le_Size e = Z.of_nat (slen c)).
Proof.
  intros Hr Hwf. unfold List. rewrite absoluteFor_spec by done. fold (target run dir). rewrite try_bind.
  pose proof (Stat_spec ErrOs (absolute (target run dir)) d Hwf) as [Ht Hst]. rewrite components_target in Hst by done.
  destruct (os_Stat ErrOs (absolute (target run dir)) d) as [[e|[|c]] d1]; cbn [fst snd] in *.
  - destruct Hst as (e' & -> & Hst). destruct e'; split_and!; try done.
    + intros l [= <-] Hd. by rewrite Hst in Hd.
    + intros l e [= <-]. by intros ?%elem_of_nil.
  - unfold mbind, D_bind, ReadDir, syscall. destruct (io_fault _); cbn [fst snd dk_tree]; [by split_and!|].
    rewrite components_target, Ht by done.
    split_and!; [done|..].
    + intros l [= <-] _. split.
      * intros x n Hx. apply (list_elem_of_fmap_2 (list_entry dir) _ (x, n)), elem_of_sort_by, elem_of_children. done.
      * intros e ([x n] & -> & Hx%elem_of_sort_by%elem_of_children)%list_elem_of_fmap. eauto.
    + intros l e [= <-] ([x n] & -> & Hx%elem_of_sort_by%elem_of_children)%list_elem_of_fmap. destruct n as [|c]; [done|]. intros _.
      assert (plain x) as Hpx.
      { assert (Forall plain (target run dir ++ [x])) as Hpl by (apply (proj2 (proj2 Hwf)); by rewrite Hx).
        apply Forall_app in Hpl as [_ Hpl]. by apply Forall_cons in Hpl as [? _]. }
      rewrite rel_components_entry by done. split; [right; by exists x|]. exists c. split; [|done]. unfold file_at.
      assert (run_path run (rel_components dir ++ [x]) = target run dir ++ [x]) as -> by (unfold target, run_path; by rewrite <- app_assoc).
      by rewrite Hx.
  - split_and!; [done| |].
    + intros l [= <-] Hd. by rewrite Hd in Hst.
    + intros l e [= <-] ->%list_elem_of_singleton _. split; [by left|]. exists c. split; [|done].
      change (file_at (dk_tree d) (target run dir) = Some c). unfold file_at. by rewrite Hst.
Qed.

(** The promise of the interface, kept. *)
#[export] Instance filesystem_store : ArtifactStore Disk := {
  art_Upload := Upload; art_Open := Open; art_Delete := Delete; art_List := List }.

#[export, refine] Instance filesystem_store_ok : ArtifactStoreOk Disk := {
  art_inv := λ d, tree_wf (dk_tree d);
  art_run := plain_run;
  artifact := λ d run p, file_at (dk_tree d) (run_path run p) }.
Proof.
  - intros run rel r max d Hwf Hr Hmax. cbn. destruct (Upload run rel r max d) as [o d'] eqn:HU.
    pose proof (touches_upload run rel r max Hr d Hwf) as [Hwf' Hfr]. rewrite HU in Hwf', Hfr. split_and!; [done| |].
    + intros run' p _ Hne. apply Hfr. intros [E%run_path_inj|E%run_path_inj]; naive_solver.
    + intros ->. exact (upload_stores _ _ _ _ _ _ Hr Hwf Hmax HU).
  - intros run rel d Hwf Hr. cbn. pose proof (open_spec run rel d Hr Hwf) as (Ht & Hok & Hnone).
    destruct (Open run rel d) as [o d']. cbn [fst snd] in *. rewrite Ht. split_and!; [done..|].
    intros E. change (file_at (dk_tree d) (target run rel) = None). unfold file_at. by rewrite Hnone.
  - intros run rel d Hwf Hr. cbn. pose proof (delete_spec run rel d Hr Hwf) as (Hwf' & Hfr & Hok & _).
    destruct (Delete run rel d) as [o d']. cbn [fst snd] in *. split_and!; [done|..].
    + intros run' p _ Hor. apply Hfr. unfold target, run_path. intros [k E]. rewrite <- app_assoc in E. apply app_inv_head in E.
      injection E as -> ->. destruct Hor as [?|Hp]; [done|]. apply Hp. by exists k.
    + intros E p [k ->]. unfold file_at. rewrite Hok; [done..|]. exists k. unfold target, run_path. by rewrite <- app_assoc.
  - intros run dir d Hwf Hr. cbn. pose proof (list_spec run dir d Hr Hwf) as (Ht & Hall & Hok).
    destruct (List run dir d) as [o d']. cbn [fst snd] in *. rewrite Ht. split_and!; [done..|intros l e; apply Hok|].
    intros l x c Hl Hx.
    assert (run_path run (rel_components dir ++ [x]) = target run dir ++ [x]) as Ex by (unfold target, run_path; by rewrite <- app_assoc).
    change (file_at (dk_tree d) (run_path run (rel_components dir ++ [x])) = Some c) in Hx. rewrite Ex in Hx. unfold file_at in Hx. destruct (dk_tree d !! (target run dir ++ [x])) as [[|c']|] eqn:Hn; try done.
    assert (is_Some (dk_tree d !! (target run dir ++ [x]))) as Hs by (by rewrite Hn).
    pose proof (proj1 (proj2 Hwf) _ _ Hs) as Hdir. pose proof (proj2 (proj2 Hwf) _ Hs) as Hpl.
    apply Forall_app in Hpl as [_ [Hpx _]%Forall_cons]. exists (list_entry dir (x, NFile c')).
    split_and!; [by apply (Hall l Hl Hdir)|done|by apply rel_components_entry].
Defined.
End filesystem.

(** C12: uploads are atomic and stay in their run.  Whatever system calls fail,
    an upload changes no file of the disk but the artifact it names and the
    [.part] file beside it, both below the directory of the run; when it
    succeeds the artifact is exactly the body, which was read without error and
    is within the limit; when it fails the artifact is what it was; and a
    download that succeeds afterwards returns exactly what is stored. *)
Theorem upload_atomic `{Faults} wd f run rel r max d :
  IsAbs wd = true → fs_Root f ≠ EmptyString → plain_run run → tree_wf (dk_tree d) → max < int64_max →
  let '(o, d') := Upload wd f run rel r max d in
  let artifact_path := run_path wd f run (rel_components rel) in
  tree_wf (dk_tree d') ∧
  (∀ q, q ≠ artifact_path → absolute q ≠ absolute artifact_path +:+ ".part" →
     file_at (dk_tree d') q = file_at (dk_tree d) q) ∧
  match o with
  | inr _ => file_at (dk_tree d') artifact_path = Some (rd_data r) ∧ rd_err r = None ∧
             (0 < max → Z.of_nat (slen (rd_data r)) ≤ max)
  | inl _ => file_at (dk_tree d') artifact_path = file_at (dk_tree d) artifact_path
  end ∧
  (∀ c n, (Open wd f run rel d').1 = inr (c, n) → file_at (dk_tree d') artifact_path = Some c ∧ n = Z.of_nat (slen c)).
Proof.
  intros Hwd Hroot Hr Hwf Hmax. destruct (Upload wd f run rel r max d) as [o d'] eqn:HU. cbv zeta.
  pose proof (touches_upload wd f Hwd Hroot run rel r max Hr d Hwf) as [Hwf' Hfr]. rewrite HU in Hwf', Hfr. split_and!; [done|..].
  - intros q Hq Hpart. destruct (decide (rel_components rel = [])) as [E|E].
    + unfold Upload in HU. rewrite absoluteFor_spec, Abs_run, E, decide_True in HU by done. by injection HU as <- <-.
    + apply Hfr. intros [?|Hp]; [done|]. apply Hpart. destruct (target_spec wd f run rel Hr E) as (Heq & _).
      rewrite Hp. symmetry. exact Heq.
  - destruct o as [e|[]]; [exact (upload_fails wd f Hwd Hroot _ _ _ _ _ _ _ Hr Hwf HU)|].
    exact (upload_stores wd f Hwd Hroot _ _ _ _ _ _ Hr Hwf Hmax HU).
  - apply (open_spec wd f Hwd Hroot run rel d' Hr Hwf').
Qed.

(** ** Examples *)

Module Example8.
#[local] Instance no_faults : Faults := { io_fault _ := false; io_written _ := 0%nat; io_kept _ := [] }.

Definition store : FilesystemStore := mkFilesystemStore "data/artifacts".
Definition disk0 : Disk := mkDisk {[ [] := NDir ]} 0.
Definition upload (run rel data : string) (max : Z) (d : Disk) := Upload "/srv" store run rel (mkReader data None) max d.
Definition disk1 : Disk := (upload "r1" "model/weights.bin" "abc" 10 disk0).2.

Lemma disk0_wf : tree_wf (dk_tree disk0).
Proof.
  split_and!; [done|..]; cbn; intros p; [intros x|]; intros [n [Hp _]%lookup_singleton_Some].
  - by destruct p.
  - subst. apply Forall_nil_2.
Qed.

Lemma upload_atomic_witness :
  (upload "r1" "model/../model//weights.bin" "abc" 10 disk0).1 = inr tt ∧
  file_at (dk_tree disk1) ["srv"; "data"; "artifacts"; "r1"; "model"; "weights.bin"]%string = Some "abc"%string ∧
  (Open "/srv" store "r1" "model/weights.bin" disk1).1 = inr ("abc"%string, 3) ∧
  (upload "r1" "model/weights.bin" "longer than ten" 10 disk1).1 = inl ErrPayloadTooBig.
Proof.
  split; [vm_compute; reflexivity|]. split; [|split; vm_compute; reflexivity].
  assert (plain_run "r1") as Hr by (split; [repeat split|]; done).
  pose proof (upload_atomic "/srv" store "r1" "model/weights.bin" (mkReader "abc" None) 10 disk0 eq_refl ltac:(done) Hr disk0_wf ltac:(done)) as H.
  change (Upload "/srv" store "r1" "model/weights.bin" (mkReader "abc" None) 10 disk0) with (upload "r1" "model/weights.bin" "abc" 10 disk0) in H.
  destruct (upload "r1" "model/weights.bin" "abc" 10 disk0) as [o d'] eqn:E.
  assert (o = inr tt) as -> by (change o with (o, d').1; rewrite <- E; vm_compute; reflexivity).
  assert (d' = disk1) as -> by (change d' with (inr tt : artifact_error + unit, d').2; by rewrite <- E).
  destruct H as (_ & _ & [H _] & _). exact H.
Defined.

(** An artifact that is named like the temporary file of another one is lost
    when that one is uploaded. *)
Example part_artifact_lost :
  let d := (upload "r1" "log.part" "precious" 100 disk0).2 in
  (Open "/srv" store "r1" "log.part" d).1 = inr ("precious"%string, 8) ∧
  (upload "r1" "log" "new" 100 d).1 = inr tt ∧
  (Open "/srv" store "r1" "log.part" (upload "r1" "log" "new" 100 d).2).1 = inl ErrArtifactNotFound.
Proof. vm_compute. done. Qed.

(** The run id [".."] is not refused: the path it gives is outside the root. *)
Example run_id_dots_escape : absoluteFor "/srv" store ".." "x" = Some "/srv/data/x"%string.
Proof. vm_compute. reflexivity. Qed.

(** With the largest limit the length of the read overflows: nothing is read,
    and an empty artifact is stored without an error. *)
Example largest_limit_stores_nothing :
  let '(o, d) := upload "r1" "a" "data" int64_max disk0 in
  o = inr tt ∧ (Open "/srv" store "r1" "a" d).1 = inr (EmptyString, 0).
Proof. vm_compute. done. Qed.
End Example8.
