(* ===== verification/Model.v ===== *)
(** * Domain types (internal/model/types.go)

    The structs of the domain as records (a nil pointer is [None]), the
    validation helpers and the identifier generators. *)

From S2P Require Import Prelude GoStrings.
From Stdlib Require Import Ascii.

Open Scope Z_scope.

(** ** Enumerations, kept as the strings the code stores *)

Definition LifecycleActive : string := "active".
Definition LifecycleDeleted : string := "deleted".

Definition StatusRunning : string := "RUNNING".
Definition StatusScheduled : string := "SCHEDULED".
Definition StatusFinished : string := "FINISHED".
Definition StatusFailed : string := "FAILED".
Definition StatusKilled : string := "KILLED".

Definition KindClassic : string := "classic".
Definition KindTrace : string := "trace".
Definition KindEval : string := "eval".

Definition StageNone : string := "None".
Definition StageStaging : string := "Staging".
Definition StageProduction : string := "Production".
Definition StageArchived : string := "Archived".

Definition ValidStage (s : string) : bool :=
  bool_decide (s ∈ [StageNone; StageStaging; StageProduction; StageArchived]).

(** ** Numbers

    A finite [float64] [v] is the integer [v * 2^1074], of which every
    binary64 value is a multiple; [-0.0] is identified with [0.0]. *)
Inductive float64 :=
  | FNaN
  | FInf (negative : bool)
  | FFin (scaled : Z).

#[export] Instance float64_eq_dec : EqDecision float64.
Proof. solve_decision. Defined.

Definition IsNaN (f : float64) : bool := match f with FNaN => true | _ => false end.
Definition IsInf (f : float64) : bool := match f with FInf _ => true | _ => false end.
Definition is_finite (f : float64) : bool := match f with FFin _ => true | _ => false end.

(** ** Structs *)

Record KV := mkKV { kv_Key : string; kv_Value : string }.
Record Param := mkParam { param_Key : string; param_Value : string }.
Record Metric := mkMetric {
  metric_Key : string; metric_Value : float64; metric_Timestamp : Z; metric_Step : Z }.

#[export] Instance KV_eq_dec : EqDecision KV.
Proof. solve_decision. Defined.
#[export] Instance Param_eq_dec : EqDecision Param.
Proof. solve_decision. Defined.
#[export] Instance Metric_eq_dec : EqDecision Metric.
Proof. solve_decision. Defined.

Record Workspace := mkWorkspace {
  ws_ID : string; ws_Name : string; ws_Description : string;
  ws_CreationTime : Z; ws_LastUpdateTime : Z }.

Record WorkspaceMember := mkMember {
  mem_WorkspaceID : string; mem_UserID : string; mem_Role : string }.

Record Experiment := mkExperiment {
  exp_ID : Z; exp_Name : string; exp_ArtifactLocation : string;
  exp_LifecycleStage : string; exp_CreationTime : Z; exp_LastUpdateTime : Z;
  exp_WorkspaceID : string; exp_Tags : list KV }.

Record Run := mkRun {
  run_ID : string; run_ExperimentID : Z; run_Name : string; run_Status : string;
  run_StartTime : Z; run_EndTime : option Z; run_ArtifactURI : string;
  run_LifecycleStage : string; run_UserID : string; run_SourceType : string;
  run_SourceName : string; run_Kind : string; run_ParentRunID : string }.

#[export] Instance Run_eq_dec : EqDecision Run.
Proof. solve_decision. Defined.
#[export] Instance Experiment_eq_dec : EqDecision Experiment.
Proof. solve_decision. Defined.

Record Session := mkSession {
  sess_ID : string; sess_UserID : string; sess_UserEmail : string;
  sess_UserName : string; sess_AuthMethod : string; sess_CreatedAt : Z;
  sess_ExpiresAt : Z; sess_LastSeen : Z }.

Record Peer := mkPeer {
  peer_ID : Z; peer_Name : string; peer_URL : string; peer_Secret : string;
  peer_WorkspaceID : string; peer_AddedAt : Z; peer_LastSeen : option Z;
  peer_Status : string; peer_LastError : string }.

Record Webhook := mkWebhook {
  wh_ID : Z; wh_Name : string; wh_URL : string; wh_Events : string;
  wh_ExperimentID : option Z; wh_WorkspaceID : string; wh_Secret : string;
  wh_CreatedAt : Z; wh_LastStatus : option Z; wh_LastAttempt : option Z;
  wh_Enabled : bool }.

Record Dashboard := mkDashboard {
  dash_ID : Z; dash_WorkspaceID : string; dash_Project : string;
  dash_Widgets : string; dash_CreatedAt : Z; dash_UpdatedAt : Z }.

Record Span := mkSpan {
  span_ID : string; span_TraceID : string; span_ParentID : string;
  span_RunID : string; span_Name : string; span_Kind : string;
  span_StartTimeNS : Z; span_EndTimeNS : option Z; span_AttributesJSON : string;
  span_EventsJSON : string; span_StatusCode : string; span_StatusMessage : string }.

Record Prompt := mkPrompt {
  prompt_WorkspaceID : string; prompt_Name : string; prompt_Version : Z;
  prompt_Content : string; prompt_ContentHash : string; prompt_CreatedAt : Z;
  prompt_CreatedBy : string; prompt_Description : string }.

Record ModelAlias := mkModelAlias { ma_Alias : string; ma_Version : Z }.

Record RegisteredModel := mkRegisteredModel {
  rm_WorkspaceID : string; rm_Name : string; rm_Description : string;
  rm_CreationTime : Z; rm_LastUpdateTime : Z; rm_Tags : list KV;
  rm_Aliases : list ModelAlias }.

Record ModelVersion := mkModelVersion {
  mv_WorkspaceID : string; mv_Name : string; mv_Version : Z;
  mv_Description : string; mv_UserID : string; mv_CurrentStage : string;
  mv_Source : string; mv_RunID : string; mv_Status : string;
  mv_StatusMessage : string; mv_CreationTime : Z; mv_LastUpdateTime : Z;
  mv_Tags : list KV; mv_Aliases : list string }.

Record DatasetVersion := mkDatasetVersion {
  ds_ID : Z; ds_Name : string; ds_Version : Z; ds_ContentHash : string;
  ds_SizeBytes : Z; ds_SchemaJSON : string; ds_Description : string;
  ds_WorkspaceID : string; ds_CreatedAt : Z; ds_CreatedBy : string;
  ds_LifecycleStage : string; ds_Parents : list Z }.

(** ** Validation *)

(** A control rune of the UTF-8 text: U+0000-U+001F and U+007F are single
    bytes, U+0080-U+009F are the byte 0xC2 followed by 0x80-0x9F. *)
Fixpoint has_control (s : string) : bool :=
  match s with
  | EmptyString => false
  | String a s' =>
      byte_in 0 31 a || byte_is 127 a ||
      (byte_is 194 a && match s' with String b _ => byte_in 128 159 b | EmptyString => false end) ||
      has_control s'
  end.

Definition ValidName (s : string) (maxLen : Z) : result unit :=
  _ ← guard_err (bool_decide (s = EmptyString)) ErrOther;
  _ ← guard_err ((0 <? maxLen) && (maxLen <? Z.of_nat (slen s))) ErrOther;
  guard_err (has_control s) ErrOther.

Definition ValidKey (s : string) : result unit :=
  _ ← ValidName s 250;
  guard_err (negb (bool_decide (TrimSpace s = s))) ErrOther.

(** [invalidValue] of store.go: tags a validation error. *)
Definition invalidValue {A} (r : result A) : result A :=
  match r with Ok a => Ok a | Err _ => Err ErrInvalidValue end.

(** ** Identifiers *)

Definition hex_digit (n : N) : ascii :=
  if (n <? 10)%N then ascii_of_N (48 + n) else ascii_of_N (87 + n).

(** [hex.EncodeToString]. *)
Fixpoint EncodeToString (b : list Z) : string :=
  match b with
  | [] => EmptyString
  | x :: b' => String (hex_digit (Z.to_N (Z.shiftr x 4)))
                 (String (hex_digit (Z.to_N (Z.land x 15))) (EncodeToString b'))
  end.

Definition unhex (c : ascii) : option Z :=
  if byte_in 48 57 c then Some (Z.of_N (byte_of c) - 48)
  else if byte_in 97 102 c then Some (Z.of_N (byte_of c) - 87)
  else if byte_in 65 70 c then Some (Z.of_N (byte_of c) - 55) else None.

(** [hex.DecodeString]; [None] is its error. *)
Fixpoint DecodeString (s : string) : option (list Z) :=
  match s with
  | EmptyString => Some []
  | String a (String b s') => h ← unhex a; l ← unhex b; rest ← DecodeString s'; Some (16 * h + l :: rest)
  | String _ EmptyString => None
  end.

(** [byte(t >> (8 * i))]. *)
Definition time_byte (t : Z) (i : nat) : Z := Z.land (Z.shiftr t (8 * Z.of_nat i)) 255.

(** [NewRunID]: [t] is the clock read first, [rand] the result of
    [readRand(b[8:])] ([None] when it fails, and then the clock is read
    again, [t2]). *)
Definition NewRunID (t : Z) (rand : option (list Z)) (t2 : Z) : string :=
  let lo := time_byte t <$> seq 0 8 in
  let hi := match rand with
            | Some r => r
            | None => time_byte t2 <$> seq 0 8
            end in
  let b := lo ++ hi in
  let b := <[6%nat := Z.lor (Z.land (nth 6 b 0) 15) 64]> b in
  let b := <[8%nat := Z.lor (Z.land (nth 8 b 0) 63) 128]> b in
  EncodeToString b.

(** [NewSpanID] / [NewTraceID]. *)
Definition NewSpanID (rand : option (list Z)) (t : Z) : string :=
  EncodeToString (match rand with Some r => r | None => time_byte t <$> seq 0 8 end).

Definition NewTraceID (rand : option (list Z)) (t : Z) : string :=
  EncodeToString (match rand with
                  | Some r => r
                  | None => (λ i, time_byte t (i `mod` 8)) <$> seq 0 16
                  end).

(** * Lemmas *)

Lemma ValidName_ok s n :
  ValidName s n = Ok tt ↔
  s ≠ EmptyString ∧ (0 < n → Z.of_nat (slen s) ≤ n) ∧ has_control s = false.
Proof.
  unfold ValidName, guard_err. simpl.
  destruct (bool_decide_reflect (s = EmptyString)) as [->|Hs]; simpl; [split; [done|by intros [? _]]|].
  destruct ((0 <? n) && (n <? Z.of_nat (slen s))) eqn:E; simpl.
  - apply andb_prop in E as [?%Z.ltb_lt ?%Z.ltb_lt]. split; [done|]. intros (_ & Hlen & _). lia.
  - destruct (has_control s); split; try done; [intros (_ & _ & ?); congruence|].
    intros _. split_and!; try done. intros Hn.
    apply andb_false_iff in E as [?%Z.ltb_ge|?%Z.ltb_ge]; lia.
Qed.

Lemma ValidKey_nonempty s : ValidKey s = Ok tt → s ≠ EmptyString.
Proof.
  unfold ValidKey. destruct (ValidName s 250) as [[]|] eqn:E; simpl; [|done].
  intros _. by apply ValidName_ok in E as [? _].
Qed.

Lemma invalidValue_ok {A} (r : result A) a : invalidValue r = Ok a ↔ r = Ok a.
Proof. by destruct r. Qed.

Lemma slen_EncodeToString b : slen (EncodeToString b) = (2 * length b)%nat.
Proof. induction b as [|x b IH]; simpl; [done|]. rewrite IH. lia. Qed.

Definition is_lower_hex (c : ascii) : bool := byte_in 48 57 c || byte_in 97 102 c.

Lemma hex_digit_lower n : (n < 16)%N → is_lower_hex (hex_digit n) = true.
Proof.
  intros Hn. destruct n as [|p]; [done|].
  do 4 (destruct p as [p|p|]; try done; try lia).
Qed.

Lemma EncodeToString_hex b :
  Forall (λ x, 0 ≤ x < 256) b →
  any_byte (λ c, negb (is_lower_hex c)) (EncodeToString b) = false.
Proof.
  induction 1 as [|x b Hx _ IH]; simpl; [done|].
  rewrite !hex_digit_lower; [done| |].
  - change 15 with (Z.ones 4). rewrite Z.land_ones by lia. pose proof (Z.mod_pos_bound x (2 ^ 4)). lia.
  - rewrite Z.shiftr_div_pow2 by lia.
    pose proof (Z.div_lt_upper_bound x (2 ^ 4) 16).
    pose proof (Z.div_pos x (2 ^ 4)). lia.
Qed.

Lemma unhex_hex_digit n : (n < 16)%N → unhex (hex_digit n) = Some (Z.of_N n).
Proof.
  intros Hn. destruct n as [|p]; [done|].
  do 4 (destruct p as [p|p|]; try done; try lia).
Qed.

Lemma DecodeString_EncodeToString b :
  Forall (λ x, 0 ≤ x < 256) b → DecodeString (EncodeToString b) = Some b.
Proof.
  induction 1 as [|x b Hx _ IH]; [done|]. cbn [EncodeToString DecodeString].
  change 15 with (Z.ones 4). rewrite Z.land_ones, Z.shiftr_div_pow2 by lia. change (2 ^ 4) with 16.
  pose proof (Z.mod_pos_bound x 16). pose proof (Z.div_lt_upper_bound x 16 16).
  pose proof (Z.div_pos x 16). pose proof (Z.div_mod x 16).
  rewrite !unhex_hex_digit, IH by lia. cbn. f_equal. f_equal. lia.
Qed.
