(* ===== verification/Float64.v ===== *)
(** * float64 arithmetic

    The operations of Go's [float64] the program uses, on the exact values of
    Model.v: a finite value is an integer number of units of 2^-1074, and an
    operation is the exact result rounded to nearest, ties to even, with a
    53-bit significand and overflow to infinity. *)

From S2P Require Import Prelude Model.

Open Scope Z_scope.

Definition unit64 : Z := 2 ^ 1074.

(** The float64 nearest to [n / d] units, for [0 < d]. *)
Definition round_ratio (n d : Z) : float64 :=
  let a := Z.abs n in
  let e := Z.max 0 (Z.log2 (a / d) + 1 - 53) in
  let den := d * 2 ^ e in
  let q := a / den in
  let r := a `mod` den in
  let up := (den <? 2 * r) || ((den =? 2 * r) && Z.odd q) in
  let m := (if up then q + 1 else q) * 2 ^ e in
  if 2 ^ 1024 * unit64 <=? m then FInf (n <? 0) else FFin (Z.sgn n * m).

(** [float64(z)]. *)
Definition of_int (z : Z) : float64 := round_ratio (z * unit64) 1.

Definition fopp (x : float64) : float64 :=
  match x with FNaN => FNaN | FInf s => FInf (negb s) | FFin a => FFin (- a) end.

Definition fabs (x : float64) : float64 :=
  match x with FNaN => FNaN | FInf _ => FInf false | FFin a => FFin (Z.abs a) end.

Definition fadd (x y : float64) : float64 :=
  match x, y with
  | FNaN, _ | _, FNaN => FNaN
  | FInf s, FInf t => if Bool.eqb s t then FInf s else FNaN
  | FInf s, FFin _ | FFin _, FInf s => FInf s
  | FFin a, FFin b => round_ratio (a + b) 1
  end.

Definition fsub (x y : float64) : float64 := fadd x (fopp y).

Definition fneg (x : float64) : bool := match x with FNaN => false | FInf s => s | FFin a => a <? 0 end.
Definition fzero (x : float64) : bool := match x with FFin a => a =? 0 | _ => false end.

Definition fmul (x y : float64) : float64 :=
  match x, y with
  | FNaN, _ | _, FNaN => FNaN
  | FFin a, FFin b => round_ratio (a * b) unit64
  | _, _ => if fzero x || fzero y then FNaN else FInf (xorb (fneg x) (fneg y))
  end.

(** Zero has one sign here, the divisors of the program are not [-0.0]. *)
Definition fdiv (x y : float64) : float64 :=
  match x, y with
  | FNaN, _ | _, FNaN => FNaN
  | FInf _, FInf _ => FNaN
  | FInf s, FFin b => FInf (xorb s (b <? 0))
  | FFin _, FInf _ => FFin 0
  | FFin a, FFin b =>
      if b =? 0 then (if a =? 0 then FNaN else FInf (a <? 0))
      else round_ratio (Z.sgn b * a * unit64) (Z.abs b)
  end.

(** [x < y], false on NaN. *)
Definition flt (x y : float64) : bool :=
  match x, y with
  | FNaN, _ | _, FNaN => false
  | FInf s, FInf t => s && negb t
  | FInf s, FFin _ => s
  | FFin _, FInf t => negb t
  | FFin a, FFin b => a <? b
  end.

(** [x <= y], false on NaN. *)
Definition fleb (x y : float64) : bool := negb (IsNaN x) && negb (IsNaN y) && negb (flt y x).

(** The numeric order, NaN first, as [sort.Float64s] has it. *)
Definition real_key (v : float64) : Z * Z :=
  match v with FNaN => (-2, 0) | FInf true => (-1, 0) | FFin z => (0, z) | FInf false => (1, 0) end.

(** [min(x, y)] of Go. *)
Definition fmin (x y : float64) : float64 :=
  match x, y with
  | FNaN, _ | _, FNaN => FNaN
  | _, _ => if flt y x then y else x
  end.

(** [int(math.Floor(x))] of a finite [x]. *)
Definition floor_int (x : float64) : Z := match x with FFin a => a / unit64 | _ => 0 end.

Example float_sixth : fdiv (of_int 1) (of_int 12) = FFin (float64_round (unit64 * 2 ^ 60 / 12) / 2 ^ 60).
Proof. vm_compute. reflexivity. Qed.

(** * Rounding *)

Lemma unit64_pos : 0 < unit64.
Proof. unfold unit64. apply Z.pow_pos_nonneg; lia. Qed.

Lemma unit64_eq : unit64 = 2 ^ 1074.
Proof. done. Qed.

#[global] Opaque unit64.

(** The exponent keeps 53 bits. *)
Lemma round_exponent q : 0 ≤ q → let e := Z.max 0 (Z.log2 q + 1 - 53) in 0 ≤ e ∧ (q < 2 ^ 53 → e = 0) ∧ (0 < e → 2 ^ (e + 52) ≤ q).
Proof.
  intros Hq. cbv zeta. split_and!; [lia| |].
  - intros Hlt. destruct (decide (q = 0)) as [->|]; [done|]. pose proof (Z.log2_lt_pow2 q 53). lia.
  - intros He. rewrite Z.max_r by lia. replace (Z.log2 q + 1 - 53 + 52) with (Z.log2 q) by lia.
    apply Z.log2_spec. destruct (decide (q = 0)) as [->|]; [cbn in He; lia|lia].
Qed.

(** Rounding an exact ratio [n / d] of non-negative numbers: the result is at
    least every multiple of the last place below it, and off by at most half a
    unit in the last place. *)
Lemma round_ratio_spec n d :
  0 ≤ n → 0 < d → n / d < 2 ^ 1023 * unit64 →
  ∃ e m, 0 ≤ e ∧ 0 ≤ m ∧ round_ratio n d = FFin (m * 2 ^ e) ∧ n / (d * 2 ^ e) ≤ m ∧
    2 * Z.abs (m * 2 ^ e * d - n) ≤ d * 2 ^ e ∧ (n / d < 2 ^ 53 → e = 0) ∧ (0 < e → 2 ^ (e + 52) ≤ n / d).
Proof.
  intros Hn Hd Hlt. unfold round_ratio. rewrite (Z.abs_eq n) by done.
  pose proof (Z.div_pos n d Hn Hd) as Hq0. destruct (round_exponent (n / d) Hq0) as (He & He0 & Hebig).
  set (e := Z.max 0 (Z.log2 (n / d) + 1 - 53)) in *. assert (0 < 2 ^ e) as H2e by (by apply Z.pow_pos_nonneg).
  set (den := d * 2 ^ e). assert (0 < den) as Hden by (unfold den; nia).
  pose proof (Z.div_mod n den) as Hdm. pose proof (Z.mod_pos_bound n den Hden) as Hr.
  set (q := n / den) in *. set (r := n `mod` den) in *.
  assert (0 ≤ q) as Hq by (by apply Z.div_pos).
  set (up := (den <? 2 * r) || ((den =? 2 * r) && Z.odd q)). set (m := if up then q + 1 else q).
  assert (q ≤ m ≤ q + 1) as Hm by (unfold m; destruct up; lia).
  assert (2 * Z.abs (m * den - n) ≤ den) as Herr.
  { unfold m, up. destruct (Z.ltb_spec den (2 * r)); cbn [orb]; [nia|].
    destruct (Z.eqb_spec den (2 * r)); cbn [andb]; [destruct (Z.odd q); nia|nia]. }
  exists e, m. split_and!; [done|lia| |exact (proj1 Hm)| |done|done].
  2:{ replace (m * 2 ^ e * d) with (m * den) by (unfold den; lia). exact Herr. }
  assert (m * 2 ^ e < 2 ^ 1024 * unit64) as Hov.
  { assert (m * den ≤ n + den) as H1 by nia. assert (m * 2 ^ e * d ≤ n + den) as H2 by (unfold den in *; nia).
    assert (n < (n / d + 1) * d) as H3 by (pose proof (Z.mod_pos_bound n d Hd); pose proof (Z.div_mod n d); nia).
    assert (2 ^ e ≤ n / d + 1) as H4.
    { destruct (decide (e = 0)) as [->|]; [lia|]. transitivity (2 ^ (e + 52)); [|lia]. apply Z.pow_le_mono_r; lia. }
    assert (m * 2 ^ e * d < (2 * (n / d) + 2) * d) as H5 by (unfold den in *; nia).
    assert (m * 2 ^ e < 2 * (n / d) + 2) as H6 by nia.
    change (2 ^ 1024) with (2 * 2 ^ 1023). nia. }
  rewrite (proj2 (Z.leb_gt _ _) Hov). f_equal. destruct (decide (n = 0)) as [->|]; [|rewrite Z.sgn_pos by lia; lia].
  assert (q = 0) as Hq0' by (unfold q; by rewrite Z.div_0_l by lia). assert (r = 0) as Hr0 by (unfold r; by rewrite Z.mod_0_l by lia).
  assert (m = 0) as ->; [|done]. unfold m, up. rewrite Hr0, Hq0'.
  destruct (Z.ltb_spec den (2 * 0)); [lia|]. destruct (Z.eqb_spec den (2 * 0)); [lia|done].
Qed.

(** The last place of a number below 2^53 is a fraction. *)
Lemma round_place z e : z < 2 ^ 53 * unit64 → (0 < e → 2 ^ (e + 52) ≤ z) → 0 ≤ e → e ≤ 1074.
Proof.
  intros Hz Hbig He. destruct (decide (e = 0)); [lia|].
  assert (2 ^ (e + 52) < 2 ^ 1127) as Hlt.
  { apply (Z.le_lt_trans _ z); [apply Hbig; lia|]. rewrite unit64_eq, <- Z.pow_add_r in Hz by lia. done. }
  apply Z.pow_lt_mono_r_iff in Hlt; lia.
Qed.

Lemma unit64_split e : 0 ≤ e ≤ 1074 → unit64 = 2 ^ (1074 - e) * 2 ^ e.
Proof. intros He. rewrite <- Z.pow_add_r by lia. rewrite unit64_eq. f_equal. lia. Qed.

(** Integers below 2^53 are exact. *)
Lemma round_ratio_int z d : 0 ≤ z < 2 ^ 53 → 0 < d → round_ratio (z * unit64 * d) d = FFin (z * unit64).
Proof.
  intros Hz Hd. pose proof unit64_pos as HU.
  assert (z * unit64 * d / d = z * unit64) as Hq by (apply Z.div_mul; lia).
  destruct (round_ratio_spec (z * unit64 * d) d) as (e & m & He & Hm & -> & _ & Herr & _ & Hbig);
    [nia|lia|rewrite Hq; nia|]. rewrite Hq in *. f_equal.
  assert (0 < 2 ^ e) as H2e by (by apply Z.pow_pos_nonneg).
  assert (e ≤ 1074) as Hle by (apply (round_place (z * unit64)); [nia|done|done]).
  rewrite (unit64_split e) in Herr by lia. rewrite (unit64_split e) by lia.
  set (k := z * 2 ^ (1074 - e)). replace (z * (2 ^ (1074 - e) * 2 ^ e)) with (k * 2 ^ e) in * by (unfold k; lia).
  assert (m = k) as ->; [|done].
  assert (2 * Z.abs (m - k) * (2 ^ e * d) ≤ 1 * (2 ^ e * d)) as Habs.
  { rewrite <- (Z.abs_eq (2 ^ e * d)) at 1 by nia. rewrite <- Z.mul_assoc, <- Z.abs_mul.
    replace ((m - k) * (2 ^ e * d)) with (m * 2 ^ e * d - k * 2 ^ e * d) by ring. lia. }
  apply Z.mul_le_mono_pos_r in Habs; [lia|nia].
Qed.

Lemma of_int_exact z : 0 ≤ z < 2 ^ 53 → of_int z = FFin (z * unit64).
Proof. intros Hz. unfold of_int. rewrite <- (round_ratio_int z 1) by lia. f_equal. lia. Qed.

Lemma fmul_int a b : 0 ≤ a < 2 ^ 53 → 0 ≤ b < 2 ^ 53 → a * b < 2 ^ 53 → fmul (of_int a) (of_int b) = of_int (a * b).
Proof.
  intros Ha Hb Hab. rewrite !of_int_exact by nia. cbn [fmul]. pose proof unit64_pos.
  rewrite <- (round_ratio_int (a * b) unit64) by nia. f_equal. ring.
Qed.

(** Quotients of integers below 2^53 have the floor of the exact quotient. *)
Lemma floor_fdiv a b :
  0 ≤ a < 2 ^ 53 → 0 < b < 2 ^ 53 → floor_int (fdiv (of_int a) (of_int b)) = a / b.
Proof.
  intros Ha Hb. rewrite !of_int_exact by lia. pose proof unit64_pos as HU. cbn [fdiv].
  destruct (Z.eqb_spec (b * unit64) 0); [nia|]. rewrite Z.sgn_pos, Z.abs_eq by nia. rewrite Z.mul_1_l.
  assert (a * unit64 * unit64 / (b * unit64) = a * unit64 / b) as Hq by (apply Z.div_mul_cancel_r; lia).
  assert (a * unit64 / b ≤ a * unit64) as Hle by (apply Z.div_le_upper_bound; nia).
  destruct (round_ratio_spec (a * unit64 * unit64) (b * unit64)) as (e & m & He & Hm & -> & Hlow & Herr & _ & Hbig);
    [nia|nia|rewrite Hq; nia|]. rewrite Hq in Hbig. cbn [floor_int].
  assert (e ≤ 1074) as He' by (apply (round_place (a * unit64 / b)); [nia|done|done]).
  assert (0 < 2 ^ e) as H2e by (by apply Z.pow_pos_nonneg).
  pose proof (Z.div_mod a b) as Hdm. pose proof (Z.mod_pos_bound a b) as Hmod. set (k := a / b) in *.
  assert (0 ≤ k) as Hk by (apply Z.div_pos; lia).
  symmetry. apply (Z.div_unique _ _ _ (m * 2 ^ e - k * unit64)); [left|lia]. split.
  - assert (k * 2 ^ (1074 - e) ≤ m) as Hkm; [|rewrite (unit64_split e) by lia; nia].
    etransitivity; [|exact Hlow]. apply Z.div_le_lower_bound; [nia|].
    assert (0 < 2 ^ (1074 - e)) by (apply Z.pow_pos_nonneg; lia).
    transitivity (b * unit64 * (k * unit64)); [|nia].
    rewrite (unit64_split e) at 2 by lia. nia.
  - (* the error is below the distance to the next integer *)
    assert (m * 2 ^ e * b < (k + 1) * unit64 * b) as Hlt; [|nia].
    assert (2 * (m * 2 ^ e * b - a * unit64) ≤ b * 2 ^ e) as Herr'.
    { assert (2 * (m * 2 ^ e * (b * unit64) - a * unit64 * unit64) ≤ b * unit64 * 2 ^ e) by lia. nia. }
    assert (a * unit64 + unit64 ≤ (k + 1) * unit64 * b) as Hgap by nia.
    assert (b * 2 ^ e < 2 * unit64) as Hsmall; [|lia].
    destruct (decide (e = 0)) as [->|].
    { rewrite unit64_eq. assert (2 ^ 53 < 2 ^ 1074) by (by vm_compute). lia. }
    assert (2 ^ (e + 52) ≤ a * unit64 / b) as Hb2 by (apply Hbig; lia).
    rewrite Z.pow_add_r in Hb2 by lia.
    assert (2 ^ e * 2 ^ 52 * b ≤ a * unit64) as Hx.
    { transitivity (a * unit64 / b * b); [nia|]. rewrite Z.mul_comm. apply Z.mul_div_le. lia. }
    assert (2 ^ 53 = 2 * 2 ^ 52) by done. nia.
Qed.

(** * Monotonicity *)

(** [x <= y], neither NaN. *)
Definition fle (x y : float64) : Prop :=
  match x, y with
  | FNaN, _ | _, FNaN => False
  | FInf true, _ | _, FInf false => True
  | FInf false, _ | _, FInf true => False
  | FFin a, FFin b => a ≤ b
  end.

Lemma fle_trans x y z : fle x y → fle y z → fle x z.
Proof. destruct x as [| [] |], y as [| [] |], z as [| [] |]; cbn; try done; lia. Qed.

Lemma fle_min c x : fle c x → fmin c x = c.
Proof.
  destruct c as [|[]|a], x as [|[]|b]; cbn; try done.
  intros Hab. by rewrite (proj2 (Z.ltb_ge b a)).
Qed.

(** The rounded number of units, before the test for overflow. *)
Definition rounded (n d : Z) : Z :=
  let e := Z.max 0 (Z.log2 (n / d) + 1 - 53) in
  let den := d * 2 ^ e in
  let q := n / den in
  let r := n `mod` den in
  (if (den <? 2 * r) || ((den =? 2 * r) && Z.odd q) then q + 1 else q) * 2 ^ e.

Lemma round_ratio_rounded n d :
  0 ≤ n → 0 < d → round_ratio n d = if 2 ^ 1024 * unit64 <=? rounded n d then FInf false else FFin (rounded n d).
Proof.
  intros Hn Hd. unfold round_ratio, rounded. rewrite (Z.abs_eq n), (proj2 (Z.ltb_ge n 0)) by done.
  destruct (decide (n = 0)) as [->|Hn0]; [|by rewrite Z.sgn_pos, Z.mul_1_l by lia].
  assert (∀ d', 0 < d' → (d' <? 2 * (0 `mod` d')) || ((d' =? 2 * (0 `mod` d')) && Z.odd (0 / d')) = false) as Hup.
  { intros d' Hd'. rewrite Z.mod_0_l by lia. destruct (Z.ltb_spec d' (2 * 0)); [lia|]. by destruct (Z.eqb_spec d' (2 * 0)); [lia|]. }
  rewrite Z.div_0_l by lia. change (Z.max 0 (Z.log2 0 + 1 - 53)) with 0. change (2 ^ 0) with 1. rewrite !Z.mul_1_r, Hup, Z.div_0_l by lia.
  done.
Qed.

Lemma rounded_bounds n d e :
  0 ≤ n → 0 < d → e = Z.max 0 (Z.log2 (n / d) + 1 - 53) → 0 ≤ e ∧ n / d < 2 ^ (e + 53) ∧ rounded n d ≤ 2 ^ (e + 53) ∧
  (0 < e → 2 ^ (e + 52) ≤ rounded n d).
Proof.
  intros Hn Hd He. assert (0 ≤ e) as He0 by lia. assert (0 ≤ n / d) as Hq0 by (apply Z.div_pos; lia).
  assert (n / d < 2 ^ (e + 53)) as Hlt.
  { destruct (decide (n / d = 0)) as [->|]; [apply Z.pow_pos_nonneg; lia|].
    apply Z.log2_lt_pow2; lia. }
  assert (0 < 2 ^ e) as H2e by (apply Z.pow_pos_nonneg; lia).
  unfold rounded. rewrite <- He. rewrite <- Z.div_div by lia. set (q := n / d / 2 ^ e).
  assert (q < 2 ^ 53) as Hq.
  { apply Z.div_lt_upper_bound; [done|]. rewrite <- Z.pow_add_r by lia. by rewrite (Z.add_comm 53 e) || done. }
  split_and!; [done..| |].
  - rewrite (Z.add_comm e), Z.pow_add_r by lia. apply Z.mul_le_mono_nonneg_r; [lia|]. destruct (_ || _); lia.
  - intros Hpos. rewrite (Z.add_comm e), Z.pow_add_r by lia. apply Z.mul_le_mono_nonneg_r; [lia|].
    assert (2 ^ 52 ≤ q); [|destruct (_ || _); lia]. apply Z.div_le_lower_bound; [done|].
    destruct (round_exponent (n / d) Hq0) as (_ & _ & Hbig). rewrite <- He in Hbig. rewrite <- Z.pow_add_r by lia. by apply Hbig.
Qed.

Lemma rounded_mono n n' d : 0 ≤ n ≤ n' → 0 < d → rounded n d ≤ rounded n' d.
Proof.
  intros Hn Hd. assert (n / d ≤ n' / d) as Hdiv by (apply Z.div_le_mono; lia).
  pose proof (Z.log2_le_mono _ _ Hdiv) as Hlog.
  destruct (rounded_bounds n d _ ltac:(lia) Hd eq_refl) as (He & _ & Hup & _).
  destruct (rounded_bounds n' d _ ltac:(lia) Hd eq_refl) as (He' & _ & _ & Hlow).
  set (e := Z.max 0 (Z.log2 (n / d) + 1 - 53)) in *. set (e' := Z.max 0 (Z.log2 (n' / d) + 1 - 53)) in *.
  assert (e ≤ e') as Hee by lia. destruct (decide (e = e')) as [E|].
  - unfold rounded. fold e e'. rewrite <- E. apply Z.mul_le_mono_nonneg_r; [apply Z.pow_nonneg; lia|].
    set (den := d * 2 ^ e). assert (0 < den) as Hden by (assert (0 < 2 ^ e) by (by apply Z.pow_pos_nonneg); unfold den; nia).
    assert (n / den ≤ n' / den) as Hq by (apply Z.div_le_mono; lia).
    pose proof (Z.div_mod n den). pose proof (Z.div_mod n' den).
    destruct (decide (n / den = n' / den)) as [Eq|].
    + rewrite <- Eq. destruct (Z.ltb_spec den (2 * (n `mod` den))), (Z.ltb_spec den (2 * (n' `mod` den))); cbn [orb]; try lia;
        destruct (Z.eqb_spec den (2 * (n `mod` den))), (Z.eqb_spec den (2 * (n' `mod` den))); cbn [andb]; try lia; destruct (Z.odd _); lia.
    + destruct (_ || _), (_ || _); lia.
  - etransitivity; [exact Hup|]. etransitivity; [|apply Hlow; lia]. apply Z.pow_le_mono_r; lia.
Qed.

Lemma round_ratio_mono n n' d : 0 ≤ n ≤ n' → 0 < d → fle (round_ratio n d) (round_ratio n' d).
Proof.
  intros Hn Hd. rewrite !round_ratio_rounded by lia. pose proof (rounded_mono n n' d Hn Hd).
  destruct (Z.leb_spec (2 ^ 1024 * unit64) (rounded n d)), (Z.leb_spec (2 ^ 1024 * unit64) (rounded n' d)); cbn; lia.
Qed.

Lemma rounded_0 d : 0 < d → rounded 0 d = 0.
Proof.
  intros Hd. unfold rounded. rewrite Z.div_0_l by lia. change (Z.max 0 (Z.log2 0 + 1 - 53)) with 0. change (2 ^ 0) with 1.
  rewrite !Z.mul_1_r, Z.div_0_l, Z.mod_0_l by lia.
  destruct (Z.ltb_spec d (2 * 0)); [lia|]. destruct (Z.eqb_spec d (2 * 0)); [lia|done].
Qed.

Lemma round_ratio_nonneg n d : 0 ≤ n → 0 < d → fle (FFin 0) (round_ratio n d).
Proof.
  intros Hn Hd. rewrite round_ratio_rounded by lia. destruct (_ <=? _); cbn; [done|].
  rewrite <- (rounded_0 d Hd). apply rounded_mono; lia.
Qed.

Lemma fadd_int a b : 0 ≤ a → 0 ≤ b → a + b < 2 ^ 53 → fadd (FFin (a * unit64)) (FFin (b * unit64)) = FFin ((a + b) * unit64).
Proof. intros. cbn [fadd]. rewrite <- (round_ratio_int (a + b) 1) by lia. f_equal. lia. Qed.
