(* ===== verification/Database.v ===== *)
(** * The database and the store monad

    The schema of internal/migrations (consolidated in
    baseline/v2_baseline.sql) as a record of tables, and the effects of the
    store's methods: reading and writing the tables, reading the clock,
    failing, and running a transaction.

    A table is a [gmap] from its primary key to the remaining columns, or a
    [serial] table when its key is [INTEGER PRIMARY KEY AUTOINCREMENT].
    Nullable columns are options.  The SQL statements of the Go code are
    translated at their call sites by lookups, inserts and deletes on these
    tables; a violated UNIQUE / PRIMARY KEY, FOREIGN KEY or CHECK constraint
    is the error value the driver reports.  I/O failures of the driver are
    not modelled. *)

From S2P Require Import Prelude GoStrings Model.

Open Scope Z_scope.

(** ** AUTOINCREMENT tables *)

Record serial (V : Type) := mkSerial { rows : gmap Z V; seq_no : Z }.
Arguments mkSerial {V}.
Arguments rows {V}.
Arguments seq_no {V}.

Definition serial_empty {V} : serial V := mkSerial ∅ 0.

(** [INSERT]: the new id is above every id ever used. *)
Definition serial_insert {V} (v : V) (t : serial V) : Z * serial V :=
  let id := seq_no t + 1 in (id, mkSerial (<[id := v]> (rows t)) id).

Definition serial_set {V} (id : Z) (v : V) (t : serial V) : serial V :=
  mkSerial (<[id := v]> (rows t)) (seq_no t).

Definition serial_delete {V} (id : Z) (t : serial V) : serial V :=
  mkSerial (delete id (rows t)) (seq_no t).

Definition serial_filter {V} (P : Z * V → Prop) `{∀ x, Decision (P x)} (t : serial V) : serial V :=
  mkSerial (filter P (rows t)) (seq_no t).

(** No row is above the sequence. *)
Definition serial_wf {V} (t : serial V) : Prop :=
  0 ≤ seq_no t ∧ ∀ id, is_Some (rows t !! id) → 0 < id ≤ seq_no t.

Section serial.
Context {V : Type}.
Implicit Types t : serial V.

Lemma serial_wf_empty : serial_wf (serial_empty (V:=V)).
Proof. split; [done|]. intros id [x Hx]. done. Qed.

Lemma serial_fresh t : serial_wf t → rows t !! (seq_no t + 1) = None.
Proof.
  intros [_ Hwf]. apply eq_None_not_Some. intros Hid. apply Hwf in Hid. lia.
Qed.

Lemma serial_wf_insert v t : serial_wf t → serial_wf (serial_insert v t).2.
Proof.
  intros [H0 Hwf]. split; simpl; [lia|]. intros id.
  rewrite lookup_insert_is_Some. intros [<-|[_ Hid]]; [lia|].
  apply Hwf in Hid. lia.
Qed.

Lemma serial_wf_set id v t : serial_wf t → is_Some (rows t !! id) → serial_wf (serial_set id v t).
Proof.
  intros [H0 Hwf] Hid. split; simpl; [done|]. intros id'.
  rewrite lookup_insert_is_Some. intros [<-|[_ Hid']]; auto.
Qed.

Lemma serial_wf_delete id t : serial_wf t → serial_wf (serial_delete id t).
Proof.
  intros [H0 Hwf]. split; simpl; [done|]. intros id'.
  rewrite lookup_delete_is_Some. intros [_ ?]. auto.
Qed.

Lemma serial_wf_filter (P : Z * V → Prop) `{∀ x, Decision (P x)} t :
  serial_wf t → serial_wf (serial_filter P t).
Proof.
  intros [H0 Hwf]. split; simpl; [done|]. intros id' [x Hx].
  apply map_lookup_filter_Some in Hx as [? _]. eauto.
Qed.
End serial.

#[export] Hint Resolve serial_wf_empty serial_wf_insert serial_wf_set serial_wf_delete
  serial_wf_filter : store.

(** ** Rows *)

Record WorkspaceRow := mkWorkspaceRow {
  wr_name : string; wr_description : option string;
  wr_creation_time : Z; wr_last_update_time : Z }.

Record DashboardRow := mkDashboardRow {
  dr_workspace_id : string; dr_project : string; dr_widgets : string;
  dr_created_at : Z; dr_updated_at : Z }.

Record WebhookRow := mkWebhookRow {
  hr_name : string; hr_url : string; hr_events : string; hr_experiment_id : option Z;
  hr_workspace_id : string; hr_secret : option string; hr_created_at : Z;
  hr_last_status : option Z; hr_last_attempt : option Z; hr_enabled : bool }.

Record PeerRow := mkPeerRow {
  pr_name : string; pr_url : string; pr_secret : string; pr_workspace_id : string;
  pr_added_at : Z; pr_last_seen : option Z; pr_status : string; pr_last_error : option string }.

Record SessionRow := mkSessionRow {
  sr_user_id : string; sr_user_email : option string; sr_user_name : option string;
  sr_auth_method : string; sr_created_at : Z; sr_expires_at : Z; sr_last_seen : Z }.

Record ExperimentRow := mkExperimentRow {
  er_name : string; er_artifact_location : string; er_lifecycle_stage : string;
  er_creation_time : Z; er_last_update_time : Z; er_workspace_id : string }.

Record RunRow := mkRunRow {
  rr_experiment_id : Z; rr_name : option string; rr_status : string; rr_start_time : Z;
  rr_end_time : option Z; rr_artifact_uri : string; rr_lifecycle_stage : string;
  rr_user_id : option string; rr_source_type : option string;
  rr_source_name : option string; rr_run_kind : string; rr_parent_run_id : option string }.

(** run_id, key, timestamp, step *)
Definition MetricKey : Type := string * string * (Z * Z).

Record NoteRow := mkNoteRow {
  nr_content : string; nr_updated_at : Z; nr_updated_by : option string }.

Record EvalRow := mkEvalRow {
  vr_target_run_ids : list string; vr_dataset_ref : option string;
  vr_score : option float64; vr_metrics_json : option string }.

Record SpanRow := mkSpanRow {
  tr_trace_id : string; tr_parent_id : option string; tr_run_id : option string;
  tr_name : string; tr_span_kind : option string; tr_start_time : Z;
  tr_end_time : option Z; tr_attributes_json : option string;
  tr_events_json : option string; tr_status_code : option string;
  tr_status_message : option string }.

(** The JSON values an event payload holds.  [JInt] is an [int64] as it is
    marshalled; unmarshalling into [any] turns it into the [float64]
    [JNum]. *)
Inductive jval :=
  | JNull
  | JStr (s : string)
  | JInt (z : Z)
  | JNum (z : Z)
  | JObj (fields : list (string * jval)).

Record EventRow := mkEventRow {
  evr_ts_ms : Z; evr_kind : string; evr_entity_id : string;
  evr_payload : list (string * jval) }.

Record ModelRow := mkModelRow {
  mr_description : option string; mr_creation_time : Z; mr_last_update_time : Z }.

Record ModelVersionRow := mkModelVersionRow {
  mvr_description : option string; mvr_user_id : option string; mvr_current_stage : string;
  mvr_source : string; mvr_run_id : option string; mvr_status : string;
  mvr_status_message : option string; mvr_creation_time : Z; mvr_last_update_time : Z }.

Record PromptRow := mkPromptRow {
  qr_content : string; qr_content_hash : string; qr_created_at : Z;
  qr_created_by : option string; qr_description : option string }.

Record DatasetRow := mkDatasetRow {
  xr_name : string; xr_version : Z; xr_content_hash : string; xr_size_bytes : Z;
  xr_schema_json : option string; xr_description : option string;
  xr_workspace_id : string; xr_created_at : Z; xr_created_by : option string;
  xr_lifecycle_stage : string }.

Record InputRow := mkInputRow {
  ir_run_id : string; ir_dataset_id : Z; ir_tags : list KV }.

(** The v0.3 link table. *)
Record LegacyInputRow := mkLegacyInputRow {
  lr_run_id : string; lr_name : string; lr_digest : string }.

Record DatasetMetaRow := mkDatasetMetaRow {
  mt_source_type : option string; mt_source : option string;
  mt_schema : option string; mt_profile : option string }.

(** ** Tables *)

(** Tables of tenancy, integrations and sessions. *)
Record TenantTables := mkTenant {
  tn_workspaces : gmap string WorkspaceRow;
  tn_members : gmap (string * string) string;
  tn_dashboards : serial DashboardRow;
  tn_webhooks : serial WebhookRow;
  tn_peers : serial PeerRow;
  tn_sessions : gmap string SessionRow }.

(** Tables of experiment tracking. *)
Record TrackTables := mkTrack {
  tr_experiments : serial ExperimentRow;
  tr_experiment_tags : gmap (Z * string) string;
  tr_runs : gmap string RunRow;
  tr_tags : gmap (string * string) string;
  tr_params : gmap (string * string) string;
  tr_metrics : gmap MetricKey float64;
  tr_metrics_latest : gmap (string * string) (float64 * (Z * Z));
  tr_run_notes : gmap string NoteRow;
  tr_evals : gmap string EvalRow;
  tr_traces : gmap string SpanRow;
  tr_events : serial EventRow }.

(** Tables of model registry and prompts. *)
Record RegistryTables := mkRegistry {
  rg_registered_models : gmap (string * string) ModelRow;
  rg_registered_model_tags : gmap (string * string * string) string;
  rg_model_versions : gmap (string * string * Z) ModelVersionRow;
  rg_model_version_tags : gmap (string * string * Z * string) string;
  rg_model_aliases : gmap (string * string * string) Z;
  rg_prompts : gmap (string * string * Z) PromptRow;
  rg_prompt_aliases : gmap (string * string * string) Z }.

(** Tables of dataset versions. *)
Record DatasetTables := mkDataset {
  dt_datasets_v2 : serial DatasetRow;
  dt_dataset_lineage : gset (Z * Z);
  dt_dataset_inputs_v2 : serial InputRow;
  dt_datasets : gmap (string * string) DatasetMetaRow;
  dt_dataset_inputs : serial LegacyInputRow;
  dt_dataset_input_tags : gmap (Z * string) string }.

Record DB := mkDB {
  db_tenant : TenantTables;
  db_track : TrackTables;
  db_registry : RegistryTables;
  db_dataset : DatasetTables }.

(** Reading a table of the database, and replacing it. *)
Abbreviation workspaces d := (tn_workspaces (db_tenant d)).
Abbreviation members d := (tn_members (db_tenant d)).
Abbreviation dashboards d := (tn_dashboards (db_tenant d)).
Abbreviation webhooks d := (tn_webhooks (db_tenant d)).
Abbreviation peers d := (tn_peers (db_tenant d)).
Abbreviation sessions d := (tn_sessions (db_tenant d)).
Abbreviation experiments d := (tr_experiments (db_track d)).
Abbreviation experiment_tags d := (tr_experiment_tags (db_track d)).
Abbreviation runs d := (tr_runs (db_track d)).
Abbreviation tags d := (tr_tags (db_track d)).
Abbreviation params d := (tr_params (db_track d)).
Abbreviation metrics d := (tr_metrics (db_track d)).
Abbreviation metrics_latest d := (tr_metrics_latest (db_track d)).
Abbreviation run_notes d := (tr_run_notes (db_track d)).
Abbreviation evals d := (tr_evals (db_track d)).
Abbreviation traces d := (tr_traces (db_track d)).
Abbreviation events d := (tr_events (db_track d)).
Abbreviation registered_models d := (rg_registered_models (db_registry d)).
Abbreviation registered_model_tags d := (rg_registered_model_tags (db_registry d)).
Abbreviation model_versions d := (rg_model_versions (db_registry d)).
Abbreviation model_version_tags d := (rg_model_version_tags (db_registry d)).
Abbreviation model_aliases d := (rg_model_aliases (db_registry d)).
Abbreviation prompts d := (rg_prompts (db_registry d)).
Abbreviation prompt_aliases d := (rg_prompt_aliases (db_registry d)).
Abbreviation datasets_v2 d := (dt_datasets_v2 (db_dataset d)).
Abbreviation dataset_lineage d := (dt_dataset_lineage (db_dataset d)).
Abbreviation dataset_inputs_v2 d := (dt_dataset_inputs_v2 (db_dataset d)).
Abbreviation datasets d := (dt_datasets (db_dataset d)).
Abbreviation dataset_inputs d := (dt_dataset_inputs (db_dataset d)).
Abbreviation dataset_input_tags d := (dt_dataset_input_tags (db_dataset d)).

Definition set_tenant (t : TenantTables) (d : DB) : DB :=
  mkDB t (db_track d) (db_registry d) (db_dataset d).
Definition set_workspaces (x : gmap string WorkspaceRow) (d : DB) : DB :=
  set_tenant (mkTenant x (members d) (dashboards d) (webhooks d) (peers d)
    (sessions d)) d.
Definition set_members (x : gmap (string * string) string) (d : DB) : DB :=
  set_tenant (mkTenant (workspaces d) x (dashboards d) (webhooks d) (peers d)
    (sessions d)) d.
Definition set_dashboards (x : serial DashboardRow) (d : DB) : DB :=
  set_tenant (mkTenant (workspaces d) (members d) x (webhooks d) (peers d)
    (sessions d)) d.
Definition set_webhooks (x : serial WebhookRow) (d : DB) : DB :=
  set_tenant (mkTenant (workspaces d) (members d) (dashboards d) x (peers d)
    (sessions d)) d.
Definition set_peers (x : serial PeerRow) (d : DB) : DB :=
  set_tenant (mkTenant (workspaces d) (members d) (dashboards d) (webhooks d) x
    (sessions d)) d.
Definition set_sessions (x : gmap string SessionRow) (d : DB) : DB :=
  set_tenant (mkTenant (workspaces d) (members d) (dashboards d) (webhooks d)
    (peers d) x) d.

Definition set_track (t : TrackTables) (d : DB) : DB :=
  mkDB (db_tenant d) t (db_registry d) (db_dataset d).
Definition set_experiments (x : serial ExperimentRow) (d : DB) : DB :=
  set_track (mkTrack x (experiment_tags d) (runs d) (tags d) (params d) (metrics d)
    (metrics_latest d) (run_notes d) (evals d) (traces d) (events d)) d.
Definition set_experiment_tags (x : gmap (Z * string) string) (d : DB) : DB :=
  set_track (mkTrack (experiments d) x (runs d) (tags d) (params d) (metrics d)
    (metrics_latest d) (run_notes d) (evals d) (traces d) (events d)) d.
Definition set_runs (x : gmap string RunRow) (d : DB) : DB :=
  set_track (mkTrack (experiments d) (experiment_tags d) x (tags d) (params d)
    (metrics d) (metrics_latest d) (run_notes d) (evals d) (traces d) (events d)) d.
Definition set_tags (x : gmap (string * string) string) (d : DB) : DB :=
  set_track (mkTrack (experiments d) (experiment_tags d) (runs d) x (params d)
    (metrics d) (metrics_latest d) (run_notes d) (evals d) (traces d) (events d)) d.
Definition set_params (x : gmap (string * string) string) (d : DB) : DB :=
  set_track (mkTrack (experiments d) (experiment_tags d) (runs d) (tags d) x
    (metrics d) (metrics_latest d) (run_notes d) (evals d) (traces d) (events d)) d.
Definition set_metrics (x : gmap MetricKey float64) (d : DB) : DB :=
  set_track (mkTrack (experiments d) (experiment_tags d) (runs d) (tags d)
    (params d) x (metrics_latest d) (run_notes d) (evals d) (traces d) (events d))
    d.
Definition set_metrics_latest (x : gmap (string * string) (float64 * (Z * Z))) (d : DB) : DB :=
  set_track (mkTrack (experiments d) (experiment_tags d) (runs d) (tags d)
    (params d) (metrics d) x (run_notes d) (evals d) (traces d) (events d)) d.
Definition set_run_notes (x : gmap string NoteRow) (d : DB) : DB :=
  set_track (mkTrack (experiments d) (experiment_tags d) (runs d) (tags d)
    (params d) (metrics d) (metrics_latest d) x (evals d) (traces d) (events d)) d.
Definition set_evals (x : gmap string EvalRow) (d : DB) : DB :=
  set_track (mkTrack (experiments d) (experiment_tags d) (runs d) (tags d)
    (params d) (metrics d) (metrics_latest d) (run_notes d) x (traces d) (events d))
    d.
Definition set_traces (x : gmap string SpanRow) (d : DB) : DB :=
  set_track (mkTrack (experiments d) (experiment_tags d) (runs d) (tags d)
    (params d) (metrics d) (metrics_latest d) (run_notes d) (evals d) x (events d))
    d.
Definition set_events (x : serial EventRow) (d : DB) : DB :=
  set_track (mkTrack (experiments d) (experiment_tags d) (runs d) (tags d)
    (params d) (metrics d) (metrics_latest d) (run_notes d) (evals d) (traces d) x)
    d.

Definition set_registry (t : RegistryTables) (d : DB) : DB :=
  mkDB (db_tenant d) (db_track d) t (db_dataset d).
Definition set_registered_models (x : gmap (string * string) ModelRow) (d : DB) : DB :=
  set_registry (mkRegistry x (registered_model_tags d) (model_versions d)
    (model_version_tags d) (model_aliases d) (prompts d) (prompt_aliases d)) d.
Definition set_registered_model_tags (x : gmap (string * string * string) string) (d : DB) : DB :=
  set_registry (mkRegistry (registered_models d) x (model_versions d)
    (model_version_tags d) (model_aliases d) (prompts d) (prompt_aliases d)) d.
Definition set_model_versions (x : gmap (string * string * Z) ModelVersionRow) (d : DB) : DB :=
  set_registry (mkRegistry (registered_models d) (registered_model_tags d) x
    (model_version_tags d) (model_aliases d) (prompts d) (prompt_aliases d)) d.
Definition set_model_version_tags (x : gmap (string * string * Z * string) string) (d : DB) : DB :=
  set_registry (mkRegistry (registered_models d) (registered_model_tags d)
    (model_versions d) x (model_aliases d) (prompts d) (prompt_aliases d)) d.
Definition set_model_aliases (x : gmap (string * string * string) Z) (d : DB) : DB :=
  set_registry (mkRegistry (registered_models d) (registered_model_tags d)
    (model_versions d) (model_version_tags d) x (prompts d) (prompt_aliases d)) d.
Definition set_prompts (x : gmap (string * string * Z) PromptRow) (d : DB) : DB :=
  set_registry (mkRegistry (registered_models d) (registered_model_tags d)
    (model_versions d) (model_version_tags d) (model_aliases d) x
    (prompt_aliases d)) d.
Definition set_prompt_aliases (x : gmap (string * string * string) Z) (d : DB) : DB :=
  set_registry (mkRegistry (registered_models d) (registered_model_tags d)
    (model_versions d) (model_version_tags d) (model_aliases d) (prompts d) x) d.

Definition set_dataset (t : DatasetTables) (d : DB) : DB :=
  mkDB (db_tenant d) (db_track d) (db_registry d) t.
Definition set_datasets_v2 (x : serial DatasetRow) (d : DB) : DB :=
  set_dataset (mkDataset x (dataset_lineage d) (dataset_inputs_v2 d) (datasets d) (dataset_inputs d)
    (dataset_input_tags d)) d.
Definition set_dataset_lineage (x : gset (Z * Z)) (d : DB) : DB :=
  set_dataset (mkDataset (datasets_v2 d) x (dataset_inputs_v2 d) (datasets d) (dataset_inputs d)
    (dataset_input_tags d)) d.
Definition set_dataset_inputs_v2 (x : serial InputRow) (d : DB) : DB :=
  set_dataset (mkDataset (datasets_v2 d) (dataset_lineage d) x (datasets d) (dataset_inputs d)
    (dataset_input_tags d)) d.
Definition set_datasets (x : gmap (string * string) DatasetMetaRow) (d : DB) : DB :=
  set_dataset (mkDataset (datasets_v2 d) (dataset_lineage d) (dataset_inputs_v2 d) x (dataset_inputs d)
    (dataset_input_tags d)) d.
Definition set_dataset_inputs (x : serial LegacyInputRow) (d : DB) : DB :=
  set_dataset (mkDataset (datasets_v2 d) (dataset_lineage d) (dataset_inputs_v2 d) (datasets d) x
    (dataset_input_tags d)) d.
Definition set_dataset_input_tags (x : gmap (Z * string) string) (d : DB) : DB :=
  set_dataset (mkDataset (datasets_v2 d) (dataset_lineage d) (dataset_inputs_v2 d) (datasets d)
    (dataset_inputs d) x) d.

Definition empty_db : DB :=
  mkDB (mkTenant ∅ ∅ serial_empty serial_empty serial_empty ∅)
       (mkTrack serial_empty ∅ ∅ ∅ ∅ ∅ ∅ ∅ ∅ ∅ serial_empty)
       (mkRegistry ∅ ∅ ∅ ∅ ∅ ∅ ∅)
       (mkDataset serial_empty ∅ serial_empty ∅ serial_empty ∅).

(** Migration 004 seeds the workspace ['default'] at time [t]. *)
Definition seed_db (t : Z) : DB :=
  set_workspaces {[ "default" := mkWorkspaceRow "Default" None t t ]} empty_db.

(** ** The monad *)

(** The [i]-th reading of [time.Now().UnixMilli()] by the process. *)
Class Clock := clock : nat → Z.

(** A clock that does not run backwards and has not passed 2^53 ms. *)
Class ClockOk `{Clock} : Prop := {
  clock_mono i j : (i ≤ j)%nat → clock i ≤ clock j;
  clock_exact i : float64_exact (clock i)
}.

Record World := mkWorld { w_db : DB; w_tick : nat }.

Definition M (A : Type) : Type := World → result A * World.

#[export] Instance M_ret : MRet M := λ A a w, (Ok a, w).
#[export] Instance M_bind : MBind M := λ A B f m w,
  match m w with
  | (Ok a, w') => f a w'
  | (Err e, w') => (Err e, w')
  end.

Definition fail {A} (e : err) : M A := λ w, (Err e, w).
Definition lift {A} (r : result A) : M A := λ w, (r, w).
Definition get : M DB := λ w, (Ok (w_db w), w).
Definition modify (f : DB → DB) : M unit := λ w, (Ok tt, mkWorld (f (w_db w)) (w_tick w)).

(** [time.Now().UnixMilli()]. *)
Definition time_now `{Clock} : M Z := λ w, (Ok (clock (w_tick w)), mkWorld (w_db w) (S (w_tick w))).

(** [BeginTx ... Commit] with the deferred [Rollback]: an error undoes every
    write of the body (but not the passing of time). *)
Definition transaction {A} (m : M A) : M A := λ w,
  match m w with
  | (Ok a, w') => (Ok a, w')
  | (Err e, w') => (Err e, mkWorld (w_db w) (w_tick w'))
  end.

(** [if err != nil { return f(err) }]. *)
Definition map_err {A} (f : err → err) (m : M A) : M A := λ w,
  match m w with
  | (Ok a, w') => (Ok a, w')
  | (Err e, w') => (Err (f e), w')
  end.

Definition when (b : bool) (m : M unit) : M unit := if b then m else mret tt.

(** [for _, x := range l { if err := f(x); err != nil { return err } }]. *)
Fixpoint for_each {A} (f : A → M unit) (l : list A) : M unit :=
  match l with
  | [] => mret tt
  | x :: l' => _ ← f x; for_each f l'
  end.

(** [retryWriteRace] of sqlite.go: the transaction is run, and run again at
    most 5 times ([maxAttempts = 6]) while it fails on a UNIQUE violation.
    (The other error it retries on, SQLITE_BUSY_SNAPSHOT, is a failure of the
    driver.) *)
Fixpoint retry_race {A} (retries : nat) (m : M A) (w : World) : result A * World :=
  match retries, m w with
  | S n, (Err SqlUnique, w') => retry_race n m w'
  | _, r => r
  end.
Definition retryWriteRace {A} (m : M A) : M A := retry_race 5 m.

Definition run_db {A} (m : M A) (w : World) : DB := w_db (m w).2.

(** ** Executing a method

    Inversion of a run [m w = (r, w')] into the runs of its statements. *)

Section exec.
Context {A B : Type}.
Implicit Types (w : World) (m : M A) (f : A → M B).

Lemma bind_exec m f w r w' :
  (m ≫= f) w = (r, w') →
  (∃ a w1, m w = (Ok a, w1) ∧ f a w1 = (r, w')) ∨ (∃ e, m w = (Err e, w') ∧ r = Err e).
Proof.
  unfold mbind, M_bind. destruct (m w) as [[a|e] w1]; [left; eauto|].
  intros [= <- <-]. right; eauto.
Qed.

Lemma bind_exec_Ok m f w b w' :
  (m ≫= f) w = (Ok b, w') → ∃ a w1, m w = (Ok a, w1) ∧ f a w1 = (Ok b, w').
Proof. intros [?|(e & _ & [=])]%bind_exec. done. Qed.

Lemma transaction_exec m w r w' :
  transaction m w = (r, w') →
  (∃ a, r = Ok a ∧ m w = (Ok a, w')) ∨
  (∃ e w1, r = Err e ∧ m w = (Err e, w1) ∧ w' = mkWorld (w_db w) (w_tick w1)).
Proof.
  unfold transaction. destruct (m w) as [[a|e] w1]; intros [= <- <-]; [left; eauto|right].
  eauto 6.
Qed.

Lemma map_err_exec_Ok g m w a w' : map_err g m w = (Ok a, w') → m w = (Ok a, w').
Proof. unfold map_err. destruct (m w) as [[?|?] ?]; congruence. Qed.

Lemma map_err_Ok g m w a w' : m w = (Ok a, w') → map_err g m w = (Ok a, w').
Proof. unfold map_err. by intros ->. Qed.

Lemma map_err_exec_Err g m w e w' :
  map_err g m w = (Err e, w') → ∃ e0, m w = (Err e0, w') ∧ e = g e0.
Proof. unfold map_err. destruct (m w) as [[?|?] ?]; [done|]. intros [= <- <-]. eauto. Qed.
End exec.

(** Running one statement at the head of a method. *)
Section exec_bind.
Context {A B : Type}.

Lemma get_bind (f : DB → M B) w : (get ≫= f) w = f (w_db w) w.
Proof. done. Qed.
Lemma ret_bind (a : A) (f : A → M B) w : (mret a ≫= f) w = f a w.
Proof. done. Qed.
Lemma modify_bind g (f : unit → M B) w :
  (modify g ≫= f) w = f tt (mkWorld (g (w_db w)) (w_tick w)).
Proof. done. Qed.
Lemma now_bind `{Clock} (f : Z → M B) w :
  (time_now ≫= f) w = f (clock (w_tick w)) (mkWorld (w_db w) (S (w_tick w))).
Proof. done. Qed.
Lemma fail_bind e (f : A → M B) w : (fail e ≫= f) w = (Err e, w).
Proof. done. Qed.
Lemma lift_Ok_bind (a : A) (f : A → M B) w : (lift (Ok a) ≫= f) w = f a w.
Proof. done. Qed.
Lemma lift_Err_bind e (f : A → M B) w : (lift (Err e) ≫= f) w = (Err e, w).
Proof. done. Qed.
Lemma bind_bind {C} (m : M A) (f : A → M B) (g : B → M C) w :
  ((m ≫= f) ≫= g) w = (m ≫= λ a, f a ≫= g) w.
Proof. unfold mbind, M_bind. by destruct (m w) as [[?|?] ?]. Qed.
Lemma bind_Ok (m : M A) (f : A → M B) w a w1 : m w = (Ok a, w1) → (m ≫= f) w = f a w1.
Proof. intros Hm. unfold mbind, M_bind. by rewrite Hm. Qed.
Lemma bind_Err (m : M A) (f : A → M B) w e w1 : m w = (Err e, w1) → (m ≫= f) w = (Err e, w1).
Proof. intros Hm. unfold mbind, M_bind. by rewrite Hm. Qed.
End exec_bind.

#[export] Hint Rewrite @get_bind @ret_bind @modify_bind @now_bind @fail_bind @lift_Ok_bind
  @lift_Err_bind @bind_bind : exec.

(** A transaction that does not fail on a UNIQUE constraint runs once. *)
Lemma retryWriteRace_once {A} (m : M A) w : (m w).1 ≠ Err SqlUnique → retryWriteRace m w = m w.
Proof.
  intros Hm. unfold retryWriteRace. cbn [retry_race]. destruct (m w) as [[a|e] w1]; [done|].
  by destruct e.
Qed.

(** Computations do not move the clock back. *)
Class TickMono {A} (m : M A) : Prop := tick_mono w : (w_tick w ≤ w_tick (m w).2)%nat.

Section tick_mono.
Context {A B : Type}.

#[export] Instance ret_tick (a : A) : TickMono (mret a).
Proof. intros w. done. Qed.
#[export] Instance fail_tick e : TickMono (fail (A:=A) e).
Proof. intros w. done. Qed.
#[export] Instance lift_tick (r : result A) : TickMono (lift r).
Proof. intros w. done. Qed.
#[export] Instance get_tick : TickMono get.
Proof. intros w. done. Qed.
#[export] Instance modify_tick f : TickMono (modify f).
Proof. intros w. done. Qed.
#[export] Instance time_now_tick `{Clock} : TickMono time_now.
Proof. intros w. simpl. lia. Qed.
#[export] Instance bind_tick (m : M A) (f : A → M B) :
  TickMono m → (∀ a, TickMono (f a)) → TickMono (m ≫= f).
Proof.
  intros Hm Hf w. unfold mbind, M_bind. pose proof (Hm w) as H.
  destruct (m w) as [[a|e] w1]; simpl in *; [|done]. pose proof (Hf a w1). lia.
Qed.
#[export] Instance transaction_tick (m : M A) : TickMono m → TickMono (transaction m).
Proof.
  intros Hm w. unfold transaction. pose proof (Hm w). by destruct (m w) as [[a|e] w1].
Qed.
#[export] Instance map_err_tick g (m : M A) : TickMono m → TickMono (map_err g m).
Proof.
  intros Hm w. unfold map_err. pose proof (Hm w). by destruct (m w) as [[a|e] w1].
Qed.
End tick_mono.

Section tick_mono_loops.
Context {A : Type}.

#[export] Instance when_tick b m : TickMono m → TickMono (when b m).
Proof. intros Hm. unfold when. destruct b; apply _. Qed.
#[export] Instance for_each_tick (f : A → M unit) l :
  (∀ a, TickMono (f a)) → TickMono (for_each f l).
Proof. intros Hf. induction l; simpl; apply _. Qed.
End tick_mono_loops.

(** Computations that preserve a property of the database, on every path,
    error paths included. *)
Class Preserves {A} (P : DB → Prop) (m : M A) : Prop :=
  preserves w : P (w_db w) → P (w_db (m w).2).

Section preserves.
Context (P : DB → Prop) {A B : Type}.

#[export] Instance ret_pres (a : A) : Preserves P (mret a).
Proof. intros w ?. done. Qed.
#[export] Instance fail_pres e : Preserves P (fail (A:=A) e).
Proof. intros w ?. done. Qed.
#[export] Instance lift_pres (r : result A) : Preserves P (lift r).
Proof. intros w ?. done. Qed.
#[export] Instance get_pres : Preserves P get.
Proof. intros w ?. done. Qed.
#[export] Instance time_now_pres `{Clock} : Preserves P time_now.
Proof. intros w ?. done. Qed.
#[export] Instance bind_pres (m : M A) (f : A → M B) :
  Preserves P m → (∀ a, Preserves P (f a)) → Preserves P (m ≫= f).
Proof.
  intros Hm Hf w Hw. unfold mbind, M_bind. specialize (Hm w Hw).
  destruct (m w) as [[a|e] w1]; simpl in *; [|done]. by apply Hf.
Qed.
#[export] Instance transaction_pres (m : M A) : Preserves P m → Preserves P (transaction m).
Proof.
  intros Hm w Hw. unfold transaction. specialize (Hm w Hw). by destruct (m w) as [[a|e] w1].
Qed.
#[export] Instance map_err_pres g (m : M A) : Preserves P m → Preserves P (map_err g m).
Proof.
  intros Hm w Hw. unfold map_err. specialize (Hm w Hw). by destruct (m w) as [[a|e] w1].
Qed.
#[export] Instance retry_pres (m : M A) : Preserves P m → Preserves P (retryWriteRace m).
Proof.
  intros Hm. unfold retryWriteRace. generalize 5%nat. intros n. induction n as [|n IH]; intros w Hw; cbn.
  - by apply Hm.
  - specialize (Hm w Hw). destruct (m w) as [[a|e] w1]; cbn in *; [done|].
    destruct e; cbn; try done. by apply IH.
Qed.
Lemma get_bind_pres (f : DB → M B) :
  (∀ w, P (w_db w) → P (w_db (f (w_db w) w).2)) → Preserves P (get ≫= f).
Proof. intros Hf w Hw. by apply Hf. Qed.
Lemma modify_pres g : (∀ d, P d → P (g d)) → Preserves P (modify g).
Proof. intros Hg w Hw. by apply Hg. Qed.
End preserves.

Section preserves_loops.
Context (P : DB → Prop) {A : Type}.

#[export] Instance when_pres b m : Preserves P m → Preserves P (when b m).
Proof. intros Hm. unfold when. destruct b; apply _. Qed.
Lemma for_each_pres (f : A → M unit) l :
  (∀ a, a ∈ l → Preserves P (f a)) → Preserves P (for_each f l).
Proof.
  induction l as [|x l IH]; simpl; intros Hf; [apply _|].
  apply bind_pres; [apply Hf; left|]. intros _. apply IH. intros a Ha. apply Hf. by right.
Qed.
End preserves_loops.

(** [tick_auto] and [pres_auto] walk through the conditionals and matches of
    a method. *)
Ltac tick_auto :=
  repeat first
    [ progress intros
    | apply _
    | progress cbv zeta
    | apply bind_tick | apply transaction_tick | apply map_err_tick | apply when_tick
    | apply for_each_tick
    | match goal with |- TickMono (match ?x with _ => _ end) => destruct x end ].

Ltac pres_auto :=
  repeat first
    [ progress intros
    | apply _
    | progress cbv zeta
    | apply bind_pres | apply transaction_pres | apply map_err_pres | apply when_pres
    | match goal with |- Preserves _ (match ?x with _ => _ end) => destruct x end ].

(** ** Helpers of sqlite.go shared by all methods *)

Definition nilIfEmpty (s : string) : option string :=
  if decide (s = EmptyString) then None else Some s.

(** [COALESCE(col, '')]. *)
Definition coalesce (o : option string) : string := default EmptyString o.

Definition default_ws (workspaceID : string) : string :=
  if decide (workspaceID = EmptyString) then "default"%string else workspaceID.

Lemma default_ws_idemp ws : default_ws (default_ws ws) = default_ws ws.
Proof. unfold default_ws. repeat case_decide; congruence. Qed.

(** The [lifecycle_stage] and [status] CHECK constraints. *)
Definition check_lifecycle (s : string) : bool := bool_decide (s ∈ [LifecycleActive; LifecycleDeleted]).
Definition check_status (s : string) : bool :=
  bool_decide (s ∈ [StatusRunning; StatusScheduled; StatusFinished; StatusFailed; StatusKilled]).
Definition check_kind (s : string) : bool := bool_decide (s ∈ [KindClassic; KindTrace; KindEval]).

(** [assertRunExists]. *)
Definition assertRunExists (runID : string) : M unit :=
  d ← get; if decide (is_Some (runs d !! runID)) then mret tt else fail ErrNotFound.
