(* ===== verification/Batches.v ===== *)
(** * Loading the children of a page in batches

    The listings of the store fill the tags (or aliases) of a page with one
    query per batch of rows instead of one query per row: the rows of
    [SELECT key, ... WHERE key IN (batch) ORDER BY key, subkey] are appended
    to the item of their key.  This file has the loop once, for any item and
    child type, and the proof that it gives every item exactly the children
    a query for that item alone returns, in the same order. *)

From S2P Require Import Prelude.

(** The slices [l[start:end]] of the loop
    [for start := 0; start < len(l); start += n]. *)
Fixpoint chunks {A} (fuel n : nat) (l : list A) : list (list A) :=
  match fuel, l with
  | _, [] => []
  | O, _ => []
  | S fuel', _ => take n l :: chunks fuel' n (drop n l)
  end.

Lemma chunks_concat {A} fuel n (l : list A) :
  (0 < n)%nat → (length l ≤ fuel)%nat → concat (chunks fuel n l) = l.
Proof.
  intros Hn. revert l. induction fuel as [|fuel IH]; intros [|x l] Hl; try done; simpl in Hl; [lia|].
  cbn [chunks concat]. rewrite IH; [apply take_drop|]. rewrite length_drop. simpl. lia.
Qed.

(** ** The loop *)

Section load.
Context {E K R : Type} `{EqDecision K}.
(** The key of an item, and appending children to it. *)
Context (key : E → K) (add : list R → E → E).

(** [if m := byKey[k]; m != nil { m.Children = append(m.Children, r) }];
    the items of a page have distinct keys. *)
Definition append_row (items : list E) (p : K * R) : list E :=
  (λ e, if decide (key e = p.1) then add [p.2] e else e) <$> items.

Definition load_batches (n : nat) (query : list K → list (K * R)) (items : list E) : list E :=
  foldl (λ acc b, foldl append_row acc (query (key <$> b))) items (chunks (length items) n items).

(** The children of [k] in the result of a query. *)
Definition rows_of (k : K) (q : list (K * R)) : list R := (filter (λ p, p.1 = k) q).*2.

(** Appending is a monoid action that keeps the key. *)
Class AppendLaws : Prop := {
  add_nil e : add [] e = e;
  add_app l1 l2 e : add l2 (add l1 e) = add (l1 ++ l2) e;
  add_key l e : key (add l e) = key e }.

Context `{!AppendLaws}.

Lemma foldl_append_row q items :
  foldl append_row items q = (λ e, add (rows_of (key e) q) e) <$> items.
Proof.
  revert items. induction q as [|[k r] q IH]; intros items.
  - simpl. rewrite <- (list_fmap_id items) at 1. apply list_fmap_ext. intros. by rewrite add_nil.
  - cbn [foldl]. rewrite IH. unfold append_row. rewrite <- list_fmap_compose. apply list_fmap_ext.
    intros i e _. unfold compose, rows_of. rewrite (filter_cons _ (k, r)). cbn [fst snd].
    destruct (decide (key e = k)) as [<-|Hne].
    + rewrite (decide_True (P:=key e = key e)) by done. rewrite add_key, add_app. done.
    + by rewrite (decide_False (P:=k = key e)) by congruence.
Qed.

Lemma rows_of_app k q1 q2 : rows_of k (q1 ++ q2) = rows_of k q1 ++ rows_of k q2.
Proof. unfold rows_of. by rewrite filter_app, fmap_app. Qed.

Lemma foldl_batches (Q : list E → list (K * R)) bs items :
  foldl (λ acc b, foldl append_row acc (Q b)) items bs =
  (λ e, add (concat ((λ b, rows_of (key e) (Q b)) <$> bs)) e) <$> items.
Proof.
  revert items. induction bs as [|b bs IH]; intros items.
  - simpl. rewrite <- (list_fmap_id items) at 1. apply list_fmap_ext. intros. by rewrite add_nil.
  - cbn [foldl]. rewrite IH, foldl_append_row, <- list_fmap_compose. apply list_fmap_ext.
    intros i e _. cbn. by rewrite add_key, add_app.
Qed.

(** Every item is in exactly one batch. *)
Lemma concat_batches (k : K) (X : list R) (bs : list (list E)) :
  NoDup (key <$> concat bs) → k ∈ (key <$> concat bs : list K) →
  concat ((λ b : list E, if decide (k ∈ (key <$> b : list K)) then X else []) <$> bs) = X.
Proof.
  induction bs as [|b bs IH]; [by intros _ ?%elem_of_nil|].
  cbn [concat]. rewrite fmap_app, NoDup_app. intros (_ & Hdisj & Hnd) Hi. rewrite fmap_cons. cbn [concat].
  case_decide as Hb.
  - rewrite <- (app_nil_r X) at 2. f_equal.
    specialize (Hdisj _ Hb). clear -Hdisj. induction bs as [|b' bs IH]; [done|].
    cbn [concat] in *. rewrite fmap_app, not_elem_of_app in Hdisj. destruct Hdisj.
    rewrite fmap_cons. cbn [concat]. rewrite decide_False by done. by apply IH.
  - apply elem_of_app in Hi as [?|Hi]; [done|]. by apply IH.
Qed.

(** When a query returns the children [ref k] for the keys it is asked for
    and nothing else, the loop gives every item its children. *)
Lemma load_batches_eq n query (ref : K → list R) items :
  (0 < n)%nat →
  (∀ ks k, rows_of k (query ks) = if decide (k ∈ ks) then ref k else []) →
  NoDup (key <$> items) →
  load_batches n query items = (λ e, add (ref (key e)) e) <$> items.
Proof.
  intros Hn Hq Hnd. unfold load_batches. rewrite (foldl_batches (λ b, query (key <$> b))).
  apply list_fmap_ext. intros i e He. f_equal.
  rewrite (list_fmap_ext _ (λ b : list E, if decide (key e ∈ (key <$> b : list K)) then ref (key e) else []))
    by (intros; apply Hq).
  pose proof (chunks_concat (length items) n items Hn (le_n _)) as Hc.
  apply concat_batches; rewrite Hc; [done|].
  apply list_elem_of_fmap_2. by apply list_elem_of_lookup_2 in He.
Qed.

(** The items stay the same. *)
Lemma load_batches_keys n query items : key <$> load_batches n query items = key <$> items.
Proof.
  unfold load_batches. rewrite (foldl_batches (λ b, query (key <$> b))), <- list_fmap_compose.
  apply list_fmap_ext. intros i e _. cbn. by rewrite add_key.
Qed.
End load.

(** ** The queries *)

Section query.
Context {K R S : Type} `{EqDecision K, TotalCmp K, TotalCmp S}.
(** The column that orders the children of one key. *)
Context (sub : R → S).

Definition child_key (p : K * R) : K * S := (p.1, sub p.2).

(** [SELECT ... WHERE key IN (ks) ORDER BY key, sub] over the scanned table. *)
Definition in_query (scan : list (K * R)) (ks : list K) : list (K * R) :=
  sort_by child_key (filter (λ p, p.1 ∈ ks) scan).

(** [SELECT ... WHERE key = k ORDER BY sub]. *)
Definition one_query (scan : list (K * R)) (k : K) : list R :=
  sort_by sub (filter (λ p, p.1 = k) scan).*2.

(** Children of one key sorted by (key, sub) are sorted by sub. *)
Lemma sorted_snd k q :
  Forall (λ p : K * R, p.1 = k) q →
  StronglySorted (key_lt child_key) q → StronglySorted (key_lt sub) q.*2.
Proof.
  intros Hq Hs. induction Hs as [|p q Hs IH Hp]; cbn; constructor; apply Forall_cons in Hq as [Hq1 Hq2]; [auto|].
  apply Forall_forall. intros r Hr. apply list_elem_of_fmap in Hr as (p' & -> & Hp').
  rewrite Forall_forall in Hq2, Hp. specialize (Hp p' Hp'). unfold key_lt, cmp_lt, child_key in *.
  cbn [cmp prod_total_cmp fst snd] in Hp. by rewrite Hq1, (Hq2 p' Hp'), cmp_refl in Hp.
Qed.

Lemma NoDup_one scan k :
  NoDup (child_key <$> scan) → NoDup (sub <$> (filter (λ p, p.1 = k) scan).*2).
Proof.
  intros Hnd. apply (NoDup_fmap_1 (λ s, (k, s))). rewrite <- !list_fmap_compose.
  rewrite (list_fmap_ext _ child_key).
  - by apply NoDup_fmap_filter.
  - intros i p Hp. apply list_elem_of_lookup_2, list_elem_of_filter in Hp as [Hp _].
    cbn. unfold child_key. by rewrite Hp.
Qed.

Lemma rows_of_in_query scan ks k :
  NoDup (child_key <$> scan) →
  rows_of k (in_query scan ks) = if decide (k ∈ ks) then one_query scan k else [].
Proof.
  intros Hnd. unfold rows_of, in_query.
  rewrite <- sort_by_filter by (by apply NoDup_fmap_filter). case_decide as Hk.
  - rewrite list_filter_filter.
    rewrite (filter_ext_in _ (λ p, p.1 = k)) by (intros p _; split; [by intros [? _]|by intros ->]).
    apply (StronglySorted_lt_unique sub).
    + apply (sorted_snd k); [|by apply sort_by_lt, NoDup_fmap_filter].
      apply Forall_forall. intros p Hp. by apply elem_of_sort_by, list_elem_of_filter in Hp as [? _].
    + by apply sort_by_lt, NoDup_one.
    + unfold one_query. by rewrite !sort_by_perm.
  - rewrite filter_none; [done|]. intros p Hp Hpk. apply list_elem_of_filter in Hp as [? _]. congruence.
Qed.
End query.
