(* ===== verification/Keyset.v ===== *)
(** * Key-set cursors (internal/store/sqlite.go, keyset pagination)

    SQL values with SQLite's order, the cursor predicate built by
    [keysetPredicate], its meaning, and the token that carries a cursor
    through JSON.  A token is kept as the JSON array it encodes (base64 is
    not modelled): numbers come back as [float64], strings as UTF-8. *)

From S2P Require Import Prelude GoStrings Model Database.
From Stdlib Require Import Ascii.

Open Scope Z_scope.

(** ** SQL values *)

(** A number is kept scaled by 2^1074, like a [float64]. *)
Inductive sqlval :=
  | SNull
  | SNum (scaled : Z)
  | SText (s : string).

Definition scale : Z := 2 ^ 1074.
Definition SInt (z : Z) : sqlval := SNum (z * scale).

#[export] Instance sqlval_eq_dec : EqDecision sqlval.
Proof. solve_decision. Defined.

(** SQLite: NULL before numbers before text. *)
Definition sqlval_cmp (x y : sqlval) : comparison :=
  match x, y with
  | SNull, SNull => Eq
  | SNull, _ => Lt
  | _, SNull => Gt
  | SNum a, SNum b => cmp a b
  | SNum _, SText _ => Lt
  | SText _, SNum _ => Gt
  | SText s, SText t => cmp s t
  end.

#[export] Instance sqlval_total_cmp : TotalCmp sqlval.
Proof.
  refine {| cmp := sqlval_cmp |}.
  - intros [|a|s] [|b|t]; cbn [sqlval_cmp]; try (split; congruence);
      rewrite cmp_eq_iff; split; congruence.
  - intros [|a|s] [|b|t]; cbn [sqlval_cmp]; try done; apply cmp_opp.
  - intros [|a|s] [|b|t] [|c|u]; cbn [sqlval_cmp]; try done; apply cmp_lt_trans.
Defined.

(** One column of an ORDER BY, with its direction. *)
Definition dcmp (desc : bool) (x y : sqlval) : comparison := if desc then cmp y x else cmp x y.

(** Sort keys: the values of the ORDER BY columns with their directions,
    compared lexicographically. *)
Fixpoint keys_cmp (x y : list (bool * sqlval)) : comparison :=
  match x, y with
  | [], [] => Eq
  | [], _ => Lt
  | _, [] => Gt
  | (dx, vx) :: x', (dy, vy) :: y' =>
      match dx, dy with
      | false, true => Lt
      | true, false => Gt
      | _, _ => match dcmp dx vx vy with Eq => keys_cmp x' y' | c => c end
      end
  end.

Lemma dcmp_eq d x y : dcmp d x y = Eq ↔ x = y.
Proof. destruct d; unfold dcmp; rewrite cmp_eq_iff; split; congruence. Qed.
Lemma dcmp_opp d x y : dcmp d y x = CompOpp (dcmp d x y).
Proof. destruct d; unfold dcmp; apply cmp_opp. Qed.
Lemma dcmp_trans d x y z : dcmp d x y = Lt → dcmp d y z = Lt → dcmp d x z = Lt.
Proof. destruct d; unfold dcmp; intros; by eapply cmp_lt_trans. Qed.

Definition sort_key : Type := list (bool * sqlval).

#[export] Instance sort_key_total_cmp : TotalCmp sort_key.
Proof.
  refine {| cmp := keys_cmp |}.
  - induction x as [|[dx vx] x IH]; intros [|[dy vy] y]; simpl; try (split; congruence).
    destruct dx, dy; try (split; congruence);
      destruct (dcmp _ vx vy) eqn:E; try apply dcmp_eq in E as ->; rewrite ?IH; split; try congruence;
      intros [= -> ->]; by rewrite (proj2 (dcmp_eq _ _ _) eq_refl) in E.
  - induction x as [|[dx vx] x IH]; intros [|[dy vy] y]; simpl; try done.
    destruct dx, dy; try done; rewrite (dcmp_opp _ vx vy); destruct (dcmp _ vx vy); simpl; auto.
  - induction x as [|[dx vx] x IH]; intros [|[dy vy] y] [|[dz vz] z]; simpl; try done.
    destruct dx, dy, dz; try done;
      destruct (dcmp _ vx vy) eqn:E1; try done; destruct (dcmp _ vy vz) eqn:E2; try done;
      try (apply dcmp_eq in E1 as ->); try (apply dcmp_eq in E2 as ->);
      rewrite ?E1, ?E2, ?(proj2 (dcmp_eq _ _ _) eq_refl); eauto;
      intros _ _; by rewrite (dcmp_trans _ _ _ _ E1 E2).
Defined.

(** ** The predicate *)

Record keysetCol := mkKeysetCol { kc_expr : string; kc_desc : bool }.

Definition keysetOrderClause (cols : list keysetCol) : string :=
  Join ", " ((λ c, kc_expr c +:+ " " +:+ (if kc_desc c then "DESC" else "ASC")) <$> cols).

Inductive cmp_op := OpEq | OpGt | OpLt.

(** One conjunct [cols[j].expr op ?] with its argument. *)
Record atom := mkAtom { at_col : nat; at_op : cmp_op; at_arg : sqlval }.

(** The disjunct of column [i]: equality on the columns before it, strict
    comparison on it. *)
Definition disjunct (cols : list keysetCol) (cur : list sqlval) (i : nat) : list atom :=
  ((λ j, mkAtom j OpEq (nth j cur SNull)) <$> seq 0 i) ++
  [mkAtom i (if kc_desc (nth i cols (mkKeysetCol "" false)) then OpLt else OpGt) (nth i cur SNull)].

Definition keysetPredicate (cols : list keysetCol) (cur : list sqlval) : list (list atom) :=
  disjunct cols cur <$> seq 0 (length cols).

(** The SQL text and the argument list. *)
Definition op_sql (o : cmp_op) : string := match o with OpEq => "=" | OpGt => ">" | OpLt => "<" end.

Definition atom_sql (cols : list keysetCol) (a : atom) : string :=
  kc_expr (nth (at_col a) cols (mkKeysetCol "" false)) +:+ " " +:+ op_sql (at_op a) +:+ " ?".

Definition keysetPredicate_sql (cols : list keysetCol) (cur : list sqlval) : string * list sqlval :=
  let ors := keysetPredicate cols cur in
  ("(" +:+ Join " OR " ((λ ands, "(" +:+ Join " AND " (atom_sql cols <$> ands) +:+ ")") <$> ors) +:+ ")",
   at_arg <$> concat ors).

(** Its value on a row, given the values of the column expressions; a
    comparison with NULL is not true. *)
Definition sql_compare (o : cmp_op) (x y : sqlval) : bool :=
  match x, y with
  | SNull, _ | _, SNull => false
  | _, _ => match o, cmp x y with
            | OpEq, Eq | OpGt, Gt | OpLt, Lt => true
            | _, _ => false
            end
  end.

Definition keyset_eval (ors : list (list atom)) (row : list sqlval) : bool :=
  existsb (forallb (λ a, sql_compare (at_op a) (nth (at_col a) row SNull) (at_arg a))) ors.

(** ** Tokens *)

Inductive PageToken :=
  | NoToken                          (* "" *)
  | Malformed                        (* not base64 or not a JSON array *)
  | Cursor (vals : list sqlval).

(** [json.Marshal] of a cursor value, then [json.Unmarshal]. *)
Definition json_val (v : sqlval) : sqlval :=
  match v with
  | SNum z => SNum (float64_round z)
  | SText s => SText (utf8_coerce s)
  | SNull => SNull
  end.

Definition encodeCursor (vals : list sqlval) : PageToken := Cursor (json_val <$> vals).

Definition decodeCursor (token : PageToken) (n : nat) : result (list sqlval) :=
  match token with
  | Cursor vals => if decide (length vals = n) then Ok vals else Err ErrInvalidFilter
  | _ => Err ErrInvalidFilter
  end.

(** * The predicate is "strictly after the cursor" *)

(** The sort key of a row, from the values of the column expressions. *)
Definition with_dirs (cols : list keysetCol) (vals : list sqlval) : sort_key :=
  zip (kc_desc <$> cols) vals.

Definition not_null (v : sqlval) : Prop := v ≠ SNull.

Section predicate.
Implicit Types (cols : list keysetCol) (cur row : list sqlval).

Definition nocol : keysetCol := mkKeysetCol "" false.

(** The first column on which the two differ decides. *)
Definition after_at cols cur row (i : nat) : Prop :=
  (∀ j, (j < i)%nat → nth j row SNull = nth j cur SNull) ∧
  dcmp (kc_desc (nth i cols nocol)) (nth i cur SNull) (nth i row SNull) = Lt.

Lemma keys_cmp_after cols cur row :
  length cur = length cols → length row = length cols →
  cmp_lt (with_dirs cols cur) (with_dirs cols row) ↔ ∃ i, (i < length cols)%nat ∧ after_at cols cur row i.
Proof.
  unfold cmp_lt, with_dirs. revert cur row.
  induction cols as [|c cols IH]; intros [|v cur] [|u row] Hc Hr; try done; simpl in *.
  { split; [done|]. intros (i & Hi & _). lia. }
  injection Hc as Hc. injection Hr as Hr. specialize (IH cur row Hc Hr). cbn in IH.
  assert (∀ c', match kc_desc c, kc_desc c with false, true => Lt | true, false => Gt | _, _ => c' end = c') as ->
    by (intros; by destruct (kc_desc c)).
  destruct (dcmp (kc_desc c) v u) eqn:E.
  - apply dcmp_eq in E as ->. rewrite IH. split.
    + intros (i & Hi & Heq & Hlt). exists (S i). split; [lia|]. split; [|done].
      intros [|j] Hj; [done|]. apply Heq. lia.
    + intros ([|i] & Hi & Heq & Hlt).
      * unfold after_at in Hlt. simpl in Hlt. by rewrite (proj2 (dcmp_eq _ _ _) eq_refl) in Hlt.
      * exists i. split; [lia|]. split; [|done]. intros j Hj. apply (Heq (S j)). lia.
  - split; [|done]. intros _. exists 0%nat. split; [lia|]. split; [intros j Hj; lia|done].
  - split; [done|]. intros ([|i] & Hi & Heq & Hlt); simpl in Hlt; [congruence|].
    specialize (Heq 0%nat). simpl in Heq. rewrite Heq in E by lia.
    by rewrite (proj2 (dcmp_eq _ _ _) eq_refl) in E.
Qed.

Lemma nth_not_null l i : Forall not_null l → (i < length l)%nat → not_null (nth i l SNull).
Proof.
  intros Hl Hi. rewrite Forall_lookup in Hl.
  destruct (lookup_lt_is_Some_2 l i Hi) as [v Hv]. apply (Hl i).
  rewrite (nth_lookup_Some _ _ _ _ Hv). done.
Qed.

Lemma sql_compare_eq x y : not_null x → not_null y → sql_compare OpEq x y = true ↔ x = y.
Proof.
  intros Hx Hy. destruct x, y; try done; unfold sql_compare; rewrite <- cmp_eq_iff; by destruct (cmp _ _).
Qed.

Lemma sql_compare_strict (d : bool) x y :
  not_null x → not_null y →
  sql_compare (if d then OpLt else OpGt) x y = true ↔ dcmp d y x = Lt.
Proof.
  intros Hx Hy. unfold dcmp. destruct d.
  - destruct x, y; try done; unfold sql_compare; by destruct (cmp _ _).
  - rewrite (cmp_opp x y). destruct x, y; try done; unfold sql_compare; by destruct (cmp _ _).
Qed.

Lemma disjunct_eval cols cur row i :
  Forall not_null cur → Forall not_null row →
  length cur = length cols → length row = length cols → (i < length cols)%nat →
  forallb (λ a, sql_compare (at_op a) (nth (at_col a) row SNull) (at_arg a)) (disjunct cols cur i) = true ↔
  after_at cols cur row i.
Proof.
  intros Hnc Hnr Hc Hr Hi. unfold disjunct. rewrite forallb_app, andb_true_iff. cbn [forallb].
  rewrite andb_true_r. cbn [at_op at_col at_arg].
  rewrite sql_compare_strict by (apply nth_not_null; [done|lia]).
  unfold after_at. apply and_iff_compat_r. rewrite forallb_forall. split.
  - intros Hall j Hj. specialize (Hall (mkAtom j OpEq (nth j cur SNull))).
    cbn [at_op at_col at_arg] in Hall. rewrite sql_compare_eq in Hall by (apply nth_not_null; [done|lia]).
    apply Hall. apply list_elem_of_In, list_elem_of_fmap. exists j. split; [done|]. apply elem_of_seq. lia.
  - intros Heq a Ha%list_elem_of_In. apply list_elem_of_fmap in Ha as (j & -> & Hj%elem_of_seq).
    cbn [at_op at_col at_arg]. apply sql_compare_eq; [apply nth_not_null; [done|lia]..|]. apply Heq. lia.
Qed.

Lemma keyset_eval_after cols cur row :
  Forall not_null cur → Forall not_null row →
  length cur = length cols → length row = length cols →
  keyset_eval (keysetPredicate cols cur) row = true ↔
  cmp_lt (with_dirs cols cur) (with_dirs cols row).
Proof.
  intros Hnc Hnr Hc Hr. rewrite keys_cmp_after by done. unfold keyset_eval, keysetPredicate.
  rewrite existsb_exists. split.
  - intros (ands & Ha%list_elem_of_In & Hev). apply list_elem_of_fmap in Ha as (i & -> & Hi%elem_of_seq).
    exists i. split; [lia|]. apply disjunct_eval in Hev; [done..|lia].
  - intros (i & Hi & Haf). exists (disjunct cols cur i). split.
    + apply list_elem_of_In, list_elem_of_fmap. exists i. split; [done|]. apply elem_of_seq. lia.
    + by apply disjunct_eval.
Qed.

(** The text has one placeholder per argument. *)
Fixpoint count_marks (s : string) : nat :=
  match s with
  | EmptyString => O
  | String a s' => ((if Ascii.eqb a "?"%char then 1 else 0) + count_marks s')%nat
  end.

Lemma count_marks_app s t : count_marks (s +:+ t) = (count_marks s + count_marks t)%nat.
Proof. induction s as [|a s IH]; simpl; [done|]. rewrite IH. lia. Qed.

Lemma count_marks_Join sep l :
  count_marks sep = 0%nat → count_marks (Join sep l) = sum_list_with count_marks l.
Proof.
  intros Hs. destruct l as [|x l]; [done|]. unfold Join. rewrite count_marks_app. simpl. f_equal.
  induction l as [|y l IH]; [done|]. simpl. rewrite !count_marks_app, Hs, IH. done.
Qed.

Lemma keysetPredicate_marks cols cur :
  Forall (λ c, count_marks (kc_expr c) = 0%nat) cols →
  let '(sql, args) := keysetPredicate_sql cols cur in count_marks sql = length args.
Proof.
  intros Hcols. unfold keysetPredicate_sql. rewrite !count_marks_app, count_marks_Join by done. simpl.
  rewrite Nat.add_0_r, length_fmap. induction (keysetPredicate cols cur) as [|ands ors IH]; [done|].
  cbn [fmap list_fmap sum_list_with concat]. rewrite IH, length_app. f_equal.
  cbn [count_marks]. rewrite !count_marks_app, count_marks_Join by done. simpl. rewrite Nat.add_0_r.
  induction ands as [|a ands IHa]; [done|]. cbn [fmap list_fmap sum_list_with length]. rewrite IHa.
  unfold atom_sql. rewrite !count_marks_app.
  assert (count_marks (kc_expr (nth (at_col a) cols (mkKeysetCol "" false))) = 0%nat) as ->.
  { destruct (nth_in_or_default (at_col a) cols (mkKeysetCol "" false)) as [Hin|Hd]; [|by rewrite Hd].
    rewrite Forall_forall in Hcols. apply Hcols. by apply list_elem_of_In. }
  by destruct (at_op a).
Qed.
End predicate.

(** * Paging through a table with cursors *)

Section keyset_paging.
Context {A : Type} (cols : list keysetCol) (vals : A → list sqlval).

Definition row_key (x : A) : sort_key := with_dirs cols (vals x).

(** One request: [WHERE pred ORDER BY cols LIMIT n+1], the split, the token. *)
Definition keyset_page (n : nat) (rows : list A) (token : PageToken) : result (list A * PageToken) :=
  pred ← (match token with
          | NoToken => Ok None
          | _ => Some <$> decodeCursor token (length cols)
          end);
  let keep x := match pred with
                | None => true
                | Some cur => keyset_eval (keysetPredicate cols cur) (vals x)
                end in
  let out := take (S n) (sort_by row_key (filter (λ x, keep x = true) rows)) in
  if decide (n < length out)%nat then
    let out := take n out in
    Ok (out, match last out with Some x => encodeCursor (vals x) | None => NoToken end)
  else Ok (out, NoToken).

(** The requests of a client that follows the tokens. *)
Fixpoint keyset_pages (fuel n : nat) (rows : list A) (token : PageToken) : option (list (list A)) :=
  match fuel with
  | O => None
  | S fuel' =>
      match keyset_page n rows token with
      | Ok (out, NoToken) => Some [out]
      | Ok (out, next) => cons out <$> keyset_pages fuel' n rows next
      | Err _ => None
      end
  end.

(** Rows whose cursor values are not NULL and survive JSON. *)
Definition cursor_safe (x : A) : Prop :=
  length (vals x) = length cols ∧ Forall not_null (vals x) ∧ json_val <$> vals x = vals x.

Lemma keyset_page_eq n rows token cur :
  Forall cursor_safe rows →
  (token = NoToken ∧ cur = None) ∨ (∃ x, cursor_safe x ∧ token = encodeCursor (vals x) ∧ cur = Some (row_key x)) →
  keyset_page n rows token =
    Ok (let '(out, next) := page row_key n rows cur in
        (out, if next then match last out with Some x => encodeCursor (vals x) | None => NoToken end
              else NoToken)).
Proof.
  intros Hrows Hcur. rewrite Forall_forall in Hrows.
  assert (∃ pred, (match token with NoToken => Ok None | _ => Some <$> decodeCursor token (length cols) end) = Ok pred ∧
    ∀ x, x ∈ rows → (match pred with None => true | Some c => keyset_eval (keysetPredicate cols c) (vals x) end = true
      ↔ after row_key cur x)) as (pred & Hp & Hkeep).
  { destruct Hcur as [[-> ->]|(x & (Hl & Hn & Hj) & -> & ->)]; [by exists None|].
    exists (Some (vals x)). unfold encodeCursor. rewrite Hj. split.
    - cbn. by rewrite decide_True.
    - intros y Hy. destruct (Hrows y Hy) as (Hl' & Hn' & _). by apply keyset_eval_after. }
  unfold keyset_page. rewrite Hp. simpl. unfold page.
  rewrite (filter_ext_in _ (after row_key cur)) by (intros x Hx; by apply Hkeep).
  case_decide; [|done]. by destruct (last _).
Qed.

(** Following the tokens returns every row once, in order. *)
Lemma keyset_pages_eq fuel n rows token cur :
  Forall cursor_safe rows → (0 < n)%nat →
  (token = NoToken ∧ cur = None) ∨ (∃ x, cursor_safe x ∧ token = encodeCursor (vals x) ∧ cur = Some (row_key x)) →
  keyset_pages fuel n rows token = pages row_key fuel n rows cur.
Proof.
  intros Hrows Hn. revert token cur. induction fuel as [|fuel IH]; intros token cur Hcur; [done|].
  cbn [keyset_pages pages]. rewrite (keyset_page_eq _ _ _ cur) by done.
  unfold page. case_decide as Hlen; [|done].
  set (out := take (S n) (sort_by row_key (filter (after row_key cur) rows))) in *.
  destruct (last (take n out)) as [x|] eqn:Hx.
  - cbn. f_equal. apply IH. right. exists x. split; [|done].
    rewrite Forall_forall in Hrows. apply Hrows.
    apply last_Some in Hx as [l' Hl']. assert (x ∈ take n out) as Hin by (rewrite Hl'; set_solver).
    apply elem_of_take in Hin as (i & Hi & _). apply list_elem_of_lookup_2 in Hi.
    apply elem_of_take in Hi as (j & Hj & _). apply list_elem_of_lookup_2 in Hj.
    by apply elem_of_sort_by, list_elem_of_filter in Hj as [_ ?].
  - apply last_None in Hx. apply (f_equal length) in Hx. rewrite length_take in Hx. simpl in Hx. lia.
Qed.

Lemma keyset_pages_complete n rows :
  Forall cursor_safe rows → (0 < n)%nat → NoDup (row_key <$> rows) →
  ∃ ps, keyset_pages (S (length rows)) n rows NoToken = Some ps ∧ concat ps = sort_by row_key rows.
Proof.
  intros Hrows Hn Hd. rewrite (keyset_pages_eq _ _ _ _ None) by auto. by apply pages_complete.
Qed.

(** A page has at most [n] rows, all of the table. *)
Lemma keyset_page_in n rows token out next :
  keyset_page n rows token = Ok (out, next) → (length out ≤ n)%nat ∧ ∀ x, x ∈ out → x ∈ rows.
Proof.
  unfold keyset_page. intros Hx.
  destruct (match token with NoToken => Ok None | _ => _ end) as [pred|e]; [|done].
  simpl in Hx. revert Hx. set (l := sort_by _ _).
  assert (∀ k x, x ∈ take k l → x ∈ rows) as Hin.
  { intros k x (i & Hi & _)%elem_of_take. apply list_elem_of_lookup_2 in Hi.
    by apply elem_of_sort_by, list_elem_of_filter in Hi as [_ ?]. }
  case_decide as Hlen; intros [= <- <-].
  - rewrite take_take. rewrite length_take. split; [lia|]. intros x. apply Hin.
  - split; [lia|]. intros x. apply Hin.
Qed.
End keyset_paging.

(** ** Numbers that survive JSON *)

(** Scaling does not change the significand. *)
Lemma float64_round_scaled m e : 0 ≤ e → float64_exact m → float64_round (m * 2 ^ e) = m * 2 ^ e.
Proof.
  intros He Hm. unfold float64_exact in Hm. unfold float64_round.
  assert (Z.abs (m * 2 ^ e) = Z.abs m * 2 ^ e) as Habs by (rewrite Z.abs_mul; lia).
  destruct (decide (m = 0)) as [->|Hne]; [done|].
  assert (Z.log2 (Z.abs (m * 2 ^ e)) = Z.log2 (Z.abs m) + e) as Hlog.
  { rewrite Habs. rewrite Z.log2_mul_pow2 by lia. lia. }
  assert (Z.log2 (Z.abs m) < 53) by (apply Z.log2_lt_pow2; lia).
  set (k := Z.max 0 (Z.log2 (Z.abs (m * 2 ^ e)) + 1 - 53)).
  assert (0 ≤ k ≤ e) as Hk by lia.
  assert (Z.abs (m * 2 ^ e) = Z.abs m * 2 ^ (e - k) * 2 ^ k) as Hsplit.
  { rewrite Habs, <- Z.mul_assoc, <- Z.pow_add_r by lia. do 2 f_equal. lia. }
  rewrite Hsplit, Z.div_mul, Z.mod_mul by lia.
  assert ((if k =? 0 then false else (2 ^ (k - 1) <? 0) || ((2 ^ (k - 1) =? 0) && Z.odd (Z.abs m * 2 ^ (e - k)))) = false) as ->.
  { destruct (Z.eqb_spec k 0); [done|]. pose proof (Z.pow_pos_nonneg 2 (k - 1)).
    destruct (Z.ltb_spec (2 ^ (k - 1)) 0); [lia|]. destruct (Z.eqb_spec (2 ^ (k - 1)) 0); [lia|done]. }
  rewrite <- Hsplit, Z.mul_comm. apply Z.abs_sgn.
Qed.

Lemma json_val_int z : float64_exact z → json_val (SInt z) = SInt z.
Proof. intros Hz. unfold SInt, scale. cbn. f_equal. apply float64_round_scaled; [lia|done]. Qed.
