(* ===== verification/Filter.v ===== *)
(** * The run filter language (internal/store/sqlite.go)

    [parseRunFilter] and its helpers, from the text of a filter to a clause.
    A clause is kept as the shape of SQL the code builds ([clause]) and
    rendered to the text and the bound arguments by [render]; slices that Go
    would panic on are the error [ErrPanic].  [strconv.ParseFloat] is a
    parameter. *)

From S2P Require Import Prelude GoStrings Model Database Keyset.
From Stdlib Require Import Ascii.

Open Scope Z_scope.

(** ** Clauses *)

(** The whitelisted columns of [runs]. *)
Inductive attr := AStatus | AStartTime | AEndTime | AName | AId.

Inductive fop := FGe | FLe | FNe | FEq | FGt | FLt | FLike.

#[export] Instance fop_eq_dec : EqDecision fop.
Proof. solve_decision. Defined.

Inductive side_table := TParams | TTags.

Inductive clause :=
  | CAttr (a : attr) (op : fop) (v : string)
  | CTable (t : side_table) (key : string) (op : fop) (v : string)
  | CMetric (key : string) (op : fop) (v : float64)
  | CAttrIn (a : attr) (vs : list string)
  | CTableIn (t : side_table) (key : string) (vs : list string)
  | CMetricBetween (key : string) (lo hi : float64)
  | CAttrBetween (a : attr) (lo hi : float64).

Definition attr_sql (a : attr) : string :=
  match a with
  | AStatus => "status" | AStartTime => "start_time" | AEndTime => "end_time"
  | AName => "name" | AId => "id"
  end.

Definition fop_sql (o : fop) : string :=
  match o with
  | FGe => ">=" | FLe => "<=" | FNe => "!=" | FEq => "=" | FGt => ">" | FLt => "<" | FLike => "LIKE"
  end.

Definition table_sql (t : side_table) : string := match t with TParams => "params" | TTags => "tags" end.

Inductive farg := ArgText (s : string) | ArgFloat (f : float64).

(** [strings.TrimRight(strings.Repeat("?,", n), ",")]. *)
Definition Repeat (s : string) (n : nat) : string := foldr (λ _ acc, s +:+ acc) EmptyString (seq 0 n).
Definition marks (n : nat) : string := TrimRight (Repeat "?," n) ",".

Definition latest_prefix : string :=
  "id IN ( SELECT run_id FROM metrics m1 WHERE key = ? AND (timestamp, step) = ( SELECT timestamp, step FROM metrics m2 WHERE m2.run_id = m1.run_id AND m2.key = m1.key ORDER BY timestamp DESC, step DESC LIMIT 1 ) AND value ".

Definition render (c : clause) : string * list farg :=
  match c with
  | CAttr a op v => (attr_sql a +:+ " " +:+ fop_sql op +:+ " ?", [ArgText v])
  | CTable t key op v =>
      ("id IN (SELECT run_id FROM " +:+ table_sql t +:+ " WHERE key = ? AND value " +:+ fop_sql op +:+ " ?)",
       [ArgText key; ArgText v])
  | CMetric key op v => (latest_prefix +:+ fop_sql op +:+ " ? )", [ArgText key; ArgFloat v])
  | CAttrIn a vs => (attr_sql a +:+ " IN (" +:+ marks (length vs) +:+ ")", ArgText <$> vs)
  | CTableIn t key vs =>
      ("id IN (SELECT run_id FROM " +:+ table_sql t +:+ " WHERE key = ? AND value IN (" +:+
         marks (length vs) +:+ "))", ArgText key :: (ArgText <$> vs))
  | CMetricBetween key lo hi =>
      (latest_prefix +:+ "BETWEEN ? AND ? )", [ArgText key; ArgFloat lo; ArgFloat hi])
  | CAttrBetween a lo hi => (attr_sql a +:+ " BETWEEN ? AND ?", [ArgFloat lo; ArgFloat hi])
  end.

(** [strings.Join(sqlParts, " AND ")], and [1=1] when there are none. *)
Definition render_all (cs : list clause) : string * list farg :=
  match cs with
  | [] => ("1=1"%string, [])
  | _ => (Join " AND " ((λ c, (render c).1) <$> cs), concat ((λ c, (render c).2) <$> cs))
  end.

(** ** Splitting on AND *)

Definition quote_char : ascii := "039"%char.

Definition char_is (c : ascii) (o : option ascii) : bool := bool_decide (o = Some c).

(** [i+len(pat) <= len(s) && upper[i:i+len(pat)] == pat]. *)
Definition upper_at (s upper : string) (i : nat) (pat : string) : result bool :=
  if decide (i + slen pat ≤ slen s)%nat then
    x ← slice upper i (i + slen pat); Ok (bool_decide (x = pat))
  else Ok false.

(** The loop, from byte [i]; [fuel] iterations are left.  [len s - i] are
    enough, every iteration advances [i]. *)
Fixpoint split_go (fuel : nat) (s upper : string) (i last : nat) (depth : Z)
    (inQuote inBetween : bool) : result (list string) :=
  match fuel with
  | O => x ← slice s last (slen s); Ok [x]
  | S fuel' =>
      if decide (slen s ≤ i)%nat then x ← slice s last (slen s); Ok [x] else
      let ch := String.get i s in
      let inQuote := if char_is quote_char ch then negb inQuote else inQuote in
      let depth := if negb inQuote && char_is "("%char ch then depth + 1
                   else if negb inQuote && char_is ")"%char ch then depth - 1 else depth in
      let top := negb inQuote && (depth =? 0) in
      isBetween ← (if top then upper_at s upper i " BETWEEN " else Ok false);
      let inBetween := inBetween || isBetween in
      isAnd ← (if top then upper_at s upper i " AND " else Ok false);
      if (isAnd : bool) then
        if inBetween then split_go fuel' s upper (i + 5) last depth inQuote false
        else x ← slice s last i;
             rest ← split_go fuel' s upper (i + 5) (i + 5) depth inQuote inBetween;
             Ok (x :: rest)
      else split_go fuel' s upper (i + 1) last depth inQuote inBetween
  end.

Definition splitOnAnd (s : string) : result (list string) :=
  split_go (slen s) s (ToUpper s) 0 0 0 false false.

(** ** IN lists *)

(** Skips commas and spaces after a quoted value. *)
Fixpoint skip_sep (s : string) : string :=
  match s with
  | String c s' => if bool_decide (c = ","%char ∨ c = " "%char) then skip_sep s' else s
  | EmptyString => EmptyString
  end.

(** [cur] is the reversed buffer.  [fuel = len s] is enough. *)
Fixpoint in_values (fuel : nat) (s : string) (inQ : bool) (cur : string) (vals : list string) :
    result (list string) :=
  match fuel, s with
  | S fuel', String ch s' =>
      if bool_decide (ch = quote_char) then
        if inQ then
          match s' with
          | String c2 s'' =>
              if bool_decide (c2 = quote_char) then in_values fuel' s'' true (String quote_char cur) vals
              else in_values fuel' (skip_sep s') false EmptyString (vals ++ [srev cur])
          | EmptyString => in_values fuel' EmptyString false EmptyString (vals ++ [srev cur])
          end
        else in_values fuel' s' true cur vals
      else if bool_decide (ch = ","%char) && negb inQ then
        in_values fuel' s' inQ EmptyString (vals ++ [TrimSpace (srev cur)])
      else if negb inQ && bool_decide (ch = " "%char) then in_values fuel' s' inQ cur vals
      else in_values fuel' s' inQ (String ch cur) vals
  | _, _ =>
      if inQ then Err ErrInvalidFilter else
      let remaining := TrimSpace (srev cur) in
      Ok (if decide (remaining = EmptyString) then vals else vals ++ [remaining])
  end.

Definition parseINValues (s : string) : result (list string) :=
  let s := TrimSpace s in
  if decide (s = EmptyString) then Ok [] else in_values (slen s) s false EmptyString [].

(** ** Predicates *)

Section parse.
Context (ParseFloat : string → option float64).

Definition attr_of (allowed : list (string * attr)) (col : string) : result attr :=
  match list_find (λ p, p.1 = col) allowed with
  | Some (_, (_, a)) => Ok a
  | None => Err ErrInvalidFilter
  end.

Definition attr_whitelist : list (string * attr) :=
  [("status", AStatus); ("start_time", AStartTime); ("end_time", AEndTime);
   ("run_name", AName); ("run_id", AId)]%string.

(** [None]: not an IN predicate. *)
Definition tryParseIN (c : string) : option (result clause) :=
  match Index (ToUpper c) " IN (" with
  | None => None
  | Some inIdx => Some (
      left ← slice c 0 inIdx;
      rest ← slice c (inIdx + 5) (slen c);
      let left := TrimSpace left in
      let rest := TrimSpace rest in
      match LastIndex rest ")" with
      | None => Err ErrInvalidFilter
      | Some closeIdx =>
          inner ← slice rest 0 closeIdx;
          vals ← parseINValues inner;
          if decide (vals = []) then Err ErrInvalidFilter else
          if decide (left = "status"%string) then Ok (CAttrIn AStatus vals)
          else if HasPrefix left "attributes." then
            a ← attr_of attr_whitelist (TrimPrefix left "attributes."); Ok (CAttrIn a vals)
          else if HasPrefix left "params." then Ok (CTableIn TParams (TrimPrefix left "params.") vals)
          else if HasPrefix left "tags." then Ok (CTableIn TTags (TrimPrefix left "tags.") vals)
          else Err ErrInvalidFilter
      end)
  end.

Definition parse_num (s : string) : result float64 := of_option ErrInvalidFilter (ParseFloat s).

Definition tryParseBETWEEN (c : string) : option (result clause) :=
  match Index (ToUpper c) " BETWEEN " with
  | None => None
  | Some betIdx => Some (
      left ← slice c 0 betIdx;
      rest ← slice c (betIdx + 9) (slen c);
      let left := TrimSpace left in
      let rest := TrimSpace rest in
      match Index (ToUpper rest) " AND " with
      | None => Err ErrInvalidFilter
      | Some andIdx =>
          lo ← slice rest 0 andIdx;
          hi ← slice rest (andIdx + 5) (slen rest);
          let lo := TrimSpace lo in
          let hi := TrimSpace hi in
          if HasPrefix left "metrics." then
            l ← parse_num lo; h ← parse_num hi;
            Ok (CMetricBetween (TrimPrefix left "metrics.") l h)
          else if HasPrefix left "attributes." then
            a ← attr_of [("start_time", AStartTime); ("end_time", AEndTime)]%string (TrimPrefix left "attributes.");
            l ← parse_num lo; h ← parse_num hi;
            Ok (CAttrBetween a l h)
          else Err ErrInvalidFilter
      end)
  end.

(** The operators in the order they are tried, with the text searched. *)
Definition op_list : list (fop * string) :=
  [(FGe, ">="); (FLe, "<="); (FNe, "!="); (FEq, "="); (FGt, ">"); (FLt, "<"); (FLike, " LIKE ")]%string.

(** One round of the operator loop: [None] when the code continues. *)
Definition try_op (c : string) (op : fop) (text : string) : option (result clause) :=
  match (if decide (op = FLike) then Index (ToUpper c) text else Index c text) with
  | None => None
  | Some idx =>
      match slice c 0 idx, slice c (idx + slen text) (slen c) with
      | Ok l, Ok r =>
          let left := TrimSpace l in
          let right := Trim (TrimSpace r) quotes in
          if decide (left = "status"%string) then Some (Ok (CAttr AStatus op right))
          else if HasPrefix left "params." then Some (Ok (CTable TParams (TrimPrefix left "params.") op right))
          else if HasPrefix left "tags." then Some (Ok (CTable TTags (TrimPrefix left "tags.") op right))
          else if HasPrefix left "metrics." then
            Some (v ← parse_num right; Ok (CMetric (TrimPrefix left "metrics.") op v))
          else if HasPrefix left "attributes." then
            Some (a ← attr_of attr_whitelist (TrimPrefix left "attributes."); Ok (CAttr a op right))
          else None
      | _, _ => Some (Err ErrPanic)
      end
  end.

Fixpoint try_ops (c : string) (ops : list (fop * string)) : result clause :=
  match ops with
  | [] => Err ErrInvalidFilter
  | (op, text) :: ops' => default (try_ops c ops') (try_op c op text)
  end.

Definition parseRunPredicate (c : string) : result clause :=
  match tryParseIN c with
  | Some r => r
  | None => match tryParseBETWEEN c with
            | Some r => r
            | None => try_ops c op_list
            end
  end.

(** [for _, c := range clauses]. *)
Fixpoint parse_clauses (l : list string) : result (list clause) :=
  match l with
  | [] => Ok []
  | c :: l' =>
      let c := TrimSpace c in
      if decide (c = EmptyString) then parse_clauses l' else
      x ← parseRunPredicate c; xs ← parse_clauses l'; Ok (x :: xs)
  end.

Definition parseRunFilter (f : string) : result (list clause) :=
  parts ← splitOnAnd f; parse_clauses parts.
End parse.

(** * Bytes of substrings *)

Section bytes.
Context (f : ascii → bool).

Lemma any_byte_srev s : any_byte f (srev s) = any_byte f s.
Proof.
  induction s as [|c s IH]; [done|]. rewrite srev_cons, any_byte_app, IH. simpl.
  by rewrite orb_false_r, orb_comm.
Qed.

Lemma any_byte_stake n s : any_byte f s = false → any_byte f (stake n s) = false.
Proof.
  rewrite <- (stake_sdrop n s) at 1. rewrite any_byte_app. by intros [? _]%orb_false_iff.
Qed.
Lemma any_byte_sdrop n s : any_byte f s = false → any_byte f (sdrop n s) = false.
Proof.
  rewrite <- (stake_sdrop n s) at 1. rewrite any_byte_app. by intros [_ ?]%orb_false_iff.
Qed.

Lemma any_byte_tail c s : any_byte f (String c s) = false → any_byte f s = false.
Proof. simpl. by intros [_ ?]%orb_false_iff. Qed.

Lemma drop_space_tail s s' : drop_space s = Some s' → any_byte f s = false → any_byte f s' = false.
Proof.
  unfold drop_space. intros Hd Hs. repeat case_match; simplify_eq; repeat apply any_byte_tail in Hs; done.
Qed.
Lemma drop_space_rev_tail s s' : drop_space_rev s = Some s' → any_byte f s = false → any_byte f s' = false.
Proof.
  unfold drop_space_rev. intros Hd Hs. repeat case_match; simplify_eq; repeat apply any_byte_tail in Hs; done.
Qed.

Lemma drop_spaces_bytes step n s :
  (∀ s s', step s = Some s' → any_byte f s = false → any_byte f s' = false) →
  any_byte f s = false → any_byte f (drop_spaces step n s) = false.
Proof.
  intros Hstep. revert s. induction n as [|n IH]; intros s Hs; simpl; [done|].
  destruct (step s) as [s'|] eqn:E; [|done]. apply IH. by eapply Hstep.
Qed.

Lemma any_byte_TrimSpace s : any_byte f s = false → any_byte f (TrimSpace s) = false.
Proof.
  intros Hs. unfold TrimSpace, TrimRightSpace. rewrite any_byte_srev.
  apply drop_spaces_bytes; [apply drop_space_rev_tail|]. rewrite any_byte_srev.
  unfold TrimLeftSpace. apply drop_spaces_bytes; [apply drop_space_tail|done].
Qed.

Lemma any_byte_trim_left cut s : any_byte f s = false → any_byte f (trim_left_set cut s) = false.
Proof.
  induction s as [|c s IH]; [done|]. cbn [trim_left_set]. intros Hs. case_match; [|done].
  apply IH. by eapply any_byte_tail.
Qed.

Lemma any_byte_TrimRight s cut : any_byte f s = false → any_byte f (TrimRight s cut) = false.
Proof.
  intros Hs. unfold TrimRight. rewrite any_byte_srev. apply any_byte_trim_left. by rewrite any_byte_srev.
Qed.

Lemma any_byte_Repeat s n : any_byte f s = false → any_byte f (Repeat s n) = false.
Proof.
  intros Hs. unfold Repeat. generalize 0%nat. induction n as [|n IH]; intros k; [done|].
  cbn [seq foldr]. by rewrite any_byte_app, Hs, IH.
Qed.

Lemma any_byte_Join sep l :
  any_byte f sep = false → Forall (λ s, any_byte f s = false) l → any_byte f (Join sep l) = false.
Proof.
  intros Hsep Hl. destruct Hl as [|x l Hx Hl]; [done|]. unfold Join. rewrite any_byte_app, Hx. simpl.
  induction Hl as [|y l Hy Hl IH]; [done|]. simpl. by rewrite !any_byte_app, Hsep, Hy, IH.
Qed.
End bytes.

(** * The SQL text *)

Section marks.
Lemma count_marks_srev s : count_marks (srev s) = count_marks s.
Proof.
  induction s as [|c s IH]; [done|]. rewrite srev_cons, count_marks_app, IH. simpl. lia.
Qed.

Lemma count_marks_trim_left cut s :
  count_marks cut = 0%nat → count_marks (trim_left_set cut s) = count_marks s.
Proof.
  intros Hcut. induction s as [|c s IH]; [done|]. cbn [trim_left_set]. case_match eqn:E; [|done].
  rewrite IH. cbn [count_marks]. destruct (Ascii.eqb_spec c "?"%char) as [->|]; [|done].
  exfalso. clear -Hcut E. induction cut as [|d cut IH]; [done|]. cbn in *.
  destruct (Ascii.eqb_spec d "?"%char) as [|Hne]; [done|].
  rewrite bool_decide_eq_false_2 in E by congruence. by apply IH.
Qed.

Lemma count_marks_Repeat s n : count_marks (Repeat s n) = (n * count_marks s)%nat.
Proof.
  unfold Repeat. generalize 0%nat. induction n as [|n IH]; intros k; [done|].
  cbn [seq foldr]. rewrite count_marks_app, IH. lia.
Qed.

Lemma count_marks_marks n : count_marks (marks n) = n.
Proof.
  unfold marks, TrimRight. rewrite count_marks_srev, count_marks_trim_left by done.
  rewrite count_marks_srev, count_marks_Repeat. simpl. lia.
Qed.

Lemma count_marks_attr a : count_marks (attr_sql a) = 0%nat.
Proof. by destruct a. Qed.
Lemma count_marks_fop o : count_marks (fop_sql o) = 0%nat.
Proof. by destruct o. Qed.
Lemma count_marks_table t : count_marks (table_sql t) = 0%nat.
Proof. by destruct t. Qed.
Lemma count_marks_latest s : count_marks (latest_prefix +:+ s) = S (count_marks s).
Proof. by rewrite count_marks_app. Qed.

Lemma render_marks c : count_marks (render c).1 = length (render c).2.
Proof.
  destruct c; cbn [render fst snd length]; rewrite ?count_marks_latest, ?length_fmap;
    repeat (rewrite count_marks_app || rewrite count_marks_attr || rewrite count_marks_fop
            || rewrite count_marks_table || rewrite count_marks_marks);
    cbn [count_marks Ascii.eqb Bool.eqb]; lia.
Qed.

(** Bytes that could end a literal or start a comment. *)
Definition sql_special (c : ascii) : bool :=
  byte_is 39 c || byte_is 34 c || byte_is 59 c || byte_is 45 c || byte_in 128 255 c.

Lemma render_plain c : any_byte sql_special (render c).1 = false.
Proof.
  assert (∀ n, any_byte sql_special (marks n) = false) as Hm.
  { intros n. unfold marks. by apply any_byte_TrimRight, any_byte_Repeat. }
  assert (∀ a, any_byte sql_special (attr_sql a) = false) as Ha by by destruct a.
  assert (∀ o, any_byte sql_special (fop_sql o) = false) as Ho by by destruct o.
  assert (∀ t, any_byte sql_special (table_sql t) = false) as Ht by by destruct t.
  assert (any_byte sql_special latest_prefix = false) as Hl by done.
  destruct c; cbn [render fst]; repeat (rewrite any_byte_app || rewrite Hm || rewrite Ha || rewrite Ho
    || rewrite Ht || rewrite Hl); reflexivity.
Qed.
End marks.

(** No filter text reaches the SQL.  Whatever clauses a filter parses to,
    the statement text has one placeholder per bound argument and contains
    no quote, semicolon, minus or non-ASCII byte: keys and values travel as
    arguments only. *)
Theorem filter_sql_parameterised cs :
  let '(sql, args) := render_all cs in
  count_marks sql = length args ∧ any_byte sql_special sql = false.
Proof.
  unfold render_all. destruct cs as [|c cs]; [done|]. split.
  - rewrite count_marks_Join by done. generalize (c :: cs). intros l.
    induction l as [|x l IH]; [done|]. cbn [fmap list_fmap sum_list_with concat].
    by rewrite IH, render_marks, length_app.
  - apply any_byte_Join; [done|]. apply Forall_forall. intros s Hs.
    apply list_elem_of_fmap in Hs as (x & -> & _). apply render_plain.
Qed.

(** * Every error of an ASCII filter is [ErrInvalidFilter] *)

Section errors.
Context (ParseFloat : string → option float64).

Definition filter_err {A} (r : result A) : Prop := ∀ e, r = Err e → e = ErrInvalidFilter.

Lemma filter_err_Ok {A} (a : A) : filter_err (Ok a).
Proof. by intros e. Qed.
Lemma filter_err_invalid {A} : filter_err (Err (A:=A) ErrInvalidFilter).
Proof. intros e. congruence. Qed.
Lemma filter_err_bind {A B} (r : result A) (f : A → result B) :
  filter_err r → (∀ a, r = Ok a → filter_err (f a)) → filter_err (r ≫= f).
Proof. intros Hr Hf. destruct r as [a|e]; simpl; [by apply Hf|]. intros e' [= <-]. by apply Hr. Qed.
Lemma filter_err_of_option {A} (o : option A) : filter_err (of_option ErrInvalidFilter o).
Proof. destruct o; [apply filter_err_Ok|apply filter_err_invalid]. Qed.

Hint Resolve filter_err_Ok filter_err_invalid filter_err_of_option : core.

Lemma slice_ok s i j :
  (i ≤ j ∧ j ≤ slen s)%nat → slice s i j = Ok (stake (j - i) (sdrop i s)).
Proof. intros. unfold slice. by rewrite decide_True. Qed.

Lemma ascii_stake n s : ascii_only s = true → ascii_only (stake n s) = true.
Proof. unfold ascii_only. rewrite !negb_true_iff. apply any_byte_stake. Qed.
Lemma ascii_sdrop n s : ascii_only s = true → ascii_only (sdrop n s) = true.
Proof. unfold ascii_only. rewrite !negb_true_iff. apply any_byte_sdrop. Qed.
Lemma ascii_TrimSpace s : ascii_only s = true → ascii_only (TrimSpace s) = true.
Proof. unfold ascii_only. rewrite !negb_true_iff. apply any_byte_TrimSpace. Qed.

(** An offset found in the upper-case text is an offset of the text. *)
Lemma Index_upper s p i :
  ascii_only s = true → Index (ToUpper s) p = Some i → (i + slen p ≤ slen s)%nat.
Proof. intros Hs Hi%Index_le. by rewrite slen_ToUpper_ascii in Hi. Qed.

Lemma Index_LastIndex_le s p i : LastIndex s p = Some i → (i + slen p ≤ slen s)%nat.
Proof.
  revert i. induction s as [|c s IH]; intros i; cbn [LastIndex].
  - destruct (HasPrefix "" p) eqn:E; [|done]. intros [= <-]. destruct p; [done|done].
  - destruct (LastIndex s p) as [j|] eqn:E; cbn [fmap option_fmap option_map].
    + intros [= <-]. specialize (IH j eq_refl). simpl. lia.
    + destruct (HasPrefix (String c s) p) eqn:Hp; [|done]. intros [= <-].
      apply HasPrefix_spec in Hp as [t Ht]. apply (f_equal slen) in Ht. rewrite slen_app in Ht.
      simpl in *. lia.
Qed.

Lemma in_values_err fuel s inQ cur vals : filter_err (in_values fuel s inQ cur vals).
Proof.
  revert s inQ cur vals. induction fuel as [|fuel IH]; intros s inQ cur vals; cbn [in_values].
  - destruct inQ; auto.
  - destruct s as [|c s]; [destruct inQ; auto|]. repeat case_match; auto.
Qed.

Lemma attr_of_err l c : filter_err (attr_of l c).
Proof. unfold attr_of. repeat case_match; auto. Qed.

Lemma tryParseIN_err c r : ascii_only c = true → tryParseIN c = Some r → filter_err r.
Proof.
  intros Hc. unfold tryParseIN. destruct (Index (ToUpper c) " IN (") as [i|] eqn:Hi; [|done].
  apply Index_upper in Hi; [|done]. simpl in Hi. intros [= <-].
  rewrite !slice_ok by lia. cbn [mbind result_bind].
  destruct (LastIndex _ ")") as [j|] eqn:Hj; [|auto]. apply Index_LastIndex_le in Hj. simpl in Hj.
  rewrite slice_ok by lia. cbn [mbind result_bind]. apply filter_err_bind.
  - unfold parseINValues. case_decide; auto using in_values_err.
  - intros vals _. repeat case_match; auto. apply filter_err_bind; auto using attr_of_err.
Qed.

Lemma tryParseBETWEEN_err c r : ascii_only c = true → tryParseBETWEEN ParseFloat c = Some r → filter_err r.
Proof.
  intros Hc. unfold tryParseBETWEEN. destruct (Index (ToUpper c) " BETWEEN ") as [i|] eqn:Hi; [|done].
  apply Index_upper in Hi; [|done]. simpl in Hi. intros [= <-].
  rewrite !slice_ok by lia. cbn [mbind result_bind].
  set (rest := TrimSpace (stake (slen c - (i + 9)) (sdrop (i + 9) c))).
  assert (ascii_only rest = true) as Hrest by by apply ascii_TrimSpace, ascii_stake, ascii_sdrop.
  destruct (Index (ToUpper rest) " AND ") as [j|] eqn:Hj; [|auto].
  apply Index_upper in Hj; [|done]. simpl in Hj. rewrite !slice_ok by lia. cbn [mbind result_bind].
  unfold parse_num. repeat case_match; auto;
    repeat (apply filter_err_bind; [auto using attr_of_err|intros]); auto.
Qed.

Lemma try_op_err c op text r :
  ascii_only c = true → try_op ParseFloat c op text = Some r → filter_err r.
Proof.
  intros Hc. unfold try_op.
  destruct (if decide (op = FLike) then Index (ToUpper c) text else Index c text) as [i|] eqn:Hi; [|done].
  assert (i + slen text ≤ slen c)%nat as Hle by (case_decide; [by apply Index_upper|by apply Index_le]).
  rewrite !slice_ok by lia. unfold parse_num. repeat case_match; intros [= <-]; auto;
    apply filter_err_bind; auto using attr_of_err.
Qed.

Lemma parseRunPredicate_err c : ascii_only c = true → filter_err (parseRunPredicate ParseFloat c).
Proof.
  intros Hc. unfold parseRunPredicate.
  destruct (tryParseIN c) as [r|] eqn:E1; [by eapply tryParseIN_err|].
  destruct (tryParseBETWEEN ParseFloat c) as [r|] eqn:E2; [by eapply tryParseBETWEEN_err|].
  induction op_list as [|[op text] ops IH]; cbn [try_ops]; [auto|].
  destruct (try_op ParseFloat c op text) as [r|] eqn:E; [|done]. by eapply try_op_err.
Qed.

Lemma split_go_ok fuel s i last depth q b :
  ascii_only s = true → (last ≤ i)%nat → (last ≤ slen s)%nat →
  ∃ l, split_go fuel s (ToUpper s) i last depth q b = Ok l ∧ Forall (λ x, ascii_only x = true) l.
Proof.
  intros Hs. revert i last depth q b. induction fuel as [|fuel IH]; intros i last depth q b Hli Hl.
  { cbn [split_go]. rewrite slice_ok by lia. cbn. eexists. split; [done|].
    apply Forall_singleton. by apply ascii_stake, ascii_sdrop. }
  cbn [split_go]. destruct (decide (slen s ≤ i)%nat) as [Hi|Hi].
  { rewrite slice_ok by lia. cbn. eexists. split; [done|].
    apply Forall_singleton. by apply ascii_stake, ascii_sdrop. }
  cbv zeta. set (q' := if char_is _ _ then negb q else q). set (depth' := if negb q' && _ then depth + 1 else _).
  assert (∀ pat, ∃ x, upper_at s (ToUpper s) i pat = Ok x ∧ (x = true → i + slen pat ≤ slen s)%nat) as Hup.
  { intros pat. unfold upper_at. case_decide; [|by eexists]. rewrite slice_ok by (rewrite slen_ToUpper_ascii; [lia|done]).
    by eexists. }
  assert (∀ top pat, ∃ x, (if (top : bool) then upper_at s (ToUpper s) i pat else Ok false) = Ok x ∧
    (x = true → i + slen pat ≤ slen s)%nat) as Hup'.
  { intros [|] pat; [apply Hup|by exists false]. }
  destruct (Hup' (negb q' && (depth' =? 0)) " BETWEEN "%string) as (x1 & -> & _). cbn [mbind result_bind].
  destruct (Hup' (negb q' && (depth' =? 0)) " AND "%string) as (x2 & -> & Hx2). cbn [mbind result_bind].
  destruct x2; [|apply IH; lia]. specialize (Hx2 eq_refl). simpl in Hx2.
  destruct (b || x1); [apply IH; lia|]. rewrite slice_ok by lia. cbn [mbind result_bind].
  destruct (IH (i + 5)%nat (i + 5)%nat depth' q' false) as (l & -> & Hall); [lia|lia|].
  cbn. eexists. split; [done|]. constructor; [by apply ascii_stake, ascii_sdrop|done].
Qed.

Lemma parse_clauses_err l :
  Forall (λ x, ascii_only x = true) l → filter_err (parse_clauses ParseFloat l).
Proof.
  induction 1 as [|x l Hx Hl IH]; cbn [parse_clauses]; [auto|]. case_decide; [done|].
  apply filter_err_bind; [by apply parseRunPredicate_err, ascii_TrimSpace|]. intros a _.
  apply filter_err_bind; auto.
Qed.
End errors.

(** C21: parsing is total on ASCII text.  An ASCII filter is parsed or refused
    with [ErrInvalidFilter]: no slice is out of range, whatever the operators,
    quotes and parentheses, balanced or not. *)
Theorem parseRunFilter_total ParseFloat f :
  ascii_only f = true →
  (∃ cs, parseRunFilter ParseFloat f = Ok cs) ∨ parseRunFilter ParseFloat f = Err ErrInvalidFilter.
Proof.
  intros Hf. unfold parseRunFilter, splitOnAnd.
  destruct (split_go_ok (slen f) f 0 0 0 false false Hf) as (l & -> & Hl); [lia|lia|]. cbn.
  pose proof (parse_clauses_err ParseFloat l Hl) as He.
  destruct (parse_clauses ParseFloat l) as [cs|e]; [by left; exists cs|]. right. by rewrite (He e).
Qed.

(** The dotless i is one byte shorter in upper case, and the scan for AND
    then reads past the end of the upper-cased text. *)
Definition dotless_i : string := String (ascii_of_N 196) (String (ascii_of_N 177) EmptyString).

Theorem parseRunFilter_panics ParseFloat :
  parseRunFilter ParseFloat ("tags.k" +:+ dotless_i +:+ " = 1") = Err ErrPanic.
Proof. reflexivity. Qed.

(** An operator inside a quoted value is taken for the operator of the
    predicate when it comes first in the list of operators. *)
Theorem quoted_operator_misparsed ParseFloat :
  parseRunFilter ParseFloat ("params.x = " +:+ String quote_char ("a>=b" +:+ String quote_char "")) =
    Ok [CTable TParams ("x = " +:+ String quote_char "a") FGe "b"].
Proof. reflexivity. Qed.

(** * IN lists round-trip *)

(** A client quotes a value by doubling its quotes. *)
Fixpoint escape (s : string) : string :=
  match s with
  | EmptyString => EmptyString
  | String c s' => if bool_decide (c = quote_char) then String c (String c (escape s'))
                   else String c (escape s')
  end.

Definition quoted (v : string) : string := String quote_char (escape v +:+ String quote_char EmptyString).

Section in_roundtrip.
Definition starts_quote (s : string) : bool :=
  match s with String c _ => bool_decide (c = quote_char) | EmptyString => false end.

Lemma slen_skip_sep s : (slen (skip_sep s) ≤ slen s)%nat.
Proof. induction s as [|c s IH]; [done|]. cbn [skip_sep]. case_match; simpl; lia. Qed.

(** Inside quotes the value is read back up to its closing quote. *)
Lemma in_values_quoted v rest cur vals fuel :
  starts_quote rest = false →
  (slen (escape v +:+ String quote_char rest) ≤ fuel)%nat →
  ∃ fuel', (slen rest ≤ fuel')%nat ∧
    in_values fuel (escape v +:+ String quote_char rest) true cur vals =
    in_values fuel' (skip_sep rest) false EmptyString (vals ++ [srev cur +:+ v]).
Proof.
  intros Hrest. revert cur fuel. induction v as [|c v IH]; intros cur fuel Hf.
  - destruct fuel as [|fuel]; [simpl in Hf; lia|]. exists fuel. simpl in Hf. split; [lia|].
    cbn [escape String.append in_values]. rewrite bool_decide_eq_true_2, sapp_nil_r by done.
    destruct rest as [|c2 rest]; [done|]. cbn [starts_quote] in Hrest. by rewrite Hrest.
  - cbn [escape] in *. assert (srev cur +:+ String c v = srev (String c cur) +:+ v) as ->.
    { by rewrite srev_cons, sapp_assoc. }
    destruct (decide (c = quote_char)) as [->|Hc].
    + rewrite bool_decide_eq_true_2 in * by done.
      destruct fuel as [|fuel]; [simpl in Hf; lia|]. simpl in Hf.
      destruct (IH (String quote_char cur) fuel) as (fuel' & Hf' & IH'); [lia|].
      exists fuel'. split; [done|]. rewrite <- IH'. cbn [String.append in_values].
      by rewrite !bool_decide_eq_true_2 by done.
    + rewrite bool_decide_eq_false_2 in * by done.
      destruct fuel as [|fuel]; [simpl in Hf; lia|]. simpl in Hf.
      destruct (IH (String c cur) fuel) as (fuel' & Hf' & IH'); [lia|].
      exists fuel'. split; [done|]. rewrite <- IH'. cbn [String.append in_values].
      rewrite (bool_decide_eq_false_2 (c = quote_char)) by done. by rewrite andb_false_r.
Qed.

Definition quoted_list (vs : list string) : string := Join ", " (quoted <$> vs).

Lemma quoted_list_cons v v2 vs :
  quoted_list (v :: v2 :: vs) =
    String quote_char (escape v +:+ String quote_char (", " +:+ quoted_list (v2 :: vs))).
Proof. unfold quoted_list, Join, quoted. cbn. f_equal. by rewrite !sapp_assoc. Qed.

Lemma in_values_list vs fuel vals :
  (slen (quoted_list vs) ≤ fuel)%nat →
  in_values fuel (quoted_list vs) false EmptyString vals = Ok (vals ++ vs).
Proof.
  assert (∀ fuel vals, in_values fuel EmptyString false EmptyString vals = Ok vals) as Hnil by by intros [|?].
  revert fuel vals. induction vs as [|v vs IH]; intros fuel vals Hf.
  { rewrite app_nil_r. apply Hnil. }
  destruct fuel as [|fuel]; [by destruct vs; simpl in Hf; lia|]. destruct vs as [|v2 vs].
  - unfold quoted_list, Join, quoted in *. cbn -[in_values] in Hf |- *. rewrite sapp_nil_r in *.
    cbn [in_values]. rewrite bool_decide_eq_true_2 by done.
    destruct (in_values_quoted v EmptyString EmptyString vals fuel) as (fuel' & _ & ->); [done|lia|].
    apply Hnil.
  - rewrite quoted_list_cons in *. cbn [in_values]. rewrite bool_decide_eq_true_2 by done. cbn [String.length] in Hf.
    destruct (in_values_quoted v (", " +:+ quoted_list (v2 :: vs)) EmptyString vals fuel) as (fuel' & Hf' & ->);
      [done|lia|].
    assert (skip_sep (", " +:+ quoted_list (v2 :: vs)) = quoted_list (v2 :: vs)) as ->.
    { unfold quoted_list, Join, quoted. by destruct vs. }
    rewrite IH by (rewrite slen_app in Hf'; lia). cbn. by rewrite <- app_assoc.
Qed.

(** A quoted list starts and ends with a quote. *)
Lemma quoted_list_ends v vs :
  ∃ s t, quoted_list (v :: vs) = String quote_char s ∧ srev (quoted_list (v :: vs)) = String quote_char t.
Proof.
  assert (∃ x, quoted_list (v :: vs) = x +:+ String quote_char EmptyString) as [x Hx].
  { revert v. induction vs as [|v2 vs IH]; intros v.
    - exists (String quote_char (escape v)). unfold quoted_list, Join, quoted. cbn. by rewrite sapp_nil_r.
    - destruct (IH v2) as [x Hx].
      exists (String quote_char (escape v +:+ String quote_char (", " +:+ x))).
      rewrite quoted_list_cons, Hx. cbn. by rewrite sapp_assoc. }
  eexists _, (srev x). split; [unfold quoted_list, Join, quoted; cbn; reflexivity|].
  by rewrite Hx, srev_app_distr.
Qed.
End in_roundtrip.

(** The values of an IN list round-trip.  A non-empty list of values
    quoted with doubled quotes is read back unchanged by [parseINValues],
    commas, spaces, quotes and empty values included. *)
Theorem parseINValues_roundtrip v vs :
  parseINValues (quoted_list (v :: vs)) = Ok (v :: vs).
Proof.
  destruct (quoted_list_ends v vs) as (s & t & Hs & Ht). unfold parseINValues.
  rewrite TrimSpace_id.
  - rewrite decide_False by (rewrite Hs; done). by apply (in_values_list (v :: vs)).
  - rewrite Hs. by apply drop_space_ascii.
  - rewrite Ht. by apply drop_space_rev_ascii.
Qed.

Lemma parseRunFilter_total_witness :
  ∃ cs, parseRunFilter (λ _, None) "status = 'x' AND (tags.a" = Ok cs ∨
        parseRunFilter (λ _, None) "status = 'x' AND (tags.a" = Err ErrInvalidFilter.
Proof.
  destruct (parseRunFilter_total (λ _, None) "status = 'x' AND (tags.a") as [[cs H]|H].
  - reflexivity.
  - exists cs. by left.
  - exists []. by right.
Defined.
