(* ===== verification/Faultless.v ===== *)
(** * Calls that succeed

    The system calls of FileSystem.v without faults: names they accept, and the
    tree each leaves. *)

From S2P Require Import Prelude GoStrings Paths FileSystem Filter.

Open Scope Z_scope.

(** ** Names *)

(** Names that a system call accepts. *)
Definition nameable (l : list string) : Prop := Forall plain l ∧ Forall (λ x, has_nul x = false) l.

Lemma nameable_app l l' : nameable (l ++ l') ↔ nameable l ∧ nameable l'.
Proof. unfold nameable. rewrite !Forall_app. tauto. Qed.

Lemma has_nul_absolute l : nameable l → has_nul (absolute l) = false.
Proof. intros [_ Hn]. unfold has_nul, absolute. rewrite any_byte_app. apply orb_false_intro; [done|]. by apply any_byte_Join. Qed.

Lemma Join_plain_nonempty l : l ≠ [] → Forall plain l → Join "/" l ≠ EmptyString.
Proof. intros Hl Hp E. destruct Hp as [|x l Hx Hp]; [done|]. destruct x; [by destruct Hx|done]. Qed.

Lemma Clean_Join l : l ≠ [] → Forall plain l → Clean (Join "/" l) = Join "/" l ∧ IsAbs (Join "/" l) = false.
Proof.
  intros Hl Hp. assert (IsAbs (Join "/" l) = false) as Ha.
  { destruct Hp as [|x l Hx Hp]; [done|]. apply IsAbs_no_slash; apply Hx. }
  split; [|done]. unfold Clean. rewrite decide_False by by apply Join_plain_nonempty. rewrite Ha. cbv zeta.
  rewrite Split1_Join_single, resolve_plain; [|done|done|eapply Forall_impl; [done|]; by intros ? (_ & _ & _ & ?)].
  by rewrite decide_False by by apply Join_plain_nonempty.
Qed.

Lemma Abs_below wd dir l : IsAbs wd = true → dir ≠ EmptyString → l ≠ [] → Forall plain l →
  Abs wd (path_Join [dir; Join "/" l]) = absolute (abs_components wd dir ++ l).
Proof.
  intros Hwd Hd Hl Hp. rewrite Abs_join by done. cbn [mbind list_bind]. rewrite app_nil_r.
  rewrite Split1_Join_single; [|done|eapply Forall_impl; [done|]; by intros ? (_ & _ & _ & ?)].
  by rewrite resolve_plain_onto, reverse_involutive.
Qed.

(** ** Concrete trees *)

#[export] Instance plain_dec s : Decision (plain s).
Proof. unfold plain. apply _. Defined.
#[export] Instance nameable_dec l : Decision (nameable l).
Proof. unfold nameable. apply _. Defined.

Lemma tree_wf_of t : t !! [] = Some NDir →
  map_Forall (λ p _, (p = [] ∨ t !! removelast p = Some NDir) ∧ Forall plain p) t → tree_wf t.
Proof.
  intros H0 Hall. split_and!; [done|..].
  - intros p x [n Hp]. destruct (Hall _ _ Hp) as [[E|E] _]; [by destruct p|by rewrite removelast_last in E].
  - intros p [n Hp]. by destruct (Hall _ _ Hp).
Qed.

(** ** Calls that succeed *)

Definition ends_in {E A} (m : D E A) (d : Disk) (a : A) (t : gmap (list string) node) : Prop := ∃ k, m d = (inr a, mkDisk t k).

(** A missing entry of a directory. *)
Lemma lookup_missing t p : tree_wf t → t !! removelast p = Some NDir → t !! p = None → lookup_path t [] p = inl ENOENT.
Proof.
  intros Hwf. destruct p as [|x p _] using rev_ind; [intros _; by rewrite (proj1 Hwf)|]. rewrite removelast_last.
  assert (∀ rest pre, t !! (pre ++ rest) = Some NDir → t !! (pre ++ rest ++ [x]) = None → lookup_path t pre (rest ++ [x]) = inl ENOENT) as Hgen;
    [|apply (Hgen p [])].
  induction rest as [|y rest IH]; intros pre Hd Hn.
  - rewrite app_nil_r in Hd. cbn. rewrite Hd. change (pre ++ [] ++ [x]) with (pre ++ [x]) in Hn. by rewrite Hn.
  - cbn [lookup_path app]. assert (t !! pre = Some NDir) as -> by (apply (tree_wf_dir t pre (y :: rest)); [done|by rewrite Hd|done]).
    apply IH; rewrite <- ?app_assoc; [exact Hd|exact Hn].
Qed.

Section faultless.
Context `{Faults} (Hnf : ∀ n, io_fault n = false) {X : Type} {os : os_error → X}.

Lemma ends_in_ret {A} (a : A) d : ends_in (mret a : D X A) d a (dk_tree d).
Proof. exists (dk_tick d). by destruct d. Qed.

Lemma ends_in_bind {A B} (m : D X A) (f : A → D X B) d a t b t' :
  ends_in m d a t → (∀ k, ends_in (f a) (mkDisk t k) b t') → ends_in (m ≫= f) d b t'.
Proof. intros [k E] Hf. destruct (Hf k) as [k' E']. exists k'. unfold mbind, D_bind. by rewrite E. Qed.

Lemma ends_in_attempt {A} (m : D X A) d a t : ends_in m d a t → ends_in (attempt m) d (inr a) t.
Proof. intros [k E]. exists k. unfold attempt. by rewrite E. Qed.

Lemma ends_in_syscall {A} (f : Disk → (os_error + A) * gmap (list string) node) fault d a t :
  f d = (inr a, t) → ends_in (syscall os f fault) d a t.
Proof. intros E. exists (S (dk_tick d)). unfold syscall. by rewrite Hnf, E. Qed.

Lemma ends_in_Stat l d n : tree_wf (dk_tree d) → nameable l → dk_tree d !! l = Some n → ends_in (os_Stat os (absolute l)) d n (dk_tree d).
Proof.
  intros Hwf Hl Hn. unfold os_Stat. rewrite has_nul_absolute by done. apply ends_in_syscall.
  rewrite components_absolute by apply Hl. pose proof (lookup_root (dk_tree d) l Hwf) as Hr. destruct (lookup_path _ _ _); congruence.
Qed.

Lemma ends_in_ReadDir l d : nameable l → ends_in (ReadDir os (absolute l)) d (sort_by fst (children (dk_tree d) l)) (dk_tree d).
Proof. intros Hl. unfold ReadDir. apply ends_in_syscall. by rewrite components_absolute by apply Hl. Qed.

Lemma ends_in_Flush d : ends_in (Flush os) d tt (dk_tree d).
Proof. by apply ends_in_syscall. Qed.

(** The paths from below [pre] to [pre ++ rest]. *)
Definition on_way (pre rest q : list string) : Prop := pre `prefix_of` q ∧ pre ≠ q ∧ q `prefix_of` pre ++ rest.

Lemma on_way_iff pre rest q : on_way pre rest q ↔ ∃ r, q = pre ++ r ∧ r ≠ [] ∧ r `prefix_of` rest.
Proof.
  unfold on_way. split.
  - intros ([r ->] & Hne & Hp). exists r. split; [done|]. split; [intros ->; by rewrite app_nil_r in Hne|by apply prefix_app_inv in Hp].
  - intros (r & -> & Hne & Hp). split; [by apply prefix_app_r|]. split; [|by apply prefix_app].
    intros E. apply Hne. by apply (app_inv_head pre); rewrite app_nil_r.
Qed.
#[local] Instance on_way_dec pre rest q : Decision (on_way pre rest q).
Proof. unfold on_way. apply _. Defined.

(** The directories on the way to a path are made. *)
Lemma ends_in_mkdirs pre rest d :
  (∀ q, q `prefix_of` rest → q ≠ [] → dk_tree d !! (pre ++ q) = Some NDir ∨ dk_tree d !! (pre ++ q) = None) →
  ∃ t, ends_in (mkdirs os pre rest) d tt t ∧
    ∀ q, t !! q = if decide (on_way pre rest q) then Some NDir else dk_tree d !! q.
Proof.
  revert pre d. induction rest as [|x rest IH]; intros pre d Hd.
  { exists (dk_tree d). split; [apply ends_in_ret|]. intros q. rewrite decide_False; [done|]. rewrite on_way_iff. intros (r & _ & Hr & Hp). by apply prefix_nil_inv in Hp. }
  set (t1 := match dk_tree d !! (pre ++ [x]) with Some NDir => dk_tree d | _ => <[pre ++ [x] := NDir]> (dk_tree d) end).
  assert (∀ q, t1 !! q = if decide (q = pre ++ [x]) then Some NDir else dk_tree d !! q) as Ht1.
  { intros q. unfold t1. destruct (Hd [x]) as [E|E]; [apply prefix_cons, prefix_nil|done|..]; rewrite E; case_decide as Hq; subst; try done.
    - by rewrite lookup_insert_eq.
    - by rewrite lookup_insert_ne. }
  assert (∀ k, ∃ t, ends_in (mkdirs os (pre ++ [x]) rest) (mkDisk t1 k) tt t ∧
    ∀ q, t !! q = if decide (on_way (pre ++ [x]) rest q) then Some NDir else t1 !! q) as Hrest.
  { intros k. apply IH. intros q Hq Hne. cbn [dk_tree]. rewrite Ht1, <- app_assoc. case_decide; [by left|]. apply Hd; [by apply prefix_cons|done]. }
  assert (ends_in (syscall os (λ d, match dk_tree d !! (pre ++ [x]) with
      | Some NDir => (inr tt, dk_tree d) | Some (NFile _) => (inl ENOTDIR, dk_tree d) | None => (inr tt, <[pre ++ [x] := NDir]> (dk_tree d)) end)
    dk_tree) d tt t1) as [k Hs].
  { apply ends_in_syscall. unfold t1. destruct (Hd [x]) as [E|E]; [apply prefix_cons, prefix_nil|done|..]; by rewrite E. }
  destruct (Hrest k) as (t & [k' Hy] & Ht). exists t. split.
  { exists k'. cbn [mkdirs]. unfold mbind, D_bind. rewrite Hs. exact Hy. }
  intros q. rewrite Ht, Ht1. destruct (decide (on_way (pre ++ [x]) rest q)) as [(r & -> & Hr & Hp)%on_way_iff|Hno].
  - rewrite decide_True; [done|]. apply on_way_iff. exists (x :: r). split; [by rewrite <- app_assoc|]. split; [done|by apply prefix_cons].
  - case_decide as Hq.
    + rewrite decide_True; [done|]. apply on_way_iff. exists [x]. split; [done|]. split; [done|apply prefix_cons, prefix_nil].
    + rewrite decide_False; [done|]. rewrite on_way_iff. intros (r & -> & Hr & Hp). destruct r as [|y r]; [done|]. apply prefix_cons_inv_1 in Hp as Hy2. subst y.
      apply prefix_cons_inv_2 in Hp. destruct r as [|z r]; [done|]. apply Hno, on_way_iff. exists (z :: r). split; [by rewrite <- app_assoc|done].
Qed.

Lemma ends_in_MkdirAll l d : nameable l →
  (∀ q, q `prefix_of` l → q ≠ [] → dk_tree d !! q = Some NDir ∨ dk_tree d !! q = None) →
  ∃ t, ends_in (MkdirAll os (absolute l)) d tt t ∧ ∀ q, t !! q = if decide (q ≠ [] ∧ q `prefix_of` l) then Some NDir else dk_tree d !! q.
Proof.
  intros Hl Hd. unfold MkdirAll. rewrite has_nul_absolute, components_absolute by (done || apply Hl).
  destruct (ends_in_mkdirs [] l d Hd) as (t & Hy & Ht). exists t. split; [done|]. intros q. rewrite Ht. apply decide_ext. rewrite on_way_iff. cbn. naive_solver.
Qed.

Lemma parent_dir_some t l : tree_wf t → t !! removelast l = Some NDir → parent_dir t l = inr tt.
Proof.
  intros Hwf Hp. unfold parent_dir. pose proof (lookup_root t (removelast l) Hwf) as Hr. destruct (lookup_path _ _ _) as [|n]; [congruence|].
  assert (n = NDir) as -> by congruence. done.
Qed.

Lemma ends_in_OpenTrunc l d : tree_wf (dk_tree d) → nameable l → dk_tree d !! removelast l = Some NDir → dk_tree d !! l ≠ Some NDir →
  ends_in (OpenTrunc os (absolute l)) d tt (<[l := NFile EmptyString]> (dk_tree d)).
Proof.
  intros Hwf Hl Hp Hn. unfold OpenTrunc. rewrite has_nul_absolute by done. apply ends_in_syscall. rewrite components_absolute by apply Hl.
  rewrite parent_dir_some by done. by destruct (dk_tree d !! l) as [[]|].
Qed.

Lemma ends_in_Write l data c d : nameable l → dk_tree d !! l = Some (NFile c) → ends_in (Write os (absolute l) data) d tt (<[l := NFile data]> (dk_tree d)).
Proof. intros Hl Hc. unfold Write. apply ends_in_syscall. rewrite components_absolute by apply Hl. unfold put_file. by rewrite Hc. Qed.

Lemma ends_in_Rename p q c d : tree_wf (dk_tree d) → nameable p → nameable q → dk_tree d !! p = Some (NFile c) →
  dk_tree d !! removelast q = Some NDir → dk_tree d !! q ≠ Some NDir →
  ends_in (Rename os (absolute p) (absolute q)) d tt (<[q := NFile c]> (delete p (dk_tree d))).
Proof.
  intros Hwf Hp Hq Hc Hpar Hn. unfold Rename. apply ends_in_syscall. rewrite !components_absolute by (apply Hp || apply Hq).
  rewrite Hc, parent_dir_some by done. by destruct (dk_tree d !! q) as [[]|].
Qed.

(** A file is replaced by way of a file beside it. *)
Lemma ends_in_replace part p data d : tree_wf (dk_tree d) → nameable part → nameable p → part ≠ p → removelast part = removelast p →
  dk_tree d !! removelast p = Some NDir → dk_tree d !! part ≠ Some NDir → dk_tree d !! p ≠ Some NDir →
  ∃ t, ends_in (_ ← OpenTrunc os (absolute part); _ ← Write os (absolute part) data; _ ← Flush os; Rename os (absolute part) (absolute p)) d tt t ∧
    tree_wf t ∧ t !! p = Some (NFile data) ∧ t !! part = None ∧ ∀ q, q ≠ p → q ≠ part → t !! q = dk_tree d !! q.
Proof.
  intros Hwf Hpart Hp Hne Hrl Hpar Hnd Hnp. set (t1 := <[part := NFile EmptyString]> (dk_tree d)). set (t2 := <[part := NFile data]> t1).
  assert (removelast p ≠ part) as Hrp by (intros E; rewrite E in Hpar; done).
  assert (tree_wf t1) as Hwf1 by (apply insert_file_wf; [done|apply Hpart|apply parent_dir_some; [done|by rewrite Hrl]|done]).
  assert (t1 !! removelast p = Some NDir) as Hpar1 by (unfold t1; by rewrite lookup_insert_ne).
  assert (tree_wf t2) as Hwf2.
  { apply insert_file_wf; [done|apply Hpart|apply parent_dir_some; [done|by rewrite Hrl]|]. unfold t1. by rewrite lookup_insert_eq. }
  assert (t2 !! removelast p = Some NDir) as Hpar2 by (unfold t2; by rewrite lookup_insert_ne).
  assert (t2 !! p ≠ Some NDir) as Hnp2 by (unfold t2, t1; by rewrite !lookup_insert_ne).
  assert (t2 !! part = Some (NFile data)) as Hp2 by (unfold t2; apply lookup_insert_eq).
  exists (<[p := NFile data]> (delete part t2)). split.
  - eapply ends_in_bind; [apply ends_in_OpenTrunc; [done|done|by rewrite Hrl|done]|]. intros k1.
    eapply ends_in_bind; [apply (ends_in_Write part data EmptyString); [done|unfold t1; cbn; apply lookup_insert_eq]|]. intros k2.
    eapply ends_in_bind; [apply ends_in_Flush|]. intros k3. by apply (ends_in_Rename part p data (mkDisk t2 k3)).
  - split; [|split; [apply lookup_insert_eq|split; [rewrite lookup_insert_ne by done; apply lookup_delete_eq|]]].
    + assert (part ≠ []) as Hpn by (intros ->; by rewrite (proj1 Hwf) in Hnd).
      assert (tree_wf (delete part t2)) as Hwf3 by (apply tree_wf_delete; [done|done|intros y; by eapply file_no_children]).
      apply insert_file_wf; [done|apply Hp|apply parent_dir_some; [done|]|]; rewrite lookup_delete_ne by done; done.
    + intros q Hq1 Hq2. unfold t2, t1. by rewrite lookup_insert_ne, lookup_delete_ne, !lookup_insert_ne by done.
Qed.
End faultless.

