(* ===== verification/Events.v ===== *)
(** * The event log (internal/store/sqlite_events.go, write side)

    Every mutation of a run row or of a run tag appends an event whose JSON
    payload holds the state before the mutation.  [writeRunEvent],
    [captureRunBefore] and [readTagValue] are the helpers the mutation
    methods of Runs.v use; the JSON encoding is modelled by what it does to a
    value: [marshal] coerces strings to UTF-8, [unmarshal] reads every number
    back as a [float64]. *)

From S2P Require Import Prelude GoStrings Model Database.

Open Scope Z_scope.

Definition EventRunUpdate : string := "run_update".
Definition EventRunLifecycle : string := "run_lifecycle".
Definition EventRunParent : string := "run_parent".
Definition EventTagSet : string := "tag_set".
Definition EventTagDelete : string := "tag_delete".

(** The CHECK constraint of the [events] table. *)
Definition check_event_kind (k : string) : bool :=
  bool_decide (k ∈ [EventRunUpdate; EventRunLifecycle; EventRunParent; EventTagSet; EventTagDelete]).

(** ** JSON payloads *)

Definition payload : Type := list (string * jval).

(** [json.Marshal] of a payload; its keys are ASCII literals of the code. *)
Fixpoint marshal (v : jval) : jval :=
  match v with
  | JStr s => JStr (utf8_coerce s)
  | JObj fs => JObj ((λ '(k, x), (k, marshal x)) <$> fs)
  | _ => v
  end.

(** [json.Unmarshal] into [map[string]any]: numbers become [float64]. *)
Fixpoint unmarshal (v : jval) : jval :=
  match v with
  | JInt z => JNum (float64_round z)
  | JObj fs => JObj ((λ '(k, x), (k, unmarshal x)) <$> fs)
  | _ => v
  end.

Definition marshal_payload (p : payload) : payload :=
  (λ '(k, x), (k, marshal x)) <$> p.
Definition unmarshal_payload (p : payload) : payload :=
  (λ '(k, x), (k, unmarshal x)) <$> p.

(** [m[k]] on a decoded object. *)
Fixpoint jget (k : string) (p : payload) : option jval :=
  match p with
  | [] => None
  | (k', v) :: p' => if String.eqb k k' then Some v else jget k p'
  end.

(** The type assertions [v.(string)] and [v.(map[string]any)]. *)
Definition as_string (v : option jval) : option string :=
  match v with Some (JStr s) => Some s | _ => None end.
Definition as_object (v : option jval) : option payload :=
  match v with Some (JObj o) => Some o | _ => None end.

(** [int64(f)] of an integral [float64]; out of range the result of the
    amd64 conversion. *)
Definition int64_of_float (z : Z) : Z := if decide (in_int64 z) then z else int64_min.
#[global] Arguments int64_of_float : simpl never.

(** ** Helpers of the mutation methods *)

Section events.
Context `{Clock}.

Definition writeRunEvent (kind runID : string) (p : payload) : M unit :=
  now ← time_now;
  if check_event_kind kind then
    modify (λ d, set_events
      (serial_insert (mkEventRow now kind runID (marshal_payload p)) (events d)).2 d)
  else fail SqlCheck.
End events.

(** The map [captureRunBefore] builds from a run row. *)
Definition before_payload (r : RunRow) : payload :=
  [("status"%string, JStr (rr_status r));
   ("name"%string, JStr (coalesce (rr_name r)));
   ("lifecycle_stage"%string, JStr (rr_lifecycle_stage r));
   ("parent_run_id"%string, JStr (coalesce (rr_parent_run_id r)));
   ("end_time"%string, match rr_end_time r with Some t => JInt t | None => JNull end)].

Definition captureRunBefore (runID : string) : M (option payload) :=
  d ← get; mret (before_payload <$> runs d !! runID).

Definition readTagValue (runID key : string) : M (option string) :=
  d ← get; mret (tags d !! (runID, key)).

(** [payload := map[string]any{"key": .., "value": ..}] with the optional
    ["before"]. *)
Definition tag_payload (key value : string) (before : option string) : payload :=
  [("key"%string, JStr key); ("value"%string, JStr value)] ++
  match before with Some v => [("before"%string, JStr v)] | None => [] end.

Definition PruneEventsBefore (beforeMs : Z) : M Z :=
  d ← get;
  let gone := filter (λ '(_, e), evr_ts_ms e < beforeMs) (rows (events d)) in
  _ ← modify (set_events (serial_filter (λ '(_, e), ¬ evr_ts_ms e < beforeMs) (events d)));
  mret (Z.of_nat (size gone)).
