(* ===== verification/Runs.v ===== *)
(** * Runs and run tags (internal/store/sqlite.go, sqlite_lineage.go)

    The methods that change a run row or its tags.  Each reads the state it
    is about to overwrite before its transaction and writes it to the event
    log inside the transaction, as the code does; the transaction bodies are
    definitions of their own ([UpdateRun_tx], ...), so that an interleaving
    of two methods can be stated. *)

From S2P Require Import Prelude GoStrings Model Database Events.

Open Scope Z_scope.

Definition parentTag : string := "mlflow.parentRunId".
Definition archivedTag : string := "lmf.auto_archived".

(** ** Statements on [runs] and [tags] *)

Definition run_exists (d : DB) (id : string) : bool := bool_decide (is_Some (runs d !! id)).

Definition check_run (r : RunRow) : bool :=
  check_status (rr_status r) && check_lifecycle (rr_lifecycle_stage r) && check_kind (rr_run_kind r).

(** [INSERT INTO runs]: CHECK, then PRIMARY KEY, then FOREIGN KEY. *)
Definition insert_run (id : string) (r : RunRow) : M unit :=
  d ← get;
  if negb (check_run r) then fail SqlCheck
  else if run_exists d id then fail SqlUnique
  else if decide (is_Some (rows (experiments d) !! rr_experiment_id r))
  then modify (set_runs (<[id := r]> (runs d)))
  else fail SqlForeignKey.

(** [UPDATE runs SET ... WHERE id = ?]: the number of rows affected. *)
Definition update_run (id : string) (f : RunRow → RunRow) : M Z :=
  d ← get;
  match runs d !! id with
  | None => mret 0
  | Some r =>
      let r' := f r in
      if negb (check_run r') then fail SqlCheck
      else
        let fk_ok := match rr_parent_run_id r' with
                     | None => true
                     | Some p => bool_decide (rr_parent_run_id r' = rr_parent_run_id r) || run_exists d p
                     end in
        if fk_ok then _ ← modify (set_runs (<[id := r']> (runs d))); mret 1
        else fail SqlForeignKey
  end.

(** [INSERT INTO tags ... ON CONFLICT DO UPDATE]. *)
Definition upsert_tag (runID key value : string) : M unit :=
  d ← get;
  if run_exists d runID then modify (set_tags (<[(runID, key) := value]> (tags d)))
  else fail SqlForeignKey.

(** ** Row updates *)

Definition with_status (s : string) (r : RunRow) : RunRow :=
  mkRunRow (rr_experiment_id r) (rr_name r) s (rr_start_time r) (rr_end_time r)
    (rr_artifact_uri r) (rr_lifecycle_stage r) (rr_user_id r) (rr_source_type r)
    (rr_source_name r) (rr_run_kind r) (rr_parent_run_id r).
Definition with_end_time (t : option Z) (r : RunRow) : RunRow :=
  mkRunRow (rr_experiment_id r) (rr_name r) (rr_status r) (rr_start_time r) t
    (rr_artifact_uri r) (rr_lifecycle_stage r) (rr_user_id r) (rr_source_type r)
    (rr_source_name r) (rr_run_kind r) (rr_parent_run_id r).
Definition with_name (n : string) (r : RunRow) : RunRow :=
  mkRunRow (rr_experiment_id r) (Some n) (rr_status r) (rr_start_time r) (rr_end_time r)
    (rr_artifact_uri r) (rr_lifecycle_stage r) (rr_user_id r) (rr_source_type r)
    (rr_source_name r) (rr_run_kind r) (rr_parent_run_id r).
Definition with_lifecycle (s : string) (r : RunRow) : RunRow :=
  mkRunRow (rr_experiment_id r) (rr_name r) (rr_status r) (rr_start_time r) (rr_end_time r)
    (rr_artifact_uri r) s (rr_user_id r) (rr_source_type r)
    (rr_source_name r) (rr_run_kind r) (rr_parent_run_id r).
Definition with_parent (p : string) (r : RunRow) : RunRow :=
  mkRunRow (rr_experiment_id r) (rr_name r) (rr_status r) (rr_start_time r) (rr_end_time r)
    (rr_artifact_uri r) (rr_lifecycle_stage r) (rr_user_id r) (rr_source_type r)
    (rr_source_name r) (rr_run_kind r) (Some p).

(** [mapInsertErr] of [CreateRun], and the FK mapping of [SetTag]. *)
Definition mapInsertErr (e : err) : err :=
  match e with SqlUnique => ErrAlreadyExists | SqlForeignKey => ErrNotFound | _ => e end.
Definition mapParentErr (e : err) : err :=
  match e with SqlForeignKey => ErrNotFound | _ => e end.

(** ** Reads *)

(** The columns of [GetRun] and its scan. *)
Definition scan_run (id : string) (r : RunRow) : Run :=
  mkRun id (rr_experiment_id r) (coalesce (rr_name r)) (rr_status r) (rr_start_time r)
    (rr_end_time r) (rr_artifact_uri r) (rr_lifecycle_stage r) (coalesce (rr_user_id r))
    (coalesce (rr_source_type r)) (coalesce (rr_source_name r)) (rr_run_kind r)
    (coalesce (rr_parent_run_id r)).

Definition GetRun (id : string) : M Run :=
  d ← get; lift (of_option ErrNotFound (scan_run id <$> runs d !! id)).

(** [runs JOIN experiments ... WHERE r.id = ? AND e.workspace_id = ?]. *)
Definition getRunInWorkspace (runID workspaceID : string) : M Run :=
  d ← get;
  lift (of_option ErrNotFound (
    r ← runs d !! runID;
    e ← rows (experiments d) !! rr_experiment_id r;
    if decide (er_workspace_id e = workspaceID) then Some (scan_run runID r) else None)).

Definition GetRunInWorkspace (runID workspaceID : string) : M Run :=
  getRunInWorkspace runID (default_ws workspaceID).

(** The tags of one run, in scan order, and [GetTags] ([ORDER BY key]). *)
Definition tag_rows (d : DB) (runID : string) : list KV :=
  omap (λ '((r, k), v), if decide (r = runID) then Some (mkKV k v) else None)
    (map_to_list (tags d)).

Definition GetTags (runID : string) : M (list KV) :=
  d ← get; mret (sort_by kv_Key (tag_rows d runID)).

(** ** Mutations *)

Section mutations.
Context `{Clock}.

Definition write_before (kind runID : string) (before : option payload) : M unit :=
  match before with
  | Some b => writeRunEvent kind runID [("before"%string, JObj b)]
  | None => mret tt
  end.

Definition setParentRunID (runID parentRunID : string) : M unit :=
  if decide (parentRunID = EmptyString) then mret tt else
  before ← captureRunBefore runID;
  _ ← update_run runID (with_parent parentRunID);
  _ ← write_before EventRunParent runID before;
  tagBefore ← readTagValue runID parentTag;
  _ ← upsert_tag runID parentTag parentRunID;
  writeRunEvent EventTagSet runID (tag_payload parentTag parentRunID tagBefore).

Definition syncParentRunIDFromTag (runID tagValue : string) : M unit :=
  before ← captureRunBefore runID;
  _ ← update_run runID (with_parent tagValue);
  write_before EventRunParent runID before.

(** The defaults [CreateRun] fills in; [newID] is the result of
    [model.NewRunID]. *)
Definition default_to (s dflt : string) : string := if decide (s = EmptyString) then dflt else s.

Definition run_row (r : Run) : RunRow :=
  mkRunRow (run_ExperimentID r) (nilIfEmpty (run_Name r)) (run_Status r) (run_StartTime r)
    (run_EndTime r) (run_ArtifactURI r) (run_LifecycleStage r) (nilIfEmpty (run_UserID r))
    (nilIfEmpty (run_SourceType r)) (nilIfEmpty (run_SourceName r)) (run_Kind r) None.

(** Returns the run as [*r] is left for the caller. *)
Definition CreateRun (newID : string) (r : Run) : M Run :=
  let id := default_to (run_ID r) newID in
  start ← (if decide (run_StartTime r = 0) then time_now else mret (run_StartTime r));
  let r := mkRun id (run_ExperimentID r) (run_Name r) (default_to (run_Status r) StatusRunning)
             start (run_EndTime r)
             (default_to (run_ArtifactURI r) ("mlflow-artifacts:/" ++ id))
             (default_to (run_LifecycleStage r) LifecycleActive) (run_UserID r)
             (run_SourceType r) (run_SourceName r) (default_to (run_Kind r) KindClassic)
             (run_ParentRunID r) in
  if decide (run_ParentRunID r = EmptyString) then
    _ ← map_err mapInsertErr (insert_run id (run_row r)); mret r
  else
    transaction (
      _ ← map_err mapInsertErr (insert_run id (run_row r));
      _ ← map_err mapInsertErr (setParentRunID id (run_ParentRunID r));
      mret r).

(** The column list built by [UpdateRun]. *)
Definition update_cols (status : option string) (endTime : option Z) (name : option string)
    (r : RunRow) : RunRow :=
  let r := match status with Some s => with_status s r | None => r end in
  let r := match endTime with Some t => with_end_time (Some t) r | None => r end in
  match name with Some n => with_name n r | None => r end.

Definition UpdateRun_tx (id : string) (f : RunRow → RunRow) (kind : string)
    (before : option payload) : M unit :=
  transaction (
    n ← update_run id f;
    if decide (n = 0) then fail ErrNotFound else
    write_before kind id before).

Definition UpdateRun (id : string) (status : option string) (endTime : option Z)
    (name : option string) : M unit :=
  _ ← lift (guard_err (match status with Some s => negb (check_status s) | None => false end)
              ErrInvalidValue);
  if decide (status = None ∧ endTime = None ∧ name = None) then mret tt else
  before ← captureRunBefore id;
  UpdateRun_tx id (update_cols status endTime name) EventRunUpdate before.

Definition SetRunLifecycle (id stage : string) : M unit :=
  _ ← lift (guard_err (negb (check_lifecycle stage)) ErrInvalidValue);
  before ← captureRunBefore id;
  UpdateRun_tx id (with_lifecycle stage) EventRunLifecycle before.

Definition SetTag (runID : string) (t : KV) : M unit :=
  _ ← lift (invalidValue (ValidKey (kv_Key t)));
  _ ← assertRunExists runID;
  before ← readTagValue runID (kv_Key t);
  transaction (
    _ ← upsert_tag runID (kv_Key t) (kv_Value t);
    _ ← writeRunEvent EventTagSet runID (tag_payload (kv_Key t) (kv_Value t) before);
    when (bool_decide (kv_Key t = parentTag ∧ kv_Value t ≠ EmptyString))
      (map_err mapParentErr (syncParentRunIDFromTag runID (kv_Value t)))).

(** [parent]: the last [mlflow.parentRunId] of the batch. *)
Fixpoint last_parent (ts : list KV) (parent : string) : string :=
  match ts with
  | [] => parent
  | t :: ts' => last_parent ts' (if decide (kv_Key t = parentTag) then kv_Value t else parent)
  end.

Definition SetTags (runID : string) (ts : list KV) : M unit :=
  _ ← assertRunExists runID;
  d ← get;
  let beforeVals (k : string) := tags d !! (runID, k) in
  transaction (
    _ ← for_each (λ t,
          _ ← lift (invalidValue (ValidKey (kv_Key t)));
          upsert_tag runID (kv_Key t) (kv_Value t)) ts;
    _ ← for_each (λ t,
          writeRunEvent EventTagSet runID
            (tag_payload (kv_Key t) (kv_Value t) (beforeVals (kv_Key t)))) ts;
    let parent := last_parent ts EmptyString in
    when (bool_decide (parent ≠ EmptyString))
      (map_err mapParentErr (syncParentRunIDFromTag runID parent))).

Definition DeleteTag (runID key : string) : M unit :=
  before ← readTagValue runID key;
  transaction (
    d ← get;
    if decide (tags d !! (runID, key) = None) then fail ErrNotFound else
    _ ← modify (set_tags (delete (runID, key) (tags d)));
    match before with
    | Some v => writeRunEvent EventTagDelete runID
                  [("key"%string, JStr key); ("before"%string, JStr v)]
    | None => mret tt
    end).

(** ** The janitor *)

Definition stale (staleBefore : Z) (r : RunRow) : bool :=
  bool_decide (rr_status r = StatusRunning) && (rr_start_time r <? staleBefore) &&
  bool_decide (rr_lifecycle_stage r = LifecycleActive).

Definition archive_row (now : Z) (r : RunRow) : RunRow :=
  with_end_time (Some now) (with_status StatusFailed r).

(** The guarded UPDATE and the tag upsert of one run; whether it was
    archived. *)
Definition archive_one (now : Z) (id : string) : M bool :=
  d ← get;
  match runs d !! id with
  | Some r =>
      if decide (rr_status r = StatusRunning ∧ rr_lifecycle_stage r = LifecycleActive) then
        _ ← update_run id (archive_row now);
        _ ← upsert_tag id archivedTag "stale";
        mret true
      else mret false
  | None => mret false
  end.

Fixpoint archive_all (now : Z) (ids : list string) : M (list string) :=
  match ids with
  | [] => mret []
  | id :: ids' =>
      b ← archive_one now id;
      rest ← archive_all now ids';
      mret (if (b : bool) then id :: rest else rest)
  end.

(** [beforeState] and [beforeTag] were read ([captureRunBefore],
    [readTagValue]) from [d0], the database before the transaction. *)
Definition archive_event (d0 : DB) (id : string) : M unit :=
  _ ← write_before EventRunUpdate id (before_payload <$> runs d0 !! id);
  writeRunEvent EventTagSet id (tag_payload archivedTag "stale" (tags d0 !! (id, archivedTag))).

Definition ArchiveStaleRuns_tx (now : Z) (d0 : DB) (ids : list string) : M Z :=
  transaction (
    archived ← archive_all now ids;
    _ ← for_each (archive_event d0) archived;
    mret (Z.of_nat (length archived))).

Definition ArchiveStaleRuns (staleBefore : Z) : M Z :=
  now ← time_now;
  d ← get;
  let ids := (filter (λ '(_, r), stale staleBefore r) (map_to_list (runs d))).*1 in
  if decide (ids = []) then mret 0 else ArchiveStaleRuns_tx now d ids.
End mutations.
