(* ===== verification/Sample.v ===== *)
(** * Sample data

    A clock and a small database (one workspace, one experiment, one run with
    one tag) on which the witnesses of the theorems are evaluated. *)

From S2P Require Import Prelude GoStrings Model Database Events Runs.

Open Scope Z_scope.

#[export] Instance ex_clock : Clock := λ n, Z.min (1000 + 10 * Z.of_nat n) (2 ^ 52).

#[export] Instance ex_clock_ok : ClockOk.
Proof.
  split; unfold clock, ex_clock.
  - intros i j Hij. lia.
  - intros i. unfold float64_exact. lia.
Qed.

Definition ex_experiment : ExperimentRow :=
  mkExperimentRow "exp" "mlflow-artifacts:/1" LifecycleActive 1 1 "default".
Definition ex_run : RunRow :=
  mkRunRow 1 (Some "first"%string) StatusRunning 500 None "mlflow-artifacts:/r1" LifecycleActive None None None
    KindClassic None.
Definition ex_db : DB :=
  set_tags {[ ("r1", "a")%string := "1"%string ]}
    (set_runs {[ "r1"%string := ex_run ]}
      (set_experiments (serial_insert ex_experiment serial_empty).2 (seed_db 1))).
