(* ===== verification/RunData.v ===== *)
(** * What is logged on a run (internal/store/sqlite.go)

    Metrics with the trigger that maintains [metrics_latest], parameters,
    trace spans, evaluations and notes: the write methods, the reads and the
    key-set pagination of metric histories. *)

From S2P Require Import Prelude GoStrings Model Database Events Runs Sample.
From Stdlib Require Import Ascii.

Open Scope Z_scope.

(** ** Metrics *)

(** The trigger [trg_metrics_latest_ai]. *)
Definition trg_metrics_latest_ai (R : string) (m : Metric)
    (latest : gmap (string * string) (float64 * (Z * Z))) : gmap (string * string) (float64 * (Z * Z)) :=
  let new := (metric_Value m, (metric_Timestamp m, metric_Step m)) in
  match latest !! (R, metric_Key m) with
  | None => <[(R, metric_Key m) := new]> latest
  | Some (_, (t, s)) =>
      if (t <? metric_Timestamp m) || ((metric_Timestamp m =? t) && (s <=? metric_Step m))
      then <[(R, metric_Key m) := new]> latest else latest
  end.

(** [INSERT INTO metrics ... ON CONFLICT DO NOTHING]. *)
Definition insert_metric (R : string) (m : Metric) : M unit :=
  d ← get;
  let pk := (R, metric_Key m, (metric_Timestamp m, metric_Step m)) in
  if decide (is_Some (metrics d !! pk)) then mret tt
  else if run_exists d R then
    modify (λ d, set_metrics_latest (trg_metrics_latest_ai R m (metrics_latest d))
                   (set_metrics (<[pk := metric_Value m]> (metrics d)) d))
  else fail SqlForeignKey.

Section metrics.
Context `{Clock}.

Definition log_one (R : string) (m : Metric) : M unit :=
  _ ← lift (invalidValue (ValidKey (metric_Key m)));
  if IsNaN (metric_Value m) || IsInf (metric_Value m) then fail ErrInvalidValue else
  ts ← (if decide (metric_Timestamp m = 0) then time_now else mret (metric_Timestamp m));
  insert_metric R (mkMetric (metric_Key m) (metric_Value m) ts (metric_Step m)).

Definition LogMetrics (R : string) (ms : list Metric) : M unit :=
  if decide (ms = []) then mret tt else
  _ ← assertRunExists R;
  transaction (for_each (log_one R) ms).

Definition LogMetric (R : string) (m : Metric) : M unit := LogMetrics R [m].
End metrics.

(** The observations of a run, in scan order. *)
Definition metric_rows (d : DB) (R : string) : list Metric :=
  omap (λ '((r, k, (t, s)), v), if decide (r = R) then Some (mkMetric k v t s) else None)
    (map_to_list (metrics d)).

Definition obs (m : Metric) : Z * Z := (metric_Timestamp m, metric_Step m).

(** *** History *)

Definition encodeMetricPageToken (ts step : Z) : string :=
  FormatInt ts +:+ ":" +:+ FormatInt step.

Definition decodeMetricPageToken (tok : string) : result (Z * Z) :=
  '(a, b) ← of_option ErrOther (Cut tok ":");
  ts ← of_option ErrOther (ParseInt a);
  step ← of_option ErrOther (ParseInt b);
  Ok (ts, step).

(** The clause [timestamp > ? OR (timestamp = ? AND step > ?)]. *)
Definition after_token (cur : option (Z * Z)) (m : Metric) : bool :=
  match cur with
  | None => true
  | Some (ts, step) =>
      (ts <? metric_Timestamp m) || ((metric_Timestamp m =? ts) && (step <? metric_Step m))
  end.

(** [maxResults <= 0] means no limit; the empty token is the first page. *)
Definition GetMetricHistory (R key : string) (maxResults : Z) (pageToken : string) :
    M (list Metric * string) :=
  cur ← lift (if decide (pageToken = EmptyString) then Ok None else
              match decodeMetricPageToken pageToken with
              | Ok c => Ok (Some c)
              | Err _ => Err ErrInvalidFilter
              end);
  d ← get;
  let rows := sort_by obs (filter (λ m, metric_Key m = key ∧ after_token cur m = true) (metric_rows d R)) in
  if decide (0 < maxResults) then
    let out := take (Z.to_nat (maxResults + 1)) rows in
    if decide (maxResults < Z.of_nat (length out)) then
      let out := take (Z.to_nat maxResults) out in
      mret (out, match last out with
                 | Some m => encodeMetricPageToken (metric_Timestamp m) (metric_Step m)
                 | None => EmptyString
                 end)
    else mret (out, EmptyString)
  else mret (rows, EmptyString).

(** *** Latest values *)

(** [ORDER BY timestamp DESC, step DESC LIMIT 1] among the observations of
    [key], at or before [asOfMs] when it is positive. *)
Definition newest (ms : list Metric) (key : string) (asOfMs : Z) : option Metric :=
  head (sort_by (λ m, Desc (obs m))
    (filter (λ m, metric_Key m = key ∧ (0 < asOfMs → metric_Timestamp m ≤ asOfMs)) ms)).

Definition getLatestMetricsAsOf (R : string) (asOfMs : Z) : M (list Metric) :=
  d ← get;
  let ms := metric_rows d R in
  mret (sort_by metric_Key (filter (λ m, obs <$> newest ms (metric_Key m) asOfMs = Some (obs m)) ms)).

Definition GetLatestMetrics (R : string) : M (list Metric) := getLatestMetricsAsOf R 0.
Definition GetLatestMetricsAsOf (R : string) (asOfMs : Z) : M (list Metric) := getLatestMetricsAsOf R asOfMs.

(** ** Parameters *)

Definition LogParam (R : string) (p : Param) : M unit :=
  _ ← lift (invalidValue (ValidKey (param_Key p)));
  _ ← assertRunExists R;
  d ← get;
  match params d !! (R, param_Key p) with
  | None => if run_exists d R then modify (set_params (<[(R, param_Key p) := param_Value p]> (params d)))
            else fail SqlForeignKey
  | Some existing => if decide (existing = param_Value p) then mret tt else fail ErrAlreadyExists
  end.

Definition LogParams (R : string) (ps : list Param) : M unit := for_each (LogParam R) ps.

Definition param_rows (d : DB) (R : string) : list Param :=
  omap (λ '((r, k), v), if decide (r = R) then Some (mkParam k v) else None) (map_to_list (params d)).

Definition GetParams (R : string) : M (list Param) :=
  d ← get; mret (sort_by param_Key (param_rows d R)).

(** ** Trace spans *)

(** The row of a span; [newID] is the result of [model.NewSpanID]. *)
Definition span_ids (newID : string) (sp : Span) : string * string :=
  let id := default_to (span_ID sp) newID in (id, default_to (span_TraceID sp) id).

Definition span_row (trace : string) (sp : Span) : SpanRow :=
  mkSpanRow trace (nilIfEmpty (span_ParentID sp)) (nilIfEmpty (span_RunID sp)) (span_Name sp)
    (nilIfEmpty (span_Kind sp)) (span_StartTimeNS sp) (span_EndTimeNS sp)
    (nilIfEmpty (span_AttributesJSON sp)) (nilIfEmpty (span_EventsJSON sp))
    (nilIfEmpty (span_StatusCode sp)) (nilIfEmpty (span_StatusMessage sp)).

Definition run_ref_ok (d : DB) (run : option string) : bool :=
  match run with Some r => run_exists d r | None => true end.

(** [DO UPDATE SET ...]. *)
Definition span_update (old new : SpanRow) : SpanRow :=
  mkSpanRow (tr_trace_id old) (tr_parent_id old)
    (match tr_run_id old with Some r => Some r | None => tr_run_id new end)
    (tr_name old) (tr_span_kind old) (tr_start_time old) (tr_end_time new)
    (tr_attributes_json new) (tr_events_json new) (tr_status_code new) (tr_status_message new).

Definition insert_span (newID : string) (sp : Span) : M unit :=
  d ← get;
  let '(id, trace) := span_ids newID sp in
  let new := span_row trace sp in
  match traces d !! id with
  | None =>
      let parent_ok := match tr_parent_id new with
                       | Some p => bool_decide (p = id ∨ is_Some (traces d !! p))
                       | None => true
                       end in
      if parent_ok && run_ref_ok d (tr_run_id new)
      then modify (set_traces (<[id := new]> (traces d))) else fail SqlForeignKey
  | Some old =>
      if decide (tr_trace_id old = tr_trace_id new ∧
                 (tr_run_id old = tr_run_id new ∨ tr_run_id old = None)) then
        if run_ref_ok d (tr_run_id (span_update old new))
        then modify (set_traces (<[id := span_update old new]> (traces d))) else fail SqlForeignKey
      else fail ErrConflict
  end.

(** Each span comes with the id [NewSpanID] would give it. *)
Definition InsertSpans (spans : list (string * Span)) : M unit :=
  if decide (spans = []) then mret tt else
  transaction (for_each (λ '(newID, sp), insert_span newID sp) spans).

Definition scan_span (id : string) (r : SpanRow) : Span :=
  mkSpan id (tr_trace_id r) (coalesce (tr_parent_id r)) (coalesce (tr_run_id r)) (tr_name r)
    (coalesce (tr_span_kind r)) (tr_start_time r) (tr_end_time r) (coalesce (tr_attributes_json r))
    (coalesce (tr_events_json r)) (coalesce (tr_status_code r)) (coalesce (tr_status_message r)).

(** [ORDER BY start_time ASC]; ties, which SQL leaves open, by id. *)
Definition querySpans (where_ : SpanRow → bool) : M (list Span) :=
  d ← get;
  mret (sort_by (λ sp, (span_StartTimeNS sp, span_ID sp))
    ((λ '(id, r), scan_span id r) <$> filter (λ '(_, r), where_ r) (map_to_list (traces d)))).

Definition GetSpansByRun (R : string) : M (list Span) :=
  querySpans (λ r, bool_decide (tr_run_id r = Some R)).
Definition GetSpansByTrace (T : string) : M (list Span) :=
  querySpans (λ r, bool_decide (tr_trace_id r = T)).

(** ** Evaluations *)

Record Eval := mkEval {
  eval_RunID : string; eval_TargetRunIDs : list string; eval_DatasetRef : string;
  eval_Score : option float64; eval_MetricsJSON : string }.

(** SQLite stores a NaN as NULL. *)
Definition real_column (f : option float64) : option float64 :=
  match f with Some FNaN => None | _ => f end.

Definition CreateEval (e : Eval) : M unit :=
  _ ← assertRunExists (eval_RunID e);
  modify (λ d, set_evals (<[eval_RunID e := mkEvalRow (utf8_coerce <$> eval_TargetRunIDs e)
    (nilIfEmpty (eval_DatasetRef e)) (real_column (eval_Score e)) (nilIfEmpty (eval_MetricsJSON e))]>
    (evals d)) d).

Definition GetEval (R : string) : M Eval :=
  d ← get;
  lift (of_option ErrNotFound ((λ r, mkEval R (vr_target_run_ids r) (coalesce (vr_dataset_ref r))
    (vr_score r) (coalesce (vr_metrics_json r))) <$> evals d !! R)).

(** ** Notes *)

Section notes.
Context `{Clock}.

Definition SetRunNote (R content user : string) : M unit :=
  _ ← assertRunExists R;
  if decide (content = EmptyString) then modify (λ d, set_run_notes (delete R (run_notes d)) d) else
  now ← time_now;
  modify (λ d, set_run_notes (<[R := mkNoteRow content now (nilIfEmpty user)]> (run_notes d)) d).
End notes.

(** content, updated_by, updated_at *)
Definition GetRunNote (R : string) : M (string * string * Z) :=
  d ← get;
  lift (of_option ErrNotFound
    ((λ n, (nr_content n, coalesce (nr_updated_by n), nr_updated_at n)) <$> run_notes d !! R)).

(** * Metric histories *)

Section history.
Implicit Types (d : DB) (w : World).

Lemma elem_of_metric_rows d R m :
  m ∈ metric_rows d R ↔ metrics d !! (R, metric_Key m, obs m) = Some (metric_Value m).
Proof.
  unfold metric_rows. rewrite list_elem_of_omap, <- elem_of_map_to_list. split.
  - intros ([[[r k] [t s]] v] & Hin & Heq). case_decide; simplify_eq. done.
  - intros Hin. exists (R, metric_Key m, obs m, metric_Value m). destruct m. simpl in *.
    by rewrite decide_True.
Qed.

Lemma NoDup_metric_rows d R : NoDup ((λ m, (metric_Key m, obs m)) <$> metric_rows d R).
Proof.
  apply (NoDup_fmap_omap _ fst _ (λ '(k, o), (R, k, o))); [|apply NoDup_fst_map_to_list].
  intros [[[r k] [t s]] v] m Heq. case_decide; by simplify_eq/=.
Qed.

(** The observations of one metric have distinct (timestamp, step). *)
Definition history d R key : list Metric := filter (λ m, metric_Key m = key) (metric_rows d R).

Lemma NoDup_obs (P : Metric → Prop) `{∀ m, Decision (P m)} d R key :
  (∀ m, P m → metric_Key m = key) → NoDup (obs <$> filter P (metric_rows d R)).
Proof.
  intros HP. apply (NoDup_fmap_1 (pair key)). rewrite <- list_fmap_compose.
  assert ((pair key ∘ obs) <$> filter P (metric_rows d R) =
          (λ m, (metric_Key m, obs m)) <$> filter P (metric_rows d R)) as ->.
  { apply list_fmap_ext. intros i m Hm. apply list_elem_of_lookup_2 in Hm.
    apply list_elem_of_filter in Hm as [Hm _]. simpl. by rewrite (HP m Hm). }
  apply NoDup_fmap_filter, NoDup_metric_rows.
Qed.

Lemma NoDup_history d R key : NoDup (obs <$> history d R key).
Proof. by apply (NoDup_obs _ d R key). Qed.

Lemma after_token_spec cur m : after_token cur m = true ↔ after obs cur m.
Proof.
  destruct cur as [[t s]|]; [|done]. unfold after, cmp_lt, obs. simpl.
  rewrite orb_true_iff, andb_true_iff, !Z.ltb_lt, Z.eqb_eq.
  destruct (Z.compare_spec t (metric_Timestamp m)); rewrite ?Z.compare_lt_iff; naive_solver lia.
Qed.

Lemma filter_history d R key cur :
  filter (λ m, metric_Key m = key ∧ after_token cur m = true) (metric_rows d R) =
  filter (after obs cur) (history d R key).
Proof.
  unfold history. rewrite list_filter_filter. apply list_filter_iff.
  intros m. rewrite after_token_spec. tauto.
Qed.

Definition next_token (next : option (Z * Z)) : string :=
  match next with Some (ts, step) => encodeMetricPageToken ts step | None => EmptyString end.

(** One request is one page of the sorted history. *)
Lemma GetMetricHistory_page R key n tok cur w :
  0 < n →
  (if decide (tok = EmptyString) then Ok None else Some <$> decodeMetricPageToken tok) = Ok cur →
  GetMetricHistory R key n tok w =
    (let '(out, next) := page obs (Z.to_nat n) (history (w_db w) R key) cur in
     Ok (out, next_token next), w).
Proof.
  intros Hn Htok. unfold GetMetricHistory.
  assert ((if decide (tok = EmptyString) then Ok None else
           match decodeMetricPageToken tok with Ok c => Ok (Some c) | Err _ => Err ErrInvalidFilter end)
          = Ok cur) as ->.
  { case_decide; [done|]. by destruct (decodeMetricPageToken tok). }
  rewrite lift_Ok_bind, get_bind, filter_history. rewrite decide_True by done. unfold page.
  replace (Z.to_nat (n + 1)) with (S (Z.to_nat n)) by lia.
  set (out := take _ _). destruct (decide (n < Z.of_nat (length out))) as [Hlt|Hge].
  - rewrite (decide_True (P:=(Z.to_nat n < length out)%nat)) by lia.
    by destruct (last (take (Z.to_nat n) out)) as [m|].
  - by rewrite (decide_False (P:=(Z.to_nat n < length out)%nat)) by lia.
Qed.

(** ** Tokens *)

Lemma metric_token_roundtrip ts step :
  in_int64 ts → in_int64 step →
  decodeMetricPageToken (encodeMetricPageToken ts step) = Ok (ts, step).
Proof.
  intros Hts Hst. unfold decodeMetricPageToken, encodeMetricPageToken.
  change (":" +:+ FormatInt step) with (String ":"%char (FormatInt step)).
  rewrite Cut_app_not_in by by apply FormatInt_digits. simpl.
  by rewrite !ParseInt_FormatInt.
Qed.

Lemma metric_token_nonempty ts step : encodeMetricPageToken ts step ≠ EmptyString.
Proof.
  unfold encodeMetricPageToken. intros E%(f_equal slen). rewrite !slen_app in E. simpl in E. lia.
Qed.

(** A client that asks for [n] points at a time and follows the tokens. *)
Fixpoint history_pages (fuel : nat) R key (n : Z) (tok : string) w : option (list (list Metric)) :=
  match fuel with
  | O => None
  | S fuel' =>
      match (GetMetricHistory R key n tok w).1 with
      | Ok (out, next) =>
          if decide (next = EmptyString) then Some [out]
          else cons out <$> history_pages fuel' R key n next w
      | Err _ => None
      end
  end.

Definition int64_obs (m : Metric) : Prop := in_int64 (metric_Timestamp m) ∧ in_int64 (metric_Step m).

Lemma history_pages_eq fuel R key n tok cur w :
  0 < n → Forall int64_obs (history (w_db w) R key) →
  (if decide (tok = EmptyString) then Ok None else Some <$> decodeMetricPageToken tok) = Ok cur →
  history_pages fuel R key n tok w = pages obs fuel (Z.to_nat n) (history (w_db w) R key) cur.
Proof.
  intros Hn Hi. revert tok cur. induction fuel as [|fuel IH]; intros tok cur Htok; [done|].
  cbn [history_pages pages]. rewrite (GetMetricHistory_page _ _ _ _ cur) by done.
  destruct (page _ _ _ _) as [out [[ts step]|]] eqn:E; cbn [fst next_token]; [|by rewrite decide_True].
  rewrite decide_False by apply metric_token_nonempty. f_equal. apply IH.
  rewrite decide_False by apply metric_token_nonempty.
  apply page_next_in in E as (m & Hm & [= -> ->]). rewrite Forall_forall in Hi.
  destruct (Hi m Hm). by rewrite metric_token_roundtrip.
Qed.
End history.

(** Metric history pagination.  Following the page tokens of
    [GetMetricHistory] from the start ends after at most one request more
    than there are points, and the pages put together are the result of the
    unlimited request: every observation exactly once, in (timestamp, step)
    order. *)
Theorem metric_history_pages_complete R key n w :
  0 < n → Forall int64_obs (history (w_db w) R key) →
  ∃ ps, history_pages (S (length (history (w_db w) R key))) R key n "" w = Some ps ∧
        (GetMetricHistory R key 0 "" w).1 = Ok (concat ps, EmptyString) ∧
        StronglySorted (key_lt obs) (concat ps) ∧
        (∀ m, m ∈ concat ps ↔ metric_Key m = key ∧
                metrics (w_db w) !! (R, key, obs m) = Some (metric_Value m)).
Proof.
  intros Hn Hi. pose proof (NoDup_history (w_db w) R key) as Hd.
  destruct (pages_complete obs (Z.to_nat n) (history (w_db w) R key)) as (ps & Hps & Hc); [lia|done|].
  exists ps. rewrite (history_pages_eq _ _ _ _ _ None), Hc by done. split_and!; [done| | |].
  - unfold GetMetricHistory. rewrite decide_True, lift_Ok_bind, get_bind by done.
    rewrite filter_history, filter_all by done. by rewrite decide_False by lia.
  - by apply sort_by_lt.
  - intros m. rewrite elem_of_sort_by. unfold history.
    rewrite list_elem_of_filter, elem_of_metric_rows. naive_solver.
Qed.

(** The latest values of a run.  [GetLatestMetricsAsOf] returns, in key
    order, for every metric that has an observation at or before [asOfMs]
    (for every metric when [asOfMs <= 0]) exactly one observation, the one
    with the greatest (timestamp, step). *)
Theorem latest_metrics_correct R asOfMs w :
  ∃ out, (GetLatestMetricsAsOf R asOfMs w).1 = Ok out ∧
    StronglySorted (key_lt metric_Key) out ∧
    (let visible m := metrics (w_db w) !! (R, metric_Key m, obs m) = Some (metric_Value m) ∧
                      (0 < asOfMs → metric_Timestamp m ≤ asOfMs) in
     ∀ m, m ∈ out ↔ visible m ∧ ∀ m', visible m' → metric_Key m' = metric_Key m → cmp_le (obs m') (obs m)).
Proof.
  eexists. split; [done|].
  set (P := λ k m, metric_Key m = k ∧ (0 < asOfMs → metric_Timestamp m ≤ asOfMs)).
  assert (∀ k, NoDup ((λ m, Desc (obs m)) <$> filter (P k) (metric_rows (w_db w) R))) as Hd.
  { intros k. apply (NoDup_fmap_1 undesc). rewrite <- list_fmap_compose.
    apply (NoDup_obs (P k) _ _ k). by intros m [? _]. }
  assert (∀ k m, newest (metric_rows (w_db w) R) k asOfMs = Some m ↔
    (m ∈ metric_rows (w_db w) R ∧ P k m) ∧
    ∀ m', m' ∈ metric_rows (w_db w) R → P k m' → cmp_le (obs m') (obs m)) as Hnew.
  { intros k m. unfold newest. rewrite head_sort_by by apply Hd. rewrite list_elem_of_filter.
    setoid_rewrite list_elem_of_filter. unfold key_le, P. naive_solver. }
  assert (∀ m, m ∈ filter (λ m, obs <$> newest (metric_rows (w_db w) R) (metric_Key m) asOfMs = Some (obs m))
                     (metric_rows (w_db w) R) ↔
               newest (metric_rows (w_db w) R) (metric_Key m) asOfMs = Some m) as Hmem.
  { intros m. rewrite list_elem_of_filter. split.
    - intros [Hn Hm]. apply fmap_Some in Hn as (m' & Hn & Ho). rewrite Hn. f_equal.
      apply Hnew in Hn as [[Hm' [Hk _]] _]. rewrite elem_of_metric_rows in Hm, Hm'.
      destruct m, m'. simpl in *. unfold obs in *. simpl in *. by simplify_eq.
    - intros Hn. rewrite Hn. split; [done|]. apply Hnew in Hn as [[Hm _] _]. done. }
  split.
  - apply sort_by_lt. apply NoDup_fmap_2_strong.
    + intros m m' Hm Hm' Hk. rewrite Hmem in Hm, Hm'. rewrite Hk in Hm. congruence.
    + apply NoDup_filter, (NoDup_fmap_1 (λ m, (metric_Key m, obs m))), NoDup_metric_rows.
  - cbv zeta. intros m. rewrite elem_of_sort_by, Hmem, Hnew. setoid_rewrite elem_of_metric_rows.
    unfold P. naive_solver.
Qed.

(** * The materialised view of the latest values *)

(** [metrics_latest] holds, for every (run, key) with an observation, the
    one with the greatest (timestamp, step), and nothing else. *)
Definition latest_ok (d : DB) : Prop :=
  ∀ R k, match metrics_latest d !! (R, k) with
         | Some (v, o) => metrics d !! (R, k, o) = Some v ∧
                          ∀ o' v', metrics d !! (R, k, o') = Some v' → cmp_le o' o
         | None => ∀ o, metrics d !! (R, k, o) = None
         end.

Lemma trigger_guard (t s t' s' : Z) :
  (t <? t') || ((t' =? t) && (s <=? s')) = true ↔ cmp_le (t, s) (t', s').
Proof.
  unfold cmp_le. simpl. rewrite orb_true_iff, andb_true_iff, Z.ltb_lt, Z.eqb_eq, Z.leb_le.
  destruct (Z.compare_spec t t'), (Z.compare_spec s s'); split; intros; (done || lia || naive_solver lia).
Qed.

#[export] Instance insert_metric_latest R m : Preserves latest_ok (insert_metric R m).
Proof.
  intros [d n] Hd. unfold insert_metric. rewrite get_bind. simpl w_db.
  case_decide as Hpk; [done|]. case_match; [|done]. simpl w_db.
  rewrite <- eq_None_not_Some in Hpk. intros R' k. simpl.
  set (new := (metric_Value m, obs m)). specialize (Hd R' k) as HR. simpl in HR. unfold trg_metrics_latest_ai.
  destruct (decide ((R', k) = (R, metric_Key m))) as [[= -> ->]|Hne].
  - destruct (metrics_latest d !! (R, metric_Key m)) as [[v [t s]]|] eqn:E; try rewrite E in HR.
    + destruct ((t <? _) || _) eqn:Hg.
      * rewrite lookup_insert_eq. split; [by rewrite lookup_insert_eq|].
        apply trigger_guard in Hg. intros o' v'. rewrite lookup_insert_Some.
        intros [[[= <-] _]|[_ Ho']]; [by apply cmp_le_iff; right|].
        destruct HR as [_ HR]. apply HR in Ho'. by etransitivity.
      * rewrite E. destruct HR as [HR1 HR2]. split; [rewrite lookup_insert_ne; congruence|].
        intros o' v'. rewrite lookup_insert_Some. intros [[[= <-] _]|[_ Ho']]; [|by eapply HR2].
        destruct (decide (cmp_le (t, s) (obs m))) as [Hle|Hle].
        -- apply trigger_guard in Hle. congruence.
        -- rewrite cmp_le_iff. left. by apply cmp_lt_not_le.
    + rewrite lookup_insert_eq. split; [by rewrite lookup_insert_eq|].
      intros o' v'. rewrite lookup_insert_Some.
      intros [[[= <-] _]|[_ Ho']]; [by apply cmp_le_iff; right|]. rewrite HR in Ho'. done.
  - assert (∀ o, <[(R, metric_Key m, (metric_Timestamp m, metric_Step m)):=metric_Value m]> (metrics d) !! (R', k, o)
              = metrics d !! (R', k, o)) as Hm by (intros o; apply lookup_insert_ne; congruence).
    assert ((match metrics_latest d !! (R, metric_Key m) with
      | Some (_, (t, s)) =>
          if (t <? metric_Timestamp m) || ((metric_Timestamp m =? t) && (s <=? metric_Step m))
          then <[(R, metric_Key m) := new]> (metrics_latest d) else metrics_latest d
      | None => <[(R, metric_Key m) := new]> (metrics_latest d) end) !! (R', k) = metrics_latest d !! (R', k)) as Hl.
    { repeat case_match; rewrite ?lookup_insert_ne by congruence; done. }
    unfold new, obs in Hl. rewrite Hl. destruct (metrics_latest d !! (R', k)) as [[v o]|].
    + destruct HR as [HR1 HR2]. split; [by rewrite Hm|]. intros o' v'. rewrite Hm. apply HR2.
    + intros o. rewrite Hm. apply HR.
Qed.

Section log_metrics.
Context `{Clock}.

#[export] Instance log_one_latest R m : Preserves latest_ok (log_one R m).
Proof. unfold log_one. pres_auto. Qed.

#[export] Instance LogMetrics_latest R ms : Preserves latest_ok (LogMetrics R ms).
Proof.
  unfold LogMetrics, assertRunExists.
  assert (Preserves latest_ok (for_each (log_one R) ms)) by (apply for_each_pres; apply _). pres_auto.
Qed.

(** The view agrees with the query that computes the latest values. *)
Lemma latest_view_agrees d n R m out :
  latest_ok d → (GetLatestMetrics R (mkWorld d n)).1 = Ok out →
  m ∈ out ↔ metrics_latest d !! (R, metric_Key m) = Some (metric_Value m, obs m).
Proof.
  intros Hd Hout. destruct (latest_metrics_correct R 0 (mkWorld d n)) as (out' & Hout' & _ & Hin).
  assert (out' = out) as -> by (unfold GetLatestMetrics, GetLatestMetricsAsOf in *; congruence).
  rewrite Hin. clear Hin Hout Hout'. simpl. specialize (Hd R (metric_Key m)). split.
  - intros [[Hm _] Hmax]. destruct (metrics_latest d !! (R, metric_Key m)) as [[v o]|].
    + destruct Hd as [Hv Hle]. assert (obs m = o) as <-; [|congruence].
      apply (anti_symm cmp_le); [by eapply Hle|].
      destruct o as [t s].
      apply (Hmax (mkMetric (metric_Key m) v t s)); [split; [done|lia]|done].
    + by rewrite Hd in Hm.
  - intros E. rewrite E in Hd. destruct Hd as [Hv Hle]. split; [split; [done|lia]|].
    intros m' [Hm' _] Hk. rewrite Hk in Hm'. by eapply Hle.
Qed.

(** ** The effect of a batch *)

Definition metrics_grow (d d' : DB) : Prop :=
  ∀ pk v, metrics d !! pk = Some v → metrics d' !! pk = Some v.

Definition metric_pk (R : string) (m : Metric) : MetricKey :=
  (R, metric_Key m, (metric_Timestamp m, metric_Step m)).

Lemma insert_metric_exec R m w w' a :
  insert_metric R m w = (Ok a, w') →
  w_tick w' = w_tick w ∧ metrics_grow (w_db w) (w_db w') ∧ is_Some (metrics (w_db w') !! metric_pk R m).
Proof.
  unfold insert_metric. rewrite get_bind. case_decide as Hpk.
  { intros [= <- <-]. split_and!; [done|by intros pk v|exact Hpk]. }
  case_match; [|discriminate]. intros [= <- <-]. simpl. split_and!; [done| |].
  - intros pk v Hv. simpl. rewrite lookup_insert_ne; [done|]. intros <-. apply Hpk. eauto.
  - unfold metric_pk. rewrite lookup_insert_eq. eauto.
Qed.

Lemma log_one_exec R m w w' a :
  log_one R m w = (Ok a, w') →
  metrics_grow (w_db w) (w_db w') ∧
  invalidValue (ValidKey (metric_Key m)) = Ok tt ∧ is_finite (metric_Value m) = true ∧
  (metric_Timestamp m ≠ 0 → is_Some (metrics (w_db w') !! metric_pk R m)).
Proof.
  unfold log_one. intros Hx. apply bind_exec_Ok in Hx as ([] & w1 & Hv & Hx). injection Hv as Hv <-.
  destruct (IsNaN (metric_Value m) || IsInf (metric_Value m)) eqn:Hf; [discriminate|].
  apply bind_exec_Ok in Hx as (ts & w2 & Hts & Hx).
  assert (w_db w2 = w_db w) as Hd by (case_decide; injection Hts; by intros <- _).
  apply insert_metric_exec in Hx as (_ & Hg & Hpk). rewrite Hd in Hg. split_and!; [done|done| |].
  - by destruct (metric_Value m).
  - intros Hne. case_decide; [done|]. injection Hts as <- <-. done.
Qed.

(** A point that is already there changes nothing. *)
Lemma log_one_again R m w :
  invalidValue (ValidKey (metric_Key m)) = Ok tt → is_finite (metric_Value m) = true →
  metric_Timestamp m ≠ 0 → is_Some (metrics (w_db w) !! metric_pk R m) →
  log_one R m w = (Ok tt, w).
Proof.
  intros Hv Hf Ht Hpk. unfold log_one. rewrite Hv, lift_Ok_bind.
  destruct (metric_Value m); try done. cbn [IsNaN IsInf orb].
  rewrite decide_False, ret_bind by done. unfold insert_metric. rewrite get_bind.
  by rewrite decide_True.
Qed.

Lemma metrics_grow_refl d : metrics_grow d d.
Proof. by intros pk v. Qed.

Lemma metrics_grow_trans d1 d2 d3 : metrics_grow d1 d2 → metrics_grow d2 d3 → metrics_grow d1 d3.
Proof. unfold metrics_grow. auto. Qed.

Lemma log_all_exec R ms w w' a :
  for_each (log_one R) ms w = (Ok a, w') →
  metrics_grow (w_db w) (w_db w') ∧
  (Forall (λ m, metric_Timestamp m ≠ 0) ms → ∀ w'', metrics_grow (w_db w') (w_db w'') →
     for_each (log_one R) ms w'' = (Ok tt, w'')).
Proof.
  revert w. induction ms as [|m ms IH]; intros w Hx.
  { injection Hx as _ <-. split; [by intros pk v|]. by intros _ w'' _. }
  cbn [for_each] in *. apply bind_exec_Ok in Hx as (u & w1 & Ho & Hx).
  apply log_one_exec in Ho as (Hg & Hv & Hf & Hpk). apply IH in Hx as [Hg' Hx].
  split; [by eapply metrics_grow_trans|]. intros [Hm Hms]%Forall_cons w'' Hg''.
  erewrite bind_Ok; [by apply Hx|]. apply log_one_again; [done|done|done|].
  destruct (Hpk Hm) as [v Hpk']. eauto.
Qed.

Lemma run_exists_kept R ms w w' a :
  for_each (log_one R) ms w = (Ok a, w') → runs (w_db w') = runs (w_db w).
Proof.
  set (P d := runs d = runs (w_db w)). intros Hx.
  assert (∀ m, Preserves P (insert_metric R m)) as Hp.
  { intros m w0 Hw. unfold insert_metric. rewrite get_bind. case_decide; [done|]. by case_match. }
  assert (Preserves P (for_each (log_one R) ms)) as Hall.
  { apply for_each_pres. intros m _. unfold log_one. pres_auto. }
  specialize (Hall w eq_refl). by rewrite Hx in Hall.
Qed.
End log_metrics.

(** C20: the materialised view.  [LogMetrics] keeps [metrics_latest] equal to
    the latest observation of every (run, key), on success and on failure,
    and [GetLatestMetrics] returns exactly the rows of the view. *)
Theorem metrics_latest_view `{Clock} R ms w R' out m :
  latest_ok (w_db w) →
  let w' := (LogMetrics R ms w).2 in
  (GetLatestMetrics R' w').1 = Ok out →
  latest_ok (w_db w') ∧
  (m ∈ out ↔ metrics_latest (w_db w') !! (R', metric_Key m) = Some (metric_Value m, obs m)).
Proof.
  intros Hd w' Hout. assert (latest_ok (w_db w')) as Hd' by by apply LogMetrics_latest.
  split; [done|]. destruct w' as [d' n']. by eapply latest_view_agrees.
Qed.

(** [LogMetrics] is atomic and its retry is idempotent: a failed batch
    leaves the database as it was; a batch that succeeded keeps every
    observation that was there, and sending it again (with its timestamps)
    succeeds and changes nothing. *)
Theorem LogMetrics_atomic_idempotent `{Clock} R ms w r w' :
  LogMetrics R ms w = (r, w') →
  match r with
  | Err _ => w_db w' = w_db w
  | Ok _ => metrics_grow (w_db w) (w_db w') ∧
            (Forall (λ m, metric_Timestamp m ≠ 0) ms → LogMetrics R ms w' = (Ok tt, w'))
  end.
Proof.
  unfold LogMetrics. case_decide as Hms.
  { intros [= <- <-]. split; [by intros pk v|done]. }
  intros Hx.
  apply bind_exec in Hx as [([] & w1 & Ha & Hx)|(e & Ha & ->)].
  - unfold assertRunExists in Ha. rewrite get_bind in Ha. case_decide as Hr; [|done].
    injection Ha as <-. apply transaction_exec in Hx as [([] & -> & Hx)|(e & w2 & -> & _ & ->)]; [|done].
    pose proof (run_exists_kept _ _ _ _ _ Hx) as Hruns. apply log_all_exec in Hx as [Hg Hagain].
    split; [done|]. intros Hts. unfold assertRunExists. autorewrite with exec.
    rewrite Hruns, decide_True by done. autorewrite with exec.
    unfold transaction. by rewrite (Hagain Hts w' (metrics_grow_refl _)).
  - unfold assertRunExists in Ha. rewrite get_bind in Ha. case_decide; [done|]. by injection Ha as _ <-.
Qed.

(** * Parameters *)

(** Parameters are immutable.  Whatever [LogParam] answers, every
    parameter that was set keeps its value; success means the parameter now
    has the value sent, [ErrAlreadyExists] means it has another one, and
    every error leaves the database as it was. *)
Theorem LogParam_immutable R p w :
  let '(r, w') := LogParam R p w in
  (∀ pk v, params (w_db w) !! pk = Some v → params (w_db w') !! pk = Some v) ∧
  match r with
  | Ok _ => params (w_db w') !! (R, param_Key p) = Some (param_Value p)
  | Err ErrAlreadyExists =>
      w' = w ∧ ∃ v, params (w_db w) !! (R, param_Key p) = Some v ∧ v ≠ param_Value p
  | Err _ => w' = w
  end.
Proof.
  unfold LogParam. destruct (invalidValue (ValidKey (param_Key p))) as [[]|e] eqn:Hv.
  2:{ rewrite lift_Err_bind. split; [done|]. unfold invalidValue in Hv. by destruct (ValidKey _); simplify_eq. }
  rewrite lift_Ok_bind. unfold assertRunExists. autorewrite with exec.
  destruct (decide (is_Some (runs (w_db w) !! R))) as [Hr|Hr]; autorewrite with exec; [|done].
  destruct (params (w_db w) !! (R, param_Key p)) as [v|] eqn:Hp.
  - case_decide as He; [by subst|]. simpl. eauto.
  - unfold run_exists. rewrite bool_decide_eq_true_2 by done. simpl. split.
    + intros pk v Hpk. rewrite lookup_insert_ne; [done|]. congruence.
    + apply lookup_insert_eq.
Qed.

(** [LogParams] is documented as atomic, but a batch that fails keeps the
    parameters before the failing one. *)
Theorem LogParams_not_atomic :
  let '(r, w') := LogParams "r1" [mkParam "lr" "0.1"; mkParam "" "x"] (mkWorld ex_db 0) in
  r = Err ErrInvalidValue ∧ params (w_db w') !! ("r1", "lr")%string = Some "0.1"%string.
Proof. vm_compute. auto. Qed.

(** * Spans *)

Lemma insert_span_other id old R R' newID sp :
  span_RunID sp = R → R ≠ EmptyString → R' ≠ R → tr_run_id old = Some R' →
  Preserves (λ d, traces d !! id = Some old) (insert_span newID sp).
Proof.
  intros HR HRne Hne Hold [d n] Hd. unfold insert_span. rewrite get_bind. cbn [w_db] in *.
  destruct (span_ids newID sp) as [id' trace] eqn:Hids.
  destruct (traces d !! id') as [old'|] eqn:E.
  - case_decide as Hc; [|done]. case_match; [|done]. simpl. rewrite lookup_insert_ne; [done|].
    intros ->. rewrite E in Hd. injection Hd as ->. destruct Hc as [_ [Hc|Hc]]; [|congruence].
    rewrite Hold in Hc. simpl in Hc. unfold nilIfEmpty in Hc. rewrite HR in Hc.
    case_decide; congruence.
  - case_match; [|done]. simpl. rewrite lookup_insert_ne; [done|]. congruence.
Qed.

(** Span isolation.  A batch of spans of run [R] never changes a span of
    another run, even when the span ids collide. *)
Theorem InsertSpans_isolated R spans w id old R' :
  Forall (λ p, span_RunID p.2 = R) spans → R ≠ EmptyString →
  traces (w_db w) !! id = Some old → tr_run_id old = Some R' → R' ≠ R →
  traces (w_db (InsertSpans spans w).2) !! id = Some old.
Proof.
  intros Hsp HR Hid Hold Hne. rewrite Forall_forall in Hsp.
  assert (Preserves (λ d, traces d !! id = Some old) (InsertSpans spans)) as Hp; [|by apply Hp].
  unfold InsertSpans. case_decide; [apply _|]. apply transaction_pres, for_each_pres.
  intros [newID sp] Hin. eapply insert_span_other; [apply (Hsp _ Hin)|done..].
Qed.

(** * Witnesses *)

Definition ex_points : list Metric :=
  [mkMetric "loss" (FFin 30) 100 1; mkMetric "loss" (FFin 10) 300 3; mkMetric "loss" (FFin 20) 200 2;
   mkMetric "acc" (FFin 5) 150 0].
Definition ex_points_w : World := (LogMetrics "r1" ex_points (mkWorld ex_db 0)).2.

Lemma metric_history_pages_complete_witness :
  ∃ ps, history_pages 4 "r1" "loss" 2 "" ex_points_w = Some ps ∧
        concat ps = [mkMetric "loss" (FFin 30) 100 1; mkMetric "loss" (FFin 20) 200 2;
                     mkMetric "loss" (FFin 10) 300 3].
Proof.
  destruct (metric_history_pages_complete "r1" "loss" 2 ex_points_w) as (ps & Hps & Hall & _).
  - lia.
  - apply Forall_forall. intros m Hm. vm_compute in Hm.
    repeat (apply elem_of_cons in Hm as [->|Hm]; [split; vm_compute; split; discriminate|]).
    by apply elem_of_nil in Hm.
  - exists ps. split; [exact Hps|]. 
    assert (Ok (concat ps, EmptyString) = Ok ([mkMetric "loss" (FFin 30) 100 1; mkMetric "loss" (FFin 20) 200 2;
                     mkMetric "loss" (FFin 10) 300 3], EmptyString)) as E by by rewrite <- Hall.
    congruence.
Defined.

Lemma ex_latest_ok : latest_ok (w_db (mkWorld ex_db 0)).
Proof. intros R k. simpl. rewrite lookup_empty. intros o. apply lookup_empty. Qed.

Lemma metrics_latest_view_witness :
  metrics_latest (w_db ex_points_w) !! ("r1", "loss")%string = Some (FFin 10, (300, 3)).
Proof.
  destruct (metrics_latest_view "r1" ex_points (mkWorld ex_db 0) "r1"
    [mkMetric "acc" (FFin 5) 150 0; mkMetric "loss" (FFin 10) 300 3]
    (mkMetric "loss" (FFin 10) 300 3)) as [_ [Hin _]].
  - apply ex_latest_ok.
  - vm_compute. reflexivity.
  - apply Hin. right. left.
Defined.

Lemma LogMetrics_atomic_idempotent_witness :
  LogMetrics "r1" ex_points ex_points_w = (Ok tt, ex_points_w).
Proof.
  apply (LogMetrics_atomic_idempotent "r1" ex_points (mkWorld ex_db 0) (Ok tt) ex_points_w).
  - vm_compute. reflexivity.
  - repeat constructor; done.
Defined.

Definition ex_span (R : string) : Span :=
  mkSpan "s1" "t1" "" R "step" "" 10 None "" "" "" "".
Definition ex_span_w : World := (InsertSpans [("x"%string, ex_span "r1")] (mkWorld ex_db 0)).2.

Lemma InsertSpans_isolated_witness :
  traces (w_db (InsertSpans [("x"%string, ex_span "r2")] ex_span_w).2) !! "s1"%string =
    Some (span_row "t1" (ex_span "r1")).
Proof.
  apply (InsertSpans_isolated "r2" _ _ _ _ "r1").
  - repeat constructor.
  - discriminate.
  - vm_compute. reflexivity.
  - vm_compute. reflexivity.
  - discriminate.
Defined.
