(* ===== verification/Downsample.v ===== *)
(** * LTTB downsampling (internal/store/downsample.go)

    Largest-Triangle-Three-Buckets: one representative per bucket of a metric
    history, chosen by float64 arithmetic.  An index outside the slice is
    [ErrPanic]. *)

From S2P Require Import Prelude GoStrings Model Float64 Database Runs RunData Sample.

Open Scope Z_scope.

(** [points[j]]. *)
Definition point (pts : list Metric) (j : Z) : result Metric :=
  of_option ErrPanic (if decide (j < 0) then None else pts !! Z.to_nat j).

(** [int(math.Floor(float64(i)*rangeLen/float64(bucketCount))) + 1]. *)
Definition bucket_bound (i rangeLen bucketCount : Z) : Z :=
  floor_int (fdiv (fmul (of_int i) (of_int rangeLen)) (of_int bucketCount)) + 1.

(** [if b >= n-1 { b = n-2 }]. *)
Definition clamp (n b : Z) : Z := if decide (n - 1 ≤ b) then n - 2 else b.

(** The indices [lo..hi] of a loop [for j := lo; j <= hi; j++]. *)
Definition loop (lo hi : Z) : list Z := seqZ lo (hi - lo + 1).

(** The sums over the next bucket. *)
Fixpoint sum_points (pts : list Metric) (js : list Z) (x y : float64) : result (float64 * float64) :=
  match js with
  | [] => Ok (x, y)
  | j :: js' => p ← point pts j; sum_points pts js' (fadd x (of_int (metric_Timestamp p))) (fadd y (metric_Value p))
  end.

Definition average (pts : list Metric) (n lo hi : Z) : result (float64 * float64) :=
  '(x, y) ← sum_points pts (loop lo hi) (FFin 0) (FFin 0);
  let count := Z.of_nat (length (loop lo hi)) in
  if decide (count = 0) then
    p ← point pts (n - 1); Ok (of_int (metric_Timestamp p), metric_Value p)
  else Ok (fdiv x (of_int count), fdiv y (of_int count)).

Definition area (a b : Metric) (avgX avgY : float64) : float64 :=
  let aX := of_int (metric_Timestamp a) in
  let aY := metric_Value a in
  let bX := of_int (metric_Timestamp b) in
  let bY := metric_Value b in
  fabs (fsub (fmul (fsub bX aX) (fsub avgY aY)) (fmul (fsub avgX aX) (fsub bY aY))).

(** The point of the bucket with the largest triangle, the first one on ties. *)
Fixpoint largest (pts : list Metric) (prev : Metric) (avgX avgY : float64) (js : list Z) (maxArea : float64)
    (bestIdx : Z) : result Z :=
  match js with
  | [] => Ok bestIdx
  | j :: js' =>
      b ← point pts j;
      let s := area prev b avgX avgY in
      if flt maxArea s then largest pts prev avgX avgY js' s j
      else largest pts prev avgX avgY js' maxArea bestIdx
  end.

(** One iteration of the loop over the buckets. *)
Definition select (pts : list Metric) (n bucketCount i : Z) (prev : Metric) : result Z :=
  let rangeLen := n - 2 in
  let bucketStart := bucket_bound i rangeLen bucketCount in
  let bucketEnd := clamp n (bucket_bound (i + 1) rangeLen bucketCount) in
  let nextBucketStart := bucketEnd + 1 in
  let nextBucketEnd := clamp n (bucket_bound (i + 2) rangeLen bucketCount) in
  '(avgX, avgY) ← average pts n nextBucketStart nextBucketEnd;
  largest pts prev avgX avgY (loop bucketStart bucketEnd) (of_int (-1)) bucketStart.

Fixpoint buckets (pts : list Metric) (n bucketCount : Z) (idx : list Z) (prev : Metric) : result (list Metric) :=
  match idx with
  | [] => Ok []
  | i :: idx' =>
      best ← select pts n bucketCount i prev;
      p ← point pts best;
      rest ← buckets pts n bucketCount idx' p;
      Ok (p :: rest)
  end.

Definition DownsampleLTTB (pts : list Metric) (target : Z) : result (list Metric) :=
  let n := Z.of_nat (length pts) in
  if decide (target < 3 ∨ n ≤ target) then Ok pts else
  let bucketCount := target - 2 in
  first ← point pts 0;
  middle ← buckets pts n bucketCount (seqZ 0 bucketCount) first;
  final ← point pts (n - 1);
  Ok (first :: middle ++ [final]).

Definition GetMetricHistoryDownsampled (R key : string) (target : Z) : M (list Metric * Z) :=
  '(all, _) ← GetMetricHistory R key 0 EmptyString;
  out ← lift (DownsampleLTTB all target);
  mret (out, Z.of_nat (length all)).

(** * The buckets *)

Lemma point_ok pts j : 0 ≤ j < Z.of_nat (length pts) → ∃ p, point pts j = Ok p ∧ pts !! Z.to_nat j = Some p.
Proof.
  intros Hj. unfold point. rewrite decide_False by lia.
  destruct (lookup_lt_is_Some_2 pts (Z.to_nat j)) as [p Hp]; [lia|]. rewrite Hp. by exists p.
Qed.

Lemma elem_of_loop lo hi j : j ∈ loop lo hi ↔ lo ≤ j ≤ hi.
Proof. unfold loop. rewrite elem_of_seqZ. lia. Qed.

Section lttb.
Context (pts : list Metric) (target : Z).
Let n := Z.of_nat (length pts).
Let B := target - 2.
Let L := n - 2.
Context (Hrange : 3 ≤ target < n) (Hsmall : (target - 1) * (n - 2) < 2 ^ 53).

Lemma bucket_bound_eq i : 0 ≤ i ≤ B + 1 → bucket_bound i L B = i * L / B + 1.
Proof.
  intros Hi. unfold bucket_bound. f_equal.
  assert (0 ≤ i * L < 2 ^ 53) as HiL by (unfold B, L in *; nia).
  rewrite fmul_int by (unfold B, L in *; nia). by apply floor_fdiv; unfold B, L in *; nia.
Qed.

(** First and last index of bucket [i]. *)
Definition lo (i : Z) : Z := i * L / B + 1.
Definition hi (i : Z) : Z := clamp n (lo (i + 1)).

Lemma lo_mono i j : 0 ≤ i ≤ j → 1 ≤ lo i ≤ lo j.
Proof.
  intros Hij. unfold lo. assert (0 ≤ i * L / B) by (apply Z.div_pos; unfold B, L in *; nia).
  assert (i * L / B ≤ j * L / B) by (apply Z.div_le_mono; unfold B, L in *; nia). lia.
Qed.

Lemma bucket_range i : 0 ≤ i < B → 1 ≤ lo i ≤ hi i ∧ hi i ≤ n - 2 ∧ hi i ≤ lo (i + 1).
Proof.
  intros Hi. pose proof (lo_mono i (i + 1)) as Hm. unfold hi, clamp.
  assert (lo i ≤ n - 2) as Hlast; [|case_decide; lia].
  unfold lo. assert (i * L / B < L - 1) as Hq by (apply Z.div_lt_upper_bound; unfold B, L in *; nia).
  unfold L in *. lia.
Qed.

Lemma sum_points_ok js x y :
  Forall (λ j, 0 ≤ j < n) js → ∃ r, sum_points pts js x y = Ok r.
Proof.
  intros Hjs. revert x y. induction Hjs as [|j js Hj _ IH]; intros x y; cbn; [eauto|].
  destruct (point_ok pts j Hj) as (p & -> & _). apply IH.
Qed.

Lemma average_ok a b : 0 ≤ a → b ≤ n - 2 → ∃ r, average pts n a b = Ok r.
Proof.
  intros Ha Hb. unfold average.
  destruct (sum_points_ok (loop a b) (FFin 0) (FFin 0)) as [[x y] ->].
  { apply Forall_forall. intros j Hj%elem_of_loop. lia. }
  cbn. case_decide; [|by eexists]. destruct (point_ok pts (n - 1)) as (p & -> & _); [unfold n in *; lia|]. cbn. by eexists.
Qed.

Lemma largest_ok prev avgX avgY js m best :
  Forall (λ j, 0 ≤ j < n) js → ∃ j, largest pts prev avgX avgY js m best = Ok j ∧ (j = best ∨ j ∈ js).
Proof.
  intros Hjs. revert m best. induction Hjs as [|j js Hj _ IH]; intros m best; cbn [largest]; [eauto|].
  destruct (point_ok pts j Hj) as (p & -> & _). cbn.
  destruct (flt m _); [edestruct (IH (area prev p avgX avgY) j) as (x & -> & Hx)|edestruct (IH m best) as (x & -> & Hx)];
    exists x; (split; [done|]); rewrite elem_of_cons; naive_solver.
Qed.

Lemma select_ok i prev : 0 ≤ i < B → ∃ j, select pts n B i prev = Ok j ∧ lo i ≤ j ≤ hi i.
Proof.
  intros Hi. destruct (bucket_range i Hi) as (H1 & H2 & H3). unfold select. fold L.
  rewrite !bucket_bound_eq by lia. change (i * L / B + 1) with (lo i). change (clamp n ((i + 1) * L / B + 1)) with (hi i).
  assert (clamp n ((i + 2) * L / B + 1) ≤ n - 2) as Hc by (unfold clamp; case_decide; lia).
  destruct (average_ok (hi i + 1) _ ltac:(lia) Hc) as [[x y] ->]. cbn.
  destruct (largest_ok prev x y (loop (lo i) (hi i)) (of_int (-1)) (lo i)) as (j & -> & Hj).
  { apply Forall_forall. intros j Hj%elem_of_loop. lia. }
  exists j. split; [done|]. destruct Hj as [->|Hj%elem_of_loop]; lia.
Qed.

Lemma buckets_ok k a prev :
  0 ≤ a → a + Z.of_nat k ≤ B →
  ∃ js out, buckets pts n B (seqZ a (Z.of_nat k)) prev = Ok out ∧
    Forall2 (λ i j, lo i ≤ j ≤ hi i) (seqZ a (Z.of_nat k)) js ∧ Forall2 (λ j p, pts !! Z.to_nat j = Some p) js out.
Proof.
  revert a prev. induction k as [|k IH]; intros a prev Ha Hk; [by exists [], []; repeat constructor|].
  rewrite (seqZ_cons a) by lia. replace (Z.pred (Z.of_nat (S k))) with (Z.of_nat k) by lia. cbn [buckets].
  destruct (select_ok a prev) as (j & -> & Hj); [lia|]. pose proof (bucket_range a) as Hr. cbn [mbind result_bind].
  destruct (point_ok pts j) as (p & Hp & Hlk); [unfold n in *; lia|]. rewrite Hp. cbn.
  destruct (IH (Z.succ a) p) as (js & out & -> & H1 & H2); [lia..|]. cbn.
  exists (j :: js), (p :: out). split_and!; [done|by constructor..].
Qed.

Lemma bucket_indices_sorted k a js :
  0 ≤ a → a + Z.of_nat k ≤ B → Forall2 (λ i j, lo i ≤ j ≤ hi i) (seqZ a (Z.of_nat k)) js →
  StronglySorted Z.le js ∧ Forall (λ j, lo a ≤ j ≤ n - 2) js.
Proof.
  revert a js. induction k as [|k IH]; intros a js Ha Hk.
  { intros ->%Forall2_nil_inv_l. by repeat constructor. }
  rewrite (seqZ_cons a) by lia. replace (Z.pred (Z.of_nat (S k))) with (Z.of_nat k) by lia.
  intros (j & js' & Hj & Hjs & ->)%Forall2_cons_inv_l. pose proof (bucket_range a) as Hr.
  destruct (IH (Z.succ a) js') as [Hs Hf]; [lia|lia|done|]. replace (Z.succ a) with (a + 1) in * by lia.
  split; constructor; [done| |lia|]; eapply Forall_impl; [exact Hf| |exact Hf|]; cbn; intros x Hx; lia.
Qed.
End lttb.

(** C19: LTTB downsampling.  A history that does not exceed the target, or a
    target below 3, is returned as it is.  Otherwise, for histories of up to
    2^53 / target points, no index leaves the slice and the result has exactly
    [target] points: points of the history in their order, the first and the
    last one included, the i-th one from the i-th bucket. *)
Theorem DownsampleLTTB_bounds pts target :
  let n := Z.of_nat (length pts) in
  (target < 3 ∨ n ≤ target → DownsampleLTTB pts target = Ok pts) ∧
  (3 ≤ target < n → (target - 1) * (n - 2) < 2 ^ 53 →
   ∃ out js, DownsampleLTTB pts target = Ok out ∧ Forall2 (λ j p, pts !! Z.to_nat j = Some p) js out ∧
     Z.of_nat (length out) = target ∧ StronglySorted Z.le js ∧
     head out = head pts ∧ last out = last pts ∧
     ∀ i j, 0 ≤ i < target - 2 → js !! Z.to_nat (i + 1) = Some j → lo pts target i ≤ j ≤ hi pts target i).
Proof.
  cbv zeta. set (n := Z.of_nat (length pts)). unfold DownsampleLTTB. fold n. split.
  { intros Hc. by rewrite decide_True. }
  intros Hr Hs. rewrite decide_False by lia. destruct (point_ok pts 0) as (p0 & -> & Hp0); [lia|]. cbn [mbind result_bind].
  destruct (buckets_ok pts target Hr Hs (Z.to_nat (target - 2)) 0 p0) as (js & out & Hb & Hjs & Hout); [lia..|].
  rewrite Z2Nat.id in * by lia. fold n in Hb. rewrite Hb. cbn [mbind result_bind].
  destruct (point_ok pts (n - 1)) as (p1 & -> & Hp1); [lia|]. cbn.
  destruct (bucket_indices_sorted pts target Hr Hs (Z.to_nat (target - 2)) 0 js) as [Hsort Hfor]; [lia|lia|by rewrite Z2Nat.id by lia|].
  pose proof (Forall2_length _ _ _ Hjs) as Hlen. rewrite length_seqZ in Hlen.
  pose proof (Forall2_length _ _ _ Hout) as Hlen'.
  exists (p0 :: out ++ [p1]), (0 :: js ++ [n - 1]). split_and!.
  - done.
  - constructor; [done|]. apply Forall2_app; [done|]. by repeat constructor.
  - cbn. rewrite length_app. cbn. lia.
  - constructor.
    + apply StronglySorted_app_2; [|done|by repeat constructor].
      intros x y Hx ->%list_elem_of_singleton. rewrite Forall_forall in Hfor. specialize (Hfor x Hx). cbn in Hfor. fold n in Hfor. lia.
    + apply Forall_app. split; [|by constructor; [lia|constructor]]. eapply Forall_impl; [exact Hfor|]. cbn. intros x Hx.
      pose proof (lo_mono pts target Hr 0 0). lia.
  - cbn. by destruct pts.
  - cbn. rewrite last_cons, last_snoc. symmetry. rewrite last_lookup. rewrite <- Hp1. f_equal. lia.
  - intros i j Hi. replace (Z.to_nat (i + 1)) with (S (Z.to_nat i)) by lia. intros Hj.
    change ((js ++ [n - 1]) !! Z.to_nat i = Some j) in Hj. rewrite lookup_app_l in Hj by lia.
    assert (seqZ 0 (target - 2) !! Z.to_nat i = Some i) as Hi' by (apply lookup_seqZ; lia).
    exact (Forall2_lookup_lr _ _ _ _ _ _ Hjs Hi' Hj).
Qed.

(** * Neighbouring buckets share a point

    The end of a bucket is the start of the next one: a peak on the border is
    returned twice when the history falls off in a straight line after it. *)
Definition peak (j : Z) : Metric := mkMetric "m" (of_int (if decide (j < 4) then 0 else 30 * (7 - j))) j j.

Lemma DownsampleLTTB_duplicates :
  DownsampleLTTB (peak <$> seqZ 0 8) 4 = Ok (peak <$> [0; 4; 4; 7]).
Proof. vm_compute. reflexivity. Qed.
