(* ===== verification/Experiments.v ===== *)
(** * Experiments (internal/store/sqlite.go, sqlite_lineage.go)

    Creation, reads, updates, tags, the project summary, cloning, and the
    paged search with its batched loading of tags. *)

From S2P Require Import Prelude GoStrings Model Database Batches Keyset Runs Sample.

Open Scope Z_scope.

Definition ProjectTagKey : string := "lmf.project".

(** ** Statements *)

(** The rows of a workspace called [name] (at most one, by UNIQUE). *)
Definition experiments_named (d : DB) (ws name : string) : list (Z * ExperimentRow) :=
  filter (λ p, er_workspace_id p.2 = ws ∧ er_name p.2 = name) (map_to_list (rows (experiments d))).

Definition insert_experiment (r : ExperimentRow) : M Z :=
  d ← get;
  if negb (check_lifecycle (er_lifecycle_stage r)) then fail SqlCheck
  else if decide (experiments_named d (er_workspace_id r) (er_name r) ≠ []) then fail SqlUnique
  else if decide (is_Some (workspaces d !! er_workspace_id r)) then
    let '(id, t) := serial_insert r (experiments d) in
    _ ← modify (set_experiments t); mret id
  else fail SqlForeignKey.

(** [UPDATE experiments SET ... WHERE id = ?]: rows affected. *)
Definition update_experiment (id : Z) (f : ExperimentRow → ExperimentRow) : M Z :=
  d ← get;
  match rows (experiments d) !! id with
  | None => mret 0
  | Some r =>
      let r' := f r in
      if negb (check_lifecycle (er_lifecycle_stage r')) then fail SqlCheck
      else if decide (Exists (λ p, p.1 ≠ id) (experiments_named d (er_workspace_id r') (er_name r')))
      then fail SqlUnique
      else _ ← modify (set_experiments (serial_set id r' (experiments d))); mret 1
  end.

Definition with_location (loc : string) (r : ExperimentRow) : ExperimentRow :=
  mkExperimentRow (er_name r) loc (er_lifecycle_stage r) (er_creation_time r)
    (er_last_update_time r) (er_workspace_id r).
Definition with_exp_name (n : string) (now : Z) (r : ExperimentRow) : ExperimentRow :=
  mkExperimentRow n (er_artifact_location r) (er_lifecycle_stage r) (er_creation_time r) now (er_workspace_id r).
Definition with_exp_stage (s : string) (now : Z) (r : ExperimentRow) : ExperimentRow :=
  mkExperimentRow (er_name r) (er_artifact_location r) s (er_creation_time r) now (er_workspace_id r).

(** ** Writes *)

Definition mapUnique (e : err) : err := match e with SqlUnique => ErrAlreadyExists | _ => e end.

Definition SetExperimentTag (id : Z) (key value : string) : M unit :=
  _ ← lift (invalidValue (ValidKey key));
  d ← get;
  if decide (is_Some (rows (experiments d) !! id))
  then modify (set_experiment_tags (<[(id, key) := value]> (experiment_tags d)))
  else fail SqlForeignKey.

Section experiments.
Context `{Clock}.

Definition CreateExperiment (e : Experiment) : M Z :=
  _ ← lift (invalidValue (ValidName (exp_Name e) 250));
  now ← time_now;
  let row := mkExperimentRow (exp_Name e) (exp_ArtifactLocation e)
    (default_to (exp_LifecycleStage e) LifecycleActive)
    (if decide (exp_CreationTime e = 0) then now else exp_CreationTime e)
    (if decide (exp_LastUpdateTime e = 0) then now else exp_LastUpdateTime e)
    (default_ws (exp_WorkspaceID e)) in
  id ← map_err mapUnique (insert_experiment row);
  _ ← when (bool_decide (exp_ArtifactLocation e = EmptyString))
        (_ ← update_experiment id (with_location ("mlflow-artifacts:/" +:+ FormatInt id)); mret tt);
  _ ← for_each (λ t, SetExperimentTag id (kv_Key t) (kv_Value t)) (exp_Tags e);
  mret id.

Definition rows_or_not_found (n : Z) : M unit := if decide (n = 0) then fail ErrNotFound else mret tt.

Definition UpdateExperiment (id : Z) (newName : option string) : M unit :=
  match newName with
  | None => mret tt
  | Some name =>
      _ ← lift (invalidValue (ValidName name 250));
      now ← time_now;
      n ← map_err mapUnique (update_experiment id (with_exp_name name now));
      rows_or_not_found n
  end.

Definition SetExperimentLifecycle (id : Z) (stage : string) : M unit :=
  _ ← lift (guard_err (negb (check_lifecycle stage)) ErrInvalidValue);
  now ← time_now;
  n ← update_experiment id (with_exp_stage stage now);
  rows_or_not_found n.
End experiments.

(** ** Reads *)

(** The table [experiment_tags] as (experiment_id, (key, value)) rows. *)
Definition exp_tag_scan (d : DB) : list (Z * KV) :=
  (λ '((i, k), v), (i, mkKV k v)) <$> map_to_list (experiment_tags d).

(** [SELECT key, value ... WHERE experiment_id = ? ORDER BY key]. *)
Definition getExperimentTags (d : DB) (id : Z) : list KV := one_query kv_Key (exp_tag_scan d) id.

Definition scan_experiment (id : Z) (r : ExperimentRow) (tags : list KV) : Experiment :=
  mkExperiment id (er_name r) (er_artifact_location r) (er_lifecycle_stage r) (er_creation_time r)
    (er_last_update_time r) (er_workspace_id r) tags.

(** [scanExperiment(row, withTags = true)] of the first row of a query. *)
Definition scanExperiment (d : DB) (q : list (Z * ExperimentRow)) : result Experiment :=
  match q with
  | [] => Err ErrNotFound
  | (id, r) :: _ => Ok (scan_experiment id r (getExperimentTags d id))
  end.

Definition GetExperiment (id : Z) : M Experiment :=
  d ← get; lift (scanExperiment d (match rows (experiments d) !! id with Some r => [(id, r)] | None => [] end)).

Definition GetExperimentByNameInWorkspace (workspaceID name : string) : M Experiment :=
  d ← get; lift (scanExperiment d (experiments_named d (default_ws workspaceID) name)).

Definition GetExperimentByName (name : string) : M Experiment :=
  GetExperimentByNameInWorkspace "default" name.

Definition CloneExperiment `{Clock} (srcID : Z) (newName workspaceID : string) : M Experiment :=
  src ← GetExperiment srcID;
  let ws := default_to workspaceID (exp_WorkspaceID src) in
  if decide (exp_WorkspaceID src ≠ ws) then fail ErrNotFound else
  id ← CreateExperiment (mkExperiment 0 newName "" "" 0 0 ws (exp_Tags src));
  GetExperiment id.

(** ** Projects *)

Record ProjectSummary := mkProjectSummary { proj_Name : string; proj_Count : Z }.

(** The project of every active experiment of the workspace. *)
Definition project_column (d : DB) (ws : string) : list string :=
  (λ p, coalesce (experiment_tags d !! (p.1, ProjectTagKey))) <$>
  filter (λ p, er_workspace_id p.2 = ws ∧ er_lifecycle_stage p.2 = LifecycleActive)
    (map_to_list (rows (experiments d))).

(** [GROUP BY project ORDER BY (project = '') ASC, project ASC]. *)
Definition ListProjects (workspaceID : string) : M (list ProjectSummary) :=
  d ← get;
  let col := project_column d (default_ws workspaceID) in
  mret (sort_by (λ p, (if decide (proj_Name p = EmptyString) then 1 else 0, proj_Name p))
    ((λ n, mkProjectSummary n (Z.of_nat (length (filter (.= n) col)))) <$> remove_dups col)).

(** ** Search *)

Record SearchOptions := mkSearchOptions {
  opt_ExperimentIDs : list Z; opt_LifecycleStage : string; opt_Filter : string;
  opt_OrderBy : list string; opt_MaxResults : Z; opt_PageToken : PageToken; opt_WorkspaceID : string }.

Definition clampResults (n : Z) : Z := if decide (n ≤ 0) then 1000 else Z.min n 50000.

(** [name = ?] or [name LIKE ?]. *)
Inductive name_op := NameEq | NameLike.

Definition parseExperimentFilter (f : string) : result (name_op * string) :=
  match Fields f with
  | "name"%string :: op :: v :: vs =>
      let val := Trim (TrimSpace (Join " " (v :: vs))) quotes in
      if decide (ToUpper op = "="%string) then Ok (NameEq, val)
      else if decide (ToUpper op = "LIKE"%string) then Ok (NameLike, val)
      else Err ErrInvalidFilter
  | _ => Err ErrInvalidFilter
  end.

Definition tagBatchSize : nat := Z.to_nat 500.

Definition add_tags (kvs : list KV) (e : Experiment) : Experiment :=
  mkExperiment (exp_ID e) (exp_Name e) (exp_ArtifactLocation e) (exp_LifecycleStage e)
    (exp_CreationTime e) (exp_LastUpdateTime e) (exp_WorkspaceID e) (exp_Tags e ++ kvs).

(** One [SELECT experiment_id, key, value ... WHERE experiment_id IN (...)
    ORDER BY experiment_id, key] per batch. *)
Definition loadExperimentTags (d : DB) (exps : list Experiment) : list Experiment :=
  load_batches exp_ID add_tags tagBatchSize (in_query kv_Key (exp_tag_scan d)) exps.

Definition exp_cols : list keysetCol := [mkKeysetCol "creation_time" true; mkKeysetCol "id" false].
Definition exp_vals (p : Z * ExperimentRow) : list sqlval := [SInt (er_creation_time p.2); SInt p.1].

Section search.
(** SQLite's LIKE: pattern, text. *)
Context (like : string → string → bool).

Definition name_matches (f : option (name_op * string)) (name : string) : bool :=
  match f with
  | None => true
  | Some (NameEq, v) => bool_decide (name = v)
  | Some (NameLike, v) => like v name
  end.

(** The WHERE clause without the cursor. *)
Definition search_rows (d : DB) (ws stage : string) (f : option (name_op * string)) :
    list (Z * ExperimentRow) :=
  filter (λ p, er_workspace_id p.2 = ws ∧ (stage = "all"%string ∨ er_lifecycle_stage p.2 = stage) ∧
               name_matches f (er_name p.2) = true) (map_to_list (rows (experiments d))).

Definition SearchExperiments (opt : SearchOptions) : M (list Experiment * PageToken) :=
  let n := clampResults (opt_MaxResults opt) in
  let stage := default_to (opt_LifecycleStage opt) LifecycleActive in
  let ws := default_ws (opt_WorkspaceID opt) in
  f ← lift (let f := TrimSpace (opt_Filter opt) in
            if decide (f = EmptyString) then Ok None else Some <$> parseExperimentFilter f);
  d ← get;
  '(out, token) ← lift (keyset_page exp_cols exp_vals (Z.to_nat n) (search_rows d ws stage f) (opt_PageToken opt));
  mret (loadExperimentTags d ((λ '(id, r), scan_experiment id r []) <$> out), token).
End search.

(** * Loading the tags of a page in batches *)

#[export] Instance add_tags_laws : AppendLaws exp_ID add_tags.
Proof.
  split; [intros []; unfold add_tags; simpl; by rewrite app_nil_r| |done].
  intros. unfold add_tags. simpl. by rewrite app_assoc.
Qed.

Lemma NoDup_exp_tag_scan d : NoDup (child_key kv_Key <$> exp_tag_scan d).
Proof.
  unfold exp_tag_scan. rewrite <- list_fmap_compose.
  rewrite (list_fmap_ext _ fst) by (by intros ? [[? ?] ?]). apply NoDup_fst_map_to_list.
Qed.

Lemma load_tags_eq d exps :
  NoDup (exp_ID <$> exps) →
  loadExperimentTags d exps = (λ e, add_tags (getExperimentTags d (exp_ID e)) e) <$> exps.
Proof.
  apply (load_batches_eq exp_ID add_tags); [unfold tagBatchSize; lia|].
  intros ks k. apply rows_of_in_query, NoDup_exp_tag_scan.
Qed.

(** Loading the tags of a page with one query per 500 experiments gives
    every experiment exactly its tags: after the load, [kv] is among the tags
    of an experiment iff it already was or it is a row of [experiment_tags]
    for it, and the loaded tags are those of [getExperimentTags], in key
    order. *)
Theorem loadExperimentTags_correct d exps :
  NoDup (exp_ID <$> exps) →
  loadExperimentTags d exps = (λ e, add_tags (getExperimentTags d (exp_ID e)) e) <$> exps ∧
  (∀ id, StronglySorted (key_lt kv_Key) (getExperimentTags d id)) ∧
  (∀ id kv, kv ∈ getExperimentTags d id ↔ experiment_tags d !! (id, kv_Key kv) = Some (kv_Value kv)).
Proof.
  intros Hnd. split_and!; [by apply load_tags_eq| |].
  - intros id. apply sort_by_lt, NoDup_one, NoDup_exp_tag_scan.
  - intros id [k v]. unfold getExperimentTags, one_query, exp_tag_scan.
    rewrite elem_of_sort_by, list_elem_of_fmap. setoid_rewrite list_elem_of_filter.
    setoid_rewrite list_elem_of_fmap. rewrite <- elem_of_map_to_list. split.
    + intros ([i kv] & -> & Hi & [[i' k'] v'] & [= -> ->] & Hp). cbn in *. by subst.
    + intros Hp. exists (id, mkKV k v). split; [done|]. split; [done|]. by exists (id, k, v).
Qed.

(** * Paging through a search *)

Section search_pages.
Context (like : string → string → bool).
Implicit Types (opt : SearchOptions) (w : World).

Definition with_token (tok : PageToken) opt : SearchOptions :=
  mkSearchOptions (opt_ExperimentIDs opt) (opt_LifecycleStage opt) (opt_Filter opt) (opt_OrderBy opt)
    (opt_MaxResults opt) tok (opt_WorkspaceID opt).

(** A client that repeats the request with the returned tokens. *)
Fixpoint experiment_pages (fuel : nat) opt (tok : PageToken) w : option (list (list Experiment)) :=
  match fuel with
  | O => None
  | S fuel' =>
      match (SearchExperiments like (with_token tok opt) w).1 with
      | Ok (out, NoToken) => Some [out]
      | Ok (out, next) => cons out <$> experiment_pages fuel' opt next w
      | Err _ => None
      end
  end.

(** What the request asks for: its rows, and each row as it is returned. *)
Definition opt_filter opt : result (option (name_op * string)) :=
  let f := TrimSpace (opt_Filter opt) in
  if decide (f = EmptyString) then Ok None else Some <$> parseExperimentFilter f.

Definition opt_rows opt (f : option (name_op * string)) (d : DB) : list (Z * ExperimentRow) :=
  search_rows like d (default_ws (opt_WorkspaceID opt))
    (default_to (opt_LifecycleStage opt) LifecycleActive) f.

Definition full_experiment (d : DB) (p : Z * ExperimentRow) : Experiment :=
  scan_experiment p.1 p.2 (getExperimentTags d p.1).

Lemma NoDup_opt_rows opt f d : NoDup (opt_rows opt f d).*1.
Proof. apply NoDup_fmap_filter, NoDup_fst_map_to_list. Qed.

Lemma load_page d l :
  NoDup l.*1 →
  loadExperimentTags d ((λ '(id, r), scan_experiment id r []) <$> l) = full_experiment d <$> l.
Proof.
  intros Hnd. rewrite load_tags_eq.
  - rewrite <- list_fmap_compose. apply list_fmap_ext. by intros i [id r] _.
  - rewrite <- list_fmap_compose. by rewrite (list_fmap_ext _ fst) by (by intros ? [? ?]).
Qed.

(** Any page of the table keeps distinct ids. *)
Lemma keyset_page_NoDup n (l : list (Z * ExperimentRow)) tok out next :
  NoDup l.*1 → keyset_page exp_cols exp_vals n l tok = Ok (out, next) → NoDup out.*1.
Proof.
  intros Hnd. unfold keyset_page. destruct (match tok with NoToken => Ok None | _ => _ end) as [pred|]; [|done].
  cbn. set (s := sort_by _ _).
  assert (NoDup s.*1) as Hs by (unfold s; rewrite sort_by_perm; by apply NoDup_fmap_filter).
  assert (∀ k, NoDup (take k s).*1) as Ht.
  { intros k. rewrite <- (take_drop k s) in Hs. rewrite fmap_app, NoDup_app in Hs. by destruct Hs. }
  case_decide; intros [= <- <-]; rewrite ?take_take; apply Ht.
Qed.

Lemma SearchExperiments_page opt f w tok :
  opt_filter opt = Ok f →
  (SearchExperiments like (with_token tok opt) w).1 =
    match keyset_page exp_cols exp_vals (Z.to_nat (clampResults (opt_MaxResults opt)))
            (opt_rows opt f (w_db w)) tok with
    | Ok (out, next) => Ok (full_experiment (w_db w) <$> out, next)
    | Err e => Err e
    end.
Proof.
  intros Hf. unfold SearchExperiments. cbn [opt_MaxResults opt_LifecycleStage opt_WorkspaceID opt_Filter
    opt_PageToken with_token]. fold (opt_filter opt). cbv zeta. rewrite Hf.
  rewrite lift_Ok_bind, get_bind.
  change (search_rows like (w_db w) (default_ws (opt_WorkspaceID opt)) (default_to (opt_LifecycleStage opt) LifecycleActive) f)
    with (opt_rows opt f (w_db w)).
  destruct (keyset_page _ _ _ _ _) as [[out next]|e] eqn:E; [|done].
  rewrite lift_Ok_bind. cbn. rewrite load_page; [done|].
  eapply keyset_page_NoDup; [apply NoDup_opt_rows|exact E].
Qed.

Definition full_pages (d : DB) (ps : list (list (Z * ExperimentRow))) : list (list Experiment) :=
  (λ p : list (Z * ExperimentRow), full_experiment d <$> p) <$> ps.

Lemma experiment_pages_eq fuel opt f w tok :
  opt_filter opt = Ok f →
  experiment_pages fuel opt tok w =
    full_pages (w_db w) <$>
      keyset_pages exp_cols exp_vals fuel (Z.to_nat (clampResults (opt_MaxResults opt)))
        (opt_rows opt f (w_db w)) tok.
Proof.
  intros Hf. revert tok. induction fuel as [|fuel IH]; intros tok; [done|].
  cbn [experiment_pages keyset_pages]. rewrite (SearchExperiments_page _ f) by done.
  destruct (keyset_page _ _ _ _ _) as [[out [| |vals]]|e]; cbn; try done;
    rewrite IH; by destruct (keyset_pages _ _ _ _ _ _).
Qed.

Lemma exp_cursor_safe p :
  float64_exact p.1 → float64_exact (er_creation_time p.2) → cursor_safe exp_cols exp_vals p.
Proof.
  intros H1 H2. split_and!; [done| |].
  - repeat constructor; discriminate.
  - unfold exp_vals. cbn [fmap list_fmap]. by rewrite !json_val_int.
Qed.

Definition key_id (k : sort_key) : Z :=
  match k with _ :: (_, SNum z) :: _ => z / scale | _ => 0 end.

Lemma NoDup_exp_keys l : NoDup l.*1 → NoDup (row_key exp_cols exp_vals <$> l).
Proof.
  intros Hnd. apply (NoDup_fmap_1 key_id). rewrite <- list_fmap_compose.
  rewrite (list_fmap_ext _ fst); [done|]. intros i [id r] _. cbn. apply Z.div_mul, Z.pow_nonzero; done.
Qed.
End search_pages.

(** Paging of [SearchExperiments].  For a filter that parses and ids and
    creation times below 2^53, a client that follows the page tokens ends,
    and the pages put together are exactly the experiments of the workspace
    that match, each once with all its tags, newest first (ties by id). *)
Theorem SearchExperiments_pages_complete like opt f w :
  opt_filter opt = Ok f →
  Forall (λ p, float64_exact p.1 ∧ float64_exact (er_creation_time p.2)) (opt_rows like opt f (w_db w)) →
  ∃ ps, experiment_pages like (S (length (opt_rows like opt f (w_db w)))) opt NoToken w = Some ps ∧
        concat ps = full_experiment (w_db w) <$>
                      sort_by (row_key exp_cols exp_vals) (opt_rows like opt f (w_db w)) ∧
        (∀ e, e ∈ concat ps → exp_WorkspaceID e = default_ws (opt_WorkspaceID opt)).
Proof.
  intros Hf Hsafe. pose proof (NoDup_opt_rows like opt f (w_db w)) as Hnd.
  destruct (keyset_pages_complete exp_cols exp_vals (Z.to_nat (clampResults (opt_MaxResults opt)))
    (opt_rows like opt f (w_db w))) as (ps & Hps & Hc).
  - eapply Forall_impl; [exact Hsafe|]. intros p [? ?]. by apply exp_cursor_safe.
  - unfold clampResults. case_decide; lia.
  - by apply NoDup_exp_keys.
  - exists (full_pages (w_db w) ps). rewrite (experiment_pages_eq _ _ _ f), Hps by done.
    assert (concat (full_pages (w_db w) ps) = full_experiment (w_db w) <$> concat ps) as ->.
    { clear. unfold full_pages. induction ps as [|p ps IH]; [done|].
      rewrite fmap_cons. cbn [concat]. by rewrite IH, fmap_app. }
    rewrite Hc. split_and!; [done|done|].
    intros e He. apply list_elem_of_fmap in He as (p & -> & Hp%elem_of_sort_by).
    by apply list_elem_of_filter in Hp as [[? _] _].
Qed.

(** * Creation *)

Section create.
Context `{Clock}.

Lemma insert_experiment_exec r w id w' :
  insert_experiment r w = (Ok id, w') →
  id = seq_no (experiments (w_db w)) + 1 ∧
  experiments_named (w_db w) (er_workspace_id r) (er_name r) = [] ∧
  is_Some (workspaces (w_db w) !! er_workspace_id r) ∧ check_lifecycle (er_lifecycle_stage r) = true ∧
  w' = mkWorld (set_experiments (serial_insert r (experiments (w_db w))).2 (w_db w)) (w_tick w).
Proof.
  unfold insert_experiment. rewrite get_bind. destruct (check_lifecycle _); cbn [negb]; [|discriminate].
  destruct (decide (_ ≠ [])) as [|Hn]; [discriminate|]. case_decide; [|discriminate].
  unfold serial_insert at 1. rewrite modify_bind. intros [= <- <-]. split_and!; try done. by apply dec_stable in Hn.
Qed.

(** Tags do not touch the experiments table. *)
Lemma set_tags_experiments id ts w w' a :
  for_each (λ t, SetExperimentTag id (kv_Key t) (kv_Value t)) ts w = (Ok a, w') →
  experiments (w_db w') = experiments (w_db w).
Proof.
  set (P d := experiments d = experiments (w_db w)). intros Hx.
  assert (Preserves P (for_each (λ t, SetExperimentTag id (kv_Key t) (kv_Value t)) ts)) as Hp.
  { apply for_each_pres. intros t _. unfold SetExperimentTag. apply bind_pres; [apply _|]. intros _.
    apply get_bind_pres. intros [d n] Hd. by case_decide. }
  specialize (Hp w eq_refl). by rewrite Hx in Hp.
Qed.

Lemma update_experiment_exec id f w n w' :
  update_experiment id f w = (Ok n, w') →
  (n = 0 ∧ w' = w ∧ rows (experiments (w_db w)) !! id = None) ∨
  (∃ r, n = 1 ∧ rows (experiments (w_db w)) !! id = Some r ∧
        w' = mkWorld (set_experiments (serial_set id (f r) (experiments (w_db w))) (w_db w)) (w_tick w)).
Proof.
  unfold update_experiment. rewrite get_bind.
  destruct (rows (experiments (w_db w)) !! id) as [r|]; [|intros [= <- <-]; by left].
  destruct (negb _); [discriminate|]. case_decide; [discriminate|].
  rewrite modify_bind. intros [= <- <-]. right. by exists r.
Qed.
End create.

(** Creating an experiment.  On success the new id was never used, the
    name was free in its workspace, and [GetExperiment] returns the
    experiment with its defaults filled in (workspace, stage, times, proxy
    artifact location); every other experiment is unchanged. *)
Theorem CreateExperiment_spec `{Clock} e w id w' :
  serial_wf (experiments (w_db w)) →
  CreateExperiment e w = (Ok id, w') →
  let ws := default_ws (exp_WorkspaceID e) in
  let now := clock (w_tick w) in
  rows (experiments (w_db w)) !! id = None ∧
  experiments_named (w_db w) ws (exp_Name e) = [] ∧
  (∀ i, i ≠ id → rows (experiments (w_db w')) !! i = rows (experiments (w_db w)) !! i) ∧
  ∃ got, (GetExperiment id w').1 = Ok got ∧
    exp_Name got = exp_Name e ∧ exp_WorkspaceID got = ws ∧
    exp_LifecycleStage got = default_to (exp_LifecycleStage e) LifecycleActive ∧
    exp_CreationTime got = (if decide (exp_CreationTime e = 0) then now else exp_CreationTime e) ∧
    exp_ArtifactLocation got =
      default_to (exp_ArtifactLocation e) ("mlflow-artifacts:/" +:+ FormatInt id).
Proof.
  intros Hwf Hx. cbv zeta. unfold CreateExperiment in Hx.
  apply bind_exec_Ok in Hx as ([] & w1 & Hv & Hx). injection Hv as _ <-. rewrite now_bind in Hx.
  apply bind_exec_Ok in Hx as (id' & w2 & Hi & Hx). apply map_err_exec_Ok, insert_experiment_exec in Hi.
  cbn [er_workspace_id er_name w_db] in Hi. destruct Hi as (-> & Hnamed & _ & _ & ->).
  apply bind_exec_Ok in Hx as ([] & w3 & Hloc & Hx).
  apply bind_exec_Ok in Hx as ([] & w4 & Ht & Hx). injection Hx as <- <-.
  apply set_tags_experiments in Ht. set (id := seq_no (experiments (w_db w)) + 1) in *.
  assert (∃ loc, loc = default_to (exp_ArtifactLocation e) ("mlflow-artifacts:/" +:+ FormatInt id) ∧
    rows (experiments (w_db w3)) = <[id := mkExperimentRow (exp_Name e) loc
      (default_to (exp_LifecycleStage e) LifecycleActive)
      (if decide (exp_CreationTime e = 0) then clock (w_tick w) else exp_CreationTime e)
      (if decide (exp_LastUpdateTime e = 0) then clock (w_tick w) else exp_LastUpdateTime e)
      (default_ws (exp_WorkspaceID e))]> (rows (experiments (w_db w)))) as (loc & Hl & Hrows).
  { unfold when, default_to in *. case_bool_decide as Hempty.
    - rewrite decide_True by done. apply bind_exec_Ok in Hloc as (n & w5 & Hu & Hr). injection Hr as <-.
      apply update_experiment_exec in Hu as [(_ & _ & Hn)|(r & _ & Hr & ->)]; cbn in *.
      { by rewrite lookup_insert_eq in Hn. }
      rewrite lookup_insert_eq in Hr. injection Hr as <-. eexists. split; [done|].
      cbn. by rewrite insert_insert_eq.
    - rewrite decide_False by done. injection Hloc as <-. eexists. by split. }
  split_and!; [by apply serial_fresh|done| |].
  - intros i Hne. rewrite Ht, Hrows. by rewrite lookup_insert_ne.
  - eexists. split.
    + unfold GetExperiment. rewrite get_bind, Ht, Hrows, lookup_insert_eq. reflexivity.
    + by rewrite <- Hl.
Qed.

(** The row of an experiment stays when one of its tags is refused: the
    caller gets an error, the experiment exists. *)
Theorem CreateExperiment_not_atomic :
  let e := mkExperiment 0 "second" "" "" 0 0 "" [mkKV "" "x"] in
  let '(r, w') := CreateExperiment e (mkWorld ex_db 0) in
  r = Err ErrInvalidValue ∧ is_ok (GetExperimentByName "second" w').1 = true.
Proof. vm_compute. auto. Qed.

(** * Witnesses *)

Definition ex_exp (name : string) (t : Z) : Experiment :=
  mkExperiment 0 name "" "" t 0 "" [mkKV "lmf.project" "p"; mkKV "k" name].
Definition ex_search_w : World :=
  (CreateExperiment (ex_exp "third" 30) (CreateExperiment (ex_exp "second" 20) (mkWorld ex_db 0)).2).2.
Definition ex_like (pat s : string) : bool := bool_decide (pat = s).
Definition ex_opt : SearchOptions := mkSearchOptions [] "" "" [] 1 NoToken "".

Lemma loadExperimentTags_correct_witness :
  exp_Tags <$> loadExperimentTags (w_db ex_search_w)
    [mkExperiment 3 "third" "" "" 0 0 "default" []; mkExperiment 2 "second" "" "" 0 0 "default" []] =
  [[mkKV "k" "third"; mkKV "lmf.project" "p"]; [mkKV "k" "second"; mkKV "lmf.project" "p"]].
Proof.
  destruct (loadExperimentTags_correct (w_db ex_search_w)
    [mkExperiment 3 "third" "" "" 0 0 "default" []; mkExperiment 2 "second" "" "" 0 0 "default" []]) as [-> _].
  - apply (bool_decide_unpack _). vm_compute. exact I.
  - vm_compute. reflexivity.
Defined.

Lemma SearchExperiments_pages_complete_witness :
  ∃ ps, experiment_pages ex_like 4 ex_opt NoToken ex_search_w = Some ps ∧
        exp_Name <$> concat ps = ["third"; "second"; "exp"]%string.
Proof.
  destruct (SearchExperiments_pages_complete ex_like ex_opt None ex_search_w) as (ps & Hps & Hc & _).
  - reflexivity.
  - apply (bool_decide_unpack _). vm_compute. exact I.
  - exists ps. split; [exact Hps|]. rewrite Hc. vm_compute. reflexivity.
Defined.

Lemma CreateExperiment_spec_witness :
  ∃ got, (GetExperiment 2 (CreateExperiment (ex_exp "second" 20) (mkWorld ex_db 0)).2).1 = Ok got ∧
         exp_ArtifactLocation got = "mlflow-artifacts:/2"%string.
Proof.
  destruct (CreateExperiment_spec (ex_exp "second" 20) (mkWorld ex_db 0) 2
    (CreateExperiment (ex_exp "second" 20) (mkWorld ex_db 0)).2) as (_ & _ & _ & got & Hgot & Hall).
  - apply serial_wf_insert, serial_wf_empty.
  - vm_compute. reflexivity.
  - exists got. split; [exact Hgot|]. destruct Hall as (_ & _ & _ & _ & ->). vm_compute. reflexivity.
Defined.
