(* ===== verification/Registry.v ===== *)
(** * The model registry (internal/store/registry.go)

    Registered models, their versions, tags, aliases and stages, with the
    [ON DELETE CASCADE] foreign keys of the schema, the searches with their
    filter parsers and page tokens, and the rename that cascades by hand. *)

From S2P Require Import Prelude GoStrings Model Database Batches Keyset Runs Experiments.

Open Scope Z_scope.

(** ** Rows that belong to a model

    The child tables of the registry have the (workspace, name) of their
    model at the front of their primary key. *)

Class ModelKeyed (K : Type) := {
  owner : K → string * string;
  with_owner : string * string → K → K;
  owner_with o k : owner (with_owner o k) = o;
  with_owner_id k : with_owner (owner k) k = k;
  with_owner_twice o1 o2 k : with_owner o1 (with_owner o2 k) = with_owner o1 k }.

#[export] Instance model_key : ModelKeyed (string * string).
Proof. by refine {| owner := λ k, k; with_owner := λ o _, o |}. Defined.

#[export] Instance child_model_key `{ModelKeyed K} {X : Type} : ModelKeyed (K * X).
Proof.
  refine {| owner := λ k, owner k.1; with_owner := λ o k, (with_owner o k.1, k.2) |}.
  - intros o [k x]. apply owner_with.
  - intros [k x]. cbn. by rewrite with_owner_id.
  - intros o1 o2 [k x]. cbn. by rewrite with_owner_twice.
Defined.

Section owned.
Context `{ModelKeyed K, Countable K} {V : Type}.
Implicit Types (t : gmap K V).

(** [ON DELETE CASCADE]. *)
Definition cascade (o : string * string) t : gmap K V := filter (λ p, owner p.1 ≠ o) t.

(** [UPDATE t SET name = ? WHERE workspace_id = ? AND name = ?]: the primary
    keys of the rows change, and must not be taken. *)
Definition renamed (o o' : string * string) (k : K) : K := if decide (owner k = o) then with_owner o' k else k.

Definition rename_rows (o o' : string * string) t : result (gmap K V) :=
  if decide (Exists (λ k, owner k = o ∧ is_Some (t !! with_owner o' k)) (map_to_list t).*1)
  then Err SqlUnique
  else Ok (kmap (renamed o o') t).
End owned.

(** ** Statements *)

Definition model_row (d : DB) (ws name : string) : option ModelRow := registered_models d !! (ws, name).

Definition insert_model (ws name : string) (r : ModelRow) : M unit :=
  d ← get;
  if decide (is_Some (model_row d ws name)) then fail SqlUnique
  else if decide (is_Some (workspaces d !! ws))
  then modify (set_registered_models (<[(ws, name) := r]> (registered_models d)))
  else fail SqlForeignKey.

Definition check_model_status (s : string) : bool := bool_decide (s ∈ ["READY"; "PENDING"; "FAILED"]%string).

Definition insert_version (ws name : string) (v : Z) (r : ModelVersionRow) : M unit :=
  d ← get;
  if negb (ValidStage (mvr_current_stage r) && check_model_status (mvr_status r)) then fail SqlCheck
  else if decide (is_Some (model_versions d !! (ws, name, v))) then fail SqlUnique
  else if decide (is_Some (model_row d ws name))
  then modify (set_model_versions (<[(ws, name, v) := r]> (model_versions d)))
  else fail SqlForeignKey.

Definition with_stage (s : string) (now : Z) (r : ModelVersionRow) : ModelVersionRow :=
  mkModelVersionRow (mvr_description r) (mvr_user_id r) s (mvr_source r) (mvr_run_id r) (mvr_status r)
    (mvr_status_message r) (mvr_creation_time r) now.
Definition with_mv_description (o : option string) (now : Z) (r : ModelVersionRow) : ModelVersionRow :=
  mkModelVersionRow o (mvr_user_id r) (mvr_current_stage r) (mvr_source r) (mvr_run_id r) (mvr_status r)
    (mvr_status_message r) (mvr_creation_time r) now.

(** [UPDATE model_versions SET ... WHERE workspace_id = ? AND name = ? AND version = ?]. *)
Definition update_version (ws name : string) (v : Z) (f : ModelVersionRow → ModelVersionRow) : M Z :=
  d ← get;
  match model_versions d !! (ws, name, v) with
  | None => mret 0
  | Some r =>
      if negb (ValidStage (mvr_current_stage (f r))) then fail SqlCheck
      else _ ← modify (set_model_versions (<[(ws, name, v) := f r]> (model_versions d))); mret 1
  end.

(** The tables of one workspace as (parent key, child) rows. *)
Definition model_tag_scan (d : DB) (ws : string) : list (string * KV) :=
  omap (λ '((w, n, k), v), if decide (w = ws) then Some (n, mkKV k v) else None)
    (map_to_list (registered_model_tags d)).
Definition model_alias_scan (d : DB) (ws : string) : list (string * ModelAlias) :=
  omap (λ '((w, n, a), v), if decide (w = ws) then Some (n, mkModelAlias a v) else None)
    (map_to_list (model_aliases d)).
Definition version_tag_scan (d : DB) (ws : string) : list (string * Z * KV) :=
  omap (λ '((w, n, v, k), x), if decide (w = ws) then Some ((n, v), mkKV k x) else None)
    (map_to_list (model_version_tags d)).
Definition version_alias_scan (d : DB) (ws : string) : list (string * Z * string) :=
  omap (λ '((w, n, a), v), if decide (w = ws) then Some ((n, v), a) else None)
    (map_to_list (model_aliases d)).

(** ** Reads of models *)

Definition getRegisteredModelTags (d : DB) (ws name : string) : list KV :=
  one_query kv_Key (model_tag_scan d ws) name.

Definition add_model_tags (kvs : list KV) (m : RegisteredModel) : RegisteredModel :=
  mkRegisteredModel (rm_WorkspaceID m) (rm_Name m) (rm_Description m) (rm_CreationTime m)
    (rm_LastUpdateTime m) (rm_Tags m ++ kvs) (rm_Aliases m).
Definition add_model_aliases (l : list ModelAlias) (m : RegisteredModel) : RegisteredModel :=
  mkRegisteredModel (rm_WorkspaceID m) (rm_Name m) (rm_Description m) (rm_CreationTime m)
    (rm_LastUpdateTime m) (rm_Tags m) (rm_Aliases m ++ l).

Definition loadRegisteredModelTags (d : DB) (ws : string) (ms : list RegisteredModel) : list RegisteredModel :=
  load_batches rm_Name add_model_tags tagBatchSize (in_query kv_Key (model_tag_scan d ws)) ms.
Definition loadRegisteredModelAliases (d : DB) (ws : string) (ms : list RegisteredModel) : list RegisteredModel :=
  load_batches rm_Name add_model_aliases tagBatchSize (in_query ma_Alias (model_alias_scan d ws)) ms.

Definition scanRegisteredModel (ws name : string) (r : ModelRow) : RegisteredModel :=
  mkRegisteredModel ws name (coalesce (mr_description r)) (mr_creation_time r) (mr_last_update_time r) [] [].

Definition GetRegisteredModel (workspaceID name : string) : M RegisteredModel :=
  let ws := default_ws workspaceID in
  d ← get;
  match model_row d ws name with
  | None => fail ErrNotFound
  | Some r =>
      let m := add_model_tags (getRegisteredModelTags d ws name) (scanRegisteredModel ws name r) in
      mret (default m (head (loadRegisteredModelAliases d ws [m])))
  end.

(** ** Reads of versions *)

Definition add_version_tags (kvs : list KV) (m : ModelVersion) : ModelVersion :=
  mkModelVersion (mv_WorkspaceID m) (mv_Name m) (mv_Version m) (mv_Description m) (mv_UserID m)
    (mv_CurrentStage m) (mv_Source m) (mv_RunID m) (mv_Status m) (mv_StatusMessage m)
    (mv_CreationTime m) (mv_LastUpdateTime m) (mv_Tags m ++ kvs) (mv_Aliases m).
Definition add_version_aliases (l : list string) (m : ModelVersion) : ModelVersion :=
  mkModelVersion (mv_WorkspaceID m) (mv_Name m) (mv_Version m) (mv_Description m) (mv_UserID m)
    (mv_CurrentStage m) (mv_Source m) (mv_RunID m) (mv_Status m) (mv_StatusMessage m)
    (mv_CreationTime m) (mv_LastUpdateTime m) (mv_Tags m) (mv_Aliases m ++ l).

(** [mvKey]. *)
Definition mvKey (m : ModelVersion) : string * Z := (mv_Name m, mv_Version m).
Definition mvBatchSize : nat := Z.to_nat 250.

(** [scanMVMeta]: the rows of one query, each applied to its version. *)
Definition scanMVMeta {R} (add : list R → ModelVersion → ModelVersion) (mvs : list ModelVersion)
    (rows : list (string * Z * R)) : list ModelVersion :=
  foldl (append_row mvKey add) mvs rows.

(** Two queries per batch of 250 versions. *)
Definition loadModelVersionMeta (d : DB) (ws : string) (mvs : list ModelVersion) : list ModelVersion :=
  foldl (λ acc b,
      scanMVMeta add_version_aliases
        (scanMVMeta add_version_tags acc (in_query kv_Key (version_tag_scan d ws) (mvKey <$> b)))
        (in_query (λ a, a) (version_alias_scan d ws) (mvKey <$> b)))
    mvs (chunks (length mvs) mvBatchSize mvs).

Definition scanModelVersionRow (ws name : string) (v : Z) (r : ModelVersionRow) : ModelVersion :=
  mkModelVersion ws name v (coalesce (mvr_description r)) (coalesce (mvr_user_id r)) (mvr_current_stage r)
    (mvr_source r) (coalesce (mvr_run_id r)) (mvr_status r) (coalesce (mvr_status_message r))
    (mvr_creation_time r) (mvr_last_update_time r) [] [].

Definition GetModelVersion (workspaceID name : string) (version : Z) : M ModelVersion :=
  let ws := default_ws workspaceID in
  d ← get;
  match model_versions d !! (ws, name, version) with
  | None => fail ErrNotFound
  | Some r =>
      let m := scanModelVersionRow ws name version r in
      mret (default m (head (loadModelVersionMeta d ws [m])))
  end.

Definition GetModelByAlias (workspaceID name alias : string) : M ModelVersion :=
  let ws := default_ws workspaceID in
  d ← get;
  match model_aliases d !! (ws, name, alias) with
  | None => fail ErrNotFound
  | Some v => GetModelVersion ws name v
  end.

(** The versions of a model, as (version, row). *)
Definition versions_of (d : DB) (ws name : string) : list (Z * ModelVersionRow) :=
  omap (λ '((w, n, v), r), if decide (w = ws ∧ n = name) then Some (v, r) else None)
    (map_to_list (model_versions d)).

Definition is_latest (d : DB) (ws name : string) (p : Z * ModelVersionRow) : Prop :=
  sql_max (filter (λ q, mvr_current_stage q.2 = mvr_current_stage p.2) (versions_of d ws name)).*1 = Some p.1.

#[export] Instance is_latest_dec d ws name p : Decision (is_latest d ws name p).
Proof. unfold is_latest. apply _. Defined.

Definition GetLatestModelVersions (workspaceID name : string) (stages : list string) : M (list ModelVersion) :=
  let ws := default_ws workspaceID in
  _ ← GetRegisteredModel ws name;
  d ← get;
  let out := sort_by (λ p, mvr_current_stage p.2)
    (filter (λ p, (stages = [] ∨ mvr_current_stage p.2 ∈ stages) ∧ is_latest d ws name p)
       (versions_of d ws name)) in
  mret (loadModelVersionMeta d ws ((λ p, scanModelVersionRow ws name p.1 p.2) <$> out)).

(** ** Writes of models *)

Definition rename_in {K V} `{ModelKeyed K, Countable K} (get_t : DB → gmap K V)
    (set_t : gmap K V → DB → DB) (o o' : string * string) : M unit :=
  d ← get; t ← lift (rename_rows o o' (get_t d)); modify (set_t t).

Definition SetRegisteredModelTag (workspaceID name key value : string) : M unit :=
  let ws := default_ws workspaceID in
  _ ← GetRegisteredModel ws name;
  modify (λ d, set_registered_model_tags (<[(ws, name, key) := value]> (registered_model_tags d)) d).

Definition DeleteRegisteredModelTag (workspaceID name key : string) : M unit :=
  let ws := default_ws workspaceID in
  d ← get;
  if decide (is_Some (registered_model_tags d !! (ws, name, key)))
  then modify (set_registered_model_tags (delete (ws, name, key) (registered_model_tags d)))
  else fail ErrNotFound.

(** The row is deleted with the rows that reference it. *)
Definition DeleteRegisteredModel (workspaceID name : string) : M unit :=
  let ws := default_ws workspaceID in
  let o := (ws, name) in
  d ← get;
  if decide (is_Some (model_row d ws name)) then
    _ ← modify (set_registered_models (delete o (registered_models d)));
    _ ← modify (λ d, set_registered_model_tags (cascade o (registered_model_tags d)) d);
    _ ← modify (λ d, set_model_versions (cascade o (model_versions d)) d);
    _ ← modify (λ d, set_model_version_tags (cascade o (model_version_tags d)) d);
    modify (λ d, set_model_aliases (cascade o (model_aliases d)) d)
  else fail ErrNotFound.

Definition SetModelAlias (workspaceID name alias : string) (version : Z) : M unit :=
  let ws := default_ws workspaceID in
  _ ← GetModelVersion ws name version;
  modify (λ d, set_model_aliases (<[(ws, name, alias) := version]> (model_aliases d)) d).

Definition DeleteModelAlias (workspaceID name alias : string) : M unit :=
  let ws := default_ws workspaceID in
  d ← get;
  if decide (is_Some (model_aliases d !! (ws, name, alias)))
  then modify (set_model_aliases (delete (ws, name, alias) (model_aliases d)))
  else fail ErrNotFound.

Definition SetModelVersionTag (workspaceID name : string) (version : Z) (key value : string) : M unit :=
  let ws := default_ws workspaceID in
  _ ← GetModelVersion ws name version;
  modify (λ d, set_model_version_tags (<[(ws, name, version, key) := value]> (model_version_tags d)) d).

Definition DeleteModelVersionTag (workspaceID name : string) (version : Z) (key : string) : M unit :=
  let ws := default_ws workspaceID in
  d ← get;
  if decide (is_Some (model_version_tags d !! (ws, name, version, key)))
  then modify (set_model_version_tags (delete (ws, name, version, key) (model_version_tags d)))
  else fail ErrNotFound.

Definition DeleteModelVersion (workspaceID name : string) (version : Z) : M unit :=
  let ws := default_ws workspaceID in
  d ← get;
  if decide (is_Some (model_versions d !! (ws, name, version))) then
    _ ← modify (set_model_versions (delete (ws, name, version) (model_versions d)));
    _ ← modify (λ d, set_model_version_tags (filter (λ p, p.1.1 ≠ (ws, name, version)) (model_version_tags d)) d);
    modify (λ d, set_model_aliases (filter (λ p, ¬ (p.1.1 = (ws, name) ∧ p.2 = version)) (model_aliases d)) d)
  else fail ErrNotFound.

Section writes.
Context `{Clock}.

(** The struct is returned as the call leaves it. *)
Definition CreateRegisteredModel (workspaceID : string) (m : RegisteredModel) : M RegisteredModel :=
  let ws := default_ws workspaceID in
  _ ← lift (invalidValue (ValidName (rm_Name m) 250));
  now ← time_now;
  let ct := if decide (rm_CreationTime m = 0) then now else rm_CreationTime m in
  let lt := if decide (rm_LastUpdateTime m = 0) then now else rm_LastUpdateTime m in
  _ ← map_err mapUnique (insert_model ws (rm_Name m) (mkModelRow (nilIfEmpty (rm_Description m)) ct lt));
  mret (mkRegisteredModel ws (rm_Name m) (rm_Description m) ct lt (rm_Tags m) (rm_Aliases m)).

(** Foreign keys are off on the connection while the tables are updated. *)
Definition RenameRegisteredModel (workspaceID name newName : string) : M RegisteredModel :=
  let ws := default_ws workspaceID in
  let o := (ws, name) in
  let o' := (ws, newName) in
  _ ← lift (invalidValue (ValidName newName 250));
  now ← time_now;
  d ← get;
  if decide (model_row d ws name = None) then fail ErrNotFound
  else if decide (is_Some (model_row d ws newName)) then fail ErrAlreadyExists
  else
    _ ← transaction (
      _ ← rename_in (λ d, model_versions d) set_model_versions o o';
      _ ← rename_in (λ d, model_version_tags d) set_model_version_tags o o';
      _ ← rename_in (λ d, registered_model_tags d) set_registered_model_tags o o';
      _ ← rename_in (λ d, model_aliases d) set_model_aliases o o';
      _ ← map_err mapUnique (rename_in (λ d, registered_models d) set_registered_models o o');
      modify (λ d, set_registered_models
        (alter (λ r, mkModelRow (mr_description r) (mr_creation_time r) now) o' (registered_models d)) d));
    GetRegisteredModel ws newName.

Definition UpdateRegisteredModel (workspaceID name : string) (description : option string) : M RegisteredModel :=
  let ws := default_ws workspaceID in
  match description with
  | None => GetRegisteredModel ws name
  | Some s =>
      now ← time_now;
      d ← get;
      match model_row d ws name with
      | None => fail ErrNotFound
      | Some r =>
          _ ← modify (set_registered_models (<[(ws, name) := mkModelRow (nilIfEmpty s) (mr_creation_time r) now]>
                (registered_models d)));
          GetRegisteredModel ws name
      end
  end.

(** ** Writes of versions *)

Definition version_row (mv : ModelVersion) (now : Z) : ModelVersionRow :=
  mkModelVersionRow (nilIfEmpty (mv_Description mv)) (nilIfEmpty (mv_UserID mv))
    (default_to (mv_CurrentStage mv) StageNone) (mv_Source mv) (nilIfEmpty (mv_RunID mv))
    (default_to (mv_Status mv) "READY") (nilIfEmpty (mv_StatusMessage mv))
    (if decide (mv_CreationTime mv = 0) then now else mv_CreationTime mv)
    (if decide (mv_LastUpdateTime mv = 0) then now else mv_LastUpdateTime mv).

Definition CreateModelVersion (workspaceID : string) (mv : ModelVersion) : M ModelVersion :=
  let ws := default_ws workspaceID in
  _ ← lift (invalidValue (ValidName (mv_Name mv) 250));
  _ ← GetRegisteredModel ws (mv_Name mv);
  now ← time_now;
  v ← retryWriteRace (transaction (
        d ← get;
        let v := sql_next (versions_of d ws (mv_Name mv)).*1 in
        _ ← insert_version ws (mv_Name mv) v (version_row mv now);
        mret v));
  GetModelVersion ws (mv_Name mv) v.

Definition UpdateModelVersion (workspaceID name : string) (version : Z) (description : option string) : M ModelVersion :=
  let ws := default_ws workspaceID in
  match description with
  | None => GetModelVersion ws name version
  | Some s =>
      now ← time_now;
      n ← update_version ws name version (with_mv_description (nilIfEmpty s) now);
      _ ← rows_or_not_found n;
      GetModelVersion ws name version
  end.

(** [UPDATE ... WHERE current_stage = 'Production' AND version != ?]. *)
Definition archive_production (ws name : string) (version now : Z) (d : DB) : DB :=
  set_model_versions
    (map_imap (λ k r, Some (
       if decide (k.1 = (ws, name) ∧ mvr_current_stage r = StageProduction ∧ k.2 ≠ version)
       then with_stage StageArchived now r else r)) (model_versions d)) d.

Definition TransitionModelStage (workspaceID name : string) (version : Z) (stage : string)
    (archiveExisting : bool) : M ModelVersion :=
  let ws := default_ws workspaceID in
  if negb (ValidStage stage) then fail ErrInvalidStage else
  now ← time_now;
  _ ← transaction (
    _ ← when (archiveExisting && bool_decide (stage = StageProduction))
          (modify (archive_production ws name version now));
    n ← update_version ws name version (with_stage stage now);
    rows_or_not_found n);
  GetModelVersion ws name version.
End writes.

(** ** Search filters *)

Inductive registry_clause :=
  | RcTag (key value : string)
  | RcName (op : name_op) (value : string)
  | RcRun (value : string).

Definition prompt_marker : string := "mlflow.prompt.is_prompt".

Definition stripPromptExclusion (f : string) : result string :=
  match Index (ToUpper f) " AND " with
  | None => Ok (if Contains (ToLower f) prompt_marker then EmptyString else f)
  | Some idx =>
      tail ← slice f (idx + 5) (slen f);
      if Contains (ToLower tail) prompt_marker
      then head ← slice f 0 idx; Ok (TrimSpace head)
      else Ok f
  end.

(** [tags.X = 'value']. *)
Definition parse_tag_clause (f : string) : result registry_clause :=
  match Index f "=" with
  | None => Err ErrInvalidFilter
  | Some idx =>
      key ← slice f 5 idx;
      val ← slice f (idx + 1) (slen f);
      Ok (RcTag (TrimSpace key) (Trim (TrimSpace val) quotes))
  end.

(** [name = 'foo'], [name LIKE 'foo%']. *)
Definition parse_name_clause (f : string) : result registry_clause :=
  match Fields f with
  | n :: op :: v :: vs =>
      if decide (ToLower n = "name"%string) then
        let val := Trim (TrimSpace (Join " " (v :: vs))) quotes in
        if decide (ToUpper op = "="%string) then Ok (RcName NameEq val)
        else if decide (ToUpper op = "LIKE"%string) then Ok (RcName NameLike val)
        else Err ErrInvalidFilter
      else Err ErrInvalidFilter
  | _ => Err ErrInvalidFilter
  end.

Definition parseRegistryFilter (f : string) : result registry_clause :=
  f ← stripPromptExclusion f;
  if HasPrefix (ToLower f) "tags." then parse_tag_clause f else parse_name_clause f.

Definition parseModelVersionFilter (f : string) : result registry_clause :=
  f ← stripPromptExclusion f;
  if HasPrefix (ToLower f) "tags." then parse_tag_clause f
  else if HasPrefix (ToLower f) "run_id" then
    match Fields f with
    | _ :: op :: v :: vs =>
        if decide (ToUpper op = "="%string) then Ok (RcRun (Trim (Join " " (v :: vs)) quotes))
        else parse_name_clause f
    | _ => parse_name_clause f
    end
  else parse_name_clause f.

(** ** Searches *)

Definition registry_filter (parse : string → result registry_clause) (filter : string) :
    result (option registry_clause) :=
  let f := TrimSpace filter in
  if decide (f = EmptyString) then Ok None else Some <$> parse f.

Definition clampRegistry (n : Z) : Z := if decide (n ≤ 0) then 100 else Z.min n 10000.

(** The token of a page: empty when the page is the last one. *)
Definition token_of {K} (print : K → string) (next : option K) : string :=
  match next with None => EmptyString | Some k => print k end.

Section search.
(** SQLite's LIKE: pattern, text. *)
Context (like : string → string → bool).

Definition model_hit (d : DB) (ws : string) (c : option registry_clause) (name : string) : bool :=
  match c with
  | None => true
  | Some (RcTag k v) => bool_decide (registered_model_tags d !! (ws, name, k) = Some v)
  | Some (RcName NameEq v) => bool_decide (name = v)
  | Some (RcName NameLike v) => like v name
  | Some (RcRun _) => false
  end.

(** The WHERE clause without the cursor. *)
Definition model_rows (d : DB) (ws : string) (c : option registry_clause) : list (string * ModelRow) :=
  omap (λ '((w, n), r), if decide (w = ws ∧ model_hit d ws c n = true) then Some (n, r) else None)
    (map_to_list (registered_models d)).

Definition SearchRegisteredModels (workspaceID filter : string) (maxResults : Z) (pageToken : string) :
    M (list RegisteredModel * string) :=
  let ws := default_ws workspaceID in
  let n := clampRegistry maxResults in
  c ← lift (registry_filter parseRegistryFilter filter);
  d ← get;
  let cur := if decide (pageToken = EmptyString) then None else Some pageToken in
  let '(out, next) := page fst (Z.to_nat n) (model_rows d ws c) cur in
  let ms := (λ p, scanRegisteredModel ws p.1 p.2) <$> out in
  mret (loadRegisteredModelAliases d ws (loadRegisteredModelTags d ws ms), token_of (λ k, k) next).

Definition version_hit (d : DB) (ws : string) (c : option registry_clause) (name : string) (v : Z)
    (r : ModelVersionRow) : bool :=
  match c with
  | None => true
  | Some (RcTag k x) => bool_decide (model_version_tags d !! (ws, name, v, k) = Some x)
  | Some (RcName NameEq x) => bool_decide (name = x)
  | Some (RcName NameLike x) => like x name
  | Some (RcRun x) => bool_decide (mvr_run_id r = Some x)
  end.

Definition version_rows (d : DB) (ws : string) (c : option registry_clause) : list (string * Z * ModelVersionRow) :=
  omap (λ '((w, n, v), r), if decide (w = ws ∧ version_hit d ws c n v r = true) then Some ((n, v), r) else None)
    (map_to_list (model_versions d)).

(** [fmt.Sprintf("%s:%d", name, version)]. *)
Definition version_token (k : string * Z) : string := k.1 +:+ ":" +:+ FormatInt k.2.

Definition parse_version_token (tok : string) : result (option (string * Z)) :=
  if decide (tok = EmptyString) then Ok None else
  match LastIndex tok ":" with
  | None => Err ErrInvalidFilter
  | Some i =>
      match ParseInt (sdrop (i + 1) tok) with
      | None => Err ErrInvalidFilter
      | Some v => Ok (Some (stake i tok, v))
      end
  end.

(** [(name > ? OR (name = ? AND version > ?))]. *)
Definition version_after (cur : option (string * Z)) (k : string * Z) : bool :=
  match cur with
  | None => true
  | Some (n, v) => bool_decide (cmp_lt n k.1) || (bool_decide (k.1 = n) && bool_decide (v < k.2))
  end.

Definition SearchModelVersions (workspaceID filter : string) (maxResults : Z) (pageToken : string) :
    M (list ModelVersion * string) :=
  let ws := default_ws workspaceID in
  let n := Z.to_nat (clampRegistry maxResults) in
  c ← lift (registry_filter parseModelVersionFilter filter);
  cur ← lift (parse_version_token pageToken);
  d ← get;
  let out := take (S n) (sort_by fst
               (base.filter (λ p, version_after cur p.1 = true) (version_rows d ws c))) in
  let '(out, next) := if decide (n < length out)%nat
                      then (take n out, fst <$> last (take n out)) else (out, None) in
  mret (loadModelVersionMeta d ws ((λ p, scanModelVersionRow ws p.1.1 p.1.2 p.2) <$> out),
        token_of version_token next).
End search.
