(* ===== verification/RegistryLaws.v ===== *)
(** * The model registry: theorems

    Referential integrity under every sequence of operations, version
    numbering, stage transitions, the rename cascade, aliases, the latest
    versions per stage, and the paged searches. *)

From S2P Require Import Prelude GoStrings Model Database Batches Keyset Runs Experiments Registry Sample.
From Stdlib Require Import Ascii.

Open Scope Z_scope.

(** ** Tables keyed by a model *)

Section owned.
Context `{ModelKeyed K, Countable K} {V : Type}.
Implicit Types (t : gmap K V) (o : string * string).

Lemma lookup_cascade o t k :
  cascade o t !! k = if decide (owner k = o) then None else t !! k.
Proof.
  unfold cascade. case_decide as Hk.
  - apply map_lookup_filter_None. right. intros x _ Hne. by apply Hne.
  - destruct (t !! k) as [x|] eqn:E.
    + by apply map_lookup_filter_Some.
    + apply map_lookup_filter_None. by left.
Qed.

(** Renaming is a swap of the two owners when the new name has no row. *)
Definition swapped o o' (k : K) : K :=
  if decide (owner k = o) then with_owner o' k else if decide (owner k = o') then with_owner o k else k.

Lemma swapped_swapped o o' k : o ≠ o' → swapped o o' (swapped o o' k) = k.
Proof.
  intros Hne. unfold swapped.
  destruct (decide (owner k = o)) as [Hk|Hk].
  { rewrite owner_with, decide_False, decide_True by congruence.
    rewrite with_owner_twice. rewrite <- Hk. apply with_owner_id. }
  destruct (decide (owner k = o')) as [Hk'|Hk'].
  { rewrite owner_with, decide_True by congruence.
    rewrite with_owner_twice. rewrite <- Hk'. apply with_owner_id. }
  by rewrite !decide_False.
Qed.

Lemma rename_rows_lookup o o' t :
  o ≠ o' → (∀ k, is_Some (t !! k) → owner k ≠ o') →
  ∃ t', rename_rows o o' t = Ok t' ∧
    ∀ k, t' !! k = if decide (owner k = o') then t !! with_owner o k
                   else if decide (owner k = o) then None else t !! k.
Proof.
  intros Hne Hfree. unfold rename_rows. rewrite decide_False.
  2:{ rewrite Exists_exists. intros (k & _ & _ & Hs). apply Hfree in Hs. by rewrite owner_with in Hs. }
  eexists. split; [done|]. intros k.
  assert (Inj eq eq (swapped o o')) as Hinj.
  { intros a b Hab. rewrite <- (swapped_swapped o o' a), <- (swapped_swapped o o' b) by done. by rewrite Hab. }
  assert (kmap (renamed o o') t = kmap (M2:=gmap K) (swapped o o') t) as ->.
  { unfold kmap. f_equal. apply list_fmap_ext. intros i [k' x] Hx.
    apply list_elem_of_lookup_2, elem_of_map_to_list in Hx. cbn. unfold renamed, swapped.
    case_decide; [done|]. rewrite decide_False; [done|]. apply Hfree. by exists x. }
  rewrite <- (swapped_swapped o o' k) at 1 by done. rewrite lookup_kmap by done.
  unfold swapped. destruct (decide (owner k = o)) as [Hk|Hk].
  - rewrite decide_False by congruence. apply eq_None_not_Some. intros Hs.
    apply Hfree in Hs. by rewrite owner_with in Hs.
  - by case_decide.
Qed.
End owned.

(** ** Referential integrity *)

(** Every row of the registry hangs off an existing parent, as the foreign
    keys of the schema demand; versions are positive and in a legal stage. *)
Record registry_wf (d : DB) : Prop := {
  wf_model ws n : is_Some (registered_models d !! (ws, n)) → is_Some (workspaces d !! ws) ∧ n ≠ EmptyString;
  wf_model_tag o k : is_Some (registered_model_tags d !! (o, k)) → is_Some (registered_models d !! o);
  wf_version o v r : model_versions d !! (o, v) = Some r →
    is_Some (registered_models d !! o) ∧ 1 ≤ v ∧
    ValidStage (mvr_current_stage r) = true ∧ check_model_status (mvr_status r) = true;
  wf_version_tag o v k : is_Some (model_version_tags d !! (o, v, k)) → is_Some (model_versions d !! (o, v));
  wf_alias o a v : model_aliases d !! (o, a) = Some v → is_Some (model_versions d !! (o, v)) }.

(** A write of the registry. *)
Inductive reg_op :=
  | OpCreateModel (ws : string) (m : RegisteredModel)
  | OpRename (ws name new : string)
  | OpUpdateModel (ws name : string) (desc : option string)
  | OpDeleteModel (ws name : string)
  | OpSetModelTag (ws name key value : string)
  | OpDeleteModelTag (ws name key : string)
  | OpSetAlias (ws name alias : string) (v : Z)
  | OpDeleteAlias (ws name alias : string)
  | OpCreateVersion (ws : string) (mv : ModelVersion)
  | OpUpdateVersion (ws name : string) (v : Z) (desc : option string)
  | OpDeleteVersion (ws name : string) (v : Z)
  | OpTransition (ws name : string) (v : Z) (stage : string) (archive : bool)
  | OpSetVersionTag (ws name : string) (v : Z) (key value : string)
  | OpDeleteVersionTag (ws name : string) (v : Z) (key : string).

Definition reg_exec `{Clock} (o : reg_op) (w : World) : World :=
  match o with
  | OpCreateModel ws m => (CreateRegisteredModel ws m w).2
  | OpRename ws n n' => (RenameRegisteredModel ws n n' w).2
  | OpUpdateModel ws n s => (UpdateRegisteredModel ws n s w).2
  | OpDeleteModel ws n => (DeleteRegisteredModel ws n w).2
  | OpSetModelTag ws n k v => (SetRegisteredModelTag ws n k v w).2
  | OpDeleteModelTag ws n k => (DeleteRegisteredModelTag ws n k w).2
  | OpSetAlias ws n a v => (SetModelAlias ws n a v w).2
  | OpDeleteAlias ws n a => (DeleteModelAlias ws n a w).2
  | OpCreateVersion ws mv => (CreateModelVersion ws mv w).2
  | OpUpdateVersion ws n v s => (UpdateModelVersion ws n v s w).2
  | OpDeleteVersion ws n v => (DeleteModelVersion ws n v w).2
  | OpTransition ws n v s a => (TransitionModelStage ws n v s a w).2
  | OpSetVersionTag ws n v k x => (SetModelVersionTag ws n v k x w).2
  | OpDeleteVersionTag ws n v k => (DeleteModelVersionTag ws n v k w).2
  end.

Section integrity.
Context `{Clock}.

(** Reads leave the world as it is. *)
Lemma GetRegisteredModel_exec ws n w r w' :
  GetRegisteredModel ws n w = (r, w') →
  w' = w ∧ (is_ok r = true → is_Some (registered_models (w_db w) !! (default_ws ws, n))).
Proof.
  unfold GetRegisteredModel. rewrite get_bind. unfold model_row.
  destruct (registered_models (w_db w) !! _); intros [= <- <-]; by eauto.
Qed.

Lemma GetModelVersion_exec ws n v w r w' :
  GetModelVersion ws n v w = (r, w') →
  w' = w ∧ (is_ok r = true → is_Some (model_versions (w_db w) !! (default_ws ws, n, v))).
Proof.
  unfold GetModelVersion. rewrite get_bind.
  destruct (model_versions (w_db w) !! _); intros [= <- <-]; by eauto.
Qed.

#[export] Instance GetRegisteredModel_pres P ws n : Preserves P (GetRegisteredModel ws n).
Proof. intros w Hw. destruct (GetRegisteredModel ws n w) eqn:E. by apply GetRegisteredModel_exec in E as [-> _]. Qed.

#[export] Instance GetModelVersion_pres P ws n v : Preserves P (GetModelVersion ws n v).
Proof. intros w Hw. destruct (GetModelVersion ws n v w) eqn:E. by apply GetModelVersion_exec in E as [-> _]. Qed.

(** [_ <- GetModel; k]: the continuation runs in a database that has it. *)
Lemma GetRegisteredModel_bind_pres {B} P ws n (f : RegisteredModel → M B) :
  (∀ m w, P (w_db w) → is_Some (registered_models (w_db w) !! (default_ws ws, n)) → P (w_db (f m w).2)) →
  Preserves P (GetRegisteredModel ws n ≫= f).
Proof.
  intros Hf w Hw. unfold mbind, M_bind. destruct (GetRegisteredModel ws n w) as [[m|e] w1] eqn:E;
    apply GetRegisteredModel_exec in E as [-> Hs]; [|done]. apply Hf; [done|by apply Hs].
Qed.

Lemma GetModelVersion_bind_pres {B} P ws n v (f : ModelVersion → M B) :
  (∀ m w, P (w_db w) → is_Some (model_versions (w_db w) !! (default_ws ws, n, v)) → P (w_db (f m w).2)) →
  Preserves P (GetModelVersion ws n v ≫= f).
Proof.
  intros Hf w Hw. unfold mbind, M_bind. destruct (GetModelVersion ws n v w) as [[m|e] w1] eqn:E;
    apply GetModelVersion_exec in E as [-> Hs]; [|done]. apply Hf; [done|by apply Hs].
Qed.

(** Splits the lookups of an insert or a delete in the hypotheses. *)
Ltac wf_cases :=
  repeat match goal with
  | Hl : is_Some (<[_ := _]> _ !! _) |- _ => apply lookup_insert_is_Some in Hl as [?|[? Hl]]; simplify_eq/=
  | Hl : is_Some (delete _ _ !! _) |- _ => apply lookup_delete_is_Some in Hl as [? Hl]
  | Hl : <[_ := _]> _ !! _ = Some _ |- _ => apply lookup_insert_Some in Hl as [[? ?]|[? Hl]]; simplify_eq/=
  | Hl : delete _ _ !! _ = Some _ |- _ => apply lookup_delete_Some in Hl as [? Hl]
  end.

Lemma wf_insert_model ws n r d :
  registry_wf d → is_Some (workspaces d !! ws) → n ≠ EmptyString →
  registry_wf (set_registered_models (<[(ws, n) := r]> (registered_models d)) d).
Proof.
  intros [H1 H2 H3 H4 H5] Hws Hn. split; cbn; intros; wf_cases; eauto.
  - rewrite lookup_insert_is_Some'. eauto.
  - rewrite lookup_insert_is_Some'. edestruct H3 as (? & ? & ?); eauto.
Qed.

Lemma wf_insert_version o v r d :
  registry_wf d → is_Some (registered_models d !! o) → 1 ≤ v →
  ValidStage (mvr_current_stage r) = true → check_model_status (mvr_status r) = true →
  registry_wf (set_model_versions (<[(o, v) := r]> (model_versions d)) d).
Proof.
  intros [H1 H2 H3 H4 H5] Ho Hv Hs Hc. split; cbn; intros; wf_cases; eauto.
  - rewrite lookup_insert_is_Some'. eauto.
  - rewrite lookup_insert_is_Some'. eauto.
Qed.

Lemma wf_insert_model_tag o k x d :
  registry_wf d → is_Some (registered_models d !! o) →
  registry_wf (set_registered_model_tags (<[(o, k) := x]> (registered_model_tags d)) d).
Proof. intros [H1 H2 H3 H4 H5] Ho. split; cbn; intros; wf_cases; eauto. Qed.

Lemma wf_insert_version_tag o v k x d :
  registry_wf d → is_Some (model_versions d !! (o, v)) →
  registry_wf (set_model_version_tags (<[(o, v, k) := x]> (model_version_tags d)) d).
Proof. intros [H1 H2 H3 H4 H5] Ho. split; cbn; intros; wf_cases; eauto. Qed.

Lemma wf_insert_alias o a v d :
  registry_wf d → is_Some (model_versions d !! (o, v)) →
  registry_wf (set_model_aliases (<[(o, a) := v]> (model_aliases d)) d).
Proof. intros [H1 H2 H3 H4 H5] Ho. split; cbn; intros; wf_cases; eauto. Qed.

Lemma wf_delete_model_tag k d :
  registry_wf d → registry_wf (set_registered_model_tags (delete k (registered_model_tags d)) d).
Proof. intros [H1 H2 H3 H4 H5]. split; cbn; intros; wf_cases; eauto. Qed.

Lemma wf_delete_version_tag k d :
  registry_wf d → registry_wf (set_model_version_tags (delete k (model_version_tags d)) d).
Proof. intros [H1 H2 H3 H4 H5]. split; cbn; intros; wf_cases; eauto. Qed.

Lemma wf_delete_alias k d :
  registry_wf d → registry_wf (set_model_aliases (delete k (model_aliases d)) d).
Proof. intros [H1 H2 H3 H4 H5]. split; cbn; intros; wf_cases; eauto. Qed.

#[local] Hint Resolve wf_insert_model wf_insert_version wf_insert_model_tag wf_insert_version_tag
  wf_insert_alias wf_delete_model_tag wf_delete_version_tag wf_delete_alias : store.

(** ** Each operation preserves the integrity *)

Lemma CreateRegisteredModel_wf ws m : Preserves registry_wf (CreateRegisteredModel ws m).
Proof.
  unfold CreateRegisteredModel. intros w Hw. cbv zeta.
  destruct (ValidName (rm_Name m) 250) as [[]|] eqn:E; [|done].
  apply ValidName_ok in E as [Hn _]. cbn [invalidValue]. rewrite lift_Ok_bind, now_bind.
  assert (∀ r, Preserves registry_wf (insert_model (default_ws ws) (rm_Name m) r)) as Hp.
  { intros r. apply get_bind_pres. intros [d t] Hd. cbn in *. repeat case_decide; cbn; eauto with store. }
  eapply (bind_pres registry_wf); [apply _|intros; apply _|exact Hw].
Qed.

Lemma SetRegisteredModelTag_wf ws n k v : Preserves registry_wf (SetRegisteredModelTag ws n k v).
Proof.
  apply GetRegisteredModel_bind_pres. intros m w Hw Hs. rewrite default_ws_idemp in Hs. cbn. eauto with store.
Qed.

Lemma SetModelAlias_wf ws n a v : Preserves registry_wf (SetModelAlias ws n a v).
Proof.
  apply GetModelVersion_bind_pres. intros m w Hw Hs. rewrite default_ws_idemp in Hs. cbn. eauto with store.
Qed.

Lemma SetModelVersionTag_wf ws n v k x : Preserves registry_wf (SetModelVersionTag ws n v k x).
Proof.
  apply GetModelVersion_bind_pres. intros m w Hw Hs. rewrite default_ws_idemp in Hs. cbn. eauto with store.
Qed.

Lemma DeleteRegisteredModelTag_wf ws n k : Preserves registry_wf (DeleteRegisteredModelTag ws n k).
Proof. apply get_bind_pres. intros w Hw. case_decide; cbn; eauto with store. Qed.

Lemma DeleteModelAlias_wf ws n a : Preserves registry_wf (DeleteModelAlias ws n a).
Proof. apply get_bind_pres. intros w Hw. case_decide; cbn; eauto with store. Qed.

Lemma DeleteModelVersionTag_wf ws n v k : Preserves registry_wf (DeleteModelVersionTag ws n v k).
Proof. apply get_bind_pres. intros w Hw. case_decide; cbn; eauto with store. Qed.

Lemma DeleteRegisteredModel_wf ws n : Preserves registry_wf (DeleteRegisteredModel ws n).
Proof.
  apply get_bind_pres. intros [d t] Hd. cbn [w_db] in *. case_decide; [|done]. rewrite !modify_bind. cbn.
  destruct Hd as [H1 H2 H3 H4 H5]. split; cbn; intros *; rewrite ?lookup_cascade; cbn.
  - intros Hl. apply lookup_delete_is_Some in Hl as [_ Hl]. eauto.
  - case_decide; [by intros [? ?]|]. rewrite lookup_delete_ne by done. eauto.
  - case_decide; [done|]. rewrite lookup_delete_ne by done. eauto.
  - case_decide; [by intros [? ?]|]. eauto.
  - case_decide; [done|]. eauto.
Qed.

Lemma DeleteModelVersion_wf ws n v : Preserves registry_wf (DeleteModelVersion ws n v).
Proof.
  apply get_bind_pres. intros [d t] Hd. cbn [w_db] in *. case_decide; [|done]. rewrite !modify_bind. cbn.
  destruct Hd as [H1 H2 H3 H4 H5]. split; cbn; intros *; eauto.
  - intros Hl. apply lookup_delete_Some in Hl as [_ Hl]. eauto.
  - intros [x Hx]. apply map_lookup_filter_Some in Hx as [Hx Hne]. cbn in Hne.
    rewrite lookup_delete_ne by done. eauto.
  - intros Hx. apply map_lookup_filter_Some in Hx as [Hx Hne]. cbn in Hne.
    rewrite lookup_delete_ne by naive_solver. eauto.
Qed.
End integrity.

(** ** Versions *)

Lemma elem_of_versions_of d ws n v r :
  (v, r) ∈ versions_of d ws n ↔ model_versions d !! (ws, n, v) = Some r.
Proof.
  unfold versions_of. rewrite list_elem_of_omap, <- elem_of_map_to_list. split.
  - intros ([[[w' n'] v'] r'] & Hp & Heq). case_decide as Hd; [|done]. destruct Hd as [-> ->]. by simplify_eq.
  - intros Hp. exists (ws, n, v, r). by rewrite decide_True.
Qed.

Lemma NoDup_versions_of d ws n : NoDup (versions_of d ws n).*1.
Proof.
  apply (NoDup_fmap_omap _ fst _ (λ v, (ws, n, v))); [|apply NoDup_fst_map_to_list].
  intros [[[w' n'] v'] r'] p Heq. case_decide as Hd; [|done]. destruct Hd as [-> ->]. by simplify_eq/=.
Qed.

Definition next_version (d : DB) (ws n : string) : Z := sql_next (versions_of d ws n).*1.

Lemma next_version_gt d ws n v : is_Some (model_versions d !! (ws, n, v)) → v < next_version d ws n.
Proof. intros [r Hr]. apply elem_of_versions_of in Hr. by apply (list_elem_of_fmap_2 fst), sql_next_gt in Hr. Qed.

Lemma next_version_fresh d ws n : model_versions d !! (ws, n, next_version d ws n) = None.
Proof. apply eq_None_not_Some. intros Hs%next_version_gt. lia. Qed.

Lemma next_version_pred d ws n :
  next_version d ws n = 1 ∨ is_Some (model_versions d !! (ws, n, next_version d ws n - 1)).
Proof.
  destruct (sql_next_pred (versions_of d ws n).*1) as [?|Hin]; [by left|right].
  apply list_elem_of_fmap in Hin as ([v r] & Hv & Hr%elem_of_versions_of).
  unfold next_version. rewrite Hv. by exists r.
Qed.

Lemma next_version_pos d ws n : registry_wf d → 1 ≤ next_version d ws n.
Proof.
  intros Hwf. destruct (next_version_pred d ws n) as [->|[r Hr]]; [done|].
  apply (wf_version d Hwf) in Hr as (_ & ? & _). lia.
Qed.

(** ** The children of a version *)

#[export] Instance add_version_tags_laws : AppendLaws mvKey add_version_tags.
Proof.
  split; [intros []; unfold add_version_tags; simpl; by rewrite app_nil_r| |done].
  intros. unfold add_version_tags. simpl. by rewrite app_assoc.
Qed.
#[export] Instance add_version_aliases_laws : AppendLaws mvKey add_version_aliases.
Proof.
  split; [intros []; unfold add_version_aliases; simpl; by rewrite app_nil_r| |done].
  intros. unfold add_version_aliases. simpl. by rewrite app_assoc.
Qed.
#[export] Instance add_model_tags_laws : AppendLaws rm_Name add_model_tags.
Proof.
  split; [intros []; unfold add_model_tags; simpl; by rewrite app_nil_r| |done].
  intros. unfold add_model_tags. simpl. by rewrite app_assoc.
Qed.
#[export] Instance add_model_aliases_laws : AppendLaws rm_Name add_model_aliases.
Proof.
  split; [intros []; unfold add_model_aliases; simpl; by rewrite app_nil_r| |done].
  intros. unfold add_model_aliases. simpl. by rewrite app_assoc.
Qed.

(** Tags and aliases as one kind of child. *)
Definition add_meta (l : list (KV + string)) (m : ModelVersion) : ModelVersion :=
  add_version_aliases (omap (λ c, match c with inr a => Some a | _ => None end) l)
    (add_version_tags (omap (λ c, match c with inl t => Some t | _ => None end) l) m).

#[export] Instance add_meta_laws : AppendLaws mvKey add_meta.
Proof.
  split; [intros []; unfold add_meta, add_version_tags, add_version_aliases; simpl; by rewrite !app_nil_r| |done].
  intros. unfold add_meta, add_version_tags, add_version_aliases. simpl. by rewrite !omap_app, !app_assoc.
Qed.

Lemma append_row_ext {R R'} (add : list R → ModelVersion → ModelVersion)
    (add' : list R' → ModelVersion → ModelVersion) (g : R → R') mvs q :
  (∀ r m, add [r] m = add' [g r] m) →
  scanMVMeta add mvs q = foldl (append_row mvKey add') mvs (prod_map id g <$> q).
Proof.
  intros Hg. unfold scanMVMeta. revert mvs. induction q as [|[k r] q IH]; intros mvs; [done|].
  cbn [foldl fmap list_fmap]. rewrite IH. f_equal. apply list_fmap_ext. intros i m _. cbn.
  by rewrite Hg.
Qed.

Lemma rows_of_map {R R'} (g : R → R') k (q : list (string * Z * R)) :
  rows_of k (prod_map id g <$> q) = g <$> rows_of k q.
Proof.
  unfold rows_of. induction q as [|[k' r] q IH]; [done|].
  rewrite fmap_cons, !filter_cons. cbn. case_decide; cbn; by rewrite IH.
Qed.

Lemma NoDup_version_tag_scan d ws : NoDup (child_key kv_Key <$> version_tag_scan d ws).
Proof.
  apply (NoDup_fmap_omap _ fst _ (λ p : string * Z * string, (ws, p.1.1, p.1.2, p.2)));
    [|apply NoDup_fst_map_to_list].
  intros [[[[w n] v] k] x] p Heq. case_decide; by simplify_eq/=.
Qed.

Lemma NoDup_version_alias_scan d ws : NoDup (child_key (λ a, a) <$> version_alias_scan d ws).
Proof.
  unfold version_alias_scan. rewrite (list_fmap_ext _ id) by (by intros ? [[? ?] ?]). rewrite list_fmap_id.
  apply (NoDup_fmap_1 (λ p : string * Z * string, (ws, p.1.1, p.2))).
  apply (NoDup_fmap_omap _ fst _ id); [|apply NoDup_fst_map_to_list].
  intros [[[w n] a] v] p Heq. case_decide; by simplify_eq/=.
Qed.

Lemma NoDup_model_tag_scan d ws : NoDup (child_key kv_Key <$> model_tag_scan d ws).
Proof.
  apply (NoDup_fmap_omap _ fst _ (λ p : string * string, (ws, p.1, p.2))); [|apply NoDup_fst_map_to_list].
  intros [[[w n] k] x] p Heq. case_decide; by simplify_eq/=.
Qed.

Lemma NoDup_model_alias_scan d ws : NoDup (child_key ma_Alias <$> model_alias_scan d ws).
Proof.
  apply (NoDup_fmap_omap _ fst _ (λ p : string * string, (ws, p.1, p.2))); [|apply NoDup_fst_map_to_list].
  intros [[[w n] k] x] p Heq. case_decide; by simplify_eq/=.
Qed.

(** A version with its tags and its aliases, each in their order. *)
Definition full_version (d : DB) (ws : string) (m : ModelVersion) : ModelVersion :=
  add_version_aliases (one_query (λ a, a) (version_alias_scan d ws) (mvKey m))
    (add_version_tags (one_query kv_Key (version_tag_scan d ws) (mvKey m)) m).

Lemma omap_inl_tags (l : list KV) (a : list string) :
  omap (λ c : KV + string, match c with inl t => Some t | _ => None end) ((inl <$> l) ++ (inr <$> a)) = l ∧
  omap (λ c : KV + string, match c with inr t => Some t | _ => None end) ((inl <$> l) ++ (inr <$> a)) = a.
Proof.
  rewrite !omap_app. split.
  - rewrite <- (app_nil_r l) at 2. f_equal; [by induction l; cbn; f_equal|]. by induction a.
  - rewrite <- (app_nil_l a) at 2. f_equal; [by induction l|]. by induction a; cbn; f_equal.
Qed.

Lemma loadModelVersionMeta_eq d ws mvs :
  NoDup (mvKey <$> mvs) → loadModelVersionMeta d ws mvs = full_version d ws <$> mvs.
Proof.
  intros Hnd. unfold loadModelVersionMeta.
  set (query ks := (prod_map id inl <$> in_query kv_Key (version_tag_scan d ws) ks) ++
                   (prod_map id inr <$> in_query (λ a, a) (version_alias_scan d ws) ks)).
  set (ref k := (inl <$> one_query kv_Key (version_tag_scan d ws) k) ++
                (inr <$> one_query (λ a, a) (version_alias_scan d ws) k) : list (KV + string)).
  transitivity (load_batches mvKey add_meta mvBatchSize query mvs).
  { unfold load_batches, query. generalize (chunks (length mvs) mvBatchSize mvs). intros bs.
    clear. generalize mvs. induction bs as [|b bs IH]; intros acc; [done|]. cbn [foldl]. rewrite IH. f_equal.
    rewrite foldl_app.
    rewrite (append_row_ext add_version_tags add_meta inl)
      by (intros r []; unfold add_meta, add_version_tags, add_version_aliases; cbn; by rewrite app_nil_r).
    rewrite (append_row_ext add_version_aliases add_meta inr)
      by (intros r []; unfold add_meta, add_version_tags, add_version_aliases; cbn; by rewrite app_nil_r).
    done. }
  rewrite (load_batches_eq mvKey add_meta _ query ref); [|unfold mvBatchSize; lia| |done].
  - apply list_fmap_ext. intros i m _. unfold add_meta, full_version, ref.
    by rewrite (proj1 (omap_inl_tags _ _)), (proj2 (omap_inl_tags _ _)).
  - intros ks k. unfold query, ref. rewrite rows_of_app, !rows_of_map.
    rewrite !rows_of_in_query by (apply NoDup_version_tag_scan || apply NoDup_version_alias_scan).
    by case_decide.
Qed.

Lemma GetModelVersion_eq ws n v w :
  GetModelVersion ws n v w =
  (match model_versions (w_db w) !! (default_ws ws, n, v) with
   | None => Err ErrNotFound
   | Some r => Ok (full_version (w_db w) (default_ws ws) (scanModelVersionRow (default_ws ws) n v r))
   end, w).
Proof.
  unfold GetModelVersion. rewrite get_bind. destruct (model_versions (w_db w) !! _) as [r|]; [|done].
  rewrite loadModelVersionMeta_eq by (cbn; apply NoDup_singleton). done.
Qed.

(** A model with its tags and its aliases. *)
Definition full_model (d : DB) (ws n : string) (r : ModelRow) : RegisteredModel :=
  add_model_aliases (one_query ma_Alias (model_alias_scan d ws) n)
    (add_model_tags (one_query kv_Key (model_tag_scan d ws) n) (scanRegisteredModel ws n r)).

Lemma GetRegisteredModel_eq ws n w :
  GetRegisteredModel ws n w =
  (match model_row (w_db w) (default_ws ws) n with
   | None => Err ErrNotFound
   | Some r => Ok (full_model (w_db w) (default_ws ws) n r)
   end, w).
Proof.
  unfold GetRegisteredModel. rewrite get_bind. destruct (model_row _ _ _) as [r|]; [|done].
  unfold loadRegisteredModelAliases.
  rewrite (load_batches_eq rm_Name add_model_aliases _ _ (one_query ma_Alias (model_alias_scan (w_db w) (default_ws ws)))).
  - done.
  - unfold tagBatchSize. lia.
  - intros ks k. apply rows_of_in_query, NoDup_model_alias_scan.
  - cbn. apply NoDup_singleton.
Qed.

Lemma GetRegisteredModel_bind {B} ws n (f : RegisteredModel → M B) w :
  (GetRegisteredModel ws n ≫= f) w =
  match model_row (w_db w) (default_ws ws) n with
  | None => (Err ErrNotFound, w)
  | Some r => f (full_model (w_db w) (default_ws ws) n r) w
  end.
Proof. unfold mbind, M_bind. rewrite GetRegisteredModel_eq. by destruct (model_row _ _ _). Qed.

(** ** Creation of versions *)

Section create_version.
Context `{Clock}.

(** The transaction succeeds on its first attempt: the number it computes is
    free. *)
Lemma new_version_exec ws n r w :
  is_Some (model_row (w_db w) ws n) →
  retryWriteRace (transaction (
    d ← get;
    let v := sql_next (versions_of d ws n).*1 in
    _ ← insert_version ws n v r; mret v)) w =
  let v := next_version (w_db w) ws n in
  if ValidStage (mvr_current_stage r) && check_model_status (mvr_status r)
  then (Ok v, mkWorld (set_model_versions (<[(ws, n, v) := r]> (model_versions (w_db w))) (w_db w)) (w_tick w))
  else (Err SqlCheck, w).
Proof.
  intros Hm. unfold retryWriteRace. cbn [retry_race]. unfold transaction. rewrite get_bind.
  cbv zeta. fold (next_version (w_db w) ws n). unfold insert_version. rewrite bind_bind, get_bind.
  destruct (_ && _); cbn [negb]; [|by destruct w].
  rewrite decide_False by (rewrite next_version_fresh; by intros [? ?]).
  rewrite decide_True by done. done.
Qed.

(** What a successful creation requires. *)
Definition creatable (ws : string) (mv : ModelVersion) (d : DB) : Prop :=
  ValidName (mv_Name mv) 250 = Ok tt ∧ is_Some (model_row d (default_ws ws) (mv_Name mv)) ∧
  ValidStage (default_to (mv_CurrentStage mv) StageNone) = true ∧
  check_model_status (default_to (mv_Status mv) "READY") = true.

Lemma CreateModelVersion_exec ws mv w :
  (creatable ws mv (w_db w) ∧
   let W := default_ws ws in
   let v := next_version (w_db w) W (mv_Name mv) in
   let d' := set_model_versions (<[(W, mv_Name mv, v) := version_row mv (clock (w_tick w))]>
               (model_versions (w_db w))) (w_db w) in
   CreateModelVersion ws mv w = GetModelVersion W (mv_Name mv) v (mkWorld d' (S (w_tick w)))) ∨
  (¬ creatable ws mv (w_db w) ∧ is_ok (CreateModelVersion ws mv w).1 = false ∧
   w_db (CreateModelVersion ws mv w).2 = w_db w).
Proof.
  unfold CreateModelVersion, creatable. cbv zeta.
  destruct (ValidName (mv_Name mv) 250) as [[]|e] eqn:EN; [|right; naive_solver].
  cbn [invalidValue]. rewrite lift_Ok_bind, GetRegisteredModel_bind, default_ws_idemp.
  destruct (model_row (w_db w) (default_ws ws) (mv_Name mv)) as [r|] eqn:Em.
  2:{ right. split; [|done]. intros (_ & [? ?] & _). done. }
  rewrite now_bind. cbn [w_tick].
  pose proof (new_version_exec (default_ws ws) (mv_Name mv) (version_row mv (clock (w_tick w)))
    (mkWorld (w_db w) (S (w_tick w))) (mk_is_Some _ _ Em)) as E.
  cbn [version_row mvr_current_stage mvr_status w_db w_tick] in E. cbv zeta in E.
  destruct (ValidStage _ && check_model_status _) eqn:Ec.
  - apply andb_true_iff in Ec as [? ?]. left. split; [split_and!; by eauto|].
    by rewrite (bind_Ok _ _ _ _ _ E).
  - right. rewrite (bind_Err _ _ _ _ _ E). split; [|done].
    intros (_ & _ & H1 & H2). by rewrite H1, H2 in Ec.
Qed.

Lemma CreateModelVersion_wf ws mv : Preserves registry_wf (CreateModelVersion ws mv).
Proof.
  intros w Hw. destruct (CreateModelVersion_exec ws mv w) as [[(_ & Hm & Hs & Hc) ->]|(_ & _ & ->)]; [|done].
  rewrite GetModelVersion_eq. cbn. apply wf_insert_version; auto using next_version_pos.
Qed.
End create_version.

(** ** Stage transitions *)

Section transition.
Context `{Clock}.

Lemma update_version_eq ws n v f w :
  update_version ws n v f w =
  match model_versions (w_db w) !! (ws, n, v) with
  | None => (Ok 0, w)
  | Some r => if ValidStage (mvr_current_stage (f r))
              then (Ok 1, mkWorld (set_model_versions (<[(ws, n, v) := f r]> (model_versions (w_db w))) (w_db w)) (w_tick w))
              else (Err SqlCheck, w)
  end.
Proof.
  unfold update_version. rewrite get_bind. destruct (model_versions (w_db w) !! _); [|done].
  by destruct (ValidStage _).
Qed.

(** What a transition does to one row. *)
Definition transitioned (o : string * string) (v : Z) (stage : string) (archive : bool) (now : Z)
    (k : string * string * Z) (r : ModelVersionRow) : ModelVersionRow :=
  if decide (k = (o, v)) then with_stage stage now r
  else if decide (k.1 = o ∧ mvr_current_stage r = StageProduction ∧ archive = true ∧ stage = StageProduction)
  then with_stage StageArchived now r else r.

Lemma lookup_archive ws n v now d k :
  model_versions (archive_production ws n v now d) !! k =
  (λ r, if decide (k.1 = (ws, n) ∧ mvr_current_stage r = StageProduction ∧ k.2 ≠ v)
        then with_stage StageArchived now r else r) <$> model_versions d !! k.
Proof. unfold archive_production. cbn. rewrite map_lookup_imap. by destruct (model_versions d !! k). Qed.

Lemma TransitionModelStage_exec ws n v stage archive w :
  let o := (default_ws ws, n) in
  (ValidStage stage = false ∧ TransitionModelStage ws n v stage archive w = (Err ErrInvalidStage, w)) ∨
  (model_versions (w_db w) !! (o, v) = None ∧
   TransitionModelStage ws n v stage archive w = (Err ErrNotFound, mkWorld (w_db w) (S (w_tick w)))) ∨
  (∃ r t, ValidStage stage = true ∧ model_versions (w_db w) !! (o, v) = Some r ∧
     (∀ k, t !! k = transitioned o v stage archive (clock (w_tick w)) k <$> model_versions (w_db w) !! k) ∧
     TransitionModelStage ws n v stage archive w =
       GetModelVersion (default_ws ws) n v (mkWorld (set_model_versions t (w_db w)) (S (w_tick w)))).
Proof.
  cbv zeta. unfold TransitionModelStage. destruct (ValidStage stage) eqn:Es; cbn [negb]; [right|by left].
  rewrite now_bind. set (now := clock (w_tick w)). set (o := (default_ws ws, n)).
  set (arch := archive && bool_decide (stage = StageProduction)).
  set (d1 := if arch then archive_production (default_ws ws) n v now (w_db w) else w_db w).
  assert (∀ k, model_versions d1 !! k =
    (λ r, if decide (k.1 = o ∧ mvr_current_stage r = StageProduction ∧ k.2 ≠ v ∧ arch = true)
          then with_stage StageArchived now r else r) <$> model_versions (w_db w) !! k) as Hd1.
  { intros k. unfold d1. destruct arch.
    - rewrite lookup_archive. destruct (_ !! k); [|done]. cbn. f_equal. repeat case_decide; naive_solver.
    - destruct (_ !! k); [|done]. cbn. f_equal. case_decide; naive_solver. }
  assert (Hupd : update_version (default_ws ws) n v (with_stage stage now) (mkWorld d1 (S (w_tick w))) =
    match model_versions (w_db w) !! (o, v) with
    | None => (Ok 0, mkWorld d1 (S (w_tick w)))
    | Some r => (Ok 1, mkWorld (set_model_versions (<[(o, v) := with_stage stage now r]> (model_versions d1)) d1) (S (w_tick w)))
    end).
  { rewrite update_version_eq. cbn [w_db w_tick]. rewrite Hd1. fold o.
    destruct (model_versions (w_db w) !! (o, v)) as [r|]; [|done]. cbn [fmap option_fmap option_map].
    rewrite decide_False by naive_solver. cbn [mvr_current_stage with_stage]. by rewrite Es. }
  assert (Hwhen : when arch (modify (archive_production (default_ws ws) n v now)) (mkWorld (w_db w) (S (w_tick w)))
    = (Ok tt, mkWorld d1 (S (w_tick w)))) by (unfold d1; by destruct arch).
  destruct (model_versions (w_db w) !! (o, v)) as [r|] eqn:Er.
  - right. eexists r, (<[(o, v) := with_stage stage now r]> (model_versions d1)). split_and!; try done.
    + intros k. unfold transitioned. destruct (decide (k = (o, v))) as [->|Hne].
      { by rewrite lookup_insert_eq, Er. }
      rewrite lookup_insert_ne, Hd1 by done. destruct (model_versions (w_db w) !! k) as [r'|]; [|done].
      cbn. f_equal. unfold arch. destruct k as [ko kv]. cbn.
      apply decide_ext. rewrite andb_true_iff, bool_decide_eq_true. naive_solver.
    + erewrite bind_Ok; [|unfold transaction; erewrite bind_Ok by exact Hwhen;
        erewrite bind_Ok by exact Hupd; reflexivity].
      f_equal. unfold d1. by destruct arch.
  - left. split; [done|]. apply bind_Err. unfold transaction. erewrite bind_Ok by exact Hwhen.
    by erewrite bind_Ok by exact Hupd.
Qed.

(** Replacing rows of versions by rows with a legal stage and the same status. *)
Lemma wf_set_versions d t :
  registry_wf d →
  (∀ k r', t !! k = Some r' → ∃ r, model_versions d !! k = Some r ∧ mvr_status r' = mvr_status r ∧
     ValidStage (mvr_current_stage r') = true) →
  (∀ k, is_Some (model_versions d !! k) → is_Some (t !! k)) →
  registry_wf (set_model_versions t d).
Proof.
  intros [H1 H2 H3 H4 H5] Ht Hk. split; cbn; eauto.
  intros o v r' Hr'. apply Ht in Hr' as (r & Hr & Hs & Hv). apply H3 in Hr as (? & ? & _ & ?).
  by rewrite Hs.
Qed.

Lemma TransitionModelStage_wf ws n v stage archive :
  Preserves registry_wf (TransitionModelStage ws n v stage archive).
Proof.
  intros w Hw. destruct (TransitionModelStage_exec ws n v stage archive w)
    as [[_ ->]|[[_ ->]|(r & t & Hs & _ & Ht & ->)]]; [done..|].
  rewrite GetModelVersion_eq. cbn. apply wf_set_versions; [done| |].
  - intros k r' Hr'. rewrite Ht in Hr'. apply fmap_Some in Hr' as (r0 & Hr0 & ->). exists r0.
    unfold transitioned. destruct k as [o' v']. destruct (wf_version _ Hw _ _ _ Hr0) as (_ & _ & ? & _).
    repeat case_decide; by cbn.
  - intros k Hk. rewrite Ht. by apply fmap_is_Some.
Qed.

Lemma UpdateModelVersion_wf ws n v s : Preserves registry_wf (UpdateModelVersion ws n v s).
Proof.
  unfold UpdateModelVersion. destruct s as [s|]; [|apply _]. cbv zeta. apply bind_pres; [apply _|]. intros now.
  apply bind_pres; [|intros m; unfold rows_or_not_found; pres_auto].
  intros w Hw. rewrite update_version_eq. destruct (model_versions (w_db w) !! _) as [r|] eqn:E; [|done].
  destruct (wf_version _ Hw _ _ _ E) as (? & ? & ? & ?). case_match; [|done]. cbn. by apply wf_insert_version.
Qed.

Lemma UpdateRegisteredModel_wf ws n s : Preserves registry_wf (UpdateRegisteredModel ws n s).
Proof.
  unfold UpdateRegisteredModel. destruct s as [s|]; [|apply _]. cbv zeta. apply bind_pres; [apply _|]. intros now.
  apply get_bind_pres. intros w Hw. unfold model_row. destruct (registered_models (w_db w) !! _) as [r|] eqn:E; [|done].
  rewrite modify_bind, GetRegisteredModel_eq. cbn.
  destruct (wf_model _ Hw _ _ (mk_is_Some _ _ E)). by apply wf_insert_model.
Qed.
End transition.

(** ** Renaming a model *)

Section rename.
Context `{Clock}.

(** A table after the rename of [o] to [o']. *)
Definition moved `{ModelKeyed K, Countable K} {V} (o o' : string * string) (t t' : gmap K V) : Prop :=
  ∀ k, t' !! k = if decide (owner k = o') then t !! with_owner o k
                 else if decide (owner k = o) then None else t !! k.

Lemma rename_in_exec `{ModelKeyed K, Countable K} {V} get_t (set_t : gmap K V → DB → DB) o o' w :
  o ≠ o' → (∀ k, is_Some (get_t (w_db w) !! k) → owner k ≠ o') →
  ∃ t, moved o o' (get_t (w_db w)) t ∧
       rename_in get_t set_t o o' w = (Ok tt, mkWorld (set_t t (w_db w)) (w_tick w)).
Proof.
  intros Hne Hfree. destruct (rename_rows_lookup o o' (get_t (w_db w)) Hne Hfree) as (t & Ht & Hl).
  exists t. split; [done|]. unfold rename_in. by rewrite get_bind, Ht, lift_Ok_bind.
Qed.

(** No row of the child tables belongs to a model that does not exist. *)
Lemma no_children d o :
  registry_wf d → registered_models d !! o = None →
  (∀ k, is_Some (model_versions d !! k) → owner k ≠ o) ∧
  (∀ k, is_Some (model_version_tags d !! k) → owner k ≠ o) ∧
  (∀ k, is_Some (registered_model_tags d !! k) → owner k ≠ o) ∧
  (∀ k, is_Some (model_aliases d !! k) → owner k ≠ o) ∧
  (∀ k, is_Some (registered_models d !! k) → owner k ≠ o).
Proof.
  intros Hwf Ho.
  assert (∀ k, is_Some (model_versions d !! k) → owner k ≠ o) as Hv.
  { intros [o' v] [r Hr] <-. apply (wf_version d Hwf) in Hr as ([? ?] & _). cbn in *. congruence. }
  split_and!; [done| | | |].
  - intros [[o' v] k] Hs. apply (wf_version_tag d Hwf) in Hs. by apply Hv in Hs.
  - intros [o' k] Hs <-. apply (wf_model_tag d Hwf) in Hs as [? ?]. cbn in *. congruence.
  - intros [o' a] [v Hx]. apply (wf_alias d Hwf) in Hx. by apply Hv in Hx.
  - intros k [? Hs] Hk. cbn in *. congruence.
Qed.

Record renamed_db (o o' : string * string) (now : Z) (d d' : DB) : Prop := {
  rn_versions : moved o o' (model_versions d) (model_versions d');
  rn_version_tags : moved o o' (model_version_tags d) (model_version_tags d');
  rn_model_tags : moved o o' (registered_model_tags d) (registered_model_tags d');
  rn_aliases : moved o o' (model_aliases d) (model_aliases d');
  rn_models k : registered_models d' !! k =
    if decide (k = o') then (λ r, mkModelRow (mr_description r) (mr_creation_time r) now) <$> registered_models d !! o
    else if decide (k = o) then None else registered_models d !! k;
  rn_workspaces : workspaces d' = workspaces d }.

Lemma RenameRegisteredModel_exec ws n n' w :
  let W := default_ws ws in
  let now := clock (w_tick w) in
  registry_wf (w_db w) →
  (is_ok (RenameRegisteredModel ws n n' w).1 = false ∧ w_db (RenameRegisteredModel ws n n' w).2 = w_db w ∧
   (ValidName n' 250 ≠ Ok tt ∨ model_row (w_db w) W n = None ∨ is_Some (model_row (w_db w) W n'))) ∨
  (∃ d', ValidName n' 250 = Ok tt ∧ is_Some (model_row (w_db w) W n) ∧ model_row (w_db w) W n' = None ∧
     renamed_db (W, n) (W, n') now (w_db w) d' ∧
     RenameRegisteredModel ws n n' w = GetRegisteredModel W n' (mkWorld d' (S (w_tick w)))).
Proof.
  cbv zeta. intros Hwf. unfold RenameRegisteredModel.
  destruct (ValidName n' 250) as [[]|] eqn:EN; [|left; by eauto].
  cbn [invalidValue]. rewrite lift_Ok_bind, now_bind, get_bind. cbn [w_db].
  case_decide as Ho; [left; by eauto|]. case_decide as Ho'; [left; by eauto|]. right.
  set (o := (default_ws ws, n)). set (o' := (default_ws ws, n')).
  assert (o ≠ o') as Hne. { intros [= <-]. apply Ho'. by destruct (model_row _ _ _); [eexists|]. }
  apply eq_None_not_Some in Ho'.
  destruct (no_children _ o' Hwf Ho') as (F1 & F2 & F3 & F4 & F5).
  set (w0 := mkWorld (w_db w) (S (w_tick w))).
  destruct (rename_in_exec (λ d, model_versions d) set_model_versions o o' w0) as (t1 & M1 & E1); [done..|].
  destruct (rename_in_exec (λ d, model_version_tags d) set_model_version_tags o o'
    (mkWorld (set_model_versions t1 (w_db w)) (S (w_tick w)))) as (t2 & M2 & E2); [done..|].
  destruct (rename_in_exec (λ d, registered_model_tags d) set_registered_model_tags o o'
    (mkWorld (set_model_version_tags t2 (set_model_versions t1 (w_db w))) (S (w_tick w)))) as (t3 & M3 & E3); [done..|].
  destruct (rename_in_exec (λ d, model_aliases d) set_model_aliases o o'
    (mkWorld (set_registered_model_tags t3 (set_model_version_tags t2 (set_model_versions t1 (w_db w)))) (S (w_tick w))))
    as (t4 & M4 & E4); [done..|].
  destruct (rename_in_exec (λ d, registered_models d) set_registered_models o o'
    (mkWorld (set_model_aliases t4 (set_registered_model_tags t3 (set_model_version_tags t2
      (set_model_versions t1 (w_db w))))) (S (w_tick w)))) as (t5 & M5 & E5); [done..|].
  eexists. split_and!; [done|by apply not_eq_None_Some|done| |].
  2:{ erewrite bind_Ok; [reflexivity|]. unfold transaction. fold w0. erewrite bind_Ok by exact E1.
      erewrite bind_Ok by exact E2. erewrite bind_Ok by exact E3. erewrite bind_Ok by exact E4.
      erewrite bind_Ok by exact (map_err_Ok mapUnique _ _ _ _ E5). reflexivity. }
  split; try done. intros k. cbn. destruct (decide (k = o')) as [->|Hk].
  - rewrite lookup_alter_eq, M5. cbn. by rewrite decide_True.
  - rewrite lookup_alter_ne, M5 by done. cbn. by rewrite decide_False.
Qed.

Lemma RenameRegisteredModel_wf ws n n' : Preserves registry_wf (RenameRegisteredModel ws n n').
Proof.
  intros w Hw. destruct (RenameRegisteredModel_exec ws n n' w Hw)
    as [(_ & -> & _)|(d' & HN & [r Hr] & _ & [R1 R2 R3 R4 R5 R6] & ->)]; [done|].
  rewrite GetRegisteredModel_eq. cbn [snd w_db].
  set (o := (default_ws ws, n)) in *. set (o' := (default_ws ws, n')) in *.
  unfold model_row in Hr. fold o in Hr.
  destruct Hw as [H1 H2 H3 H4 H5]. apply ValidName_ok in HN as [HN _]. split.
  - intros ws' m. rewrite R5, R6. case_decide as E1.
    + intros _. injection E1 as -> ->. split; [|done]. by destruct (H1 (default_ws ws) n (mk_is_Some _ _ Hr)).
    + case_decide; [by intros [? ?]|]. apply H1.
  - intros k x. rewrite R3, R5. cbn. case_decide; [by rewrite Hr; eexists|].
    case_decide; [by intros [? ?]|]. apply H2.
  - intros k v x. rewrite R1, R5. cbn. case_decide.
    + intros Hx. apply H3 in Hx as (_ & ? & ? & ?). rewrite Hr. by split_and!.
    + case_decide; [done|]. apply H3.
  - intros k v x. rewrite R2, R1. cbn. case_decide; [apply H4|]. case_decide; [by intros [? ?]|]. apply H4.
  - intros k a v. rewrite R4, R1. cbn. case_decide; [apply H5|]. case_decide; [done|]. apply H5.
Qed.

Lemma reg_exec_wf o w : registry_wf (w_db w) → registry_wf (w_db (reg_exec o w)).
Proof.
  destruct o; cbn [reg_exec].
  - apply CreateRegisteredModel_wf.
  - apply RenameRegisteredModel_wf.
  - apply UpdateRegisteredModel_wf.
  - apply DeleteRegisteredModel_wf.
  - apply SetRegisteredModelTag_wf.
  - apply DeleteRegisteredModelTag_wf.
  - apply SetModelAlias_wf.
  - apply DeleteModelAlias_wf.
  - apply CreateModelVersion_wf.
  - apply UpdateModelVersion_wf.
  - apply DeleteModelVersion_wf.
  - apply TransitionModelStage_wf.
  - apply SetModelVersionTag_wf.
  - apply DeleteModelVersionTag_wf.
Qed.

Lemma seed_registry_wf t : registry_wf (seed_db t).
Proof. split; cbn; intros *; rewrite lookup_empty; try done; by intros [? ?]. Qed.
End rename.

(** Referential integrity of the registry.  After any sequence of
    registry calls on a fresh database, failed calls included, every version,
    tag and alias hangs off an existing model, versions are positive and in a
    legal stage, and every alias resolves to the version it names. *)
Theorem registry_integrity `{Clock} t ops :
  let w := foldl (λ w o, reg_exec o w) (mkWorld (seed_db t) 0) ops in
  registry_wf (w_db w) ∧
  ∀ ws n a v, model_aliases (w_db w) !! (default_ws ws, n, a) = Some v →
    ∃ mv, GetModelByAlias ws n a w = (Ok mv, w) ∧ mv_Name mv = n ∧ mv_Version mv = v.
Proof.
  cbv zeta. set (w0 := mkWorld (seed_db t) 0).
  assert (registry_wf (w_db w0)) as Hw0 by apply seed_registry_wf. clearbody w0.
  assert (registry_wf (w_db (foldl (λ w o, reg_exec o w) w0 ops))) as Hwf.
  { revert w0 Hw0. induction ops as [|o ops IH]; intros w0 Hw0; [done|]. apply IH. by apply reg_exec_wf. }
  split; [done|]. intros ws n a v Ha. unfold GetModelByAlias. rewrite get_bind, Ha, GetModelVersion_eq, default_ws_idemp.
  destruct (wf_alias _ Hwf _ _ _ Ha) as [r ->]. eexists. by split_and!.
Qed.

(** Version numbers.  Creating a version of an existing model, with a
    legal stage and status, succeeds; the number is above every number of the
    model and at most one above the highest, no other version changes, and
    [GetModelVersion] then returns what the call returned. *)
Theorem CreateModelVersion_spec `{Clock} ws mv w :
  registry_wf (w_db w) → creatable ws mv (w_db w) →
  let W := default_ws ws in
  ∃ v got w',
    CreateModelVersion ws mv w = (Ok got, w') ∧ GetModelVersion ws (mv_Name mv) v w' = (Ok got, w') ∧
    mv_Version got = v ∧ mv_CurrentStage got = default_to (mv_CurrentStage mv) StageNone ∧ 1 ≤ v ∧
    (∀ v', is_Some (model_versions (w_db w) !! (W, mv_Name mv, v')) → v' < v) ∧
    (v = 1 ∨ is_Some (model_versions (w_db w) !! (W, mv_Name mv, v - 1))) ∧
    ∀ k, k ≠ (W, mv_Name mv, v) → model_versions (w_db w') !! k = model_versions (w_db w) !! k.
Proof.
  intros Hwf Hc. cbv zeta. destruct (CreateModelVersion_exec ws mv w) as [[_ ->]|[? _]]; [|done].
  set (v := next_version _ _ _). exists v. rewrite GetModelVersion_eq. cbn [w_db].
  rewrite default_ws_idemp. cbn [model_versions set_model_versions set_registry db_registry rg_model_versions].
  rewrite lookup_insert_eq. eexists _, _. split_and!; [reflexivity| | | | | | |].
  - rewrite GetModelVersion_eq. cbn. by rewrite lookup_insert_eq.
  - done.
  - done.
  - by apply next_version_pos.
  - intros v' Hv'. by apply next_version_gt.
  - apply next_version_pred.
  - intros k Hk. cbn. by rewrite lookup_insert_ne.
Qed.

(** Stage transitions.  A refused transition (unknown stage, missing
    version) leaves the database as it was.  A successful one moves exactly
    the named version to the stage and, when existing versions are to be
    archived on the way to Production, moves every other Production version
    of the model to Archived, so that one Production version is left; no
    other row changes. *)
Theorem TransitionModelStage_spec `{Clock} ws n v stage archive w :
  let o := (default_ws ws, n) in
  match TransitionModelStage ws n v stage archive w with
  | (Err e, w') => w_db w' = w_db w ∧
      ((e = ErrInvalidStage ∧ ValidStage stage = false) ∨
       (e = ErrNotFound ∧ model_versions (w_db w) !! (o, v) = None))
  | (Ok got, w') =>
      mv_Version got = v ∧ mv_CurrentStage got = stage ∧
      (∀ k, model_versions (w_db w') !! k =
         transitioned o v stage archive (clock (w_tick w)) k <$> model_versions (w_db w) !! k) ∧
      (archive = true → stage = StageProduction →
       ∀ v' r', model_versions (w_db w') !! (o, v') = Some r' → mvr_current_stage r' = StageProduction → v' = v)
  end.
Proof.
  cbv zeta. destruct (TransitionModelStage_exec ws n v stage archive w)
    as [[Hs ->]|[[Hn ->]|(r & t & Hs & Hr & Ht & ->)]]; [by auto..|].
  rewrite GetModelVersion_eq, default_ws_idemp. cbn [w_db].
  assert (model_versions (set_model_versions t (w_db w)) = t) as -> by done.
  rewrite Ht, Hr. cbn [fmap option_fmap option_map]. split_and!; [done| |done|].
  - cbn. unfold transitioned. by rewrite decide_True.
  - intros -> -> v' r' Hr' Hp. cbn in Hr'. rewrite Ht in Hr'. apply fmap_Some in Hr' as (r0 & Hr0 & ->).
    unfold transitioned in Hp. repeat case_decide; naive_solver.
Qed.

(** Renaming a model.  In a database with referential integrity a rename
    either fails and changes nothing, or moves the model and every version,
    version tag, model tag and alias of it to the new name: no row is lost,
    none keeps the old name, and no other model is touched. *)
Theorem RenameRegisteredModel_spec `{Clock} ws n n' w :
  let W := default_ws ws in
  registry_wf (w_db w) →
  match RenameRegisteredModel ws n n' w with
  | (Err e, w') => w_db w' = w_db w
  | (Ok m, w') =>
      rm_Name m = n' ∧ (GetRegisteredModel ws n w').1 = Err ErrNotFound ∧
      (∀ v, model_versions (w_db w') !! (W, n', v) = model_versions (w_db w) !! (W, n, v)) ∧
      (∀ v k, model_version_tags (w_db w') !! (W, n', v, k) = model_version_tags (w_db w) !! (W, n, v, k)) ∧
      (∀ k, registered_model_tags (w_db w') !! (W, n', k) = registered_model_tags (w_db w) !! (W, n, k)) ∧
      (∀ a, model_aliases (w_db w') !! (W, n', a) = model_aliases (w_db w) !! (W, n, a)) ∧
      (∀ o v, o ≠ (W, n) → o ≠ (W, n') → model_versions (w_db w') !! (o, v) = model_versions (w_db w) !! (o, v)) ∧
      registry_wf (w_db w')
  end.
Proof.
  cbv zeta. intros Hwf. pose proof (RenameRegisteredModel_wf ws n n' w Hwf) as Hwf'.
  destruct (RenameRegisteredModel_exec ws n n' w Hwf) as [(He & Hd & _)|(d' & _ & Hn & Hn' & [R1 R2 R3 R4 R5 R6] & Hx)].
  { by destruct (RenameRegisteredModel ws n n' w) as [[m|e] w']. }
  rewrite Hx in Hwf' |- *. rewrite GetRegisteredModel_eq, default_ws_idemp in Hwf' |- *. unfold model_row in *. cbn [w_db] in *.
  rewrite R5, decide_True by done. destruct Hn as [r Hr]. rewrite Hr. cbn [fmap option_fmap option_map snd w_db] in *.
  assert ((default_ws ws, n) ≠ (default_ws ws, n')) as Hne by congruence.
  split_and!; [done| | | | | | |done].
  - rewrite GetRegisteredModel_eq. cbn. unfold model_row. rewrite R5, decide_False, decide_True; done.
  - intros v. rewrite R1. cbn. by rewrite decide_True.
  - intros v k. rewrite R2. cbn. by rewrite decide_True.
  - intros k. rewrite R3. cbn. by rewrite decide_True.
  - intros a. rewrite R4. cbn. by rewrite decide_True.
  - intros o v Ho Ho'. rewrite R1. cbn. by rewrite !decide_False.
Qed.

(** ** Aliases *)

Lemma elem_of_one_query {K R S} `{EqDecision K, TotalCmp S} (sub : R → S) (scan : list (K * R)) k r :
  r ∈ one_query sub scan k ↔ (k, r) ∈ scan.
Proof.
  unfold one_query. rewrite elem_of_sort_by, list_elem_of_fmap. setoid_rewrite list_elem_of_filter. split.
  - by intros ([k' r'] & -> & <- & ?).
  - intros ?. by exists (k, r).
Qed.

Lemma elem_of_version_alias_scan d ws n v a :
  (n, v, a) ∈ version_alias_scan d ws ↔ model_aliases d !! (ws, n, a) = Some v.
Proof.
  unfold version_alias_scan. rewrite list_elem_of_omap, <- elem_of_map_to_list. split.
  - intros ([[[w' n'] a'] v'] & Hp & Heq). case_decide; by simplify_eq.
  - intros Hp. exists (ws, n, a, v). by rewrite decide_True.
Qed.

(** The life of an alias.  Once set, the alias resolves to its version,
    whose alias list has it; deleting the version takes the alias with it. *)
Theorem alias_lifecycle ws n a v w w' :
  SetModelAlias ws n a v w = (Ok tt, w') →
  (∃ mv, GetModelByAlias ws n a w' = (Ok mv, w') ∧ mv_Name mv = n ∧ mv_Version mv = v ∧ a ∈ mv_Aliases mv) ∧
  ∃ w'', DeleteModelVersion ws n v w' = (Ok tt, w'') ∧
         GetModelByAlias ws n a w'' = (Err ErrNotFound, w'') ∧
         GetModelVersion ws n v w'' = (Err ErrNotFound, w'').
Proof.
  unfold SetModelAlias. intros Hx. apply bind_exec_Ok in Hx as (mv & w1 & Hg & Hx).
  rewrite GetModelVersion_eq, default_ws_idemp in Hg. injection Hg as Hg <-. injection Hx as <-.
  destruct (model_versions (w_db w) !! _) as [r|] eqn:Er; [|done]. clear Hg. split.
  - unfold GetModelByAlias. rewrite get_bind. cbn [w_db]. cbn [set_model_aliases set_registry db_registry rg_model_aliases].
    rewrite lookup_insert_eq, GetModelVersion_eq, default_ws_idemp. cbn. rewrite Er.
    eexists. split_and!; [done..|]. cbn. apply elem_of_one_query, elem_of_version_alias_scan. cbn.
    by rewrite lookup_insert_eq.
  - unfold DeleteModelVersion. rewrite get_bind. cbn [w_db set_model_aliases set_registry db_registry rg_model_versions].
    rewrite decide_True by (by exists r). rewrite !modify_bind. eexists. split_and!; [done| |].
    + unfold GetModelByAlias. rewrite get_bind. cbn.
      rewrite (proj2 (map_lookup_filter_None _ _ _)); [done|]. right. intros x Hx Hne.
      rewrite lookup_insert_eq in Hx. naive_solver.
    + rewrite GetModelVersion_eq. cbn. by rewrite lookup_delete_eq.
Qed.

(** ** The latest version of each stage *)

Lemma is_latest_spec d ws n v r :
  model_versions d !! (ws, n, v) = Some r →
  is_latest d ws n (v, r) ↔
  ∀ v' r', model_versions d !! (ws, n, v') = Some r' → mvr_current_stage r' = mvr_current_stage r → v' ≤ v.
Proof.
  intros Hr. unfold is_latest. rewrite sql_max_Some. cbn [fst snd].
  assert (∀ v', v' ∈ (filter (λ q, mvr_current_stage q.2 = mvr_current_stage r) (versions_of d ws n)).*1 ↔
    ∃ r', model_versions d !! (ws, n, v') = Some r' ∧ mvr_current_stage r' = mvr_current_stage r) as He.
  { intros v'. rewrite list_elem_of_fmap. setoid_rewrite list_elem_of_filter. split.
    - intros ([v0 r'] & -> & ? & ?%elem_of_versions_of). by exists r'.
    - intros (r' & ? & ?). exists (v', r'). by rewrite elem_of_versions_of. }
  rewrite He. setoid_rewrite He. naive_solver.
Qed.

Definition latest_rows (d : DB) (ws n : string) (stages : list string) : list (Z * ModelVersionRow) :=
  filter (λ p, (stages = [] ∨ mvr_current_stage p.2 ∈ stages) ∧ is_latest d ws n p) (versions_of d ws n).

Lemma NoDup_latest_stage d ws n stages : NoDup ((λ p, mvr_current_stage p.2) <$> latest_rows d ws n stages).
Proof.
  assert (NoDup (latest_rows d ws n stages)) as Hnd.
  { apply NoDup_filter. eapply NoDup_fmap_1. apply NoDup_versions_of. }
  apply NoDup_fmap_2_strong; [|done]. intros [v r] [v' r'] Hx Hy Heq.
  apply list_elem_of_filter in Hx as [[_ Hx] Hvx]. apply list_elem_of_filter in Hy as [[_ Hy] Hvy].
  apply elem_of_versions_of in Hvx, Hvy. cbn in Heq.
  pose proof (proj1 (is_latest_spec _ _ _ _ _ Hvx) Hx _ _ Hvy).
  pose proof (proj1 (is_latest_spec _ _ _ _ _ Hvy) Hy _ _ Hvx).
  assert (v = v') as -> by (apply Z.le_antisymm; auto). congruence.
Qed.

(** The latest versions.  For an existing model the call returns, in
    stage order, exactly one version per stage that has any (restricted to
    the asked stages): the one with the highest number in that stage. *)
Theorem GetLatestModelVersions_spec ws n stages w :
  let W := default_ws ws in
  is_Some (model_row (w_db w) W n) →
  ∃ out, GetLatestModelVersions ws n stages w = (Ok out, w) ∧
    StronglySorted (key_lt mv_CurrentStage) out ∧
    ∀ mv, mv ∈ out ↔ ∃ v r,
      mv = full_version (w_db w) W (scanModelVersionRow W n v r) ∧
      model_versions (w_db w) !! (W, n, v) = Some r ∧ (stages = [] ∨ mvr_current_stage r ∈ stages) ∧
      ∀ v' r', model_versions (w_db w) !! (W, n, v') = Some r' →
               mvr_current_stage r' = mvr_current_stage r → v' ≤ v.
Proof.
  cbv zeta. intros [m Hm]. unfold GetLatestModelVersions. rewrite GetRegisteredModel_bind, default_ws_idemp, Hm, get_bind.
  set (W := default_ws ws). fold (latest_rows (w_db w) W n stages).
  set (out := sort_by _ _). eexists. split; [reflexivity|].
  assert (NoDup out.*1) as Hnd.
  { unfold out. rewrite sort_by_perm. apply NoDup_fmap_filter, NoDup_versions_of. }
  rewrite loadModelVersionMeta_eq.
  2:{ rewrite <- list_fmap_compose. apply (NoDup_fmap_1 snd). by rewrite <- list_fmap_compose. }
  rewrite <- list_fmap_compose. split.
  - pose proof (sort_by_lt (λ p : Z * ModelVersionRow, mvr_current_stage p.2) _ (NoDup_latest_stage (w_db w) W n stages)) as Hs.
    fold out in Hs. clear -Hs. induction Hs as [|p l Hs IH Hp]; cbn; constructor; [done|].
    apply Forall_fmap. by eapply Forall_impl.
  - intros mv. rewrite list_elem_of_fmap. unfold out. setoid_rewrite elem_of_sort_by.
    unfold latest_rows. setoid_rewrite list_elem_of_filter. split.
    + intros ([v r] & -> & [Hst Hl] & Hv%elem_of_versions_of). exists v, r. split_and!; [done..|].
      by apply (is_latest_spec _ _ _ _ _ Hv).
    + intros (v & r & -> & Hv & Hst & Hl). exists (v, r). split_and!; [done|done| |by apply elem_of_versions_of].
      by apply (is_latest_spec _ _ _ _ _ Hv).
Qed.

(** ** Paging through the versions *)

Section version_pages.
Context (like : string → string → bool) (ws filter : string) (maxResults : Z) (w : World).

Definition one_version_page (tok : string) : result (list ModelVersion * string) :=
  (SearchModelVersions like ws filter maxResults tok w).1.

(** A client that repeats the request with the returned tokens. *)
Fixpoint version_pages (fuel : nat) (tok : string) : option (list (list ModelVersion)) :=
  match fuel with
  | O => None
  | S fuel' =>
      match one_version_page tok with
      | Ok (out, next) =>
          if decide (next = EmptyString) then Some [out] else cons out <$> version_pages fuel' next
      | Err _ => None
      end
  end.

Lemma version_token_nonempty k : version_token k ≠ EmptyString.
Proof. destruct k as [[|c n] v]; discriminate. Qed.

(** Page tokens survive the round trip, for names with colons too. *)
Lemma version_token_roundtrip k : in_int64 k.2 → parse_version_token (version_token k) = Ok (Some k).
Proof.
  intros Hv. destruct k as [n v]. unfold parse_version_token. rewrite decide_False by apply version_token_nonempty.
  unfold version_token. cbn [fst snd].
  change (":" +:+ FormatInt v) with (String ":"%char (FormatInt v)).
  rewrite LastIndex_app_not_in by (by apply FormatInt_digits).
  rewrite sdrop_app_plus, stake_app. cbn [sdrop]. by rewrite ParseInt_FormatInt.
Qed.

Lemma version_after_spec cur (p : string * Z * ModelVersionRow) :
  version_after cur p.1 = true ↔ after fst cur p.
Proof.
  destruct cur as [[n v]|]; [|done]. destruct p as [[n' v'] r].
  cbn [version_after after fst snd]. unfold cmp_lt. cbn [cmp prod_total_cmp fst snd].
  rewrite orb_true_iff, andb_true_iff, !bool_decide_eq_true.
  pose proof (cmp_eq_iff n n') as He. change (string_cmp n n') with (cmp n n') in *.
  destruct (cmp n n'); cbn; [|naive_solver..].
  rewrite (proj1 He eq_refl). rewrite Z.compare_lt_iff. naive_solver.
Qed.

Definition full_row (d : DB) (p : string * Z * ModelVersionRow) : ModelVersion :=
  full_version d (default_ws ws) (scanModelVersionRow (default_ws ws) p.1.1 p.1.2 p.2).

Lemma NoDup_version_rows d W c : NoDup (version_rows like d W c).*1.
Proof.
  apply (NoDup_fmap_omap _ fst _ (λ k, (W, k.1, k.2))); [|apply NoDup_fst_map_to_list].
  intros [[[w' n] v] r] p Heq. case_decide as Hd; [|done]. destruct Hd as [-> _]. by simplify_eq/=.
Qed.

Lemma one_version_page_eq c tok cur :
  registry_filter parseModelVersionFilter filter = Ok c → parse_version_token tok = Ok cur →
  one_version_page tok =
    let '(out, next) := page fst (Z.to_nat (clampRegistry maxResults))
                          (version_rows like (w_db w) (default_ws ws) c) cur in
    Ok (full_row (w_db w) <$> out, token_of version_token next).
Proof.
  intros Hc Ht. unfold one_version_page, SearchModelVersions. cbv zeta.
  rewrite Hc, lift_Ok_bind, Ht, lift_Ok_bind, get_bind. unfold page.
  rewrite (filter_ext_in _ (after fst cur)) by (intros p _; apply version_after_spec).
  set (out := take _ _).
  assert (NoDup out.*1) as Hnd.
  { unfold out. set (l := sort_by _ _). assert (NoDup l.*1) as Hl.
    { unfold l. rewrite sort_by_perm. apply NoDup_fmap_filter, NoDup_version_rows. }
    rewrite <- (take_drop (S (Z.to_nat (clampRegistry maxResults))) l), fmap_app, NoDup_app in Hl. by destruct Hl. }
  assert (∀ l, NoDup l.*1 → loadModelVersionMeta (w_db w) (default_ws ws)
    ((λ p : string * Z * ModelVersionRow, scanModelVersionRow (default_ws ws) p.1.1 p.1.2 p.2) <$> l) =
    full_row (w_db w) <$> l) as Hload.
  { intros l Hl. rewrite loadModelVersionMeta_eq.
    - by rewrite <- list_fmap_compose.
    - rewrite <- list_fmap_compose. by rewrite (list_fmap_ext _ fst) by (by intros ? [[? ?] ?]). }
  case_decide; cbn; rewrite Hload; try done.
  rewrite <- (take_drop (Z.to_nat (clampRegistry maxResults)) out), fmap_app, NoDup_app in Hnd. by destruct Hnd.
Qed.

Definition full_pages (d : DB) (ps : list (list (string * Z * ModelVersionRow))) : list (list ModelVersion) :=
  (λ p : list (string * Z * ModelVersionRow), full_row d <$> p) <$> ps.

Lemma version_pages_eq c fuel tok cur :
  registry_filter parseModelVersionFilter filter = Ok c →
  Forall (λ p, in_int64 p.1.2) (version_rows like (w_db w) (default_ws ws) c) →
  parse_version_token tok = Ok cur →
  version_pages fuel tok =
    full_pages (w_db w) <$> pages fst fuel (Z.to_nat (clampRegistry maxResults))
                              (version_rows like (w_db w) (default_ws ws) c) cur.
Proof.
  intros Hc Hv. revert tok cur. induction fuel as [|fuel IH]; intros tok cur Ht; [done|].
  cbn [version_pages pages]. rewrite (one_version_page_eq c tok cur Hc Ht).
  destruct (page _ _ _ cur) as [out [k|]] eqn:E; cbn [token_of].
  - rewrite decide_False by apply version_token_nonempty. rewrite (IH _ (Some k)).
    + by destruct (pages _ _ _ _ _).
    + apply version_token_roundtrip. rewrite Forall_forall in Hv.
      apply page_next_in in E as (p & Hp & ->). by apply Hv.
  - by rewrite decide_True.
Qed.
End version_pages.

(** Paging of [SearchModelVersions].  For a filter that parses, a client
    that follows the "name:version" tokens ends, whatever the names (colons
    included), and the pages put together are exactly the versions of the
    workspace that match, each once with its tags and aliases, by name and
    number. *)
Theorem SearchModelVersions_pages_complete like ws filter maxResults w c :
  registry_filter parseModelVersionFilter filter = Ok c →
  Forall (λ p, in_int64 p.1.2) (version_rows like (w_db w) (default_ws ws) c) →
  ∃ ps, version_pages like ws filter maxResults w
          (S (length (version_rows like (w_db w) (default_ws ws) c))) EmptyString = Some ps ∧
        concat ps = full_row ws (w_db w) <$> sort_by fst (version_rows like (w_db w) (default_ws ws) c).
Proof.
  intros Hc Hv. destruct (pages_complete fst (Z.to_nat (clampRegistry maxResults))
    (version_rows like (w_db w) (default_ws ws) c)) as (ps & Hps & Hcat).
  - unfold clampRegistry. case_decide; lia.
  - apply NoDup_version_rows.
  - exists (full_pages ws (w_db w) ps). rewrite (version_pages_eq like ws filter maxResults w c _ _ None Hc Hv), Hps by done.
    split; [done|]. rewrite <- Hcat. unfold full_pages. clear. induction ps as [|p ps IH]; [done|].
    rewrite fmap_cons. cbn [concat]. by rewrite IH, fmap_app.
Qed.

(** A search that asks only for the exclusion of prompts, the filter a client
    sends to list everything, is refused instead of listing everything. *)
Theorem prompt_exclusion_alone_rejected like ws w :
  let f := "tag.`mlflow.prompt.is_prompt` != 'true'"%string in
  stripPromptExclusion f = Ok EmptyString ∧
  (SearchRegisteredModels like ws f 10 EmptyString w).1 = Err ErrInvalidFilter.
Proof. split; reflexivity. Qed.

(** * Witnesses *)

Definition ex_mv (name stage : string) : ModelVersion :=
  mkModelVersion "" name 0 "" "" stage "s3://m" "" "" "" 0 0 [] [].
Definition ex_reg_ops : list reg_op :=
  [OpCreateModel "" (mkRegisteredModel "" "a:b" "" 0 0 [] []); OpCreateVersion "" (ex_mv "a:b" "Production");
   OpCreateVersion "" (ex_mv "a:b" ""); OpSetAlias "" "a:b" "champion" 1; OpSetVersionTag "" "a:b" 2 "k" "v"].
Definition ex_reg_w : World := foldl (λ w o, reg_exec o w) (mkWorld (seed_db 1) 0) ex_reg_ops.

Lemma ex_reg_wf : registry_wf (w_db ex_reg_w).
Proof.
  unfold ex_reg_w. generalize ex_reg_ops as ops. intros ops.
  assert (registry_wf (w_db (mkWorld (seed_db 1) 0))) as Hw by apply seed_registry_wf. revert Hw.
  generalize (mkWorld (seed_db 1) 0). induction ops as [|o ops IH]; intros w Hw; [done|].
  apply IH. by apply reg_exec_wf.
Qed.

Lemma CreateModelVersion_spec_witness :
  ∃ got w', CreateModelVersion "" (ex_mv "a:b" "Staging") ex_reg_w = (Ok got, w') ∧ 1 ≤ mv_Version got ∧ 2 < mv_Version got.
Proof.
  destruct (CreateModelVersion_spec "" (ex_mv "a:b" "Staging") ex_reg_w) as (v & got & w' & Hx & _ & Hv & _ & H1 & Hgt & _).
  - apply ex_reg_wf.
  - split; [reflexivity|]. split; [|split; reflexivity]. vm_compute. eexists. reflexivity.
  - exists got, w'. rewrite Hv. split; [exact Hx|]. split; [exact H1|]. apply Hgt. vm_compute. eexists. reflexivity.
Defined.

Lemma RenameRegisteredModel_spec_witness :
  model_aliases (w_db (RenameRegisteredModel "" "a:b" "c" ex_reg_w).2) !! ("default", "c", "champion")%string = Some 1.
Proof.
  pose proof (RenameRegisteredModel_spec "" "a:b" "c" ex_reg_w ex_reg_wf) as H.
  destruct (RenameRegisteredModel "" "a:b" "c" ex_reg_w) as [[m|e] w'] eqn:E.
  - destruct H as (_ & _ & _ & _ & _ & Ha & _). refine (eq_trans (Ha "champion"%string) _). vm_compute. reflexivity.
  - exfalso. vm_compute in E. discriminate E.
Defined.

Lemma alias_lifecycle_witness :
  ∃ mv, (GetModelByAlias "" "a:b" "next" (SetModelAlias "" "a:b" "next" 2 ex_reg_w).2).1 = Ok mv ∧ mv_Version mv = 2.
Proof.
  destruct (alias_lifecycle "" "a:b" "next" 2 ex_reg_w (SetModelAlias "" "a:b" "next" 2 ex_reg_w).2)
    as [(mv & Hg & _ & Hv & _) _].
  - vm_compute. reflexivity.
  - exists mv. rewrite Hg. split; [reflexivity|exact Hv].
Defined.

Lemma GetLatestModelVersions_spec_witness :
  ∃ out, GetLatestModelVersions "" "a:b" [] ex_reg_w = (Ok out, ex_reg_w) ∧
         StronglySorted (key_lt mv_CurrentStage) out.
Proof.
  destruct (GetLatestModelVersions_spec "" "a:b" [] ex_reg_w) as (out & Hx & Hs & _).
  - vm_compute. eexists. reflexivity.
  - exists out. split; [exact Hx|exact Hs].
Defined.

Lemma SearchModelVersions_pages_complete_witness :
  ∃ ps, version_pages ex_like "" "" 1 ex_reg_w 3 EmptyString = Some ps ∧
        mvKey <$> concat ps = [("a:b"%string, 1); ("a:b"%string, 2)].
Proof.
  destruct (SearchModelVersions_pages_complete ex_like "" "" 1 ex_reg_w None) as (ps & Hps & Hc).
  - reflexivity.
  - apply (bool_decide_unpack _). vm_compute. exact I.
  - exists ps. split; [exact Hps|]. rewrite Hc. vm_compute. reflexivity.
Defined.
