(* ===== verification/Prompts.v ===== *)
(** * Prompts (internal/store/sqlite.go)

    Versioned prompts with content deduplication and aliases.  SHA-256 is a
    parameter: nothing is assumed of it. *)

From S2P Require Import Prelude GoStrings Model Database Registry Sample.

Open Scope Z_scope.

Definition scanPrompt (ws name : string) (v : Z) (r : PromptRow) : Prompt :=
  mkPrompt ws name v (qr_content r) (qr_content_hash r) (qr_created_at r) (coalesce (qr_created_by r))
    (coalesce (qr_description r)).

(** The versions of a prompt, as (version, row). *)
Definition prompt_versions (d : DB) (ws name : string) : list (Z * PromptRow) :=
  omap (λ '((w, n, v), r), if decide (w = ws ∧ n = name) then Some (v, r) else None)
    (map_to_list (prompts d)).

Definition insert_prompt (ws name : string) (v : Z) (r : PromptRow) : M unit :=
  d ← get;
  if decide (is_Some (prompts d !! (ws, name, v))) then fail SqlUnique
  else if decide (is_Some (workspaces d !! ws))
  then modify (set_prompts (<[(ws, name, v) := r]> (prompts d)))
  else fail SqlForeignKey.

(** ** Creation *)

Section create.
Context `{Clock}.
(** [hex(sha256(content))]. *)
Context (sha256 : string → string).

(** The transaction body: the version that has the content already, or a new
    one. *)
Definition create_prompt_tx (ws name : string) (r : PromptRow) : M Z :=
  transaction (
    d ← get;
    match sql_max (filter (λ p, qr_content_hash p.2 = qr_content_hash r) (prompt_versions d ws name)).*1 with
    | Some v => mret v
    | None =>
        let v := sql_next (prompt_versions d ws name).*1 in
        _ ← insert_prompt ws name v r;
        mret v
    end).

Definition CreatePrompt (workspaceID : string) (p : Prompt) : M Z :=
  let ws := default_ws workspaceID in
  _ ← lift (invalidValue (ValidName (prompt_Name p) 250));
  createdAt ← (if decide (prompt_CreatedAt p = 0) then time_now else mret (prompt_CreatedAt p));
  retryWriteRace (create_prompt_tx ws (prompt_Name p)
    (mkPromptRow (prompt_Content p) (sha256 (prompt_Content p)) createdAt
       (nilIfEmpty (prompt_CreatedBy p)) (nilIfEmpty (prompt_Description p)))).
End create.

(** ** Reads *)

Definition GetPromptVersion (workspaceID name : string) (version : Z) : M Prompt :=
  let ws := default_ws workspaceID in
  d ← get;
  lift (of_option ErrNotFound (scanPrompt ws name version <$> prompts d !! (ws, name, version))).

(** [ORDER BY version DESC LIMIT 1]. *)
Definition GetLatestPrompt (workspaceID name : string) : M Prompt :=
  let ws := default_ws workspaceID in
  d ← get;
  lift (of_option ErrNotFound
    ((λ p, scanPrompt ws name p.1 p.2) <$> head (sort_by (λ p, Desc p.1) (prompt_versions d ws name)))).

Definition ListPromptVersions (workspaceID name : string) : M (list Prompt) :=
  let ws := default_ws workspaceID in
  d ← get;
  mret ((λ p, scanPrompt ws name p.1 p.2) <$> sort_by (λ p, Desc p.1) (prompt_versions d ws name)).

(** [JOIN (SELECT name, MAX(version) ... GROUP BY name)], newest first; ties,
    which SQL leaves open, by name. *)
Definition ListPrompts (workspaceID : string) : M (list Prompt) :=
  let ws := default_ws workspaceID in
  d ← get;
  mret (sort_by (λ p, (Desc (prompt_CreatedAt p), prompt_Name p))
    (omap (λ '((w, n, v), r),
       if decide (w = ws ∧ sql_max (prompt_versions d ws n).*1 = Some v)
       then Some (scanPrompt ws n v r) else None) (map_to_list (prompts d)))).

(** ** Aliases *)

Definition SetPromptAlias (workspaceID name alias : string) (version : Z) : M unit :=
  let ws := default_ws workspaceID in
  _ ← GetPromptVersion ws name version;
  modify (λ d, set_prompt_aliases (<[(ws, name, alias) := version]> (prompt_aliases d)) d).

Definition GetPromptByAlias (workspaceID name alias : string) : M Prompt :=
  let ws := default_ws workspaceID in
  d ← get;
  match prompt_aliases d !! (ws, name, alias) with
  | None => fail ErrNotFound
  | Some v => GetPromptVersion ws name v
  end.

(** * Theorems *)

Lemma elem_of_prompt_versions d ws n v r :
  (v, r) ∈ prompt_versions d ws n ↔ prompts d !! (ws, n, v) = Some r.
Proof.
  unfold prompt_versions. rewrite list_elem_of_omap, <- elem_of_map_to_list. split.
  - intros ([[[w' n'] v'] r'] & Hp & Heq). case_decide as Hd; [|done]. destruct Hd as [-> ->]. by simplify_eq.
  - intros Hp. exists (ws, n, v, r). by rewrite decide_True.
Qed.

Lemma NoDup_prompt_versions d ws n : NoDup (prompt_versions d ws n).*1.
Proof.
  apply (NoDup_fmap_omap _ fst _ (λ v, (ws, n, v))); [|apply NoDup_fst_map_to_list].
  intros [[[w' n'] v'] r'] p Heq. case_decide as Hd; [|done]. destruct Hd as [-> ->]. by simplify_eq/=.
Qed.

Lemma next_prompt_fresh d ws n : prompts d !! (ws, n, sql_next (prompt_versions d ws n).*1) = None.
Proof.
  apply eq_None_not_Some. intros [r Hr%elem_of_prompt_versions].
  apply (list_elem_of_fmap_2 fst), sql_next_gt in Hr. cbn in Hr. lia.
Qed.

(** The highest version of a prompt that has a given hash. *)
Lemma same_hash_Some d ws n h v :
  sql_max (filter (λ p, qr_content_hash p.2 = h) (prompt_versions d ws n)).*1 = Some v →
  ∃ r, prompts d !! (ws, n, v) = Some r ∧ qr_content_hash r = h.
Proof.
  intros [Hin _]%sql_max_Some. apply list_elem_of_fmap in Hin as ([v' r] & -> & Hp).
  apply list_elem_of_filter in Hp as [? ?%elem_of_prompt_versions]. by exists r.
Qed.

Lemma same_hash_None d ws n h :
  sql_max (filter (λ p, qr_content_hash p.2 = h) (prompt_versions d ws n)).*1 = None →
  ∀ v r, prompts d !! (ws, n, v) = Some r → qr_content_hash r ≠ h.
Proof.
  intros Hn%sql_max_None v r Hr Hh. apply fmap_nil_inv in Hn.
  assert ((v, r) ∈ filter (λ p, qr_content_hash p.2 = h) (prompt_versions d ws n)) as Hin
    by (apply list_elem_of_filter; split; [done|by apply elem_of_prompt_versions]).
  rewrite Hn in Hin. by apply elem_of_nil in Hin.
Qed.

(** The transaction succeeds on its first attempt, or fails on the workspace. *)
Lemma create_prompt_tx_exec ws n r w :
  is_Some (workspaces (w_db w) !! ws) →
  retryWriteRace (create_prompt_tx ws n r) w =
  match sql_max (filter (λ p, qr_content_hash p.2 = qr_content_hash r) (prompt_versions (w_db w) ws n)).*1 with
  | Some v => (Ok v, w)
  | None =>
      let v := sql_next (prompt_versions (w_db w) ws n).*1 in
      (Ok v, mkWorld (set_prompts (<[(ws, n, v) := r]> (prompts (w_db w))) (w_db w)) (w_tick w))
  end.
Proof.
  intros Hw. unfold retryWriteRace. cbn [retry_race]. unfold create_prompt_tx, transaction. rewrite get_bind.
  destruct (sql_max _) as [v|]; [done|]. cbv zeta. unfold insert_prompt. rewrite bind_bind, get_bind.
  rewrite decide_False by (rewrite next_prompt_fresh; by intros [? ?]). by rewrite decide_True.
Qed.

Lemma CreatePrompt_exec `{Clock} sha256 ws p u :
  ValidName (prompt_Name p) 250 = Ok tt →
  ∃ r u', qr_content r = prompt_Content p ∧ qr_content_hash r = sha256 (prompt_Content p) ∧ w_db u' = w_db u ∧
    CreatePrompt sha256 ws p u = retryWriteRace (create_prompt_tx (default_ws ws) (prompt_Name p) r) u'.
Proof.
  intros HN. unfold CreatePrompt. rewrite HN. cbn [invalidValue]. rewrite lift_Ok_bind.
  case_decide; [rewrite now_bind|rewrite ret_bind]; eexists _, _; split_and!; [| | |reflexivity| | | |reflexivity]; done.
Qed.

(** Creating a prompt.  In an existing workspace a call with a valid name
    succeeds; the returned version stores the hash of the content, it is a
    version that had this hash already (and then nothing changes) or a new
    highest one that stores the content itself; no stored version changes,
    and creating the same content again returns the same version and changes
    nothing. *)
Theorem CreatePrompt_spec `{Clock} sha256 ws p w :
  let W := default_ws ws in
  ValidName (prompt_Name p) 250 = Ok tt → is_Some (workspaces (w_db w) !! W) →
  ∃ v w' got,
    CreatePrompt sha256 ws p w = (Ok v, w') ∧
    GetPromptVersion ws (prompt_Name p) v w' = (Ok got, w') ∧
    prompt_ContentHash got = sha256 (prompt_Content p) ∧
    (∀ k r, prompts (w_db w) !! k = Some r → prompts (w_db w') !! k = Some r) ∧
    ((w_db w' = w_db w) ∨
     (prompt_Content got = prompt_Content p ∧
      ∀ u, is_Some (prompts (w_db w) !! (W, prompt_Name p, u)) → u < v)) ∧
    ∃ w'', CreatePrompt sha256 ws p w' = (Ok v, w'') ∧ w_db w'' = w_db w'.
Proof.
  cbv zeta. intros HN Hws. set (W := default_ws ws) in *.
  set (h := sha256 (prompt_Content p)).
  pose proof (λ u, CreatePrompt_exec sha256 ws p u HN) as Hcreate. fold W h in Hcreate.
  destruct (Hcreate w) as (r & u & Hr1 & Hr2 & Hu & ->). rewrite <- Hu in Hws.
  rewrite (create_prompt_tx_exec _ _ _ _ Hws), Hr2, Hu.
  destruct (sql_max _) as [v|] eqn:E.
  - destruct (same_hash_Some _ _ _ _ _ E) as (r0 & Hr0 & Hh). exists v, u.
    exists (scanPrompt W (prompt_Name p) v r0). split_and!; [done| |done|by rewrite Hu|by left|].
    + unfold GetPromptVersion. rewrite get_bind, Hu. fold W. by rewrite Hr0.
    + destruct (Hcreate u) as (r' & u' & _ & Hr' & Hu' & ->).
      rewrite (create_prompt_tx_exec _ _ _ _) by (by rewrite Hu').
      rewrite Hr', Hu', Hu, E. exists u'. split; [done|congruence].
  - set (v := sql_next _). eexists v, _, _. split_and!; [reflexivity| | | | |].
    + unfold GetPromptVersion. rewrite get_bind. cbn. fold W. by rewrite lookup_insert_eq.
    + done.
    + intros k r0 Hk. cbn. rewrite lookup_insert_ne; [done|]. intros <-.
      unfold v in Hk. by rewrite next_prompt_fresh in Hk.
    + right. split; [done|]. intros x [r0 Hx%elem_of_prompt_versions].
      by apply (list_elem_of_fmap_2 fst), sql_next_gt in Hx.
    + match goal with |- ∃ w'', CreatePrompt _ _ _ ?x = _ ∧ _ => destruct (Hcreate x) as (r' & u' & _ & Hr' & Hu' & ->) end.
      rewrite (create_prompt_tx_exec _ _ _ _) by (rewrite Hu'; cbn; by rewrite <- Hu).
      rewrite Hr'. destruct (sql_max (filter _ (prompt_versions (w_db u') _ _)).*1) as [v'|] eqn:E'.
      * exists u'. split; [|done]. do 2 f_equal. rewrite Hu' in E'.
        apply same_hash_Some in E' as (r0 & Hr0 & Hh0). cbn in Hr0.
        apply lookup_insert_Some in Hr0 as [[[= <-] _]|[_ Hr0]]; [done|].
        exfalso. by apply (same_hash_None _ _ _ _ E _ _ Hr0).
      * exfalso. rewrite Hu' in E'. apply (same_hash_None _ _ _ _ E' v r); [cbn; apply lookup_insert_eq|done].
Qed.

(** Creation keeps every stored version and every alias. *)
Lemma CreatePrompt_grows `{Clock} sha256 ws p al k r :
  Preserves (λ d, prompts d !! k = Some r ∧ prompt_aliases d = al) (CreatePrompt sha256 ws p).
Proof.
  unfold CreatePrompt. cbv zeta. apply bind_pres; [apply _|]. intros _. apply bind_pres; [case_decide; apply _|].
  intros t. apply retry_pres, transaction_pres, get_bind_pres. intros w Hw.
  destruct (sql_max _); [done|]. cbv zeta. unfold insert_prompt. rewrite bind_bind, get_bind.
  rewrite decide_False by (rewrite next_prompt_fresh; by intros [? ?]). case_decide; [|done].
  rewrite modify_bind. cbn. rewrite lookup_insert_ne; [done|]. intros <-. destruct Hw as [Hw _].
  by rewrite next_prompt_fresh in Hw.
Qed.

(** The life of a prompt alias.  An alias resolves to the version it was
    set to, and keeps resolving to it after any creation of prompts. *)
Theorem prompt_alias_stable `{Clock} sha256 ws n a v w w1 ws' p :
  SetPromptAlias ws n a v w = (Ok tt, w1) →
  let w2 := (CreatePrompt sha256 ws' p w1).2 in
  ∃ got, GetPromptByAlias ws n a w1 = (Ok got, w1) ∧ GetPromptByAlias ws n a w2 = (Ok got, w2) ∧
         prompt_Name got = n ∧ prompt_Version got = v.
Proof.
  cbv zeta. unfold SetPromptAlias. intros Hx. apply bind_exec_Ok in Hx as (got & w0 & Hg & Hx).
  unfold GetPromptVersion in Hg. rewrite get_bind, default_ws_idemp in Hg. injection Hg as Hg <-.
  destruct (prompts (w_db w) !! _) as [r|] eqn:Er; [|done]. injection Hg as <-. injection Hx as <-.
  set (w1 := mkWorld _ _).
  assert (∀ u, prompts (w_db u) !! (default_ws ws, n, v) = Some r →
    prompt_aliases (w_db u) !! (default_ws ws, n, a) = Some v →
    GetPromptByAlias ws n a u = (Ok (scanPrompt (default_ws ws) n v r), u)) as Hget.
  { intros u Hp Ha. unfold GetPromptByAlias. rewrite get_bind, Ha.
    unfold GetPromptVersion. by rewrite get_bind, default_ws_idemp, Hp. }
  assert (prompt_aliases (w_db w1) !! (default_ws ws, n, a) = Some v) as Ha by apply lookup_insert_eq.
  eexists. split_and!; [by apply Hget| |done|done].
  pose proof (CreatePrompt_grows sha256 ws' p (prompt_aliases (w_db w1)) (default_ws ws, n, v) r w1 (conj Er eq_refl)) as [? Hal].
  apply Hget; [done|]. by rewrite Hal.
Qed.

(** * Witnesses *)

(** A stand-in for SHA-256. *)
Definition ex_hash (s : string) : string := FormatInt (Z.of_nat (slen s)).
Definition ex_prompt (content : string) : Prompt := mkPrompt "" "greet" 0 content "" 0 "" "".
Definition ex_prompt_w : World := (CreatePrompt ex_hash "" (ex_prompt "hello") (mkWorld (seed_db 1) 0)).2.

Lemma CreatePrompt_spec_witness :
  ∃ v w', CreatePrompt ex_hash "" (ex_prompt "hello there") ex_prompt_w = (Ok v, w') ∧
          is_Some (prompts (w_db w') !! ("default", "greet", 1)%string).
Proof.
  destruct (CreatePrompt_spec ex_hash "" (ex_prompt "hello there") ex_prompt_w) as (v & w' & got & Hx & _ & _ & Hk & _).
  - reflexivity.
  - vm_compute. eexists. reflexivity.
  - exists v, w'. split; [exact Hx|]. eexists. apply (Hk ("default", "greet", 1)%string). vm_compute. reflexivity.
Defined.

Lemma prompt_alias_stable_witness :
  ∃ got, (GetPromptByAlias "" "greet" "prod" (SetPromptAlias "" "greet" "prod" 1 ex_prompt_w).2).1 = Ok got ∧
         prompt_Version got = 1.
Proof.
  destruct (prompt_alias_stable ex_hash "" "greet" "prod" 1 ex_prompt_w
    (SetPromptAlias "" "greet" "prod" 1 ex_prompt_w).2 "" (ex_prompt "x")) as (got & Hg & _ & _ & Hv).
  - vm_compute. reflexivity.
  - exists got. rewrite Hg. split; [reflexivity|exact Hv].
Defined.
