(* ===== verification/Workspaces.v ===== *)
(** * Workspaces and members (internal/store/workspaces.go)

    The tenants of the store: creation, guarded deletion, and the roles of
    their members. *)

From S2P Require Import Prelude GoStrings Model Database Runs Experiments Sample.
From Stdlib Require Import Ascii.

Open Scope Z_scope.

(** ** Validation *)

Definition slug_char (c : ascii) : bool := byte_in 97 122 c || byte_in 48 57 c || byte_is 45 c.

Definition validateWorkspaceID (id : string) : result unit :=
  _ ← guard_err (bool_decide (id = EmptyString)) ErrOther;
  _ ← guard_err (64 <? Z.of_nat (slen id)) ErrOther;
  guard_err (any_byte (λ c, negb (slug_char c)) id) ErrOther.

(** ** Workspaces *)

Definition scanWorkspace (id : string) (r : WorkspaceRow) : Workspace :=
  mkWorkspace id (wr_name r) (coalesce (wr_description r)) (wr_creation_time r) (wr_last_update_time r).

Definition GetWorkspace (id : string) : M Workspace :=
  d ← get; lift (of_option ErrNotFound (scanWorkspace id <$> workspaces d !! id)).

(** [ORDER BY creation_time ASC]; ties, which SQL leaves open, by id. *)
Definition ListWorkspaces : M (list Workspace) :=
  d ← get;
  mret (sort_by (λ w, (ws_CreationTime w, ws_ID w))
    ((λ '(id, r), scanWorkspace id r) <$> map_to_list (workspaces d))).

Section writes.
Context `{Clock}.

Definition CreateWorkspace (x : Workspace) : M unit :=
  _ ← lift (invalidValue (validateWorkspaceID (ws_ID x)));
  _ ← lift (guard_err (bool_decide (ws_Name x = EmptyString)) ErrInvalidValue);
  now ← time_now;
  d ← get;
  if decide (is_Some (workspaces d !! ws_ID x)) then fail ErrAlreadyExists
  else modify (set_workspaces (<[ws_ID x := mkWorkspaceRow (ws_Name x) (nilIfEmpty (ws_Description x))
         (if decide (ws_CreationTime x = 0) then now else ws_CreationTime x)
         (if decide (ws_LastUpdateTime x = 0) then now else ws_LastUpdateTime x)]> (workspaces d))).

Definition UpdateWorkspace (id : string) (name description : option string) : M unit :=
  _ ← lift (guard_err (bool_decide (name = Some EmptyString)) ErrInvalidValue);
  if decide (name = None ∧ description = None) then mret tt else
  now ← time_now;
  d ← get;
  match workspaces d !! id with
  | None => fail ErrNotFound
  | Some r => modify (set_workspaces (<[id := mkWorkspaceRow (default (wr_name r) name)
                (match description with Some s => nilIfEmpty s | None => wr_description r end)
                (wr_creation_time r) now]> (workspaces d)))
  end.
End writes.

(** [workspaceOwnedTables]: whether the workspace owns a row of one of them. *)
Definition owns_rows (d : DB) (id : string) : bool :=
  existsb (λ b, b)
    [bool_decide (Exists (λ p, er_workspace_id p.2 = id) (map_to_list (rows (experiments d))));
     bool_decide (Exists (λ p, p.1.1 = id) (map_to_list (registered_models d)));
     bool_decide (Exists (λ p, p.1.1.1 = id) (map_to_list (prompts d)));
     bool_decide (Exists (λ p, xr_workspace_id p.2 = id) (map_to_list (rows (datasets_v2 d))));
     bool_decide (Exists (λ p, hr_workspace_id p.2 = id) (map_to_list (rows (webhooks d))));
     bool_decide (Exists (λ p, pr_workspace_id p.2 = id) (map_to_list (rows (peers d))))].

(** [DELETE FROM workspaces]: the rows that reference the workspace with
    ON DELETE CASCADE go with it. *)
Definition cascade_workspace (id : string) (d : DB) : DB :=
  let d := set_workspaces (delete id (workspaces d)) d in
  let d := set_members (filter (λ p, p.1.1 ≠ id) (members d)) d in
  let d := set_experiments (serial_filter (λ p, er_workspace_id p.2 ≠ id) (experiments d)) d in
  let d := set_registered_models (filter (λ p, p.1.1 ≠ id) (registered_models d)) d in
  set_prompts (filter (λ p, p.1.1.1 ≠ id) (prompts d)) d.

Definition DeleteWorkspace (id : string) : M unit :=
  if decide (id = "default"%string) then fail ErrConflict else
  transaction (
    d ← get;
    if decide (workspaces d !! id = None) then fail ErrNotFound
    else if owns_rows d id then fail ErrConflict
    else
      _ ← modify (cascade_workspace id);
      modify (λ d, set_dashboards (serial_filter (λ p, dr_workspace_id p.2 ≠ id) (dashboards d)) d)).

(** ** Members *)

Definition valid_role (role : string) : bool := bool_decide (role ∈ ["viewer"; "editor"; "admin"]%string).

Definition AddMember (workspaceID userID role : string) : M unit :=
  _ ← lift (guard_err (negb (valid_role role)) ErrInvalidValue);
  _ ← GetWorkspace workspaceID;
  modify (λ d, set_members (<[(workspaceID, userID) := role]> (members d)) d).

Definition RemoveMember (workspaceID userID : string) : M unit :=
  d ← get;
  if decide (is_Some (members d !! (workspaceID, userID)))
  then modify (set_members (delete (workspaceID, userID) (members d)))
  else fail ErrNotFound.

Definition ListMembers (workspaceID : string) : M (list WorkspaceMember) :=
  d ← get;
  mret (sort_by mem_UserID
    (omap (λ '((w, u), r), if decide (w = workspaceID) then Some (mkMember w u r) else None)
       (map_to_list (members d)))).

Definition GetMemberRole (workspaceID userID : string) : M string :=
  d ← get; lift (of_option ErrNotFound (members d !! (workspaceID, userID))).

(** * Deletion *)

Lemma owns_rows_false d id :
  owns_rows d id = false →
  (∀ i r, rows (experiments d) !! i = Some r → er_workspace_id r ≠ id) ∧
  (∀ k r, registered_models d !! k = Some r → k.1 ≠ id) ∧
  (∀ k r, prompts d !! k = Some r → k.1.1 ≠ id) ∧
  (∀ i r, rows (datasets_v2 d) !! i = Some r → xr_workspace_id r ≠ id) ∧
  (∀ i r, rows (webhooks d) !! i = Some r → hr_workspace_id r ≠ id) ∧
  (∀ i r, rows (peers d) !! i = Some r → pr_workspace_id r ≠ id).
Proof.
  unfold owns_rows. cbn [existsb]. rewrite !orb_false_iff, !bool_decide_eq_false.
  intros (H1 & H2 & H3 & H4 & H5 & H6 & _).
  split_and!; intros k r Hr Hk;
    [apply H1|apply H2|apply H3|apply H4|apply H5|apply H6];
    apply Exists_exists; exists (k, r); by rewrite elem_of_map_to_list.
Qed.

Lemma map_filter_all `{Countable K} {V} (P : K * V → Prop) `{∀ x, Decision (P x)} (t : gmap K V) :
  (∀ k v, t !! k = Some v → P (k, v)) → filter P t = t.
Proof. intros HP. apply map_filter_id. done. Qed.

(** The guard makes the cascade empty for everything but memberships. *)
Lemma cascade_workspace_eq d id :
  owns_rows d id = false →
  cascade_workspace id d =
    set_members (filter (λ p, p.1.1 ≠ id) (members d)) (set_workspaces (delete id (workspaces d)) d).
Proof.
  intros (H1 & H2 & H3 & _)%owns_rows_false. destruct d as [tn tk rg ds].
  destruct tk as [ex ? ? ? ? ? ? ? ? ? ?]. destruct rg as [rm ? ? ? ? pr ?]. destruct ex as [er es].
  unfold cascade_workspace, serial_filter. cbn in *.
  rewrite (map_filter_all _ er), (map_filter_all _ rm), (map_filter_all _ pr); [done|..].
  - intros k v Hk. by apply (H3 k v).
  - intros k v Hk. by apply (H2 k v).
  - intros k v Hk. by apply (H1 k v).
Qed.

Lemma DeleteWorkspace_effect id w :
  match DeleteWorkspace id w with
  | (Err e, w') => w_db w' = w_db w
  | (Ok _, w') => id ≠ "default"%string ∧ workspaces (w_db w') = delete id (workspaces (w_db w)) ∧
      members (w_db w') = filter (λ p, p.1.1 ≠ id) (members (w_db w))
  end.
Proof.
  unfold DeleteWorkspace. case_decide as Hd; [done|].
  unfold transaction. rewrite get_bind. case_decide as Hn; [done|].
  destruct (owns_rows (w_db w) id) eqn:Ho; [done|].
  rewrite modify_bind. unfold modify. by rewrite cascade_workspace_eq.
Qed.

(** Deleting a workspace.  The default workspace and a workspace that owns
    experiments, models, prompts, datasets, webhooks or peers are refused and
    nothing changes; a deletion that succeeds removes the workspace with its
    memberships and dashboards and no row of any other table: the cascading
    foreign keys never reach user data. *)
Theorem DeleteWorkspace_spec id w :
  match DeleteWorkspace id w with
  | (Err e, w') => w_db w' = w_db w ∧
      ((e = ErrConflict ∧ (id = "default"%string ∨ owns_rows (w_db w) id = true)) ∨
       (e = ErrNotFound ∧ workspaces (w_db w) !! id = None))
  | (Ok _, w') =>
      id ≠ "default"%string ∧ is_Some (workspaces (w_db w) !! id) ∧
      workspaces (w_db w') = delete id (workspaces (w_db w)) ∧
      members (w_db w') = filter (λ p, p.1.1 ≠ id) (members (w_db w)) ∧
      dashboards (w_db w') = serial_filter (λ p, dr_workspace_id p.2 ≠ id) (dashboards (w_db w)) ∧
      db_track (w_db w') = db_track (w_db w) ∧ db_registry (w_db w') = db_registry (w_db w) ∧
      db_dataset (w_db w') = db_dataset (w_db w) ∧ webhooks (w_db w') = webhooks (w_db w) ∧
      peers (w_db w') = peers (w_db w) ∧ sessions (w_db w') = sessions (w_db w)
  end.
Proof.
  unfold DeleteWorkspace. case_decide as Hd; [cbn; by auto|].
  unfold transaction. rewrite get_bind. case_decide as Hn; [cbn; by auto|].
  destruct (owns_rows (w_db w) id) eqn:Ho; [cbn; by auto|].
  rewrite modify_bind. cbn [modify]. unfold modify. rewrite cascade_workspace_eq by done.
  split_and!; try done. by apply not_eq_None_Some.
Qed.

(** * Tenancy under any sequence of calls *)

(** One call of the store on workspaces or members. *)
Inductive tenant_step `{Clock} : World → World → Prop :=
  | step_create x w : tenant_step w (CreateWorkspace x w).2
  | step_update id n s w : tenant_step w (UpdateWorkspace id n s w).2
  | step_delete id w : tenant_step w (DeleteWorkspace id w).2
  | step_add ws u r w : tenant_step w (AddMember ws u r w).2
  | step_remove ws u w : tenant_step w (RemoveMember ws u w).2.

(** The default workspace exists, ids are slugs, and every member has a legal
    role in an existing workspace. *)
Record tenant_wf (d : DB) : Prop := {
  wf_default : is_Some (workspaces d !! "default"%string);
  wf_slug id : is_Some (workspaces d !! id) → validateWorkspaceID id = Ok tt;
  wf_member ws u r : members d !! (ws, u) = Some r → is_Some (workspaces d !! ws) ∧ valid_role r = true }.

Section tenancy.
Context `{Clock}.

Lemma wf_insert_workspace id r d :
  tenant_wf d → validateWorkspaceID id = Ok tt →
  tenant_wf (set_workspaces (<[id := r]> (workspaces d)) d).
Proof.
  intros [H1 H2 H3] Hid. split; cbn.
  - rewrite lookup_insert_is_Some'. by right.
  - intros id'. rewrite lookup_insert_is_Some'. intros [<-|?]; auto.
  - intros ws u r' Hr. apply H3 in Hr as [? ?]. rewrite lookup_insert_is_Some'. auto.
Qed.

Lemma CreateWorkspace_wf x : Preserves tenant_wf (CreateWorkspace x).
Proof.
  intros w Hw. unfold CreateWorkspace. destruct (validateWorkspaceID (ws_ID x)) as [[]|] eqn:E; [|done].
  cbn [invalidValue]. rewrite lift_Ok_bind. unfold guard_err. destruct (bool_decide _); [done|].
  rewrite lift_Ok_bind, now_bind, get_bind. case_decide; [done|]. cbn. by apply wf_insert_workspace.
Qed.

Lemma UpdateWorkspace_wf id n s : Preserves tenant_wf (UpdateWorkspace id n s).
Proof.
  unfold UpdateWorkspace. apply bind_pres; [apply _|]. intros _. case_decide; [apply _|].
  apply bind_pres; [apply _|]. intros now. apply get_bind_pres. intros w Hw.
  destruct (workspaces (w_db w) !! id) eqn:E; [|done]. cbn.
  apply wf_insert_workspace; [done|]. by apply (wf_slug _ Hw); eexists.
Qed.

Lemma DeleteWorkspace_wf id : Preserves tenant_wf (DeleteWorkspace id).
Proof.
  intros w [H1 H2 H3]. pose proof (DeleteWorkspace_effect id w) as Hx.
  destruct (DeleteWorkspace id w) as [[[]|e] w']; cbn in *; [|by rewrite Hx].
  destruct Hx as (Hne & Hws & Hm). split.
  - rewrite Hws, lookup_delete_ne by done. done.
  - intros id'. rewrite Hws, lookup_delete_is_Some. intros [_ ?]. auto.
  - intros ws u r Hr. rewrite Hm in Hr. apply map_lookup_filter_Some in Hr as [Hr Hne']. cbn in Hne'.
    apply H3 in Hr as [? ?]. by rewrite Hws, lookup_delete_ne.
Qed.

Lemma AddMember_wf ws u r : Preserves tenant_wf (AddMember ws u r).
Proof.
  intros w Hw. unfold AddMember, guard_err. destruct (valid_role r) eqn:Er; [|done]. cbn [negb].
  rewrite lift_Ok_bind. unfold GetWorkspace. rewrite bind_bind, get_bind.
  destruct (workspaces (w_db w) !! ws) as [x|] eqn:E; [|done]. cbn [fmap option_fmap option_map of_option].
  rewrite lift_Ok_bind. destruct Hw as [H1 H2 H3]. split; cbn; [done|done|].
  intros ws' u' r' Hr. apply lookup_insert_Some in Hr as [[[= <- <-] <-]|[_ Hr]]; [by rewrite E; eauto|eauto].
Qed.

Lemma RemoveMember_wf ws u : Preserves tenant_wf (RemoveMember ws u).
Proof.
  apply get_bind_pres. intros w [H1 H2 H3]. case_decide; [|done]. split; cbn; [done|done|].
  intros ws' u' r' Hr. apply lookup_delete_Some in Hr as [_ Hr]. eauto.
Qed.
End tenancy.

(** Tenancy.  Whatever calls are made on workspaces and members of a fresh
    database, the default workspace exists, every workspace id is a slug, and
    every member has a legal role in a workspace that exists. *)
Theorem tenancy_invariant `{Clock} t w :
  rtc tenant_step (mkWorld (seed_db t) 0) w → tenant_wf (w_db w).
Proof.
  assert (tenant_wf (seed_db t)) as H0.
  { split; cbn.
    - by rewrite lookup_singleton_eq.
    - intros id [x Hx]. apply lookup_singleton_Some in Hx as [<- _]. done.
    - intros ws u r Hr. by rewrite lookup_empty in Hr. }
  intros Hsteps. change (seed_db t) with (w_db (mkWorld (seed_db t) 0)) in H0. revert H0.
  induction Hsteps as [w|w1 w2 w3 Hstep _ IH]; [done|]. intros Hw. apply IH.
  destruct Hstep; revert Hw.
  - apply CreateWorkspace_wf.
  - apply UpdateWorkspace_wf.
  - apply DeleteWorkspace_wf.
  - apply AddMember_wf.
  - apply RemoveMember_wf.
Qed.

(** * Witnesses *)

Lemma tenancy_invariant_witness :
  is_Some (workspaces (w_db (DeleteWorkspace "default" (mkWorld (seed_db 1) 0)).2) !! "default"%string).
Proof.
  apply wf_default. apply (tenancy_invariant 1). apply rtc_once. constructor.
Defined.
