(* ===== verification/Sessions.v ===== *)
(** * Login sessions (internal/store/sessions.go)

    The sessions a cookie names: created at login, read and touched by every
    request, deleted at logout and collected when they have expired. *)

From S2P Require Import Prelude GoStrings Model Database Runs Experiments Sample.

Open Scope Z_scope.

Definition scan_session (id : string) (r : SessionRow) : Session :=
  mkSession id (sr_user_id r) (coalesce (sr_user_email r)) (coalesce (sr_user_name r)) (sr_auth_method r)
    (sr_created_at r) (sr_expires_at r) (sr_last_seen r).

Definition with_last_seen (t : Z) (r : SessionRow) : SessionRow :=
  mkSessionRow (sr_user_id r) (sr_user_email r) (sr_user_name r) (sr_auth_method r) (sr_created_at r)
    (sr_expires_at r) t.

Section sessions.
Context `{Clock}.

Definition CreateSession (s : Session) : M unit :=
  if decide (sess_ID s = EmptyString) then fail ErrOther else
  now ← time_now;
  d ← get;
  if decide (is_Some (sessions d !! sess_ID s)) then fail ErrAlreadyExists
  else modify (set_sessions (<[sess_ID s := mkSessionRow (sess_UserID s) (nilIfEmpty (sess_UserEmail s))
         (nilIfEmpty (sess_UserName s)) (sess_AuthMethod s)
         (if decide (sess_CreatedAt s = 0) then now else sess_CreatedAt s) (sess_ExpiresAt s)
         (if decide (sess_LastSeen s = 0) then now else sess_LastSeen s)]> (sessions d))).

Definition GetSession (id : string) : M Session :=
  d ← get;
  s ← lift (of_option ErrNotFound (scan_session id <$> sessions d !! id));
  now ← time_now;
  if decide (sess_ExpiresAt s < now) then fail ErrNotFound else mret s.

Definition TouchSession (id : string) (lastSeen : Z) : M unit :=
  now ← time_now;
  d ← get;
  match sessions d !! id with
  | Some r => if decide (now < sr_expires_at r)
              then modify (set_sessions (<[id := with_last_seen lastSeen r]> (sessions d)))
              else fail ErrNotFound
  | None => fail ErrNotFound
  end.

Definition DeleteSession (id : string) : M unit :=
  d ← get;
  if decide (is_Some (sessions d !! id)) then modify (set_sessions (delete id (sessions d)))
  else fail ErrNotFound.

Definition GarbageCollectSessions : M Z :=
  now ← time_now;
  d ← get;
  let kept := filter (λ p, ¬ sr_expires_at p.2 < now) (sessions d) in
  _ ← modify (set_sessions kept);
  mret (Z.of_nat (size (sessions d)) - Z.of_nat (size kept)).

(** ** The life of a session *)

(** Calls of the store on sessions. *)
Inductive SessionOp :=
  | OpCreate (s : Session) | OpGet (id : string) | OpTouch (id : string) (t : Z)
  | OpDelete (id : string) | OpCollect.

Definition exec_session (o : SessionOp) (w : World) : World :=
  match o with
  | OpCreate s => (CreateSession s w).2
  | OpGet id => (GetSession id w).2
  | OpTouch id t => (TouchSession id t w).2
  | OpDelete id => (DeleteSession id w).2
  | OpCollect => (GarbageCollectSessions w).2
  end.

(** The operation does not log [id] in or out. *)
Definition spares (id : string) (o : SessionOp) : Prop :=
  match o with
  | OpCreate s => sess_ID s ≠ id
  | OpDelete i => i ≠ id
  | _ => True
  end.

(** What identifies a session: who, how, and until when. *)
Definition session_key (r : SessionRow) : string * string * Z :=
  (sr_user_id r, sr_auth_method r, sr_expires_at r).

(** The stored session: there with its identity, or expired and collected. *)
Definition alive (id : string) (k : string * string * Z) (w : World) : Prop :=
  match sessions (w_db w) !! id with
  | Some r => session_key r = k
  | None => k.2 < clock (w_tick w)
  end.

Definition absent (id : string) (w : World) : Prop := sessions (w_db w) !! id = None.

(** Every operation that spares [id] leaves its row, changes only when it was
    last seen, or removes it after its expiry. *)
Lemma exec_session_row `{!ClockOk} id o w :
  spares id o →
  (w_tick w ≤ w_tick (exec_session o w))%nat ∧
  (session_key <$> sessions (w_db (exec_session o w)) !! id = session_key <$> sessions (w_db w) !! id ∨
   ∃ r, sessions (w_db w) !! id = Some r ∧ sessions (w_db (exec_session o w)) !! id = None ∧
        sr_expires_at r < clock (w_tick w)).
Proof.
  destruct o as [s|i|i t|i|]; cbn [exec_session spares]; intros Ho.
  - unfold CreateSession. case_decide; [cbn; auto|]. rewrite now_bind, get_bind. cbn [w_db w_tick].
    case_decide; cbn; (split; [lia|]); left; [done|]. by rewrite lookup_insert_ne.
  - unfold GetSession. rewrite get_bind. destruct (sessions (w_db w) !! i); [|cbn; auto].
    cbn [fmap option_fmap option_map of_option]. rewrite lift_Ok_bind, now_bind. case_decide; cbn; auto.
  - unfold TouchSession. rewrite now_bind, get_bind. cbn [w_db w_tick].
    destruct (sessions (w_db w) !! i) as [r|] eqn:E; [|cbn; auto]. case_decide; cbn; (split; [lia|]); left; [|done].
    destruct (decide (i = id)) as [->|]; [by rewrite lookup_insert_eq, E|by rewrite lookup_insert_ne].
  - unfold DeleteSession. rewrite get_bind. case_decide; cbn; (split; [lia|]); left; [|done].
    by rewrite lookup_delete_ne.
  - unfold GarbageCollectSessions. rewrite now_bind, get_bind. cbv zeta. rewrite modify_bind. cbn. split; [lia|].
    destruct (sessions (w_db w) !! id) as [r|] eqn:E.
    + destruct (decide (sr_expires_at r < clock (w_tick w))) as [Hlt|Hlt].
      * right. exists r. split_and!; [done| |done]. apply map_lookup_filter_None. right. intros x Hx.
        rewrite E in Hx. injection Hx as <-. cbn. tauto.
      * left. rewrite (map_lookup_filter_Some_2 _ _ _ _ E); done.
    + left. rewrite (proj2 (map_lookup_filter_None _ _ _)); [done|]. by left.
Qed.

Lemma alive_exec `{!ClockOk} id k o w : spares id o → alive id k w → alive id k (exec_session o w).
Proof.
  intros Ho. destruct (exec_session_row id o w Ho) as [Ht Hrow]. unfold alive.
  pose proof (clock_mono _ _ Ht) as Hc.
  destruct Hrow as [Hk|(r & -> & -> & Hr)]; [|intros <-; cbn; lia].
  destruct (sessions (w_db w) !! id), (sessions (w_db (exec_session o w)) !! id); cbn in Hk; try done;
    [intros <-; congruence|lia].
Qed.

Lemma absent_exec `{!ClockOk} id o w : spares id o → absent id w → absent id (exec_session o w).
Proof.
  intros Ho Ha. destruct (exec_session_row id o w Ho) as [_ [Hk|(r & Hr & ? & _)]]; [|done].
  unfold absent in *. rewrite Ha in Hk. by destruct (sessions (w_db (exec_session o w)) !! id).
Qed.

Lemma foldl_exec `{!ClockOk} (P : World → Prop) id ops w :
  (∀ o w', spares id o → P w' → P (exec_session o w')) → Forall (spares id) ops → P w →
  P (foldl (flip exec_session) w ops).
Proof. intros HP Hops. revert w. induction Hops; intros w; cbn; eauto. Qed.

Lemma GetSession_alive id k w :
  alive id k w →
  if decide (k.2 < clock (w_tick w)) then (GetSession id w).1 = Err ErrNotFound
  else ∃ s, (GetSession id w).1 = Ok s ∧ sess_ID s = id ∧ (sess_UserID s, sess_AuthMethod s, sess_ExpiresAt s) = k.
Proof.
  unfold alive, GetSession. rewrite get_bind. destruct (sessions (w_db w) !! id) as [r|].
  - intros <-. cbn [fmap option_fmap option_map of_option]. rewrite lift_Ok_bind, now_bind. cbn.
    case_decide; cbn; [done|]. eexists. by split_and!.
  - intros ?. rewrite decide_True by done. done.
Qed.
End sessions.

(** The life of a session.  After a login, whatever calls follow that do
    not log the session out, the session reads back with its user, method and
    expiry until it expires, and as not found from then on: touching never
    prolongs it and the collector never takes a live one.  After a logout it
    reads back as not found, whatever follows, until a new login. *)
Theorem session_lifecycle `{ClockOk} s w w1 ops :
  CreateSession s w = (Ok tt, w1) → Forall (spares (sess_ID s)) ops →
  let w2 := foldl (flip exec_session) w1 ops in
  let now := clock (w_tick w2) in
  (if decide (sess_ExpiresAt s < now) then (GetSession (sess_ID s) w2).1 = Err ErrNotFound
   else ∃ s', (GetSession (sess_ID s) w2).1 = Ok s' ∧ sess_ID s' = sess_ID s ∧
     sess_UserID s' = sess_UserID s ∧ sess_AuthMethod s' = sess_AuthMethod s ∧
     sess_ExpiresAt s' = sess_ExpiresAt s) ∧
  ∀ ops', Forall (spares (sess_ID s)) ops' →
    let w3 := foldl (flip exec_session) (DeleteSession (sess_ID s) w2).2 ops' in
    (GetSession (sess_ID s) w3).1 = Err ErrNotFound.
Proof.
  intros Hc Hops. cbv zeta. set (id := sess_ID s) in *.
  assert (alive id (sess_UserID s, sess_AuthMethod s, sess_ExpiresAt s) w1) as Ha.
  { unfold CreateSession in Hc. case_decide; [done|]. rewrite now_bind, get_bind in Hc. cbn [w_db] in Hc.
    case_decide; [done|]. injection Hc as <-. unfold alive. cbn. by rewrite lookup_insert_eq. }
  apply (foldl_exec _ _ ops _ (alive_exec id _)) in Ha; [|done]. split.
  - apply GetSession_alive in Ha. cbn in Ha. case_decide; [done|].
    destruct Ha as (s' & ? & ? & [= ? ? ?]). exists s'. by split_and!.
  - intros ops' Hops'. assert (absent id (DeleteSession id (foldl (flip exec_session) w1 ops)).2) as Hd.
    { unfold DeleteSession. rewrite get_bind. unfold absent. case_decide as Hd; cbn; [by rewrite lookup_delete_eq|].
      by apply eq_None_not_Some. }
    apply (foldl_exec _ _ ops' _ (absent_exec id)) in Hd; [|done].
    unfold GetSession. rewrite get_bind. unfold absent in Hd. by rewrite Hd.
Qed.

(** * Witness *)

Definition ex_session : Session := mkSession "tok" "ann" "" "" "basic" 0 2000 0.

Definition ex_login : World := (CreateSession ex_session (mkWorld ex_db 0)).2.

Lemma session_lifecycle_witness :
  CreateSession ex_session (mkWorld ex_db 0) = (Ok tt, ex_login) ∧
  (GetSession "tok" (DeleteSession "tok" (exec_session OpCollect ex_login)).2).1 = Err ErrNotFound.
Proof.
  assert (CreateSession ex_session (mkWorld ex_db 0) = (Ok tt, ex_login)) as H by (vm_compute; reflexivity).
  split; [exact H|].
  exact (proj2 (session_lifecycle ex_session _ ex_login [OpCollect] H (Forall_cons_2 _ OpCollect _ I (Forall_nil_2 _)))
    [] (Forall_nil_2 _)).
Defined.
