(* ===== verification/Integrations.v ===== *)
(** * Federation peers, webhooks and dashboards

    The store side of the integrations: internal/store/sqlite_peers.go and the
    webhook and dashboard methods of internal/store/sqlite_lineage.go. *)

From S2P Require Import Prelude GoStrings Model Database Runs Experiments Sample.

Open Scope Z_scope.

(** ** Rows found by a unique key

    [SELECT ... WHERE P] on an AUTOINCREMENT table, lowest id first. *)

Section unique_row.
Context {V : Type} (P : Z * V → Prop) `{∀ x, Decision (P x)}.
Implicit Types t : gmap Z V.

Definition found (t : gmap Z V) : list (Z * V) := sort_by fst (filter P (map_to_list t)).

Lemma elem_of_found t i a : (i, a) ∈ found t ↔ t !! i = Some a ∧ P (i, a).
Proof. unfold found. rewrite elem_of_sort_by, list_elem_of_filter, elem_of_map_to_list. tauto. Qed.

Lemma NoDup_found t : NoDup (found t).
Proof. unfold found. rewrite sort_by_perm. apply NoDup_filter, NoDup_map_to_list. Qed.

Lemma found_nil t : found t = [] ↔ ∀ i a, t !! i = Some a → ¬ P (i, a).
Proof.
  split.
  - intros Hf i a Hi HP. assert ((i, a) ∈ found t) as Hin by (by apply elem_of_found). rewrite Hf in Hin. by apply elem_of_nil in Hin.
  - intros Hn. apply elem_of_nil_inv. intros [i a] [Hi HP]%elem_of_found. by apply (Hn i a).
Qed.

Lemma found_one t i a :
  t !! i = Some a → P (i, a) → (∀ j b, t !! j = Some b → P (j, b) → j = i) → found t = [(i, a)].
Proof.
  intros Hi HP Hu. pose proof (NoDup_found t) as Hn.
  assert (∀ x, x ∈ found t → x = (i, a)) as Hall.
  { intros [j b] [Hj Hb]%elem_of_found. pose proof (Hu j b Hj Hb) as ->. congruence. }
  assert ((i, a) ∈ found t) as Hin by (by apply elem_of_found).
  destruct (found t) as [|x [|y l]].
  - by apply elem_of_nil in Hin.
  - by rewrite (Hall x) by (by left).
  - apply NoDup_cons in Hn as [Hx _]. exfalso. apply Hx.
    rewrite (Hall x), (Hall y); [by left|right; by left|by left].
Qed.

Lemma found_ext t t' :
  (∀ i a, P (i, a) → t !! i = Some a ↔ t' !! i = Some a) → found t = found t'.
Proof.
  intros Heq. apply sort_by_unique; [apply NoDup_fmap_filter, NoDup_fst_map_to_list|].
  apply NoDup_Permutation; [apply NoDup_filter, NoDup_map_to_list..|]. intros [i a].
  rewrite !list_elem_of_filter, !elem_of_map_to_list. naive_solver.
Qed.
End unique_row.

(** ** Peers *)

Definition peer_statuses : list string := ["pending"; "connected"; "error"]%string.

(** [UNIQUE (workspace_id, name)]: the rows of one name. *)
Definition peers_named (d : DB) (ws name : string) : list (Z * PeerRow) :=
  found (λ p, pr_workspace_id p.2 = ws ∧ pr_name p.2 = name) (rows (peers d)).

(** [INSERT INTO peers]. *)
Definition insert_peer (r : PeerRow) : M Z :=
  d ← get;
  if decide (pr_status r ∉ peer_statuses) then fail SqlCheck
  else if decide (peers_named d (pr_workspace_id r) (pr_name r) ≠ []) then fail SqlUnique
  else _ ← modify (set_peers (serial_insert r (peers d)).2);
       mret (serial_insert r (peers d)).1.

Definition scanPeer (id : Z) (r : PeerRow) : Peer :=
  mkPeer id (pr_name r) (pr_url r) (pr_secret r) (pr_workspace_id r) (pr_added_at r) (pr_last_seen r)
    (pr_status r) (coalesce (pr_last_error r)).

Definition CreatePeer `{Clock} (p : Peer) : M Z :=
  if decide (peer_Name p = EmptyString) then fail ErrOther
  else if decide (peer_URL p = EmptyString) then fail ErrOther
  else if decide (peer_Secret p = EmptyString) then fail ErrOther
  else
    addedAt ← (if decide (peer_AddedAt p = 0) then time_now else mret (peer_AddedAt p));
    map_err mapUnique (insert_peer (mkPeerRow (peer_Name p) (peer_URL p) (peer_Secret p)
      (default_ws (peer_WorkspaceID p)) addedAt None
      (default_to (peer_Status p) "pending") (nilIfEmpty (peer_LastError p)))).

(** [ORDER BY added_at ASC]; ties, which SQL leaves open, by id. *)
Definition ListPeers (workspaceID : string) : M (list Peer) :=
  d ← get;
  mret (sort_by (λ p, (peer_AddedAt p, peer_ID p))
    ((λ '(id, r), scanPeer id r) <$>
       filter (λ p, pr_workspace_id p.2 = default_ws workspaceID) (map_to_list (rows (peers d))))).

Definition GetPeer (workspaceID : string) (id : Z) : M Peer :=
  d ← get;
  lift (of_option ErrNotFound (
    r ← rows (peers d) !! id;
    if decide (pr_workspace_id r = default_ws workspaceID) then Some (scanPeer id r) else None)).

Definition GetPeerByName (workspaceID name : string) : M Peer :=
  d ← get;
  lift (of_option ErrNotFound (
    (λ '(id, r), scanPeer id r) <$> head (peers_named d (default_ws workspaceID) name))).

Definition DeletePeer (workspaceID : string) (id : Z) : M unit :=
  d ← get;
  match rows (peers d) !! id with
  | Some r => if decide (pr_workspace_id r = default_ws workspaceID)
              then modify (set_peers (serial_delete id (peers d))) else fail ErrNotFound
  | None => fail ErrNotFound
  end.

Definition nilIfNonPositive (v : Z) : option Z := if decide (v ≤ 0) then None else Some v.

Definition UpdatePeerStatus (id : Z) (status lastError : string) (lastSeen : Z) : M unit :=
  if decide (status ∉ peer_statuses) then fail ErrOther else
  d ← get;
  match rows (peers d) !! id with
  | Some r => modify (set_peers (serial_set id (mkPeerRow (pr_name r) (pr_url r) (pr_secret r)
                (pr_workspace_id r) (pr_added_at r) (nilIfNonPositive lastSeen) status (nilIfEmpty lastError))
                (peers d)))
  | None => mret tt
  end.

(** ** Webhooks *)

Definition scan_webhook (id : Z) (r : WebhookRow) : Webhook :=
  mkWebhook id (hr_name r) (hr_url r) (hr_events r) (hr_experiment_id r) (hr_workspace_id r)
    (coalesce (hr_secret r)) (hr_created_at r) (hr_last_status r) (hr_last_attempt r) (hr_enabled r).

Definition CreateWebhook `{Clock} (x : Webhook) : M Z :=
  createdAt ← (if decide (wh_CreatedAt x = 0) then time_now else mret (wh_CreatedAt x));
  d ← get;
  let r := mkWebhookRow (wh_Name x) (wh_URL x) (wh_Events x) (wh_ExperimentID x)
    (default_ws (wh_WorkspaceID x)) (nilIfEmpty (wh_Secret x)) createdAt None None (wh_Enabled x) in
  _ ← modify (set_webhooks (serial_insert r (webhooks d)).2);
  mret (serial_insert r (webhooks d)).1.

Definition ListWebhooks (workspaceID : string) (expID : option Z) : M (list Webhook) :=
  d ← get;
  mret (sort_by wh_ID
    ((λ '(id, r), scan_webhook id r) <$>
       filter (λ p, hr_workspace_id p.2 = default_ws workspaceID ∧
                    (expID = None ∨ hr_experiment_id p.2 = None ∨ hr_experiment_id p.2 = expID))
         (map_to_list (rows (webhooks d))))).

Definition GetWebhook (id : Z) : M Webhook :=
  d ← get; lift (of_option ErrNotFound (scan_webhook id <$> rows (webhooks d) !! id)).

Definition UpdateWebhook (x : Webhook) : M unit :=
  d ← get;
  match rows (webhooks d) !! wh_ID x with
  | None => fail ErrNotFound
  | Some r => modify (set_webhooks (serial_set (wh_ID x) (mkWebhookRow (wh_Name x) (wh_URL x) (wh_Events x)
                (wh_ExperimentID x) (wh_WorkspaceID x) (nilIfEmpty (wh_Secret x)) (hr_created_at r)
                (hr_last_status r) (hr_last_attempt r) (wh_Enabled x)) (webhooks d)))
  end.

Definition DeleteWebhook (id : Z) : M unit :=
  d ← get;
  if decide (is_Some (rows (webhooks d) !! id)) then modify (set_webhooks (serial_delete id (webhooks d)))
  else fail ErrNotFound.

Definition RecordWebhookAttempt (id status attempt : Z) : M unit :=
  d ← get;
  match rows (webhooks d) !! id with
  | None => mret tt
  | Some r => modify (set_webhooks (serial_set id (mkWebhookRow (hr_name r) (hr_url r) (hr_events r)
                (hr_experiment_id r) (hr_workspace_id r) (hr_secret r) (hr_created_at r) (Some status)
                (Some attempt) (hr_enabled r)) (webhooks d)))
  end.

(** ** Dashboards *)

Definition dashboards_at (d : DB) (ws project : string) : list (Z * DashboardRow) :=
  found (λ p, dr_workspace_id p.2 = ws ∧ dr_project p.2 = project) (rows (dashboards d)).

Definition scan_dashboard (id : Z) (r : DashboardRow) : Dashboard :=
  mkDashboard id (dr_workspace_id r) (dr_project r) (dr_widgets r) (dr_created_at r) (dr_updated_at r).

Definition GetDashboard (workspaceID project : string) : M Dashboard :=
  d ← get;
  lift (of_option ErrNotFound (
    (λ '(id, r), scan_dashboard id r) <$> head (dashboards_at d (default_ws workspaceID) project))).

(** [INSERT ... ON CONFLICT(workspace_id, project) DO UPDATE]. *)
Definition upsert_dashboard (r : DashboardRow) (d : DB) : DB :=
  match head (dashboards_at d (dr_workspace_id r) (dr_project r)) with
  | Some (id, old) =>
      set_dashboards (serial_set id (mkDashboardRow (dr_workspace_id old) (dr_project old) (dr_widgets r)
        (dr_created_at old) (dr_updated_at r)) (dashboards d)) d
  | None => set_dashboards (serial_insert r (dashboards d)).2 d
  end.

Definition SaveDashboard `{Clock} (workspaceID project widgetsJSON : string) : M Dashboard :=
  let ws := default_ws workspaceID in
  now ← time_now;
  _ ← modify (upsert_dashboard (mkDashboardRow ws project (default_to widgetsJSON "[]") now now));
  GetDashboard ws project.

(** * The peer directory *)

(** The constraints of the table and the guards of [CreatePeer]. *)
Record peers_wf (d : DB) : Prop := {
  pw_serial : serial_wf (peers d);
  pw_unique i j a b : rows (peers d) !! i = Some a → rows (peers d) !! j = Some b →
    pr_workspace_id a = pr_workspace_id b → pr_name a = pr_name b → i = j;
  pw_row i r : rows (peers d) !! i = Some r →
    pr_status r ∈ peer_statuses ∧ pr_name r ≠ EmptyString ∧ pr_url r ≠ EmptyString ∧ pr_secret r ≠ EmptyString }.

(** What a peer is registered with; only its status may change. *)
Definition peer_key (r : PeerRow) : string * string * string * string * Z :=
  (pr_name r, pr_url r, pr_secret r, pr_workspace_id r, pr_added_at r).

Inductive PeerOp :=
  | OpAdd (p : Peer) | OpRemove (workspaceID : string) (id : Z)
  | OpStatus (id : Z) (status lastError : string) (lastSeen : Z).

Definition spares_peer (id : Z) (o : PeerOp) : Prop := match o with OpRemove _ i => i ≠ id | _ => True end.

Section peers.
Context `{Clock}.

Definition exec_peer (o : PeerOp) (w : World) : World :=
  match o with
  | OpAdd p => (CreatePeer p w).2
  | OpRemove ws id => (DeletePeer ws id w).2
  | OpStatus id st e t => (UpdatePeerStatus id st e t w).2
  end.

Definition new_peer (p : Peer) (addedAt : Z) : PeerRow :=
  mkPeerRow (peer_Name p) (peer_URL p) (peer_Secret p) (default_ws (peer_WorkspaceID p)) addedAt None
    (default_to (peer_Status p) "pending") (nilIfEmpty (peer_LastError p)).

Lemma CreatePeer_exec p w r w' :
  CreatePeer p w = (r, w') →
  (w_db w' = w_db w ∧ ∃ e, r = Err e) ∨
  ∃ t, let row := new_peer p t in
    peer_Name p ≠ EmptyString ∧ peer_URL p ≠ EmptyString ∧ peer_Secret p ≠ EmptyString ∧
    pr_status row ∈ peer_statuses ∧ peers_named (w_db w) (pr_workspace_id row) (pr_name row) = [] ∧
    r = Ok (seq_no (peers (w_db w)) + 1) ∧ w_db w' = set_peers (serial_insert row (peers (w_db w))).2 (w_db w).
Proof.
  unfold CreatePeer. do 3 (case_decide; [intros [= <- <-]; left; eauto|]).
  assert (∃ t w1, (if decide (peer_AddedAt p = 0) then time_now else mret (peer_AddedAt p)) w = (Ok t, w1) ∧
    w_db w1 = w_db w) as (t & w1 & Ht & Hw1) by (case_decide; eexists _, _; done).
  rewrite (bind_Ok _ _ _ _ _ Ht). fold (new_peer p t). unfold map_err, insert_peer. rewrite get_bind, Hw1.
  destruct (decide (pr_status _ ∉ _)) as [Hst|Hst]; [cbn; intros [= <- <-]; left; eauto|].
  destruct (decide (peers_named _ _ _ ≠ [])) as [Hn|Hn]; [cbn; intros [= <- <-]; left; eauto|].
  rewrite modify_bind. cbn. intros [= <- <-]. right. exists t. cbn. rewrite Hw1. split_and!; try done.
  - by apply dec_stable.
  - by apply dec_stable.
Qed.

Lemma exec_peer_wf o w : peers_wf (w_db w) → peers_wf (w_db (exec_peer o w)).
Proof.
  intros Hwf. destruct o as [p|ws id|id st e t]; cbn [exec_peer].
  - destruct (CreatePeer p w) as [r w'] eqn:E. cbn.
    destruct (CreatePeer_exec _ _ _ _ E) as [[-> _]|(t & Hn & Hu & Hs & Hst & Hfree & _ & ->)]; [done|].
    destruct Hwf as [W1 W2 W3]. pose proof (proj1 (found_nil _ _) Hfree) as Hf. split.
    + cbn. by apply serial_wf_insert.
    + intros i j a b. cbn. rewrite !lookup_insert_Some. intros [[<- <-]|[? Ha]] [[<- <-]|[? Hb]] Hws Hnm; try done; eauto.
      * exfalso. by apply (Hf _ _ Hb).
      * exfalso. by apply (Hf _ _ Ha).
    + intros i r'. cbn. rewrite lookup_insert_Some. intros [[<- <-]|[_ ?]]; eauto.
  - unfold DeletePeer. rewrite get_bind. destruct (rows (peers (w_db w)) !! id); [|done]. case_decide; [|done].
    destruct Hwf as [W1 W2 W3]. split; cbn.
    + by apply serial_wf_delete.
    + intros i j a b [_ ?]%lookup_delete_Some [_ ?]%lookup_delete_Some. eauto.
    + intros i r [_ ?]%lookup_delete_Some. eauto.
  - unfold UpdatePeerStatus. destruct (decide (st ∉ peer_statuses)) as [Hst|Hst]; [done|]. apply dec_stable in Hst.
    rewrite get_bind. destruct (rows (peers (w_db w)) !! id) as [r|] eqn:E; [|done].
    destruct Hwf as [W1 W2 W3]. split; cbn.
    + apply serial_wf_set; eauto.
    + intros i j a b. rewrite !lookup_insert_Some. intros [[<- <-]|[? Ha]] [[<- <-]|[? Hb]] Hws Hnm; try done; eauto.
    + intros i r'. rewrite lookup_insert_Some. intros [[<- <-]|[_ ?]]; [|by eauto].
      split; [done|]. exact (proj2 (W3 _ _ E)).
Qed.

Lemma exec_peer_key o w id k :
  peers_wf (w_db w) → spares_peer id o → peer_key <$> rows (peers (w_db w)) !! id = Some k →
  peer_key <$> rows (peers (w_db (exec_peer o w))) !! id = Some k.
Proof.
  intros Hwf Ho Hk. destruct o as [p|ws i|i st e t]; cbn [exec_peer spares_peer] in *.
  - destruct (CreatePeer p w) as [r w'] eqn:E. cbn.
    destruct (CreatePeer_exec _ _ _ _ E) as [[-> _]|(t & _ & _ & _ & _ & _ & _ & ->)]; [done|]. cbn.
    rewrite lookup_insert_ne; [done|]. intros <-. by rewrite (serial_fresh _ (pw_serial _ Hwf)) in Hk.
  - unfold DeletePeer. rewrite get_bind. destruct (rows (peers (w_db w)) !! i); [|done]. case_decide; [|done].
    cbn. by rewrite lookup_delete_ne.
  - unfold UpdatePeerStatus. case_decide; [done|]. rewrite get_bind.
    destruct (rows (peers (w_db w)) !! i) as [r|] eqn:E; [|done]. cbn.
    destruct (decide (i = id)) as [->|]; [|by rewrite lookup_insert_ne]. rewrite lookup_insert_eq. by rewrite E in Hk.
Qed.

Lemma foldl_peer_wf ops w : peers_wf (w_db w) → peers_wf (w_db (foldl (flip exec_peer) w ops)).
Proof. revert w. induction ops as [|o ops IH]; intros w Hw; cbn; [done|]. by apply IH, exec_peer_wf. Qed.

Lemma foldl_peer_key ops id k w :
  Forall (spares_peer id) ops → peers_wf (w_db w) → peer_key <$> rows (peers (w_db w)) !! id = Some k →
  peer_key <$> rows (peers (w_db (foldl (flip exec_peer) w ops))) !! id = Some k.
Proof.
  intros Hops. revert w. induction Hops as [|o ops Ho _ IH]; intros w Hw Hk; cbn; [done|].
  apply IH; [by apply exec_peer_wf|by apply exec_peer_key].
Qed.
End peers.

Lemma seed_peers_wf t : peers_wf (seed_db t).
Proof. split; cbn; [apply serial_wf_empty| |]; intros *; by rewrite lookup_empty. Qed.

(** The peer directory.  After any calls on peers, a peer that was
    registered and not removed is the one found under its name in its
    workspace, by id and by name, with the URL and the HMAC secret it was
    registered with: neither probes nor other registrations can replace them,
    and a second registration of the name is refused. *)
Theorem peer_directory `{Clock} t ops p w1 id w2 ops' :
  w1 = foldl (flip exec_peer) (mkWorld (seed_db t) 0) ops →
  CreatePeer p w1 = (Ok id, w2) → Forall (spares_peer id) ops' →
  let w3 := foldl (flip exec_peer) w2 ops' in
  let ws := peer_WorkspaceID p in
  ∃ q, GetPeerByName ws (peer_Name p) w3 = (Ok q, w3) ∧ GetPeer ws id w3 = (Ok q, w3) ∧
    peer_ID q = id ∧ peer_URL q = peer_URL p ∧ peer_Secret q = peer_Secret p ∧
    peer_Status q ∈ peer_statuses ∧
    ∀ p', peer_Name p' = peer_Name p → default_ws (peer_WorkspaceID p') = default_ws ws →
      ∃ e, (CreatePeer p' w3).1 = Err e ∧ w_db (CreatePeer p' w3).2 = w_db w3.
Proof.
  intros Hw1 Hc Hops. cbv zeta. assert (peers_wf (w_db w1)) as Hwf1 by (rewrite Hw1; apply foldl_peer_wf, seed_peers_wf).
  assert (peers_wf (w_db w2)) as Hwf2 by (pose proof (exec_peer_wf (OpAdd p) w1 Hwf1) as Hx; cbn in Hx; by rewrite Hc in Hx).
  destruct (CreatePeer_exec _ _ _ _ Hc) as [[_ [e ?]]|(t' & _ & _ & _ & _ & _ & [= ->] & Hdb)]; [done|].
  set (id := seq_no _ + 1) in *.
  assert (peer_key <$> rows (peers (w_db w2)) !! id = Some (peer_key (new_peer p t'))) as Hk.
  { rewrite Hdb. cbn. by rewrite lookup_insert_eq. }
  apply (foldl_peer_key ops') in Hk; [|done..]. apply (foldl_peer_wf ops') in Hwf2.
  set (w3 := foldl _ w2 ops') in *. apply fmap_Some in Hk as (r & Hr & Hk). injection Hk as Hnm Hurl Hsec Hws Hat.
  assert (∀ ws', default_ws ws' = default_ws (peer_WorkspaceID p) →
    peers_named (w_db w3) (default_ws ws') (peer_Name p) = [(id, r)]) as Hone.
  { intros ws' Hws'. apply found_one; [done|by rewrite Hws', Hws|]. intros j b Hj [Hjw Hjn]. cbn in *.
    eapply (pw_unique _ Hwf2); [exact Hj|exact Hr|congruence|congruence]. }
  exists (scanPeer id r). unfold GetPeerByName, GetPeer. rewrite !get_bind, Hone, Hr by done. cbn.
  rewrite decide_True by done. split_and!; try done. { by apply (pw_row _ Hwf2 _ _ Hr). }
  intros p' Hp' Hw'. destruct (CreatePeer p' w3) as [x w4] eqn:E.
  destruct (CreatePeer_exec _ _ _ _ E) as [[? [e ->]]|(t2 & _ & _ & _ & _ & Hfree & _)]; [by exists e|].
  cbn in Hfree. rewrite Hp', Hone in Hfree by done. done.
Qed.

(** * Dashboards *)

Record dashboards_wf (d : DB) : Prop := {
  dw_serial : serial_wf (dashboards d);
  dw_unique i j a b : rows (dashboards d) !! i = Some a → rows (dashboards d) !! j = Some b →
    dr_workspace_id a = dr_workspace_id b → dr_project a = dr_project b → i = j }.

Lemma dashboards_at_Some d ws project id r :
  dashboards_wf d → rows (dashboards d) !! id = Some r → dr_workspace_id r = ws → dr_project r = project →
  dashboards_at d ws project = [(id, r)].
Proof.
  intros Hwf Hr Hw Hp. apply found_one; [done|done|]. intros j b Hj [Hjw Hjp]. cbn in *.
  eapply (dw_unique _ Hwf); eauto; congruence.
Qed.

Lemma upsert_dashboard_exec d r :
  dashboards_wf d →
  let ws := dr_workspace_id r in
  let project := dr_project r in
  let d' := upsert_dashboard r d in
  ∃ id r', dr_workspace_id r' = ws ∧ dr_project r' = project ∧ dr_widgets r' = dr_widgets r ∧
    dr_updated_at r' = dr_updated_at r ∧
    (match head (dashboards_at d ws project) with
     | Some (i, old) => id = i ∧ rows (dashboards d) !! id = Some old ∧ dr_created_at r' = dr_created_at old ∧
                        dr_workspace_id old = ws ∧ dr_project old = project
     | None => rows (dashboards d) !! id = None ∧ dr_created_at r' = dr_created_at r
     end) ∧
    (∀ i old, rows (dashboards d) !! i = Some old → dr_workspace_id old = ws → dr_project old = project → i = id) ∧
    rows (dashboards d') = <[id := r']> (rows (dashboards d)) ∧ serial_wf (dashboards d') ∧
    d' = set_dashboards (dashboards d') d.
Proof.
  intros Hwf. cbv zeta. unfold upsert_dashboard.
  destruct (dashboards_at d (dr_workspace_id r) (dr_project r)) as [|[id old] l] eqn:E; cbn [head].
  - exists (seq_no (dashboards d) + 1), r. pose proof (proj1 (found_nil _ _) E) as Hn.
    split_and!; try done; [by apply serial_fresh, Hwf| |by apply serial_wf_insert, Hwf].
    intros i old Hi Hw Hp. by destruct (Hn i old Hi).
  - assert ((id, old) ∈ dashboards_at d (dr_workspace_id r) (dr_project r)) as Hin by (rewrite E; by left).
    apply elem_of_found in Hin as [Hid [Hw Hp]]. cbn in Hw, Hp.
    exists id, (mkDashboardRow (dr_workspace_id old) (dr_project old) (dr_widgets r) (dr_created_at old) (dr_updated_at r)).
    split_and!; try done; [|apply serial_wf_set; [apply Hwf|eauto]].
    intros i old' Hi Hw' Hp'. eapply (dw_unique _ Hwf); eauto; congruence.
Qed.

(** Saving a dashboard.  The saved widgets are what [SaveDashboard] and
    [GetDashboard] return for the (workspace, project); a dashboard that was
    there keeps its id and creation time, a new one gets an unused id; the
    dashboards of other projects and all other tables are unchanged, and a
    project keeps at most one dashboard. *)
Theorem SaveDashboard_upsert `{Clock} workspaceID project widgets w :
  dashboards_wf (w_db w) →
  let ws := default_ws workspaceID in
  let '(res, w') := SaveDashboard workspaceID project widgets w in
  ∃ x, res = Ok x ∧ GetDashboard workspaceID project w' = (Ok x, w') ∧
    dash_Widgets x = default_to widgets "[]" ∧ dash_WorkspaceID x = ws ∧ dash_Project x = project ∧
    match (GetDashboard workspaceID project w).1 with
    | Ok old => dash_ID x = dash_ID old ∧ dash_CreatedAt x = dash_CreatedAt old
    | Err _ => rows (dashboards (w_db w)) !! dash_ID x = None
    end ∧
    (∀ ws' p', (default_ws ws', p') ≠ (ws, project) → (GetDashboard ws' p' w').1 = (GetDashboard ws' p' w).1) ∧
    w_db w' = set_dashboards (dashboards (w_db w')) (w_db w) ∧ dashboards_wf (w_db w').
Proof.
  intros Hwf. cbv zeta. unfold SaveDashboard. rewrite now_bind, modify_bind.
  set (r := mkDashboardRow _ project _ _ _). cbn [w_db w_tick].
  destruct (upsert_dashboard_exec (w_db w) r Hwf) as (id & r' & Hw & Hp & Hwid & _ & Hold & Hu & Hrows & Hser & Hset).
  set (d' := upsert_dashboard r (w_db w)) in *.
  assert (dashboards_wf d') as Hwf'.
  { split; [done|]. intros i j a b. rewrite Hrows, !lookup_insert_Some.
    intros [[<- <-]|[? Ha]] [[<- <-]|[? Hb]] Hws Hnm; try done.
    - symmetry. apply (Hu _ _ Hb); congruence.
    - apply (Hu _ _ Ha); congruence.
    - by eapply (dw_unique _ Hwf). }
  assert (dashboards_at d' (default_ws workspaceID) project = [(id, r')]) as Hone.
  { apply dashboards_at_Some; [done| |done..]. by rewrite Hrows, lookup_insert_eq. }
  unfold GetDashboard. rewrite !get_bind, default_ws_idemp. cbn [w_db]. rewrite Hone.
  exists (scan_dashboard id r'). split_and!; try done.
  - rewrite get_bind. cbn [w_db]. by rewrite Hone.
  - cbn. change (default_ws workspaceID) with (dr_workspace_id r). change project with (dr_project r).
    destruct (head _) as [[i old]|] eqn:E; cbn; [|by destruct Hold]. by destruct Hold as (-> & _ & -> & _).
  - intros ws' p' Hne. rewrite !get_bind. cbn [w_db].
    assert (dashboards_at d' (default_ws ws') p' = dashboards_at (w_db w) (default_ws ws') p') as Hat; [|by rewrite Hat].
    apply found_ext. intros i a [Ha1 Ha2].
    rewrite Hrows. cbn in *. destruct (decide (i = id)) as [->|]; [|by rewrite lookup_insert_ne].
    rewrite lookup_insert_eq. split; [intros [= <-]; exfalso; apply Hne; congruence|]. intros Hid. exfalso.
    destruct (head _) as [[i old]|]; [|naive_solver]. destruct Hold as (_ & Hold & _ & ? & ?). congruence.
Qed.

(** * Witnesses *)

Definition ex_peer : Peer := mkPeer 0 "east" "https://east.example" "00ff" "" 5 None "" "".
Definition ex_peer_w : World := (CreatePeer ex_peer (mkWorld (seed_db 1) 0)).2.

Lemma peer_directory_witness :
  CreatePeer ex_peer (mkWorld (seed_db 1) 0) = (Ok 1, ex_peer_w) ∧
  ∃ q, (GetPeerByName "" "east" (exec_peer (OpStatus 1 "connected" "" 9) ex_peer_w)).1 = Ok q ∧ peer_Secret q = "00ff"%string.
Proof.
  assert (CreatePeer ex_peer (mkWorld (seed_db 1) 0) = (Ok 1, ex_peer_w)) as H by (vm_compute; reflexivity).
  split; [exact H|].
  destruct (peer_directory 1 [] ex_peer _ 1 ex_peer_w [OpStatus 1 "connected" "" 9] eq_refl H
    (Forall_cons_2 _ (OpStatus 1 "connected" "" 9) _ I (Forall_nil_2 _))) as (q & Hq & _ & _ & _ & Hs & _).
  exists q. split; [exact (f_equal fst Hq)|exact Hs].
Defined.

Lemma SaveDashboard_upsert_witness :
  ∃ x w', SaveDashboard "" "p" "[1]" (mkWorld (seed_db 1) 0) = (Ok x, w') ∧ dash_Widgets x = "[1]"%string.
Proof.
  assert (dashboards_wf (seed_db 1)) as Hwf by (split; cbn; [apply serial_wf_empty|intros *; by rewrite lookup_empty]).
  pose proof (SaveDashboard_upsert "" "p" "[1]" (mkWorld (seed_db 1) 0) Hwf) as H. cbv zeta in H.
  destruct (SaveDashboard "" "p" "[1]" (mkWorld (seed_db 1) 0)) as [res w']. destruct H as (x & -> & _ & Hx & _).
  exists x, w'. split; [reflexivity|exact Hx].
Defined.
