(* ===== verification/Access.v ===== *)
(** * Authentication, tenancy and roles of a request (internal/server)

    The middlewares every API request passes before its handler:
    [authMiddlewareWithSessions], [workspaceMiddleware] and [rbacMiddleware] of
    middleware.go with [requiredRole] of rbac.go and the password check of
    internal/auth/password.go.  A handler is a function from the request to a
    computation of the store; a middleware maps handlers to handlers. *)

From S2P Require Import Prelude GoStrings Model Database Runs Sample Workspaces Sessions.

Open Scope Z_scope.

(** ** Requests and responses *)

(** The parts of [*http.Request] the middlewares read: the first value of a
    header, the first cookie of a name, the credentials [r.BasicAuth()]
    parses, and the values of the context. *)
Record Request := mkRequest {
  rq_Method : string; rq_Path : string;
  rq_Header : gmap string string; rq_Cookie : gmap string string;
  rq_BasicAuth : option (string * string);
  ctx_User : option string; ctx_Session : option Session;
  ctx_Workspace : option string; ctx_Role : option string }.

(** Status and error code of a reply. *)
Record Response := mkResponse { rs_Status : Z; rs_Code : string }.

Definition Handler : Type := Request → M Response.

Definition with_header (f : gmap string string → gmap string string) (r : Request) : Request :=
  mkRequest (rq_Method r) (rq_Path r) (f (rq_Header r)) (rq_Cookie r) (rq_BasicAuth r)
    (ctx_User r) (ctx_Session r) (ctx_Workspace r) (ctx_Role r).
Definition with_user (u : string) (s : option Session) (r : Request) : Request :=
  mkRequest (rq_Method r) (rq_Path r) (rq_Header r) (rq_Cookie r) (rq_BasicAuth r)
    (Some u) s (ctx_Workspace r) (ctx_Role r).
Definition with_workspace (ws : string) (r : Request) : Request :=
  mkRequest (rq_Method r) (rq_Path r) (rq_Header r) (rq_Cookie r) (rq_BasicAuth r)
    (ctx_User r) (ctx_Session r) (Some ws) (ctx_Role r).
Definition with_role (role : string) (r : Request) : Request :=
  mkRequest (rq_Method r) (rq_Path r) (rq_Header r) (rq_Cookie r) (rq_BasicAuth r)
    (ctx_User r) (ctx_Session r) (ctx_Workspace r) (Some role).

(** [r.Header.Get], [""] when absent. *)
Definition header (k : string) (r : Request) : string := default EmptyString (rq_Header r !! k).

Definition writeError (status : Z) (code : string) : M Response := mret (mkResponse status code).

(** [x, err := m]: the error is a value for the caller to inspect. *)
Definition attempt {A} (m : M A) : M (result A) := λ w, let '(r, w') := m w in (Ok r, w').

(** ** Paths *)

Definition isPublicPath (p : string) : bool :=
  bool_decide (p ∈ ["/healthz"; "/readyz"; "/version"; "/metrics"]%string) ||
  HasPrefix p "/ui/" || bool_decide (p ∈ ["/ui"; "/"]%string) ||
  bool_decide (p ∈ ["/api/v1/auth/login"; "/api/v1/auth/logout";
                    "/api/v1/auth/oidc/start"; "/api/v1/auth/oidc/callback"]%string) ||
  bool_decide (p ∈ ["/api/v1/federate/echo"; "/api/v1/federate/search"]%string).

Definition isWorkspaceAgnosticPath (p : string) : bool :=
  if bool_decide (p ∈ ["/api/v1/federate/echo"; "/api/v1/federate/search"]%string) then false
  else isPublicPath p.

Definition workspacePathTarget (p : string) : string :=
  match CutPrefix p "/api/v1/workspaces/" with
  | None => EmptyString
  | Some rest =>
      let id := match Cut rest "/" with Some (before, _) => before | None => rest end in
      if decide (id = "current"%string) then EmptyString else id
  end.

(** ** Roles *)

Definition method_in (m : string) (l : list string) : bool := bool_decide (m ∈ l).

Definition requiredRole (method path : string) : string :=
  if bool_decide (path = "/api/v1/workspaces"%string) && method_in method ["POST"]%string then "admin"
  else if HasPrefix path "/api/v1/workspaces/" && Contains path "/members" &&
          method_in method ["PUT"; "DELETE"]%string then "admin"
  else if HasPrefix path "/api/v1/workspaces/" && method_in method ["PATCH"; "DELETE"]%string then "admin"
  else if HasPrefix path "/api/v1/federate/peers" && negb (method_in method ["GET"]%string) then "admin"
  else if HasPrefix path "/api/2.0/mlflow/" && method_in method ["POST"; "PUT"; "DELETE"]%string then "editor"
  else if method_in method ["POST"]%string &&
          (HasPrefix path "/api/v1/traces" || HasPrefix path "/api/v1/prompts" ||
           HasPrefix path "/api/v1/evals" || HasPrefix path "/v1/traces") then "editor"
  else if bool_decide (path = "/api/v1/analytics/query"%string) then "viewer"
  else if bool_decide (path ∈ ["/healthz"; "/readyz"; "/version"; "/metrics"]%string) then ""
  else if HasPrefix path "/ui/" || bool_decide (path ∈ ["/ui"; "/"]%string) then ""
  else if HasPrefix path "/api/v1/auth/" then ""
  else if bool_decide (path ∈ ["/api/v1/federate/echo"; "/api/v1/federate/search"]%string) then ""
  else if method_in method ["POST"; "PUT"; "PATCH"; "DELETE"]%string &&
          (HasPrefix path "/api/v1/" || HasPrefix path "/api/2.0/mlflow/" ||
           HasPrefix path "/api/2.0/mlflow-artifacts/" || HasPrefix path "/v1/") then "editor"
  else if method_in method ["GET"]%string &&
          (HasPrefix path "/api/2.0/mlflow/" || HasPrefix path "/api/2.0/mlflow-artifacts/" ||
           HasPrefix path "/api/v1/") then "viewer"
  else "".

(** [rank[role]]: 0 for a role that is not in the map. *)
Definition rank (role : string) : Z :=
  if decide (role = "viewer"%string) then 1 else if decide (role = "editor"%string) then 2
  else if decide (role = "admin"%string) then 3 else 0.

Definition roleAtLeast (actual required : string) : bool := rank required <=? rank actual.

(** ** Passwords *)

Section passwords.
(** [sha256.Sum256] and [bcrypt.CompareHashAndPassword(hash, pass) == nil]. *)
Context (sha256 : string → list Z) (bcrypt_ok : string → string → bool).

Definition isBcryptHash (s : string) : bool :=
  HasPrefix s "$2a$" || HasPrefix s "$2b$" || HasPrefix s "$2y$".

Definition verifyPasswordHash (wantHash gotPass : string) : bool :=
  if isBcryptHash wantHash then bcrypt_ok wantHash gotPass
  else match DecodeString wantHash with
       | None => false
       | Some want => bool_decide (length want = length (sha256 gotPass)) && bool_decide (sha256 gotPass = want)
       end.

Definition VerifyBasicCredentials (wantUser wantHash gotUser gotPass : string) : bool :=
  bool_decide (gotUser = wantUser) && verifyPasswordHash wantHash gotPass.
End passwords.

(** ** The middlewares *)

Record Config := mkConfig { cfg_Auth : string; cfg_BasicUser : string; cfg_BasicPassHash : string }.

Definition SessionCookieName : string := "lmf_session".

(** [auth.GetSessionID]. *)
Definition GetSessionID (r : Request) : option string :=
  c ← rq_Cookie r !! SessionCookieName; if decide (c = EmptyString) then None else Some c.

Section middlewares.
Context `{Clock}.
Context (sha256 : string → list Z) (bcrypt_ok : string → string → bool).
(** The answer of the rate limiter to a failed attempt, and whether the
    goroutine that touches the session runs before the rest of the request. *)
Context (allow : Request → bool) (touched : bool).
Context (cfg : Config).

Definition authMiddlewareWithSessions (next : Handler) : Handler := λ r0,
  let r := with_header (λ h, delete "X-LiteMLflow-Role" (delete "X-LiteMLflow-Auth-Method"
             (delete "X-LiteMLflow-User" h))) r0 in
  if isPublicPath (rq_Path r) then next r else
  sess ← match GetSessionID r with
         | Some sessID => attempt (GetSession sessID)
         | None => mret (Err ErrNotFound)
         end;
  match sess with
  | Ok s =>
      _ ← when touched (now ← time_now; _ ← attempt (TouchSession (sess_ID s) now); mret tt);
      next (with_header (λ h, <["X-LiteMLflow-Auth-Method" := sess_AuthMethod s]>
                               (<["X-LiteMLflow-User" := sess_UserID s]> h))
              (with_user (sess_UserID s) (Some s) r))
  | Err _ =>
      if decide (cfg_Auth cfg = "none"%string) then
        next (with_header (<["X-LiteMLflow-User" := "anonymous"]>) (with_user "anonymous" None r))
      else if decide (cfg_Auth cfg = "basic"%string) then
        match rq_BasicAuth r with
        | None => writeError 401 "UNAUTHENTICATED"
        | Some (user, pass) =>
            if negb (VerifyBasicCredentials sha256 bcrypt_ok (cfg_BasicUser cfg) (cfg_BasicPassHash cfg) user pass)
            then if negb (allow r) then writeError 429 "RESOURCE_EXHAUSTED"
                 else writeError 401 "UNAUTHENTICATED"
            else next (with_header (λ h, <["X-LiteMLflow-Auth-Method" := "basic"]>
                                          (<["X-LiteMLflow-User" := user]> h)) (with_user user None r))
        end
      else if decide (cfg_Auth cfg = "oidc"%string) then
        if Contains (header "Accept" r) "text/html" then mret (mkResponse 302 "")
        else writeError 401 "UNAUTHENTICATED"
      else writeError 500 "INTERNAL_ERROR"
  end.

(** The workspace a request asks for: header, cookie, default. *)
Definition requested_workspace (r : Request) : string :=
  let h := header "X-Workspace" r in
  let c := if decide (h = EmptyString) then default EmptyString (rq_Cookie r !! "lmf_workspace"%string) else h in
  default_ws c.

Definition workspaceMiddleware (next : Handler) : Handler := λ r,
  let wsID := requested_workspace r in
  let enter ws := next (with_header (<["X-LiteMLflow-Workspace" := ws]>) (with_workspace ws r)) in
  if decide (wsID = "default"%string) then enter wsID else
  x ← attempt (GetWorkspace wsID);
  match x with
  | Ok _ => enter wsID
  | Err _ => if isWorkspaceAgnosticPath (rq_Path r) then enter "default"%string
             else mret (mkResponse 400 "INVALID_PARAMETER_VALUE")
  end.

(** The part that checks the role of [user] in [ws]. *)
Definition check_role (next : Handler) (ws user : string) (r : Request) : M Response :=
  role ← attempt (GetMemberRole ws user);
  match role with
  | Err _ => writeError 403 "PERMISSION_DENIED"
  | Ok role =>
      let required := requiredRole (rq_Method r) (rq_Path r) in
      if bool_decide (required ≠ EmptyString) && negb (roleAtLeast role required)
      then writeError 403 "PERMISSION_DENIED"
      else next (with_header (<["X-LiteMLflow-Role" := role]>) (with_role role r))
  end.

Definition rbacMiddleware (next : Handler) : Handler := λ r,
  if decide (cfg_Auth cfg = "none"%string) then next r
  else if isPublicPath (rq_Path r) then next r
  else
    let ws := default_ws (default EmptyString (ctx_Workspace r)) in
    let u := default EmptyString (ctx_User r) in
    let user := if decide (u = EmptyString) then header "X-LiteMLflow-User" r else u in
    let target := workspacePathTarget (rq_Path r) in
    let current :=
      if decide (ws = "default"%string) then
        members ← attempt (ListMembers ws);
        match members with
        | Err _ => writeError 500 "INTERNAL_ERROR"
        | Ok [] => next r
        | Ok _ => check_role next ws user r
        end
      else check_role next ws user r in
    if decide (target ≠ EmptyString ∧ target ≠ ws) then
      members ← attempt (ListMembers target);
      match members with
      | Err _ => writeError 500 "INTERNAL_ERROR"
      | Ok [] => current
      | Ok _ => check_role next target user r
      end
    else current.

(** The order of [buildRouter]. *)
Definition serve (next : Handler) : Handler :=
  authMiddlewareWithSessions (workspaceMiddleware (rbacMiddleware next)).
End middlewares.

(** * The role table *)

Lemma HasPrefix_conflict s a b :
  HasPrefix s a = true → HasPrefix s b = true → HasPrefix a b || HasPrefix b a = true.
Proof.
  revert a b. induction s as [|c s IH]; intros [|x a] [|y b]; cbn; try done.
  intros [->%bool_decide_eq_true Ha]%andb_prop [->%bool_decide_eq_true Hb]%andb_prop.
  rewrite !bool_decide_eq_true_2 by done. cbn. by apply IH.
Qed.

(** No path starts with two texts that differ where both are defined. *)
Lemma HasPrefix_apart s a b :
  HasPrefix s a = true → HasPrefix a b || HasPrefix b a = false → HasPrefix s b = false.
Proof.
  intros Ha Hab. destruct (HasPrefix s b) eqn:Hb; [|done].
  by rewrite (HasPrefix_conflict s a b Ha Hb) in Hab.
Qed.

Definition api_surface (p : string) : bool :=
  HasPrefix p "/api/v1/" || HasPrefix p "/api/2.0/mlflow/" || HasPrefix p "/api/2.0/mlflow-artifacts/" ||
  HasPrefix p "/v1/".

(** Write routes a viewer, or a caller without a role, may use. *)
Definition exempt (p : string) : bool :=
  bool_decide (p = "/api/v1/analytics/query"%string) || HasPrefix p "/api/v1/auth/" ||
  bool_decide (p ∈ ["/api/v1/federate/echo"; "/api/v1/federate/search"]%string).

Definition mutating (m : string) : bool := method_in m ["POST"; "PUT"; "PATCH"; "DELETE"]%string.

Lemma public_path_cases p :
  isPublicPath p = true →
  HasPrefix p "/ui/" = true ∨
  p ∈ ["/healthz"; "/readyz"; "/version"; "/metrics"; "/ui"; "/"; "/api/v1/auth/login"; "/api/v1/auth/logout";
       "/api/v1/auth/oidc/start"; "/api/v1/auth/oidc/callback"; "/api/v1/federate/echo";
       "/api/v1/federate/search"]%string.
Proof.
  unfold isPublicPath. rewrite !orb_true_iff, !bool_decide_eq_true.
  intros [[[[Hp|Hp]|Hp]|Hp]|Hp]; [right|by left|right..]; revert Hp; rewrite !elem_of_cons; naive_solver.
Qed.

Lemma ui_path p : HasPrefix p "/ui/" = true → api_surface p = false ∧
  HasPrefix p "/api/v1/workspaces/" = false ∧ HasPrefix p "/api/v1/federate/peers" = false ∧
  HasPrefix p "/api/v1/traces" = false ∧ HasPrefix p "/api/v1/prompts" = false ∧
  HasPrefix p "/api/v1/evals" = false ∧ HasPrefix p "/v1/traces" = false ∧ HasPrefix p "/api/2.0/mlflow/" = false.
Proof.
  intros Hp. unfold api_surface. split_and!; [|by apply (HasPrefix_apart p "/ui/")..].
  by rewrite !(HasPrefix_apart p "/ui/").
Qed.

Lemma requiredRole_public m p : isPublicPath p = true → requiredRole m p = EmptyString.
Proof.
  intros [Hui|Hp]%public_path_cases.
  - destruct (ui_path p Hui) as (_ & H1 & H2 & H3 & H4 & H5 & H6 & H7). unfold requiredRole.
    rewrite H1, H2, H3, H4, H5, H6, H7, Hui, andb_false_r. cbn.
    rewrite !(bool_decide_eq_false_2 (p = _)) by (by intros ->). cbn. by destruct (bool_decide _).
  - rewrite !elem_of_cons, elem_of_nil in Hp. unfold requiredRole.
    repeat destruct Hp as [->|Hp]; try done; cbn; rewrite ?andb_false_r; try done.
Qed.

Lemma requiredRole_writes m p :
  mutating m = true → api_surface p = true → exempt p = false → roleAtLeast "viewer" (requiredRole m p) = false.
Proof.
  unfold exempt. intros Hm Hapi [[Hq Ha]%orb_false_iff Hf]%orb_false_iff. unfold requiredRole. rewrite Hq, Ha, Hf.
  fold (mutating m). fold (api_surface p).
  do 6 (match goal with |- context [if ?b then _ else _] => destruct b; [done|] end).
  assert (∀ l, forallb (λ q, negb (api_surface q)) l = true → bool_decide (p ∈ l) = false) as Hl.
  { intros l Hl. apply bool_decide_eq_false_2. intros Hin. rewrite forallb_forall in Hl.
    apply list_elem_of_In in Hin. apply Hl in Hin. by rewrite Hapi in Hin. }
  destruct (HasPrefix p "/ui/") eqn:Hui; [by rewrite (proj1 (ui_path p Hui)) in Hapi|].
  rewrite !Hl by done. cbn [orb].
  by rewrite Hm, Hapi.
Qed.

Lemma requiredRole_reads p : rank (requiredRole "GET" p) ≤ 1.
Proof.
  unfold requiredRole.
  repeat match goal with |- context [method_in "GET" ?l] =>
    let b := eval vm_compute in (method_in "GET" l) in change (method_in "GET" l) with b end.
  cbn [negb]. rewrite !andb_false_r, andb_false_l. repeat (case_match; try done).
Qed.

Lemma requiredRole_admin m p :
  (HasPrefix p "/api/v1/workspaces/" = true ∧ m ∈ ["PATCH"; "DELETE"]%string) ∨
  (HasPrefix p "/api/v1/workspaces/" = true ∧ Contains p "/members" = true ∧ m = "PUT"%string) ∨
  (p = "/api/v1/workspaces"%string ∧ m = "POST"%string) ∨
  (HasPrefix p "/api/v1/federate/peers" = true ∧ m ≠ "GET"%string) →
  requiredRole m p = "admin"%string.
Proof.
  unfold requiredRole, method_in. intros [[-> Hm]|[(-> & -> & ->)|[[-> ->]|[-> Hm]]]].
  - case_match; [done|]. case_match; [done|]. by rewrite (bool_decide_eq_true_2 (m ∈ _)).
  - case_match; [done|]. done.
  - done.
  - do 3 (case_match; [done|]). rewrite (bool_decide_eq_false_2 (m ∈ ["GET"%string])); [done|].
    by rewrite list_elem_of_singleton.
Qed.

(** The role table.  Public paths need no role.  Every write to the API
    outside the exempt routes (analytics queries, login, federation) needs
    more than a viewer, also on routes the table does not name; changing
    workspaces, their members and federation peers needs an admin; no read
    needs more than a viewer. *)
Theorem requiredRole_default_deny m p :
  (isPublicPath p = true → requiredRole m p = EmptyString) ∧
  (mutating m = true → api_surface p = true → exempt p = false → roleAtLeast "viewer" (requiredRole m p) = false) ∧
  ((HasPrefix p "/api/v1/workspaces/" = true ∧ m ∈ ["PATCH"; "DELETE"]%string) ∨
   (HasPrefix p "/api/v1/workspaces/" = true ∧ Contains p "/members" = true ∧ m = "PUT"%string) ∨
   (p = "/api/v1/workspaces"%string ∧ m = "POST"%string) ∨
   (HasPrefix p "/api/v1/federate/peers" = true ∧ m ≠ "GET"%string) →
   roleAtLeast "editor" (requiredRole m p) = false) ∧
  (m = "GET"%string → roleAtLeast "viewer" (requiredRole m p) = true).
Proof.
  split_and!.
  - apply requiredRole_public.
  - apply requiredRole_writes.
  - intros Hm. by rewrite requiredRole_admin.
  - intros ->. apply Z.leb_le, requiredRole_reads.
Qed.

(** * Who reaches a handler *)

Definition has_members (d : DB) (ws : string) : Prop := ∃ u role, members d !! (ws, u) = Some role.

(** The request acts on the workspace [ws] it selected, not on one with
    members of its own that its path names. *)
Definition own_route (d : DB) (p ws : string) : Prop :=
  let t := workspacePathTarget p in t = EmptyString ∨ t = ws ∨ ¬ has_members d t.

(** [user] may perform [(m, p)] from workspace [ws], with the role the handler
    is told about. *)
Inductive authorized (d : DB) (m p user ws : string) : option string → Prop :=
  | auth_target role :
      workspacePathTarget p ≠ EmptyString → workspacePathTarget p ≠ ws →
      members d !! (workspacePathTarget p, user) = Some role → roleAtLeast role (requiredRole m p) = true →
      authorized d m p user ws (Some role)
  | auth_open :
      own_route d p ws → ws = "default"%string → ¬ has_members d ws → authorized d m p user ws None
  | auth_member role :
      own_route d p ws → (ws = "default"%string → has_members d ws) →
      members d !! (ws, user) = Some role → roleAtLeast role (requiredRole m p) = true →
      authorized d m p user ws (Some role).

(** A reply of the middlewares themselves. *)
Definition refusal (x : Response) : Prop := rs_Status x ∈ [302; 400; 401; 403; 429; 500].

Lemma attempt_bind {A B} (m : M A) (f : result A → M B) w : (attempt m ≫= f) w = f (m w).1 (m w).2.
Proof. unfold mbind, M_bind, attempt. by destruct (m w). Qed.

Lemma rank_nonneg role : 0 ≤ rank role.
Proof. unfold rank. repeat case_decide; lia. Qed.

Lemma roleAtLeast_none role : roleAtLeast role EmptyString = true.
Proof. apply Z.leb_le. apply rank_nonneg. Qed.

Lemma ListMembers_eq ws w :
  ∃ l, ListMembers ws w = (Ok l, w) ∧
    match l with [] => ¬ has_members (w_db w) ws | _ :: _ => has_members (w_db w) ws end.
Proof.
  unfold ListMembers. rewrite get_bind. eexists. split; [reflexivity|].
  assert (∀ u role, members (w_db w) !! (ws, u) = Some role ↔ mkMember ws u role ∈
    sort_by mem_UserID (omap (λ '((w', u), r), if decide (w' = ws) then Some (mkMember w' u r) else None)
      (map_to_list (members (w_db w))))) as Hin.
  { intros u role. rewrite elem_of_sort_by, list_elem_of_omap. split.
    - intros Hm. exists ((ws, u), role). rewrite elem_of_map_to_list. split; [done|]. by rewrite decide_True.
    - intros ([[w' u'] role'] & Hm & Hx). apply elem_of_map_to_list in Hm. case_decide; [|done]. by injection Hx as -> -> ->. }
  destruct (sort_by _ _) as [|x l] eqn:E.
  - intros (u & role & Hm). apply Hin in Hm. by apply elem_of_nil in Hm.
  - assert (x ∈ x :: l) as Hx by (by left). rewrite <- E in Hx.
    apply elem_of_sort_by, list_elem_of_omap in Hx as ([[w' u] role] & Hm & Hx).
    apply elem_of_map_to_list in Hm. case_decide; [|done]. subst. by exists u, role.
Qed.

(** Only the table of members matters. *)
Lemma authorized_ext d d' m p user ws role :
  members d = members d' → authorized d m p user ws role → authorized d' m p user ws role.
Proof.
  intros Hm. assert (∀ ws, has_members d' ws ↔ has_members d ws) as Hh by (intros ws'; unfold has_members; by rewrite Hm).
  unfold own_route in *. intros [role' H1 H2 H3 H4|H1 H2 H3|role' H1 H2 H3 H4].
  - apply auth_target; [done..| |done]. by rewrite <- Hm.
  - apply auth_open; [|done|by rewrite Hh]. unfold own_route in *. by rewrite Hh.
  - apply auth_member; [|by rewrite Hh| |done]; [unfold own_route in *; by rewrite Hh|by rewrite <- Hm].
Qed.

Definition stash (role : option string) (r : Request) : Request :=
  match role with
  | Some role => with_header (<["X-LiteMLflow-Role" := role]>) (with_role role r)
  | None => r
  end.

Lemma check_role_exec (next : Handler) ws user r w :
  (∃ role, members (w_db w) !! (ws, user) = Some role ∧ roleAtLeast role (requiredRole (rq_Method r) (rq_Path r)) = true ∧
     check_role next ws user r w = next (stash (Some role) r) w) ∨
  ((∀ role, members (w_db w) !! (ws, user) = Some role → roleAtLeast role (requiredRole (rq_Method r) (rq_Path r)) ≠ true) ∧
     ∃ x, refusal x ∧ check_role next ws user r w = (Ok x, w)).
Proof.
  unfold check_role. rewrite attempt_bind. unfold GetMemberRole. rewrite get_bind.
  destruct (members (w_db w) !! (ws, user)) as [role|]; cbn [of_option lift fst snd].
  - set (req := requiredRole _ _).
    destruct (roleAtLeast role req) eqn:E; cbn.
    + left. exists role. split_and!; [done..|]. by rewrite andb_false_r.
    + right. split; [intros ? [= <-]; by rewrite E|]. case_bool_decide as Hr; cbn; 
      [|by rewrite Hr, roleAtLeast_none in E].
      eexists. split; [|reflexivity]. unfold refusal. cbn. set_solver.
  - right. split; [done|]. eexists. split; [|reflexivity]. unfold refusal. cbn. set_solver.
Qed.

Lemma rbac_exec cfg (next : Handler) r w ws user :
  cfg_Auth cfg ≠ "none"%string → isPublicPath (rq_Path r) = false →
  ctx_Workspace r = Some ws → ws ≠ EmptyString → ctx_User r = Some user → header "X-LiteMLflow-User" r = user →
  let authz := authorized (w_db w) (rq_Method r) (rq_Path r) user ws in
  (∃ role, authz role ∧ rbacMiddleware cfg next r w = next (stash role r) w) ∨
  ((∀ role, ¬ authz role) ∧ ∃ x, refusal x ∧ rbacMiddleware cfg next r w = (Ok x, w)).
Proof.
  intros Hcfg Hpub Hws Hne Hu Hh. cbv zeta. unfold rbacMiddleware. rewrite decide_False, Hpub by done.
  rewrite Hws, Hu. cbn [default]. unfold id, default_ws. rewrite (decide_False (P := ws = _)) by done.
  rewrite Hh. replace (if decide (user = EmptyString) then user else user) with user by (by case_decide).
  cbv zeta. set (t := workspacePathTarget (rq_Path r)).
  set (current := if decide (ws = "default"%string) then _ else _).
  assert (own_route (w_db w) (rq_Path r) ws → (∃ role, authorized (w_db w) (rq_Method r) (rq_Path r) user ws role ∧
      current w = next (stash role r) w) ∨
    ((∀ role, ¬ authorized (w_db w) (rq_Method r) (rq_Path r) user ws role) ∧ ∃ x, refusal x ∧ current w = (Ok x, w))) as Hcur.
  { intros Hown.
    assert ((ws = "default"%string → has_members (w_db w) ws) →
      (∃ role, authorized (w_db w) (rq_Method r) (rq_Path r) user ws role ∧ check_role next ws user r w = next (stash role r) w) ∨
      ((∀ role, ¬ authorized (w_db w) (rq_Method r) (rq_Path r) user ws role) ∧
       ∃ x, refusal x ∧ check_role next ws user r w = (Ok x, w))) as Hchk.
    { intros Hm. destruct (check_role_exec next ws user r w) as [(role & H1 & H2 & H3)|[Hno H3]].
      - left. exists (Some role). split; [by apply auth_member|done].
      - right. split; [|done]. intros role Ha.
        inversion Ha as [role' Ht1 Ht2 Hr1 Hr2|Ho Hd Hn|role' Ho Hd Hr1 Hr2]; subst role.
        + destruct Hown as [?|[?|Hn]]; [done..|]. apply Hn. by exists user, role'.
        + by apply Hn, Hm.
        + by apply (Hno role'). }
    unfold current. case_decide as Hd; [|by apply Hchk].
    rewrite attempt_bind. destruct (ListMembers_eq ws w) as (l & -> & Hl). cbn [fst snd].
    destruct l as [|x l]; [|by apply Hchk]. left. exists None. split; [|done]. by apply auth_open. }
  case_decide as Ht.
  - destruct Ht as [Ht1 Ht2]. rewrite attempt_bind. destruct (ListMembers_eq t w) as (l & -> & Hl). cbn [fst snd].
    destruct l as [|x l]; [apply Hcur; right; by right|].
    destruct (check_role_exec next t user r w) as [(role & H1 & H2 & H3)|[Hno H3]].
    + left. exists (Some role). split; [by apply auth_target|done].
    + right. split; [|done]. intros role Ha.
      inversion Ha as [role' Ht3 Ht4 Hr1 Hr2|Ho Hd Hn|role' Ho Hd Hr1 Hr2]; subst role;
        [by apply (Hno role')|destruct Ho as [?|[?|?]]; done..].
  - apply Hcur. destruct (decide (t = EmptyString)) as [Ht0|]; [left; exact Ht0|]. right. left.
    destruct (decide (t = ws)); [done|]. exfalso. by apply Ht.
Qed.

(** The workspace exists. *)
Definition known_workspace (d : DB) (ws : string) : Prop :=
  ws = "default"%string ∨ is_Some (workspaces d !! ws).

Lemma workspace_exec (inner : Handler) r w :
  isPublicPath (rq_Path r) = false →
  let ws := requested_workspace r in
  (known_workspace (w_db w) ws ∧ workspaceMiddleware inner r w =
     inner (with_header (<["X-LiteMLflow-Workspace" := ws]>) (with_workspace ws r)) w) ∨
  (¬ known_workspace (w_db w) ws ∧ ∃ x, refusal x ∧ workspaceMiddleware inner r w = (Ok x, w)).
Proof.
  intros Hpub. cbv zeta. unfold workspaceMiddleware, known_workspace. case_decide as Hd; [left; auto|].
  rewrite attempt_bind. unfold GetWorkspace. rewrite get_bind.
  destruct (workspaces (w_db w) !! requested_workspace r) eqn:E; cbn [fmap option_fmap option_map of_option lift fst snd].
  - left. split; [|done]. right. by eexists.
  - right. split; [intros [?|[x Hx]]; congruence|].
    assert (isWorkspaceAgnosticPath (rq_Path r) = false) as -> by (unfold isWorkspaceAgnosticPath; by rewrite Hpub; case_match).
    eexists. split; [|reflexivity]. unfold refusal. cbn. set_solver.
Qed.

Section chain.
Context `{Clock}.
Context (sha256 : string → list Z) (bcrypt_ok : string → string → bool).
Context (allow : Request → bool) (touched : bool) (cfg : Config).

(** The user a request authenticates as: a stored session that has not
    expired, else the configured basic credentials. *)
Definition identify (r : Request) (d : DB) (now : Z) : option string :=
  match (id ← GetSessionID r; s ← sessions d !! id; if decide (sr_expires_at s < now) then None else Some (sr_user_id s)) with
  | Some u => Some u
  | None =>
      if decide (cfg_Auth cfg = "basic"%string) then
        '(user, pass) ← rq_BasicAuth r;
        if VerifyBasicCredentials sha256 bcrypt_ok (cfg_BasicUser cfg) (cfg_BasicPassHash cfg) user pass
        then Some user else None
      else None
  end.

(** [r'] is [r] with the identity headers replaced by the server's. *)
Record identified (r r' : Request) (user : string) : Prop := {
  idn_method : rq_Method r' = rq_Method r;
  idn_path : rq_Path r' = rq_Path r;
  idn_cookie : rq_Cookie r' = rq_Cookie r;
  idn_user : ctx_User r' = Some user;
  idn_header : header "X-LiteMLflow-User" r' = user;
  idn_role : rq_Header r' !! "X-LiteMLflow-Role"%string = None;
  idn_workspace : rq_Header r' !! "X-Workspace"%string = rq_Header r !! "X-Workspace"%string }.

(** Only the last-seen times of sessions differ. *)
Definition same_but_sessions (w w' : World) : Prop := w_db w' = set_sessions (sessions (w_db w')) (w_db w).

Lemma same_db w w' : w_db w' = w_db w → same_but_sessions w w'.
Proof. unfold same_but_sessions. intros ->. by destruct (w_db w) as [[] ? ? ?]. Qed.

Lemma touch_same id w :
  ∃ w1, same_but_sessions w w1 ∧
    (when touched (now ← time_now; _ ← attempt (TouchSession id now); mret tt)) w = (Ok tt, w1).
Proof.
  destruct touched; cbn [when]; [|exists w; split; [by apply same_db|done]].
  rewrite now_bind, attempt_bind. unfold TouchSession. rewrite now_bind, get_bind. cbn [w_db w_tick].
  destruct (sessions (w_db w) !! id) as [s|]; [|eexists; split; [|reflexivity]; by apply same_db].
  case_decide; (eexists; split; [|reflexivity]); [done|by apply same_db].
Qed.

(** Reading the session of the cookie. *)
Lemma session_phase r w :
  ∃ w1, w_db w1 = w_db w ∧
    match (id ← GetSessionID r; s ← sessions (w_db w) !! id;
           if decide (sr_expires_at s < clock (w_tick w)) then None else Some (sr_user_id s)) with
    | Some u => ∃ s, sess_UserID s = u ∧
        (match GetSessionID r with Some id => attempt (GetSession id) | None => mret (Err ErrNotFound) end) w = (Ok (Ok s), w1)
    | None => ∃ e,
        (match GetSessionID r with Some id => attempt (GetSession id) | None => mret (Err ErrNotFound) end) w = (Ok (Err e), w1)
    end.
Proof.
  destruct (GetSessionID r) as [id|]; cbn; [|exists w; by eauto].
  unfold attempt, GetSession. rewrite get_bind. destruct (sessions (w_db w) !! id) as [row|]; cbn [mbind option_bind];
    cbn [fmap option_fmap option_map of_option]; [|exists w; split; [done|]; by eexists].
  rewrite lift_Ok_bind, now_bind. cbn [scan_session sess_ExpiresAt].
  case_decide; (exists (mkWorld (w_db w) (S (w_tick w))); split; [done|]);
    [by eexists|]. eexists. split; [|reflexivity]. done.
Qed.

Lemma identified_fresh r user auth_method s :
  identified r (with_header (λ h, <["X-LiteMLflow-Auth-Method" := auth_method]> (<["X-LiteMLflow-User" := user]> h))
    (with_user user s (with_header (λ h, delete "X-LiteMLflow-Role" (delete "X-LiteMLflow-Auth-Method"
       (delete "X-LiteMLflow-User" h))) r))) user.
Proof.
  split; try done; unfold header; cbn.
  - by rewrite lookup_insert_ne, lookup_insert_eq by done.
  - by rewrite !lookup_insert_ne, lookup_delete_eq by done.
  - by rewrite !lookup_insert_ne, !lookup_delete_ne by done.
Qed.

Lemma auth_exec (inner : Handler) r w :
  cfg_Auth cfg ≠ "none"%string → isPublicPath (rq_Path r) = false →
  match identify r (w_db w) (clock (w_tick w)) with
  | Some user => ∃ r' w1, identified r r' user ∧ same_but_sessions w w1 ∧
      authMiddlewareWithSessions sha256 bcrypt_ok allow touched cfg inner r w = inner r' w1
  | None => ∃ x w1, refusal x ∧ same_but_sessions w w1 ∧
      authMiddlewareWithSessions sha256 bcrypt_ok allow touched cfg inner r w = (Ok x, w1)
  end.
Proof.
  intros Hcfg Hpub. unfold authMiddlewareWithSessions, identify. cbv zeta. set (r0 := with_header _ r).
  change (rq_Path r0) with (rq_Path r). rewrite Hpub. change (GetSessionID r0) with (GetSessionID r).
  destruct (session_phase r w) as (w1 & Hw1 & Hs). apply same_db in Hw1.
  destruct (id ← GetSessionID r; _) as [u|].
  - destruct Hs as (s & <- & Hs). rewrite (bind_Ok _ _ _ _ _ Hs). cbv beta.
    destruct (touch_same (sess_ID s) w1) as (w2 & Hw2 & Ht). rewrite (bind_Ok _ _ _ _ _ Ht).
    eexists _, w2. split; [apply identified_fresh|]. split; [|reflexivity].
    unfold same_but_sessions in *. by rewrite Hw2, Hw1.
  - destruct Hs as (e & Hs). rewrite (bind_Ok _ _ _ _ _ Hs). cbv beta iota. rewrite (decide_False (P := cfg_Auth cfg = "none"%string)) by done.
    assert (∀ st code, st ∈ [302; 400; 401; 403; 429; 500] → ∃ x w2, refusal x ∧ same_but_sessions w w2 ∧
      writeError st code w1 = (Ok x, w2)) as Hrefuse.
    { intros st code Hst. eexists _, w1. by split_and!; [|done|reflexivity]. }
    case_decide.
    + change (rq_BasicAuth r0) with (rq_BasicAuth r). destruct (rq_BasicAuth r) as [[user pass]|]; cbn [mbind option_bind];
        [|apply Hrefuse; set_solver].
      destruct (VerifyBasicCredentials _ _ _ _ _ _); cbn [negb].
      * eexists _, w1. split; [apply identified_fresh|]. split; [done|reflexivity].
      * destruct (allow r0); cbn [negb]; apply Hrefuse; set_solver.
    + case_decide; [|apply Hrefuse; set_solver]. destruct (Contains _ _); [|apply Hrefuse; set_solver].
      apply (Hrefuse 302 ""). set_solver.
Qed.
End chain.

(** The outcomes of the chain of middlewares. *)
Lemma serve_cases `{Clock} sha256 bcrypt_ok allow touched cfg next r w :
  cfg_Auth cfg ≠ "none"%string → isPublicPath (rq_Path r) = false →
  let d := w_db w in
  let ws := requested_workspace r in
  let authz user := authorized d (rq_Method r) (rq_Path r) user ws in
  let reply := serve sha256 bcrypt_ok allow touched cfg next r w in
  (∃ user role r' w1, identify sha256 bcrypt_ok cfg r d (clock (w_tick w)) = Some user ∧ known_workspace d ws ∧
     authz user role ∧ reply = next r' w1 ∧ same_but_sessions w w1 ∧
     rq_Method r' = rq_Method r ∧ rq_Path r' = rq_Path r ∧ ctx_User r' = Some user ∧
     header "X-LiteMLflow-User" r' = user ∧ header "X-LiteMLflow-Workspace" r' = ws ∧
     rq_Header r' !! "X-LiteMLflow-Role"%string = role) ∨
  (∃ x w1, reply = (Ok x, w1) ∧ refusal x ∧ same_but_sessions w w1 ∧
     ∀ user, identify sha256 bcrypt_ok cfg r d (clock (w_tick w)) = Some user → known_workspace d ws →
       ∀ role, ¬ authz user role).
Proof.
  intros Hcfg Hpub. cbv zeta. unfold serve.
  pose proof (auth_exec sha256 bcrypt_ok allow touched cfg (workspaceMiddleware (rbacMiddleware cfg next)) r w Hcfg Hpub) as Ha.
  destruct (identify _ _ _ _ _ _) as [user|].
  2:{ right. destruct Ha as (x & w1 & Hx & Hw1 & ->). exists x, w1. by split_and!. }
  destruct Ha as (r1 & w1 & [I1 I2 I3 I4 I5 I6 I7] & Hw1 & ->).
  assert (requested_workspace r1 = requested_workspace r) as Hreq by (unfold requested_workspace, header; by rewrite I3, I7).
  destruct (workspace_exec (rbacMiddleware cfg next) r1 w1) as [[Hk ->]|[Hk (x & Hx & ->)]]; [by rewrite I2| |];
    rewrite Hreq in *; unfold known_workspace in Hk; rewrite Hw1 in Hk; cbn in Hk.
  2:{ right. exists x, w1. split_and!; try done. }
  set (ws := requested_workspace r) in *. set (r2 := with_header _ _).
  destruct (rbac_exec cfg next r2 w1 ws user) as [(role & Hz & ->)|[Hz (x & Hx & ->)]]; try done.
  - change (rq_Path r2) with (rq_Path r1). by rewrite I2.
  - unfold ws, requested_workspace, default_ws. case_decide; done.
  - unfold header, r2. cbn. by rewrite lookup_insert_ne.
  - left. change (rq_Path r2) with (rq_Path r1) in Hz. change (rq_Method r2) with (rq_Method r1) in Hz. rewrite I1, I2 in Hz.
    exists user, role, (stash role r2), w1. unfold header, r2. split_and!; try done.
    { apply (authorized_ext (w_db w1)); [by rewrite Hw1|done]. }
    all: destruct role as [role|]; try done; cbn.
    + by rewrite !lookup_insert_ne.
    + by rewrite lookup_insert_ne.
    + by rewrite lookup_insert_ne, lookup_insert_eq.
    + by rewrite lookup_insert_eq.
    + by rewrite lookup_insert_eq.
    + by rewrite lookup_insert_ne.
  - right. exists x, w1. split_and!; try done. intros u [= <-] _ role Hr. apply (Hz role).
    change (rq_Path r2) with (rq_Path r1). change (rq_Method r2) with (rq_Method r1). rewrite I1, I2.
    apply (authorized_ext (w_db w)); [by rewrite Hw1|done].
Qed.

(** C22: who reaches a handler.  With authentication on, a request to a
    non-public path gets to its handler exactly when it authenticates (by a
    live session or the configured credentials), selects a workspace that
    exists, and its user holds a sufficient role: in the workspace the path
    names (other than [current]) when that one has members, else in the one
    that header or cookie selected, which is open only if it is the default one
    and has no members.  The handler sees the
    authenticated user, the workspace and the stored role, whatever identity
    headers the client sent; a refused request changes no data. *)
Theorem access_control `{Clock} sha256 bcrypt_ok allow touched cfg next r w :
  cfg_Auth cfg ≠ "none"%string → isPublicPath (rq_Path r) = false →
  let d := w_db w in
  let ws := requested_workspace r in
  let authz user := authorized d (rq_Method r) (rq_Path r) user ws in
  let reply := serve sha256 bcrypt_ok allow touched cfg next r w in
  (∃ user role r' w1, identify sha256 bcrypt_ok cfg r d (clock (w_tick w)) = Some user ∧ known_workspace d ws ∧
     authz user role ∧ reply = next r' w1 ∧ same_but_sessions w w1 ∧
     rq_Method r' = rq_Method r ∧ rq_Path r' = rq_Path r ∧ ctx_User r' = Some user ∧
     header "X-LiteMLflow-User" r' = user ∧ header "X-LiteMLflow-Workspace" r' = ws ∧
     rq_Header r' !! "X-LiteMLflow-Role"%string = role) ∨
  (∃ x w1, reply = (Ok x, w1) ∧ refusal x ∧ same_but_sessions w w1 ∧
     ∀ user, identify sha256 bcrypt_ok cfg r d (clock (w_tick w)) = Some user → known_workspace d ws →
       ∀ role, ¬ authz user role).
Proof. apply serve_cases. Qed.

(** * Witness and a gap *)

Definition ex_cfg : Config := mkConfig "basic" "ann" "$2a$x".
Definition ex_bcrypt (hash pass : string) : bool := bool_decide (pass = "pw"%string).
Definition ex_request (method path : string) : Request :=
  mkRequest method path ∅ ∅ (Some ("ann", "pw")%string) None None None None.
Definition ex_handler : Handler := λ _, mret (mkResponse 200 "").
Definition ex_serve (r : Request) : M Response :=
  serve (λ _, []) ex_bcrypt (λ _, true) true ex_cfg ex_handler r.

(** Ann is a viewer of the default workspace. *)
Definition viewer_db : DB := set_members {[ ("default", "ann")%string := "viewer"%string ]} ex_db.

Lemma access_control_witness :
  ∃ x w1, ex_serve (ex_request "POST" "/api/2.0/mlflow/runs/create") (mkWorld viewer_db 0) = (Ok x, w1) ∧ refusal x.
Proof.
  destruct (access_control (λ _, []) ex_bcrypt (λ _, true) true ex_cfg ex_handler
    (ex_request "POST" "/api/2.0/mlflow/runs/create") (mkWorld viewer_db 0)) as [H|(x & w1 & H1 & H2 & _)].
  - vm_compute. discriminate.
  - vm_compute. reflexivity.
  - exfalso. destruct H as (user & role & r' & w1 & Hu & _ & _ & Hr & _).
    assert ((ex_serve (ex_request "POST" "/api/2.0/mlflow/runs/create") (mkWorld viewer_db 0)).1 = Ok (mkResponse 403 "PERMISSION_DENIED"))
      as H403 by (vm_compute; reflexivity).
    unfold ex_serve in H403. rewrite Hr in H403. discriminate H403.
  - exists x, w1. split; [exact H1|exact H2].
Defined.

(** A workspace may have the id [current], for which [workspacePathTarget]
    answers "no target": an admin of the default workspace gets through to the
    deletion of [current], of which only another user is a member. *)
Lemma workspace_current_unguarded :
  let d := set_members {[ ("default", "ann")%string := "admin"%string; ("current", "bob")%string := "admin"%string ]}
    (set_workspaces (<["current"%string := mkWorkspaceRow "Current" None 1 1]> (workspaces ex_db)) ex_db) in
  validateWorkspaceID "current" = Ok tt ∧
  (ex_serve (ex_request "DELETE" "/api/v1/workspaces/current") (mkWorld d 0)).1 = Ok (mkResponse 200 "").
Proof. split; vm_compute; reflexivity. Qed.

(** The role is looked up in the workspace the path names, not, as the
    specification of the API says, in the one the header selects: who is an
    admin of the default workspace and a viewer of "team" cannot rename "team",
    and who is an admin of "team" can, as a mere viewer of the default one. *)
Theorem path_workspace_decides :
  let d (here there : string) := set_members {[ ("default", "ann")%string := here; ("team", "ann")%string := there ]}
    (set_workspaces (<["team"%string := mkWorkspaceRow "Team" None 1 1]> (workspaces ex_db)) ex_db) in
  let rename := ex_request "PATCH" "/api/v1/workspaces/team" in
  requested_workspace rename = "default"%string ∧
  (ex_serve rename (mkWorld (d "admin" "viewer")%string 0)).1 = Ok (mkResponse 403 "PERMISSION_DENIED") ∧
  (ex_serve rename (mkWorld (d "viewer" "admin")%string 0)).1 = Ok (mkResponse 200 "").
Proof. vm_compute. done. Qed.
