(* ===== verification/Datasets.v ===== *)
(** * Dataset versions (internal/store/sqlite_datasets_v2.go)

    Versioned datasets with parent edges, and the walk of their lineage. *)

From S2P Require Import Prelude GoStrings Model Database Runs Sample.

Open Scope Z_scope.

(** ** Rows *)

(** The rows of a dataset name in a workspace. *)
Definition dataset_versions (d : DB) (ws name : string) : list (Z * DatasetRow) :=
  filter (λ p, xr_workspace_id p.2 = ws ∧ xr_name p.2 = name) (map_to_list (rows (datasets_v2 d))).

Definition scanDatasetVersion (id : Z) (r : DatasetRow) : DatasetVersion :=
  mkDatasetVersion id (xr_name r) (xr_version r) (xr_content_hash r) (xr_size_bytes r)
    (coalesce (xr_schema_json r)) (coalesce (xr_description r)) (xr_workspace_id r) (xr_created_at r)
    (coalesce (xr_created_by r)) (xr_lifecycle_stage r) [].

Definition with_parents (ps : list Z) (x : DatasetVersion) : DatasetVersion :=
  mkDatasetVersion (ds_ID x) (ds_Name x) (ds_Version x) (ds_ContentHash x) (ds_SizeBytes x)
    (ds_SchemaJSON x) (ds_Description x) (ds_WorkspaceID x) (ds_CreatedAt x) (ds_CreatedBy x)
    (ds_LifecycleStage x) ps.

(** [INSERT INTO datasets_v2]: CHECK, then UNIQUE(workspace_id, name, version). *)
Definition insert_dataset (r : DatasetRow) : M Z :=
  d ← get;
  if negb (check_lifecycle (xr_lifecycle_stage r)) then fail SqlCheck
  else if decide (xr_version r ∈ xr_version <$> (dataset_versions d (xr_workspace_id r) (xr_name r)).*2)
  then fail SqlUnique
  else
    let '(id, t) := serial_insert r (datasets_v2 d) in
    _ ← modify (set_datasets_v2 t); mret id.

(** ** Creation *)

Definition check_parent (ws : string) (pid : Z) : M unit :=
  d ← get;
  match rows (datasets_v2 d) !! pid with
  | None => fail ErrOther
  | Some r => if decide (xr_workspace_id r = ws) then mret tt else fail ErrOther
  end.

Definition insert_edge (child parent : Z) : M unit :=
  modify (λ d, set_dataset_lineage ({[(child, parent)]} ∪ dataset_lineage d) d).

Definition dataset_row (x : DatasetVersion) (version : Z) : DatasetRow :=
  mkDatasetRow (ds_Name x) version (ds_ContentHash x) (ds_SizeBytes x) (nilIfEmpty (ds_SchemaJSON x))
    (nilIfEmpty (ds_Description x)) (ds_WorkspaceID x) (ds_CreatedAt x) (nilIfEmpty (ds_CreatedBy x))
    (ds_LifecycleStage x).

(** The struct is returned as the call leaves it. *)
Definition createDatasetVersionOnce (x : DatasetVersion) (parents : list Z) : M DatasetVersion :=
  transaction (
    _ ← for_each (check_parent (ds_WorkspaceID x)) parents;
    d ← get;
    let v := sql_next (xr_version <$> (dataset_versions d (ds_WorkspaceID x) (ds_Name x)).*2) in
    id ← insert_dataset (dataset_row x v);
    _ ← lift (guard_err (bool_decide (id ∈ parents)) ErrOther);
    _ ← for_each (insert_edge id) parents;
    mret (mkDatasetVersion id (ds_Name x) v (ds_ContentHash x) (ds_SizeBytes x) (ds_SchemaJSON x)
            (ds_Description x) (ds_WorkspaceID x) (ds_CreatedAt x) (ds_CreatedBy x) (ds_LifecycleStage x) parents)).

Definition CreateDatasetVersion `{Clock} (x : DatasetVersion) (parents : list Z) : M DatasetVersion :=
  _ ← lift (guard_err (bool_decide (ds_Name x = EmptyString)) ErrOther);
  _ ← lift (invalidValue (ValidName (ds_Name x) 250));
  _ ← lift (guard_err (bool_decide (ds_ContentHash x = EmptyString)) ErrOther);
  at_ ← (if decide (ds_CreatedAt x = 0) then time_now else mret (ds_CreatedAt x));
  retryWriteRace (createDatasetVersionOnce
    (mkDatasetVersion (ds_ID x) (ds_Name x) (ds_Version x) (ds_ContentHash x) (ds_SizeBytes x)
       (ds_SchemaJSON x) (ds_Description x) (default_ws (ds_WorkspaceID x)) at_ (ds_CreatedBy x)
       (default_to (ds_LifecycleStage x) LifecycleActive) (ds_Parents x)) parents).

(** ** Reads *)

(** [SELECT parent_id ... WHERE child_id = ?], in the order of the primary key. *)
Definition datasetParents (d : DB) (id : Z) : list Z :=
  sort_by (λ x : Z, x) (omap (λ e, if decide (e.1 = id) then Some e.2 else None) (elements (dataset_lineage d))).
Definition dataset_children (d : DB) (id : Z) : list Z :=
  sort_by (λ x : Z, x) (omap (λ e, if decide (e.2 = id) then Some e.1 else None) (elements (dataset_lineage d))).

Definition getDatasetVersionByID (d : DB) (id : Z) : option DatasetVersion :=
  (λ r, with_parents (datasetParents d id) (scanDatasetVersion id r)) <$> rows (datasets_v2 d) !! id.

(** The row of (workspace, name, version), unique by the UNIQUE constraint. *)
Definition dataset_at (d : DB) (ws name : string) (version : Z) : option (Z * DatasetRow) :=
  head (filter (λ p, xr_version p.2 = version) (dataset_versions d ws name)).

Definition GetDatasetVersion (workspaceID name : string) (version : Z) : M DatasetVersion :=
  d ← get;
  lift (of_option ErrNotFound
    ((λ p, with_parents (datasetParents d p.1) (scanDatasetVersion p.1 p.2)) <$>
       dataset_at d (default_ws workspaceID) name version)).

Definition ListDatasetVersions (workspaceID name : string) : M (list DatasetVersion) :=
  d ← get;
  mret ((λ p, scanDatasetVersion p.1 p.2) <$>
    sort_by (λ p, Desc (xr_version p.2)) (dataset_versions d (default_ws workspaceID) name)).

(** The latest active version of every name, newest first; ties, which SQL
    leaves open, by id. *)
Definition ListDatasets (workspaceID : string) : M (list DatasetVersion) :=
  let ws := default_ws workspaceID in
  d ← get;
  let latest (r : DatasetRow) := sql_max (xr_version <$>
    (filter (λ p, xr_lifecycle_stage p.2 = LifecycleActive) (dataset_versions d ws (xr_name r))).*2) in
  mret ((λ p, scanDatasetVersion p.1 p.2) <$>
    sort_by (λ p, (Desc (xr_created_at p.2), p.1))
      (filter (λ p, xr_workspace_id p.2 = ws ∧ latest p.2 = Some (xr_version p.2))
         (map_to_list (rows (datasets_v2 d))))).

Definition DatasetHashStillReferenced (hash : string) : M bool :=
  d ← get;
  mret (bool_decide (Exists (λ p, xr_content_hash p.2 = hash ∧ xr_lifecycle_stage p.2 = LifecycleActive)
          (map_to_list (rows (datasets_v2 d))))).

(** ** Soft deletion *)

Definition with_dataset_stage (s : string) (r : DatasetRow) : DatasetRow :=
  mkDatasetRow (xr_name r) (xr_version r) (xr_content_hash r) (xr_size_bytes r) (xr_schema_json r)
    (xr_description r) (xr_workspace_id r) (xr_created_at r) (xr_created_by r) s.

Definition SoftDeleteDatasetVersion (workspaceID name : string) (version : Z) : M unit :=
  d ← get;
  match dataset_at d (default_ws workspaceID) name version with
  | None => fail ErrNotFound
  | Some (id, r) => modify (set_datasets_v2 (serial_set id (with_dataset_stage LifecycleDeleted r) (datasets_v2 d)))
  end.

(** ** Lineage *)

Definition maxLineageNodes : nat := Z.to_nat 256.

Section walk.
(** The neighbours of a node, and the node itself ([getDatasetVersionByID]). *)
Context (succ : Z → list Z) (load : Z → option DatasetVersion).

(** One pass of the inner loop over the candidates: nodes seen before are
    skipped, missing rows too; the pass stops ([true]) when the cap is
    reached. *)
Fixpoint visit_level (cands : list Z) (visited : gset Z) (out new : list DatasetVersion) :
    bool * gset Z * list DatasetVersion * list DatasetVersion :=
  match cands with
  | [] => (false, visited, out, new)
  | c :: cands' =>
      if decide (maxLineageNodes ≤ length out)%nat then (true, visited, out, new)
      else if decide (c ∈ visited) then visit_level cands' visited out new
      else match load c with
           | None => visit_level cands' ({[c]} ∪ visited) out new
           | Some x => visit_level cands' ({[c]} ∪ visited) (out ++ [x]) (new ++ [x])
           end
  end.

(** The outer loop; [None] when the fuel does not suffice. *)
Fixpoint walk (fuel : nat) (cands : list Z) (visited : gset Z) (out : list DatasetVersion) :
    option (gset Z * list DatasetVersion) :=
  match cands with
  | [] => Some (visited, out)
  | _ =>
      match fuel with
      | O => None
      | S fuel' =>
          match visit_level cands visited out [] with
          | (true, visited', out', _) => Some (visited', out')
          | (false, visited', out', new) => walk fuel' (concat (succ ∘ ds_ID <$> new)) visited' out'
          end
      end
  end.
End walk.

Record DatasetLineage := mkDatasetLineage {
  lin_Self : DatasetVersion; lin_Ancestors : list DatasetVersion; lin_Descendants : list DatasetVersion }.

(** Every round but the last adds a node, and there are at most 256. *)
Definition lineage_fuel : nat := S (S maxLineageNodes).

(** The candidates of a round are the parents (children) of the nodes the
    round before added; both walks share the visited set. *)
Definition GetDatasetLineage (workspaceID name : string) (version : Z) : M (option DatasetLineage) :=
  self ← GetDatasetVersion workspaceID name version;
  d ← get;
  mret (
    '(visited, anc) ← walk (datasetParents d) (getDatasetVersionByID d) lineage_fuel (ds_Parents self) {[ds_ID self]} [];
    '(_, desc) ← walk (dataset_children d) (getDatasetVersionByID d) lineage_fuel
                   (dataset_children d (ds_ID self)) visited [];
    Some (mkDatasetLineage self anc desc)).

(** * The walk *)

Section walk_spec.
Context (succ : Z → list Z) (load : Z → option DatasetVersion).
Hypothesis load_id : ∀ c x, load c = Some x → ds_ID x = c.

Definition ids (l : list DatasetVersion) : list Z := ds_ID <$> l.

(** What a pass adds to the visited set and to the result. *)
Record level_ok (cands : list Z) (visited visited' : gset Z) (added : list DatasetVersion) : Prop := {
  lv_nodup : NoDup (ids added);
  lv_new x : x ∈ added → ds_ID x ∈ cands ∧ load (ds_ID x) = Some x ∧ ds_ID x ∉ visited;
  lv_grow : visited ⊆ visited';
  lv_in x : x ∈ added → ds_ID x ∈ visited';
  lv_from c : c ∈ visited' → c ∈ visited ∨ c ∈ cands ∧ (load c = None ∨ ∃ x, x ∈ added ∧ load c = Some x) }.

Lemma level_ok_nil cands visited : level_ok cands visited visited [].
Proof. split; [constructor|set_solver|done|set_solver|auto]. Qed.

Lemma level_ok_skip c cands visited visited' added :
  level_ok cands visited visited' added → level_ok (c :: cands) visited visited' added.
Proof.
  intros [H1 H2 H3 H4 H5]. split; try done.
  - intros x Hx. destruct (H2 x Hx) as (? & ? & ?). split_and!; [by right|done..].
  - intros c' Hc'. destruct (H5 c' Hc') as [?|[? ?]]; [by left|right]. split; [by right|done].
Qed.

Lemma level_ok_miss c cands visited visited' added :
  load c = None → level_ok cands ({[c]} ∪ visited) visited' added → level_ok (c :: cands) visited visited' added.
Proof.
  intros Hl [H1 H2 H3 H4 H5]. split; try done; [| |].
  - intros x Hx. destruct (H2 x Hx) as (? & ? & ?). split_and!; [by right|done|set_solver].
  - set_solver.
  - intros c' Hc'. destruct (H5 c' Hc') as [Hin|[? ?]]; [|right; split; [by right|done]].
    apply elem_of_union in Hin as [->%elem_of_singleton|?]; [right|by left]. split; [by left|by left].
Qed.

Lemma level_ok_add c x cands visited visited' added :
  load c = Some x → c ∉ visited →
  level_ok cands ({[c]} ∪ visited) visited' added → level_ok (c :: cands) visited visited' (x :: added).
Proof.
  intros Hl Hc [H1 H2 H3 H4 H5]. pose proof (load_id _ _ Hl) as Hid. split.
  - cbn. apply NoDup_cons. split; [|done]. intros Hin. apply list_elem_of_fmap in Hin as (y & Hy & Hin).
    destruct (H2 y Hin) as (_ & _ & Hn). set_solver.
  - intros y Hy. apply elem_of_cons in Hy as [->|Hy].
    + rewrite Hid. split_and!; [by left|done|done].
    + destruct (H2 y Hy) as (? & ? & ?). split_and!; [by right|done|set_solver].
  - set_solver.
  - intros y Hy. apply elem_of_cons in Hy as [->|Hy]; [|auto]. rewrite Hid. set_solver.
  - intros c' Hc'. destruct (H5 c' Hc') as [Hin|[? [?|(y & ? & ?)]]].
    + apply elem_of_union in Hin as [->%elem_of_singleton|?]; [right|by left].
      split; [by left|]. right. exists x. split; [by left|done].
    + right. split; [by right|by left].
    + right. split; [by right|]. right. exists y. split; [by right|done].
Qed.

Lemma visit_level_spec cands visited out new b visited' out' new' :
  visit_level load cands visited out new = (b, visited', out', new') →
  (length out ≤ maxLineageNodes)%nat →
  ∃ added, out' = out ++ added ∧ new' = new ++ added ∧ level_ok cands visited visited' added ∧
    (length out' ≤ maxLineageNodes)%nat ∧
    (b = true → length out' = maxLineageNodes) ∧ (b = false → ∀ c, c ∈ cands → c ∈ visited').
Proof.
  revert visited out new. induction cands as [|c cands IH]; intros visited out new; cbn [visit_level].
  - intros [= <- <- <- <-] Hlen. exists []. rewrite !app_nil_r. split_and!; try done; [apply level_ok_nil|set_solver].
  - case_decide as Hcap.
    { intros [= <- <- <- <-] Hlen. exists []. rewrite !app_nil_r.
      split_and!; try done; [apply level_ok_nil|intros _; lia]. }
    case_decide as Hseen.
    { intros Hx Hlen. destruct (IH _ _ _ Hx Hlen) as (added & -> & -> & Hok & Hl & Hb & Hf).
      exists added. split_and!; try done; [by apply level_ok_skip|].
      intros Hbf c' Hc'. apply elem_of_cons in Hc' as [->|?]; [|auto]. by apply (lv_grow _ _ _ _ Hok). }
    destruct (load c) as [x|] eqn:El; intros Hx Hlen.
    + destruct (IH _ _ _ Hx) as (added & -> & -> & Hok & Hl & Hb & Hf); [rewrite length_app; cbn; lia|].
      exists (x :: added). rewrite <- !(assoc_L (++)) in *. split_and!; try done; [by apply (level_ok_add c)|].
      intros Hbf c' Hc'. apply elem_of_cons in Hc' as [->|?]; [|auto]. apply (lv_grow _ _ _ _ Hok). set_solver.
    + destruct (IH _ _ _ Hx Hlen) as (added & -> & -> & Hok & Hl & Hb & Hf).
      exists added. split_and!; try done; [by apply (level_ok_miss c)|].
      intros Hbf c' Hc'. apply elem_of_cons in Hc' as [->|?]; [|auto]. apply (lv_grow _ _ _ _ Hok). set_solver.
Qed.

(** Candidates and what is reached from them. *)
Definition edge (a b : Z) : Prop := b ∈ succ a.

Lemma walk_spec fuel cands visited out :
  (length out ≤ maxLineageNodes)%nat → (S maxLineageNodes - length out < fuel)%nat →
  (∀ x, x ∈ out → ds_ID x ∈ visited) →
  ∃ visited' added, walk succ load fuel cands visited out = Some (visited', out ++ added) ∧
    NoDup (ids added) ∧ (length (out ++ added) ≤ maxLineageNodes)%nat ∧ visited ⊆ visited' ∧
    (∀ x, x ∈ added → ds_ID x ∉ visited ∧ load (ds_ID x) = Some x ∧
       ∃ c, c ∈ cands ∧ rtc edge c (ds_ID x)) ∧
    (∀ c, c ∈ visited' → c ∈ visited ∨ load c = None ∨ ∃ x, x ∈ added ∧ load c = Some x) ∧
    ((length (out ++ added) < maxLineageNodes)%nat →
       (∀ c, c ∈ cands → c ∈ visited') ∧ ∀ x c, x ∈ added → edge (ds_ID x) c → c ∈ visited').
Proof.
  revert cands visited out. induction fuel as [|fuel IH]; intros cands visited out Hlen Hfuel Hout; [lia|].
  destruct cands as [|c0 cands0].
  { exists visited, []. cbn. rewrite app_nil_r. split_and!; try done; [constructor|set_solver|auto|set_solver]. }
  set (cands := c0 :: cands0) in *. cbn [walk]. fold cands.
  destruct (visit_level load cands visited out []) as [[[b v1] o1] n1] eqn:E.
  destruct (visit_level_spec _ _ _ _ _ _ _ _ E Hlen) as (added & -> & -> & Hok & Hl & Hb & Hf).
  cbn [app]. destruct Hok as [H1 H2 H3 H4 H5]. destruct b.
  { exists v1, added. split_and!; try done.
    - intros x Hx. destruct (H2 x Hx) as (? & ? & ?). split_and!; [done..|]. exists (ds_ID x). by split.
    - intros c Hc. destruct (H5 c Hc) as [?|[_ ?]]; auto.
    - intros Hlt. specialize (Hb eq_refl). lia. }
  destruct (decide (added = [])) as [->|Hne].
  { exists v1, []. cbn [fmap list_fmap concat]. rewrite app_nil_r. cbn. destruct fuel; cbn.
    all: split_and!; try done; [set_solver|intros c Hc; destruct (H5 c Hc) as [?|[_ ?]]; by auto|].
    all: intros _; split; [by apply Hf|set_solver]. }
  assert (0 < length added)%nat by (destruct added; [done|cbn; lia]).
  destruct (IH (concat (succ ∘ ds_ID <$> added)) v1 (out ++ added)) as (v2 & added2 & -> & G1 & G2 & G3 & G4 & G5 & G6).
  { done. } { rewrite length_app in *. lia. } { intros x [?|?]%elem_of_app; [|auto]. by apply H3, Hout. }
  rewrite <- (assoc_L (++)) in *. exists v2, (added ++ added2).
  assert (∀ x, x ∈ added2 → ∃ y, y ∈ added ∧ rtc edge (ds_ID y) (ds_ID x)) as Hreach.
  { intros x Hx. destruct (G4 x Hx) as (_ & _ & c & Hc & Hr).
    apply list_elem_of_In, in_concat in Hc as (l & Hl' & Hc). apply list_elem_of_In in Hl', Hc.
    apply list_elem_of_fmap in Hl' as (y & -> & Hy). exists y. split; [done|]. by eapply rtc_l. }
  split_and!; [done| |done|set_solver| | |].
  - unfold ids. rewrite fmap_app. apply NoDup_app. split_and!; [done| |done].
    intros i Hi Hi2. apply list_elem_of_fmap in Hi as (x & -> & Hx). apply list_elem_of_fmap in Hi2 as (y & Hy & Hy2).
    destruct (G4 y Hy2) as (Hn & _). apply Hn. rewrite <- Hy. auto.
  - intros x [Hx|Hx]%elem_of_app.
    + destruct (H2 x Hx) as (? & ? & ?). split_and!; [done..|]. exists (ds_ID x). by split.
    + destruct (G4 x Hx) as (Hn & ? & _). split_and!; [set_solver|done|].
      destruct (Hreach x Hx) as (y & Hy & Hr). exists (ds_ID y). split; [|done]. by apply H2.
  - intros c Hc. destruct (G5 c Hc) as [Hv|[?|(x & ? & ?)]]; [|auto|].
    + destruct (H5 c Hv) as [?|[_ [?|(x & ? & ?)]]]; [auto|auto|].
      right. right. exists x. split; [|done]. apply elem_of_app. by left.
    + right. right. exists x. split; [|done]. apply elem_of_app. by right.
  - intros Hlt. destruct (G6 Hlt) as [Q1 Q2]. split; [intros c Hc; by apply G3, Hf|].
    intros x c [Hx|Hx]%elem_of_app He; [|by eapply Q2]. apply Q1. apply list_elem_of_In, in_concat.
    exists (succ (ds_ID x)). split; apply list_elem_of_In; [|done].
    apply list_elem_of_fmap. by exists x.
Qed.
End walk_spec.

(** * Integrity *)

(** Ids are fresh, (workspace, name, version) is unique, and every parent edge
    leads to an older row of the same workspace: the lineage is acyclic. *)
Record dataset_wf (d : DB) : Prop := {
  dw_serial : serial_wf (datasets_v2 d);
  dw_edge c p : (c, p) ∈ dataset_lineage d →
    p < c ∧ ∃ rc rp, rows (datasets_v2 d) !! c = Some rc ∧ rows (datasets_v2 d) !! p = Some rp ∧
                     xr_workspace_id rc = xr_workspace_id rp;
  dw_unique i j r r' : rows (datasets_v2 d) !! i = Some r → rows (datasets_v2 d) !! j = Some r' →
    xr_workspace_id r = xr_workspace_id r' → xr_name r = xr_name r' → xr_version r = xr_version r' → i = j }.

Lemma elem_of_dataset_versions d ws n i r :
  (i, r) ∈ dataset_versions d ws n ↔ rows (datasets_v2 d) !! i = Some r ∧ xr_workspace_id r = ws ∧ xr_name r = n.
Proof. unfold dataset_versions. rewrite list_elem_of_filter, elem_of_map_to_list. cbn. naive_solver. Qed.

Definition next_dataset_version (d : DB) (ws n : string) : Z :=
  sql_next (xr_version <$> (dataset_versions d ws n).*2).

Lemma next_dataset_version_gt d i r :
  rows (datasets_v2 d) !! i = Some r → xr_version r < next_dataset_version d (xr_workspace_id r) (xr_name r).
Proof.
  intros Hr. apply sql_next_gt, list_elem_of_fmap. exists r. split; [done|].
  apply list_elem_of_fmap. exists (i, r). split; [done|]. by apply elem_of_dataset_versions.
Qed.

Section create.
Context `{Clock}.

(** A parent exists in the workspace. *)
Definition parent_ok (d : DB) (ws : string) (p : Z) : Prop :=
  xr_workspace_id <$> rows (datasets_v2 d) !! p = Some ws.

#[export] Instance parent_ok_dec d ws p : Decision (parent_ok d ws p).
Proof. unfold parent_ok. apply _. Defined.

Lemma check_parents_exec ws ps w :
  for_each (check_parent ws) ps w =
  (if decide (Forall (parent_ok (w_db w) ws) ps) then Ok tt else Err ErrOther, w).
Proof.
  induction ps as [|p ps IH]; cbn [for_each]; [by rewrite decide_True by constructor|].
  unfold check_parent at 2. rewrite bind_bind, get_bind.
  destruct (rows (datasets_v2 (w_db w)) !! p) as [r|] eqn:E.
  2:{ rewrite decide_False; [done|]. rewrite Forall_cons. unfold parent_ok at 1. rewrite E. by intros [? _]. }
  destruct (decide (xr_workspace_id r = ws)) as [Hws|Hws].
  - rewrite ret_bind, IH. f_equal. apply decide_ext. rewrite Forall_cons. unfold parent_ok at 2. rewrite E. cbn.
    naive_solver.
  - rewrite decide_False; [done|]. rewrite Forall_cons. unfold parent_ok at 1. rewrite E. cbn. naive_solver.
Qed.

Lemma insert_edges_exec id ps w :
  for_each (insert_edge id) ps w =
  (Ok tt, mkWorld (set_dataset_lineage (list_to_set (pair id <$> ps) ∪ dataset_lineage (w_db w)) (w_db w)) (w_tick w)).
Proof.
  revert w. induction ps as [|p ps IH]; intros [d t]; cbn [for_each].
  - cbn. do 2 f_equal. rewrite (left_id_L ∅ (∪)). by destruct d as [? ? ? []].
  - unfold insert_edge at 2. rewrite modify_bind, IH. cbn [w_db w_tick]. f_equal. f_equal.
    unfold set_dataset_lineage, set_dataset. cbn. f_equal. f_equal. set_solver.
Qed.

Lemma insert_dataset_exec r w :
  insert_dataset r w =
  if negb (check_lifecycle (xr_lifecycle_stage r)) then (Err SqlCheck, w)
  else if decide (xr_version r ∈ xr_version <$> (dataset_versions (w_db w) (xr_workspace_id r) (xr_name r)).*2)
  then (Err SqlUnique, w)
  else (Ok (seq_no (datasets_v2 (w_db w)) + 1),
        mkWorld (set_datasets_v2 (serial_insert r (datasets_v2 (w_db w))).2 (w_db w)) (w_tick w)).
Proof. unfold insert_dataset. rewrite get_bind. destruct (negb _); [done|]. by case_decide. Qed.

(** The database after the insertion of a version with its edges. *)
Definition created_db (x : DatasetVersion) (ps : list Z) (d : DB) : DB :=
  let id := seq_no (datasets_v2 d) + 1 in
  let r := dataset_row x (next_dataset_version d (ds_WorkspaceID x) (ds_Name x)) in
  set_dataset_lineage (list_to_set (pair id <$> ps) ∪ dataset_lineage d)
    (set_datasets_v2 (serial_insert r (datasets_v2 d)).2 d).

Lemma createOnce_exec x ps w :
  serial_wf (datasets_v2 (w_db w)) →
  createDatasetVersionOnce x ps w =
  if decide (Forall (parent_ok (w_db w) (ds_WorkspaceID x)) ps) then
    if check_lifecycle (ds_LifecycleStage x) then
      (Ok (mkDatasetVersion (seq_no (datasets_v2 (w_db w)) + 1) (ds_Name x)
             (next_dataset_version (w_db w) (ds_WorkspaceID x) (ds_Name x)) (ds_ContentHash x) (ds_SizeBytes x)
             (ds_SchemaJSON x) (ds_Description x) (ds_WorkspaceID x) (ds_CreatedAt x) (ds_CreatedBy x)
             (ds_LifecycleStage x) ps),
       mkWorld (created_db x ps (w_db w)) (w_tick w))
    else (Err SqlCheck, w)
  else (Err ErrOther, w).
Proof.
  intros Hwf. unfold createDatasetVersionOnce, transaction.
  pose proof (check_parents_exec (ds_WorkspaceID x) ps w) as Hc. case_decide as Hps.
  2:{ rewrite (bind_Err _ _ _ _ _ Hc). by destruct w. }
  rewrite (bind_Ok _ _ _ _ _ Hc), get_bind. cbv zeta.
  change (sql_next _) with (next_dataset_version (w_db w) (ds_WorkspaceID x) (ds_Name x)).
  pose proof (insert_dataset_exec (dataset_row x (next_dataset_version (w_db w) (ds_WorkspaceID x) (ds_Name x))) w) as Hi.
  cbn [dataset_row xr_lifecycle_stage xr_version xr_workspace_id xr_name] in Hi.
  destruct (check_lifecycle _); cbn [negb] in Hi; [|rewrite (bind_Err _ _ _ _ _ Hi); by destruct w].
  rewrite decide_False in Hi by (intros Hin%sql_next_gt; unfold next_dataset_version in Hin; lia).
  rewrite (bind_Ok _ _ _ _ _ Hi), bool_decide_eq_false_2; cbn [guard_err].
  2:{ intros Hin. rewrite Forall_forall in Hps. specialize (Hps _ Hin). unfold parent_ok in Hps.
      by rewrite (serial_fresh _ Hwf) in Hps. }
  rewrite lift_Ok_bind. erewrite bind_Ok by apply insert_edges_exec. done.
Qed.

Lemma created_db_wf x ps d :
  dataset_wf d → Forall (parent_ok d (ds_WorkspaceID x)) ps → dataset_wf (created_db x ps d).
Proof.
  intros [H1 H2 H3] Hps. unfold created_db. cbv zeta. set (id := seq_no (datasets_v2 d) + 1).
  set (r := dataset_row x _). pose proof (serial_fresh _ H1) as Hfresh. fold id in Hfresh. rewrite Forall_forall in Hps.
  assert (∀ i r0, rows (datasets_v2 d) !! i = Some r0 → i < id ∧ rows (serial_insert r (datasets_v2 d)).2 !! i = Some r0) as Hold.
  { intros i r0 Hi. destruct (proj2 H1 i) as [_ ?]; [by eexists|]. split; [unfold id; lia|]. cbn. fold id.
    rewrite lookup_insert_ne; [done|]. unfold id. lia. }
  split; cbn [set_dataset_lineage set_datasets_v2 set_dataset db_dataset dt_datasets_v2 dt_dataset_lineage].
  - by apply serial_wf_insert.
  - intros c p [Hcp|Hcp]%elem_of_union.
    + apply elem_of_list_to_set, list_elem_of_fmap in Hcp as (p' & [= -> ->] & Hp).
      apply Hps in Hp. unfold parent_ok in Hp. apply fmap_Some in Hp as (rp & Hp & Hws).
      destruct (Hold _ _ Hp). split; [done|]. exists r, rp. split_and!; [cbn; by rewrite lookup_insert_eq|done|by rewrite <- Hws].
    + destruct (H2 _ _ Hcp) as (? & rc & rp & Hc & Hp & ?). split; [done|].
      exists rc, rp. by destruct (Hold _ _ Hc), (Hold _ _ Hp).
  - intros i j ri rj. cbn. fold id. rewrite !lookup_insert_Some. intros [[<- <-]|[? Hi]] [[<- <-]|[? Hj]] Hw Hn Hv; [done| | |eauto].
    + exfalso. apply next_dataset_version_gt in Hj. unfold r in *. cbn in *. rewrite <- Hw, <- Hn in Hj. lia.
    + exfalso. apply next_dataset_version_gt in Hi. unfold r in *. cbn in *. rewrite Hw, Hn in Hi. lia.
Qed.
End create.

(** A new dataset version.  A refused creation changes nothing.  A
    successful one returns a fresh id and a version above every version of
    that name; its parents exist in the same workspace and are exactly the
    recorded edges; no other row changes; and the lineage stays acyclic (every
    parent is an older row). *)
Theorem CreateDatasetVersion_spec `{Clock} x ps w :
  dataset_wf (w_db w) →
  match CreateDatasetVersion x ps w with
  | (Err _, w') => w_db w' = w_db w
  | (Ok x', w') =>
      let W := default_ws (ds_WorkspaceID x) in
      ds_WorkspaceID x' = W ∧ rows (datasets_v2 (w_db w)) !! ds_ID x' = None ∧
      (∀ i r, rows (datasets_v2 (w_db w)) !! i = Some r → xr_workspace_id r = W → xr_name r = ds_Name x →
              xr_version r < ds_Version x') ∧
      Forall (parent_ok (w_db w) W) ps ∧
      (∀ p, (ds_ID x', p) ∈ dataset_lineage (w_db w') ↔ p ∈ ps) ∧
      (∀ i, i ≠ ds_ID x' → rows (datasets_v2 (w_db w')) !! i = rows (datasets_v2 (w_db w)) !! i) ∧
      dataset_wf (w_db w')
  end.
Proof.
  intros Hwf. unfold CreateDatasetVersion, guard_err.
  destruct (bool_decide (ds_Name x = _)); [by rewrite lift_Err_bind|]. rewrite lift_Ok_bind.
  destruct (ValidName (ds_Name x) 250) as [[]|]; cbn [invalidValue]; [|by rewrite lift_Err_bind].
  rewrite lift_Ok_bind. destruct (bool_decide _); [by rewrite lift_Err_bind|]. rewrite lift_Ok_bind.
  set (W := default_ws (ds_WorkspaceID x)).
  assert (∀ w0 x0, w_db w0 = w_db w → ds_WorkspaceID x0 = W → ds_Name x0 = ds_Name x →
    match retryWriteRace (createDatasetVersionOnce x0 ps) w0 with
    | (Err _, w') => w_db w' = w_db w
    | (Ok x', w') => Forall (parent_ok (w_db w) W) ps ∧ w_db w' = created_db x0 ps (w_db w) ∧
        ds_ID x' = seq_no (datasets_v2 (w_db w)) + 1 ∧ ds_WorkspaceID x' = W ∧
        ds_Version x' = next_dataset_version (w_db w) W (ds_Name x)
    end) as Hrun.
  { intros w0 x0 Hw0 HW HN. pose proof (createOnce_exec x0 ps w0) as Hx. rewrite Hw0 in Hx.
    specialize (Hx (dw_serial _ Hwf)). rewrite retryWriteRace_once, Hx by (rewrite Hx; repeat case_match; done).
    rewrite HW, HN. repeat case_match; simplify_eq; try done; by split_and!. }
  match goal with |- match (?m ≫= ?f) w with _ => _ end =>
    assert (∃ t u, (m ≫= f) w = f t u ∧ w_db u = w_db w) as (t & u & -> & Hu)
      by (case_decide; [by eexists _, _|by eexists _, _]) end.
  specialize (Hrun u (mkDatasetVersion (ds_ID x) (ds_Name x) (ds_Version x) (ds_ContentHash x) (ds_SizeBytes x)
       (ds_SchemaJSON x) (ds_Description x) W t (ds_CreatedBy x)
       (default_to (ds_LifecycleStage x) LifecycleActive) (ds_Parents x)) Hu eq_refl eq_refl).
  cbv zeta. destruct (retryWriteRace _ u) as [[x'|e] w']; [|done].
  destruct Hrun as (Hps & Hd & Hid & HW & Hv). rewrite Hid, HW, Hv, Hd. split_and!; try done.
  - apply serial_fresh, Hwf.
  - intros i r Hr <- <-. by apply (next_dataset_version_gt _ i).
  - intros p. cbn. rewrite elem_of_union, elem_of_list_to_set, list_elem_of_fmap. split; [|eauto].
    intros [(? & [= ->] & ?)|Hin]; [done|]. apply (dw_edge _ Hwf) in Hin as (_ & rc & _ & Hc & _).
    by rewrite (serial_fresh _ (dw_serial _ Hwf)) in Hc.
  - intros i Hi. cbn. by rewrite lookup_insert_ne.
  - by apply created_db_wf.
Qed.

(** * The lineage of a dataset *)

(** The whole walk from a node none of whose (transitive) neighbours has been
    visited or is missing. *)
Lemma walk_exact succ load self visited :
  (∀ c x, load c = Some x → ds_ID x = c) →
  (∀ z, tc (edge succ) self z → z ∉ visited ∧ is_Some (load z)) →
  ∃ visited' added, walk succ load lineage_fuel (succ self) visited [] = Some (visited', added) ∧
    NoDup (ids added) ∧ (length added ≤ maxLineageNodes)%nat ∧
    (∀ x, x ∈ added → load (ds_ID x) = Some x ∧ tc (edge succ) self (ds_ID x)) ∧
    (∀ c, c ∈ visited' → c ∈ visited ∨ load c = None ∨ tc (edge succ) self c) ∧
    ((length added < maxLineageNodes)%nat → ∀ z, tc (edge succ) self z → z ∈ ids added).
Proof.
  intros Hid Hreach.
  destruct (walk_spec succ load Hid lineage_fuel (succ self) visited [])
    as (v' & added & Hw & H1 & H2 & H3 & H4 & H5 & H6); [cbn; lia|unfold lineage_fuel; cbn; lia|set_solver|].
  cbn [app] in *. exists v', added.
  assert (∀ x, x ∈ added → load (ds_ID x) = Some x ∧ tc (edge succ) self (ds_ID x)) as H4'.
  { intros x Hx. destruct (H4 x Hx) as (_ & ? & c & Hc & Hr). split; [done|].
    eapply tc_rtc_r; [by apply tc_once|done]. }
  split_and!; try done.
  - intros c Hc. destruct (H5 c Hc) as [?|[?|(x & Hx & Hl)]]; [auto|auto|].
    right. right. rewrite <- (Hid _ _ Hl). by apply H4'.
  - intros Hlt. destruct (H6 Hlt) as [Hc He].
    assert (∀ z, z ∈ v' → tc (edge succ) self z → z ∈ ids added) as Hv.
    { intros z Hz Ht. destruct (Hreach z Ht) as [Hn [y Hy]].
      destruct (H5 z Hz) as [?|[?|(x & Hx & Hl)]]; [done|congruence|].
      rewrite <- (Hid _ _ Hl). by apply list_elem_of_fmap_2. }
    assert (∀ a z, tc (edge succ) a z → (a = self ∨ a ∈ ids added) → z ∈ ids added) as Hstep; [|eauto].
    assert (∀ a b, edge succ a b → (a = self ∨ a ∈ ids added) → b ∈ ids added) as Hone.
    { intros a b Hab [->|Ha].
      - apply Hv; [by apply Hc|by apply tc_once].
      - apply list_elem_of_fmap in Ha as (x & -> & Hx). apply Hv; [by eapply He|].
        eapply tc_r; [by apply H4'|done]. }
    intros a z. induction 1 as [a b Hab|a b c Hab _ IH]; intros Ha; [by eapply Hone|].
    apply IH. right. by eapply Hone.
Qed.

Lemma elem_of_datasetParents d i p : p ∈ datasetParents d i ↔ (i, p) ∈ dataset_lineage d.
Proof.
  unfold datasetParents. rewrite elem_of_sort_by, list_elem_of_omap. setoid_rewrite elem_of_elements. split.
  - intros ([c p'] & Hin & Heq). case_decide; by simplify_eq/=.
  - intros Hin. exists (i, p). by rewrite decide_True.
Qed.

Lemma elem_of_dataset_children d i c : c ∈ dataset_children d i ↔ (c, i) ∈ dataset_lineage d.
Proof.
  unfold dataset_children. rewrite elem_of_sort_by, list_elem_of_omap. setoid_rewrite elem_of_elements. split.
  - intros ([c' p] & Hin & Heq). case_decide; by simplify_eq/=.
  - intros Hin. exists (c, i). by rewrite decide_True.
Qed.

Lemma getDatasetVersionByID_id d c x : getDatasetVersionByID d c = Some x → ds_ID x = c.
Proof. unfold getDatasetVersionByID. intros (r & _ & ->)%fmap_Some. done. Qed.

(** [p] is a (transitive) parent of [c]. *)
Definition ancestor_of (d : DB) (p c : Z) : Prop := tc (λ a b, (a, b) ∈ dataset_lineage d) c p.

Lemma ancestor_older d p c :
  dataset_wf d → ancestor_of d p c →
  p < c ∧ ∃ rc rp, rows (datasets_v2 d) !! c = Some rc ∧ rows (datasets_v2 d) !! p = Some rp ∧
                   xr_workspace_id rc = xr_workspace_id rp.
Proof.
  intros Hwf Ht. induction Ht as [c p He|c b p He _ (Hlt & rc & rp & Hc & Hp & Hws)].
  - by apply (dw_edge _ Hwf).
  - destruct (dw_edge _ Hwf _ _ He) as (? & rc' & rb & ? & Hb & Hws'). split; [lia|].
    exists rc', rp. split_and!; [done|done|]. rewrite Hc in Hb. simplify_eq. congruence.
Qed.

Lemma tc_parents d c p : tc (edge (datasetParents d)) c p ↔ ancestor_of d p c.
Proof.
  unfold ancestor_of. split; intros Ht; induction Ht as [a b He|a b e He _ IH];
    [apply tc_once|eapply tc_l; [|exact IH]|apply tc_once|eapply tc_l; [|exact IH]];
    by apply elem_of_datasetParents.
Qed.

Lemma tc_children d p c : tc (edge (dataset_children d)) p c ↔ ancestor_of d p c.
Proof.
  unfold ancestor_of. split.
  - intros Ht. induction Ht as [a b He|a b e He _ IH].
    + apply tc_once. by apply elem_of_dataset_children.
    + eapply tc_r; [exact IH|]. by apply elem_of_dataset_children.
  - intros Ht. induction Ht as [a b He|a b e He _ IH].
    + apply tc_once. by apply elem_of_dataset_children.
    + eapply tc_r; [exact IH|]. by apply elem_of_dataset_children.
Qed.

Lemma load_ws d c x : getDatasetVersionByID d c = Some x →
  ∃ r, rows (datasets_v2 d) !! c = Some r ∧ ds_WorkspaceID x = xr_workspace_id r.
Proof. unfold getDatasetVersionByID. intros (r & ? & ->)%fmap_Some. by exists r. Qed.

(** The lineage of a dataset.  For an existing version the walk ends with
    at most 256 ancestors and 256 descendants, no row twice, all of them real
    ancestors (descendants) in the workspace of the version; below the cap it
    returns all of them. *)
Theorem GetDatasetLineage_spec ws n v w self :
  dataset_wf (w_db w) → GetDatasetVersion ws n v w = (Ok self, w) →
  ∃ lin, GetDatasetLineage ws n v w = (Ok (Some lin), w) ∧ lin_Self lin = self ∧
    NoDup (ids (lin_Ancestors lin ++ lin_Descendants lin)) ∧
    (∀ x, x ∈ lin_Ancestors lin →
       ancestor_of (w_db w) (ds_ID x) (ds_ID self) ∧ ds_WorkspaceID x = ds_WorkspaceID self) ∧
    (∀ x, x ∈ lin_Descendants lin →
       ancestor_of (w_db w) (ds_ID self) (ds_ID x) ∧ ds_WorkspaceID x = ds_WorkspaceID self) ∧
    (length (lin_Ancestors lin) ≤ maxLineageNodes)%nat ∧ (length (lin_Descendants lin) ≤ maxLineageNodes)%nat ∧
    ((length (lin_Ancestors lin) < maxLineageNodes)%nat →
       ∀ a, ancestor_of (w_db w) a (ds_ID self) → a ∈ ids (lin_Ancestors lin)) ∧
    ((length (lin_Descendants lin) < maxLineageNodes)%nat →
       ∀ c, ancestor_of (w_db w) (ds_ID self) c → c ∈ ids (lin_Descendants lin)).
Proof.
  intros Hwf Hself. set (d := w_db w) in *. set (load := getDatasetVersionByID d).
  assert (∃ r, rows (datasets_v2 d) !! ds_ID self = Some r ∧ ds_WorkspaceID self = xr_workspace_id r ∧
    ds_Parents self = datasetParents d (ds_ID self)) as (rs & Hrs & Hws & Hps).
  { unfold GetDatasetVersion in Hself. rewrite get_bind in Hself. fold d in Hself. unfold dataset_at in Hself.
    destruct (filter _ _) as [|[i r] l] eqn:E; [done|]. injection Hself as <-. exists r. split_and!; [|done|done].
    assert ((i, r) ∈ (i, r) :: l) as Hin by left. rewrite <- E in Hin.
    apply list_elem_of_filter in Hin as [_ Hin]. by apply elem_of_dataset_versions in Hin as [? _]. }
  assert (∀ z y, ancestor_of d z y → is_Some (load z) ∧ is_Some (load y)) as Hload.
  { intros z y Ha. destruct (ancestor_older d z y Hwf Ha) as (_ & ry & rz & Hy & Hz & _).
    unfold load, getDatasetVersionByID. by rewrite Hy, Hz. }
  destruct (walk_exact (datasetParents d) load (ds_ID self) {[ds_ID self]} (getDatasetVersionByID_id d))
    as (v1 & anc & Hw1 & N1 & L1 & S1 & V1 & C1).
  { intros z Hz%tc_parents. split; [|by destruct (Hload _ _ Hz)].
    apply ancestor_older in Hz as [? _]; [|done]. rewrite elem_of_singleton. lia. }
  destruct (walk_exact (dataset_children d) load (ds_ID self) v1 (getDatasetVersionByID_id d))
    as (v2 & desc & Hw2 & N2 & L2 & S2 & V2 & C2).
  { intros z Hz%tc_children. destruct (Hload _ _ Hz) as [_ [y Hy]]. split; [|by eexists].
    pose proof (ancestor_older _ _ _ Hwf Hz) as [Hlt _]. intros Hin. destruct (V1 z Hin) as [->%elem_of_singleton|[?|Hup%tc_parents]]; [lia|congruence|].
    apply ancestor_older in Hup as [? _]; [|done]. lia. }
  exists (mkDatasetLineage self anc desc). split_and!; [|done| | | |done|done| |].
  - unfold GetDatasetLineage. rewrite (bind_Ok _ _ _ _ _ Hself), get_bind. fold d. rewrite Hps.
    fold load. rewrite Hw1. cbn [mbind option_bind]. by rewrite Hw2.
  - cbn. unfold ids in *. rewrite fmap_app. apply NoDup_app. split_and!; [done| |done]. intros i Hi Hi'.
    apply list_elem_of_fmap in Hi as (x & -> & Hx). apply list_elem_of_fmap in Hi' as (y & Hxy & Hy).
    destruct (S1 x Hx) as [_ Hup%tc_parents]. destruct (S2 y Hy) as [_ Hdn%tc_children].
    apply ancestor_older in Hup as [? _], Hdn as [? _]; try done. lia.
  - cbn. intros x Hx. destruct (S1 x Hx) as [Hl Hup%tc_parents]. split; [done|].
    apply load_ws in Hl as (r & Hr & ->). apply ancestor_older in Hup as (_ & ra & rb & Ha & Hb & ?); [|done]. congruence.
  - cbn. intros x Hx. destruct (S2 x Hx) as [Hl Hdn%tc_children]. split; [done|].
    apply load_ws in Hl as (r & Hr & ->). apply ancestor_older in Hdn as (_ & ra & rb & Ha & Hb & ?); [|done]. congruence.
  - cbn. intros Hlt a Ha. apply C1; [done|]. by apply tc_parents.
  - cbn. intros Hlt c Hc. apply C2; [done|]. by apply tc_children.
Qed.

(** * Integrity under any sequence of calls *)

Section integrity.
Context `{Clock}.

Lemma CreateDatasetVersion_wf x ps : Preserves dataset_wf (CreateDatasetVersion x ps).
Proof.
  unfold CreateDatasetVersion. do 3 (apply bind_pres; [apply _|intros _]).
  apply bind_pres; [case_decide; apply _|]. intros t. apply retry_pres. intros w Hw.
  rewrite createOnce_exec by apply Hw. case_decide; [|done]. destruct (check_lifecycle _); [|done].
  cbn. by apply created_db_wf.
Qed.

Lemma SoftDeleteDatasetVersion_wf ws n v : Preserves dataset_wf (SoftDeleteDatasetVersion ws n v).
Proof.
  apply get_bind_pres. intros w Hw. unfold dataset_at.
  destruct (head _) as [[i r]|] eqn:E; [|done]. assert (rows (datasets_v2 (w_db w)) !! i = Some r) as Hr.
  { destruct (filter _ _) as [|p l] eqn:F; [done|]. injection E as ->.
    assert ((i, r) ∈ (i, r) :: l) as Hin by left. rewrite <- F in Hin.
    apply list_elem_of_filter in Hin as [_ Hin]. by apply elem_of_dataset_versions in Hin as [? _]. }
  destruct Hw as [H1 H2 H3]. split; cbn.
  - apply serial_wf_set; [done|by eexists].
  - intros c p Hcp. destruct (H2 _ _ Hcp) as (? & rc & rp & Hc & Hp & Hws). split; [done|].
    assert (∀ j rj, rows (datasets_v2 (w_db w)) !! j = Some rj →
      ∃ rj', <[i:=with_dataset_stage LifecycleDeleted r]> (rows (datasets_v2 (w_db w))) !! j = Some rj' ∧
             xr_workspace_id rj' = xr_workspace_id rj) as Hj.
    { intros j rj Hj. destruct (decide (j = i)) as [->|Hne].
      - rewrite lookup_insert_eq. eexists. split; [done|]. cbn. congruence.
      - rewrite lookup_insert_ne by done. by eexists. }
    destruct (Hj _ _ Hc) as (rc' & ? & ?), (Hj _ _ Hp) as (rp' & ? & ?). exists rc', rp'. split_and!; congruence.
  - intros j k rj rk. rewrite !lookup_insert_Some.
    intros [[<- <-]|[_ Hj]] [[<- <-]|[_ Hk]]; cbn; intros; eauto using eq_sym.
Qed.
End integrity.

Lemma seed_dataset_wf t : dataset_wf (seed_db t).
Proof.
  split; cbn; [apply serial_wf_empty|set_solver|]. intros i j r r' Hi. by rewrite lookup_empty in Hi.
Qed.

(** * Witnesses *)

Definition ex_ds (name hash : string) : DatasetVersion :=
  mkDatasetVersion 0 name 0 hash 7 "" "" "" 0 "" "" [].
Definition ex_ds_w : World :=
  (CreateDatasetVersion (ex_ds "clean" "h2") [1]
    (CreateDatasetVersion (ex_ds "raw" "h1") [] (mkWorld (seed_db 1) 0)).2).2.

Lemma ex_ds_wf : dataset_wf (w_db ex_ds_w).
Proof. do 2 apply CreateDatasetVersion_wf. apply seed_dataset_wf. Qed.

Lemma CreateDatasetVersion_spec_witness :
  ∃ x', (CreateDatasetVersion (ex_ds "clean" "h3") [1; 2] ex_ds_w).1 = Ok x' ∧
        rows (datasets_v2 (w_db ex_ds_w)) !! ds_ID x' = None.
Proof.
  pose proof (CreateDatasetVersion_spec (ex_ds "clean" "h3") [1; 2] ex_ds_w ex_ds_wf) as Hs.
  destruct (CreateDatasetVersion (ex_ds "clean" "h3") [1; 2] ex_ds_w) as [[x'|e] w'] eqn:E.
  - exists x'. destruct Hs as (_ & Hf & _). split; [reflexivity|exact Hf].
  - exfalso. vm_compute in E. discriminate E.
Defined.

Lemma GetDatasetLineage_spec_witness :
  ∃ lin, GetDatasetLineage "" "clean" 1 ex_ds_w = (Ok (Some lin), ex_ds_w) ∧
         (length (lin_Ancestors lin) ≤ maxLineageNodes)%nat.
Proof.
  destruct (GetDatasetVersion "" "clean" 1 ex_ds_w) as [[self|e] w'] eqn:E.
  2:{ exfalso. vm_compute in E. discriminate E. }
  destruct (GetDatasetLineage_spec "" "clean" 1 ex_ds_w self) as (lin & Hl & _ & _ & _ & _ & Hlen & _).
  - apply ex_ds_wf.
  - rewrite E. f_equal. vm_compute in E. injection E as _ <-. vm_compute. reflexivity.
  - exists lin. split; [exact Hl|exact Hlen].
Defined.
