(* ===== verification/Inputs.v ===== *)
(** * Dataset inputs of runs (internal/store/sqlite.go, sqlite_lineage.go)

    [LogInputs] links datasets to a run: it mirrors (name, digest) into the
    versioned datasets of the workspace of the run, inserts the link with its
    tags, and keeps the MLflow metadata; optionally it writes the v0.3 tables
    too.  [GetRunDatasets] and [runDatasetEdges] read both generations. *)

From S2P Require Import Prelude GoStrings Model Database Runs Sample Datasets.

Open Scope Z_scope.

Record Dataset := mkDatasetInfo {
  dset_Name : string; dset_Digest : string; dset_SourceType : string; dset_Source : string;
  dset_Schema : string; dset_Profile : string }.

Record DatasetInput := mkDatasetInput { in_Dataset : Dataset; in_Tags : list KV }.

(** ** Writing *)

(** [runs JOIN experiments]: the workspace of a run. *)
Definition run_workspace (d : DB) (runID : string) : option string :=
  r ← runs d !! runID; e ← rows (experiments d) !! rr_experiment_id r; Some (er_workspace_id e).

(** The rows of (workspace, name, content_hash), oldest first. *)
Definition mirrored (d : DB) (ws name digest : string) : list (Z * DatasetRow) :=
  sort_by fst (filter (λ p, xr_content_hash p.2 = digest) (dataset_versions d ws name)).

(** [if !isUniqueConstraintErr(err) { return err }], else the next attempt. *)
Definition or_retry {A} (m k : M A) : M A := λ w,
  match m w with
  | (Err SqlUnique, w') => k w'
  | r => r
  end.

(** The existence check, the insertion under a savepoint, and the next
    attempt after a UNIQUE violation. *)
Fixpoint mirror_attempts `{Clock} (n : nat) (ws name digest : string) : M Z :=
  match n with
  | O => fail ErrOther
  | S n' =>
      mbind (M:=M) (λ d : DB,
        match mirrored d ws name digest with
        | (id, _) :: _ => mret id
        | [] =>
            mbind (M:=M) (λ now,
              let v := sql_next (xr_version <$> (dataset_versions d ws name).*2) in
              or_retry
                (transaction (insert_dataset (mkDatasetRow name v digest 0 None None ws now None LifecycleActive)))
                (mirror_attempts n' ws name digest)) time_now
        end) get
  end.

Definition mirrorIntoDatasetsV2Returning `{Clock} (runID name digest : string) : M Z :=
  d ← get;
  match run_workspace d runID with
  | None => fail ErrOther
  | Some ws => mirror_attempts 3 (default_ws ws) name digest
  end.

(** [json.Marshal] of the tags, read back by [json.Unmarshal]. *)
Definition encodeTagsJSON (tags : list KV) : list KV :=
  (λ t, mkKV (utf8_coerce (kv_Key t)) (utf8_coerce (kv_Value t))) <$> tags.

Definition insert_input (r : InputRow) : M unit :=
  d ← get;
  if run_exists d (ir_run_id r) && bool_decide (is_Some (rows (datasets_v2 d) !! ir_dataset_id r))
  then modify (set_dataset_inputs_v2 (serial_insert r (dataset_inputs_v2 d)).2)
  else fail SqlForeignKey.

(** [COALESCE(excluded.col, col)]. *)
Definition keep_old (new old : option string) : option string := match new with Some _ => new | None => old end.

Definition upsert_metadata (x : Dataset) : M unit :=
  modify (λ d,
    let k := (dset_Name x, dset_Digest x) in
    let new := mkDatasetMetaRow (nilIfEmpty (dset_SourceType x)) (nilIfEmpty (dset_Source x))
                 (nilIfEmpty (dset_Schema x)) (nilIfEmpty (dset_Profile x)) in
    let row := match datasets d !! k with
               | None => new
               | Some old => mkDatasetMetaRow (keep_old (mt_source_type new) (mt_source_type old))
                   (keep_old (mt_source new) (mt_source old)) (keep_old (mt_schema new) (mt_schema old))
                   (keep_old (mt_profile new) (mt_profile old))
               end in
    set_datasets (<[k := row]> (datasets d)) d).

(** The v0.3 link with its tags; the metadata row exists by then. *)
Definition insert_legacy (runID : string) (x : DatasetInput) : M unit :=
  d ← get;
  if negb (run_exists d runID) then fail SqlForeignKey else
  let '(id, t) := serial_insert (mkLegacyInputRow runID (dset_Name (in_Dataset x)) (dset_Digest (in_Dataset x)))
                    (dataset_inputs d) in
  _ ← modify (set_dataset_inputs t);
  for_each (λ tag, modify (λ d, set_dataset_input_tags (<[(id, kv_Key tag) := kv_Value tag]> (dataset_input_tags d)) d))
    (in_Tags x).

Section log_inputs.
Context `{Clock}.
(** [LITEMLFLOW_ENABLE_DATASETS_V03_WRITES]. *)
Context (writeV03 : bool).

Definition log_input (runID : string) (x : DatasetInput) : M unit :=
  id ← mirrorIntoDatasetsV2Returning runID (dset_Name (in_Dataset x)) (dset_Digest (in_Dataset x));
  _ ← insert_input (mkInputRow runID id (encodeTagsJSON (in_Tags x)));
  _ ← upsert_metadata (in_Dataset x);
  when writeV03 (insert_legacy runID x).

Definition logInputsOnce (runID : string) (inputs : list DatasetInput) : M unit :=
  transaction (for_each (log_input runID) inputs).

(** The retry is on SQLITE_BUSY, a failure of the driver. *)
Definition LogInputs (runID : string) (inputs : list DatasetInput) : M unit :=
  if decide (inputs = []) then mret tt else
  _ ← assertRunExists runID;
  logInputsOnce runID inputs.
End log_inputs.

(** ** Reading *)

Definition meta_of (d : DB) (name digest : string) : DatasetMetaRow :=
  default (mkDatasetMetaRow None None None None) (datasets d !! (name, digest)).

Definition dataset_info (d : DB) (name digest : string) : Dataset :=
  let m := meta_of d name digest in
  mkDatasetInfo name digest (coalesce (mt_source_type m)) (coalesce (mt_source m))
    (coalesce (mt_schema m)) (coalesce (mt_profile m)).

(** [name + "|" + digest]. *)
Definition seen_key (name digest : string) : string := name +:+ "|" +:+ digest.

(** The links of a run in both tables, in id order. *)
Definition input_rows (d : DB) (runID : string) : list (Z * InputRow) :=
  sort_by fst (filter (λ p, ir_run_id p.2 = runID) (map_to_list (rows (dataset_inputs_v2 d)))).
Definition legacy_rows (d : DB) (runID : string) : list (Z * LegacyInputRow) :=
  sort_by fst (filter (λ p, lr_run_id p.2 = runID) (map_to_list (rows (dataset_inputs d)))).

(** The v2.1 links, joined with their dataset.  The tags are sorted by key
    (Go's sort leaves the order of equal keys open). *)
Definition primary_inputs (d : DB) (runID : string) : list DatasetInput :=
  omap (λ p, r ← rows (datasets_v2 d) !! ir_dataset_id p.2;
             Some (mkDatasetInput (dataset_info d (xr_name r) (xr_content_hash r)) (sort_by kv_Key (ir_tags p.2))))
    (input_rows d runID).

Definition legacy_tags (d : DB) (id : Z) : list KV :=
  sort_by kv_Key (omap (λ '((i, k), v), if decide (i = id) then Some (mkKV k v) else None)
    (map_to_list (dataset_input_tags d))).

Definition GetRunDatasets (runID : string) : M (list DatasetInput) :=
  d ← get;
  let primary := primary_inputs d runID in
  let seen := (λ x, seen_key (dset_Name (in_Dataset x)) (dset_Digest (in_Dataset x))) <$> primary in
  let legacy := filter (λ p, is_Some (datasets d !! (lr_name p.2, lr_digest p.2)) ∧
                             seen_key (lr_name p.2) (lr_digest p.2) ∉ seen) (legacy_rows d runID) in
  mret (primary ++ ((λ p, mkDatasetInput (dataset_info d (lr_name p.2) (lr_digest p.2)) (legacy_tags d p.1)) <$> legacy)).

(** ** Lineage edges *)

Record DatasetEdge := mkDatasetEdge {
  edge_RunID : string; edge_Name : string; edge_Version : Z; edge_Digest : string; edge_DatasetID : Z }.

Definition primary_edges (d : DB) (runID ws : string) : list DatasetEdge :=
  omap (λ p, r ← rows (datasets_v2 d) !! ir_dataset_id p.2;
             if decide (xr_workspace_id r = ws)
             then Some (mkDatasetEdge (ir_run_id p.2) (xr_name r) (xr_version r) (xr_content_hash r) (ir_dataset_id p.2))
             else None)
    (input_rows d runID).

(** LEFT JOIN: one row per mirrored version, or one with zeros. *)
Definition legacy_edges (d : DB) (ws : string) (p : Z * LegacyInputRow) : list DatasetEdge :=
  match mirrored d ws (lr_name p.2) (lr_digest p.2) with
  | [] => [mkDatasetEdge (lr_run_id p.2) (lr_name p.2) 0 (lr_digest p.2) 0]
  | l => (λ q, mkDatasetEdge (lr_run_id p.2) (lr_name p.2) (xr_version q.2) (lr_digest p.2) q.1) <$> l
  end.

Definition runDatasetEdges (runID workspaceID : string) : M (list DatasetEdge) :=
  d ← get;
  let primary := primary_edges d runID workspaceID in
  let seen := (λ e, seen_key (edge_Name e) (edge_Digest e)) <$> primary in
  mret (primary ++ filter (λ e, seen_key (edge_Name e) (edge_Digest e) ∉ seen)
                     (concat (legacy_edges d workspaceID <$> legacy_rows d runID))).

(** * Logging inputs is additive *)

(** Every link points to a stored dataset. *)
Record inputs_wf (d : DB) : Prop := {
  iw_datasets : dataset_wf d;
  iw_serial : serial_wf (dataset_inputs_v2 d);
  iw_link i r : rows (dataset_inputs_v2 d) !! i = Some r → is_Some (rows (datasets_v2 d) !! ir_dataset_id r) }.

(** What identifies an input: name, digest and tags. *)
Definition input_key (x : DatasetInput) : string * string * list KV :=
  (dset_Name (in_Dataset x), dset_Digest (in_Dataset x), in_Tags x).
Definition logged_key (x : DatasetInput) : string * string * list KV :=
  (dset_Name (in_Dataset x), dset_Digest (in_Dataset x), sort_by kv_Key (encodeTagsJSON (in_Tags x))).

(** The effect of logging one input: [id] is the dataset it is linked to. *)
Record input_step (R : string) (x : DatasetInput) (id : Z) (row : DatasetRow) (d d' : DB) : Prop := {
  is_old i r : rows (datasets_v2 d) !! i = Some r → rows (datasets_v2 d') !! i = Some r;
  is_new : rows (datasets_v2 d') !! id = Some row;
  is_name : xr_name row = dset_Name (in_Dataset x);
  is_digest : xr_content_hash row = dset_Digest (in_Dataset x);
  is_inputs : dataset_inputs_v2 d' =
    (serial_insert (mkInputRow R id (encodeTagsJSON (in_Tags x))) (dataset_inputs_v2 d)).2;
  is_wf : dataset_wf d';
  is_legacy i r : rows (dataset_inputs d') !! i = Some r →
    rows (dataset_inputs d) !! i = Some r ∨
    r = mkLegacyInputRow R (dset_Name (in_Dataset x)) (dset_Digest (in_Dataset x)) }.

Section exec.
Context `{Clock}.

Lemma elem_of_mirrored d ws n g i r :
  (i, r) ∈ mirrored d ws n g ↔
  rows (datasets_v2 d) !! i = Some r ∧ xr_workspace_id r = ws ∧ xr_name r = n ∧ xr_content_hash r = g.
Proof.
  unfold mirrored. rewrite elem_of_sort_by, list_elem_of_filter, elem_of_dataset_versions. naive_solver.
Qed.

(** The mirror returns the row that has the content, or inserts one; only
    [datasets_v2] changes. *)
Lemma mirror_exec R n g w id w' :
  dataset_wf (w_db w) → mirrorIntoDatasetsV2Returning R n g w = (Ok id, w') →
  ∃ t r, w_db w' = set_datasets_v2 t (w_db w) ∧ dataset_wf (w_db w') ∧
    (∀ i r, rows (datasets_v2 (w_db w)) !! i = Some r → rows t !! i = Some r) ∧
    rows t !! id = Some r ∧ xr_name r = n ∧ xr_content_hash r = g.
Proof.
  intros Hwf. unfold mirrorIntoDatasetsV2Returning. rewrite get_bind.
  destruct (run_workspace (w_db w) R) as [ws0|]; [|done].
  generalize 2%nat as k. intros k. cbn [mirror_attempts]. rewrite get_bind.
  set (ws := default_ws ws0). destruct (mirrored (w_db w) ws n g) as [|[i r] l] eqn:E.
  - rewrite now_bind. cbv zeta. unfold or_retry.
    set (x := mkDatasetVersion 0 n 0 g 0 "" "" ws (clock (w_tick w)) "" LifecycleActive []).
    change (mkDatasetRow n _ g 0 None None ws _ None LifecycleActive)
      with (dataset_row x (next_dataset_version (w_db w) (ds_WorkspaceID x) (ds_Name x))).
    unfold transaction. rewrite insert_dataset_exec. change (check_lifecycle _) with true.
    cbn [negb]. rewrite decide_False.
    2:{ intros Hin%sql_next_gt. unfold next_dataset_version in Hin. cbn in Hin. lia. }
    intros [= <- <-]. eexists _, (dataset_row x _). split_and!; [reflexivity| | | |done|done].
    + pose proof (created_db_wf x [] (w_db w) Hwf (Forall_nil_2 _)) as Hwf'. unfold created_db in Hwf'. cbv zeta in Hwf'.
      cbn [fmap list_fmap list_to_set] in Hwf'. rewrite (left_id_L ∅ (∪)) in Hwf'. exact Hwf'.
    + intros i r Hi. cbn. rewrite lookup_insert_ne; [done|]. intros <-. by rewrite (serial_fresh _ (dw_serial _ Hwf)) in Hi.
    + cbn. apply lookup_insert_eq.
  - intros [= <- <-]. assert ((i, r) ∈ mirrored (w_db w) ws n g) as Hin by (rewrite E; left).
    apply elem_of_mirrored in Hin as (Hr & _ & ? & ?). exists (datasets_v2 (w_db w)), r.
    split_and!; try done. by destruct (w_db w) as [? ? ? []].
Qed.

Lemma insert_legacy_tags_exec id ts w w' a :
  for_each (λ tag, modify (λ d, set_dataset_input_tags (<[(id, kv_Key tag) := kv_Value tag]> (dataset_input_tags d)) d))
    ts w = (Ok a, w') →
  datasets_v2 (w_db w') = datasets_v2 (w_db w) ∧ dataset_lineage (w_db w') = dataset_lineage (w_db w) ∧
  dataset_inputs_v2 (w_db w') = dataset_inputs_v2 (w_db w) ∧ dataset_inputs (w_db w') = dataset_inputs (w_db w).
Proof.
  revert w. induction ts as [|t ts IH]; intros w; cbn [for_each]; [by intros [= _ <-]|].
  rewrite modify_bind. intros (? & ? & ? & ?)%IH. done.
Qed.

(** [dataset_wf] is about two tables. *)
Lemma dataset_wf_ext d d' :
  datasets_v2 d' = datasets_v2 d → dataset_lineage d' = dataset_lineage d → dataset_wf d → dataset_wf d'.
Proof. intros E1 E2 [H1 H2 H3]. split; rewrite ?E1, ?E2; done. Qed.

Lemma log_input_exec v03 R x w w' :
  dataset_wf (w_db w) → log_input v03 R x w = (Ok tt, w') →
  ∃ id row, input_step R x id row (w_db w) (w_db w').
Proof.
  intros Hwf Hx. unfold log_input in Hx. apply bind_exec_Ok in Hx as (id & w1 & Hm & Hx).
  destruct (mirror_exec _ _ _ _ _ _ Hwf Hm) as (t & r & Hd1 & Hwf1 & Hold & Hnew & Hn & Hg).
  apply bind_exec_Ok in Hx as ([] & w2 & Hi & Hx). unfold insert_input in Hi. rewrite get_bind in Hi.
  destruct (_ && _); [|done]. injection Hi as <-.
  unfold upsert_metadata in Hx. rewrite modify_bind in Hx.
  exists id, r.
  assert (∃ d2, datasets_v2 (w_db w') = t ∧ dataset_lineage (w_db w') = dataset_lineage (w_db w1) ∧
    dataset_inputs_v2 (w_db w') = (serial_insert (mkInputRow R id (encodeTagsJSON (in_Tags x))) (dataset_inputs_v2 (w_db w))).2 ∧
    (dataset_inputs (w_db w') = dataset_inputs (w_db w) ∨
     dataset_inputs (w_db w') = (serial_insert d2 (dataset_inputs (w_db w))).2 ∧
     d2 = mkLegacyInputRow R (dset_Name (in_Dataset x)) (dset_Digest (in_Dataset x)))) as (d2 & E1 & E2 & E3 & E4).
  { exists (mkLegacyInputRow R (dset_Name (in_Dataset x)) (dset_Digest (in_Dataset x))).
    unfold when in Hx. destruct v03.
    - unfold insert_legacy in Hx. rewrite get_bind in Hx. destruct (negb _); [done|].
      cbn [serial_insert] in Hx. rewrite modify_bind in Hx.
      apply insert_legacy_tags_exec in Hx as (F1 & F2 & F3 & F4). cbn in *. rewrite F1, F2, F3, F4, Hd1.
      split_and!; try done. by right.
    - injection Hx as <-. cbn. rewrite Hd1. split_and!; try done. by left. }
  split; rewrite ?E1; try done.
  - apply (dataset_wf_ext (w_db w1)); [by rewrite E1, Hd1|done|done].
  - intros i r0. destruct E4 as [->|[-> ->]]; [by left|]. cbn.
    intros [[_ <-]|[_ ?]]%lookup_insert_Some; [by right|by left].
Qed.
End exec.

(** Appending a link with the highest id. *)
Lemma input_rows_insert d R r :
  serial_wf (dataset_inputs_v2 d) →
  sort_by fst (filter (λ p, ir_run_id p.2 = R) (map_to_list (rows (serial_insert r (dataset_inputs_v2 d)).2))) =
  input_rows d R ++ (if decide (ir_run_id r = R) then [(seq_no (dataset_inputs_v2 d) + 1, r)] else []).
Proof.
  intros Hwf. cbn. set (t := dataset_inputs_v2 d) in *. set (id := seq_no t + 1).
  assert (NoDup (fst <$> filter (λ p, ir_run_id p.2 = R) (map_to_list (rows t)))) as Hnd
    by apply NoDup_fmap_filter, NoDup_fst_map_to_list.
  pose proof (map_to_list_insert (rows t) id r (serial_fresh _ Hwf)) as Hp.
  rewrite (sort_by_unique fst _ (filter (λ p, ir_run_id p.2 = R) ((id, r) :: map_to_list (rows t)))).
  - rewrite filter_cons. cbn. case_decide; [|by rewrite app_nil_r].
    rewrite sort_by_snoc; [done|done|]. intros [j rj] Hj. apply list_elem_of_filter in Hj as [_ Hj].
    apply elem_of_map_to_list in Hj. destruct (proj2 Hwf j) as [_ ?]; [by eexists|].
    unfold key_lt, cmp_lt. cbn. apply Z.compare_lt_iff. unfold id. lia.
  - apply NoDup_fmap_filter, NoDup_fst_map_to_list.
  - by rewrite Hp.
Qed.

Lemma elem_of_input_rows d R p :
  p ∈ input_rows d R ↔ rows (dataset_inputs_v2 d) !! p.1 = Some p.2 ∧ ir_run_id p.2 = R.
Proof.
  destruct p as [i r]. unfold input_rows. rewrite elem_of_sort_by, list_elem_of_filter, elem_of_map_to_list. naive_solver.
Qed.

(** The keys of the v2.1 inputs of a run. *)
Definition primary_keys (d : DB) (R : string) : list (string * string * list KV) := input_key <$> primary_inputs d R.

Lemma primary_keys_eq d R :
  primary_keys d R =
  omap (λ p, (λ r, (xr_name r, xr_content_hash r, sort_by kv_Key (ir_tags p.2))) <$> rows (datasets_v2 d) !! ir_dataset_id p.2)
    (input_rows d R).
Proof.
  unfold primary_keys, primary_inputs. induction (input_rows d R) as [|p l IH]; [done|]. cbn.
  destruct (rows (datasets_v2 d) !! _); cbn; by rewrite IH.
Qed.

Lemma primary_keys_step R x id row d d' R' :
  inputs_wf d → input_step R x id row d d' →
  inputs_wf d' ∧
  primary_keys d' R' = primary_keys d R' ++ (if decide (R' = R) then [logged_key x] else []).
Proof.
  intros [H1 H2 H3] [S1 S2 S3 S4 S5 S6 S7]. split.
  - split; [done|rewrite S5; by apply serial_wf_insert|]. rewrite S5. cbn.
    intros i r [[_ <-]|[_ Hr]]%lookup_insert_Some; [by eexists|]. destruct (H3 _ _ Hr) as [r0 Hr0]. eexists. eauto.
  - rewrite !primary_keys_eq. unfold input_rows at 1. rewrite S5, (input_rows_insert d R' _ H2), omap_app. cbn [ir_run_id].
    f_equal.
    + apply list_omap_ext, Forall_Forall2_diag, Forall_forall. intros p [Hp _]%elem_of_input_rows.
      destruct (H3 _ _ Hp) as [r Hr]. by rewrite Hr, (S1 _ _ Hr).
    + destruct (decide (R = R')) as [->|Hne]; [|by rewrite decide_False by congruence].
      rewrite decide_True by done. cbn. rewrite S2. unfold logged_key. cbn. by rewrite S3, S4.
Qed.

(** Every v0.3 link of the run repeats an input of the v2.1 table. *)
Definition legacy_covered (d : DB) (R : string) : Prop :=
  ∀ i r, rows (dataset_inputs d) !! i = Some r → lr_run_id r = R →
    ∃ ts, (lr_name r, lr_digest r, ts) ∈ primary_keys d R.

Lemma legacy_covered_step R x id row d d' R' :
  inputs_wf d → input_step R x id row d d' → legacy_covered d R' → legacy_covered d' R'.
Proof.
  intros Hwf Hs Hc i r Hr HR'. destruct (primary_keys_step R x id row d d' R' Hwf Hs) as [_ ->].
  destruct (is_legacy _ _ _ _ _ _ Hs _ _ Hr) as [Hold| ->].
  - destruct (Hc i r Hold HR') as [ts Hts]. exists ts. apply elem_of_app. by left.
  - cbn in *. eexists. apply elem_of_app. right. rewrite decide_True by done. apply list_elem_of_singleton.
    reflexivity.
Qed.

(** With the v0.3 links covered, reading both tables gives the v2.1 inputs. *)
Lemma GetRunDatasets_covered R w :
  legacy_covered (w_db w) R → GetRunDatasets R w = (Ok (primary_inputs (w_db w) R), w).
Proof.
  intros Hc. unfold GetRunDatasets. rewrite get_bind. cbv zeta. rewrite (filter_none _ (legacy_rows _ _)).
  - by rewrite app_nil_r.
  - intros [i r] Hin [_ Hseen]. apply Hseen. apply elem_of_sort_by, list_elem_of_filter in Hin as [HR Hin].
    apply elem_of_map_to_list in Hin. destruct (Hc _ _ Hin HR) as [ts Hts].
    apply list_elem_of_fmap in Hts as (x & Hx & Hin'). apply list_elem_of_fmap. exists x. split; [|done].
    unfold input_key in Hx. injection Hx as Hn Hg _. cbn. by rewrite Hn, Hg.
Qed.

Section additive.
Context `{Clock}.

Lemma log_inputs_exec v03 R inputs w w' :
  inputs_wf (w_db w) → for_each (log_input v03 R) inputs w = (Ok tt, w') →
  inputs_wf (w_db w') ∧
  (∀ R', legacy_covered (w_db w) R' → legacy_covered (w_db w') R') ∧
  ∀ R', primary_keys (w_db w') R' =
        primary_keys (w_db w) R' ++ (if decide (R' = R) then logged_key <$> inputs else []).
Proof.
  revert w. induction inputs as [|x inputs IH]; intros w Hwf; cbn [for_each].
  - intros [= <-]. split_and!; try done. intros R'. cbn. case_decide; by rewrite app_nil_r.
  - intros Hx. apply bind_exec_Ok in Hx as ([] & w1 & H1 & Hx).
    apply log_input_exec in H1 as (id & row & Hs); [|apply Hwf].
    destruct (primary_keys_step _ _ _ _ _ _ R Hwf Hs) as [Hwf1 _].
    destruct (IH w1 Hwf1 Hx) as (Hwf' & Hc & Hk). split_and!; [done| |].
    + intros R' Hc'. apply Hc. exact (legacy_covered_step _ _ _ _ _ _ _ Hwf Hs Hc').
    + intros R'. rewrite Hk. destruct (primary_keys_step _ _ _ _ _ _ R' Hwf Hs) as [_ ->].
      rewrite <- (assoc_L (++)). by case_decide.
Qed.
End additive.

(** Logging dataset inputs.  A call that fails changes nothing; a call that
    succeeds appends its inputs, in order, to what [GetRunDatasets] returns
    for the run (name, digest and tags sorted by key), with or without the
    v0.3 writes; the inputs of other runs stay as they are. *)
Theorem LogInputs_additive `{Clock} v03 R inputs w :
  inputs_wf (w_db w) → legacy_covered (w_db w) R →
  match LogInputs v03 R inputs w with
  | (Err _, w') => w_db w' = w_db w
  | (Ok _, w') =>
      ∃ before after, GetRunDatasets R w = (Ok before, w) ∧ GetRunDatasets R w' = (Ok after, w') ∧
        input_key <$> after = (input_key <$> before) ++ (logged_key <$> inputs) ∧
        (∀ R', R' ≠ R → primary_keys (w_db w') R' = primary_keys (w_db w) R') ∧
        inputs_wf (w_db w') ∧ legacy_covered (w_db w') R
  end.
Proof.
  intros Hwf Hc. unfold LogInputs. case_decide as Hne.
  { subst. cbn. eexists _, _. rewrite GetRunDatasets_covered by done. split_and!; try done. by rewrite app_nil_r. }
  unfold assertRunExists. rewrite bind_bind, get_bind. case_decide; [|done]. rewrite ret_bind.
  unfold logInputsOnce, transaction. destruct (for_each _ _ w) as [[[]|e] w'] eqn:E; [|done].
  destruct (log_inputs_exec _ _ _ _ _ Hwf E) as (Hwf' & Hc' & Hk).
  exists (primary_inputs (w_db w) R), (primary_inputs (w_db w') R).
  rewrite !GetRunDatasets_covered by auto. split_and!; try done; [| |by apply Hc'].
  - pose proof (Hk R) as HkR. by rewrite decide_True in HkR.
  - intros R' Hne'. rewrite Hk, decide_False by done. by rewrite app_nil_r.
Qed.

(** * Witnesses *)

Lemma ex_inputs_wf : inputs_wf ex_db.
Proof.
  split; [by apply (dataset_wf_ext (seed_db 1)), seed_dataset_wf|apply serial_wf_empty|]. cbn. intros i r Hi. by rewrite lookup_empty in Hi.
Qed.

Definition ex_inputs : list DatasetInput :=
  [mkDatasetInput (mkDatasetInfo "iris" "d1" "" "" "" "") [mkKV "b" "2"; mkKV "a" "1"];
   mkDatasetInput (mkDatasetInfo "iris" "d1" "local" "" "" "") []].

Lemma LogInputs_additive_witness :
  ∃ after, (GetRunDatasets "r1" (LogInputs true "r1" ex_inputs (mkWorld ex_db 0)).2).1 = Ok after ∧
           input_key <$> after = [("iris", "d1", [mkKV "a" "1"; mkKV "b" "2"]); ("iris", "d1", [])]%string.
Proof.
  pose proof (LogInputs_additive true "r1" ex_inputs (mkWorld ex_db 0) ex_inputs_wf) as Hs.
  destruct (LogInputs true "r1" ex_inputs (mkWorld ex_db 0)) as [[[]|e] w'] eqn:E.
  - destruct Hs as (before & after & Hb & Ha & Hk & _).
    + intros i r Hi. cbn in Hi. rewrite lookup_empty in Hi. discriminate Hi.
    + exists after. cbn [snd]. rewrite Ha. split; [reflexivity|]. rewrite Hk.
      assert (before = []) as -> by (vm_compute in Hb; injection Hb as <-; reflexivity).
      vm_compute. reflexivity.
  - exfalso. vm_compute in E. discriminate E.
Defined.
