(* ===== verification/Lineage.v ===== *)
(** * Run lineage (internal/store/sqlite_lineage.go)

    The chain of parents of a run and the breadth-first walk of its children,
    both confined to the workspace of the run: [parent_run_id] is set from a
    user tag and may point anywhere, also in cycles. *)

From S2P Require Import Prelude GoStrings Model Database Events Runs Sample Experiments Datasets Inputs.

Open Scope Z_scope.

(** ** Ancestors *)

Definition maxAncestorDepth : nat := Z.to_nat 256.

(** [getRunInWorkspace] as a read of the database. *)
Definition run_in_workspace (d : DB) (ws id : string) : option Run :=
  r ← runs d !! id;
  e ← rows (experiments d) !! rr_experiment_id r;
  if decide (er_workspace_id e = ws) then Some (scan_run id r) else None.

(** The loop [for cur != ""]; the length of [ancestors] bounds it. *)
Fixpoint ancestor_walk (fuel : nat) (d : DB) (ws cur : string) (visited : gset string) : list Run :=
  match fuel with
  | O => []
  | S fuel' =>
      if decide (cur = EmptyString) then []
      else if decide (cur ∈ visited) then []
      else match run_in_workspace d ws cur with
           | None => []
           | Some p => p :: ancestor_walk fuel' d ws (run_ParentRunID p) ({[cur]} ∪ visited)
           end
  end.

Definition walkAncestors (d : DB) (run : Run) (selfID ws : string) : list Run :=
  ancestor_walk maxAncestorDepth d ws (run_ParentRunID run) {[selfID]}.

(** ** Descendants *)

Definition is_child (frontier : list string) (r : RunRow) : bool :=
  match rr_parent_run_id r with Some p => bool_decide (p ∈ frontier) | None => false end &&
  bool_decide (rr_lifecycle_stage r = LifecycleActive).

(** [WHERE parent_run_id IN (frontier) AND active AND workspace ORDER BY
    start_time LIMIT ?]; ties, which SQL leaves open, by id. *)
Definition child_rows (d : DB) (ws : string) (frontier : list string) : list Run :=
  sort_by (λ r, (run_StartTime r, run_ID r))
    (omap (λ '(id, r),
       if is_child frontier r then run_in_workspace d ws id else None) (map_to_list (runs d))).

(** The rows of one level: runs seen before are skipped, and the row after
    [fanOut] new ones only sets [truncated]. *)
Fixpoint take_level (fanOut : nat) (level : list Run) (visited : gset string) (out next : list Run)
    (truncated : bool) : gset string * list Run * list Run * bool :=
  match level with
  | [] => (visited, out, next, truncated)
  | r :: level' =>
      if decide (run_ID r ∈ visited) then take_level fanOut level' visited out next truncated
      else if decide (fanOut ≤ length next)%nat then take_level fanOut level' visited out next true
      else take_level fanOut level' ({[run_ID r]} ∪ visited) (out ++ [r]) (next ++ [r]) truncated
  end.

(** [for level := 0; level < maxDepth && len(frontier) > 0; level++]. *)
Fixpoint descend (maxDepth : nat) (d : DB) (ws : string) (fanOut : nat) (frontier : list string)
    (visited : gset string) (out : list Run) (truncated : bool) : list Run * bool :=
  match maxDepth, frontier with
  | _, [] => (out, truncated)
  | O, _ :: _ => (out, true)
  | S depth', _ :: _ =>
      let level := take (S fanOut) (child_rows d ws frontier) in
      let '(visited', out', next, truncated') := take_level fanOut level visited out [] truncated in
      descend depth' d ws fanOut (run_ID <$> next) visited' out' truncated'
  end.

Definition walkDescendants (d : DB) (rootID ws : string) (maxDepth fanOut : nat) : list Run * bool :=
  descend maxDepth d ws fanOut [rootID] {[rootID]} [] false.

(** ** The query *)

Record RunLineage := mkRunLineage {
  rl_Run : Run; rl_Ancestors : list Run; rl_Descendants : list Run; rl_Datasets : list DatasetEdge;
  rl_Truncated : bool }.

Definition LineageUpstream : string := "upstream".
Definition LineageDownstream : string := "downstream".
Definition LineageBoth : string := "both".

(** [DescendantDepth] and [MaxNodesPerLevel] as the caller gives them. *)
Record LineageOptions := mkLineageOptions {
  lo_Direction : string; lo_Depth : Z; lo_MaxNodes : Z }.

Definition lineage_depth (n : Z) : nat := Z.to_nat (if decide (n ≤ 0) then 4 else Z.min n 8).
Definition lineage_fanout (n : Z) : nat := Z.to_nat (if decide (n ≤ 0) then 50 else Z.min n 200).

Definition GetRunLineageWithOptions (runID : string) (opt : LineageOptions) : M RunLineage :=
  run ← GetRun runID;
  exp ← GetExperiment (run_ExperimentID run);
  let ws := default_ws (exp_WorkspaceID exp) in
  d ← get;
  let dir := default_to (lo_Direction opt) LineageBoth in
  let anc := if decide (dir ∈ [LineageUpstream; LineageBoth]) then walkAncestors d run runID ws else [] in
  let '(desc, truncated) :=
    if decide (dir ∈ [LineageDownstream; LineageBoth])
    then walkDescendants d runID ws (lineage_depth (lo_Depth opt)) (lineage_fanout (lo_MaxNodes opt))
    else ([], false) in
  edges ← runDatasetEdges runID ws;
  mret (mkRunLineage run anc desc edges truncated).

Definition GetRunLineage (runID : string) : M RunLineage :=
  GetRunLineageWithOptions runID (mkLineageOptions LineageBoth 1 0).

(** * Theorems *)

(** [c] is an active run of the workspace whose parent is [p]. *)
Definition child (d : DB) (ws p c : string) : Prop :=
  ∃ r, runs d !! c = Some r ∧ rr_parent_run_id r = Some p ∧ rr_lifecycle_stage r = LifecycleActive ∧
       is_Some (run_in_workspace d ws c).

Section lineage.
Context (d : DB) (ws : string).

Lemma run_in_workspace_id c x : run_in_workspace d ws c = Some x → run_ID x = c.
Proof.
  unfold run_in_workspace. destruct (runs d !! c) as [r|]; [|done]. cbn.
  destruct (rows (experiments d) !! _); [|done]. cbn. case_decide; [|done]. by intros [= <-].
Qed.

Lemma elem_of_child_rows frontier x :
  x ∈ child_rows d ws frontier ↔
  run_in_workspace d ws (run_ID x) = Some x ∧ ∃ p, p ∈ frontier ∧ child d ws p (run_ID x).
Proof.
  unfold child_rows. rewrite elem_of_sort_by, list_elem_of_omap. split.
  - intros ([c r] & Hin & Heq). apply elem_of_map_to_list in Hin. destruct (is_child frontier r) eqn:E; [|done].
    pose proof (run_in_workspace_id _ _ Heq) as <-. split; [done|]. unfold is_child in E.
    apply andb_true_iff in E as [E1 E2%bool_decide_eq_true]. destruct (rr_parent_run_id r) as [p|] eqn:Ep; [|done].
    apply bool_decide_eq_true in E1. exists p. split; [done|]. exists r. split_and!; [done..|by eexists].
  - intros (Hx & p & Hp & r & Hr & Hpar & Hact & _). exists (run_ID x, r). rewrite elem_of_map_to_list. split; [done|].
    unfold is_child. rewrite Hpar, !bool_decide_eq_true_2 by done. done.
Qed.

Lemma NoDup_child_rows frontier : NoDup (run_ID <$> child_rows d ws frontier).
Proof.
  unfold child_rows. rewrite sort_by_perm.
  apply (NoDup_fmap_omap _ fst _ id); [|apply NoDup_fst_map_to_list].
  intros [c r] x Heq. destruct (is_child frontier r); [|done]. cbn. by rewrite (run_in_workspace_id _ _ Heq).
Qed.

(** One level. *)
Lemma take_level_spec fan level visited out next tr visited' out' next' tr' :
  take_level fan level visited out next tr = (visited', out', next', tr') →
  (length next ≤ fan)%nat →
  ∃ added, out' = out ++ added ∧ next' = next ++ added ∧ (length next' ≤ fan)%nat ∧
    NoDup (run_ID <$> added) ∧
    (∀ r, r ∈ added → r ∈ level ∧ run_ID r ∉ visited) ∧
    (∀ i, i ∈ visited' ↔ i ∈ visited ∨ i ∈ run_ID <$> added) ∧
    (tr' = false → tr = false ∧ ∀ r, r ∈ level → run_ID r ∈ visited').
Proof.
  revert visited out next tr. induction level as [|r level IH]; intros visited out next tr; cbn [take_level].
  { intros [= <- <- <- <-] Hl. exists []. rewrite !app_nil_r.
    split_and!; try done; [constructor|set_solver|set_solver|]. intros ->. split; [done|set_solver]. }
  case_decide as Hseen.
  { intros Hx Hl. destruct (IH _ _ _ _ Hx Hl) as (added & -> & -> & Hlen & Hnd & Hin & Hv & Htr).
    exists added. split_and!; try done; [set_solver|]. intros Ht. destruct (Htr Ht) as [? Hall]. split; [done|].
    intros y [->|Hy]%elem_of_cons; [apply Hv; by left|auto]. }
  case_decide as Hfull.
  { intros Hx Hl. destruct (IH _ _ _ _ Hx Hl) as (added & -> & -> & Hlen & Hnd & Hin & Hv & Htr).
    exists added. split_and!; try done; [set_solver|]. intros Ht. by destruct (Htr Ht) as [? _]. }
  intros Hx Hl. destruct (IH _ _ _ _ Hx) as (added & -> & -> & Hlen & Hnd & Hin & Hv & Htr); [rewrite length_app; cbn; lia|].
  exists (r :: added). rewrite <- !(assoc_L (++)) in *. cbn [app] in *. split_and!; try done.
  - cbn. apply NoDup_cons. split; [|done]. intros (y & Hy & Hyin)%list_elem_of_fmap.
    destruct (Hin y Hyin) as [_ Hn]. set_solver.
  - intros y [->|Hy]%elem_of_cons; [split; [by left|done]|]. destruct (Hin y Hy). split; [by right|set_solver].
  - intros i. rewrite Hv. cbn. set_solver.
  - intros Ht. destruct (Htr Ht) as [? Hall]. split; [done|].
    intros y [->|Hy]%elem_of_cons; [|auto]. apply Hv. left. set_solver.
Qed.

(** ** The invariant of the walk *)

Context (root : string).

Definition run_ids (l : list Run) : list string := run_ID <$> l.

Record walk_inv (frontier : list string) (visited : gset string) (out : list Run) : Prop := {
  wi_visited i : i ∈ visited ↔ i = root ∨ i ∈ run_ids out;
  wi_nodup : NoDup (run_ids out);
  wi_root : root ∉ run_ids out;
  wi_sound r : r ∈ out → run_in_workspace d ws (run_ID r) = Some r ∧ tc (child d ws) root (run_ID r);
  wi_frontier f : f ∈ frontier → f ∈ visited;
  wi_parent c p : c ∈ run_ids out → child d ws p c → p ∈ visited ∧ p ∉ frontier }.

(** Every expanded run has all its children among the visited ones. *)
Definition closed (frontier : list string) (visited : gset string) : Prop :=
  ∀ v c, v ∈ visited → v ∉ frontier → child d ws v c → c ∈ visited.

Lemma child_fun p p' c : child d ws p c → child d ws p' c → p = p'.
Proof. intros (r & Hr & Hp & _) (r' & Hr' & Hp' & _). congruence. Qed.

Lemma inv_tc frontier visited out p c :
  walk_inv frontier visited out → p ∈ visited → child d ws p c → tc (child d ws) root c.
Proof.
  intros Hi Hp Hc. apply (wi_visited _ _ _ Hi) in Hp as [->|Hp]; [by apply tc_once|].
  apply list_elem_of_fmap in Hp as (r & -> & Hr). eapply tc_r; [|done]. by apply (wi_sound _ _ _ Hi).
Qed.

(** A run that was visited is not found again, unless it is the root. *)
Lemma visited_again frontier visited out x :
  walk_inv frontier visited out → x ∈ child_rows d ws frontier → run_ID x ∈ visited →
  tc (child d ws) root root.
Proof.
  intros Hi (_ & p & Hp & Hc)%elem_of_child_rows Hv.
  apply (wi_visited _ _ _ Hi) in Hv as [Hr|Hv].
  - rewrite <- Hr at 2. eapply inv_tc; [done| |done]. by apply (wi_frontier _ _ _ Hi).
  - by destruct (wi_parent _ _ _ Hi _ _ Hv Hc).
Qed.

Lemma level_step fan frontier visited out tr visited' out' next tr' :
  walk_inv frontier visited out →
  take_level fan (take (S fan) (child_rows d ws frontier)) visited out [] tr = (visited', out', next, tr') →
  walk_inv (run_ids next) visited' out' ∧ (length out' ≤ length out + fan)%nat ∧
  (tr' = false → tr = false ∧
     (¬ tc (child d ws) root root → closed frontier visited → closed (run_ids next) visited')).
Proof.
  intros Hi Hl. apply take_level_spec in Hl as (added & -> & -> & Hlen & Hnd & Hin & Hv & Htr); [|cbn; lia].
  cbn [app] in *. set (cr := child_rows d ws frontier) in *.
  assert (∀ r, r ∈ added → r ∈ cr ∧ run_ID r ∉ visited) as Hadd.
  { intros r Hr. destruct (Hin r Hr) as [Ht ?]. split; [|done].
    apply elem_of_take in Ht as (i & Hlk & _). by eapply list_elem_of_lookup_2. }
  assert (∀ i, i ∈ run_ids added → i ∉ visited) as Hfresh.
  { intros i (r & -> & Hr)%list_elem_of_fmap. by apply Hadd. }
  destruct Hi as [I1 I2 I3 I4 I5 I6]. assert (walk_inv frontier visited out) as Hi by done.
  split_and!.
  - split.
    + intros i. rewrite Hv, I1. unfold run_ids. rewrite fmap_app, elem_of_app. naive_solver.
    + unfold run_ids in *. rewrite fmap_app. apply NoDup_app. split_and!; [done| |done].
      intros i Hout Hadd'. apply (Hfresh i Hadd'). apply I1. by right.
    + unfold run_ids in *. rewrite fmap_app, elem_of_app. intros [?|Ha]; [done|]. apply (Hfresh _ Ha). apply I1. by left.
    + intros r [Hr|Hr]%elem_of_app; [auto|]. destruct (Hadd r Hr) as [(Hw & p & Hp & Hc)%elem_of_child_rows _].
      split; [done|]. eapply inv_tc; [done| |done]. by apply I5.
    + intros f Hf. apply Hv. by right.
    + intros c p Hc Hp. unfold run_ids in Hc. rewrite fmap_app in Hc. apply elem_of_app in Hc as [Hc|Hc].
      * destruct (I6 _ _ Hc Hp) as [? _]. split; [apply Hv; by left|]. intros Hn. by apply (Hfresh p).
      * apply list_elem_of_fmap in Hc as (r & -> & Hr). destruct (Hadd r Hr) as [(_ & p' & Hp' & Hc')%elem_of_child_rows _].
        rewrite (child_fun _ _ _ Hp Hc'). pose proof (I5 _ Hp'). split; [apply Hv; by left|]. intros Hn. by apply (Hfresh p').
  - rewrite length_app. lia.
  - intros Ht. destruct (Htr Ht) as [-> Hall]. split; [done|]. intros Hacyc Hclosed v c Hvis Hnf Hc.
    apply Hv in Hvis as [Hvis|?]; [|done]. destruct (decide (v ∈ frontier)) as [Hf|Hf].
    2:{ apply Hv. left. by eapply Hclosed. }
    assert (∀ y, y ∈ cr → run_ID y ∉ visited) as Hunv.
    { intros y Hy Hvy. apply Hacyc. by eapply visited_again. }
    assert (length (take (S fan) cr) ≤ length added)%nat as Hle.
    { rewrite <- (length_fmap run_ID (take (S fan) cr)), <- (length_fmap run_ID added).
      apply submseteq_length, NoDup_submseteq.
      - pose proof (NoDup_child_rows frontier) as Hn. fold cr in Hn.
        rewrite <- (take_drop (S fan) cr), fmap_app, NoDup_app in Hn. by destruct Hn.
      - intros i (y & -> & Hy)%list_elem_of_fmap. pose proof (Hall y Hy) as Hvy. apply Hv in Hvy as [Hvy|?]; [|done].
        exfalso. apply (Hunv y); [|done]. apply elem_of_take in Hy as (j & Hlk & _). by eapply list_elem_of_lookup_2. }
    rewrite length_take in Hle.
    assert (take (S fan) cr = cr) as Htake by (apply take_ge; lia). rewrite Htake in Hall.
    destruct Hc as (rc & Hrc & Hpar & Hact & [x Hx]). pose proof (run_in_workspace_id _ _ Hx) as Hid.
    rewrite <- Hid. apply Hall. apply elem_of_child_rows. rewrite Hid. split; [done|]. exists v. split; [done|].
    exists rc. by split_and!.
Qed.

Lemma descend_spec depth fan frontier visited out tr out' tr' :
  walk_inv frontier visited out →
  descend depth d ws fan frontier visited out tr = (out', tr') →
  NoDup (run_ids out') ∧ root ∉ run_ids out' ∧ (length out' ≤ length out + depth * fan)%nat ∧
  (∀ r, r ∈ out' → run_in_workspace d ws (run_ID r) = Some r ∧ tc (child d ws) root (run_ID r)) ∧
  (tr' = false → tr = false ∧ (¬ tc (child d ws) root root → closed frontier visited →
     ∀ c, tc (child d ws) root c → c ∈ run_ids out')).
Proof.
  revert frontier visited out tr. induction depth as [|depth IH]; intros frontier visited out tr Hi;
    (destruct frontier as [|f frontier]; cbn [descend];
     [intros [= <- <-]; destruct Hi as [I1 I2 I3 I4 I5 I6]; split_and!; try done; [lia|]; intros ->; split; [done|];
      intros Hacyc Hcl c Hc;
      assert (∀ a b, tc (child d ws) a b → a ∈ visited → b ∈ visited) as Hv by
        (intros a b; induction 1 as [a b Hab|a b e Hab _ IHt]; intros Ha; [|apply IHt];
         apply (Hcl a b Ha); [set_solver|done|set_solver|done]);
      destruct (proj1 (I1 c) (Hv _ _ Hc (proj2 (I1 root) (or_introl eq_refl)))) as [->|?]; done|]).
  - intros [= <- <-]. destruct Hi as [I1 I2 I3 I4 I5 I6]. split_and!; try done. lia.
  - destruct (take_level _ _ _ _ _ _) as [[[v1 o1] next] t1] eqn:E. intros Hx.
    destruct (level_step _ _ _ _ _ _ _ _ _ Hi E) as (Hi' & Hlen & Htr).
    destruct (IH _ _ _ _ Hi' Hx) as (R1 & R2 & R3 & R4 & R5). split_and!; try done; [lia|].
    intros Ht. destruct (R5 Ht) as [Ht1 R5']. destruct (Htr Ht1) as [? Hcl]. split; [done|].
    intros Hacyc Hclosed. apply R5'; [done|]. by apply Hcl.
Qed.

Lemma walk_inv_init : walk_inv [root] {[root]} [].
Proof. split; cbn; try set_solver. constructor. Qed.
End lineage.

(** Descendants.  The walk returns at most [depth * fanOut] runs, no run
    twice and never the root; each of them is an active run of the workspace
    reached from the root through parent links inside the workspace, whatever
    the tags say.  When nothing is reported truncated and the root is not its
    own descendant, every descendant is returned. *)
Theorem walkDescendants_spec d root ws depth fanOut :
  let '(out, truncated) := walkDescendants d root ws depth fanOut in
  NoDup (run_ids out) ∧ root ∉ run_ids out ∧ (length out ≤ depth * fanOut)%nat ∧
  (∀ r, r ∈ out → run_in_workspace d ws (run_ID r) = Some r ∧ tc (child d ws) root (run_ID r)) ∧
  (truncated = false → ¬ tc (child d ws) root root →
     ∀ c, tc (child d ws) root c → c ∈ run_ids out).
Proof.
  destruct (walkDescendants d root ws depth fanOut) as [out tr] eqn:E.
  destruct (descend_spec d ws root _ _ _ _ _ _ _ _ (walk_inv_init d ws root) E) as (H1 & H2 & H3 & H4 & H5).
  split_and!; try done. intros Ht Hacyc. destruct (H5 Ht) as [_ H5']. apply H5'; [done|].
  intros v c Hv Hn. set_solver.
Qed.

(** ** Ancestors *)

(** A chain of parents inside the workspace, starting at [cur]. *)
Fixpoint parent_chain (d : DB) (ws cur : string) (l : list Run) : Prop :=
  match l with
  | [] => True
  | p :: l' => cur ≠ EmptyString ∧ run_in_workspace d ws cur = Some p ∧ parent_chain d ws (run_ParentRunID p) l'
  end.

(** The parent the walk would look at next. *)
Fixpoint next_parent (cur : string) (l : list Run) : string :=
  match l with [] => cur | p :: l' => next_parent (run_ParentRunID p) l' end.

Lemma ancestor_walk_spec fuel d ws cur visited :
  let l := ancestor_walk fuel d ws cur visited in
  parent_chain d ws cur l ∧ NoDup (run_ids l) ∧ (∀ i, i ∈ run_ids l → i ∉ visited) ∧ (length l ≤ fuel)%nat ∧
  ((length l < fuel)%nat →
     next_parent cur l = EmptyString ∨ next_parent cur l ∈ visited ∨ next_parent cur l ∈ run_ids l ∨
     run_in_workspace d ws (next_parent cur l) = None).
Proof.
  revert cur visited. induction fuel as [|fuel IH]; intros cur visited; cbn.
  { split_and!; try done; [constructor|set_solver|lia]. }
  case_decide; [cbn; split_and!; [done|constructor|set_solver|lia|auto]|].
  case_decide; [cbn; split_and!; [done|constructor|set_solver|lia|auto]|].
  destruct (run_in_workspace d ws cur) as [p|] eqn:E;
    [|cbn; split_and!; [done|constructor|set_solver|lia|auto]].
  pose proof (run_in_workspace_id _ _ _ _ E) as Hid.
  destruct (IH (run_ParentRunID p) ({[cur]} ∪ visited)) as (H1 & H2 & H3 & H4 & H5).
  cbn. rewrite Hid. split_and!; try done.
  - apply NoDup_cons. split; [|done]. intros Hin. apply H3 in Hin. set_solver.
  - intros i [->|Hi]%elem_of_cons; [done|]. apply H3 in Hi. set_solver.
  - lia.
  - intros Hlt. destruct H5 as [?|[Hv|[?|?]]]; [lia|auto| | |auto].
    + apply elem_of_union in Hv as [->%elem_of_singleton|?]; [|auto]. right. right. left. by left.
    + right. right. left. by right.
Qed.

(** The lineage of a run stays in its workspace.  A successful call
    returns ancestors that are the chain of parents of the run inside its
    workspace, without repetition, at most 256, and cut short only at a run
    that is missing, in another workspace, or already in the chain; and
    descendants that are runs of that workspace. *)
Theorem GetRunLineage_confined R opt w lin w' :
  GetRunLineageWithOptions R opt w = (Ok lin, w') →
  ∃ r e, runs (w_db w) !! R = Some r ∧ rows (experiments (w_db w)) !! rr_experiment_id r = Some e ∧
    let ws := default_ws (er_workspace_id e) in
    let anc := rl_Ancestors lin in
    w' = w ∧ run_ID (rl_Run lin) = R ∧
    parent_chain (w_db w) ws (coalesce (rr_parent_run_id r)) anc ∧
    NoDup (run_ids anc) ∧ R ∉ run_ids anc ∧ (length anc ≤ maxAncestorDepth)%nat ∧
    (anc ≠ [] → (length anc < maxAncestorDepth)%nat →
       let p := next_parent (coalesce (rr_parent_run_id r)) anc in
       p = EmptyString ∨ p = R ∨ p ∈ run_ids anc ∨ run_in_workspace (w_db w) ws p = None) ∧
    ∀ x, x ∈ anc ++ rl_Descendants lin → ∃ i, run_in_workspace (w_db w) ws i = Some x.
Proof.
  unfold GetRunLineageWithOptions. intros Hx. apply bind_exec_Ok in Hx as (run & w1 & Hg & Hx).
  unfold GetRun in Hg. rewrite get_bind in Hg. injection Hg as Hg <-.
  destruct (runs (w_db w) !! R) as [r|] eqn:Er; [|done]. injection Hg as <-.
  apply bind_exec_Ok in Hx as (exp & w2 & Hg & Hx). unfold GetExperiment in Hg. rewrite get_bind in Hg. injection Hg as Hg <-.
  cbn [scan_run run_ExperimentID] in Hg. destruct (rows (experiments (w_db w)) !! rr_experiment_id r) as [e|] eqn:Ee; [|done].
  injection Hg as <-. cbv zeta in Hx. rewrite get_bind in Hx. cbn [scan_experiment exp_WorkspaceID] in Hx.
  set (ws := default_ws (er_workspace_id e)) in *. exists r, e. cbv zeta. fold ws. split; [done|]. split; [done|].
  set (dd := if decide (_ ∈ [LineageDownstream; LineageBoth]) then _ else _) in Hx.
  assert (∀ x, x ∈ dd.1 → ∃ i, run_in_workspace (w_db w) ws i = Some x) as Hdesc.
  { unfold dd. destruct (decide (_ ∈ [LineageDownstream; LineageBoth])); [|by intros x Hin%elem_of_nil]. intros x Hin.
    destruct (walkDescendants (w_db w) R ws _ _) as [out tr] eqn:E.
    destruct (descend_spec (w_db w) ws R _ _ _ _ _ _ _ _ (walk_inv_init _ _ _) E) as (_ & _ & _ & H4 & _).
    exists (run_ID x). by apply H4. }
  destruct dd as [desc tr]. unfold runDatasetEdges in Hx. rewrite bind_bind, get_bind in Hx. cbv zeta in Hx.
  rewrite ret_bind in Hx. injection Hx as <- <-. cbn [rl_Ancestors rl_Descendants rl_Run].
  assert (∀ l cur x, parent_chain (w_db w) ws cur l → x ∈ l → ∃ i, run_in_workspace (w_db w) ws i = Some x) as Hchain.
  { induction l as [|p l IH]; intros cur x; [set_solver|]. cbn. intros (_ & Hp & Hl) [->|Hin]%elem_of_cons; eauto. }
  pose proof (ancestor_walk_spec maxAncestorDepth (w_db w) ws (coalesce (rr_parent_run_id r)) {[R]}) as (A1 & A2 & A3 & A4 & A5).
  split; [done|]. split; [done|]. destruct (decide (_ ∈ [LineageUpstream; LineageBoth])).
  - change (walkAncestors (w_db w) (scan_run R r) R ws)
      with (ancestor_walk maxAncestorDepth (w_db w) ws (coalesce (rr_parent_run_id r)) {[R]}).
    split_and!; try done.
    + intros Hin. apply (A3 _ Hin). by apply elem_of_singleton.
    + intros _ Hlt. destruct (A5 Hlt) as [?|[?%elem_of_singleton|[?|?]]]; auto.
    + intros x [Hin|Hin]%elem_of_app; [by eapply Hchain|by apply Hdesc].
  - split; [done|]. split; [constructor|]. split; [apply not_elem_of_nil|]. split; [apply Nat.le_0_l|].
    split; [done|]. intros x Hin. by apply Hdesc.
Qed.

(** The sample run is a child of a second run, [r0]. *)
Definition lineage_db : DB :=
  let child := mkRunRow 1 None StatusRunning 600 None "mlflow-artifacts:/r1" LifecycleActive None None None
    KindClassic (Some "r0"%string) in
  set_runs {[ "r1"%string := child; "r0"%string := ex_run ]} ex_db.

Lemma GetRunLineage_confined_witness :
  ∃ lin, GetRunLineageWithOptions "r1" (mkLineageOptions LineageBoth 1 0) (mkWorld lineage_db 0) =
           (Ok lin, mkWorld lineage_db 0) ∧
    run_ids (rl_Ancestors lin) = ["r0"%string] ∧
    ∀ x, x ∈ rl_Ancestors lin ++ rl_Descendants lin →
      ∃ i, run_in_workspace lineage_db "default" i = Some x.
Proof.
  eexists. split; [vm_compute; reflexivity|]. split; [vm_compute; reflexivity|].
  match goal with |- ∀ x, x ∈ rl_Ancestors ?l ++ _ → _ =>
    destruct (GetRunLineage_confined "r1" (mkLineageOptions LineageBoth 1 0) (mkWorld lineage_db 0) l
      (mkWorld lineage_db 0)) as (r & e & Hr & He & H) end; [vm_compute; reflexivity|].
  vm_compute in Hr. injection Hr as <-. vm_compute in He. injection He as <-.
  destruct H as (_ & _ & _ & _ & _ & _ & _ & H). exact H.
Defined.

(** In a cycle the truncation flag is not exact: with one node per level, the
    root [a] comes back as a child of [b] and uses up the over-fetched row, so
    [b]'s other child [d] is lost and nothing is reported. *)
Definition cyclic_db : DB :=
  let run p t := mkRunRow 1 None StatusRunning t None "u" LifecycleActive None None None KindClassic (Some p) in
  set_runs {[ "a"%string := run "b"%string 1; "b"%string := run "a"%string 2;
              "c"%string := run "b"%string 3; "d"%string := run "b"%string 4 ]} ex_db.

Lemma walkDescendants_loses_silently :
  (λ '(out, t), (run_ids out, t)) (walkDescendants cyclic_db "a" "default" 3 1) = (["b"; "c"]%string, false) ∧
  child cyclic_db "default" "b" "d".
Proof. split; [vm_compute; reflexivity|]. eexists. split_and!; [vm_compute; reflexivity..|]. vm_compute. eauto. Qed.
