(* ===== verification/Search.v ===== *)
(** * Searching runs (internal/store/sqlite.go)

    [SearchRuns]: the ORDER BY parser, the key-set columns of the flat and of
    the computed path, the WHERE clause, and the paged result; and
    [SearchRunsByName].  How SQLite evaluates one clause of the filter on a
    run is a parameter. *)

From S2P Require Import Prelude GoStrings Model Database Keyset Filter Runs Sample RunData Experiments.

Open Scope Z_scope.

(** ** ORDER BY *)

Inductive order_src :=
  | OAttr (a : attr)
  | OMetric (key : string)
  | OParam (key : string)
  | OTag (key : string).

Record runOrderCol := mkOrderCol { oc_src : order_src; oc_desc : bool }.

Definition computed (c : runOrderCol) : bool :=
  match oc_src c with OAttr _ => false | _ => true end.

Definition order_whitelist : list (string * attr) :=
  [("attributes.start_time", AStartTime); ("attributes.end_time", AEndTime);
   ("attributes.status", AStatus); ("attributes.run_name", AName); ("attributes.run_id", AId);
   ("start_time", AStartTime); ("end_time", AEndTime); ("status", AStatus);
   ("run_name", AName); ("run_id", AId)]%string.

Definition nonempty_key (k : string) (s : order_src) : result order_src :=
  if decide (k = EmptyString) then Err ErrInvalidFilter else Ok s.

Definition parse_order_src (rawKey : string) : result order_src :=
  if HasPrefix rawKey "metrics." then
    let k := TrimPrefix rawKey "metrics." in nonempty_key k (OMetric k)
  else if HasPrefix rawKey "params." then
    let k := TrimPrefix rawKey "params." in nonempty_key k (OParam k)
  else if HasPrefix rawKey "tags." then
    let k := TrimPrefix rawKey "tags." in nonempty_key k (OTag k)
  else OAttr <$> attr_of order_whitelist rawKey.

Definition parse_direction (fields : list string) : result bool :=
  match fields with
  | [] => Ok false
  | dir :: _ =>
      if decide (ToUpper dir = "ASC"%string) then Ok false
      else if decide (ToUpper dir = "DESC"%string) then Ok true
      else Err ErrInvalidFilter
  end.

Fixpoint parse_order_cols (order : list string) : result (list runOrderCol) :=
  match order with
  | [] => Ok []
  | o :: order' =>
      match Fields o with
      | [] => parse_order_cols order'
      | rawKey :: fields =>
          desc ← parse_direction fields;
          src ← parse_order_src rawKey;
          rest ← parse_order_cols order';
          Ok (mkOrderCol src desc :: rest)
      end
  end.

Definition parseRunOrder (order : list string) : result (list runOrderCol) :=
  cols ← parse_order_cols order;
  let cols := if decide (length cols = 0%nat) then [mkOrderCol (OAttr AStartTime) true] else cols in
  Ok (cols ++ [mkOrderCol (OAttr AId) false]).

(** ** Key-set columns *)

Definition runColExpr (a : attr) : string :=
  match a with
  | AEndTime => "COALESCE(end_time, -1)"
  | AName => "COALESCE(name, '')"
  | a => attr_sql a
  end.

(** [runColValue], which is also the value of [runColExpr]. *)
Definition runColValue (r : Run) (a : attr) : sqlval :=
  match a with
  | AStartTime => SInt (run_StartTime r)
  | AEndTime => match run_EndTime r with Some t => SInt t | None => SInt (-1) end
  | AStatus => SText (run_Status r)
  | AName => SText (run_Name r)
  | AId => SText (run_ID r)
  end.

(** A stored REAL; LogMetrics refuses the others. *)
Definition real_sql (f : float64) : sqlval := match f with FFin z => SNum z | _ => SNull end.

(** The correlated subqueries [metricOrderProj], [paramOrderProj] and
    [tagOrderProj]. *)
Definition order_proj (d : DB) (R : string) (s : order_src) : sqlval :=
  match s with
  | OMetric k => match newest (metric_rows d R) k 0 with Some m => real_sql (metric_Value m) | None => SNull end
  | OParam k => match params d !! (R, k) with Some v => SText v | None => SNull end
  | OTag k => match tags d !! (R, k) with Some v => SText v | None => SNull end
  | OAttr _ => SNull
  end.

Definition sentinel (s : order_src) : sqlval :=
  match s with OMetric _ => SInt 0 | _ => SText "" end.
Definition sentinel_sql (s : order_src) : string :=
  match s with OMetric _ => "0" | _ => "''" end.

(** The columns and the cursor values of one ORDER BY column: an attribute is
    one column, a computed value a null rank and the coalesced value. *)
Definition col_exprs (flat : bool) (i : nat) (c : runOrderCol) : list keysetCol :=
  let alias := "ord" +:+ FormatInt (Z.of_nat i) in
  match oc_src c with
  | OAttr a => [mkKeysetCol (if flat then runColExpr a else alias) (oc_desc c)]
  | s => [mkKeysetCol ("(" +:+ alias +:+ " IS NULL)") false;
          mkKeysetCol ("COALESCE(" +:+ alias +:+ ", " +:+ sentinel_sql s +:+ ")") (oc_desc c)]
  end.

Definition col_vals (d : DB) (p : string * RunRow) (c : runOrderCol) : list sqlval :=
  match oc_src c with
  | OAttr a => [runColValue (scan_run p.1 p.2) a]
  | s => match order_proj d p.1 s with
         | SNull => [SInt 1; sentinel s]
         | v => [SInt 0; v]
         end
  end.

(** The user's columns, then the [id] tie-break. *)
Definition run_cols (cols : list runOrderCol) : list keysetCol :=
  let user := removelast cols in
  concat (imap (col_exprs (negb (existsb computed cols))) user) ++ [mkKeysetCol "id" false].

Definition run_vals (d : DB) (cols : list runOrderCol) (p : string * RunRow) : list sqlval :=
  concat (col_vals d p <$> removelast cols) ++ [SText p.1].

(** ** The search *)

Section search_runs.
Context (ParseFloat : string → option float64).
(** SQLite's evaluation of a clause on a run. *)
Context (eval : DB → clause → string → RunRow → bool).

Definition in_workspace (d : DB) (ws : string) (r : RunRow) : Prop :=
  match rows (experiments d) !! rr_experiment_id r with
  | Some e => er_workspace_id e = ws
  | None => False
  end.

#[export] Instance in_workspace_dec d ws r : Decision (in_workspace d ws r).
Proof. unfold in_workspace. destruct (rows (experiments d) !! _); apply _. Defined.

(** The WHERE clause without the cursor. *)
Definition run_matches (d : DB) (opt : SearchOptions) (cs : list clause) (p : string * RunRow) : Prop :=
  (opt_ExperimentIDs opt = [] ∨ rr_experiment_id p.2 ∈ opt_ExperimentIDs opt) ∧
  (opt_WorkspaceID opt = EmptyString ∨ in_workspace d (opt_WorkspaceID opt) p.2) ∧
  (default_to (opt_LifecycleStage opt) LifecycleActive = "all"%string ∨
   rr_lifecycle_stage p.2 = default_to (opt_LifecycleStage opt) LifecycleActive) ∧
  forallb (λ c, eval d c p.1 p.2) cs = true.

#[export] Instance run_matches_dec d opt cs p : Decision (run_matches d opt cs p).
Proof. unfold run_matches. apply _. Defined.

Definition run_rows (d : DB) (opt : SearchOptions) (cs : list clause) : list (string * RunRow) :=
  filter (run_matches d opt cs) (map_to_list (runs d)).

Definition run_filter (opt : SearchOptions) : result (list clause) :=
  let f := TrimSpace (opt_Filter opt) in
  if decide (f = EmptyString) then Ok [] else parseRunFilter ParseFloat f.

Definition SearchRuns (opt : SearchOptions) : M (list Run * PageToken) :=
  cs ← lift (run_filter opt);
  cols ← lift (parseRunOrder (opt_OrderBy opt));
  d ← get;
  '(out, token) ← lift (keyset_page (run_cols cols) (run_vals d cols)
                          (Z.to_nat (clampResults (opt_MaxResults opt))) (run_rows d opt cs) (opt_PageToken opt));
  mret ((λ p, scan_run p.1 p.2) <$> out, token).
End search_runs.

(** ** Search by name *)

Section by_name.
Context (like : string → string → bool).

Definition name_hit (query : string) (p : string * RunRow) : bool :=
  match rr_name p.2 with Some n => like ("%" +:+ query +:+ "%") n | None => false end ||
  like (query +:+ "%") p.1.

(** [parent_run_id] is not selected.  [ORDER BY start_time DESC]; ties, which
    SQL leaves open, by id. *)
Definition SearchRunsByName (workspaceID query : string) (max : Z) : M (list Run) :=
  let max := if decide (max ≤ 0) then 4 else Z.min max 50 in
  d ← get;
  let hits := filter (λ p, in_workspace d (default_ws workspaceID) p.2 ∧
                           rr_lifecycle_stage p.2 = LifecycleActive ∧ name_hit query p = true)
                (map_to_list (runs d)) in
  let sorted := sort_by (λ p, (Desc (rr_start_time p.2), p.1)) hits in
  mret ((λ p, let r := scan_run p.1 p.2 in
              mkRun (run_ID r) (run_ExperimentID r) (run_Name r) (run_Status r) (run_StartTime r)
                (run_EndTime r) (run_ArtifactURI r) (run_LifecycleStage r) (run_UserID r)
                (run_SourceType r) (run_SourceName r) (run_Kind r) EmptyString)
        <$> take (Z.to_nat max) sorted).
End by_name.

(** * Theorems *)

Section run_pages.
Context (ParseFloat : string → option float64) (eval : DB → clause → string → RunRow → bool).
Implicit Types (opt : SearchOptions) (w : World).

Fixpoint search_run_pages (fuel : nat) opt (tok : PageToken) w : option (list (list Run)) :=
  match fuel with
  | O => None
  | S fuel' =>
      match (SearchRuns ParseFloat eval (with_token tok opt) w).1 with
      | Ok (out, NoToken) => Some [out]
      | Ok (out, next) => cons out <$> search_run_pages fuel' opt next w
      | Err _ => None
      end
  end.

Definition scan_page (p : list (string * RunRow)) : list Run := (λ x, scan_run x.1 x.2) <$> p.

Lemma search_run_pages_eq fuel opt cs cols w tok :
  run_filter ParseFloat opt = Ok cs → parseRunOrder (opt_OrderBy opt) = Ok cols →
  search_run_pages fuel opt tok w =
    (λ ps : list (list (string * RunRow)), scan_page <$> ps) <$>
      keyset_pages (run_cols cols) (run_vals (w_db w) cols) fuel
        (Z.to_nat (clampResults (opt_MaxResults opt))) (run_rows eval (w_db w) opt cs) tok.
Proof.
  intros Hf Hc. revert tok. induction fuel as [|fuel IH]; intros tok; [done|].
  cbn [search_run_pages keyset_pages]. unfold SearchRuns.
  change (run_filter ParseFloat (with_token tok opt)) with (run_filter ParseFloat opt).
  cbn [opt_OrderBy opt_MaxResults opt_PageToken with_token].
  rewrite Hf, Hc, !lift_Ok_bind, get_bind.
  change (run_rows eval (w_db w) (with_token tok opt) cs) with (run_rows eval (w_db w) opt cs).
  destruct (keyset_page _ _ _ _ _) as [[out [| |vals]]|e]; rewrite ?lift_Ok_bind; cbn; try done;
    rewrite IH; by destruct (keyset_pages _ _ _ _ _ _).
Qed.

(** The id closes every sort key. *)
Lemma last_with_dirs cols vals c v :
  length vals = length cols → last (with_dirs (cols ++ [c]) (vals ++ [v])) = Some (kc_desc c, v).
Proof.
  intros Hl. unfold with_dirs. rewrite fmap_app, zip_with_app by by rewrite length_fmap.
  apply last_snoc.
Qed.

Lemma length_col d p flat i c : length (col_vals d p c) = length (col_exprs flat i c).
Proof. unfold col_vals, col_exprs. destruct (oc_src c); [done|..]; by destruct (order_proj d p.1 _). Qed.

Lemma length_user_cols d p flat (cols : list runOrderCol) k :
  length (concat (col_vals d p <$> cols)) = length (concat (imap (λ i, col_exprs flat (k + i)) cols)).
Proof.
  revert k. induction cols as [|c cols IH]; intros k; [done|].
  cbn [imap fmap list_fmap concat]. rewrite !length_app, (length_col _ _ flat (k + 0)), (IH (S k)).
  do 3 f_equal. apply imap_ext. intros i x _. cbn. f_equal. lia.
Qed.

Lemma length_run_vals d cols p : length (run_vals d cols p) = length (run_cols cols).
Proof.
  unfold run_vals, run_cols. rewrite !length_app. cbn [length]. f_equal.
  apply (length_user_cols d p _ _ 0).
Qed.

Lemma NoDup_run_keys eval' d opt cs cols :
  NoDup (row_key (run_cols cols) (run_vals d cols) <$> run_rows eval' d opt cs).
Proof.
  apply (NoDup_fmap_1 (λ k, last k)). rewrite <- list_fmap_compose.
  rewrite (list_fmap_ext _ (λ p, Some (false, SText p.1))).
  - apply (NoDup_fmap_2_strong (λ p : string * RunRow, Some (false, SText p.1))).
    + intros [i r] [i' r'] Hp Hp' [= <-]. f_equal.
      apply list_elem_of_filter in Hp as [_ Hp]. apply list_elem_of_filter in Hp' as [_ Hp'].
      apply elem_of_map_to_list in Hp, Hp'. congruence.
    + apply NoDup_filter, NoDup_map_to_list.
  - intros i p _. cbn. unfold row_key, run_cols, run_vals. rewrite last_with_dirs; [done|].
    apply (length_user_cols d p _ _ 0).
Qed.
End run_pages.

(** C2: paging of [SearchRuns].  For a request that parses, and rows whose
    cursor values survive JSON, following the page tokens ends and returns
    exactly the matching runs, each once, in the requested order; runs that
    lack a computed sort key come last, and with a workspace set every run
    belongs to it. *)
Theorem SearchRuns_pages_complete ParseFloat eval opt cs cols w :
  run_filter ParseFloat opt = Ok cs → parseRunOrder (opt_OrderBy opt) = Ok cols →
  let rows := run_rows eval (w_db w) opt cs in
  Forall (cursor_safe (run_cols cols) (run_vals (w_db w) cols)) rows →
  ∃ ps, search_run_pages ParseFloat eval (S (length rows)) opt NoToken w = Some ps ∧
        concat ps = scan_page (sort_by (row_key (run_cols cols) (run_vals (w_db w) cols)) rows) ∧
        (opt_WorkspaceID opt ≠ EmptyString → ∀ r, r ∈ concat ps →
           is_ok (getRunInWorkspace (run_ID r) (opt_WorkspaceID opt) w).1 = true).
Proof.
  intros Hf Hc rows Hsafe.
  destruct (keyset_pages_complete (run_cols cols) (run_vals (w_db w) cols)
    (Z.to_nat (clampResults (opt_MaxResults opt))) rows) as (ps & Hps & Hcat); [done| |apply NoDup_run_keys|].
  { unfold clampResults. case_decide; lia. }
  exists (scan_page <$> ps). rewrite (search_run_pages_eq _ _ _ _ cs cols) by done.
  fold rows. rewrite Hps. split; [done|].
  assert (concat (scan_page <$> ps) = scan_page (concat ps)) as ->.
  { clear. unfold scan_page. induction ps as [|p ps IH]; [done|]. rewrite fmap_cons. cbn [concat].
    by rewrite IH, fmap_app. }
  rewrite Hcat. split; [done|]. intros Hws r Hr.
  apply list_elem_of_fmap in Hr as (p & -> & Hp%elem_of_sort_by).
  apply list_elem_of_filter in Hp as [(_ & [?|Hin] & _) Hp]; [done|].
  destruct p as [R row]. apply elem_of_map_to_list in Hp. unfold in_workspace in Hin. cbn [fst snd] in *.
  unfold getRunInWorkspace. rewrite get_bind. unfold lift. cbn. rewrite Hp. cbn.
  destruct (Database.rows _ !! _) as [e|]; [|done]. cbn. by rewrite decide_True.
Qed.

(** * Witness *)

(** Runs without a metric come last, in both directions. *)
Definition ex_runs_w : World :=
  let new id t := mkRun id 1 "" "" t None "" "" "" "" "" "" "" in
  let w1 := (CreateRun "x" (new "r2"%string 600) (mkWorld ex_db 0)).2 in
  let w2 := (CreateRun "x" (new "r3"%string 700) w1).2 in
  let w3 := (LogMetrics "r2" [mkMetric "acc" (FFin 7) 10 0] w2).2 in
  (LogMetrics "r3" [mkMetric "acc" (FFin 9) 10 0] w3).2.

Definition ex_run_opt : SearchOptions :=
  mkSearchOptions [1] "" "" ["metrics.acc DESC"%string] 2 NoToken "default".

Lemma SearchRuns_pages_complete_witness :
  ∃ ps, search_run_pages (λ _, None) (λ _ _ _ _, true) 4 ex_run_opt NoToken ex_runs_w = Some ps ∧
        run_ID <$> concat ps = ["r3"; "r2"; "r1"]%string.
Proof.
  destruct (SearchRuns_pages_complete (λ _, None) (λ _ _ _ _, true) ex_run_opt []
    [mkOrderCol (OMetric "acc") true; mkOrderCol (OAttr AId) false] ex_runs_w) as (ps & Hps & Hc & _).
  - vm_compute. reflexivity.
  - vm_compute. reflexivity.
  - apply Forall_forall. intros p Hp.
    assert (p ∈ run_rows (λ _ _ _ _, true) (w_db ex_runs_w) ex_run_opt []) as Hp' by exact Hp.
    clear Hp. vm_compute in Hp'.
    repeat (apply elem_of_cons in Hp' as [->|Hp'];
      [split_and!; [vm_compute; reflexivity|repeat constructor; vm_compute; discriminate|vm_compute; reflexivity]|]).
    by apply elem_of_nil in Hp'.
  - exists ps. split; [exact Hps|]. rewrite Hc. vm_compute. reflexivity.
Defined.
