(* ===== verification/TimeTravel.v ===== *)
(** * Time travel (internal/store/sqlite_events.go, read side)

    [GetRunAsOf] rebuilds the state of a run at an earlier time from the
    current state by undoing, newest first, the events after that time.  The
    refinement theorem of this file says that it returns exactly what
    [GetRun] and [GetTags] returned at that time, whatever sequence of
    operations was executed since. *)

From S2P Require Import Prelude GoStrings Model Database Events Runs.

Open Scope Z_scope.

Record runEvent := mkRunEvent {
  ev_ID : Z; ev_TsMs : Z; ev_Kind : string; ev_Payload : payload }.

Definition MaxEventsPerReplay : nat := Z.to_nat 50000.

(** ** Undoing one event *)

Definition applyUndo (run : Run) (e : runEvent) : Run :=
  match as_object (jget "before" (ev_Payload e)) with
  | None => run
  | Some before =>
      if String.eqb (ev_Kind e) EventRunUpdate then
        let status := default (run_Status run) (as_string (jget "status" before)) in
        let endTime := match jget "end_time" before with
                       | Some JNull => None
                       | Some (JNum f) => Some (int64_of_float f)
                       | _ => run_EndTime run
                       end in
        let name := default (run_Name run) (as_string (jget "name" before)) in
        mkRun (run_ID run) (run_ExperimentID run) name status (run_StartTime run) endTime
          (run_ArtifactURI run) (run_LifecycleStage run) (run_UserID run) (run_SourceType run)
          (run_SourceName run) (run_Kind run) (run_ParentRunID run)
      else if String.eqb (ev_Kind e) EventRunLifecycle then
        mkRun (run_ID run) (run_ExperimentID run) (run_Name run) (run_Status run)
          (run_StartTime run) (run_EndTime run) (run_ArtifactURI run)
          (default (run_LifecycleStage run) (as_string (jget "lifecycle_stage" before)))
          (run_UserID run) (run_SourceType run) (run_SourceName run) (run_Kind run)
          (run_ParentRunID run)
      else if String.eqb (ev_Kind e) EventRunParent then
        mkRun (run_ID run) (run_ExperimentID run) (run_Name run) (run_Status run)
          (run_StartTime run) (run_EndTime run) (run_ArtifactURI run) (run_LifecycleStage run)
          (run_UserID run) (run_SourceType run) (run_SourceName run) (run_Kind run)
          (default (run_ParentRunID run) (as_string (jget "parent_run_id" before)))
      else run
  end.

Definition applyTagUndo (tagMap : gmap string string) (e : runEvent) : gmap string string :=
  let key := default EmptyString (as_string (jget "key" (ev_Payload e))) in
  if String.eqb (ev_Kind e) EventTagSet then
    if decide (key = EmptyString) then tagMap else
    match jget "before" (ev_Payload e) with
    | None | Some JNull => delete key tagMap
    | Some (JStr v) => <[key := v]> tagMap
    | Some _ => tagMap
    end
  else if String.eqb (ev_Kind e) EventTagDelete then
    if decide (key = EmptyString) then tagMap else
    match jget "before" (ev_Payload e) with
    | Some (JStr v) => <[key := v]> tagMap
    | _ => tagMap
    end
  else tagMap.

(** The loop [for i := len(newer) - 1; i >= 0; i--]. *)
Definition undo_all {A} (undo : A → runEvent → A) (newer : list runEvent) (x : A) : A :=
  foldr (λ e acc, undo acc e) x newer.

(** ** The read *)

(** [SELECT ... FROM events WHERE entity_id = ? ORDER BY ts_ms, id], decoded. *)
Definition event_of (p : Z * EventRow) : runEvent :=
  mkRunEvent p.1 (evr_ts_ms p.2) (evr_kind p.2) (unmarshal_payload (evr_payload p.2)).

Definition event_key (p : Z * EventRow) : Z * Z := (evr_ts_ms p.2, p.1).

Definition event_rows (d : DB) (runID : string) : list (Z * EventRow) :=
  sort_by event_key (filter (λ p, evr_entity_id p.2 = runID) (map_to_list (rows (events d)))).

Definition run_events (d : DB) (runID : string) : list runEvent :=
  event_of <$> event_rows d runID.

Definition tag_map (l : list KV) : gmap string string :=
  list_to_map ((λ t, (kv_Key t, kv_Value t)) <$> l).

(** The map back as a list sorted by key. *)
Definition tag_list (m : gmap string string) : list KV :=
  sort_by kv_Key ((λ '(k, v), mkKV k v) <$> map_to_list m).

Definition getRunAsOfImpl (runID workspaceID : string) (asOfMs : Z) : M (Run * list KV) :=
  run ← (if decide (workspaceID = EmptyString) then GetRun runID
         else getRunInWorkspace runID workspaceID);
  if decide (asOfMs < run_StartTime run) then fail ErrNotFound else
  d ← get;
  let scanned := take (S MaxEventsPerReplay) (run_events d runID) in
  if decide (MaxEventsPerReplay < length scanned)%nat then fail ErrReplayLimitExceeded else
  let newer := filter (λ e, asOfMs < ev_TsMs e) scanned in
  let run := undo_all applyUndo newer run in
  currentTags ← GetTags runID;
  let tagMap := undo_all applyTagUndo newer (tag_map currentTags) in
  mret (run, tag_list tagMap).

Definition GetRunAsOf (runID : string) (asOfMs : Z) : M (Run * list KV) :=
  getRunAsOfImpl runID EmptyString asOfMs.

Definition GetRunAsOfInWorkspace (runID workspaceID : string) (asOfMs : Z) : M (Run * list KV) :=
  getRunAsOfImpl runID (default_ws workspaceID) asOfMs.

(** ** The log as a list *)

(** Appending rows to the log, in order. *)
Definition append_events (evs : list EventRow) (t : serial EventRow) : serial EventRow :=
  foldl (λ t e, (serial_insert e t).2) t evs.

(** The ids appended rows get. *)
Fixpoint index_from (id : Z) (evs : list EventRow) : list (Z * EventRow) :=
  match evs with
  | [] => []
  | e :: evs' => (id, e) :: index_from (id + 1) evs'
  end.

Section log.
Lemma append_events_cons e evs t :
  append_events (e :: evs) t = append_events evs (serial_insert e t).2.
Proof. done. Qed.

Lemma append_events_wf evs t : serial_wf t → serial_wf (append_events evs t).
Proof.
  revert t. induction evs as [|e evs IH]; intros t Hwf; simpl; [done|].
  by apply IH, serial_wf_insert.
Qed.

Lemma map_to_list_append evs t :
  serial_wf t →
  map_to_list (rows (append_events evs t)) ≡ₚ
    map_to_list (rows t) ++ index_from (seq_no t + 1) evs.
Proof.
  revert t. induction evs as [|e evs IH]; intros t Hwf.
  { simpl. by rewrite app_nil_r. }
  rewrite append_events_cons, IH by by apply serial_wf_insert. simpl.
  rewrite map_to_list_insert by by apply serial_fresh.
  simpl. by rewrite Permutation_middle.
Qed.

Lemma seq_no_append evs t : seq_no (append_events evs t) = seq_no t + Z.of_nat (length evs).
Proof.
  revert t. induction evs as [|e evs IH]; intros t; [simpl; lia|].
  rewrite append_events_cons, IH. simpl. lia.
Qed.

Lemma elem_of_index_from id evs p :
  p ∈ index_from id evs → id ≤ p.1 ∧ p.2 ∈ evs.
Proof.
  revert id. induction evs as [|e evs IH]; intros id; simpl; [by intros ?%elem_of_nil|].
  intros [->|Hp]%elem_of_cons; simpl; [split; [lia|left]|].
  apply IH in Hp as [? ?]. split; [lia|by right].
Qed.

Definition ts_sorted (evs : list EventRow) : Prop :=
  StronglySorted (λ x y, evr_ts_ms x ≤ evr_ts_ms y) evs.

Lemma index_from_sorted id evs :
  ts_sorted evs → StronglySorted (key_lt event_key) (index_from id evs).
Proof.
  intros Hs. revert id. induction Hs as [|e evs Hs IH Hle]; intros id; simpl; constructor; [auto|].
  rewrite Forall_forall in Hle. apply Forall_forall. intros p [? Hp]%elem_of_index_from.
  apply Hle in Hp. unfold key_lt, cmp_lt, event_key. simpl.
  destruct (Z.compare_spec (evr_ts_ms e) (evr_ts_ms p.2)); try done; try lia.
  apply Z.compare_lt_iff. lia.
Qed.

Lemma event_rows_sorted d R : StronglySorted (key_lt event_key) (event_rows d R).
Proof.
  apply sort_by_lt. apply NoDup_fmap_filter.
  assert (event_key <$> map_to_list (rows (events d)) =
          (λ p, (evr_ts_ms p.2, p.1)) <$> map_to_list (rows (events d))) as -> by done.
  apply (NoDup_fmap_1 snd). rewrite <- list_fmap_compose. apply NoDup_fst_map_to_list.
Qed.

Lemma elem_of_event_rows d R p :
  p ∈ event_rows d R ↔ evr_entity_id p.2 = R ∧ rows (events d) !! p.1 = Some p.2.
Proof.
  unfold event_rows. rewrite elem_of_sort_by, list_elem_of_filter.
  destruct p as [id e]. by rewrite elem_of_map_to_list.
Qed.

(** A log whose events are not later than the appended ones grows at its
    end. *)
Lemma event_rows_append d d' evs R :
  serial_wf (events d) →
  events d' = append_events evs (events d) →
  ts_sorted evs →
  (∀ id e e', rows (events d) !! id = Some e → e' ∈ evs → evr_ts_ms e ≤ evr_ts_ms e') →
  event_rows d' R =
    event_rows d R ++ filter (λ p, evr_entity_id p.2 = R) (index_from (seq_no (events d) + 1) evs).
Proof.
  intros Hwf Hd' Hs Hle. apply (StronglySorted_lt_unique event_key).
  - apply event_rows_sorted.
  - apply StronglySorted_app. split_and!.
    + intros [i x] [j y] [_ Hx]%elem_of_event_rows [_ Hy]%list_elem_of_filter.
      apply elem_of_index_from in Hy as [Hj Hy]. simpl in *.
      pose proof (Hle _ _ _ Hx Hy). destruct Hwf as [_ Hwf].
      pose proof (Hwf i (mk_is_Some _ _ Hx)).
      unfold key_lt, cmp_lt, event_key. simpl.
      destruct (Z.compare_spec (evr_ts_ms x) (evr_ts_ms y)); try done; try lia.
      apply Z.compare_lt_iff. lia.
    + apply event_rows_sorted.
    + by apply StronglySorted_filter, index_from_sorted.
  - unfold event_rows. rewrite !sort_by_perm, Hd', map_to_list_append by done.
    by rewrite filter_app.
Qed.
End log.

(** ** What a run looks like: its row and its tags *)

Definition tags_view (d : DB) (R : string) : gmap string string :=
  tag_map (sort_by kv_Key (tag_rows d R)).

Section views.
Lemma elem_of_tag_rows d R k v : mkKV k v ∈ tag_rows d R ↔ tags d !! (R, k) = Some v.
Proof.
  unfold tag_rows. rewrite list_elem_of_omap, <- elem_of_map_to_list. split.
  - intros ([[r k'] v'] & Hin & Heq). case_decide; simplify_eq. done.
  - intros Hin. exists (R, k, v). by rewrite decide_True.
Qed.

Lemma NoDup_tag_rows d R : NoDup (kv_Key <$> tag_rows d R).
Proof.
  unfold tag_rows. pose proof (NoDup_fst_map_to_list (tags d)) as Hd. revert Hd.
  induction (map_to_list (tags d)) as [|[[r k] v] l IH]; [constructor|].
  rewrite fmap_cons, NoDup_cons. intros [Hni Hl]. cbn. case_decide as Hr; [|auto].
  cbn. apply NoDup_cons. split; [|auto]. intros Hin. apply Hni. subst r.
  apply list_elem_of_fmap in Hin as ([k' v'] & Hk & Hin). simpl in Hk. subst k'.
  apply list_elem_of_omap in Hin as ([[r' k'] v''] & Hin & Heq).
  case_decide; simplify_eq. by apply (list_elem_of_fmap_2' fst _ (R, k, v')).
Qed.

Lemma tags_view_lookup d R k : tags_view d R !! k = tags d !! (R, k).
Proof.
  apply option_eq. intros v. unfold tags_view, tag_map.
  rewrite <- elem_of_list_to_map.
  - rewrite list_elem_of_fmap, <- elem_of_tag_rows. split.
    + intros ([k' v'] & Heq & Hin%elem_of_sort_by). by simplify_eq/=.
    + intros Hin. exists (mkKV k v). by rewrite elem_of_sort_by.
  - rewrite <- list_fmap_compose.
    assert ((fst ∘ λ t, (kv_Key t, kv_Value t)) <$> sort_by kv_Key (tag_rows d R) =
            kv_Key <$> sort_by kv_Key (tag_rows d R)) as -> by (apply list_fmap_ext; done).
    rewrite sort_by_perm. apply NoDup_tag_rows.
Qed.

(** Listing the map in key order is [GetTags]. *)
Lemma tag_list_view d R : tag_list (tags_view d R) = sort_by kv_Key (tag_rows d R).
Proof.
  apply sort_by_unique.
  - rewrite <- list_fmap_compose.
    assert ((kv_Key ∘ λ '(k, v), mkKV k v) <$> map_to_list (tags_view d R) =
            (map_to_list (tags_view d R)).*1) as -> by (apply list_fmap_ext; by intros ? [? ?]).
    apply NoDup_fst_map_to_list.
  - apply NoDup_Permutation.
    + apply NoDup_fmap_2; [by intros [? ?] [? ?] [= -> ->]|apply NoDup_map_to_list].
    + apply (NoDup_fmap_1 kv_Key), NoDup_tag_rows.
    + intros [k v]. rewrite list_elem_of_fmap, elem_of_tag_rows, <- tags_view_lookup. split.
      * intros ([k' v'] & [= -> ->] & Hin). by apply elem_of_map_to_list.
      * intros Hin. exists (k, v). by rewrite elem_of_map_to_list.
Qed.
End views.

(** ** Undoing what an operation logged *)

(** Values that survive the JSON payload. *)
Definition safe_row (r : RunRow) : Prop :=
  valid_utf8 (rr_status r) ∧ valid_utf8 (coalesce (rr_name r)) ∧
  valid_utf8 (rr_lifecycle_stage r) ∧ valid_utf8 (coalesce (rr_parent_run_id r)) ∧
  match rr_end_time r with Some t => float64_exact t | None => True end.

Definition safe_tag (k v : string) : Prop := k ≠ EmptyString ∧ valid_utf8 k ∧ valid_utf8 v.

Definition json_safe (d : DB) : Prop :=
  (∀ R r, runs d !! R = Some r → safe_row r) ∧
  (∀ R k v, tags d !! (R, k) = Some v → safe_tag k v).

(** The events of run [R] among the appended rows, undone. *)
Definition undo_rows {A} (undo : A → runEvent → A) (evs : list EventRow) (R : string) (x : A) : A :=
  undo_all undo ((λ e, event_of (0, e)) <$> filter (λ e, evr_entity_id e = R) evs) x.

(** The row [writeRunEvent] inserts. *)
Definition event_row (now : Z) (kind runID : string) (p : payload) : EventRow :=
  mkEventRow now kind runID (marshal_payload p).

Section undo.
Lemma undo_rows_app {A} (undo : A → runEvent → A) evs1 evs2 R x :
  undo_rows undo (evs1 ++ evs2) R x = undo_rows undo evs1 R (undo_rows undo evs2 R x).
Proof. unfold undo_rows, undo_all. by rewrite filter_app, fmap_app, foldr_app. Qed.

Lemma undo_rows_cons {A} (undo : A → runEvent → A) e evs R x :
  undo_rows undo (e :: evs) R x =
    if decide (evr_entity_id e = R)
    then undo (undo_rows undo evs R x) (event_of (0, e)) else undo_rows undo evs R x.
Proof. unfold undo_rows, undo_all. rewrite filter_cons. by case_decide. Qed.

(** Ids do not matter to undo. *)
Lemma undo_all_index {A} (undo : A → runEvent → A) id evs R x :
  (∀ y i e, undo y (event_of (i, e)) = undo y (event_of (0, e))) →
  undo_all undo (event_of <$> filter (λ p, evr_entity_id p.2 = R) (index_from id evs)) x =
    undo_rows undo evs R x.
Proof.
  intros Hid. revert id. induction evs as [|e evs IH]; intros id; [done|].
  rewrite undo_rows_cons. cbn [index_from]. rewrite filter_cons. cbn [snd].
  case_decide; [|apply IH]. rewrite fmap_cons. cbn. rewrite Hid. f_equal. apply IH.
Qed.

(** The payload of a captured row reads back as the row. *)
Lemma undo_run_update now R r run :
  safe_row r →
  applyUndo run (event_of (0, event_row now EventRunUpdate R [("before"%string, JObj (before_payload r))])) =
    mkRun (run_ID run) (run_ExperimentID run) (coalesce (rr_name r)) (rr_status r)
      (run_StartTime run) (rr_end_time r) (run_ArtifactURI run) (run_LifecycleStage run)
      (run_UserID run) (run_SourceType run) (run_SourceName run) (run_Kind run) (run_ParentRunID run).
Proof.
  intros (Hs & Hn & _ & _ & He). unfold applyUndo, before_payload. cbn. rewrite Hs, Hn. f_equal.
  destruct (rr_end_time r) as [t|]; [|reflexivity]. cbn.
  rewrite (float64_round_exact t He).
  unfold int64_of_float. rewrite decide_True; [reflexivity|].
  unfold float64_exact in He. unfold in_int64, int64_min, int64_max. lia.
Qed.

Lemma undo_run_lifecycle now R r run :
  safe_row r →
  applyUndo run (event_of (0, event_row now EventRunLifecycle R [("before"%string, JObj (before_payload r))])) =
    mkRun (run_ID run) (run_ExperimentID run) (run_Name run) (run_Status run)
      (run_StartTime run) (run_EndTime run) (run_ArtifactURI run) (rr_lifecycle_stage r)
      (run_UserID run) (run_SourceType run) (run_SourceName run) (run_Kind run) (run_ParentRunID run).
Proof.
  intros (_ & _ & Hl & _). unfold applyUndo, before_payload. cbn. by rewrite Hl.
Qed.

Lemma undo_run_parent now R r run :
  safe_row r →
  applyUndo run (event_of (0, event_row now EventRunParent R [("before"%string, JObj (before_payload r))])) =
    mkRun (run_ID run) (run_ExperimentID run) (run_Name run) (run_Status run)
      (run_StartTime run) (run_EndTime run) (run_ArtifactURI run) (run_LifecycleStage run)
      (run_UserID run) (run_SourceType run) (run_SourceName run) (run_Kind run)
      (coalesce (rr_parent_run_id r)).
Proof.
  intros (_ & _ & _ & Hp & _). unfold applyUndo, before_payload. cbn. by rewrite Hp.
Qed.

Lemma undo_tag_set now R k v before m :
  k ≠ EmptyString → valid_utf8 k → (∀ b, before = Some b → valid_utf8 b) →
  applyTagUndo m (event_of (0, event_row now EventTagSet R (tag_payload k v before))) =
    partial_alter (λ _, before) k m.
Proof.
  intros Hne Hk Hb. unfold applyTagUndo, tag_payload. cbn. rewrite Hk.
  rewrite decide_False by done. destruct before as [b|]; cbn; [|reflexivity].
  rewrite (Hb b) by done. reflexivity.
Qed.

Lemma undo_tag_delete now R k v m :
  safe_tag k v →
  applyTagUndo m (event_of (0, event_row now EventTagDelete R
    [("key"%string, JStr k); ("before"%string, JStr v)])) = <[k := v]> m.
Proof.
  intros (Hne & Hk & Hv). unfold applyTagUndo. cbn. rewrite Hk, Hv.
  by rewrite decide_False by done.
Qed.

(** Run events leave the tags alone and tag events the run. *)
Lemma undo_tag_other now kind R b m :
  kind ∈ [EventRunUpdate; EventRunLifecycle; EventRunParent] →
  applyTagUndo m (event_of (0, event_row now kind R b)) = m.
Proof. unfold applyTagUndo. intros Hk. rewrite !elem_of_cons, elem_of_nil in Hk. destruct Hk as [->|[->|[->|[]]]]; reflexivity. Qed.

Lemma undo_run_tag_set now R k v before run :
  applyUndo run (event_of (0, event_row now EventTagSet R (tag_payload k v before))) = run.
Proof. unfold applyUndo, tag_payload. by destruct before. Qed.

Lemma undo_run_tag_delete now R k v run :
  applyUndo run (event_of (0, event_row now EventTagDelete R
    [("key"%string, JStr k); ("before"%string, JStr v)])) = run.
Proof. done. Qed.
End undo.

(** ** The log of an execution *)

Section logged.
Context `{Clock}.

(** From [w] to [w'] the events [evs] were appended, at the times read in
    between, and undoing them gives back every run of [w]. *)
Record logged_by (evs : list EventRow) (w w' : World) : Prop := {
  lg_tick : (w_tick w ≤ w_tick w')%nat;
  lg_events : events (w_db w') = append_events evs (events (w_db w));
  lg_ticks : ∃ ks, StronglySorted lt ks ∧ (evr_ts_ms <$> evs) = (clock <$> ks) ∧
                   (∀ k, k ∈ ks → (w_tick w ≤ k < w_tick w')%nat);
  lg_run R r : runs (w_db w) !! R = Some r →
    ∃ r', runs (w_db w') !! R = Some r' ∧
          undo_rows applyUndo evs R (scan_run R r') = scan_run R r;
  lg_tags R : is_Some (runs (w_db w) !! R) →
    undo_rows applyTagUndo evs R (tags_view (w_db w') R) = tags_view (w_db w) R
}.

Definition logged (w w' : World) : Prop := ∃ evs, logged_by evs w w'.

(** Nothing but the clock moved. *)
Lemma logged_same w w' :
  w_db w' = w_db w → (w_tick w ≤ w_tick w')%nat → logged w w'.
Proof.
  intros Hd Ht. exists []. split; rewrite ?Hd; try done.
  - exists []. split_and!; [constructor|done|by intros ? ?%elem_of_nil].
  - eauto.
Qed.

(** The tables of the run state are untouched. *)
Lemma logged_frame w w' :
  runs (w_db w') = runs (w_db w) → tags (w_db w') = tags (w_db w) →
  events (w_db w') = events (w_db w) → (w_tick w ≤ w_tick w')%nat → logged w w'.
Proof.
  intros Hr Ht He Hk. exists []. split; rewrite ?He, ?Hr; try done.
  - exists []. split_and!; [constructor|done|by intros ? ?%elem_of_nil].
  - eauto.
  - intros R _. cbn. apply map_eq. intros k. by rewrite !tags_view_lookup, Ht.
Qed.

Lemma logged_trans w1 w2 w3 : logged w1 w2 → logged w2 w3 → logged w1 w3.
Proof.
  intros [evs1 [Ht1 He1 (ks1 & Hs1 & Hk1 & Hb1) Hr1 Hg1]] [evs2 [Ht2 He2 (ks2 & Hs2 & Hk2 & Hb2) Hr2 Hg2]].
  exists (evs1 ++ evs2). split.
  - lia.
  - unfold append_events in *. by rewrite He2, He1, foldl_app.
  - exists (ks1 ++ ks2). rewrite !fmap_app, Hk1, Hk2. split_and!; [|done|].
    + apply StronglySorted_app. split_and!; [|done..].
      intros x y Hx%Hb1 Hy%Hb2. lia.
    + intros k [Hk%Hb1|Hk%Hb2]%elem_of_app; lia.
  - intros R r Hr. destruct (Hr1 R r Hr) as (r' & Hr' & Hu1).
    destruct (Hr2 R r' Hr') as (r'' & Hr'' & Hu2). exists r''. split; [done|].
    by rewrite undo_rows_app, Hu2.
  - intros R HR. rewrite undo_rows_app, Hg2; [by apply Hg1|].
    destruct HR as [r Hr]. destruct (Hr1 R r Hr) as (r' & Hr' & _). eauto.
Qed.

(** ** Executions of the statements *)

Lemma writeRunEvent_exec kind R p w :
  check_event_kind kind = true →
  writeRunEvent kind R p w =
    (Ok tt, mkWorld (set_events (append_events [event_row (clock (w_tick w)) kind R p]
                       (events (w_db w))) (w_db w)) (S (w_tick w))).
Proof. intros Hk. unfold writeRunEvent. autorewrite with exec. by rewrite Hk. Qed.

Lemma run_kind_check kind :
  kind ∈ [EventRunUpdate; EventRunLifecycle; EventRunParent] → check_event_kind kind = true.
Proof.
  rewrite !elem_of_cons, elem_of_nil. by intros [->|[->|[->|[]]]].
Qed.

Lemma update_run_exec id f w n w' :
  update_run id f w = (Ok n, w') →
  (n = 0 ∧ w' = w ∧ runs (w_db w) !! id = None) ∨
  (∃ r, n = 1 ∧ runs (w_db w) !! id = Some r ∧ check_run (f r) = true ∧
        w' = mkWorld (set_runs (<[id := f r]> (runs (w_db w))) (w_db w)) (w_tick w) ∧
        (∀ p, rr_parent_run_id (f r) = Some p →
              rr_parent_run_id (f r) = rr_parent_run_id r ∨ is_Some (runs (w_db w) !! p))).
Proof.
  unfold update_run. autorewrite with exec. destruct (runs (w_db w) !! id) as [r|] eqn:Hr.
  - destruct (check_run (f r)) eqn:Hc; cbn; [|discriminate].
    destruct (rr_parent_run_id (f r)) as [p|] eqn:Hp.
    + destruct (_ || _) eqn:Hfk; cbn; [|discriminate]. intros [= <- <-]. right. exists r.
      split_and!; try done. intros p' Hp'. rewrite Hp in *. simplify_eq.
      apply orb_true_iff in Hfk as [Hfk|Hfk]; apply bool_decide_eq_true in Hfk; auto.
    + intros [= <- <-]. right. exists r. split_and!; try done. intros p. by rewrite Hp.
  - intros [= <- <-]. by left.
Qed.

Lemma upsert_tag_exec R k v w w' a :
  upsert_tag R k v w = (Ok a, w') →
  is_Some (runs (w_db w) !! R) ∧
  w' = mkWorld (set_tags (<[(R, k) := v]> (tags (w_db w))) (w_db w)) (w_tick w).
Proof.
  unfold upsert_tag. autorewrite with exec. unfold run_exists. case_bool_decide as Hr; [|discriminate].
  by intros [= <- <-].
Qed.

#[export] Instance captureRunBefore_tick R : TickMono (captureRunBefore R).
Proof. apply _. Qed.
#[export] Instance readTagValue_tick R k : TickMono (readTagValue R k).
Proof. apply _. Qed.
#[export] Instance assertRunExists_tick R : TickMono (assertRunExists R).
Proof. unfold assertRunExists. tick_auto. Qed.
#[export] Instance writeRunEvent_tick kind R p : TickMono (writeRunEvent kind R p).
Proof. unfold writeRunEvent. tick_auto. Qed.
#[export] Instance write_before_tick kind R b : TickMono (write_before kind R b).
Proof. unfold write_before. tick_auto. Qed.
#[export] Instance insert_run_tick id r : TickMono (insert_run id r).
Proof. unfold insert_run. tick_auto. Qed.
#[export] Instance update_run_tick id f : TickMono (update_run id f).
Proof. unfold update_run. tick_auto. Qed.
#[export] Instance upsert_tag_tick R k v : TickMono (upsert_tag R k v).
Proof. unfold upsert_tag. tick_auto. Qed.
#[export] Instance setParentRunID_tick R p : TickMono (setParentRunID R p).
Proof. unfold setParentRunID. tick_auto. Qed.
#[export] Instance syncParent_tick R p : TickMono (syncParentRunIDFromTag R p).
Proof. unfold syncParentRunIDFromTag. tick_auto. Qed.
#[export] Instance UpdateRun_tx_tick id f k b : TickMono (UpdateRun_tx id f k b).
Proof. unfold UpdateRun_tx. tick_auto. Qed.

(** A failed or rolled-back transaction logs nothing. *)
Lemma transaction_logged {A} (m : M A) w r w' :
  TickMono m → transaction m w = (r, w') →
  (∀ a, r = Ok a → m w = (Ok a, w') → logged w w') → logged w w'.
Proof.
  intros Hm [(a & -> & Ha)|(e & w1 & -> & He & ->)]%transaction_exec Hok; [eauto|].
  apply logged_same; [done|]. pose proof (tick_mono (m:=m) w). by rewrite He in *.
Qed.

(** The events of a method carry consecutive readings of the clock. *)
Lemma ticks_seq (evs : list EventRow) n (w w' : World) :
  evr_ts_ms <$> evs = clock <$> seq n (length evs) →
  (w_tick w ≤ n)%nat → (n + length evs ≤ w_tick w')%nat →
  ∃ ks, StronglySorted lt ks ∧ (evr_ts_ms <$> evs) = (clock <$> ks) ∧
        (∀ k, k ∈ ks → (w_tick w ≤ k < w_tick w')%nat).
Proof.
  intros Hts Hn Hn'. exists (seq n (length evs)). split_and!; [|done|].
  - generalize (length evs). clear. intros m. revert n.
    induction m as [|m IH]; intros n; simpl; constructor; [apply IH|].
    apply Forall_forall. intros x Hx. apply elem_of_seq in Hx. lia.
  - intros k Hk%elem_of_seq. lia.
Qed.

(** One run row changed by [f] and logged under [kind]. *)
Lemma row_logged id f kind r w k :
  runs (w_db w) !! id = Some r → safe_row r →
  kind ∈ [EventRunUpdate; EventRunLifecycle; EventRunParent] →
  (∀ now, applyUndo (scan_run id (f r))
     (event_of (0, event_row now kind id [("before"%string, JObj (before_payload r))])) = scan_run id r) →
  (w_tick w ≤ k)%nat →
  logged w (mkWorld (set_events (append_events [event_row (clock k) kind id
              [("before"%string, JObj (before_payload r))]] (events (w_db w)))
            (set_runs (<[id := f r]> (runs (w_db w))) (w_db w))) (S k)).
Proof.
  intros Hr Hsafe Hkind Hundo Hk.
  exists [event_row (clock k) kind id [("before"%string, JObj (before_payload r))]]. split.
  - simpl. lia.
  - done.
  - apply (ticks_seq _ k); [done|done|]. simpl. lia.
  - intros R r0 HR. simpl. destruct (decide (id = R)) as [<-|Hne].
    + rewrite HR in Hr. injection Hr as ->. exists (f r). rewrite lookup_insert_eq. split; [done|].
      rewrite undo_rows_cons, decide_True by done. apply Hundo.
    + exists r0. rewrite lookup_insert_ne by done. split; [done|].
      by rewrite undo_rows_cons, decide_False by done.
  - intros R _. rewrite undo_rows_cons. cbn [event_row evr_entity_id].
    case_decide; [|done]. by rewrite undo_tag_other.
Qed.

Lemma UpdateRun_tx_logged id f kind w r w' :
  json_safe (w_db w) →
  kind ∈ [EventRunUpdate; EventRunLifecycle; EventRunParent] →
  (∀ r0 now, safe_row r0 → applyUndo (scan_run id (f r0))
     (event_of (0, event_row now kind id [("before"%string, JObj (before_payload r0))])) = scan_run id r0) →
  UpdateRun_tx id f kind (before_payload <$> runs (w_db w) !! id) w = (r, w') → logged w w'.
Proof.
  intros Hsafe Hkind Hundo Hx. unfold UpdateRun_tx in Hx.
  eapply transaction_logged; [|exact Hx|]; [tick_auto|].
  intros [] -> Hm. apply bind_exec_Ok in Hm as (n & w1 & Hu & Hm).
  apply update_run_exec in Hu as [(-> & -> & Hn)|(r0 & -> & Hr & _ & -> & _)];
    [by rewrite decide_True in Hm|].
  rewrite decide_False, Hr in Hm by done. cbn [write_before fmap option_fmap option_map] in Hm.
  rewrite writeRunEvent_exec in Hm by by apply run_kind_check.
  injection Hm as <-. eapply (row_logged id f kind r0 w (w_tick w)); try done.
  - by eapply Hsafe.
  - intros now. apply Hundo. by eapply Hsafe.
Qed.

Lemma UpdateRun_logged id status endTime name w r w' :
  json_safe (w_db w) → UpdateRun id status endTime name w = (r, w') → logged w w'.
Proof.
  intros Hsafe Hx. unfold UpdateRun in Hx.
  destruct (guard_err _ _) as [[]|e]; rewrite ?lift_Err_bind, ?lift_Ok_bind in Hx;
    [|injection Hx as <- <-; by apply logged_same].
  case_decide; [injection Hx as <- <-; by apply logged_same|].
  eapply UpdateRun_tx_logged; [done| | |exact Hx]; [by left|].
  intros r0 now Hr0. rewrite undo_run_update by done.
  by destruct status, endTime, name.
Qed.

Lemma SetRunLifecycle_logged id stage w r w' :
  json_safe (w_db w) → SetRunLifecycle id stage w = (r, w') → logged w w'.
Proof.
  intros Hsafe Hx. unfold SetRunLifecycle in Hx.
  destruct (guard_err _ _) as [[]|e]; rewrite ?lift_Err_bind, ?lift_Ok_bind in Hx;
    [|injection Hx as <- <-; by apply logged_same].
  eapply UpdateRun_tx_logged; [done| | |exact Hx]; [right; left|].
  intros r0 now Hr0. by rewrite undo_run_lifecycle.
Qed.

Lemma syncParent_logged R p w a w' :
  json_safe (w_db w) → syncParentRunIDFromTag R p w = (Ok a, w') → logged w w'.
Proof.
  intros Hsafe Hx. unfold syncParentRunIDFromTag, captureRunBefore in Hx.
  autorewrite with exec in Hx. apply bind_exec_Ok in Hx as (n & w1 & Hu & Hx).
  apply update_run_exec in Hu as [(-> & -> & Hn)|(r0 & -> & Hr & _ & -> & _)].
  - rewrite Hn in Hx. injection Hx as <- <-. by apply logged_same.
  - rewrite Hr in Hx. cbn [write_before fmap option_fmap option_map] in Hx.
    rewrite writeRunEvent_exec in Hx by done. injection Hx as <- <-.
    eapply (row_logged R (with_parent p) _ r0 w (w_tick w)); try done.
    + by eapply Hsafe.
    + set_solver.
    + intros now. rewrite undo_run_parent by by eapply Hsafe. done.
Qed.

(** *** Batches of tags *)

Definition insert_tags (R : string) (ts : list KV) (m : gmap (string * string) string) :
    gmap (string * string) string :=
  foldl (λ m t, <[(R, kv_Key t) := kv_Value t]> m) m ts.

Fixpoint tag_events (R : string) (before : string → option string) (n : nat) (ts : list KV) :
    list EventRow :=
  match ts with
  | [] => []
  | t :: ts' =>
      event_row (clock n) EventTagSet R (tag_payload (kv_Key t) (kv_Value t) (before (kv_Key t)))
        :: tag_events R before (S n) ts'
  end.

Lemma insert_tags_lookup R ts m R' k :
  R' ≠ R ∨ k ∉ kv_Key <$> ts → insert_tags R ts m !! (R', k) = m !! (R', k).
Proof.
  unfold insert_tags. revert m. induction ts as [|t ts IH]; intros m Hk; [done|].
  cbn [foldl]. rewrite IH by set_solver.
  apply lookup_insert_ne. intros [= <- <-]. set_solver.
Qed.

Lemma upserts_exec R ts w w' a :
  for_each (λ t, _ ← lift (invalidValue (ValidKey (kv_Key t)));
                 upsert_tag R (kv_Key t) (kv_Value t)) ts w = (Ok a, w') →
  w' = mkWorld (set_tags (insert_tags R ts (tags (w_db w))) (w_db w)) (w_tick w) ∧
  Forall (λ t, kv_Key t ≠ EmptyString) ts.
Proof.
  revert w. induction ts as [|t ts IH]; intros w Hx.
  { injection Hx as <- <-. destruct w as [[? [] ? ?] ?]. by split. }
  cbn [for_each] in Hx. autorewrite with exec in Hx.
  apply bind_exec_Ok in Hx as ([] & w1 & Hv & Hx). injection Hv as Hv <-.
  apply bind_exec_Ok in Hx as (u & w1 & Hu & Hx).
  apply upsert_tag_exec in Hu as [_ ->]. apply IH in Hx as [-> Hf]. split; [done|].
  constructor; [|done]. by apply ValidKey_nonempty, invalidValue_ok.
Qed.

Lemma tag_events_exec R before ts w :
  for_each (λ t, writeRunEvent EventTagSet R
                   (tag_payload (kv_Key t) (kv_Value t) (before (kv_Key t)))) ts w =
    (Ok tt, mkWorld (set_events (append_events (tag_events R before (w_tick w) ts)
                      (events (w_db w))) (w_db w)) (w_tick w + length ts)).
Proof.
  revert w. induction ts as [|t ts IH]; intros w.
  { cbn. destruct w as [[? [] ? ?] ?]. by rewrite Nat.add_0_r. }
  cbn [for_each]. erewrite bind_Ok by by apply writeRunEvent_exec.
  rewrite IH. cbn -[append_events]. by rewrite Nat.add_succ_r.
Qed.

Lemma undo_tag_events R before n ts m k :
  Forall (λ t, safe_tag (kv_Key t) (kv_Value t)) ts →
  (∀ k b, before k = Some b → valid_utf8 b) →
  undo_rows applyTagUndo (tag_events R before n ts) R m !! k =
    if decide (k ∈ kv_Key <$> ts) then before k else m !! k.
Proof.
  intros Hts Hb. revert n. induction Hts as [|t ts (Hne & Hk & _) Hts IH]; intros n; [done|].
  cbn [tag_events]. rewrite undo_rows_cons, decide_True, undo_tag_set by eauto.
  destruct (decide (kv_Key t = k)) as [<-|Hne'].
  - rewrite lookup_partial_alter_eq. by rewrite decide_True by (left; done).
  - rewrite lookup_partial_alter_ne by done. rewrite IH. rewrite fmap_cons.
    apply decide_ext. rewrite elem_of_cons. naive_solver.
Qed.

Lemma undo_tag_events_run R before n ts R' run :
  undo_rows applyUndo (tag_events R before n ts) R' run = run.
Proof.
  revert n. induction ts as [|t ts IH]; intros n; [done|].
  cbn [tag_events]. rewrite undo_rows_cons, IH. case_decide; [|done]. apply undo_run_tag_set.
Qed.

Lemma undo_tag_events_other {A} (undo : A → runEvent → A) R before n ts R' m :
  R ≠ R' → undo_rows undo (tag_events R before n ts) R' m = m.
Proof.
  intros Hne. revert n. induction ts as [|t ts IH]; intros n; [done|].
  cbn [tag_events]. by rewrite undo_rows_cons, decide_False, IH.
Qed.

Lemma tag_events_ts R before n ts :
  length (tag_events R before n ts) = length ts ∧
  evr_ts_ms <$> tag_events R before n ts = clock <$> seq n (length ts).
Proof.
  revert n. induction ts as [|t ts IH]; intros n; [done|].
  destruct (IH (S n)) as [IH1 IH2]. cbn. by rewrite IH1, IH2.
Qed.

Definition safe_tags (ts : list KV) : Prop := Forall (λ t, safe_tag (kv_Key t) (kv_Value t)) ts.

(** The world after the upserts of [ts] and their events. *)
Definition batch (R : string) (ts : list KV) (w : World) : World :=
  mkWorld (set_events (append_events
             (tag_events R (λ k, tags (w_db w) !! (R, k)) (w_tick w) ts) (events (w_db w)))
           (set_tags (insert_tags R ts (tags (w_db w))) (w_db w))) (w_tick w + length ts).

Lemma batch_logged R ts w :
  json_safe (w_db w) → safe_tags ts → logged w (batch R ts w).
Proof.
  intros [_ Hsafe] Hts. set (before := λ k, tags (w_db w) !! (R, k)).
  exists (tag_events R before (w_tick w) ts). destruct (tag_events_ts R before (w_tick w) ts) as [Hl Hc].
  split.
  - simpl. lia.
  - done.
  - apply (ticks_seq _ (w_tick w)); [by rewrite Hl|done|]. simpl. lia.
  - intros R' r Hr. exists r. by rewrite undo_tag_events_run.
  - intros R' _. apply map_eq. intros k. rewrite tags_view_lookup.
    destruct (decide (R = R')) as [<-|Hne].
    + rewrite undo_tag_events; [|done|intros k' b Hb; by eapply Hsafe].
      case_decide as Hk; [done|]. rewrite tags_view_lookup. simpl.
      apply insert_tags_lookup. by right.
    + rewrite undo_tag_events_other by done. rewrite tags_view_lookup. simpl.
      apply insert_tags_lookup. left. congruence.
Qed.

Lemma insert_tags_safe R ts m :
  safe_tags ts → (∀ R k v, m !! (R, k) = Some v → safe_tag k v) →
  ∀ R' k v, insert_tags R ts m !! (R', k) = Some v → safe_tag k v.
Proof.
  unfold insert_tags. intros Hts. revert m. induction Hts as [|t ts Ht Hts IH]; intros m Hm; [done|].
  cbn [foldl]. apply IH. intros R' k v.
  rewrite lookup_insert_Some. intros [[[= <- <-] <-]|[_ ?]]; eauto.
Qed.

Lemma batch_safe R ts w : json_safe (w_db w) → safe_tags ts → json_safe (w_db (batch R ts w)).
Proof.
  intros [Hr Ht] Hts. split; [done|]. simpl. by apply insert_tags_safe.
Qed.

Lemma assertRunExists_exec R w r w' :
  assertRunExists R w = (r, w') → w' = w.
Proof. unfold assertRunExists. autorewrite with exec. by case_decide; intros [= <- <-]. Qed.

(** The optional update of the parent column closes the transaction. *)
Lemma when_sync_logged b R p w a w' :
  json_safe (w_db w) →
  when b (map_err mapParentErr (syncParentRunIDFromTag R p)) w = (Ok a, w') → logged w w'.
Proof.
  intros Hsafe Hx. destruct b; [|injection Hx as <- <-; by apply logged_same].
  apply map_err_exec_Ok in Hx. by eapply syncParent_logged.
Qed.

Lemma SetTag_logged R t w r w' :
  json_safe (w_db w) → safe_tag (kv_Key t) (kv_Value t) → SetTag R t w = (r, w') → logged w w'.
Proof.
  intros Hsafe Ht Hx. unfold SetTag in Hx.
  destruct (invalidValue _) as [[]|e]; rewrite ?lift_Err_bind, ?lift_Ok_bind in Hx;
    [|injection Hx as <- <-; by apply logged_same].
  apply bind_exec in Hx as [([] & w1 & Ha & Hx)|(e & Ha & _)];
    apply assertRunExists_exec in Ha as ->; [|by apply logged_same].
  unfold readTagValue in Hx. autorewrite with exec in Hx.
  eapply transaction_logged; [|exact Hx|]; [tick_auto|]. intros [] -> Hm.
  apply bind_exec_Ok in Hm as (u & w1 & Hu & Hm). apply upsert_tag_exec in Hu as [_ ->].
  erewrite bind_Ok in Hm by by apply writeRunEvent_exec.
  assert (safe_tags [t]) as Hts by (constructor; [done|constructor]).
  apply (logged_trans w (batch R [t] w)); [by apply batch_logged|].
  eapply when_sync_logged; [by apply batch_safe|].
  unfold batch. cbn [length]. rewrite Nat.add_1_r. exact Hm.
Qed.

Lemma SetTags_logged R ts w r w' :
  json_safe (w_db w) → safe_tags ts → SetTags R ts w = (r, w') → logged w w'.
Proof.
  intros Hsafe Hts Hx. unfold SetTags in Hx.
  apply bind_exec in Hx as [([] & w1 & Ha & Hx)|(e & Ha & _)];
    apply assertRunExists_exec in Ha as ->; [|by apply logged_same].
  rewrite get_bind in Hx. eapply transaction_logged; [|exact Hx|]; [tick_auto|]. intros [] -> Hm.
  apply bind_exec_Ok in Hm as (u & w1 & Hu & Hm). apply upserts_exec in Hu as [-> _].
  erewrite bind_Ok in Hm by apply (tag_events_exec R (λ k, tags (w_db w) !! (R, k))).
  apply (logged_trans w (batch R ts w)); [by apply batch_logged|].
  by eapply when_sync_logged; [apply batch_safe|].
Qed.

Lemma DeleteTag_logged R k w r w' :
  json_safe (w_db w) → DeleteTag R k w = (r, w') → logged w w'.
Proof.
  intros Hsafe Hx. unfold DeleteTag, readTagValue in Hx. autorewrite with exec in Hx.
  eapply transaction_logged; [|exact Hx|]; [tick_auto|]. intros [] -> Hm.
  rewrite get_bind in Hm. destruct (tags (w_db w) !! (R, k)) as [v|] eqn:Hv; [|done].
  rewrite decide_False in Hm by done. autorewrite with exec in Hm.
  rewrite writeRunEvent_exec in Hm by done. injection Hm as <-.
  exists [event_row (clock (w_tick w)) EventTagDelete R
            [("key"%string, JStr k); ("before"%string, JStr v)]]. split.
  - simpl. lia.
  - done.
  - apply (ticks_seq _ (w_tick w)); [done|done|simpl; lia].
  - intros R' r' Hr'. exists r'. split; [done|]. rewrite undo_rows_cons.
    case_decide; [|done]. apply undo_run_tag_delete.
  - intros R' _. rewrite undo_rows_cons. apply map_eq. intros k'.
    rewrite tags_view_lookup. case_decide as HR; simpl in HR.
    + subst R'. rewrite undo_tag_delete by by eapply Hsafe.
      destruct (decide (k = k')) as [<-|Hne]; [by rewrite lookup_insert_eq|].
      rewrite lookup_insert_ne by done. cbn. rewrite tags_view_lookup. simpl.
      rewrite lookup_delete_ne; congruence.
    + cbn. rewrite tags_view_lookup. simpl. rewrite lookup_delete_ne; congruence.
Qed.

(** ** Values stay JSON-safe *)

Lemma update_run_safe id f :
  (∀ r, safe_row r → safe_row (f r)) → Preserves json_safe (update_run id f).
Proof.
  intros Hf [d n] [Hr Ht]. unfold update_run. rewrite get_bind. simpl.
  destruct (runs d !! id) as [r|] eqn:E; [|done].
  destruct (negb _); [done|]. case_match; [|done]. split; simpl; [|done].
  intros R r0. rewrite lookup_insert_Some. intros [[<- <-]|[_ ?]]; eauto.
Qed.

Lemma insert_run_safe id r : safe_row r → Preserves json_safe (insert_run id r).
Proof.
  intros Hs [d n] [Hr Ht]. unfold insert_run. rewrite get_bind. simpl.
  repeat case_match; try done. split; simpl; [|done].
  intros R r0. rewrite lookup_insert_Some. intros [[<- <-]|[_ ?]]; eauto.
Qed.

Lemma upsert_tag_safe R k v : safe_tag k v → Preserves json_safe (upsert_tag R k v).
Proof.
  intros Hs [d n] [Hr Ht]. unfold upsert_tag. rewrite get_bind. simpl.
  case_match; [|done]. split; simpl; [done|].
  intros R' k' v'. rewrite lookup_insert_Some. intros [[[= <- <-] <-]|[_ ?]]; eauto.
Qed.

#[export] Instance writeRunEvent_safe kind R p : Preserves json_safe (writeRunEvent kind R p).
Proof. intros [d n] Hd. unfold writeRunEvent. rewrite now_bind. by case_match. Qed.

#[export] Instance write_before_safe kind R b : Preserves json_safe (write_before kind R b).
Proof. unfold write_before. pres_auto. Qed.

Lemma UpdateRun_tx_safe id f kind b :
  (∀ r, safe_row r → safe_row (f r)) → Preserves json_safe (UpdateRun_tx id f kind b).
Proof.
  intros Hf. unfold UpdateRun_tx. pose proof (update_run_safe id f Hf). pres_auto.
Qed.

Lemma with_parent_safe p r : valid_utf8 p → safe_row r → safe_row (with_parent p r).
Proof. unfold safe_row. simpl. tauto. Qed.

Lemma syncParent_safe R p : valid_utf8 p → Preserves json_safe (syncParentRunIDFromTag R p).
Proof.
  intros Hp. unfold syncParentRunIDFromTag.
  pose proof (update_run_safe R (with_parent p) (λ r, with_parent_safe p r Hp)). pres_auto.
Qed.

Lemma parentTag_safe p : valid_utf8 p → safe_tag parentTag p.
Proof. intros Hp. split_and!; [done|reflexivity|done]. Qed.

Lemma setParent_safe R p : valid_utf8 p → Preserves json_safe (setParentRunID R p).
Proof.
  intros Hp. unfold setParentRunID.
  pose proof (update_run_safe R (with_parent p) (λ r, with_parent_safe p r Hp)).
  pose proof (upsert_tag_safe R _ _ (parentTag_safe p Hp)). pres_auto.
Qed.

(** *** Creating a run *)

Lemma insert_run_exec id r w w' a :
  insert_run id r w = (Ok a, w') →
  runs (w_db w) !! id = None ∧ check_run r = true ∧
  is_Some (rows (experiments (w_db w)) !! rr_experiment_id r) ∧
  w' = mkWorld (set_runs (<[id := r]> (runs (w_db w))) (w_db w)) (w_tick w).
Proof.
  unfold insert_run. rewrite get_bind. destruct (check_run r) eqn:Hc; cbn [negb]; [|discriminate].
  unfold run_exists. case_bool_decide as Hr; [discriminate|]. case_decide; [|discriminate].
  intros [= <- <-]. by rewrite eq_None_not_Some.
Qed.

Lemma insert_run_err id r w e w' : insert_run id r w = (Err e, w') → w' = w.
Proof.
  unfold insert_run. rewrite get_bind. destruct (negb _); [by intros [= _ <-]|].
  destruct (run_exists _ _); [by intros [= _ <-]|]. case_decide; [discriminate|].
  by intros [= _ <-].
Qed.

(** The tables of the existing runs are untouched. *)
Lemma insert_run_logged id r w w' a : insert_run id r w = (Ok a, w') → logged w w'.
Proof.
  intros (Hn & _ & _ & ->)%insert_run_exec. exists []. split; try done.
  - exists []. split_and!; [constructor|done|by intros ? ?%elem_of_nil].
  - intros R r0 Hr. exists r0. simpl. rewrite lookup_insert_ne by congruence. done.
Qed.

Lemma setParent_logged R p w a w' :
  json_safe (w_db w) → valid_utf8 p → setParentRunID R p w = (Ok a, w') → logged w w'.
Proof.
  intros Hsafe Hp Hx. unfold setParentRunID, captureRunBefore, readTagValue in Hx.
  case_decide; [injection Hx as <- <-; by apply logged_same|].
  autorewrite with exec in Hx. apply bind_exec_Ok in Hx as (n & w1 & Hu & Hx).
  apply update_run_exec in Hu as [(-> & -> & Hn)|(r0 & -> & Hr & _ & -> & _)].
  { rewrite Hn in Hx. cbn [fmap option_fmap option_map write_before] in Hx.
    autorewrite with exec in Hx. apply bind_exec_Ok in Hx as (u & w1 & Hu & Hx).
    apply upsert_tag_exec in Hu as [[? Hu] _]. congruence. }
  rewrite Hr in Hx. cbn [write_before fmap option_fmap option_map] in Hx.
  erewrite bind_Ok in Hx by by apply writeRunEvent_exec.
  cbn [w_tick w_db] in Hx. autorewrite with exec in Hx.
  apply bind_exec_Ok in Hx as (u & w1 & Hu & Hx). apply upsert_tag_exec in Hu as [_ ->].
  rewrite writeRunEvent_exec in Hx by done. injection Hx as <- <-.
  eapply logged_trans; [eapply (row_logged R (with_parent p) EventRunParent r0 w (w_tick w)); try done|].
  - by eapply Hsafe.
  - set_solver.
  - intros now. rewrite undo_run_parent by by eapply Hsafe. done.
  - eapply eq_ind; [eapply (batch_logged R [mkKV parentTag p])|].
    + split; simpl; [|apply Hsafe]. intros R' r'. rewrite lookup_insert_Some.
      intros [[<- <-]|[_ Hr']]; [apply with_parent_safe; [done|]|]; by eapply Hsafe.
    + constructor; [by apply parentTag_safe|constructor].
    + unfold batch. cbn -[append_events]. by rewrite Nat.add_1_r.
Qed.

Definition safe_run (r : Run) : Prop :=
  valid_utf8 (run_Status r) ∧ valid_utf8 (run_Name r) ∧ valid_utf8 (run_LifecycleStage r) ∧
  valid_utf8 (run_ParentRunID r) ∧
  match run_EndTime r with Some t => float64_exact t | None => True end.

Lemma default_to_utf8 s d : valid_utf8 s → valid_utf8 d → valid_utf8 (default_to s d).
Proof. intros. unfold default_to. by case_decide. Qed.

Lemma nilIfEmpty_coalesce s : coalesce (nilIfEmpty s) = s.
Proof. unfold nilIfEmpty. by case_decide as Hs; [rewrite Hs|]. Qed.

(** The row [CreateRun] inserts for [r]. *)
Lemma run_row_safe r id st uri k :
  safe_run r →
  safe_row (run_row (mkRun id (run_ExperimentID r) (run_Name r)
    (default_to (run_Status r) StatusRunning) st (run_EndTime r) uri
    (default_to (run_LifecycleStage r) LifecycleActive) (run_UserID r) (run_SourceType r)
    (run_SourceName r) k (run_ParentRunID r))).
Proof.
  intros (Hs & Hn & Hl & Hp & He). unfold safe_row, run_row. cbn.
  rewrite nilIfEmpty_coalesce. split_and!; try done; by apply default_to_utf8.
Qed.

Lemma CreateRun_logged newID r w res w' :
  json_safe (w_db w) → safe_run r → CreateRun newID r w = (res, w') → logged w w'.
Proof.
  intros Hsafe Hr Hx. unfold CreateRun in Hx.
  apply bind_exec in Hx as [(start & w1 & Hs & Hx)|(e & Hs & _)]; [|by case_decide].
  assert (w_db w1 = w_db w ∧ (w_tick w ≤ w_tick w1)%nat) as [Hd Ht].
  { clear Hx. unfold time_now, mret, M_ret in Hs. case_decide; injection Hs; intros <- _; simpl; auto. }
  apply (logged_trans w w1); [by apply logged_same|]. rewrite <- Hd in Hsafe. clear Hs Hd Ht.
  cbn [run_ParentRunID] in Hx. case_decide as Hpar.
  - apply bind_exec in Hx as [(u & w2 & Hi & Hx)|(e & Hi & _)].
    + injection Hx as <- <-. apply map_err_exec_Ok in Hi. by eapply insert_run_logged.
    + apply map_err_exec_Err in Hi as (e0 & Hi & _). apply insert_run_err in Hi as ->.
      by apply logged_same.
  - eapply transaction_logged; [|exact Hx|]; [tick_auto|]. intros a -> Hm.
    apply bind_exec_Ok in Hm as (u & w2 & Hi & Hm). apply map_err_exec_Ok in Hi.
    apply bind_exec_Ok in Hm as (u2 & w3 & Hp & Hm). apply map_err_exec_Ok in Hp.
    injection Hm as _ <-. apply (logged_trans w1 w2); [by eapply insert_run_logged|].
    eapply setParent_logged; [|apply Hr|exact Hp].
    pose proof (insert_run_safe (default_to (run_ID r) newID) _ (run_row_safe r (default_to (run_ID r) newID) start
      (default_to (run_ArtifactURI r) ("mlflow-artifacts:/" ++ default_to (run_ID r) newID))
      (default_to (run_Kind r) KindClassic) Hr) w1 Hsafe) as Hp'.
    by rewrite Hi in Hp'.
Qed.
End logged.
