(* ===== verification/Replay.v ===== *)
(** * Time travel is exact

    The operations that may run between the instant asked for and the read,
    as a type [run_op] with its execution, and the refinement theorem:
    [GetRunAsOf] at time [T] returns what [GetRun] and [GetTags] returned at
    [T].  The janitor's bulk archive is treated here too, because it logs for
    many runs at once. *)

From S2P Require Import Prelude GoStrings Model Database Events Runs Sample TimeTravel.

Open Scope Z_scope.

Section archive.
Context `{Clock}.

Lemma archive_one_exec now id w b w' :
  archive_one now id w = (Ok b, w') →
  w_tick w' = w_tick w ∧ events (w_db w') = events (w_db w) ∧
  if b then ∃ r, runs (w_db w) !! id = Some r ∧
      runs (w_db w') = <[id := archive_row now r]> (runs (w_db w)) ∧
      tags (w_db w') = <[(id, archivedTag) := "stale"%string]> (tags (w_db w))
  else w' = w.
Proof.
  unfold archive_one. rewrite get_bind. intros Hx.
  destruct (runs (w_db w) !! id) as [r|] eqn:Hr; [|by injection Hx as <- <-].
  case_decide; [|by injection Hx as <- <-].
  apply bind_exec_Ok in Hx as (n & w1 & Hu & Hx).
  apply update_run_exec in Hu as [(_ & _ & Hn)|(r0 & _ & Hr0 & _ & -> & _)]; [congruence|].
  apply bind_exec_Ok in Hx as (u & w2 & Hu & Hx). apply upsert_tag_exec in Hu as [_ ->].
  injection Hx as <- <-. simpl. split_and!; [done|done|]. exists r0. by rewrite Hr in Hr0.
Qed.

(** What the loop over the stale runs did to the tables. *)
Record archived_to (now : Z) (l : list string) (d d' : DB) : Prop := {
  ar_run_in R : R ∈ l → ∃ r, runs d !! R = Some r ∧ runs d' !! R = Some (archive_row now r);
  ar_run_out R : R ∉ l → runs d' !! R = runs d !! R;
  ar_tag R k : R ∉ l ∨ k ≠ archivedTag → tags d' !! (R, k) = tags d !! (R, k);
  ar_events : events d' = events d
}.

Lemma archive_all_exec now ids w l w' :
  NoDup ids → archive_all now ids w = (Ok l, w') →
  w_tick w' = w_tick w ∧ (l `sublist_of` ids) ∧ archived_to now l (w_db w) (w_db w').
Proof.
  revert w l w'. induction ids as [|id ids IH]; intros w l w' Hnd Hx.
  { injection Hx as <- <-. split_and!; [done|constructor|]. split; try done. by intros R ?%elem_of_nil. }
  apply NoDup_cons in Hnd as [Hid Hnd]. cbn [archive_all] in Hx.
  apply bind_exec_Ok in Hx as (b & w1 & Ho & Hx). apply bind_exec_Ok in Hx as (l' & w2 & Ha & Hx).
  apply IH in Ha as (Ht & Hsub & [Hin Hout Htag Hev]); [|done].
  apply archive_one_exec in Ho as (Ht1 & Hev1 & Hb). injection Hx as <- <-.
  destruct b; [|subst w1; split_and!; [done|by constructor|by split]].
  destruct Hb as (r & Hr & Hruns & Htags).
  assert (id ∉ l') as Hid' by (intros ?; apply Hid; by eapply elem_of_sublist).
  split_and!; [lia|by constructor|]. split.
  - intros R [->|HR]%elem_of_cons.
    + exists r. rewrite Hout, Hruns by done. by rewrite lookup_insert_eq.
    + destruct (Hin R HR) as (r' & Hr' & Hr''). exists r'. split; [|done].
      rewrite Hruns, lookup_insert_ne in Hr' by (intros ->; done). done.
  - intros R [HR1 HR2]%not_elem_of_cons. by rewrite Hout, Hruns, lookup_insert_ne by done.
  - intros R k HRk. rewrite Htag by (rewrite not_elem_of_cons in HRk; tauto).
    rewrite Htags, lookup_insert_ne; [done|]. intros [= <- <-].
    rewrite not_elem_of_cons in HRk. naive_solver.
  - congruence.
Qed.

(** The two events of every archived run. *)
Fixpoint archive_events (d0 : DB) (n : nat) (l : list string) : list EventRow :=
  match l with
  | [] => []
  | id :: l' =>
      match runs d0 !! id with
      | Some r => [event_row (clock n) EventRunUpdate id [("before"%string, JObj (before_payload r))];
                   event_row (clock (S n)) EventTagSet id
                     (tag_payload archivedTag "stale" (tags d0 !! (id, archivedTag)))]
      | None => []
      end ++ archive_events d0 (S (S n)) l'
  end.

Lemma archive_events_exec d0 l w :
  (∀ R, R ∈ l → is_Some (runs d0 !! R)) →
  for_each (archive_event d0) l w =
    (Ok tt, mkWorld (set_events (append_events (archive_events d0 (w_tick w) l)
                       (events (w_db w))) (w_db w)) (w_tick w + 2 * length l)).
Proof.
  revert w. induction l as [|id l IH]; intros w Hl.
  { cbn. destruct w as [[? [] ? ?] ?]. by rewrite Nat.add_0_r. }
  destruct (Hl id) as [r Hr]; [left|]. cbn [for_each].
  erewrite bind_Ok.
  2:{ unfold archive_event. rewrite Hr. cbn [fmap option_fmap option_map write_before].
      erewrite bind_Ok by by apply writeRunEvent_exec. by apply writeRunEvent_exec. }
  rewrite IH by (intros; apply Hl; by right). cbn [archive_events]. rewrite Hr.
  f_equal. cbn -[append_events]. f_equal. lia.
Qed.

Lemma undo_archive_other {A} (undo : A → runEvent → A) d0 n l R x :
  R ∉ l → undo_rows undo (archive_events d0 n l) R x = x.
Proof.
  revert n. induction l as [|id l IH]; intros n; [done|]. rewrite not_elem_of_cons. intros [Hne HR].
  cbn [archive_events]. destruct (runs d0 !! id) as [r|]; cbn [app]; [|auto].
  rewrite !undo_rows_cons, !decide_False by done. auto.
Qed.

Lemma undo_archive_run d0 n l R r run :
  NoDup l → R ∈ l → runs d0 !! R = Some r → safe_row r →
  (∃ now, run = scan_run R (archive_row now r)) →
  undo_rows applyUndo (archive_events d0 n l) R run = scan_run R r.
Proof.
  intros Hnd HR Hr Hs [now ->]. revert n. induction Hnd as [|id l Hid Hnd IH]; intros n; [by apply elem_of_nil in HR|].
  cbn [archive_events]. apply elem_of_cons in HR as [->|HR].
  - rewrite Hr. cbn [app]. rewrite !undo_rows_cons, !decide_True by done.
    rewrite undo_archive_other, undo_run_tag_set, undo_run_update by done.
    done.
  - assert (id ≠ R) by (intros ->; done).
    destruct (runs d0 !! id); cbn [app]; [|by apply IH].
    rewrite !undo_rows_cons, !decide_False by done. by apply IH.
Qed.

Lemma undo_archive_tags d0 n l R m :
  NoDup l → R ∈ l → (∀ R, R ∈ l → is_Some (runs d0 !! R)) → json_safe d0 →
  undo_rows applyTagUndo (archive_events d0 n l) R m =
    partial_alter (λ _, tags d0 !! (R, archivedTag)) archivedTag m.
Proof.
  intros Hnd HR Hl Hs. revert n. induction Hnd as [|id l Hid Hnd IH]; intros n; [by apply elem_of_nil in HR|].
  cbn [archive_events]. apply elem_of_cons in HR as [->|HR].
  - destruct (Hl id) as [r Hr]; [left|]. rewrite Hr. cbn [app].
    rewrite !undo_rows_cons, !decide_True by done.
    rewrite undo_archive_other, undo_tag_other by (done || set_solver).
    apply undo_tag_set; [done|done|]. intros b Hb. by eapply Hs.
  - assert (id ≠ R) by (intros ->; done).
    destruct (runs d0 !! id); cbn [app].
    + rewrite !undo_rows_cons, !decide_False by done. apply IH; [done|]. intros; apply Hl; by right.
    + apply IH; [done|]. intros; apply Hl; by right.
Qed.

Lemma archive_events_ts d0 n l :
  (∀ R, R ∈ l → is_Some (runs d0 !! R)) →
  length (archive_events d0 n l) = (2 * length l)%nat ∧
  evr_ts_ms <$> archive_events d0 n l = clock <$> seq n (2 * length l).
Proof.
  revert n. induction l as [|id l IH]; intros n Hl; [done|].
  destruct (Hl id) as [r Hr]; [left|].
  destruct (IH (S (S n))) as [IH1 IH2]; [intros; apply Hl; by right|].
  replace (2 * length (id :: l))%nat with (S (S (2 * length l))) by (simpl; lia).
  cbn [archive_events]. rewrite Hr. cbn [app length seq]. rewrite !fmap_cons, IH1, IH2. done.
Qed.

#[export] Instance archive_all_tick now l : TickMono (archive_all now l).
Proof. induction l; cbn [archive_all]; [apply _|]. unfold archive_one. tick_auto. Qed.
#[export] Instance archive_event_tick d0 id : TickMono (archive_event d0 id).
Proof. unfold archive_event. tick_auto. Qed.

Lemma ArchiveStaleRuns_tx_logged now ids w r w' :
  json_safe (w_db w) → NoDup ids →
  ArchiveStaleRuns_tx now (w_db w) ids w = (r, w') → logged w w'.
Proof.
  intros Hsafe Hnd Hx. unfold ArchiveStaleRuns_tx in Hx.
  eapply transaction_logged; [|exact Hx|]; [tick_auto|]. intros a -> Hm.
  apply bind_exec_Ok in Hm as (l & w1 & Ha & Hm).
  apply archive_all_exec in Ha as (Ht & Hsub & [Hin Hout Htag Hev]); [|done].
  assert (NoDup l) as Hl by by eapply sublist_NoDup.
  assert (∀ R, R ∈ l → is_Some (runs (w_db w) !! R)) as Hex.
  { intros R (r & Hr & _)%Hin. eauto. }
  erewrite bind_Ok in Hm by by apply archive_events_exec. injection Hm as _ <-.
  destruct (archive_events_ts (w_db w) (w_tick w1) l Hex) as [Hlen Hts].
  exists (archive_events (w_db w) (w_tick w1) l). split.
  - simpl. lia.
  - simpl. by rewrite Hev.
  - apply (ticks_seq _ (w_tick w1)); [by rewrite Hlen|lia|]. simpl. lia.
  - intros R r Hr. simpl. destruct (decide (R ∈ l)) as [HR|HR].
    + destruct (Hin R HR) as (r0 & Hr0 & ->). simplify_eq. eexists. split; [done|].
      eapply undo_archive_run; eauto. by eapply Hsafe.
    + exists r. rewrite Hout by done. split; [done|]. by apply undo_archive_other.
  - intros R _. apply map_eq. intros k. rewrite (tags_view_lookup (w_db w)). simpl.
    destruct (decide (R ∈ l)) as [HR|HR].
    + rewrite undo_archive_tags by done.
      destruct (decide (k = archivedTag)) as [->|Hk]; [by rewrite lookup_partial_alter_eq|].
      rewrite lookup_partial_alter_ne, tags_view_lookup by done. simpl. apply Htag. by right.
    + rewrite undo_archive_other, tags_view_lookup by done. simpl. apply Htag. by left.
Qed.

Lemma ArchiveStaleRuns_logged t w r w' :
  json_safe (w_db w) → ArchiveStaleRuns t w = (r, w') → logged w w'.
Proof.
  intros Hsafe Hx. unfold ArchiveStaleRuns in Hx. rewrite now_bind, get_bind in Hx. simpl in Hx.
  eapply (logged_trans w (mkWorld (w_db w) (S (w_tick w)))); [apply logged_same; simpl; [done|lia]|].
  case_decide; [injection Hx as <- <-; by apply logged_same|].
  eapply ArchiveStaleRuns_tx_logged; [done| |exact Hx].
  apply NoDup_fmap_filter, NoDup_fst_map_to_list.
Qed.
End archive.

(** ** The operations between the instant and the read *)

(** [OpOther g] stands for every method that does not touch the run rows,
    the run tags and the event log (metrics, params, models, ...). *)
Inductive run_op :=
  | OpCreateRun (newID : string) (r : Run)
  | OpUpdateRun (id : string) (status : option string) (endTime : option Z) (name : option string)
  | OpSetRunLifecycle (id stage : string)
  | OpSetTag (id : string) (t : KV)
  | OpSetTags (id : string) (ts : list KV)
  | OpDeleteTag (id key : string)
  | OpArchiveStaleRuns (staleBefore : Z)
  | OpPruneEvents (beforeMs : Z)
  | OpOther (g : DB → DB).

Definition ignore {A} (m : M A) : M unit := _ ← m; mret tt.

Section ops.
Context `{Clock}.

Definition exec_op (o : run_op) : M unit :=
  match o with
  | OpCreateRun newID r => ignore (CreateRun newID r)
  | OpUpdateRun id status endTime name => UpdateRun id status endTime name
  | OpSetRunLifecycle id stage => SetRunLifecycle id stage
  | OpSetTag id t => SetTag id t
  | OpSetTags id ts => SetTags id ts
  | OpDeleteTag id key => DeleteTag id key
  | OpArchiveStaleRuns t => ignore (ArchiveStaleRuns t)
  | OpPruneEvents t => ignore (PruneEventsBefore t)
  | OpOther g => modify g
  end.

(** Requests one after the other; a failed request does not stop the next. *)
Definition exec_ops (ops : list run_op) (w : World) : World :=
  foldl (λ w o, (exec_op o w).2) w ops.

(** The arguments survive JSON, and retention keeps the events after [T]. *)
Definition op_ok (T : Z) (o : run_op) : Prop :=
  match o with
  | OpCreateRun _ r => safe_run r
  | OpUpdateRun _ _ endTime name =>
      (∀ t, endTime = Some t → float64_exact t) ∧ (∀ n, name = Some n → valid_utf8 n)
  | OpSetTag _ t => safe_tag (kv_Key t) (kv_Value t)
  | OpSetTags _ ts => safe_tags ts
  | OpPruneEvents t => t ≤ T + 1
  | OpOther g => ∀ d, runs (g d) = runs d ∧ tags (g d) = tags d ∧ events (g d) = events d
  | _ => True
  end.

Definition is_prune (o : run_op) : bool := match o with OpPruneEvents _ => true | _ => false end.

Lemma ignore_snd {A} (m : M A) w : (ignore m w).2 = (m w).2.
Proof. unfold ignore, mbind, M_bind. by destruct (m w) as [[?|?] ?]. Qed.

Lemma exec_op_logged T o w :
  is_prune o = false → op_ok T o → json_safe (w_db w) → logged w (exec_op o w).2.
Proof.
  intros Hp Ho Hs. destruct o; cbn [exec_op op_ok] in *; try done; rewrite ?ignore_snd;
    match goal with |- logged _ (?m w).2 => destruct (m w) as [r0 w'] eqn:E end; simpl.
  - by eapply CreateRun_logged.
  - by eapply UpdateRun_logged.
  - by eapply SetRunLifecycle_logged.
  - by eapply SetTag_logged.
  - by eapply SetTags_logged.
  - by eapply DeleteTag_logged.
  - by eapply ArchiveStaleRuns_logged.
  - unfold modify in E. injection E as <- <-. destruct (Ho (w_db w)) as (? & ? & ?).
    by apply logged_frame.
Qed.

(** ** Every operation keeps the values JSON-safe *)

Context `{!ClockOk}.

Lemma status_utf8 s : check_status s = true → valid_utf8 s.
Proof.
  intros Hs%bool_decide_eq_true. rewrite !elem_of_cons, elem_of_nil in Hs.
  destruct Hs as [->|[->|[->|[->|[->|[]]]]]]; reflexivity.
Qed.
Lemma lifecycle_utf8 s : check_lifecycle s = true → valid_utf8 s.
Proof.
  intros Hs%bool_decide_eq_true. rewrite !elem_of_cons, elem_of_nil in Hs.
  destruct Hs as [->|[->|[]]]; reflexivity.
Qed.

Lemma CreateRun_safe newID r : safe_run r → Preserves json_safe (CreateRun newID r).
Proof.
  intros Hr. unfold CreateRun.
  assert (∀ start, Preserves json_safe (insert_run (default_to (run_ID r) newID)
    (run_row (mkRun (default_to (run_ID r) newID) (run_ExperimentID r) (run_Name r)
      (default_to (run_Status r) StatusRunning) start (run_EndTime r)
      (default_to (run_ArtifactURI r) ("mlflow-artifacts:/" ++ default_to (run_ID r) newID))
      (default_to (run_LifecycleStage r) LifecycleActive) (run_UserID r) (run_SourceType r)
      (run_SourceName r) (default_to (run_Kind r) KindClassic) (run_ParentRunID r))))).
  { intros start. by apply insert_run_safe, run_row_safe. }
  pose proof (λ R, setParent_safe R (run_ParentRunID r) (proj1 (proj2 (proj2 (proj2 Hr))))).
  pres_auto.
Qed.

Lemma UpdateRun_safe id status endTime name :
  (∀ t, endTime = Some t → float64_exact t) → (∀ n, name = Some n → valid_utf8 n) →
  Preserves json_safe (UpdateRun id status endTime name).
Proof.
  intros He Hn w Hw. unfold UpdateRun, guard_err.
  destruct (match status with Some s => negb (check_status s) | None => false end) eqn:Hst; [done|].
  rewrite lift_Ok_bind. revert w Hw. change (Preserves json_safe
    (if decide (status = None ∧ endTime = None ∧ name = None) then mret tt else
     captureRunBefore id ≫= UpdateRun_tx id (update_cols status endTime name) EventRunUpdate)).
  assert (∀ r, safe_row r → safe_row (update_cols status endTime name r)) as Hf.
  { intros r (Hs1 & Hs2 & Hs3 & Hs4 & Hs5).
    destruct status as [s|], endTime as [t|], name as [n|]; unfold safe_row; simpl;
      split_and!; auto; apply status_utf8; by destruct (check_status s). }
  pose proof (λ k b, UpdateRun_tx_safe id _ k b Hf). pres_auto.
Qed.

Lemma SetRunLifecycle_safe id stage : Preserves json_safe (SetRunLifecycle id stage).
Proof.
  intros w Hw. unfold SetRunLifecycle, guard_err.
  destruct (check_lifecycle stage) eqn:Hst; cbn [negb]; [|done].
  rewrite lift_Ok_bind. revert w Hw. change (Preserves json_safe
    (captureRunBefore id ≫= UpdateRun_tx id (with_lifecycle stage) EventRunLifecycle)).
  assert (∀ r, safe_row r → safe_row (with_lifecycle stage r)) as Hf.
  { intros r (Hs1 & Hs2 & Hs3 & Hs4 & Hs5). split_and!; simpl; auto. by apply lifecycle_utf8. }
  pose proof (λ k b, UpdateRun_tx_safe id _ k b Hf). pres_auto.
Qed.

Lemma SetTag_safe R t : safe_tag (kv_Key t) (kv_Value t) → Preserves json_safe (SetTag R t).
Proof.
  intros Ht. unfold SetTag. pose proof (upsert_tag_safe R _ _ Ht).
  pose proof (syncParent_safe R _ (proj2 (proj2 Ht))). unfold assertRunExists. pres_auto.
Qed.

Lemma last_parent_utf8 ts p : safe_tags ts → valid_utf8 p → valid_utf8 (last_parent ts p).
Proof.
  intros Hts. revert p. induction Hts as [|t ts (_ & _ & Hv) Hts IH]; intros p Hp; [done|].
  cbn [last_parent]. apply IH. by case_decide.
Qed.

Lemma SetTags_safe R ts : safe_tags ts → Preserves json_safe (SetTags R ts).
Proof.
  intros Hts. unfold SetTags.
  assert (Preserves json_safe (for_each (λ t, lift (invalidValue (ValidKey (kv_Key t))) ≫= λ _,
            upsert_tag R (kv_Key t) (kv_Value t)) ts)).
  { apply for_each_pres. intros t Ht. unfold safe_tags in Hts. rewrite Forall_forall in Hts.
    pose proof (upsert_tag_safe R _ _ (Hts t Ht)). pres_auto. }
  assert (∀ before, Preserves json_safe (for_each (λ t, writeRunEvent EventTagSet R
            (tag_payload (kv_Key t) (kv_Value t) (before (kv_Key t)))) ts)) as Hev.
  { intros before. apply for_each_pres. apply _. }
  pose proof (syncParent_safe R (last_parent ts EmptyString) (last_parent_utf8 ts EmptyString Hts eq_refl)).
  apply bind_pres; [unfold assertRunExists; pres_auto|]. intros _.
  apply bind_pres; [apply _|]. intros d. apply transaction_pres, bind_pres; [done|]. intros _.
  apply bind_pres; [apply (Hev (λ k, tags d !! (R, k)))|]. intros _. by apply when_pres, map_err_pres.
Qed.

Lemma DeleteTag_safe R k : Preserves json_safe (DeleteTag R k).
Proof.
  unfold DeleteTag. apply bind_pres; [apply _|]. intros before. apply transaction_pres, get_bind_pres.
  intros [d n] Hd. simpl. case_decide; [done|]. autorewrite with exec. simpl.
  assert (json_safe (set_tags (delete (R, k) (tags d)) d)) as Hd'.
  { destruct Hd as [Hr Ht]. split; simpl; [done|]. intros R' k' v.
    rewrite lookup_delete_Some. intros [_ ?]. eauto. }
  destruct before; [|done]. by apply writeRunEvent_safe.
Qed.

Lemma archive_row_safe now r : float64_exact now → safe_row r → safe_row (archive_row now r).
Proof. intros Hn (? & ? & ? & ? & ?). split_and!; simpl; try done. Qed.

Lemma archive_all_safe now l :
  float64_exact now → Preserves json_safe (archive_all now l).
Proof.
  intros Hn. induction l as [|id l IH]; cbn [archive_all]; [apply _|]. unfold archive_one.
  pose proof (update_run_safe id (archive_row now) (λ r, archive_row_safe now r Hn)).
  assert (Preserves json_safe (upsert_tag id archivedTag "stale")).
  { apply upsert_tag_safe. by split_and!. }
  pres_auto.
Qed.

Lemma ArchiveStaleRuns_safe t : Preserves json_safe (ArchiveStaleRuns t).
Proof.
  intros w Hw. unfold ArchiveStaleRuns. rewrite now_bind.
  match goal with |- json_safe (w_db (?m ?w').2) => enough (Preserves json_safe m) as Hm by by apply Hm end.
  unfold ArchiveStaleRuns_tx.
  pose proof (λ l, archive_all_safe (clock (w_tick w)) l (clock_exact _)).
  assert (∀ d0 l, Preserves json_safe (for_each (archive_event d0) l)).
  { intros d0 l. apply for_each_pres. intros id _. unfold archive_event. pres_auto. }
  pres_auto.
Qed.

Lemma exec_op_safe T o w : op_ok T o → json_safe (w_db w) → json_safe (w_db (exec_op o w).2).
Proof.
  intros Ho Hs. destruct o; cbn [exec_op op_ok] in *; rewrite ?ignore_snd.
  - by apply CreateRun_safe.
  - by apply UpdateRun_safe; [apply Ho..|].
  - by apply SetRunLifecycle_safe.
  - by apply SetTag_safe.
  - by apply SetTags_safe.
  - by apply DeleteTag_safe.
  - by apply ArchiveStaleRuns_safe.
  - done.
  - destruct (Ho (w_db w)) as (Hr & Ht & _). unfold json_safe in *. simpl. by rewrite Hr, Ht.
Qed.
End ops.

(** ** The refinement *)

Section replay.
Context `{ClockOk}.

(** Well-formed ids, and no event from the future. *)
Definition log_ok (w : World) : Prop :=
  serial_wf (events (w_db w)) ∧
  (∀ id e, rows (events (w_db w)) !! id = Some e → evr_ts_ms e ≤ clock (w_tick w)).

Lemma elem_of_append_rows evs t id e :
  serial_wf t → rows (append_events evs t) !! id = Some e → rows t !! id = Some e ∨ e ∈ evs.
Proof.
  intros Hwf He. apply elem_of_map_to_list in He. rewrite map_to_list_append in He by done.
  apply elem_of_app in He as [He|He]; [left; by apply elem_of_map_to_list|].
  apply elem_of_index_from in He as [_ ?]. by right.
Qed.

(** The times of logged events lie between the ticks of the execution. *)
Lemma logged_ts evs w w' e :
  logged_by evs w w' → e ∈ evs → clock (w_tick w) ≤ evr_ts_ms e ≤ clock (w_tick w').
Proof.
  intros [_ _ (ks & _ & Hk & Hb) _ _] He.
  apply (list_elem_of_fmap_2 evr_ts_ms) in He. rewrite Hk in He.
  apply list_elem_of_fmap in He as (k & -> & Hin%Hb). split; apply clock_mono; lia.
Qed.

Lemma logged_ts_sorted evs w w' : logged_by evs w w' → ts_sorted evs.
Proof.
  intros [_ _ (ks & Hs & Hk & _) _ _]. clear -Hs Hk H0. revert ks Hs Hk.
  induction evs as [|e evs IH]; intros [|k ks] Hs Hk; try done; [constructor|].
  apply StronglySorted_inv in Hs as [Hs Hf]. 
  assert (evr_ts_ms e = clock k) as Hk1 by by injection Hk.
  assert (evr_ts_ms <$> evs = clock <$> ks) as Hk2 by by injection Hk. constructor; [by eapply IH|].
  apply Forall_forall. intros e' He'. apply (list_elem_of_fmap_2 evr_ts_ms) in He'.
  rewrite Hk2 in He'. apply list_elem_of_fmap in He' as (k' & -> & Hk').
  rewrite Forall_forall in Hf. rewrite Hk1. apply clock_mono. specialize (Hf k' Hk'). lia.
Qed.

Lemma log_ok_logged evs w w' : logged_by evs w w' → log_ok w → log_ok w'.
Proof.
  intros Hl [Hwf Hts]. pose proof Hl as [Ht He _ _ _]. split.
  - rewrite He. by apply append_events_wf.
  - intros id e. rewrite He. intros [He'|He']%elem_of_append_rows; [| |done].
    + apply Hts in He'. pose proof (clock_mono _ _ Ht). lia.
    + by eapply logged_ts in He' as [_ ?].
Qed.

(** [w] is a later state of [w0]: its log splits at [T], and undoing the
    second half gives back the run [R] of [w0]. *)
Record rewinds (T : Z) (R : string) (w0 w : World) (r0 : RunRow) : Prop := {
  rw_ok : log_ok w;
  rw_tick : (w_tick w0 ≤ w_tick w)%nat;
  rw_safe : json_safe (w_db w);
  rw_log : ∃ pre post, event_rows (w_db w) R = pre ++ post ∧
    Forall (λ p, evr_ts_ms p.2 ≤ T) pre ∧ Forall (λ p, T < evr_ts_ms p.2) post ∧
    (∃ r, runs (w_db w) !! R = Some r ∧
          undo_all applyUndo (event_of <$> post) (scan_run R r) = scan_run R r0) ∧
    undo_all applyTagUndo (event_of <$> post) (tags_view (w_db w) R) = tags_view (w_db w0) R
}.

Lemma undo_all_app {A} (undo : A → runEvent → A) l1 l2 x :
  undo_all undo (l1 ++ l2) x = undo_all undo l1 (undo_all undo l2 x).
Proof. apply foldr_app. Qed.

Lemma rewinds_logged T R w0 w w' r0 :
  T < clock (w_tick w0) → json_safe (w_db w') →
  logged w w' → rewinds T R w0 w r0 → rewinds T R w0 w' r0.
Proof.
  intros HT Hsafe [evs Hl] [[Hwf Hts] Htick _ (pre & post & Hsplit & Hpre & Hpost & (r & Hr & Hur) & Hut)].
  pose proof Hl as [Ht He _ Hrun Htag]. split; [by eapply log_ok_logged| lia|done|].
  assert (event_rows (w_db w') R = event_rows (w_db w) R ++
    filter (λ p, evr_entity_id p.2 = R) (index_from (seq_no (events (w_db w)) + 1) evs)) as Hrows.
  { apply event_rows_append; [done|done|by eapply logged_ts_sorted|].
    intros id e e' He1 He2. apply Hts in He1. eapply logged_ts in He2 as [? _]; [|done]. lia. }
  rewrite Hsplit, <- app_assoc in Hrows. eexists _, _. split; [exact Hrows|]. split_and!; [done| | |].
  - apply Forall_app. split; [done|]. apply Forall_forall.
    intros p [_ Hp]%list_elem_of_filter. apply elem_of_index_from in Hp as [_ Hp].
    eapply logged_ts in Hp as [Hp _]; [|done]. pose proof (clock_mono _ _ Htick). lia.
  - destruct (Hrun R r Hr) as (r' & Hr' & Hu). exists r'. split; [done|].
    rewrite fmap_app, undo_all_app, undo_all_index by done. by rewrite Hu.
  - rewrite fmap_app, undo_all_app, undo_all_index by done. rewrite Htag by eauto. done.
Qed.

(** Retention removes a part of the first half only. *)
Lemma event_rows_prune t w R :
  event_rows (w_db (PruneEventsBefore t w).2) R =
    filter (λ p, ¬ evr_ts_ms p.2 < t) (event_rows (w_db w) R).
Proof.
  apply (StronglySorted_lt_unique event_key).
  - apply event_rows_sorted.
  - apply StronglySorted_filter, event_rows_sorted.
  - apply NoDup_Permutation.
    + eapply (StronglySorted_lt_NoDup event_key), event_rows_sorted.
    + eapply NoDup_filter, (StronglySorted_lt_NoDup event_key), event_rows_sorted.
    + intros [id e]. rewrite list_elem_of_filter, !elem_of_event_rows. simpl.
      rewrite map_lookup_filter_Some. tauto.
Qed.

Lemma rewinds_prune T R w0 w r0 t :
  t ≤ T + 1 → rewinds T R w0 w r0 → rewinds T R w0 (PruneEventsBefore t w).2 r0.
Proof.
  intros Ht [[Hwf Hts] Htick Hsafe (pre & post & Hsplit & Hpre & Hpost & Hrun & Htag)].
  split; [split|done|done|].
  - by apply serial_wf_filter.
  - intros id e. simpl. rewrite map_lookup_filter_Some. intros [? _]. eauto.
  - rewrite event_rows_prune, Hsplit, filter_app, (filter_all _ post).
    + eexists _, post. split; [done|]. split_and!; [|done..].
      rewrite Forall_forall in Hpre |- *. intros p [_ Hp]%list_elem_of_filter. by apply Hpre.
    + rewrite Forall_forall in Hpost. intros p Hp%Hpost. lia.
Qed.

Lemma rewinds_op T R w0 w r0 o :
  T < clock (w_tick w0) → op_ok T o →
  rewinds T R w0 w r0 → rewinds T R w0 (exec_op o w).2 r0.
Proof.
  intros HT Ho Hrw. pose proof (rw_safe _ _ _ _ _ Hrw) as Hs.
  destruct (is_prune o) eqn:Hp.
  - destruct o; try done. cbn [exec_op]. rewrite ignore_snd. by apply rewinds_prune.
  - eapply rewinds_logged; [done|by eapply exec_op_safe|by eapply exec_op_logged|done].
Qed.

Lemma rewinds_ops T R w0 r0 ops w :
  T < clock (w_tick w0) → Forall (op_ok T) ops →
  rewinds T R w0 w r0 → rewinds T R w0 (exec_ops ops w) r0.
Proof.
  intros HT Hops. revert w. induction Hops as [|o ops Ho Hops IH]; intros w Hrw; [done|].
  cbn. apply IH. by apply rewinds_op.
Qed.

(** Undo never touches the creation time. *)
Lemma undo_all_start l run : run_StartTime (undo_all applyUndo l run) = run_StartTime run.
Proof.
  induction l as [|e l IH]; [done|]. cbn. rewrite <- IH. unfold applyUndo.
  destruct (as_object _); [|done]. by repeat case_match.
Qed.

Lemma filter_newer T (pre post : list (Z * EventRow)) :
  Forall (λ p, evr_ts_ms p.2 ≤ T) pre → Forall (λ p, T < evr_ts_ms p.2) post →
  filter (λ e, T < ev_TsMs e) (event_of <$> pre ++ post) = event_of <$> post.
Proof.
  rewrite !Forall_forall. intros Hpre Hpost. rewrite fmap_app, filter_app.
  rewrite filter_none, filter_all; [done| |];
    intros e (p & -> & Hp)%list_elem_of_fmap; simpl; [by apply Hpost|].
  apply Hpre in Hp. lia.
Qed.

(** A read of a state that rewinds to [w0] returns the run of [w0]. *)
Lemma rewinds_read T R w0 w r0 :
  rewinds T R w0 w r0 → rr_start_time r0 ≤ T →
  (length (run_events (w_db w) R) ≤ MaxEventsPerReplay)%nat →
  (GetRunAsOf R T w).1 = Ok (scan_run R r0, sort_by kv_Key (tag_rows (w_db w0) R)).
Proof.
  intros [_ _ _ (pre & post & Hsplit & Hpre & Hpost & (r & Hr & Hur) & Hut)] Hst Hlen.
  unfold GetRunAsOf, getRunAsOfImpl. rewrite decide_True by done.
  unfold GetRun. autorewrite with exec. rewrite Hr. cbn [fmap option_fmap option_map of_option].
  rewrite lift_Ok_bind. rewrite decide_False.
  2:{ rewrite <- (undo_all_start (event_of <$> post)), Hur. simpl. lia. }
  rewrite get_bind, take_ge by lia. rewrite decide_False by lia.
  unfold GetTags. autorewrite with exec. unfold run_events. rewrite Hsplit, filter_newer by done.
  rewrite Hur. unfold mret, M_ret. cbn [fst]. do 2 f_equal.
  change (tag_map _) with (tags_view (w_db w) R). rewrite Hut. apply tag_list_view.
Qed.
End replay.

(** C1: time travel is exact.  Let [w0] be the state at an instant after every
    event up to [T] and before the next reading of the clock, and let any
    sequence of operations run from there (failed ones included, retention
    not reaching past [T]).  [GetRunAsOf] at [T] then returns exactly what
    [GetRun] and [GetTags] returned in [w0]. *)
Theorem GetRunAsOf_exact `{ClockOk} w0 ops R T run kvs :
  log_ok w0 → json_safe (w_db w0) → Forall (op_ok T) ops →
  (∀ id e, rows (events (w_db w0)) !! id = Some e → evr_ts_ms e ≤ T) →
  T < clock (w_tick w0) →
  (GetRun R w0).1 = Ok run → (GetTags R w0).1 = Ok kvs → run_StartTime run ≤ T →
  (length (run_events (w_db (exec_ops ops w0)) R) ≤ MaxEventsPerReplay)%nat →
  (GetRunAsOf R T (exec_ops ops w0)).1 = Ok (run, kvs).
Proof.
  intros Hlog Hsafe Hops Hev HT Hrun Htags Hst Hlen.
  unfold GetRun in Hrun. rewrite get_bind in Hrun. unfold lift in Hrun. simpl in Hrun.
  destruct (runs (w_db w0) !! R) as [r0|] eqn:Hr; [|done]. injection Hrun as <-. injection Htags as <-.
  apply rewinds_read; [|done|done]. apply rewinds_ops; [done|done|].
  split; [done|done|done|]. exists (event_rows (w_db w0) R), [].
  rewrite app_nil_r. split_and!; [done| |constructor|by exists r0|done].
  apply Forall_forall. intros p [_ Hp]%elem_of_event_rows. by eapply Hev.
Qed.

(** The workspace-scoped read is the plain read behind one check: a run
    of another workspace and a missing run give the same [ErrNotFound], and
    a run of the workspace reads the same history as [GetRunAsOf]. *)
Theorem GetRunAsOfInWorkspace_scoped R ws T w :
  (GetRunAsOfInWorkspace R ws T w).1 =
    if is_ok (GetRunInWorkspace R ws w).1 then (GetRunAsOf R T w).1 else Err ErrNotFound.
Proof.
  unfold GetRunAsOfInWorkspace, GetRunAsOf, GetRunInWorkspace, getRunAsOfImpl.
  assert (default_ws ws ≠ EmptyString) as Hne by (unfold default_ws; by case_decide).
  rewrite (decide_False (P:=default_ws ws = EmptyString)), (decide_True (P:="" = "")) by done.
  assert ((getRunInWorkspace R (default_ws ws) w = GetRun R w ∧
           is_ok (getRunInWorkspace R (default_ws ws) w).1 = true) ∨
          getRunInWorkspace R (default_ws ws) w = (Err ErrNotFound, w)) as [[E1 E2]|E].
  - unfold getRunInWorkspace, GetRun. rewrite !get_bind. unfold lift.
    destruct (runs (w_db w) !! R) as [r|]; simpl; [|by right].
    destruct (rows _ !! _) as [e|]; simpl; [|by right]. case_decide; auto.
  - rewrite E2. unfold mbind, M_bind. by rewrite E1.
  - rewrite E. unfold mbind, M_bind. by rewrite E.
Qed.

(** A concrete run of the theorem: a run that is renamed, finished, retagged
    and deleted after [T = 1010], with the janitor and retention running. *)
Module Example1.
Definition ex_w0 : World := mkWorld ex_db 2.

Definition ex_ops : list run_op :=
  [OpSetTag "r1" (mkKV "a" "2"); OpDeleteTag "r1" "a"; OpDeleteTag "r1" "zzz";
   OpUpdateRun "r1" None (Some 1025) (Some "second"%string);
   OpSetTags "r1" [mkKV "b" "3"; mkKV "b" "4"]; OpArchiveStaleRuns 900; OpPruneEvents 1005;
   OpSetRunLifecycle "r1" LifecycleDeleted].

Lemma ex_safe : json_safe ex_db.
Proof.
  split.
  - intros R r. simpl. rewrite lookup_singleton_Some. intros [_ <-]. by repeat split.
  - intros R k v. simpl. rewrite lookup_singleton_Some. intros [[= <- <-] <-]. by repeat split.
Qed.

Lemma ex_ops_ok : Forall (op_ok 1010) ex_ops.
Proof.
  repeat apply Forall_cons_2; try apply Forall_nil_2; simpl; try done.
  split; intros ? [= <-]; done.
Qed.

Lemma GetRunAsOf_exact_witness :
  (GetRunAsOf "r1" 1010 (exec_ops ex_ops ex_w0)).1 = Ok (scan_run "r1" ex_run, [mkKV "a" "1"]) ∧
  (GetRun "r1" (exec_ops ex_ops ex_w0)).1 ≠ Ok (scan_run "r1" ex_run).
Proof.
  split.
  - apply (GetRunAsOf_exact ex_w0 ex_ops "r1" 1010).
    + split; [apply serial_wf_empty|]. intros id e. simpl. rewrite lookup_empty. done.
    + apply ex_safe.
    + apply ex_ops_ok.
    + intros id e. simpl. rewrite lookup_empty. done.
    + vm_compute. reflexivity.
    + vm_compute. reflexivity.
    + vm_compute. reflexivity.
    + vm_compute. discriminate.
    + apply Nat.leb_le. vm_compute. reflexivity.
  - vm_compute. discriminate.
Defined.

(** Two [UpdateRun] requests whose pre-state reads both come before the first
    transaction: the second event then records the state before the first
    update, and the state between the two updates is lost to [GetRunAsOf]
    (the run was FINISHED at 1025, the read says RUNNING). *)
Definition ex_race : World :=
  let before := Some (before_payload ex_run) in
  let w1 := (UpdateRun_tx "r1" (update_cols (Some StatusFinished) None None) EventRunUpdate before ex_w0).2 in
  (UpdateRun_tx "r1" (update_cols None None (Some "second"%string)) EventRunUpdate before w1).2.

Definition ex_between : World :=
  (UpdateRun "r1" (Some StatusFinished) None None ex_w0).2.

Theorem interleaved_updates_lose_history :
  (captureRunBefore "r1" ex_w0).1 = Ok (Some (before_payload ex_run)) ∧
  run_Status <$> (GetRun "r1" ex_between).1 = Ok StatusFinished ∧
  run_Status ∘ fst <$> (GetRunAsOf "r1" 1025 ex_race).1 = Ok StatusRunning.
Proof. vm_compute. auto. Qed.
End Example1.
