(* ===== verification/MlflowApi.v ===== *)
(** * The MLflow REST handlers (internal/api/mlflow/handlers.go, dto.go)

    Each handler is a function of the workspace the middleware resolved
    ([currentWorkspace]), of the decoded JSON body ([None] when it does not
    decode) and of the query string, into a computation of the store that ends
    in a reply: status and error code, the body of a success, and the events
    handed to the webhook dispatcher. *)

From S2P Require Import Prelude GoStrings Model Database Keyset Filter Runs Sample RunData Downsample.
From S2P Require Import Experiments Inputs Search TimeTravel.

Open Scope Z_scope.

(** ** Replies *)

(** A call of [Dispatcher.Notify]: workspace, event and run. *)
Record Notification := mkNotification { nt_Workspace : string; nt_Event : string; nt_Run : Run }.

Record Reply (A : Type) := mkReply {
  rp_Status : Z; rp_Code : string; rp_Body : option A; rp_Notify : list Notification }.
Arguments mkReply {A}.
Arguments rp_Status {A}.
Arguments rp_Code {A}.
Arguments rp_Body {A}.
Arguments rp_Notify {A}.

Definition reply_error {A} (status : Z) (code : string) : Reply A := mkReply status code None [].
Definition invalid_parameter {A} : M (Reply A) := mret (reply_error 400 "INVALID_PARAMETER_VALUE").

(** Whether [json.Marshal] succeeds: it fails on NaN and infinities. *)
Class Marshal (A : Type) := marshals : A → bool.
#[export] Instance marshal_string : Marshal string := λ _, true.
#[export] Instance marshal_unit : Marshal unit := λ _, true.
#[export] Instance marshal_int : Marshal Z := λ _, true.
#[export] Instance marshal_token : Marshal PageToken := λ _, true.
#[export] Instance marshal_metric : Marshal Metric := λ m, is_finite (metric_Value m).
#[export] Instance marshal_list `{Marshal A} : Marshal (list A) := forallb marshals.
#[export] Instance marshal_option `{Marshal A} : Marshal (option A) := λ o, match o with Some a => marshals a | None => true end.
#[export] Instance marshal_pair `{Marshal A, Marshal B} : Marshal (A * B) := λ p, marshals p.1 && marshals p.2.

Definition writeJSON_notify `{Marshal A} (a : A) (ns : list Notification) : M (Reply A) :=
  mret (if marshals a then mkReply 200 "" (Some a) ns else mkReply 500 "INTERNAL_ERROR" None ns).
Definition writeJSON `{Marshal A} (a : A) : M (Reply A) := writeJSON_notify a [].

Definition writeStoreErr {A} (e : err) : Reply A :=
  match e with
  | ErrNotFound => reply_error 404 "RESOURCE_DOES_NOT_EXIST"
  | ErrAlreadyExists => reply_error 400 "RESOURCE_ALREADY_EXISTS"
  | ErrConflict => reply_error 409 "RESOURCE_CONFLICT"
  | ErrInvalidFilter | ErrInvalidStage | ErrInvalidValue => reply_error 400 "INVALID_PARAMETER_VALUE"
  | _ => reply_error 500 "INTERNAL_ERROR"
  end.

(** [x, err := m; if err != nil { writeStoreErr(w, err); return }; k x].  A
    panic in [m] is turned into a 500 by the recovery middleware, like the
    errors with no case above. *)
Definition on_store {A B} (m : M A) (k : A → M (Reply B)) : M (Reply B) := λ w,
  match m w with
  | (Ok a, w') => k a w'
  | (Err e, w') => (Ok (writeStoreErr e), w')
  end.
Notation "'let!' x := m 'in' k" := (on_store m (λ x, k)) (at level 200, x pattern, m at level 200, k at level 200).

(** [if err := decodeJSON(r, &req); err != nil { writeBadRequest; return }]. *)
Definition with_body {A B} (body : option A) (k : A → M (Reply B)) : M (Reply B) :=
  match body with None => invalid_parameter | Some req => k req end.

(** [n, err := strconv.ParseInt(s, 10, 64)] with a 400 on error. *)
Definition with_int {B} (s : string) (k : Z → M (Reply B)) : M (Reply B) :=
  match ParseInt s with None => invalid_parameter | Some n => k n end.

Definition require {B} (b : bool) (k : M (Reply B)) : M (Reply B) := if b then k else invalid_parameter.
Definition nonempty (s : string) : bool := bool_decide (s ≠ EmptyString).

(** [r.URL.Query().Get]. *)
Definition Query : Type := string → string.

(** [if id == "" { id = alternative }]. *)
Definition or_else (s alternative : string) : string := if decide (s = EmptyString) then alternative else s.

(** ** Wire shapes

    A DTO with the fields of a model struct is that struct ([metricDTO],
    [paramDTO], [kvTagDTO], [datasetDTO]). *)

Record experimentDTO := mkExperimentDTO {
  ed_ExperimentID : string; ed_Name : string; ed_ArtifactLocation : string; ed_LifecycleStage : string;
  ed_CreationTime : Z; ed_LastUpdateTime : Z; ed_Tags : list KV }.

Definition experimentToDTO (e : Experiment) : experimentDTO :=
  mkExperimentDTO (FormatInt (exp_ID e)) (exp_Name e) (exp_ArtifactLocation e) (exp_LifecycleStage e)
    (exp_CreationTime e) (exp_LastUpdateTime e) (exp_Tags e).

Record runInfoDTO := mkRunInfoDTO {
  ri_RunID : string; ri_RunUUID : string; ri_RunName : string; ri_ExperimentID : string; ri_UserID : string;
  ri_Status : string; ri_StartTime : Z; ri_EndTime : Z; ri_ArtifactURI : string; ri_LifecycleStage : string }.

Definition runInfoToDTO (r : Run) : runInfoDTO :=
  mkRunInfoDTO (run_ID r) (run_ID r) (run_Name r) (FormatInt (run_ExperimentID r)) (run_UserID r) (run_Status r)
    (run_StartTime r) (default 0 (run_EndTime r)) (run_ArtifactURI r) (run_LifecycleStage r).

Record runDataDTO := mkRunDataDTO { rd_Metrics : list Metric; rd_Params : list Param; rd_Tags : list KV }.

(** [Inputs] is nil when there are none. *)
Record runDTO := mkRunDTO { rn_Info : runInfoDTO; rn_Data : runDataDTO; rn_Inputs : option (list DatasetInput) }.

Definition datasetInputsToDTO (l : list DatasetInput) : option (list DatasetInput) :=
  if decide (l = []) then None else Some l.

#[export] Instance marshal_experiment : Marshal experimentDTO := λ _, true.
#[export] Instance marshal_run_info : Marshal runInfoDTO := λ _, true.
#[export] Instance marshal_run : Marshal runDTO := λ r, marshals (rd_Metrics (rn_Data r)).

(** ** Scoping to the workspace *)

Definition ensureRunInWorkspace (ws runID : string) : M unit := _ ← GetRunInWorkspace runID ws; mret tt.

Definition getExperimentInWorkspace (ws : string) (id : Z) : M Experiment :=
  e ← GetExperiment id;
  if decide (default_ws (exp_WorkspaceID e) = ws) then mret e else fail ErrNotFound.

(** ** Experiments *)

Record createExperimentReq := mkCreateExperimentReq {
  ce_Name : string; ce_ArtifactLocation : string; ce_Tags : list KV }.

Definition Handler_CreateExperiment `{Clock} (ws : string) (body : option createExperimentReq) : M (Reply string) :=
  with_body body (λ req,
    require (nonempty (ce_Name req)) (
      let! id := CreateExperiment (mkExperiment 0 (ce_Name req) (ce_ArtifactLocation req) "" 0 0 ws (ce_Tags req)) in
      writeJSON (FormatInt id))).

Definition Handler_GetExperiment (ws : string) (q : Query) : M (Reply experimentDTO) :=
  with_int (q "experiment_id"%string) (λ id,
    let! e := getExperimentInWorkspace ws id in
    writeJSON (experimentToDTO e)).

Definition Handler_GetExperimentByName (ws : string) (q : Query) : M (Reply experimentDTO) :=
  let name := q "experiment_name"%string in
  require (nonempty name) (
    let! e := GetExperimentByNameInWorkspace ws name in
    writeJSON (experimentToDTO e)).

Definition mapViewType (v : string) : string :=
  let u := ToUpper v in
  if decide (u = "DELETED_ONLY"%string) then LifecycleDeleted
  else if decide (u = "ALL"%string) then "all" else LifecycleActive.

Record searchExperimentsReq := mkSearchExperimentsReq {
  se_MaxResults : Z; se_PageToken : PageToken; se_Filter : string; se_ViewType : string }.

(** A decode error is ignored: [req] is what was decoded.  [qtok] is the
    decoded [page_token] of the query string. *)
Definition Handler_SearchExperiments (like : string → string → bool) (ws : string) (req : searchExperimentsReq)
    (q : Query) (qtok : PageToken) : M (Reply (list experimentDTO * PageToken)) :=
  let maxResults := if decide (se_MaxResults req = 0) then default 0 (ParseInt (q "max_results"%string))
                    else se_MaxResults req in
  let filter := or_else (se_Filter req) (q "filter"%string) in
  let viewType := or_else (se_ViewType req) (q "view_type"%string) in
  let token := match se_PageToken req with NoToken => qtok | t => t end in
  let! res := SearchExperiments like (mkSearchOptions [] (mapViewType viewType) filter [] maxResults token ws) in
  writeJSON (experimentToDTO <$> res.1, res.2).

(** The common part of delete, restore, update and set-experiment-tag. *)
Definition with_experiment {B} (ws id : string) (k : Z → M (Reply B)) : M (Reply B) :=
  with_int id (λ n, let! _ := getExperimentInWorkspace ws n in k n).

Definition Handler_DeleteExperiment `{Clock} (ws : string) (body : option string) : M (Reply unit) :=
  with_body body (λ id, with_experiment ws id (λ n,
    let! _ := SetExperimentLifecycle n LifecycleDeleted in writeJSON tt)).

Definition Handler_RestoreExperiment `{Clock} (ws : string) (body : option string) : M (Reply unit) :=
  with_body body (λ id, with_experiment ws id (λ n,
    let! _ := SetExperimentLifecycle n LifecycleActive in writeJSON tt)).

Record updateExperimentReq := mkUpdateExperimentReq { ue_ExperimentID : string; ue_NewName : string }.

Definition Handler_UpdateExperiment `{Clock} (ws : string) (body : option updateExperimentReq) : M (Reply unit) :=
  with_body body (λ req, with_int (ue_ExperimentID req) (λ n,
    require (nonempty (ue_NewName req)) (
      let! _ := getExperimentInWorkspace ws n in
      let! _ := UpdateExperiment n (Some (ue_NewName req)) in
      writeJSON tt))).

Record setExperimentTagReq := mkSetExperimentTagReq { st_ExperimentID : string; st_Key : string; st_Value : string }.

Definition Handler_SetExperimentTag (ws : string) (body : option setExperimentTagReq) : M (Reply unit) :=
  with_body body (λ req, with_experiment ws (st_ExperimentID req) (λ n,
    let! _ := SetExperimentTag n (st_Key req) (st_Value req) in writeJSON tt)).

(** ** Runs *)

Record createRunReq := mkCreateRunReq {
  cr_ExperimentID : string; cr_UserID : string; cr_StartTime : Z; cr_Tags : list KV; cr_RunName : string }.

(** The first [mlflow.parentRunId] of the tags. *)
Definition parent_of (ts : list KV) : string :=
  match filter (λ t, kv_Key t = parentTag) ts with [] => EmptyString | t :: _ => kv_Value t end.

(** [_ = m]. *)
Definition ignore_err (m : M unit) : M unit := λ w, (Ok tt, (m w).2).

Definition Handler_CreateRun `{Clock} (newID ws : string) (body : option createRunReq) : M (Reply runDTO) :=
  with_body body (λ req, with_experiment ws (cr_ExperimentID req) (λ expID,
    let! run := CreateRun newID (mkRun "" expID (cr_RunName req) "" (cr_StartTime req) None "" "" (cr_UserID req)
                  "" "" "" (parent_of (cr_Tags req))) in
    _ ← for_each (λ t, ignore_err (SetTag (run_ID run) t)) (cr_Tags req);
    writeJSON_notify (mkRunDTO (runInfoToDTO run) (mkRunDataDTO [] [] (cr_Tags req)) None)
      [mkNotification ws "run_started" run])).

(** [parseAsOf]: 0 when absent, [None] an error. *)
Definition parseAsOf `{Clock} (q : Query) : M (option Z) :=
  let v := q "as_of"%string in
  if decide (v = EmptyString) then mret (Some 0) else
  match ParseInt v with
  | None => mret None
  | Some ts => if decide (ts ≤ 0) then mret None else
               now ← time_now;
               mret (if decide (now + 60 * 1000 < ts) then None else Some ts)
  end.

Definition with_as_of `{Clock} {B} (q : Query) (k : Z → M (Reply B)) : M (Reply B) :=
  asOf ← parseAsOf q; match asOf with None => invalid_parameter | Some t => k t end.

Definition collectRunData (runID : string) (asOf : Z) (asOfTags : list KV) : M runDataDTO :=
  metrics ← (if decide (0 < asOf) then GetLatestMetricsAsOf runID asOf else GetLatestMetrics runID);
  params ← GetParams runID;
  tags ← (if decide (0 < asOf) then mret asOfTags else GetTags runID);
  mret (mkRunDataDTO metrics params tags).

Definition collectRunInputs (runID : string) : M (option (list DatasetInput)) :=
  l ← GetRunDatasets runID; mret (datasetInputsToDTO l).

Definition query_run_id (q : Query) : string := or_else (q "run_id"%string) (q "run_uuid"%string).

Definition Handler_GetRun `{Clock} (ws : string) (q : Query) : M (Reply runDTO) :=
  let id := query_run_id q in
  require (nonempty id) (with_as_of q (λ asOf,
    let! (run, tags) := (if decide (0 < asOf) then GetRunAsOfInWorkspace id ws asOf
                         else run ← GetRunInWorkspace id ws; mret (run, [])) in
    let! data := collectRunData id asOf tags in
    let! inputs := collectRunInputs id in
    writeJSON (mkRunDTO (runInfoToDTO run) data inputs))).

Definition statusToWebhookEvent (status : string) : string :=
  if decide (status = StatusFinished) then "run_finished"
  else if decide (status = StatusFailed) then "run_failed"
  else if decide (status = StatusKilled) then "run_killed" else "".

Record updateRunReq := mkUpdateRunReq {
  ur_RunID : string; ur_RunUUID : string; ur_Status : string; ur_EndTime : Z; ur_RunName : string }.

(** [nil] for the zero value. *)
Definition ptr_string (s : string) : option string := if decide (s = EmptyString) then None else Some s.
Definition ptr_int (z : Z) : option Z := if decide (z = 0) then None else Some z.

Definition Handler_UpdateRun `{Clock} (ws : string) (body : option updateRunReq) : M (Reply runInfoDTO) :=
  with_body body (λ req,
    let id := or_else (ur_RunID req) (ur_RunUUID req) in
    require (nonempty id) (
      let! _ := ensureRunInWorkspace ws id in
      let! _ := UpdateRun id (ptr_string (ur_Status req)) (ptr_int (ur_EndTime req)) (ptr_string (ur_RunName req)) in
      let! run := GetRun id in
      let event := statusToWebhookEvent (ur_Status req) in
      writeJSON_notify (runInfoToDTO run)
        (if nonempty event then [mkNotification ws event run] else []))).

Definition Handler_DeleteRun `{Clock} (ws : string) (body : option string) : M (Reply unit) :=
  with_body body (λ id,
    let! _ := ensureRunInWorkspace ws id in let! _ := SetRunLifecycle id LifecycleDeleted in writeJSON tt).

Definition Handler_RestoreRun `{Clock} (ws : string) (body : option string) : M (Reply unit) :=
  with_body body (λ id,
    let! _ := ensureRunInWorkspace ws id in let! _ := SetRunLifecycle id LifecycleActive in writeJSON tt).

Record searchRunsReq := mkSearchRunsReq {
  sr_ExperimentIDs : list string; sr_Filter : string; sr_ViewType : string; sr_MaxResults : Z;
  sr_OrderBy : list string; sr_PageToken : PageToken }.

(** The experiments of the request that are in the workspace; [None] when an
    id is not a number. *)
Fixpoint scoped_experiments (ws : string) (ids : list string) : M (option (list Z)) :=
  match ids with
  | [] => mret (Some [])
  | s :: ids' =>
      match ParseInt s with
      | None => mret None
      | Some n =>
          (λ w, let keep (b : bool) :=
                  (rest ← scoped_experiments ws ids';
                   mret (if b then (n ::.) <$> rest else rest)) in
                match getExperimentInWorkspace ws n w with
                | (Ok _, w') => keep true w'
                | (Err ErrNotFound, w') => keep false w'
                | (Err e, w') => (Err e, w')
                end)
      end
  end.

(** One run of the result page; [None] when it did not exist at [asOf]. *)
Definition search_run_dto (ws : string) (asOf : Z) (run : Run) : M (option runDTO) :=
  let render (r : Run) (tags : list KV) :=
    (data ← collectRunData (run_ID run) asOf tags;
     inputs ← collectRunInputs (run_ID run);
     mret (Some (mkRunDTO (runInfoToDTO r) data inputs))) in
  if decide (0 < asOf) then
    if decide (asOf < run_StartTime run) then mret None else
    (λ w, match GetRunAsOfInWorkspace (run_ID run) ws asOf w with
          | (Ok (r, tags), w') => render r tags w'
          | (Err ErrNotFound, w') => (Ok None, w')
          | (Err e, w') => (Err e, w')
          end)
  else render run [].

Fixpoint search_run_dtos (ws : string) (asOf : Z) (l : list Run) : M (list runDTO) :=
  match l with
  | [] => mret []
  | r :: l' =>
      x ← search_run_dto ws asOf r;
      rest ← search_run_dtos ws asOf l';
      mret (match x with Some x => x :: rest | None => rest end)
  end.

Section search_runs.
Context `{Clock} (ParseFloat : string → option float64) (eval : DB → clause → string → RunRow → bool).

Definition Handler_SearchRuns (ws : string) (req : searchRunsReq) (q : Query) : M (Reply (list runDTO * PageToken)) :=
  let! ids := scoped_experiments ws (sr_ExperimentIDs req) in
  match ids with
  | None => invalid_parameter
  | Some ids =>
      let expIDs := if decide (ids = []) then [-1] else ids in
      with_as_of q (λ asOf,
        if decide (0 < asOf ∧ (sr_Filter req ≠ EmptyString ∨ sr_OrderBy req ≠ [])) then invalid_parameter else
        let stage := if decide (0 < asOf) then "all"%string else mapViewType (sr_ViewType req) in
        let! res := SearchRuns ParseFloat eval
                      (mkSearchOptions expIDs stage (sr_Filter req) (sr_OrderBy req) (sr_MaxResults req)
                         (sr_PageToken req) ws) in
        let! runs := search_run_dtos ws asOf res.1 in
        writeJSON (runs, res.2))
  end.
End search_runs.

(** ** Run data *)

Record logMetricReq := mkLogMetricReq {
  lm_RunID : string; lm_RunUUID : string; lm_Key : string; lm_Value : float64; lm_Timestamp : Z; lm_Step : Z }.

Definition Handler_LogMetric `{Clock} (ws : string) (body : option logMetricReq) : M (Reply unit) :=
  with_body body (λ req,
    let runID := or_else (lm_RunID req) (lm_RunUUID req) in
    require (nonempty runID) (
      let! _ := ensureRunInWorkspace ws runID in
      let! _ := LogMetric runID (mkMetric (lm_Key req) (lm_Value req) (lm_Timestamp req) (lm_Step req)) in
      writeJSON tt)).

Record logParameterReq := mkLogParameterReq { lp_RunID : string; lp_RunUUID : string; lp_Key : string; lp_Value : string }.

Definition Handler_LogParameter (ws : string) (body : option logParameterReq) : M (Reply unit) :=
  with_body body (λ req,
    let runID := or_else (lp_RunID req) (lp_RunUUID req) in
    let! _ := ensureRunInWorkspace ws runID in
    let! _ := LogParam runID (mkParam (lp_Key req) (lp_Value req)) in
    writeJSON tt).

Record logBatchReq := mkLogBatchReq {
  lb_RunID : string; lb_Metrics : list Metric; lb_Params : list Param; lb_Tags : list KV }.

Definition Handler_LogBatch `{Clock} (ws : string) (body : option logBatchReq) : M (Reply unit) :=
  with_body body (λ req,
    require (nonempty (lb_RunID req)) (
      let! _ := ensureRunInWorkspace ws (lb_RunID req) in
      require (negb ((1000 <? Z.of_nat (length (lb_Metrics req))) || (100 <? Z.of_nat (length (lb_Params req))) ||
                     (100 <? Z.of_nat (length (lb_Tags req))))) (
        let! _ := LogMetrics (lb_RunID req) (lb_Metrics req) in
        let! _ := for_each (LogParam (lb_RunID req)) (lb_Params req) in
        let! _ := SetTags (lb_RunID req) (lb_Tags req) in
        writeJSON tt))).

Record setTagReq := mkSetTagReq { tg_RunID : string; tg_RunUUID : string; tg_Key : string; tg_Value : string }.

Definition Handler_SetTag `{Clock} (ws : string) (body : option setTagReq) : M (Reply unit) :=
  with_body body (λ req,
    let runID := or_else (tg_RunID req) (tg_RunUUID req) in
    let! _ := ensureRunInWorkspace ws runID in
    let! _ := SetTag runID (mkKV (tg_Key req) (tg_Value req)) in
    writeJSON tt).

Record deleteTagReq := mkDeleteTagReq { dt_RunID : string; dt_Key : string }.

Definition Handler_DeleteTag `{Clock} (ws : string) (body : option deleteTagReq) : M (Reply unit) :=
  with_body body (λ req,
    require (nonempty (dt_RunID req) && nonempty (dt_Key req)) (
      let! _ := ensureRunInWorkspace ws (dt_RunID req) in
      let! _ := DeleteTag (dt_RunID req) (dt_Key req) in
      writeJSON tt)).

Record logInputsReq := mkLogInputsReq { li_RunID : string; li_Datasets : list DatasetInput }.

Definition Handler_LogInputs `{Clock} (writeV03 : bool) (ws : string) (body : option logInputsReq) : M (Reply unit) :=
  with_body body (λ req,
    require (nonempty (li_RunID req)) (
      let! _ := ensureRunInWorkspace ws (li_RunID req) in
      let! _ := LogInputs writeV03 (li_RunID req) (li_Datasets req) in
      writeJSON tt)).

(** The reply: points, next token, and [downsampled_from]. *)
Definition Handler_GetMetricHistory `{Clock} (ws : string) (q : Query) : M (Reply (list Metric * string * option Z)) :=
  let runID := query_run_id q in
  let key := q "metric_key"%string in
  require (nonempty runID && nonempty key) (
    let! _ := ensureRunInWorkspace ws runID in
    if nonempty (q "downsample"%string) then
      with_int (q "downsample"%string) (λ target,
        require (0 <=? target) (
          let! (pts, total) := GetMetricHistoryDownsampled runID key target in
          writeJSON (pts, EmptyString, Some total)))
    else
      let paged (maxResults : Z) :=
        (let! (hist, nextToken) := GetMetricHistory runID key maxResults (q "page_token"%string) in
         with_as_of q (λ asOf,
           let hist := if decide (0 < asOf) then filter (λ m, metric_Timestamp m ≤ asOf) hist else hist in
           writeJSON (hist, nextToken, None))) in
      if nonempty (q "max_results"%string) then
        with_int (q "max_results"%string) (λ n, require (0 <=? n) (paged n))
      else paged 0).

(** ** The routes of [Mount] *)

(** A request to the tracking API with its decoded arguments. *)
Inductive Call :=
  | CCreateExperiment (body : option createExperimentReq)
  | CGetExperiment (q : Query)
  | CGetExperimentByName (q : Query)
  | CSearchExperiments (req : searchExperimentsReq) (q : Query) (qtok : PageToken)
  | CDeleteExperiment (body : option string)
  | CRestoreExperiment (body : option string)
  | CUpdateExperiment (body : option updateExperimentReq)
  | CSetExperimentTag (body : option setExperimentTagReq)
  | CCreateRun (newID : string) (body : option createRunReq)
  | CGetRun (q : Query)
  | CUpdateRun (body : option updateRunReq)
  | CDeleteRun (body : option string)
  | CRestoreRun (body : option string)
  | CSearchRuns (req : searchRunsReq) (q : Query)
  | CLogMetric (body : option logMetricReq)
  | CLogParameter (body : option logParameterReq)
  | CLogBatch (body : option logBatchReq)
  | CSetTag (body : option setTagReq)
  | CDeleteTag (body : option deleteTagReq)
  | CLogInputs (body : option logInputsReq)
  | CGetMetricHistory (q : Query).

(** The methods and paths each call is mounted at. *)
Definition routes (c : Call) : list (string * string) :=
  match c with
  | CCreateExperiment _ => [("POST", "/api/2.0/mlflow/experiments/create")]
  | CGetExperiment _ => [("GET", "/api/2.0/mlflow/experiments/get")]
  | CGetExperimentByName _ => [("GET", "/api/2.0/mlflow/experiments/get-by-name")]
  | CSearchExperiments _ _ _ =>
      [("POST", "/api/2.0/mlflow/experiments/search"); ("GET", "/api/2.0/mlflow/experiments/search");
       ("POST", "/api/2.0/mlflow/experiments/list"); ("GET", "/api/2.0/mlflow/experiments/list")]
  | CDeleteExperiment _ =>
      [("POST", "/api/2.0/mlflow/experiments/delete")]
  | CRestoreExperiment _ => [("POST", "/api/2.0/mlflow/experiments/restore")]
  | CUpdateExperiment _ => [("POST", "/api/2.0/mlflow/experiments/update")]
  | CSetExperimentTag _ => [("POST", "/api/2.0/mlflow/experiments/set-experiment-tag")]
  | CCreateRun _ _ => [("POST", "/api/2.0/mlflow/runs/create")]
  | CGetRun _ => [("GET", "/api/2.0/mlflow/runs/get")]
  | CUpdateRun _ => [("POST", "/api/2.0/mlflow/runs/update")]
  | CDeleteRun _ => [("POST", "/api/2.0/mlflow/runs/delete")]
  | CRestoreRun _ => [("POST", "/api/2.0/mlflow/runs/restore")]
  | CSearchRuns _ _ => [("POST", "/api/2.0/mlflow/runs/search"); ("GET", "/api/2.0/mlflow/runs/search")]
  | CLogMetric _ => [("POST", "/api/2.0/mlflow/runs/log-metric")]
  | CLogParameter _ => [("POST", "/api/2.0/mlflow/runs/log-parameter")]
  | CLogBatch _ => [("POST", "/api/2.0/mlflow/runs/log-batch")]
  | CSetTag _ => [("POST", "/api/2.0/mlflow/runs/set-tag")]
  | CDeleteTag _ => [("POST", "/api/2.0/mlflow/runs/delete-tag")]
  | CLogInputs _ => [("POST", "/api/2.0/mlflow/runs/log-inputs")]
  | CGetMetricHistory _ => [("GET", "/api/2.0/mlflow/metrics/get-history")]
  end%string.

(** What a reply tells about: the status, and the runs and experiments it
    shows. *)
Inductive Shown :=
  | ShowNothing
  | ShowExperiments (l : list experimentDTO)
  | ShowRuns (l : list runDTO)
  | ShowRunInfo (r : runInfoDTO)
  | ShowMetrics (l : list Metric).

Definition shown {A} (f : A → Shown) (m : M (Reply A)) : M (Reply Shown) :=
  r ← m; mret (mkReply (rp_Status r) (rp_Code r) (f <$> rp_Body r) (rp_Notify r)).

Section dispatch.
Context `{Clock} (like : string → string → bool) (ParseFloat : string → option float64)
  (eval : DB → clause → string → RunRow → bool) (writeV03 : bool).

Definition handle (ws : string) (c : Call) : M (Reply Shown) :=
  match c with
  | CCreateExperiment b => shown (λ _, ShowNothing) (Handler_CreateExperiment ws b)
  | CGetExperiment q => shown (λ e, ShowExperiments [e]) (Handler_GetExperiment ws q)
  | CGetExperimentByName q => shown (λ e, ShowExperiments [e]) (Handler_GetExperimentByName ws q)
  | CSearchExperiments r q t => shown (λ p, ShowExperiments p.1) (Handler_SearchExperiments like ws r q t)
  | CDeleteExperiment b => shown (λ _, ShowNothing) (Handler_DeleteExperiment ws b)
  | CRestoreExperiment b => shown (λ _, ShowNothing) (Handler_RestoreExperiment ws b)
  | CUpdateExperiment b => shown (λ _, ShowNothing) (Handler_UpdateExperiment ws b)
  | CSetExperimentTag b => shown (λ _, ShowNothing) (Handler_SetExperimentTag ws b)
  | CCreateRun i b => shown (λ r, ShowRuns [r]) (Handler_CreateRun i ws b)
  | CGetRun q => shown (λ r, ShowRuns [r]) (Handler_GetRun ws q)
  | CUpdateRun b => shown ShowRunInfo (Handler_UpdateRun ws b)
  | CDeleteRun b => shown (λ _, ShowNothing) (Handler_DeleteRun ws b)
  | CRestoreRun b => shown (λ _, ShowNothing) (Handler_RestoreRun ws b)
  | CSearchRuns r q => shown (λ p, ShowRuns p.1) (Handler_SearchRuns ParseFloat eval ws r q)
  | CLogMetric b => shown (λ _, ShowNothing) (Handler_LogMetric ws b)
  | CLogParameter b => shown (λ _, ShowNothing) (Handler_LogParameter ws b)
  | CLogBatch b => shown (λ _, ShowNothing) (Handler_LogBatch ws b)
  | CSetTag b => shown (λ _, ShowNothing) (Handler_SetTag ws b)
  | CDeleteTag b => shown (λ _, ShowNothing) (Handler_DeleteTag ws b)
  | CLogInputs b => shown (λ _, ShowNothing) (Handler_LogInputs writeV03 ws b)
  | CGetMetricHistory q => shown (λ p, ShowMetrics p.1.1) (Handler_GetMetricHistory ws q)
  end.
End dispatch.
