(* ===== verification/ApiLogic.v ===== *)
(** * Rules for the handlers

    A handler is a computation of the store that ends in a reply.  This file
    has the rules to reason about one from the outside: [triple] for the
    store operations it calls (an invariant [I] holds whatever the outcome,
    a postcondition after a success), [reads] for operations that leave the
    database as it is, [answers] for whole handlers (a reply is always
    produced, [I] holds after it, and its body and notifications satisfy what
    the rule says). *)

From S2P Require Import Prelude GoStrings Model Database Runs RunData MlflowApi.

Open Scope Z_scope.

(** ** Store operations *)

Definition triple {A} (I : DB → Prop) (P : DB → Prop) (m : M A) (Q : A → DB → Prop) : Prop := ∀ w,
  P (w_db w) → match m w with
               | (Ok a, w') => Q a (w_db w')
               | (Err _, w') => I (w_db w')
               end.

(** The database stays the same. *)
Definition reads {A} (d : DB) (m : M A) (Q : A → Prop) : Prop := ∀ w,
  w_db w = d → match m w with
               | (Ok a, w') => w_db w' = d ∧ Q a
               | (Err _, w') => w_db w' = d
               end.

Lemma reads_ret {A} d (a : A) (Q : A → Prop) : Q a → reads d (mret a) Q.
Proof. by intros HQ w <-. Qed.
Lemma reads_fail {A} d e (Q : A → Prop) : reads d (fail e) Q.
Proof. by intros w <-. Qed.
Lemma reads_bind {A B} d (m : M A) (f : A → M B) Q R :
  reads d m Q → (∀ a, Q a → reads d (f a) R) → reads d (m ≫= f) R.
Proof.
  intros Hm Hf w Hw. specialize (Hm w Hw). unfold mbind, M_bind. destruct (m w) as [[a|e] w1]; [|done].
  destruct Hm as [Hw1 Ha]. by apply (Hf a Ha).
Qed.
Lemma reads_get {A} d (f : DB → M A) Q : reads d (f d) Q → reads d (get ≫= f) Q.
Proof. intros Hf w <-. rewrite get_bind. by apply Hf. Qed.
Lemma reads_lift {A} d (r : result A) (Q : A → Prop) : (∀ a, r = Ok a → Q a) → reads d (lift r) Q.
Proof. intros HQ w <-. unfold lift. destruct r; auto. Qed.
Lemma reads_conseq {A} d (m : M A) (Q Q' : A → Prop) : reads d m Q → (∀ a, Q a → Q' a) → reads d m Q'.
Proof. intros Hm HQ w Hw. specialize (Hm w Hw). destruct (m w) as [[a|e] w1]; naive_solver. Qed.

(** From a state in [P] the handler replies, keeps [I], shows a body in [Q],
    and notifies as [N] allows. *)
Definition answers {A} (I : DB → Prop) (N : DB → Notification → Prop) (P : DB → Prop) (m : M (Reply A))
    (Q : A → DB → Prop) : Prop := ∀ w,
  P (w_db w) → ∃ rep w', m w = (Ok rep, w') ∧ I (w_db w') ∧
    (∀ a, rp_Body rep = Some a → Q a (w_db w')) ∧ Forall (N (w_db w')) (rp_Notify rep).

Section rules.
Context {I : DB → Prop} {N : DB → Notification → Prop}.
#[local] Abbreviation triple := (triple I).
#[local] Abbreviation answers := (answers I N).

Lemma triple_pres {A} P (m : M A) : (∀ d, P d → I d) → Preserves P m → triple P m (λ _, P).
Proof. intros HP Hm w Hw. specialize (Hm w Hw). destruct (m w) as [[a|e] w1]; auto. Qed.

Lemma triple_bind {A B} P Q R (m : M A) (f : A → M B) :
  triple P m Q → (∀ a, triple (Q a) (f a) R) → triple P (m ≫= f) R.
Proof.
  intros Hm Hf w Hw. specialize (Hm w Hw). unfold mbind, M_bind. destruct (m w) as [[a|e] w1]; [|done].
  by apply Hf.
Qed.

Lemma triple_conseq {A} (P P' : DB → Prop) Q (m : M A) : triple P' m Q → (∀ d, P d → P' d) → triple P m Q.
Proof. intros Hm HP w Hw. by apply Hm, HP. Qed.

Lemma triple_map_err {A} P Q g (m : M A) : triple P m Q → triple P (map_err g m) Q.
Proof. intros Hm w Hw. specialize (Hm w Hw). unfold map_err. by destruct (m w) as [[a|e] w1]. Qed.

Lemma triple_transaction {A} P Q (m : M A) : (∀ d, P d → I d) → triple P m Q → triple P (transaction m) Q.
Proof.
  intros HP Hm w Hw. specialize (Hm w Hw). unfold transaction. destruct (m w) as [[a|e] w1]; [done|].
  by apply HP.
Qed.

Lemma triple_ret {A} (P : DB → Prop) (Q : A → DB → Prop) a : (∀ d, P d → Q a d) → triple P (mret a) Q.
Proof. intros HQ w Hw. by apply HQ. Qed.

Lemma triple_lift {A} (P : DB → Prop) (Q : A → DB → Prop) r :
  (∀ d, P d → I d) → (∀ a d, r = Ok a → P d → Q a d) → triple P (lift r) Q.
Proof. intros HP HQ w Hw. unfold lift. destruct r; auto. Qed.

(** A read whose result depends on the database only. *)
Lemma triple_read {A} (P : DB → Prop) (Q : A → DB → Prop) (f : DB → M A) :
  (∀ d0, P d0 → triple (λ d, d = d0) (f d0) Q) → triple P (get ≫= f) Q.
Proof. intros Hf w Hw. rewrite get_bind. by apply (Hf (w_db w)). Qed.

Lemma triple_get {A} (P : DB → Prop) (Q : A → DB → Prop) (f : DB → result A) :
  (∀ d, P d → I d) → (∀ d a, P d → f d = Ok a → Q a d) → triple P (d ← get; lift (f d)) Q.
Proof. intros HP HQ w Hw. rewrite get_bind. unfold lift. destruct (f (w_db w)) eqn:E; auto. Qed.

Lemma triple_reads {A} (P : DB → Prop) (m : M A) (Q : A → DB → Prop) :
  (∀ d, P d → I d) → (∀ d, P d → reads d m (λ a, Q a d)) → triple P m Q.
Proof.
  intros HP Hm w Hw. specialize (Hm _ Hw w eq_refl). destruct (m w) as [[a|e] w1].
  - by destruct Hm as [-> ?].
  - rewrite Hm. auto.
Qed.

(** ** Handlers *)

Lemma answers_error {A} (P : DB → Prop) status code (Q : A → DB → Prop) :
  (∀ d, P d → I d) → answers P (mret (reply_error status code)) Q.
Proof. intros HP w Hw. eexists _, w. split_and!; [done|auto|done|done]. Qed.

Lemma answers_write `{Marshal A} (P : DB → Prop) (a : A) ns (Q : A → DB → Prop) :
  (∀ d, P d → I d ∧ Q a d ∧ Forall (N d) ns) → answers P (writeJSON_notify a ns) Q.
Proof.
  intros HP w Hw. destruct (HP _ Hw) as (Hu & HQ & Hn). eexists _, w. split; [done|].
  destruct (marshals a); split_and!; try done. by intros a' [= <-].
Qed.

Lemma answers_store {A B} P Q' (m : M A) (k : A → M (Reply B)) Q :
  triple P m Q' → (∀ a, answers (Q' a) (k a) Q) → answers P (on_store m k) Q.
Proof.
  intros Hm Hk w Hw. specialize (Hm w Hw). unfold on_store. destruct (m w) as [[a|e] w1]; [by apply Hk|].
  eexists _, w1. split_and!; [done|done| |]; by destruct e.
Qed.

Lemma answers_body {A B} P body (k : A → M (Reply B)) Q :
  (∀ d, P d → I d) → (∀ a, answers P (k a) Q) → answers P (with_body body k) Q.
Proof. intros HP Hk. destruct body; cbn; [done|by apply answers_error]. Qed.

Lemma answers_int {B} P x (k : Z → M (Reply B)) Q :
  (∀ d, P d → I d) → (∀ n, answers P (k n) Q) → answers P (with_int x k) Q.
Proof. intros HP Hk. unfold with_int. destruct (ParseInt x); [done|by apply answers_error]. Qed.

Lemma answers_require {B} P b (m : M (Reply B)) Q :
  (∀ d, P d → I d) → answers P m Q → answers P (require b m) Q.
Proof. intros HP Hm. destruct b; [done|by apply answers_error]. Qed.

Lemma answers_as_of `{Clock} {B} P q (k : Z → M (Reply B)) Q :
  (∀ d, P d → I d) → (∀ t, answers P (k t) Q) → answers P (with_as_of q k) Q.
Proof.
  intros HP Hk. unfold with_as_of.
  assert (∀ w, ∃ o w', parseAsOf q w = (Ok o, w') ∧ w_db w' = w_db w) as Has.
  { intros w. unfold parseAsOf. cbv zeta. case_decide; [by eexists _, _|].
    destruct (ParseInt _); [|by eexists _, _]. case_decide; [by eexists _, _|]. by eexists _, _. }
  intros w Hw. destruct (Has w) as (o & w' & Ho & Hd). rewrite (bind_Ok _ _ _ _ _ Ho). rewrite <- Hd in Hw.
  destruct o; [by apply Hk|by apply (answers_error P)].
Qed.

Lemma answers_conseq {A} P (m : M (Reply A)) Q (Q' : A → DB → Prop) :
  answers P m Q → (∀ a d, Q a d → Q' a d) → answers P m Q'.
Proof. intros Hm HQ w Hw. destruct (Hm w Hw) as (rep & w' & ? & ? & HB & ?). exists rep, w'. naive_solver. Qed.

(** A store operation on the run or experiment at hand, then [{}]. *)
Lemma answers_effect {A} P (m : M A) :
  (∀ d, P d → I d) → Preserves P m → answers P (let! _ := m in writeJSON tt) (λ _ _, True).
Proof.
  intros HP Hm. eapply answers_store; [by apply triple_pres|]. intros a. apply answers_write.
  intros d Hd. split_and!; [auto|done|done].
Qed.

(** A fact about the request established along the way. *)
Lemma answers_pure {A} P (φ : Prop) (m : M (Reply A)) Q :
  (φ → answers P m Q) → answers (λ d, P d ∧ φ) m Q.
Proof. intros Hm w [Hw Hφ]. by apply Hm. Qed.

(** Changing the type of the body. *)
Lemma answers_map {A B} P (f : A → B) m (Q : B → DB → Prop) :
  answers P m (λ a, Q (f a)) →
  answers P (r ← m; mret (mkReply (rp_Status r) (rp_Code r) (f <$> rp_Body r) (rp_Notify r))) Q.
Proof.
  intros Hm w Hw. destruct (Hm w Hw) as (rep & w' & Hr & Hu & Hb & Hn).
  rewrite (bind_Ok _ _ _ _ _ Hr). eexists _, w'. split_and!; [done|done| |done].
  cbn. intros b Hs. destruct (rp_Body rep) as [a|] eqn:Ha; [|done]. injection Hs as <-. auto.
Qed.
End rules.
