(* ===== verification/RegistryApi.v ===== *)
(** * The model registry over REST (internal/api/mlflow/registry.go, registry_dto.go)

    The handlers of registered models and model versions, in the vocabulary
    of MlflowApi.v, and what they guarantee between workspaces: the registry
    is partitioned by the workspace of its rows. *)

From S2P Require Import Prelude GoStrings Model Database Batches Runs Sample RunData Experiments Registry.
From S2P Require Import RegistryLaws Inputs MlflowApi ApiLogic.

Open Scope Z_scope.

(** ** Wire shapes *)

Record aliasDTO := mkAliasDTO { al_Alias : string; al_Version : string }.

(** [latest_versions] is left out: no method of the store fills it. *)
Record registeredModelDTO := mkRegisteredModelDTO {
  rmd_Name : string; rmd_CreationTime : Z; rmd_LastUpdateTime : Z; rmd_Description : string;
  rmd_Tags : list KV; rmd_Aliases : list aliasDTO }.

Definition registeredModelToDTO (m : RegisteredModel) : registeredModelDTO :=
  mkRegisteredModelDTO (rm_Name m) (rm_CreationTime m) (rm_LastUpdateTime m) (rm_Description m) (rm_Tags m)
    ((λ a, mkAliasDTO (ma_Alias a) (FormatInt (ma_Version a))) <$> rm_Aliases m).

Record mvDTO := mkMvDTO {
  mvd_Name : string; mvd_Version : string; mvd_CreationTime : Z; mvd_LastUpdateTime : Z; mvd_Description : string;
  mvd_UserID : string; mvd_CurrentStage : string; mvd_Source : string; mvd_RunID : string; mvd_Status : string;
  mvd_StatusMessage : string; mvd_Tags : list KV; mvd_Aliases : list string }.

Definition modelVersionToDTO (mv : ModelVersion) : mvDTO :=
  mkMvDTO (mv_Name mv) (FormatInt (mv_Version mv)) (mv_CreationTime mv) (mv_LastUpdateTime mv) (mv_Description mv)
    (mv_UserID mv) (mv_CurrentStage mv) (mv_Source mv) (mv_RunID mv) (mv_Status mv) (mv_StatusMessage mv)
    (mv_Tags mv) (mv_Aliases mv).

#[export] Instance marshal_model : Marshal registeredModelDTO := λ _, true.
#[export] Instance marshal_version : Marshal mvDTO := λ _, true.

(** ** Registered models *)

Definition all_nonempty (l : list string) : bool := forallb nonempty l.

Definition reply_model (m : M RegisteredModel) : M (Reply registeredModelDTO) :=
  let! m := m in writeJSON (registeredModelToDTO m).
Definition reply_version (m : M ModelVersion) : M (Reply mvDTO) :=
  let! mv := m in writeJSON (modelVersionToDTO mv).
Definition reply_unit (m : M unit) : M (Reply unit) := let! _ := m in writeJSON tt.

Record createRegisteredModelReq := mkCreateRegisteredModelReq { cm_Name : string; cm_Tags : list KV; cm_Description : string }.

Definition Handler_CreateRegisteredModel `{Clock} (ws : string) (body : option createRegisteredModelReq) :
    M (Reply registeredModelDTO) :=
  with_body body (λ req,
    require (nonempty (cm_Name req)) (
      let! _ := CreateRegisteredModel ws (mkRegisteredModel "" (cm_Name req) (cm_Description req) 0 0 [] []) in
      let! _ := for_each (λ t, SetRegisteredModelTag ws (cm_Name req) (kv_Key t) (kv_Value t)) (cm_Tags req) in
      reply_model (GetRegisteredModel ws (cm_Name req)))).

Definition Handler_GetRegisteredModel (ws : string) (q : Query) : M (Reply registeredModelDTO) :=
  let name := q "name"%string in
  require (nonempty name) (reply_model (GetRegisteredModel ws name)).

Record renameRegisteredModelReq := mkRenameReq { rq_Name : string; rq_NewName : string }.

Definition Handler_RenameRegisteredModel `{Clock} (ws : string) (body : option renameRegisteredModelReq) :
    M (Reply registeredModelDTO) :=
  with_body body (λ req,
    require (all_nonempty [rq_Name req; rq_NewName req])
      (reply_model (RenameRegisteredModel ws (rq_Name req) (rq_NewName req)))).

Record updateRegisteredModelReq := mkUpdateModelReq { um_Name : string; um_Description : option string }.

Definition Handler_UpdateRegisteredModel `{Clock} (ws : string) (body : option updateRegisteredModelReq) :
    M (Reply registeredModelDTO) :=
  with_body body (λ req,
    require (nonempty (um_Name req)) (reply_model (UpdateRegisteredModel ws (um_Name req) (um_Description req)))).

(** Decode errors are ignored here and below where the fields fall back to
    the query string: [name] is what was decoded. *)
Definition Handler_DeleteRegisteredModel (ws name : string) (q : Query) : M (Reply unit) :=
  let name := or_else name (q "name"%string) in
  require (nonempty name) (reply_unit (DeleteRegisteredModel ws name)).

Record searchRegistryReq := mkSearchRegistryReq { sg_Filter : string; sg_MaxResults : Z; sg_PageToken : string }.

(** The request with the query string filled in. *)
Definition search_args (req : searchRegistryReq) (q : Query) : searchRegistryReq :=
  mkSearchRegistryReq (or_else (sg_Filter req) (q "filter"%string))
    (if decide (sg_MaxResults req = 0) then default 0 (ParseInt (q "max_results"%string)) else sg_MaxResults req)
    (or_else (sg_PageToken req) (q "page_token"%string)).

Definition Handler_SearchRegisteredModels (like : string → string → bool) (ws : string) (req : searchRegistryReq)
    (q : Query) : M (Reply (list registeredModelDTO * string)) :=
  let req := search_args req q in
  let! res := SearchRegisteredModels like ws (sg_Filter req) (sg_MaxResults req) (sg_PageToken req) in
  writeJSON (registeredModelToDTO <$> res.1, res.2).

Record getLatestVersionsReq := mkLatestReq { lv_Name : string; lv_Stages : list string }.

Definition Handler_GetLatestModelVersions (ws : string) (req : getLatestVersionsReq) (q : Query) : M (Reply (list mvDTO)) :=
  let name := or_else (lv_Name req) (q "name"%string) in
  require (nonempty name) (
    let! versions := GetLatestModelVersions ws name (lv_Stages req) in
    writeJSON (modelVersionToDTO <$> versions)).

Record setRegisteredModelTagReq := mkModelTagReq { mt_Name : string; mt_Key : string; mt_Value : string }.

Definition Handler_SetRegisteredModelTag (ws : string) (body : option setRegisteredModelTagReq) : M (Reply unit) :=
  with_body body (λ req,
    require (all_nonempty [mt_Name req; mt_Key req])
      (reply_unit (SetRegisteredModelTag ws (mt_Name req) (mt_Key req) (mt_Value req)))).

(** The body is (name, key). *)
Definition Handler_DeleteRegisteredModelTag (ws : string) (body : option (string * string)) : M (Reply unit) :=
  with_body body (λ '(name, key),
    require (all_nonempty [name; key]) (reply_unit (DeleteRegisteredModelTag ws name key))).

Record setModelAliasReq := mkAliasReq { sa_Name : string; sa_Alias : string; sa_Version : string }.

Definition Handler_SetModelAlias (ws : string) (body : option setModelAliasReq) : M (Reply unit) :=
  with_body body (λ req,
    require (all_nonempty [sa_Name req; sa_Alias req; sa_Version req])
      (with_int (sa_Version req) (λ ver, reply_unit (SetModelAlias ws (sa_Name req) (sa_Alias req) ver)))).

Definition Handler_DeleteModelAlias (ws name alias : string) (q : Query) : M (Reply unit) :=
  let name := or_else name (q "name"%string) in
  let alias := or_else alias (q "alias"%string) in
  require (all_nonempty [name; alias]) (reply_unit (DeleteModelAlias ws name alias)).

Definition Handler_GetModelByAlias (ws : string) (q : Query) : M (Reply mvDTO) :=
  let name := q "name"%string in
  let alias := q "alias"%string in
  require (all_nonempty [name; alias]) (reply_version (GetModelByAlias ws name alias)).

(** ** Model versions *)

Record createModelVersionReq := mkCreateVersionReq {
  cv_Name : string; cv_Source : string; cv_RunID : string; cv_Tags : list KV; cv_Description : string }.

(** A linked run must be in the workspace of the caller. *)
Definition check_linked_run (ws runID : string) : M unit :=
  if nonempty runID then ensureRunInWorkspace ws runID else mret tt.

Definition Handler_CreateModelVersion `{Clock} (ws : string) (body : option createModelVersionReq) : M (Reply mvDTO) :=
  with_body body (λ req,
    require (nonempty (cv_Name req)) (require (nonempty (cv_Source req)) (
      let! _ := check_linked_run ws (cv_RunID req) in
      let! mv := CreateModelVersion ws (mkModelVersion "" (cv_Name req) 0 (cv_Description req) "" "" (cv_Source req)
                   (cv_RunID req) "" "" 0 0 [] []) in
      let! _ := for_each (λ t, SetModelVersionTag ws (mv_Name mv) (mv_Version mv) (kv_Key t) (kv_Value t)) (cv_Tags req) in
      reply_version (GetModelVersion ws (mv_Name mv) (mv_Version mv))))).

(** [name] and [version] are required, and [version] is a number. *)
Definition with_version {B} (name version : string) (k : Z → M (Reply B)) : M (Reply B) :=
  require (all_nonempty [name; version]) (with_int version k).

Definition Handler_GetModelVersion (ws : string) (q : Query) : M (Reply mvDTO) :=
  let name := q "name"%string in
  with_version name (q "version"%string) (λ ver, reply_version (GetModelVersion ws name ver)).

Record updateModelVersionReq := mkUpdateVersionReq { uv_Name : string; uv_Version : string; uv_Description : option string }.

Definition Handler_UpdateModelVersion `{Clock} (ws : string) (body : option updateModelVersionReq) : M (Reply mvDTO) :=
  with_body body (λ req, with_version (uv_Name req) (uv_Version req) (λ ver,
    reply_version (UpdateModelVersion ws (uv_Name req) ver (uv_Description req)))).

Definition Handler_DeleteModelVersion (ws name version : string) (q : Query) : M (Reply unit) :=
  let name := or_else name (q "name"%string) in
  with_version name (or_else version (q "version"%string)) (λ ver, reply_unit (DeleteModelVersion ws name ver)).

Definition Handler_SearchModelVersions (like : string → string → bool) (ws : string) (req : searchRegistryReq)
    (q : Query) : M (Reply (list mvDTO * string)) :=
  let req := search_args req q in
  let! res := SearchModelVersions like ws (sg_Filter req) (sg_MaxResults req) (sg_PageToken req) in
  writeJSON (modelVersionToDTO <$> res.1, res.2).

Definition Handler_GetModelVersionDownloadURI (ws : string) (q : Query) : M (Reply string) :=
  let name := q "name"%string in
  with_version name (q "version"%string) (λ ver, let! mv := GetModelVersion ws name ver in writeJSON (mv_Source mv)).

Record transitionStageReq := mkTransitionReq {
  ts_Name : string; ts_Version : string; ts_Stage : string; ts_ArchiveExistingVersions : bool }.

(** The explicit case for [ErrInvalidStage] replies what [writeStoreErr]
    does. *)
Definition Handler_TransitionModelStage `{Clock} (ws : string) (body : option transitionStageReq) : M (Reply mvDTO) :=
  with_body body (λ req,
    require (all_nonempty [ts_Name req; ts_Version req; ts_Stage req]) (with_int (ts_Version req) (λ ver,
      reply_version (TransitionModelStage ws (ts_Name req) ver (ts_Stage req) (ts_ArchiveExistingVersions req))))).

Record modelVersionTagReq := mkVersionTagReq { vt_Name : string; vt_Version : string; vt_Key : string; vt_Value : string }.

Definition Handler_SetModelVersionTag (ws : string) (body : option modelVersionTagReq) : M (Reply unit) :=
  with_body body (λ req,
    require (all_nonempty [vt_Name req; vt_Version req; vt_Key req]) (with_int (vt_Version req) (λ ver,
      reply_unit (SetModelVersionTag ws (vt_Name req) ver (vt_Key req) (vt_Value req))))).

(** The body is (name, version, key). *)
Definition Handler_DeleteModelVersionTag (ws : string) (body : option (string * string * string)) : M (Reply unit) :=
  with_body body (λ '(name, version, key),
    require (all_nonempty [name; version; key]) (with_int version (λ ver,
      reply_unit (DeleteModelVersionTag ws name ver key)))).

(** ** The routes of [mountRegistry] *)

Inductive RegCall :=
  | RCreateRegisteredModel (body : option createRegisteredModelReq)
  | RGetRegisteredModel (q : Query)
  | RRenameRegisteredModel (body : option renameRegisteredModelReq)
  | RUpdateRegisteredModel (body : option updateRegisteredModelReq)
  | RDeleteRegisteredModel (name : string) (q : Query)
  | RSearchRegisteredModels (req : searchRegistryReq) (q : Query)
  | RGetLatestModelVersions (req : getLatestVersionsReq) (q : Query)
  | RSetRegisteredModelTag (body : option setRegisteredModelTagReq)
  | RDeleteRegisteredModelTag (body : option (string * string))
  | RSetModelAlias (body : option setModelAliasReq)
  | RDeleteModelAlias (name alias : string) (q : Query)
  | RGetModelByAlias (q : Query)
  | RCreateModelVersion (body : option createModelVersionReq)
  | RGetModelVersion (q : Query)
  | RUpdateModelVersion (body : option updateModelVersionReq)
  | RDeleteModelVersion (name version : string) (q : Query)
  | RSearchModelVersions (req : searchRegistryReq) (q : Query)
  | RGetModelVersionDownloadURI (q : Query)
  | RTransitionModelStage (body : option transitionStageReq)
  | RSetModelVersionTag (body : option modelVersionTagReq)
  | RDeleteModelVersionTag (body : option (string * string * string)).

(** The methods and paths each call is mounted at. *)
Definition registry_routes (c : RegCall) : list (string * string) :=
  match c with
  | RCreateRegisteredModel _ =>
      [("POST", "/api/2.0/mlflow/registered-models/create")]
  | RGetRegisteredModel _ => [("GET", "/api/2.0/mlflow/registered-models/get")]
  | RRenameRegisteredModel _ => [("POST", "/api/2.0/mlflow/registered-models/rename")]
  | RUpdateRegisteredModel _ => [("POST", "/api/2.0/mlflow/registered-models/update")]
  | RDeleteRegisteredModel _ _ => [("POST", "/api/2.0/mlflow/registered-models/delete"); ("DELETE", "/api/2.0/mlflow/registered-models/delete")]
  | RSearchRegisteredModels _ _ =>
      [("POST", "/api/2.0/mlflow/registered-models/search"); ("GET", "/api/2.0/mlflow/registered-models/search")]
  | RGetLatestModelVersions _ _ =>
      [("POST", "/api/2.0/mlflow/registered-models/get-latest-versions"); ("GET", "/api/2.0/mlflow/registered-models/get-latest-versions")]
  | RSetRegisteredModelTag _ =>
      [("POST", "/api/2.0/mlflow/registered-models/set-tag")]
  | RDeleteRegisteredModelTag _ => [("POST", "/api/2.0/mlflow/registered-models/delete-tag")]
  | RSetModelAlias _ => [("POST", "/api/2.0/mlflow/registered-models/alias")]
  | RDeleteModelAlias _ _ _ => [("DELETE", "/api/2.0/mlflow/registered-models/alias")]
  | RGetModelByAlias _ => [("GET", "/api/2.0/mlflow/registered-models/alias")]
  | RCreateModelVersion _ => [("POST", "/api/2.0/mlflow/model-versions/create")]
  | RGetModelVersion _ => [("GET", "/api/2.0/mlflow/model-versions/get")]
  | RUpdateModelVersion _ => [("POST", "/api/2.0/mlflow/model-versions/update")]
  | RDeleteModelVersion _ _ _ => [("POST", "/api/2.0/mlflow/model-versions/delete"); ("DELETE", "/api/2.0/mlflow/model-versions/delete")]
  | RSearchModelVersions _ _ =>
      [("POST", "/api/2.0/mlflow/model-versions/search"); ("GET", "/api/2.0/mlflow/model-versions/search")]
  | RGetModelVersionDownloadURI _ => [("GET", "/api/2.0/mlflow/model-versions/get-download-uri")]
  | RTransitionModelStage _ => [("POST", "/api/2.0/mlflow/model-versions/transition-stage")]
  | RSetModelVersionTag _ => [("POST", "/api/2.0/mlflow/model-versions/set-tag")]
  | RDeleteModelVersionTag _ => [("POST", "/api/2.0/mlflow/model-versions/delete-tag")]
  end%string.

(** What a reply shows: models and versions. *)
Inductive RegShown :=
  | ShowNone
  | ShowModels (l : list registeredModelDTO)
  | ShowVersions (l : list mvDTO).

Definition reg_shown {A} (f : A → RegShown) (m : M (Reply A)) : M (Reply RegShown) :=
  r ← m; mret (mkReply (rp_Status r) (rp_Code r) (f <$> rp_Body r) (rp_Notify r)).

Definition registry_handle `{Clock} (like : string → string → bool) (ws : string) (c : RegCall) : M (Reply RegShown) :=
  let model := reg_shown (λ m, ShowModels [m]) in
  let version := reg_shown (λ m, ShowVersions [m]) in
  let done := reg_shown (λ _ : unit, ShowNone) in
  match c with
  | RCreateRegisteredModel b => model (Handler_CreateRegisteredModel ws b)
  | RGetRegisteredModel q => model (Handler_GetRegisteredModel ws q)
  | RRenameRegisteredModel b => model (Handler_RenameRegisteredModel ws b)
  | RUpdateRegisteredModel b => model (Handler_UpdateRegisteredModel ws b)
  | RDeleteRegisteredModel n q => done (Handler_DeleteRegisteredModel ws n q)
  | RSearchRegisteredModels r q => reg_shown (λ p, ShowModels p.1) (Handler_SearchRegisteredModels like ws r q)
  | RGetLatestModelVersions r q => reg_shown ShowVersions (Handler_GetLatestModelVersions ws r q)
  | RSetRegisteredModelTag b => done (Handler_SetRegisteredModelTag ws b)
  | RDeleteRegisteredModelTag b => done (Handler_DeleteRegisteredModelTag ws b)
  | RSetModelAlias b => done (Handler_SetModelAlias ws b)
  | RDeleteModelAlias n a q => done (Handler_DeleteModelAlias ws n a q)
  | RGetModelByAlias q => version (Handler_GetModelByAlias ws q)
  | RCreateModelVersion b => version (Handler_CreateModelVersion ws b)
  | RGetModelVersion q => version (Handler_GetModelVersion ws q)
  | RUpdateModelVersion b => version (Handler_UpdateModelVersion ws b)
  | RDeleteModelVersion n v q => done (Handler_DeleteModelVersion ws n v q)
  | RSearchModelVersions r q => reg_shown (λ p, ShowVersions p.1) (Handler_SearchModelVersions like ws r q)
  | RGetModelVersionDownloadURI q => reg_shown (λ _, ShowNone) (Handler_GetModelVersionDownloadURI ws q)
  | RTransitionModelStage b => version (Handler_TransitionModelStage ws b)
  | RSetModelVersionTag b => done (Handler_SetModelVersionTag ws b)
  | RDeleteModelVersionTag b => done (Handler_DeleteModelVersionTag ws b)
  end.

(** ** The registry of one workspace *)

Section view.
Context `{ModelKeyed K, Countable K} {V : Type}.
Implicit Types t : gmap K V.

(** The rows of workspace [v]. *)
Definition rows_in (v : string) t : gmap K V := filter (λ p, (owner p.1).1 = v) t.

Lemma rows_in_insert v k x t : (owner k).1 ≠ v → rows_in v (<[k := x]> t) = rows_in v t.
Proof. intros Hk. apply map_filter_insert_not. by intros y. Qed.

Lemma rows_in_delete v k t : (owner k).1 ≠ v → rows_in v (delete k t) = rows_in v t.
Proof. intros Hk. apply map_filter_delete_not. by intros y. Qed.

Lemma rows_in_filter v (P : K * V → Prop) `{∀ p, Decision (P p)} t :
  (∀ p, (owner p.1).1 = v → P p) → rows_in v (filter P t) = rows_in v t.
Proof. intros HP. apply map_filter_strong_ext. intros k x. rewrite map_lookup_filter_Some. naive_solver. Qed.

Lemma rows_in_cascade v o t : o.1 ≠ v → rows_in v (cascade o t) = rows_in v t.
Proof. intros Ho. apply rows_in_filter. intros p Hp Hpo. rewrite Hpo in Hp. done. Qed.

Lemma rows_in_ext v t t' : (∀ k, (owner k).1 = v → t' !! k = t !! k) → rows_in v t' = rows_in v t.
Proof.
  intros Ht. apply map_filter_strong_ext. intros k x. cbn. split; intros [Hk Hx]; (split; [done|]).
  - by rewrite <- Ht.
  - by rewrite Ht.
Qed.

Lemma rows_in_moved v o o' t t' : o.1 ≠ v → o'.1 ≠ v → moved o o' t t' → rows_in v t' = rows_in v t.
Proof.
  intros Ho Ho' Hm. apply rows_in_ext. intros k Hk. rewrite Hm.
  rewrite !decide_False by (intros E; rewrite E in Hk; done). done.
Qed.
End view.

Record RegistryView := mkRegistryView {
  rv_models : gmap (string * string) ModelRow;
  rv_model_tags : gmap (string * string * string) string;
  rv_versions : gmap (string * string * Z) ModelVersionRow;
  rv_version_tags : gmap (string * string * Z * string) string;
  rv_aliases : gmap (string * string * string) Z }.

Definition registry_view (v : string) (d : DB) : RegistryView :=
  mkRegistryView (rows_in v (registered_models d)) (rows_in v (registered_model_tags d)) (rows_in v (model_versions d))
    (rows_in v (model_version_tags d)) (rows_in v (model_aliases d)).

(** The tables the registry API does not write. *)
Definition outside (d : DB) := (db_tenant d, db_track d, db_dataset d, prompts d, prompt_aliases d).

(** A version is linked to runs of its own workspace only. *)
Definition links_confined (d : DB) : Prop := ∀ ws n v r R,
  model_versions d !! (ws, n, v) = Some r → mvr_run_id r = Some R → run_workspace d R = Some ws.

Definition model_visible (ws : string) (d : DB) (m : registeredModelDTO) : Prop :=
  is_Some (registered_models d !! (ws, rmd_Name m)).
Definition version_visible (ws : string) (d : DB) (m : mvDTO) : Prop :=
  ∃ v, mvd_Version m = FormatInt v ∧ is_Some (model_versions d !! (ws, mvd_Name m, v)).
Definition reg_visible (ws : string) (d : DB) (s : RegShown) : Prop :=
  match s with
  | ShowNone => True
  | ShowModels l => Forall (model_visible ws d) l
  | ShowVersions l => Forall (version_visible ws d) l
  end.

Section isolation.
Context `{Clock} (ws v : string) (d0 : DB).
Hypothesis Hne : ws ≠ v.
Hypothesis Hws : ws ≠ EmptyString.

Lemma dws : default_ws ws = ws.
Proof. unfold default_ws. by rewrite decide_False. Qed.

(** Compared with [d0]. *)
Record kept (d : DB) : Prop := {
  kp_outside : outside d = outside d0;
  kp_view : registry_view v d = registry_view v d0;
  kp_links : links_confined d0 → links_confined d }.

(** Versions of [d'] are linked like versions of [d]. *)
Definition links_from (d d' : DB) : Prop := ∀ u n ver r,
  model_versions d' !! (u, n, ver) = Some r →
  ∃ n' ver' r', model_versions d !! (u, n', ver') = Some r' ∧ mvr_run_id r' = mvr_run_id r.

Lemma links_same d d' : model_versions d' = model_versions d → links_from d d'.
Proof. intros Heq u n ver r Hr. rewrite Heq in Hr. by exists n, ver, r. Qed.

Lemma run_workspace_outside d d' R : outside d = outside d' → run_workspace d R = run_workspace d' R.
Proof. intros [= _ E _]. unfold run_workspace. by rewrite E. Qed.

Lemma kept_step d d' :
  kept d → outside d' = outside d → registry_view v d' = registry_view v d → links_from d d' → kept d'.
Proof.
  intros [H1 H2 H3] Ho Hv Hl. split; [congruence|congruence|].
  intros Hd0 u n ver r R Hr HR. destruct (Hl _ _ _ _ Hr) as (n' & ver' & r' & Hr' & E).
  rewrite (run_workspace_outside _ _ _ Ho). rewrite <- E in HR. by eapply (H3 Hd0).
Qed.

(** A write of the tables below [ws]. *)
Ltac kept_write d :=
  apply (kept_step d); [done|done|unfold registry_view; f_equal; cbn;
    first [done|apply rows_in_insert; by cbn|apply rows_in_delete; by cbn|apply rows_in_cascade; by cbn]
   |first [by apply links_same|idtac]].

Lemma insert_model_kept n r : Preserves kept (insert_model ws n r).
Proof.
  apply get_bind_pres. intros w Hw. case_decide; [done|]. case_decide; [|done]. cbn. kept_write (w_db w).
Qed.

Lemma CreateRegisteredModel_kept m : Preserves kept (CreateRegisteredModel ws m).
Proof. unfold CreateRegisteredModel. rewrite dws. pose proof insert_model_kept. apply _. Qed.

Lemma SetRegisteredModelTag_kept n k x : Preserves kept (SetRegisteredModelTag ws n k x).
Proof.
  unfold SetRegisteredModelTag. rewrite dws. apply bind_pres; [apply _|]. intros m. apply modify_pres.
  intros d Hd. kept_write d.
Qed.

Lemma DeleteRegisteredModelTag_kept n k : Preserves kept (DeleteRegisteredModelTag ws n k).
Proof.
  unfold DeleteRegisteredModelTag. rewrite dws. apply get_bind_pres. intros w Hw. case_decide; [|done]. cbn.
  kept_write (w_db w).
Qed.

Lemma SetModelAlias_kept n a ver : Preserves kept (SetModelAlias ws n a ver).
Proof.
  unfold SetModelAlias. rewrite dws. apply bind_pres; [apply _|]. intros m. apply modify_pres.
  intros d Hd. kept_write d.
Qed.

Lemma DeleteModelAlias_kept n a : Preserves kept (DeleteModelAlias ws n a).
Proof.
  unfold DeleteModelAlias. rewrite dws. apply get_bind_pres. intros w Hw. case_decide; [|done]. cbn.
  kept_write (w_db w).
Qed.

Lemma SetModelVersionTag_kept n ver k x : Preserves kept (SetModelVersionTag ws n ver k x).
Proof.
  unfold SetModelVersionTag. rewrite dws. apply bind_pres; [apply _|]. intros m. apply modify_pres.
  intros d Hd. kept_write d.
Qed.

Lemma DeleteModelVersionTag_kept n ver k : Preserves kept (DeleteModelVersionTag ws n ver k).
Proof.
  unfold DeleteModelVersionTag. rewrite dws. apply get_bind_pres. intros w Hw. case_decide; [|done]. cbn.
  kept_write (w_db w).
Qed.

Lemma links_sub d d' : model_versions d' ⊆ model_versions d → links_from d d'.
Proof. intros Hs u n ver r Hr. exists n, ver, r. split; [by eapply lookup_weaken|done]. Qed.

Lemma DeleteRegisteredModel_kept n : Preserves kept (DeleteRegisteredModel ws n).
Proof.
  unfold DeleteRegisteredModel. rewrite dws. apply get_bind_pres. intros w Hw. case_decide; [|done].
  rewrite !modify_bind. unfold modify. cbn [w_db snd].
  apply (kept_step (w_db w)); [done|done| |apply links_sub, map_filter_subseteq].
  unfold registry_view. f_equal; cbn; first [by apply rows_in_cascade|by apply rows_in_delete].
Qed.

Lemma DeleteModelVersion_kept n ver : Preserves kept (DeleteModelVersion ws n ver).
Proof.
  unfold DeleteModelVersion. rewrite dws. apply get_bind_pres. intros w Hw. case_decide; [|done].
  rewrite !modify_bind. unfold modify. cbn [w_db snd].
  apply (kept_step (w_db w)); [done|done| |apply links_sub, delete_subseteq].
  unfold registry_view. f_equal; cbn; first [by apply rows_in_delete|done|idtac].
  - apply rows_in_filter. intros [[k1 k2] x]. cbn. intros Hk ->. done.
  - apply rows_in_filter. intros [[k1 k2] x]. cbn. intros Hk [-> _]. done.
Qed.

Lemma update_version_kept n ver f :
  (∀ r, mvr_run_id (f r) = mvr_run_id r) → Preserves kept (update_version ws n ver f).
Proof.
  intros Hf w Hw. rewrite update_version_eq. destruct (model_versions (w_db w) !! _) as [r|] eqn:Hr; [|done].
  destruct (ValidStage _); [|done]. cbn. kept_write (w_db w).
  intros u n' ver' r'. cbn. rewrite lookup_insert_Some. intros [[[= <- <- <-] <-]|[_ Hr']]; [|by exists n', ver', r'].
  exists n, ver, r. by rewrite Hf.
Qed.

Lemma UpdateModelVersion_kept n ver s : Preserves kept (UpdateModelVersion ws n ver s).
Proof.
  unfold UpdateModelVersion. rewrite dws. destruct s as [s|]; [|apply _].
  pose proof (λ t, update_version_kept n ver (with_mv_description (nilIfEmpty s) t) (λ _, eq_refl)).
  unfold rows_or_not_found. pres_auto.
Qed.

Lemma UpdateRegisteredModel_kept n s : Preserves kept (UpdateRegisteredModel ws n s).
Proof.
  unfold UpdateRegisteredModel. rewrite dws. destruct s as [s|]; [|apply _]. apply bind_pres; [apply _|]. intros now.
  apply get_bind_pres. intros w Hw. destruct (model_row _ _ _); [|done]. rewrite modify_bind.
  apply GetRegisteredModel_pres. cbn. kept_write (w_db w).
Qed.

Lemma TransitionModelStage_kept n ver stage archive : Preserves kept (TransitionModelStage ws n ver stage archive).
Proof.
  unfold TransitionModelStage. rewrite dws. destruct (negb _); [apply _|].
  pose proof (λ t, update_version_kept n ver (with_stage stage t) (λ _, eq_refl)).
  assert (∀ now, Preserves kept (modify (archive_production ws n ver now))) as Ha.
  { intros now. apply modify_pres. intros d Hd. apply (kept_step d); [done|done| |].
    - unfold registry_view. f_equal. apply rows_in_ext. intros [[u n'] ver'] Hu. cbn in *. rewrite map_lookup_imap.
      destruct (model_versions d !! _); [|done]. cbn. rewrite decide_False; [done|]. intros [[= -> _] _]. done.
    - intros u n' ver' r'. cbn. rewrite map_lookup_imap. destruct (model_versions d !! _) as [r|] eqn:Hr; [|done]. cbn.
      intros [= <-]. exists n', ver', r. split; [done|]. by case_decide. }
  unfold rows_or_not_found. pres_auto.
Qed.

(** The linked run was checked. *)
Lemma CreateModelVersion_kept mv R :
  mv_RunID mv = R → (R ≠ EmptyString → run_workspace d0 R = Some ws) → Preserves kept (CreateModelVersion ws mv).
Proof.
  intros HR Hrun w Hw. destruct (CreateModelVersion_exec ws mv w) as [[_ ->]|(_ & _ & ->)]; [|done].
  rewrite GetModelVersion_eq, dws. cbn [snd w_db]. destruct Hw as [Ho Hv Hl]. split; [done| |].
  - rewrite <- Hv. unfold registry_view. f_equal. by apply rows_in_insert.
  - intros Hd0 u n ver r R'. cbn. rewrite lookup_insert_Some.
    intros [[[= <- <- <-] <-]|[_ Hr]]; [|by apply (Hl Hd0 _ _ _ _ _ Hr)].
    cbn. unfold nilIfEmpty. case_decide; [done|]. intros [= <-]. rewrite HR in *.
    change (run_workspace (w_db w) R = Some ws). rewrite (run_workspace_outside _ _ _ Ho). auto.
Qed.

Lemma rename_outside o o' `{ModelKeyed K, Countable K} {V} (get_t : DB → gmap K V) set_t :
  (∀ t d, outside (set_t t d) = outside d) →
  Preserves (λ d, outside d = outside d0) (rename_in get_t set_t o o').
Proof.
  intros Hset w Hw. unfold rename_in. rewrite get_bind. destruct (rename_rows _ _ _) as [t|]; [|done].
  rewrite lift_Ok_bind. cbn. by rewrite Hset.
Qed.

Lemma Rename_outside n n' : Preserves (λ d, outside d = outside d0) (RenameRegisteredModel ws n n').
Proof.
  unfold RenameRegisteredModel. cbv zeta.
  apply bind_pres; [apply _|]. intros ?. apply bind_pres; [apply _|]. intros now. apply bind_pres; [apply _|]. intros d.
  case_decide; [apply _|]. case_decide; [apply _|]. apply bind_pres; [|intros ?; apply _]. apply transaction_pres.
  repeat (apply bind_pres; [first [apply map_err_pres|idtac]; by apply rename_outside|intros ?]).
  by apply modify_pres.
Qed.

Lemma RenameRegisteredModel_kept n n' w :
  registry_wf (w_db w) → kept (w_db w) → kept (w_db (RenameRegisteredModel ws n n' w).2).
Proof.
  intros Hwf Hk. pose proof (Rename_outside n n' w (kp_outside _ Hk)) as Hout.
  destruct (RenameRegisteredModel_exec ws n n' w Hwf) as [(_ & -> & _)|(d' & _ & _ & _ & Hr & E)]; [done|].
  rewrite E in *. rewrite GetRegisteredModel_eq in *. cbn [snd w_db] in *. rewrite dws in *.
  destruct Hr as [R1 R2 R3 R4 R5 _]. apply (kept_step (w_db w)); [done|by rewrite Hout, (kp_outside _ Hk)| |].
  - unfold registry_view. f_equal; try (by eapply rows_in_moved; [| |eassumption]).
    apply rows_in_ext. intros [u m] Hu. cbn in Hu. rewrite R5, !decide_False by (intros [= -> _]; done). done.
  - intros u m ver r Hr. rewrite R1 in Hr. cbn in Hr. case_decide as E1.
    + injection E1 as -> ->. by exists n, ver, r.
    + case_decide; [done|]. by exists m, ver, r.
Qed.

(** *** What the operations return *)

Definition shows_model {A} (m : M A) (f : A → RegisteredModel) : Prop := ∀ w a w',
  m w = (Ok a, w') → model_visible ws (w_db w') (registeredModelToDTO (f a)).
Definition shows_version (m : M ModelVersion) : Prop := ∀ w a w',
  m w = (Ok a, w') → version_visible ws (w_db w') (modelVersionToDTO a).

Lemma GetRegisteredModel_shows n : shows_model (GetRegisteredModel ws n) (λ m, m).
Proof.
  intros w m w'. rewrite GetRegisteredModel_eq, dws. destruct (model_row _ _ _) as [r|] eqn:Hr; [|done].
  intros [= <- <-]. unfold model_visible. cbn. unfold model_row in Hr. by rewrite Hr.
Qed.

Lemma GetModelVersion_shows n ver : shows_version (GetModelVersion ws n ver).
Proof.
  intros w mv w'. rewrite GetModelVersion_eq, dws. destruct (model_versions _ !! _) as [r|] eqn:Hr; [|done].
  intros [= <- <-]. exists ver. cbn. by rewrite Hr.
Qed.

Lemma bind_shows_model {A B} (m : M A) (k : A → M B) f : (∀ a, shows_model (k a) f) → shows_model (m ≫= k) f.
Proof. intros Hk w b w' (a & w1 & _ & E)%bind_exec_Ok. by eapply Hk. Qed.

Lemma bind_shows_version {A} (m : M A) (k : A → M ModelVersion) : (∀ a, shows_version (k a)) → shows_version (m ≫= k).
Proof. intros Hk w b w' (a & w1 & _ & E)%bind_exec_Ok. by eapply Hk. Qed.

Lemma fail_shows_model e : shows_model (fail e) (λ m, m).
Proof. by intros w a w'. Qed.
Lemma fail_shows_version e : shows_version (fail e).
Proof. by intros w a w'. Qed.

Ltac shows :=
  repeat first [apply GetRegisteredModel_shows|apply GetModelVersion_shows|apply fail_shows_model|apply fail_shows_version
               |apply bind_shows_model; intros ?|apply bind_shows_version; intros ?|case_match].

Lemma Rename_shows n n' : shows_model (RenameRegisteredModel ws n n') (λ m, m).
Proof. unfold RenameRegisteredModel. rewrite dws. cbv zeta. shows. Qed.
Lemma UpdateModel_shows n s : shows_model (UpdateRegisteredModel ws n s) (λ m, m).
Proof. unfold UpdateRegisteredModel. rewrite dws. cbv zeta. shows. Qed.
Lemma CreateVersion_shows mv : shows_version (CreateModelVersion ws mv).
Proof. unfold CreateModelVersion. rewrite dws. cbv zeta. shows. Qed.
Lemma UpdateVersion_shows n ver s : shows_version (UpdateModelVersion ws n ver s).
Proof. unfold UpdateModelVersion. rewrite dws. cbv zeta. shows. Qed.
Lemma Transition_shows n ver stage a : shows_version (TransitionModelStage ws n ver stage a).
Proof. unfold TransitionModelStage. rewrite dws. cbv zeta. shows. Qed.
Lemma GetModelByAlias_shows n a : shows_version (GetModelByAlias ws n a).
Proof. unfold GetModelByAlias. rewrite dws. cbv zeta. shows. Qed.

(** Loading tags and aliases keeps the items. *)
Lemma loadModelVersionMeta_keys d W mvs : mvKey <$> loadModelVersionMeta d W mvs = mvKey <$> mvs.
Proof.
  unfold loadModelVersionMeta. generalize (chunks (length mvs) mvBatchSize mvs). intros bs.
  induction bs as [|b bs IH] in mvs |- *; [done|]. cbn [foldl]. rewrite IH. unfold scanMVMeta.
  rewrite (foldl_append_row mvKey add_version_aliases), (foldl_append_row mvKey add_version_tags).
  rewrite <- !list_fmap_compose. apply list_fmap_ext. by intros i e _.
Qed.

Lemma versions_visible d (rs : list (string * Z * ModelVersionRow)) :
  Forall (λ p, is_Some (model_versions d !! (ws, p.1.1, p.1.2))) rs →
  Forall (λ m, version_visible ws d (modelVersionToDTO m))
    (loadModelVersionMeta d ws ((λ p, scanModelVersionRow ws p.1.1 p.1.2 p.2) <$> rs)).
Proof.
  intros Hrs. set (l := loadModelVersionMeta _ _ _).
  assert (mvKey <$> l = rs.*1) as Hk.
  { unfold l. rewrite loadModelVersionMeta_keys, <- list_fmap_compose. apply list_fmap_ext. by intros i [[? ?] ?] _. }
  apply Forall_forall. intros m Hm. rewrite Forall_forall in Hrs.
  assert (mvKey m ∈ rs.*1) as Hin by (rewrite <- Hk; by apply list_elem_of_fmap_2).
  apply list_elem_of_fmap in Hin as ([[n ver] r] & Hkey & Hin). injection Hkey as <- <-.
  exists (mv_Version m). split; [done|]. exact (Hrs _ Hin).
Qed.

Lemma models_visible d (rs : list (string * ModelRow)) :
  Forall (λ p, is_Some (registered_models d !! (ws, p.1))) rs →
  Forall (λ m, model_visible ws d (registeredModelToDTO m))
    (loadRegisteredModelAliases d ws (loadRegisteredModelTags d ws ((λ p, scanRegisteredModel ws p.1 p.2) <$> rs))).
Proof.
  intros Hrs. set (l := loadRegisteredModelAliases _ _ _).
  assert (rm_Name <$> l = rs.*1) as Hk.
  { unfold l, loadRegisteredModelAliases, loadRegisteredModelTags. rewrite (load_batches_keys rm_Name add_model_aliases), (load_batches_keys rm_Name add_model_tags).
    rewrite <- list_fmap_compose. apply list_fmap_ext. by intros i [? ?] _. }
  apply Forall_forall. intros m Hm. rewrite Forall_forall in Hrs.
  assert (rm_Name m ∈ rs.*1) as Hin by (rewrite <- Hk; by apply list_elem_of_fmap_2).
  apply list_elem_of_fmap in Hin as ([n r] & Hkey & Hin). unfold model_visible. cbn. rewrite Hkey. exact (Hrs _ Hin).
Qed.

(** *** Handlers *)

Definition reg_inv (d : DB) : Prop := registry_wf d ∧ kept d.

#[local] Abbreviation triple := (triple reg_inv).
#[local] Abbreviation answers := (answers reg_inv (λ _ _, True)).

Lemma pres_both {A} (m : M A) : Preserves registry_wf m → Preserves kept m → Preserves reg_inv m.
Proof. intros H1 H2 w [? ?]. split; [by apply H1|by apply H2]. Qed.

Lemma inv_pres {A} (m : M A) : Preserves reg_inv m → triple reg_inv m (λ _, reg_inv).
Proof. by apply triple_pres. Qed.

Lemma answers_unit (m : M unit) : Preserves reg_inv m → answers reg_inv (reply_unit m) (λ _ _, True).
Proof. intros Hm. by apply answers_effect. Qed.

Lemma answers_model (m : M RegisteredModel) :
  Preserves reg_inv m → shows_model m (λ m, m) →
  answers reg_inv (reply_model m) (λ x d, reg_visible ws d (ShowModels [x])).
Proof.
  intros Hm Hs. apply (answers_store _ (λ m d, reg_inv d ∧ model_visible ws d (registeredModelToDTO m))).
  - intros w Hw. specialize (Hm w Hw). specialize (Hs w). destruct (m w) as [[a|e] w1]; [|done]. split; [done|by eapply Hs].
  - intros a. apply answers_write. intros d [? ?]. split_and!; [done|by constructor|done].
Qed.

Lemma answers_version (m : M ModelVersion) :
  Preserves reg_inv m → shows_version m →
  answers reg_inv (reply_version m) (λ x d, reg_visible ws d (ShowVersions [x])).
Proof.
  intros Hm Hs. apply (answers_store _ (λ m d, reg_inv d ∧ version_visible ws d (modelVersionToDTO m))).
  - intros w Hw. specialize (Hm w Hw). specialize (Hs w). destruct (m w) as [[a|e] w1]; [|done]. split; [done|by eapply Hs].
  - intros a. apply answers_write. intros d [? ?]. split_and!; [done|by constructor|done].
Qed.

Lemma Rename_inv n n' : Preserves reg_inv (RenameRegisteredModel ws n n').
Proof. intros w [Hwf Hk]. split; [by apply RenameRegisteredModel_wf|by apply RenameRegisteredModel_kept]. Qed.

Lemma SetModelTag_inv n k x : Preserves reg_inv (SetRegisteredModelTag ws n k x).
Proof. apply pres_both; [apply SetRegisteredModelTag_wf|apply SetRegisteredModelTag_kept]. Qed.

Lemma SetVersionTag_inv n ver k x : Preserves reg_inv (SetModelVersionTag ws n ver k x).
Proof. apply pres_both; [apply SetModelVersionTag_wf|apply SetModelVersionTag_kept]. Qed.

Lemma CreateModel_answers body :
  answers reg_inv (Handler_CreateRegisteredModel ws body) (λ x d, reg_visible ws d (ShowModels [x])).
Proof.
  apply answers_body; [done|]. intros req. apply answers_require; [done|].
  eapply answers_store; [apply inv_pres, pres_both; [apply CreateRegisteredModel_wf|apply CreateRegisteredModel_kept]|].
  intros ?. eapply answers_store; [apply inv_pres, for_each_pres; intros t _; apply SetModelTag_inv|]. intros ?.
  apply answers_model; [apply _|apply GetRegisteredModel_shows].
Qed.

(** A linked run passes the check only when it is in the workspace. *)
Lemma check_linked_run_triple R :
  triple reg_inv (check_linked_run ws R) (λ _ d, reg_inv d ∧ (R ≠ EmptyString → run_workspace d0 R = Some ws)).
Proof.
  unfold check_linked_run, nonempty. case_bool_decide as HR; [|apply triple_ret; intros d Hd; split; [done|tauto]].
  intros w Hw. unfold ensureRunInWorkspace, GetRunInWorkspace, getRunInWorkspace. rewrite dws, bind_bind, get_bind.
  destruct Hw as [Hwf Hk]. pose proof (run_workspace_outside _ _ R (kp_outside _ Hk)) as E. unfold run_workspace in E.
  destruct (runs (w_db w) !! R) as [r|]; [|done]. cbn in *.
  destruct (rows (experiments (w_db w)) !! _) as [e|]; [|done]. cbn in *. case_decide as Hd; [|done]. cbn.
  split; [done|]. intros _. unfold run_workspace. by rewrite <- E, Hd.
Qed.

Lemma CreateVersion_answers body :
  answers reg_inv (Handler_CreateModelVersion ws body) (λ x d, reg_visible ws d (ShowVersions [x])).
Proof.
  apply answers_body; [done|]. intros req. apply answers_require; [done|]. apply answers_require; [done|].
  eapply answers_store; [apply check_linked_run_triple|]. intros ?. apply answers_pure. intros HR.
  apply (answers_store reg_inv (λ _, reg_inv)).
  { apply inv_pres, pres_both; [apply CreateModelVersion_wf|by eapply CreateModelVersion_kept]. }
  intros mv. eapply answers_store; [apply inv_pres, for_each_pres; intros t _; apply SetVersionTag_inv|]. intros ?.
  apply answers_version; [apply _|apply GetModelVersion_shows].
Qed.

Lemma SearchModels_answers like req q :
  answers reg_inv (Handler_SearchRegisteredModels like ws req q) (λ p d, reg_visible ws d (ShowModels p.1)).
Proof.
  unfold Handler_SearchRegisteredModels. cbv zeta. set (r := search_args req q).
  apply (answers_store _ (λ res d, reg_inv d ∧ Forall (λ m, model_visible ws d (registeredModelToDTO m)) res.1)).
  - intros w Hw. unfold SearchRegisteredModels. rewrite dws. cbv zeta.
    destruct (registry_filter _ _) as [c|]; [|done]. rewrite lift_Ok_bind, get_bind.
    destruct (page _ _ _ _) as [out next] eqn:Hp. cbn. split; [done|]. apply models_visible, Forall_forall.
    intros [n row] Hin. apply (page_in _ _ _ _ _ _ _ Hp) in Hin.
    apply list_elem_of_omap in Hin as ([[w1 n1] r1] & Hl & Hc). case_decide as Hd; [|done]. destruct Hd as [-> _].
    injection Hc as -> ->. cbn. apply elem_of_map_to_list in Hl. by rewrite Hl.
  - intros [l tok]. apply answers_write. intros d [? Hl]. split_and!; [done| |done]. cbn. by apply Forall_fmap.
Qed.

Lemma SearchVersions_answers like req q :
  answers reg_inv (Handler_SearchModelVersions like ws req q) (λ p d, reg_visible ws d (ShowVersions p.1)).
Proof.
  unfold Handler_SearchModelVersions. cbv zeta. set (r := search_args req q).
  apply (answers_store _ (λ res d, reg_inv d ∧ Forall (λ m, version_visible ws d (modelVersionToDTO m)) res.1)).
  - intros w Hw. unfold SearchModelVersions. rewrite dws. cbv zeta.
    destruct (registry_filter _ _) as [c|]; [|done]. rewrite lift_Ok_bind.
    destruct (parse_version_token _) as [cur|]; [|done]. rewrite lift_Ok_bind, get_bind.
    set (l := take _ (sort_by fst _)). destruct (if decide _ then _ else _) as [out next] eqn:Ho. cbn. split; [done|].
    apply versions_visible, Forall_forall. intros x Hin.
    assert (x ∈ l) as Hl.
    { case_decide; injection Ho as <- _; [|done]. apply elem_of_take in Hin as (i & Hi & _).
      by apply list_elem_of_lookup_2 in Hi. }
    apply elem_of_take in Hl as (i & Hi & _).
    apply list_elem_of_lookup_2, elem_of_sort_by, list_elem_of_filter in Hi as [_ Hi].
    apply list_elem_of_omap in Hi as ([[[w1 n1] v1] r1] & Hl & Hc). case_decide as Hd; [|done]. destruct Hd as [-> _].
    injection Hc as <-. cbn. apply elem_of_map_to_list in Hl. by rewrite Hl.
  - intros [l tok]. apply answers_write. intros d [? Hl]. split_and!; [done| |done]. cbn. by apply Forall_fmap.
Qed.

Lemma LatestVersions_answers req q :
  answers reg_inv (Handler_GetLatestModelVersions ws req q) (λ l d, reg_visible ws d (ShowVersions l)).
Proof.
  unfold Handler_GetLatestModelVersions. cbv zeta. set (name := or_else _ _). apply answers_require; [done|].
  apply (answers_store _ (λ l d, reg_inv d ∧ Forall (λ m, version_visible ws d (modelVersionToDTO m)) l)).
  - intros w Hw. unfold GetLatestModelVersions. rewrite dws, GetRegisteredModel_bind, dws.
    destruct (model_row _ _ _); [|done]. rewrite get_bind. set (out := sort_by _ _). cbn. split; [done|].
    pose proof (versions_visible (w_db w) ((λ p, (name, p.1, p.2)) <$> out)) as Hv.
    rewrite <- list_fmap_compose in Hv. apply Hv, Forall_fmap, Forall_forall. intros [ver r] Hin.
    unfold out in Hin. apply elem_of_sort_by, list_elem_of_filter in Hin as [_ Hin].
    apply elem_of_versions_of in Hin. cbn. by rewrite Hin.
  - intros l. apply answers_write. intros d [? Hl]. split_and!; [done| |done]. cbn. by apply Forall_fmap.
Qed.

Lemma registry_answers like c :
  answers reg_inv (registry_handle like ws c) (λ s d, reg_visible ws d s).
Proof.
  destruct c; cbn [registry_handle]; cbv zeta; apply answers_map;
    first [apply CreateModel_answers|apply CreateVersion_answers|apply SearchModels_answers|apply SearchVersions_answers
          |apply LatestVersions_answers|idtac].
  - unfold Handler_GetRegisteredModel. apply answers_require, answers_model; [done|apply _|apply GetRegisteredModel_shows].
  - apply answers_body; [done|]. intros req. apply answers_require, answers_model; [done|apply Rename_inv|apply Rename_shows].
  - apply answers_body; [done|]. intros req. apply answers_require, answers_model; [done| |apply UpdateModel_shows].
    apply pres_both; [apply UpdateRegisteredModel_wf|apply UpdateRegisteredModel_kept].
  - unfold Handler_DeleteRegisteredModel. apply answers_require, answers_unit; [done|].
    apply pres_both; [apply DeleteRegisteredModel_wf|apply DeleteRegisteredModel_kept].
  - apply answers_body; [done|]. intros req. apply answers_require, answers_unit; [done|apply SetModelTag_inv].
  - apply answers_body; [done|]. intros [name key]. apply answers_require, answers_unit; [done|].
    apply pres_both; [apply DeleteRegisteredModelTag_wf|apply DeleteRegisteredModelTag_kept].
  - apply answers_body; [done|]. intros req. apply answers_require, answers_int; [done|done|]. intros ver. apply answers_unit.
    apply pres_both; [apply SetModelAlias_wf|apply SetModelAlias_kept].
  - unfold Handler_DeleteModelAlias. apply answers_require, answers_unit; [done|].
    apply pres_both; [apply DeleteModelAlias_wf|apply DeleteModelAlias_kept].
  - unfold Handler_GetModelByAlias. apply answers_require, answers_version; [done| |apply GetModelByAlias_shows].
    unfold GetModelByAlias. cbv zeta. pres_auto.
  - unfold Handler_GetModelVersion. apply answers_require, answers_int; [done|done|]. intros ver.
    apply answers_version; [apply _|apply GetModelVersion_shows].
  - apply answers_body; [done|]. intros req. apply answers_require, answers_int; [done|done|]. intros ver.
    apply answers_version; [|apply UpdateVersion_shows].
    apply pres_both; [apply UpdateModelVersion_wf|apply UpdateModelVersion_kept].
  - unfold Handler_DeleteModelVersion. apply answers_require, answers_int; [done|done|]. intros ver. apply answers_unit.
    apply pres_both; [apply DeleteModelVersion_wf|apply DeleteModelVersion_kept].
  - unfold Handler_GetModelVersionDownloadURI. apply answers_require, answers_int; [done|done|]. intros ver.
    eapply answers_store; [apply inv_pres, _|]. intros mv. apply answers_write. by intros d Hd.
  - apply answers_body; [done|]. intros req. apply answers_require, answers_int; [done|done|]. intros ver.
    apply answers_version; [|apply Transition_shows].
    apply pres_both; [apply TransitionModelStage_wf|apply TransitionModelStage_kept].
  - apply answers_body; [done|]. intros req. apply answers_require, answers_int; [done|done|]. intros ver.
    apply answers_unit, SetVersionTag_inv.
  - apply answers_body; [done|]. intros [[name version] key]. apply answers_require, answers_int; [done|done|]. intros ver.
    apply answers_unit, pres_both; [apply DeleteModelVersionTag_wf|apply DeleteModelVersionTag_kept].
Qed.
End isolation.

(** C7: the registry over REST.  From a database with referential integrity,
    every call replies; integrity still holds; the models and versions shown
    are those of the workspace of the call; if versions were linked only to
    runs of their own workspace, they still are; and the rows of the other
    workspaces [v], as well as every table outside the registry, are
    unchanged. *)
Theorem registry_api_confined `{Clock} like ws c w :
  registry_wf (w_db w) → ws ≠ EmptyString →
  ∃ rep w', registry_handle like ws c w = (Ok rep, w') ∧ registry_wf (w_db w') ∧
    (∀ s, rp_Body rep = Some s → reg_visible ws (w_db w') s) ∧
    (links_confined (w_db w) → links_confined (w_db w')) ∧ outside (w_db w') = outside (w_db w) ∧
    ∀ v, v ≠ ws → registry_view v (w_db w') = registry_view v (w_db w).
Proof.
  intros Hwf Hws.
  assert (∀ v, v ≠ ws → ∃ rep w', registry_handle like ws c w = (Ok rep, w') ∧ reg_inv v (w_db w) (w_db w') ∧
    (∀ s, rp_Body rep = Some s → reg_visible ws (w_db w') s)) as Hv.
  { intros v Hne. destruct (registry_answers ws v (w_db w) (not_eq_sym Hne) Hws like c w) as (rep & w' & E & Hi & Hs & _).
    - split; [done|]. by split.
    - by exists rep, w'. }
  set (u := (if decide (ws = "a"%string) then "b" else "a")%string).
  destruct (Hv u) as (rep & w' & E & [Hwf' [Ho _ Hl]] & Hs); [unfold u; by case_decide; subst|].
  exists rep, w'. split_and!; try done. intros v Hne. destruct (Hv v Hne) as (rep' & w'' & E' & [_ [_ Hview _]] & _).
  rewrite E in E'. by injection E' as <- <-.
Qed.
