(* ===== verification/Isolation.v ===== *)
(** * Isolation of workspaces in the tracking API

    What belongs to a workspace is a sub-database, [tenant_view]: the rows of
    its experiments and datasets, of the runs of those experiments, and of
    everything logged on these runs.  A call of the MLflow API that runs in
    another workspace leaves it unchanged, and what a reply shows belongs to
    the workspace the call ran in. *)

From S2P Require Import Prelude GoStrings Model Database Batches Keyset Filter Events Runs Sample RunData.
From S2P Require Import Downsample Experiments Registry RegistryLaws Datasets Inputs Search TimeTravel.
From S2P Require Import MlflowApi ApiLogic RegistryApi.

Open Scope Z_scope.

(** ** The part of the database a workspace owns *)

Definition exp_owner (d : DB) (id : Z) : option string :=
  (λ e, default_ws (er_workspace_id e)) <$> rows (experiments d) !! id.

Definition row_owner (d : DB) (r : RunRow) : option string := exp_owner d (rr_experiment_id r).

Definition run_owner (d : DB) (R : string) : option string := runs d !! R ≫= row_owner d.

(** The owner of a v0.3 dataset link. *)
Definition link_owner (d : DB) (i : Z) : option string :=
  rows (dataset_inputs d) !! i ≫= λ l, run_owner d (lr_run_id l).

Record TrackView := mkTrackView {
  tv_experiments : gmap Z ExperimentRow;
  tv_experiment_tags : gmap (Z * string) string;
  tv_runs : gmap string RunRow;
  tv_tags : gmap (string * string) string;
  tv_params : gmap (string * string) string;
  tv_metrics : gmap MetricKey float64;
  tv_metrics_latest : gmap (string * string) (float64 * (Z * Z));
  tv_events : gmap Z EventRow;
  tv_datasets : gmap Z DatasetRow;
  tv_inputs : gmap Z InputRow;
  tv_links : gmap Z LegacyInputRow;
  tv_link_tags : gmap (Z * string) string }.

(** What the tracking API writes, by owner.  The metadata of datasets
    ([datasets], keyed by name and digest) has no owner. *)
Definition track_view (v : string) (d : DB) : TrackView :=
  mkTrackView
    (filter (λ p, default_ws (er_workspace_id p.2) = v) (rows (experiments d)))
    (filter (λ p, exp_owner d p.1.1 = Some v) (experiment_tags d))
    (filter (λ p, row_owner d p.2 = Some v) (runs d))
    (filter (λ p, run_owner d p.1.1 = Some v) (tags d))
    (filter (λ p, run_owner d p.1.1 = Some v) (params d))
    (filter (λ p, run_owner d p.1.1.1 = Some v) (metrics d))
    (filter (λ p, run_owner d p.1.1 = Some v) (metrics_latest d))
    (filter (λ p, run_owner d (evr_entity_id p.2) = Some v) (rows (events d)))
    (filter (λ p, xr_workspace_id p.2 = v) (rows (datasets_v2 d)))
    (filter (λ p, run_owner d (ir_run_id p.2) = Some v) (rows (dataset_inputs_v2 d)))
    (filter (λ p, run_owner d (lr_run_id p.2) = Some v) (rows (dataset_inputs d)))
    (filter (λ p, link_owner d p.1.1 = Some v) (dataset_input_tags d)).

(** Together with the tables it only reads, as a whole. *)
Record TenantView := mkTenantView {
  tv_tenant : TenantTables;
  tv_registry : RegistryTables;
  tv_notes : gmap string NoteRow;
  tv_evals : gmap string EvalRow;
  tv_traces : gmap string SpanRow;
  tv_lineage : gset (Z * Z);
  tv_track : TrackView }.

Definition tenant_view (v : string) (d : DB) : TenantView :=
  mkTenantView (db_tenant d) (db_registry d) (run_notes d) (evals d) (traces d) (dataset_lineage d) (track_view v d).

(** The AUTOINCREMENT tables the API inserts into. *)
Record serials_wf (d : DB) : Prop := {
  sw_experiments : serial_wf (experiments d);
  sw_events : serial_wf (events d);
  sw_datasets : serial_wf (datasets_v2 d);
  sw_inputs : serial_wf (dataset_inputs_v2 d);
  sw_links : serial_wf (dataset_inputs d) }.

(** ** Statements that do not touch the rows of [v] *)

Section foreign.
Context (v : string).

(** Two tables filtered by owner agree when the owners do. *)
Lemma filter_owner_ext `{Countable K} {A} (P Q : K * A → Prop) `{∀ x, Decision (P x)} `{∀ x, Decision (Q x)}
    (m : gmap K A) :
  (∀ p, P p ↔ Q p) → filter P m = filter Q m.
Proof. intros HPQ. apply map_filter_ext. intros i x _. apply HPQ. Qed.

Lemma view_set_tags d R k x :
  run_owner d R ≠ Some v → tenant_view v (set_tags (<[(R, k) := x]> (tags d)) d) = tenant_view v d.
Proof.
  intros Ho. unfold tenant_view, track_view. do 2 f_equal.
  apply (map_filter_insert_not (λ p, run_owner d p.1.1 = Some v)). by intros y.
Qed.

Lemma view_delete_tag d R k :
  run_owner d R ≠ Some v → tenant_view v (set_tags (delete (R, k) (tags d)) d) = tenant_view v d.
Proof.
  intros Ho. unfold tenant_view, track_view. do 2 f_equal.
  apply (map_filter_delete_not (λ p, run_owner d p.1.1 = Some v)). by intros y.
Qed.

Lemma view_set_params d R k x :
  run_owner d R ≠ Some v → tenant_view v (set_params (<[(R, k) := x]> (params d)) d) = tenant_view v d.
Proof.
  intros Ho. unfold tenant_view, track_view. do 2 f_equal.
  apply (map_filter_insert_not (λ p, run_owner d p.1.1 = Some v)). by intros y.
Qed.

Lemma view_set_metrics d R k x :
  run_owner d R ≠ Some v → tenant_view v (set_metrics (<[(R, k.1, k.2) := x]> (metrics d)) d) = tenant_view v d.
Proof.
  intros Ho. unfold tenant_view, track_view. do 2 f_equal.
  apply (map_filter_insert_not (λ p, run_owner d p.1.1.1 = Some v)). by intros y.
Qed.

Lemma view_set_latest d R k x :
  run_owner d R ≠ Some v →
  tenant_view v (set_metrics_latest (<[(R, k) := x]> (metrics_latest d)) d) = tenant_view v d.
Proof.
  intros Ho. unfold tenant_view, track_view. do 2 f_equal.
  apply (map_filter_insert_not (λ p, run_owner d p.1.1 = Some v)). by intros y.
Qed.

Lemma view_insert_event d e :
  serial_wf (events d) → run_owner d (evr_entity_id e) ≠ Some v →
  tenant_view v (set_events (serial_insert e (events d)).2 d) = tenant_view v d.
Proof.
  intros Hs Ho. unfold tenant_view, track_view. do 2 f_equal. cbn.
  apply (map_filter_insert_not' (λ p, run_owner d (evr_entity_id p.2) = Some v)); [done|].
  intros y. by rewrite serial_fresh.
Qed.

Lemma view_insert_dataset d r :
  serial_wf (datasets_v2 d) → xr_workspace_id r ≠ v →
  tenant_view v (set_datasets_v2 (serial_insert r (datasets_v2 d)).2 d) = tenant_view v d.
Proof.
  intros Hs Ho. unfold tenant_view, track_view. do 2 f_equal. cbn.
  apply (map_filter_insert_not' (λ p, xr_workspace_id p.2 = v)); [done|]. intros y. by rewrite serial_fresh.
Qed.

Lemma view_insert_input d r :
  serial_wf (dataset_inputs_v2 d) → run_owner d (ir_run_id r) ≠ Some v →
  tenant_view v (set_dataset_inputs_v2 (serial_insert r (dataset_inputs_v2 d)).2 d) = tenant_view v d.
Proof.
  intros Hs Ho. unfold tenant_view, track_view. do 2 f_equal. cbn.
  apply (map_filter_insert_not' (λ p, run_owner d (ir_run_id p.2) = Some v)); [done|]. intros y. by rewrite serial_fresh.
Qed.

Lemma view_insert_link d l :
  serial_wf (dataset_inputs d) → run_owner d (lr_run_id l) ≠ Some v →
  tenant_view v (set_dataset_inputs (serial_insert l (dataset_inputs d)).2 d) = tenant_view v d.
Proof.
  intros Hs Ho. unfold tenant_view, track_view. do 2 f_equal; cbn.
  - apply (map_filter_insert_not' (λ p, run_owner d (lr_run_id p.2) = Some v)); [done|]. intros y. by rewrite serial_fresh.
  - apply filter_owner_ext. intros [[i k] x]. cbn. unfold link_owner. cbn.
    destruct (decide (i = seq_no (dataset_inputs d) + 1)) as [->|Hi].
    + rewrite lookup_insert_eq, serial_fresh by done. by cbn.
    + by rewrite lookup_insert_ne.
Qed.

Lemma view_set_link_tags d i k x :
  link_owner d i ≠ Some v →
  tenant_view v (set_dataset_input_tags (<[(i, k) := x]> (dataset_input_tags d)) d) = tenant_view v d.
Proof.
  intros Ho. unfold tenant_view, track_view. do 2 f_equal.
  apply (map_filter_insert_not (λ p, link_owner d p.1.1 = Some v)). by intros y.
Qed.

Lemma view_set_experiment_tags d id k x :
  exp_owner d id ≠ Some v →
  tenant_view v (set_experiment_tags (<[(id, k) := x]> (experiment_tags d)) d) = tenant_view v d.
Proof.
  intros Ho. unfold tenant_view, track_view. do 2 f_equal.
  apply (map_filter_insert_not (λ p, exp_owner d p.1.1 = Some v)). by intros y.
Qed.

(** A statement on [runs] may change who owns what is logged on the run, but
    not whether it is [v]. *)
Lemma view_set_runs d R r :
  run_owner d R ≠ Some v → row_owner d r ≠ Some v →
  tenant_view v (set_runs (<[R := r]> (runs d)) d) = tenant_view v d.
Proof.
  intros Ho Hr.
  assert (∀ R', run_owner (set_runs (<[R := r]> (runs d)) d) R' = Some v ↔ run_owner d R' = Some v) as Hiff.
  { intros R'. unfold run_owner at 1. cbn. destruct (decide (R' = R)) as [->|Hne].
    - rewrite lookup_insert_eq. cbn. tauto.
    - by rewrite lookup_insert_ne. }
  unfold tenant_view, track_view. do 2 f_equal;
    try (apply filter_owner_ext; intros p; first [apply Hiff|by cbn]).
  - cbn. apply (map_filter_insert_not' (λ p, row_owner d p.2 = Some v)); [done|].
    intros y Hy. unfold run_owner in Ho. by rewrite Hy in Ho.
  - apply filter_owner_ext. intros p. unfold link_owner. cbn.
    destruct (rows (dataset_inputs d) !! p.1.1); cbn; [apply Hiff|done].
Qed.

(** Likewise a statement on [experiments]. *)
Lemma view_put_experiment d id row n :
  exp_owner d id ≠ Some v → default_ws (er_workspace_id row) ≠ v →
  tenant_view v (set_experiments (mkSerial (<[id := row]> (rows (experiments d))) n) d) = tenant_view v d.
Proof.
  intros Ho Hr.
  set (d' := set_experiments _ d).
  assert (∀ i, exp_owner d' i = Some v ↔ exp_owner d i = Some v) as He.
  { intros i. unfold exp_owner at 1. cbn. destruct (decide (i = id)) as [->|Hne].
    - rewrite lookup_insert_eq. cbn. split; [congruence|tauto].
    - by rewrite lookup_insert_ne. }
  assert (∀ R', run_owner d' R' = Some v ↔ run_owner d R' = Some v) as Hiff.
  { intros R'. unfold run_owner. cbn. destruct (runs d !! R'); cbn; [apply He|done]. }
  unfold tenant_view, track_view. do 2 f_equal;
    try (apply filter_owner_ext; intros p; first [apply Hiff|apply He]).
  - cbn. apply (map_filter_insert_not' (λ p, default_ws (er_workspace_id p.2) = v)); [done|].
    intros y Hy. unfold exp_owner in Ho. rewrite Hy in Ho. cbn in *. congruence.
  - apply filter_owner_ext. intros p. unfold link_owner. cbn.
    destruct (rows (dataset_inputs d) !! p.1.1); cbn; [apply Hiff|done].
Qed.
End foreign.

(** ** What a reply may show *)

Definition metric_of (d : DB) (R : string) (m : Metric) : Prop :=
  metrics d !! (R, metric_Key m, obs m) = Some (metric_Value m).
Definition param_of (d : DB) (R : string) (p : Param) : Prop := params d !! (R, param_Key p) = Some (param_Value p).
Definition experiment_tag_of (d : DB) (id : Z) (t : KV) : Prop :=
  experiment_tags d !! (id, kv_Key t) = Some (kv_Value t).

(** An experiment of [ws], with its name and tags. *)
Definition experiment_visible (ws : string) (d : DB) (e : experimentDTO) : Prop :=
  ∃ id row, rows (experiments d) !! id = Some row ∧ default_ws (er_workspace_id row) = ws ∧
    ed_ExperimentID e = FormatInt id ∧ ed_Name e = er_name row ∧ Forall (experiment_tag_of d id) (ed_Tags e).

(** A run of [ws], with its metrics and parameters. *)
Definition run_visible (ws : string) (d : DB) (x : runDTO) : Prop :=
  let R := ri_RunID (rn_Info x) in
  run_owner d R = Some ws ∧ Forall (metric_of d R) (rd_Metrics (rn_Data x)) ∧ Forall (param_of d R) (rd_Params (rn_Data x)).

Definition visible (ws : string) (d : DB) (s : Shown) : Prop :=
  match s with
  | ShowNothing => True
  | ShowExperiments l => Forall (experiment_visible ws d) l
  | ShowRuns l => Forall (run_visible ws d) l
  | ShowRunInfo r => run_owner d (ri_RunID r) = Some ws
  | ShowMetrics l => ∃ R, run_owner d R = Some ws ∧ Forall (metric_of d R) l
  end.

(** Webhooks hear of runs of their own workspace. *)
Definition notified (ws : string) (d : DB) (n : Notification) : Prop :=
  nt_Workspace n = ws ∧ run_owner d (run_ID (nt_Run n)) = Some ws.

(** ** The writes of the API *)

Section writes.
Context `{Clock} (ws v : string) (V0 : TenantView).
Hypothesis Hne : ws ≠ v.
Hypothesis Hws : ws ≠ EmptyString.

(** [v] owns the same rows as at the start. *)
Definition untouched (d : DB) : Prop := serials_wf d ∧ tenant_view v d = V0.

(** Additionally a run, or an experiment, of [ws] is at hand. *)
Definition holds_run (R : string) (d : DB) : Prop := untouched d ∧ run_owner d R = Some ws.
Definition holds_exp (id : Z) (d : DB) : Prop := untouched d ∧ exp_owner d id = Some ws.

Lemma foreign_run R d : run_owner d R = Some ws → run_owner d R ≠ Some v.
Proof. congruence. Qed.

Ltac split_wf :=
  match goal with
  | |- serials_wf _ => split; cbn; first [assumption|apply serial_wf_insert; assumption|idtac]
  end.

(** A statement with the run [R] at hand: its effect keeps the sequences,
    the view of [v] and the owner of [R]. *)
Lemma holds_run_step R d d' :
  holds_run R d → serials_wf d' → (run_owner d R ≠ Some v → tenant_view v d' = tenant_view v d) →
  run_owner d' R = run_owner d R → holds_run R d'.
Proof.
  intros [[_ Hv] Ho] Hs' Hv' Ho'. split; [split; [done|]|congruence].
  rewrite Hv'; [done|by apply foreign_run].
Qed.

#[local] Instance upsert_tag_holds R k x : Preserves (holds_run R) (upsert_tag R k x).
Proof.
  apply get_bind_pres. intros w Hw. destruct (run_exists _ R); [|done].
  apply (holds_run_step R (w_db w)); [done|by destruct Hw as [[[] _] _]; split_wf|by apply view_set_tags|done].
Qed.

#[local] Instance writeRunEvent_holds R kind p : Preserves (holds_run R) (writeRunEvent kind R p).
Proof.
  intros w Hw. unfold writeRunEvent. rewrite now_bind. destruct (check_event_kind kind); [|done].
  apply (holds_run_step R (w_db w)); [done|by destruct Hw as [[[] _] _]; split_wf| |done].
  intros Ho. destruct Hw as [[[] _] _]. by apply view_insert_event.
Qed.

(** The column updates of a run keep its experiment. *)
Definition keeps_experiment (f : RunRow → RunRow) : Prop := ∀ r, rr_experiment_id (f r) = rr_experiment_id r.

Lemma update_run_holds R f : keeps_experiment f → Preserves (holds_run R) (update_run R f).
Proof.
  intros Hf. apply get_bind_pres. intros w Hw. destruct (runs (w_db w) !! R) as [r|] eqn:Hr; [|done].
  cbv zeta. destruct (negb _); [done|]. match goal with |- context [(if ?b then modify _ ≫= _ else _)] => destruct b end; [|done].
  rewrite modify_bind.
  assert (run_owner (w_db w) R = row_owner (w_db w) (f r)) as Ho.
  { unfold run_owner, row_owner. by rewrite Hr, Hf. }
  apply (holds_run_step R (w_db w)); [done|by destruct Hw as [[[] _] _]; split_wf| |].
  - intros Hv. apply view_set_runs; [done|]. by rewrite <- Ho.
  - rewrite Ho. unfold run_owner. cbn. by rewrite lookup_insert_eq.
Qed.

#[local] Instance write_before_holds R kind b : Preserves (holds_run R) (write_before kind R b).
Proof. destruct b; apply _. Qed.

#[local] Instance captureRunBefore_holds P R : Preserves P (captureRunBefore R).
Proof. by intros w. Qed.
#[local] Instance readTagValue_holds P R k : Preserves P (readTagValue R k).
Proof. by intros w. Qed.
#[local] Instance assertRunExists_holds P R : Preserves P (assertRunExists R).
Proof. intros w Hw. unfold assertRunExists. rewrite get_bind. by case_decide. Qed.

#[local] Instance syncParent_holds R p : Preserves (holds_run R) (syncParentRunIDFromTag R p).
Proof. unfold syncParentRunIDFromTag. pose proof (update_run_holds R (with_parent p) (λ _, eq_refl)). apply _. Qed.

#[local] Instance setParent_holds R p : Preserves (holds_run R) (setParentRunID R p).
Proof.
  unfold setParentRunID. pose proof (update_run_holds R (with_parent p) (λ _, eq_refl)). case_decide; apply _.
Qed.

#[local] Instance SetTag_holds R t : Preserves (holds_run R) (SetTag R t).
Proof. unfold SetTag. apply _. Qed.

#[local] Instance SetTags_holds R ts : Preserves (holds_run R) (SetTags R ts).
Proof.
  unfold SetTags. pres_auto.
  - apply for_each_pres. intros t _. apply _.
  - apply for_each_pres. intros t _. apply _.
Qed.

#[local] Instance DeleteTag_holds R k : Preserves (holds_run R) (DeleteTag R k).
Proof.
  unfold DeleteTag. apply bind_pres; [apply _|]. intros before. apply transaction_pres, get_bind_pres.
  intros w Hw. case_decide; [done|]. rewrite modify_bind.
  assert (holds_run R (set_tags (delete (R, k) (tags (w_db w))) (w_db w))) as Hw'.
  { apply (holds_run_step R (w_db w)); [done|by destruct Hw as [[[] _] _]; split_wf|by apply view_delete_tag|done]. }
  destruct before; [|done]. by apply writeRunEvent_holds.
Qed.

Lemma UpdateRun_tx_holds R f kind b : keeps_experiment f → Preserves (holds_run R) (UpdateRun_tx R f kind b).
Proof. intros Hf. unfold UpdateRun_tx. pose proof (update_run_holds R f Hf). pres_auto. Qed.

#[local] Instance UpdateRun_holds R s e n : Preserves (holds_run R) (UpdateRun R s e n).
Proof.
  assert (keeps_experiment (update_cols s e n)) as Hf by (intros r; by destruct s, e, n).
  unfold UpdateRun. pose proof (λ b, UpdateRun_tx_holds R _ EventRunUpdate b Hf). pres_auto.
Qed.

#[local] Instance SetRunLifecycle_holds R stage : Preserves (holds_run R) (SetRunLifecycle R stage).
Proof.
  unfold SetRunLifecycle.
  pose proof (λ b, UpdateRun_tx_holds R (with_lifecycle stage) EventRunLifecycle b (λ _, eq_refl)). pres_auto.
Qed.

#[local] Instance insert_metric_holds R m : Preserves (holds_run R) (insert_metric R m).
Proof.
  apply get_bind_pres. intros w Hw. cbv zeta. case_decide; [done|]. destruct (run_exists _ R); [|done].
  apply (holds_run_step R (w_db w)); [done|by destruct Hw as [[[] _] _]; split_wf| |done].
  intros Ho. cbn. set (d1 := set_metrics _ _).
  assert (tenant_view v d1 = tenant_view v (w_db w)) as Hd1.
  { apply (view_set_metrics v (w_db w) R (metric_Key m, (metric_Timestamp m, metric_Step m))). done. }
  rewrite <- Hd1. unfold trg_metrics_latest_ai. destruct (metrics_latest (w_db w) !! (R, metric_Key m)) as [[? [t s]]|];
    [case_match|]; first [by apply (view_set_latest v d1)|done].
Qed.

#[local] Instance log_one_holds R m : Preserves (holds_run R) (log_one R m).
Proof. unfold log_one. pres_auto. Qed.

#[local] Instance LogMetrics_holds R ms : Preserves (holds_run R) (LogMetrics R ms).
Proof. unfold LogMetrics. pres_auto. apply for_each_pres. intros. apply _. Qed.

#[local] Instance LogParam_holds R p : Preserves (holds_run R) (LogParam R p).
Proof.
  unfold LogParam. apply bind_pres; [apply _|]. intros _. apply bind_pres; [apply _|]. intros _.
  apply get_bind_pres. intros w Hw. destruct (params _ !! _); [by case_decide|]. destruct (run_exists _ R); [|done].
  apply (holds_run_step R (w_db w)); [done|by destruct Hw as [[[] _] _]; split_wf|by apply view_set_params|done].
Qed.
(** *** Dataset inputs *)

Lemma or_retry_pres {A} P (m k : M A) : Preserves P m → Preserves P k → Preserves P (or_retry m k).
Proof.
  intros Hm Hk w Hw. unfold or_retry. specialize (Hm w Hw). destruct (m w) as [[a|e] w1]; [done|].
  destruct e; try done. by apply Hk.
Qed.

Lemma insert_dataset_holds R r : xr_workspace_id r = ws → Preserves (holds_run R) (insert_dataset r).
Proof.
  intros Hr. apply get_bind_pres. intros w Hw. destruct (negb _); [done|]. case_decide; [done|].
  cbn [serial_insert]. rewrite modify_bind.
  apply (holds_run_step R (w_db w)); [done|by destruct Hw as [[[] _] _]; split_wf| |done].
  intros _. destruct Hw as [[[] _] _]. apply view_insert_dataset; [done|]. by rewrite Hr.
Qed.

Lemma mirror_attempts_holds n R name digest : Preserves (holds_run R) (mirror_attempts n ws name digest).
Proof.
  induction n as [|n IH]; cbn; [apply _|]. apply get_bind_pres. intros w Hw.
  destruct (mirrored _ _ _ _) as [|[i r] l]; [|done]. rewrite now_bind. apply or_retry_pres; [|done|done].
  apply transaction_pres. by apply insert_dataset_holds.
Qed.

#[local] Instance mirror_holds R name digest : Preserves (holds_run R) (mirrorIntoDatasetsV2Returning R name digest).
Proof.
  apply get_bind_pres. intros w Hw. destruct (run_workspace _ R) as [u|] eqn:Hu; [|done].
  assert (default_ws u = ws) as ->; [|by apply mirror_attempts_holds].
  destruct Hw as [_ Ho]. unfold run_owner, row_owner, exp_owner in Ho. unfold run_workspace in Hu.
  destruct (runs _ !! R) as [r|]; [|done]. cbn in *. destruct (rows _ !! _); cbn in *; congruence.
Qed.

#[local] Instance insert_input_holds R id ts : Preserves (holds_run R) (insert_input (mkInputRow R id ts)).
Proof.
  apply get_bind_pres. intros w Hw. destruct (_ && _); [|done].
  apply (holds_run_step R (w_db w)); [done|by destruct Hw as [[[] _] _]; split_wf| |done].
  intros Ho. destruct Hw as [[[] _] _]. by apply view_insert_input.
Qed.

#[local] Instance upsert_metadata_holds R x : Preserves (holds_run R) (upsert_metadata x).
Proof.
  apply modify_pres. intros d Hd. cbv zeta.
  apply (holds_run_step R d); [done|by destruct Hd as [[[] _] _]; split_wf|done|done].
Qed.

(** The link is in place while its tags are inserted. *)
Lemma link_tags_hold R id ts :
  Preserves (λ d, holds_run R d ∧ link_owner d id = Some ws)
    (for_each (λ tag, modify (λ d, set_dataset_input_tags
       (<[(id, kv_Key tag) := kv_Value tag]> (dataset_input_tags d)) d)) ts).
Proof.
  apply for_each_pres. intros t _. apply modify_pres. intros d [Hd Hl]. split; [|done].
  apply (holds_run_step R d); [done|by destruct Hd as [[[] _] _]; split_wf| |done].
  intros _. apply view_set_link_tags. congruence.
Qed.

#[local] Instance insert_legacy_holds R x : Preserves (holds_run R) (insert_legacy R x).
Proof.
  apply get_bind_pres. intros w Hw. destruct (negb _); [done|]. cbn [serial_insert]. rewrite modify_bind.
  apply (link_tags_hold R (seq_no (dataset_inputs (w_db w)) + 1)). split.
  - apply (holds_run_step R (w_db w)); [done|by destruct Hw as [[[] _] _]; split_wf| |done].
    intros Ho. destruct Hw as [[[] _] _]. by apply (view_insert_link v (w_db w) (mkLegacyInputRow R _ _)).
  - unfold link_owner. cbn. rewrite lookup_insert_eq. by destruct Hw.
Qed.

#[local] Instance LogInputs_holds writeV03 R l : Preserves (holds_run R) (LogInputs writeV03 R l).
Proof.
  unfold LogInputs, logInputsOnce. pres_auto. apply for_each_pres. intros x _. unfold log_input. apply _.
Qed.

(** *** Experiments *)

Lemma holds_exp_put id row d n :
  serial_wf (mkSerial (<[id := row]> (rows (experiments d))) n) → default_ws (er_workspace_id row) = ws →
  exp_owner d id ≠ Some v → untouched d →
  holds_exp id (set_experiments (mkSerial (<[id := row]> (rows (experiments d))) n) d).
Proof.
  intros Hs Hrow Ho [[] Hv]. split; [split|].
  - by split_wf.
  - rewrite view_put_experiment; [done|done|congruence].
  - unfold exp_owner. cbn. rewrite lookup_insert_eq. cbn. by rewrite Hrow.
Qed.

Lemma update_experiment_holds id f :
  (∀ r, er_workspace_id (f r) = er_workspace_id r) → Preserves (holds_exp id) (update_experiment id f).
Proof.
  intros Hf. apply get_bind_pres. intros w Hw. destruct (rows _ !! id) as [r|] eqn:Hr; [|done]. cbv zeta.
  destruct (negb _); [done|]. case_decide; [done|]. rewrite modify_bind. destruct Hw as [Hu Ho].
  apply holds_exp_put; [| |congruence|done].
  - destruct Hu as [[] _]. apply (serial_wf_set id (f r) (experiments (w_db w))); [done|by eexists].
  - rewrite Hf. unfold exp_owner in Ho. rewrite Hr in Ho. cbn in Ho. congruence.
Qed.

#[local] Instance SetExperimentTag_holds id k x : Preserves (holds_exp id) (SetExperimentTag id k x).
Proof.
  unfold SetExperimentTag. apply bind_pres; [apply _|]. intros _. apply get_bind_pres. intros w Hw.
  case_decide; [|done]. destruct Hw as [[[] Hv] Ho]. split; [split|done]; [by split_wf|].
  rewrite <- Hv. apply view_set_experiment_tags. congruence.
Qed.

#[local] Instance rows_or_not_found_pres P n : Preserves P (rows_or_not_found n).
Proof. unfold rows_or_not_found. case_decide; apply _. Qed.

#[local] Instance UpdateExperiment_holds id n : Preserves (holds_exp id) (UpdateExperiment id n).
Proof.
  unfold UpdateExperiment. destruct n as [n|]; [|apply _].
  pose proof (λ t, update_experiment_holds id (with_exp_name n t) (λ _, eq_refl)). apply _.
Qed.

#[local] Instance SetExperimentLifecycle_holds id st : Preserves (holds_exp id) (SetExperimentLifecycle id st).
Proof.
  unfold SetExperimentLifecycle.
  pose proof (λ t, update_experiment_holds id (with_exp_stage st t) (λ _, eq_refl)). apply _.
Qed.
(** ** Store operations and handlers that leave [v] untouched *)

#[local] Abbreviation triple := (triple untouched).
#[local] Abbreviation answers := (answers untouched (notified ws)).

Lemma holds_run_untouched R d : holds_run R d → untouched d.
Proof. by intros []. Qed.
Lemma holds_exp_untouched id d : holds_exp id d → untouched d.
Proof. by intros []. Qed.

(** *** Creation *)

Lemma CreateExperiment_triple e :
  default_ws (exp_WorkspaceID e) = ws → triple untouched (CreateExperiment e) holds_exp.
Proof.
  intros He. unfold CreateExperiment. eapply triple_bind; [apply triple_pres; [done|apply _]|]. intros ?.
  eapply triple_bind; [apply triple_pres; [done|apply _]|]. intros now. cbv zeta.
  apply (triple_bind _ holds_exp).
  - apply triple_map_err. intros w Hw. unfold insert_experiment. rewrite get_bind.
    destruct (negb _); [done|].
    destruct (decide (experiments_named _ _ _ ≠ [])); [done|].
    destruct (decide (is_Some (workspaces _ !! _))); [|done]. cbn.
    apply holds_exp_put; [| |  |done].
    + destruct Hw as [[] _]. by apply (serial_wf_insert _ (experiments (w_db w))).
    + cbn. by rewrite default_ws_idemp.
    + destruct Hw as [[] _]. unfold exp_owner. by rewrite serial_fresh.
  - intros id. apply (triple_bind _ (λ _, holds_exp id)); [|intros ?].
    { apply triple_pres; [apply holds_exp_untouched|].
      pose proof (λ l, update_experiment_holds id (with_location l) (λ _, eq_refl)). apply _. }
    apply (triple_bind _ (λ _, holds_exp id)); [|intros ?; by apply triple_ret].
    apply triple_pres; [apply holds_exp_untouched|]. apply for_each_pres. apply _.
Qed.

Lemma insert_run_triple id r :
  triple (holds_exp (rr_experiment_id r)) (insert_run id r) (λ _, holds_run id).
Proof.
  intros w [Hu Ho]. unfold insert_run. rewrite get_bind. destruct (negb _); [done|].
  destruct (run_exists _ id) eqn:Hid; [done|]. case_decide; [|done]. cbn.
  assert (run_owner (w_db w) id = None) as Hid'.
  { unfold run_owner. unfold run_exists in Hid. apply bool_decide_eq_false in Hid.
    apply eq_None_not_Some in Hid. by rewrite Hid. }
  destruct Hu as [[] Hv]. split; [split|]; [by split_wf| |].
  - rewrite <- Hv. apply view_set_runs; unfold row_owner; congruence.
  - unfold run_owner. cbn. by rewrite lookup_insert_eq.
Qed.

Lemma CreateRun_triple newID r :
  triple (holds_exp (run_ExperimentID r)) (CreateRun newID r) (λ run, holds_run (run_ID run)).
Proof.
  unfold CreateRun. eapply triple_bind.
  { apply triple_pres; [apply holds_exp_untouched|]. case_decide; apply _. }
  intros start. cbv zeta. set (r' := mkRun _ _ _ _ _ _ _ _ _ _ _ _ _).
  pose proof (insert_run_triple (default_to (run_ID r) newID) (run_row r')) as Hins.
  destruct (decide (run_ParentRunID r' = _)).
  - eapply triple_bind; [apply triple_map_err, Hins|]. intros ?. by apply triple_ret.
  - apply triple_transaction; [apply holds_exp_untouched|].
    eapply triple_bind; [apply triple_map_err, Hins|]. intros ?.
    eapply triple_bind; [apply triple_pres; [apply holds_run_untouched|apply _]|]. intros ?. by apply triple_ret.
Qed.
(** *** Reads *)

Lemma default_ws_ws : default_ws ws = ws.
Proof. unfold default_ws. by rewrite decide_False. Qed.

Lemma getRunInWorkspace_triple R : triple untouched (getRunInWorkspace R ws) (λ run d, holds_run R d ∧ run_ID run = R).
Proof.
  apply triple_get; [done|]. intros d run Hd. destruct (runs d !! R) as [r|] eqn:Hr; [|done]. cbn.
  destruct (rows (experiments d) !! _) as [e|] eqn:He; [|done]. cbn. case_decide as Hw; [|done]. cbn.
  intros [= <-]. split; [|done]. split; [done|]. unfold run_owner, row_owner, exp_owner. rewrite Hr. cbn.
  rewrite He. cbn. by rewrite Hw, default_ws_ws.
Qed.

Lemma GetRunInWorkspace_triple R : triple untouched (GetRunInWorkspace R ws) (λ run d, holds_run R d ∧ run_ID run = R).
Proof. unfold GetRunInWorkspace. rewrite default_ws_ws. apply getRunInWorkspace_triple. Qed.

Lemma ensureRun_triple R : triple untouched (ensureRunInWorkspace ws R) (λ _, holds_run R).
Proof.
  eapply triple_bind; [apply GetRunInWorkspace_triple|]. intros run. apply triple_ret. by intros d [].
Qed.

Lemma getExperimentTags_of d id : Forall (experiment_tag_of d id) (getExperimentTags d id).
Proof.
  apply Forall_forall. intros [k x] Hx. unfold getExperimentTags, one_query, exp_tag_scan in Hx.
  apply elem_of_sort_by, list_elem_of_fmap in Hx as ([i t] & -> & Hx).
  apply list_elem_of_filter in Hx as [Hi Hx]. apply list_elem_of_fmap in Hx as ([[i' k'] x'] & [= -> ->] & Hx).
  cbn in Hi. subst. by apply elem_of_map_to_list in Hx.
Qed.

Lemma scan_visible d id row tags :
  rows (experiments d) !! id = Some row → default_ws (er_workspace_id row) = ws →
  Forall (experiment_tag_of d id) tags → experiment_visible ws d (experimentToDTO (scan_experiment id row tags)).
Proof. intros Hr Hw Ht. by exists id, row. Qed.

Lemma getExperiment_triple id :
  triple untouched (getExperimentInWorkspace ws id)
    (λ e d, holds_exp id d ∧ experiment_visible ws d (experimentToDTO e)).
Proof.
  intros w Hw. unfold getExperimentInWorkspace, GetExperiment. rewrite bind_bind, get_bind.
  destruct (rows (experiments (w_db w)) !! id) as [row|] eqn:Hr; [|done].
  cbn [scanExperiment]. rewrite lift_Ok_bind. destruct (decide (default_ws (exp_WorkspaceID _) = ws)) as [Hd|]; [|done].
  cbn in *. split; [|by apply scan_visible, getExperimentTags_of]. split; [done|]. unfold exp_owner. by rewrite Hr, <- Hd.
Qed.

Lemma experiment_named_triple name :
  triple untouched (GetExperimentByNameInWorkspace ws name)
    (λ e d, untouched d ∧ experiment_visible ws d (experimentToDTO e)).
Proof.
  apply triple_get; [done|]. intros d e Hd He. split; [done|].
  destruct (experiments_named _ _ _) as [|[id row] l] eqn:En; [done|]. injection He as <-.
  assert ((id, row) ∈ experiments_named d (default_ws ws) name) as Hin by (rewrite En; left).
  apply list_elem_of_filter in Hin as [[Hw _] Hin%elem_of_map_to_list].
  cbn in Hw. apply scan_visible; [done|by rewrite Hw, default_ws_idemp, default_ws_ws|apply getExperimentTags_of].
Qed.

Lemma SearchExperiments_reads like opt d :
  opt_WorkspaceID opt = ws →
  reads d (SearchExperiments like opt) (λ res, Forall (λ e, experiment_visible ws d (experimentToDTO e)) res.1).
Proof.
  intros Hopt. unfold SearchExperiments. cbv zeta.
  apply (reads_bind d _ _ (λ _, True)); [by apply reads_lift|]. intros f _. apply reads_get.
  apply (reads_bind d _ _ (λ p, NoDup p.1.*1 ∧ ∀ x, x ∈ p.1 → x ∈ search_rows like d (default_ws (opt_WorkspaceID opt))
      (default_to (opt_LifecycleStage opt) LifecycleActive) f)).
  { apply reads_lift. intros [out token] E. split; [|by apply keyset_page_in in E as [_ ?]].
    eapply keyset_page_NoDup; [apply (NoDup_opt_rows like opt f)|exact E]. }
  intros [out token] [Hnd Hin]. apply reads_ret. cbn [fst snd] in *.
  rewrite load_page by done. apply Forall_fmap, Forall_forall. intros [id row] Hid.
  apply Hin, list_elem_of_filter in Hid as [[Hw _] Hid%elem_of_map_to_list].
  cbn in Hw. apply scan_visible; [done|cbn; by rewrite Hw, default_ws_idemp, Hopt, default_ws_ws|apply getExperimentTags_of].
Qed.

Lemma latest_reads d R asOf : reads d (getLatestMetricsAsOf R asOf) (Forall (metric_of d R)).
Proof.
  apply reads_get, reads_ret, Forall_forall. intros m Hm%elem_of_sort_by.
  apply list_elem_of_filter in Hm as [_ Hm]. by apply elem_of_metric_rows in Hm.
Qed.

Lemma params_read d R : reads d (GetParams R) (Forall (param_of d R)).
Proof.
  apply reads_get, reads_ret, Forall_forall. intros p Hp%elem_of_sort_by.
  apply list_elem_of_omap in Hp as ([[R' k] x] & Hin%elem_of_map_to_list & Hp). case_decide; [|done].
  by simplify_eq.
Qed.

Lemma collectRunData_reads d R asOf ts :
  reads d (collectRunData R asOf ts) (λ x, Forall (metric_of d R) (rd_Metrics x) ∧ Forall (param_of d R) (rd_Params x)).
Proof.
  unfold collectRunData. apply (reads_bind d _ _ (Forall (metric_of d R))); [case_decide; apply latest_reads|].
  intros ms Hms. apply (reads_bind d _ _ _ _ (params_read d R)). intros ps Hps.
  apply (reads_bind d _ _ (λ _, True)); [case_decide; [by apply reads_ret|by apply reads_get, reads_ret]|].
  intros ts' _. by apply reads_ret.
Qed.

Lemma collectRunInputs_reads d R : reads d (collectRunInputs R) (λ _, True).
Proof. apply (reads_bind d _ _ (λ _, True)); [by apply reads_get, reads_ret|]. intros l _. by apply reads_ret. Qed.

Lemma getRunInWorkspace_reads d R : reads d (getRunInWorkspace R ws) (λ run, run_owner d R = Some ws ∧ run_ID run = R).
Proof.
  apply reads_get, reads_lift. intros run. destruct (runs d !! R) as [r|] eqn:Hr; [|done]. cbn.
  destruct (rows (experiments d) !! _) as [e|] eqn:He; [|done]. cbn. case_decide as Hw; [|done]. cbn.
  intros [= <-]. split; [|done]. unfold run_owner, row_owner, exp_owner. rewrite Hr. cbn.
  rewrite He. cbn. by rewrite Hw, default_ws_ws.
Qed.

Lemma undo_all_id l run : run_ID (undo_all applyUndo l run) = run_ID run.
Proof.
  induction l as [|e l IH]; [done|]. cbn. rewrite <- IH. unfold applyUndo.
  destruct (as_object _); [|done]. by repeat case_match.
Qed.

Lemma GetRunAsOf_reads d R asOf :
  reads d (GetRunAsOfInWorkspace R ws asOf) (λ p, run_owner d R = Some ws ∧ run_ID p.1 = R).
Proof.
  unfold GetRunAsOfInWorkspace, getRunAsOfImpl. rewrite default_ws_ws, decide_False by done.
  apply (reads_bind d _ _ _ _ (getRunInWorkspace_reads d R)). intros run [Ho Hid].
  case_decide; [apply reads_fail|]. apply reads_get. cbv zeta. case_decide; [apply reads_fail|].
  apply (reads_bind d _ _ (λ _, True)); [by apply reads_get, reads_ret|]. intros ts _. apply reads_ret.
  split; [done|]. cbn. by rewrite undo_all_id.
Qed.
Lemma search_run_dto_reads d asOf r :
  run_owner d (run_ID r) = Some ws →
  reads d (search_run_dto ws asOf r) (λ o, ∀ x, o = Some x → run_visible ws d x).
Proof.
  intros Ho. unfold search_run_dto.
  assert (∀ r' ts, run_ID r' = run_ID r →
    reads d (data ← collectRunData (run_ID r) asOf ts; inputs ← collectRunInputs (run_ID r);
             mret (Some (mkRunDTO (runInfoToDTO r') data inputs))) (λ o, ∀ x, o = Some x → run_visible ws d x)) as Hrender.
  { intros r' ts Hid. apply (reads_bind d _ _ _ _ (collectRunData_reads d _ _ _)). intros x Hx.
    apply (reads_bind d _ _ _ _ (collectRunInputs_reads d _)). intros i _. apply reads_ret.
    intros y [= <-]. unfold run_visible. cbn. by rewrite Hid. }
  cbv zeta. case_decide; [|by apply Hrender]. case_decide; [by apply reads_ret|].
  intros w Hw. pose proof (GetRunAsOf_reads d (run_ID r) asOf w Hw) as Hr.
  destruct (GetRunAsOfInWorkspace _ _ _ w) as [[[r' ts]|[]] w1]; try done.
  destruct Hr as [Hw1 [_ Hid]]. by apply Hrender.
Qed.

Lemma search_run_dtos_reads d asOf l :
  Forall (λ r, run_owner d (run_ID r) = Some ws) l →
  reads d (search_run_dtos ws asOf l) (Forall (run_visible ws d)).
Proof.
  induction l as [|r l IH]; intros Hl; cbn; [by apply reads_ret|]. apply Forall_cons in Hl as [Hr Hl].
  apply (reads_bind d _ _ _ _ (search_run_dto_reads d asOf r Hr)). intros o Ho.
  apply (reads_bind d _ _ _ _ (IH Hl)). intros rest Hrest. apply reads_ret.
  destruct o; [constructor|]; auto.
Qed.

Lemma scoped_experiments_reads d ids : reads d (scoped_experiments ws ids) (λ _, True).
Proof.
  induction ids as [|x ids IH]; cbn; [by apply reads_ret|]. destruct (ParseInt x) as [n|]; [|by apply reads_ret].
  intros w Hw. unfold getExperimentInWorkspace, GetExperiment. rewrite bind_bind, get_bind. unfold lift, mbind, M_bind.
  assert (∀ f : option (list Z) → option (list Z),
    reads d (rest ← scoped_experiments ws ids; mret (f rest)) (λ _, True)) as Hk.
  { intros f. apply (reads_bind d _ _ _ _ IH). intros o _. by apply reads_ret. }
  destruct (scanExperiment _ _) as [e|e]; [case_decide|destruct e]; try done.
  - by apply (Hk (λ rest, (n ::.) <$> rest)).
  - by apply (Hk (λ rest, rest)).
  - by apply (Hk (λ rest, rest)).
Qed.

Lemma SearchRuns_reads ParseFloat eval d opt :
  opt_WorkspaceID opt = ws →
  reads d (SearchRuns ParseFloat eval opt) (λ res, Forall (λ r, run_owner d (run_ID r) = Some ws) res.1).
Proof.
  intros Hopt. unfold SearchRuns. apply (reads_bind d _ _ (λ _, True)); [by apply reads_lift|]. intros cs _.
  apply (reads_bind d _ _ (λ _, True)); [by apply reads_lift|]. intros cols _. apply reads_get.
  apply (reads_bind d _ _ (λ p, ∀ x, x ∈ p.1 → x ∈ run_rows eval d opt cs)).
  { apply reads_lift. intros [out next] Hp. apply keyset_page_in in Hp as [_ Hp]. exact Hp. }
  intros [out next] Hout. cbn in Hout. apply reads_ret. cbn. apply Forall_fmap, Forall_forall. intros [R row] Hin.
  apply Hout, list_elem_of_filter in Hin as [(_ & [Hw|Hw] & _) Hin%elem_of_map_to_list]; cbn in *; [congruence|].
  unfold run_owner, row_owner, exp_owner. rewrite Hin. cbn. unfold in_workspace in Hw.
  destruct (rows _ !! _) as [e|]; [|done]. cbn. by rewrite Hw, Hopt, default_ws_ws.
Qed.

Lemma GetMetricHistory_reads d R key n tok :
  reads d (GetMetricHistory R key n tok) (λ p, Forall (metric_of d R) p.1).
Proof.
  unfold GetMetricHistory. apply (reads_bind d _ _ (λ _, True)); [by apply reads_lift|]. intros cur _.
  apply reads_get. cbv zeta. set (l := sort_by _ _).
  assert (Forall (metric_of d R) l) as Hl.
  { apply Forall_forall. intros m Hm%elem_of_sort_by. apply list_elem_of_filter in Hm as [_ Hm].
    by apply elem_of_metric_rows in Hm. }
  case_decide; [case_decide|]; apply reads_ret; cbn; rewrite ?take_take; auto using Forall_take.
Qed.

Lemma point_in pts j p : point pts j = Ok p → p ∈ pts.
Proof.
  unfold point. case_decide; [done|]. destruct (pts !! _) eqn:E; [|done]. intros [= <-].
  by apply list_elem_of_lookup_2 in E.
Qed.

Lemma buckets_in pts n B idx prev out : buckets pts n B idx prev = Ok out → out ⊆ pts.
Proof.
  revert prev out. induction idx as [|i idx IH]; intros prev out; cbn; [intros [= <-]; apply list_subseteq_nil|].
  destruct (select _ _ _ _ _) as [best|]; [|done]. cbn. destruct (point pts best) as [p|] eqn:Hp; [|done]. cbn.
  destruct (buckets _ _ _ _ p) as [rest|] eqn:Hr; [|done]. cbn. intros [= <-] x [->|Hx]%elem_of_cons.
  - by eapply point_in.
  - by eapply IH.
Qed.

Lemma DownsampleLTTB_in pts target out : DownsampleLTTB pts target = Ok out → out ⊆ pts.
Proof.
  unfold DownsampleLTTB. cbv zeta. case_decide; [by intros [= <-]|].
  destruct (point pts 0) as [p|] eqn:Hp; [|done]. cbn. destruct (buckets _ _ _ _ _) as [mid|] eqn:Hm; [|done]. cbn.
  destruct (point pts (_ - 1)) as [q|] eqn:Hq; [|done]. cbn. intros [= <-] x.
  rewrite elem_of_cons, elem_of_app, list_elem_of_singleton. intros [->|[Hx| ->]].
  - by eapply point_in.
  - by eapply buckets_in.
  - by eapply point_in.
Qed.

Lemma Downsampled_reads d R key target :
  reads d (GetMetricHistoryDownsampled R key target) (λ p, Forall (metric_of d R) p.1).
Proof.
  apply (reads_bind d _ _ _ _ (GetMetricHistory_reads d R key 0 EmptyString)). intros [all tok] Hall. cbn in Hall.
  apply (reads_bind d _ _ (λ out, out ⊆ all)); [apply reads_lift; intros out; apply DownsampleLTTB_in|].
  intros out Hout. apply reads_ret. cbn.
  apply Forall_forall. intros m Hm. rewrite Forall_forall in Hall. auto.
Qed.
Lemma answers_experiment {B} id (k : Z → M (Reply B)) Q :
  (∀ n, answers (holds_exp n) (k n) Q) → answers untouched (with_experiment ws id k) Q.
Proof.
  intros Hk. apply answers_int; [done|]. intros n. eapply answers_store; [apply getExperiment_triple|].
  intros e w [Hw _]. by apply Hk.
Qed.

(** The handlers that check the run and then act on it. *)
Lemma answers_run {B} R (k : M (Reply B)) Q :
  answers (holds_run R) k Q → answers untouched (let! _ := ensureRunInWorkspace ws R in k) Q.
Proof. intros Hk. eapply answers_store; [apply ensureRun_triple|]. by intros []. Qed.

(** *** The handlers *)

Lemma SetTag_ignored_holds R t : Preserves (holds_run R) (ignore_err (SetTag R t)).
Proof. intros w Hw. by apply SetTag_holds. Qed.

Lemma CreateRun_answers newID body :
  answers untouched (Handler_CreateRun newID ws body) (λ x d, Forall (run_visible ws d) [x]).
Proof.
  apply answers_body; [done|]. intros req. apply answers_experiment. intros n.
  eapply answers_store; [apply (CreateRun_triple newID (mkRun _ n _ _ _ _ _ _ _ _ _ _ _))|]. intros run w Hw.
  assert (∀ l w0, holds_run (run_ID run) (w_db w0) → ∃ w1,
    for_each (λ t, ignore_err (SetTag (run_ID run) t)) l w0 = (Ok tt, w1) ∧ holds_run (run_ID run) (w_db w1)) as Hl.
  { intros l. induction l as [|t l IH]; intros w0 Hw0; cbn [for_each]; [by exists w0|].
    apply (SetTag_ignored_holds _ t) in Hw0. unfold ignore_err at 1. unfold mbind, M_bind. by apply IH. }
  destruct (Hl (cr_Tags req) w Hw) as (w1 & Hf & Hw1). rewrite (bind_Ok _ _ _ _ _ Hf).
  refine (answers_write (holds_run (run_ID run)) _ _ (λ x d, Forall (run_visible ws d) [x]) _ w1 Hw1).
  intros d [Hu Ho]. split_and!; [done| |].
  - constructor; [|done]. by unfold run_visible.
  - constructor; [|done]. by split.
Qed.

Lemma GetRun_answers q : answers untouched (Handler_GetRun ws q) (λ x d, Forall (run_visible ws d) [x]).
Proof.
  unfold Handler_GetRun. cbv zeta. set (id := query_run_id q). apply answers_require; [done|].
  apply answers_as_of; [done|]. intros asOf.
  apply (answers_store _ (λ p d, holds_run id d ∧ run_ID p.1 = id)).
  - apply triple_reads; [done|]. intros d Hd. case_decide.
    + eapply reads_conseq; [apply GetRunAsOf_reads|]. by intros p [].
    + unfold GetRunInWorkspace. rewrite default_ws_ws. apply (reads_bind d _ _ _ _ (getRunInWorkspace_reads d id)).
      intros run [Ho Hid]. by apply reads_ret.
  - intros [run ts]. apply (answers_store _ (λ x d, (holds_run id d ∧ run_ID run = id) ∧
      Forall (metric_of d id) (rd_Metrics x) ∧ Forall (param_of d id) (rd_Params x))).
    + apply triple_reads; [by intros d [[] _]|]. intros d Hd.
      eapply reads_conseq; [apply collectRunData_reads|]. by intros x Hx.
    + intros x. eapply answers_store.
      * apply triple_reads; [by intros d [[[] _] _]|]. intros d Hd.
        eapply reads_conseq; [apply collectRunInputs_reads|]. intros y _. exact Hd.
      * intros y. apply answers_write. intros d [[[Hu Ho] Hid] Hx]. split_and!; [done| |done].
        constructor; [|done]. unfold run_visible. cbn. by rewrite Hid.
Qed.

Lemma UpdateRun_answers body :
  answers untouched (Handler_UpdateRun ws body) (λ x d, run_owner d (ri_RunID x) = Some ws).
Proof.
  apply answers_body; [done|]. intros req. cbv zeta. set (id := or_else _ _). apply answers_require; [done|].
  apply answers_run. eapply answers_store; [apply triple_pres; [apply holds_run_untouched|apply UpdateRun_holds]|].
  intros ?. apply (answers_store _ (λ run d, holds_run id d ∧ run_ID run = id)).
  - apply triple_get; [apply holds_run_untouched|]. intros d run Hd. destruct (runs d !! id); [|done]. by intros [= <-].
  - intros run. apply answers_write. intros d [[Hu Ho] Hid]. split_and!; [done|cbn; by rewrite Hid|].
    destruct (nonempty _); constructor; [|done]. split; [done|]. cbn. by rewrite Hid.
Qed.

Lemma SearchRuns_answers ParseFloat eval req q :
  answers untouched (Handler_SearchRuns ParseFloat eval ws req q) (λ p d, Forall (run_visible ws d) p.1).
Proof.
  unfold Handler_SearchRuns. apply (answers_store _ (λ _, untouched)).
  { apply triple_reads; [done|]. intros d Hd. eapply reads_conseq; [apply scoped_experiments_reads|done]. }
  intros [ids|]; [|by apply answers_error]. cbv zeta. apply answers_as_of; [done|]. intros asOf.
  destruct (decide (0 < asOf ∧ _)); [by apply answers_error|].
  set (opt := mkSearchOptions _ _ _ _ _ _ _).
  apply (answers_store _ (λ res d, untouched d ∧ Forall (λ r, run_owner d (run_ID r) = Some ws) res.1)).
  { apply triple_reads; [done|]. intros d Hd. eapply reads_conseq; [by apply SearchRuns_reads|done]. }
  intros [l next]. apply (answers_store _ (λ out d, untouched d ∧ Forall (run_visible ws d) out)).
  { apply triple_reads; [by intros d []|]. intros d [Hd Hl].
    eapply reads_conseq; [by apply search_run_dtos_reads|done]. }
  intros out. apply answers_write. by intros d [Hu Ho].
Qed.

Lemma GetMetricHistory_answers q :
  answers untouched (Handler_GetMetricHistory ws q) (λ p d, ∃ R, run_owner d R = Some ws ∧ Forall (metric_of d R) p.1.1).
Proof.
  unfold Handler_GetMetricHistory. cbv zeta. set (R := query_run_id q). apply answers_require; [done|].
  apply answers_run. pose proof (holds_run_untouched R) as Hru.
  assert (∀ n, answers (holds_run R)
    (let! (hist, nextToken) := GetMetricHistory R (q "metric_key") n (q "page_token") in
     with_as_of q (λ asOf, writeJSON ((if decide (0 < asOf) then filter (λ m, metric_Timestamp m ≤ asOf) hist else hist),
       nextToken, None : option Z)))
    (λ p d, ∃ R, run_owner d R = Some ws ∧ Forall (metric_of d R) p.1.1)) as Hpaged.
  { intros n. apply (answers_store _ (λ p d, holds_run R d ∧ Forall (metric_of d R) p.1)).
    - apply triple_reads; [done|]. intros d Hd. eapply reads_conseq; [apply GetMetricHistory_reads|done].
    - intros [hist next]. apply answers_as_of; [by intros d [[] _]|]. intros asOf. apply answers_write.
      intros d [[Hu Ho] Hh]. split_and!; [done| |done]. exists R. split; [done|].
      cbn in *. case_decide; [|done]. rewrite Forall_forall in Hh. apply Forall_forall.
      intros m [_ Hm]%list_elem_of_filter. auto. }
  destruct (nonempty (q "downsample"%string)).
  - apply answers_int; [done|]. intros target. apply answers_require; [done|].
    apply (answers_store _ (λ p d, holds_run R d ∧ Forall (metric_of d R) p.1)).
    + apply triple_reads; [done|]. intros d Hd. eapply reads_conseq; [apply Downsampled_reads|done].
    + intros [pts total]. apply answers_write. intros d [[Hu Ho] Hh]. split_and!; [done|by exists R|done].
  - destruct (nonempty _); [|apply Hpaged]. apply answers_int; [done|]. intros n. apply answers_require; [done|apply Hpaged].
Qed.
(** Every call of the API. *)
Lemma handle_answers like ParseFloat eval writeV03 c :
  answers untouched (handle like ParseFloat eval writeV03 ws c) (λ s d, visible ws d s).
Proof.
  destruct c; cbn [handle]; apply answers_map; try (cbn [visible]);
    first [apply CreateRun_answers|apply GetRun_answers|apply UpdateRun_answers|apply SearchRuns_answers
          |apply GetMetricHistory_answers|idtac].
  - apply answers_body; [done|]. intros req. apply answers_require; [done|].
    eapply answers_store; [apply CreateExperiment_triple, default_ws_ws|]. intros id. apply answers_write.
    by intros d [].
  - apply answers_int; [done|]. intros id. eapply answers_store; [apply getExperiment_triple|]. intros e.
    apply answers_write. intros d [[] He]. split_and!; [done|by constructor|done].
  - unfold Handler_GetExperimentByName. apply answers_require; [done|].
    eapply answers_store; [apply experiment_named_triple|]. intros e. apply answers_write.
    intros d [? He]. split_and!; [done|by constructor|done].
  - unfold Handler_SearchExperiments. cbv zeta. eapply answers_store; [apply triple_reads; [done|intros d Hd; eapply reads_conseq; [by apply SearchExperiments_reads|intros res Hres; exact (conj Hd Hres)]]|].
    intros [l next]. apply answers_write. intros d [? He]. split_and!; [done| |done]. by apply Forall_fmap.
  - apply answers_body; [done|]. intros id. apply answers_experiment. intros n.
    apply answers_effect; [apply holds_exp_untouched|apply _].
  - apply answers_body; [done|]. intros id. apply answers_experiment. intros n.
    apply answers_effect; [apply holds_exp_untouched|apply _].
  - apply answers_body; [done|]. intros req. apply answers_int; [done|]. intros n. apply answers_require; [done|].
    eapply answers_store; [apply getExperiment_triple|]. intros e w [Hw _]. revert w Hw.
    apply (answers_effect (holds_exp n)); [apply holds_exp_untouched|apply _].
  - apply answers_body; [done|]. intros req. apply answers_experiment. intros n.
    apply answers_effect; [apply holds_exp_untouched|apply _].
  - apply answers_body; [done|]. intros id. apply answers_run, answers_effect; [apply holds_run_untouched|apply _].
  - apply answers_body; [done|]. intros id. apply answers_run, answers_effect; [apply holds_run_untouched|apply _].
  - apply answers_body; [done|]. intros req. cbv zeta. apply answers_require; [done|].
    apply answers_run, answers_effect; [apply holds_run_untouched|apply LogMetrics_holds].
  - apply answers_body; [done|]. intros req. cbv zeta.
    apply answers_run, answers_effect; [apply holds_run_untouched|apply _].
  - apply answers_body; [done|]. intros req. apply answers_require; [done|]. apply answers_run.
    apply answers_require; [apply holds_run_untouched|].
    eapply answers_store; [apply triple_pres; [apply holds_run_untouched|apply _]|]. intros ?.
    eapply answers_store; [apply triple_pres; [apply holds_run_untouched|apply for_each_pres; intros; apply _]|]. intros ?.
    apply answers_effect; [apply holds_run_untouched|apply _].
  - apply answers_body; [done|]. intros req. cbv zeta.
    apply answers_run, answers_effect; [apply holds_run_untouched|apply _].
  - apply answers_body; [done|]. intros req. apply answers_require; [done|].
    apply answers_run, answers_effect; [apply holds_run_untouched|apply _].
  - apply answers_body; [done|]. intros req. apply answers_require; [done|].
    apply answers_run, answers_effect; [apply holds_run_untouched|apply _].
Qed.
End writes.

(** ** Replies *)

(** A workspace other than [ws]. *)
Lemma another_workspace (ws : string) : ∃ v, ws ≠ v.
Proof. destruct (decide (ws = "a"%string)) as [->|]; [by exists "b"%string|by exists "a"%string]. Qed.

Section replies.
Context `{Clock} (like : string → string → bool) (ParseFloat : string → option float64)
  (eval : DB → clause → string → RunRow → bool) (writeV03 : bool).

(** C6: a reply is about the workspace of the call.  Every call of the
    tracking API replies (no error or panic of the store escapes); the
    experiments it shows are rows of that workspace with their tags, the runs
    it shows are runs of that workspace, with metrics and parameters that are
    rows of these runs, and webhooks are notified, in that workspace, about
    runs of that workspace. *)
Theorem replies_confined ws c w :
  serials_wf (w_db w) → ws ≠ EmptyString →
  ∃ rep w', handle like ParseFloat eval writeV03 ws c w = (Ok rep, w') ∧ serials_wf (w_db w') ∧
    (∀ s, rp_Body rep = Some s → visible ws (w_db w') s) ∧ Forall (notified ws (w_db w')) (rp_Notify rep).
Proof.
  intros Hw Hws. destruct (another_workspace ws) as [v Hne].
  destruct (handle_answers ws v (tenant_view v (w_db w)) Hne Hws like ParseFloat eval writeV03 c w)
    as (rep & w' & Hr & [Hw' _] & Hb & Hn); [done|]. by exists rep, w'.
Qed.
End replies.

(** ** An example: two workspaces *)

Module Example1.
Definition team : ExperimentRow := mkExperimentRow "exp" "mlflow-artifacts:/2" LifecycleActive 2 2 "team".
Definition team_run : RunRow :=
  mkRunRow 2 None StatusRunning 600 None "mlflow-artifacts:/r2" LifecycleActive None None None KindClassic None.

Definition two_db : DB :=
  set_workspaces {[ "default" := mkWorkspaceRow "Default" None 1 1; "team" := mkWorkspaceRow "Team" None 1 1 ]}%string
    (set_experiments (serial_insert team (experiments ex_db)).2
      (set_runs (<["r2"%string := team_run]> (runs ex_db)) ex_db)).
Definition two_w : World := mkWorld two_db 0.

Definition no_filter (d : DB) (c : clause) (R : string) (r : RunRow) : bool := true.
Definition no_float (s : string) : option float64 := None.
Definition call : string → Call → World → result (Reply Shown) * World :=
  handle (λ _ _, true) no_float no_filter false.

Lemma two_serials : serials_wf two_db.
Proof. split; try apply serial_wf_empty. apply serial_wf_insert, serial_wf_insert, serial_wf_empty. Qed.

(** Writes in "team", some of them aimed at the run and the experiment of
    "default". *)
Definition attempts : list (string * Call) :=
  [("team", CLogMetric (Some (mkLogMetricReq "r2" "" "loss" (FFin 3) 5 0)));
   ("team", CSetTag (Some (mkSetTagReq "r1" "" "a" "stolen")));
   ("team", CDeleteExperiment (Some "1"));
   ("team", CUpdateRun (Some (mkUpdateRunReq "r1" "" StatusKilled 0 "")));
   ("team", CCreateRun "r3" (Some (mkCreateRunReq "1" "" 0 [] "x")))]%string.
(** The statuses of the replies. *)
Fixpoint statuses (l : list (string * Call)) (w : World) : list Z :=
  match l with
  | [] => []
  | p :: l' => (match (call p.1 p.2 w).1 with Ok r => rp_Status r | Err _ => 0 end) :: statuses l' (call p.1 p.2 w).2
  end.

Lemma attempts_refused : statuses attempts two_w = [200; 404; 404; 404; 404].
Proof. vm_compute. reflexivity. Qed.

Lemma two_registry : registry_wf two_db.
Proof. split; cbn; intros *; rewrite lookup_empty; try done; by intros [? ?]. Qed.

Lemma registry_api_confined_witness :
  ∃ rep w', registry_handle (λ _ _, true) "team" (RGetRegisteredModel (λ _, "m"%string)) two_w = (Ok rep, w') ∧
    registry_wf (w_db w') ∧ (∀ s, rp_Body rep = Some s → reg_visible "team" (w_db w') s) ∧
    (links_confined (w_db two_w) → links_confined (w_db w')) ∧ outside (w_db w') = outside (w_db two_w) ∧
    ∀ v, v ≠ "team"%string → registry_view v (w_db w') = registry_view v (w_db two_w).
Proof. apply (registry_api_confined (λ _ _, true) "team"); [apply two_registry|done]. Defined.

Lemma replies_confined_witness :
  ∃ rep w', call "team" (CSearchRuns (mkSearchRunsReq ["1"; "2"]%string "" "" 0 [] NoToken) (λ _, EmptyString)) two_w =
    (Ok rep, w') ∧ serials_wf (w_db w') ∧
    (∀ s, rp_Body rep = Some s → visible "team" (w_db w') s) ∧ Forall (notified "team" (w_db w')) (rp_Notify rep).
Proof. apply (replies_confined (λ _ _, true) no_float no_filter false "team"); [apply two_serials|done]. Defined.

(** The page shows the run of "team" only. *)
Lemma search_shows_team :
  match (call "team" (CSearchRuns (mkSearchRunsReq ["1"; "2"]%string "" "" 0 [] NoToken) (λ _, EmptyString)) two_w).1 with
  | Ok (mkReply 200 _ (Some (ShowRuns l)) _) => ri_RunID <$> (rn_Info <$> l)
  | _ => []
  end = ["r2"%string].
Proof. vm_compute. reflexivity. Qed.

(** ** Where workspaces do share state *)

Definition ds (src : string) : DatasetInput := mkDatasetInput (mkDatasetInfo "d" "h" "local" src "" "") [].
Definition sources (ws R : string) (w : World) : list string :=
  match (call ws (CGetRun (λ k, if decide (k = "run_id"%string) then R else EmptyString)) w).1 with
  | Ok (mkReply 200 _ (Some (ShowRuns [x])) _) => (λ i, dset_Source (in_Dataset i)) <$> default [] (rn_Inputs x)
  | _ => []
  end.

(** The metadata of a dataset is keyed by name and digest only: logging the
    same dataset in "team" replaces the source shown for the run of
    "default". *)
Theorem dataset_metadata_shared :
  let w1 := (call "default" (CLogInputs (Some (mkLogInputsReq "r1" [ds "s3://ours"]))) two_w).2 in
  let w2 := (call "team" (CLogInputs (Some (mkLogInputsReq "r2" [ds "http://theirs"]))) w1).2 in
  sources "default" "r1" w1 = ["s3://ours"%string] ∧ sources "default" "r1" w2 = ["http://theirs"%string].
Proof. vm_compute. done. Qed.

(** The parent tag is checked against the runs of every workspace: the reply
    tells whether a run exists elsewhere. *)
Theorem parent_tag_probes :
  let probe (R : string) := statuses [("team", CSetTag (Some (mkSetTagReq "r2" "" parentTag R)))]%string two_w in
  probe "r1" = [200] ∧ probe "nonexistent" = [404].
Proof. vm_compute. done. Qed.
End Example1.
