(* ===== verification/Ownership.v ===== *)
(** * What a workspace owns

    The part of the whole database that belongs to a workspace: its row,
    members, dashboards, webhooks and peers, its part of the registry, its
    prompts, what is recorded on its runs, and its dataset lineage.  The
    views of Isolation.v and RegistryApi.v determine it, so what these files
    prove of the MLflow API carries over. *)

From S2P Require Import Prelude GoStrings Model Database Runs Sample RunData Experiments Registry RegistryLaws.
From S2P Require Import Workspaces Datasets Inputs MlflowApi ApiLogic RegistryApi Isolation.

Open Scope Z_scope.

Definition dataset_owner (d : DB) (id : Z) : option string := xr_workspace_id <$> rows (datasets_v2 d) !! id.

(** The owner of a span that is attached to a run. *)
Definition span_owner (d : DB) (r : SpanRow) : option string := tr_run_id r ≫= run_owner d.

Record Owned := mkOwned {
  ow_workspace : option WorkspaceRow;
  ow_members : gmap (string * string) string;
  ow_dashboards : gmap Z DashboardRow;
  ow_webhooks : gmap Z WebhookRow;
  ow_peers : gmap Z PeerRow;
  ow_registry : RegistryView;
  ow_prompts : gmap (string * string * Z) PromptRow;
  ow_prompt_aliases : gmap (string * string * string) Z;
  ow_notes : gmap string NoteRow;
  ow_evals : gmap string EvalRow;
  ow_spans : gmap string SpanRow;
  ow_lineage : gset (Z * Z);
  ow_track : TrackView }.

Definition owned (v : string) (d : DB) : Owned :=
  mkOwned (workspaces d !! v)
    (filter (λ p, p.1.1 = v) (members d))
    (filter (λ p, dr_workspace_id p.2 = v) (rows (dashboards d)))
    (filter (λ p, default_ws (hr_workspace_id p.2) = v) (rows (webhooks d)))
    (filter (λ p, pr_workspace_id p.2 = v) (rows (peers d)))
    (registry_view v d)
    (filter (λ p, p.1.1.1 = v) (prompts d))
    (filter (λ p, p.1.1.1 = v) (prompt_aliases d))
    (filter (λ p, run_owner d p.1 = Some v) (run_notes d))
    (filter (λ p, run_owner d p.1 = Some v) (evals d))
    (filter (λ p, span_owner d p.2 = Some v) (traces d))
    (filter (λ e, dataset_owner d e.1 = Some v) (dataset_lineage d))
    (track_view v d).

(** ** The views of the MLflow API determine what is owned *)

Lemma run_owner_view v d R : run_owner d R = Some v ↔ is_Some (tv_runs (track_view v d) !! R).
Proof.
  unfold run_owner, track_view, is_Some. cbn. setoid_rewrite map_lookup_filter_Some.
  destruct (runs d !! R) as [r|] eqn:Hr; cbn; naive_solver.
Qed.

Lemma dataset_owner_view v d i : dataset_owner d i = Some v ↔ is_Some (tv_datasets (track_view v d) !! i).
Proof.
  unfold dataset_owner, track_view, is_Some. cbn. setoid_rewrite map_lookup_filter_Some.
  destruct (rows (datasets_v2 d) !! i) as [r|] eqn:Hr; cbn; naive_solver.
Qed.

Lemma span_owner_view v d d' r :
  track_view v d' = track_view v d → span_owner d' r = Some v ↔ span_owner d r = Some v.
Proof.
  intros E. unfold span_owner. destruct (tr_run_id r) as [R|]; cbn; [|done]. by rewrite !run_owner_view, E.
Qed.

Lemma filter_set_ext {A} `{Countable A} (P Q : A → Prop) `{∀ x, Decision (P x)} `{∀ x, Decision (Q x)} (X : gset A) :
  (∀ x, P x ↔ Q x) → filter P X = filter Q X.
Proof. intros HPQ. apply set_eq. intros x. rewrite !elem_of_filter. by rewrite HPQ. Qed.

(** What remains of [owned] when the tracked part is the same. *)
Lemma owned_track v d d' :
  track_view v d' = track_view v d → db_tenant d' = db_tenant d →
  registry_view v d' = registry_view v d → prompts d' = prompts d → prompt_aliases d' = prompt_aliases d →
  run_notes d' = run_notes d → evals d' = evals d → traces d' = traces d → dataset_lineage d' = dataset_lineage d →
  owned v d' = owned v d.
Proof.
  intros E Et Er Ep Ea En Ee Ex El. unfold owned. rewrite Et, Er, Ep, Ea, En, Ee, Ex, El, E. f_equal.
  - apply filter_owner_ext. intros p. by rewrite !run_owner_view, E.
  - apply filter_owner_ext. intros p. by rewrite !run_owner_view, E.
  - apply filter_owner_ext. intros p. by apply span_owner_view.
  - apply filter_set_ext. intros e. by rewrite !dataset_owner_view, E.
Qed.

Lemma owned_tracking v d d' : tenant_view v d' = tenant_view v d → owned v d' = owned v d.
Proof.
  intros E. pose proof (f_equal tv_registry E) as Hr. cbn in Hr.
  apply owned_track; try (unfold registry_view; by rewrite Hr);
    [exact (f_equal tv_track E)|exact (f_equal tv_tenant E)|exact (f_equal tv_notes E)|exact (f_equal tv_evals E)
    |exact (f_equal tv_traces E)|exact (f_equal tv_lineage E)].
Qed.

Lemma owned_registering v d d' :
  outside d' = outside d → registry_view v d' = registry_view v d → owned v d' = owned v d.
Proof.
  destruct d as [t k g x], d' as [t' k' g' x']. unfold outside. cbn. intros [= -> -> -> E1 E2] Hv.
  by apply owned_track.
Qed.

(** ** Well-formedness of the tables the APIs write *)

Record integrations_wf (d : DB) : Prop := {
  tw_dashboards : serial_wf (dashboards d);
  tw_webhooks : serial_wf (webhooks d);
  tw_peers : serial_wf (peers d) }.

Record api_wf (d : DB) : Prop := {
  aw_serials : serials_wf d;
  aw_registry : registry_wf d;
  aw_integrations : integrations_wf d;
  aw_tenant : tenant_wf d }.

Lemma api_wf_tracking v d d' :
  tenant_view v d' = tenant_view v d → serials_wf d' → api_wf d → api_wf d'.
Proof.
  intros E Hs [_ Hr Hi Hn].
  assert (db_registry d' = db_registry d) as Hg by exact (f_equal tv_registry E).
  assert (db_tenant d' = db_tenant d) as Ht by exact (f_equal tv_tenant E).
  split; [done| | |].
  - destruct Hr. split; rewrite ?Hg, ?Ht; done.
  - destruct Hi. split; by rewrite Ht.
  - destruct Hn. split; by rewrite Ht.
Qed.

Lemma api_wf_registering d d' : outside d' = outside d → registry_wf d' → api_wf d → api_wf d'.
Proof.
  destruct d, d'. unfold outside. cbn. intros [= -> -> -> _ _] Hr [[] _ [] []]. split; [by split|done|by split|by split].
Qed.
