(* ===== verification/EchoLog.v ===== *)
(** * The in-process echo log (internal/webhooks/echo.go)

    A ring buffer of the deliveries to [lmf://echo], and its refinement: it
    shows the newest of everything that was ever recorded. *)

From S2P Require Import Prelude GoStrings Model Database.

Open Scope Z_scope.

Definition EchoSchemePrefix : string := "lmf://echo".

Definition IsEchoURL (url : string) : bool :=
  bool_decide (url = EchoSchemePrefix) || HasPrefix url (EchoSchemePrefix +:+ "/").

Record EchoEntry := mkEchoEntry {
  ee_Timestamp : Z; ee_Event : string; ee_WebhookID : Z; ee_Body : string; ee_RunID : string }.

Record EchoLog := mkEchoLog { el_entries : list EchoEntry; el_cap : Z }.

Definition NewEchoLog (capacity : Z) : EchoLog := mkEchoLog [] (if capacity <=? 0 then 100 else capacity).

Definition maxBody : nat := 4096.

(** The entry as it is kept: dated, and with a bounded body. *)
Definition kept_entry (now : Z) (e : EchoEntry) : EchoEntry :=
  mkEchoEntry (if decide (ee_Timestamp e = 0) then now else ee_Timestamp e) (ee_Event e) (ee_WebhookID e)
    (if (maxBody <? slen (ee_Body e))%nat then stake maxBody (ee_Body e) +:+ "…(truncated)" else ee_Body e) (ee_RunID e).

(** [EchoLog.Record] *)
Definition EchoLog_Record (now : Z) (e : EchoEntry) (l : EchoLog) : EchoLog :=
  let entries := el_entries l ++ [kept_entry now e] in
  let n := Z.of_nat (length entries) in
  mkEchoLog (if el_cap l <? n then drop (Z.to_nat (n - el_cap l)) entries else entries) (el_cap l).

(** [EchoLog.List]: newest first. *)
Definition EchoLog_List (max : Z) (l : EchoLog) : list EchoEntry :=
  let n := Z.of_nat (length (el_entries l)) in
  let n := if (0 <? max) && (max <? n) then max else n in
  take (Z.to_nat n) (reverse (el_entries l)).

(** ** The ring buffer shows the newest of the history *)

Definition record_all (history : list (Z * EchoEntry)) (l : EchoLog) : EchoLog :=
  foldl (λ l p, EchoLog_Record p.1 p.2 l) l history.

Definition latest (n : nat) {A} (l : list A) : list A := take n (reverse l).

Lemma latest_app {A} n (l : list A) x : latest (S n) (l ++ [x]) = x :: latest n l.
Proof. unfold latest. by rewrite reverse_snoc. Qed.

Lemma latest_latest {A} n m (l : list A) : latest n (reverse (latest m l)) = latest (n `min` m) l.
Proof. unfold latest. by rewrite reverse_involutive, take_take. Qed.

(** Cutting a list to its last [n] elements. *)
Lemma drop_latest {A} (l : list A) n : drop (length l - n) l = reverse (latest n l).
Proof. unfold latest. rewrite take_reverse, reverse_involutive. done. Qed.

Lemma record_entries now e l :
  0 < el_cap l →
  el_entries (EchoLog_Record now e l) =
    reverse (latest (Z.to_nat (el_cap l)) (el_entries l ++ [kept_entry now e])).
Proof.
  intros Hcap. unfold EchoLog_Record. cbn [el_entries]. set (es := el_entries l ++ _).
  rewrite <- drop_latest. destruct (Z.ltb_spec (el_cap l) (Z.of_nat (length es))).
  - f_equal. lia.
  - replace (length es - Z.to_nat (el_cap l))%nat with 0%nat by lia. done.
Qed.

Lemma record_all_spec history l :
  0 < el_cap l → (length (el_entries l) ≤ Z.to_nat (el_cap l))%nat →
  el_cap (record_all history l) = el_cap l ∧
  el_entries (record_all history l) =
    reverse (latest (Z.to_nat (el_cap l)) (el_entries l ++ ((λ p, kept_entry p.1 p.2) <$> history))).
Proof.
  intros Hcap Hl. induction history as [|[now e] history IH] using rev_ind.
  - cbn. rewrite app_nil_r. split; [done|]. unfold latest. rewrite take_ge by (by rewrite length_reverse).
    by rewrite reverse_involutive.
  - unfold record_all in *. rewrite foldl_snoc, fmap_app, app_assoc. cbn [fst snd fmap list_fmap]. destruct IH as [Hc He].
    split; [exact Hc|]. rewrite record_entries by (by rewrite Hc). rewrite Hc, He. f_equal.
    set (es := _ ++ (_ <$> history)). destruct (Z.to_nat (el_cap l)) as [|c] eqn:Hn; [lia|].
    rewrite !latest_app. f_equal. rewrite latest_latest. f_equal. lia.
Qed.

(** The echo log is a window on the history of all deliveries: asked for
    [max] entries it returns the newest ones, newest first, at most [max] of
    them (all it has for a [max] of 0 or less) and never more than its
    capacity. *)
Lemma EchoLog_window history capacity max :
  let l := NewEchoLog capacity in
  let cap := Z.to_nat (el_cap l) in
  EchoLog_List max (record_all history l) =
    latest (if decide (0 < max) then Z.to_nat max `min` cap else cap) ((λ p, kept_entry p.1 p.2) <$> history).
Proof.
  cbv zeta. assert (0 < el_cap (NewEchoLog capacity)) as Hcap by (cbn; destruct (Z.leb_spec capacity 0); lia).
  destruct (record_all_spec history _ Hcap) as [_ He]; [cbn; lia|]. cbn [NewEchoLog el_entries app] in He.
  set (c := Z.to_nat _) in *. set (h := _ <$> history) in *. unfold EchoLog_List. rewrite He. rewrite reverse_involutive.
  assert (length (latest c h) ≤ c)%nat as Hlen by (unfold latest; rewrite length_take; lia). rewrite length_reverse.
  destruct (Z.ltb_spec 0 max) as [Hm|Hm]; cbn [andb]; [rewrite decide_True by done|rewrite decide_False by lia].
  2:{ by rewrite Nat2Z.id, take_ge. }
  destruct (Z.ltb_spec max (Z.of_nat (length (latest c h)))) as [Hlt|Hge]; [unfold latest; by rewrite take_take|].
  rewrite Nat2Z.id, take_ge by done. unfold latest in *. rewrite length_take, length_reverse in *.
  destruct (decide (length h ≤ Z.to_nat max `min` c)%nat); [|f_equal; lia].
  rewrite (take_ge _ c), (take_ge _ (_ `min` _)); [done|rewrite length_reverse; lia..].
Qed.
