(* ===== verification/Egress.v ===== *)
(** * Outbound connections (internal/webhooks/egress.go)

    The guard against server-side request forgery: which addresses the server
    may connect to on behalf of a user, and the dialer that checks each address
    it is about to connect to. *)

From S2P Require Import Prelude GoStrings Model Database.

Open Scope Z_scope.

(** ** Addresses of package net *)

(** A [net.IP]: its bytes, the empty list for [nil]. *)
Definition IP : Type := list Z.

Definition zeros (n : nat) : IP := replicate n 0.

(** [net.IP.To4]; [None] for [nil]. *)
Definition To4 (ip : IP) : option IP :=
  if decide (length ip = 4%nat) then Some ip
  else if decide (length ip = 16%nat ∧ take 10 ip = zeros 10 ∧ take 2 (drop 10 ip) = [255; 255]) then Some (drop 12 ip)
  else None.

(** [net.IPv4] *)
Definition IPv4 (a b c d : Z) : IP := zeros 10 ++ [255; 255; a; b; c; d].

(** [net.IP.Equal]: an IPv4 address and its mapped form are equal. *)
Definition Equal (ip x : IP) : bool :=
  if decide (length ip = length x) then bool_decide (ip = x)
  else if decide (length ip = 4%nat ∧ length x = 16%nat) then bool_decide (x = zeros 10 ++ [255; 255] ++ ip)
  else if decide (length ip = 16%nat ∧ length x = 4%nat) then bool_decide (ip = zeros 10 ++ [255; 255] ++ x)
  else false.

(** [ip[i]] on an address long enough. *)
Definition byte_at (ip : IP) (i : nat) : Z := nth i ip 0.

Definition is_v6 (ip : IP) : bool := bool_decide (length ip = 16%nat).

Definition IsLoopback (ip : IP) : bool :=
  match To4 ip with
  | Some v4 => byte_at v4 0 =? 127
  | None => Equal ip (zeros 15 ++ [1])
  end.

Definition IsLinkLocalUnicast (ip : IP) : bool :=
  match To4 ip with
  | Some v4 => (byte_at v4 0 =? 169) && (byte_at v4 1 =? 254)
  | None => is_v6 ip && (byte_at ip 0 =? 254) && (Z.land (byte_at ip 1) 192 =? 128)
  end.

Definition IsLinkLocalMulticast (ip : IP) : bool :=
  match To4 ip with
  | Some v4 => (byte_at v4 0 =? 224) && (byte_at v4 1 =? 0) && (byte_at v4 2 =? 0)
  | None => is_v6 ip && (byte_at ip 0 =? 255) && (Z.land (byte_at ip 1) 15 =? 2)
  end.

Definition IsInterfaceLocalMulticast (ip : IP) : bool :=
  is_v6 ip && (byte_at ip 0 =? 255) && (Z.land (byte_at ip 1) 15 =? 1).

Definition IsPrivate (ip : IP) : bool :=
  match To4 ip with
  | Some v4 => (byte_at v4 0 =? 10) || ((byte_at v4 0 =? 172) && (Z.land (byte_at v4 1) 240 =? 16)) ||
               ((byte_at v4 0 =? 192) && (byte_at v4 1 =? 168))
  | None => is_v6 ip && (Z.land (byte_at ip 0) 254 =? 252)
  end.

Definition IsUnspecified (ip : IP) : bool := Equal ip (IPv4 0 0 0 0) || Equal ip (zeros 16).

Definition IsMulticast (ip : IP) : bool :=
  match To4 ip with
  | Some v4 => Z.land (byte_at v4 0) 240 =? 224
  | None => is_v6 ip && (byte_at ip 0 =? 255)
  end.

(** [net.IPNet]: a network number and its mask, of the same length. *)
Record IPNet := mkIPNet { net_IP : IP; net_Mask : list Z }.

(** [net.CIDRMask(ones, 8 * n)] *)
Fixpoint CIDRMask (ones : Z) (n : nat) : list Z :=
  match n with
  | O => []
  | S n' => (if 8 <=? ones then 255 else 255 - (2 ^ (8 - Z.max 0 ones) - 1)) :: CIDRMask (ones - 8) n'
  end.

Definition CIDR (ip : IP) (ones : Z) : IPNet := mkIPNet ip (CIDRMask ones (length ip)).

(** [IPNet.Contains] *)
Definition Contains_ip (n : IPNet) (ip : IP) : bool :=
  let ip := default ip (To4 ip) in
  bool_decide (length ip = length (net_IP n)) &&
  forallb (λ p, Z.land p.1.1 p.2 =? Z.land p.1.2 p.2) (zip (zip (net_IP n) ip) (net_Mask n)).

(** ** The guard *)

Definition blockedV4Nets : list IPNet :=
  [CIDR [0; 0; 0; 0] 8; CIDR [100; 64; 0; 0] 10; CIDR [192; 0; 0; 0] 24; CIDR [198; 18; 0; 0] 15; CIDR [240; 0; 0; 0] 4].

(** 64:ff9b::/96 and 2002::/16 *)
Definition nat64Net : IPNet := CIDR ([0; 100; 255; 155] ++ zeros 12) 96.
Definition sixTo4 : IPNet := CIDR ([32; 2] ++ zeros 14) 16.

(** [IsBlockedIP]; the recursive calls are on four bytes, so that two levels
    are enough. *)
Fixpoint IsBlockedIP_go (fuel : nat) (ip : IP) : bool :=
  match fuel with
  | O => true
  | S fuel' =>
      if decide (ip = []) then true
      else if IsLoopback ip || IsLinkLocalUnicast ip || IsLinkLocalMulticast ip ||
              IsInterfaceLocalMulticast ip || IsPrivate ip || IsUnspecified ip || IsMulticast ip then true
      else match To4 ip with
           | Some v4 => Equal v4 (IPv4 255 255 255 255) || existsb (λ n, Contains_ip n v4) blockedV4Nets
           | None =>
               if Contains_ip nat64Net ip then IsBlockedIP_go fuel' (take 4 (drop 12 ip))
               else if Contains_ip sixTo4 ip then IsBlockedIP_go fuel' (take 4 (drop 2 ip))
               else false
           end
  end.

Definition IsBlockedIP : IP → bool := IsBlockedIP_go 2.

(** ** What is blocked, as ranges *)

Definition is_byte (b : Z) : Prop := 0 ≤ b < 256.

(** The first and the last address of each blocked IPv4 network: 0/8, 10/8,
    100.64/10, 127/8, 169.254/16, 172.16/12, 192.0.0/24, 192.168/16, 198.18/15,
    224/4 and 240/4. *)
Definition blocked_ranges : list (Z * Z) :=
  let net a b c ones := let lo := a * 2 ^ 24 + b * 2 ^ 16 + c * 2 ^ 8 in (lo, lo + 2 ^ (32 - ones) - 1) in
  [net 0 0 0 8; net 10 0 0 8; net 100 64 0 10; net 127 0 0 8; net 169 254 0 16; net 172 16 0 12; net 192 0 0 24;
   net 192 168 0 16; net 198 18 0 15; net 224 0 0 4; net 240 0 0 4].

Definition v4_blocked (a : Z) : bool := existsb (λ r, (r.1 <=? a) && (a <=? r.2)) blocked_ranges.

Definition v4_number (a b c d : Z) : Z := a * 2 ^ 24 + b * 2 ^ 16 + c * 2 ^ 8 + d.

(** An IPv6 address in its eight groups. *)
Definition groups (l : list Z) : IP := l ≫= λ g, [g / 256; g mod 256].
Definition is_group (g : Z) : Prop := 0 ≤ g < 65536.

Lemma byte_cases (f : Z → bool) : forallb f (seqZ 0 256) = true → ∀ b, is_byte b → f b = true.
Proof.
  intros Hf b Hb. rewrite forallb_forall in Hf. apply Hf, list_elem_of_In, elem_of_seqZ. unfold is_byte in Hb. lia.
Qed.

(** A network mask keeps the top bits of a byte. *)
Lemma land_mask k b : 0 ≤ k ≤ 8 → is_byte b → Z.land b (256 - 2 ^ k) = b - b mod 2 ^ k.
Proof.
  intros Hk Hb.
  assert (forallb (λ k, forallb (λ b, Z.land b (256 - 2 ^ k) =? b - b mod 2 ^ k) (seqZ 0 256)) (seqZ 0 9) = true) as Hall
    by (vm_compute; reflexivity).
  apply Z.eqb_eq. revert b Hb. apply (byte_cases (λ b, Z.land b (256 - 2 ^ k) =? b - b mod 2 ^ k)).
  rewrite forallb_forall in Hall. apply (Hall k), list_elem_of_In, elem_of_seqZ. lia.
Qed.

(** Turn masks of bytes into arithmetic and booleans into propositions. *)
Ltac masks :=
  repeat match goal with
  | |- context [Z.land ?b 0] => rewrite (Z.land_0_r b)
  | |- context [Z.land ?b 255] => change (Z.land b 255) with (Z.land b (256 - 2 ^ 0)); rewrite (land_mask 0 b) by (unfold is_byte in *; lia)
  | |- context [Z.land ?b 254] => change (Z.land b 254) with (Z.land b (256 - 2 ^ 1)); rewrite (land_mask 1 b) by (unfold is_byte in *; lia)
  | |- context [Z.land ?b 192] => change (Z.land b 192) with (Z.land b (256 - 2 ^ 6)); rewrite (land_mask 6 b) by (unfold is_byte in *; lia)
  | |- context [Z.land ?b 240] => change (Z.land b 240) with (Z.land b (256 - 2 ^ 4)); rewrite (land_mask 4 b) by (unfold is_byte in *; lia)
  end;
  change (2 ^ 0) with 1; change (2 ^ 1) with 2; change (2 ^ 4) with 16; change (2 ^ 6) with 64.

Ltac bools := rewrite ?orb_true_iff, ?andb_true_iff, ?Z.eqb_eq, ?Z.leb_le, ?bool_decide_eq_true.

(** Find the member of a disjunction that [lia] proves. *)
Ltac pick_lia := lazymatch goal with |- _ ∨ _ => first [left; pick_lia|right; pick_lia] | |- @eq bool _ _ => fail | _ => lia end.

(** The blocked IPv4 addresses by their bytes. *)
Definition v4_blocked_bytes (a b c : Z) : Prop :=
  a = 0 ∨ a = 10 ∨ (a = 100 ∧ 64 ≤ b < 128) ∨ a = 127 ∨ (a = 169 ∧ b = 254) ∨ (a = 172 ∧ 16 ≤ b < 32) ∨
  (a = 192 ∧ b = 0 ∧ c = 0) ∨ (a = 192 ∧ b = 168) ∨ (a = 198 ∧ 18 ≤ b < 20) ∨ 224 ≤ a < 240 ∨ 240 ≤ a.

Lemma v4_blocked_spec a b c d :
  is_byte a → is_byte b → is_byte c → is_byte d → v4_blocked (v4_number a b c d) = true ↔ v4_blocked_bytes a b c.
Proof.
  intros Ha Hb Hc Hd. unfold v4_blocked, v4_number, v4_blocked_bytes, is_byte in *.
  let r := eval vm_compute in blocked_ranges in change blocked_ranges with r. cbn [existsb fst snd]. bools.
  change (2 ^ 24) with 16777216. change (2 ^ 16) with 65536. change (2 ^ 8) with 256.
  split; intros H; repeat destruct H as [H|H]; try done; pick_lia.
Qed.

Lemma nets_spec a b c d :
  is_byte a → is_byte b → is_byte c → is_byte d →
  existsb (λ n, Contains_ip n [a; b; c; d]) blockedV4Nets = true ↔
  a = 0 ∨ (a = 100 ∧ 64 ≤ b < 128) ∨ (a = 192 ∧ b = 0 ∧ c = 0) ∨ (a = 198 ∧ 18 ≤ b < 20) ∨ 240 ≤ a.
Proof.
  intros Ha Hb Hc Hd. let r := eval vm_compute in blockedV4Nets in change blockedV4Nets with r. unfold Contains_ip. change (To4 [a; b; c; d]) with (Some [a; b; c; d]).
  cbn -[Z.land Z.eqb]. masks. bools. unfold is_byte in *. Z.div_mod_to_equations.
  split; intros Hn; repeat destruct Hn as [Hn|Hn]; try done; pick_lia.
Qed.

(** The checks of package net on an address with an IPv4 form. *)
Lemma helpers_v4 ip a b c d :
  To4 ip = Some [a; b; c; d] → IsInterfaceLocalMulticast ip = false →
  is_byte a → is_byte b → is_byte c → is_byte d →
  (IsLoopback ip || IsLinkLocalUnicast ip || IsLinkLocalMulticast ip || IsInterfaceLocalMulticast ip || IsPrivate ip ||
   IsMulticast ip) = true ↔
  a = 127 ∨ (a = 169 ∧ b = 254) ∨ a = 10 ∨ (a = 172 ∧ 16 ≤ b < 32) ∨ (a = 192 ∧ b = 168) ∨ 224 ≤ a < 240.
Proof.
  intros H4 Hi Ha Hb Hc Hd. unfold IsLoopback, IsLinkLocalUnicast, IsLinkLocalMulticast, IsPrivate, IsMulticast. rewrite H4, Hi.
  cbn -[Z.land Z.eqb]. masks. bools. unfold is_byte in *. Z.div_mod_to_equations.
  split; intros Hn; repeat destruct Hn as [Hn|Hn]; try done; try pick_lia; right; lia.
Qed.

Lemma blocked_v4_form n ip a b c d :
  To4 ip = Some [a; b; c; d] → ip ≠ [] → IsInterfaceLocalMulticast ip = false → (IsUnspecified ip = true → a = 0) →
  is_byte a → is_byte b → is_byte c → is_byte d →
  IsBlockedIP_go (S n) ip = v4_blocked (v4_number a b c d).
Proof.
  intros H4 Hne Hi Hu Ha Hb Hc Hd. apply eq_true_iff_eq. rewrite v4_blocked_spec by done.
  cbn [IsBlockedIP_go]. rewrite decide_False, H4 by done.
  pose proof (helpers_v4 ip a b c d H4 Hi Ha Hb Hc Hd) as Hh. pose proof (nets_spec a b c d Ha Hb Hc Hd) as Hn.
  assert (Equal [a; b; c; d] (IPv4 255 255 255 255) = true → a = 255) as Hbc.
  { unfold Equal. rewrite decide_False, decide_True by done. intros E%bool_decide_eq_true. by injection E. }
  assert (∀ h x y : bool, (if h then true else x || y) = true ↔ h = true ∨ x = true ∨ y = true) as Hif by (intros [] [] []; cbn; tauto).
  rewrite Hif, Hn. rewrite orb_true_iff in Hh. rewrite !(orb_true_iff _ (IsMulticast ip)), (orb_true_iff _ (IsUnspecified ip)).
  revert Hh Hu Hbc. generalize (Equal [a; b; c; d] (IPv4 255 255 255 255)) (IsUnspecified ip) (IsMulticast ip)
    (IsLoopback ip || IsLinkLocalUnicast ip || IsLinkLocalMulticast ip || IsInterfaceLocalMulticast ip || IsPrivate ip).
  clear. intros bcast unspec multi rest Hh Hu Hbc. unfold v4_blocked_bytes.
  assert (∀ A B C D : Prop, ((A ∨ B) ∨ C) ∨ D ↔ ((A ∨ C) ∨ B) ∨ D) as -> by tauto.
  rewrite Hh. split; intros Hx; repeat destruct Hx as [Hx|Hx]; try (specialize (Hu Hx)); try (specialize (Hbc Hx)); pick_lia.
Qed.

(** The IPv4 address inside an IPv6 one: mapped, NAT64 or 6to4. *)
Definition embedded_v4 (g : list Z) : option Z :=
  match g with
  | [g0; g1; g2; g3; g4; g5; a; b] =>
      if decide ([g0; g1; g2; g3; g4; g5] = [0; 0; 0; 0; 0; 65535]) then Some (a * 65536 + b)
      else if decide ([g0; g1; g2; g3; g4; g5] = [100; 65435; 0; 0; 0; 0]) then Some (a * 65536 + b)
      else if decide (g0 = 8194) then Some (g1 * 65536 + g2)
      else None
  | _ => None
  end.

(** ::, ::1, fe80::/10, fc00::/7 and ff00::/8 *)
Definition v6_special (g : list Z) : bool :=
  let g0 := nth 0 g 0 in
  bool_decide (g = replicate 8 0) || bool_decide (g = replicate 7 0 ++ [1]) ||
  ((65152 <=? g0) && (g0 <? 65216)) || ((64512 <=? g0) && (g0 <? 65024)) || (65280 <=? g0).

Definition v6_blocked (g : list Z) : bool :=
  match embedded_v4 g with Some a => v4_blocked a | None => v6_special g end.

(** ** IPv6 addresses *)

Lemma group_bytes g : is_group g → is_byte (g / 256) ∧ is_byte (g mod 256).
Proof. unfold is_group, is_byte. intros H. Z.div_mod_to_equations. lia. Qed.

Lemma group_byte_eq g a b : is_group g → is_byte a → is_byte b → g / 256 = a ∧ g mod 256 = b ↔ g = a * 256 + b.
Proof. unfold is_group, is_byte. intros H1 H2 H3. Z.div_mod_to_equations. lia. Qed.

Lemma groups_inj g g' : Forall is_group g → Forall is_group g' → groups g = groups g' ↔ g = g'.
Proof.
  intros Hg Hg'. split; [|by intros ->]. revert g' Hg'.
  induction Hg as [|x g Hx Hg IH]; intros [|y g'] Hg'; try done. apply Forall_cons in Hg' as [Hy Hg'].
  unfold groups. rewrite !bind_cons. cbn [app]. intros [= E1 E2 E3]. f_equal; [|by apply IH].
  unfold is_group in *. Z.div_mod_to_equations. lia.
Qed.

(** A network whose mask covers whole groups contains the addresses with its
    prefix. *)
Definition masked (net ip mask : list Z) : bool :=
  forallb (λ p, Z.land p.1.1 p.2 =? Z.land p.1.2 p.2) (zip (zip net ip) mask).

Lemma masked_none net ip ones n : ones ≤ 0 → masked net ip (CIDRMask ones n) = true.
Proof.
  unfold masked. revert net ip ones. induction n as [|n IH]; intros [|x net] [|y ip] ones Ho; try done.
  cbn [CIDRMask zip zip_with forallb fst snd]. rewrite IH by lia. destruct (Z.leb_spec 8 ones); [lia|].
  replace (255 - (2 ^ (8 - 0 `max` ones) - 1)) with 0 by (rewrite Z.max_l by lia; lia).
  by rewrite !Z.land_0_r.
Qed.

Lemma masked_groups pre rest l n :
  Forall is_group pre → Forall is_group l → (length pre ≤ length l)%nat →
  masked (groups pre ++ rest) (groups l) (CIDRMask (16 * Z.of_nat (length pre)) (2 * length pre + n)) =
  bool_decide (take (length pre) l = pre).
Proof.
  intros Hp. revert l. induction Hp as [|x pre Hx Hp IH]; intros l Hl Hlen.
  - rewrite masked_none by done. by rewrite bool_decide_eq_true_2.
  - destruct l as [|y l]; [cbn in Hlen; lia|]. apply Forall_cons in Hl as [Hy Hl]. cbn [length] in *.
    destruct (group_bytes _ Hx) as [X1 X2]. destruct (group_bytes _ Hy) as [Y1 Y2].
    replace (2 * S (length pre) + n)%nat with (S (S (2 * length pre + n))) by lia.
    replace (16 * Z.of_nat (S (length pre))) with (16 + 16 * Z.of_nat (length pre)) by lia.
    unfold groups. rewrite !bind_cons. cbn [app CIDRMask]. unfold masked in *. cbn [zip zip_with forallb fst snd].
    destruct (Z.leb_spec 8 (16 + 16 * Z.of_nat (length pre))); [|lia].
    destruct (Z.leb_spec 8 (16 + 16 * Z.of_nat (length pre) - 8)); [|lia].
    replace (16 + 16 * Z.of_nat (length pre) - 8 - 8) with (16 * Z.of_nat (length pre)) by lia.
    unfold groups in IH. rewrite IH by (done || lia). masks. rewrite !Z.mod_1_r, !Z.sub_0_r.
    apply eq_true_iff_eq. rewrite !andb_true_iff, !Z.eqb_eq, !bool_decide_eq_true. cbn [take].
    pose proof (group_byte_eq y (x / 256) (x mod 256) Hy X1 X2) as Hb.
    replace (x / 256 * 256 + x mod 256) with x in Hb by (pose proof (Z.div_mod x 256); lia).
    split; [intros (E1 & E2 & ->); f_equal; by apply Hb|]. intros [= -> ->]. done.
Qed.

Ltac all_groups := repeat apply Forall_cons_2; try apply Forall_nil_2; done.

Section v6.
Context (g0 g1 g2 g3 g4 g5 a b : Z).
Let g := [g0; g1; g2; g3; g4; g5; a; b].
Context (Hg : Forall is_group g).

Lemma To4_groups :
  To4 (groups g) =
  if decide ([g0; g1; g2; g3; g4; g5] = [0; 0; 0; 0; 0; 65535]) then Some (groups [a; b]) else None.
Proof.
  unfold To4. rewrite decide_False by done.
  assert (take 10 (groups g) = groups [g0; g1; g2; g3; g4] ∧ take 2 (drop 10 (groups g)) = groups [g5] ∧ drop 12 (groups g) = groups [a; b])
    as (-> & -> & ->) by done.
  change (zeros 10) with (groups [0; 0; 0; 0; 0]). change [255; 255] with (groups [65535]).
  repeat (apply Forall_cons in Hg as [? Hg]).
  assert (is_group 0 ∧ is_group 65535) as [? ?] by (unfold is_group; lia).
  pose proof (groups_inj [g0; g1; g2; g3; g4] [0; 0; 0; 0; 0]) as E1. pose proof (groups_inj [g5] [65535]) as E2.
  destruct (decide (length _ = _ ∧ _)) as [(_ & F1 & F2)|Hn]; destruct (decide (_ = [0; 0; 0; 0; 0; 65535])) as [F|F]; try done.
  - apply E1 in F1; [|all_groups..]. apply E2 in F2; [|all_groups..]. naive_solver.
  - exfalso. apply Hn. injection F as -> -> -> -> -> ->. done.
Qed.

Context (Hplain : [g0; g1; g2; g3; g4; g5] ≠ [0; 0; 0; 0; 0; 65535]).

Lemma To4_plain : To4 (groups g) = None.
Proof. rewrite To4_groups. by rewrite decide_False. Qed.

Lemma Equal_groups g' : Forall is_group g' → length g' = 8%nat → Equal (groups g) (groups g') = bool_decide (g = g').
Proof.
  intros Hg' Hl. unfold Equal. rewrite decide_True.
  - apply bool_decide_ext. by apply groups_inj.
  - by repeat (destruct g' as [|? g']; try discriminate Hl).
Qed.

Lemma helpers_v6 :
  (IsLoopback (groups g) || IsLinkLocalUnicast (groups g) || IsLinkLocalMulticast (groups g) ||
   IsInterfaceLocalMulticast (groups g) || IsPrivate (groups g) || IsUnspecified (groups g) || IsMulticast (groups g)) =
  v6_special g.
Proof.
  assert (is_group 0 ∧ is_group 1 ∧ is_group 65535) as (G0 & G1 & G2) by (unfold is_group; lia).
  assert (is_group g0) as Hg0 by (by apply Forall_cons in Hg as [? _]). destruct (group_bytes _ Hg0) as [B1 B2].
  unfold IsLoopback, IsLinkLocalUnicast, IsLinkLocalMulticast, IsInterfaceLocalMulticast, IsPrivate, IsUnspecified, IsMulticast, v6_special.
  rewrite To4_plain.
  change (zeros 15 ++ [1]) with (groups (replicate 7 0 ++ [1])). change (zeros 16) with (groups (replicate 8 0)).
  change (IPv4 0 0 0 0) with (groups [0; 0; 0; 0; 0; 65535; 0; 0]).
  rewrite !Equal_groups by (done || all_groups). rewrite (bool_decide_eq_false_2 (g = [0; 0; 0; 0; 0; 65535; 0; 0])) by (unfold g; congruence).
  change (byte_at (groups g) 0) with (g0 / 256). change (byte_at (groups g) 1) with (g0 mod 256). change (is_v6 (groups g)) with true.
  change (nth 0 g 0) with g0. cbn [andb orb].
  assert ((g0 / 256 =? 254) && (Z.land (g0 mod 256) 192 =? 128) = (65152 <=? g0) && (g0 <? 65216)) as ->.
  { masks. apply eq_true_iff_eq. rewrite !andb_true_iff, !Z.eqb_eq, Z.leb_le, Z.ltb_lt. unfold is_byte, is_group in *. Z.div_mod_to_equations. lia. }
  assert ((Z.land (g0 / 256) 254 =? 252) = (64512 <=? g0) && (g0 <? 65024)) as ->.
  { masks. apply eq_true_iff_eq. rewrite !andb_true_iff, !Z.eqb_eq, Z.leb_le, Z.ltb_lt. unfold is_byte, is_group in *. Z.div_mod_to_equations. lia. }
  assert ((g0 / 256 =? 255) = (65280 <=? g0)) as ->.
  { apply eq_true_iff_eq. rewrite !Z.eqb_eq, Z.leb_le. unfold is_byte, is_group in *. Z.div_mod_to_equations. lia. }
  destruct (bool_decide (g = replicate 8 0)), (bool_decide (g = replicate 7 0 ++ [1])), ((65152 <=? g0) && (g0 <? 65216)),
    ((64512 <=? g0) && (g0 <? 65024)), (65280 <=? g0); cbn; rewrite ?orb_true_r; done.
Qed.

Lemma Contains_prefix pre n :
  Forall is_group pre → (length pre + n = 8)%nat →
  Contains_ip (CIDR (groups pre ++ zeros (2 * n)) (16 * Z.of_nat (length pre))) (groups g) = bool_decide (take (length pre) g = pre).
Proof.
  intros Hp Hn. unfold Contains_ip, CIDR. rewrite To4_plain. cbn [default net_IP net_Mask].
  assert (length (groups pre ++ zeros (2 * n)) = 2 * length pre + 2 * n)%nat as Hl.
  { unfold zeros. rewrite length_app, length_replicate. f_equal. clear. induction pre as [|x pre IH]; [done|]. unfold groups in *.
    rewrite bind_cons, length_app, IH. cbn. lia. }
  rewrite Hl, bool_decide_eq_true_2 by (cbn; lia). cbn [andb]. apply masked_groups; [done|done|cbn; lia].
Qed.
End v6.

(** C17: the guard blocks exactly the internal addresses.  For an IPv4 address
    the bit tests of [IsBlockedIP] and of package net amount to the eleven
    ranges of [blocked_ranges] (this host, private, shared, loopback,
    link-local with the metadata service, benchmark, multicast and reserved).
    An IPv6 address that embeds an IPv4 address, mapped, by NAT64 or by 6to4,
    is blocked exactly when that one is; any other one exactly when it is
    unspecified, loopback, link-local, unique-local or multicast. *)
Theorem IsBlockedIP_ranges :
  (∀ a b c d, is_byte a → is_byte b → is_byte c → is_byte d →
     IsBlockedIP [a; b; c; d] = v4_blocked (v4_number a b c d)) ∧
  (∀ g, length g = 8%nat → Forall is_group g → IsBlockedIP (groups g) = v6_blocked g).
Proof.
  assert (∀ n a b c d, is_byte a → is_byte b → is_byte c → is_byte d →
     IsBlockedIP_go (S n) [a; b; c; d] = v4_blocked (v4_number a b c d)) as H4.
  { intros n a b c d Ha Hb Hc Hd. apply blocked_v4_form; try done. unfold IsUnspecified, Equal.
    rewrite decide_False, decide_True, decide_False, decide_True by done. rewrite orb_true_iff, !bool_decide_eq_true.
    by intros [[= <- _]|?]. }
  assert (∀ n a b, is_group a → is_group b → IsBlockedIP_go (S n) (groups [a; b]) = v4_blocked (a * 65536 + b)) as H4'.
  { intros n a b [A1 A2]%group_bytes [B1 B2]%group_bytes. change (groups [a; b]) with [a / 256; a mod 256; b / 256; b mod 256].
    rewrite H4 by done. f_equal. unfold v4_number.
    pose proof (Z.div_mod a 256). pose proof (Z.div_mod b 256). lia. }
  split; [intros; by apply (H4 1%nat)|]. intros g Hl Hg.
  destruct g as [|g0 [|g1 [|g2 [|g3 [|g4 [|g5 [|a [|b [|]]]]]]]]]; try discriminate Hl. clear Hl.
  unfold v6_blocked, embedded_v4. pose proof Hg as Hg'. repeat (apply Forall_cons in Hg' as [? Hg']).
  destruct (decide (_ = [0; 0; 0; 0; 0; 65535])) as [[= -> -> -> -> -> ->]|Hplain].
  - destruct (group_bytes a) as [A1 A2]; [done|]. destruct (group_bytes b) as [B1 B2]; [done|].
    unfold IsBlockedIP. rewrite (blocked_v4_form _ _ (a / 256) (a mod 256) (b / 256) (b mod 256)); try done.
    + f_equal. unfold v4_number. pose proof (Z.div_mod a 256). pose proof (Z.div_mod b 256). lia.
    + unfold IsUnspecified, Equal. rewrite !decide_True by done. rewrite orb_true_iff, !bool_decide_eq_true. cbn.
      by intros [[= -> _]|?].
  - unfold IsBlockedIP. cbn [IsBlockedIP_go]. rewrite decide_False by done. rewrite helpers_v6, To4_plain by done.
    change nat64Net with (CIDR (groups [100; 65435; 0; 0; 0; 0] ++ zeros (2 * 2)) (16 * Z.of_nat (length [100; 65435; 0; 0; 0; 0]))).
    change sixTo4 with (CIDR (groups [8194] ++ zeros (2 * 7)) (16 * Z.of_nat (length [8194]))).
    assert (is_group 100 ∧ is_group 65435 ∧ is_group 0 ∧ is_group 8194) as (? & ? & ? & ?) by (unfold is_group; lia).
    rewrite !Contains_prefix by (done || all_groups). cbn [length take].
    assert (∀ n, g0 = n → n = 100 ∨ n = 8194 → v6_special [g0; g1; g2; g3; g4; g5; a; b] = false) as Hsp.
    { intros n -> Hn. unfold v6_special. rewrite !bool_decide_eq_false_2 by (cbn; intros [= ? _]; lia). cbn [nth].
      by destruct Hn as [-> | ->]. }
    destruct (decide (_ = [100; 65435; 0; 0; 0; 0])) as [E|E].
    + rewrite (bool_decide_eq_true_2 _ E). rewrite (Hsp 100) by (by injection E; auto). cbn [orb]. by apply (H4' 0%nat).
    + rewrite (bool_decide_eq_false_2 _ E). destruct (decide (g0 = 8194)) as [E'|E'].
      * rewrite bool_decide_eq_true_2 by congruence. rewrite (Hsp 8194) by auto. by apply (H4' 0%nat).
      * rewrite bool_decide_eq_false_2 by congruence. by destruct (v6_special _).
Qed.

(** More levels do not change the answer. *)
Lemma IsBlockedIP_fuel n ip : IsBlockedIP_go (S (S n)) ip = IsBlockedIP ip.
Proof.
  assert (∀ k l, length l = 4%nat → IsBlockedIP_go (S k) l = IsBlockedIP_go 1 l) as H4.
  { intros k l Hl. cbn [IsBlockedIP_go]. unfold To4. by rewrite (decide_True (P := length l = 4%nat)). }
  unfold IsBlockedIP. cbn [IsBlockedIP_go]. case_decide as Hne; [done|]. destruct (_ || _); [done|].
  destruct (To4 ip) eqn:E; [done|].
  assert (∀ m, length (net_IP m) = 16%nat → Contains_ip m ip = true → length ip = 16%nat) as Hlen.
  { intros m Hm. unfold Contains_ip. rewrite E. cbn [default]. rewrite Hm. intros [?%bool_decide_eq_true _]%andb_prop. done. }
  destruct (Contains_ip nat64Net ip) eqn:E1; [|destruct (Contains_ip sixTo4 ip) eqn:E2; [|done]];
    apply Hlen in E1 || apply Hlen in E2; try done; apply H4; rewrite length_take, length_drop; lia.
Qed.

(** ** The dialer *)

(** What a dial connects to: an address as given, or an IP with a port. *)
Inductive target := DialAddr (addr : string) | DialIP (ip : IP) (port : string).

Section dialer.
(** [net.SplitHostPort], the resolver and whether a connection comes about. *)
Context (SplitHostPort : string → option (string * string)) (LookupIPAddr : string → result (list IP))
  (connects : target → bool).

(** The loop over the addresses: the targets tried and the one connected. *)
Fixpoint dial_ips (port : string) (ips : list IP) : list target * option target :=
  match ips with
  | [] => ([], None)
  | ip :: ips' =>
      if IsBlockedIP ip then dial_ips port ips'
      else if connects (DialIP ip port) then ([DialIP ip port], Some (DialIP ip port))
      else let '(tried, r) := dial_ips port ips' in (DialIP ip port :: tried, r)
  end.

Definition guardedDialContext (allowPrivate : bool) (proxyAddrs : gset string) (addr : string) : list target * option target :=
  if allowPrivate || bool_decide (addr ∈ proxyAddrs)
  then ([DialAddr addr], if connects (DialAddr addr) then Some (DialAddr addr) else None)
  else match SplitHostPort addr with
       | None => ([], None)
       | Some (host, port) =>
           match LookupIPAddr host with
           | Err _ => ([], None)
           | Ok ips => dial_ips port ips
           end
       end.

Lemma dial_ips_spec port ips :
  let '(tried, r) := dial_ips port ips in
  (∀ t, t ∈ tried → ∃ ip, t = DialIP ip port ∧ ip ∈ ips ∧ IsBlockedIP ip = false) ∧
  match r with
  | Some t => t ∈ tried ∧ connects t = true
  | None => ∀ ip, ip ∈ ips → IsBlockedIP ip = false → DialIP ip port ∈ tried ∧ connects (DialIP ip port) = false
  end.
Proof.
  induction ips as [|ip ips IH]; cbn [dial_ips]; [split; intros ? ?%elem_of_nil; done|].
  destruct (IsBlockedIP ip) eqn:Hb; [|destruct (connects (DialIP ip port)) eqn:Hc].
  - destruct (dial_ips port ips) as [tried r]. destruct IH as [H1 H2]. split.
    + intros t (ip' & -> & Hin & Hu)%H1. exists ip'. split_and!; [done|by right|done].
    + destruct r; [done|]. intros ip' [->|Hin]%elem_of_cons Hu; [congruence|auto].
  - split; [|split; [left|done]]. intros t ->%list_elem_of_singleton. exists ip. split_and!; [done|left|done].
  - destruct (dial_ips port ips) as [tried r]. destruct IH as [H1 H2]. split.
    + intros t [->|(ip' & -> & Hin & Hu)%H1]%elem_of_cons; [exists ip|exists ip']; split_and!; try done; [left|by right].
    + destruct r; [destruct H2; split; [by right|done]|].
      intros ip' [->|Hin]%elem_of_cons Hu; [split; [left|done]|]. destruct (H2 ip' Hin Hu). split; [by right|done].
Qed.

(** No connection to an internal address.  Unless the operator opted out
    or the address is the configured proxy, the dialer connects only to
    addresses that the name of the request resolved to and that are not
    blocked, the address it checked being the address it dials; it fails only
    when every such address was tried and refused. *)
Theorem guarded_dial_safe proxyAddrs addr :
  addr ∉ proxyAddrs →
  let '(tried, r) := guardedDialContext false proxyAddrs addr in
  (∀ t, t ∈ tried → ∃ host port ips ip, SplitHostPort addr = Some (host, port) ∧ LookupIPAddr host = Ok ips ∧
     t = DialIP ip port ∧ ip ∈ ips ∧ IsBlockedIP ip = false) ∧
  match r with
  | Some t => t ∈ tried ∧ connects t = true
  | None => ∀ host port ips ip, SplitHostPort addr = Some (host, port) → LookupIPAddr host = Ok ips → ip ∈ ips →
      IsBlockedIP ip = false → DialIP ip port ∈ tried ∧ connects (DialIP ip port) = false
  end.
Proof.
  intros Hp. unfold guardedDialContext. rewrite bool_decide_eq_false_2 by done. cbn [orb].
  destruct (SplitHostPort addr) as [[host port]|]; [|split; [intros t ?%elem_of_nil; done|done]].
  destruct (LookupIPAddr host) as [ips|e] eqn:El; [|split; [intros t ?%elem_of_nil; done|congruence]].
  pose proof (dial_ips_spec port ips) as Hs. destruct (dial_ips port ips) as [tried r]. destruct Hs as [H1 H2]. split.
  - intros t (ip & -> & Hin & Hb)%H1. by exists host, port, ips, ip.
  - destruct r as [t|]; [done|]. intros h p l ip [= <- <-]. rewrite El. intros [= <-]. apply H2.
Qed.

(** [validateOutboundURL], given the scheme and the host [url.Parse] finds: a
    host that does not resolve is accepted. *)
Definition validateOutboundURL (Parse : string → option (string * string)) (allowPrivate : bool) (rawURL : string) : bool :=
  match Parse rawURL with
  | None => false
  | Some (scheme, host) =>
      if decide (scheme ≠ "http" ∧ scheme ≠ "https")%string then false
      else if decide (host = EmptyString) then false
      else if allowPrivate then true
      else match LookupIPAddr host with
           | Err _ => true
           | Ok ips => negb (existsb IsBlockedIP ips)
           end
  end.
End dialer.

Module Example5.
(** One name with an internal and a public address. *)
Definition resolver (host : string) : result (list IP) := Ok [[169; 254; 169; 254]; [93; 184; 216; 34]].
Definition split_addr (addr : string) : option (string * string) := Some ("h", "443")%string.

Lemma guarded_dial_safe_witness :
  let '(tried, r) := guardedDialContext split_addr resolver (λ _, true) false ∅ "h:443" in
  ∀ t, t ∈ tried → ∃ ip, t = DialIP ip "443" ∧ IsBlockedIP ip = false.
Proof.
  pose proof (guarded_dial_safe split_addr resolver (λ _, true) ∅ "h:443"%string ltac:(set_solver)) as Hsafe.
  destruct (guardedDialContext split_addr resolver (λ _, true) false ∅ "h:443") as [tried r]. destruct Hsafe as [H1 _].
  intros t Ht. destruct (H1 t Ht) as (host & port & ips & ip & Hs & _ & -> & _ & Hb). injection Hs as <- <-. by exists ip.
Defined.

(** The metadata service and its disguises, and a public address. *)
Lemma blocked_examples :
  map IsBlockedIP [[169; 254; 169; 254]; IPv4 169 254 169 254; groups [100; 65435; 0; 0; 0; 0; 43518; 43518];
                   groups [8194; 43518; 43518; 0; 0; 0; 0; 1]; [93; 184; 216; 34]; []] = [true; true; true; true; false; true].
Proof. vm_compute. reflexivity. Qed.
End Example5.
