(* ===== verification/Federation.v ===== *)
(** * Federation between instances (internal/federation)

    The signature of the requests peers send each other, the client that makes
    it and the check that accepts it, and the cache of peer responses. *)

From S2P Require Import Prelude GoStrings Model Database.
From Stdlib Require Import Ascii.

Open Scope Z_scope.

(** ** Signatures *)

Definition HeaderSignature : string := "X-LiteMLflow-Federate-Sig".
Definition HeaderPeer : string := "X-LiteMLflow-Federate-Peer".
Definition HeaderTimestamp : string := "X-LiteMLflow-Federate-Ts".
Definition DefaultClockSkewMS : Z := 5 * 60 * 1000.
Definition MaxResponseBytes : Z := 8 * 2 ^ 20.

Inductive fed_error :=
  | ErrSignatureMismatch | ErrPeerUnknown | ErrTimestampStale | ErrSecretFormat | ErrResponseTooLarge
  | ErrHeaders | ErrBodyTooLarge | ErrTransport.

Inductive fed_result (A : Type) := FedOk (a : A) | FedErr (e : fed_error).
Arguments FedOk {A}.
Arguments FedErr {A}.

(** [abs64] on [int64], where the smallest number has no opposite. *)
Definition abs64 (x : Z) : Z := if x <? 0 then wrap64 (- x) else x.

Definition newline : ascii := "010".

(** The bytes that are signed. *)
Definition canonical (method path : string) (ts : Z) (body : string) : string :=
  method +:+ String newline (path +:+ String newline (FormatInt ts +:+ String newline body)).

Section federation.
(** HMAC-SHA256 of a key and a message. *)
Context (hmac : list Z → string → list Z).

Definition signRequest (secret : list Z) (method path : string) (ts : Z) (body : string) : string :=
  "sha256=" +:+ EncodeToString (hmac secret (canonical method path ts body)).

(** The 32 bytes of a secret of 64 hexadecimal digits. *)
Definition decode_secret (secretHex : string) : option (list Z) :=
  secret ← DecodeString secretHex; if decide (length secret = 32%nat) then Some secret else None.

Definition VerifyRequest (now : Z) (secretHex method path : string) (ts : Z) (body sigHeader : string) : fed_result unit :=
  match decode_secret secretHex with
  | None => FedErr ErrSecretFormat
  | Some secret =>
      if DefaultClockSkewMS <? abs64 (wrap64 (now - ts)) then FedErr ErrTimestampStale
      else if decide (signRequest secret method path ts body = sigHeader) then FedOk tt
      else FedErr ErrSignatureMismatch
  end.

(** ** The client *)

Record Client := mkClient { cl_baseURL : string; cl_ourName : string; cl_secret : list Z }.

Definition NewClient (baseURL ourName secretHex : string) : fed_result Client :=
  match decode_secret secretHex with
  | None => FedErr ErrSecretFormat
  | Some secret => FedOk (mkClient (TrimRightSlash baseURL) ourName secret)
  end.

Record SignedRequest := mkSignedRequest {
  sq_Method : string; sq_URL : string; sq_Header : list (string * string); sq_Body : string }.

(** The request [DoCtx] sends at time [ts]; [None] for a path that is not
    absolute. *)
Definition signed_request (c : Client) (ts : Z) (method path body : string) : option SignedRequest :=
  if HasPrefix path "/" then
    Some (mkSignedRequest method (cl_baseURL c +:+ path)
      [("Content-Type", "application/json"); (HeaderPeer, cl_ourName c); (HeaderTimestamp, FormatInt ts);
       (HeaderSignature, signRequest (cl_secret c) method path ts body)]%string body)
  else None.

(** [DoCtx], given what the transport returns: a status and the body, of which
    one byte more than the limit is read. *)
Definition DoCtx (transport : SignedRequest → option (Z * string)) (c : Client) (ts : Z) (method path body : string) :
    fed_result (Z * string) :=
  match signed_request c ts method path body with
  | None => FedErr ErrTransport
  | Some q =>
      match transport q with
      | None => FedErr ErrTransport
      | Some (status, reply) => if MaxResponseBytes <? Z.of_nat (slen reply) then FedErr ErrResponseTooLarge else FedOk (status, reply)
      end
  end.

(** ** What a signature covers *)

Definition no_newline (s : string) : Prop := any_byte (λ a, bool_decide (a = newline)) s = false.

Lemma cut_newline s s' t t' :
  no_newline s → no_newline s' → s +:+ String newline t = s' +:+ String newline t' → s = s' ∧ t = t'.
Proof.
  intros Hs Hs' E. pose proof (Cut_app_not_in s newline t Hs) as H1. pose proof (Cut_app_not_in s' newline t' Hs') as H2.
  rewrite E in H1. rewrite H1 in H2. by injection H2.
Qed.

Lemma FormatInt_inj z z' : in_int64 z → in_int64 z' → FormatInt z = FormatInt z' → z = z'.
Proof. intros Hz Hz' E. apply ParseInt_FormatInt in Hz. apply ParseInt_FormatInt in Hz'. congruence. Qed.

(** The signed text determines method, path, time and body, as long as method
    and path are one line. *)
Lemma canonical_inj m p ts body m' p' ts' body' :
  no_newline m → no_newline m' → no_newline p → no_newline p' → in_int64 ts → in_int64 ts' →
  canonical m p ts body = canonical m' p' ts' body' → m = m' ∧ p = p' ∧ ts = ts' ∧ body = body'.
Proof.
  intros Hm Hm' Hp Hp' Ht Ht' E. unfold canonical in E.
  apply cut_newline in E as [-> E]; [|done..]. apply cut_newline in E as [-> E]; [|done..].
  apply cut_newline in E as [E ->]; [|by apply FormatInt_digits..]. apply FormatInt_inj in E as ->; done.
Qed.

(** ** The window of accepted timestamps *)

(** Times a server can have: before the year 146,000,000. *)
Definition server_time (now : Z) : Prop := 0 ≤ now < 2 ^ 62.

Lemma fresh_spec now ts :
  server_time now → in_int64 ts →
  abs64 (wrap64 (now - ts)) ≤ DefaultClockSkewMS ↔ Z.abs (now - ts) ≤ DefaultClockSkewMS ∨ ts = now - 2 ^ 63.
Proof.
  unfold server_time, in_int64, int64_min, int64_max, DefaultClockSkewMS. intros Hn Ht.
  assert (now - ts < 2 ^ 63 → wrap64 (now - ts) = now - ts) as W1.
  { intros Hlt. apply wrap64_id. unfold in_int64, int64_min, int64_max. lia. }
  assert (2 ^ 63 ≤ now - ts → wrap64 (now - ts) = now - ts - 2 ^ 64) as W2.
  { intros Hge. unfold wrap64. rewrite <- (Z.mod_add _ (-1)) by lia. rewrite Z.mod_small by lia. lia. }
  unfold abs64. destruct (Z.lt_ge_cases (now - ts) (2 ^ 63)) as [Hlt|Hge].
  - rewrite W1 by done. destruct (Z.ltb_spec (now - ts) 0); [|lia].
    rewrite wrap64_id by (unfold in_int64, int64_min, int64_max; lia). lia.
  - rewrite W2 by done. destruct (Z.ltb_spec (now - ts - 2 ^ 64) 0); [|lia].
    destruct (Z.eq_dec (now - ts) (2 ^ 63)) as [E|E].
    + rewrite E. change (wrap64 (- (2 ^ 63 - 2 ^ 64))) with (- 2 ^ 63). lia.
    + rewrite wrap64_id by (unfold in_int64, int64_min, int64_max; lia). lia.
Qed.

(** What a federation signature authenticates.  A request is accepted
    exactly when the registered secret has 64 hexadecimal digits, the signature
    is the HMAC under that secret of the method, path, timestamp and body it
    arrived with, and the timestamp is at most five minutes from the clock of
    the receiver, in [int64] arithmetic: the one exception is the timestamp
    2^63 ms before the clock, whose distance overflows. *)
Theorem VerifyRequest_spec now secretHex method path ts body sigHeader :
  server_time now → in_int64 ts →
  VerifyRequest now secretHex method path ts body sigHeader = FedOk tt ↔
  ∃ secret, DecodeString secretHex = Some secret ∧ length secret = 32%nat ∧
    (Z.abs (now - ts) ≤ DefaultClockSkewMS ∨ ts = now - 2 ^ 63) ∧
    sigHeader = "sha256=" +:+ EncodeToString (hmac secret (canonical method path ts body)).
Proof.
  intros Hn Ht. unfold VerifyRequest, decode_secret. pose proof (fresh_spec now ts Hn Ht) as Hf.
  destruct (DecodeString secretHex) as [secret|]; [|split; [done|naive_solver]]. cbn [mbind option_bind].
  destruct (decide (length secret = 32%nat)) as [Hl|Hl]; [|split; [done|naive_solver]].
  destruct (Z.ltb_spec DefaultClockSkewMS (abs64 (wrap64 (now - ts)))) as [Hst|Hfr].
  { split; [done|]. intros (s & _ & _ & Hs%Hf & _). lia. }
  apply Hf in Hfr. destruct (decide (signRequest _ _ _ _ _ = _)) as [Hsig|Hsig]; [split; [by exists secret|done]|].
  split; [done|]. intros (s & [= <-] & _ & _ & ->). by destruct Hsig.
Qed.
End federation.

(** ** The response cache *)

(** Times in nanoseconds. *)
Record Cache := mkCache {
  ca_entries : gmap string (Z * string); ca_keys : list string; ca_cap : Z; ca_ttl : Z }.

Definition DefaultCacheTTL : Z := 30 * 10 ^ 9.

Definition NewCache (capacity ttl : Z) : Cache :=
  mkCache ∅ [] (if capacity <=? 0 then 256 else capacity) (if ttl <=? 0 then DefaultCacheTTL else ttl).

Definition Key (peerID : Z) (queryHash : string) : string := FormatInt peerID +:+ ":" +:+ queryHash.

(** Drop the first occurrence of a key. *)
Fixpoint remove_key (key : string) (l : list string) : list string :=
  match l with
  | [] => []
  | k :: l' => if decide (k = key) then l' else k :: remove_key key l'
  end.

Definition Cache_Get (now : Z) (key : string) (c : Cache) : option string * Cache :=
  match ca_entries c !! key with
  | None => (None, c)
  | Some (at_, payload) =>
      if ca_ttl c <? now - at_
      then (None, mkCache (delete key (ca_entries c)) (remove_key key (ca_keys c)) (ca_cap c) (ca_ttl c))
      else (Some payload, c)
  end.

(** The loop that evicts the oldest keys. *)
Fixpoint evict (cap : Z) (keys : list string) (entries : gmap string (Z * string)) : list string * gmap string (Z * string) :=
  match keys with
  | [] => ([], entries)
  | oldest :: keys' => if cap <? Z.of_nat (length keys) then evict cap keys' (delete oldest entries) else (keys, entries)
  end.

Definition Cache_Put (now : Z) (key payload : string) (c : Cache) : Cache :=
  let '(keys, entries) :=
    if decide (is_Some (ca_entries c !! key)) then (ca_keys c, ca_entries c)
    else evict (ca_cap c) (ca_keys c ++ [key]) (ca_entries c) in
  mkCache (<[key := (now, payload)]> entries) keys (ca_cap c) (ca_ttl c).

Definition Cache_Reset (c : Cache) : Cache := mkCache ∅ [] (ca_cap c) (ca_ttl c).

(** The list of keys and the map agree, and the capacity is kept. *)
Record cache_wf (c : Cache) : Prop := {
  cw_cap : 0 < ca_cap c;
  cw_nodup : NoDup (ca_keys c);
  cw_dom k : is_Some (ca_entries c !! k) ↔ k ∈ ca_keys c;
  cw_len : Z.of_nat (length (ca_keys c)) ≤ ca_cap c }.

Lemma elem_of_remove_key k key l : NoDup l → k ∈ remove_key key l ↔ k ∈ l ∧ k ≠ key.
Proof.
  induction 1 as [|x l Hx Hl IH]; cbn [remove_key]; [set_solver|]. case_decide as E; subst; set_solver.
Qed.

Lemma NoDup_remove_key key l : NoDup l → NoDup (remove_key key l).
Proof.
  induction 1 as [|x l Hx Hl IH]; cbn [remove_key]; [constructor|]. case_decide; [done|]. constructor; [|done].
  rewrite elem_of_remove_key by done. naive_solver.
Qed.

Lemma length_remove_key key l : (length (remove_key key l) ≤ length l)%nat.
Proof. induction l as [|x l IH]; cbn [remove_key]; [done|]. case_decide; cbn; lia. Qed.

Lemma evict_spec cap keys entries :
  0 < cap → NoDup keys →
  let '(keys', entries') := evict cap keys entries in
  keys' `suffix_of` keys ∧ Z.of_nat (length keys') ≤ cap ∧ (keys ≠ [] → keys' ≠ []) ∧
  (∀ k, entries' !! k = if decide (k ∈ keys ∧ k ∉ keys') then None else entries !! k).
Proof.
  intros Hcap. revert entries. induction keys as [|x keys IH]; intros entries Hnd; cbn [evict].
  - split_and!; [done|cbn; lia|done|]. intros k. rewrite decide_False; [done|]. intros [?%elem_of_nil _]. done.
  - apply NoDup_cons in Hnd as [Hx Hnd]. destruct (Z.ltb_spec cap (Z.of_nat (length (x :: keys)))) as [Hlt|Hge].
    2:{ split_and!; [done|done|done|]. intros k. rewrite decide_False; [done|]. naive_solver. }
    specialize (IH (delete x entries) Hnd). destruct (evict cap keys (delete x entries)) as [keys' entries'].
    destruct IH as (Hs & Hl & Hne & Hk). split_and!; [by apply suffix_cons_r|done| |].
    + intros _. apply Hne. intros ->. cbn in Hlt. lia.
    + intros k. rewrite Hk. assert (x ∉ keys') as Hx' by (intros Hin; apply Hx; destruct Hs as [p ->]; set_solver).
      destruct (decide (k = x)) as [->|Hkx].
      * rewrite (decide_True (P := x ∈ x :: keys ∧ _)) by set_solver. destruct (decide _); [done|]. by rewrite lookup_delete_eq.
      * rewrite lookup_delete_ne by done. destruct (decide (k ∈ keys ∧ k ∉ keys')), (decide (k ∈ x :: keys ∧ k ∉ keys')); set_solver.
Qed.

Lemma last_of_suffix {A} (l l' : list A) x : l' `suffix_of` l ++ [x] → l' ≠ [] → x ∈ l'.
Proof.
  intros [p E] Hne. destruct l' as [|y l' _] using rev_ind; [done|]. rewrite app_assoc in E. apply app_inj_tail in E as [_ <-].
  apply elem_of_app. right. left.
Qed.

Lemma cache_wf_new capacity ttl : cache_wf (NewCache capacity ttl).
Proof.
  assert (0 < ca_cap (NewCache capacity ttl)) as Hc by (cbn; destruct (Z.leb_spec capacity 0); lia).
  split; [done|constructor| |cbn in *; lia]. intros k. cbn. rewrite lookup_empty, elem_of_nil. split; [by intros [? ?]|done].
Qed.

Lemma cache_wf_get now key c : cache_wf c → cache_wf (Cache_Get now key c).2.
Proof.
  intros [H1 H2 H3 H4]. unfold Cache_Get. destruct (ca_entries c !! key) as [[t p]|] eqn:E; [|done].
  destruct (_ <? _); [|done]. split; cbn [ca_cap ca_keys ca_entries snd]; [done|by apply NoDup_remove_key| |].
  - intros k. rewrite elem_of_remove_key, <- H3 by done. rewrite lookup_delete_is_Some. naive_solver.
  - pose proof (length_remove_key key (ca_keys c)). lia.
Qed.

Lemma cache_wf_put now key payload c : cache_wf c → cache_wf (Cache_Put now key payload c).
Proof.
  intros [H1 H2 H3 H4]. unfold Cache_Put. destruct (decide (is_Some (ca_entries c !! key))) as [Hin|Hin].
  - split; cbn [ca_cap ca_keys ca_entries]; try done. intros k. rewrite lookup_insert_is_Some', H3. split; [|by right].
    intros [<-|?]; [by apply H3|done].
  - assert (key ∉ ca_keys c) as Hnin by (by rewrite <- H3).
    assert (NoDup (ca_keys c ++ [key])) as Hnd by (apply NoDup_app; split_and!; [done|set_solver|apply NoDup_singleton]).
    pose proof (evict_spec (ca_cap c) (ca_keys c ++ [key]) (ca_entries c) H1 Hnd) as He.
    destruct (evict _ _ _) as [keys entries]. destruct He as (Hs & Hl & Hne & Hk).
    assert (key ∈ keys) as Hkey by (eapply last_of_suffix; [exact Hs|apply Hne; by destruct (ca_keys c)]).
    split; cbn [ca_cap ca_keys ca_entries]; [done| | |done].
    + destruct Hs as [p E]. rewrite E in Hnd. by apply NoDup_app in Hnd as (_ & _ & ?).
    + intros k. rewrite lookup_insert_is_Some', Hk. destruct (decide (k = key)) as [->|Hkk]; [naive_solver|].
      assert (k ∈ keys → k ∈ ca_keys c) as Hsub by (intros Hin'; destruct Hs as [p E]; assert (k ∈ ca_keys c ++ [key]) as Hin2 by (rewrite E; set_solver); set_solver).
      destruct (decide (k ∈ ca_keys c ++ [key] ∧ k ∉ keys)) as [[Ha Hb]|Hn].
      * split; [intros [?|[? ?]]; congruence|done].
      * rewrite H3. split; [intros [?|Hk']; [congruence|]|by auto]. destruct (decide (k ∈ keys)); [done|]. exfalso. apply Hn. set_solver.
Qed.

Inductive cache_op := OGet (key : string) | OPut (key payload : string) | OReset.

Definition exec_cache (c : Cache) (o : Z * cache_op) : Cache :=
  match o with
  | (now, OGet key) => (Cache_Get now key c).2
  | (now, OPut key payload) => Cache_Put now key payload c
  | (_, OReset) => Cache_Reset c
  end.

(** What was last stored under a key, with its time. *)
Definition last_put (key : string) (history : list (Z * cache_op)) : option (Z * string) :=
  foldl (λ last o, match o with
                   | (now, OPut k payload) => if decide (k = key) then Some (now, payload) else last
                   | (_, OReset) => None
                   | _ => last
                   end) None history.

Lemma put_entry now k payload c key e :
  ca_entries (Cache_Put now k payload c) !! key = Some e → key ≠ k → cache_wf c → ca_entries c !! key = Some e.
Proof.
  intros He Hne [H1 H2 H3 _]. unfold Cache_Put in He. destruct (decide (is_Some (ca_entries c !! k))) as [Hin|Hin].
  - cbn in He. by rewrite lookup_insert_ne in He.
  - assert (NoDup (ca_keys c ++ [k])) as Hnd.
    { apply NoDup_app. split_and!; [done| |apply NoDup_singleton]. intros x Hx ->%list_elem_of_singleton. by apply Hin, H3. }
    pose proof (evict_spec (ca_cap c) _ (ca_entries c) H1 Hnd) as Hev. destruct (evict _ _ _) as [keys entries].
    destruct Hev as (_ & _ & _ & Hk). cbn in He. rewrite lookup_insert_ne, Hk in He by done. by destruct (decide _).
Qed.

Lemma cache_history history capacity ttl :
  let c := foldl exec_cache (NewCache capacity ttl) history in
  cache_wf c ∧ ca_cap c = ca_cap (NewCache capacity ttl) ∧ ca_ttl c = ca_ttl (NewCache capacity ttl) ∧
  ∀ key e, ca_entries c !! key = Some e → last_put key history = Some e.
Proof.
  cbv zeta. induction history as [|[now o] history IH] using rev_ind; [split_and!; [apply cache_wf_new|done..]|].
  rewrite foldl_snoc. unfold last_put. setoid_rewrite foldl_snoc. fold (last_put) in *. cbn [exec_cache].
  set (c := foldl exec_cache _ history) in *. destruct IH as (Hwf & Hcap & Httl & He). destruct o as [k|k payload|].
  - split; [by apply cache_wf_get|]. unfold Cache_Get. destruct (ca_entries c !! k) as [[t p]|]; [destruct (_ <? _)|]; try done.
    split_and!; [done..|]. intros key e. cbn. intros [_ ?]%lookup_delete_Some. by apply He.
  - split; [by apply cache_wf_put|]. split; [unfold Cache_Put; by destruct (if decide _ then _ else _)|].
    split; [unfold Cache_Put; by destruct (if decide _ then _ else _)|]. intros key e Hk.
    destruct (decide (k = key)) as [<-|Hne].
    + unfold Cache_Put in Hk. destruct (if decide _ then _ else _) in Hk. cbn in Hk. by rewrite lookup_insert_eq in Hk.
    + apply put_entry in Hk; [by apply He|congruence|done].
  - split_and!; try done. split; cbn; [apply Hwf|constructor| |pose proof (cw_cap _ Hwf); lia].
    intros k. rewrite lookup_empty, elem_of_nil. split; [by intros [? ?]|done].
Qed.

(** The response cache never serves stale or foreign data.  After any
    history of lookups, stores and resets at any times, a hit under a key is
    the response last stored under that key, no older than the time to live;
    the number of entries is at most the capacity; and a response is found
    again, until it expires, right after it was stored. *)
Theorem Cache_serves_last history capacity ttl now key :
  let c := foldl exec_cache (NewCache capacity ttl) history in
  (∀ payload, (Cache_Get now key c).1 = Some payload →
     ∃ t, last_put key history = Some (t, payload) ∧ now - t ≤ ca_ttl c) ∧
  Z.of_nat (size (ca_entries c)) ≤ ca_cap (NewCache capacity ttl) ∧
  (∀ t payload, now - t ≤ ca_ttl c → (Cache_Get now key (Cache_Put t key payload c)).1 = Some payload).
Proof.
  cbv zeta. destruct (cache_history history capacity ttl) as (Hwf & Hcap & Httl & He). set (c := foldl exec_cache _ history) in *.
  split_and!.
  - intros payload. unfold Cache_Get. destruct (ca_entries c !! key) as [[t p]|] eqn:E; [|done].
    destruct (Z.ltb_spec (ca_ttl c) (now - t)); [done|]. intros [= <-]. exists t. auto.
  - rewrite <- Hcap. pose proof (cw_len _ Hwf). assert (dom (ca_entries c) = list_to_set (ca_keys c)) as Hd.
    { apply set_eq. intros k. rewrite elem_of_dom, elem_of_list_to_set. apply Hwf. }
    rewrite <- size_dom, Hd, size_list_to_set by apply Hwf. done.
  - intros t payload Ht. unfold Cache_Get, Cache_Put. destruct (if decide _ then _ else _). cbn.
    rewrite lookup_insert_eq. destruct (Z.ltb_spec (ca_ttl c) (now - t)); [lia|done].
Qed.
