(* ===== verification/NativeApi.v ===== *)
(** * The native REST API (internal/api/native)

    The handlers of handlers.go, webhooks.go, datasets.go, workspaces.go and
    the peer directory and fan-out of federation.go, in the vocabulary of
    MlflowApi.v: a
    handler takes the workspace of the request, the URL parameters chi matched,
    the query string and the decoded body.

    A JSON value the code only passes on (span attributes and events, metrics
    of an evaluation, widgets) is kept as its text. *)

From S2P Require Import Prelude GoStrings Urls Model Database Keyset Runs Sample RunData Experiments Prompts.
From S2P Require Import Workspaces Integrations Datasets Inputs Lineage Search TimeTravel MlflowApi EchoLog Federation.
From Stdlib Require Import Ascii.

Open Scope Z_scope.

(** ** Replies *)

Definition writeMissingField {A} : M (Reply A) := mret (reply_error 400 "MISSING_REQUIRED_FIELD").
Definition need {B} (b : bool) (k : M (Reply B)) : M (Reply B) := if b then k else writeMissingField.

(** [w.WriteHeader(status)] with the given body. *)
Definition write_status {A} (status : Z) (a : A) : M (Reply A) := mret (mkReply status "" (Some a) []).

(** [x, err := m], with the error as a value. *)
Definition tried {A} (m : M A) : M (result A) := λ w, let '(r, w') := m w in (Ok r, w').

(** [jsonOrEmpty]: [b] is what [json.Marshal] returns, [None] for an error. *)
Definition jsonOrEmpty (b : option string) : string :=
  match b with
  | None => EmptyString
  | Some s => if decide (s ∈ ["null"; "{}"; "[]"]%string) then EmptyString else s
  end.

(** *** The [{name}] parameter *)

(** The matched segment and [r.URL.RawPath]. *)
Record Segment := mkSegment { seg_RawPath : string; seg_Param : string }.

Definition nameParam (s : Segment) : string :=
  if decide (seg_RawPath s = EmptyString) then seg_Param s
  else match PathUnescape (seg_Param s) with Some dec => dec | None => seg_Param s end.

(** [ensureSpanRunsInWorkspace]: every distinct run the spans name. *)
Fixpoint ensureSpanRunsInWorkspace (ws : string) (seen : gset string) (spans : list Span) : M unit :=
  match spans with
  | [] => mret tt
  | sp :: spans' =>
      if decide (span_RunID sp = EmptyString ∨ span_RunID sp ∈ seen) then ensureSpanRunsInWorkspace ws seen spans'
      else _ ← ensureRunInWorkspace ws (span_RunID sp);
           ensureSpanRunsInWorkspace ws ({[span_RunID sp]} ∪ seen) spans'
  end.

(** ** Projects and notes *)

Definition Handler_ListProjects (ws : string) : M (Reply (list ProjectSummary)) :=
  let! projects := ListProjects ws in write_status 200 projects.

Record runNoteResp := mkRunNoteResp { rnr_Content : string; rnr_UpdatedAt : Z; rnr_UpdatedBy : string }.

Definition note_resp (n : string * string * Z) : runNoteResp := mkRunNoteResp n.1.1 n.2 n.1.2.

Definition Handler_GetRunNote (ws runID : string) : M (Reply runNoteResp) :=
  let! _ := ensureRunInWorkspace ws runID in
  let! n := GetRunNote runID in
  write_status 200 (note_resp n).

(** The body is [Content]; the reply has no note when it was deleted or could
    not be read back. *)
Definition Handler_SetRunNote `{Clock} (ws user runID : string) (body : option string) : M (Reply (option runNoteResp)) :=
  let! _ := ensureRunInWorkspace ws runID in
  with_body body (λ content,
    let! _ := SetRunNote runID content user in
    if decide (content = EmptyString) then write_status 200 None else
    n ← tried (GetRunNote runID);
    write_status 200 (match n with Ok n => Some (note_resp n) | Err _ => None end)).

(** ** Traces *)

Record spanDTO := mkSpanDTO {
  sd_ID : string; sd_TraceID : string; sd_ParentID : string; sd_RunID : string; sd_Name : string; sd_Kind : string;
  sd_StartTimeNS : Z; sd_EndTimeNS : option Z; sd_Attributes : option string; sd_Events : option string;
  sd_StatusCode : string; sd_StatusMessage : string }.

(** The JSON texts are parsed again; empty ones stay out. *)
Definition spanToDTO (s : Span) : spanDTO :=
  mkSpanDTO (span_ID s) (span_TraceID s) (span_ParentID s) (span_RunID s) (span_Name s) (span_Kind s)
    (span_StartTimeNS s) (span_EndTimeNS s) (nilIfEmpty (span_AttributesJSON s)) (nilIfEmpty (span_EventsJSON s))
    (span_StatusCode s) (span_StatusMessage s).
Definition spansSlice (l : list Span) : list spanDTO := spanToDTO <$> l.

Record ingestTracesReq := mkIngestTracesReq { it_TraceID : string; it_Spans : list spanDTO }.

(** The span of the request, in the trace of the request unless it names its
    own. *)
Definition ingest_span (traceID : string) (s : spanDTO) : Span :=
  mkSpan (sd_ID s) (default_to (sd_TraceID s) traceID) (sd_ParentID s) (sd_RunID s) (sd_Name s) (sd_Kind s)
    (sd_StartTimeNS s) (sd_EndTimeNS s) (jsonOrEmpty (sd_Attributes s)) (jsonOrEmpty (sd_Events s))
    (sd_StatusCode s) (sd_StatusMessage s).

(** [newTraceID] and [newIDs] are what [model.NewTraceID] and
    [model.NewSpanID] return. *)
Definition Handler_IngestTraces (newTraceID : string) (newIDs : nat → string) (ws : string)
    (body : option ingestTracesReq) : M (Reply (string * Z)) :=
  with_body body (λ req,
    need (bool_decide (it_Spans req ≠ [])) (
      let traceID := default_to (it_TraceID req) newTraceID in
      let spans := ingest_span traceID <$> it_Spans req in
      let! _ := ensureSpanRunsInWorkspace ws ∅ spans in
      let! _ := InsertSpans (imap (λ i sp, (newIDs i, sp)) spans) in
      write_status 200 (traceID, Z.of_nat (length spans)))).

Definition Handler_GetRunTraces (ws runID : string) : M (Reply (list spanDTO)) :=
  let! _ := ensureRunInWorkspace ws runID in
  let! spans := GetSpansByRun runID in
  write_status 200 (spansSlice spans).

(** The bundle of [GetRunData]. *)
Record runBundle := mkRunBundle {
  rb_Run : Run; rb_Metrics : list Metric; rb_Params : list Param; rb_Tags : list KV; rb_Spans : list spanDTO }.
#[export] Instance marshal_bundle : Marshal runBundle := λ b, marshals (rb_Metrics b).

(** [?as_of]: absent is 0, otherwise a positive integer. *)
Definition data_as_of {B} (q : Query) (k : Z → M (Reply B)) : M (Reply B) :=
  if decide (q "as_of"%string = EmptyString) then k 0 else
  with_int (q "as_of"%string) (λ ts, require (0 <? ts) (k ts)).

Definition Handler_GetRunData (ws runID : string) (q : Query) : M (Reply runBundle) :=
  data_as_of q (λ asOf,
    let! (run, asOfTags) := (if decide (0 < asOf) then GetRunAsOfInWorkspace runID ws asOf
                             else run ← GetRunInWorkspace runID ws; mret (run, [])) in
    let! metrics := (if decide (0 < asOf) then GetLatestMetricsAsOf runID asOf else GetLatestMetrics runID) in
    let! params := GetParams runID in
    let! tags := (if decide (asOf = 0) then GetTags runID else mret asOfTags) in
    let! spans := GetSpansByRun runID in
    writeJSON (mkRunBundle run metrics params tags (spansSlice spans))).

(** *** OTLP over HTTP *)

(** An attribute value of OTLP/JSON: all fields are optional. *)
Record otlpKV := mkOtlpKV {
  ok_Key : string; ok_StringValue : string; ok_IntValue : string; ok_DoubleValue : float64; ok_BoolValue : option bool }.

Inductive attrValue := AttrString (s : string) | AttrInt (n : Z) | AttrBool (b : bool) | AttrDouble (x : float64).

(** [strconv.ParseUint] up to the first error: [None] at a byte that is not a
    digit, 2^64 - 1 where the value leaves [uint64]. *)
Fixpoint scan_uint (n : Z) (s : string) : option Z :=
  match s with
  | EmptyString => Some n
  | String c s' =>
      if negb (is_digit c) then None else
      let n' := 10 * n + Z.of_N (byte_of c - 48) in
      if decide (2^64 ≤ n') then Some (2^64 - 1) else scan_uint n' s'
  end.

(** [n, _ := strconv.ParseInt(s, 10, 64)]: 0 on a syntax error, and the
    nearest [int64] out of range. *)
Definition ParseInt_value (s : string) : Z :=
  let '(neg, ds) := match s with
                    | String "-" s' => (true, s')
                    | String "+" s' => (false, s')
                    | _ => (false, s)
                    end in
  if decide (ds = EmptyString) then 0 else
  match scan_uint 0 ds with
  | None => 0
  | Some un => if neg then Z.max (- un) (-2^63) else Z.min un (2^63 - 1)
  end.

Definition otlp_value (kv : otlpKV) : attrValue :=
  if decide (ok_StringValue kv ≠ EmptyString) then AttrString (ok_StringValue kv)
  else if decide (ok_IntValue kv ≠ EmptyString) then AttrInt (ParseInt_value (ok_IntValue kv))
  else match ok_BoolValue kv with Some b => AttrBool b | None => AttrDouble (ok_DoubleValue kv) end.

(** Later entries of a key win. *)
Definition otlpAttrMap (l : list otlpKV) : gmap string attrValue :=
  foldl (λ m kv, <[ok_Key kv := otlp_value kv]> m) ∅ l.

Definition otlpAttr (l : list otlpKV) (key : string) : string :=
  match list_find (λ kv, ok_Key kv = key ∧ ok_StringValue kv ≠ EmptyString) l with
  | Some (_, kv) => ok_StringValue kv
  | None => EmptyString
  end.

Definition otlpKindToString (k : Z) : string :=
  match k with
  | 1 => "INTERNAL" | 2 => "SERVER" | 3 => "CLIENT" | 4 => "PRODUCER" | 5 => "CONSUMER" | _ => ""
  end%string.

Definition otlpStatusToString (c : Z) : string :=
  match c with 1 => "OK" | 2 => "ERROR" | _ => "UNSET" end%string.

Definition parseUnixNano (s : string) : Z := ParseInt_value s.
Definition parseUnixNanoPtr (s : string) : option Z :=
  if decide (s ∈ [""; "0"]%string) then None else Some (ParseInt_value s).

Record otlpSpan := mkOtlpSpan {
  os_TraceID : string; os_SpanID : string; os_ParentSpanID : string; os_Name : string; os_Kind : Z;
  os_StartTimeUnixNano : string; os_EndTimeUnixNano : string; os_Attributes : list otlpKV;
  os_StatusCode : Z; os_StatusMessage : string }.

(** resourceSpans: the attributes of the resource and its scopes' spans. *)
Record resourceSpans := mkResourceSpans { rs_Attributes : list otlpKV; rs_ScopeSpans : list (list otlpSpan) }.

Section otlp.
(** [json.Marshal] of an attribute map: [None] for a NaN or an infinity. *)
Context (marshal_attrs : gmap string attrValue → option string).

Definition otlp_span (runID : string) (sp : otlpSpan) : Span :=
  mkSpan (os_SpanID sp) (os_TraceID sp) (os_ParentSpanID sp) runID (os_Name sp) (otlpKindToString (os_Kind sp))
    (parseUnixNano (os_StartTimeUnixNano sp)) (parseUnixNanoPtr (os_EndTimeUnixNano sp))
    (jsonOrEmpty (marshal_attrs (otlpAttrMap (os_Attributes sp)))) EmptyString
    (otlpStatusToString (os_StatusCode sp)) (os_StatusMessage sp).

Definition otlp_spans (req : list resourceSpans) : list Span :=
  concat ((λ rs, otlp_span (otlpAttr (rs_Attributes rs) "litemlflow.run_id") <$> concat (rs_ScopeSpans rs)) <$> req).

Definition Handler_IngestOTLP (newIDs : nat → string) (ws : string) (body : option (list resourceSpans)) :
    M (Reply unit) :=
  with_body body (λ req,
    let spans := otlp_spans req in
    let! _ := ensureSpanRunsInWorkspace ws ∅ spans in
    let! _ := InsertSpans (imap (λ i sp, (newIDs i, sp)) spans) in
    writeJSON tt).
End otlp.

(** ** Prompts *)

#[export] Instance marshal_prompt : Marshal Prompt := λ _, true.

Record createPromptReq := mkCreatePromptReq {
  cp_Name : string; cp_Content : string; cp_Description : string; cp_CreatedBy : string }.

Definition Handler_ListPrompts (ws : string) : M (Reply (list Prompt)) :=
  let! prompts := ListPrompts ws in writeJSON prompts.

(** The reply repeats the request; the model keeps the version it got. *)
Definition Handler_CreatePrompt `{Clock} (sha256 : string → string) (ws : string) (body : option createPromptReq) :
    M (Reply Z) :=
  with_body body (λ req,
    need (nonempty (cp_Name req) && nonempty (cp_Content req)) (
      let! v := CreatePrompt sha256 ws (mkPrompt "" (cp_Name req) 0 (cp_Content req) "" 0 (cp_CreatedBy req)
                  (cp_Description req)) in
      writeJSON v)).

Definition Handler_GetLatestPrompt (ws : string) (name : Segment) : M (Reply Prompt) :=
  let! p := GetLatestPrompt ws (nameParam name) in writeJSON p.

Definition Handler_ListPromptVersions (ws : string) (name : Segment) : M (Reply (list Prompt)) :=
  let! versions := ListPromptVersions ws (nameParam name) in writeJSON versions.

Definition Handler_GetPromptVersion (ws : string) (name : Segment) (version : string) : M (Reply Prompt) :=
  with_int version (λ v, let! p := GetPromptVersion ws (nameParam name) v in writeJSON p).

Record setPromptAliasReq := mkSetPromptAliasReq { sp_Alias : string; sp_Version : Z }.

Definition Handler_SetPromptAlias (ws : string) (name : Segment) (body : option setPromptAliasReq) : M (Reply unit) :=
  with_body body (λ req,
    let! _ := SetPromptAlias ws (nameParam name) (sp_Alias req) (sp_Version req) in writeJSON tt).

Definition Handler_GetPromptByAlias (ws : string) (name : Segment) (alias : string) : M (Reply Prompt) :=
  let! p := GetPromptByAlias ws (nameParam name) alias in writeJSON p.

(** ** Evaluations *)

#[export] Instance marshal_eval : Marshal Eval :=
  λ e, match eval_Score e with Some x => is_finite x | None => true end.

(** [Metrics] is what [json.Marshal] makes of the map. *)
Record createEvalReq := mkCreateEvalReq {
  ev_RunID : string; ev_TargetRunIDs : list string; ev_DatasetRef : string; ev_Score : option float64;
  ev_Metrics : option string }.

Definition Handler_CreateEval (ws : string) (body : option createEvalReq) : M (Reply Eval) :=
  with_body body (λ req,
    need (nonempty (ev_RunID req)) (
      let! _ := ensureRunInWorkspace ws (ev_RunID req) in
      let e := mkEval (ev_RunID req) (ev_TargetRunIDs req) (ev_DatasetRef req) (ev_Score req)
                 (jsonOrEmpty (ev_Metrics req)) in
      let! _ := CreateEval e in
      writeJSON e)).

Definition Handler_GetEval (ws runID : string) : M (Reply Eval) :=
  let! _ := ensureRunInWorkspace ws runID in
  let! e := GetEval runID in
  writeJSON e.

(** ** Search *)

(** Runs, experiments and prompts found, with the display fields; [Title] and
    [Instance] belong to the fan-out. *)
Record searchResultItem := mkSearchResultItem {
  si_Kind : string; si_ID : string; si_Name : string; si_Title : string; si_SubTitle : string; si_Status : string;
  si_URL : string; si_ExperimentID : string; si_Instance : string }.

Definition experiment_url (id : Z) : string := "#/experiments/" +:+ FormatInt id.

Definition experiment_item (e : Experiment) : searchResultItem :=
  mkSearchResultItem "experiment" (FormatInt (exp_ID e)) (exp_Name e) "" "" "" (experiment_url (exp_ID e)) "" "".
Definition run_item (r : Run) : searchResultItem :=
  let exp := FormatInt (run_ExperimentID r) in
  mkSearchResultItem "run" (run_ID r) (run_Name r) "" ("exp " +:+ exp) (run_Status r)
    (experiment_url (run_ExperimentID r) +:+ "/runs/" +:+ run_ID r) exp "".
Definition prompt_item (name : string) (p : Prompt) : searchResultItem :=
  mkSearchResultItem "prompt" name (prompt_Name p) "" "" "" ("#/prompts/" +:+ name) "" "".

(** [strings.ReplaceAll(q, "'", "''")]. *)
Fixpoint escape_quotes (s : string) : string :=
  match s with
  | EmptyString => EmptyString
  | String c s' => if byte_is 39 c then String c (String c (escape_quotes s')) else String c (escape_quotes s')
  end.

Definition name_filter (q : string) : string := "name LIKE '%" +:+ escape_quotes q +:+ "%'".

(** [if err == nil] around the items of one kind. *)
Definition items_of {A} (m : M (list A)) (f : A → searchResultItem) : M (list searchResultItem) :=
  r ← tried m; mret (match r with Ok l => f <$> l | Err _ => [] end).

(** The loop over [names]: at most two items. *)
Fixpoint prompt_items (ws ql : string) (names : list string) (items : list searchResultItem) :
    M (list searchResultItem) :=
  match names with
  | [] => mret items
  | n :: names' =>
      let name := TrimSpace n in
      if decide (name = EmptyString) then prompt_items ws ql names' items
      else if nonempty ql && negb (Contains (ToLower name) ql) then prompt_items ws ql names' items
      else
        p ← tried (GetLatestPrompt ws name);
        match p with
        | Err _ => prompt_items ws ql names' items
        | Ok p =>
            let items := items ++ [prompt_item name p] in
            if decide (2 ≤ length items)%nat then mret items else prompt_items ws ql names' items
        end
  end.

(** *** The fan-out to the connected peers (federation.go) *)

Definition federationOurName (cfgName : string) : string := or_else cfgName "lmf-self".

Definition with_instance (name : string) (i : searchResultItem) : searchResultItem :=
  mkSearchResultItem (si_Kind i) (si_ID i) (si_Name i) (si_Title i) (si_SubTitle i) (si_Status i) (si_URL i)
    (si_ExperimentID i) name.

Section calling.
Context (hmac : list Z → string → list Z).
(** What the cache holds for a peer when it is looked up, what the transport
    returns, and the JSON of a reply: the instance and its results. *)
Context (cached : Peer → option string) (transport : SignedRequest → option (Z * string))
  (decode : string → option (string * list searchResultItem)).

(** One goroutine of the fan-out: the reply, if any, and the payload it puts
    into the cache. *)
Definition ask_peer (ourName : string) (ts : Z) (body : string) (p : Peer) :
    option (string * list searchResultItem) * option string :=
  match cached p ≫= decode with
  | Some hit => (Some hit, None)
  | None =>
      match NewClient (peer_URL p) ourName (peer_Secret p) with
      | FedErr _ => (None, None)
      | FedOk client =>
          match DoCtx hmac transport client ts "POST" "/api/v1/federate/search" body with
          | FedErr _ => (None, None)
          | FedOk (status, payload) =>
              if decide (status = 200) then
                match decode payload with
                | Some got => (Some got, Some payload)
                | None => (None, None)
                end
              else (None, None)
          end
      end
  end.

(** The replies in the order they arrive. *)
Definition merge_replies (replies : list (option (string * list searchResultItem))) :
    list searchResultItem * list string * bool :=
  (omap id replies ≫= λ r, with_instance r.1 <$> r.2, fst <$> omap id replies, existsb (λ r, bool_decide (r = None)) replies).

(** The connected peers of the workspace. *)
Definition connected_peers (ws : string) : M (list Peer) :=
  l ← ListPeers ws; mret (filter (λ p, peer_Status p = "connected"%string) l).

(** [federatedFanOut]; [arrival] orders the connected peers by the arrival of
    their replies. *)
Definition federatedFanOut (ourName : string) (ts : Z) (arrival : list Peer → list Peer) (body ws : string) :
    M (list searchResultItem * list string * bool) :=
  peers ← tried (connected_peers ws);
  mret (match peers with
        | Err _ => ([], [], true)
        | Ok l => merge_replies ((λ p, (ask_peer ourName ts body p).1) <$> arrival l)
        end).

Record globalSearchResp := mkGlobalSearchResp {
  gs_Items : list searchResultItem; gs_Query : string; gs_Federated : bool; gs_Instances : list string; gs_Partial : bool }.
End calling.

(** What a federated search needs besides the store: the name of the instance,
    HMAC-SHA256, the cache by query, kind, limit and workspace, the transport,
    the JSON of requests and replies, the time, and the order in which replies
    arrive. *)
Record FederationEnv := mkFederationEnv {
  fe_name : string; fe_hmac : list Z → string → list Z; fe_cached : string * string * Z * string → Peer → option string;
  fe_transport : SignedRequest → option (Z * string); fe_decode : string → option (string * list searchResultItem);
  fe_body : string → string → Z → string; fe_ts : Z; fe_arrival : list Peer → list Peer }.

Section search.
Context (like : string → string → bool).

Definition search_kinds (ws q kind : string) (names : list string) : M (list searchResultItem) :=
  exps ← (if decide (kind ∈ ["all"; "experiments"]%string) then
            items_of (res ← SearchExperiments like
                        (mkSearchOptions [] "active" (if nonempty q then name_filter q else EmptyString) [] 4 NoToken ws);
                      mret res.1) experiment_item
          else mret []);
  runs ← (if decide (kind ∈ ["all"; "runs"]%string) then items_of (SearchRunsByName like ws q 4) run_item else mret []);
  let items := exps ++ runs in
  if decide (kind = "prompts"%string) then prompt_items ws (ToLower q) names items else mret items.

Definition Handler_GlobalSearch (F : FederationEnv) (ws : string) (q : Query) : M (Reply globalSearchResp) :=
  let text := TrimSpace (q "q"%string) in
  let kind := ToLower (q "kind"%string) in
  let kind := if decide (kind = EmptyString) then "all"%string else kind in
  items ← search_kinds ws text kind (Split1 ","%char (q "names"%string));
  let items := take 10 items in
  if decide (q "federated"%string = "1"%string) then
    let ourName := federationOurName (fe_name F) in
    res ← federatedFanOut (fe_hmac F) (fe_cached F (text, kind, 10, ws)) (fe_transport F) (fe_decode F) ourName (fe_ts F) (fe_arrival F)
            (fe_body F text kind 10) ws;
    let '(merged, instances, partial) := res in
    write_status 200 (mkGlobalSearchResp (take 50 ((with_instance ourName <$> items) ++ merged)) text true (ourName :: instances) partial)
  else write_status 200 (mkGlobalSearchResp items text false [] false).
End search.

(** ** Run lineage and cloning *)

Definition lineage_direction (s : string) : option string :=
  if decide (s = "upstream"%string) then Some LineageUpstream
  else if decide (s = "downstream"%string) then Some LineageDownstream
  else if decide (s ∈ [""; "both"]%string) then Some LineageBoth else None.

(** An optional integer of the query in [1, max]; 0 when absent. *)
Definition bounded_param {B} (s : string) (max : Z) (k : Z → M (Reply B)) : M (Reply B) :=
  if decide (s = EmptyString) then k 0 else
  with_int s (λ n, require ((1 <=? n) && (n <=? max)) (k n)).

Definition Handler_GetRunLineage (ws runID : string) (q : Query) : M (Reply RunLineage) :=
  let! _ := ensureRunInWorkspace ws runID in
  match lineage_direction (q "direction"%string) with
  | None => invalid_parameter
  | Some dir =>
      bounded_param (q "depth"%string) 8 (λ depth,
        bounded_param (q "fanout"%string) 200 (λ fanout,
          let! lin := GetRunLineageWithOptions runID (mkLineageOptions dir depth fanout) in
          write_status 200 lin))
  end.

Definition sameWorkspace (stored current : string) : bool := bool_decide (default_ws stored = current).

(** The body is optional: [name] is empty when it does not decode. *)
Definition Handler_CloneExperiment `{Clock} (ws id name : string) : M (Reply Experiment) :=
  with_int id (λ srcID,
    let! src := GetExperiment srcID in
    if negb (sameWorkspace (exp_WorkspaceID src) ws) then mret (writeStoreErr ErrNotFound) else
    newName ← (if nonempty name then mret name
               else now ← time_now; mret (exp_Name src +:+ "-clone-" +:+ FormatInt (now / 1000)));
    let! e := CloneExperiment srcID newName ws in
    write_status 200 e).

(** ** Webhooks *)

Record webhookDTO := mkWebhookDTO {
  wd_ID : Z; wd_Name : string; wd_URL : string; wd_Events : string; wd_ExperimentID : option Z;
  wd_WorkspaceID : string; wd_HasSecret : bool; wd_CreatedAt : Z; wd_LastStatus : option Z; wd_LastAttempt : option Z;
  wd_Enabled : bool }.

Definition webhookToDTO (x : Webhook) : webhookDTO :=
  mkWebhookDTO (wh_ID x) (wh_Name x) (wh_URL x) (wh_Events x) (wh_ExperimentID x) (wh_WorkspaceID x)
    (nonempty (wh_Secret x)) (wh_CreatedAt x) (wh_LastStatus x) (wh_LastAttempt x) (wh_Enabled x).

Definition getWebhookInWorkspace (ws : string) (id : Z) : M Webhook :=
  x ← GetWebhook id;
  if sameWorkspace (wh_WorkspaceID x) ws then mret x else fail ErrNotFound.

Definition Handler_ListWebhooks (ws : string) : M (Reply (list webhookDTO)) :=
  let! l := ListWebhooks ws None in write_status 200 (webhookToDTO <$> l).

Record createWebhookReq := mkCreateWebhookReq {
  cw_Name : string; cw_URL : string; cw_Events : string; cw_ExperimentID : option Z; cw_Secret : string;
  cw_Enabled : option bool }.

Section webhooks.
Context `{Clock}.
(** [validateOutboundURL(url) == nil]. *)
Context (validateOutboundURL : string → bool).

Definition validateWebhookURL (url : string) : bool := IsEchoURL url || validateOutboundURL url.

Definition Handler_CreateWebhook (ws : string) (body : option createWebhookReq) : M (Reply webhookDTO) :=
  with_body body (λ req,
    need (nonempty (cw_Name req) && nonempty (cw_URL req) && nonempty (cw_Events req)) (
      require (validateWebhookURL (cw_URL req)) (
        now ← time_now;
        let x := mkWebhook 0 (cw_Name req) (cw_URL req) (cw_Events req) (cw_ExperimentID req) ws (cw_Secret req) now
                   None None (default true (cw_Enabled req)) in
        let! id := CreateWebhook x in
        write_status 200 (webhookToDTO (mkWebhook id (wh_Name x) (wh_URL x) (wh_Events x) (wh_ExperimentID x)
          (wh_WorkspaceID x) (wh_Secret x) (wh_CreatedAt x) None None (wh_Enabled x)))))).

(** The fields of the request that are set replace those of the row. *)
Definition merge_webhook (x : Webhook) (req : createWebhookReq) : Webhook :=
  mkWebhook (wh_ID x) (or_else (cw_Name req) (wh_Name x)) (or_else (cw_URL req) (wh_URL x))
    (or_else (cw_Events req) (wh_Events x))
    (match cw_ExperimentID req with Some e => Some e | None => wh_ExperimentID x end)
    (wh_WorkspaceID x) (or_else (cw_Secret req) (wh_Secret x)) (wh_CreatedAt x) (wh_LastStatus x) (wh_LastAttempt x)
    (default (wh_Enabled x) (cw_Enabled req)).

Definition Handler_UpdateWebhook (ws id : string) (body : option createWebhookReq) : M (Reply webhookDTO) :=
  with_int id (λ id,
    let! existing := getWebhookInWorkspace ws id in
    with_body body (λ req,
      require (negb (nonempty (cw_URL req)) || validateWebhookURL (cw_URL req)) (
        let x := merge_webhook existing req in
        let! _ := UpdateWebhook x in
        write_status 200 (webhookToDTO x)))).

Definition Handler_DeleteWebhook (ws id : string) : M (Reply unit) :=
  with_int id (λ id,
    let! _ := getWebhookInWorkspace ws id in
    let! _ := DeleteWebhook id in
    writeJSON tt).

(** The run of a test delivery. *)
Definition syntheticRun (now : Z) (x : Webhook) : Run :=
  mkRun "test-synthetic-run" (default 0 (wh_ExperimentID x)) "synthetic test run" StatusFinished (now - 1000) (Some now)
    "mlflow-artifacts:/test" LifecycleActive "" "" "" KindClassic "".

(** [deliver] is [SyncDelivery.Deliver]: the HTTP status, or [None] for an
    error. *)
Definition Handler_TestWebhook (deliver : Webhook → Run → option Z) (ws id : string) : M (Reply Z) :=
  with_int id (λ id,
    let! x := getWebhookInWorkspace ws id in
    now ← time_now;
    match deliver x (syntheticRun now x) with
    | None => _ ← tried (RecordWebhookAttempt id 0 now); mret (reply_error 502 "DELIVERY_FAILED")
    | Some status => _ ← tried (RecordWebhookAttempt id status now); writeJSON status
    end).
End webhooks.

(** [max] of the query, from 1 to 500, 50 by default.  The log is one for the
    whole process. *)
Definition Handler_ListEchoDeliveries (log : option EchoLog) (q : Query) : M (Reply (list EchoEntry)) :=
  let max := match ParseInt (q "max"%string) with Some n => if (0 <? n) && (n <=? 500) then n else 50 | None => 50 end in
  write_status 200 (match log with None => [] | Some l => EchoLog_List max l end).

(** ** Dashboards *)

Definition Handler_GetDashboard (ws project : string) : M (Reply Dashboard) :=
  d ← tried (GetDashboard ws project);
  write_status 200 (match d with Ok d => d | Err _ => mkDashboard 0 ws project "[]" 0 0 end).

Definition maxWidgetsBytes : Z := 64 * 1024.

(** The body is the raw JSON of [widgets]; [is_array] tells whether a text is
    a JSON array. *)
Definition Handler_SaveDashboard `{Clock} (is_array : string → bool) (ws project : string) (body : option string) :
    M (Reply Dashboard) :=
  with_body body (λ raw,
    let widgets := if decide (raw ∈ [""; "null"]%string) then "[]"%string else raw in
    if decide (maxWidgetsBytes < Z.of_nat (slen widgets)) then mret (reply_error 413 "PAYLOAD_TOO_LARGE") else
    require (is_array widgets) (
      let! d := SaveDashboard ws project widgets in
      write_status 200 d)).

(** ** Datasets *)

Record uploadMeta := mkUploadMeta { um_Desc : string; um_SchemaJSON : string; um_Parents : list Z }.

Definition maxMetaBytes : Z := 64 * 1024.

(** A parsed multipart form: the text of [meta], what it decodes to, and the
    result of [Datasets.Put] (hash and size) on the [file] part, when there is
    one. *)
Record uploadForm := mkUploadForm {
  uf_Meta : string; uf_MetaJSON : option uploadMeta; uf_File : option (option (string * Z)) }.

Definition with_meta {B} (f : uploadForm) (k : uploadMeta → M (Reply B)) : M (Reply B) :=
  if decide (uf_Meta f = EmptyString) then k (mkUploadMeta "" "" [])
  else if decide (maxMetaBytes < Z.of_nat (slen (uf_Meta f))) then mret (reply_error 413 "PAYLOAD_TOO_LARGE")
  else with_body (uf_MetaJSON f) k.

Definition datasets_disabled {A} : M (Reply A) := mret (reply_error 503 "DATASETS_DISABLED").

(** [form] is [None] when the body is no multipart form; [cas] tells whether
    the server has a content store. *)
Definition Handler_CreateDatasetVersion `{Clock} (cas : bool) (ws user : string) (seg : Segment)
    (form : option uploadForm) : M (Reply DatasetVersion) :=
  if negb cas then datasets_disabled else
  let name := nameParam seg in
  require (nonempty name) (with_body form (λ f, with_meta f (λ meta, with_body (uf_File f) (λ put,
    match put with
    | None => mret (reply_error 500 "STORAGE_ERROR")
    | Some (hash, size) =>
        r ← tried (CreateDatasetVersion (mkDatasetVersion 0 name 0 hash size (um_SchemaJSON meta) (um_Desc meta) ws 0
                     user "" []) (um_Parents meta));
        match r with
        | Err _ => invalid_parameter
        | Ok out => write_status 200 out
        end
    end)))).

Definition Handler_ListDatasets (ws : string) : M (Reply (list DatasetVersion)) :=
  let! l := ListDatasets ws in write_status 200 l.

Definition Handler_ListDatasetVersions (ws : string) (seg : Segment) : M (Reply (list DatasetVersion)) :=
  let! l := ListDatasetVersions ws (nameParam seg) in write_status 200 l.

Definition Handler_GetDatasetVersion (ws : string) (seg : Segment) (version : string) : M (Reply DatasetVersion) :=
  with_int version (λ v, let! x := GetDatasetVersion ws (nameParam seg) v in write_status 200 x).

Definition Handler_DeleteDatasetVersion (ws : string) (seg : Segment) (version : string) : M (Reply unit) :=
  with_int version (λ v, let! _ := SoftDeleteDatasetVersion ws (nameParam seg) v in writeJSON tt).

(** The runes of the name: a rune outside printable ASCII is one underscore,
    whatever its length; an invalid byte is U+FFFD. *)
Fixpoint sanitize_runes (s : string) : string :=
  match s with
  | EmptyString => EmptyString
  | String c s' =>
      if utf8_cont c then sanitize_runes s'
      else if byte_is 34 c || byte_is 92 c || byte_is 47 c || byte_is 59 c || negb (byte_in 32 126 c)
      then String "_" (sanitize_runes s') else String c (sanitize_runes s')
  end.

Definition sanitizeFilename (name : string) : string := or_else (sanitize_runes (utf8_coerce name)) "dataset".

(** The bytes with the headers of the download. *)
Record download := mkDownload { dl_Bytes : string; dl_Filename : string; dl_Hash : string }.

(** [cas] is [Datasets.Get] of the content store, if there is one. *)
Definition Handler_GetDatasetContent (cas : option (string → option string)) (ws : string) (seg : Segment)
    (version : string) : M (Reply download) :=
  match cas with
  | None => datasets_disabled
  | Some get_bytes =>
      with_int version (λ v,
        let! x := GetDatasetVersion ws (nameParam seg) v in
        match get_bytes (ds_ContentHash x) with
        | None => mret (reply_error 404 "CONTENT_NOT_FOUND")
        | Some bytes =>
            write_status 200 (mkDownload bytes (sanitizeFilename (nameParam seg) +:+ "-v" +:+ FormatInt v)
              (ds_ContentHash x))
        end)
  end.

Definition Handler_GetDatasetLineage (ws : string) (seg : Segment) (version : string) : M (Reply (option DatasetLineage)) :=
  with_int version (λ v, let! lin := GetDatasetLineage ws (nameParam seg) v in write_status 200 lin).

(** ** Workspaces *)

Definition Handler_ListWorkspaces : M (Reply (list Workspace)) :=
  let! l := ListWorkspaces in write_status 200 l.

Record createWorkspaceReq := mkCreateWorkspaceReq { ck_ID : string; ck_Name : string; ck_Description : string }.

Definition Handler_CreateWorkspace `{Clock} (body : option createWorkspaceReq) : M (Reply Workspace) :=
  with_body body (λ req,
    require (nonempty (ck_ID req) && nonempty (ck_Name req)) (
      let! _ := CreateWorkspace (mkWorkspace (ck_ID req) (ck_Name req) (ck_Description req) 0 0) in
      let! created := GetWorkspace (ck_ID req) in
      write_status 201 created)).

(** The reply: the workspace and the role of the caller in it. *)
Definition Handler_GetCurrentWorkspace (ws user : string) : M (Reply (Workspace * string)) :=
  let! x := GetWorkspace ws in
  role ← (if decide (user ∈ [""; "anonymous"]%string) then mret (Ok EmptyString) else tried (GetMemberRole ws user));
  write_status 200 (x, match role with Ok r => r | Err _ => EmptyString end).

Definition Handler_GetWorkspace (id : string) : M (Reply Workspace) :=
  let! x := GetWorkspace id in write_status 200 x.

(** The body is (name, description). *)
Definition Handler_UpdateWorkspace `{Clock} (id : string) (body : option (option string * option string)) :
    M (Reply Workspace) :=
  with_body body (λ '(name, description),
    let! _ := UpdateWorkspace id name description in
    let! x := GetWorkspace id in
    write_status 200 x).

Definition Handler_DeleteWorkspace (id : string) : M (Reply unit) :=
  let! _ := DeleteWorkspace id in write_status 204 tt.

Definition Handler_ListMembers (id : string) : M (Reply (list WorkspaceMember)) :=
  let! _ := GetWorkspace id in
  let! l := ListMembers id in
  write_status 200 l.

Definition Handler_AddMember (id userID : string) (body : option string) : M (Reply unit) :=
  with_body body (λ role,
    require (nonempty role) (
      let! _ := AddMember id userID role in
      write_status 200 tt)).

Definition Handler_RemoveMember (id userID : string) : M (Reply unit) :=
  let! _ := RemoveMember id userID in write_status 204 tt.

(** ** Federation peers *)

Record addPeerReq := mkAddPeerReq { ap_Name : string; ap_URL : string; ap_Secret : string }.

Record peerDTO := mkPeerDTO {
  pd_ID : Z; pd_Name : string; pd_URL : string; pd_WorkspaceID : string; pd_AddedAt : Z; pd_LastSeen : option Z;
  pd_Status : string; pd_LastError : string; pd_HasSecret : bool }.

Definition peerToDTO (p : Peer) : peerDTO :=
  mkPeerDTO (peer_ID p) (peer_Name p) (peer_URL p) (peer_WorkspaceID p) (peer_AddedAt p) (peer_LastSeen p)
    (peer_Status p) (peer_LastError p) (nonempty (peer_Secret p)).

(** [newSecret] is what [federation.NewSecret] returns and the reply is the id and, once, the secret. *)
Definition Handler_AddPeer `{Clock} (validateOutboundURL : string → bool) (newSecret ws : string) (body : option addPeerReq) :
    M (Reply (Z * string)) :=
  with_body body (λ req,
    need (nonempty (ap_Name req) && nonempty (ap_URL req)) (
      require (validateOutboundURL (ap_URL req)) (
        require (negb (nonempty (ap_Secret req)) || bool_decide (slen (ap_Secret req) = 64%nat)) (
          let secret := or_else (ap_Secret req) newSecret in
          let! id := CreatePeer (mkPeer 0 (ap_Name req) (ap_URL req) secret ws 0 None "" "") in
          write_status 200 (id, secret))))).

Definition Handler_ListPeers (ws : string) : M (Reply (list peerDTO)) :=
  let! l := ListPeers ws in write_status 200 (peerToDTO <$> l).

Definition Handler_DeletePeer (ws id : string) : M (Reply unit) :=
  with_int id (λ id, let! _ := DeletePeer ws id in writeJSON tt).

(** What came of the signed request to the peer. *)
Inductive EchoOutcome := NoClient (msg : string) | NoReply (msg : string) | Replied (status : Z).

Definition Handler_EchoPeer `{Clock} (probe : Peer → EchoOutcome) (ws id : string) : M (Reply string) :=
  with_int id (λ id,
    let! p := GetPeer ws id in
    match probe p with
    | NoClient msg => _ ← tried (UpdatePeerStatus id "error" ("client init: " +:+ msg) 0); invalid_parameter
    | NoReply msg => _ ← tried (UpdatePeerStatus id "error" ("echo: " +:+ msg) 0); writeJSON "error"%string
    | Replied status =>
        if decide (status = 200) then
          now ← time_now; _ ← tried (UpdatePeerStatus id "connected" "" now); writeJSON "connected"%string
        else _ ← tried (UpdatePeerStatus id "error" ("peer responded HTTP " +:+ FormatInt status) 0);
             writeJSON "error"%string
    end).

(** ** The routes of [Mount] *)

(** A request to the native API with its decoded arguments.  [id], [runID],
    [version], ... are the parameters chi matched. *)
Inductive NativeCall :=
  | NListProjects
  | NGetRunNote (runID : string)
  | NSetRunNote (user runID : string) (body : option string)
  | NIngestTraces (newTraceID : string) (newIDs : nat → string) (body : option ingestTracesReq)
  | NGetRunTraces (runID : string)
  | NGetRunData (runID : string) (q : Query)
  | NIngestOTLP (newIDs : nat → string) (body : option (list resourceSpans))
  | NListPrompts
  | NCreatePrompt (body : option createPromptReq)
  | NGetLatestPrompt (name : Segment)
  | NListPromptVersions (name : Segment)
  | NGetPromptVersion (name : Segment) (version : string)
  | NSetPromptAlias (name : Segment) (body : option setPromptAliasReq)
  | NGetPromptByAlias (name : Segment) (alias : string)
  | NCreateEval (body : option createEvalReq)
  | NGetEval (runID : string)
  | NGlobalSearch (q : Query)
  | NGetRunLineage (runID : string) (q : Query)
  | NCloneExperiment (id name : string)
  | NListWebhooks
  | NCreateWebhook (body : option createWebhookReq)
  | NUpdateWebhook (id : string) (body : option createWebhookReq)
  | NDeleteWebhook (id : string)
  | NTestWebhook (id : string)
  | NListEchoDeliveries (q : Query)
  | NGetDashboard (project : string)
  | NSaveDashboard (project : string) (body : option string)
  | NListDatasets
  | NListDatasetVersions (name : Segment)
  | NCreateDatasetVersion (user : string) (name : Segment) (form : option uploadForm)
  | NGetDatasetVersion (name : Segment) (version : string)
  | NDeleteDatasetVersion (name : Segment) (version : string)
  | NGetDatasetContent (name : Segment) (version : string)
  | NGetDatasetLineage (name : Segment) (version : string)
  | NListWorkspaces
  | NCreateWorkspace (body : option createWorkspaceReq)
  | NGetCurrentWorkspace (user : string)
  | NGetWorkspace (id : string)
  | NUpdateWorkspace (id : string) (body : option (option string * option string))
  | NDeleteWorkspace (id : string)
  | NListMembers (id : string)
  | NAddMember (id userID : string) (body : option string)
  | NRemoveMember (id userID : string)
  | NAddPeer (newSecret : string) (body : option addPeerReq)
  | NListPeers
  | NDeletePeer (id : string)
  | NEchoPeer (id : string).

(** The method and the literal pieces of the pattern a call is mounted at;
    between two pieces stands a parameter, and a pattern that ends in a
    parameter has an empty last piece. *)
Definition native_route (c : NativeCall) : string * list string :=
  match c with
  | NListProjects => ("GET", ["/api/v1/projects"])
  | NGetRunNote _ => ("GET", ["/api/v1/runs/"; "/note"])
  | NSetRunNote _ _ _ => ("PUT", ["/api/v1/runs/"; "/note"])
  | NIngestTraces _ _ _ => ("POST", ["/api/v1/traces"])
  | NGetRunTraces _ => ("GET", ["/api/v1/runs/"; "/traces"])
  | NGetRunData _ _ => ("GET", ["/api/v1/runs/"; "/data"])
  | NIngestOTLP _ _ => ("POST", ["/v1/traces"])
  | NListPrompts => ("GET", ["/api/v1/prompts"])
  | NCreatePrompt _ => ("POST", ["/api/v1/prompts"])
  | NGetLatestPrompt _ => ("GET", ["/api/v1/prompts/"; ""])
  | NListPromptVersions _ => ("GET", ["/api/v1/prompts/"; "/versions"])
  | NGetPromptVersion _ _ => ("GET", ["/api/v1/prompts/"; "/versions/"; ""])
  | NSetPromptAlias _ _ => ("POST", ["/api/v1/prompts/"; "/aliases"])
  | NGetPromptByAlias _ _ => ("GET", ["/api/v1/prompts/"; "/aliases/"; ""])
  | NCreateEval _ => ("POST", ["/api/v1/evals"])
  | NGetEval _ => ("GET", ["/api/v1/evals/"; ""])
  | NGlobalSearch _ => ("GET", ["/api/v1/search"])
  | NGetRunLineage _ _ => ("GET", ["/api/v1/runs/"; "/lineage"])
  | NCloneExperiment _ _ => ("POST", ["/api/v1/experiments/"; "/clone"])
  | NListWebhooks => ("GET", ["/api/v1/webhooks"])
  | NCreateWebhook _ => ("POST", ["/api/v1/webhooks"])
  | NUpdateWebhook _ _ => ("PATCH", ["/api/v1/webhooks/"; ""])
  | NDeleteWebhook _ => ("DELETE", ["/api/v1/webhooks/"; ""])
  | NTestWebhook _ => ("POST", ["/api/v1/webhooks/"; "/test"])
  | NListEchoDeliveries _ => ("GET", ["/api/v1/webhooks/echo"])
  | NGetDashboard _ => ("GET", ["/api/v1/dashboards/"; ""])
  | NSaveDashboard _ _ => ("PUT", ["/api/v1/dashboards/"; ""])
  | NListDatasets => ("GET", ["/api/v1/datasets"])
  | NListDatasetVersions _ => ("GET", ["/api/v1/datasets/"; ""])
  | NCreateDatasetVersion _ _ _ => ("POST", ["/api/v1/datasets/"; "/versions"])
  | NGetDatasetVersion _ _ => ("GET", ["/api/v1/datasets/"; "/versions/"; ""])
  | NDeleteDatasetVersion _ _ => ("DELETE", ["/api/v1/datasets/"; "/versions/"; ""])
  | NGetDatasetContent _ _ => ("GET", ["/api/v1/datasets/"; "/versions/"; "/content"])
  | NGetDatasetLineage _ _ => ("GET", ["/api/v1/datasets/"; "/versions/"; "/lineage"])
  | NListWorkspaces => ("GET", ["/api/v1/workspaces"])
  | NCreateWorkspace _ => ("POST", ["/api/v1/workspaces"])
  | NGetCurrentWorkspace _ => ("GET", ["/api/v1/workspaces/current"])
  | NGetWorkspace _ => ("GET", ["/api/v1/workspaces/"; ""])
  | NUpdateWorkspace _ _ => ("PATCH", ["/api/v1/workspaces/"; ""])
  | NDeleteWorkspace _ => ("DELETE", ["/api/v1/workspaces/"; ""])
  | NListMembers _ => ("GET", ["/api/v1/workspaces/"; "/members"])
  | NAddMember _ _ _ => ("PUT", ["/api/v1/workspaces/"; "/members/"; ""])
  | NRemoveMember _ _ => ("DELETE", ["/api/v1/workspaces/"; "/members/"; ""])
  | NAddPeer _ _ => ("POST", ["/api/v1/federate/peers"])
  | NListPeers => ("GET", ["/api/v1/federate/peers"])
  | NDeletePeer _ => ("DELETE", ["/api/v1/federate/peers/"; ""])
  | NEchoPeer _ => ("POST", ["/api/v1/federate/peers/"; "/echo"])
  end%string.

(** The [{id}] of the workspace routes that write. *)
Definition workspace_param (c : NativeCall) : option string :=
  match c with
  | NUpdateWorkspace id _ | NDeleteWorkspace id | NAddMember id _ _ | NRemoveMember id _ => Some id
  | _ => None
  end.

(** What a reply shows. *)
Inductive NShown :=
  | NNothing
  | NNames (l : list ProjectSummary)
  | NNote (runID : string) (n : runNoteResp)
  | NSpans (runID : string) (l : list spanDTO)
  | NBundle (b : runBundle)
  | NPrompts (l : list Prompt)
  | NEval (e : Eval)
  | NItems (r : globalSearchResp)
  | NLineage (l : RunLineage)
  | NExperiment (e : Experiment)
  | NWebhooks (l : list webhookDTO)
  | NEchoes (l : list EchoEntry)
  | NDashboard (d : Dashboard)
  | NDatasets (l : list DatasetVersion)
  | NContent (d : download)
  | NDatasetLineage (l : option DatasetLineage)
  | NWorkspaces (l : list Workspace)
  | NMembers (l : list WorkspaceMember)
  | NPeers (l : list peerDTO).

Definition nshown {A} (f : A → NShown) (m : M (Reply A)) : M (Reply NShown) :=
  r ← m; mret (mkReply (rp_Status r) (rp_Code r) (f <$> rp_Body r) (rp_Notify r)).

(** What the handlers get from outside the store. *)
Record Externals := mkExternals {
  x_sha256 : string → string;                             (* hex(sha256(content)) *)
  x_like : string → string → bool;                        (* SQLite's LIKE *)
  x_marshal_attrs : gmap string attrValue → option string; (* json.Marshal of a map *)
  x_outbound_url : string → bool;                         (* validateOutboundURL *)
  x_is_array : string → bool;                             (* json.Unmarshal into []any succeeds *)
  x_deliver : Webhook → Run → option Z;                   (* SyncDelivery.Deliver *)
  x_probe : Peer → EchoOutcome;                           (* federation.Client.Do *)
  x_cas : option (string → option string);                (* the content store *)
  x_federation : FederationEnv;                           (* peers, cache and transport *)
  x_echo : option EchoLog }.                              (* h.EchoLog *)

Section dispatch.
Context `{Clock} (X : Externals).

Definition native_handle (ws : string) (c : NativeCall) : M (Reply NShown) :=
  match c with
  | NListProjects => nshown NNames (Handler_ListProjects ws)
  | NGetRunNote r => nshown (NNote r) (Handler_GetRunNote ws r)
  | NSetRunNote u r b =>
      nshown (λ o, match o with Some n => NNote r n | None => NNothing end) (Handler_SetRunNote ws u r b)
  | NIngestTraces t ids b => nshown (λ _, NNothing) (Handler_IngestTraces t ids ws b)
  | NGetRunTraces r => nshown (NSpans r) (Handler_GetRunTraces ws r)
  | NGetRunData r q => nshown NBundle (Handler_GetRunData ws r q)
  | NIngestOTLP ids b => nshown (λ _, NNothing) (Handler_IngestOTLP (x_marshal_attrs X) ids ws b)
  | NListPrompts => nshown NPrompts (Handler_ListPrompts ws)
  | NCreatePrompt b => nshown (λ _, NNothing) (Handler_CreatePrompt (x_sha256 X) ws b)
  | NGetLatestPrompt n => nshown (λ p, NPrompts [p]) (Handler_GetLatestPrompt ws n)
  | NListPromptVersions n => nshown NPrompts (Handler_ListPromptVersions ws n)
  | NGetPromptVersion n v => nshown (λ p, NPrompts [p]) (Handler_GetPromptVersion ws n v)
  | NSetPromptAlias n b => nshown (λ _, NNothing) (Handler_SetPromptAlias ws n b)
  | NGetPromptByAlias n a => nshown (λ p, NPrompts [p]) (Handler_GetPromptByAlias ws n a)
  | NCreateEval b => nshown (λ _, NNothing) (Handler_CreateEval ws b)
  | NGetEval r => nshown NEval (Handler_GetEval ws r)
  | NGlobalSearch q => nshown NItems (Handler_GlobalSearch (x_like X) (x_federation X) ws q)
  | NGetRunLineage r q => nshown NLineage (Handler_GetRunLineage ws r q)
  | NCloneExperiment i n => nshown NExperiment (Handler_CloneExperiment ws i n)
  | NListWebhooks => nshown NWebhooks (Handler_ListWebhooks ws)
  | NCreateWebhook b => nshown (λ x, NWebhooks [x]) (Handler_CreateWebhook (x_outbound_url X) ws b)
  | NUpdateWebhook i b => nshown (λ x, NWebhooks [x]) (Handler_UpdateWebhook (x_outbound_url X) ws i b)
  | NDeleteWebhook i => nshown (λ _, NNothing) (Handler_DeleteWebhook ws i)
  | NTestWebhook i => nshown (λ _, NNothing) (Handler_TestWebhook (x_deliver X) ws i)
  | NListEchoDeliveries q => nshown NEchoes (Handler_ListEchoDeliveries (x_echo X) q)
  | NGetDashboard p => nshown NDashboard (Handler_GetDashboard ws p)
  | NSaveDashboard p b => nshown NDashboard (Handler_SaveDashboard (x_is_array X) ws p b)
  | NListDatasets => nshown NDatasets (Handler_ListDatasets ws)
  | NListDatasetVersions n => nshown NDatasets (Handler_ListDatasetVersions ws n)
  | NCreateDatasetVersion u n f =>
      nshown (λ _, NNothing) (Handler_CreateDatasetVersion (bool_decide (is_Some (x_cas X))) ws u n f)
  | NGetDatasetVersion n v => nshown (λ x, NDatasets [x]) (Handler_GetDatasetVersion ws n v)
  | NDeleteDatasetVersion n v => nshown (λ _, NNothing) (Handler_DeleteDatasetVersion ws n v)
  | NGetDatasetContent n v => nshown NContent (Handler_GetDatasetContent (x_cas X) ws n v)
  | NGetDatasetLineage n v => nshown NDatasetLineage (Handler_GetDatasetLineage ws n v)
  | NListWorkspaces => nshown NWorkspaces Handler_ListWorkspaces
  | NCreateWorkspace b => nshown (λ x, NWorkspaces [x]) (Handler_CreateWorkspace b)
  | NGetCurrentWorkspace u => nshown (λ x, NWorkspaces [x.1]) (Handler_GetCurrentWorkspace ws u)
  | NGetWorkspace i => nshown (λ x, NWorkspaces [x]) (Handler_GetWorkspace i)
  | NUpdateWorkspace i b => nshown (λ x, NWorkspaces [x]) (Handler_UpdateWorkspace i b)
  | NDeleteWorkspace i => nshown (λ _, NNothing) (Handler_DeleteWorkspace i)
  | NListMembers i => nshown NMembers (Handler_ListMembers i)
  | NAddMember i u b => nshown (λ _, NNothing) (Handler_AddMember i u b)
  | NRemoveMember i u => nshown (λ _, NNothing) (Handler_RemoveMember i u)
  | NAddPeer s b => nshown (λ _, NNothing) (Handler_AddPeer (x_outbound_url X) s ws b)
  | NListPeers => nshown NPeers (Handler_ListPeers ws)
  | NDeletePeer i => nshown (λ _, NNothing) (Handler_DeletePeer ws i)
  | NEchoPeer i => nshown (λ _, NNothing) (Handler_EchoPeer (x_probe X) ws i)
  end.
End dispatch.
