(* ===== verification/NativeLaws.v ===== *)
(** * The native API between workspaces

    Every call of the native API replies; what it shows belongs to the
    workspace it runs in, and what other workspaces own stays as it was,
    except for the workspace that a call of the workspace administration
    names. *)

From S2P Require Import Prelude GoStrings Model Database Keyset Runs Sample RunData Experiments Registry RegistryLaws.
From S2P Require Import Prompts Workspaces Integrations Datasets Inputs Lineage Search TimeTravel MlflowApi ApiLogic.
From S2P Require Import EchoLog Federation RegistryApi Isolation Ownership NativeApi.

Open Scope Z_scope.

(** ** Statements that do not touch what [v] owns *)

Section foreign.
Context (v : string).

(** Only the named table changes. *)
Ltac owned_frame := unfold owned; f_equal.

Lemma owned_insert_note d R n :
  run_owner d R ≠ Some v → owned v (set_run_notes (<[R := n]> (run_notes d)) d) = owned v d.
Proof. intros Ho. owned_frame. apply (map_filter_insert_not (λ p, run_owner d p.1 = Some v)). by intros y. Qed.

Lemma owned_delete_note d R :
  run_owner d R ≠ Some v → owned v (set_run_notes (delete R (run_notes d)) d) = owned v d.
Proof. intros Ho. owned_frame. apply (map_filter_delete_not (λ p, run_owner d p.1 = Some v)). by intros y. Qed.

Lemma owned_insert_eval d R e :
  run_owner d R ≠ Some v → owned v (set_evals (<[R := e]> (evals d)) d) = owned v d.
Proof. intros Ho. owned_frame. apply (map_filter_insert_not (λ p, run_owner d p.1 = Some v)). by intros y. Qed.

Lemma owned_insert_span d i r :
  span_owner d r ≠ Some v → (∀ old, traces d !! i = Some old → span_owner d old ≠ Some v) →
  owned v (set_traces (<[i := r]> (traces d)) d) = owned v d.
Proof. intros Ho Hold. owned_frame. by apply (map_filter_insert_not' (λ p, span_owner d p.2 = Some v)). Qed.

Lemma owned_insert_prompt d ws n ver r :
  ws ≠ v → owned v (set_prompts (<[(ws, n, ver) := r]> (prompts d)) d) = owned v d.
Proof. intros Ho. owned_frame. apply (map_filter_insert_not (λ p, p.1.1.1 = v)). by intros y. Qed.

Lemma owned_insert_prompt_alias d ws n a ver :
  ws ≠ v → owned v (set_prompt_aliases (<[(ws, n, a) := ver]> (prompt_aliases d)) d) = owned v d.
Proof. intros Ho. owned_frame. apply (map_filter_insert_not (λ p, p.1.1.1 = v)). by intros y. Qed.

(** A row of an AUTOINCREMENT table with a workspace column is added,
    replaced or deleted. *)
Lemma owned_put_webhook d i r n :
  default_ws (hr_workspace_id r) ≠ v →
  (∀ old, rows (webhooks d) !! i = Some old → default_ws (hr_workspace_id old) ≠ v) →
  owned v (set_webhooks (mkSerial (<[i := r]> (rows (webhooks d))) n) d) = owned v d.
Proof. intros Ho Hold. owned_frame. by apply (map_filter_insert_not' (λ p, default_ws (hr_workspace_id p.2) = v)). Qed.

Lemma owned_delete_webhook d i :
  (∀ old, rows (webhooks d) !! i = Some old → default_ws (hr_workspace_id old) ≠ v) →
  owned v (set_webhooks (serial_delete i (webhooks d)) d) = owned v d.
Proof. intros Hold. owned_frame. by apply (map_filter_delete_not (λ p, default_ws (hr_workspace_id p.2) = v)). Qed.

Lemma owned_put_dashboard d i r n :
  dr_workspace_id r ≠ v → (∀ old, rows (dashboards d) !! i = Some old → dr_workspace_id old ≠ v) →
  owned v (set_dashboards (mkSerial (<[i := r]> (rows (dashboards d))) n) d) = owned v d.
Proof. intros Ho Hold. owned_frame. by apply (map_filter_insert_not' (λ p, dr_workspace_id p.2 = v)). Qed.

Lemma owned_put_peer d i r n :
  pr_workspace_id r ≠ v → (∀ old, rows (peers d) !! i = Some old → pr_workspace_id old ≠ v) →
  owned v (set_peers (mkSerial (<[i := r]> (rows (peers d))) n) d) = owned v d.
Proof. intros Ho Hold. owned_frame. by apply (map_filter_insert_not' (λ p, pr_workspace_id p.2 = v)). Qed.

Lemma owned_delete_peer d i :
  (∀ old, rows (peers d) !! i = Some old → pr_workspace_id old ≠ v) →
  owned v (set_peers (serial_delete i (peers d)) d) = owned v d.
Proof. intros Hold. owned_frame. by apply (map_filter_delete_not (λ p, pr_workspace_id p.2 = v)). Qed.

(** A dataset row of another workspace does not change which lineage edges
    [v] owns. *)
Lemma owned_put_dataset d i r n :
  xr_workspace_id r ≠ v → (∀ old, rows (datasets_v2 d) !! i = Some old → xr_workspace_id old ≠ v) →
  owned v (set_datasets_v2 (mkSerial (<[i := r]> (rows (datasets_v2 d))) n) d) = owned v d.
Proof.
  intros Ho Hold. owned_frame.
  - apply filter_set_ext. intros [c p]. unfold dataset_owner. cbn. destruct (decide (c = i)) as [->|Hi].
    + rewrite lookup_insert_eq. cbn. split; [congruence|]. destruct (rows (datasets_v2 d) !! i) eqn:E; cbn; [|done].
      intros [= ?]. by destruct (Hold _ eq_refl).
    + by rewrite lookup_insert_ne.
  - unfold track_view. f_equal. by apply (map_filter_insert_not' (λ p, xr_workspace_id p.2 = v)).
Qed.

Lemma owned_insert_edge d c p :
  dataset_owner d c ≠ Some v → owned v (set_dataset_lineage ({[(c, p)]} ∪ dataset_lineage d) d) = owned v d.
Proof. intros Ho. owned_frame. apply set_eq. intros e. rewrite !elem_of_filter. set_solver. Qed.

Lemma owned_insert_workspace d id r :
  id ≠ v → owned v (set_workspaces (<[id := r]> (workspaces d)) d) = owned v d.
Proof. intros Ho. owned_frame. cbn. by rewrite lookup_insert_ne. Qed.
End foreign.

(** ** More rules for handlers *)

(** A read that cannot fail. *)
Definition yields {A} (d : DB) (m : M A) (Q : A → Prop) : Prop := ∀ w,
  w_db w = d → ∃ a w', m w = (Ok a, w') ∧ w_db w' = d ∧ Q a.

Lemma yields_ret {A} d (a : A) (Q : A → Prop) : Q a → yields d (mret a) Q.
Proof. intros HQ w Hw. by exists a, w. Qed.
Lemma yields_bind {A B} d (m : M A) (f : A → M B) Q R :
  yields d m Q → (∀ a, Q a → yields d (f a) R) → yields d (m ≫= f) R.
Proof.
  intros Hm Hf w Hw. destruct (Hm w Hw) as (a & w1 & E & Hw1 & Ha). rewrite (bind_Ok _ _ _ _ _ E). by apply (Hf a Ha).
Qed.
Lemma yields_now `{Clock} d : yields d time_now (λ _, True).
Proof. intros w Hw. eexists _, _. split; [done|]. by rewrite <- Hw. Qed.
Lemma yields_tried {A} d (m : M A) Q : reads d m Q → yields d (tried m) (λ r, ∀ a, r = Ok a → Q a).
Proof.
  intros Hm w Hw. specialize (Hm w Hw). unfold tried. destruct (m w) as [[a|e] w1]; eexists _, _; split_and!; try done;
    [by destruct Hm|]. intros a' [= <-]. by destruct Hm.
Qed.

Section rules.
Context {I : DB → Prop} {N : DB → Notification → Prop}.
#[local] Abbreviation answers := (answers I N).

Lemma answers_status {A} (P : DB → Prop) status (a : A) (Q : A → DB → Prop) :
  (∀ d, P d → I d ∧ Q a d) → answers P (write_status status a) Q.
Proof. intros HP w Hw. destruct (HP _ Hw). eexists _, w. split_and!; [done|done| |done]. by intros a' [= <-]. Qed.

Lemma answers_need {B} P b (m : M (Reply B)) Q : (∀ d, P d → I d) → answers P m Q → answers P (need b m) Q.
Proof. intros HP Hm. destruct b; [done|by apply answers_error]. Qed.

Lemma answers_yields {A B} P (m : M A) (k : A → M (Reply B)) Q' Q :
  (∀ d, P d → yields d m (λ a, Q' a d)) → (∀ a, answers (λ d, P d ∧ Q' a d) (k a) Q) → answers P (m ≫= k) Q.
Proof.
  intros Hm Hk w Hw. destruct (Hm _ Hw w eq_refl) as (a & w1 & E & Hd & Ha). rewrite (bind_Ok _ _ _ _ _ E).
  apply Hk. by rewrite Hd.
Qed.

(** The error is dropped. *)
Lemma answers_tried {A B} P (m : M A) (k : result A → M (Reply B)) Q :
  Preserves P m → (∀ r, answers P (k r) Q) → answers P (tried m ≫= k) Q.
Proof.
  intros Hm Hk w Hw. specialize (Hm w Hw). unfold tried, mbind, M_bind. destruct (m w) as [r w1]. by apply Hk.
Qed.

Lemma answers_weaken {A} (P P' : DB → Prop) (m : M (Reply A)) Q :
  answers P' m Q → (∀ d, P d → P' d) → answers P m Q.
Proof. intros Hm HP w Hw. by apply Hm, HP. Qed.

(** A handler that reads and replies. *)
Lemma answers_read {A B} (P : DB → Prop) (m : M A) (f : A → B) status Q :
  (∀ d, P d → I d) → (∀ d, P d → reads d m (λ a, Q (f a) d)) → answers P (let! a := m in write_status status (f a)) Q.
Proof.
  intros HP Hm. apply (answers_store _ (λ a d, P d ∧ Q (f a) d)).
  - apply triple_reads; [done|]. intros d Hd. eapply reads_conseq; [by apply Hm|done].
  - intros a. apply answers_status. intros d []. auto.
Qed.

Lemma answers_read_json `{Marshal A} (P : DB → Prop) (m : M A) Q :
  (∀ d, P d → I d) → (∀ d, P d → reads d m (λ a, Q a d)) → answers P (let! a := m in writeJSON a) Q.
Proof.
  intros HP Hm. apply (answers_store _ (λ a d, P d ∧ Q a d)).
  - apply triple_reads; [done|]. intros d Hd. eapply reads_conseq; [by apply Hm|done].
  - intros a. apply answers_write. intros d []. split_and!; [auto|done|done].
Qed.
End rules.

(** ** What a reply may show *)

Definition note_visible (ws : string) (d : DB) (R : string) (n : runNoteResp) : Prop :=
  run_owner d R = Some ws ∧ ∃ row, run_notes d !! R = Some row ∧ nr_content row = rnr_Content n.
Definition span_of (d : DB) (R : string) (s : spanDTO) : Prop :=
  ∃ row, traces d !! sd_ID s = Some row ∧ tr_run_id row = Some R.
Definition prompt_of (ws : string) (d : DB) (p : Prompt) : Prop :=
  ∃ row, prompts d !! (ws, prompt_Name p, prompt_Version p) = Some row ∧ qr_content row = prompt_Content p.
Definition dataset_of (ws : string) (d : DB) (x : DatasetVersion) : Prop :=
  ∃ row, rows (datasets_v2 d) !! ds_ID x = Some row ∧ xr_workspace_id row = ws.

(** A search result names a run, an experiment or a prompt of [ws]. *)
Definition item_visible (ws : string) (d : DB) (i : searchResultItem) : Prop :=
  (si_Kind i = "run"%string ∧ run_owner d (si_ID i) = Some ws) ∨
  (si_Kind i = "experiment"%string ∧ ∃ id, si_ID i = FormatInt id ∧ exp_owner d id = Some ws) ∨
  (si_Kind i = "prompt"%string ∧ ∃ ver, is_Some (prompts d !! (ws, si_ID i, ver))).

(** An item that a connected peer of [ws] reported. *)
Definition remote_item (X : Externals) (ws : string) (d : DB) (i : searchResultItem) : Prop :=
  ∃ id row key body inst results r, rows (peers d) !! id = Some row ∧ pr_workspace_id row = ws ∧ pr_status row = "connected"%string ∧
    (ask_peer (fe_hmac (x_federation X)) (fe_cached (x_federation X) key) (fe_transport (x_federation X)) (fe_decode (x_federation X))
       (federationOurName (fe_name (x_federation X))) (fe_ts (x_federation X)) body (scanPeer id row)).1 = Some (inst, results) ∧
    r ∈ results ∧ i = with_instance inst r.

(** At most ten items of the workspace, and behind them, only when the search
    was federated, items its connected peers reported. *)
Definition search_visible (X : Externals) (ws : string) (d : DB) (r : globalSearchResp) : Prop :=
  ∃ locals remotes, gs_Items r = locals ++ remotes ∧ Forall (item_visible ws d) locals ∧ (length locals ≤ 10)%nat ∧
    (length (gs_Items r) ≤ 50)%nat ∧ (gs_Federated r = false → remotes = []) ∧
    ((∀ l, fe_arrival (x_federation X) l ≡ₚ l) → Forall (remote_item X ws d) remotes).

(** The directory of workspaces and members and the echo log, which is one for
    the process, are not confined; the lineage of a dataset is as far as the
    edges are ([dataset_wf]). *)
Definition native_visible (X : Externals) (ws : string) (d : DB) (s : NShown) : Prop :=
  match s with
  | NNothing | NWorkspaces _ | NMembers _ => True
  | NNames l => Forall (λ p, proj_Name p ∈ project_column d ws) l
  | NNote R n => note_visible ws d R n
  | NSpans R l => run_owner d R = Some ws ∧ Forall (span_of d R) l
  | NBundle b =>
      let R := run_ID (rb_Run b) in
      run_owner d R = Some ws ∧ Forall (metric_of d R) (rb_Metrics b) ∧ Forall (param_of d R) (rb_Params b) ∧
      Forall (span_of d R) (rb_Spans b)
  | NPrompts l => Forall (prompt_of ws d) l
  | NEval e => run_owner d (eval_RunID e) = Some ws ∧ is_Some (evals d !! eval_RunID e)
  | NItems r => search_visible X ws d r
  | NEchoes l => (length l ≤ 500)%nat ∧ Forall (λ e, ∃ log, x_echo X = Some log ∧ e ∈ el_entries log) l
  | NLineage l => Forall (λ r, run_owner d (run_ID r) = Some ws) (rl_Run l :: rl_Ancestors l ++ rl_Descendants l)
  | NExperiment e => exp_owner d (exp_ID e) = Some ws
  | NWebhooks l => Forall (λ x, ∃ row, rows (webhooks d) !! wd_ID x = Some row ∧ default_ws (hr_workspace_id row) = ws) l
  | NDashboard x => dash_WorkspaceID x = ws
  | NDatasets l => Forall (dataset_of ws d) l
  | NContent c => ∃ id row, rows (datasets_v2 d) !! id = Some row ∧ xr_workspace_id row = ws ∧
                            xr_content_hash row = dl_Hash c
  | NDatasetLineage o => ∀ l, o = Some l → dataset_wf d →
      Forall (dataset_of ws d) (lin_Self l :: lin_Ancestors l ++ lin_Descendants l)
  | NPeers l => Forall (λ p, ∃ row, rows (peers d) !! pd_ID p = Some row ∧ pr_workspace_id row = ws) l
  end.

(** ** The writes of the native API *)

Section writes.
Context `{Clock} (ws v : string) (V0 : Owned).
Hypothesis Hne : ws ≠ v.
Hypothesis Hws : ws ≠ EmptyString.
Context (X : Externals).

(** [v] owns what it owned at the start. *)
Definition kept (d : DB) : Prop := api_wf d ∧ owned v d = V0.
Definition kept_run (R : string) (d : DB) : Prop := kept d ∧ run_owner d R = Some ws.

Lemma kept_update d d' : kept d → (api_wf d → api_wf d') → owned v d' = owned v d → kept d'.
Proof. intros [Hw Ho] Hw' Ho'. split; [auto|by rewrite Ho']. Qed.

(** The tables of [api_wf] are as before, or have a row more or less. *)
Ltac api_frame :=
  intros [[] [] [] []]; split; split; cbn;
  first [assumption|apply serial_wf_insert; assumption|apply serial_wf_delete; assumption|idtac].

Lemma ws_default : default_ws ws = ws.
Proof. unfold default_ws. by rewrite decide_False. Qed.

Lemma foreign_owner R d : run_owner d R = Some ws → run_owner d R ≠ Some v.
Proof. congruence. Qed.

(** *** Runs *)

#[local] Instance assertRunExists_any P R : Preserves P (assertRunExists R).
Proof. intros w Hw. unfold assertRunExists. rewrite get_bind. by case_decide. Qed.

#[local] Instance SetRunNote_kept R c u : Preserves (kept_run R) (SetRunNote R c u).
Proof.
  unfold SetRunNote. apply bind_pres; [apply _|]. intros _. case_decide.
  - apply modify_pres. intros d [Hk Ho]. split; [|done].
    apply (kept_update d); [done|api_frame|by apply owned_delete_note, foreign_owner].
  - apply bind_pres; [apply _|]. intros now. apply modify_pres. intros d [Hk Ho]. split; [|done].
    apply (kept_update d); [done|api_frame|by apply owned_insert_note, foreign_owner].
Qed.

#[local] Instance CreateEval_kept e : Preserves (kept_run (eval_RunID e)) (CreateEval e).
Proof.
  unfold CreateEval. apply bind_pres; [apply _|]. intros _. apply modify_pres. intros d [Hk Ho]. split; [|done].
  apply (kept_update d); [done|api_frame|by apply owned_insert_eval, foreign_owner].
Qed.

(** The runs the spans are attached to are runs of [ws]. *)
Definition span_ok (d : DB) (sp : Span) : Prop := span_RunID sp = EmptyString ∨ run_owner d (span_RunID sp) = Some ws.

Lemma span_row_owner d trace sp : span_ok d sp → span_owner d (span_row trace sp) ≠ Some v.
Proof.
  unfold span_owner. cbn. unfold nilIfEmpty. intros [->|Ho]; [done|]. case_decide; [done|]. cbn. congruence.
Qed.

Lemma insert_span_kept newID sp l :
  sp ∈ l → Preserves (λ d, kept d ∧ Forall (span_ok d) l) (insert_span newID sp).
Proof.
  intros Hin. apply get_bind_pres. intros w [Hk Hl]. destruct (span_ids newID sp) as [id trace]. cbv zeta.
  assert (span_ok (w_db w) sp) as Hsp by (rewrite Forall_forall in Hl; auto).
  pose proof (span_row_owner _ trace sp Hsp) as Hnew.
  destruct (traces (w_db w) !! id) as [old|] eqn:Hold.
  - destruct (decide (_ ∧ _)) as [[_ Hrun]|]; [|done]. destruct (run_ref_ok _ _); [|done]. split; [|done].
    assert (span_owner (w_db w) old ≠ Some v) as Ho.
    { unfold span_owner in *. destruct Hrun as [->| ->]; done. }
    apply (kept_update (w_db w)); [done|api_frame|]. apply owned_insert_span.
    + unfold span_owner in *. cbn [span_update tr_run_id]. by destruct (tr_run_id old).
    + intros old' E. by simplify_eq.
  - destruct (_ && _); [|done]. split; [|done].
    apply (kept_update (w_db w)); [done|api_frame|]. by apply owned_insert_span; [|rewrite Hold].
Qed.

Lemma InsertSpans_kept ids l :
  Preserves (λ d, kept d ∧ Forall (span_ok d) l) (InsertSpans (imap (λ i sp, (ids i, sp)) l)).
Proof.
  unfold InsertSpans. case_decide; [apply _|]. apply transaction_pres, for_each_pres.
  intros [newID sp] Hin. apply insert_span_kept.
  apply list_elem_of_lookup_1 in Hin as [i Hi]. rewrite list_lookup_imap in Hi.
  destruct (l !! i) as [sp'|] eqn:E; [|done]. cbn in Hi. simplify_eq. by apply list_elem_of_lookup_2 in E.
Qed.

(** *** Prompts *)

#[local] Instance CreatePrompt_kept sha p : Preserves kept (CreatePrompt sha ws p).
Proof.
  unfold CreatePrompt, create_prompt_tx. rewrite ws_default. cbv zeta.
  assert (∀ n ver r, Preserves kept (insert_prompt ws n ver r)) as Hins.
  { intros n ver r. apply get_bind_pres. intros w Hk. case_decide; [done|]. case_decide; [|done].
    apply (kept_update (w_db w)); [done|api_frame|by apply owned_insert_prompt]. }
  pres_auto. apply retry_pres. pres_auto.
Qed.

#[local] Instance SetPromptAlias_kept n a ver : Preserves kept (SetPromptAlias ws n a ver).
Proof.
  unfold SetPromptAlias, GetPromptVersion. rewrite ws_default. cbv zeta. apply bind_pres; [apply _|]. intros _.
  apply modify_pres. intros d Hk. apply (kept_update d); [done|api_frame|by apply owned_insert_prompt_alias].
Qed.

(** *** Webhooks *)

Definition hook_of (d : DB) (id : Z) : Prop :=
  ∃ row, rows (webhooks d) !! id = Some row ∧ default_ws (hr_workspace_id row) = ws.
Definition kept_hook (id : Z) (d : DB) : Prop := kept d ∧ hook_of d id.

Lemma hook_foreign d id old : hook_of d id → rows (webhooks d) !! id = Some old → default_ws (hr_workspace_id old) ≠ v.
Proof. intros (row & Hr & Hw) E. simplify_eq. congruence. Qed.

Lemma put_hook_kept d id row :
  kept_hook id d → default_ws (hr_workspace_id row) = ws → kept_hook id (set_webhooks (serial_set id row (webhooks d)) d).
Proof.
  intros [Hk Hh] Hrow. split.
  - apply (kept_update d); [done| |].
    + api_frame. apply serial_wf_set; [assumption|]. destruct Hh as (r & -> & _). by eexists.
    + apply owned_put_webhook; [congruence|]. intros old. by apply hook_foreign.
  - exists row. split; [|done]. cbn. apply lookup_insert_eq.
Qed.

Lemma UpdateWebhook_kept x : default_ws (wh_WorkspaceID x) = ws → Preserves (kept_hook (wh_ID x)) (UpdateWebhook x).
Proof.
  intros Hx. apply get_bind_pres. intros w Hk. destruct (rows _ !! _) as [r|]; [|done]. by apply put_hook_kept.
Qed.

#[local] Instance RecordWebhookAttempt_kept id st t : Preserves (kept_hook id) (RecordWebhookAttempt id st t).
Proof.
  apply get_bind_pres. intros w Hk. destruct (rows _ !! id) as [r|] eqn:Hr; [|done]. apply put_hook_kept; [done|].
  destruct Hk as [_ (row & Hr' & Hw)]. by simplify_eq.
Qed.

#[local] Abbreviation triple := (triple kept).

Lemma CreateWebhook_triple x : default_ws (wh_WorkspaceID x) = ws → triple kept (CreateWebhook x) kept_hook.
Proof.
  intros Hx. unfold CreateWebhook. eapply triple_bind; [apply triple_pres; [done|]; case_decide; apply _|]. intros t w Hk.
  rewrite get_bind. cbv zeta. rewrite modify_bind. cbn [fst snd]. split.
  - apply (kept_update (w_db w)); [done|api_frame|]. apply owned_put_webhook; cbn; [by rewrite default_ws_idemp, Hx|].
    destruct Hk as [[_ _ [] _] _]. intros old. by rewrite serial_fresh.
  - eexists. split; [apply lookup_insert_eq|]. cbn. by rewrite default_ws_idemp.
Qed.

Lemma DeleteWebhook_triple id : triple (kept_hook id) (DeleteWebhook id) (λ _, kept).
Proof.
  intros w [Hk Hh]. unfold DeleteWebhook. rewrite get_bind. case_decide; [|done]. cbn.
  apply (kept_update (w_db w)); [done|api_frame|]. apply owned_delete_webhook. intros old. by apply hook_foreign.
Qed.

(** *** Dashboards *)

Lemma dashboards_at_ws d p id old :
  head (dashboards_at d ws p) = Some (id, old) → rows (dashboards d) !! id = Some old ∧ dr_workspace_id old = ws.
Proof.
  intros Hh. assert ((id, old) ∈ dashboards_at d ws p) as Hin.
  { destruct (dashboards_at d ws p); [done|]. injection Hh as ->. left. }
  apply elem_of_found in Hin as [? [? _]]. done.
Qed.

#[local] Instance SaveDashboard_kept p x : Preserves kept (SaveDashboard ws p x).
Proof.
  unfold SaveDashboard, GetDashboard. rewrite ws_default. cbv zeta. apply bind_pres; [apply _|]. intros now.
  apply bind_pres; [|intros ?; apply _]. apply modify_pres. intros d Hk. unfold upsert_dashboard. cbn [dr_workspace_id dr_project].
  destruct (head _) as [[id old]|] eqn:Hh.
  - apply dashboards_at_ws in Hh as [Hr Hw]. apply (kept_update d); [done| |].
    + api_frame. apply serial_wf_set; [assumption|by eexists].
    + apply owned_put_dashboard; cbn; [congruence|]. intros old' E. by simplify_eq.
  - apply (kept_update d); [done|api_frame|]. apply owned_put_dashboard; [done|].
    destruct Hk as [[_ _ [] _] _]. intros old. by rewrite serial_fresh.
Qed.

(** *** Peers *)

#[local] Instance CreatePeer_kept p : peer_WorkspaceID p = ws → Preserves kept (CreatePeer p).
Proof.
  intros Hp. unfold CreatePeer. do 3 (case_decide; [apply _|]). apply bind_pres; [case_decide; apply _|]. intros t.
  apply map_err_pres, get_bind_pres. intros w Hk. case_decide; [done|]. case_decide; [done|].
  cbn [serial_insert fst snd]. rewrite modify_bind. cbn. rewrite Hp, ws_default.
  apply (kept_update (w_db w)); [done|api_frame|]. apply owned_put_peer; [done|].
  destruct Hk as [[_ _ [] _] _]. intros old. by rewrite serial_fresh.
Qed.

#[local] Instance DeletePeer_kept id : Preserves kept (DeletePeer ws id).
Proof.
  apply get_bind_pres. intros w Hk. destruct (rows _ !! id) as [r|] eqn:Hr; [|done]. case_decide as Hw; [|done].
  apply (kept_update (w_db w)); [done|api_frame|]. apply owned_delete_peer. intros old E. rewrite ws_default in Hw. by simplify_eq.
Qed.

Definition peer_of (d : DB) (id : Z) : Prop := ∃ row, rows (peers d) !! id = Some row ∧ pr_workspace_id row = ws.

#[local] Instance UpdatePeerStatus_kept id st e t :
  Preserves (λ d, kept d ∧ peer_of d id) (UpdatePeerStatus id st e t).
Proof.
  unfold UpdatePeerStatus. case_decide; [apply _|]. apply get_bind_pres. intros w [Hk (row & Hr & Hw)].
  rewrite Hr. cbn. split.
  - apply (kept_update (w_db w)); [done| |].
    + api_frame. apply serial_wf_set; [assumption|by eexists].
    + apply owned_put_peer; cbn; [congruence|]. intros old E. by simplify_eq.
  - eexists. split; [apply lookup_insert_eq|done].
Qed.

(** *** Datasets *)

Lemma insert_dataset_triple r :
  xr_workspace_id r = ws → triple kept (insert_dataset r) (λ id d, kept d ∧ dataset_owner d id = Some ws).
Proof.
  intros Hr w Hk. unfold insert_dataset. rewrite get_bind. destruct (negb _); [done|].
  destruct (decide (xr_version r ∈ _)); [done|].
  cbn [serial_insert]. rewrite modify_bind. cbn. split.
  - apply (kept_update (w_db w)); [done| |].
    + intros [[] [] [] []]. split; split; cbn; try done. by apply (serial_wf_insert r (datasets_v2 (w_db w))).
    + apply owned_put_dataset; [congruence|]. destruct Hk as [[[] _ _ _] _]. intros old. by rewrite serial_fresh.
  - unfold dataset_owner. cbn. rewrite lookup_insert_eq. cbn. by rewrite Hr.
Qed.

#[local] Instance CreateDatasetVersion_kept x ps :
  ds_WorkspaceID x = ws → Preserves kept (CreateDatasetVersion x ps).
Proof.
  intros Hx. unfold CreateDatasetVersion. do 3 (apply bind_pres; [apply _|intros _]).
  apply bind_pres; [case_decide; apply _|]. intros t. apply retry_pres. unfold createDatasetVersionOnce.
  cbn [ds_WorkspaceID]. rewrite Hx, ws_default.
  set (x' := mkDatasetVersion _ _ _ _ _ _ _ _ _ _ _ _). intros w Hk. unfold transaction.
  assert (triple kept (_ ← for_each (check_parent ws) ps; d ← get;
    let v := sql_next (xr_version <$> (dataset_versions d ws (ds_Name x')).*2) in
    id ← insert_dataset (dataset_row x' v);
    _ ← lift (guard_err (bool_decide (id ∈ ps)) ErrOther);
    _ ← for_each (insert_edge id) ps;
    mret (mkDatasetVersion id (ds_Name x') v (ds_ContentHash x') (ds_SizeBytes x') (ds_SchemaJSON x')
            (ds_Description x') ws (ds_CreatedAt x') (ds_CreatedBy x') (ds_LifecycleStage x') ps)) (λ _, kept)) as Ht.
  { eapply triple_bind; [apply triple_pres; [done|]; apply for_each_pres; intros p _; unfold check_parent; pres_auto|].
    intros ?. eapply triple_bind; [apply triple_pres; [done|apply _]|]. intros d. cbv zeta.
    eapply triple_bind; [by apply insert_dataset_triple|]. intros id.
    assert (∀ d, kept d ∧ dataset_owner d id = Some ws → kept d) as Hweak by naive_solver.
    eapply triple_bind; [apply triple_pres; [exact Hweak|apply _]|]. intros ?.
    eapply triple_bind; [apply triple_pres; [exact Hweak|]|intros ?; by apply triple_ret].
    apply for_each_pres. intros p _. apply modify_pres. intros d' [Hk' Ho]. split; [|done].
    apply (kept_update d'); [done|api_frame|]. apply owned_insert_edge. congruence. }
  specialize (Ht w Hk). cbv zeta in Ht. match goal with |- context [match ?m w with _ => _ end] => destruct (m w) as [[?|?] ?] end; done.
Qed.

#[local] Instance SoftDelete_kept n ver : Preserves kept (SoftDeleteDatasetVersion ws n ver).
Proof.
  apply get_bind_pres. intros w Hk. rewrite ws_default. destruct (dataset_at _ _ _ _) as [[id r]|] eqn:Hd; [|done].
  assert ((id, r) ∈ dataset_versions (w_db w) ws n) as Hin.
  { unfold dataset_at in Hd. apply head_Some_elem_of, list_elem_of_filter in Hd as [_ Hd]. done. }
  apply elem_of_dataset_versions in Hin as (Hr & Hw & _).
  apply (kept_update (w_db w)); [done| |].
  - api_frame. by apply (serial_wf_set id _ (datasets_v2 (w_db w))); [|eexists].
  - apply owned_put_dataset; cbn; [congruence|]. intros old E. by simplify_eq.
Qed.

(** *** Workspaces: the one that is administered is not [v] *)

#[local] Instance GetWorkspace_any P id : Preserves P (GetWorkspace id).
Proof. unfold GetWorkspace. apply _. Qed.

Lemma put_workspace_kept id r d :
  id ≠ v → validateWorkspaceID id = Ok tt → kept d → kept (set_workspaces (<[id := r]> (workspaces d)) d).
Proof.
  intros Hid Hval Hk. apply (kept_update d); [done| |by apply owned_insert_workspace].
  intros [[] [] [] Hn]. split; [by split| |by split|by apply wf_insert_workspace]. split; cbn; try done.
  intros u n Hm. destruct (wf_model u n Hm) as [Hu ?]. split; [|done]. rewrite lookup_insert_is_Some'. by right.
Qed.

Lemma CreateWorkspace_kept x : ws_ID x ≠ v → Preserves kept (CreateWorkspace x).
Proof.
  intros Hid. unfold CreateWorkspace. destruct (validateWorkspaceID (ws_ID x)) as [[]|] eqn:Hval; [|apply _].
  apply bind_pres; [apply _|intros ?]. apply bind_pres; [apply _|intros ?]. apply bind_pres; [apply _|]. intros now.
  apply get_bind_pres. intros w Hk. destruct (decide (is_Some _)); [done|]. by apply put_workspace_kept.
Qed.

Lemma UpdateWorkspace_kept id n s : id ≠ v → Preserves kept (UpdateWorkspace id n s).
Proof.
  intros Hid. unfold UpdateWorkspace. apply bind_pres; [apply _|intros ?]. case_decide; [apply _|].
  apply bind_pres; [apply _|]. intros now. apply get_bind_pres. intros w Hk.
  destruct (workspaces _ !! id) eqn:Hr; [|done]. apply put_workspace_kept; [done| |done].
  destruct Hk as [[_ _ _ []] _]. apply wf_slug. by eexists.
Qed.

Lemma DeleteWorkspace_kept id : id ≠ v → Preserves kept (DeleteWorkspace id).
Proof.
  intros Hid w Hk. destruct Hk as [Hwf Hv].
  pose proof (DeleteWorkspace_wf id w (aw_tenant _ Hwf)) as Hn. revert Hn.
  unfold DeleteWorkspace. case_decide; [done|]. unfold transaction. rewrite get_bind. case_decide; [done|].
  destruct (owns_rows (w_db w) id) eqn:Ho; [done|]. rewrite modify_bind, cascade_workspace_eq by done. cbn. intros Hn.
  apply (kept_update (w_db w)); [done| |].
  - apply owns_rows_false in Ho as (_ & Hm & _). intros [[] [] [] _]. split; [by split| |split; try done; by apply serial_wf_filter|done].
    split; cbn; try done. intros u n Hmod. destruct (wf_model u n Hmod) as [Hu ?]. split; [|done]. rewrite lookup_delete_ne; [done|].
    intros ->. destruct Hmod as [r Hr]. by apply (Hm (u, n) r).
  - unfold owned. f_equal; cbn.
    + by rewrite lookup_delete_ne.
    + rewrite map_filter_filter. apply filter_owner_ext. intros [k x]. cbn. split; [by intros [? _]|]. intros E. split; congruence.
    + rewrite map_filter_filter. apply filter_owner_ext. intros [k x]. cbn. split; [by intros [? _]|]. intros E. split; congruence.
Qed.

Lemma members_kept d m :
  kept d → tenant_wf (set_members m d) → filter (λ p, p.1.1 = v) m = filter (λ p, p.1.1 = v) (members d) →
  kept (set_members m d).
Proof.
  intros Hk Hn Hm. apply (kept_update d); [done| |unfold owned; by f_equal]. intros [[] [] [] _]. split; [by split..|done].
Qed.

Lemma AddMember_kept id u r : id ≠ v → Preserves kept (AddMember id u r).
Proof.
  intros Hid w Hk. pose proof (AddMember_wf id u r w (aw_tenant _ (proj1 Hk))) as Hn. revert Hn. unfold AddMember.
  destruct (guard_err _ _) as [[]|]; [rewrite lift_Ok_bind|done]. unfold GetWorkspace. rewrite bind_bind, get_bind.
  destruct (workspaces _ !! id); [|done]. cbn. intros Hn. apply members_kept; [done|done|].
  apply (map_filter_insert_not (λ p, p.1.1 = v)). by intros y.
Qed.

Lemma RemoveMember_kept id u : id ≠ v → Preserves kept (RemoveMember id u).
Proof.
  intros Hid w Hk. pose proof (RemoveMember_wf id u w (aw_tenant _ (proj1 Hk))) as Hn. revert Hn. unfold RemoveMember.
  rewrite get_bind. case_decide; [|done]. intros Hn. apply members_kept; [done|done|].
  apply (map_filter_delete_not (λ p, p.1.1 = v)). by intros y.
Qed.

(** *** What the tracking API guarantees carries over *)

Lemma triple_tracking {A} (m : M A) (Q : A → DB → Prop) :
  (∀ T, ApiLogic.triple (untouched v T) (untouched v T) m (λ a d, untouched v T d ∧ Q a d)) →
  triple kept m (λ a d, kept d ∧ Q a d).
Proof.
  intros Hm w [Hw Ho]. specialize (Hm (tenant_view v (w_db w)) w).
  assert (∀ d, untouched v (tenant_view v (w_db w)) d → kept d) as Hk.
  { intros d [Hs Hv]. split; [by apply (api_wf_tracking v (w_db w))|]. by rewrite (owned_tracking v (w_db w)). }
  assert (untouched v (tenant_view v (w_db w)) (w_db w)) as Hu by (destruct Hw; by split).
  specialize (Hm Hu). destruct (m w) as [[a|e] w1]; [destruct Hm; auto|auto].
Qed.

Lemma GetExperiment_reads d id : reads d (GetExperiment id) (λ e, exp_ID e = id ∧ exp_owner d id = Some (default_ws (exp_WorkspaceID e))).
Proof.
  apply reads_get, reads_lift. intros e. unfold scanExperiment, exp_owner. destruct (rows _ !! id); [|done]. cbn.
  by intros [= <-].
Qed.

Lemma CloneExperiment_triple src n :
  triple kept (CloneExperiment src n ws) (λ e d, kept d ∧ exp_owner d (exp_ID e) = Some ws).
Proof.
  apply triple_tracking. intros T. unfold CloneExperiment.
  eapply triple_bind; [apply triple_pres; [done|unfold GetExperiment; apply _]|]. intros e. cbv zeta.
  assert (∀ x, default_to ws x = ws) as -> by (intros x; unfold default_to; by rewrite decide_False).
  destruct (decide (exp_WorkspaceID e ≠ ws)); [by intros w Hw|].
  eapply triple_bind; [by apply (CreateExperiment_triple ws v T Hne), ws_default|]. intros id.
  apply triple_reads; [by intros d []|]. intros d [Hu Ho]. eapply reads_conseq; [apply GetExperiment_reads|].
  intros e' [-> _]. done.
Qed.

(** *** Reads *)

Lemma ensureRun_reads d R : reads d (ensureRunInWorkspace ws R) (λ _, run_owner d R = Some ws).
Proof.
  unfold ensureRunInWorkspace, GetRunInWorkspace. rewrite ws_default.
  apply (reads_bind d _ _ _ _ (getRunInWorkspace_reads ws Hws d R)). intros run [Ho _]. by apply reads_ret.
Qed.

Lemma ensureSpanRuns_reads d seen spans :
  (∀ R, R ∈ seen → run_owner d R = Some ws) →
  reads d (ensureSpanRunsInWorkspace ws seen spans) (λ _, Forall (span_ok d) spans).
Proof.
  revert seen. induction spans as [|sp spans IH]; intros seen Hseen; cbn; [by apply reads_ret|].
  case_decide as Hd.
  - eapply reads_conseq; [by apply IH|]. intros ? Hl. constructor; [|done].
    unfold span_ok. destruct Hd; auto.
  - apply (reads_bind d _ _ _ _ (ensureRun_reads d (span_RunID sp))). intros ? Ho.
    eapply reads_conseq; [apply IH|].
    + intros R [->%elem_of_singleton|HR]%elem_of_union; auto.
    + intros ? Hl. constructor; [by right|done].
Qed.

Lemma spans_read d R : reads d (GetSpansByRun R) (λ l, Forall (span_of d R) (spansSlice l)).
Proof.
  apply reads_get, reads_ret. unfold spansSlice. apply Forall_fmap, Forall_forall. intros sp Hsp%elem_of_sort_by.
  apply list_elem_of_fmap in Hsp as ([id r] & -> & Hin). apply list_elem_of_filter in Hin as [Hr Hin%elem_of_map_to_list].
  exists r. split; [done|]. by apply bool_decide_spec in Hr.
Qed.

Lemma scanPrompt_of d n ver r : prompts d !! (ws, n, ver) = Some r → prompt_of ws d (scanPrompt ws n ver r).
Proof. intros Hr. by exists r. Qed.

Lemma GetPromptVersion_reads d n ver : reads d (GetPromptVersion ws n ver) (prompt_of ws d).
Proof.
  unfold GetPromptVersion. rewrite ws_default. apply reads_get, reads_lift. intros p.
  destruct (prompts d !! _) as [r|] eqn:Hr; [|done]. cbn. intros [= <-]. by apply scanPrompt_of.
Qed.

Lemma versions_of d n p : p ∈ sort_by (λ p, Desc p.1) (prompt_versions d ws n) → prompt_of ws d (scanPrompt ws n p.1 p.2).
Proof. destruct p as [ver r]. intros Hp%elem_of_sort_by%elem_of_prompt_versions. by apply scanPrompt_of. Qed.

Lemma GetLatestPrompt_reads d n : reads d (GetLatestPrompt ws n) (λ p, prompt_of ws d p ∧ prompt_Name p = n).
Proof.
  unfold GetLatestPrompt. rewrite ws_default. apply reads_get, reads_lift. intros p.
  destruct (head _) as [q|] eqn:Hh; [|done]. cbn. intros [= <-]. split; [|done]. by apply versions_of, head_Some_elem_of.
Qed.

Lemma ListPromptVersions_reads d n : reads d (ListPromptVersions ws n) (Forall (prompt_of ws d)).
Proof.
  unfold ListPromptVersions. rewrite ws_default. apply reads_get, reads_ret, Forall_fmap, Forall_forall. intros p. apply versions_of.
Qed.

Lemma ListPrompts_reads d : reads d (ListPrompts ws) (Forall (prompt_of ws d)).
Proof.
  unfold ListPrompts. rewrite ws_default. apply reads_get, reads_ret, Forall_forall. intros p Hp%elem_of_sort_by.
  apply list_elem_of_omap in Hp as ([[[u n] ver] r] & Hin%elem_of_map_to_list & E). case_decide as Hd; [|done].
  destruct Hd as [-> _]. injection E as <-. by apply scanPrompt_of.
Qed.

Lemma GetPromptByAlias_reads d n a : reads d (GetPromptByAlias ws n a) (prompt_of ws d).
Proof.
  unfold GetPromptByAlias. rewrite ws_default. apply reads_get.
  destruct (prompt_aliases d !! _); [apply GetPromptVersion_reads|apply reads_fail].
Qed.

Lemma dataset_versions_of d n p : p ∈ dataset_versions d ws n → dataset_of ws d (scanDatasetVersion p.1 p.2).
Proof. destruct p as [i r]. intros (Hr & Hw & _)%elem_of_dataset_versions. by exists r. Qed.

Lemma GetDatasetVersion_reads d n ver :
  reads d (GetDatasetVersion ws n ver) (λ x, dataset_of ws d x ∧
    ∃ row, rows (datasets_v2 d) !! ds_ID x = Some row ∧ xr_workspace_id row = ws ∧ xr_content_hash row = ds_ContentHash x).
Proof.
  unfold GetDatasetVersion. rewrite ws_default. apply reads_get, reads_lift. intros x.
  destruct (dataset_at _ _ _ _) as [[i r]|] eqn:Hd; [|done]. cbn. intros [= <-].
  unfold dataset_at in Hd. apply head_Some_elem_of, list_elem_of_filter in Hd as [_ Hd].
  apply elem_of_dataset_versions in Hd as (Hr & Hw & _). split; by exists r.
Qed.

Lemma ListDatasetVersions_reads d n : reads d (ListDatasetVersions ws n) (Forall (dataset_of ws d)).
Proof.
  unfold ListDatasetVersions. rewrite ws_default. apply reads_get, reads_ret, Forall_fmap, Forall_forall.
  intros p Hp%elem_of_sort_by. by eapply dataset_versions_of.
Qed.

Lemma ListDatasets_reads d : reads d (ListDatasets ws) (Forall (dataset_of ws d)).
Proof.
  unfold ListDatasets. rewrite ws_default. apply reads_get, reads_ret, Forall_fmap, Forall_forall.
  intros [i r] Hp%elem_of_sort_by. apply list_elem_of_filter in Hp as [[Hw _] Hp%elem_of_map_to_list]. by exists r.
Qed.

Lemma ListProjects_reads d : reads d (ListProjects ws) (Forall (λ p, proj_Name p ∈ project_column d ws)).
Proof.
  unfold ListProjects. rewrite ws_default. apply reads_get, reads_ret, Forall_forall. intros p Hp%elem_of_sort_by.
  apply list_elem_of_fmap in Hp as (n & -> & Hn). cbn. by rewrite elem_of_remove_dups in Hn.
Qed.

(** *** Search *)

Lemma experiment_item_visible d e :
  experiment_visible ws d (experimentToDTO e) → item_visible ws d (experiment_item e).
Proof.
  intros (id & row & Hr & Hw & Hid & _). right. left. split; [done|]. exists id. split; [exact Hid|].
  unfold exp_owner. by rewrite Hr, <- Hw.
Qed.

Lemma SearchRunsByName_reads like d q n :
  reads d (SearchRunsByName like ws q n) (Forall (λ r, run_owner d (run_ID r) = Some ws)).
Proof.
  unfold SearchRunsByName. rewrite ws_default. cbv zeta. apply reads_get, reads_ret, Forall_fmap, Forall_forall.
  intros [R row] Hin. apply elem_of_take in Hin as (j & Hj & _). apply list_elem_of_lookup_2, elem_of_sort_by in Hj.
  apply list_elem_of_filter in Hj as [[Hw _] Hj%elem_of_map_to_list].
  cbn in *. unfold run_owner, row_owner, exp_owner. rewrite Hj. cbn. unfold in_workspace in Hw.
  destruct (rows _ !! _) as [e|]; [|done]. cbn. by rewrite Hw, ws_default.
Qed.

Lemma items_of_yields {A} d (m : M (list A)) f (Q : A → Prop) :
  reads d m (Forall Q) → (∀ a, Q a → item_visible ws d (f a)) → yields d (items_of m f) (Forall (item_visible ws d)).
Proof.
  intros Hm Hf. eapply yields_bind; [by apply yields_tried|]. intros r Hr. apply yields_ret.
  destruct r as [l|e]; [|done]. apply Forall_fmap. eapply Forall_impl; [by apply Hr|]. exact Hf.
Qed.

Lemma prompt_items_yields d ql names items :
  Forall (item_visible ws d) items → yields d (prompt_items ws ql names items) (Forall (item_visible ws d)).
Proof.
  revert items. induction names as [|n names IH]; intros items Hi; cbn; [by apply yields_ret|].
  case_decide; [by apply IH|]. destruct (_ && _); [by apply IH|].
  eapply yields_bind; [apply yields_tried, GetLatestPrompt_reads|]. intros r Hr. destruct r as [p|e]; [|by apply IH].
  destruct (Hr p eq_refl) as [(row & Hrow & _) Hn].
  assert (Forall (item_visible ws d) (items ++ [prompt_item (TrimSpace n) p])) as Hi'.
  { apply Forall_app. split; [done|]. constructor; [|done]. right. right. split; [done|]. rewrite Hn in Hrow. by exists (prompt_Version p), row. }
  case_decide; [by apply yields_ret|by apply IH].
Qed.

Lemma search_kinds_yields like d q kind names :
  yields d (search_kinds like ws q kind names) (Forall (item_visible ws d)).
Proof.
  unfold search_kinds. apply (yields_bind d _ _ (Forall (item_visible ws d))).
  { case_decide; [|by apply yields_ret]. apply (items_of_yields d _ _ (λ e, experiment_visible ws d (experimentToDTO e))).
    - eapply reads_bind; [by apply SearchExperiments_reads|]. intros res Hres. by apply reads_ret.
    - apply experiment_item_visible. }
  intros exps He. apply (yields_bind d _ _ (Forall (item_visible ws d))).
  { case_decide; [|by apply yields_ret]. eapply items_of_yields; [apply SearchRunsByName_reads|]. intros r Hr. by left. }
  intros rs Hr. cbv zeta. assert (Forall (item_visible ws d) (exps ++ rs)) by (by apply Forall_app).
  case_decide; [by apply prompt_items_yields|by apply yields_ret].
Qed.

(** *** Lineage *)

Definition lineage_run (d : DB) (r : Run) : Prop := run_owner d (run_ID r) = Some ws.

Lemma run_in_workspace_owner d id r : run_in_workspace d ws id = Some r → lineage_run d r.
Proof.
  unfold run_in_workspace, lineage_run. destruct (runs d !! id) as [row|] eqn:Hr; [|done]. cbn.
  destruct (rows (experiments d) !! _) as [e|] eqn:He; [|done]. cbn. case_decide as Hw; [|done]. intros [= <-]. cbn.
  unfold run_owner, row_owner, exp_owner. rewrite Hr. cbn. rewrite He. cbn. by rewrite Hw, ws_default.
Qed.

Lemma ancestor_walk_owner fuel d cur visited : Forall (lineage_run d) (ancestor_walk fuel d ws cur visited).
Proof.
  revert cur visited. induction fuel as [|fuel IH]; intros cur visited; cbn; [done|]. do 2 (case_decide; [done|]).
  destruct (run_in_workspace d ws cur) as [p|] eqn:Hp; [|done]. constructor; [by eapply run_in_workspace_owner|done].
Qed.

Lemma take_level_owner d fan level visited out next tr visited' out' next' tr' :
  Forall (lineage_run d) level → Forall (lineage_run d) out →
  take_level fan level visited out next tr = (visited', out', next', tr') → Forall (lineage_run d) out'.
Proof.
  intros Hl. revert visited out next tr. induction Hl as [|r level Hr _ IH]; intros visited out next tr Ho; cbn.
  - intros E. by simplify_eq.
  - case_decide; [by apply IH|]. case_decide; [by apply IH|]. apply IH, Forall_app. split; [done|by constructor].
Qed.

Lemma descend_owner depth d fan frontier visited out tr :
  Forall (lineage_run d) out → Forall (lineage_run d) (descend depth d ws fan frontier visited out tr).1.
Proof.
  revert frontier visited out tr. induction depth as [|depth IH]; intros [|f frontier] visited out tr Ho; cbn; try done.
  destruct (take_level _ _ _ _ _ _) as [[[v' o'] n'] t'] eqn:E. apply IH. eapply take_level_owner; [|exact Ho|exact E].
  apply Forall_take, Forall_forall. intros r Hr%elem_of_sort_by.
  apply list_elem_of_omap in Hr as ([id row] & _ & Hr). case_match; [|done]. by eapply run_in_workspace_owner.
Qed.

Lemma GetRunLineage_reads d R opt :
  run_owner d R = Some ws →
  reads d (GetRunLineageWithOptions R opt)
    (λ l, Forall (lineage_run d) (rl_Run l :: rl_Ancestors l ++ rl_Descendants l)).
Proof.
  intros Ho. unfold GetRunLineageWithOptions.
  apply (reads_bind d _ _ (λ run, run_ID run = R ∧ exp_owner d (run_ExperimentID run) = Some ws)).
  { apply reads_get, reads_lift. intros run. unfold run_owner, row_owner in Ho. destruct (runs d !! R); [|done].
    cbn. by intros [= <-]. }
  intros run [Hid He]. eapply reads_bind; [apply GetExperiment_reads|]. intros e [_ Hw]. cbv zeta.
  assert (default_ws (exp_WorkspaceID e) = ws) as -> by congruence.
  apply reads_get. match goal with |- context [let '(_, _) := ?x in _] => destruct x as [desc tr] eqn:Ed end.
  apply (reads_bind d _ _ (λ _, True)); [by apply reads_get, reads_ret|]. intros edges _. apply reads_ret. cbn.
  constructor; [by rewrite <- Hid in Ho|]. apply Forall_app. split.
  - destruct (decide (_ ∈ [LineageUpstream; LineageBoth])); [apply ancestor_walk_owner|done].
  - destruct (decide (_ ∈ [LineageDownstream; LineageBoth])); [|by simplify_eq]. pose proof (descend_owner (lineage_depth (lo_Depth opt)) d
      (lineage_fanout (lo_MaxNodes opt)) [R] {[R]} [] false (Forall_nil_2 _)) as Hd.
    unfold walkDescendants in Ed. by rewrite Ed in Hd.
Qed.

(** A walk along edges that stay in the workspace. *)
Lemma walk_owner d succ c0 visited visited' l :
  (∀ a b, edge succ a b → dataset_owner d a = Some ws → dataset_owner d b = Some ws) →
  dataset_owner d c0 = Some ws →
  walk succ (getDatasetVersionByID d) lineage_fuel (succ c0) visited [] = Some (visited', l) →
  Forall (dataset_of ws d) l.
Proof.
  intros Hedge H0 E.
  destruct (walk_spec succ _ (getDatasetVersionByID_id d) lineage_fuel (succ c0) visited [])
    as (v' & added & Hw & _ & _ & _ & H4 & _); [cbn [length]; lia|unfold lineage_fuel; cbn [length]; lia|by intros x Hx%elem_of_nil|].
  rewrite Hw in E. cbn in E. simplify_eq. apply Forall_forall. intros x Hx. destruct (H4 x Hx) as (_ & _ & c & Hc & Hr).
  assert (dataset_owner d c = Some ws) as Hcw by (by apply (Hedge c0 c)).
  assert (dataset_owner d (ds_ID x) = Some ws) as Hxw.
  { clear -Hr Hcw Hedge. induction Hr as [|a b c Hab _ IH]; [done|]. apply IH. by eapply Hedge. }
  unfold dataset_owner in Hxw. destruct (rows _ !! ds_ID x) as [row|] eqn:E; [|done]. exists row. split; [done|]. cbn in Hxw. congruence.
Qed.

Lemma GetDatasetLineage_reads d n ver :
  reads d (GetDatasetLineage ws n ver) (λ o, ∀ l, o = Some l → dataset_wf d →
    Forall (dataset_of ws d) (lin_Self l :: lin_Ancestors l ++ lin_Descendants l)).
Proof.
  unfold GetDatasetLineage.
  apply (reads_bind d _ _ (λ x, dataset_of ws d x ∧ ds_Parents x = datasetParents d (ds_ID x))).
  { unfold GetDatasetVersion. rewrite ws_default. apply reads_get, reads_lift. intros x.
    destruct (dataset_at _ _ _ _) as [[i r]|] eqn:Hd; [|done]. cbn. intros [= <-]. split; [|done].
    unfold dataset_at in Hd. apply head_Some_elem_of, list_elem_of_filter in Hd as [_ Hd].
    apply elem_of_dataset_versions in Hd as (Hr & Hw & _). by exists r. }
  intros self [Hself Hps]. apply reads_get, reads_ret. intros l E Hwf.
  assert (dataset_owner d (ds_ID self) = Some ws) as Ho.
  { destruct Hself as (row & Hr & Hw). unfold dataset_owner. rewrite Hr. cbn. by rewrite Hw. }
  rewrite Hps in E. destruct (walk (datasetParents d) _ _ _ _ _) as [[v1 anc]|] eqn:E1; [|done]. cbn [mbind option_bind] in E.
  destruct (walk (dataset_children d) _ _ _ _ _) as [[v2 desc]|] eqn:E2; [|done]. cbn [mbind option_bind] in E. injection E as <-. cbn [lin_Self lin_Ancestors lin_Descendants].
  assert (∀ c p, (c, p) ∈ dataset_lineage d → dataset_owner d c = Some ws ↔ dataset_owner d p = Some ws) as Hedge.
  { intros c p (_ & rc & rp & Hc & Hp & Hw)%(dw_edge _ Hwf). unfold dataset_owner. rewrite Hc, Hp. cbn. by rewrite Hw. }
  constructor; [done|]. apply Forall_app. split.
  - eapply walk_owner; [|exact Ho|exact E1]. intros a b Hab%elem_of_datasetParents. apply (Hedge a b Hab).
  - eapply walk_owner; [|exact Ho|exact E2]. intros a b Hab%elem_of_dataset_children. apply (Hedge b a Hab).
Qed.

(** *** The handlers *)

#[local] Abbreviation answers := (answers kept (λ _ _, True)).

Lemma kept_run_kept R d : kept_run R d → kept d.
Proof. by intros []. Qed.
Lemma kept_hook_kept id d : kept_hook id d → kept d.
Proof. by intros []. Qed.

Lemma answers_own_run {B} R (k : M (Reply B)) Q :
  answers (kept_run R) k Q → answers kept (let! _ := ensureRunInWorkspace ws R in k) Q.
Proof.
  intros Hk. apply (answers_store _ (λ _, kept_run R)).
  - apply triple_reads; [done|]. intros d Hd. eapply reads_conseq; [apply ensureRun_reads|]. by intros ? Ho.
  - by intros [].
Qed.

(** Spans are checked, then stored. *)
Lemma answers_spans {B} ids spans (k : M (Reply B)) Q :
  answers kept k Q →
  answers kept (let! _ := ensureSpanRunsInWorkspace ws ∅ spans in
                let! _ := InsertSpans (imap (λ i sp, (ids i, sp)) spans) in k) Q.
Proof.
  intros Hk. apply (answers_store _ (λ _ d, kept d ∧ Forall (span_ok d) spans)).
  - apply triple_reads; [done|]. intros d Hd. eapply reads_conseq; [apply ensureSpanRuns_reads|by intros ? Hs].
    by intros R HR%elem_of_empty.
  - intros ?. eapply answers_store; [apply triple_pres; [|apply InsertSpans_kept]; by intros d []|].
    intros ?. eapply answers_weaken; [exact Hk|]. by intros d [].
Qed.

Lemma getWebhook_triple id :
  triple kept (getWebhookInWorkspace ws id)
    (λ x d, kept_hook id d ∧ wh_ID x = id ∧ default_ws (wh_WorkspaceID x) = ws).
Proof.
  apply triple_reads; [done|]. intros d Hd. unfold getWebhookInWorkspace, GetWebhook.
  apply (reads_bind d _ _ (λ x, ∃ row, rows (webhooks d) !! id = Some row ∧ x = scan_webhook id row)).
  { apply reads_get, reads_lift. intros x. destruct (rows _ !! id) as [row|]; [|done]. cbn. intros [= <-]. by exists row. }
  intros x (row & Hr & ->). unfold sameWorkspace. case_bool_decide as Hw; [|apply reads_fail]. apply reads_ret.
  split_and!; [split; [done|]|done|done]. by exists row.
Qed.

Lemma GetRunNote_reads d R : run_owner d R = Some ws → reads d (GetRunNote R) (λ n, note_visible ws d R (note_resp n)).
Proof.
  intros Ho. apply reads_get, reads_lift. intros n. destruct (run_notes d !! R) as [row|] eqn:Hr; [|done]. cbn.
  intros [= <-]. split; [done|]. by exists row.
Qed.

Lemma SetRunNote_answers u R body :
  answers kept (Handler_SetRunNote ws u R body) (λ o d, ∀ n, o = Some n → note_visible ws d R n).
Proof.
  apply answers_own_run, answers_body; [apply kept_run_kept|]. intros content.
  eapply answers_store; [apply triple_pres; [apply kept_run_kept|apply _]|]. intros ?.
  case_decide; [by apply answers_status; intros d []|].
  apply (answers_yields _ _ _ (λ r d, ∀ a, r = Ok a → note_visible ws d R (note_resp a))).
  - intros d [_ Ho]. by apply yields_tried, GetRunNote_reads.
  - intros r. apply answers_status. intros d [[Hk _] Hr]. split; [done|].
    destruct r as [x|e]; [|done]. intros n [= <-]. by apply Hr.
Qed.

Lemma GetRunData_answers R q :
  answers kept (Handler_GetRunData ws R q) (λ b d, native_visible X ws d (NBundle b)).
Proof.
  unfold Handler_GetRunData, data_as_of.
  assert (∀ asOf, answers kept
    (let! (run, asOfTags) := (if decide (0 < asOf) then GetRunAsOfInWorkspace R ws asOf
                              else run ← GetRunInWorkspace R ws; mret (run, [])) in
     let! metrics := (if decide (0 < asOf) then GetLatestMetricsAsOf R asOf else GetLatestMetrics R) in
     let! params := GetParams R in
     let! tags := (if decide (asOf = 0) then GetTags R else mret asOfTags) in
     let! spans := GetSpansByRun R in
     writeJSON (mkRunBundle run metrics params tags (spansSlice spans)))
    (λ b d, native_visible X ws d (NBundle b))) as Hk.
  { intros asOf. apply (answers_store _ (λ p d, kept_run R d ∧ run_ID p.1 = R)).
    - apply triple_reads; [done|]. intros d Hd. case_decide.
      + eapply reads_conseq; [by apply (GetRunAsOf_reads ws Hws)|]. by intros p [].
      + unfold GetRunInWorkspace. rewrite ws_default.
        apply (reads_bind d _ _ _ _ (getRunInWorkspace_reads ws Hws d R)). intros run [Ho Hid]. by apply reads_ret.
    - intros [run ts]. apply (answers_store _ (λ ms d, (kept_run R d ∧ run_ID run = R) ∧ Forall (metric_of d R) ms)).
      { apply triple_reads; [by intros d [[] _]|]. intros d Hd.
        eapply reads_conseq; [case_decide; apply latest_reads|]. by intros ms Hms. }
      intros ms. apply (answers_store _ (λ ps d, ((kept_run R d ∧ run_ID run = R) ∧ Forall (metric_of d R) ms) ∧ Forall (param_of d R) ps)).
      { apply triple_reads; [by intros d [[[] _] _]|]. intros d Hd. eapply reads_conseq; [apply params_read|]. by intros ps Hps. }
      intros ps. eapply answers_store.
      { apply triple_pres; [by intros d [[[[] _] _] _]|]. case_decide; [unfold GetTags|]; apply _. }
      intros tags. apply (answers_store _ (λ l d, (((kept_run R d ∧ run_ID run = R) ∧ Forall (metric_of d R) ms) ∧ Forall (param_of d R) ps) ∧
        Forall (span_of d R) (spansSlice l))).
      { apply triple_reads; [by intros d [[[[] _] _] _]|]. intros d Hd. eapply reads_conseq; [apply spans_read|]. by intros l Hl. }
      intros l. apply answers_write. intros d [[[[[Hkd Ho] Hid] Hms] Hps] Hl]. split_and!; [done| |done]. cbn. by rewrite Hid. }
  case_decide; [apply Hk|]. apply answers_int; [done|]. intros ts. apply answers_require; [done|apply Hk].
Qed.

Lemma CreateWebhook_answers valid body :
  answers kept (Handler_CreateWebhook valid ws body) (λ x d, native_visible X ws d (NWebhooks [x])).
Proof.
  apply answers_body; [done|]. intros req. apply answers_need; [done|]. apply answers_require; [done|].
  apply (answers_yields _ _ _ (λ _ _, True)); [intros d _; apply yields_now|]. intros now. cbv zeta.
  eapply answers_store; [eapply triple_conseq; [by apply CreateWebhook_triple, ws_default|by intros d []]|].
  intros id. apply answers_status. intros d [Hk Hh]. split; [done|]. by constructor.
Qed.

Lemma UpdateWebhook_answers valid id body :
  answers kept (Handler_UpdateWebhook valid ws id body) (λ x d, native_visible X ws d (NWebhooks [x])).
Proof.
  apply answers_int; [done|]. intros n. eapply answers_store; [apply getWebhook_triple|]. intros x.
  apply (answers_pure (kept_hook n)). intros [<- Hw].
  apply answers_body; [apply kept_hook_kept|]. intros req. apply answers_require; [apply kept_hook_kept|]. cbv zeta.
  eapply answers_store; [apply triple_pres; [apply (kept_hook_kept (wh_ID x))|by apply (UpdateWebhook_kept (merge_webhook x req))]|].
  intros ?. apply answers_status. intros d [Hk Hh]. split; [done|]. by constructor.
Qed.

Lemma TestWebhook_answers deliver id :
  answers kept (Handler_TestWebhook deliver ws id) (λ _ _, True).
Proof.
  apply answers_int; [done|]. intros n. eapply answers_store; [apply getWebhook_triple|]. intros x.
  apply (answers_pure (kept_hook n)). intros _.
  apply (answers_yields _ _ _ (λ _ _, True)); [intros d _; apply yields_now|]. intros now.
  apply (answers_weaken _ (kept_hook n)); [|by intros d []]. destruct (deliver _ _).
  - apply answers_tried; [apply _|]. intros r. apply answers_write. intros d []. done.
  - apply answers_tried; [apply _|]. intros r. apply answers_error. apply kept_hook_kept.
Qed.

Lemma EchoPeer_answers probe id : answers kept (Handler_EchoPeer probe ws id) (λ _ _, True).
Proof.
  apply answers_int; [done|]. intros n. apply (answers_store _ (λ _ d, kept d ∧ peer_of d n)).
  { apply triple_reads; [done|]. intros d Hd. apply reads_get, reads_lift. intros p. rewrite ws_default.
    destruct (rows _ !! n) as [r|] eqn:Hr; [|done]. cbn. case_decide as Hw; [|done]. intros _. split; [done|]. by exists r. }
  intros p. assert (∀ d, kept d ∧ peer_of d n → kept d) as Hweak by (by intros d []).
  destruct (probe p) as [msg|msg|st].
  - apply answers_tried; [apply _|]. intros r. by apply answers_error.
  - apply answers_tried; [apply _|]. intros r. apply answers_write. intros d []. done.
  - case_decide.
    + apply (answers_yields _ _ _ (λ _ _, True)); [intros d _; apply yields_now|]. intros now.
      apply (answers_weaken _ (λ d, kept d ∧ peer_of d n)); [|by intros d []].
      apply answers_tried; [apply _|]. intros r. apply answers_write. intros d []. done.
    + apply answers_tried; [apply _|]. intros r. apply answers_write. intros d []. done.
Qed.

Lemma CreateDatasetVersion_answers cas u n form :
  answers kept (Handler_CreateDatasetVersion cas ws u n form) (λ _ _, True).
Proof.
  unfold Handler_CreateDatasetVersion. destruct (negb cas); [by apply answers_error|]. cbv zeta.
  apply answers_require; [done|]. apply answers_body; [done|]. intros f.
  assert (∀ meta, answers kept (with_body (uf_File f) (λ put, match put with
    | None => mret (reply_error 500 "STORAGE_ERROR")
    | Some (hash, size) =>
        r ← tried (CreateDatasetVersion (mkDatasetVersion 0 (nameParam n) 0 hash size (um_SchemaJSON meta) (um_Desc meta)
                     ws 0 u "" []) (um_Parents meta));
        match r with Err _ => invalid_parameter | Ok out => write_status 200 out end end)) (λ _ _, True)) as Hf.
  { intros meta. apply answers_body; [done|]. intros [[hash size]|]; [|by apply answers_error].
    apply answers_tried; [by apply CreateDatasetVersion_kept|]. intros [out|e]; [by apply answers_status|by apply answers_error]. }
  unfold with_meta. case_decide; [apply Hf|]. case_decide; [by apply answers_error|]. apply answers_body; [done|]. apply Hf.
Qed.

Lemma GetRunLineage_answers R q :
  answers kept (Handler_GetRunLineage ws R q) (λ l d, native_visible X ws d (NLineage l)).
Proof.
  apply answers_own_run. destruct (lineage_direction _) as [dir|]; [|apply answers_error, kept_run_kept].
  assert (∀ s m (k : Z → M (Reply RunLineage)) Q, (∀ n, answers (kept_run R) (k n) Q) →
    answers (kept_run R) (bounded_param s m k) Q) as Hb.
  { intros s m k Q Hk. unfold bounded_param. case_decide; [done|]. apply answers_int; [apply kept_run_kept|]. intros n.
    apply answers_require; [apply kept_run_kept|done]. }
  apply Hb. intros depth. apply Hb. intros fanout. apply answers_read; [apply kept_run_kept|].
  intros d [_ Ho]. by apply GetRunLineage_reads.
Qed.

Lemma CloneExperiment_answers id name :
  answers kept (Handler_CloneExperiment ws id name) (λ e d, native_visible X ws d (NExperiment e)).
Proof.
  apply answers_int; [done|]. intros n. eapply answers_store.
  { apply triple_pres; [done|]. unfold GetExperiment. apply _. }
  intros src. destruct (negb _); [by apply answers_error|].
  apply (answers_yields _ _ _ (λ _ _, True)).
  { intros d _. destruct (nonempty name); [by apply yields_ret|]. eapply yields_bind; [apply yields_now|]. intros t _. by apply yields_ret. }
  intros new. eapply answers_store; [eapply triple_conseq; [apply CloneExperiment_triple|by intros d []]|].
  intros e. by apply answers_status.
Qed.

(** The workspace that a call of the workspace administration is about. *)
Definition admin_target (c : NativeCall) : option string :=
  match c with
  | NCreateWorkspace body => ck_ID <$> body
  | _ => workspace_param c
  end.

Lemma GetDashboard_ws p d : reads d (GetDashboard ws p) (λ y, dash_WorkspaceID y = ws).
Proof.
  apply reads_get, reads_lift. intros y. rewrite ws_default. destruct (head _) as [[id old]|] eqn:Hh; [|done].
  apply dashboards_at_ws in Hh as [_ Hw]. cbn. by intros [= <-].
Qed.

Lemma SaveDashboard_triple p x : triple kept (SaveDashboard ws p x) (λ y d, kept d ∧ dash_WorkspaceID y = ws).
Proof.
  intros w Hk. pose proof (SaveDashboard_kept p x w Hk) as Hp. unfold SaveDashboard in *. rewrite ws_default in *.
  cbv zeta in *. rewrite now_bind, modify_bind in *.
  match goal with |- context [GetDashboard ws p ?w1] => pose proof (GetDashboard_ws p (w_db w1) w1 eq_refl) as Hr;
    destruct (GetDashboard ws p w1) as [[y|e] w2] end; cbn in *; [by destruct Hr|done].
Qed.

(** A store operation that keeps what [v] owns, then a status. *)
Lemma answers_done {A B} (m : M A) status (b : B) :
  Preserves kept m → answers kept (let! _ := m in write_status status b) (λ _ _, True).
Proof. intros Hm. eapply answers_store; [by apply triple_pres|]. intros a. by apply answers_status. Qed.

Lemma answers_then {A B} (m : M A) (k : M (Reply B)) Q :
  Preserves kept m → answers kept k Q → answers kept (let! _ := m in k) Q.
Proof. intros Hm Hk. eapply answers_store; [by apply triple_pres|]. by intros a. Qed.

Lemma notes_answers R : answers kept (Handler_GetRunNote ws R) (λ n d, note_visible ws d R n).
Proof. apply answers_own_run, (answers_read _ _ note_resp); [apply kept_run_kept|]. intros d [_ Ho]. by apply GetRunNote_reads. Qed.

Lemma set_note_answers u R body :
  answers kept (Handler_SetRunNote ws u R body)
    (λ o d, native_visible X ws d (match o with Some n => NNote R n | None => NNothing end)).
Proof. eapply answers_conseq; [apply SetRunNote_answers|]. intros [n|] d Hn; [by apply Hn|done]. Qed.

Lemma IngestTraces_answers t ids body : answers kept (Handler_IngestTraces t ids ws body) (λ _ _, True).
Proof.
  apply answers_body; [done|]. intros req. apply answers_need; [done|]. cbv zeta. apply answers_spans. by apply answers_status.
Qed.

Lemma IngestOTLP_answers marshal ids body : answers kept (Handler_IngestOTLP marshal ids ws body) (λ _ _, True).
Proof. apply answers_body; [done|]. intros req. cbv zeta. apply answers_spans, answers_write. by intros d Hd. Qed.

Lemma GetRunTraces_answers R : answers kept (Handler_GetRunTraces ws R) (λ l d, run_owner d R = Some ws ∧ Forall (span_of d R) l).
Proof.
  apply answers_own_run, (answers_read _ _ spansSlice); [apply kept_run_kept|]. intros d [_ Ho].
  eapply reads_conseq; [apply spans_read|]. by intros l Hl.
Qed.

Lemma CreateEval_answers body : answers kept (Handler_CreateEval ws body) (λ _ _, True).
Proof.
  apply answers_body; [done|]. intros req. apply answers_need; [done|]. apply answers_own_run. cbv zeta.
  set (e := mkEval _ _ _ _ _). apply (answers_store _ (λ _, kept_run (eval_RunID e))).
  - apply triple_pres; [apply kept_run_kept|apply _].
  - intros ?. apply answers_write. intros d [Hk _]. done.
Qed.

Lemma GetEval_answers R :
  answers kept (Handler_GetEval ws R) (λ e d, run_owner d (eval_RunID e) = Some ws ∧ is_Some (evals d !! eval_RunID e)).
Proof.
  apply answers_own_run, answers_read_json; [apply kept_run_kept|]. intros d [_ Ho]. apply reads_get, reads_lift. intros e.
  destruct (evals d !! R) as [row|] eqn:Hr; [|done]. cbn. intros [= <-]. cbn. rewrite Hr. split; [done|by eexists].
Qed.

(** *** Prompts and search *)

Lemma answers_prompt (m : M Prompt) :
  (∀ d, reads d m (prompt_of ws d)) → answers kept (let! p := m in writeJSON p) (λ p d, Forall (prompt_of ws d) [p]).
Proof.
  intros Hm. apply answers_read_json; [done|]. intros d _. eapply reads_conseq; [apply Hm|]. intros p Hp. by constructor.
Qed.

Lemma answers_prompts (m : M (list Prompt)) :
  (∀ d, reads d m (Forall (prompt_of ws d))) → answers kept (let! l := m in writeJSON l) (λ l d, Forall (prompt_of ws d) l).
Proof. intros Hm. by apply answers_read_json. Qed.

Lemma CreatePrompt_answers sha body : answers kept (Handler_CreatePrompt sha ws body) (λ _ _, True).
Proof.
  apply answers_body; [done|]. intros req. apply answers_need; [done|].
  eapply answers_store; [apply triple_pres; [done|apply _]|]. intros ver. apply answers_write. by intros d Hd.
Qed.

Lemma latest_prompt_answers n : answers kept (Handler_GetLatestPrompt ws n) (λ p d, Forall (prompt_of ws d) [p]).
Proof. apply answers_prompt. intros d. eapply reads_conseq; [apply GetLatestPrompt_reads|]. by intros p []. Qed.

Lemma prompt_version_answers n ver : answers kept (Handler_GetPromptVersion ws n ver) (λ p d, Forall (prompt_of ws d) [p]).
Proof. apply answers_int; [done|]. intros z. apply answers_prompt. intros d. apply GetPromptVersion_reads. Qed.

Lemma SetPromptAlias_answers n body : answers kept (Handler_SetPromptAlias ws n body) (λ _ _, True).
Proof. apply answers_body; [done|]. intros req. apply answers_effect; [done|apply _]. Qed.

Lemma connected_peers_yields d : yields d (connected_peers ws)
  (Forall (λ p, ∃ id row, rows (peers d) !! id = Some row ∧ pr_workspace_id row = ws ∧ pr_status row = "connected"%string ∧ p = scanPeer id row)).
Proof.
  intros w Hw. unfold connected_peers, ListPeers. rewrite bind_bind, get_bind. eexists _, w. split_and!; [reflexivity|done|].
  apply Forall_forall. intros p [Hc Hp]%list_elem_of_filter.
  apply elem_of_sort_by, list_elem_of_fmap in Hp as ([id r] & -> & Hr). apply list_elem_of_filter in Hr as [Hr Hin%elem_of_map_to_list].
  exists id, r. rewrite Hw in Hin. cbn in Hr. rewrite ws_default in Hr. done.
Qed.

Lemma merged_from replies i : i ∈ (merge_replies replies).1.1 → ∃ r, Some r ∈ replies ∧ i ∈ with_instance r.1 <$> r.2.
Proof.
  cbn. intros (r & Hi & Hr)%list_elem_of_bind. exists r. split; [|done]. apply list_elem_of_omap in Hr as (o & Ho & E). cbn in E. by rewrite <- E.
Qed.

Lemma fanout_yields d key body : yields d
  (federatedFanOut (fe_hmac (x_federation X)) (fe_cached (x_federation X) key) (fe_transport (x_federation X)) (fe_decode (x_federation X))
     (federationOurName (fe_name (x_federation X))) (fe_ts (x_federation X)) (fe_arrival (x_federation X)) body ws)
  (λ res, (∀ l, fe_arrival (x_federation X) l ≡ₚ l) → Forall (remote_item X ws d) res.1.1).
Proof.
  eapply yields_bind.
  { intros w Hw. destruct (connected_peers_yields d w Hw) as (l & w' & E & Hw' & Hl). exists (Ok l), w'. unfold tried. rewrite E.
    split_and!; [done|done|]. instantiate (1 := λ r, ∀ l, r = Ok l → Forall _ l). intros ? [= <-]. exact Hl. }
  intros r Hr. apply yields_ret. intros Harr. destruct r as [l|e]; [|by constructor]. specialize (Hr l eq_refl).
  apply Forall_forall. intros i Hi%merged_from. destruct Hi as ([inst results] & Hin & Hi). apply list_elem_of_fmap in Hin as (p & Ha & Hp).
  rewrite (Harr l) in Hp. rewrite Forall_forall in Hr. destruct (Hr p Hp) as (id & row & H1 & H2 & H3 & ->).
  apply list_elem_of_fmap in Hi as (x & -> & Hx). by exists id, row, key, body, inst, results, x.
Qed.

Lemma GlobalSearch_answers like q :
  answers kept (Handler_GlobalSearch like (x_federation X) ws q) (λ r d, search_visible X ws d r).
Proof.
  unfold Handler_GlobalSearch. cbv zeta. eapply answers_yields; [intros d _; apply search_kinds_yields|].
  intros items. cbv zeta. case_decide.
  - eapply (answers_yields _ _ _ (λ res d, (∀ l, fe_arrival (x_federation X) l ≡ₚ l) → Forall (remote_item X ws d) res.1.1)); [intros d _; apply fanout_yields|].
    intros [[merged instances] partial]. apply answers_status. intros d [[Hk Hi] Hm]. split; [done|]. cbn in Hm.
    set (locals := with_instance _ <$> take 10 items).
    exists (take 50 locals), (take (50 - length locals) merged). cbn. rewrite take_app. split_and!.
    + done.
    + apply Forall_take. unfold locals. apply Forall_fmap. apply Forall_take. eapply Forall_impl; [exact Hi|]. intros i. done.
    + rewrite length_take. unfold locals. rewrite length_fmap, length_take. lia.
    + rewrite length_app, !length_take. lia.
    + done.
    + intros Harr. apply Forall_take. by apply Hm.
  - apply answers_status. intros d [Hk Hi]. split; [done|]. exists (take 10 items), []. rewrite app_nil_r. cbn.
    split_and!; [done|by apply Forall_take|rewrite length_take; lia|rewrite length_take; lia|done|by constructor].
Qed.

Lemma ListEcho_answers q : answers kept (Handler_ListEchoDeliveries (x_echo X) q) (λ l d, native_visible X ws d (NEchoes l)).
Proof.
  apply answers_status. intros d Hd. split; [done|]. cbn [native_visible].
  set (max := match ParseInt _ with Some n => _ | None => 50 end).
  assert (0 < max ≤ 500) as Hmax.
  { unfold max. destruct (ParseInt _) as [n|]; [|lia]. destruct (Z.ltb_spec 0 n), (Z.leb_spec n 500); cbn; lia. }
  destruct (x_echo X) as [log|]; [|split; [cbn; lia|constructor]].
  unfold EchoLog_List. split.
  - rewrite length_take, length_reverse. destruct ((0 <? max) && _) eqn:E; [lia|]. apply andb_false_iff in E as [E%Z.ltb_ge|E%Z.ltb_ge]; lia.
  - apply Forall_take, Forall_forall. intros e He. exists log. by rewrite elem_of_reverse in He.
Qed.

(** *** Webhooks, dashboards and peers *)

Lemma ListWebhooks_answers : answers kept (Handler_ListWebhooks ws) (λ l d, native_visible X ws d (NWebhooks l)).
Proof.
  apply (answers_read _ _ (fmap webhookToDTO)); [done|]. intros d _. apply reads_get, reads_ret. cbn.
  apply Forall_fmap, Forall_forall. intros x Hx%elem_of_sort_by. apply list_elem_of_fmap in Hx as ([id r] & -> & Hr).
  apply list_elem_of_filter in Hr as [[Hw _] Hr%elem_of_map_to_list]. exists r. split; [done|]. cbn in Hw.
  by rewrite Hw, default_ws_idemp, ws_default.
Qed.

Lemma DeleteWebhook_answers id : answers kept (Handler_DeleteWebhook ws id) (λ _ _, True).
Proof.
  apply answers_int; [done|]. intros n. eapply answers_store; [apply getWebhook_triple|]. intros x.
  apply (answers_pure (kept_hook n)). intros _. eapply answers_store; [apply DeleteWebhook_triple|].
  intros ?. apply answers_write. by intros d Hd.
Qed.

Lemma GetDashboard_answers p : answers kept (Handler_GetDashboard ws p) (λ x _, dash_WorkspaceID x = ws).
Proof.
  eapply answers_yields; [intros d _; apply yields_tried, GetDashboard_ws|]. intros r. apply answers_status.
  intros d [Hk Hr]. split; [done|]. destruct r as [x|e]; [by apply Hr|done].
Qed.

Lemma SaveDashboard_answers is_array p body :
  answers kept (Handler_SaveDashboard is_array ws p body) (λ x _, dash_WorkspaceID x = ws).
Proof.
  apply answers_body; [done|]. intros raw. cbv zeta. set (widgets := if decide _ then _ else _).
  destruct (decide (maxWidgetsBytes < _)); [by apply answers_error|]. apply answers_require; [done|].
  eapply answers_store; [apply SaveDashboard_triple|]. intros x. by apply answers_status.
Qed.

Lemma AddPeer_answers valid s body : answers kept (Handler_AddPeer valid s ws body) (λ _ _, True).
Proof.
  apply answers_body; [done|]. intros req. apply answers_need; [done|]. do 2 (apply answers_require; [done|]). cbv zeta.
  eapply answers_store; [apply triple_pres; [done|by apply CreatePeer_kept]|]. intros id. by apply answers_status.
Qed.

Lemma ListPeers_answers : answers kept (Handler_ListPeers ws) (λ l d, native_visible X ws d (NPeers l)).
Proof.
  apply (answers_read _ _ (fmap peerToDTO)); [done|]. intros d _. apply reads_get, reads_ret. cbn.
  apply Forall_fmap, Forall_forall. intros x Hx%elem_of_sort_by. apply list_elem_of_fmap in Hx as ([id r] & -> & Hr).
  apply list_elem_of_filter in Hr as [Hw Hr%elem_of_map_to_list]. exists r. split; [done|]. cbn in Hw. by rewrite Hw, ws_default.
Qed.

Lemma DeletePeer_answers id : answers kept (Handler_DeletePeer ws id) (λ _ _, True).
Proof. apply answers_int; [done|]. intros n. apply answers_effect; [done|apply _]. Qed.

(** *** Datasets *)

Lemma dataset_version_answers n ver :
  answers kept (Handler_GetDatasetVersion ws n ver) (λ x d, Forall (dataset_of ws d) [x]).
Proof.
  apply answers_int; [done|]. intros z. apply (answers_read _ _ (λ x, x)); [done|]. intros d _.
  eapply reads_conseq; [apply GetDatasetVersion_reads|]. intros x [Hx _]. by constructor.
Qed.

Lemma DeleteDatasetVersion_answers n ver : answers kept (Handler_DeleteDatasetVersion ws n ver) (λ _ _, True).
Proof. apply answers_int; [done|]. intros z. apply answers_effect; [done|apply _]. Qed.

Lemma GetDatasetContent_answers cas n ver :
  answers kept (Handler_GetDatasetContent cas ws n ver) (λ c d, native_visible X ws d (NContent c)).
Proof.
  destruct cas as [get_bytes|]; [|by apply answers_error]. apply answers_int; [done|]. intros z.
  apply (answers_store _ (λ x d, kept d ∧ ∃ row, rows (datasets_v2 d) !! ds_ID x = Some row ∧ xr_workspace_id row = ws ∧
    xr_content_hash row = ds_ContentHash x)).
  { apply triple_reads; [done|]. intros d Hd. eapply reads_conseq; [apply GetDatasetVersion_reads|]. by intros x [_ Hx]. }
  intros x. destruct (get_bytes _) as [bytes|]; [|apply answers_error; by intros d []].
  apply answers_status. intros d [Hk (row & Hr)]. split; [done|]. by exists (ds_ID x), row.
Qed.

(** *** Workspaces *)

Lemma CreateWorkspace_answers body :
  ck_ID <$> body ≠ Some v → answers kept (Handler_CreateWorkspace body) (λ _ _, True).
Proof.
  intros Hb. destruct body as [req|]; [|by apply answers_error]. apply answers_require; [done|].
  apply answers_then; [apply CreateWorkspace_kept; cbn in *; congruence|].
  apply answers_read; [done|]. intros d _. by apply reads_get, reads_lift.
Qed.

Lemma UpdateWorkspace_answers id body : Some id ≠ Some v → answers kept (Handler_UpdateWorkspace id body) (λ _ _, True).
Proof.
  intros Hid. apply answers_body; [done|]. intros [n s]. apply answers_then; [apply UpdateWorkspace_kept; congruence|].
  apply answers_read; [done|]. intros d _. by apply reads_get, reads_lift.
Qed.

Lemma AddMember_answers id u body : Some id ≠ Some v → answers kept (Handler_AddMember id u body) (λ _ _, True).
Proof.
  intros Hid. apply answers_body; [done|]. intros role. apply answers_require; [done|].
  apply answers_done, AddMember_kept. congruence.
Qed.

Lemma GetCurrentWorkspace_answers u : answers kept (Handler_GetCurrentWorkspace ws u) (λ _ _, True).
Proof.
  eapply answers_store; [apply triple_pres; [done|apply _]|]. intros x.
  apply (answers_yields _ _ _ (λ _ _, True)); [|intros role; apply answers_status; by intros d []].
  intros d _. case_decide; [by apply yields_ret|]. intros w Hw.
  destruct (yields_tried d (GetMemberRole ws u) (λ _, True)) with w as (r & w' & E & Hd & _); [|done|by exists r, w'].
  by apply reads_get, reads_lift.
Qed.

(** Every call of the native API. *)
Lemma native_answers c :
  admin_target c ≠ Some v → answers kept (native_handle X ws c) (λ s d, native_visible X ws d s).
Proof.
  intros Ht. destruct c; cbn [native_handle admin_target workspace_param] in *; apply answers_map;
    cbn [native_visible];
    first [apply set_note_answers|apply ListEcho_answers|apply GetRunData_answers|apply CreateWebhook_answers|apply UpdateWebhook_answers
          |apply TestWebhook_answers|apply EchoPeer_answers|apply CreateDatasetVersion_answers|apply GetRunLineage_answers
          |apply CloneExperiment_answers|apply notes_answers|apply IngestTraces_answers|apply IngestOTLP_answers
          |apply GetRunTraces_answers|apply CreateEval_answers|apply GetEval_answers|apply CreatePrompt_answers
          |apply latest_prompt_answers|apply prompt_version_answers|apply SetPromptAlias_answers|apply GlobalSearch_answers
          |apply ListWebhooks_answers|apply DeleteWebhook_answers|apply GetDashboard_answers|apply SaveDashboard_answers
          |apply AddPeer_answers|apply ListPeers_answers|apply DeletePeer_answers|apply dataset_version_answers
          |apply DeleteDatasetVersion_answers|apply GetDatasetContent_answers|by apply CreateWorkspace_answers
          |by apply UpdateWorkspace_answers|by apply AddMember_answers|apply GetCurrentWorkspace_answers|idtac].
  - apply (answers_read _ _ (λ l, l)); [done|]. intros d _. apply ListProjects_reads.
  - apply answers_prompts. intros d. apply ListPrompts_reads.
  - apply answers_prompts. intros d. apply ListPromptVersions_reads.
  - apply answers_prompt. intros d. apply GetPromptByAlias_reads.
  - apply (answers_read _ _ (λ l, l)); [done|]. intros d _. apply ListDatasets_reads.
  - apply (answers_read _ _ (λ l, l)); [done|]. intros d _. apply ListDatasetVersions_reads.
  - apply answers_int; [done|]. intros z. apply (answers_read _ _ (λ l, l)); [done|]. intros d _. apply GetDatasetLineage_reads.
  - apply (answers_read _ _ (λ l, l)); [done|]. intros d _. by apply reads_get, reads_ret.
  - apply (answers_read _ _ (λ l, l)); [done|]. intros d _. by apply reads_get, reads_lift.
  - apply answers_done, DeleteWorkspace_kept. congruence.
  - apply answers_then; [apply _|]. apply (answers_read _ _ (λ l, l)); [done|]. intros d _. by apply reads_get, reads_ret.
  - apply answers_done, RemoveMember_kept. congruence.
Qed.
End writes.
