(* ===== verification/FederationApi.v ===== *)
(** * Federated search (internal/api/native/federation.go)

    The side that answers: the handlers a peer calls, behind the signature
    check.  The fan-out of a search to the connected peers is in NativeApi.v;
    its laws, which need both sides, are here. *)

From S2P Require Import Prelude GoStrings Model Database Keyset Runs Experiments Prompts Integrations Search Sample.
From S2P Require Import MlflowApi ApiLogic Isolation Ownership NativeApi NativeLaws Federation.
From Stdlib Require Import Ascii.

Open Scope Z_scope.

(** ** The called side *)

(** A request to the peer endpoints, with the workspace [workspaceFromReq]
    finds; the body is [None] when it cannot be read. *)
Record FedRequest := mkFedRequest {
  fq_Workspace : string; fq_Peer : string; fq_Sig : string; fq_Ts : string;
  fq_Method : string; fq_Path : string; fq_Body : option string }.

Definition maxFederationRequestBytes : Z := 2 ^ 20.

Record federateSearchReq := mkFederateSearchReq { fs_Q : string; fs_Kind : string; fs_Max : Z }.

Section called.
Context `{Clock} (hmac : list Z → string → list Z) (like : string → string → bool).

Definition validateFederationRequest (r : FedRequest) : M (fed_result string) :=
  if decide (fq_Peer r = EmptyString ∨ fq_Sig r = EmptyString ∨ fq_Ts r = EmptyString) then mret (FedErr ErrHeaders) else
  match ParseInt (fq_Ts r) with
  | None => mret (FedErr ErrHeaders)
  | Some ts =>
      match fq_Body r with
      | None => mret (FedErr ErrTransport)
      | Some body =>
          if maxFederationRequestBytes <? Z.of_nat (slen body) then mret (FedErr ErrBodyTooLarge) else
          p ← tried (GetPeerByName (fq_Workspace r) (fq_Peer r));
          match p with
          | Err _ => mret (FedErr ErrPeerUnknown)
          | Ok p =>
              now ← time_now;
              mret (match VerifyRequest hmac now (peer_Secret p) (fq_Method r) (fq_Path r) ts body (fq_Sig r) with
                    | FedOk _ => FedOk body
                    | FedErr e => FedErr e
                    end)
          end
      end
  end.

(** One answer for every failure. *)
Definition writeFederationAuthError {A} : M (Reply A) := mret (reply_error 401 "UNAUTHENTICATED").

Definition Handler_FederateEcho (r : FedRequest) : M (Reply Z) :=
  v ← validateFederationRequest r;
  match v with
  | FedErr _ => writeFederationAuthError
  | FedOk _ => now ← time_now; write_status 200 now
  end.

Definition local_run (r : Run) : searchResultItem :=
  mkSearchResultItem "run" (run_ID r) "" (run_Name r) "" ""
    (experiment_url (run_ExperimentID r) +:+ "/runs/" +:+ run_ID r) "" "".
Definition local_experiment (e : Experiment) : searchResultItem :=
  mkSearchResultItem "experiment" (FormatInt (exp_ID e)) "" (exp_Name e) "" "" (experiment_url (exp_ID e)) "" "".
Definition local_prompt (p : Prompt) : searchResultItem :=
  mkSearchResultItem "prompt" (prompt_Name p) "" (prompt_Name p) "" "" ("#/prompts/" +:+ prompt_Name p) "" "".

(** [escapeLikeBangSafe] *)
Definition escapeLikeBangSafe (q : string) : string := escape_quotes q.

(** Whether results of a kind are asked for. *)
Definition wants (kind k : string) : bool := bool_decide (kind ∈ [EmptyString; "all"; k]%string).

(** The first [max] prompts whose names contain the query. *)
Definition matched_prompts (ql : string) (max : Z) (l : list Prompt) : list Prompt :=
  take (Z.to_nat max) (filter (λ p, ql = EmptyString ∨ Contains (ToLower (prompt_Name p)) ql = true) l).

Definition runLocalSearch (ws q kind : string) (max : Z) : M (list searchResultItem) :=
  let max := if max <=? 0 then 10 else max in
  runs ← (if wants kind "runs" then items_of (SearchRunsByName like ws q max) local_run else mret []);
  exps ← (if wants kind "experiments" then
            items_of (res ← SearchExperiments like
                        (mkSearchOptions [] "" ("name LIKE '%" +:+ escapeLikeBangSafe q +:+ "%'") [] max NoToken ws);
                      mret res.1) local_experiment
          else mret []);
  prompts ← (if wants kind "prompts" then
               items_of (l ← ListPrompts ws; mret (matched_prompts (ToLower q) max l)) local_prompt
             else mret []);
  mret (runs ++ exps ++ prompts).

(** [json] decodes the body of the search. *)
Definition Handler_FederateSearch (json : string → option federateSearchReq) (ourName : string) (r : FedRequest) :
    M (Reply (string * list searchResultItem)) :=
  v ← validateFederationRequest r;
  match v with
  | FedErr _ => writeFederationAuthError
  | FedOk body =>
      with_body (json body) (λ req,
        need (nonempty (fs_Q req)) (
          let max := if fs_Max req <=? 0 then 10 else fs_Max req in
          results ← runLocalSearch (fq_Workspace r) (fs_Q req) (fs_Kind req) max;
          write_status 200 (ourName, results)))
  end.
End called.

(** ** The check of a request *)

Section check.
Context `{Clock} (hmac : list Z → string → list Z).

(** The peer the request claims to be from. *)
Definition claimed_peer (d : DB) (r : FedRequest) : option Peer :=
  (λ '(id, row), scanPeer id row) <$> head (peers_named d (default_ws (fq_Workspace r)) (fq_Peer r)).

(** The request carries the signature, at time [ts], of the peer it claims to be
    from. *)
Definition signed_at (d : DB) (r : FedRequest) (body : string) (ts : Z) : Prop :=
  fq_Peer r ≠ EmptyString ∧ fq_Body r = Some body ∧ Z.of_nat (slen body) ≤ maxFederationRequestBytes ∧
  ParseInt (fq_Ts r) = Some ts ∧
  ∃ p secret, claimed_peer d r = Some p ∧ DecodeString (peer_Secret p) = Some secret ∧ length secret = 32%nat ∧
    fq_Sig r = "sha256=" +:+ EncodeToString (hmac secret (canonical (fq_Method r) (fq_Path r) ts body)).

(** ... at most five minutes from the clock. *)
Definition authentic (d : DB) (now : Z) (r : FedRequest) (body : string) : Prop :=
  ∃ ts, signed_at d r body ts ∧ Z.abs (now - ts) ≤ DefaultClockSkewMS.

(** The one time stamp whose distance from the clock does not fit: [abs64]
    leaves it negative. *)
Definition overflowing (now : Z) : Z := now - 2 ^ 63.

Lemma ParseInt_range s z : ParseInt s = Some z → in_int64 z.
Proof.
  unfold ParseInt. destruct (match s with EmptyString => _ | String _ _ => _ end) as [x|]; [|done]. case_decide; [|done]. by intros [= <-].
Qed.

Lemma claimed_lookup d r w :
  w_db w = d → GetPeerByName (fq_Workspace r) (fq_Peer r) w = (of_option ErrNotFound (claimed_peer d r), w).
Proof. intros <-. unfold GetPeerByName. rewrite get_bind. reflexivity. Qed.

(** The check accepts the authentic requests and those whose time stamp
    overflows, and writes nothing. *)
Lemma validate_spec r w :
  server_time (clock (w_tick w)) →
  ∃ v w', validateFederationRequest hmac r w = (Ok v, w') ∧ w_db w' = w_db w ∧
    ∀ body, v = FedOk body ↔ authentic (w_db w) (clock (w_tick w)) r body ∨
                            signed_at (w_db w) r body (overflowing (clock (w_tick w))).
Proof.
  intros Hnow.
  set (accepted := λ body, authentic (w_db w) (clock (w_tick w)) r body ∨ signed_at (w_db w) r body (overflowing (clock (w_tick w)))).
  change (∃ v w', validateFederationRequest hmac r w = (Ok v, w') ∧ w_db w' = w_db w ∧ ∀ body, v = FedOk body ↔ accepted body).
  unfold validateFederationRequest.
  assert (∀ body, accepted body → ∃ ts, signed_at (w_db w) r body ts) as Hsig by (intros body [(ts & ? & _)|?]; by eexists).
  assert (∀ e, (∀ body ts, ¬ signed_at (w_db w) r body ts) →
    ∃ v w', (mret (FedErr e) : M (fed_result string)) w = (Ok v, w') ∧ w_db w' = w_db w ∧
      ∀ body, v = FedOk body ↔ accepted body) as Hno.
  { intros e Hn. eexists _, w. split_and!; [done|done|]. intros body. split; [done|]. by intros (ts & ?%Hn)%Hsig. }
  destruct (decide _) as [Hh|Hh].
  { apply Hno. intros body ts (Hp & _ & _ & Ht & p & s & _ & _ & _ & Hs). destruct Hh as [?|[E|E]]; [done| |].
    - rewrite E in Hs. discriminate Hs.
    - by rewrite E in Ht. }
  destruct (ParseInt (fq_Ts r)) as [ts|] eqn:Hts; [|apply Hno; intros body ts (_ & _ & _ & E & _); congruence].
  destruct (fq_Body r) as [body|] eqn:Hb; [|apply Hno; intros body ts' (_ & E & _); congruence].
  destruct (Z.ltb_spec maxFederationRequestBytes (Z.of_nat (slen body))) as [Hl|Hl].
  { apply Hno. intros body' ts' (_ & E & Hlen & _). rewrite Hb in E. injection E as <-. lia. }
  assert (tried (GetPeerByName (fq_Workspace r) (fq_Peer r)) w = (Ok (of_option ErrNotFound (claimed_peer (w_db w) r)), w)) as Ep.
  { unfold tried. by rewrite (claimed_lookup (w_db w)). }
  rewrite (bind_Ok _ _ _ _ _ Ep). destruct (claimed_peer (w_db w) r) as [p|] eqn:Hp; cbn [of_option].
  2:{ apply Hno. intros body' ts' (_ & _ & _ & _ & p & s & E & _). congruence. }
  rewrite now_bind. eexists _, _. split_and!; [done|done|]. intros body'.
  pose proof (VerifyRequest_spec hmac (clock (w_tick w)) (peer_Secret p) (fq_Method r) (fq_Path r) ts body (fq_Sig r)
    Hnow (ParseInt_range _ _ Hts)) as Hv.
  destruct (VerifyRequest _ _ _ _ _ _ _ _) as [[]|e] eqn:Ev.
  - destruct Hv as [Hv _]. destruct (Hv eq_refl) as (s & H1 & H2 & H3 & H4). split.
    + intros [= <-]. assert (signed_at (w_db w) r body ts) as Hs by (split_and!; [tauto|done|done|done|]; by exists p, s).
      destruct H3 as [H3| ->]; [left; by exists ts|by right].
    + intros (ts' & _ & E & _)%Hsig. congruence.
  - split; [done|]. intros Hacc. destruct (Hsig _ Hacc) as (ts' & _ & E & _ & E2 & p' & s & E1 & H1 & H2 & H4).
    rewrite Hb in E. rewrite Hp in E1. rewrite Hts in E2. injection E as <-. injection E1 as <-. injection E2 as <-.
    destruct Hv as [_ Hv]. discriminate Hv. exists s. split_and!; [done|done| |done].
    destruct Hacc as [(ts' & (_ & _ & _ & E & _) & Hf)|(_ & _ & _ & E & _)]; rewrite Hts in E; injection E as ->; [by left|by right].
Qed.
End check.

(** ** The called side shows the workspace of the peer *)

Section search.
Context `{Clock} (hmac : list Z → string → list Z) (like : string → string → bool).

Lemma runLocalSearch_yields ws d q kind max :
  ws ≠ EmptyString → yields d (runLocalSearch like ws q kind max) (Forall (item_visible ws d)).
Proof.
  intros Hws. unfold runLocalSearch. cbv zeta. apply (yields_bind d _ _ (Forall (item_visible ws d))).
  { destruct (wants _ _); [|by apply yields_ret]. eapply items_of_yields; [by apply SearchRunsByName_reads|]. intros r Hr. by left. }
  intros runs Hr. apply (yields_bind d _ _ (Forall (item_visible ws d))).
  { destruct (wants _ _); [|by apply yields_ret]. apply (items_of_yields _ d _ _ (λ e, experiment_visible ws d (experimentToDTO e))).
    - eapply reads_bind; [by apply SearchExperiments_reads|]. intros res Hres. by apply reads_ret.
    - intros e He. apply experiment_item_visible in He as [[? _]|[He|[? _]]]; [done|right; left; exact He|done]. }
  intros exps He. apply (yields_bind d _ _ (Forall (item_visible ws d))).
  { destruct (wants _ _); [|by apply yields_ret]. apply (items_of_yields _ d _ _ (prompt_of ws d)).
    - eapply reads_bind; [by apply ListPrompts_reads|]. intros l Hl. apply reads_ret. unfold matched_prompts.
      apply Forall_take, Forall_forall. intros p [_ Hp]%list_elem_of_filter. by rewrite Forall_forall in Hl; auto.
    - intros p (row & Hrow & _). right. right. split; [done|]. by exists (prompt_Version p), row. }
  intros prompts Hp. apply yields_ret. by rewrite !Forall_app.
Qed.

(** C18: a federated search answers only to peers, and only about their
    workspace.  The search endpoint needs no login; it always replies and
    changes nothing; every request that does not carry a signature of the peer
    it claims to be from, registered in the workspace of the request, made at
    most five minutes from the clock, gets the same 401, whatever the reason
    (one time stamp apart: the distance of the one 2^63 ms before the clock
    overflows, and a signature made for it is accepted); no request with such a
    signature is answered 401; and the results it returns are runs, experiments
    and prompts of that workspace. *)
Theorem federated_search_authenticated json ourName r w :
  server_time (clock (w_tick w)) → fq_Workspace r ≠ EmptyString →
  ∃ rep w', Handler_FederateSearch hmac like json ourName r w = (Ok rep, w') ∧ w_db w' = w_db w ∧
    (rep = reply_error 401 "UNAUTHENTICATED" ∨ (∃ body, authentic hmac (w_db w) (clock (w_tick w)) r body) ∨
     ∃ body, signed_at hmac (w_db w) r body (overflowing (clock (w_tick w)))) ∧
    (∀ body, authentic hmac (w_db w) (clock (w_tick w)) r body → rp_Status rep ≠ 401) ∧
    ∀ s, rp_Body rep = Some s → Forall (item_visible (fq_Workspace r) (w_db w)) s.2.
Proof.
  intros Hnow Hws. destruct (validate_spec hmac r w Hnow) as (v & w1 & Ev & Hw1 & Hv). unfold Handler_FederateSearch.
  rewrite (bind_Ok _ _ _ _ _ Ev). destruct v as [body|e].
  2:{ eexists _, w1. split_and!; [done|done|by left| |done]. intros body Hb. by discriminate (proj2 (Hv body) (or_introl Hb)). }
  assert (∀ (P : Prop), P ∨ (∃ body, authentic hmac (w_db w) (clock (w_tick w)) r body) ∨
     ∃ body, signed_at hmac (w_db w) r body (overflowing (clock (w_tick w)))) as Hauth.
  { intros P. right. destruct (proj1 (Hv body) eq_refl); [left|right]; by exists body. }
  destruct (json body) as [req|]; cbn [with_body].
  2:{ eexists _, w1. split_and!; [done|done|apply Hauth|done|done]. }
  unfold need. destruct (nonempty (fs_Q req)).
  2:{ eexists _, w1. split_and!; [done|done|apply Hauth|done|done]. }
  destruct (runLocalSearch_yields (fq_Workspace r) (w_db w) (fs_Q req) (fs_Kind req)
    (if fs_Max req <=? 0 then 10 else fs_Max req) Hws w1 Hw1) as (items & w2 & Es & Hw2 & Hi).
  rewrite (bind_Ok _ _ _ _ _ Es). eexists _, w2. split_and!; [done|done|apply Hauth|done|].
  cbn. intros s [= <-]. done.
Qed.
End search.

(** ** A signed request is accepted *)

Definition header_of (q : SignedRequest) (name : string) : string :=
  match list_find (λ p, p.1 = name) (sq_Header q) with Some (_, p) => p.2 | None => EmptyString end.

(** The request as it arrives, in a workspace and with its path. *)
Definition arrives (ws path : string) (q : SignedRequest) : FedRequest :=
  mkFedRequest ws (header_of q HeaderPeer) (header_of q HeaderSignature) (header_of q HeaderTimestamp)
    (sq_Method q) path (Some (sq_Body q)).

(** What a peer signs is accepted.  A request made with the client of a
    peer whose name is registered at the receiver with the same secret passes
    the check of the receiver, and its body reaches the handler, when it is not
    older than five minutes nor larger than 1 MiB. *)
Theorem federation_roundtrip `{Clock} hmac c ts method path body q ws p url w :
  server_time (clock (w_tick w)) → in_int64 ts →
  NewClient url (cl_ourName c) (peer_Secret p) = FedOk c → cl_ourName c ≠ EmptyString →
  signed_request hmac c ts method path body = Some q →
  claimed_peer (w_db w) (arrives ws path q) = Some p →
  Z.abs (clock (w_tick w) - ts) ≤ DefaultClockSkewMS → Z.of_nat (slen body) ≤ maxFederationRequestBytes →
  ∃ w', validateFederationRequest hmac (arrives ws path q) w = (Ok (FedOk body), w') ∧ w_db w' = w_db w.
Proof.
  intros Hnow Hts Hc Hname Hq Hp Hfresh Hlen.
  destruct (validate_spec hmac (arrives ws path q) w Hnow) as (v & w' & Ev & Hw' & Hv). exists w'. split; [|done]. rewrite Ev.
  do 2 f_equal. apply Hv. unfold signed_request in Hq. destruct (HasPrefix path "/"); [|done]. injection Hq as <-.
  unfold NewClient, decode_secret in Hc. destruct (DecodeString (peer_Secret p)) as [s|] eqn:Hs; [|done]. cbn in Hc.
  case_decide as Hl; [|done]. injection Hc as Hc. left. exists ts. split; [|done].
  split_and!; [exact Hname|done|done|by apply ParseInt_FormatInt|].
  exists p, s. split_and!; [exact Hp|done|done|].
  rewrite <- Hc. reflexivity.
Qed.

(** ** The fan-out *)

Section fanout.
Context (hmac : list Z → string → list Z) (cached : Peer → option string) (transport : SignedRequest → option (Z * string))
  (decode : string → option (string * list searchResultItem)).

Lemma connected_peers_exec ws w :
  ∃ l, connected_peers ws w = (Ok l, w) ∧
    Forall (λ p, peer_WorkspaceID p = default_ws ws ∧ peer_Status p = "connected"%string) l.
Proof.
  unfold connected_peers, ListPeers. rewrite bind_bind, get_bind. eexists. split; [reflexivity|].
  apply Forall_forall. intros p [Hc Hp]%list_elem_of_filter. split; [|done].
  apply elem_of_sort_by, list_elem_of_fmap in Hp as ([id r] & -> & Hr). by apply list_elem_of_filter in Hr as [Hr _].
Qed.

(** Merging the replies, peer by peer. *)
Lemma merge_replies_each (answer : Peer → option (string * list searchResultItem)) l :
  merge_replies (answer <$> l) =
  (l ≫= λ p, match answer p with Some (name, items) => with_instance name <$> items | None => [] end,
   omap (λ p, fst <$> answer p) l, existsb (λ p, bool_decide (answer p = None)) l).
Proof.
  unfold merge_replies. induction l as [|p l IH]; [done|]. injection IH as E1 E2 E3.
  rewrite fmap_cons, !bind_cons. cbn [omap list_omap existsb id]. rewrite E3. unfold id at 1 3. destruct (answer p) as [[name items]|]; cbn.
  - f_equal. f_equal; f_equal; [exact E1|exact E2].
  - f_equal. f_equal; [exact E1|exact E2].
Qed.

(** A federated search merges what its peers answered.  Only the connected
    peers of the workspace are asked.  Whatever the order in which the replies
    arrive, each result of each peer that answered is in the merged list once,
    under the name of the instance that answered, and the response is marked
    partial exactly when some peer did not answer. *)
Theorem federatedFanOut_spec ourName ts arrival body ws w :
  (∀ l, arrival l ≡ₚ l) →
  ∃ peers merged instances partial,
    federatedFanOut hmac cached transport decode ourName ts arrival body ws w = (Ok (merged, instances, partial), w) ∧
    Forall (λ p, peer_WorkspaceID p = default_ws ws ∧ peer_Status p = "connected"%string) peers ∧
    let answer p := (ask_peer hmac cached transport decode ourName ts body p).1 in
    merged ≡ₚ (peers ≫= λ p, match answer p with Some (name, l) => with_instance name <$> l | None => [] end) ∧
    instances ≡ₚ omap (λ p, fst <$> answer p) peers ∧
    (partial = true ↔ ∃ p, p ∈ peers ∧ answer p = None).
Proof.
  intros Harr. destruct (connected_peers_exec ws w) as (l & E & Hl). unfold federatedFanOut.
  assert (tried (connected_peers ws) w = (Ok (Ok l), w)) as Et by (unfold tried; by rewrite E).
  rewrite (bind_Ok _ _ _ _ _ Et). set (answer := λ p, (ask_peer hmac cached transport decode ourName ts body p).1).
  change (λ p, (ask_peer hmac cached transport decode ourName ts body p).1) with answer. rewrite merge_replies_each.
  exists l, (arrival l ≫= λ p, match answer p with Some (name, l) => with_instance name <$> l | None => [] end),
    (omap (λ p, fst <$> answer p) (arrival l)), (existsb (λ p, bool_decide (answer p = None)) (arrival l)).
  split_and!; [done|done|by rewrite Harr|by rewrite Harr|].
  rewrite existsb_exists. split.
  - intros (p & Hp%list_elem_of_In & Hn%bool_decide_eq_true). exists p. by rewrite <- (Harr l).
  - intros (p & Hp & Hn). exists p. split; [|by apply bool_decide_eq_true]. apply list_elem_of_In. by rewrite (Harr l).
Qed.
End fanout.

(** The client names itself, the time and the signature, and nothing else: no
    header selects a workspace at the receiver. *)
Theorem client_names_no_workspace hmac c ts method path body q :
  signed_request hmac c ts method path body = Some q →
  (sq_Header q).*1 = ["Content-Type"; HeaderPeer; HeaderTimestamp; HeaderSignature]%string.
Proof. unfold signed_request. destruct (HasPrefix path "/"); [|done]. by intros [= <-]. Qed.

(** ** An example: two instances that share a secret *)

Module Example6.
Definition secret : string := "000102030405060708090a0b0c0d0e0f101112131415161718191a1b1c1d1e1f".
Definition mac (key : list Z) (msg : string) : list Z := [Z.of_nat (slen msg) mod 256; Z.of_nat (length key)].

(** The peer "b" is registered in "default". *)
Definition peer_row : PeerRow := mkPeerRow "b" "https://b.example" secret "default" 1 None "connected" None.
Definition fed_db : DB := set_peers (serial_insert peer_row serial_empty).2 ex_db.
Definition fed_w : World := mkWorld fed_db 0.
Definition the_peer : Peer := scanPeer 1 peer_row.

Definition client : Client := mkClient "https://a.example" "b" (default [] (DecodeString secret)).
Definition search_path : string := "/api/v1/federate/search".
Definition sent : SignedRequest :=
  default (mkSignedRequest "" "" [] "") (signed_request mac client 1000 "POST" search_path "hello").

Lemma VerifyRequest_spec_witness :
  VerifyRequest mac 1000 secret "POST" search_path 1000 "hello" (signRequest mac (default [] (DecodeString secret)) "POST" search_path 1000 "hello") =
  FedOk tt.
Proof.
  apply (VerifyRequest_spec mac 1000 secret "POST" search_path 1000 "hello"); [split; reflexivity || discriminate|split; discriminate|].
  exists (default [] (DecodeString secret)). split; [reflexivity|]. split; [reflexivity|]. split; [left; discriminate|reflexivity].
Defined.

Lemma federation_roundtrip_witness :
  ∃ w', validateFederationRequest mac (arrives "default" search_path sent) fed_w = (Ok (FedOk "hello"%string), w') ∧ w_db w' = w_db fed_w.
Proof.
  apply (federation_roundtrip mac client 1000 "POST" search_path "hello" sent "default" the_peer "https://a.example/").
  - split; reflexivity || discriminate.
  - split; discriminate.
  - vm_compute. reflexivity.
  - discriminate.
  - vm_compute. reflexivity.
  - vm_compute. reflexivity.
  - vm_compute. discriminate.
  - vm_compute. discriminate.
Defined.

Lemma federated_search_authenticated_witness :
  ∃ rep w', Handler_FederateSearch mac (λ _ _, true) (λ _, Some (mkFederateSearchReq "f" "" 0)) "a" (arrives "default" search_path sent) fed_w =
    (Ok rep, w') ∧ w_db w' = fed_db ∧ ∀ s, rp_Body rep = Some s → Forall (item_visible "default" fed_db) s.2.
Proof.
  destruct (federated_search_authenticated mac (λ _ _, true) (λ _, Some (mkFederateSearchReq "f" "" 0)) "a"
    (arrives "default" search_path sent) fed_w) as (rep & w' & E & Hw & _ & _ & Hs).
  - split; reflexivity || discriminate.
  - discriminate.
  - exists rep, w'. split; [exact E|]. split; [exact Hw|exact Hs].
Defined.

(** What is found, and the answer to a forged request. *)
Definition ask (r : FedRequest) : Z * list (string * string) :=
  match (Handler_FederateSearch mac (λ _ _, true) (λ _, Some (mkFederateSearchReq "f" "" 0)) "a" r fed_w).1 with
  | Ok (mkReply status _ (Some s) _) => (status, (λ i, (si_Kind i, si_ID i)) <$> s.2)
  | Ok (mkReply status _ None _) => (status, [])
  | Err _ => (0, [])
  end.

Lemma search_replies :
  ask (arrives "default" search_path sent) = (200, [("run", "r1"); ("experiment", "1")]%string) ∧
  ask (arrives "team" search_path sent) = (401, []) ∧
  ask (mkFedRequest "default" "b" "sha256=00" "1000" "POST" search_path (Some "hello"%string)) = (401, []).
Proof. vm_compute. done. Qed.

(** A request signed for the time stamp 2^63 ms before the clock, 292 million
    years ago, is accepted. *)
Definition ancient : SignedRequest :=
  default (mkSignedRequest "" "" [] "") (signed_request mac client (overflowing (clock 0)) "POST" search_path "hello").

Theorem ancient_request_accepted : (ask (arrives "default" search_path ancient)).1 = 200.
Proof. vm_compute. reflexivity. Qed.

Definition reply_items : list searchResultItem := [mkSearchResultItem "run" "r7" "" "seven" "" "" "" "" ""].
Definition answers_seven (q : SignedRequest) : option (Z * string) := Some (200, "json"%string).
Definition decode_seven (s : string) : option (string * list searchResultItem) := Some ("b"%string, reply_items).

Lemma federatedFanOut_spec_witness :
  ∃ peers merged instances partial,
    federatedFanOut mac (λ _, None) answers_seven decode_seven "a" 1000 reverse "body" "default" fed_w = (Ok (merged, instances, partial), fed_w) ∧
    Forall (λ p, peer_WorkspaceID p = "default"%string ∧ peer_Status p = "connected"%string) peers.
Proof.
  destruct (federatedFanOut_spec mac (λ _, None) answers_seven decode_seven "a" 1000 reverse "body" "default" fed_w)
    as (peers & merged & instances & partial & E & Hp & _); [intros l; apply reverse_Permutation|].
  exists peers, merged, instances, partial. split; [exact E|exact Hp].
Defined.

Lemma fan_out_items :
  (federatedFanOut mac (λ _, None) answers_seven decode_seven "a" 1000 reverse "body" "default" fed_w).1 =
  Ok (with_instance "b" <$> reply_items, ["b"%string], false).
Proof. vm_compute. reflexivity. Qed.

(** ** Where the code falls short *)

(** The distance of 2^63 overflows: this timestamp is 292 million years old. *)
Theorem overflowing_timestamp_accepted :
  let ts := 1000 - 2 ^ 63 in
  VerifyRequest mac 1000 secret "POST" search_path ts "hello"
    (signRequest mac (default [] (DecodeString secret)) "POST" search_path ts "hello") = FedOk tt.
Proof. vm_compute. reflexivity. Qed.

(** [AddPeer] checks the length of a given secret, not its digits: the peer is
    stored and can never be reached. *)
Definition bad_secret : string := "zzzzzzzzzzzzzzzzzzzzzzzzzzzzzzzzzzzzzzzzzzzzzzzzzzzzzzzzzzzzzzzz".

Theorem unusable_secret_stored :
  match (Handler_AddPeer (λ _, true) "" "default" (Some (mkAddPeerReq "c" "https://c.example" bad_secret)) fed_w).1 with
  | Ok rep => rp_Status rep
  | Err _ => 0
  end = 200 ∧ NewClient "https://c.example" "a" bad_secret = FedErr ErrSecretFormat.
Proof. vm_compute. done. Qed.
End Example6.
