(* ===== verification/Tenants.v ===== *)
(** * Isolation of workspaces

    The three parts of the REST API together: calls of the MLflow tracking API,
    of the model registry and of the native API, served one after the other,
    each in the workspace it selected. *)

From S2P Require Import Prelude GoStrings Model Database Keyset Filter Events Runs Sample RunData Experiments Registry.
From S2P Require Import RegistryLaws Prompts Workspaces Integrations Datasets Inputs Search TimeTravel MlflowApi ApiLogic.
From S2P Require Import EchoLog Federation RegistryApi Isolation Ownership NativeApi NativeLaws.

Open Scope Z_scope.

Inductive ApiCall :=
  | Tracking (c : Call)
  | Registering (c : RegCall)
  | Native (c : NativeCall).

(** The workspace a call administers, besides the one it runs in. *)
Definition call_target (c : ApiCall) : option string := match c with Native c => admin_target c | _ => None end.

Section isolation.
Context `{Clock} (X : Externals) (ParseFloat : string → option float64)
  (eval : DB → clause → string → RunRow → bool) (writeV03 : bool).

(** The reply of a call: status and error code. *)
Definition answer {A} (m : M (Reply A)) : M (Z * string) := rep ← m; mret (rp_Status rep, rp_Code rep).

Definition call_handler (ws : string) (c : ApiCall) : M (Z * string) :=
  match c with
  | Tracking c => answer (handle (x_like X) ParseFloat eval writeV03 ws c)
  | Registering c => answer (registry_handle (x_like X) ws c)
  | Native c => answer (native_handle X ws c)
  end.

Definition serve_call (w : World) (p : string * ApiCall) : World := (call_handler p.1 p.2 w).2.
Definition serve_all (l : list (string * ApiCall)) (w : World) : World := foldl serve_call w l.

Lemma answer_exec {A} (m : M (Reply A)) w rep w' : m w = (Ok rep, w') → answer m w = (Ok (rp_Status rep, rp_Code rep), w').
Proof. intros E. unfold answer. by rewrite (bind_Ok _ _ _ _ _ E). Qed.

(** One call: it replies, and keeps what [v] owns. *)
Lemma call_isolated v ws c w :
  ws ≠ v → ws ≠ EmptyString → call_target c ≠ Some v → api_wf (w_db w) →
  ∃ r w', call_handler ws c w = (Ok r, w') ∧ api_wf (w_db w') ∧ owned v (w_db w') = owned v (w_db w).
Proof.
  intros Hne Hws Ht Hwf. destruct c as [c|c|c]; cbn [call_handler].
  - destruct (handle_answers ws v (tenant_view v (w_db w)) Hne Hws (x_like X) ParseFloat eval writeV03 c w)
      as (rep & w' & E & [Hs' Hv] & _); [destruct Hwf; by split|]. rewrite (answer_exec _ _ _ _ E).
    eexists _, w'. split_and!; [done|by apply (api_wf_tracking v (w_db w))|by apply owned_tracking].
  - destruct Hwf as [Hs Hr Hi Hn].
    destruct (registry_answers ws v (w_db w) Hne Hws (x_like X) c w) as (rep & w' & E & [Hr' [Ho Hv _]] & _).
    { split; [done|]. by split. }
    rewrite (answer_exec _ _ _ _ E). eexists _, w'.
    split_and!; [done|by apply (api_wf_registering (w_db w))|by apply owned_registering].
  - destruct (native_answers ws v (owned v (w_db w)) Hne Hws X c Ht w) as (rep & w' & E & [Hw' Hv] & _); [by split|].
    rewrite (answer_exec _ _ _ _ E). by eexists _, w'.
Qed.

(** C4: workspaces do not change each other.  Whatever calls of the REST API
    (tracking, registry, native) are served in other workspaces, in whatever
    order and whether they succeed or fail, everything [v] owns is what it was,
    row by row: the workspace and its members, dashboards, webhooks and peers,
    its experiments, their runs, tags, parameters, metrics, events, notes,
    evaluations and attached spans, its dataset versions with their lineage,
    inputs and links, its models with versions, tags and aliases, and its
    prompts.  Only the calls that administer [v] by name (create, update or
    delete it, change its members) are excepted. *)
Theorem tenant_isolation v l w :
  api_wf (w_db w) → Forall (λ p, p.1 ≠ v ∧ p.1 ≠ EmptyString ∧ call_target p.2 ≠ Some v) l →
  api_wf (w_db (serve_all l w)) ∧ owned v (w_db (serve_all l w)) = owned v (w_db w).
Proof.
  intros Hw Hl. revert w Hw. induction Hl as [|[ws c] l (Hne & Hws & Ht) _ IH]; intros w Hw; [done|].
  destruct (call_isolated v ws c w Hne Hws Ht Hw) as (r & w' & E & Hw' & Hv). destruct (IH _ Hw') as [H1 H2].
  assert (serve_call w (ws, c) = w') as Hc by (unfold serve_call; cbn [fst snd]; by rewrite E).
  unfold serve_all in *. cbn [foldl]. rewrite Hc. split; [done|]. by rewrite H2.
Qed.

End isolation.


(** ** An example: "team" and "default" *)

Module Example3.
Import Isolation.Example1.

(** Peers that answer every search with one run. *)
Definition fed : FederationEnv :=
  mkFederationEnv "here" (λ _ _, []) (λ _ _, None) (λ _, Some (200, "found"%string))
    (λ _, Some ("there"%string, [mkSearchResultItem "run" "r9" "" "" "" "" "" "" ""])) (λ q _ _, q) 1000 id.

(** The echo log, with a delivery of the webhook 7. *)
Definition log : EchoLog := EchoLog_Record 5 (mkEchoEntry 0 "run_finished" 7 "{}" "r1") (NewEchoLog 10).

(** Externals that accept every URL and know one content. *)
Definition ext : Externals :=
  mkExternals (λ s, s) (λ _ _, true) (λ _, None) (λ _, true) (λ _, true) (λ _ _, Some 200) (λ _, Replied 200)
    (Some (λ h, if decide (h = "h"%string) then Some "bytes"%string else None)) fed (Some log).

Definition no_query : Query := λ _, EmptyString.
Definition seg (s : string) : Segment := mkSegment "" s.

(** Writes of "team", some of them aimed at "default". *)
Definition native_attempts : list NativeCall :=
  [NSetRunNote "eve" "r1" (Some "defaced"); NSetRunNote "eve" "r2" (Some "mine");
   NCreateEval (Some (mkCreateEvalReq "r1" [] "" None None));
   NIngestTraces "t" (λ _, "s"%string)
     (Some (mkIngestTracesReq "" [mkSpanDTO "" "" "" "r1" "x" "" 1 None None None "" ""]));
   NCreatePrompt (Some (mkCreatePromptReq "p" "hello" "" ""));
   NCreateWebhook (Some (mkCreateWebhookReq "w" "http://example.org" "run_finished" None "key" None));
   NSaveDashboard "p" (Some "[]");
   NCloneExperiment "1" "copy"; NCloneExperiment "2" "copy";
   NCreateDatasetVersion "eve" (seg "d") (Some (mkUploadForm "" None (Some (Some ("h", 5)))));
   NAddMember "team" "eve" (Some "admin"); NDeleteWorkspace "team"]%string.

Definition all_attempts : list (string * ApiCall) :=
  (prod_map id Tracking <$> attempts) ++
  [("team", Registering (RCreateRegisteredModel (Some (mkCreateRegisteredModelReq "m" [] ""))));
   ("team", Registering (RCreateModelVersion (Some (mkCreateVersionReq "m" "s3://x" "r1" [] ""))))]%string ++
  (pair "team"%string <$> (Native <$> native_attempts)).

Definition team_serves : World → World := serve_all ext no_float no_filter false all_attempts.

Lemma two_wf : api_wf two_db.
Proof.
  split; [apply two_serials|apply two_registry|split; apply serial_wf_empty|]. split.
  - vm_compute. by eexists.
  - intros id [r Hr]. cbn in Hr. apply lookup_insert_Some in Hr as [[<- _]|[_ Hr]]; [by vm_compute|].
    apply lookup_singleton_Some in Hr as [<- _]. by vm_compute.
  - intros ws u r. cbn. by rewrite lookup_empty.
Qed.

Lemma tenant_isolation_witness :
  owned "default" (w_db (team_serves two_w)) = owned "default" two_db.
Proof.
  apply (tenant_isolation ext no_float no_filter false "default" all_attempts two_w); [apply two_wf|].
  repeat constructor; done.
Defined.

(** The replies: everything aimed at "default" is a 404, and "team" cannot be
    deleted while it owns data. *)
Fixpoint statuses_of (l : list (string * ApiCall)) (w : World) : list Z :=
  match l with
  | [] => []
  | p :: l' => (match (call_handler ext no_float no_filter false p.1 p.2 w).1 with Ok r => r.1 | Err _ => 0 end) ::
               statuses_of l' (serve_call ext no_float no_filter false w p)
  end.

Lemma attempts_statuses :
  statuses_of all_attempts two_w =
    [200; 404; 404; 404; 404; 200; 404; 404; 200; 404; 404; 200; 200; 200; 404; 200; 200; 200; 409].
Proof. vm_compute. reflexivity. Qed.


(** The search of "team" finds its experiment and its run, not those of
    "default". *)
Lemma search_finds_team :
  match (native_handle ext "team" (NGlobalSearch no_query) two_w).1 with
  | Ok (mkReply 200 _ (Some (NItems r)) _) => (λ i, (si_Kind i, si_ID i)) <$> gs_Items r
  | _ => []
  end = [("experiment", "2"); ("run", "r2")]%string.
Proof. vm_compute. reflexivity. Qed.

(** Asked to be federated, it goes on with what the connected peer of "team"
    reports. *)
Definition team_peer : PeerRow := mkPeerRow "b" "https://b.example"
  "0000000000000000000000000000000000000000000000000000000000000000" "team" 1 None "connected" None.
Definition federated : Query := λ k, if decide (k = "federated"%string) then "1"%string else EmptyString.

Lemma search_asks_peers :
  match (native_handle ext "team" (NGlobalSearch federated) (mkWorld (set_peers (serial_insert team_peer serial_empty).2 two_db) 0)).1 with
  | Ok (mkReply 200 _ (Some (NItems r)) _) => ((λ i, (si_Kind i, si_ID i, si_Instance i)) <$> gs_Items r, gs_Partial r)
  | _ => ([], true)
  end = ([("experiment", "2", "here"); ("run", "r2", "here"); ("run", "r9", "there")]%string, false).
Proof. vm_compute. reflexivity. Qed.

(** ** Where the code falls short *)

(** The log of echo deliveries is one for the process: any workspace reads the
    payloads of the webhooks of the others. *)
Theorem echo_log_shared :
  rows (webhooks two_db) = ∅ ∧
  match (native_handle ext "team" (NListEchoDeliveries no_query) two_w).1 with
  | Ok (mkReply 200 _ (Some (NEchoes l)) _) => (λ e, (ee_WebhookID e, ee_Body e, ee_RunID e)) <$> l
  | _ => []
  end = [(7, "{}", "r1")]%string ∧
  run_owner two_db "r1" = Some "default"%string.
Proof. vm_compute. done. Qed.

Definition as_team (c : ApiCall) (w : World) : World := serve_call ext no_float no_filter false w ("team"%string, c).

(** A digest the client declares becomes the content hash of a dataset version
    of its workspace, and the content store is shared: who knows the hash of
    another workspace's upload can declare it and download the bytes. *)
Theorem content_by_declared_digest :
  let upload := Native (NCreateDatasetVersion "ann" (seg "secret") (Some (mkUploadForm "" None (Some (Some ("h", 5))))))%string in
  let w1 := serve_call ext no_float no_filter false two_w ("default"%string, upload) in
  let w2 := as_team (Tracking (CLogInputs (Some (mkLogInputsReq "r2" [ds "x"])))) w1 in
  match (native_handle ext "team" (NGetDatasetContent (seg "d") "1") w2).1 with
  | Ok (mkReply 200 _ (Some (NContent c)) _) => dl_Bytes c
  | _ => EmptyString
  end = "bytes"%string.
Proof. vm_compute. reflexivity. Qed.

(** The search doubles the apostrophes of the query, and the experiment filter
    does not undo it: the pattern has two where the name has one. *)
Theorem search_apostrophe_doubled :
  parseExperimentFilter (name_filter "it's") = Ok (NameLike, "%it''s%"%string).
Proof. vm_compute. reflexivity. Qed.
End Example3.
