(* ===== verification/Oidc.v ===== *)
(** * OpenID Connect (internal/auth/oidc.go)

    The relying party: discovery and key set with their caching, the
    authorization request, the exchange of a code and the verification of the
    ID token.  The identity provider, the network, SHA-256, RSA, JSON and the
    URL parser are parameters. *)

From S2P Require Import Prelude GoStrings Urls Model Float64 Database.
From Stdlib Require Import Ascii.

Open Scope Z_scope.

(** ** base64.RawURLEncoding *)

Definition b64_char (n : Z) : ascii :=
  ascii_of_N (Z.to_N (if n <? 26 then 65 + n else if n <? 52 then 71 + n else if n <? 62 then n - 4
                      else if n =? 62 then 45 else 95)).

Definition b64_value (c : ascii) : option Z :=
  let n := Z.of_N (byte_of c) in
  if byte_in 65 90 c then Some (n - 65) else if byte_in 97 122 c then Some (n - 71)
  else if byte_in 48 57 c then Some (n + 4) else if byte_is 45 c then Some 62
  else if byte_is 95 c then Some 63 else None.

Fixpoint b64_encode (b : list Z) : string :=
  match b with
  | [] => EmptyString
  | [x] => String (b64_char (x / 4)) (String (b64_char (x mod 4 * 16)) EmptyString)
  | [x; y] => String (b64_char (x / 4)) (String (b64_char (x mod 4 * 16 + y / 16)) (String (b64_char (y mod 16 * 4)) EmptyString))
  | x :: y :: z :: b' =>
      String (b64_char (x / 4)) (String (b64_char (x mod 4 * 16 + y / 16))
        (String (b64_char (y mod 16 * 4 + z / 64)) (String (b64_char (z mod 64)) (b64_encode b'))))
  end.

(** The decoder skips carriage returns and newlines. *)
Fixpoint strip_newlines (s : string) : string :=
  match s with
  | EmptyString => EmptyString
  | String c s' => if byte_is 10 c || byte_is 13 c then strip_newlines s' else String c (strip_newlines s')
  end.

Fixpoint b64_groups (s : string) : option (list Z) :=
  match s with
  | EmptyString => Some []
  | String a (String b EmptyString) =>
      a ← b64_value a; b ← b64_value b; Some [a * 4 + b / 16]
  | String a (String b (String c EmptyString)) =>
      a ← b64_value a; b ← b64_value b; c ← b64_value c; Some [a * 4 + b / 16; b mod 16 * 16 + c / 4]
  | String a (String b (String c (String d s'))) =>
      a ← b64_value a; b ← b64_value b; c ← b64_value c; d ← b64_value d; rest ← b64_groups s';
      Some (a * 4 + b / 16 :: b mod 16 * 16 + c / 4 :: c mod 4 * 64 + d :: rest)
  | _ => None
  end.

Definition b64_decode (s : string) : option (list Z) := b64_groups (strip_newlines s).

(** ** Data *)

Record oidcDiscovery := mkOidcDiscovery {
  od_Issuer : string; od_AuthorizationEndpoint : string; od_TokenEndpoint : string; od_JWKSURI : string }.

Record jwk := mkJwk { k_Kid : string; k_Kty : string; k_Alg : string; k_Use : string; k_N : string; k_E : string }.

Record tokenResponse := mkTokenResponse { tr_IDToken : string; tr_Error : string }.

(** [rsa.PublicKey] *)
Record PublicKey := mkPublicKey { pk_N : Z; pk_E : Z }.

(** The values of claims the code looks at. *)
Inductive claim := CStr (s : string) | CNum (f : float64) | CArr (l : list claim) | COther.
Definition Claims : Type := gmap string claim.

(** [claims[k].(string)], [""] for another type. *)
Definition claim_string (k : string) (c : Claims) : string :=
  match c !! k with Some (CStr s) => s | _ => EmptyString end.

(** Times in ms of the clock. *)
Record Provider := mkProvider {
  pv_issuer : string; pv_clientID : string; pv_clientSecret : string; pv_redirectURL : string; pv_scopes : list string;
  pv_discoveryDoc : option oidcDiscovery; pv_jwks : option (list jwk); pv_jwksFetchedAt : Z }.

Definition NewProvider (issuer clientID clientSecret redirectURL : string) (scopes : list string) : Provider :=
  mkProvider issuer clientID clientSecret redirectURL scopes None None 0.

Inductive oidc_error :=
  | ErrUnsupportedAlg | ErrInvalidToken | errNoMatchingKey | ErrNonceMismatch | ErrInsecureURL | ErrFetch | ErrToken | ErrKey.

Inductive oidc_result (A : Type) := OOk (a : A) | OErr (e : oidc_error).
Arguments OOk {A}.
Arguments OErr {A}.

(** The parts of [url.Parse] the code reads: scheme, host, host name, and
    whether there is user information. *)
Record URL := mkURL { u_Scheme : string; u_Host : string; u_Hostname : string; u_User : bool }.

Definition jwksRefreshMinInterval : Z := 60 * 1000.

(** ** Keys *)

(** [new(big.Int).SetBytes] *)
Definition SetBytes (b : list Z) : Z := foldl (λ n x, n * 256 + x) 0 b.

(** [binary.BigEndian.Uint32]: the first four bytes. *)
Definition Uint32 (b : list Z) : Z := SetBytes (take 4 b).

Definition rsaPublicKeyFromJWK (k : jwk) : oidc_result PublicKey :=
  match b64_decode (k_N k), b64_decode (k_E k) with
  | Some nBytes, Some eBytes =>
      let eBytes := if (length eBytes <? 4)%nat then replicate (4 - length eBytes) 0 ++ eBytes else eBytes in
      OOk (mkPublicKey (SetBytes nBytes) (Uint32 eBytes))
  | _, _ => OErr ErrKey
  end.

(** A key the loop of [resolveKey] does not skip. *)
Definition usable_key (kid : string) (k : jwk) : bool :=
  bool_decide (k_Kty k = "RSA"%string) &&
  bool_decide (k_Use k = EmptyString ∨ k_Use k = "sig"%string) &&
  bool_decide (k_Alg k = EmptyString ∨ k_Alg k = "RS256"%string) &&
  bool_decide (kid = EmptyString ∨ k_Kid k = kid).

Definition resolveKey (p : Provider) (kid : string) : oidc_result PublicKey :=
  match pv_jwks p with
  | None => OErr ErrKey
  | Some keys =>
      match head (filter (λ k, usable_key kid k = true) keys) with
      | Some k => rsaPublicKeyFromJWK k
      | None => OErr errNoMatchingKey
      end
  end.

(** ** Claims *)

(** [strings.EqualFold(s, t)] for an ASCII [t]: the letters, and the two
    characters outside ASCII that fold to a letter, the Kelvin sign and the
    long s. *)
Fixpoint fold_case (s : string) : string :=
  match s with
  | EmptyString => EmptyString
  | String a s1 =>
      match s1 with
      | String b s2 =>
          if byte_is 197 a && byte_is 191 b then String "s" (fold_case s2)
          else match s2 with
               | String c s3 => if byte_is 226 a && byte_is 132 b && byte_is 170 c then String "k" (fold_case s3)
                                else String (lower_byte a) (fold_case s1)
               | _ => String (lower_byte a) (fold_case s1)
               end
      | _ => String (lower_byte a) (fold_case s1)
      end
  end.

Definition EqualFold (s t : string) : bool := bool_decide (fold_case s = fold_case t).

(** [int64(v)] *)
Definition int64_of (v : float64) : Z :=
  match v with
  | FFin a => let z := Z.quot a unit64 in if decide (in_int64 z) then z else int64_min
  | _ => int64_min
  end.

(** [now] in seconds. *)
Definition validateClaims (now : Z) (p : Provider) (claims : Claims) : oidc_result unit :=
  let iss := claim_string "iss" claims in
  if negb (EqualFold iss (pv_issuer p)) && bool_decide (TrimRightSlash iss ≠ TrimRightSlash (pv_issuer p))
  then OErr ErrInvalidToken
  else if negb (match claims !! "aud"%string with
                | Some (CStr aud) => bool_decide (aud = pv_clientID p)
                | Some (CArr l) => existsb (λ a, match a with CStr s => bool_decide (s = pv_clientID p) | _ => false end) l
                | _ => false
                end) then OErr ErrInvalidToken
  else match claims !! "exp"%string with
       | Some (CNum v) => if int64_of v <? now then OErr ErrInvalidToken else OOk tt
       | _ => OErr ErrInvalidToken
       end.

(** ** Requests to the provider *)

Definition requireSecureURL (Parse : string → option URL) (raw : string) : bool :=
  if decide (raw = EmptyString) then false else
  match Parse raw with
  | None => false
  | Some u =>
      if decide (u_Host u = EmptyString ∨ u_User u = true) then false
      else if decide (u_Scheme u = "https"%string) then true
      else bool_decide (u_Scheme u = "http"%string) &&
           bool_decide (u_Hostname u ∈ ["127.0.0.1"; "localhost"; "::1"]%string)
  end.

Section provider.
(** The network: the discovery document and the key set at a URL, the token
    endpoint (its answer to a form, decoded). *)
Context (fetch_discovery : string → option oidcDiscovery) (fetchJWKS : string → option (list jwk))
  (post_token : string → list (string * string) → option tokenResponse).
(** The libraries. *)
Context (Parse : string → option URL) (sha256 : string → list Z)
  (VerifyPKCS1v15 : PublicKey → list Z → list Z → bool)
  (json_header : list Z → option (string * string)) (json_claims : list Z → option Claims).

Definition with_discovery (doc : oidcDiscovery) (keys : list jwk) (now : Z) (p : Provider) : Provider :=
  mkProvider (pv_issuer p) (pv_clientID p) (pv_clientSecret p) (pv_redirectURL p) (pv_scopes p) (Some doc) (Some keys) now.
Definition with_fetch (keys : option (list jwk)) (now : Z) (p : Provider) : Provider :=
  mkProvider (pv_issuer p) (pv_clientID p) (pv_clientSecret p) (pv_redirectURL p) (pv_scopes p) (pv_discoveryDoc p)
    (match keys with Some k => Some k | None => pv_jwks p end) now.

Definition EnsureDiscovery (now : Z) (p : Provider) : oidc_result oidcDiscovery * Provider :=
  match pv_discoveryDoc p with
  | Some doc => (OOk doc, p)
  | None =>
      if negb (requireSecureURL Parse (pv_issuer p)) then (OErr ErrInsecureURL, p) else
      match fetch_discovery (TrimRightSlash (pv_issuer p) +:+ "/.well-known/openid-configuration") with
      | None => (OErr ErrFetch, p)
      | Some doc =>
          if negb (requireSecureURL Parse (od_TokenEndpoint doc)) then (OErr ErrInsecureURL, p)
          else if negb (requireSecureURL Parse (od_JWKSURI doc)) then (OErr ErrInsecureURL, p)
          else match fetchJWKS (od_JWKSURI doc) with
               | None => (OErr ErrFetch, p)
               | Some keys => (OOk doc, with_discovery doc keys now p)
               end
      end
  end.

(** Whether a new key set was installed. *)
Definition refreshJWKS (now : Z) (p : Provider) : bool * Provider :=
  match pv_discoveryDoc p with
  | None => (false, p)
  | Some doc =>
      if now - pv_jwksFetchedAt p <? jwksRefreshMinInterval then (false, p)
      else let keys := fetchJWKS (od_JWKSURI doc) in
           (bool_decide (is_Some keys), with_fetch keys now p)
  end.

Definition codeChallenge (verifier : string) : string := b64_encode (sha256 verifier).

Definition BeginPKCE (now : Z) (state codeVerifier nonce : string) (p : Provider) : oidc_result string * Provider :=
  match EnsureDiscovery now p with
  | (OErr e, p') => (OErr e, p')
  | (OOk doc, p') =>
      let scopes := if decide (pv_scopes p' = []) then ["openid"; "email"; "profile"]%string else pv_scopes p' in
      let params :=
        [("client_id", pv_clientID p'); ("code_challenge", codeChallenge codeVerifier); ("code_challenge_method", "S256")]%string ++
        (if decide (nonce = EmptyString) then [] else [("nonce"%string, nonce)]) ++
        [("redirect_uri", pv_redirectURL p'); ("response_type", "code"); ("scope", Join " " scopes); ("state", state)]%string in
      (OOk (od_AuthorizationEndpoint doc +:+ "?" +:+ Encode params), p')
  end.

(** ** The ID token *)

Definition verifyIDToken (now : Z) (p : Provider) (rawJWT : string) : oidc_result Claims :=
  match Split1 "." rawJWT with
  | [part0; part1; part2] =>
      match b64_decode part0 ≫= json_header with
      | None => OErr ErrInvalidToken
      | Some (alg, kid) =>
          if decide (alg ≠ "RS256"%string) then OErr ErrUnsupportedAlg else
          match b64_decode part2 with
          | None => OErr ErrInvalidToken
          | Some sig =>
              match resolveKey p kid with
              | OErr e => OErr e
              | OOk pubKey =>
                  if negb (VerifyPKCS1v15 pubKey (sha256 (part0 +:+ "." +:+ part1)) sig) then OErr ErrInvalidToken else
                  match b64_decode part1 ≫= json_claims with
                  | None => OErr ErrInvalidToken
                  | Some claims =>
                      match validateClaims now p claims with
                      | OErr e => OErr e
                      | OOk _ => OOk claims
                      end
                  end
              end
          end
      end
  | _ => OErr ErrInvalidToken
  end.

(** The verification with one retry on a fresh key set; [now] in ms. *)
Definition verify_retry (now : Z) (p : Provider) (rawJWT : string) : oidc_result Claims * Provider :=
  match verifyIDToken (now / 1000) p rawJWT with
  | OErr errNoMatchingKey =>
      let '(refreshed, p') := refreshJWKS now p in
      if refreshed then (verifyIDToken (now / 1000) p' rawJWT, p') else (OErr errNoMatchingKey, p')
  | r => (r, p)
  end.

Definition token_form (code codeVerifier : string) (p : Provider) : list (string * string) :=
  [("grant_type", "authorization_code"); ("code", code); ("redirect_uri", pv_redirectURL p); ("client_id", pv_clientID p);
   ("code_verifier", codeVerifier)]%string ++
  if decide (pv_clientSecret p = EmptyString) then [] else [("client_secret"%string, pv_clientSecret p)].

Definition Exchange (now : Z) (code codeVerifier expectedNonce : string) (p : Provider) :
    oidc_result (string * Claims) * Provider :=
  match EnsureDiscovery now p with
  | (OErr e, p1) => (OErr e, p1)
  | (OOk doc, p1) =>
      match post_token (od_TokenEndpoint doc) (token_form code codeVerifier p1) with
      | None => (OErr ErrToken, p1)
      | Some tr =>
          if decide (tr_Error tr ≠ EmptyString) then (OErr ErrToken, p1)
          else if decide (tr_IDToken tr = EmptyString) then (OErr ErrToken, p1)
          else match verify_retry now p1 (tr_IDToken tr) with
               | (OErr e, p2) => (OErr e, p2)
               | (OOk claims, p2) =>
                   if decide (expectedNonce ≠ EmptyString ∧ claim_string "nonce" claims ≠ expectedNonce)
                   then (OErr ErrNonceMismatch, p2)
                   else (OOk (tr_IDToken tr, claims), p2)
               end
      end
  end.
End provider.

(** ** base64 round trip *)

Lemma b64_value_char n : 0 ≤ n < 64 → b64_value (b64_char n) = Some n.
Proof.
  intros Hn. assert (forallb (λ n, bool_decide (b64_value (b64_char n) = Some n)) (seqZ 0 64) = true) as Hall by (vm_compute; reflexivity).
  rewrite forallb_forall in Hall. eapply bool_decide_eq_true_1, Hall, list_elem_of_In, elem_of_seqZ. lia.
Qed.

Lemma b64_char_newline n : 0 ≤ n < 64 → byte_is 10 (b64_char n) || byte_is 13 (b64_char n) = false.
Proof.
  intros Hn. assert (forallb (λ n, negb (byte_is 10 (b64_char n) || byte_is 13 (b64_char n))) (seqZ 0 64) = true) as Hall by (vm_compute; reflexivity).
  rewrite forallb_forall in Hall. apply negb_true_iff, Hall, list_elem_of_In, elem_of_seqZ. lia.
Qed.

Lemma b64_roundtrip b : Forall (λ x, 0 ≤ x < 256) b → b64_decode (b64_encode b) = Some b.
Proof.
  unfold b64_decode. remember (length b) as n eqn:Hn. revert b Hn. induction (lt_wf n) as [n _ IH]. intros b -> Hb.
  assert (∀ x, 0 ≤ x < 256 → 0 ≤ x / 4 < 64 ∧ 0 ≤ x mod 4 < 4 ∧ x = x / 4 * 4 + x mod 4) as D4 by (intros; Z.div_mod_to_equations; lia).
  assert (∀ x, 0 ≤ x < 256 → 0 ≤ x / 16 < 16 ∧ 0 ≤ x mod 16 < 16 ∧ x = x / 16 * 16 + x mod 16) as D16 by (intros; Z.div_mod_to_equations; lia).
  assert (∀ x, 0 ≤ x < 256 → 0 ≤ x / 64 < 4 ∧ 0 ≤ x mod 64 < 64 ∧ x = x / 64 * 64 + x mod 64) as D64 by (intros; Z.div_mod_to_equations; lia).
  assert (∀ a b, 0 ≤ b < 16 → (a * 16 + b) / 16 = a ∧ (a * 16 + b) mod 16 = b) as E16 by (intros; Z.div_mod_to_equations; lia).
  assert (∀ a b, 0 ≤ b < 4 → (a * 4 + b) / 4 = a ∧ (a * 4 + b) mod 4 = b) as E4 by (intros; Z.div_mod_to_equations; lia).
  destruct b as [|x [|y [|z b]]]; [done|..]; repeat (apply Forall_cons in Hb as [? Hb]).
  - pose proof (D4 x ltac:(done)) as (X1 & X2 & X3). cbn [b64_encode strip_newlines].
    rewrite !b64_char_newline by lia. cbn [b64_groups]. rewrite !b64_value_char by lia. cbn.
    do 2 f_equal. rewrite Z.div_mul by lia. lia.
  - pose proof (D4 x ltac:(done)) as (X1 & X2 & X3). pose proof (D16 y ltac:(done)) as (Y1 & Y2 & Y3). cbn [b64_encode strip_newlines].
    rewrite !b64_char_newline by lia. cbn [b64_groups]. rewrite !b64_value_char by lia. cbn [mbind option_bind].
    destruct (E16 (x mod 4) (y / 16) Y1) as [-> ->]. rewrite Z.div_mul by lia. do 2 f_equal; [lia|]. f_equal. lia.
  - pose proof (D4 x ltac:(done)) as (X1 & X2 & X3). pose proof (D16 y ltac:(done)) as (Y1 & Y2 & Y3).
    pose proof (D64 z ltac:(done)) as (Z1 & Z2 & Z3). cbn [b64_encode strip_newlines].
    rewrite !b64_char_newline by lia. cbn [b64_groups]. rewrite !b64_value_char by lia. cbn [mbind option_bind].
    rewrite (IH (length b)) by (done || cbn; lia). cbn [mbind option_bind].
    destruct (E16 (x mod 4) (y / 16) Y1) as [-> ->]. destruct (E4 (y mod 16) (z / 64) Z1) as [-> ->].
    do 2 f_equal; [lia|]. f_equal; [lia|]. f_equal. lia.
Qed.

(** ** What a login proves *)

Section login.
Context (fetch_discovery : string → option oidcDiscovery) (fetchJWKS : string → option (list jwk))
  (post_token : string → list (string * string) → option tokenResponse).
Context (Parse : string → option URL) (sha256 : string → list Z)
  (VerifyPKCS1v15 : PublicKey → list Z → list Z → bool)
  (json_header : list Z → option (string * string)) (json_claims : list Z → option Claims).

Notation ensure := (EnsureDiscovery fetch_discovery fetchJWKS Parse).
Notation begin := (BeginPKCE fetch_discovery fetchJWKS Parse sha256).
Notation exchange := (Exchange fetch_discovery fetchJWKS post_token Parse sha256 VerifyPKCS1v15 json_header json_claims).
Notation verify := (verifyIDToken sha256 VerifyPKCS1v15 json_header json_claims).
Notation retry := (verify_retry fetchJWKS sha256 VerifyPKCS1v15 json_header json_claims).
Notation secure := (requireSecureURL Parse).

(** The cached document passed the URL checks. *)
Definition provider_wf (p : Provider) : Prop :=
  ∀ doc, pv_discoveryDoc p = Some doc →
    secure (pv_issuer p) = true ∧ secure (od_TokenEndpoint doc) = true ∧ secure (od_JWKSURI doc) = true.

(** What does not change. *)
Definition same_client (p p' : Provider) : Prop :=
  pv_issuer p' = pv_issuer p ∧ pv_clientID p' = pv_clientID p.

Lemma ensure_spec now p r p' :
  ensure now p = (r, p') → provider_wf p →
  provider_wf p' ∧ same_client p p' ∧
  (∀ doc, r = OOk doc → pv_discoveryDoc p' = Some doc).
Proof.
  unfold EnsureDiscovery. intros E Hwf. destruct (pv_discoveryDoc p) as [doc|] eqn:Hd.
  { injection E as <- <-. split_and!; [done..|]. by intros d [= <-]. }
  destruct (secure (pv_issuer p)) eqn:H1; [|by injection E as <- <-]. cbn [negb] in E.
  destruct (fetch_discovery _) as [doc|]; [|by injection E as <- <-].
  destruct (secure (od_TokenEndpoint doc)) eqn:H2; [|by injection E as <- <-]. cbn [negb] in E.
  destruct (secure (od_JWKSURI doc)) eqn:H3; [|by injection E as <- <-]. cbn [negb] in E.
  destruct (fetchJWKS _) as [keys|]; [|by injection E as <- <-]. injection E as <- <-.
  split_and!; [|done..|by intros d [= <-]]. intros d [= <-]. done.
Qed.

Lemma refresh_spec now p b p' :
  refreshJWKS fetchJWKS now p = (b, p') → provider_wf p → provider_wf p' ∧ same_client p p' ∧ pv_discoveryDoc p' = pv_discoveryDoc p.
Proof.
  unfold refreshJWKS. intros E Hwf. destruct (pv_discoveryDoc p) as [doc|] eqn:Hd; [|by injection E as <- <-; rewrite Hd].
  destruct (_ <? _); injection E as <- <-; [by rewrite Hd|]. split_and!; try done.
Qed.

(** The issuer of the token is the configured one, up to case or a trailing
    slash. *)
Definition issuer_ok (p : Provider) (claims : Claims) : Prop :=
  let iss := claim_string "iss" claims in
  EqualFold iss (pv_issuer p) = true ∨ TrimRightSlash iss = TrimRightSlash (pv_issuer p).

Definition audience_ok (p : Provider) (claims : Claims) : Prop :=
  claims !! "aud"%string = Some (CStr (pv_clientID p)) ∨
  ∃ l, claims !! "aud"%string = Some (CArr l) ∧ CStr (pv_clientID p) ∈ l.

Definition unexpired (now : Z) (claims : Claims) : Prop :=
  ∃ v, claims !! "exp"%string = Some (CNum v) ∧ now ≤ int64_of v.

Lemma validateClaims_spec now p claims :
  validateClaims now p claims = OOk tt ↔ issuer_ok p claims ∧ audience_ok p claims ∧ unexpired now claims.
Proof.
  unfold validateClaims, issuer_ok, audience_ok, unexpired. cbv zeta.
  destruct (negb (EqualFold _ _) && _) eqn:Hi.
  { apply andb_prop in Hi as [H1%negb_true_iff H2%bool_decide_eq_true]. split; [done|]. rewrite H1. naive_solver. }
  assert (EqualFold (claim_string "iss" claims) (pv_issuer p) = true ∨
          TrimRightSlash (claim_string "iss" claims) = TrimRightSlash (pv_issuer p)) as Hiss.
  { apply andb_false_iff in Hi as [H1%negb_false_iff|H1%bool_decide_eq_false]; [by left|right]. by apply dec_stable. }
  match goal with |- context [if negb ?b then _ else _] => set (aud := b) end.
  assert (aud = true ↔ claims !! "aud"%string = Some (CStr (pv_clientID p)) ∨
    ∃ l, claims !! "aud"%string = Some (CArr l) ∧ CStr (pv_clientID p) ∈ l) as Haud.
  { unfold aud. destruct (claims !! "aud"%string) as [[s|f|l|]|]; try (split; [done|naive_solver]).
    - rewrite bool_decide_eq_true. naive_solver.
    - rewrite existsb_exists. split.
      + intros ([s| | |] & Hin%list_elem_of_In & Hs); try done. apply bool_decide_eq_true in Hs as ->. right. by exists l.
      + intros [?|(l' & [= <-] & Hin)]; [done|]. exists (CStr (pv_clientID p)). split; [by apply list_elem_of_In|by apply bool_decide_eq_true]. }
  destruct aud; cbn [negb]; [|split; [done|]; intros (_ & Ha & _); by apply Haud in Ha].
  destruct (claims !! "exp"%string) as [[s|v|l|]|]; try (split; [done|naive_solver]).
  destruct (Z.ltb_spec (int64_of v) now); split; try done; [naive_solver lia|]. intros _. split_and!; [done|by apply Haud|by exists v].
Qed.

(** What a verified token is: three parts, signed with RS256 by a key of the
    set the provider published for that. *)
Definition token_verified (now : Z) (p : Provider) (token : string) (claims : Claims) : Prop :=
  ∃ part0 part1 part2 kid keys k pub sig,
    Split1 "." token = [part0; part1; part2] ∧ b64_decode part0 ≫= json_header = Some ("RS256"%string, kid) ∧
    pv_jwks p = Some keys ∧ k ∈ keys ∧ usable_key kid k = true ∧ rsaPublicKeyFromJWK k = OOk pub ∧
    b64_decode part2 = Some sig ∧ VerifyPKCS1v15 pub (sha256 (part0 +:+ "." +:+ part1)) sig = true ∧
    b64_decode part1 ≫= json_claims = Some claims ∧
    issuer_ok p claims ∧ audience_ok p claims ∧ unexpired now claims.

Lemma verify_spec now p token claims : verify now p token = OOk claims → token_verified now p token claims.
Proof.
  unfold verifyIDToken. destruct (Split1 "." token) as [|p0 [|p1 [|p2 [|]]]] eqn:Hs; try done.
  destruct (b64_decode p0 ≫= json_header) as [[alg kid]|] eqn:Hh; [|done]. destruct (decide (alg ≠ _)) as [?|Halg]; [done|].
  apply dec_stable in Halg as ->. destruct (b64_decode p2) as [sig|] eqn:H2; [|done].
  unfold resolveKey. destruct (pv_jwks p) as [keys|] eqn:Hk; [|done].
  destruct (head _) as [k|] eqn:Hhd; [|done]. destruct (rsaPublicKeyFromJWK k) as [pub|] eqn:Hpub; [|done].
  destruct (VerifyPKCS1v15 _ _ _) eqn:Hv; [|done]. cbn [negb]. destruct (b64_decode p1 ≫= json_claims) as [cl|] eqn:Hc; [|done].
  destruct (validateClaims now p cl) as [[]|] eqn:Hval; [|done]. intros [= <-]. apply validateClaims_spec in Hval as (? & ? & ?).
  apply head_Some_elem_of, list_elem_of_filter in Hhd as [Hu Hin].
  by exists p0, p1, p2, kid, keys, k, pub, sig.
Qed.

Lemma retry_spec now p token r p' :
  retry now p token = (r, p') → provider_wf p →
  provider_wf p' ∧ same_client p p' ∧ pv_discoveryDoc p' = pv_discoveryDoc p ∧
  ∀ claims, r = OOk claims → token_verified (now / 1000) p' token claims.
Proof.
  unfold verify_retry. intros E Hwf. destruct (verify (now / 1000) p token) as [cl|e] eqn:Hv.
  { injection E as <- <-. split_and!; [done..|]. intros c [= <-]. by apply verify_spec. }
  assert (e ≠ errNoMatchingKey → provider_wf p' ∧ same_client p p' ∧ pv_discoveryDoc p' = pv_discoveryDoc p ∧
    ∀ claims, r = OOk claims → token_verified (now / 1000) p' token claims) as Hother.
  { intros Hne. destruct e; try (by destruct Hne); by injection E as <- <-. }
  destruct e; try (by apply Hother). destruct (refreshJWKS fetchJWKS now p) as [b p1] eqn:Hr.
  destruct (refresh_spec _ _ _ _ Hr Hwf) as (Hwf1 & Hs & Hd). destruct b; injection E as <- <-; split_and!; try done.
  intros c Hc. by apply verify_spec.
Qed.

Lemma exchange_spec now code verifier nonce p r p' :
  exchange now code verifier nonce p = (r, p') → provider_wf p →
  provider_wf p' ∧ same_client p p' ∧
  ∀ token claims, r = OOk (token, claims) →
    is_Some (pv_discoveryDoc p') ∧ token_verified (now / 1000) p' token claims ∧
    (nonce ≠ EmptyString → claim_string "nonce" claims = nonce).
Proof.
  unfold Exchange. intros E Hwf. destruct (ensure now p) as [[doc|e] p1] eqn:He;
    destruct (ensure_spec _ _ _ _ He Hwf) as (Hwf1 & Hs1 & Hd1); [|by injection E as <- <-].
  destruct (post_token _ _) as [tr|]; [|by injection E as <- <-].
  destruct (decide (tr_Error tr ≠ _)); [by injection E as <- <-|]. destruct (decide (tr_IDToken tr = _)); [by injection E as <- <-|].
  destruct (retry now p1 (tr_IDToken tr)) as [[cl|e] p2] eqn:Hr; destruct (retry_spec _ _ _ _ _ Hr Hwf1) as (Hwf2 & Hs2 & Hd2 & Hv);
    (assert (same_client p p2) as Hs by (unfold same_client in *; intuition congruence)); [|by injection E as <- <-].
  destruct (decide (nonce ≠ _ ∧ _)) as [Hn|Hn]; injection E as <- <-; split_and!; try done.
  intros token claims [= <- <-]. split_and!; [rewrite Hd2; eexists; by apply Hd1|by apply Hv|].
  intros Hne. apply dec_stable. intros Hx. by apply Hn.
Qed.

Lemma begin_spec now state verifier nonce p r p' :
  begin now state verifier nonce p = (r, p') → provider_wf p → provider_wf p' ∧ same_client p p'.
Proof.
  unfold BeginPKCE. intros E Hwf. destruct (ensure now p) as [[doc|e] p1] eqn:He;
    destruct (ensure_spec _ _ _ _ He Hwf) as (Hwf1 & Hs1 & _); by injection E as <- <-.
Qed.

(** A key set is replaced at most once in [jwksRefreshMinInterval], however
    many tokens name an unknown key. *)
Lemma refresh_limited now p r p' token :
  retry now p token = (r, p') → p' = p ∨ (jwksRefreshMinInterval ≤ now - pv_jwksFetchedAt p ∧ pv_jwksFetchedAt p' = now).
Proof.
  unfold verify_retry, refreshJWKS. intros E. destruct (verify _ p token) as [cl|e]; [injection E as <- <-; by left|].
  destruct e; try (injection E as <- <-; by left). destruct (pv_discoveryDoc p); [|injection E as <- <-; by left].
  destruct (Z.ltb_spec (now - pv_jwksFetchedAt p) jwksRefreshMinInterval); [injection E as <- <-; by left|].
  right. destruct (bool_decide _); by injection E as <- <-.
Qed.
End login.

(** ** Histories *)

Section history.
Context (Parse : string → option URL) (sha256 : string → list Z)
  (VerifyPKCS1v15 : PublicKey → list Z → list Z → bool)
  (json_header : list Z → option (string * string)) (json_claims : list Z → option Claims).

(** What the network answers during one call. *)
Record network := mkNetwork {
  n_discovery : string → option oidcDiscovery; n_jwks : string → option (list jwk);
  n_token : string → list (string * string) → option tokenResponse }.

(** The calls a server makes on the provider. *)
Inductive provider_op :=
  | OpBegin (n : network) (now : Z) (state verifier nonce : string)
  | OpExchange (n : network) (now : Z) (code verifier nonce : string).

Definition exec_exchange (n : network) (now : Z) (code verifier nonce : string) (p : Provider) :=
  Exchange (n_discovery n) (n_jwks n) (n_token n) Parse sha256 VerifyPKCS1v15 json_header json_claims now code verifier nonce p.

Definition exec_provider (p : Provider) (o : provider_op) : Provider :=
  match o with
  | OpBegin n now s v c => (BeginPKCE (n_discovery n) (n_jwks n) Parse sha256 now s v c p).2
  | OpExchange n now c v e => (exec_exchange n now c v e p).2
  end.

Lemma exec_provider_spec p o : provider_wf Parse p → provider_wf Parse (exec_provider p o) ∧ same_client p (exec_provider p o).
Proof.
  intros Hwf. destruct o as [n now s v c|n now c v e]; cbn.
  - destruct (BeginPKCE _ _ _ _ _ _ _ _ _) as [r p'] eqn:E. by eapply begin_spec.
  - destruct (exec_exchange n now c v e p) as [r p'] eqn:E. destruct (exchange_spec _ _ _ _ _ _ _ _ _ _ _ _ _ _ _ E Hwf) as (?&?&_). done.
Qed.

Lemma history_spec ops p :
  provider_wf Parse p → provider_wf Parse (foldl exec_provider p ops) ∧ same_client p (foldl exec_provider p ops).
Proof.
  revert p. induction ops as [|o ops IH]; intros p Hwf; cbn [foldl]; [done|].
  destruct (exec_provider_spec p o Hwf) as [H1 [? ?]]. destruct (IH _ H1) as [H2 [? ?]].
  split; [done|]. split; congruence.
Qed.

(** C16: whatever logins the server began and completed before, and whatever
    the network answered, an [Exchange] that succeeds returns the claims of a
    token with three parts whose header says RS256, whose signature verifies
    over the first two parts under a key of the provider's current key set
    that is an RSA key for RS256 signatures with the header's key id, whose
    issuer is the configured one (up to case or a trailing slash), whose
    audience contains the configured client and whose expiry is not past, and
    whose nonce is the one the login began with; the issuer, the token
    endpoint and the key set's address are https or loopback, without user
    information. *)
Theorem id_token_verified issuer clientID secret redirect scopes ops n now code verifier nonce p' token claims :
  let p := foldl exec_provider (NewProvider issuer clientID secret redirect scopes) ops in
  exec_exchange n now code verifier nonce p = (OOk (token, claims), p') →
  (∃ part0 part1 part2 kid keys k pub sig,
    Split1 "." token = [part0; part1; part2] ∧ b64_decode part0 ≫= json_header = Some ("RS256"%string, kid) ∧
    pv_jwks p' = Some keys ∧ k ∈ keys ∧ usable_key kid k = true ∧ rsaPublicKeyFromJWK k = OOk pub ∧
    b64_decode part2 = Some sig ∧ VerifyPKCS1v15 pub (sha256 (part0 +:+ "." +:+ part1)) sig = true ∧
    b64_decode part1 ≫= json_claims = Some claims) ∧
  (EqualFold (claim_string "iss" claims) issuer = true ∨ TrimRightSlash (claim_string "iss" claims) = TrimRightSlash issuer) ∧
  (claims !! "aud"%string = Some (CStr clientID) ∨ ∃ l, claims !! "aud"%string = Some (CArr l) ∧ CStr clientID ∈ l) ∧
  (∃ v, claims !! "exp"%string = Some (CNum v) ∧ now / 1000 ≤ int64_of v) ∧
  (nonce ≠ EmptyString → claim_string "nonce" claims = nonce) ∧
  (∃ doc, pv_discoveryDoc p' = Some doc ∧ requireSecureURL Parse issuer = true ∧
          requireSecureURL Parse (od_TokenEndpoint doc) = true ∧ requireSecureURL Parse (od_JWKSURI doc) = true).
Proof.
  intros p E. destruct (history_spec ops (NewProvider issuer clientID secret redirect scopes)) as [Hwf [Hi Hc]]; [done|].
  fold p in Hwf, Hi, Hc. cbn in Hi, Hc.
  destruct (exchange_spec _ _ _ _ _ _ _ _ _ _ _ _ _ _ _ E Hwf) as (Hwf' & [Hi' Hc'] & H).
  destruct (H _ _ eq_refl) as ([doc Hdoc] & (p0&p1&p2&kid&keys&k&pub&sig&Hv) & Hn). clear H.
  unfold issuer_ok, audience_ok, unexpired in Hv. rewrite Hi', Hi, Hc', Hc in Hv.
  destruct Hv as (?&?&?&?&?&?&?&?&?&?&?&?). split_and!; [by exists p0, p1, p2, kid, keys, k, pub, sig|done..|].
  exists doc. split; [done|]. specialize (Hwf' doc Hdoc). by rewrite Hi', Hi in Hwf'.
Qed.
End history.

(** ** Exponents *)

(** An exponent of at most four bytes is read exactly. *)
Lemma SetBytes_app a b : SetBytes (a ++ b) = SetBytes a * 256 ^ Z.of_nat (length b) + SetBytes b.
Proof.
  induction b as [|x b IH] using rev_ind; [cbn; rewrite app_nil_r; lia|].
  assert (∀ l, SetBytes (l ++ [x]) = SetBytes l * 256 + x) as Hx by (intros l; unfold SetBytes; by rewrite foldl_app).
  rewrite app_assoc, !Hx, IH, length_app. cbn [length].
  rewrite Nat2Z.inj_add, Z.pow_add_r by lia. change (256 ^ Z.of_nat 1) with 256. ring.
Qed.

Lemma SetBytes_zeros n : SetBytes (replicate n 0) = 0.
Proof. induction n as [|n IH]; [done|]. rewrite <- Nat.add_1_r, replicate_add, SetBytes_app, IH. cbn. done. Qed.

Lemma exponent_exact k nBytes eBytes :
  b64_decode (k_N k) = Some nBytes → b64_decode (k_E k) = Some eBytes → (length eBytes ≤ 4)%nat →
  rsaPublicKeyFromJWK k = OOk (mkPublicKey (SetBytes nBytes) (SetBytes eBytes)).
Proof.
  intros HN HE Hlen. unfold rsaPublicKeyFromJWK, Uint32. rewrite HN, HE. cbv zeta. do 2 f_equal.
  destruct (Nat.ltb_spec (length eBytes) 4).
  - rewrite take_ge by (rewrite length_app, length_replicate; lia). by rewrite SetBytes_app, SetBytes_zeros.
  - by rewrite take_ge by lia.
Qed.

(** ** An example *)

Module Example7.
Definition Parse (s : string) : option URL :=
  if HasPrefix s "https://idp.example" then Some (mkURL "https" "idp.example" "idp.example" false) else None.
Definition sha256 (s : string) : list Z := [Z.of_nat (String.length s)].
Definition rsa_verify (k : PublicKey) (digest sig : list Z) : bool :=
  bool_decide (sig = map (λ d, (d * pk_E k) mod pk_N k) digest).
Definition json_header (b : list Z) : option (string * string) :=
  if decide (b = [1]) then Some ("RS256", "k1")%string else None.
Definition claims : Claims :=
  {[ "iss"%string := CStr "https://idp.example/"; "aud"%string := CArr [CStr "other"; CStr "litemlflow"];
     "exp"%string := CNum (FFin (2000 * unit64)); "nonce"%string := CStr "n0" ]}.
Definition json_claims (b : list Z) : option Claims := if decide (b = [2]) then Some claims else None.

Definition key : jwk := mkJwk "k1" "RSA" "RS256" "sig" (b64_encode [251]) (b64_encode [1; 0; 1]).
Definition old_key : jwk := mkJwk "k0" "RSA" "RS256" "sig" (b64_encode [251]) (b64_encode [3]).
Definition doc : oidcDiscovery :=
  mkOidcDiscovery "https://idp.example" "https://idp.example/auth" "https://idp.example/token" "https://idp.example/jwks".
Definition token : string :=
  b64_encode [1] +:+ "." +:+ b64_encode [2] +:+ "." +:+ b64_encode [(5 * 65537) mod 251].
Definition net (keys : list jwk) : network :=
  mkNetwork (λ u, if decide (u = "https://idp.example/.well-known/openid-configuration"%string) then Some doc else None)
    (λ u, if decide (u = od_JWKSURI doc) then Some keys else None)
    (λ u form, if decide (u = od_TokenEndpoint doc) then Some (mkTokenResponse token EmptyString) else None).
Definition begun : list provider_op := [OpBegin (net [old_key]) 1000000 "st" "verifier" "n0"].
Definition configured : Provider := NewProvider "https://idp.example" "litemlflow" "shh" "https://ours/callback" [].

(** The provider rotated its key after the login began: the exchange fetches
    the key set again. *)
Lemma id_token_verified_witness :
  let p := foldl (exec_provider Parse sha256 rsa_verify json_header json_claims) configured begun in
  let r := exec_exchange Parse sha256 rsa_verify json_header json_claims (net [key]) 1500000 "code" "verifier" "n0" p in
  r.1 = OOk (token, claims) ∧ pv_jwks p = Some [old_key] ∧ pv_jwks r.2 = Some [key] ∧
  claim_string "nonce" claims = "n0"%string.
Proof.
  intros p r. split_and!; [vm_compute; reflexivity..|].
  eapply (id_token_verified Parse sha256 rsa_verify json_header json_claims "https://idp.example" "litemlflow" "shh"
    "https://ours/callback" [] begun (net [key]) 1500000 "code" "verifier" "n0" r.2 token claims); [|done].
  vm_compute. reflexivity.
Defined.

(** An exponent of six bytes, 65537 with leading zeros, is read as its first
    four bytes. *)
Example long_exponent_truncated :
  rsaPublicKeyFromJWK (mkJwk "k1" "RSA" "RS256" "sig" (b64_encode [251]) (b64_encode [0; 0; 0; 1; 0; 1])) =
  OOk (mkPublicKey 251 1).
Proof. vm_compute. reflexivity. Qed.
End Example7.
