(* ===== verification/CAS.v ===== *)
(** * Content-addressed datasets (internal/datasets/cas.go)

    The blobs of datasets, stored under the SHA-256 of their bytes, and that
    what is stored under a hash has that hash, whatever fails. *)

From S2P Require Import Prelude GoStrings Paths FileSystem Artifacts Model.
From Stdlib Require Import Ascii.

Open Scope Z_scope.

Section cas.
Context `{Faults} (sha256 : string → list Z).
(** The working directory and [CAS.root]. *)
Context (wd root : string).

Definition hash_of (data : string) : string := EncodeToString (sha256 data).

(** The root is made with its parents; [os.MkdirAll] refuses the empty path. *)
Definition NewFilesystemCAS : D artifact_error unit :=
  if decide (root = EmptyString) then throw (ErrOs ENOENT) else MkdirAll ErrOs (Abs wd root).

Definition lower_hex (c : ascii) : bool := byte_in 48 57 c || byte_in 97 102 c.

(** The path of a hash and the directory it is in. *)
Definition pathFor (hash : string) : option (string * string) :=
  if decide (slen hash ≠ 64%nat) then None
  else if any_byte (λ c, negb (lower_hex c)) hash then None
  else let parent := path_Join [root; stake 2 hash] in
       Some (path_Join [parent; sdrop 2 hash], parent).

(** [os.CreateTemp]: [name] is the name it chose, which must be free. *)
Definition CreateTemp (tmp : string) : D artifact_error unit :=
  syscall ErrOs (λ d, match dk_tree d !! components tmp, parent_dir (dk_tree d) (components tmp) with
                      | Some _, _ => (inl EINVAL, dk_tree d)
                      | None, inl e => (inl e, dk_tree d)
                      | None, inr _ => (inr tt, <[components tmp := NFile EmptyString]> (dk_tree d))
                      end) dk_tree.

Definition cleanup (tmp : string) : D artifact_error unit := _ ← attempt (Remove ErrOs tmp); mret tt.

(** The write and the close, whose errors are one. *)
Definition write_temp (tmp : string) (r : Reader) : D artifact_error Z :=
  n ← attempt (Copy tmp r);
  c ← attempt (Flush ErrOs);
  match n, c with
  | inr n, inr _ => mret n
  | inl e, _ | _, inl e => throw e
  end.

Definition Put (rand : string) (r : Reader) : D artifact_error (string * Z) :=
  let tmp := Abs wd (path_Join [root; ".upload-" +:+ rand +:+ ".part"]) in
  _ ← CreateTemp tmp;
  n ← attempt (write_temp tmp r);
  match n with
  | inl e => _ ← cleanup tmp; throw e
  | inr n =>
      let hash := hash_of (rd_data r) in
      match pathFor hash with
      | None => _ ← cleanup tmp; throw ErrInvalidPath
      | Some (final, parent) =>
          mk ← attempt (MkdirAll ErrOs (Abs wd parent));
          match mk with
          | inl e => _ ← cleanup tmp; throw e
          | inr _ =>
              st ← attempt (os_Stat ErrOs (Abs wd final));
              match st with
              | inr _ => _ ← cleanup tmp; mret (hash, n)
              | inl (ErrOs ENOENT) =>
                  rn ← attempt (Rename ErrOs tmp (Abs wd final));
                  match rn with
                  | inl e =>
                      st ← attempt (os_Stat ErrOs (Abs wd final));
                      match st with
                      | inr _ => _ ← cleanup tmp; mret (hash, n)
                      | inl _ => _ ← cleanup tmp; throw e
                      end
                  | inr _ => _ ← attempt (Flush ErrOs); mret (hash, n)
                  end
              | inl e => _ ← cleanup tmp; throw e
              end
          end
      end
  end.

Definition Has (hash : string) : D artifact_error bool :=
  match pathFor hash with
  | None => throw ErrInvalidPath
  | Some (full, _) =>
      st ← attempt (os_Stat ErrOs (Abs wd full));
      match st with
      | inr _ => mret true
      | inl (ErrOs ENOENT) => mret false
      | inl e => throw e
      end
  end.

Definition Get (hash : string) : D artifact_error (string * Z) :=
  match pathFor hash with
  | None => throw ErrInvalidPath
  | Some (full, _) =>
      st ← os_Stat ErrOs (Abs wd full);
      match st with
      | NDir => throw (ErrOs EISDIR) (* opens, and fails to read *)
      | NFile c => _ ← Flush ErrOs; mret (c, Z.of_nat (slen c))
      end
  end.

Definition CAS_Delete (hash : string) : D artifact_error unit :=
  match pathFor hash with
  | None => throw ErrInvalidPath
  | Some (full, _) => Remove ErrOs (Abs wd full)
  end.

(** ** Where blobs are *)

Definition valid_hash (h : string) : Prop := slen h = 64%nat ∧ any_byte (λ c, negb (lower_hex c)) h = false.

Context (Hwd : IsAbs wd = true) (Hroot : root ≠ EmptyString).
Definition blob_path (h : string) : list string := abs_components wd root ++ [stake 2 h; sdrop 2 h].

Lemma hex_plain s : s ≠ EmptyString → any_byte (λ c, negb (lower_hex c)) s = false → plain s.
Proof.
  intros Hne Hs. assert (∀ x, lower_hex x = false → any_byte (λ c, bool_decide (c = x)) s = false) as Hno.
  { clear Hne. induction s as [|c s IH]; [done|]. cbn [any_byte] in *. apply orb_false_iff in Hs as [Hc%negb_false_iff Hs].
    intros x Hx. rewrite IH by done. rewrite bool_decide_eq_false_2; [done|]. intros ->. congruence. }
  split_and!; [done|..].
  - intros ->. by specialize (Hno "."%char eq_refl).
  - intros ->. by specialize (Hno "."%char eq_refl).
  - unfold no_slash. by rewrite (Hno slash eq_refl).
Qed.

Lemma blob_plain h : valid_hash h → plain (stake 2 h) ∧ plain (sdrop 2 h).
Proof.
  intros [Hl Hh]. rewrite <- (stake_sdrop 2 h), any_byte_app in Hh. apply orb_false_iff in Hh as [H1 H2].
  split; apply hex_plain; try done.
  - intros E%(f_equal slen). rewrite slen_stake, Hl in E. done.
  - intros E%(f_equal slen). rewrite slen_sdrop, Hl in E. done.
Qed.

Lemma pathFor_spec h :
  match pathFor h with
  | Some (full, parent) => valid_hash h ∧ Abs wd full = absolute (blob_path h)
  | None => ¬ valid_hash h
  end.
Proof.
  unfold pathFor. destruct (decide (slen h ≠ 64%nat)) as [|Hl%dec_stable]; [by intros [? _]|].
  destruct (any_byte (λ c, negb (lower_hex c)) h) eqn:Hh; [intros [_ ?]; congruence|].
  cbv zeta. assert (valid_hash h) as Hv by done. split; [done|].
  destruct (blob_plain h Hv) as [H1 H2].
  assert (∀ s, s ≠ EmptyString → Clean s ≠ EmptyString) as Hne.
  { intros s Hs. unfold Clean. rewrite decide_False by done. destruct (IsAbs s); [done|]. cbv zeta. by case_decide. }
  assert (path_Join [root; stake 2 h] ≠ EmptyString) as Hp.
  { cbn [path_Join]. rewrite decide_False by done. apply Hne. by destruct root. }
  rewrite Abs_join by done. cbn [mbind list_bind]. rewrite app_nil_r, Split1_single by apply H2.
  assert (abs_components wd (path_Join [root; stake 2 h]) = abs_components wd root ++ [stake 2 h]) as ->.
  { apply absolute_inj; [apply abs_components_plain|apply Forall_app_2; [apply abs_components_plain|by apply Forall_singleton]|].
    rewrite <- Abs_spec, Abs_join by done. cbn [mbind list_bind]. rewrite app_nil_r, Split1_single by apply H1.
    by rewrite resolve_plain_onto, reverse_involutive by (by apply Forall_singleton). }
  rewrite resolve_plain_onto, reverse_involutive by (by apply Forall_singleton). unfold blob_path. by rewrite <- app_assoc.
Qed.

Lemma components_blob h : valid_hash h → components (absolute (blob_path h)) = blob_path h.
Proof.
  intros Hv. destruct (blob_plain h Hv) as [H1 H2]. apply components_absolute, Forall_app_2; [apply abs_components_plain|].
  by apply Forall_cons_2, Forall_singleton.
Qed.

Lemma blob_path_inj h h' : blob_path h = blob_path h' → h = h'.
Proof.
  intros E%app_inv_head. rewrite <- (stake_sdrop 2 h), <- (stake_sdrop 2 h'). revert E.
  generalize (stake 2 h) (sdrop 2 h) (stake 2 h') (sdrop 2 h'). by intros a b c d [= -> ->].
Qed.

(** ** Integrity *)

(** What is stored under a hash has that hash. *)
Definition cas_inv (d : Disk) : Prop :=
  tree_wf (dk_tree d) ∧ ∀ h c, valid_hash h → file_at (dk_tree d) (blob_path h) = Some c → hash_of c = h.

Definition temp_path (rand : string) : list string := abs_components wd root ++ [".upload-" +:+ rand +:+ ".part"].

Lemma temp_spec rand :
  no_slash rand = true →
  Abs wd (path_Join [root; ".upload-" +:+ rand +:+ ".part"]) = absolute (temp_path rand) ∧
  components (absolute (temp_path rand)) = temp_path rand ∧ temp_path rand ≠ [] ∧ ∀ h, blob_path h ≠ temp_path rand.
Proof.
  intros Hr. assert (plain (".upload-" +:+ rand +:+ ".part")) as Hp.
  { split_and!; try done. unfold no_slash. rewrite !any_byte_app. apply no_slash_any in Hr. by rewrite Hr. }
  split_and!.
  - rewrite Abs_join by done. cbn [mbind list_bind]. rewrite app_nil_r, Split1_single by apply Hp.
    by rewrite resolve_plain_onto, reverse_involutive by (by apply Forall_singleton).
  - apply components_absolute, Forall_app_2; [apply abs_components_plain|by apply Forall_singleton].
  - unfold temp_path. by destruct (abs_components wd root).
  - intros h E%app_inv_head. done.
Qed.

Lemma touches_CreateTemp P tmp : P (components tmp) → touches P (CreateTemp tmp).
Proof.
  intros HP. apply touches_syscall; [|done]. intros d Hwf.
  destruct (dk_tree d !! components tmp) as [n|] eqn:Hp; [done|].
  destruct (parent_dir (dk_tree d) (components tmp)) as [e|[]] eqn:Hpar; [done|]. cbn [snd]. split.
  - apply insert_file_wf; [done|apply components_plain|done|by rewrite Hp].
  - intros q Hq. rewrite file_at_insert, decide_False; [done|]. by intros <-.
Qed.

Lemma touches_cleanup P tmp : components tmp ≠ [] → P (components tmp) → touches P (cleanup tmp).
Proof. intros Hne HP. apply touches_bind; [by apply touches_attempt, touches_Remove|]. auto with disk. Qed.

Lemma touches_write_temp P tmp r : P (components tmp) → touches P (write_temp tmp r).
Proof.
  intros HP. apply touches_bind; [apply touches_attempt, touches_bind; [by apply touches_Write|intros _; destruct (rd_err r); auto with disk]|].
  intros n. apply touches_bind; [apply touches_attempt, touches_Flush|]. intros c. destruct n, c; auto with disk.
Qed.

(** Blobs change only where [P] says. *)
Lemma cas_inv_touches {A} (m : D artifact_error A) rand d :
  no_slash rand = true → touches (λ q, q = temp_path rand) m → cas_inv d →
  cas_inv (m d).2 ∧ ∀ h, file_at (dk_tree (m d).2) (blob_path h) = file_at (dk_tree d) (blob_path h).
Proof.
  intros Hr Hm [Hwf Hinv]. destruct (Hm d Hwf) as [Hwf' Hsame].
  assert (∀ h, file_at (dk_tree (m d).2) (blob_path h) = file_at (dk_tree d) (blob_path h)) as Hblob.
  { intros h. apply Hsame. by apply (temp_spec rand Hr). }
  split; [|done]. split; [done|]. intros h c Hv. rewrite Hblob. by apply Hinv.
Qed.

Lemma write_temp_ok tmp r d n d' :
  write_temp tmp r d = (inr n, d') → dk_tree d !! components tmp = Some (NFile EmptyString) →
  n = Z.of_nat (slen (rd_data r)) ∧ rd_err r = None ∧ dk_tree d' !! components tmp = Some (NFile (rd_data r)).
Proof.
  unfold write_temp. rewrite try_bind. destruct (Copy tmp r d) as [o d1] eqn:Hc. cbn [fst snd]. rewrite try_bind.
  destruct (Flush ErrOs d1) as [o2 d2] eqn:Hf. cbn [fst snd]. destruct o as [e|m]; [done|]. destruct o2 as [e|[]]; [done|].
  intros [= -> <-] Ht. unfold Copy in Hc. apply bind_inr in Hc as ([] & d3 & Hw & Hc). eapply Write_inr in Hw; [|done].
  apply Flush_inr in Hf. rewrite Hf. destruct (rd_err r); [done|]. by injection Hc as <- <-.
Qed.

(** What [Put] leaves and returns. *)
Definition put_ok (r : Reader) (d : Disk) (o : artifact_error + string * Z) (d' : Disk) : Prop :=
  cas_inv d' ∧
  (∀ h, h ≠ hash_of (rd_data r) → file_at (dk_tree d') (blob_path h) = file_at (dk_tree d) (blob_path h)) ∧
  (∀ c, file_at (dk_tree d) (blob_path (hash_of (rd_data r))) = Some c → file_at (dk_tree d') (blob_path (hash_of (rd_data r))) = Some c) ∧
  ∀ h n, o = inr (h, n) → h = hash_of (rd_data r) ∧ n = Z.of_nat (slen (rd_data r)) ∧ rd_err r = None ∧ valid_hash h ∧
    (dk_tree d !! blob_path h = None → file_at (dk_tree d') (blob_path h) = Some (rd_data r)).

Lemma put_error r d e d' :
  cas_inv d' → (∀ h, file_at (dk_tree d') (blob_path h) = file_at (dk_tree d) (blob_path h)) → put_ok r d (inl e) d'.
Proof. intros Hinv Hsame. split_and!; [done|intros h _; apply Hsame|intros c; by rewrite Hsame|done]. Qed.

(** Removing the temporary file and returning. *)
Lemma cleanup_error r rand e d d1 :
  no_slash rand = true → cas_inv d1 → (∀ h, file_at (dk_tree d1) (blob_path h) = file_at (dk_tree d) (blob_path h)) →
  let '(o, d') := (_ ← cleanup (absolute (temp_path rand)); throw e) d1 in put_ok r d o d'.
Proof.
  intros Hr Hinv Hsame. destruct (temp_spec rand Hr) as (_ & Et & Hne & _).
  assert (touches (λ q, q = temp_path rand) (_ ← cleanup (absolute (temp_path rand)); throw e : D artifact_error (string * Z))) as Ht.
  { apply touches_bind; [by apply touches_cleanup; rewrite Et|auto with disk]. }
  destruct (cas_inv_touches _ rand d1 Hr Ht Hinv) as [Hinv' Hsame'].
  unfold mbind, D_bind in *. unfold cleanup, mbind, D_bind, attempt in *. destruct (Remove ErrOs _ d1) as [o d2]. cbn [snd mret D_ret throw] in *.
  apply put_error; [done|]. intros h. by rewrite Hsame'.
Qed.

Lemma cleanup_return r rand n d d1 :
  no_slash rand = true → cas_inv d1 → (∀ h, file_at (dk_tree d1) (blob_path h) = file_at (dk_tree d) (blob_path h)) →
  rd_err r = None → n = Z.of_nat (slen (rd_data r)) → valid_hash (hash_of (rd_data r)) →
  dk_tree d !! blob_path (hash_of (rd_data r)) ≠ None →
  let '(o, d') := (_ ← cleanup (absolute (temp_path rand)); mret (hash_of (rd_data r), n)) d1 in put_ok r d o d'.
Proof.
  intros Hr Hinv Hsame Herr Hn Hv Hsome. destruct (temp_spec rand Hr) as (_ & Et & Hne & _).
  assert (touches (λ q, q = temp_path rand) (cleanup (absolute (temp_path rand)))) as Ht by (by apply touches_cleanup; rewrite Et).
  destruct (cas_inv_touches _ rand d1 Hr Ht Hinv) as [Hinv' Hsame'].
  unfold mbind, D_bind. unfold cleanup, mbind, D_bind, attempt in *. destruct (Remove ErrOs _ d1) as [o d2]. cbn [snd mret D_ret] in *.
  split_and!; [done|intros h _; by rewrite Hsame'|intros c; by rewrite Hsame', Hsame|]. intros h m [= <- <-]. split_and!; done.
Qed.

Lemma CreateTemp_ok tmp d d' :
  CreateTemp tmp d = (inr tt, d') → dk_tree d' = <[components tmp := NFile EmptyString]> (dk_tree d).
Proof.
  intros Hf%syscall_inr. destruct (dk_tree d !! _); [done|]. destruct (parent_dir _ _); [done|]. by injection Hf.
Qed.

Lemma write_temp_keeps tmp r d q : q ≠ components tmp → dk_tree (write_temp tmp r d).2 !! q = dk_tree d !! q.
Proof.
  intros Hq. unfold write_temp. rewrite try_bind. assert (∀ d, dk_tree (Copy tmp r d).2 !! q = dk_tree d !! q) as Hc.
  { intros d0. unfold Copy, mbind, D_bind, Write, syscall.
    assert (∀ x, put_file (components tmp) x (dk_tree d0) !! q = dk_tree d0 !! q) as Hput.
    { intros x. unfold put_file. destruct (dk_tree d0 !! components tmp) as [[]|]; [done| |done]. by rewrite lookup_insert_ne. }
    destruct (io_fault _); cbn; [done|]. destruct (rd_err r); cbn; done. }
  rewrite try_bind. destruct (Copy tmp r d) as [o d1] eqn:E. cbn [fst snd].
  assert (dk_tree (Flush ErrOs d1).2 = dk_tree d1) as Hf by (unfold Flush, syscall; by destruct (io_fault _)).
  specialize (Hc d). rewrite E in Hc. cbn [snd] in Hc. destruct o as [e|n]; [cbn; by rewrite Hf|]. destruct (Flush ErrOs d1) as [[e|[]] d2]; cbn in *; by rewrite Hf.
Qed.

Lemma put_spec rand r d :
  no_slash rand = true → cas_inv d → let '(o, d') := Put rand r d in put_ok r d o d'.
Proof.
  intros Hr Hinv. destruct (temp_spec rand Hr) as (Etmp & Et & Hne & Hblob). unfold Put. rewrite Etmp. cbv zeta.
  set (tmp := absolute (temp_path rand)) in *. unfold mbind at 1, D_bind at 1.
  destruct (cas_inv_touches (CreateTemp tmp) rand d Hr ltac:(by apply touches_CreateTemp; rewrite Et) Hinv) as [Hinv1 Hs1].
  destruct (CreateTemp tmp d) as [[e|[]] d1] eqn:E1; cbn [snd] in *; [by apply put_error|]. apply CreateTemp_ok in E1.
  assert (∀ h, dk_tree d1 !! blob_path h = dk_tree d !! blob_path h) as Hk1 by (intros h; by rewrite E1, Et, lookup_insert_ne).
  assert (dk_tree d1 !! components tmp = Some (NFile EmptyString)) as Ht1 by (by rewrite E1, lookup_insert_eq).
  rewrite try_bind.
  destruct (cas_inv_touches (write_temp tmp r) rand d1 Hr ltac:(by apply touches_write_temp; rewrite Et) Hinv1) as [Hinv2 Hs2].
  assert (∀ h, dk_tree (write_temp tmp r d1).2 !! blob_path h = dk_tree d1 !! blob_path h) as Hk2 by (intros h; apply write_temp_keeps; by rewrite Et).
  destruct (write_temp tmp r d1) as [[e|n] d2] eqn:E2; cbn [fst snd] in *.
  { apply cleanup_error; [done..|]. intros h. by rewrite Hs2. }
  destruct (write_temp_ok _ _ _ _ _ E2 Ht1) as (-> & Herr & Ht2).
  pose proof (pathFor_spec (hash_of (rd_data r))) as Hpf. destruct (pathFor (hash_of (rd_data r))) as [[final parent]|] eqn:Epf.
  2: { apply cleanup_error; [done..|]. intros h. by rewrite Hs2. }
  destruct Hpf as [Hv Hfinal]. rewrite Hfinal. rewrite try_bind.
  set (blob := blob_path (hash_of (rd_data r))).
  destruct (cas_inv_touches (MkdirAll ErrOs (Abs wd parent)) rand d2 Hr (touches_MkdirAll _ _ _) Hinv2) as [Hinv3 Hs3].
  assert (¬ blob `prefix_of` components (Abs wd parent) ∧ ¬ temp_path rand `prefix_of` components (Abs wd parent)) as [Hpb Hpt].
  { unfold pathFor in Epf. destruct (decide _); [done|]. destruct (any_byte _ _); [done|]. assert (parent = path_Join [root; stake 2 (hash_of (rd_data r))]) as -> by (by injection Epf). clear Epf.
    destruct (blob_plain _ Hv) as [Hp2 _]. rewrite Abs_join by done. cbn [mbind list_bind]. rewrite app_nil_r, Split1_single by apply Hp2.
    rewrite resolve_plain_onto, reverse_involutive, components_absolute by
      (try apply Forall_app_2; try apply abs_components_plain; by apply Forall_singleton).
    split.
    - intros Hp%prefix_length. unfold blob, blob_path in Hp. rewrite !length_app in Hp. cbn in Hp. lia.
    - intros [k E]. unfold temp_path in E. rewrite <- app_assoc in E. apply app_inv_head in E.
      assert (slen (stake 2 (hash_of (rd_data r))) = 2%nat) as Hlen by (rewrite slen_stake, (proj1 Hv); done).
      assert (stake 2 (hash_of (rd_data r)) = ".upload-" +:+ rand +:+ ".part") as E' by (apply (f_equal head) in E; cbn [head app] in E; congruence).
      rewrite E', !slen_app in Hlen. cbn in Hlen. lia. }
  assert (dk_tree (MkdirAll ErrOs (Abs wd parent) d2).2 !! blob = dk_tree d2 !! blob) as Hk3 by (by apply MkdirAll_new).
  assert (dk_tree (MkdirAll ErrOs (Abs wd parent) d2).2 !! temp_path rand = dk_tree d2 !! temp_path rand) as Hk3' by (by apply MkdirAll_new).
  destruct (MkdirAll ErrOs (Abs wd parent) d2) as [[e|[]] d3]; cbn [fst snd] in *.
  { apply cleanup_error; [done..|]. intros h. by rewrite Hs3, Hs2. }
  assert (∀ h, file_at (dk_tree d3) (blob_path h) = file_at (dk_tree d) (blob_path h)) as Hs by (intros h; by rewrite Hs3, Hs2).
  assert (dk_tree d3 !! blob = dk_tree d !! blob) as Hk by (unfold blob in *; by rewrite Hk3, Hk2).
  rewrite try_bind. pose proof (Stat_spec ErrOs (absolute blob) d3 (proj1 Hinv3)) as [Hst Hstat].
  unfold blob in Hstat. rewrite components_blob in Hstat by done. fold blob in Hstat.
  assert (∀ d4, dk_tree d4 = dk_tree d3 → cas_inv d4 ∧ ∀ h, file_at (dk_tree d4) (blob_path h) = file_at (dk_tree d) (blob_path h)) as Hsame4.
  { intros d4 E4. unfold cas_inv. by rewrite E4. }
  destruct (os_Stat ErrOs (absolute blob) d3) as [[e|nd] d4]; cbn [fst snd] in *; destruct (Hsame4 d4 Hst) as [Hinv4 Hs4].
  2: { apply cleanup_return; try done. fold blob. rewrite <- Hk, Hstat. done. }
  destruct Hstat as (e' & -> & Hnone). destruct e'; try (by apply cleanup_error). specialize (Hnone eq_refl).
  rewrite try_bind. destruct (Rename ErrOs tmp (absolute blob) d4) as [[e|[]] d5] eqn:E5; cbn [fst snd].
  - apply Rename_inl in E5. rewrite try_bind. destruct (Hsame4 d5 ltac:(by rewrite E5)) as [Hinv5 Hs5].
    pose proof (Stat_spec ErrOs (absolute blob) d5 (proj1 Hinv5)) as [Hst5 Hstat5].
    unfold blob in Hstat5. rewrite components_blob in Hstat5 by done. fold blob in Hstat5.
    destruct (os_Stat ErrOs (absolute blob) d5) as [[e5|nd] d6]; cbn [fst snd] in *; destruct (Hsame4 d6 ltac:(by rewrite Hst5, E5)) as [Hinv6 Hs6].
    + by apply cleanup_error.
    + rewrite E5, Hst, Hnone in Hstat5. done.
  - assert (touches (λ q, q = temp_path rand ∨ q = blob) (Rename ErrOs tmp (absolute blob))) as Hren.
    { apply touches_Rename; rewrite ?Et; unfold blob; rewrite ?components_blob by done; [by left|by right|]. intros E. by apply (Hblob (hash_of (rd_data r))). }
    destruct (Hren d4 (proj1 Hinv4)) as [Hwf5 Hs5]. rewrite E5 in Hwf5, Hs5. cbn [snd] in *.
    eapply Rename_inr in E5; [|rewrite Et, Hst, Hk3'; rewrite Et in Ht2; exact Ht2].
    unfold blob in E5. rewrite components_blob in E5 by done. fold blob in E5.
    rewrite try_bind. assert (dk_tree (Flush ErrOs d5).2 = dk_tree d5) as Hf by (unfold Flush, syscall; by destruct (io_fault _)).
    destruct (Flush ErrOs d5) as [o6 d6]. cbn [fst snd mret D_ret] in *.
    assert (∀ h, h ≠ hash_of (rd_data r) → file_at (dk_tree d6) (blob_path h) = file_at (dk_tree d) (blob_path h)) as Hother.
    { intros h Hh. rewrite Hf, Hs5; [apply Hs4|]. intros [E|E]; [by apply (Hblob h)|]. by apply blob_path_inj in E. }
    assert (file_at (dk_tree d6) blob = Some (rd_data r)) as Hnew by (rewrite Hf; unfold file_at; by rewrite E5).
    split_and!; [|done| |].
    + split; [by rewrite Hf|]. intros h c Hvh Hc. destruct (decide (h = hash_of (rd_data r))) as [->|Hh].
      * unfold blob in Hnew. congruence.
      * rewrite Hother in Hc by done. by apply (proj2 Hinv).
    + intros c Hc. exfalso. rewrite <- Hs in Hc. unfold file_at in Hc. fold blob in Hc. by rewrite Hnone in Hc.
    + intros h m [= <- <-]. split_and!; done.
Qed.

Lemma get_spec h d :
  cas_inv d → dk_tree (Get h d).2 = dk_tree d ∧
  ∀ c n, (Get h d).1 = inr (c, n) → file_at (dk_tree d) (blob_path h) = Some c ∧ hash_of c = h ∧ n = Z.of_nat (slen c).
Proof.
  intros [Hwf Hinv]. unfold Get. pose proof (pathFor_spec h) as Hpf. destruct (pathFor h) as [[full parent]|]; [|done].
  destruct Hpf as [Hv ->]. unfold mbind, D_bind. pose proof (Stat_spec ErrOs (absolute (blob_path h)) d Hwf) as [Hst Hstat].
  rewrite components_blob in Hstat by done.
  destruct (os_Stat ErrOs (absolute (blob_path h)) d) as [[e|[|c]] d1]; cbn [fst snd] in *; [done..|].
  unfold Flush, syscall. destruct (io_fault _); cbn; [done|]. split; [done|]. intros c' n [= <- <-].
  assert (file_at (dk_tree d) (blob_path h) = Some c) as Hc by (unfold file_at; by rewrite Hstat). split_and!; [done|by apply (Hinv h)|done].
Qed.

Lemma delete_inv h d : cas_inv d → cas_inv (CAS_Delete h d).2.
Proof.
  intros [Hwf Hinv]. unfold CAS_Delete. pose proof (pathFor_spec h) as Hpf. destruct (pathFor h) as [[full parent]|]; [|done].
  destruct Hpf as [Hv ->].
  assert (touches (λ q, q = blob_path h) (Remove ErrOs (absolute (blob_path h)))) as Ht.
  { apply touches_Remove; rewrite components_blob by done; [|done]. unfold blob_path. by destruct (abs_components wd root). }
  destruct (Ht d Hwf) as [Hwf' Hsame]. split; [done|]. intros h' c Hv' Hc. destruct (decide (h' = h)) as [->|Hh].
  - unfold Remove, syscall in Hc. destruct (has_nul _); [by apply (Hinv h)|]. destruct (io_fault _); [by apply (Hinv h)|].
    rewrite components_blob in Hc by done. destruct (lookup_path _ _ _) as [e|[|x]]; [by apply (Hinv h)| |].
    + destruct (occupied _ _); [by apply (Hinv h)|]. cbn in Hc. by rewrite file_at_delete, decide_True in Hc.
    + cbn in Hc. by rewrite file_at_delete, decide_True in Hc.
  - rewrite Hsame in Hc by (intros E; by apply Hh, blob_path_inj). by apply (Hinv h').
Qed.

(** Calls of the store. *)
Inductive cas_op := CPut (rand : string) (r : Reader) | CGet (h : string) | CHas (h : string) | CDelete (h : string).

Definition exec_cas (d : Disk) (o : cas_op) : Disk :=
  match o with
  | CPut rand r => (Put rand r d).2
  | CGet h => (Get h d).2
  | CHas h => (Has h d).2
  | CDelete h => (CAS_Delete h d).2
  end.

Definition op_ok (o : cas_op) : Prop := match o with CPut rand _ => no_slash rand = true | _ => True end.

Lemma exec_cas_inv o d : op_ok o → cas_inv d → cas_inv (exec_cas d o).
Proof.
  intros Ho Hinv. destruct o as [rand r|h|h|h]; cbn in *.
  - pose proof (put_spec rand r d Ho Hinv) as Hp. destruct (Put rand r d). apply Hp.
  - destruct (get_spec h d Hinv) as [E _]. unfold cas_inv. by rewrite E.
  - unfold Has. destruct (pathFor h) as [[full parent]|]; [|done]. rewrite try_bind.
    pose proof (Stat_spec ErrOs (Abs wd full) d (proj1 Hinv)) as [E _].
    destruct (os_Stat ErrOs (Abs wd full) d) as [[e|n] d1]; cbn [fst snd] in *.
    + destruct e as [| | | |e|]; try destruct e; unfold cas_inv; cbn; by rewrite E.
    + unfold cas_inv. cbn. by rewrite E.
  - by apply delete_inv.
Qed.

(** C13: datasets are stored by content.  After any history of uploads,
    downloads and deletions, with any system calls failing, a download by a
    hash returns bytes with that hash; an upload that succeeds read its body to
    the end, returns the hash and the size of the body, and when nothing was
    stored under the hash the body is stored there now; it never changes what is
    stored under a hash, its own included. *)
Theorem content_addressed history d :
  cas_inv d → Forall op_ok history →
  let e := foldl exec_cas d history in
  (∀ h c n, (Get h e).1 = inr (c, n) → hash_of c = h ∧ n = Z.of_nat (slen c)) ∧
  (∀ rand r, no_slash rand = true →
     let '(o, e') := Put rand r e in
     (∀ h c, file_at (dk_tree e) (blob_path h) = Some c → file_at (dk_tree e') (blob_path h) = Some c) ∧
     ∀ h n, o = inr (h, n) →
       h = hash_of (rd_data r) ∧ n = Z.of_nat (slen (rd_data r)) ∧ rd_err r = None ∧
       (dk_tree e !! blob_path h = None → file_at (dk_tree e') (blob_path h) = Some (rd_data r))).
Proof.
  intros Hinv Hops. assert (cas_inv (foldl exec_cas d history)) as Hinv'.
  { revert d Hinv. induction Hops as [|o l Ho Hl IH]; intros d Hinv; [done|]. apply IH. by apply exec_cas_inv. }
  cbv zeta. split.
  - intros h c n Hg. by apply (get_spec h _ Hinv') in Hg as (_ & ? & ?).
  - intros rand r Hr. pose proof (put_spec rand r _ Hr Hinv') as Hp. destruct (Put rand r _) as [o e'].
    destruct Hp as (_ & Hother & Hown & Hok). split.
    + intros h c Hc. destruct (decide (h = hash_of (rd_data r))) as [->|Hh]; [by apply Hown|by rewrite Hother].
    + intros h n Ho. destruct (Hok h n Ho) as (? & ? & ? & _ & ?). done.
Qed.
End cas.

(** ** Example *)

Module Example11.
Import Artifacts.Example8.
#[local] Existing Instance no_faults.
(** A stand-in for SHA-256 that has its shape. *)
Definition sha (s : string) : list Z := replicate 31 7 ++ [Z.of_nat (slen s) mod 256].
Definition disk2 : Disk := exec_cas sha "/srv" "cas" (mkDisk (<[ ["srv"; "cas"]%string := NDir ]> (<[ ["srv"]%string := NDir ]> (dk_tree disk0))) 0)
  (CPut "1" (mkReader "rows" None)).

Lemma disk2_inv : cas_inv sha "/srv" "cas" disk2.
Proof.
  apply exec_cas_inv; [done|done|done|]. split.
  - cbn. change ["srv"; "cas"]%string with (["srv"]%string ++ ["cas"]%string). apply tree_wf_insert; [|done|repeat split; done|by left].
    change ["srv"]%string with ([] ++ ["srv"]%string) at 1. apply tree_wf_insert; [exact disk0_wf|done|repeat split; done|by left].
  - intros h c _. unfold file_at, blob_path. change (abs_components "/srv" "cas") with ["srv"; "cas"]%string. cbn.
    by rewrite !lookup_insert_ne, lookup_singleton_ne by done.
Qed.

Lemma content_addressed_witness :
  (Get "/srv" "cas" (hash_of sha "rows") disk2).1 = inr ("rows"%string, 4) ∧
  (Put sha "/srv" "cas" "2" (mkReader "rows" None) disk2).1 = inr (hash_of sha "rows", 4) ∧
  hash_of sha "rows" = hash_of sha "rows".
Proof.
  assert ((Get "/srv" "cas" (hash_of sha "rows") disk2).1 = inr ("rows"%string, 4)) as Hg by (vm_compute; reflexivity).
  split; [done|]. split; [vm_compute; reflexivity|].
  apply (proj1 (content_addressed sha "/srv" "cas" eq_refl ltac:(done) [] disk2 disk2_inv ltac:(apply Forall_nil_2)) _ _ _ Hg).
Defined.
End Example11.
