(* ===== verification/ArtifactApi.v ===== *)
(** * The artifact proxy (internal/api/mlflow/handlers.go)

    The handlers that list, download, upload and delete artifacts, on the
    interface of the artifact store.  The state of a request is the database
    and the store. *)

From S2P Require Import Prelude GoStrings Paths FileSystem Artifacts Model Database Runs Sample MlflowApi ApiLogic Isolation.
From Stdlib Require Import Ascii.

Open Scope Z_scope.

(** ** Requests and replies *)

Record artifactFile := mkArtifactFile { af_Path : string; af_IsDir : bool; af_FileSize : Z }.

(** [chi.URLParam(req, "*")], the query parameters and the body. *)
Record ArtifactRequest := mkArtifactRequest {
  aq_Method : string; aq_Star : string; aq_PathParam : string; aq_RunID : string; aq_RunUUID : string; aq_Body : Reader }.

Inductive ArtifactBody :=
  | FilesBody (rootURI : option string) (files : list artifactFile)
  | BytesBody (content : string) (length : Z) (disposition : string)
  | DoneBody.

(** [strings.SplitN(s, "/", 2)], the second part empty when there is none. *)
Definition split_run (s : string) : string * string :=
  match Cut s "/" with Some p => p | None => (s, EmptyString) end.

Definition splitArtifactPath (star : string) : option (string * string) :=
  let rest := TrimPrefix star "/" in
  if decide (rest = EmptyString) then None else Some (split_run rest).

Definition splitQueryPath (p : string) : string * string :=
  let p := TrimPrefix p "/" in
  if decide (p = EmptyString) then (EmptyString, EmptyString) else split_run p.

Definition defaultMaxArtifactSize : Z := Z.shiftl 5 30.
Definition maxArtifactSize (configured : Z) : Z := if 0 <? configured then configured else defaultMaxArtifactSize.

Definition writeArtifactErr {A} (e : artifact_error) : Reply A :=
  match e with
  | ErrArtifactNotFound => reply_error 404 "RESOURCE_DOES_NOT_EXIST"
  | ErrInvalidPath => reply_error 400 "INVALID_PARAMETER_VALUE"
  | ErrPayloadTooBig => reply_error 413 "INVALID_PARAMETER_VALUE"
  | _ => reply_error 500 "INTERNAL_ERROR"
  end.

(** [http.MaxBytesReader] *)
Definition MaxBytesReader (r : Reader) (n : Z) : Reader :=
  if Z.of_nat (slen (rd_data r)) <=? n then r else mkReader (stake (Z.to_nat n) (rd_data r)) (Some MaxBytesError).

Definition file_of (e : ListEntry) : artifactFile :=
  mkArtifactFile (le_Path e) (le_IsDir e) (if le_IsDir e then 0 else le_Size e).

Definition quote : ascii := "034".

(** [strings.ReplaceAll(s, `"`, `\"`)] *)
Fixpoint escape_quote (s : string) : string :=
  match s with
  | EmptyString => EmptyString
  | String c s' => if bool_decide (c = quote) then String "\" (String c (escape_quote s')) else String c (escape_quote s')
  end.

Definition disposition (rel : string) : string :=
  "attachment; filename=" +:+ String quote (escape_quote (Base rel) +:+ String quote EmptyString).

(** ** Handlers *)

Section handlers.
Context {St : Type} `{ArtifactStore St}.
Context (maxSize : Z). (* Handler.MaxArtifactSize *)

Notation state := (World * St)%type.

(** A call of the store of artifacts, and what to do with its outcome. *)
Definition on_artifacts {A} (m : St → (artifact_error + A) * St) (k : A → Reply ArtifactBody) (w : World) (st : St) :
    Reply ArtifactBody * state :=
  match m st with
  | (inr a, st') => (k a, (w, st'))
  | (inl e, st') => (writeArtifactErr e, (w, st'))
  end.

Definition ok (b : ArtifactBody) : Reply ArtifactBody := mkReply 200 "" (Some b) [].

(** [GetRunInWorkspace] and its error path. *)
Definition with_run (runID ws : string) (k : Run → World → St → Reply ArtifactBody * state) (s : state) : Reply ArtifactBody * state :=
  match GetRunInWorkspace runID ws s.1 with
  | (Ok run, w') => k run w' s.2
  | (Err e, w') => (writeStoreErr e, (w', s.2))
  end.

Definition ListArtifacts (ws : string) (q : ArtifactRequest) (s : state) : Reply ArtifactBody * state :=
  let runID := if decide (aq_RunID q = EmptyString) then aq_RunUUID q else aq_RunID q in
  if decide (runID = EmptyString) then (reply_error 400 "INVALID_PARAMETER_VALUE", s) else
  with_run runID ws (λ run, on_artifacts (art_List runID (aq_PathParam q))
    (λ entries, ok (FilesBody (Some (run_ArtifactURI run)) (file_of <$> entries)))) s.

Definition artifactsRouter (ws : string) (q : ArtifactRequest) (s : state) : Reply ArtifactBody * state :=
  if bool_decide (aq_Method q = "GET"%string) && bool_decide (TrimPrefix (aq_Star q) "/" = EmptyString) then
    let '(runID, rel) := splitQueryPath (aq_PathParam q) in
    if decide (runID = EmptyString) then (reply_error 400 "INVALID_PARAMETER_VALUE", s) else
    with_run runID ws (λ _, on_artifacts (art_List runID rel) (λ entries, ok (FilesBody None (file_of <$> entries)))) s
  else
    match splitArtifactPath (aq_Star q) with
    | None => (reply_error 400 "INVALID_PARAMETER_VALUE", s)
    | Some (runID, rel) =>
        with_run runID ws (λ _ w st,
          if decide (aq_Method q = "GET"%string) then
            on_artifacts (art_Open runID rel) (λ '(c, size), ok (BytesBody c size (disposition rel))) w st
          else if decide (aq_Method q = "PUT"%string) then
            let max := maxArtifactSize maxSize in
            match art_Upload runID rel (MaxBytesReader (aq_Body q) max) max st with
            | (inr _, st') => (ok DoneBody, (w, st'))
            | (inl e, st') => (writeArtifactErr (match e with ErrReading MaxBytesError => ErrPayloadTooBig | _ => e end), (w, st'))
            end
          else if decide (aq_Method q = "DELETE"%string) then on_artifacts (art_Delete runID rel) (λ _, ok DoneBody) w st
          else (reply_error 405 "INVALID_PARAMETER_VALUE", (w, st))) s
    end.
End handlers.

(** ** Isolation *)

Section isolation.
Context {St : Type} `{ArtifactStoreOk St} (maxSize : Z).

Inductive artifact_call := CallList (q : ArtifactRequest) | CallRouter (q : ArtifactRequest).

Definition serve_artifacts (ws : string) (c : artifact_call) (s : World * St) : Reply ArtifactBody * (World * St) :=
  match c with
  | CallList q => ListArtifacts ws q s
  | CallRouter q => artifactsRouter maxSize ws q s
  end.

(** The ids of the runs are names that the store accepts. *)
Definition runs_ok (d : DB) : Prop := ∀ R, is_Some (runs d !! R) → art_run R.

(** [run/path], or the run alone. *)
Definition names_artifact (text R rel : string) : Prop :=
  no_slash R = true ∧ (text = R ∧ rel = EmptyString ∨ text = R +:+ "/" +:+ rel).

(** The run and the path a request is about: those of the query of a listing,
    else those in the path of the URL. *)
Definition addressed (c : artifact_call) (R rel : string) : Prop :=
  match c with
  | CallList q => rel = aq_PathParam q ∧
      (aq_RunID q ≠ EmptyString ∧ R = aq_RunID q ∨ aq_RunID q = EmptyString ∧ R = aq_RunUUID q)
  | CallRouter q =>
      if decide (aq_Method q = "GET"%string ∧ (aq_Star q = EmptyString ∨ aq_Star q = "/"%string))
      then names_artifact (TrimPrefix (aq_PathParam q) "/") R rel
      else names_artifact (TrimPrefix (aq_Star q) "/") R rel
  end.

Definition method_of (c : artifact_call) : string := match c with CallList _ => "GET" | CallRouter q => aq_Method q end.
Definition body_of (c : artifact_call) : Reader := match c with CallList q | CallRouter q => aq_Body q end.

(** What a reply shows and what it did, of the run and the path of the request:
    a listing has the artifacts at the path and directly below it, with their
    sizes; a download is the artifact at the path; an upload is stored there,
    complete and within the limit; after a deletion there is nothing at the path
    and below, and everything else is as it was. *)
Definition reply_ok (ws : string) (c : artifact_call) (d : DB) (st st' : St) (b : ArtifactBody) : Prop :=
  ∃ R rel, addressed c R rel ∧ run_owner d R = Some ws ∧
  match b with
  | FilesBody _ files => method_of c = "GET"%string ∧
      (∀ f, f ∈ files → af_IsDir f = false →
         (rel_components (af_Path f) = rel_components rel ∨ ∃ x, rel_components (af_Path f) = rel_components rel ++ [x]) ∧
         ∃ c, artifact st R (rel_components (af_Path f)) = Some c ∧ af_FileSize f = Z.of_nat (slen c)) ∧
      (∀ x c, artifact st R (rel_components rel ++ [x]) = Some c →
         ∃ f, f ∈ files ∧ af_IsDir f = false ∧ rel_components (af_Path f) = rel_components rel ++ [x])
  | BytesBody content n _ => method_of c = "GET"%string ∧
      artifact st R (rel_components rel) = Some content ∧ n = Z.of_nat (slen content)
  | DoneBody =>
      (method_of c = "PUT"%string ∧ artifact st' R (rel_components rel) = Some (rd_data (body_of c)) ∧
       rd_err (body_of c) = None ∧ Z.of_nat (slen (rd_data (body_of c))) ≤ maxArtifactSize maxSize) ∨
      (method_of c = "DELETE"%string ∧
       ∀ p, artifact st' R p = if decide (rel_components rel `prefix_of` p) then None else artifact st R p)
  end.

(** What every call keeps. *)
Definition confined (ws : string) (d : DB) (st st' : St) : Prop :=
  art_inv st' ∧ ∀ R p, art_run R → run_owner d R ≠ Some ws → artifact st' R p = artifact st R p.

Definition call_ok (ws : string) (c : artifact_call) (w : World) (st : St) (o : Reply ArtifactBody * (World * St)) : Prop :=
  w_db o.2.1 = w_db w ∧ confined ws (w_db w) st o.2.2 ∧ ∀ b, rp_Body o.1 = Some b → reply_ok ws c (w_db w) st o.2.2 b.

Lemma confined_refl ws d st : art_inv st → confined ws d st st.
Proof. done. Qed.

Lemma confined_run ws d st st' R :
  art_inv st' → run_owner d R = Some ws →
  (∀ R' p, art_run R' → R' ≠ R → artifact st' R' p = artifact st R' p) → confined ws d st st'.
Proof. intros Hinv HR Hfr. split; [done|]. intros R' p HR' Hown. apply Hfr; [done|]. intros ->. by rewrite HR in Hown. Qed.

Lemma error_ok ws c w st (rep : Reply ArtifactBody) w' st' :
  w_db w' = w_db w → confined ws (w_db w) st st' → rp_Body rep = None → call_ok ws c w st (rep, (w', st')).
Proof. intros Hw Hc Hb. split_and!; [done..|]. cbn. rewrite Hb. done. Qed.

Lemma with_run_ok ws c R k w st :
  ws ≠ EmptyString → art_inv st → runs_ok (w_db w) →
  (∀ run w', w_db w' = w_db w → run_owner (w_db w) R = Some ws → art_run R → call_ok ws c w st (k run w' st)) →
  call_ok ws c w st (with_run R ws k (w, st)).
Proof.
  intros Hws Hinv Hruns Hk. unfold with_run, GetRunInWorkspace, getRunInWorkspace. cbn [fst snd]. rewrite get_bind.
  unfold default_ws. rewrite decide_False by done. unfold lift, of_option.
  destruct (runs (w_db w) !! R) as [r|] eqn:HR; cbn [mbind option_bind]; [|by apply error_ok].
  destruct (rows (experiments (w_db w)) !! rr_experiment_id r) as [e|] eqn:He; cbn [mbind option_bind]; [|by apply error_ok].
  destruct (decide (er_workspace_id e = ws)) as [Hw|]; [|by apply error_ok].
  apply Hk; [done| |by apply Hruns; rewrite HR]. unfold run_owner. rewrite HR. cbn. unfold row_owner, exp_owner. rewrite He. cbn. rewrite Hw. unfold default_ws. by rewrite decide_False.
Qed.

Lemma writeArtifactErr_body (e : artifact_error) : rp_Body (writeArtifactErr e : Reply ArtifactBody) = None.
Proof. by destruct e. Qed.

Lemma MaxBytesReader_spec r n :
  rd_err (MaxBytesReader r n) = None → MaxBytesReader r n = r ∧ Z.of_nat (slen (rd_data r)) ≤ n.
Proof. unfold MaxBytesReader. destruct (Z.leb_spec (Z.of_nat (slen (rd_data r))) n); done. Qed.

Lemma maxArtifactSize_pos : 0 < maxArtifactSize maxSize.
Proof. unfold maxArtifactSize. destruct (Z.ltb_spec 0 maxSize); [done|]. done. Qed.

(** ** The run and the path of a request *)

Lemma Index_slash s :
  match Index s "/" with Some i => no_slash (stake i s) = true | None => no_slash s = true end.
Proof.
  induction s as [|c s IH]; [done|]. cbn [Index HasPrefix]. rewrite HasPrefix_nil, andb_true_r.
  case_bool_decide as Hc; [done|]. destruct (Index s "/") as [i|]; cbn [fmap option_fmap option_map stake];
    (apply no_slash_cons; split; [|done]); intros ->; by apply Hc.
Qed.

Lemma split_run_names s R rel : split_run s = (R, rel) → names_artifact s R rel.
Proof.
  unfold split_run, Cut. pose proof (Index_slash s) as Hs. destruct (Index s "/") as [i|] eqn:Hi; intros [= <- <-].
  - split; [done|]. right. by apply Index_spec.
  - split; [done|by left].
Qed.

Lemma empty_star star : bool_decide (TrimPrefix star "/" = EmptyString) = true ↔ star = EmptyString ∨ star = "/"%string.
Proof.
  rewrite bool_decide_eq_true. destruct star as [|c star]; [split; auto|]. unfold TrimPrefix. cbn [HasPrefix]. rewrite HasPrefix_nil.
  rewrite andb_true_r. case_bool_decide as Hc; cbn; [|naive_solver]. subst c. split; [intros ->; auto|intros [?|[= ->]]; done].
Qed.

Lemma list_ok ws c R dir u w w' st :
  addressed c R dir → method_of c = "GET"%string →
  w_db w' = w_db w → run_owner (w_db w) R = Some ws → art_run R → art_inv st →
  call_ok ws c w st (on_artifacts (art_List R dir) (λ entries, ok (FilesBody u (file_of <$> entries))) w' st).
Proof.
  intros Hc Hm Hw HR Hrun Hinv. unfold on_artifacts. pose proof (art_list_law R dir st Hinv Hrun) as Hl.
  destruct (art_List R dir st) as [[e|l] st']; destruct Hl as (Hinv' & Hsame & Hl & Hall).
  - apply error_ok; [done| |apply writeArtifactErr_body]. split; [done|]. intros. by apply Hsame.
  - split_and!; [done| |]; [split; [done|]; intros; by apply Hsame|]. intros b [= <-]. exists R, dir. split_and!; [done..| |].
    + intros f (e & -> & He)%list_elem_of_fmap Hdir. cbn in Hdir. destruct (Hl l e eq_refl He Hdir) as (Hp & x & Hx & Hsz).
      split; [done|]. exists x. split; [done|]. cbn. by rewrite Hdir.
    + intros x y Hx. destruct (Hall l x y eq_refl Hx) as (e & He & Hd & Hp). exists (file_of e).
      split_and!; [by apply list_elem_of_fmap_2|done|done].
Qed.

Lemma serve_artifacts_ok ws c w st :
  ws ≠ EmptyString → maxArtifactSize maxSize < int64_max → art_inv st → runs_ok (w_db w) →
  call_ok ws c w st (serve_artifacts ws c (w, st)).
Proof.
  intros Hws Hmax Hinv Hruns. destruct c as [q|q]; cbn [serve_artifacts].
  { unfold ListArtifacts. cbv zeta. destruct (decide (_ = EmptyString)); [by apply error_ok|].
    apply with_run_ok; [done..|]. intros run w' Hw HR Hrun. apply list_ok; try done. split; [done|]. case_decide; auto. }
  assert (bool_decide (aq_Method q = "GET"%string) && bool_decide (TrimPrefix (aq_Star q) "/" = EmptyString) =
    bool_decide (aq_Method q = "GET"%string ∧ (aq_Star q = EmptyString ∨ aq_Star q = "/"%string))) as Hlist.
  { apply eq_bool_prop_intro. rewrite andb_True, !bool_decide_spec, <- empty_star, bool_decide_eq_true. done. }
  unfold artifactsRouter. rewrite Hlist. clear Hlist.
  destruct (bool_decide (_ ∧ _)) eqn:Hget; [apply bool_decide_eq_true in Hget|apply bool_decide_eq_false in Hget].
  { destruct (splitQueryPath _) as [R rel] eqn:Hsp. destruct (decide (R = EmptyString)); [by apply error_ok|].
    apply with_run_ok; [done..|]. intros run w' Hw HR Hrun. apply list_ok; try done; [|apply Hget].
    cbn. rewrite decide_True by done. unfold splitQueryPath in Hsp. destruct (decide (_ = EmptyString)); [by injection Hsp as <- <-|].
    by apply split_run_names. }
  destruct (splitArtifactPath (aq_Star q)) as [[R rel]|] eqn:Hsp; [|by apply error_ok].
  assert (addressed (CallRouter q) R rel) as Ha.
  { cbn. rewrite decide_False by done. unfold splitArtifactPath in Hsp. destruct (decide (_ = EmptyString)); [done|].
    injection Hsp as Hsp. by apply split_run_names. }
  apply with_run_ok; [done..|]. intros run w' Hw HR Hrun. cbv zeta.
  destruct (decide (aq_Method q = "GET"%string)) as [Hm|Hm]; [|destruct (decide (aq_Method q = "PUT"%string)) as [Hm'|Hm']].
  - unfold on_artifacts. pose proof (art_open_law R rel st Hinv Hrun) as Ho.
    destruct (art_Open R rel st) as [[e|[x n]] st']; destruct Ho as (Hinv' & Hsame & Ho & _).
    + apply error_ok; [done| |apply writeArtifactErr_body]. split; [done|]. intros. by apply Hsame.
    + split_and!; [done| |]; [split; [done|]; intros; by apply Hsame|]. intros b [= <-]. exists R, rel.
      destruct (Ho x n eq_refl). by split_and!.
  - pose proof (art_upload_law R rel (MaxBytesReader (aq_Body q) (maxArtifactSize maxSize)) (maxArtifactSize maxSize) st Hinv Hrun Hmax) as Hu.
    destruct (art_Upload _ _ _ _ st) as [[e|[]] st']; destruct Hu as (Hinv' & Hfr & Hu).
    + apply error_ok; [done|by eapply confined_run|apply writeArtifactErr_body].
    + split_and!; [done|by eapply confined_run|]. intros b [= <-]. exists R, rel. split_and!; [done..|left].
      destruct (Hu eq_refl) as (Hst & Herr & _). destruct (MaxBytesReader_spec _ _ Herr) as [Heq Hle].
      rewrite Heq in Hst, Herr. done.
  - destruct (decide (aq_Method q = "DELETE"%string)) as [Hd|Hd]; [|by apply error_ok].
    unfold on_artifacts. pose proof (art_delete_law R rel st Hinv Hrun) as Hdel.
    destruct (art_Delete R rel st) as [[e|[]] st']; destruct Hdel as (Hinv' & Hfr & Hdel).
    + apply error_ok; [done|eapply confined_run; [done..|]; intros; apply Hfr; auto|apply writeArtifactErr_body].
    + split_and!; [done|eapply confined_run; [done..|]; intros; apply Hfr; auto|]. intros b [= <-]. exists R, rel.
      split_and!; [done..|right]. split; [done|]. intros p. case_decide; [by apply Hdel|apply Hfr; auto].
Qed.

(** C14: artifacts stay in their workspace, on every store that keeps the
    promise of the interface.  A call of the artifact proxy in a workspace
    changes nothing in the database and no artifact of a run of another
    workspace.  What it confirms is of the run and the path the request names,
    and that run belongs to the workspace: the bytes it returns are the artifact
    at that path; the files it lists are the artifacts at that path and directly
    below it, all of them and with their sizes; an upload is stored at that path,
    complete and within the limit; after a deletion there is no artifact at the
    path and below it, and the others of the run are as they were.  And no
    sequence of calls served in other workspaces changes an artifact of a
    workspace. *)
Theorem artifacts_confined w st :
  maxArtifactSize maxSize < int64_max → art_inv st → runs_ok (w_db w) →
  (∀ ws c, ws ≠ EmptyString → call_ok ws c w st (serve_artifacts ws c (w, st))) ∧
  (∀ v calls R p, run_owner (w_db w) R = Some v → Forall (λ x, x.1 ≠ EmptyString ∧ x.1 ≠ v) calls →
     artifact (foldl (λ s x, (serve_artifacts x.1 x.2 s).2) (w, st) calls).2 R p = artifact st R p).
Proof.
  intros Hmax Hinv Hruns. split; [intros ws c Hws; by apply serve_artifacts_ok|].
  intros v calls R p HR Hcalls. revert w st Hinv Hruns HR. induction Hcalls as [|[ws c] calls [Hne Hv] Hcalls IH]; intros w st Hinv Hruns HR; [done|].
  cbn [foldl fst snd] in *. destruct (serve_artifacts_ok ws c w st Hne Hmax Hinv Hruns) as (Hw & [Hinv' Hc] & _).
  destruct (serve_artifacts ws c (w, st)) as [rep [w' st']]. cbn [fst snd] in *.
  rewrite IH; [|done|by rewrite Hw..]. apply Hc; [|congruence]. apply Hruns. unfold run_owner in HR. by destruct (runs (w_db w) !! R).
Qed.
End isolation.

(** ** The file name of a download *)

(** What follows a quoted string whose opening quote was read. *)
Fixpoint after_quoted (s : string) : option string :=
  match s with
  | EmptyString => None
  | String c s1 =>
      if bool_decide (c = "\"%char) then match s1 with String _ s2 => after_quoted s2 | EmptyString => None end
      else if bool_decide (c = quote) then Some s1 else after_quoted s1
  end.

(** Without a backslash in it, the name cannot end the quoted string. *)
Lemma disposition_quoted name :
  any_byte (λ c, bool_decide (c = "\"%char)) name = false →
  after_quoted (escape_quote name +:+ String quote EmptyString) = Some EmptyString.
Proof.
  induction name as [|c name IH]; [done|]. cbn [any_byte]. intros [Hc%bool_decide_eq_false Hn]%orb_false_iff. specialize (IH Hn).
  cbn [escape_quote]. case_bool_decide as Hq; cbn [String.append after_quoted].
  - by rewrite bool_decide_eq_true_2.
  - by rewrite !bool_decide_eq_false_2.
Qed.

(** ** Examples *)

Module Example10.
Import Isolation.Example1 Artifacts.Example8.
#[local] Existing Instance no_faults.
#[local] Instance fs : ArtifactStore Disk := filesystem_store "/srv" store.
#[local] Instance fs_ok : ArtifactStoreOk Disk := filesystem_store_ok "/srv" store eq_refl ltac:(done).

Definition put (run rel data : string) : artifact_call :=
  CallRouter (mkArtifactRequest "PUT" (run +:+ "/" +:+ rel) "" "" "" (mkReader data None)).
Definition get_ (run rel : string) : artifact_call :=
  CallRouter (mkArtifactRequest "GET" (run +:+ "/" +:+ rel) "" "" "" (mkReader "" None)).
Definition del (run rel : string) : artifact_call :=
  CallRouter (mkArtifactRequest "DELETE" (run +:+ "/" +:+ rel) "" "" "" (mkReader "" None)).

Definition state1 : World * Disk := (serve_artifacts 0 "default" (put "r1" "m/w" "abc") (two_w, disk0)).2.
Definition attacks : list (string * artifact_call) :=
  [("team", put "r1" "m/w" "stolen"); ("team", del "r1" ""); ("team", put "r2" "../r1/m/w" "x"); ("team", get_ "r1" "m/w")]%string.

Fixpoint replies (l : list (string * artifact_call)) (s : World * Disk) : list Z :=
  match l with
  | [] => []
  | p :: l' => rp_Status (serve_artifacts 0 p.1 p.2 s).1 :: replies l' (serve_artifacts 0 p.1 p.2 s).2
  end.

Lemma artifacts_confined_witness :
  rp_Status (serve_artifacts 0 "default" (get_ "r1" "m/w") state1).1 = 200 ∧
  replies attacks state1 = [404; 404; 200; 404] ∧
  artifact (foldl (λ s x, (serve_artifacts 0 x.1 x.2 s).2) state1 attacks).2 "r1" ["m"; "w"]%string = Some "abc"%string.
Proof.
  split; [vm_compute; reflexivity|]. split; [vm_compute; reflexivity|].
  assert (runs_ok (w_db state1.1)) as Hruns.
  { assert (∀ R, is_Some (runs (w_db state1.1) !! R) → R = "r2"%string ∨ R = "r1"%string) as Hin.
    { change (runs (w_db state1.1)) with (<["r2"%string := team_run]> {[ "r1"%string := ex_run ]} : gmap string RunRow).
      intros R [x [[-> _]|[_ [-> _]%lookup_singleton_Some]]%lookup_insert_Some]; auto. }
    intros R [->| ->]%Hin; (change (plain_run "r1") || change (plain_run "r2")); (split; [repeat split|]; done). }
  assert (art_inv state1.2) as Hinv.
  { assert (runs_ok (w_db two_w)) as Hruns0 by exact Hruns.
    apply (serve_artifacts_ok 0 "default" (put "r1" "m/w" "abc") two_w disk0); [done|done|exact disk0_wf|exact Hruns0]. }
  change state1 with (state1.1, state1.2) at 1.
  rewrite (proj2 (artifacts_confined 0 state1.1 state1.2 ltac:(done) Hinv Hruns) "default"%string attacks "r1"%string).
  - vm_compute. reflexivity.
  - vm_compute. reflexivity.
  - repeat apply Forall_cons_2; try apply Forall_nil_2; done.
Defined.

(** A backslash before a quote undoes the escape: the name ends the quoted
    string, and the rest of it is read as parameters of the header. *)
Example backslash_ends_name :
  let name := "a\" +:+ String quote "; filename*=x" in
  after_quoted (escape_quote name +:+ String quote EmptyString) = Some ("; filename*=x" +:+ String quote EmptyString).
Proof. reflexivity. Qed.
End Example10.
