(* ===== verification/S3.v ===== *)
(** * Artifacts in S3 (internal/artifact/s3.go)

    The store on an S3-compatible service: keys, signed requests, single and
    multipart uploads, listings.  The service is a parameter: what it answers
    may depend on every request it got before.  An operation runs on the log of
    the requests sent so far.  SHA-256, HMAC, XML and the format of times are
    parameters; the endpoint is given by its parts; the temporary file of a
    large upload holds what is written to it. *)

From S2P Require Import Prelude GoStrings Urls Paths FileSystem Artifacts Model.
From Stdlib Require Import Ascii.

Open Scope Z_scope.

(** ** Configuration *)

Record Endpoint := mkEndpoint { ep_Scheme : string; ep_Host : string; ep_Hostname : string; ep_Path : string }.

Record S3Config := mkS3Config {
  c_Endpoint : string; c_Bucket : string; c_Region : string; c_Prefix : string;
  c_AccessKey : string; c_SecretKey : string; c_MultipartThreshold : Z }.

Record S3Store := mkS3Store {
  s3_endpoint : Endpoint; s3_bucket : string; s3_region : string; s3_prefix : string;
  s3_accessKey : string; s3_secretKey : string; s3_pathStyle : bool; s3_multipartThreshold : Z }.

Definition DefaultMultipartThreshold : Z := Z.shiftl 100 20.
Definition defaultUploadCap : Z := Z.shiftl 5 30.

Definition bucket_edge (c : ascii) : bool := byte_in 97 122 c || byte_in 48 57 c.

Definition validBucketName (name : string) : bool :=
  let n := slen name in
  (3 <=? n)%nat && (n <=? 63)%nat &&
  negb (any_byte (λ c, negb (bucket_edge c || byte_is 45 c || byte_is 46 c)) name) &&
  negb (any_byte (λ c, negb (bucket_edge c)) (stake 1 name)) &&
  negb (any_byte (λ c, negb (bucket_edge c)) (sdrop (n - 1) name)) &&
  negb (Contains name "..").

Definition NewS3Store (Parse : string → option Endpoint) (cfg : S3Config) : option S3Store :=
  if decide (c_Endpoint cfg = EmptyString) then None
  else if decide (c_Bucket cfg = EmptyString) then None
  else if negb (validBucketName (c_Bucket cfg)) then None
  else if decide (c_Region cfg = EmptyString) then None
  else if decide (c_AccessKey cfg = EmptyString ∨ c_SecretKey cfg = EmptyString) then None
  else match Parse (TrimRightSlash (c_Endpoint cfg)) with
       | None => None
       | Some u =>
           Some (mkS3Store u (c_Bucket cfg) (c_Region cfg) (c_Prefix cfg) (c_AccessKey cfg) (c_SecretKey cfg)
             (negb (HasSuffix (ep_Hostname u) "amazonaws.com"))
             (if c_MultipartThreshold cfg <=? 0 then DefaultMultipartThreshold else c_MultipartThreshold cfg))
       end.

(** ** Keys and addresses *)

Definition validateRunID (runID : string) : bool :=
  negb (bool_decide (runID = EmptyString)) && negb (ContainsAny runID "/\") && negb (Contains runID "..").

Definition cleanRelPath (relPath : string) : string := TrimPrefix (Clean ("/" +:+ relPath)) "/".

Definition key (s : S3Store) (runID relPath : string) : string :=
  s3_prefix s +:+ "artifacts/" +:+ runID +:+ "/" +:+ cleanRelPath relPath.

(** The segments escaped, the slashes kept. *)
Definition escape_segments (s : string) : string := Join "/" (PathEscape <$> Split1 "/" s).

Definition encodeKeyPath (k : string) : string := if decide (k = EmptyString) then EmptyString else escape_segments k.

(** Host and escaped path of the URL of a key. *)
Definition objectURL (s : S3Store) (k : string) : string * string :=
  let encoded := encodeKeyPath k in
  let u := s3_endpoint s in
  if s3_pathStyle s then
    (ep_Host u, if decide (encoded = EmptyString) then ep_Path u +:+ "/" +:+ s3_bucket s
                else ep_Path u +:+ "/" +:+ s3_bucket s +:+ "/" +:+ encoded)
  else
    (s3_bucket s +:+ "." +:+ ep_Host u,
     if decide (encoded = EmptyString) then ep_Path u else ep_Path u +:+ "/" +:+ encoded).

(** ** Requests *)

Record Request := mkRequest {
  rq_Method : string; rq_Host : string; rq_Path : string (* escaped *); rq_RawQuery : string;
  rq_Header : gmap string string; rq_Body : option string }.

Record Response := mkResponse { rs_Status : Z; rs_ETag : string; rs_ContentLength : Z; rs_Body : string }.

(** *** Signature version 4 *)

Definition canonicalizeURI (path : string) : string := if decide (path = EmptyString) then "/"%string else escape_segments path.

(** [url.ParseQuery], without the pairs it rejects. *)
Definition parse_pair (s : string) : option (string * string) :=
  if decide (s = EmptyString) then None
  else if Contains s ";" then None
  else let '(k, v) := match Cut s "=" with Some p => p | None => (s, EmptyString) end in
       k ← QueryUnescape k; v ← QueryUnescape v; Some (k, v).
Definition ParseQuery (s : string) : list (string * string) := omap parse_pair (Split1 "&" s).

(** The keys sorted, and the values of each key. *)
Definition canonicalizeQueryString (rawQuery : string) : string :=
  if decide (rawQuery = EmptyString) then EmptyString
  else Encode (sort_by (λ p, p) (ParseQuery rawQuery)).

(** The host, and of the headers the content type and those of Amazon. *)
Definition buildCanonicalHeaders (host : string) (headers : gmap string string) : string * string :=
  let picked := omap (λ h : string * string,
    let lower := ToLower h.1 in
    if decide (lower = "host"%string) then None
    else if bool_decide (lower = "content-type"%string) || HasPrefix lower "x-amz-" then Some (lower, TrimSpace h.2)
    else None) (map_to_list headers) in
  let pairs := sort_by fst (("host"%string, host) :: picked) in
  (Join ";" pairs.*1, Join (String "010" EmptyString) ((λ p, p.1 +:+ ":" +:+ p.2) <$> pairs) +:+ String "010" EmptyString).

Definition bytes_of (s : string) : list Z := (λ c, Z.of_N (byte_of c)) <$> String.list_ascii_of_string s.

Definition newline : string := String "010" EmptyString.

Section signing.
Context (sha256 : string → list Z) (hmac : list Z → string → list Z).

Definition sha256hex (data : string) : string := EncodeToString (sha256 data).

Definition deriveSigningKey (secret date region service : string) : list Z :=
  let kDate := hmac (bytes_of ("AWS4" +:+ secret)) date in
  let kRegion := hmac kDate region in
  let kService := hmac kRegion service in
  hmac kService "aws4_request".

Definition emptyHash : string := "e3b0c44298fc1c149afbf4c8996fb92427ae41e4649b934ca495991b7852b855".

Definition canonical_request (r : Request) (payloadHash : string) : string :=
  let '(names, headers) := buildCanonicalHeaders (rq_Host r) (rq_Header r) in
  Join newline [rq_Method r; canonicalizeURI (default (rq_Path r) (PathUnescape (rq_Path r)));
                canonicalizeQueryString (rq_RawQuery r); headers; names; payloadHash].

(** [dateStamp] and [amzDate] are the two forms of the time. *)
Definition sign (s : S3Store) (dateStamp amzDate : string) (r : Request) : Request :=
  let payloadHash := match rq_Body r with Some data => sha256hex data | None => emptyHash end in
  let header := <["X-Amz-Content-Sha256"%string := payloadHash]> (<["Host"%string := rq_Host r]>
                 (<["X-Amz-Date"%string := amzDate]> (rq_Header r))) in
  let header := if decide (rq_Method r = "PUT"%string ∧ header !! "Content-Type"%string = None)
                then <["Content-Type"%string := "application/octet-stream"%string]> header else header in
  let r := mkRequest (rq_Method r) (rq_Host r) (rq_Path r) (rq_RawQuery r) header (rq_Body r) in
  let credentialScope := dateStamp +:+ "/" +:+ s3_region s +:+ "/s3/aws4_request" in
  let strToSign := Join newline ["AWS4-HMAC-SHA256"%string; amzDate; credentialScope; sha256hex (canonical_request r payloadHash)] in
  let signature := EncodeToString (hmac (deriveSigningKey (s3_secretKey s) dateStamp (s3_region s) "s3") strToSign) in
  let auth := "AWS4-HMAC-SHA256 Credential=" +:+ s3_accessKey s +:+ "/" +:+ credentialScope +:+ ", SignedHeaders=" +:+
              (buildCanonicalHeaders (rq_Host r) (rq_Header r)).1 +:+ ", Signature=" +:+ signature in
  mkRequest (rq_Method r) (rq_Host r) (rq_Path r) (rq_RawQuery r) (<["Authorization"%string := auth]> header) (rq_Body r).

(** The parameters by ascending key. *)
Definition newRequest (s : S3Store) (dateStamp amzDate method k : string) (body : option string) (params : list (string * string)) : Request :=
  let '(host, path) := objectURL s k in
  sign s dateStamp amzDate (mkRequest method host path (if decide (params = []) then EmptyString else Encode params) ∅ body).
End signing.

(** ** Operations *)

(** The outcome of an operation; [SRunning] has not ended within the fuel. *)
Inductive s3_result (A : Type) := SOk (a : A) | SErr (e : artifact_error) | SRunning.
Arguments SOk {A}.
Arguments SErr {A}.
Arguments SRunning {A}.

Definition S3 (A : Type) : Type := list Request → s3_result A * list Request.

#[export] Instance S3_ret : MRet S3 := λ A a log, (SOk a, log).
#[export] Instance S3_bind : MBind S3 := λ A B f m log,
  match m log with
  | (SOk a, log') => f a log'
  | (SErr e, log') => (SErr e, log')
  | (SRunning, log') => (SRunning, log')
  end.
Definition sthrow {A} (e : artifact_error) : S3 A := λ log, (SErr e, log).
Definition running {A} : S3 A := λ log, (SRunning, log).
(** On an error, do [cleanup], drop its outcome, and return the error. *)
Definition on_error {A} (m : S3 A) (cleanup : S3 unit) : S3 A := λ log,
  match m log with
  | (SErr e, log') => (SErr e, (cleanup log').2)
  | r => r
  end.

Record multipartPart := mkPart { mp_Number : Z; mp_ETag : string }.
Record listing := mkListing { ls_Contents : list (string * Z); ls_Prefixes : list string; ls_IsTruncated : bool; ls_NextToken : string }.

Section operations.
Context (sha256 : string → list Z) (hmac : list Z → string → list Z).
(** The service, by all the requests before; [None] is a failing transport. *)
Context (service : list Request → Request → option Response).
(** The two forms of the time at the sending of a request. *)
Context (date : nat → string * string).
(** [encoding/xml] *)
Context (xml_upload_id : string → option string) (xml_listing : string → option listing)
  (xml_complete : list multipartPart → string).
Context (s : S3Store).

Definition request (method k : string) (body : option string) (params : list (string * string)) : S3 Request := λ log,
  let '(dateStamp, amzDate) := date (length log) in
  (SOk (newRequest sha256 hmac s dateStamp amzDate method k body params), log).

(** [s.http.Do] *)
Definition Do (r : Request) : S3 Response := λ log,
  (match service log r with Some resp => SOk resp | None => SErr ErrBackend end, log ++ [r]).

Definition status_in (l : list Z) (resp : Response) : bool := bool_decide (rs_Status resp ∈ l).

Definition initiateMultipart (k : string) : S3 string :=
  req ← request "POST" k None [("uploads", "")]%string;
  resp ← Do req;
  if negb (status_in [200] resp) then sthrow ErrBackend else
  match xml_upload_id (rs_Body resp) with
  | Some id => if decide (id = EmptyString) then sthrow ErrBackend else mret id
  | None => sthrow ErrBackend
  end.

Definition uploadPart (k uploadID : string) (partNum : Z) (body : string) : S3 string :=
  req ← request "PUT" k (Some body) [("partNumber", FormatInt partNum); ("uploadId", uploadID)]%string;
  resp ← Do req;
  if negb (status_in [200; 204] resp) then sthrow ErrBackend else mret (rs_ETag resp).

Definition with_header (h v : string) (r : Request) : Request :=
  mkRequest (rq_Method r) (rq_Host r) (rq_Path r) (rq_RawQuery r) (<[h := v]> (rq_Header r)) (rq_Body r).

Definition completeMultipart (k uploadID : string) (parts : list multipartPart) : S3 unit :=
  req ← request "POST" k (Some (xml_complete parts)) [("uploadId"%string, uploadID)];
  resp ← Do (with_header "Content-Type" "application/xml" req);
  if negb (status_in [200] resp) then sthrow ErrBackend else mret tt.

Definition abortMultipart (k uploadID : string) : S3 unit :=
  req ← request "DELETE" k None [("uploadId"%string, uploadID)];
  resp ← Do req;
  if negb (status_in [204; 200] resp) then sthrow ErrBackend else mret tt.

(** The loop over the parts; [fuel] bounds the bytes left. *)
Fixpoint upload_parts (fuel : nat) (k uploadID : string) (partNum : Z) (rest : string) : S3 (list multipartPart) :=
  match fuel with
  | O => running
  | S fuel' =>
      if decide (rest = EmptyString) then mret [] else
      let n := Z.to_nat (s3_multipartThreshold s) in
      etag ← on_error (uploadPart k uploadID partNum (stake n rest)) (abortMultipart k uploadID);
      parts ← upload_parts fuel' k uploadID (partNum + 1) (sdrop n rest);
      mret (mkPart partNum etag :: parts)
  end.

Definition uploadMultipart (k body : string) : S3 unit :=
  uploadID ← initiateMultipart k;
  parts ← upload_parts (S (slen body)) k uploadID 1 body;
  on_error (completeMultipart k uploadID parts) (abortMultipart k uploadID).

(** [head] was read before; the rest is copied up to the limit. *)
Definition uploadSpooled (k head : string) (r : Reader) (maxSize : Z) : S3 unit :=
  let headLen := Z.of_nat (slen head) in
  let rest := LimitReader r (wrap64 (maxSize - headLen + 1)) in
  match rd_err rest with
  | Some e => sthrow (ErrReading e)
  | None =>
      if maxSize <? headLen + Z.of_nat (slen (rd_data rest)) then sthrow ErrPayloadTooBig
      else uploadMultipart k (head +:+ rd_data rest)
  end.

Definition Upload (runID relPath : string) (r : Reader) (maxSize : Z) : S3 unit :=
  if negb (validateRunID runID) then sthrow ErrInvalidPath
  else if decide (cleanRelPath relPath = EmptyString) then sthrow ErrInvalidPath
  else
    let k := key s runID relPath in
    let maxSize := if maxSize <=? 0 then defaultUploadCap else maxSize in
    let firstCap := if maxSize <? s3_multipartThreshold s then maxSize else s3_multipartThreshold s in
    let buf := LimitReader r (wrap64 (firstCap + 1)) in
    match rd_err buf with
    | Some e => sthrow (ErrReading e)
    | None =>
        let n := Z.of_nat (slen (rd_data buf)) in
        if maxSize <? n then sthrow ErrPayloadTooBig
        else if s3_multipartThreshold s <? n
             then uploadSpooled k (rd_data buf) (mkReader (sdrop (slen (rd_data buf)) (rd_data r)) (rd_err r)) maxSize
        else req ← request "PUT" k (Some (rd_data buf)) [];
             resp ← Do req;
             if negb (status_in [200; 204] resp) then sthrow ErrBackend else mret tt
    end.

Definition Open (runID relPath : string) : S3 (string * Z) :=
  if negb (validateRunID runID) then sthrow ErrInvalidPath else
  req ← request "GET" (key s runID relPath) None [];
  resp ← Do req;
  if status_in [404] resp then sthrow ErrArtifactNotFound
  else if negb (status_in [200] resp) then sthrow ErrBackend
  else mret (rs_Body resp, rs_ContentLength resp).

Definition deleteObject (k : string) : S3 unit :=
  req ← request "DELETE" k None [];
  resp ← Do req;
  if status_in [404] resp then sthrow ErrArtifactNotFound
  else if negb (status_in [204; 200] resp) then sthrow ErrBackend else mret tt.

(** The parameters of [ListObjectsV2], by ascending key. *)
Definition list_params (delimiter : bool) (prefix contToken : string) : list (string * string) :=
  (if decide (contToken = EmptyString) then [] else [("continuation-token"%string, contToken)]) ++
  (if delimiter then [("delimiter", "/")]%string else []) ++ [("list-type", "2"); ("prefix", prefix)]%string.

Definition list_page (delimiter : bool) (prefix contToken : string) : S3 listing :=
  req ← request "GET" EmptyString None (list_params delimiter prefix contToken);
  resp ← Do req;
  if negb (status_in [200] resp) then sthrow ErrBackend else
  match xml_listing (rs_Body resp) with Some l => mret l | None => sthrow ErrBackend end.

(** The loops of [List] and [listAllKeys]: the pages, as long as they are
    truncated. *)
Fixpoint list_pages (fuel : nat) (delimiter : bool) (prefix contToken : string) : S3 (list listing) :=
  match fuel with
  | O => running
  | S fuel' =>
      page ← list_page delimiter prefix contToken;
      if ls_IsTruncated page
      then pages ← list_pages fuel' delimiter prefix (ls_NextToken page); mret (page :: pages)
      else mret [page]
  end.

Context (fuel : nat).

Definition listAllKeys (prefix : string) : S3 (list string) :=
  pages ← list_pages fuel false prefix EmptyString;
  mret (pages ≫= λ p, (ls_Contents p).*1).

Fixpoint delete_all (keys : list string) : S3 unit :=
  match keys with
  | [] => mret tt
  | k :: keys' =>
      _ ← (λ log, match deleteObject k log with (SErr ErrArtifactNotFound, log') => (SOk tt, log') | r => r end);
      delete_all keys'
  end.

Definition Delete (runID relPath : string) : S3 unit :=
  if negb (validateRunID runID) then sthrow ErrInvalidPath else
  let k := TrimSuffix (key s runID relPath) "/" in
  keys ← listAllKeys k;
  let targets := filter (λ x, x = k ∨ HasPrefix x (k +:+ "/") = true) keys in
  if decide (targets = []) then sthrow ErrArtifactNotFound else delete_all targets.

Definition page_entries (baseKey : string) (p : listing) : list ListEntry :=
  ((λ cp, mkListEntry (TrimSuffix (TrimPrefix cp baseKey) "/") true 0) <$> ls_Prefixes p) ++
  omap (λ c : string * Z, let rel := TrimPrefix c.1 baseKey in
     if decide (rel = EmptyString) then None else Some (mkListEntry rel false c.2)) (ls_Contents p).

Definition List (runID dir : string) : S3 (list ListEntry) :=
  if negb (validateRunID runID) then sthrow ErrInvalidPath else
  let baseKey := key s runID "" in
  let d := cleanRelPath dir in
  let listPrefix := if decide (d = EmptyString) then baseKey else baseKey +:+ d +:+ "/" in
  pages ← list_pages fuel true listPrefix EmptyString;
  mret (pages ≫= page_entries baseKey).
End operations.
