(* ===== verification/S3Laws.v ===== *)
(** * What the S3 store does

    Keys of different runs never meet, requests stay inside their run whatever
    the service answers, uploads follow the multipart protocol, and the
    signature agrees with the specification of Amazon on the keys and queries
    it encodes alike. *)

From S2P Require Import Prelude GoStrings Urls Paths FileSystem Artifacts Model S3.
From Stdlib Require Import Ascii.

Open Scope Z_scope.

(** ** Keys *)

Lemma unescape_app s t : PathUnescape (PathEscape s +:+ t) = String.append s <$> PathUnescape t.
Proof.
  unfold PathUnescape. induction s as [|c s IH]; [cbn; by destruct (unescape false t)|]. cbn [PathEscape].
  destruct (unreserved c || segment_extra c) eqn:Hc.
  - cbn [String.append]. rewrite unescape_plain; [|by apply PathEscape_plain|done]. rewrite IH. by destruct (unescape false t).
  - change (percent c (PathEscape s) +:+ t) with (percent c (PathEscape s +:+ t)). rewrite unescape_percent, IH. by destruct (unescape false t).
Qed.

Lemma Join_Split1 s : Join "/" (Split1 slash s) = s.
Proof.
  induction s as [|c s IH]; [done|]. cbn [Split1]. case_bool_decide as Hc.
  - subst. pose proof (Split1_nonempty slash s). destruct (Split1 slash s) as [|w ws]; [done|]. rewrite Join_cons, IH. done.
  - pose proof (Split1_nonempty slash s). destruct (Split1 slash s) as [|w ws]; [done|].
    change (String c (Join "/" (w :: ws)) = String c s). by rewrite IH.
Qed.

Lemma escape_segments_roundtrip s : PathUnescape (escape_segments s) = Some s.
Proof.
  unfold escape_segments. rewrite <- (Join_Split1 s) at 2. pose proof (Split1_nonempty slash s) as Hne.
  induction (Split1 slash s) as [|x [|y l] IH]; [done|cbn; rewrite !sapp_nil_r; apply PathEscape_roundtrip|].
  cbn [fmap list_fmap]. rewrite !Join_cons, unescape_app. unfold PathUnescape in *.
  rewrite unescape_plain by done. cbn [fmap list_fmap] in IH. rewrite IH by done. done.
Qed.

Lemma escape_segments_inj s t : escape_segments s = escape_segments t → s = t.
Proof. intros E%(f_equal PathUnescape). rewrite !escape_segments_roundtrip in E. by injection E. Qed.

Lemma escape_segments_nonempty s : s ≠ EmptyString → escape_segments s ≠ EmptyString.
Proof. intros Hs E. apply (f_equal PathUnescape) in E. rewrite escape_segments_roundtrip in E. by injection E. Qed.

(** The address of a key determines it. *)
Lemma objectURL_inj s k k' : (objectURL s k).2 = (objectURL s k').2 → k = k'.
Proof.
  unfold objectURL, encodeKeyPath. assert (∀ a b c : string, a +:+ b = a +:+ c → b = c) as Hcancel.
  { intros a b c. induction a as [|x a IH]; [done|]. cbn. intros [= E]. auto. }
  assert (∀ a b : string, a = a +:+ b → b = EmptyString) as Hself.
  { intros a b E. apply (Hcancel a). by rewrite sapp_nil_r. }
  destruct (decide (k = EmptyString)) as [->|Hk], (decide (k' = EmptyString)) as [->|Hk'];
    rewrite ?(decide_True (P := EmptyString = EmptyString)) by done;
    rewrite ?(decide_False (P := escape_segments k = EmptyString)) by (by apply escape_segments_nonempty);
    rewrite ?(decide_False (P := escape_segments k' = EmptyString)) by (by apply escape_segments_nonempty);
    destruct (s3_pathStyle s); cbn [snd]; intros E; try done.
  - apply Hcancel in E. cbn in E. injection E as E. by apply Hself in E.
  - by apply Hself in E.
  - symmetry in E. apply Hcancel in E. cbn in E. injection E as E. by apply Hself in E.
  - symmetry in E. by apply Hself in E.
  - apply Hcancel, Hcancel, Hcancel, Hcancel in E. by apply escape_segments_inj.
  - apply Hcancel, Hcancel in E. by apply escape_segments_inj.
Qed.

(** The keys of a run. *)
Definition base (s : S3Store) (run : string) : string := s3_prefix s +:+ "artifacts/" +:+ run.
Definition under (s : S3Store) (run k : string) : Prop := k = base s run ∨ HasPrefix k (base s run +:+ "/") = true.

Lemma cleanRelPath_spec rel : cleanRelPath rel = Join "/" (rel_components rel).
Proof.
  unfold cleanRelPath. rewrite (Clean_abs ("/" +:+ rel) (HasPrefix_app rel "/")). apply (TrimPrefix_app "/").
Qed.

Lemma key_spec s run rel : key s run rel = base s run +:+ "/" +:+ Join "/" (rel_components rel).
Proof. unfold key, base. by rewrite cleanRelPath_spec, !sapp_assoc. Qed.

(** Artifacts at different paths have different keys. *)
Lemma key_inj s run rel rel' : key s run rel = key s run rel' → rel_components rel = rel_components rel'.
Proof.
  rewrite !key_spec. intros E%(f_equal (λ k, TrimPrefix k (base s run +:+ "/"))). rewrite <- !sapp_assoc, !TrimPrefix_app in E.
  apply absolute_inj; [apply rel_components_plain..|]. unfold absolute. by rewrite E.
Qed.

Lemma validateRunID_slash run : validateRunID run = true → no_slash run = true.
Proof.
  unfold validateRunID, ContainsAny, no_slash. intros [[_ Hs%negb_true_iff]%andb_prop _]%andb_prop.
  apply negb_true_iff. induction run as [|c run IH]; [done|]. cbn [any_byte] in *. apply orb_false_iff in Hs as [H1 H2].
  apply orb_false_iff in H1 as [H1 _]. by rewrite H1, IH.
Qed.

Lemma under_disjoint s run run' k :
  validateRunID run = true → validateRunID run' = true → under s run k → under s run' k → run = run'.
Proof.
  intros Hr%validateRunID_slash Hr'%validateRunID_slash. unfold under, base. rewrite !HasPrefix_spec.
  assert (∀ r k, no_slash r = true → k = s3_prefix s +:+ "artifacts/" +:+ r ∨ (∃ t, k = ((s3_prefix s +:+ "artifacts/" +:+ r) +:+ "/") +:+ t) →
    head (Split1 slash (TrimPrefix k (s3_prefix s +:+ "artifacts/"))) = Some r) as Hhead.
  { intros r x Hno [->|[t ->]].
    - rewrite <- sapp_assoc, TrimPrefix_app. by rewrite Split1_single.
    - rewrite !sapp_assoc, <- (sapp_assoc (s3_prefix s)), TrimPrefix_app.
      change ("/" +:+ t) with (String slash t). rewrite Split1_app, Split1_single by done. done. }
  intros H1 H2. apply Hhead in H1, H2; [|done..]. congruence.
Qed.

(** ** What is sent *)

(** The operation appends to the log requests that satisfy [P]. *)
Definition sends {A} (P : Request → Prop) (m : S3 A) : Prop :=
  ∀ log, ∃ new, (m log).2 = log ++ new ∧ Forall P new.

Section sends.
Context (P : Request → Prop).

Lemma sends_nothing {A} (m : S3 A) : (∀ log, (m log).2 = log) → sends P m.
Proof. intros Hm log. exists []. split; [by rewrite app_nil_r|apply Forall_nil_2]. Qed.

Lemma sends_ret {A} (a : A) : sends P (mret a).
Proof. by apply sends_nothing. Qed.
Lemma sends_throw {A} e : sends P (sthrow e : S3 A).
Proof. by apply sends_nothing. Qed.
Lemma sends_running {A} : sends P (running : S3 A).
Proof. by apply sends_nothing. Qed.

Lemma sends_bind {A B} (m : S3 A) (f : A → S3 B) : sends P m → (∀ a, sends P (f a)) → sends P (m ≫= f).
Proof.
  intros Hm Hf log. unfold mbind, S3_bind. destruct (Hm log) as (new & E & Hnew). destruct (m log) as [[a|e|] log']; cbn [snd] in *; eauto.
  destruct (Hf a log') as (new' & E' & Hnew'). exists (new ++ new'). rewrite E', E, app_assoc. split; [done|]. by apply Forall_app_2.
Qed.

Lemma sends_on_error {A} (m : S3 A) c : sends P m → sends P c → sends P (on_error m c).
Proof.
  intros Hm Hc log. unfold on_error. destruct (Hm log) as (new & E & Hnew). destruct (m log) as [[a|e|] log']; cbn [snd] in *; eauto.
  destruct (Hc log') as (new' & E' & Hnew'). exists (new ++ new'). rewrite E', E, app_assoc. split; [done|]. by apply Forall_app_2.
Qed.

Lemma sends_if {A} (b : bool) (m m' : S3 A) : sends P m → sends P m' → sends P (if b then m else m').
Proof. by destruct b. Qed.
End sends.

Create HintDb s3.
#[export] Hint Resolve sends_ret sends_throw sends_running sends_bind sends_on_error sends_if : s3.

(** What a request says on the wire. *)
Definition query (params : list (string * string)) : string := if decide (params = []) then EmptyString else Encode params.
Definition is_request (s : S3Store) (method k : string) (body : option string) (params : list (string * string)) (r : Request) : Prop :=
  rq_Method r = method ∧ (rq_Host r, rq_Path r) = objectURL s k ∧ rq_RawQuery r = query params ∧ rq_Body r = body.

Section laws.
Context (sha256 : string → list Z) (hmac : list Z → string → list Z).
Context (service : list Request → Request → option Response) (date : nat → string * string).
Context (xml_upload_id : string → option string) (xml_listing : string → option listing)
  (xml_complete : list multipartPart → string).
Context (s : S3Store).

Notation request := (request sha256 hmac date s).
Notation Do := (Do service).
Notation upload := (Upload sha256 hmac service date xml_upload_id xml_complete s).
Notation open := (Open sha256 hmac service date s).
Notation delete_ := (Delete sha256 hmac service date xml_listing s).
Notation list_ := (List sha256 hmac service date xml_listing s).

Lemma newRequest_is d a method k body params : is_request s method k body params (newRequest sha256 hmac s d a method k body params).
Proof. unfold newRequest, is_request, query. by destruct (objectURL s k) as [host path]. Qed.

Lemma with_header_is h v method k body params r : is_request s method k body params r → is_request s method k body params (with_header h v r).
Proof. done. Qed.

(** A request that is built and sent. *)
Lemma sends_request {B} P method k body params (g : Request → Request) (f : Response → S3 B) :
  (∀ r, is_request s method k body params r → P (g r)) → (∀ resp, sends P (f resp)) →
  sends P (req ← request method k body params; resp ← Do (g req); f resp).
Proof.
  intros HP Hf log. unfold mbind, S3_bind at 1. unfold S3.request. destruct (date (length log)) as [d a].
  apply (sends_bind P (Do (g (newRequest sha256 hmac s d a method k body params))) f); [|done].
  intros log'. exists [g (newRequest sha256 hmac s d a method k body params)]. split; [done|]. apply Forall_singleton, HP, newRequest_is.
Qed.

(** The requests for a run: for a key of it, or a listing of a prefix of it. *)
Definition request_for (run : string) (r : Request) : Prop :=
  (∃ k, under s run k ∧ k ≠ EmptyString ∧ (rq_Host r, rq_Path r) = objectURL s k) ∨
  (rq_Method r = "GET"%string ∧ (rq_Host r, rq_Path r) = objectURL s EmptyString ∧
   ∃ params prefix, rq_RawQuery r = Encode params ∧ ("prefix"%string, prefix) ∈ params ∧ HasPrefix prefix (base s run) = true).

Lemma under_nonempty run k : under s run k → k ≠ EmptyString.
Proof.
  assert (∀ a b : string, a +:+ String "a" b ≠ EmptyString) as Hne by (intros a b; by destruct a).
  unfold under, base. rewrite HasPrefix_spec. intros [->|[t ->]]; [apply Hne|]. rewrite !sapp_assoc. apply Hne.
Qed.

Lemma key_under run rel : under s run (key s run rel).
Proof. right. rewrite key_spec, <- sapp_assoc. apply HasPrefix_app. Qed.

Lemma request_for_key run k method body params r : under s run k → is_request s method k body params r → request_for run r.
Proof. intros Hk (_ & Ha & _). left. exists k. split_and!; [done|by eapply under_nonempty|done]. Qed.

Lemma sends_key {B} run k method body params g (f : Response → S3 B) :
  under s run k → (∀ r, is_request s method k body params r → is_request s method k body params (g r)) →
  (∀ resp, sends (request_for run) (f resp)) →
  sends (request_for run) (req ← request method k body params; resp ← Do (g req); f resp).
Proof. intros Hk Hg Hf. apply sends_request; [|done]. intros r Hr. by eapply request_for_key, Hg. Qed.

Section run.
Context (run : string).
Notation P := (request_for run).

Lemma sends_initiate k : under s run k → sends P (initiateMultipart sha256 hmac service date xml_upload_id s k).
Proof.
  intros Hk. apply (sends_key run k _ _ _ (λ r, r)); [done..|]. intros resp. apply sends_if; [auto with s3|].
  destruct (xml_upload_id _); [|auto with s3]. case_decide; auto with s3.
Qed.

Lemma sends_part k id n body : under s run k → sends P (uploadPart sha256 hmac service date s k id n body).
Proof. intros Hk. apply (sends_key run k _ _ _ (λ r, r)); [done..|]. auto with s3. Qed.

Lemma sends_abort k id : under s run k → sends P (abortMultipart sha256 hmac service date s k id).
Proof. intros Hk. apply (sends_key run k _ _ _ (λ r, r)); [done..|]. auto with s3. Qed.

Lemma sends_complete k id parts : under s run k → sends P (completeMultipart sha256 hmac service date xml_complete s k id parts).
Proof. intros Hk. apply (sends_key run k _ _ _ (with_header "Content-Type" "application/xml")); [done..|]. auto with s3. Qed.

Lemma sends_parts fuel k id n rest : under s run k → sends P (upload_parts sha256 hmac service date s fuel k id n rest).
Proof.
  intros Hk. revert n rest. induction fuel as [|fuel IH]; intros n rest; cbn [upload_parts]; [apply sends_running|].
  case_decide; [apply sends_ret|]. apply sends_bind; [apply sends_on_error; [by apply sends_part|by apply sends_abort]|intros etag].
  apply sends_bind; [apply IH|auto with s3].
Qed.

Lemma sends_upload rel r max : sends P (upload run rel r max).
Proof.
  unfold Upload. apply sends_if; [auto with s3|]. case_decide; [auto with s3|]. cbv zeta.
  pose proof (key_under run rel) as Hk. destruct (rd_err _); [auto with s3|]. apply sends_if; [auto with s3|]. apply sends_if.
  - unfold uploadSpooled. cbv zeta. destruct (rd_err _); [auto with s3|]. apply sends_if; [auto with s3|].
    apply sends_bind; [by apply sends_initiate|intros id]. apply sends_bind; [by apply sends_parts|intros parts].
    apply sends_on_error; [by apply sends_complete|by apply sends_abort].
  - apply (sends_key run _ _ _ _ (λ r, r)); [done..|]. auto with s3.
Qed.

Lemma sends_open rel : sends P (open run rel).
Proof.
  unfold Open. apply sends_if; [auto with s3|]. apply (sends_key run _ _ _ _ (λ r, r)); [apply key_under|done|]. auto with s3.
Qed.

Lemma sends_pages fuel delimiter prefix token :
  HasPrefix prefix (base s run) = true → sends P (list_pages sha256 hmac service date xml_listing s fuel delimiter prefix token).
Proof.
  intros Hp. revert token. induction fuel as [|fuel IH]; intros token; cbn [list_pages]; [apply sends_running|].
  apply sends_bind; [|intros page; apply sends_if; [apply sends_bind; [apply IH|]|]; auto with s3].
  apply (sends_request P _ _ _ _ (λ r, r)).
  - intros r (Hm & Ha & Hq & _). right. split_and!; [done..|]. exists (list_params delimiter prefix token), prefix. split_and!; [|set_solver|done].
    rewrite Hq. unfold query, list_params. rewrite decide_False; [done|]. by destruct (decide _), delimiter.
  - intros resp. apply sends_if; [auto with s3|]. destruct (xml_listing _); auto with s3.
Qed.

Lemma HasPrefix_self a b : HasPrefix (a +:+ b) a = true.
Proof. apply HasPrefix_app. Qed.

Lemma sends_list fuel dir : sends P (list_ fuel run dir).
Proof.
  unfold List. apply sends_if; [auto with s3|]. apply sends_bind; [|auto with s3]. apply sends_pages.
  rewrite key_spec. case_decide; rewrite ?sapp_assoc; apply HasPrefix_app.
Qed.

(** The key of a path, without the slash that the run itself ends in. *)
Lemma trimmed_key rel :
  TrimSuffix (key s run rel) "/" =
  if decide (rel_components rel = []) then base s run else base s run +:+ "/" +:+ Join "/" (rel_components rel).
Proof.
  rewrite key_spec. pose proof (rel_components_plain rel) as Hp. destruct (rel_components rel) as [|x l _] using rev_ind.
  - rewrite decide_True by done. cbn [Join]. rewrite sapp_nil_r. unfold TrimSuffix, HasSuffix. rewrite slen_app. cbn [slen].
    replace (slen (base s run) + 1 - 1)%nat with (slen (base s run)) by lia.
    rewrite sdrop_app, bool_decide_eq_true_2, stake_app by done.
    destruct (Nat.leb_spec 1 (slen (base s run) + 1)); [done|lia].
  - rewrite decide_False by (by destruct l). unfold TrimSuffix. destruct (HasSuffix _ "/") eqn:Hs; [|done]. exfalso.
    apply Forall_app in Hp as [_ Hx]. apply Forall_cons in Hx as [(Hx0 & _ & _ & Hx) _].
    assert (∃ u, base s run +:+ "/" +:+ Join "/" (l ++ [x]) = u +:+ x) as [u Hu].
    { destruct (decide (l = [])) as [->|Hl]; [exists (base s run +:+ "/"); cbn; by rewrite sapp_nil_r, sapp_assoc|].
      rewrite Join_snoc by done. exists (base s run +:+ "/" +:+ Join "/" l +:+ "/"). by rewrite !sapp_assoc. }
    rewrite Hu in Hs. unfold HasSuffix in Hs. apply andb_prop in Hs as [_ Hs%bool_decide_eq_true].
    rewrite slen_app in Hs. cbn [slen] in Hs.
    assert (slen u + slen x - 1 = slen u + (slen x - 1))%nat as E by (destruct x; [done|cbn; lia]).
    rewrite E, sdrop_app_plus in Hs. clear -Hs Hx Hx0. destruct x as [|c x]; [done|]. cbn [slen] in Hs. rewrite Nat.sub_succ, Nat.sub_0_r in Hs.
    revert c Hs Hx Hx0. induction x as [|d x IH]; intros c Hs Hx _.
    + cbn in Hs. injection Hs as ->. by apply no_slash_cons in Hx as [? _].
    + apply no_slash_cons in Hx as [_ Hx]. by apply (IH d).
Qed.

Lemma delete_target_under rel k :
  k = TrimSuffix (key s run rel) "/" ∨ HasPrefix k (TrimSuffix (key s run rel) "/" +:+ "/") = true → under s run k.
Proof.
  rewrite trimmed_key. unfold under. case_decide; [done|]. rewrite !HasPrefix_spec.
  intros [->|[t ->]]; right; rewrite <- !sapp_assoc; [by eexists|]. rewrite !(sapp_assoc (base s run +:+ "/")). by eexists.
Qed.

Lemma sends_delete_all keys : Forall (under s run) keys → sends P (delete_all sha256 hmac service date s keys).
Proof.
  induction 1 as [|k keys Hk Hkeys IH]; cbn [delete_all]; [apply sends_ret|]. apply sends_bind; [|intros _; apply IH].
  assert (sends P (deleteObject sha256 hmac service date s k)) as Hd.
  { apply (sends_key run k _ _ _ (λ r, r)); [done..|]. auto with s3. }
  intros log. destruct (Hd log) as (new & E & Hnew). exists new. destruct (deleteObject _ _ _ _ _ _ log) as [[a|[]|] log']; done.
Qed.

Lemma sends_delete fuel rel : sends P (delete_ fuel run rel).
Proof.
  unfold Delete. apply sends_if; [auto with s3|]. apply sends_bind.
  - apply sends_bind; [|auto with s3]. apply sends_pages. rewrite trimmed_key. case_decide; [|apply HasPrefix_app].
    rewrite <- (sapp_nil_r (base s run)) at 1. apply HasPrefix_app.
  - intros keys. case_decide; [auto with s3|]. apply sends_delete_all, Forall_forall. intros k [Hk _]%list_elem_of_filter.
    by eapply delete_target_under.
Qed.
End run.

(** An operation on the artifacts of a run. *)
Inductive s3_op := OpUpload (rel : string) (r : Reader) (max : Z) | OpOpen (rel : string) | OpDelete (rel : string) | OpList (dir : string).

Definition exec_op (fuel : nat) (run : string) (o : s3_op) (log : list Request) : list Request :=
  match o with
  | OpUpload rel r max => (upload run rel r max log).2
  | OpOpen rel => (open run rel log).2
  | OpDelete rel => (delete_ fuel run rel log).2
  | OpList dir => (list_ fuel run dir log).2
  end.

(** The S3 store never leaves the run.  Whatever the service answers, and
    however long its listings go on, every request that an operation on a run
    sends is for an object whose key is the run's directory or below it, or
    lists a prefix of the keys of the run; and no request addresses a key of
    another run, since the address of a key determines the key and the keys of
    different runs are different. *)
Theorem s3_requests_confined fuel run o log :
  ∃ new, exec_op fuel run o log = log ++ new ∧
  (∀ r, r ∈ new →
     (∃ k, under s run k ∧ (rq_Host r, rq_Path r) = objectURL s k) ∨
     (rq_Method r = "GET"%string ∧ (rq_Host r, rq_Path r) = objectURL s EmptyString ∧
      ∃ params prefix, rq_RawQuery r = Encode params ∧ ("prefix"%string, prefix) ∈ params ∧ HasPrefix prefix (base s run) = true)) ∧
  (∀ r run' rel', r ∈ new → validateRunID run = true → validateRunID run' = true → run' ≠ run →
     (rq_Host r, rq_Path r) ≠ objectURL s (key s run' rel')).
Proof.
  assert (∃ new, exec_op fuel run o log = log ++ new ∧ Forall (request_for run) new) as (new & E & Hnew).
  { destruct o; [apply sends_upload|apply sends_open|apply sends_delete|apply sends_list]. }
  exists new. rewrite Forall_forall in Hnew. split_and!; [done|..].
  - intros r Hr. destruct (Hnew r Hr) as [(k & Hk & _ & Ha)|H]; [left; by exists k|by right].
  - intros r run' rel' Hr Hv Hv' Hne Ha. destruct (Hnew r Hr) as [(k & Hk & _ & Ha')|(_ & Ha' & _)]; rewrite Ha in Ha';
      apply (f_equal snd), objectURL_inj in Ha'.
    + apply Hne. symmetry. eapply under_disjoint; [done..|]. rewrite <- Ha'. apply key_under.
    + eapply under_nonempty; [apply key_under|exact Ha'].
Qed.

(** ** The multipart protocol *)

Definition concat_strings (l : list string) : string := foldr String.append EmptyString l.

(** The requests of the parts, numbered from [n]. *)
Fixpoint part_requests (k id : string) (n : Z) (bodies : list string) (reqs : list Request) : Prop :=
  match bodies, reqs with
  | [], [] => True
  | b :: bodies', r :: reqs' =>
      is_request s "PUT" k (Some b) [("partNumber", FormatInt n); ("uploadId", id)]%string r ∧ part_requests k id (n + 1) bodies' reqs'
  | _, _ => False
  end.

Definition abort_request (k id : string) (r : Request) : Prop := is_request s "DELETE" k None [("uploadId"%string, id)] r.

(** One exchange with the service. *)
Lemma exchange {B} method k body params g (f : Response → S3 B) log :
  (∀ r, is_request s method k body params r → is_request s method k body params (g r)) →
  ∃ r, is_request s method k body params r ∧
    (req ← request method k body params; resp ← Do (g req); f resp) log =
    match service log r with Some resp => f resp (log ++ [r]) | None => (SErr ErrBackend, log ++ [r]) end.
Proof.
  intros Hg. unfold mbind, S3_bind, S3.request, S3.Do. destruct (date (length log)) as [d a].
  exists (g (newRequest sha256 hmac s d a method k body params)). split; [apply Hg, newRequest_is|].
  by destruct (service log _).
Qed.

Lemma part_spec k id n body log :
  let '(o, log') := uploadPart sha256 hmac service date s k id n body log in
  ∃ r, is_request s "PUT" k (Some body) [("partNumber", FormatInt n); ("uploadId", id)]%string r ∧ log' = log ++ [r] ∧ o ≠ SRunning.
Proof.
  unfold uploadPart. destruct (exchange "PUT" k (Some body) [("partNumber", FormatInt n); ("uploadId", id)]%string (λ r, r)
    (λ resp, if negb (status_in [200; 204] resp) then sthrow ErrBackend else mret (rs_ETag resp)) log ltac:(done)) as (r & Hr & E).
  rewrite E. destruct (service log r) as [resp|]; [destruct (negb _)|]; by exists r.
Qed.

Lemma abort_spec k id log :
  ∃ r, abort_request k id r ∧ (abortMultipart sha256 hmac service date s k id log).2 = log ++ [r].
Proof.
  unfold abortMultipart. destruct (exchange "DELETE" k None [("uploadId"%string, id)] (λ r, r)
    (λ resp, if negb (status_in [204; 200] resp) then sthrow ErrBackend else mret tt) log ltac:(done)) as (r & Hr & E).
  rewrite E. exists r. split; [done|]. destruct (service log r) as [resp|]; [destruct (negb _)|]; done.
Qed.

Lemma parts_spec fuel k id n rest log :
  (slen rest < fuel)%nat → 0 < s3_multipartThreshold s →
  let '(o, log') := upload_parts sha256 hmac service date s fuel k id n rest log in
  ∃ reqs, log' = log ++ reqs ∧
  match o with
  | SOk _ => ∃ bodies, concat_strings bodies = rest ∧ part_requests k id n bodies reqs ∧
               Forall (λ b, 0 < Z.of_nat (slen b) ≤ s3_multipartThreshold s) bodies
  | SErr _ => ∃ reqs' a, reqs = reqs' ++ [a] ∧ abort_request k id a
  | SRunning => False
  end.
Proof.
  intros Hfuel Ht. revert n rest log Hfuel. induction fuel as [|fuel IH]; intros n rest log Hfuel; [lia|]. cbn [upload_parts].
  destruct (decide (rest = EmptyString)) as [->|Hne].
  { exists []. split; [by rewrite app_nil_r|]. exists []. split_and!; [done..|apply Forall_nil_2]. }
  unfold mbind, S3_bind, on_error. set (m := Z.to_nat (s3_multipartThreshold s)).
  assert (0 < m)%nat as Hm by (unfold m; lia).
  assert (0 < slen rest)%nat as Hlen by (destruct rest; [done|cbn; lia]).
  pose proof (part_spec k id n (stake m rest) log) as Hp.
  destruct (uploadPart _ _ _ _ _ k id n (stake m rest) log) as [[etag|e|] log1]; destruct Hp as (r & Hr & -> & Hrun); [| |done].
  - specialize (IH (n + 1) (sdrop m rest) (log ++ [r])). rewrite slen_sdrop in IH. specialize (IH ltac:(lia)).
    destruct (upload_parts _ _ _ _ _ fuel _ _ _ _ _) as [[parts|e|] log2]; destruct IH as (reqs & -> & IH); [| |done].
    + destruct IH as (bodies & Hc & Hreqs & Hall). exists (r :: reqs). split; [by rewrite <- app_assoc|].
      exists (stake m rest :: bodies). split_and!; [change (stake m rest +:+ concat_strings bodies = rest); by rewrite Hc, stake_sdrop|done|]. apply Forall_cons_2; [|done].
      rewrite slen_stake. unfold m in *. lia.
    + destruct IH as (reqs' & a & -> & Ha). exists (r :: reqs' ++ [a]). split; [by rewrite <- app_assoc|]. by exists (r :: reqs'), a.
  - destruct (abort_spec k id (log ++ [r])) as (a & Ha & ->). exists [r; a]. split; [by rewrite <- app_assoc|]. by exists [r], a.
Qed.

(** The service answered the first request with an upload id. *)
Definition initiated (log reqs : list Request) (k id : string) : Prop :=
  ∃ r reqs' resp, reqs = r :: reqs' ∧ is_request s "POST" k None [("uploads", "")]%string r ∧
    service log r = Some resp ∧ rs_Status resp = 200 ∧ xml_upload_id (rs_Body resp) = Some id ∧ id ≠ EmptyString.

Lemma multipart_spec k body log :
  0 < s3_multipartThreshold s →
  let '(o, log') := uploadMultipart sha256 hmac service date xml_upload_id xml_complete s k body log in
  ∃ reqs, log' = log ++ reqs ∧
  match o with
  | SOk _ => ∃ id i parts c bodies, reqs = i :: parts ++ [c] ∧ initiated log reqs k id ∧
      concat_strings bodies = body ∧ part_requests k id 1 bodies parts ∧
      Forall (λ b, 0 < Z.of_nat (slen b) ≤ s3_multipartThreshold s) bodies ∧
      (∃ xml, is_request s "POST" k (Some xml) [("uploadId"%string, id)] c) ∧
      ∃ resp, service (log ++ i :: parts) c = Some resp ∧ rs_Status resp = 200
  | SErr _ => ∀ id, initiated log reqs k id → ∃ reqs' a, reqs = reqs' ++ [a] ∧ abort_request k id a
  | SRunning => False
  end.
Proof.
  intros Ht. unfold uploadMultipart, mbind at 1, S3_bind at 1. unfold initiateMultipart.
  destruct (exchange "POST" k None [("uploads", "")]%string (λ r, r)
    (λ resp, if negb (status_in [200] resp) then sthrow ErrBackend else
       match xml_upload_id (rs_Body resp) with
       | Some id => if decide (id = EmptyString) then sthrow ErrBackend else mret id
       | None => sthrow ErrBackend
       end) log ltac:(done)) as (i & Hi & E). rewrite E. clear E.
  assert (∀ reqs, reqs = [i] → (∀ resp, service log i = Some resp → rs_Status resp = 200 → ∀ id, xml_upload_id (rs_Body resp) = Some id → id = EmptyString) →
    ∀ id, initiated log reqs k id → ∃ reqs' a, reqs = reqs' ++ [a] ∧ abort_request k id a) as Hnone.
  { intros reqs -> Hn id (r & reqs' & resp & [= <- <-] & _ & Hresp & Hst & Hx & Hne). by destruct (Hne (Hn _ Hresp Hst _ Hx)). }
  destruct (service log i) as [resp|] eqn:Hresp; [|exists [i]; split; [done|]; apply Hnone; done].
  destruct (status_in [200] resp) eqn:Hst; unfold status_in in Hst; cbn [negb].
  2: { exists [i]. split; [done|]. apply Hnone; [done|]. intros resp' [= <-] H200. apply bool_decide_eq_false in Hst. by rewrite H200 in Hst; set_solver. }
  apply bool_decide_eq_true, list_elem_of_singleton in Hst.
  destruct (xml_upload_id (rs_Body resp)) as [id|] eqn:Hx; [|exists [i]; split; [done|]; apply Hnone; [done|]; intros resp' [= <-] _ id'; by rewrite Hx].
  destruct (decide (id = EmptyString)) as [->|Hid]; [exists [i]; split; [done|]; apply Hnone; [done|]; intros resp' [= <-] _ id'; rewrite Hx; by intros [= <-]|].
  cbn [mret S3_ret]. assert (∀ reqs, initiated log (i :: reqs) k id) as Hinit by (intros reqs; by exists i, reqs, resp).
  assert (∀ reqs id', initiated log (i :: reqs) k id' → id' = id) as Huniq.
  { intros reqs id' (r & ? & resp' & [= <- <-] & _ & Hr' & _ & Hx' & _). congruence. }
  unfold mbind, S3_bind. pose proof (parts_spec (S (slen body)) k id 1 body (log ++ [i]) ltac:(lia) Ht) as Hp.
  destruct (upload_parts _ _ _ _ _ _ _ _ _ _ _) as [[parts|e|] log1]; destruct Hp as (reqs & -> & Hp); [| |done].
  - destruct Hp as (bodies & Hc & Hreqs & Hall). unfold on_error, completeMultipart.
    destruct (exchange "POST" k (Some (xml_complete parts)) [("uploadId"%string, id)] (with_header "Content-Type" "application/xml")
      (λ resp, if negb (status_in [200] resp) then sthrow ErrBackend else mret tt) ((log ++ [i]) ++ reqs) ltac:(done)) as (c & Hcr & E).
    rewrite E. clear E.
    assert (∀ o, ∃ reqs0, ((SErr o : s3_result unit), (abortMultipart sha256 hmac service date s k id (((log ++ [i]) ++ reqs) ++ [c])).2).2 = log ++ reqs0 ∧
      ∀ id0, initiated log reqs0 k id0 → ∃ reqs' a, reqs0 = reqs' ++ [a] ∧ abort_request k id0 a) as Habort.
    { intros o. destruct (abort_spec k id (((log ++ [i]) ++ reqs) ++ [c])) as (a & Ha & Hlog). cbn [snd]. rewrite Hlog.
      exists (i :: reqs ++ [c; a]). split; [by rewrite <- !app_assoc|]. intros id0 ->%Huniq. exists (i :: reqs ++ [c]), a. split; [cbn; by rewrite <- app_assoc|done]. }
    destruct (service _ c) as [respc|] eqn:Hrc; [|apply (Habort ErrBackend)].
    destruct (status_in [200] respc) eqn:Hstc; cbn [negb]; [|apply (Habort ErrBackend)].
    exists (i :: reqs ++ [c]). split; [by rewrite <- !app_assoc|]. exists id, i, reqs, c, bodies. split_and!; try done; [by eexists|].
    exists respc. rewrite <- app_assoc in Hrc. split; [done|]. unfold status_in in Hstc. apply bool_decide_eq_true in Hstc. set_solver.
  - destruct Hp as (reqs' & a & -> & Ha). exists (i :: reqs' ++ [a]). split; [by rewrite <- app_assoc|].
    intros id' ->%Huniq. by exists (i :: reqs'), a.
Qed.

Lemma LimitReader_cases r n :
  0 ≤ n →
  (Z.of_nat (slen (rd_data r)) < n ∧ LimitReader r n = r) ∨
  (n ≤ Z.of_nat (slen (rd_data r)) ∧ rd_err (LimitReader r n) = None ∧ Z.of_nat (slen (rd_data (LimitReader r n))) = n ∧
   rd_data (LimitReader r n) = stake (Z.to_nat n) (rd_data r)).
Proof.
  intros Hn. unfold LimitReader. destruct (Z.ltb_spec (Z.of_nat (slen (rd_data r))) n) as [Hlt|Hle]; [left; done|right].
  split_and!; [done..| |done]. cbn [rd_data]. rewrite slen_stake. lia.
Qed.

(** C15: uploads to S3 follow the protocol.  With a positive part size, and
    whatever the service answers, an upload ends.  When it succeeds, the body
    was read to its end without error and is within the limit (5 GiB when none
    is given), and the service got either one PUT of the body, or the start of
    a multipart upload, the parts in order, numbered from one, none empty or
    above the part size, which together are the body, and the completion, which
    it accepted.  When it fails after the service had started a multipart
    upload, the last request aborts that upload. *)
Theorem s3_upload_protocol run rel r max log :
  0 < s3_multipartThreshold s → max < int64_max →
  let k := key s run rel in
  let cap := if max <=? 0 then defaultUploadCap else max in
  let '(o, log') := upload run rel r max log in
  ∃ reqs, log' = log ++ reqs ∧
  match o with
  | SOk _ =>
      rd_err r = None ∧ Z.of_nat (slen (rd_data r)) ≤ cap ∧
      ((∃ q, reqs = [q] ∧ is_request s "PUT" k (Some (rd_data r)) [] q) ∨
       (∃ id i parts c bodies xml, reqs = i :: parts ++ [c] ∧ initiated log reqs k id ∧
          concat_strings bodies = rd_data r ∧ part_requests k id 1 bodies parts ∧
          Forall (λ b, 0 < Z.of_nat (slen b) ≤ s3_multipartThreshold s) bodies ∧
          is_request s "POST" k (Some xml) [("uploadId"%string, id)] c ∧
          ∃ resp, service (log ++ i :: parts) c = Some resp ∧ rs_Status resp = 200))
  | SErr _ => ∀ id, initiated log reqs k id → ∃ reqs' a, reqs = reqs' ++ [a] ∧ abort_request k id a
  | SRunning => False
  end.
Proof.
  intros Ht Hmax. cbv zeta. unfold Upload. set (k := key s run rel). set (cap := if max <=? 0 then _ else _).
  assert (0 < cap < int64_max) as Hcap.
  { unfold cap. destruct (Z.leb_spec max 0); [|lia]. vm_compute. split; done. }
  assert (∀ e, ∃ reqs, ((SErr e : s3_result unit), log).2 = log ++ reqs ∧
    ∀ id, initiated log reqs k id → ∃ reqs' a, reqs = reqs' ++ [a] ∧ abort_request k id a) as Herr.
  { intros e. exists []. split; [by rewrite app_nil_r|]. by intros id (? & ? & ? & ? & _). }
  destruct (negb (validateRunID run)); [apply (Herr ErrInvalidPath)|]. destruct (decide _); [apply (Herr ErrInvalidPath)|].
  set (T := s3_multipartThreshold s) in *. set (firstCap := if cap <? T then cap else T).
  assert (firstCap = Z.min cap T) as Hfirst by (unfold firstCap; destruct (Z.ltb_spec cap T); lia). clearbody firstCap.
  rewrite wrap64_id by (unfold in_int64, int64_min, int64_max in *; lia).
  destruct (LimitReader_cases r (firstCap + 1) ltac:(lia)) as [[Hlen Hbuf]|(Hlen & Hberr & Hblen & Hbuf)].
  - rewrite Hbuf. destruct (rd_err r) eqn:Hr; [apply (Herr (ErrReading r0))|].
    destruct (Z.ltb_spec cap (Z.of_nat (slen (rd_data r)))); [lia|]. destruct (Z.ltb_spec T (Z.of_nat (slen (rd_data r)))); [lia|].
    destruct (exchange "PUT" k (Some (rd_data r)) [] (λ r, r)
      (λ resp, if negb (status_in [200; 204] resp) then sthrow ErrBackend else mret tt) log ltac:(done)) as (q & Hq & E). rewrite E. clear E.
    assert (∀ id, initiated log [q] k id → ∃ reqs' a, [q] = reqs' ++ [a] ∧ abort_request k id a) as Hput.
    { intros id (? & ? & ? & [= <- <-] & (Hm & _) & _). destruct Hq as (Hm' & _). by rewrite Hm in Hm'. }
    destruct (service log q) as [resp|]; [destruct (negb _)|]; exists [q]; (split; [done|]); try done.
    split_and!; [done|lia|]. left. by exists q.
  - rewrite Hberr, Hblen. destruct (Z.ltb_spec cap (firstCap + 1)) as [|Hc]; [apply (Herr ErrPayloadTooBig)|].
    destruct (Z.ltb_spec T (firstCap + 1)) as [HT|]; [|lia]. assert (firstCap = T) as -> by lia. clear HT.
    unfold uploadSpooled. cbv zeta. rewrite Hblen.
    assert (slen (rd_data (LimitReader r (T + 1))) = Z.to_nat (T + 1)) as Hnat by lia. rewrite Hnat.
    rewrite wrap64_id by (unfold in_int64, int64_min, int64_max in *; lia).
    set (rest := mkReader (sdrop (Z.to_nat (T + 1)) (rd_data r)) (rd_err r)).
    assert (Z.of_nat (slen (rd_data rest)) = Z.of_nat (slen (rd_data r)) - (T + 1)) as Hrest by (cbn; rewrite slen_sdrop; lia).
    destruct (LimitReader_cases rest (cap - (T + 1) + 1) ltac:(lia)) as [[Hl Heq]|(Hl & Herr' & Hlen' & _)].
    + rewrite Heq. destruct (rd_err rest) eqn:Hre; [apply (Herr (ErrReading r0))|]. cbn in Hre.
      destruct (Z.ltb_spec cap (T + 1 + Z.of_nat (slen (rd_data rest)))); [apply (Herr ErrPayloadTooBig)|].
      assert (rd_data (LimitReader r (T + 1)) +:+ rd_data rest = rd_data r) as ->.
      { rewrite Hbuf. cbn. apply stake_sdrop. }
      pose proof (multipart_spec k (rd_data r) log Ht) as Hm.
      destruct (uploadMultipart _ _ _ _ _ _ _ k (rd_data r) log) as [[[]|e|] log']; destruct Hm as (reqs & -> & Hm); exists reqs; (split; [done|]); try done.
      split_and!; [done|lia|]. right. destruct Hm as (id & i & parts & c & bodies & H1 & H2 & H3 & H4 & H5 & [xml H6] & H7).
      by exists id, i, parts, c, bodies, xml.
    + rewrite Herr', Hlen'. destruct (Z.ltb_spec cap (T + 1 + (cap - (T + 1) + 1))); [apply (Herr ErrPayloadTooBig)|lia].
Qed.
End laws.

(** ** The signature *)

(** Escaping every byte but those of [keep]. *)
Fixpoint escape (keep : ascii → bool) (s : string) : string :=
  match s with
  | EmptyString => EmptyString
  | String c s' => if keep c then String c (escape keep s') else percent c (escape keep s')
  end.

(** [UriEncode] of the specification of Amazon: every byte but the unreserved
    ones, and but the slash in a path. *)
Definition UriEncode (path : bool) : string → string := escape (λ c, unreserved c || (path && byte_is 47 c)).

(** The canonical query of the specification, for parameters by ascending
    key. *)
Definition aws_query (params : list (string * string)) : string :=
  Join "&" ((λ p, UriEncode false p.1 +:+ "=" +:+ UriEncode false p.2) <$> params).

Definition has_space (s : string) : bool := any_byte (byte_is 32) s.

Lemma escape_length (f g : ascii → bool) s :
  (∀ c, g c = true → f c = true) → (slen (escape f s) ≤ slen (escape g s))%nat.
Proof.
  intros Hfg. induction s as [|c s IH]; [done|]. cbn [escape]. unfold percent.
  destruct (g c) eqn:Hg; [rewrite (Hfg c Hg); cbn; lia|]. destruct (f c); cbn; lia.
Qed.

(** Two escapes agree on the strings on which they keep the same bytes. *)
Lemma escape_agree (f g : ascii → bool) s :
  (∀ c, g c = true → f c = true) → escape f s = escape g s ↔ any_byte (λ c, f c && negb (g c)) s = false.
Proof.
  intros Hfg. induction s as [|c s IH]; [done|]. cbn [escape any_byte]. rewrite orb_false_iff, <- IH.
  pose proof (escape_length f g s Hfg) as Hlen. unfold percent.
  destruct (g c) eqn:Hg; [rewrite (Hfg c Hg); cbn; split; [by intros [= ?]|by intros [_ ->]]|].
  destruct (f c) eqn:Hf; cbn; [|split; [by intros [= ?]|by intros [_ ->]]].
  split; [|by intros [? _]]. intros E%(f_equal slen). cbn in E. lia.
Qed.

Lemma PathEscape_escape s : PathEscape s = escape (λ c, unreserved c || segment_extra c) s.
Proof. induction s as [|c s IH]; [done|]. cbn. by rewrite IH. Qed.

Lemma escape_segments_escape s : escape_segments s = escape (λ c, unreserved c || segment_extra c || byte_is 47 c) s.
Proof.
  unfold escape_segments. induction s as [|c s IH]; [done|]. cbn [Split1 escape]. pose proof (Split1_nonempty slash s) as Hne.
  case_bool_decide as Hc.
  - subst. change (byte_is 47 slash) with true. rewrite orb_true_r. destruct (Split1 slash s) as [|w ws]; [done|]. cbn [fmap list_fmap] in *.
    rewrite Join_cons, IH. done.
  - assert (byte_is 47 c = false) as -> by (apply not_true_is_false; intros ?%byte_is_eq; by apply Hc). rewrite orb_false_r.
    destruct (Split1 slash s) as [|w ws]; [done|]. cbn [fmap list_fmap PathEscape] in *.
    destruct (unreserved c || segment_extra c); [change (Join "/" (String c (PathEscape w) :: (PathEscape <$> ws))) with (String c (Join "/" (PathEscape w :: (PathEscape <$> ws))))|
      change (Join "/" (percent c (PathEscape w) :: (PathEscape <$> ws))) with (percent c (Join "/" (PathEscape w :: (PathEscape <$> ws))))];
      by rewrite <- IH.
Qed.

Lemma QueryEscape_length s : (slen (QueryEscape s) ≤ slen (UriEncode false s))%nat ∧ (has_space s = true → slen (QueryEscape s) < slen (UriEncode false s))%nat
  ∧ (has_space s = false → QueryEscape s = UriEncode false s).
Proof.
  unfold UriEncode, has_space. set (g := λ c, unreserved c || _). assert (∀ c, g c = unreserved c) as Hg by (intros c; apply orb_false_r). clearbody g.
  induction s as [|c s (IH1 & IH2 & IH3)]; [done|]. cbn [QueryEscape escape any_byte]. rewrite Hg. unfold percent.
  destruct (unreserved c) eqn:Hu.
  - assert (byte_is 32 c = false) as Hs.
    { apply not_true_is_false. intros ->%byte_is_eq. by vm_compute in Hu. }
    rewrite Hs. cbn. split_and!; [lia|naive_solver lia|]. intros H. by rewrite IH3.
  - destruct (byte_is 32 c); cbn; split_and!; try done; try lia; [naive_solver lia|]. intros H. by rewrite IH3.
Qed.

Lemma slen_Join_amp l : slen (Join "&" l) = (sum_list_with slen l + (length l - 1))%nat.
Proof.
  destruct l as [|x l]; [done|]. unfold Join. rewrite slen_app. cbn [sum_list_with length].
  assert (slen (foldr (λ y acc, "&" +:+ y +:+ acc) EmptyString l) = sum_list_with slen l + length l)%nat as ->; [|lia].
  induction l as [|y l IH]; [done|]. cbn [foldr sum_list_with length]. rewrite !slen_app, IH. cbn. lia.
Qed.

Lemma Encode_aws params :
  Encode params = aws_query params ↔ Forall (λ p, has_space p.1 = false ∧ has_space p.2 = false) params.
Proof.
  unfold Encode, aws_query. split.
  - intros E%(f_equal slen). rewrite !slen_Join_amp, !length_fmap in E.
    assert (sum_list_with slen ((λ p, QueryEscape p.1 +:+ "=" +:+ QueryEscape p.2) <$> params) =
            sum_list_with slen ((λ p, UriEncode false p.1 +:+ "=" +:+ UriEncode false p.2) <$> params)) as E' by lia. clear E.
    assert (∀ l : list (string * string), sum_list_with slen ((λ p, QueryEscape p.1 +:+ "=" +:+ QueryEscape p.2) <$> l) ≤
            sum_list_with slen ((λ p, UriEncode false p.1 +:+ "=" +:+ UriEncode false p.2) <$> l))%nat as Hle.
    { induction l as [|[a b] l IH]; [done|]. cbn [fmap list_fmap sum_list_with fst snd]. rewrite !slen_app.
      pose proof (proj1 (QueryEscape_length a)). pose proof (proj1 (QueryEscape_length b)).
      change (slen "=") with 1%nat. lia. }
    induction params as [|[a b] params IH]; [apply Forall_nil_2|]. cbn [fmap list_fmap sum_list_with fst snd] in E'. rewrite !slen_app in E'.
    specialize (Hle params). destruct (QueryEscape_length a) as (Ha & Ha' & _), (QueryEscape_length b) as (Hb & Hb' & _).
    change (slen "=") with 1%nat in E'.
    apply Forall_cons_2; [|apply IH; lia]. cbn. split; apply not_true_is_false; intros Hs; [specialize (Ha' Hs)|specialize (Hb' Hs)]; lia.
  - intros Hall. f_equal. induction Hall as [|[a b] params [Ha Hb] Hall IH]; [done|]. cbn [fmap list_fmap fst snd] in *. rewrite IH. f_equal.
    by rewrite (proj2 (proj2 (QueryEscape_length a)) Ha), (proj2 (proj2 (QueryEscape_length b)) Hb).
Qed.

(** Parsing the encoded parameters gives them back. *)
Lemma parse_pair_encoded k v : parse_pair (QueryEscape k +:+ "=" +:+ QueryEscape v) = Some (k, v).
Proof.
  assert (avoids "=" (QueryEscape k) = true) as Hk by (by apply QueryEscape_avoids).
  unfold parse_pair. rewrite decide_False by (by destruct (QueryEscape k)).
  assert (Contains (QueryEscape k +:+ "=" +:+ QueryEscape v) ";" = false) as ->.
  { assert (avoids ";" (QueryEscape k +:+ "=" +:+ QueryEscape v) = true) as Ha.
    { rewrite !avoids_app. split_and!; [by apply QueryEscape_avoids|done|by apply QueryEscape_avoids]. }
    unfold Contains. apply bool_decide_eq_false. intros [i Hi].
    revert i Hi. induction (QueryEscape k +:+ "=" +:+ QueryEscape v) as [|c t IH]; intros i Hi; [done|]. cbn [Index HasPrefix] in Hi.
    apply avoids_cons in Ha as [Hc Ht]. rewrite bool_decide_eq_false_2 in Hi by done. cbn [andb] in Hi.
    destruct (Index t ";") as [j|] eqn:Hj; [by apply (IH Ht j)|done]. }
  assert (Cut (QueryEscape k +:+ "=" +:+ QueryEscape v) "=" = Some (QueryEscape k, QueryEscape v)) as ->.
  { change ("=" +:+ QueryEscape v) with (String "=" (QueryEscape v)). apply Cut_app_not_in. unfold avoids in Hk. by apply negb_true_iff. }
  by rewrite !QueryEscape_roundtrip.
Qed.

Lemma ParseQuery_Encode params : params ≠ [] → ParseQuery (Encode params) = params.
Proof.
  intros Hne. unfold ParseQuery, Encode. rewrite Split1_Join_avoids.
  - clear Hne. induction params as [|[k v] params IH]; [done|]. cbn [fmap list_fmap omap list_omap fst snd].
    rewrite parse_pair_encoded. cbn [omap list_omap fmap list_fmap] in IH. by rewrite IH.
  - by destruct params.
  - apply Forall_fmap, Forall_forall. intros [k v] _. unfold compose. cbn [fst snd]. rewrite !avoids_app. split_and!; [by apply QueryEscape_avoids|done|by apply QueryEscape_avoids].
Qed.

(** The signed request is the one of the specification, for the keys and
    parameters that Go escapes as Amazon does.  The canonical path is
    [UriEncode] of the path exactly when the path has none of [$ & + : = @],
    which [url.PathEscape] keeps; the canonical query is the query that is sent,
    and it is the one of the specification exactly when no parameter holds a
    space, which [url.QueryEscape] turns into a plus. *)
Theorem sigv4_canonical :
  (∀ path, path ≠ EmptyString →
     canonicalizeURI path = UriEncode true path ↔ any_byte segment_extra path = false) ∧
  (∀ params, params ≠ [] → StronglySorted cmp_lt params →
     canonicalizeQueryString (Encode params) = Encode params ∧
     (canonicalizeQueryString (Encode params) = aws_query params ↔
        Forall (λ p, has_space p.1 = false ∧ has_space p.2 = false) params)).
Proof.
  split.
  - intros path Hne. unfold canonicalizeURI, UriEncode. rewrite decide_False, escape_segments_escape by done.
    rewrite (escape_agree (λ c, unreserved c || segment_extra c || byte_is 47 c) (λ c, unreserved c || (true && byte_is 47 c))).
    + clear Hne. induction path as [|c path IH]; [done|]. cbn [any_byte]. rewrite !orb_false_iff, IH.
      assert (forallb (λ c, Bool.eqb ((unreserved c || segment_extra c || byte_is 47 c) && negb (unreserved c || (true && byte_is 47 c))) (segment_extra c)) all_bytes = true)
        as Hall by (vm_compute; reflexivity).
      pose proof (all_bytes_spec _ Hall c) as Hc. cbv beta in Hc. apply Bool.eqb_prop in Hc. by rewrite Hc.
    + intros c [->|H]%orb_true_iff; [done|]. cbn in H. rewrite H. apply orb_true_r.
  - intros params Hne Hsorted.
    assert (canonicalizeQueryString (Encode params) = Encode params) as E.
    { unfold canonicalizeQueryString. rewrite decide_False.
      - rewrite ParseQuery_Encode by done. f_equal. symmetry. apply (StronglySorted_lt_unique (λ p, p)); [done| |by rewrite sort_by_perm].
        apply sort_by_lt. rewrite list_fmap_id. by apply (StronglySorted_lt_NoDup (λ p, p)).
      - unfold Encode. destruct params as [|[k v] l]; [done|]. cbn. by destruct (QueryEscape k). }
    rewrite E. split; [done|]. apply Encode_aws.
Qed.

(** ** Examples *)

Module Example9.
Definition sha256 (s : string) : list Z := [Z.of_nat (slen s) mod 256].
Definition hmac (k : list Z) (s : string) : list Z := [(Z.of_nat (slen s) + foldr Z.add 0 k) mod 256].
Definition date (n : nat) : string * string := ("20260101", "20260101T000000Z")%string.
Definition store : S3Store :=
  mkS3Store (mkEndpoint "http" "minio:9000" "minio" "") "bucket" "eu" "lmf/" "ak" "sk" true 3.
Definition xml_id (s : string) : option string := Some s.
Definition xml_complete (l : list multipartPart) : string := FormatInt (Z.of_nat (length l)).

(** A service that accepts everything and names its uploads "u1", and one that
    refuses the second part. *)
Definition accepting (log : list Request) (r : Request) : option Response := Some (mkResponse 200 "etag" 0 "u1").
Definition refusing (log : list Request) (r : Request) : option Response :=
  if Contains (rq_RawQuery r) "partNumber=2" then Some (mkResponse 503 "" 0 "") else accepting log r.

Definition upload service data max := Upload sha256 hmac service date xml_id xml_complete store "r1" "a b/c" (mkReader data None) max [].

Lemma s3_upload_protocol_witness :
  (upload accepting "abcdefgh" 100).1 = SOk tt ∧
  (λ r, (rq_Method r, rq_Path r, rq_RawQuery r, rq_Body r)) <$> (upload accepting "abcdefgh" 100).2 =
    [("POST", "/bucket/lmf/artifacts/r1/a%20b/c", "uploads=", None);
     ("PUT", "/bucket/lmf/artifacts/r1/a%20b/c", "partNumber=1&uploadId=u1", Some "abc");
     ("PUT", "/bucket/lmf/artifacts/r1/a%20b/c", "partNumber=2&uploadId=u1", Some "def");
     ("PUT", "/bucket/lmf/artifacts/r1/a%20b/c", "partNumber=3&uploadId=u1", Some "gh");
     ("POST", "/bucket/lmf/artifacts/r1/a%20b/c", "uploadId=u1", Some "3")]%string ∧
  (upload refusing "abcdefgh" 100).1 = SErr ErrBackend ∧
  (∃ reqs' a, (upload refusing "abcdefgh" 100).2 = reqs' ++ [a] ∧ abort_request store "lmf/artifacts/r1/a b/c" "u1" a).
Proof.
  split_and!; [vm_compute; reflexivity..|].
  pose proof (s3_upload_protocol sha256 hmac refusing date xml_id (λ _, None) xml_complete store "r1" "a b/c" (mkReader "abcdefgh" None) 100 [] eq_refl eq_refl) as H.
  cbv zeta in H. change (Upload _ _ _ _ _ _ _ _ _ _ _ _) with (upload refusing "abcdefgh" 100) in H.
  destruct (upload refusing "abcdefgh" 100) as [o log] eqn:E.
  assert (o = SErr ErrBackend) as -> by (change o with (o, log).1; rewrite <- E; vm_compute; reflexivity).
  destruct H as (reqs & Hlog & H). cbn [snd]. rewrite Hlog. apply (H "u1"%string).
  assert (log = (upload refusing "abcdefgh" 100).2) as Hl by (by rewrite E). rewrite Hlog in Hl. cbn [app] in Hl. rewrite Hl.
  eexists _, _, _. split_and!; [vm_compute; reflexivity|by vm_compute|by vm_compute|done|done|done].
Defined.

(** A key with a plus sign, or a listing of a prefix with a space, is signed
    differently from what Amazon computes. *)
Example plus_signed_differently :
  canonicalizeURI "/bucket/a+b" = "/bucket/a+b"%string ∧ UriEncode true "/bucket/a+b" = "/bucket/a%2Bb"%string.
Proof. done. Qed.
Example space_signed_differently :
  canonicalizeQueryString (Encode [("list-type", "2"); ("prefix", "a b")]%string) = "list-type=2&prefix=a+b"%string ∧
  aws_query [("list-type", "2"); ("prefix", "a b")]%string = "list-type=2&prefix=a%20b"%string.
Proof. done. Qed.

(** A truncated page without a token makes the listing ask for the first page
    again, for ever. *)
Definition endless (s : string) : option listing := Some (mkListing [] [] true "").
Lemma listing_never_ends fuel log :
  (List sha256 hmac accepting date endless store fuel "r1" "" log).1 = SRunning.
Proof.
  unfold List. change (negb (validateRunID "r1")) with false. cbv match zeta. unfold mbind at 1, S3_bind at 1.
  assert (∀ d p log, (list_pages sha256 hmac accepting date endless store fuel d p "" log).1 = SRunning) as Hp.
  { clear log. induction fuel as [|fuel IH]; intros d p log; [done|]. cbn [list_pages]. unfold mbind, S3_bind.
    assert (∃ log', list_page sha256 hmac accepting date endless store d p "" log = (SOk (mkListing [] [] true ""), log')) as [log' ->] by (by eexists).
    cbn [ls_IsTruncated ls_NextToken]. specialize (IH d p log'). by destruct (list_pages _ _ _ _ _ _ fuel d p "" log') as [[]]. }
  specialize (Hp true (if decide (cleanRelPath "" = EmptyString) then key store "r1" "" else key store "r1" "" +:+ cleanRelPath "" +:+ "/") log).
  destruct (list_pages _ _ _ _ _ _ fuel true _ "" log) as [[]]; done.
Qed.
End Example9.
