(* ===== verification/Service.v ===== *)
(** * The service: middlewares, routes and handlers together

    The chain of Access.v in front of the REST API: a request is
    authenticated, its workspace resolved and its role checked, then decoded
    into a call and served in the workspace the middleware stored in the
    request.  The theorem says who can change what. *)

From S2P Require Import Prelude GoStrings Urls Model Database Keyset Filter Events Runs Sample RunData.
From S2P Require Import Downsample Experiments Registry RegistryLaws Prompts Workspaces Sessions Integrations Access.
From S2P Require Import Datasets Inputs Lineage Search TimeTravel MlflowApi ApiLogic RegistryApi Isolation Ownership.
From S2P Require Import NativeApi NativeLaws Tenants.
From Stdlib Require Import Ascii.

Open Scope Z_scope.

(** ** Routes *)

(** A path that matches a pattern, given by the parameters between its
    pieces. *)
Fixpoint weave (pieces params : list string) : string :=
  match pieces, params with
  | p :: ps, x :: xs => p +:+ x +:+ weave ps xs
  | p :: _, [] => p
  | [], _ => EmptyString
  end.

(** The call is mounted at this method and path.  The path is the decoded one;
    chi matches the escaped one when they differ, so that a parameter is what
    stands in the path, or what decodes to it. *)
Definition call_route (c : ApiCall) (m p : string) : Prop :=
  match c with
  | Tracking c => (m, p) ∈ routes c
  | Registering c => (m, p) ∈ registry_routes c
  | Native c => m = (native_route c).1 ∧ ∃ params, p = weave (native_route c).2 params ∧
      S (length params) = length (native_route c).2 ∧
      ∀ id, workspace_param c = Some id → ∃ x, head params = Some x ∧ (x = id ∨ PathUnescape id = Some x)
  end.

Definition currentWorkspace (r : Request) : string := or_else (header "X-LiteMLflow-Workspace" r) "default".

(** ** Calls that only read *)

Definition reading (c : ApiCall) : bool :=
  match c with
  | Tracking (CGetExperiment _ | CGetExperimentByName _ | CSearchExperiments _ _ _ | CGetRun _ | CSearchRuns _ _ |
              CGetMetricHistory _) => true
  | Registering (RGetRegisteredModel _ | RSearchRegisteredModels _ _ | RGetLatestModelVersions _ _ |
                 RGetModelByAlias _ | RGetModelVersion _ | RSearchModelVersions _ _ |
                 RGetModelVersionDownloadURI _) => true
  | Native c => bool_decide ((native_route c).1 = "GET"%string)
  | _ => false
  end.

Section reading.
Context `{Clock} (X : Externals) (ParseFloat : string → option float64)
  (eval : DB → clause → string → RunRow → bool) (writeV03 : bool).
Context (P : DB → Prop).

#[local] Instance on_store_pres {A B} (m : M A) (k : A → M (Reply B)) :
  Preserves P m → (∀ a, Preserves P (k a)) → Preserves P (on_store m k).
Proof.
  intros Hm Hk w Hw. unfold on_store. specialize (Hm w Hw). destruct (m w) as [[a|e] w1]; [by apply Hk|done].
Qed.

#[local] Instance writeJSON_pres `{Marshal A} (a : A) ns : Preserves P (writeJSON_notify a ns).
Proof. by intros w Hw. Qed.

#[local] Instance parseAsOf_pres q : Preserves P (parseAsOf q).
Proof. unfold parseAsOf. cbv zeta. pres_auto. Qed.

#[local] Instance getExperimentInWorkspace_pres ws id : Preserves P (getExperimentInWorkspace ws id).
Proof. unfold getExperimentInWorkspace, GetExperiment. pres_auto. Qed.

#[local] Instance ensureRun_pres ws R : Preserves P (ensureRunInWorkspace ws R).
Proof. unfold ensureRunInWorkspace, GetRunInWorkspace, getRunInWorkspace. apply _. Qed.

Lemma reads_pres {A} (m : M A) Q : (∀ d, reads d m Q) → Preserves P m.
Proof.
  intros Hm w Hw. specialize (Hm _ w eq_refl). destruct (m w) as [[a|e] w1]; cbn in *; [destruct Hm as [E _]|rename Hm into E]; by rewrite E.
Qed.

#[local] Instance collectRunData_pres R asOf ts : Preserves P (collectRunData R asOf ts).
Proof. apply (reads_pres _ (λ _, True)). intros d. eapply reads_conseq; [apply collectRunData_reads|done]. Qed.

#[local] Instance collectRunInputs_pres R : Preserves P (collectRunInputs R).
Proof. apply (reads_pres _ (λ _, True)). intros d. apply collectRunInputs_reads. Qed.

#[local] Instance getRunAsOfImpl_pres R ws t : Preserves P (getRunAsOfImpl R ws t).
Proof. unfold getRunAsOfImpl, GetRun, getRunInWorkspace, GetTags. pres_auto. Qed.

#[local] Instance GetMetricHistory_pres R k n tok : Preserves P (GetMetricHistory R k n tok).
Proof. unfold GetMetricHistory. pres_auto. Qed.

#[local] Instance search_run_dtos_pres ws asOf l : Preserves P (search_run_dtos ws asOf l).
Proof.
  assert (∀ r, Preserves P (search_run_dto ws asOf r)) as Hr.
  { intros r. unfold search_run_dto. cbv zeta. case_decide; [|apply _]. case_decide; [apply _|].
    intros w Hw. pose proof (getRunAsOfImpl_pres (run_ID r) (default_ws ws) asOf w Hw) as Hg.
    unfold GetRunAsOfInWorkspace. destruct (getRunAsOfImpl _ _ _ w) as [[[r' ts]|[]] w1]; try done. by apply preserves. }
  induction l as [|r l IH]; cbn [search_run_dtos]; apply _.
Qed.

#[local] Instance scoped_experiments_pres ws ids : Preserves P (scoped_experiments ws ids).
Proof.
  induction ids as [|x ids IH]; cbn [scoped_experiments]; [apply _|]. destruct (ParseInt x) as [n|]; [|apply _].
  intros w Hw. pose proof (getExperimentInWorkspace_pres ws n w Hw) as Hg. cbv zeta.
  destruct (getExperimentInWorkspace ws n w) as [[e|[]] w1]; try done; by apply preserves.
Qed.

#[local] Instance GetModelByAlias_pres ws n a : Preserves P (GetModelByAlias ws n a).
Proof. unfold GetModelByAlias. cbv zeta. pres_auto. Qed.

Lemma tracking_reading_pres like ws c :
  reading (Tracking c) = true → Preserves P (handle like ParseFloat eval writeV03 ws c).
Proof.
  destruct c; try done; intros _; cbn [handle]; unfold shown;
    unfold Handler_GetExperiment, Handler_GetExperimentByName, Handler_SearchExperiments, Handler_GetRun,
      Handler_SearchRuns, Handler_GetMetricHistory, writeJSON,
      GetExperimentByNameInWorkspace, SearchExperiments, GetRunAsOfInWorkspace, GetRunInWorkspace, getRunInWorkspace, SearchRuns,
      GetMetricHistoryDownsampled, with_as_of, with_int, require, invalid_parameter; cbv zeta;
    repeat first [progress pres_auto|apply on_store_pres].
Qed.

Lemma registering_reading_pres like ws c :
  reading (Registering c) = true → Preserves P (registry_handle like ws c).
Proof.
  destruct c; try done; intros _; cbn [registry_handle]; unfold reg_shown;
    unfold Handler_GetRegisteredModel, Handler_SearchRegisteredModels,
      Handler_GetLatestModelVersions, Handler_GetModelByAlias, Handler_GetModelVersion, Handler_SearchModelVersions,
      Handler_GetModelVersionDownloadURI, reply_model, reply_version, writeJSON,
      GetLatestModelVersions, SearchRegisteredModels, SearchModelVersions,
      with_version, with_int, require, invalid_parameter; cbv zeta;
    repeat first [progress pres_auto|apply on_store_pres].
Qed.

#[local] Instance tried_pres {A} (m : M A) : Preserves P m → Preserves P (tried m).
Proof. intros Hm w Hw. unfold tried. specialize (Hm w Hw). by destruct (m w). Qed.

#[local] Instance prompt_items_pres ws ql names items : Preserves P (prompt_items ws ql names items).
Proof.
  revert items. induction names as [|n names IH]; intros items; cbn [prompt_items]; [apply _|]. cbv zeta.
  unfold GetLatestPrompt. repeat first [progress pres_auto|apply IH].
Qed.

Lemma native_reading_pres ws c : reading (Native c) = true → Preserves P (native_handle X ws c).
Proof.
  destruct c; try done; intros _; cbn [native_handle]; unfold nshown;
    unfold Handler_ListProjects, Handler_GetRunNote, Handler_GetRunTraces, Handler_GetRunData, Handler_ListPrompts,
      Handler_GetLatestPrompt, Handler_ListPromptVersions, Handler_GetPromptVersion, Handler_GetPromptByAlias,
      Handler_GetEval, Handler_GlobalSearch, Handler_GetRunLineage, Handler_ListWebhooks, Handler_GetDashboard,
      Handler_ListDatasets, Handler_ListDatasetVersions, Handler_GetDatasetVersion, Handler_GetDatasetContent,
      Handler_GetDatasetLineage, Handler_ListWorkspaces, Handler_GetCurrentWorkspace, Handler_GetWorkspace,
      Handler_ListMembers, Handler_ListPeers, search_kinds, items_of, data_as_of, bounded_param, datasets_disabled,
      writeJSON, write_status, with_int, require, invalid_parameter,
      ListProjects, GetRunNote, GetSpansByRun, querySpans, GetRunAsOfInWorkspace, GetRunInWorkspace, getRunInWorkspace,
      GetLatestMetricsAsOf, GetLatestMetrics, getLatestMetricsAsOf, GetParams, GetTags, ListPrompts, GetLatestPrompt, ListPromptVersions, GetPromptByAlias,
      GetPromptVersion, GetEval, SearchExperiments, SearchRunsByName, GetRunLineageWithOptions, GetRun, GetExperiment,
      ListWebhooks, GetDashboard, ListDatasets, ListDatasetVersions, GetDatasetVersion, GetDatasetLineage, ListWorkspaces,
      GetWorkspace, GetMemberRole, ListMembers, ListPeers; cbv zeta;
    repeat first [progress pres_auto|apply on_store_pres|apply tried_pres].
Qed.

Lemma reading_pres ws c : reading c = true → Preserves P (call_handler X ParseFloat eval writeV03 ws c).
Proof.
  intros Hr. destruct c as [c|c|c]; cbn [call_handler]; unfold answer.
  - pose proof (tracking_reading_pres (x_like X) ws c Hr). apply _.
  - pose proof (registering_reading_pres (x_like X) ws c Hr). apply _.
  - pose proof (native_reading_pres ws c Hr). apply _.
Qed.
End reading.

(** ** What a route requires *)

Lemma HasPrefix_trans p a b : HasPrefix p a = true → HasPrefix a b = true → HasPrefix p b = true.
Proof.
  revert a b. induction p as [|c p IH]; intros [|x a] [|y b]; cbn; try done.
  intros [->%bool_decide_eq_true Ha]%andb_prop [->%bool_decide_eq_true Hb]%andb_prop.
  rewrite bool_decide_eq_true_2 by done. cbn. by apply (IH a).
Qed.

Lemma HasPrefix_refl a : HasPrefix a a = true.
Proof. rewrite <- (sapp_nil_r a) at 1. apply HasPrefix_app. Qed.

Lemma weave_prefix a ps xs : HasPrefix (weave (a :: ps) xs) a = true.
Proof. destruct xs; cbn; [apply HasPrefix_refl|apply HasPrefix_app]. Qed.

(** A path of a write route: [a] is the literal part it starts with. *)
Definition write_prefix (a : string) : bool :=
  api_surface a && negb (HasPrefix a "/api/v1/auth/" || HasPrefix "/api/v1/auth/" a) &&
  forallb (λ q, negb (HasPrefix q a)) ["/api/v1/analytics/query"; "/api/v1/federate/echo"; "/api/v1/federate/search"]%string.

Lemma write_prefix_gated a m p :
  write_prefix a = true → HasPrefix p a = true → mutating m = true → roleAtLeast "viewer" (requiredRole m p) = false.
Proof.
  unfold write_prefix. intros [[Hs Hau%negb_true_iff]%andb_prop Hq]%andb_prop Hp Hm. apply requiredRole_writes; [done| |].
  - unfold api_surface in *. rewrite !orb_true_iff in *.
    destruct Hs as [[[H|H]|H]|H]; [left; left; left|left; left; right|left; right|right]; by apply (HasPrefix_trans p a).
  - rewrite forallb_forall in Hq.
    assert (∀ q, q ∈ ["/api/v1/analytics/query"; "/api/v1/federate/echo"; "/api/v1/federate/search"]%string → p ≠ q) as Hne.
    { intros q Hin%list_elem_of_In ->. apply Hq in Hin. by rewrite Hp in Hin. }
    unfold exempt. rewrite (HasPrefix_apart p a) by done. rewrite bool_decide_eq_false_2 by (apply Hne; left).
    cbn [orb]. apply bool_decide_eq_false_2. intros Hin. by apply (Hne p); [right|].
Qed.

Lemma no_target a p :
  HasPrefix p a = true → HasPrefix a "/api/v1/workspaces/" || HasPrefix "/api/v1/workspaces/" a = false →
  workspacePathTarget p = EmptyString.
Proof. intros Hp Ha. unfold workspacePathTarget, CutPrefix. by rewrite (HasPrefix_apart p a). Qed.

Lemma Contains_app s t u : Contains (s +:+ (t +:+ u)) t = true.
Proof.
  unfold Contains. apply bool_decide_eq_true_2. induction s as [|c s [i IH]].
  - exists 0%nat. destruct t as [|c t]; [by destruct u|]. cbn. by rewrite bool_decide_eq_true_2, HasPrefix_app.
  - cbn. destruct (match t with EmptyString => true | String _ _ => _ end); [by eexists|]. cbn. rewrite IH. by eexists.
Qed.

(** Everything but reading needs an editor, and the routes under
    /api/v1/workspaces/ an admin. *)
Lemma write_role c m p :
  call_route c m p → reading c = false →
  roleAtLeast "viewer" (requiredRole m p) = false ∧
  (workspacePathTarget p = EmptyString ∨ requiredRole m p = "admin"%string).
Proof.
  destruct c as [c|c|c]; cbn [call_route].
  - intros Hr Hc. destruct c; cbn [routes] in Hr; try done; rewrite ?elem_of_cons, ?elem_of_nil in Hr;
      repeat destruct Hr as [Hr|Hr]; try done; injection Hr as -> ->; split; (vm_compute; by auto) || by left; vm_compute.
  - intros Hr Hc. destruct c; cbn [registry_routes] in Hr; try done; rewrite ?elem_of_cons, ?elem_of_nil in Hr;
      repeat destruct Hr as [Hr|Hr]; try done; injection Hr as -> ->; split; (vm_compute; by auto) || by left; vm_compute.
  - intros (-> & params & Hpath & Hlen & _) Hc. split.
    + destruct c; cbn [native_route fst snd] in *; try done; rewrite Hpath;
        (eapply write_prefix_gated; [|apply weave_prefix|]; done).
    + destruct c; cbn [native_route fst snd] in *; try done; rewrite Hpath;
        first [left; eapply no_target; [apply weave_prefix|done]
              |right; apply requiredRole_admin; left; split; [apply weave_prefix|set_solver]|idtac].
      * destruct params; [|done]. by vm_compute; auto.
      * right. apply requiredRole_admin. right. left. split_and!; [apply weave_prefix| |done].
        destruct params as [|x [|y [|]]]; try done. cbn [weave].
        change "/members/"%string with ("/members" +:+ "/")%string. rewrite <- sapp_assoc, (sapp_assoc "/members").
        apply Contains_app.
Qed.

(** ** The workspace a path names *)

Lemma slug_free id c :
  validateWorkspaceID id = Ok tt → slug_char c = false → any_byte (λ a, bool_decide (a = c)) id = false.
Proof.
  intros Hv Hc.
  assert (any_byte (λ c, negb (slug_char c)) id = false) as Hb.
  { unfold validateWorkspaceID, guard_err in Hv. destruct (bool_decide _); [done|]. cbn in Hv. destruct (64 <? _); [done|]. cbn in Hv.
    by destruct (any_byte _ id). }
  clear Hv. revert Hb.
  induction id as [|a id IH]; cbn; [done|]. intros [Ha Hid]%orb_false_iff. rewrite IH by done.
  rewrite orb_false_r. apply bool_decide_eq_false_2. intros ->. by rewrite Hc in Ha.
Qed.

Lemma PathUnescape_plain s : any_byte (λ a, bool_decide (a = "%"%char)) s = false → PathUnescape s = Some s.
Proof.
  unfold PathUnescape. induction s as [|a s IH]; [done|]. cbn [any_byte]. intros [Ha%bool_decide_eq_false Hs]%orb_false_iff.
  rewrite unescape_plain, (IH Hs) by (done || (apply not_true_is_false; intros E; apply Ha; apply (byte_is_eq 37) in E; done)). done.
Qed.

Lemma Index_none s c : any_byte (λ a, bool_decide (a = c)) s = false → Index s (String c EmptyString) = None.
Proof.
  induction s as [|a s IH]; cbn; [done|]. intros [Ha Hs]%orb_false_iff. by rewrite Ha, (IH Hs).
Qed.

Lemma workspace_target id tail :
  validateWorkspaceID id = Ok tt → tail = EmptyString ∨ (∃ t, tail = String "/" t) →
  workspacePathTarget ("/api/v1/workspaces/" +:+ (id +:+ tail)) = if decide (id = "current"%string) then EmptyString else id.
Proof.
  intros Hid Ht. unfold workspacePathTarget, CutPrefix. rewrite HasPrefix_app, sdrop_app.
  pose proof (slug_free id "/"%char Hid eq_refl) as Hf.
  assert (match Cut (id +:+ tail) "/" with Some (before, _) => before | None => id +:+ tail end = id) as ->.
  { destruct Ht as [->|[t ->]].
    - rewrite sapp_nil_r. unfold Cut. by rewrite Index_none.
    - by rewrite Cut_app_not_in. }
  done.
Qed.

(** The routes that administer a workspace want an admin. *)
Lemma admin_role c m p : call_route (Native c) m p → is_Some (workspace_param c) → requiredRole m p = "admin"%string.
Proof.
  intros (-> & params & -> & Hlen & _) [id Hid]. destruct c; try done; cbn [native_route fst snd] in *; apply requiredRole_admin;
    first [left; split; [apply weave_prefix|set_solver]|right; left; split_and!; [apply weave_prefix| |done]].
  destruct params as [|x [|y [|]]]; try done. cbn [weave].
  change "/members/"%string with ("/members" +:+ "/")%string. rewrite <- sapp_assoc, (sapp_assoc "/members"). apply Contains_app.
Qed.

(** The path of a call that administers an existing workspace names it, unless
    it is "current", which the middleware takes for no workspace. *)
Lemma admin_path c id m p :
  call_route (Native c) m p → workspace_param c = Some id → validateWorkspaceID id = Ok tt →
  workspacePathTarget p = (if decide (id = "current"%string) then EmptyString else id) ∧ requiredRole m p = "admin"%string.
Proof.
  intros Hr Hid Hval. split; [|apply (admin_role c); [done|by eexists]].
  destruct Hr as (-> & params & -> & Hlen & Hx). destruct (Hx id Hid) as (x & Hh & Hxid).
  assert (x = id) as ->.
  { destruct Hxid as [|Hu]; [done|]. rewrite PathUnescape_plain in Hu by (by apply slug_free). congruence. }
  destruct params as [|y params]; [done|]. injection Hh as ->.
  destruct c; try done; injection Hid as ->; cbn [native_route snd fst] in *; cbn [weave]; apply workspace_target; try done.
  - destruct params; [by left|done].
  - destruct params; [by left|done].
  - destruct params as [|u [|]]; try done. right. eexists. reflexivity.
  - destruct params as [|u [|]]; try done. right. eexists. reflexivity.
Qed.

(** ** Administration of workspaces that do not exist, or exist already *)

Lemma unknown_workspace `{Clock} X ws c id w :
  workspace_param c = Some id → workspaces (w_db w) !! id = None → tenant_wf (w_db w) →
  w_db (native_handle X ws c w).2 = w_db w.
Proof.
  intros Hc Hn Hwf. assert (Preserves (λ d, d = w_db w) (native_handle X ws c)) as Hp; [|by apply Hp].
  assert (∀ A (k : Workspace → M A), Preserves (λ d, d = w_db w) (GetWorkspace id ≫= k)) as Hget.
  { intros A k w1 Hw1. unfold GetWorkspace. rewrite bind_bind, get_bind, Hw1, Hn. done. }
  assert (Preserves (λ d, d = w_db w) (GetWorkspace id)) as Hget1 by (unfold GetWorkspace; apply _).
  destruct c; try done; injection Hc as ->; cbn [native_handle]; unfold nshown.
  - apply bind_pres; [|intros ?; apply _]. destruct body as [[n s]|]; [|apply _].
    apply on_store_pres; [|intros ?; apply on_store_pres; [done|intros ?; apply _]].
    unfold UpdateWorkspace. apply bind_pres; [apply _|intros ?]. case_decide; [apply _|]. apply bind_pres; [apply _|intros ?].
    intros w1 Hw1. rewrite get_bind, Hw1, Hn. done.
  - apply bind_pres; [|intros ?; apply _]. apply on_store_pres; [|intros ?; apply _]. intros w1 Hw1. unfold DeleteWorkspace.
    case_decide; [done|]. unfold transaction. rewrite get_bind, Hw1, decide_True by done. done.
  - apply bind_pres; [|intros ?; apply _]. destruct body as [role|]; [|apply _]. unfold Handler_AddMember, with_body, require.
    destruct (nonempty role); [|apply _]. apply on_store_pres; [|intros ?; apply _]. unfold AddMember.
    apply bind_pres; [apply _|intros ?]. apply Hget.
  - apply bind_pres; [|intros ?; apply _]. apply on_store_pres; [|intros ?; apply _]. intros w1 Hw1. unfold RemoveMember.
    rewrite get_bind, Hw1, decide_False; [done|]. intros [r Hr]. apply (wf_member _ Hwf) in Hr as [[? Hr] _]. congruence.
Qed.

Lemma create_existing `{Clock} X ws body req w :
  body = Some req → is_Some (workspaces (w_db w) !! ck_ID req) →
  w_db (native_handle X ws (NCreateWorkspace body) w).2 = w_db w.
Proof.
  intros -> Hex. assert (Preserves (λ d, d = w_db w) (native_handle X ws (NCreateWorkspace (Some req)))) as Hp; [|by apply Hp].
  cbn [native_handle]. unfold nshown. apply bind_pres; [|intros ?; apply _].
  unfold Handler_CreateWorkspace, with_body, require. destruct (_ && _); [|apply _].
  apply on_store_pres; [|intros ?; apply on_store_pres; [unfold GetWorkspace; apply _|intros ?; apply _]].
  unfold CreateWorkspace. do 2 (apply bind_pres; [apply _|intros ?]). apply bind_pres; [apply _|intros ?].
  intros w1 Hw1. rewrite get_bind, Hw1, decide_True by done. done.
Qed.

(** ** Requests *)

Section service.
Context `{Clock} (X : Externals) (ParseFloat : string → option float64)
  (eval : DB → clause → string → RunRow → bool) (writeV03 : bool).
(** The parameters of the middlewares. *)
Context (sha256 : string → list Z) (bcrypt_ok : string → string → bool) (allow : Request → bool) (touched : bool)
  (cfg : Config).
(** The router of chi with the decoding of query strings and JSON bodies;
    [None] when none of the routes of the tracking, the registry and the native
    API matches: then [rest] answers, which stands for the routes of the other
    files (logins, artifacts, federation, traces, analytics, metrics, UI) and
    for the answer to an unknown path. *)
Context (decode : Request → option ApiCall) (rest : Handler).

Definition api_handler : Handler := λ r,
  match decode r with
  | None => rest r
  | Some c => x ← call_handler X ParseFloat eval writeV03 (currentWorkspace r) c; mret (mkResponse x.1 x.2)
  end.

Definition service : Handler := serve sha256 bcrypt_ok allow touched cfg api_handler.

Definition can_edit (d : DB) (ws user : string) : Prop :=
  (∃ role, members d !! (ws, user) = Some role ∧ roleAtLeast role "editor" = true) ∨
  (ws = "default"%string ∧ ¬ has_members d ws).

Definition is_admin (d : DB) (v user : string) : Prop :=
  ∃ role, members d !! (v, user) = Some role ∧ roleAtLeast role "admin" = true.

(** Who may administer [v] from [ws]: its admins, and while it has no members
    or does not exist, or when it has the id "current", the admins of [ws] and
    everybody in a default workspace without members. *)
Definition may_administer (d : DB) (ws v user : string) : Prop :=
  is_admin d v user ∨
  ((¬ has_members d v ∨ workspaces d !! v = None ∨ v = "current"%string) ∧
   (is_admin d ws user ∨ (ws = "default"%string ∧ ¬ has_members d ws))).

(** A call that matches a route is one of that route. *)
Class Routed : Prop := routed r c : decode r = Some c → call_route c (rq_Method r) (rq_Path r).

Lemma member_edits role req :
  roleAtLeast "viewer" req = false → roleAtLeast role req = true → roleAtLeast role "editor" = true.
Proof.
  unfold roleAtLeast. rewrite Z.leb_gt, !Z.leb_le. change (rank "viewer") with 1. change (rank "editor") with 2. lia.
Qed.

(** A call about another workspace leaves it alone, or is one an admin route
    leads to. *)
Lemma call_confined v ws c m p w :
  call_route c m p → v ≠ ws → ws ≠ EmptyString → api_wf (w_db w) →
  owned v (w_db (call_handler X ParseFloat eval writeV03 ws c w).2) = owned v (w_db w) ∨
  (requiredRole m p = "admin"%string ∧
   (workspacePathTarget p = v ∧ v ≠ EmptyString ∨
    workspacePathTarget p = EmptyString ∧ (workspaces (w_db w) !! v = None ∨ v = "current"%string))).
Proof.
  intros Hr Hv Hws Hwf. destruct (decide (call_target c = Some v)) as [Ht|Ht].
  2:{ left. destruct (call_isolated X ParseFloat eval writeV03 v ws c w) as (x & w' & -> & _ & E); [done..|exact E]. }
  destruct c as [c|c|c]; try done. cbn [call_target] in Ht.
  assert (w_db (native_handle X ws c w).2 = w_db w → owned v (w_db (call_handler X ParseFloat eval writeV03 ws (Native c) w).2) = owned v (w_db w)) as Hsame.
  { cbn [call_handler]. unfold answer, mbind, M_bind. destruct (native_handle X ws c w) as [[]]; cbn; by intros ->. }
  destruct (workspace_param c) as [id|] eqn:Hid.
  - assert (id = v) as -> by (destruct c; cbn in *; congruence).
    destruct (workspaces (w_db w) !! v) eqn:Hex.
    + right. assert (validateWorkspaceID v = Ok tt) as Hval by (apply (wf_slug _ (aw_tenant _ Hwf)); by eexists).
      destruct (admin_path c v m p) as [H1 H2]; [done..|]. split; [done|]. case_decide; [right; by auto|left]. split; [done|]. by intros ->.
    + left. apply Hsame, (unknown_workspace X ws c v); [done..|apply Hwf].
  - destruct c; try done. cbn in Ht. destruct body as [req|]; [|done]. injection Ht as <-.
    destruct (workspaces (w_db w) !! ck_ID req) eqn:Hex.
    + left. apply Hsame, (create_existing X ws _ req); [done|by eexists].
    + right. destruct Hr as (-> & params & -> & Hlen & _). destruct params; [|done].
      split; [by vm_compute|right]. split; [by vm_compute|by left].
Qed.

(** The handler behind the middlewares. *)
Lemma api_handler_exec `{!Routed} r w :
  api_wf (w_db w) → currentWorkspace r ≠ EmptyString → is_Some (decode r) →
  ∃ x w', api_handler r w = (Ok x, w') ∧ api_wf (w_db w') ∧
    (∀ v, v ≠ currentWorkspace r →
       owned v (w_db w') = owned v (w_db w) ∨
       (requiredRole (rq_Method r) (rq_Path r) = "admin"%string ∧
        (workspacePathTarget (rq_Path r) = v ∧ v ≠ EmptyString ∨
         workspacePathTarget (rq_Path r) = EmptyString ∧ (workspaces (w_db w) !! v = None ∨ v = "current"%string)))) ∧
    (w_db w' = w_db w ∨
     (roleAtLeast "viewer" (requiredRole (rq_Method r) (rq_Path r)) = false ∧
      (workspacePathTarget (rq_Path r) = EmptyString ∨ requiredRole (rq_Method r) (rq_Path r) = "admin"%string))).
Proof.
  intros Hwf Hws [c Hd]. unfold api_handler. rewrite Hd.
  pose proof (routed _ _ Hd) as Hr. set (ws := currentWorkspace r) in *.
  destruct (exist_fresh ({[ws]} ∪ match call_target c with Some t => {[t]} | None => ∅ end : gset string)) as [u Hu].
  destruct (call_isolated X ParseFloat eval writeV03 u ws c w) as (x & w' & E & Hwf' & _);
    [set_solver|done|destruct (call_target c); set_solver|done|].
  exists (mkResponse x.1 x.2), w'. rewrite (bind_Ok _ _ _ _ _ E). assert (w' = (call_handler X ParseFloat eval writeV03 ws c w).2) as Hw' by (by rewrite E).
  split_and!; [done|done| |].
  - intros v Hv. rewrite Hw'. by apply call_confined.
  - destruct (reading c) eqn:Hread; [left|right; by apply (write_role c)]. rewrite Hw'.
    pose proof (reading_pres X ParseFloat eval writeV03 (λ d, d = w_db w) ws c Hread) as Hp. by apply Hp.
Qed.

(** What the middlewares granted. *)
Lemma granted_edit d m p user ws role :
  authorized d m p user ws role → roleAtLeast "viewer" (requiredRole m p) = false →
  workspacePathTarget p = EmptyString ∨ requiredRole m p = "admin"%string →
  can_edit d ws user ∨ is_admin d (workspacePathTarget p) user.
Proof.
  intros [role' Ht _ Hm Hat|_ Hd Hn|role' _ _ Hm Hat] Hreq Hadm.
  - right. exists role'. destruct Hadm as [?|<-]; done.
  - left. by right.
  - left. left. exists role'. split; [done|]. by apply (member_edits _ (requiredRole m p)).
Qed.

Lemma granted_admin d m p user ws v role :
  authorized d m p user ws role → requiredRole m p = "admin"%string → v ≠ ws →
  workspacePathTarget p = v ∧ v ≠ EmptyString ∨ workspacePathTarget p = EmptyString ∧ (workspaces d !! v = None ∨ v = "current"%string) →
  may_administer d ws v user.
Proof.
  intros Ha Hreq Hv Ht. unfold may_administer, is_admin. rewrite <- Hreq.
  destruct Ha as [role' Hne _ Hm Hat|Ho Hd Hn|role' Ho _ Hm Hat]; unfold own_route in *; naive_solver.
Qed.

(** C3: who can change what, end to end.  With authentication on, take any
    request to a route of the tracking, registry or native API.  It is answered.
    What a workspace other than the one it selected owns stays as it was,
    unless the user of the request may administer that workspace: as one of its
    admins, or, while it has no members or does not exist or when its id is
    "current", as an admin of the selected workspace or in a default workspace
    without members.  And if anything besides the sessions changed, the request
    was authenticated, the workspace it selected exists, and its user can edit
    there (an editor or admin, or a default workspace without members) or is an
    admin of the workspace the path names. *)
Theorem request_confined `{!Routed} r w :
  cfg_Auth cfg ≠ "none"%string → isPublicPath (rq_Path r) = false →
  (∀ r', rq_Method r' = rq_Method r → rq_Path r' = rq_Path r → is_Some (decode r')) → api_wf (w_db w) →
  let d := w_db w in
  let ws := requested_workspace r in
  let user_is := λ user, identify sha256 bcrypt_ok cfg r d (clock (w_tick w)) = Some user in
  ∃ x w', service r w = (Ok x, w') ∧ api_wf (w_db w') ∧
    (∀ v, v ≠ ws →
       owned v (w_db w') = owned v d ∨ ∃ user, user_is user ∧ may_administer d ws v user) ∧
    (set_sessions ∅ (w_db w') = set_sessions ∅ d ∨
     ∃ user, user_is user ∧ known_workspace d ws ∧
       (can_edit d ws user ∨ is_admin d (workspacePathTarget (rq_Path r)) user)).
Proof.
  intros Hcfg Hpub Hroute Hwf. cbv zeta. unfold service.
  assert (∀ w1, same_but_sessions w w1 → ∃ s, w_db w1 = set_sessions s (w_db w) ∧ api_wf (w_db w1)) as Hsame.
  { intros w1 ->. eexists. split; [done|]. destruct Hwf as [[] [] [] []]. by split; split. }
  destruct (serve_cases sha256 bcrypt_ok allow touched cfg api_handler r w Hcfg Hpub)
    as [(user & role & r' & w1 & Hu & Hk & Hz & -> & Hw1 & Hm & Hp & _ & _ & Hh & _)|(x & w1 & -> & _ & Hw1 & _)];
    destruct (Hsame w1 Hw1) as (s & Hs & Hwf1).
  2:{ exists x, w1. rewrite Hs. split_and!; [done|by rewrite <- Hs|by left|by left]. }
  set (ws := requested_workspace r) in *.
  assert (ws ≠ EmptyString) as Hws by (unfold ws, requested_workspace, default_ws; by case_decide).
  assert (currentWorkspace r' = ws) as Hcur by (unfold currentWorkspace, or_else; by rewrite Hh, decide_False).
  destruct (api_handler_exec r' w1) as (x & w' & E & Hwf' & Hv & Hch); [done|by rewrite Hcur|by apply Hroute|].
  rewrite Hcur, Hm, Hp in *. exists x, w'. split_and!; [done|done| |].
  - intros v Hne. destruct (Hv v Hne) as [->|[Hreq Ht]]; [left; by rewrite Hs|right].
    exists user. split; [done|]. rewrite Hs in Ht. by apply (granted_admin _ _ _ _ _ _ _ Hz Hreq).
  - destruct Hch as [->|[Hreq Ht]]; [left; by rewrite Hs|right]. exists user. split_and!; [done|done|].
    by apply (granted_edit _ _ _ _ _ _ Hz).
Qed.
End service.

(** ** An example *)

Module Example2.
Import Isolation.Example1 Tenants.Example3.

(** Two routes, with fixed bodies. *)
Definition create_path : string := "/api/2.0/mlflow/runs/create".
Definition member_path : string := "/api/v1/workspaces/team/members/eve".
Definition ex_decode (r : Request) : option ApiCall :=
  if decide (rq_Method r = "POST"%string ∧ rq_Path r = create_path)
  then Some (Tracking (CCreateRun "r9" (Some (mkCreateRunReq "2" "ann" 7 [] "new"))))
  else if decide (rq_Method r = "PUT"%string ∧ rq_Path r = member_path)
  then Some (Native (NAddMember "team" "eve" (Some "viewer")))%string
  else None.

Definition unknown_path : Handler := λ _, mret (mkResponse 404 "").

#[export] Instance ex_routed : Routed ex_decode.
Proof.
  intros r c. unfold ex_decode. destruct (decide _) as [[-> ->]|_]; [intros [= <-]; left|].
  destruct (decide _) as [[-> ->]|_]; [intros [= <-]|done]. split; [done|].
  exists ["team"; "eve"]%string. split_and!; [done|done|]. intros id [= <-]. exists "team"%string. split; [done|by left].
Qed.

(** Ann, an admin of "team" and a viewer of "default". *)
Definition staff_db : DB :=
  set_members {[ ("team", "ann")%string := "admin"%string; ("default", "ann")%string := "viewer"%string ]} two_db.
Definition request (m p ws : string) : Request :=
  mkRequest m p {[ "X-Workspace"%string := ws ]} ∅ (Some ("ann", "pw")%string) None None None None.
Definition ex_service : Handler :=
  service ext no_float no_filter false (λ _, []) ex_bcrypt (λ _, true) true ex_cfg ex_decode unknown_path.
Definition staff_serves (m p ws : string) : result Response := (ex_service (request m p ws) (mkWorld staff_db 0)).1.

Lemma staff_wf : api_wf staff_db.
Proof.
  destruct two_wf as [[] [] [] [H1 H2 _]]. split; [by split..|]. split; [done|done|].
  intros ws u r. cbn. intros [[[= <- <-] <-]|[_ Hr]]%lookup_insert_Some.
  - split; [by vm_compute; eexists|done].
  - apply lookup_singleton_Some in Hr as [[= <- <-] <-]. split; [by vm_compute; eexists|done].
Qed.

(** A run is created in "team" and refused in "default"; Ann administers "team"
    from "default" too. *)
Lemma staff_statuses :
  staff_serves "POST" create_path "team" = Ok (mkResponse 200 "") ∧
  staff_serves "POST" create_path "default" = Ok (mkResponse 403 "PERMISSION_DENIED") ∧
  staff_serves "PUT" member_path "default" = Ok (mkResponse 200 "") ∧
  is_Some (runs (w_db (ex_service (request "POST" create_path "team") (mkWorld staff_db 0)).2) !! "r9"%string).
Proof. vm_compute. do 3 (split; [done|]). by eexists. Qed.

Lemma request_confined_witness :
  ∃ x w', ex_service (request "POST" create_path "team") (mkWorld staff_db 0) = (Ok x, w') ∧
    owned "default" (w_db w') = owned "default" staff_db.
Proof.
  destruct (request_confined ext no_float no_filter false (λ _, []) ex_bcrypt (λ _, true) true
    ex_cfg ex_decode unknown_path (request "POST" create_path "team") (mkWorld staff_db 0)) as (x & w' & E & _ & Hv & _).
  - vm_compute. discriminate.
  - vm_compute. reflexivity.
  - intros r' Hm Hp. unfold ex_decode. rewrite decide_True; [by eexists|]. split; [exact Hm|exact Hp].
  - apply staff_wf.
  - exists x, w'. split; [exact E|]. destruct (Hv "default"%string) as [Ho|(user & Hu & Ha)];
      [vm_compute; discriminate|exact Ho|exfalso].
    vm_compute in Hu. injection Hu as <-.
    destruct Ha as [(role & Hr & Hat)|[[Hn|[Hn|Hn]] _]].
    + vm_compute in Hr. injection Hr as <-. discriminate Hat.
    + apply Hn. exists "ann"%string, "viewer"%string. vm_compute. reflexivity.
    + vm_compute in Hn. discriminate Hn.
    + discriminate Hn.
Defined.

(** Searching runs is a POST in MLflow's clients: a viewer is refused, while
    the GET of the same route is allowed. *)
Lemma viewer_search_refused :
  requiredRole "POST" "/api/2.0/mlflow/runs/search" = "editor"%string ∧
  requiredRole "GET" "/api/2.0/mlflow/runs/search" = "viewer"%string.
Proof. split; vm_compute; reflexivity. Qed.
End Example2.
