(* ===== verification/Dispatcher.v ===== *)
(** * Delivery of webhooks (internal/webhooks/dispatcher.go)

    The dispatcher as a transition system: handlers that call [Notify], eight
    workers and the callers of [Stop] are threads that share a bounded queue,
    the channel [stopCh], a counter and the store.  An action names the thread
    that moves and the branch of its [select] it takes, so that a schedule is
    a list of actions and [fire] executes it. *)

From S2P Require Import Prelude GoStrings Model Database Integrations MlflowApi EchoLog Sample.
From Stdlib Require Import Ascii.

Open Scope Z_scope.

(** ** Events *)

Definition EventRunStarted : string := "run_started".
Definition EventRunFinished : string := "run_finished".
Definition EventRunFailed : string := "run_failed".
Definition EventRunKilled : string := "run_killed".

Definition StatusToEvent (status : string) : string :=
  if decide (status = StatusRunning) then EventRunStarted
  else if decide (status = StatusFinished) then EventRunFinished
  else if decide (status = StatusFailed) then EventRunFailed
  else if decide (status = StatusKilled) then EventRunKilled
  else EmptyString.

Definition matchesEvent (events event : string) : bool :=
  nonempty events && existsb (λ e, bool_decide (TrimSpace e = event)) (Split1 "," events).

(** A pending delivery. *)
Record job := mkJob { j_wh : Webhook; j_event : string; j_run : Run }.

(** ** Threads *)

(** [deliver]: before the body is built; about to POST; waiting to retry.  The
    list holds the answers so far ([None] for a failed request). *)
Inductive delivery :=
  | DStart (j : job)
  | DPost (j : job) (body : string) (backoff : Z) (posts : list (option Z))
  | DWait (j : job) (body : string) (backoff : Z) (posts : list (option Z)).

(** [worker]: in the outer select, in the loop that drains after [Stop], in
    [deliver] called from one of them, or returned. *)
Inductive worker_state :=
  | WSelect | WDrain | WBusy (draining : bool) (x : delivery) | WExited.

(** [Notify]: before the first look at [stopCh], before the query, at the top
    of the loop, and between the second look and the send. *)
Inductive notify_state :=
  | NStart (n : Notification) | NList (n : Notification)
  | NCheck (ws : string) (l : list job) | NSend (ws : string) (j : job) (l : list job) | NDone.

(** [Stop]: waiting for the workers, sweeping the queue (with the context of
    the sweep expired or not), delivering during the sweep, returned. *)
Inductive stop_state :=
  | SWait | SSweep (expired : bool) | SBusy (expired : bool) (x : delivery) | SReturned.

Inductive thread := TWorker (s : worker_state) | TNotify (s : notify_state) | TStop (s : stop_state).

Inductive verdict := Delivered (status : Z) | GaveUp (status : Z) | Aborted | Echoed.
Record outcome := mkOutcome { oc_job : job; oc_posts : list (option Z); oc_verdict : verdict }.

(** A POST to a webhook, with its headers. *)
Record PostRequest := mkPostRequest {
  pq_URL : string; pq_Event : string; pq_Signature : option string; pq_Body : string }.

(** The dispatcher: the fields of the struct, the context of the workers, the
    store, and what happened so far ([dp_offered], [dp_enqueued],
    [dp_finished], [dp_sent]), which no code reads. *)
Record Dispatcher := mkDispatcher {
  dp_queue : list job;
  dp_dropped : Z;
  dp_stopCh : bool;
  dp_ctxDone : bool;
  dp_echo : option EchoLog;
  dp_store : World;
  dp_threads : list thread;
  dp_offered : list (string * job);
  dp_enqueued : list (string * job);
  dp_finished : list outcome;
  dp_sent : list PostRequest }.

Definition queueCapacity : nat := 1024.
Definition maxWorkers : nat := 8.
Definition maxRetries : nat := 3.
Definition retryMultiplier : Z := 5.

Definition New (echo : option EchoLog) (w : World) : Dispatcher :=
  mkDispatcher [] 0 false false echo w (replicate maxWorkers (TWorker WSelect)) [] [] [] [].

(** The branch a thread takes. *)
Inductive choice :=
  | CNext                     (** the only way on *)
  | CTake                     (** receive from the queue *)
  | CSeeStop                  (** [<-d.stopCh] *)
  | CSeeCtx                   (** [<-ctx.Done()] *)
  | CPost (answer : option Z) (** the HTTP request returned *)
  | CElapsed                  (** [<-time.After(backoff)] *)
  | CTimeout.                 (** [<-time.After(drainTimeout)], or the context of the sweep *)

Inductive action :=
  | ANotify (n : Notification) | AStop | ACancel | AStore (w : World) | AThread (i : nat) (c : choice).

(** ** Field updates *)

Definition set_queue (q : list job) (d : Dispatcher) : Dispatcher :=
  mkDispatcher q (dp_dropped d) (dp_stopCh d) (dp_ctxDone d) (dp_echo d) (dp_store d) (dp_threads d)
    (dp_offered d) (dp_enqueued d) (dp_finished d) (dp_sent d).
Definition add_dropped (d : Dispatcher) : Dispatcher :=
  mkDispatcher (dp_queue d) (dp_dropped d + 1) (dp_stopCh d) (dp_ctxDone d) (dp_echo d) (dp_store d) (dp_threads d)
    (dp_offered d) (dp_enqueued d) (dp_finished d) (dp_sent d).
Definition close_stop (d : Dispatcher) : Dispatcher :=
  mkDispatcher (dp_queue d) (dp_dropped d) true (dp_ctxDone d) (dp_echo d) (dp_store d) (dp_threads d)
    (dp_offered d) (dp_enqueued d) (dp_finished d) (dp_sent d).
Definition cancel_ctx (d : Dispatcher) : Dispatcher :=
  mkDispatcher (dp_queue d) (dp_dropped d) (dp_stopCh d) true (dp_echo d) (dp_store d) (dp_threads d)
    (dp_offered d) (dp_enqueued d) (dp_finished d) (dp_sent d).
Definition set_echo (e : option EchoLog) (d : Dispatcher) : Dispatcher :=
  mkDispatcher (dp_queue d) (dp_dropped d) (dp_stopCh d) (dp_ctxDone d) e (dp_store d) (dp_threads d)
    (dp_offered d) (dp_enqueued d) (dp_finished d) (dp_sent d).
Definition set_store (w : World) (d : Dispatcher) : Dispatcher :=
  mkDispatcher (dp_queue d) (dp_dropped d) (dp_stopCh d) (dp_ctxDone d) (dp_echo d) w (dp_threads d)
    (dp_offered d) (dp_enqueued d) (dp_finished d) (dp_sent d).
Definition set_threads (l : list thread) (d : Dispatcher) : Dispatcher :=
  mkDispatcher (dp_queue d) (dp_dropped d) (dp_stopCh d) (dp_ctxDone d) (dp_echo d) (dp_store d) l
    (dp_offered d) (dp_enqueued d) (dp_finished d) (dp_sent d).
Definition log_offered (l : list (string * job)) (d : Dispatcher) : Dispatcher :=
  mkDispatcher (dp_queue d) (dp_dropped d) (dp_stopCh d) (dp_ctxDone d) (dp_echo d) (dp_store d) (dp_threads d)
    (dp_offered d ++ l) (dp_enqueued d) (dp_finished d) (dp_sent d).
Definition enqueue (ws : string) (j : job) (d : Dispatcher) : Dispatcher :=
  mkDispatcher (dp_queue d ++ [j]) (dp_dropped d) (dp_stopCh d) (dp_ctxDone d) (dp_echo d) (dp_store d) (dp_threads d)
    (dp_offered d) (dp_enqueued d ++ [(ws, j)]) (dp_finished d) (dp_sent d).
Definition log_finished (o : outcome) (d : Dispatcher) : Dispatcher :=
  mkDispatcher (dp_queue d) (dp_dropped d) (dp_stopCh d) (dp_ctxDone d) (dp_echo d) (dp_store d) (dp_threads d)
    (dp_offered d) (dp_enqueued d) (dp_finished d ++ [o]) (dp_sent d).
Definition log_sent (q : PostRequest) (d : Dispatcher) : Dispatcher :=
  mkDispatcher (dp_queue d) (dp_dropped d) (dp_stopCh d) (dp_ctxDone d) (dp_echo d) (dp_store d) (dp_threads d)
    (dp_offered d) (dp_enqueued d) (dp_finished d) (dp_sent d ++ [q]).

Section dispatcher.
Context `{Clock}.
(** HMAC-SHA256 in hexadecimal, the JSON of a payload (event, run, time), and
    the first retry delay in ms. *)
Context (hmacSHA256 : string → string → string) (json_payload : string → Run → Z → string) (retryBase : Z).

(** ** Delivery *)

(** The request [post] builds. *)
Definition post (wh : Webhook) (event body : string) : PostRequest :=
  mkPostRequest (wh_URL wh) event
    (if decide (wh_Secret wh = EmptyString) then None else Some ("sha256=" +:+ hmacSHA256 (wh_Secret wh) body)) body.

Definition VerifySignature (secret body header : string) : bool :=
  bool_decide (header = "sha256=" +:+ hmacSHA256 secret body)%string.

(** Run a store method, forgetting its result. *)
Definition on_dispatcher {A} (m : M A) (d : Dispatcher) : Dispatcher := set_store (m (dp_store d)).2 d.

(** [RecordWebhookAttempt] with the current time; with a cancelled context the
    database is not reached. *)
Definition record_attempt (cancelled : bool) (id status : Z) (d : Dispatcher) : Dispatcher :=
  if cancelled then d else on_dispatcher (now ← time_now; RecordWebhookAttempt id status now) d.

Definition finish (j : job) (posts : list (option Z)) (v : verdict) (d : Dispatcher) : option delivery * Dispatcher :=
  (None, log_finished (mkOutcome j posts v) d).

Definition success (answer : option Z) : bool :=
  match answer with Some status => (200 <=? status) && (status <? 300) | None => false end.

(** A step of [deliver]; [None] as the next state when it returns. *)
Definition deliver (cancelled : bool) (c : choice) (x : delivery) (d : Dispatcher) : option (option delivery * Dispatcher) :=
  match x, c with
  | DStart j, CNext =>
      let now := clock (w_tick (dp_store d)) in
      let d1 := on_dispatcher time_now d in
      let body := json_payload (j_event j) (j_run j) now in
      if IsEchoURL (wh_URL (j_wh j)) then
        let d2 := set_echo (EchoLog_Record (clock (w_tick (dp_store d1)))
                    (mkEchoEntry 0 (j_event j) (wh_ID (j_wh j)) body (run_ID (j_run j))) <$> dp_echo d1) d1 in
        Some (finish j [] Echoed (record_attempt cancelled (wh_ID (j_wh j)) 200 d2))
      else Some (Some (DPost j body retryBase []), d1)
  | DPost j body backoff posts, CPost answer =>
      let d1 := log_sent (post (j_wh j) (j_event j) body) d in
      let status := match answer with Some s => s | None => 0 end in
      let posts := posts ++ [answer] in
      if success answer then
        Some (finish j posts (Delivered status) (record_attempt cancelled (wh_ID (j_wh j)) status d1))
      else if (length posts <? maxRetries)%nat then Some (Some (DWait j body backoff posts), d1)
      else Some (finish j posts (GaveUp status) (record_attempt cancelled (wh_ID (j_wh j)) status d1))
  | DWait j body backoff posts, CElapsed => Some (Some (DPost j body (backoff * retryMultiplier) posts), d)
  | DWait j body backoff posts, CSeeStop => if dp_stopCh d then Some (finish j posts Aborted d) else None
  | DWait j body backoff posts, CSeeCtx => if cancelled then Some (finish j posts Aborted d) else None
  | _, _ => None
  end.

(** ** The threads *)

Definition worker (c : choice) (s : worker_state) (d : Dispatcher) : option (worker_state * Dispatcher) :=
  match s, c with
  | WSelect, CSeeCtx => if dp_ctxDone d then Some (WExited, d) else None
  | WSelect, CSeeStop => if dp_stopCh d then Some (WDrain, d) else None
  | WSelect, CTake => match dp_queue d with j :: q => Some (WBusy false (DStart j), set_queue q d) | [] => None end
  | WDrain, CNext => match dp_queue d with j :: q => Some (WBusy true (DStart j), set_queue q d) | [] => Some (WExited, d) end
  | WBusy draining x, c =>
      '(x', d') ← deliver (dp_ctxDone d) c x d;
      Some (match x' with Some x' => WBusy draining x' | None => if draining then WDrain else WSelect end, d')
  | _, _ => None
  end.

(** The deliveries a notification asks for. *)
Definition jobs_of (n : Notification) (whs : list Webhook) : list job :=
  (λ wh, mkJob wh (nt_Event n) (nt_Run n)) <$> filter (λ wh, wh_Enabled wh = true ∧ matchesEvent (wh_Events wh) (nt_Event n) = true) whs.

Definition Notify (s : notify_state) (d : Dispatcher) : option (notify_state * Dispatcher) :=
  match s with
  | NStart n =>
      if decide (nt_Event n = EmptyString) then Some (NDone, d)
      else if dp_stopCh d then Some (NDone, d) else Some (NList n, d)
  | NList n =>
      match ListWebhooks (nt_Workspace n) (Some (run_ExperimentID (nt_Run n))) (dp_store d) with
      | (Ok whs, w') =>
          let l := jobs_of n whs in
          Some (NCheck (nt_Workspace n) l, log_offered (pair (nt_Workspace n) <$> l) (set_store w' d))
      | (Err _, w') => Some (NDone, set_store w' d)
      end
  | NCheck ws [] => Some (NDone, d)
  | NCheck ws (j :: l) => if dp_stopCh d then Some (NDone, add_dropped d) else Some (NSend ws j l, d)
  | NSend ws j l =>
      Some (NCheck ws l, if (length (dp_queue d) <? queueCapacity)%nat then enqueue ws j d else add_dropped d)
  | NDone => None
  end.

Definition exited (t : thread) : bool := match t with TWorker WExited => true | TWorker _ => false | _ => true end.

Definition Stop (c : choice) (s : stop_state) (d : Dispatcher) : option (stop_state * Dispatcher) :=
  match s, c with
  | SWait, CNext => if forallb exited (dp_threads d) then Some (SSweep false, d) else None
  | SWait, CTimeout => Some (SReturned, d)
  | SSweep false, CTimeout => Some (SSweep true, d)
  | SSweep expired, CNext =>
      match dp_queue d with j :: q => Some (SBusy expired (DStart j), set_queue q d) | [] => Some (SReturned, d) end
  | SBusy false x, CTimeout => Some (SBusy true x, d)
  | SBusy expired x, c =>
      '(x', d') ← deliver expired c x d;
      Some (match x' with Some x' => SBusy expired x' | None => SSweep expired end, d')
  | _, _ => None
  end.

Definition thread_step (c : choice) (t : thread) (d : Dispatcher) : option (thread * Dispatcher) :=
  match t with
  | TWorker s => '(s', d') ← worker c s d; Some (TWorker s', d')
  | TNotify s => match c with CNext => '(s', d') ← Notify s d; Some (TNotify s', d') | _ => None end
  | TStop s => '(s', d') ← Stop c s d; Some (TStop s', d')
  end.

Definition fire (a : action) (d : Dispatcher) : option Dispatcher :=
  match a with
  | ANotify n => Some (set_threads (dp_threads d ++ [TNotify (NStart n)]) d)
  | AStop => Some (set_threads (dp_threads d ++ [TStop SWait]) (close_stop d))
  | ACancel => Some (cancel_ctx d)
  | AStore w => Some (set_store w d)
  | AThread i c =>
      t ← dp_threads d !! i;
      '(t', d') ← thread_step c t d;
      Some (set_threads (<[i := t']> (dp_threads d')) d')
  end.

Fixpoint run (l : list action) (d : Dispatcher) : option Dispatcher :=
  match l with [] => Some d | a :: l' => fire a d ≫= run l' end.
End dispatcher.
