(* ===== verification/DispatcherLaws.v ===== *)
(** * Delivery of webhooks: what every schedule guarantees

    The invariant of the dispatcher over all interleavings of notifications,
    workers and shutdown, and the termination of the shutdown. *)

From S2P Require Import Prelude GoStrings Model Database Integrations MlflowApi EchoLog Sample Dispatcher.

Open Scope Z_scope.

(** ** Counting jobs *)

#[export] Instance Webhook_eq_dec : EqDecision Webhook.
Proof. solve_decision. Defined.
#[export] Instance job_eq_dec : EqDecision job.
Proof. solve_decision. Defined.

Section counting.
Context {A : Type} `{EqDecision A}.

Definition copies (x : A) (l : list A) : nat := length (filter (λ y, y = x) l).

Lemma copies_app x l k : copies x (l ++ k) = (copies x l + copies x k)%nat.
Proof. unfold copies. by rewrite filter_app, length_app. Qed.

Lemma copies_cons x y l : copies x (y :: l) = (copies x [y] + copies x l)%nat.
Proof. apply (copies_app x [y] l). Qed.

Lemma copies_nil x : copies x [] = 0%nat.
Proof. done. Qed.

Lemma copies_perm l k : l ≡ₚ k ↔ ∀ x, copies x l = copies x k.
Proof.
  split; [intros E x; unfold copies; by rewrite E|].
  revert k. induction l as [|y l IH]; intros k Hk.
  - destruct k as [|y k]; [done|]. specialize (Hk y). rewrite (copies_cons y y) in Hk.
    unfold copies in Hk at 2. rewrite filter_cons_True in Hk by done. cbn in Hk. lia.
  - assert (y ∈ k) as (k1 & k2 & ->)%list_elem_of_split.
    { assert (0 < copies y k)%nat as Hpos.
      { rewrite <- Hk, copies_cons. unfold copies at 1. rewrite filter_cons_True by done. cbn. lia. }
      unfold copies in Hpos. destruct (filter (λ z, z = y) k) as [|z f] eqn:Hf; [cbn in Hpos; lia|].
      assert (z ∈ filter (λ z, z = y) k) as [-> Hz]%list_elem_of_filter; [rewrite Hf; left|done]. }
    rewrite <- Permutation_middle. constructor. apply IH. intros x. specialize (Hk x).
    rewrite copies_cons, copies_app, (copies_cons x y k2) in Hk. rewrite copies_app. lia.
Qed.
End counting.

(** Permutations of concatenations, by counting. *)
Ltac count_jobs :=
  apply copies_perm; let x := fresh "x" in intros x;
  repeat match goal with E : _ ≡ₚ _ |- _ => apply copies_perm with (x := x) in E end;
  repeat match goal with
  | H : context [copies _ (_ ++ _)] |- _ => rewrite copies_app in H
  | |- context [copies _ (_ ++ _)] => rewrite copies_app
  | H : context [copies _ (?y :: ?l)] |- _ => lazymatch l with [] => fail | _ => rewrite (copies_cons _ y l) in H end
  | |- context [copies _ (?y :: ?l)] => lazymatch l with [] => fail | _ => rewrite (copies_cons _ y l) end
  end; rewrite ?copies_nil in *; lia.

(** ** What the threads hold *)

Definition job_of (x : delivery) : job := match x with DStart j | DPost j _ _ _ | DWait j _ _ _ => j end.
Definition busy (t : thread) : option job :=
  match t with TWorker (WBusy _ x) | TStop (SBusy _ x) => Some (job_of x) | _ => None end.
Definition answers_of (x : delivery) : list (option Z) :=
  match x with DStart _ => [] | DPost _ _ _ posts | DWait _ _ _ posts => posts end.
Definition answered (t : thread) : list (option Z) :=
  match t with TWorker (WBusy _ x) | TStop (SBusy _ x) => answers_of x | _ => [] end.
Definition pending (t : thread) : list job :=
  match t with TNotify (NCheck _ l) => l | TNotify (NSend _ j l) => j :: l | _ => [] end.
Definition is_worker (t : thread) : bool := match t with TWorker _ => true | _ => false end.

Definition in_flight (l : list thread) : list job := l ≫= λ t, option_list (busy t).
Definition waiting (l : list thread) : list job := l ≫= pending.

Lemma insert_bind {B} (f : thread → list B) l i t t' :
  l !! i = Some t → f t ++ (<[i := t']> l ≫= f) ≡ₚ f t' ++ (l ≫= f).
Proof.
  intros Hi. rewrite <- (take_drop_middle l i t Hi) at 2. rewrite insert_take_drop by (by eapply lookup_lt_Some).
  rewrite !bind_app, !bind_cons. rewrite !(Permutation_app_comm (f _) (_ ++ _)), <- !app_assoc.
  apply Permutation_app_head. rewrite !(Permutation_app_comm _ (f _)). rewrite !app_assoc. by rewrite (Permutation_app_comm (f t)).
Qed.

(** ** The invariant *)

(** [j] is for a webhook of [ws] that asked for it. *)
Definition subscribed (p : string * job) : Prop :=
  let '(ws, j) := p in
  wh_Enabled (j_wh j) = true ∧ matchesEvent (wh_Events (j_wh j)) (j_event j) = true ∧
  wh_WorkspaceID (j_wh j) = default_ws ws ∧
  (wh_ExperimentID (j_wh j) = None ∨ wh_ExperimentID (j_wh j) = Some (run_ExperimentID (j_run j))).

Definition failures (posts : list (option Z)) : Prop := Forall (λ a, success a = false) posts.

(** The story of a finished delivery. *)
Definition outcome_ok (interrupted : bool) (o : outcome) : Prop :=
  let url := wh_URL (j_wh (oc_job o)) in
  match oc_verdict o with
  | Echoed => IsEchoURL url = true ∧ oc_posts o = []
  | Delivered s => IsEchoURL url = false ∧ success (Some s) = true ∧
      ∃ l, failures l ∧ (length l < maxRetries)%nat ∧ oc_posts o = l ++ [Some s]
  | GaveUp s => IsEchoURL url = false ∧ failures (oc_posts o) ∧ length (oc_posts o) = maxRetries ∧
      ∃ l a, oc_posts o = l ++ [a] ∧ s = match a with Some s => s | None => 0 end
  | Aborted => IsEchoURL url = false ∧ failures (oc_posts o) ∧ (0 < length (oc_posts o) < maxRetries)%nat ∧ interrupted = true
  end.

Section laws.
Context `{Clock} (hmacSHA256 : string → string → string) (json_payload : string → Run → Z → string) (retryBase : Z).

(** A request of a delivery of [j]: to the URL of its webhook, naming the event
    in the header and reporting the run in the body; signed with the secret of
    the webhook, and unsigned if it has none. *)
Definition request_of (j : job) (q : PostRequest) : Prop :=
  IsEchoURL (wh_URL (j_wh j)) = false ∧ pq_URL q = wh_URL (j_wh j) ∧ pq_Event q = j_event j ∧
  (∃ t, pq_Body q = json_payload (j_event j) (j_run j) t) ∧
  (wh_Secret (j_wh j) = EmptyString → pq_Signature q = None) ∧
  (wh_Secret (j_wh j) ≠ EmptyString →
   ∃ header, pq_Signature q = Some header ∧ VerifySignature hmacSHA256 (wh_Secret (j_wh j)) (pq_Body q) header = true).

Definition body_ok (j : job) (body : string) : Prop :=
  IsEchoURL (wh_URL (j_wh j)) = false ∧ ∃ t, body = json_payload (j_event j) (j_run j) t.

(** The wait before the n-th retry is [retryBase * 5^n]. *)
Definition delivery_wf (x : delivery) : Prop :=
  match x with
  | DStart _ => True
  | DPost j body backoff posts => body_ok j body ∧ failures posts ∧ (length posts < maxRetries)%nat ∧
      backoff = retryBase * retryMultiplier ^ Z.of_nat (length posts)
  | DWait j body backoff posts => body_ok j body ∧ failures posts ∧ (0 < length posts < maxRetries)%nat ∧
      backoff = retryBase * retryMultiplier ^ (Z.of_nat (length posts) - 1)
  end.

Definition thread_wf (stopped : bool) (t : thread) : Prop :=
  match t with
  | TWorker (WBusy draining x) => delivery_wf x ∧ (draining = true → stopped = true)
  | TWorker WDrain => stopped = true
  | TNotify (NCheck ws l) => Forall (λ j, subscribed (ws, j)) l
  | TNotify (NSend ws j l) => Forall (λ j, subscribed (ws, j)) (j :: l)
  | TStop (SBusy _ x) => stopped = true ∧ delivery_wf x
  | TStop _ => stopped = true
  | _ => True
  end.

Definition interrupted (d : Dispatcher) : bool := dp_stopCh d || dp_ctxDone d.

Record Inv (d : Dispatcher) : Prop := {
  iv_queue : (length (dp_queue d) ≤ queueCapacity)%nat;
  iv_workers : length (filter (λ t, is_worker t = true) (dp_threads d)) = maxWorkers;
  iv_jobs : (dp_enqueued d).*2 ≡ₚ dp_queue d ++ in_flight (dp_threads d) ++ (oc_job <$> dp_finished d);
  iv_subscribed : Forall subscribed (dp_offered d) ∧ Forall subscribed (dp_enqueued d);
  iv_outcomes : Forall (outcome_ok (interrupted d)) (dp_finished d);
  iv_alive : interrupted d = false → Forall (λ t, t ≠ TWorker WExited) (dp_threads d);
  iv_posts : length (dp_sent d) = (length (dp_finished d ≫= oc_posts) + length (dp_threads d ≫= answered))%nat;
  iv_sent : Forall (λ q, ∃ j, j ∈ (dp_enqueued d).*2 ∧ request_of j q) (dp_sent d);
  iv_dropped : dp_stopCh d = false →
    Z.of_nat (length (dp_offered d)) =
    Z.of_nat (length (dp_enqueued d)) + dp_dropped d + Z.of_nat (length (waiting (dp_threads d)));
  iv_threads : Forall (thread_wf (dp_stopCh d)) (dp_threads d) }.

(** ** One step of a delivery *)

Lemma post_request j t :
  IsEchoURL (wh_URL (j_wh j)) = false →
  request_of j (post hmacSHA256 (j_wh j) (j_event j) (json_payload (j_event j) (j_run j) t)).
Proof.
  intros He. split_and!; [done|done|done|by exists t| |]; intros Hs; cbn [post pq_Signature]; case_decide; try done.
  eexists. split; [done|]. by apply bool_decide_eq_true.
Qed.

(** What [deliver] leaves alone. *)
Definition shared (d : Dispatcher) :=
  (dp_queue d, dp_dropped d, dp_stopCh d, dp_ctxDone d, dp_threads d, dp_offered d, dp_enqueued d).

Lemma record_attempt_frame b id s d :
  shared (record_attempt b id s d) = shared d ∧ dp_finished (record_attempt b id s d) = dp_finished d ∧
  dp_sent (record_attempt b id s d) = dp_sent d.
Proof. unfold record_attempt. by destruct b. Qed.

Lemma failures_snoc l a : failures l → success a = false → failures (l ++ [a]).
Proof. intros Hl Ha. apply Forall_app. by split; [|constructor]. Qed.

(** [n] requests were sent. *)
Definition next_ok (flag : bool) (x : delivery) (x' : option delivery) (n : nat) (d d' : Dispatcher) : Prop :=
  match x' with
  | Some y => job_of y = job_of x ∧ delivery_wf y ∧ dp_finished d' = dp_finished d ∧
      length (answers_of y) = (n + length (answers_of x))%nat
  | None => ∃ o, dp_finished d' = dp_finished d ++ [o] ∧ oc_job o = job_of x ∧ outcome_ok flag o ∧
      length (oc_posts o) = (n + length (answers_of x))%nat
  end.

Lemma deliver_spec flag c x d x' d' :
  deliver hmacSHA256 json_payload retryBase flag c x d = Some (x', d') → delivery_wf x →
  shared d' = shared d ∧ ∃ qs, dp_sent d' = dp_sent d ++ qs ∧ Forall (request_of (job_of x)) qs ∧
  next_ok (dp_stopCh d || flag) x x' (length qs) d d'.
Proof.
  intros E Hx. destruct x as [j|j body b posts|j body b posts], c as [| | | |answer| |]; try discriminate E; cbn [deliver] in E.
  - (* the body is built *)
    destruct (IsEchoURL _) eqn:He; injection E as <- <-.
    + match goal with |- context [record_attempt ?f ?i ?s ?d0] => destruct (record_attempt_frame f i s d0) as (Hs & Hf & Hn) end.
      split; [exact Hs|]. exists []. rewrite app_nil_r. split_and!; [exact Hn|done|].
      eexists. cbn [dp_finished log_finished snd]. rewrite Hf. by split_and!.
    + split; [done|]. exists []. rewrite app_nil_r. split_and!; [done|done|]. split_and!; [done| |done|done].
      split; [by split; [|eexists]|]. split_and!; [apply Forall_nil_2|unfold maxRetries; cbn; lia|cbn; lia].
  - (* an answer *)
    destruct Hx as ((He & t & ->) & Hfail & Hlen & ->). pose proof (post_request j t He) as Hq.
    destruct (success answer) eqn:Hs; [|destruct (Nat.ltb_spec (length (posts ++ [answer])) maxRetries)]; injection E as <- <-.
    + match goal with |- context [record_attempt ?f ?i ?s ?d0] => destruct (record_attempt_frame f i s d0) as (Hsh & Hf & Hn) end.
      split; [exact Hsh|]. eexists [_]. split_and!; [exact Hn|by constructor|].
      eexists. cbn [dp_finished log_finished snd]. rewrite Hf. split_and!; [done..| |cbn; rewrite length_app; cbn; lia].
      destruct answer as [s|]; [|done]. split_and!; [done..|]. by exists posts.
    + split; [done|]. eexists [_]. split_and!; [done|by constructor|]. split_and!; [done| |done|cbn; rewrite length_app; cbn; lia].
      rewrite length_app in *. cbn [length] in *. split; [by split; [|eexists]|]. rewrite length_app. cbn [length].
      split_and!; [by apply failures_snoc|lia|lia|]. do 2 f_equal. lia.
    + match goal with |- context [record_attempt ?f ?i ?s ?d0] => destruct (record_attempt_frame f i s d0) as (Hsh & Hf & Hn) end.
      split; [exact Hsh|]. eexists [_]. split_and!; [exact Hn|by constructor|].
      eexists. cbn [dp_finished log_finished snd]. rewrite Hf. split_and!; [done..| |cbn; rewrite length_app; cbn; lia].
      rewrite length_app in *. cbn [length] in *.
      split_and!; [done|by apply failures_snoc|cbn [oc_posts]; rewrite length_app; cbn [length]; unfold maxRetries in *; lia|].
      by exists posts, answer.
  - (* shutdown *)
    destruct Hx as ((He & t & ->) & Hfail & Hlen & ->). destruct (dp_stopCh d); [|done]. injection E as <- <-.
    split; [done|]. exists []. rewrite app_nil_r. split_and!; [done|done|]. eexists. split_and!; [done|done| |done].
    unfold outcome_ok. cbn [oc_verdict oc_posts oc_job]. by split_and!; [| |apply Hlen|apply Hlen|].
  - (* cancelled *)
    destruct Hx as ((He & t & ->) & Hfail & Hlen & ->). destruct flag; [|done]. injection E as <- <-.
    split; [done|]. exists []. rewrite app_nil_r. split_and!; [done|done|]. eexists. split_and!; [done|done| |done].
    unfold outcome_ok. cbn [oc_verdict oc_posts oc_job].
    split_and!; [done|done|apply Hlen|apply Hlen|by destruct (dp_stopCh d)].
  - (* the next retry *)
    destruct Hx as (Hb & Hfail & Hlen & ->). injection E as <- <-. split; [done|]. exists []. rewrite app_nil_r.
    split_and!; [done|done|]. split_and!; [done| |done|done].
    split; [exact Hb|]. split_and!; [done|lia|]. rewrite <- Z.mul_assoc. f_equal. rewrite Z.mul_comm, <- Z.pow_succ_r by lia. f_equal. lia.
Qed.

(** ** One step of a thread *)

(** What a step of a thread does: what it adds to the history, where the jobs
    go, and what it owes to the counter. *)
Record effect (d : Dispatcher) (t : thread) (d' : Dispatcher) (t' : thread)
    (added offs : list (string * job)) (outs : list outcome) (qs : list PostRequest) : Prop := {
  ef_frame : dp_threads d' = dp_threads d ∧ dp_stopCh d' = dp_stopCh d ∧ dp_ctxDone d' = dp_ctxDone d;
  ef_kind : is_worker t' = is_worker t;
  ef_thread : thread_wf (dp_stopCh d) t';
  ef_queue : (length (dp_queue d') ≤ queueCapacity)%nat;
  ef_history : dp_enqueued d' = dp_enqueued d ++ added ∧ dp_offered d' = dp_offered d ++ offs ∧
    dp_finished d' = dp_finished d ++ outs ∧ dp_sent d' = dp_sent d ++ qs;
  ef_jobs : dp_queue d' ++ option_list (busy t') ++ (oc_job <$> outs) ≡ₚ dp_queue d ++ option_list (busy t) ++ added.*2;
  ef_subscribed : Forall subscribed added ∧ Forall subscribed offs;
  ef_outcomes : Forall (outcome_ok (interrupted d)) outs;
  ef_posts : (length qs + length (answered t) = length (outs ≫= oc_posts) + length (answered t'))%nat;
  ef_sent : Forall (λ q, ∃ j, busy t = Some j ∧ request_of j q) qs;
  ef_dropped : dp_stopCh d = false →
    Z.of_nat (length offs) + Z.of_nat (length (pending t)) =
    Z.of_nat (length added) + (dp_dropped d' - dp_dropped d) + Z.of_nat (length (pending t')) }.

Lemma in_flight_enqueued d i t j :
  Inv d → dp_threads d !! i = Some t → busy t = Some j → j ∈ (dp_enqueued d).*2.
Proof.
  intros Hd Hi Hj. rewrite (iv_jobs _ Hd), !elem_of_app. right; left. unfold in_flight. apply list_elem_of_bind.
  exists t. rewrite Hj. split; [left|by eapply list_elem_of_lookup_2].
Qed.

Lemma workers_insert l i t t' :
  l !! i = Some t → is_worker t' = is_worker t →
  length (filter (λ t, is_worker t = true) (<[i := t']> l)) = length (filter (λ t, is_worker t = true) l).
Proof.
  intros Hi Hk. rewrite <- (take_drop_middle l i t Hi) at 2. rewrite insert_take_drop by (by eapply lookup_lt_Some).
  rewrite !filter_app, !length_app, !filter_cons, Hk. by destruct (decide _).
Qed.

Lemma Inv_effect d i t d' t' added offs outs qs :
  Inv d → dp_threads d !! i = Some t → effect d t d' t' added offs outs qs →
  (interrupted d = false → t' ≠ TWorker WExited) →
  Inv (set_threads (<[i := t']> (dp_threads d')) d').
Proof.
  intros Hd Hi [(Hth & Hst & Hcx) Hkind Ht' Hq (He & Ho & Hf & Hs) Hj [Ha1 Ha2] Hout Hposts Hsent Hdrop] Hlive. rewrite Hth.
  pose proof (insert_bind (λ t, option_list (busy t)) _ _ _ t' Hi) as Hbusy.  cbv beta in Hbusy.
  pose proof (insert_bind pending _ _ _ t' Hi) as Hpend. apply Permutation_length in Hpend. rewrite !length_app in Hpend.
  pose proof (Permutation_length (insert_bind answered _ _ _ t' Hi)) as Hans. rewrite !length_app in Hans.
  destruct (Hd) as [H1 H2 H3 [H4 H4'] H5 Hal Hps H6 H7 H8].
  split; cbn [set_threads dp_queue dp_threads dp_enqueued dp_finished dp_offered dp_sent dp_stopCh dp_dropped]; rewrite ?Hst, ?He, ?Ho, ?Hf, ?Hs.
  - done.
  - by rewrite (workers_insert _ _ t).
  - rewrite fmap_app, fmap_app. unfold in_flight in *. count_jobs.
  - split; by apply Forall_app.
  - apply Forall_app. unfold interrupted in *. cbn [set_threads dp_stopCh dp_ctxDone]. by rewrite Hst, Hcx.
  - unfold interrupted in *. cbn [set_threads dp_stopCh dp_ctxDone]. rewrite Hst, Hcx. intros Hi0. apply Forall_insert; auto.
  - rewrite length_app, bind_app, length_app. lia.
  - apply Forall_app. split.
    + eapply Forall_impl; [exact H6|]. intros q (j & Hjq & Hq'). exists j. split; [|done]. rewrite fmap_app. apply elem_of_app. by left.
    + eapply Forall_impl; [exact Hsent|]. intros q (j & Hjq & Hq'). exists j. split; [|done]. rewrite fmap_app. apply elem_of_app.
      left. by apply (in_flight_enqueued d i t).
  - intros Hs0. specialize (H7 Hs0). specialize (Hdrop Hs0). rewrite !length_app. unfold waiting in *. lia.
  - by apply Forall_insert.
Qed.

(** The common case: nothing enqueued, offered or dropped. *)
Lemma effect_quiet d t d' t' outs qs :
  shared d' = shared d → is_worker t' = is_worker t → thread_wf (dp_stopCh d) t' → Inv d →
  dp_finished d' = dp_finished d ++ outs → dp_sent d' = dp_sent d ++ qs →
  option_list (busy t') ++ (oc_job <$> outs) ≡ₚ option_list (busy t) → pending t' = pending t →
  (length qs + length (answered t) = length (outs ≫= oc_posts) + length (answered t'))%nat →
  Forall (outcome_ok (interrupted d)) outs → Forall (λ q, ∃ j, busy t = Some j ∧ request_of j q) qs →
  effect d t d' t' [] [] outs qs.
Proof.
  unfold shared. intros [= Hq Hdr Hst Hcx Hth Hof Hen] Hk Ht Hd Hf Hs Hb Hp Hps Ho Hsent.
  split; try done; rewrite ?app_nil_r.
  - rewrite Hq. apply Hd.
  - done.
  - by rewrite Hq, Hb.
  - intros _. rewrite Hdr, Hp. cbn. lia.
Qed.

(** A step inside [deliver]. *)
Lemma deliver_effect flag c x d x' d' t (k : option delivery → thread) :
  deliver hmacSHA256 json_payload retryBase flag c x d = Some (x', d') → Inv d → delivery_wf x →
  dp_stopCh d = true ∨ flag = dp_ctxDone d →
  busy t = Some (job_of x) → answered t = answers_of x → pending t = [] →
  (∀ y, busy (k y) = job_of <$> y) → (∀ y, answered (k y) = default [] (answers_of <$> y)) →
  (∀ y, pending (k y) = []) → (∀ y, is_worker (k y) = is_worker t) →
  (∀ y, match y with Some y => delivery_wf y | None => True end → thread_wf (dp_stopCh d) (k y)) →
  ∃ outs qs, effect d t d' (k x') [] [] outs qs.
Proof.
  intros E Hd Hx Hflag Hb Hans Hp Kb Ka Kp Kw Kt. destruct (deliver_spec _ _ _ _ _ _ E Hx) as (Hsh & qs & Hqs & HQ & Hn).
  assert (∃ outs, dp_finished d' = dp_finished d ++ outs ∧ option_list (job_of <$> x') ++ (oc_job <$> outs) ≡ₚ [job_of x] ∧
    Forall (outcome_ok (interrupted d)) outs ∧ thread_wf (dp_stopCh d) (k x') ∧
    (length qs + length (answers_of x) = length (outs ≫= oc_posts) + length (default [] (answers_of <$> x')))%nat)
    as (outs & Hf & HJ & HO & HT & HL).
  { unfold next_ok in Hn. destruct x' as [y|].
    - destruct Hn as (<- & Hy & Hf & Hl). exists []. rewrite app_nil_r.
      split_and!; [done|done|done|by apply (Kt (Some y))|cbn; lia].
    - destruct Hn as (o & Hf & <- & Ho & Hl). exists [o].
      split_and!; [done|done| |by apply (Kt None)|rewrite bind_cons, app_nil_r; cbn; lia]. constructor; [|done].
      unfold interrupted. destruct Hflag as [Hst| ->]; [by rewrite Hst in *|done]. }
  exists outs, qs. apply effect_quiet; rewrite ?Kb, ?Ka, ?Kp, ?Hb, ?Hp, ?Kw, ?Hans; try done.
  eapply Forall_impl; [exact HQ|]. intros q Hq. by exists (job_of x).
Qed.

(** Taking a job from the queue. *)
Lemma take_effect d t t' j q :
  dp_queue d = j :: q → Inv d → is_worker t' = is_worker t → thread_wf (dp_stopCh d) t' →
  busy t = None → busy t' = Some j → answered t = [] → answered t' = [] → pending t = [] → pending t' = [] →
  ∃ outs qs, effect d t (set_queue q d) t' [] [] outs qs.
Proof.
  intros Hq Hd Hk Ht Hb Hb' Ha Ha' Hp Hp'. exists [], []. pose proof (iv_queue _ Hd) as Hlen. rewrite Hq in Hlen. cbn in Hlen.
  split; cbn [set_queue dp_queue dp_threads dp_stopCh dp_ctxDone dp_enqueued dp_offered dp_finished dp_sent dp_dropped];
    rewrite ?app_nil_r, ?Hb, ?Hb', ?Ha, ?Ha', ?Hp, ?Hp', ?Hq; try done; [lia| |intros _; cbn; lia].
  cbn. count_jobs.
Qed.

(** A move that changes nothing else. *)
Lemma move_effect d t t' :
  Inv d → is_worker t' = is_worker t → thread_wf (dp_stopCh d) t' → busy t' = busy t → answered t' = answered t → pending t' = pending t →
  ∃ outs qs, effect d t d t' [] [] outs qs.
Proof.
  intros Hd Hk Ht Hb Ha Hp. exists [], []. apply effect_quiet; rewrite ?app_nil_r, ?Ha; try done. by rewrite Hb.
Qed.

Lemma worker_effect c s d s' d' :
  worker hmacSHA256 json_payload retryBase c s d = Some (s', d') → Inv d → thread_wf (dp_stopCh d) (TWorker s) →
  ∃ outs qs, effect d (TWorker s) d' (TWorker s') [] [] outs qs.
Proof.
  intros E Hd Ht. destruct s as [| |draining x|]; cbn [worker] in E.
  - destruct c; try discriminate E.
    + destruct (dp_queue d) as [|j q] eqn:Hq; [done|]. injection E as <- <-. by apply (take_effect d _ _ j q).
    + destruct (dp_stopCh d) eqn:Hs; [|done]. injection E as <- <-. by apply move_effect; rewrite ?Hs.
    + destruct (dp_ctxDone d); [|done]. injection E as <- <-. by apply move_effect.
  - destruct c; try discriminate E. destruct (dp_queue d) as [|j q] eqn:Hq; injection E as <- <-.
    + by apply move_effect.
    + by apply (take_effect d _ _ j q).
  - destruct (deliver _ _ _ _ _ _ _) as [[x' d1]|] eqn:Ex; [|by destruct c].
    assert (s' = match x' with Some x' => WBusy draining x' | None => if draining then WDrain else WSelect end ∧ d' = d1) as [-> ->]
      by (destruct c; cbn in E; by injection E as <- <-).
    destruct Ht as [Hx Hdr].
    eapply (deliver_effect _ _ _ _ _ _ _ (λ y, TWorker match y with Some x' => WBusy draining x' | None => if draining then WDrain else WSelect end));
      [exact Ex|done|done|by right|done|done|done|..]; intros [y|]; try done; try (by destruct draining); intros Hy.
    destruct draining; [by apply Hdr|done].
  - by destruct c.
Qed.

Lemma Stop_effect c s d s' d' :
  Stop hmacSHA256 json_payload retryBase c s d = Some (s', d') → Inv d → thread_wf (dp_stopCh d) (TStop s) →
  ∃ outs qs, effect d (TStop s) d' (TStop s') [] [] outs qs.
Proof.
  intros E Hd Ht. assert (dp_stopCh d = true) as Hs by (destruct s; [done|done|apply Ht|done]).
  destruct s as [|expired|expired x|]; cbn [Stop] in E.
  - destruct c; try discriminate E; [destruct (forallb _ _); [|done]|]; injection E as <- <-; by apply move_effect.
  - destruct expired, c; try discriminate E; try (injection E as <- <-; by apply move_effect);
      (destruct (dp_queue d) as [|j q] eqn:Hq; injection E as <- <-; [by apply move_effect|by apply (take_effect d _ _ j q)]).
  - destruct Ht as [_ Hx].
    assert ((∃ x' d1, deliver hmacSHA256 json_payload retryBase expired c x d = Some (x', d1) ∧
      s' = match x' with Some x' => SBusy expired x' | None => SSweep expired end ∧ d' = d1) ∨ (s' = SBusy true x ∧ d' = d))
      as [(x' & d1 & Ex & -> & ->)|[-> ->]].
    { destruct expired, c; try (by right; injection E as <- <-); left;
        (destruct (deliver _ _ _ _ _ _ _) as [[x' d1]|]; [|discriminate E]); cbn in E; injection E as <- <-; by exists x', d1. }
    + eapply (deliver_effect _ _ _ _ _ _ _ (λ y, TStop match y with Some x' => SBusy expired x' | None => SSweep expired end));
        [exact Ex|done|done|by left|done|done|done|..]; by intros [y|].
    + apply move_effect; try done.
  - by destruct c.
Qed.

Lemma ListWebhooks_subscribed n w whs w' :
  ListWebhooks (nt_Workspace n) (Some (run_ExperimentID (nt_Run n))) w = (Ok whs, w') →
  Forall (λ j, subscribed (nt_Workspace n, j)) (jobs_of n whs).
Proof.
  intros E. unfold ListWebhooks in E. rewrite get_bind in E. injection E as <- <-. apply Forall_forall. intros j Hj.
  unfold jobs_of in Hj. apply list_elem_of_fmap in Hj as (wh & -> & Hwh). apply list_elem_of_filter in Hwh as ((He & Hm) & Hwh).
  apply elem_of_sort_by, list_elem_of_fmap in Hwh as ([id r] & -> & Hr). apply list_elem_of_filter in Hr as ((Hws & Hexp) & _).
  cbn in *. split_and!; [done|done|done|]. destruct Hexp as [?|[?|?]]; [done|by left|by right].
Qed.

Lemma Notify_effect s d s' d' :
  Notify s d = Some (s', d') → Inv d → thread_wf (dp_stopCh d) (TNotify s) →
  ∃ added offs outs qs, effect d (TNotify s) d' (TNotify s') added offs outs qs.
Proof.
  intros E Hd Ht.
  assert (d' = d → thread_wf (dp_stopCh d) (TNotify s') → pending (TNotify s') = pending (TNotify s) →
    ∃ added offs outs qs, effect d (TNotify s) d' (TNotify s') added offs outs qs) as Hmove.
  { intros -> H2 Hp. exists [], []. by apply move_effect. }
  destruct s as [n|n|ws l|ws j l|]; cbn [Notify] in E.
  - case_decide; [|destruct (dp_stopCh d)]; injection E as <- <-; by apply Hmove.
  - destruct (ListWebhooks _ _ _) as [[whs|e] w'] eqn:Ew; injection E as <- <-.
    2:{ exists [], []. exists [], []. apply effect_quiet; try done; by rewrite app_nil_r. }
    apply ListWebhooks_subscribed in Ew as Hsub. exists [], (pair (nt_Workspace n) <$> jobs_of n whs), [], [].
    split; cbn [log_offered set_store dp_threads dp_stopCh dp_ctxDone dp_queue dp_enqueued dp_offered dp_finished dp_sent dp_dropped];
      rewrite ?app_nil_r; try done; [apply Hd| |intros _; rewrite length_fmap; cbn; lia].
    split; [done|]. by apply Forall_fmap.
  - destruct l as [|j l]; [injection E as <- <-; by apply Hmove|].
    destruct (dp_stopCh d) eqn:Hs; injection E as <- <-.
    + exists [], [], [], []. split; cbn [add_dropped dp_threads dp_stopCh dp_ctxDone dp_queue dp_enqueued dp_offered dp_finished dp_sent dp_dropped];
        rewrite ?app_nil_r, ?Hs; try done. apply Hd.
    + by apply Hmove.
  - injection E as <- <-. apply Forall_cons in Ht as [Hj Hl]. destruct (Nat.ltb_spec (length (dp_queue d)) queueCapacity) as [Hlt|Hge].
    + exists [(ws, j)], [], [], []. split; cbn [enqueue dp_threads dp_stopCh dp_ctxDone dp_queue dp_enqueued dp_offered dp_finished dp_sent dp_dropped];
        rewrite ?app_nil_r; try done.
      * rewrite length_app. cbn. unfold queueCapacity in *. lia.
      * split; [by constructor|done].
      * intros _. cbn. lia.
    + exists [], [], [], []. split; cbn [add_dropped dp_threads dp_stopCh dp_ctxDone dp_queue dp_enqueued dp_offered dp_finished dp_sent dp_dropped];
        rewrite ?app_nil_r; try done; [apply Hd|intros _; cbn; lia].
  - done.
Qed.

(** ** Every reachable state *)

Notation run_from := (run hmacSHA256 json_payload retryBase).
Notation fires := (fire hmacSHA256 json_payload retryBase).

Lemma Inv_New echo w : Inv (New echo w).
Proof.
  split; cbn; try done; [unfold queueCapacity; lia|intros _; by repeat constructor|].
  by repeat constructor.
Qed.

Lemma outcome_mono b o : outcome_ok b o → outcome_ok true o.
Proof. unfold outcome_ok. destruct (oc_verdict o); naive_solver. Qed.

Lemma thread_wf_mono b t : thread_wf b t → thread_wf true t.
Proof. destruct t as [[]|[]|[]]; cbn; naive_solver. Qed.

Lemma Inv_spawn d t : Inv d → is_worker t = false → busy t = None → answered t = [] → pending t = [] → thread_wf (dp_stopCh d) t →
  Inv (set_threads (dp_threads d ++ [t]) d).
Proof.
  intros [H1 H2 H3 H4 H5 Hal Hps H6 H7 H8] Hw Hb Ha Hp Ht.
  split; cbn [set_threads dp_queue dp_threads dp_enqueued dp_finished dp_offered dp_sent dp_stopCh dp_dropped]; try done.
  - rewrite filter_app, length_app, filter_cons_False by (by rewrite Hw). cbn [length filter]. rewrite filter_nil, H2. done.
  - unfold in_flight in *. rewrite bind_app, bind_cons, Hb. by rewrite app_nil_r.
  - intros Hi. apply Forall_app. split; [by apply Hal|]. constructor; [by intros ->|done].
  - rewrite bind_app, bind_cons, Ha, app_nil_r. done.
  - intros Hs. unfold waiting. rewrite bind_app, bind_cons, Hp. rewrite app_nil_r. by apply H7.
  - apply Forall_app. by split; [|constructor].
Qed.

(** A worker leaves because its context was cancelled, or after [Stop] when it
    finds the queue empty. *)
Lemma worker_exits c t d d' :
  thread_step hmacSHA256 json_payload retryBase c t d = Some (TWorker WExited, d') → thread_wf (dp_stopCh d) t →
  dp_ctxDone d = true ∨ dp_stopCh d = true ∧ dp_queue d = [].
Proof.
  intros E Ht. destruct t as [s|s|s]; cbn [thread_step] in E.
  2:{ destruct c; try done. by destruct (Notify s d) as [[]|]. }
  2:{ by destruct (Stop _ _ _ c s d) as [[]|]. }
  destruct (worker _ _ _ c s d) as [[s' d1]|] eqn:Es; [|done]. injection E as -> <-.
  destruct s as [| |draining x|]; cbn [worker] in Es.
  - destruct c; try discriminate Es; [by destruct (dp_queue d)|by destruct (dp_stopCh d)|].
    destruct (dp_ctxDone d); [by left|done].
  - destruct c; try discriminate Es. destruct (dp_queue d); [by right|done].
  - destruct (deliver _ _ _ _ _ _ _) as [[[x'|] d2]|]; [by destruct c| |by destruct c]. by destruct c, draining.
  - by destruct c.
Qed.

Lemma Inv_fire a d d' : fires a d = Some d' → Inv d → Inv d'.
Proof.
  intros E Hd. destruct a as [n| | |w|i c]; cbn [fire] in E.
  - injection E as <-. by apply Inv_spawn.
  - injection E as <-. apply (Inv_spawn (close_stop d)); try done. destruct Hd as [H1 H2 H3 H4 H5 Hal Hps H6 H7 H8].
    split; cbn [close_stop dp_queue dp_threads dp_enqueued dp_finished dp_offered dp_sent dp_stopCh dp_dropped]; try done.
    + eapply Forall_impl; [exact H5|]. intros o Ho. by eapply outcome_mono.
    + eapply Forall_impl; [exact H8|]. intros t Ht. by eapply thread_wf_mono.
  - injection E as <-. destruct Hd as [H1 H2 H3 H4 H5 Hal Hps H6 H7 H8].
    split; cbn [cancel_ctx dp_queue dp_threads dp_enqueued dp_finished dp_offered dp_sent dp_stopCh dp_dropped]; try done.
    + eapply Forall_impl; [exact H5|]. intros o Ho. unfold interrupted. cbn. rewrite orb_true_r. by eapply outcome_mono.
    + unfold interrupted. cbn. by rewrite orb_true_r.
  - injection E as <-. by destruct Hd.
  - destruct (dp_threads d !! i) as [t|] eqn:Hi; [|done]. cbn in E.
    destruct (thread_step _ _ _ c t d) as [[t' d1]|] eqn:Et; [|done]. injection E as <-.
    assert (thread_wf (dp_stopCh d) t) as Ht by (eapply Forall_lookup_1; [apply Hd|done]).
    assert (∃ added offs outs qs, effect d t d1 t' added offs outs qs) as (added & offs & outs & qs & He);
      [|apply (Inv_effect d i t d1 t' added offs outs qs); [done|done|done|];
        intros Hint ->; by destruct (worker_exits _ _ _ _ Et Ht) as [Hx|[Hx _]];
          unfold interrupted in Hint; rewrite Hx, ?orb_true_r in Hint].
    destruct t as [s|s|s]; cbn [thread_step] in Et.
    + destruct (worker _ _ _ c s d) as [[s' d2]|] eqn:Es; [|done]. injection Et as <- <-. exists [], []. by eapply worker_effect.
    + destruct c; try done. destruct (Notify s d) as [[s' d2]|] eqn:Es; [|done]. injection Et as <- <-. by apply Notify_effect.
    + destruct (Stop _ _ _ c s d) as [[s' d2]|] eqn:Es; [|done]. injection Et as <- <-. exists [], []. by eapply Stop_effect.
Qed.

Lemma Inv_run l d d' : run_from l d = Some d' → Inv d → Inv d'.
Proof.
  revert d. induction l as [|a l IH]; intros d E Hd; [by injection E as <-|]. cbn [run] in E.
  destruct (fires a d) as [d1|] eqn:Ea; [|done]. apply (IH d1); [done|]. by apply (Inv_fire a d).
Qed.

(** C8: webhooks are delivered at most once and only to their subscribers.
    Take any schedule of notifications, workers, shutdown, cancellation and
    changes of the store by others.  The queue never exceeds its capacity.
    Every job that was enqueued is in exactly one place: the queue, the hands
    of one thread, or the finished deliveries.  It is for an enabled webhook of
    the notifying workspace that subscribes to the event and to the experiment
    of the run.  A finished delivery was written to the echo log without any
    request, or succeeded with a 2xx status after fewer than three failures, or
    failed three times, or was abandoned after one or two failures because of a
    shutdown or a cancellation.  Every POST is for such a job: it goes to the
    URL of the webhook, names the event, reports the run, and carries a
    signature that verifies with the secret of the webhook, or none if the
    webhook has no secret; and there was one POST for each answer or failure
    on record.  Until [Stop], what was offered and not enqueued is counted as
    dropped.  The eight workers are there until [Stop] or a cancellation, and
    one that leaves has seen the context cancelled, or the queue empty after
    [Stop]. *)
Theorem webhooks_delivered_once echo w schedule d :
  run_from schedule (New echo w) = Some d →
  (length (dp_queue d) ≤ queueCapacity)%nat ∧
  (dp_enqueued d).*2 ≡ₚ dp_queue d ++ in_flight (dp_threads d) ++ (oc_job <$> dp_finished d) ∧
  Forall subscribed (dp_enqueued d) ∧
  Forall (outcome_ok (interrupted d)) (dp_finished d) ∧
  Forall (λ q, ∃ j, j ∈ (dp_enqueued d).*2 ∧ request_of j q) (dp_sent d) ∧
  length (dp_sent d) = (length (dp_finished d ≫= oc_posts) + length (dp_threads d ≫= answered))%nat ∧
  (dp_stopCh d = false →
   Z.of_nat (length (dp_offered d)) =
   Z.of_nat (length (dp_enqueued d)) + dp_dropped d + Z.of_nat (length (waiting (dp_threads d)))) ∧
  length (filter (λ t, is_worker t = true) (dp_threads d)) = maxWorkers ∧
  (interrupted d = false → Forall (λ t, t ≠ TWorker WExited) (dp_threads d)) ∧
  (∀ i c t d', dp_threads d !! i = Some t → thread_step hmacSHA256 json_payload retryBase c t d = Some (TWorker WExited, d') →
   dp_ctxDone d = true ∨ dp_stopCh d = true ∧ dp_queue d = []).
Proof.
  intros E. destruct (Inv_run _ _ _ E (Inv_New echo w)) as [H1 H2 H3 [_ H4] H5 Hal Hps H6 H7 H8]. split_and!; try done.
  intros i c t d' Hi Ht. eapply worker_exits; [exact Ht|]. by eapply Forall_lookup_1.
Qed.

(** Only two waits ever happen, [retryBase] and five times that: the 25 s the
    comments list are never reached. *)
Theorem waits_are_two echo w schedule d i b j body backoff posts :
  run_from schedule (New echo w) = Some d → dp_threads d !! i = Some (TWorker (WBusy b (DWait j body backoff posts))) →
  backoff = retryBase ∨ backoff = retryBase * 5.
Proof.
  intros E Hi. apply Inv_run in E as Hd; [|apply Inv_New].
  pose proof (Forall_lookup_1 _ _ _ _ (iv_threads _ Hd) Hi) as [(_ & _ & Hlen & ->) _].
  unfold maxRetries, retryMultiplier in *.
  assert (length posts = 1%nat ∨ length posts = 2%nat) as [-> | ->] by lia; [left|right]; cbn; lia.
Qed.

(** ** Shutdown *)

(** An upper bound on the steps a thread can take once [stopCh] is closed. *)
Definition delivery_weight (x : delivery) : nat :=
  match x with
  | DStart _ => 7
  | DPost _ _ _ posts => 2 * (maxRetries - length posts)
  | DWait _ _ _ posts => 2 * (maxRetries - length posts) + 1
  end.

Definition weight (t : thread) : nat :=
  match t with
  | TWorker WSelect => 2
  | TWorker WDrain => 1
  | TWorker (WBusy draining x) => (if draining then 1 else 2) + delivery_weight x
  | TNotify (NStart _) => 3
  | TNotify (NList _) => 2
  | TNotify (NCheck _ _) => 1
  | TNotify (NSend _ _ _) => 10
  | TStop SWait => 3
  | TStop (SSweep expired) => if expired then 1 else 2
  | TStop (SBusy expired x) => (if expired then 1 else 2) + delivery_weight x
  | _ => 0
  end.

Definition total_weight (d : Dispatcher) : nat :=
  (8 * length (dp_queue d) + length (dp_threads d ≫= λ t, replicate (weight t) ()))%nat.

Definition terminal (t : thread) : bool :=
  match t with TWorker WExited | TNotify NDone | TStop SReturned => true | _ => false end.

(** The job of a notification that has looked at the channel and is about to
    send. *)
Definition sending (t : thread) : list job := match t with TNotify (NSend _ j _) => [j] | _ => [] end.

Lemma deliver_lighter flag c x d x' d' :
  deliver hmacSHA256 json_payload retryBase flag c x d = Some (x', d') → delivery_wf x →
  (match x' with Some y => delivery_weight y | None => 0 end < delivery_weight x)%nat.
Proof.
  intros E Hx. destruct x as [j|j body b posts|j body b posts], c as [| | | |answer| |]; try discriminate E; cbn [deliver] in E.
  - destruct (IsEchoURL _); injection E as <- <-; unfold delivery_weight, maxRetries; cbn; lia.
  - destruct Hx as (_ & _ & Hlen & _). unfold maxRetries in *.
    destruct (success answer); [|destruct (Nat.ltb_spec (length (posts ++ [answer])) 3)]; injection E as <- <-;
      unfold delivery_weight, maxRetries; rewrite ?length_app in *; cbn [length] in *; lia.
  - destruct (dp_stopCh d); [|done]. injection E as <- <-. cbn. lia.
  - destruct flag; [|done]. injection E as <- <-. cbn. lia.
  - injection E as <- <-. unfold delivery_weight. lia.
Qed.

Lemma shared_fields d d' :
  shared d' = shared d → dp_queue d' = dp_queue d ∧ dp_stopCh d' = dp_stopCh d ∧ dp_ctxDone d' = dp_ctxDone d ∧ dp_threads d' = dp_threads d.
Proof. unfold shared. by intros [= -> _ -> -> -> _ _]. Qed.

(** Every step of a thread after [Stop] makes the rest lighter; only a job that
    was about to be sent gets into the queue, and a worker leaves when it sees
    the cancellation or finds the queue empty. *)
Record after_stop (d : Dispatcher) (t : thread) (d' : Dispatcher) (t' : thread) : Prop := {
  as_weight : (8 * length (dp_queue d') + weight t' < 8 * length (dp_queue d) + weight t)%nat;
  as_frame : dp_stopCh d' = dp_stopCh d ∧ dp_ctxDone d' = dp_ctxDone d ∧ dp_threads d' = dp_threads d;
  as_sending : (length (sending t') ≤ length (sending t))%nat ∧
    (length (dp_queue d') + length (sending t') ≤ length (dp_queue d) + length (sending t))%nat;
  as_exit : exited t = false → exited t' = true → dp_ctxDone d = true ∨ dp_queue d' = [] }.

Ltac light := split; cbn; rewrite ?length_app; try done; try split; first [lia|by auto|idtac].

(** The steps inside [deliver]. *)
Lemma deliver_after_stop flag c x d x' d' t (k : option delivery → thread) base :
  deliver hmacSHA256 json_payload retryBase flag c x d = Some (x', d') → delivery_wf x →
  weight t = (base + delivery_weight x)%nat →
  (∀ y, weight (k y) = base + match y with Some y => delivery_weight y | None => 0 end)%nat →
  sending t = [] → (∀ y, sending (k y) = []) → (∀ y, exited (k y) = exited t) → after_stop d t d' (k x').
Proof.
  intros E Hx Hw Hk Hse Hset Hex. pose proof (deliver_lighter _ _ _ _ _ _ E Hx) as Hl.
  apply deliver_spec in E as (Hsh & _); [|done]. apply shared_fields in Hsh as (Hq & H2 & H3 & H4).
  split; rewrite ?Hq; [rewrite Hk, Hw; lia|done|by rewrite Hse, Hset|intros H5; by rewrite Hex, H5].
Qed.

Lemma worker_after_stop c s d s' d' :
  worker hmacSHA256 json_payload retryBase c s d = Some (s', d') → dp_stopCh d = true → thread_wf true (TWorker s) →
  after_stop d (TWorker s) d' (TWorker s').
Proof.
  intros Es Hs Ht. destruct s as [| |draining x|]; cbn [worker] in Es.
  - destruct c; try discriminate Es.
    + destruct (dp_queue d) as [|j q] eqn:Hq; [done|]. injection Es as <- <-. light; rewrite Hq; cbn; try done; lia.
    + rewrite Hs in Es. injection Es as <- <-. light.
    + destruct (dp_ctxDone d) eqn:Hc; [|done]. injection Es as <- <-. light.
  - destruct c; try discriminate Es. destruct (dp_queue d) as [|j q] eqn:Hq; injection Es as <- <-.
    + light.
    + light; rewrite Hq; cbn; try done; lia.
  - destruct (deliver _ _ _ _ _ _ _) as [[x' d1]|] eqn:Ex; [|by destruct c].
    assert (s' = match x' with Some x' => WBusy draining x' | None => if draining then WDrain else WSelect end ∧ d' = d1) as [-> ->]
      by (destruct c; cbn in Es; by injection Es as <- <-).
    destruct Ht as [Hx _].
    apply (deliver_after_stop _ _ _ _ _ _ _ (λ y, TWorker match y with Some x' => WBusy draining x' | None => if draining then WDrain else WSelect end)
      (if draining then 1 else 2) Ex Hx); [done|intros [y|]; destruct draining; cbn; lia|done|intros [y|]; by destruct draining..].
  - by destruct c.
Qed.

Lemma Notify_after_stop s d s' d' :
  Notify s d = Some (s', d') → dp_stopCh d = true → after_stop d (TNotify s) d' (TNotify s').
Proof.
  intros Es Hs. destruct s as [n|n|ws l|ws j l|]; cbn [Notify] in Es.
  - rewrite Hs in Es. case_decide; injection Es as <- <-; light.
  - destruct (ListWebhooks _ _ _) as [[whs|e] w'] eqn:Ew; injection Es as <- <-; light.
  - destruct l as [|j l]; [|rewrite Hs in Es]; injection Es as <- <-; light.
  - destruct (Nat.ltb_spec (length (dp_queue d)) queueCapacity); injection Es as <- <-; light; cbn; lia.
  - done.
Qed.

Lemma Stop_after_stop c s d s' d' :
  Stop hmacSHA256 json_payload retryBase c s d = Some (s', d') → thread_wf true (TStop s) →
  after_stop d (TStop s) d' (TStop s').
Proof.
  intros Es Ht. destruct s as [|expired|expired x|]; cbn [Stop] in Es.
  - destruct c; try discriminate Es; [destruct (forallb _ _); [|done]|]; injection Es as <- <-; light.
  - destruct expired, c; try discriminate Es; try (injection Es as <- <-; light);
      (destruct (dp_queue d) as [|j q] eqn:Hq; injection Es as <- <-; light; rewrite Hq; cbn; try done; lia).
  - destruct Ht as [_ Hx].
    assert ((∃ x', deliver hmacSHA256 json_payload retryBase expired c x d = Some (x', d') ∧
      s' = match x' with Some x' => SBusy expired x' | None => SSweep expired end) ∨ (expired = false ∧ s' = SBusy true x ∧ d' = d))
      as [(x' & Ex & ->)|(-> & -> & ->)].
    { destruct expired, c; try (by right; injection Es as <- <-); left;
        (destruct (deliver _ _ _ _ _ _ _) as [[x' d1]|]; [|discriminate Es]); cbn in Es; injection Es as <- <-; by exists x'. }
    + apply (deliver_after_stop _ _ _ _ _ _ _ (λ y, TStop match y with Some x' => SBusy expired x' | None => SSweep expired end)
        (if expired then 1 else 2) Ex Hx); [done|intros [y|]; destruct expired; cbn; lia|done|by intros [y|]..].
    + light.
  - by destruct c.
Qed.

Lemma thread_after_stop c t d t' d' :
  thread_step hmacSHA256 json_payload retryBase c t d = Some (t', d') → dp_stopCh d = true → thread_wf true t →
  after_stop d t d' t'.
Proof.
  intros E Hs Ht. destruct t as [s|s|s]; cbn [thread_step] in E.
  - destruct (worker _ _ _ c s d) as [[s' d1]|] eqn:Es; [|done]. injection E as <- <-. by eapply worker_after_stop.
  - destruct c; try done. destruct (Notify s d) as [[s' d1]|] eqn:Es; [|done]. injection E as <- <-. by apply Notify_after_stop.
  - destruct (Stop _ _ _ c s d) as [[s' d1]|] eqn:Es; [|done]. injection E as <- <-. by eapply Stop_after_stop.
Qed.

(** The state of a shutdown: [stopCh] closed, the context alive, at most [n]
    notifications about to send, and a worker left unless the queue and these
    notifications hold at most [n] jobs. *)
Record closing (n : nat) (d : Dispatcher) : Prop := {
  cl_stop : dp_stopCh d = true;
  cl_ctx : dp_ctxDone d = false;
  cl_sending : (length (dp_threads d ≫= sending) ≤ n)%nat;
  cl_alive : (length (dp_queue d) + length (dp_threads d ≫= sending) ≤ n)%nat ∨
             Exists (λ t, exited t = false) (dp_threads d) }.

Lemma Exists_insert_ne {A} (P : A → Prop) l i x y :
  l !! i = Some x → ¬ P x → Exists P l → Exists P (<[i := y]> l).
Proof.
  intros Hi Hx Hl. apply Exists_exists in Hl as (u & Hu & HP). apply list_elem_of_lookup in Hu as [k Hk].
  apply Exists_exists. exists u. split; [|done]. apply (list_elem_of_lookup_2 _ k). rewrite list_lookup_insert_ne; [done|].
  intros ->. congruence.
Qed.

Lemma Exists_insert_eq {A} (P : A → Prop) (l : list A) i x : (i < length l)%nat → P x → Exists P (<[i := x]> l).
Proof. intros Hi Hx. apply Exists_exists. exists x. split; [|done]. apply (list_elem_of_lookup_2 _ i). by apply list_lookup_insert_eq. Qed.

Lemma closing_step n i c d d' :
  fires (AThread i c) d = Some d' → Inv d → closing n d → closing n d' ∧ (total_weight d' < total_weight d)%nat.
Proof.
  intros E Hd [Hs Hc Hset Hal]. cbn [fire] in E. destruct (dp_threads d !! i) as [t|] eqn:Hi; [|done]. cbn in E.
  destruct (thread_step _ _ _ c t d) as [[t' d1]|] eqn:Et; [|done]. injection E as <-.
  assert (thread_wf true t) as Ht by (rewrite <- Hs; eapply Forall_lookup_1; [apply Hd|done]).
  destruct (thread_after_stop _ _ _ _ _ Et Hs Ht) as [Hw (Hs' & Hc' & Hth) [Hse1 Hse2] Hex].
  pose proof (Permutation_length (insert_bind sending _ _ _ t' Hi)) as Hl1. rewrite !length_app in Hl1.
  pose proof (Permutation_length (insert_bind (λ t, replicate (weight t) ()) _ _ _ t' Hi)) as Hl2.
  rewrite !length_app, !length_replicate in Hl2. pose proof (lookup_lt_Some _ _ _ Hi) as Hlt.
  split; [split; unfold set_threads; cbn [dp_stopCh dp_ctxDone dp_threads dp_queue]; rewrite ?Hth|].
  - by rewrite Hs'.
  - by rewrite Hc'.
  - lia.
  - destruct Hal as [Hq|Hal]; [left; lia|]. destruct (exited t') eqn:Ee; [|right; by apply Exists_insert_eq].
    destruct (exited t) eqn:Ee0; [right; apply (Exists_insert_ne _ _ _ t); [done|congruence|done]|].
    left. destruct (Hex eq_refl eq_refl) as [Hx|Hx]; [congruence|]. rewrite Hx. cbn [length]. lia.
  - unfold total_weight, set_threads. cbn [dp_threads dp_queue]. rewrite Hth. lia.
Qed.

(** A new thread with nothing to send. *)
Lemma closing_spawn n d t :
  closing n d → sending t = [] →
  closing n (set_threads (dp_threads d ++ [t]) d) ∧
  total_weight (set_threads (dp_threads d ++ [t]) d) = (total_weight d + weight t)%nat.
Proof.
  intros [Hs Hc Hse Hal] Ht. unfold set_threads, total_weight. cbn [dp_threads dp_queue].
  rewrite bind_app, bind_cons, app_nil_r, length_app, length_replicate. split; [|lia].
  split; cbn [dp_stopCh dp_ctxDone dp_threads dp_queue]; rewrite ?bind_app, ?bind_cons, ?Ht, ?app_nil_r; try done.
  destruct Hal as [Hq|Hal]; [by left|right]. apply Exists_app. by left.
Qed.

Lemma running_thread t d :
  dp_stopCh d = true → terminal t = false → ∃ c r, thread_step hmacSHA256 json_payload retryBase c t d = Some r.
Proof.
  intros Hs Ht.
  assert (∀ flag x, ∃ c r, deliver hmacSHA256 json_payload retryBase flag c x d = Some r ∧ c ≠ CTimeout) as Hdel.
  { intros flag [j|j body b posts|j body b posts].
    - exists CNext. cbn [deliver]. case_match; by eexists.
    - exists (CPost None). cbn [deliver success]. destruct (_ <? _)%nat; by eexists.
    - exists CElapsed. by eexists. }
  destruct t as [s|s|s]; cbn [thread_step].
  - destruct s as [| |draining x|]; try done.
    + exists CSeeStop. cbn. rewrite Hs. by eexists.
    + exists CNext. cbn. destruct (dp_queue d); by eexists.
    + destruct (Hdel (dp_ctxDone d) x) as (c & [x' d'] & E & _). exists c. cbn [worker]. rewrite E. destruct c; by eexists.
  - exists CNext. destruct s as [n|n|ws [|j l]|ws j l|]; try done; cbn [Notify].
    + case_decide; rewrite ?Hs; by eexists.
    + destruct (ListWebhooks _ _ _) as [[]]; by eexists.
    + by eexists.
    + rewrite Hs. by eexists.
    + by eexists.
  - destruct s as [|expired|expired x|]; try done.
    + exists CTimeout. by eexists.
    + exists CNext. cbn [Stop]. destruct expired, (dp_queue d); by eexists.
    + destruct (Hdel expired x) as (c & [x' d'] & E & Hc). exists c. cbn [Stop]. rewrite E. destruct expired, c; try done; by eexists.
Qed.

Lemma stopped_stuck d :
  dp_stopCh d = true → (∀ i c, fires (AThread i c) d = None) → Forall (λ t, terminal t = true) (dp_threads d).
Proof.
  intros Hs Hstuck. apply Forall_lookup. intros i t Hi. destruct (terminal t) eqn:Ht; [done|exfalso].
  destruct (running_thread t d Hs Ht) as (c & [t' d'] & E). specialize (Hstuck i c). cbn [fire] in Hstuck.
  rewrite Hi in Hstuck. cbn in Hstuck. by rewrite E in Hstuck.
Qed.

Lemma closing_stuck n d :
  closing n d → (∀ i c, fires (AThread i c) d = None) →
  Forall (λ t, terminal t = true) (dp_threads d) ∧ (length (dp_queue d) ≤ n)%nat.
Proof.
  intros [Hs _ _ Hal] Hstuck. pose proof (stopped_stuck d Hs Hstuck) as Hall.
  split; [done|]. destruct Hal as [|Hal]; [lia|exfalso]. apply Exists_exists in Hal as (t & Hin & He).
  rewrite Forall_forall in Hall. specialize (Hall t Hin). by destruct t as [[]|[]|[]].
Qed.

Lemma terminal_in_flight l : Forall (λ t, terminal t = true) l → in_flight l = [].
Proof.
  induction 1 as [|t l Ht _ IH]; [done|]. unfold in_flight in *. rewrite bind_cons, IH. by destruct t as [[]|[]|[]].
Qed.

(** What happens during a shutdown: everything but the cancellation of the
    context of the workers. *)
Definition uncancelled (a : action) : bool := match a with ACancel => false | _ => true end.
Definition moves (l : list action) : nat := length (filter (λ a, match a with AThread _ _ => true | _ => false end = true) l).
Definition arrivals (l : list action) : nat := length (filter (λ a, match a with ANotify _ | AStop => true | _ => false end = true) l).

Lemma closing_fire n a d d' :
  fires a d = Some d' → uncancelled a = true → Inv d → closing n d →
  closing n d' ∧ (moves [a] + total_weight d' ≤ total_weight d + 3 * arrivals [a])%nat.
Proof.
  intros E Ha Hd Hcl. destruct a as [m| | |w|i c]; cbn [fire] in E; try done.
  - injection E as <-. destruct (closing_spawn n d (TNotify (NStart m)) Hcl eq_refl) as [H1 H2]. split; [done|].
    rewrite H2. vm_compute (moves _). vm_compute (arrivals _). cbn. lia.
  - injection E as <-. assert (closing n (close_stop d)) as Hcl' by (by destruct Hcl).
    destruct (closing_spawn n _ (TStop SWait) Hcl' eq_refl) as [H1 H2]. split; [done|].
    change (dp_threads (close_stop d)) with (dp_threads d) in H2. rewrite H2. unfold total_weight, close_stop. vm_compute (moves _). vm_compute (arrivals _). cbn. lia.
  - injection E as <-. destruct Hcl. split; [by split|]. unfold total_weight, set_store. vm_compute (moves _). cbn. lia.
  - destruct (closing_step n i c d d' E Hd Hcl) as [H1 H2]. split; [done|].
    change (1 + total_weight d' ≤ total_weight d + 3 * 0)%nat. lia.
Qed.

Lemma moves_cons a l : moves (a :: l) = (moves [a] + moves l)%nat.
Proof. unfold moves. rewrite !filter_cons. by case_decide. Qed.

Lemma arrivals_cons a l : arrivals (a :: l) = (arrivals [a] + arrivals l)%nat.
Proof. unfold arrivals. rewrite !filter_cons. by case_decide. Qed.

Lemma closing_run n l d d' :
  run_from l d = Some d' → Forall (λ a, uncancelled a = true) l → Inv d → closing n d →
  Inv d' ∧ closing n d' ∧ (moves l + total_weight d' ≤ total_weight d + 3 * arrivals l)%nat.
Proof.
  revert d. induction l as [|a l IH]; intros d E Hl Hd Hcl; [injection E as <-; split_and!; [done|done|cbn; lia]|].
  cbn [run] in E. destruct (fires a d) as [d1|] eqn:E1; [|done]. apply Forall_cons in Hl as [Ha Hl].
  destruct (closing_fire n a d d1 E1 Ha Hd Hcl) as [Hcl1 Hw]. apply Inv_fire in E1; [|done].
  destruct (IH d1 E Hl E1 Hcl1) as (? & ? & ?). split_and!; [done|done|]. rewrite moves_cons, arrivals_cons. lia.
Qed.

(** All the workers are there to see the channel closed. *)
Lemma closing_starts d :
  Inv d → interrupted d = false → closing (length (dp_threads d ≫= sending)) (close_stop d).
Proof.
  intros Hd Hi. pose proof (iv_alive _ Hd Hi) as Hal. apply orb_false_iff in Hi as [Hs Hc].
  split; [done|done|done|right]. cbn [close_stop dp_threads].
  pose proof (iv_workers _ Hd) as Hw. destruct (filter _ _) as [|t l] eqn:Ef; [done|].
  assert (t ∈ filter (λ t, is_worker t = true) (dp_threads d)) as [Ht Hin]%list_elem_of_filter by (rewrite Ef; left).
  apply Exists_exists. exists t. split; [done|]. rewrite Forall_forall in Hal. specialize (Hal t Hin).
  by destruct t as [[]|[]|[]].
Qed.

(** C9: a shutdown ends, with next to nothing left behind.  Take any state the
    dispatcher reaches before a shutdown, its context alive, and let [Stop] be
    called.  Whatever happens then, short of cancelling that context
    (notifications that come later, further calls of [Stop], other changes of
    the store, any answers of the webhooks, any interleaving), the threads can
    only take a bounded number of steps, three for each later call and those
    that were due.  And when none can move, all of them have returned, every
    job that was ever enqueued has been finished or is in the queue, and in
    the queue there are at most as many as there were notifications just
    between their look at the channel and the send when [Stop] was called:
    none, if there was no such notification. *)
Theorem shutdown_drains echo w schedule d later d' :
  run_from schedule (New echo w) = Some d → interrupted d = false →
  Forall (λ a, uncancelled a = true) later → run_from (AStop :: later) d = Some d' →
  (moves later ≤ total_weight d + 3 + 3 * arrivals later)%nat ∧
  ((∀ i c, fires (AThread i c) d' = None) →
   Forall (λ t, terminal t = true) (dp_threads d') ∧
   (dp_enqueued d').*2 ≡ₚ dp_queue d' ++ (oc_job <$> dp_finished d') ∧
   (length (dp_queue d') ≤ length (dp_threads d ≫= sending))%nat).
Proof.
  intros E Hi Hl E'. apply Inv_run in E as Hd; [|apply Inv_New]. clear E. pose proof (closing_starts d Hd Hi) as Hcl.
  cbn [run] in E'. destruct (fires AStop d) as [d1|] eqn:E1; [|done]. apply Inv_fire in E1 as Hd1; [|done].
  injection E1 as <-. destruct (closing_spawn _ _ (TStop SWait) Hcl eq_refl) as [Hcl1 Hw1].
  destruct (closing_run _ _ _ _ E' Hl Hd1 Hcl1) as (Hd' & Hcl' & Hmv). cbn [close_stop dp_threads] in Hmv, Hw1.
  split; [unfold total_weight, close_stop in *; cbn in *; lia|].
  intros Hstuck. destruct (closing_stuck _ d' Hcl' Hstuck) as [Hterm Hq]. split_and!; [done| |done].
  by rewrite (iv_jobs _ Hd'), terminal_in_flight.
Qed.
End laws.

(** ** An example *)

Module Example4.
Definition hook (url : string) : WebhookRow :=
  mkWebhookRow "w" url "run_failed, run_finished" None "default" (Some "key"%string) 1 None None true.
Definition hooks_db : DB :=
  set_webhooks (serial_insert (hook "lmf://echo/x") (serial_insert (hook "http://example.org") serial_empty).2).2 ex_db.
Definition start : Dispatcher := New (Some (NewEchoLog 2)) (mkWorld hooks_db 0).

Definition mac (key body : string) : string := key.
Definition payload (event : string) (r : Run) (t : Z) : string := event.
Definition play : list action → Dispatcher → option Dispatcher := run mac payload 1000.

(** A run of "default" finished. *)
Definition finished_run : Run :=
  mkRun "r1" 1 "first" StatusFinished 500 (Some 900) "mlflow-artifacts:/r1" LifecycleActive "" "" "" KindClassic "".

Definition threads_do (i : nat) (l : list choice) : list action := AThread i <$> l.

(** Both webhooks are asked; the first answers at the second attempt, the
    other one is the echo log. *)
Definition notify : action := ANotify (mkNotification "default" "run_finished" finished_run).
Definition deliveries : list action :=
  [notify] ++ threads_do 8 (replicate 7 CNext) ++
  threads_do 0 [CTake; CNext; CPost (Some 500); CElapsed; CPost (Some 200)] ++ threads_do 1 [CTake; CNext].

Definition delivered : Dispatcher := default start (play deliveries start).

Lemma deliveries_run : play deliveries start = Some delivered.
Proof. vm_compute. reflexivity. Qed.

Lemma delivered_facts :
  (oc_posts <$> dp_finished delivered, length (dp_sent delivered), dp_dropped delivered, dp_queue delivered,
   ee_WebhookID <$> default [] (EchoLog_List 50 <$> dp_echo delivered),
   hr_last_status <$> rows (webhooks (w_db (dp_store delivered))) !! 1) =
  ([[Some 500; Some 200]; []], 2%nat, 0, [], [2], Some (Some 200)).
Proof. vm_compute. reflexivity. Qed.

Lemma webhooks_delivered_once_witness :
  (dp_enqueued delivered).*2 ≡ₚ dp_queue delivered ++ in_flight (dp_threads delivered) ++ (oc_job <$> dp_finished delivered).
Proof.
  destruct (webhooks_delivered_once mac payload 1000 (Some (NewEchoLog 2)) (mkWorld hooks_db 0) deliveries delivered)
    as (_ & Hp & _); [exact deliveries_run|exact Hp].
Defined.

(** Shutdown in the middle of a delivery that failed once: the retry is
    abandoned, the other job is delivered, everybody leaves. *)
Definition notified : list action :=
  [notify] ++ threads_do 8 (replicate 7 CNext) ++ threads_do 0 [CTake; CNext; CPost None].
Definition before_stop : Dispatcher := default start (play notified start).
Definition shutdown_steps : list (nat * choice) :=
  [(0, CSeeStop); (0, CSeeStop); (0, CNext); (0, CNext); (0, CNext)]%nat ++
  ([1; 2; 3; 4; 5; 6; 7] ≫= λ i, [(i, CSeeStop); (i, CNext)])%nat ++ [(9, CNext); (9, CNext)]%nat.
Definition stopped : Dispatcher := default start (play (AStop :: ((λ p, AThread p.1 p.2) <$> shutdown_steps)) before_stop).

Lemma notified_run : play notified start = Some before_stop.
Proof. vm_compute. reflexivity. Qed.
Lemma stopped_run : play (AStop :: ((λ p, AThread p.1 p.2) <$> shutdown_steps)) before_stop = Some stopped.
Proof. vm_compute. reflexivity. Qed.

Lemma stopped_facts :
  (oc_posts <$> dp_finished stopped, dp_queue stopped, forallb terminal (dp_threads stopped)) = ([[None]; []], [], true).
Proof. vm_compute. reflexivity. Qed.

Lemma shutdown_drains_witness : (length (dp_queue stopped) ≤ 0)%nat.
Proof.
  destruct (shutdown_drains mac payload 1000 (Some (NewEchoLog 2)) (mkWorld hooks_db 0) notified before_stop
    ((λ p, AThread p.1 p.2) <$> shutdown_steps) stopped) as [_ Hend];
    [exact notified_run|by vm_compute|by repeat constructor|exact stopped_run|].
  apply Hend. intros i c. assert (i < 10 ∨ 10 ≤ i)%nat as [Hi|Hi] by lia.
  - do 10 (destruct i as [|i]; [by destruct c|]). lia.
  - assert (dp_threads stopped !! i = None) as Hn by (apply lookup_ge_None_2; vm_compute (length _); lia). unfold fire. by rewrite Hn.
Defined.

(** ** Where the code and its comments part *)

(** What [Notify] drops after [Stop] is not counted, although the comments say
    it is: the early return leaves the counter alone. *)
Theorem stopped_notify_uncounted :
  (λ d, (dp_dropped d, dp_enqueued d)) <$> play ([AStop; notify] ++ threads_do 9 [CNext]) start = Some (0, []).
Proof. vm_compute. reflexivity. Qed.

(** A notification that looked at the channel before [Stop] and sends after the
    sweep leaves its job in a queue nobody reads; the counter shows only the
    other job of the notification. *)
Definition late_schedule : list action :=
  [notify] ++ threads_do 8 (replicate 3 CNext) ++ [AStop] ++ (seq 0 8 ≫= λ i, threads_do i [CSeeStop; CNext]) ++
  threads_do 9 [CNext; CNext] ++ threads_do 8 [CNext; CNext].

Theorem late_job_lost :
  (λ d, (length (dp_queue d), dp_dropped d, forallb terminal (dp_threads d))) <$> play late_schedule start =
  Some (1%nat, 1, true).
Proof. vm_compute. reflexivity. Qed.
End Example4.
