(* ===== verification/Login.v ===== *)
(** * Logging in and out (internal/auth/session.go and the auth part of
    internal/api/native/handlers.go)

    The cookies of a session and of a login under way, and the handlers
    [Login], [Logout], [Whoami], [OIDCStart] and [OIDCCallback] with
    [safeReturnTo] and [mintSession].  A reply records its [Set-Cookie] and
    [Location] headers; the provider of Oidc.v is threaded next to the store. *)

From S2P Require Import Prelude GoStrings Urls Paths Model Database Runs Workspaces Sessions Access MlflowApi Oidc.
From Stdlib Require Import Ascii.

Open Scope Z_scope.

(** ** Cookies *)

Inductive SameSite := SameSiteDefaultMode | SameSiteLaxMode | SameSiteStrictMode | SameSiteNoneMode.

(** [http.Cookie]; a [MaxAge] of 0 means that the attribute is absent, a
    negative one deletes the cookie.  [Expires] is in milliseconds. *)
Record Cookie := mkCookie {
  ck_Name : string; ck_Value : string; ck_Path : string; ck_Expires : option Z; ck_MaxAge : Z;
  ck_HttpOnly : bool; ck_Secure : bool; ck_SameSite : SameSite }.

Definition OIDCStateCookieName : string := "lmf_oidc_state".

(** Ten minutes, in milliseconds. *)
Definition oidcStateTTL : Z := 10 * 60 * 1000.

(** What the handlers read of a request beyond the middlewares' part: whether
    it came over TLS, its query and its JSON body. *)
Record loginReq := mkLoginReq { lq_User : string; lq_Pass : string }.
Record LoginRequest := mkLoginRequest {
  lg_Req : Request; lg_TLS : bool; lg_Query : Query; lg_Body : option loginReq }.

(** [rand.Read] into [n] bytes, encoded by [enc]; [None] is its failure. *)
Definition random_text (enc : list Z → string) (rand : option (list Z)) : option string := enc <$> rand.

Definition NewSessionID (rand : option (list Z)) : option string := random_text EncodeToString rand.
Definition NewOIDCState (rand : option (list Z)) : option string := random_text b64_encode rand.
Definition NewPKCEVerifier (rand : option (list Z)) : option string := random_text b64_encode rand.
Definition NewPKCENonce (rand : option (list Z)) : option string := random_text b64_encode rand.

Definition IsRequestSecure (r : LoginRequest) : bool :=
  if lg_TLS r then true else bool_decide (header "X-Forwarded-Proto" (lg_Req r) = "https"%string).

Section session_cookie.
Context `{Clock}.

(** [int(time.Until(expiresAt).Seconds())], the clock counting milliseconds. *)
Definition seconds_until (expiresAt : Z) : M Z := now ← time_now; mret (Z.quot (expiresAt - now) 1000).

Definition SetSessionCookie (sessionID : string) (expiresAt : Z) : M Cookie :=
  age ← seconds_until expiresAt;
  mret (mkCookie SessionCookieName sessionID "/" (Some expiresAt) age true true SameSiteLaxMode).

Definition SetSessionCookieInsecure (sessionID : string) (expiresAt : Z) : M Cookie :=
  age ← seconds_until expiresAt;
  mret (mkCookie SessionCookieName sessionID "/" (Some expiresAt) age true false SameSiteLaxMode).

Definition SetSessionCookieAuto (r : LoginRequest) (sessionID : string) (expiresAt : Z) : M Cookie :=
  if IsRequestSecure r then SetSessionCookie sessionID expiresAt else SetSessionCookieInsecure sessionID expiresAt.
End session_cookie.

Definition ClearSessionCookie : Cookie :=
  mkCookie SessionCookieName "" "/" None (-1) true true SameSiteLaxMode.

(** ** The cookie of a login under way *)

Record PKCEState := mkPKCEState { ps_State : string; ps_CodeVerifier : string; ps_Nonce : string; ps_ReturnTo : string }.

(** [json.Marshal] and [json.Unmarshal] at this struct. *)
Class StateCodec := {
  json_Marshal : PKCEState → option (list Z);
  json_Unmarshal : list Z → option PKCEState }.

(** What encoding/json documents: ASCII texts come back as they were; bytes
    that are not UTF-8 (which only the client's [return_to] may have) are
    replaced. *)
Class StateCodecOk `{StateCodec} : Prop := {
  codec_bytes s b : json_Marshal s = Some b → Forall (λ x, 0 ≤ x < 256) b;
  codec_roundtrip s :
    ascii_only (ps_State s) = true → ascii_only (ps_CodeVerifier s) = true → ascii_only (ps_Nonce s) = true →
    ∃ b rt, json_Marshal s = Some b ∧
      json_Unmarshal b = Some (mkPKCEState (ps_State s) (ps_CodeVerifier s) (ps_Nonce s) rt) ∧
      (ascii_only (ps_ReturnTo s) = true → rt = ps_ReturnTo s) }.

Section state_cookie.
Context `{StateCodec}.

Definition marshalState (s : PKCEState) : option string := EncodeToString <$> json_Marshal s.

Definition unmarshalState (encoded : string) : option PKCEState :=
  b ← DecodeString encoded; json_Unmarshal b.

Definition SetOIDCStateCookie (state : PKCEState) : option Cookie :=
  encoded ← marshalState state;
  Some (mkCookie OIDCStateCookieName encoded "/" None (Z.quot oidcStateTTL 1000) true true SameSiteLaxMode).

Definition SetOIDCStateCookieInsecure (state : PKCEState) : option Cookie :=
  encoded ← marshalState state;
  Some (mkCookie OIDCStateCookieName encoded "/" None (Z.quot oidcStateTTL 1000) true false SameSiteLaxMode).

Definition SetOIDCStateCookieAuto (r : LoginRequest) (state : PKCEState) : option Cookie :=
  if IsRequestSecure r then SetOIDCStateCookie state else SetOIDCStateCookieInsecure state.

Definition GetOIDCState (r : LoginRequest) : option PKCEState :=
  c ← rq_Cookie (lg_Req r) !! OIDCStateCookieName; unmarshalState c.
End state_cookie.

Definition ClearOIDCStateCookie : Cookie :=
  mkCookie OIDCStateCookieName "" "/" None (-1) true true SameSiteLaxMode.

(** ** Where a login returns to *)

Definition control (c : ascii) : bool := (byte_of c <? 32)%N || byte_is 127 c.

Definition safeReturnTo (s : string) : string :=
  let fallback := "/ui/"%string in
  if decide (s = EmptyString) then fallback
  else if (2048 <? slen s)%nat then fallback
  else if negb (HasPrefix s "/") then fallback
  else if HasPrefix s "//" || HasPrefix s "/\" then fallback
  else if any_byte control s then fallback
  else s.

(** [hexEscapeNonASCII] of net/http. *)
Fixpoint hexEscapeNonASCII (s : string) : string :=
  match s with
  | EmptyString => EmptyString
  | String c s' => (if (128 <=? byte_of c)%N then "%" +:+ EncodeToString [Z.of_N (byte_of c)] else String c EmptyString) +:+
                   hexEscapeNonASCII s'
  end.

(** The directory part [path.Split] returns, with its slash. *)
Definition path_dir (p : string) : string :=
  match LastIndex p "/" with Some i => stake (S i) p | None => EmptyString end.

(** The [Location] of [http.Redirect]: a URL without scheme and host is made
    absolute, and its part before the query cleaned. *)
Definition Redirect (Parse : string → option URL) (r : LoginRequest) (url : string) : string :=
  hexEscapeNonASCII
    match Parse url with
    | Some u =>
        if decide (u_Scheme u = EmptyString ∧ u_Host u = EmptyString) then
          let oldpath := if decide (rq_Path (lg_Req r) = EmptyString) then "/"%string else rq_Path (lg_Req r) in
          let url := if HasPrefix url "/" then url else path_dir oldpath +:+ url in
          let '(path, query) := match Index url "?" with
                                | Some i => (stake i url, sdrop i url)
                                | None => (url, EmptyString)
                                end in
          let trailing := HasSuffix path "/" in
          let path := Clean path in
          (if trailing && negb (HasSuffix path "/") then path +:+ "/" else path) +:+ query
        else url
    | None => url
    end.

(** ** The handlers *)

Inductive LoginBody :=
  | NoBody | Identity (user auth_method : string) | LoggedIn (session_expires_at : Z) | LoggedOut.

Record LoginReply := mkLoginReply {
  lr_Status : Z; lr_Code : string; lr_Body : LoginBody; lr_Location : option string; lr_SetCookie : list Cookie }.

Definition login_error (status : Z) (code : string) (cookies : list Cookie) : LoginReply :=
  mkLoginReply status code NoBody None cookies.

Definition Whoami (r : LoginRequest) : LoginReply :=
  let user := header "X-LiteMLflow-User" (lg_Req r) in
  let authMethod := header "X-LiteMLflow-Auth-Method" (lg_Req r) in
  mkLoginReply 200 ""
    (Identity (if decide (user = EmptyString) then "anonymous"%string else user)
              (if decide (authMethod = EmptyString) then "none"%string else authMethod)) None [].

(** What the handlers hold: the configuration with the lifetime of a session
    (nanoseconds) and whether a session store is there. *)
Record LoginHandler := mkLoginHandler { lh_Cfg : Config; lh_SessionTTL : Z; lh_SessionStore : bool }.

(** [time.Duration.Milliseconds]. *)
Definition Milliseconds (d : Z) : Z := Z.quot d 1000000.

Section handlers.
Context `{Clock}.
Context (sha256 : string → list Z) (bcrypt_ok : string → string → bool).

Definition mintSession (rand : option (list Z)) (userID email name method : string) (ttl : Z) : M Session :=
  match NewSessionID rand with
  | None => fail ErrOther
  | Some id =>
      now ← time_now;
      let sess := mkSession id userID email name method now (now + Milliseconds ttl) now in
      _ ← CreateSession sess;
      mret sess
  end.

Definition verifyBasicCreds (cfg : Config) (user pass : string) : bool :=
  VerifyBasicCredentials sha256 bcrypt_ok (cfg_BasicUser cfg) (cfg_BasicPassHash cfg) user pass.

(** Mint, set the cookie and answer. *)
Definition log_in (h : LoginHandler) (r : LoginRequest) (rand : option (list Z)) (user method : string) : M LoginReply :=
  sess ← attempt (mintSession rand user user "" method (lh_SessionTTL h));
  match sess with
  | Err _ => mret (login_error 500 "INTERNAL_ERROR" [])
  | Ok s =>
      c ← SetSessionCookieAuto r (sess_ID s) (sess_ExpiresAt s);
      mret (mkLoginReply 200 "" (LoggedIn (sess_ExpiresAt s)) None [c])
  end.

Definition Login (h : LoginHandler) (rand : option (list Z)) (r : LoginRequest) : M LoginReply :=
  if negb (lh_SessionStore h) then mret (login_error 500 "INTERNAL_ERROR" []) else
  let mode := cfg_Auth (lh_Cfg h) in
  if decide (mode = "oidc"%string) then mret (login_error 400 "INVALID_PARAMETER_VALUE" [])
  else if decide (mode = "basic"%string) then
    match lg_Body r with
    | None => mret (login_error 400 "INVALID_PARAMETER_VALUE" [])
    | Some req =>
        if negb (verifyBasicCreds (lh_Cfg h) (lq_User req) (lq_Pass req))
        then mret (login_error 401 "UNAUTHENTICATED" [])
        else log_in h r rand (lq_User req) "basic"
    end
  else if decide (mode = "none"%string) then log_in h r rand "anonymous" "none"
  else mret (login_error 500 "INTERNAL_ERROR" []).

Definition Logout (h : LoginHandler) (r : LoginRequest) : M LoginReply :=
  _ ← match GetSessionID (lg_Req r) with
      | Some sessID => when (lh_SessionStore h) (_ ← attempt (DeleteSession sessID); mret tt)
      | None => mret tt
      end;
  mret (mkLoginReply 200 "" LoggedOut None [ClearSessionCookie]).

(** The OpenID Connect flow, over the libraries of the provider. *)
Context `{StateCodec}.
Context (Parse : string → option URL) (VerifyPKCS1v15 : PublicKey → list Z → list Z → bool)
  (json_header : list Z → option (string * string)) (json_claims : list Z → option Claims).

(** Computations on the provider and the store. *)
Definition P (A : Type) : Type := Provider → World → A * (Provider * World).

(** The draws of [OIDCStart]: state, verifier, nonce. *)
Definition OIDCStart (configured : bool) (n : network) (rand : option (list Z) * option (list Z) * option (list Z))
    (r : LoginRequest) : P LoginReply := λ p w,
  if negb configured then (login_error 400 "INVALID_PARAMETER_VALUE" [], (p, w)) else
  match NewOIDCState rand.1.1 with
  | None => (login_error 500 "INTERNAL_ERROR" [], (p, w))
  | Some state =>
  match NewPKCEVerifier rand.1.2 with
  | None => (login_error 500 "INTERNAL_ERROR" [], (p, w))
  | Some verifier =>
  match NewPKCENonce rand.2 with
  | None => (login_error 500 "INTERNAL_ERROR" [], (p, w))
  | Some nonce =>
  let returnTo := lg_Query r "return_to" in
  match SetOIDCStateCookieAuto r (mkPKCEState state verifier nonce returnTo) with
  | None => (login_error 500 "INTERNAL_ERROR" [], (p, w))
  | Some c =>
      let now := clock (w_tick w) in
      let w' := mkWorld (w_db w) (S (w_tick w)) in
      match BeginPKCE (n_discovery n) (n_jwks n) Parse sha256 now state verifier nonce p with
      | (OErr _, p') => (login_error 500 "INTERNAL_ERROR" [c], (p', w'))
      | (OOk authURL, p') => (mkLoginReply 302 "" NoBody (Some (Redirect Parse r authURL)) [c], (p', w'))
      end
  end end end end.

(** The user of the verified claims: the subject, else the e-mail address. *)
Definition claims_user (claims : Claims) : string :=
  let sub := claim_string "sub" claims in
  if decide (sub = EmptyString) then claim_string "email" claims else sub.

(** The end of the callback, once the token is verified. *)
Definition finish_login (h : LoginHandler) (rand : option (list Z)) (r : LoginRequest) (returnTo : string)
    (claims : Claims) : M LoginReply :=
  sess ← attempt (mintSession rand (claims_user claims) (claim_string "email" claims) (claim_string "name" claims)
                    "oidc" (lh_SessionTTL h));
  match sess with
  | Err _ => mret (login_error 500 "INTERNAL_ERROR" [])
  | Ok s =>
      c ← SetSessionCookieAuto r (sess_ID s) (sess_ExpiresAt s);
      mret (mkLoginReply 302 "" NoBody (Some (Redirect Parse r (safeReturnTo returnTo))) [ClearOIDCStateCookie; c])
  end.

Definition OIDCCallback (h : LoginHandler) (configured : bool) (n : network) (rand : option (list Z))
    (r : LoginRequest) : P (result LoginReply) := λ p w,
  let refuse code := (Ok (login_error 400 code []), (p, w)) in
  if negb configured || negb (lh_SessionStore h) then refuse "INVALID_PARAMETER_VALUE"%string
  else if decide (lg_Query r "error" ≠ EmptyString) then refuse "OIDC_ERROR"%string else
  match GetOIDCState r with
  | None => refuse "INVALID_PARAMETER_VALUE"%string
  | Some pkceState =>
      if decide (lg_Query r "state" ≠ ps_State pkceState) then refuse "INVALID_PARAMETER_VALUE"%string
      else if decide (lg_Query r "code" = EmptyString) then refuse "INVALID_PARAMETER_VALUE"%string else
      let now := clock (w_tick w) in
      let w' := mkWorld (w_db w) (S (w_tick w)) in
      match exec_exchange Parse sha256 VerifyPKCS1v15 json_header json_claims n now (lg_Query r "code")
              (ps_CodeVerifier pkceState) (ps_Nonce pkceState) p with
      | (OErr _, p') => (Ok (login_error 400 "OIDC_ERROR" []), (p', w'))
      | (OOk (_, claims), p') =>
          let '(reply, w'') := finish_login h rand r (ps_ReturnTo pkceState) claims w' in (reply, (p', w''))
      end
  end.
End handlers.
