(* ===== verification/LoginLaws.v ===== *)
(** * What a login establishes

    Where a completed login sends the browser, who a session cookie stands
    for and until when, what an OpenID Connect callback requires, and that the
    two halves of that flow fit together. *)

From S2P Require Import Prelude GoStrings Urls Paths Model Float64 Database Runs Sample Workspaces Sessions Access MlflowApi Oidc Login.
From Stdlib Require Import Ascii.

Open Scope Z_scope.

(** ** Where a browser goes

    How a browser resolves the [Location] of a reply of an http or https site
    (the URL standard): leading controls and spaces are dropped, tabs and
    newlines removed, a scheme or two leading slashes start another origin, and
    a backslash counts as a slash. *)
Fixpoint drop_leading (s : string) : string :=
  match s with
  | String c s' => if (byte_of c <=? 32)%N then drop_leading s' else s
  | EmptyString => EmptyString
  end.

Fixpoint drop_newlines (s : string) : string :=
  match s with
  | String c s' => if byte_is 9 c || byte_is 10 c || byte_is 13 c then drop_newlines s' else String c (drop_newlines s')
  | EmptyString => EmptyString
  end.

Definition alpha (c : ascii) : bool := byte_in 65 90 c || byte_in 97 122 c.

Fixpoint scheme_ends (s : string) : bool :=
  match s with
  | String c s' => if byte_is 58 c then true
                   else (alpha c || byte_in 48 57 c || byte_is 43 c || byte_is 45 c || byte_is 46 c) && scheme_ends s'
  | EmptyString => false
  end.

Definition has_scheme (s : string) : bool :=
  match s with String c s' => alpha c && scheme_ends s' | EmptyString => false end.

Definition slashes (c : ascii) : bool := bool_decide (c = slash) || bool_decide (c = "\"%char).

Definition stays_on_site (location : string) : bool :=
  let s := drop_newlines (drop_leading location) in
  negb (has_scheme s) && match s with String a (String b _) => negb (slashes a && slashes b) | _ => true end.

Lemma drop_newlines_id s : any_byte control s = false → drop_newlines s = s.
Proof.
  induction s as [|c s IH]; [done|]. cbn [any_byte drop_newlines]. intros [Hc Hs]%orb_false_iff. rewrite IH by done.
  assert (byte_is 9 c || byte_is 10 c || byte_is 13 c = false) as ->; [|done].
  unfold control in Hc. apply orb_false_iff in Hc as [Hc%N.ltb_ge _]. unfold byte_is.
  rewrite !(proj2 (N.eqb_neq _ _)) by lia. done.
Qed.

(** A text that starts with a slash and has no control byte stays on the site
    unless a slash or a backslash follows. *)
Lemma stays_rooted s :
  HasPrefix s "/" = true → any_byte control s = false →
  stays_on_site s = negb (HasPrefix s "//") && negb (HasPrefix s "/\").
Proof.
  intros Hp Hc. unfold stays_on_site. destruct s as [|c s]; [done|]. cbn [HasPrefix] in Hp.
  apply andb_prop in Hp as [->%bool_decide_eq_true _]. cbn [drop_leading].
  replace (byte_of "/" <=? 32)%N with false by done. rewrite drop_newlines_id by done.
  cbn [has_scheme]. replace (alpha "/") with false by done. cbn [andb negb].
  destruct s as [|b s]; [done|]. cbn [HasPrefix]. rewrite !HasPrefix_nil, !andb_true_r.
  by rewrite <- negb_orb.
Qed.

(** *** Escapes and cleaned paths *)

Lemma hexEscape_ascii c s : (byte_of c < 128)%N → hexEscapeNonASCII (String c s) = String c (hexEscapeNonASCII s).
Proof. intros Hc. cbn [hexEscapeNonASCII]. by rewrite (proj2 (N.leb_gt _ _)) by done. Qed.

Lemma byte_lt c : (byte_of c < 256)%N.
Proof. apply N_ascii_bounded. Qed.

(** Escaping keeps the texts without a control byte, or without a backslash. *)
Lemma hexEscape_avoids f s :
  any_byte f "%0123456789abcdef" = false → any_byte f s = false → any_byte f (hexEscapeNonASCII s) = false.
Proof.
  intros Hf. induction s as [|c s IH]; [done|]. cbn [any_byte hexEscapeNonASCII]. intros [Hc Hs]%orb_false_iff.
  rewrite any_byte_app, IH, orb_false_r by done. destruct (_ <=? _)%N; [|by cbn; rewrite Hc].
  cbn [any_byte] in Hf. repeat (apply orb_false_iff in Hf as [? Hf]). cbn [String.append any_byte EncodeToString].
  assert (∀ n, (n < 16)%N → f (hex_digit n) = false) as Hd.
  { intros n Hn. destruct n as [|p]; [done|]. do 4 (destruct p as [p|p|]; try done; try lia). }
  pose proof (byte_lt c). change 15 with (Z.ones 4). rewrite Z.land_ones, Z.shiftr_div_pow2 by lia. change (2 ^ 4) with 16.
  pose proof (Z.mod_pos_bound (Z.of_N (byte_of c)) 16). pose proof (Z.div_lt_upper_bound (Z.of_N (byte_of c)) 16 16).
  pose proof (Z.div_pos (Z.of_N (byte_of c)) 16). by rewrite !Hd, orb_false_r by lia.
Qed.

Lemma hexEscape_rooted s d :
  HasPrefix s "/" = true → (byte_of d < 128)%N → d ≠ "%"%char →
  HasPrefix (hexEscapeNonASCII s) "/" = true ∧
  HasPrefix (hexEscapeNonASCII s) (String "/" (String d "")) = HasPrefix s (String "/" (String d "")).
Proof.
  intros Hs Hd Hp. destruct s as [|c s]; [done|]. cbn [HasPrefix] in Hs. apply andb_prop in Hs as [->%bool_decide_eq_true _].
  rewrite hexEscape_ascii by done. split; [by destruct (hexEscapeNonASCII s)|]. destruct s as [|b s]; [done|].
  destruct (N.ltb_spec (byte_of b) 128) as [Hb|Hb].
  - rewrite hexEscape_ascii by done. cbn [HasPrefix]. by rewrite !HasPrefix_nil.
  - cbn [hexEscapeNonASCII]. rewrite (proj2 (N.leb_le _ _)) by done. cbn.
    rewrite !(bool_decide_eq_false_2 (_ = d)); [done|intros ->; lia|congruence].
Qed.

Lemma Split1_free f c s : any_byte f s = false → Forall (λ x, any_byte f x = false) (Split1 c s).
Proof.
  induction s as [|a s IH]; cbn; [by repeat constructor|]. intros [Ha Hs]%orb_false_iff. specialize (IH Hs).
  case_match; [by constructor|]. destruct (Split1 c s); [by constructor; [cbn; rewrite Ha|]|]. inversion_clear IH. constructor; [|done]. cbn.
  by apply orb_false_iff.
Qed.

Lemma resolve_rooted_from (Q : string → Prop) st segs :
  Forall Q st → Forall Q segs → Forall Q (resolve true st segs).
Proof.
  intros Hst Hs. revert st Hst. induction Hs as [|x segs Hx _ IH]; intros st Hst; cbn [resolve]; [by apply Forall_reverse|].
  destruct (decide _); [by apply IH|]. destruct (decide (x = _)); [|by apply IH; constructor].
  destruct st as [|t st]; [by apply IH|]. inversion_clear Hst.
  destruct (decide (t = _)); apply IH; [|done]. repeat constructor; done.
Qed.

Lemma Join_avoids f l : f slash = false → Forall (λ x, any_byte f x = false) l → any_byte f (Join "/" l) = false.
Proof.
  intros Hf. induction 1 as [|x l Hx Hl IH]; [done|]. destruct l as [|y l]; [cbn; by rewrite sapp_nil_r|].
  rewrite Join_cons, any_byte_app. cbn [any_byte]. by rewrite Hx, Hf, IH.
Qed.

Lemma Clean_avoids f s : IsAbs s = true → f slash = false → any_byte f s = false → any_byte f (Clean s) = false.
Proof.
  intros Ha Hf Hs. rewrite Clean_abs by done. unfold absolute. cbn [String.append any_byte]. rewrite Hf.
  apply Join_avoids; [done|]. apply resolve_rooted_from; [done|]. by apply Split1_free.
Qed.

(** A clean absolute path starts with one slash, whatever follows it that does
    not. *)
Lemma Clean_one_slash s t :
  IsAbs s = true → (Clean s ≠ "/"%string ∨ IsAbs t = false) → HasPrefix (Clean s +:+ t) "//" = false.
Proof.
  intros Ha Ht. rewrite Clean_abs in * by done. pose proof (components_plain s) as Hc.
  unfold absolute in *. cbn [String.append] in *.
  destruct (components s) as [|x l]; [cbn; destruct Ht as [?|Ht]; [done|]; revert Ht; destruct t; [done|]; cbn; by rewrite !HasPrefix_nil|].
  inversion_clear Hc as [|? ? (Hx & _ & _ & Hs) _]. destruct x as [|a x]; [done|]. apply no_slash_cons in Hs as [Hs _].
  assert (∃ u, Join "/" (String a x :: l) +:+ t = String a u) as [u ->].
  { destruct l; [cbn; eauto|]. rewrite Join_cons. cbn. eauto. }
  cbn. by rewrite (bool_decide_eq_false_2 (a = _)).
Qed.

Lemma safeReturnTo_spec s :
  let t := safeReturnTo s in
  HasPrefix t "/" = true ∧ HasPrefix t "//" = false ∧ HasPrefix t "/\" = false ∧ any_byte control t = false ∧
  (t = s ∨ t = "/ui/"%string).
Proof.
  cbv zeta. unfold safeReturnTo. case_decide; [by vm_compute; auto 10|]. case_match; [by vm_compute; auto 10|].
  destruct (HasPrefix s "/") eqn:H1; cbn [negb]; [|by vm_compute; auto 10].
  destruct (HasPrefix s "//") eqn:H2; cbn [orb]; [by vm_compute; auto 10|].
  destruct (HasPrefix s "/\") eqn:H3; [by vm_compute; auto 10|].
  destruct (any_byte control s) eqn:H4; [by vm_compute; auto 10|]. auto 10.
Qed.

Lemma stake_avoids f n s : any_byte f s = false → any_byte f (stake n s) = false ∧ any_byte f (sdrop n s) = false.
Proof. intros Hs. apply orb_false_iff. rewrite <- any_byte_app. by rewrite stake_sdrop. Qed.

(** What the redirection makes of a text that starts with exactly one slash:
    one that starts with exactly one slash, of the same bytes. *)
Definition redirected (Parse : string → option URL) (r : LoginRequest) (t u : string) : Prop :=
  Redirect Parse r t = hexEscapeNonASCII u ∧ HasPrefix u "/" = true ∧ HasPrefix u "//" = false ∧
  ∀ f, f slash = false → any_byte f t = false → any_byte f u = false.

Lemma Index_sdrop s p i : Index s p = Some i → HasPrefix (sdrop i s) p = true.
Proof.
  revert i. induction s as [|c s IH]; intros i; cbn [Index]; [destruct p; [by intros [= <-]|done]|].
  destruct (HasPrefix (String c s) p) eqn:E; [by intros [= <-]|].
  destruct (Index s p); [|done]. intros [= <-]. by apply IH.
Qed.

Lemma split_query t path query :
  HasPrefix t "/" = true →
  match Index t "?" with Some i => (stake i t, sdrop i t) | None => (t, EmptyString) end = (path, query) →
  IsAbs path = true ∧ IsAbs query = false ∧ ∀ f, any_byte f t = false → any_byte f path = false ∧ any_byte f query = false.
Proof.
  intros Ht. destruct (Index t "?") as [i|] eqn:Hi; intros [= <- <-]; [|by auto].
  split_and!; [| |intros f; apply stake_avoids].
  - destruct t as [|c t]; [done|]. cbn in Ht. apply andb_prop in Ht as [->%bool_decide_eq_true _].
    destruct i as [|i]; [by apply Index_sdrop in Hi|]. cbn. by rewrite HasPrefix_nil.
  - apply Index_sdrop in Hi. apply (HasPrefix_apart _ "?"); done.
Qed.

Lemma Redirect_rooted Parse r t :
  HasPrefix t "/" = true → HasPrefix t "//" = false → ∃ u, redirected Parse r t u.
Proof.
  intros H1 H2. unfold redirected, Redirect. destruct (Parse t) as [u|]; [|by exists t].
  case_decide; [|by exists t]. rewrite H1.
  destruct (match Index t "?" with Some i => _ | None => _ end) as [path query] eqn:E.
  apply split_query in E as (Hp & Hq & Hf); [|done]. eexists. split; [reflexivity|].
  pose proof (Clean_abs path Hp) as Hc.
  assert (HasPrefix (Clean path) "/" = true) as Hroot by (rewrite Hc; unfold absolute; cbn; by rewrite HasPrefix_nil).
  destruct (HasSuffix path "/" && negb (HasSuffix (Clean path) "/")) eqn:Ht.
  - rewrite sapp_assoc. split; [by apply IsAbs_app|]. split.
    + apply Clean_one_slash; [done|]. left. intros He. rewrite He in Ht. by rewrite andb_false_r in Ht.
    + intros f Hs Hb. rewrite !any_byte_app. destruct (Hf f Hb) as [H3 ->]. rewrite Clean_avoids by done. cbn. by rewrite Hs.
  - split; [by apply IsAbs_app|]. split; [apply Clean_one_slash; auto|].
    intros f Hs Hb. rewrite any_byte_app. destruct (Hf f Hb) as [H3 ->]. by rewrite Clean_avoids.
Qed.

(** Where a login returns to.  Whatever [return_to] the login began with,
    the [Location] the callback sends starts with exactly one slash and has no
    control byte, so it leaves the site in a browser only if a backslash
    follows that slash, and never if [return_to] has no backslash, or is used
    as it is because it does not parse as a URL. *)
Theorem return_to_stays Parse r s :
  let location := Redirect Parse r (safeReturnTo s) in
  HasPrefix location "/" = true ∧ HasPrefix location "//" = false ∧ any_byte control location = false ∧
  stays_on_site location = negb (HasPrefix location "/\") ∧
  (any_byte (λ c, bool_decide (c = "\"%char)) s = false ∨ Parse s = None → stays_on_site location = true).
Proof.
  cbv zeta. destruct (safeReturnTo_spec s) as (H1 & H2 & H3 & H4 & H5). set (t := safeReturnTo s) in *.
  destruct (Redirect_rooted Parse r t H1 H2) as (u & Hu & U1 & U2 & Uf).
  assert (HasPrefix (Redirect Parse r t) "/" = true) as L1 by (rewrite Hu; by apply (hexEscape_rooted u "/")).
  assert (HasPrefix (Redirect Parse r t) "//" = false) as L2
    by (rewrite Hu, (proj2 (hexEscape_rooted u "/" U1 ltac:(done) ltac:(done))); done).
  assert (any_byte control (Redirect Parse r t) = false) as L3 by (rewrite Hu; apply hexEscape_avoids; [done|]; by apply Uf).
  pose proof (stays_rooted _ L1 L3) as L4. rewrite L2 in L4. cbn [negb andb] in L4.
  split_and!; try done. intros Hs. rewrite L4. apply negb_true_iff.
  assert (any_byte (λ c, bool_decide (c = "\"%char)) t = false → HasPrefix (Redirect Parse r t) "/\" = false) as Hclean.
  { intros Hb. rewrite Hu, (proj2 (hexEscape_rooted u "\" U1 ltac:(done) ltac:(done))).
    specialize (Uf _ eq_refl Hb). destruct u as [|a [|b u]]; [done|by cbn; rewrite andb_false_r|]. cbn in Uf |- *.
    apply orb_false_iff in Uf as [_ [Ub _]%orb_false_iff]. rewrite Ub. by rewrite andb_false_r. }
  destruct H5 as [H5|H5]; [|apply Hclean; by rewrite H5]. destruct Hs as [Hs|Hs]; [apply Hclean; by rewrite H5|].
  unfold Redirect. rewrite H5, Hs, <- H5. by rewrite (proj2 (hexEscape_rooted t "\" H1 ltac:(done) ltac:(done))).
Qed.

(** ** Sessions *)

Section session_laws.
Context `{Clock}.

(** A mint succeeds exactly when the draw does and its id is new and not
    empty; then it adds the one row. *)
Lemma mintSession_spec rand user email name method ttl w :
  let now := clock (w_tick w) in
  match EncodeToString <$> rand with
  | Some id =>
      if decide (id = EmptyString ∨ is_Some (sessions (w_db w) !! id))
      then ∃ e w', mintSession rand user email name method ttl w = (Err e, w') ∧ w_db w' = w_db w
      else ∃ row, session_key row = (user, method, now + Milliseconds ttl) ∧
        mintSession rand user email name method ttl w =
          (Ok (mkSession id user email name method now (now + Milliseconds ttl) now),
           mkWorld (set_sessions (<[id := row]> (sessions (w_db w))) (w_db w)) (2 + w_tick w))
  | None => mintSession rand user email name method ttl w = (Err ErrOther, w)
  end.
Proof.
  cbv zeta. unfold mintSession, NewSessionID, random_text. destruct rand as [b|]; [|done]. cbn [fmap option_fmap option_map].
  rewrite now_bind. cbv zeta. unfold CreateSession. cbn [sess_ID]. set (id := EncodeToString b).
  destruct (decide (id = EmptyString)) as [Hid|Hid].
  { rewrite decide_True by (by left). cbn. by do 2 eexists. }
  destruct (decide (is_Some (sessions (w_db w) !! id))) as [Hin|Hin].
  - rewrite decide_True by (by right).
    do 2 eexists. split; [|shelve]. unfold mbind, M_bind. cbn. rewrite decide_True by done. reflexivity. 
    Unshelve. done.
  - rewrite decide_False by tauto. eexists. split; [shelve|]. unfold mbind, M_bind. cbn.
    rewrite decide_False by done. cbn. reflexivity.
    Unshelve. done.
Qed.

(** Setting the cookie reads the clock and touches nothing else. *)
Lemma SetSessionCookieAuto_spec r id expires w :
  SetSessionCookieAuto r id expires w =
    (Ok (mkCookie SessionCookieName id "/" (Some expires) (Z.quot (expires - clock (w_tick w)) 1000) true
           (IsRequestSecure r) SameSiteLaxMode), mkWorld (w_db w) (S (w_tick w))).
Proof. unfold SetSessionCookieAuto. by destruct (IsRequestSecure r). Qed.

(** The request presents the cookie. *)
Definition carries (rq : Request) (c : Cookie) : Prop := rq_Cookie rq !! ck_Name c = Some (ck_Value c).

Context (sha256 : string → list Z) (bcrypt_ok : string → string → bool).
Context (allow : Request → bool) (touched : bool) (cfg : Config).
Notation middleware := (authMiddlewareWithSessions sha256 bcrypt_ok allow touched cfg).

(** The request gets through as this user; it does not get through. *)
Definition admitted (user : string) (rq : Request) (w : World) : Prop :=
  ∀ inner, ∃ rq' w', middleware inner rq w = inner rq' w' ∧ ctx_User rq' = Some user ∧
    header "X-LiteMLflow-User" rq' = user ∧ rq_Path rq' = rq_Path rq ∧ rq_Method rq' = rq_Method rq.

Definition refused (rq : Request) (w : World) : Prop :=
  ∀ inner, ∃ x w', middleware inner rq w = (Ok x, w') ∧ refusal x ∧ same_but_sessions w w'.

Lemma admitted_alive id user method expires rq w :
  cfg_Auth cfg ≠ "none"%string → isPublicPath (rq_Path rq) = false → GetSessionID rq = Some id →
  alive id (user, method, expires) w → clock (w_tick w) ≤ expires → admitted user rq w.
Proof.
  intros Hcfg Hpub Hid Ha Ht inner. pose proof (auth_exec sha256 bcrypt_ok allow touched cfg inner rq w Hcfg Hpub) as Hx.
  unfold identify in Hx. rewrite Hid in Hx. cbn [mbind option_bind] in Hx. unfold alive in Ha.
  destruct (sessions (w_db w) !! id) as [row|]; cbn in Ha; [|lia]. injection Ha as Hu Hm He.
  cbn [mbind option_bind] in Hx. rewrite (decide_False (P := sr_expires_at row < _)) in Hx by lia. rewrite Hu in Hx.
  destruct Hx as (rq' & w' & [] & _ & Hx). by exists rq', w'.
Qed.

Lemma refused_gone id rq w :
  cfg_Auth cfg ≠ "none"%string → isPublicPath (rq_Path rq) = false → GetSessionID rq = Some id → rq_BasicAuth rq = None →
  (∀ row, sessions (w_db w) !! id = Some row → sr_expires_at row < clock (w_tick w)) → refused rq w.
Proof.
  intros Hcfg Hpub Hid Hb Ha inner. pose proof (auth_exec sha256 bcrypt_ok allow touched cfg inner rq w Hcfg Hpub) as Hx.
  unfold identify in Hx. rewrite Hid, Hb in Hx. cbn [mbind option_bind] in Hx.
  destruct (sessions (w_db w) !! id) as [row|]; cbn [mbind option_bind] in Hx; [rewrite (decide_True (P := sr_expires_at row < _)) in Hx by (by apply Ha)|];
    (destruct (decide (cfg_Auth cfg = "basic"%string)); destruct Hx as (x & w' & ? & ? & ?); by exists x, w').
Qed.

Lemma Logout_absent h r id w :
  lh_SessionStore h = true → GetSessionID (lg_Req r) = Some id →
  ∃ w', Logout h r w = (Ok (mkLoginReply 200 "" LoggedOut None [ClearSessionCookie]), w') ∧ absent id w' ∧
        ∀ id', id' ≠ id → sessions (w_db w') !! id' = sessions (w_db w) !! id'.
Proof.
  intros Hst Hid. unfold Logout. rewrite Hid, Hst. cbn [when].
  exists (DeleteSession id w).2. unfold DeleteSession, absent. rewrite get_bind.
  split; [|case_decide as Hd; cbn].
  - unfold mbind, M_bind, attempt. cbn. case_decide; done.
  - split; [by rewrite lookup_delete_eq|]. intros. by rewrite lookup_delete_ne.
  - split; [by apply eq_None_not_Some|done].
Qed.

(** What a session stands for from the moment it is minted: its user until it
    expires, nobody from then on or after a logout. *)
Definition session_holds (h : LoginHandler) (id user : string) (expires : Z) (w : World) : Prop :=
  ∀ ops rq, Forall (spares id) ops → GetSessionID rq = Some id → isPublicPath (rq_Path rq) = false →
    let w2 := foldl (flip exec_session) w ops in
    (clock (w_tick w2) ≤ expires → admitted user rq w2) ∧
    (rq_BasicAuth rq = None → expires < clock (w_tick w2) → refused rq w2) ∧
    (∀ r ops', rq_BasicAuth rq = None → GetSessionID (lg_Req r) = Some id → Forall (spares id) ops' →
       refused rq (foldl (flip exec_session) (Logout h r w2).2 ops')).

Lemma alive_holds `{!ClockOk} h id user method expires w :
  cfg_Auth cfg ≠ "none"%string → lh_SessionStore h = true →
  alive id (user, method, expires) w → session_holds h id user expires w.
Proof.
  intros Hcfg Hst Ha ops rq Hops Hid Hpub. apply (foldl_exec _ _ ops _ (alive_exec id _)) in Ha; [|done].
  cbv zeta. set (w2 := foldl _ w ops) in *. split_and!.
  - intros Ht. by eapply admitted_alive.
  - intros Hb Ht. eapply refused_gone; [done..|]. intros row Hrow. unfold alive in Ha. rewrite Hrow in Ha. cbn in Ha.
    by injection Ha as _ _ ->.
  - intros r ops' Hb Hr Hops'. destruct (Logout_absent h r id w2 Hst Hr) as (w3 & -> & Hgone & _). cbn [snd].
    apply (foldl_exec _ _ ops' _ (absent_exec id)) in Hgone; [|done].
    eapply refused_gone; [done..|]. intros row Hrow. unfold absent in Hgone. congruence.
Qed.
End session_laws.

(** ** Minting a session and handing out its cookie *)

(** The draw names a session that is not there. *)
Definition fresh_draw (rand : option (list Z)) (d : DB) (id : string) : Prop :=
  EncodeToString <$> rand = Some id ∧ id ≠ EmptyString ∧ sessions d !! id = None.

Definition session_cookie (r : LoginRequest) (id : string) (expires : Z) (c : Cookie) : Prop :=
  ck_Name c = SessionCookieName ∧ ck_Value c = id ∧ ck_Path c = "/"%string ∧ ck_Expires c = Some expires ∧
  ck_HttpOnly c = true ∧ ck_Secure c = IsRequestSecure r ∧ ck_SameSite c = SameSiteLaxMode.

Lemma fresh_draw_dec rand d : (∃ id, fresh_draw rand d id) ∨ ∀ id, ¬ fresh_draw rand d id.
Proof.
  unfold fresh_draw. destruct (EncodeToString <$> rand) as [id|]; [|right; by intros id [? _]].
  destruct (decide (id = EmptyString)) as [He|He]; [right; by intros i ([= <-] & ? & _)|].
  destruct (sessions d !! id) eqn:E; [right; intros i ([= <-] & _ & ?); congruence|left; by exists id].
Qed.

Lemma mint_then `{Clock} rand user email name method ttl r (f : Session → Cookie → LoginReply) w :
  let m := sess ← attempt (mintSession rand user email name method ttl);
           match sess with
           | Err _ => mret (login_error 500 "INTERNAL_ERROR" [])
           | Ok s => c ← SetSessionCookieAuto r (sess_ID s) (sess_ExpiresAt s); mret (f s c)
           end in
  let expires := clock (w_tick w) + Milliseconds ttl in
  (∃ id s c w1, fresh_draw rand (w_db w) id ∧ m w = (Ok (f s c), w1) ∧ sess_ExpiresAt s = expires ∧
     session_cookie r id expires c ∧ alive id (user, method, expires) w1 ∧ same_but_sessions w w1) ∨
  (∃ w1, (∀ id, ¬ fresh_draw rand (w_db w) id) ∧ m w = (Ok (login_error 500 "INTERNAL_ERROR" []), w1) ∧ w_db w1 = w_db w).
Proof.
  cbv zeta. rewrite attempt_bind. pose proof (mintSession_spec rand user email name method ttl w) as Hm. cbv zeta in Hm.
  unfold fresh_draw. destruct (EncodeToString <$> rand) as [id|].
  2:{ rewrite Hm. right. eexists. split; [|by split]. by intros id [? _]. }
  destruct (decide (id = _ ∨ _)) as [Hd|Hd].
  - destruct Hm as (e & w' & -> & Hw). right. eexists. split; [|by split].
    intros i ([= <-] & H1 & H2). destruct Hd as [?|[? ?]]; congruence.
  - destruct Hm as (row & Hrow & ->). left. cbn [fst snd].
    eexists id, _, _, _. rewrite bind_Ok with (1 := SetSessionCookieAuto_spec _ _ _ _). split_and!; [done|tauto| |reflexivity|done|..].
    + apply eq_None_not_Some. tauto.
    + by split_and!.
    + unfold alive. cbn. by rewrite lookup_insert_eq.
    + done.
Qed.

(** C10: logging in with a password.  A login is answered with 200 exactly when
    the credentials are the configured ones and the drawn id is new; it hands
    out one cookie, HttpOnly, with the request's transport security.  From then
    on, whatever happens to other sessions, a request with that cookie passes
    the authentication as that user until the session expires, and is refused
    after that, or after a logout.  Any other login is answered with an error,
    hands out no cookie and changes nothing. *)
Theorem login_session `{ClockOk} sha256 bcrypt_ok allow touched h rand r w :
  lh_SessionStore h = true → cfg_Auth (lh_Cfg h) = "basic"%string →
  let d := w_db w in
  let expires := clock (w_tick w) + Milliseconds (lh_SessionTTL h) in
  let valid req := verifyBasicCreds sha256 bcrypt_ok (lh_Cfg h) (lq_User req) (lq_Pass req) in
  (∃ req id c w1, lg_Body r = Some req ∧ valid req = true ∧ fresh_draw rand d id ∧
     Login sha256 bcrypt_ok h rand r w = (Ok (mkLoginReply 200 "" (LoggedIn expires) None [c]), w1) ∧
     session_cookie r id expires c ∧ same_but_sessions w w1 ∧
     session_holds sha256 bcrypt_ok allow touched (lh_Cfg h) h id (lq_User req) expires w1) ∨
  (∃ status code w1, (∀ req id, lg_Body r = Some req → valid req = true → ¬ fresh_draw rand d id) ∧
     Login sha256 bcrypt_ok h rand r w = (Ok (login_error status code []), w1) ∧
     status ∈ [400; 401; 500] ∧ w_db w1 = d).
Proof.
  intros Hst Hauth. cbv zeta. unfold Login. rewrite Hst, Hauth. cbn [negb]. rewrite !decide_False, decide_True by done.
  destruct (lg_Body r) as [req|]; [|right; do 3 eexists; split; [|split; [reflexivity|by split; [set_solver|]]]; done].
  destruct (verifyBasicCreds _ _ _ _ _) eqn:Hv; cbn [negb].
  2:{ right. do 3 eexists. split; [|split; [reflexivity|by split; [set_solver|]]]. intros ? ? [= <-] ?. congruence. }
  unfold log_in. edestruct mint_then as [(id & s & c & w1 & H1 & H2 & H3 & H4 & H5 & H6)|(w1 & H1 & H2 & H3)].
  - left. exists req, id, c, w1. split_and!; try done; [by rewrite H2, H3|].
    eapply alive_holds; try done. by rewrite Hauth.
  - right. do 3 eexists. split; [|split; [exact H2|by split; [set_solver|]]]. intros ? ? [= <-] _. apply H1.
Qed.

(** ** The OpenID Connect flow *)

Section oidc_flow.
Context `{ClockOk} `{StateCodecOk}.
Context (sha256 : string → list Z) (bcrypt_ok : string → string → bool) (allow : Request → bool) (touched : bool).
Context (Parse : string → option URL) (VerifyPKCS1v15 : PublicKey → list Z → list Z → bool)
  (json_header : list Z → option (string * string)) (json_claims : list Z → option Claims).

Notation start := (OIDCStart sha256 Parse).
Notation callback := (OIDCCallback sha256 Parse VerifyPKCS1v15 json_header json_claims).
Notation exec_op := (exec_provider Parse sha256 VerifyPKCS1v15 json_header json_claims).
Notation exchange := (exec_exchange Parse sha256 VerifyPKCS1v15 json_header json_claims).
Notation verified := (token_verified sha256 VerifyPKCS1v15 json_header json_claims).
Notation holds cfg := (session_holds sha256 bcrypt_ok allow touched cfg).

Lemma finish_login_spec h rand r returnTo claims w :
  lh_SessionStore h = true → cfg_Auth (lh_Cfg h) ≠ "none"%string →
  let expires := clock (w_tick w) + Milliseconds (lh_SessionTTL h) in
  (∃ id c w1, fresh_draw rand (w_db w) id ∧
     finish_login Parse h rand r returnTo claims w =
       (Ok (mkLoginReply 302 "" NoBody (Some (Redirect Parse r (safeReturnTo returnTo))) [ClearOIDCStateCookie; c]), w1) ∧
     session_cookie r id expires c ∧ same_but_sessions w w1 ∧
     holds (lh_Cfg h) h id (claims_user claims) expires w1) ∨
  (∃ w1, (∀ id, ¬ fresh_draw rand (w_db w) id) ∧
     finish_login Parse h rand r returnTo claims w = (Ok (login_error 500 "INTERNAL_ERROR" []), w1) ∧ w_db w1 = w_db w).
Proof.
  intros Hst Hauth. cbv zeta. unfold finish_login.
  destruct (mint_then rand (claims_user claims) (claim_string "email" claims) (claim_string "name" claims) "oidc"
    (lh_SessionTTL h) r (λ _ c, mkLoginReply 302 "" NoBody (Some (Redirect Parse r (safeReturnTo returnTo))) [ClearOIDCStateCookie; c]) w)
    as [(id & s & c & w1 & F1 & F2 & F3 & F4 & F5 & F6)|(w1 & F1 & F2 & F3)].
  - left. exists id, c, w1. split_and!; try done. by eapply alive_holds.
  - right. by exists w1.
Qed.

(** C11: what an OpenID Connect login requires.  Whatever logins the server
    began and completed before and whatever the provider answers, a callback
    hands out a session exactly when the provider reports no error, the state
    of its query is that of the browser's state cookie, a code is present, the
    exchange of the code with the cookie's verifier and nonce yields a token
    that verifies (signature, issuer, audience, expiry; the nonce of the cookie,
    when it is not empty), and the drawn id is new.  The session then stands for
    the token's subject, or its e-mail address when it has none, the state
    cookie is cleared, and the browser is sent to the checked [return_to].  Any
    other callback sets no cookie (so the state cookie stays until it expires)
    and stores nothing. *)
Theorem oidc_login_verified issuer clientID secret redirect scopes ops h n rand r w :
  lh_SessionStore h = true → cfg_Auth (lh_Cfg h) = "oidc"%string →
  let p := foldl exec_op (NewProvider issuer clientID secret redirect scopes) ops in
  let now := clock (w_tick w) in
  let expires := clock (S (w_tick w)) + Milliseconds (lh_SessionTTL h) in
  let code := lg_Query r "code" in
  let exchanged st token claims p' := exchange n now code (ps_CodeVerifier st) (ps_Nonce st) p = (OOk (token, claims), p') in
  let entitled st token claims p' id :=
    lg_Query r "error" = EmptyString ∧ GetOIDCState r = Some st ∧ lg_Query r "state" = ps_State st ∧
    code ≠ EmptyString ∧ exchanged st token claims p' ∧ fresh_draw rand (w_db w) id in
  (∃ st token claims p' id c w1, entitled st token claims p' id ∧
     callback h true n rand r p w =
       (Ok (mkLoginReply 302 "" NoBody (Some (Redirect Parse r (safeReturnTo (ps_ReturnTo st)))) [ClearOIDCStateCookie; c]), (p', w1)) ∧
     verified (now / 1000) p' token claims ∧ pv_issuer p' = issuer ∧ pv_clientID p' = clientID ∧
     (ps_Nonce st ≠ EmptyString → claim_string "nonce" claims = ps_Nonce st) ∧
     session_cookie r id expires c ∧ same_but_sessions w w1 ∧
     holds (lh_Cfg h) h id (claims_user claims) expires w1) ∨
  (∃ status code p' w1, (∀ st token claims p'' id, ¬ entitled st token claims p'' id) ∧
     callback h true n rand r p w = (Ok (login_error status code []), (p', w1)) ∧ status ∈ [400; 500] ∧ w_db w1 = w_db w).
Proof.
  intros Hst Hauth. cbv zeta. set (p := foldl _ _ ops).
  destruct (history_spec Parse sha256 VerifyPKCS1v15 json_header json_claims ops (NewProvider issuer clientID secret redirect scopes))
    as [Hwf [Hi Hc]]; [done|]. fold p in Hwf, Hi, Hc. cbn in Hi, Hc.
  unfold OIDCCallback. rewrite Hst. cbn [negb orb].
  case_decide as He; [right; do 4 eexists; split; [|split; [reflexivity|by split; [set_solver|]]]; tauto|].
  destruct (GetOIDCState r) as [st|];
    [|right; do 4 eexists; split; [|split; [reflexivity|by split; [set_solver|]]]; naive_solver].
  case_decide as Hs; [right; do 4 eexists; split; [|split; [reflexivity|by split; [set_solver|]]]; naive_solver|].
  case_decide as Hcode; [right; do 4 eexists; split; [|split; [reflexivity|by split; [set_solver|]]]; naive_solver|].
  destruct (exchange n _ _ _ _ p) as [[[token claims]|e] p'] eqn:Hx;
    [|right; do 4 eexists; split; [|split; [reflexivity|by split; [set_solver|]]]; intros ? ? ? ? ? (_ & [= <-] & _ & _ & Hx' & _); congruence].
  destruct (exchange_spec _ _ _ _ _ _ _ _ _ _ _ _ _ _ _ Hx Hwf) as (_ & [Hi' Hc'] & Hv).
  destruct (Hv _ _ eq_refl) as (_ & Htok & Hn).
  destruct (finish_login_spec h rand r (ps_ReturnTo st) claims (mkWorld (w_db w) (S (w_tick w))))
    as [(id & c & w1 & F1 & F2 & F3 & F4 & F5)|(w1 & F1 & F2 & F3)]; [done|by rewrite Hauth|left|right].
  - exists st, token, claims, p', id, c, w1. rewrite F2. by split_and!; try congruence.
  - exists 500, "INTERNAL_ERROR"%string, p', w1. rewrite F2. split_and!; [|done|set_solver|done].
    intros st' token' claims' p'' id (_ & [= <-] & _ & _ & _ & Hid). by apply (F1 id).
Qed.

(** *** The two halves of the flow *)

Lemma b64_char_ascii n : byte_in 128 255 (b64_char n) = false.
Proof.
  unfold byte_in, byte_of, b64_char.
  rewrite N_ascii_embedding; repeat case_match; cbn; try done; rewrite ?andb_false_iff; left || idtac; try lia.
  all: rewrite ?N.leb_gt; lia.
Qed.

Lemma b64_encode_ascii b : ascii_only (b64_encode b) = true.
Proof.
  unfold ascii_only. apply negb_true_iff. remember (length b) as n eqn:Hn. revert b Hn.
  induction (lt_wf n) as [n _ IH]. intros b ->.
  destruct b as [|x [|y [|z b]]]; [done|..]; cbn [b64_encode any_byte]; rewrite !b64_char_ascii; [done..|].
  cbn [orb]. apply (IH (length b)); [cbn; lia|done].
Qed.

Lemma EnsureDiscovery_doc fd fj now p doc p' :
  EnsureDiscovery fd fj Parse now p = (OOk doc, p') → pv_discoveryDoc p' = Some doc.
Proof. unfold EnsureDiscovery. intros E. by repeat (case_match; simplify_eq). Qed.

(** The state a login began with comes back with the browser's cookie. *)
Lemma state_cookie_roundtrip r st c rq :
  ascii_only (ps_State st) = true → ascii_only (ps_CodeVerifier st) = true → ascii_only (ps_Nonce st) = true →
  SetOIDCStateCookieAuto r st = Some c → carries (lg_Req rq) c →
  ∃ rt, GetOIDCState rq = Some (mkPKCEState (ps_State st) (ps_CodeVerifier st) (ps_Nonce st) rt) ∧
        (ascii_only (ps_ReturnTo st) = true → rt = ps_ReturnTo st).
Proof.
  intros A1 A2 A3 Hc Hrq. destruct (codec_roundtrip st A1 A2 A3) as (b & rt & Hm & Hu & Hrt). exists rt. split; [|done].
  unfold SetOIDCStateCookieAuto, SetOIDCStateCookie, SetOIDCStateCookieInsecure, marshalState in Hc. rewrite Hm in Hc.
  unfold GetOIDCState. assert (rq_Cookie (lg_Req rq) !! OIDCStateCookieName = Some (EncodeToString b)) as ->
    by (destruct (IsRequestSecure r); injection Hc as <-; exact Hrq).
  cbn. unfold unmarshalState. rewrite DecodeString_EncodeToString by (by eapply codec_bytes). done.
Qed.

(** The flow completes.  A start that is answered with a redirect sends
    the browser to the provider's address with the drawn state and nonce and
    the challenge of the drawn verifier, and hands out a ten-minute cookie.
    Whenever the browser comes back with that cookie, that state and a code
    the provider honours for that verifier and nonce, and the drawn id is new,
    the callback logs the user in and returns to the [return_to] the flow
    began with. *)
Theorem oidc_flow_completes n rands r p w reply p1 w1 :
  start true n rands r p w = (reply, (p1, w1)) → lr_Status reply = 302 →
  ∃ a b c ck doc params, rands = (Some a, Some b, Some c) ∧
    let state := b64_encode a in let verifier := b64_encode b in let nonce := b64_encode c in
    lr_SetCookie reply = [ck] ∧ ck_Name ck = OIDCStateCookieName ∧ ck_MaxAge ck = 600 ∧ ck_HttpOnly ck = true ∧
    ck_Secure ck = IsRequestSecure r ∧ w_db w1 = w_db w ∧
    pv_discoveryDoc p1 = Some doc ∧
    lr_Location reply = Some (Redirect Parse r (od_AuthorizationEndpoint doc +:+ "?" +:+ Encode params)) ∧
    ("state"%string, state) ∈ params ∧ ("code_challenge"%string, codeChallenge sha256 verifier) ∈ params ∧
    ("code_challenge_method", "S256")%string ∈ params ∧ (nonce ≠ EmptyString → ("nonce"%string, nonce) ∈ params) ∧
    ∀ h n' rand r' p2 w2 token claims p3 id,
      lh_SessionStore h = true → cfg_Auth (lh_Cfg h) = "oidc"%string → carries (lg_Req r') ck →
      lg_Query r' "error" = EmptyString → lg_Query r' "state" = state → lg_Query r' "code" ≠ EmptyString →
      exchange n' (clock (w_tick w2)) (lg_Query r' "code") verifier nonce p2 = (OOk (token, claims), p3) →
      fresh_draw rand (w_db w2) id →
      let expires := clock (S (w_tick w2)) + Milliseconds (lh_SessionTTL h) in
      ∃ rt c' w3, (ascii_only (lg_Query r "return_to") = true → rt = lg_Query r "return_to") ∧
        callback h true n' rand r' p2 w2 =
          (Ok (mkLoginReply 302 "" NoBody (Some (Redirect Parse r' (safeReturnTo rt))) [ClearOIDCStateCookie; c']), (p3, w3)) ∧
        session_cookie r' id expires c' ∧ holds (lh_Cfg h) h id (claims_user claims) expires w3.
Proof.
  unfold OIDCStart. cbn [negb]. destruct rands as [[[a|] [b|]] [c|]]; cbn [fst snd NewOIDCState NewPKCEVerifier NewPKCENonce random_text fmap option_fmap option_map];
    try (by intros [= <- <- <-]).
  destruct (SetOIDCStateCookieAuto _ _) as [ck|] eqn:Hck; [|by intros [= <- <- <-]].
  destruct (BeginPKCE _ _ _ _ _ _ _ _ p) as [[authURL|e] p'] eqn:Hb; [|by intros [= <- <- <-]]. intros [= <- <- <-] _.
  exists a, b, c, ck. unfold BeginPKCE in Hb. destruct (EnsureDiscovery _ _ _ _ p) as [[doc|e] p''] eqn:He; [|done].
  injection Hb as <- <-. eexists doc, _. split; [done|]. cbv zeta.
  assert (ck_Name ck = OIDCStateCookieName ∧ ck_MaxAge ck = 600 ∧ ck_HttpOnly ck = true ∧ ck_Secure ck = IsRequestSecure r) as (K1 & K2 & K3 & K4).
  { unfold SetOIDCStateCookieAuto, SetOIDCStateCookie, SetOIDCStateCookieInsecure in Hck.
    destruct (IsRequestSecure r); destruct (marshalState _); by simplify_option_eq. }
  split_and!; [done..| |reflexivity|set_solver|set_solver|set_solver| |].
  { eapply EnsureDiscovery_doc, He. }
  { intros Hne. rewrite (decide_False (P := b64_encode c = _)) by done. set_solver. }
  intros h n' rand r' p2 w2 token claims p3 id Hst Hauth Hcar Q1 Q2 Q3 Hx Hid. cbv zeta.
  destruct (state_cookie_roundtrip r (mkPKCEState (b64_encode a) (b64_encode b) (b64_encode c) (lg_Query r "return_to")) ck r'
    (b64_encode_ascii a) (b64_encode_ascii b) (b64_encode_ascii c) Hck Hcar) as (rt & Hget & Hrt).
  exists rt. unfold OIDCCallback. rewrite Hst, Hget. cbn [negb orb ps_State ps_CodeVerifier ps_Nonce ps_ReturnTo].
  rewrite !decide_False by (congruence || tauto). rewrite Hx.
  destruct (finish_login_spec h rand r' rt claims (mkWorld (w_db w2) (S (w_tick w2))))
    as [(id' & c' & w3 & F1 & F2 & F3 & F4 & F5)|(w3 & F1 & _)]; [done|by rewrite Hauth| |by destruct (F1 id)].
  assert (id' = id) as -> by (destruct F1 as [F1 _], Hid as [Hid _]; congruence).
  exists c', w3. rewrite F2. by split_and!.
Qed.
End oidc_flow.

(** * Witnesses and gaps *)

Module Example12.
(** A codec that keeps every byte: each one is marked, each field ended. *)
Fixpoint put_text (s : string) : list Z :=
  match s with EmptyString => [0] | String c s' => 1 :: Z.of_N (byte_of c) :: put_text s' end.
Fixpoint get_text (b : list Z) : option (string * list Z) :=
  match b with
  | 0 :: b' => Some (EmptyString, b')
  | 1 :: x :: b' => '(s, rest) ← get_text b'; Some (String (ascii_of_N (Z.to_N x)) s, rest)
  | _ => None
  end.

#[export] Instance codec : StateCodec := {
  json_Marshal s := Some (put_text (ps_State s) ++ put_text (ps_CodeVerifier s) ++ put_text (ps_Nonce s) ++ put_text (ps_ReturnTo s));
  json_Unmarshal b := '(st, b) ← get_text b; '(cv, b) ← get_text b; '(nonce, b) ← get_text b; '(rt, _) ← get_text b;
                      Some (mkPKCEState st cv nonce rt) }.

Lemma get_put s b : get_text (put_text s ++ b) = Some (s, b).
Proof.
  induction s as [|c s IH]; [done|]. cbn [put_text app get_text]. rewrite IH. cbn. rewrite N2Z.id. unfold byte_of.
  by rewrite ascii_N_embedding.
Qed.

Lemma put_bytes s : Forall (λ x, 0 ≤ x < 256) (put_text s).
Proof. induction s as [|c s IH]; cbn; [by repeat constructor|]. pose proof (byte_lt c). constructor; [lia|]. constructor; [lia|done]. Qed.

#[export] Instance codec_ok : StateCodecOk.
Proof.
  split.
  - intros s b [= <-]. rewrite !Forall_app. auto using put_bytes.
  - intros [st cv nonce rt] _ _ _. do 2 eexists. split; [reflexivity|]. cbn.
    repeat (rewrite get_put; cbn). rewrite <- (app_nil_r (put_text rt)), get_put. done.
Qed.

Definition Parse (s : string) : option URL :=
  if HasPrefix s "/" then Some (mkURL "" "" "" false) else Example7.Parse s.
Definition nonce : string := b64_encode [3; 4; 5].
Definition claims : Claims :=
  <["sub"%string := CStr "ann"]> (<["nonce"%string := CStr nonce]> Example7.claims).
Definition json_claims (b : list Z) : option Claims := if decide (b = [2]) then Some claims else None.
Definition net : network := Example7.net [Example7.key].
Definition cfg : Config := mkConfig "oidc" "" "".
Definition handler : LoginHandler := mkLoginHandler cfg (7 * 24 * 3600 * 1000000000) true.

Definition request (tls : bool) (path : string) (cookies : gmap string string) (q : Query) : LoginRequest :=
  mkLoginRequest (mkRequest "GET" path ∅ cookies None None None None None) tls q None.
Definition query (l : list (string * string)) : Query := λ k, default EmptyString (list_to_map (M := gmap string string) l !! k).

Definition started (tls : bool) (returnTo : string) := OIDCStart Example7.sha256 Parse true net (Some [1; 2], Some [9; 8; 7], Some [3; 4; 5])
  (request tls "/api/v1/auth/oidc/start" ∅ (query [("return_to"%string, returnTo)])) Example7.configured (mkWorld ex_db 0).
Definition cookie (tls : bool) (returnTo : string) : Cookie :=
  default ClearOIDCStateCookie (head (lr_SetCookie (started tls returnTo).1)).
(** What a browser keeps: a cookie marked secure is dropped unless it came
    over TLS (RFC 6265bis), one with a negative age deletes. *)
Definition keep (tls : bool) (jar : gmap string string) (c : Cookie) : gmap string string :=
  if ck_Secure c && negb tls then jar
  else if ck_MaxAge c <? 0 then delete (ck_Name c) jar else <[ck_Name c := ck_Value c]> jar.
Definition jar (tls : bool) (returnTo : string) : gmap string string := foldl (keep tls) ∅ (lr_SetCookie (started tls returnTo).1).
Definition back (tls : bool) (returnTo : string) : LoginRequest :=
  request tls "/api/v1/auth/oidc/callback" (jar tls returnTo) (query [("state"%string, b64_encode [1; 2]); ("code"%string, "code"%string)]).
Definition finished (tls : bool) (returnTo : string) :=
  OIDCCallback Example7.sha256 Parse Example7.rsa_verify Example7.json_header json_claims handler true net
    (Some [171; 205]) (back tls returnTo) (started tls returnTo).2.1 (started tls returnTo).2.2.

Definition reply_of (r : result LoginReply) : LoginReply := match r with Ok x => x | Err _ => login_error 0 "" [] end.

(** A callback that reports an error of the provider leaves the state cookie in
    the browser. *)
Example failed_callback_keeps_state : ∀ tls,
  let r := request tls "/api/v1/auth/oidc/callback" (jar true "/") (query [("error"%string, "access_denied"%string)]) in
  let x := (OIDCCallback Example7.sha256 Parse Example7.rsa_verify Example7.json_header json_claims handler true net
    (Some [171; 205]) r (started true "/").2.1 (started true "/").2.2).1 in
  lr_Status (reply_of x) = 400 ∧ foldl (keep tls) (jar true "/") (lr_SetCookie (reply_of x)) = jar true "/".
Proof. intros []; split; vm_compute; reflexivity. Qed.

Lemma oidc_flow_completes_witness :
  lr_Status (started true "/ui/#/runs").1 = 302 ∧
  ∃ c' w3, finished true "/ui/#/runs" =
    (Ok (mkLoginReply 302 "" NoBody (Some "/ui/#/runs"%string) [ClearOIDCStateCookie; c']), ((started true "/ui/#/runs").2.1, w3)).
Proof.
  destruct (oidc_flow_completes Example7.sha256 (λ _ _, false) (λ _, true) true Parse Example7.rsa_verify Example7.json_header json_claims
    net (Some [1; 2], Some [9; 8; 7], Some [3; 4; 5]) (request true "/api/v1/auth/oidc/start" ∅ (query [("return_to"%string, "/ui/#/runs"%string)]))
    Example7.configured (mkWorld ex_db 0) (started true "/ui/#/runs").1 (started true "/ui/#/runs").2.1 (started true "/ui/#/runs").2.2)
    as (a & b & c & ck & doc & params & Hr & Hck & _ & _ & _ & _ & _ & _ & _ & _ & _ & _ & _ & H);
    [vm_compute; reflexivity..|].
  injection Hr as <- <- <-. split; [vm_compute; reflexivity|].
  assert (ck = cookie true "/ui/#/runs") as -> by (revert Hck; unfold cookie; intros ->; reflexivity).
  destruct (H handler net (Some [171; 205]) (back true "/ui/#/runs") (started true "/ui/#/runs").2.1 (started true "/ui/#/runs").2.2
    Example7.token claims (started true "/ui/#/runs").2.1 "abcd"%string) as (rt & c' & w3 & Hrt & Hcb & _); [vm_compute; try reflexivity; try discriminate..|].
  - repeat split; try reflexivity; discriminate.
  - exists c', w3. rewrite (Hrt eq_refl) in Hcb. exact Hcb.
Defined.

Definition login_request : LoginRequest :=
  mkLoginRequest (mkRequest "POST" "/api/v1/auth/login" ∅ ∅ None None None None None) false (λ _, EmptyString)
    (Some (mkLoginReq "ann" "pw")).
Definition basic : LoginHandler := mkLoginHandler ex_cfg (60 * 1000000000) true.

(** Ann logs in, and a request with her cookie passes as hers. *)
Lemma login_session_witness :
  ∃ id c w1, Login (λ _, []) ex_bcrypt basic (Some [171; 205]) login_request (mkWorld ex_db 0) =
    (Ok (mkLoginReply 200 "" (LoggedIn 61000) None [c]), w1) ∧
  admitted (λ _, []) ex_bcrypt (λ _, true) true ex_cfg "ann"
    (mkRequest "GET" "/api/v1/projects" ∅ {[ SessionCookieName := id ]} None None None None None) w1.
Proof.
  destruct (login_session (λ _, []) ex_bcrypt (λ _, true) true basic (Some [171; 205]) login_request (mkWorld ex_db 0))
    as [(req & id & c & w1 & Hb & Hv & Hid & Hl & Hc & Hs & Hh)|(status & code & w1 & H & _)]; [reflexivity..| |].
  - injection Hb as <-. exists id, c, w1. split; [exact Hl|]. destruct Hid as [[= <-] _].
    assert (w_tick w1 = 3%nat) as Ht by (revert Hl; vm_compute; intros [= _ <-]; reflexivity).
    eapply (Hh [] (mkRequest _ _ _ {[ SessionCookieName := EncodeToString [171; 205] ]} _ _ _ _ _)); [by constructor|reflexivity..|].
    cbn [foldl]. rewrite Ht. vm_compute. discriminate.
  - exfalso. eapply (H (mkLoginReq "ann" "pw") "abcd"%string); [reflexivity..|]. by split_and!.
Defined.

(** The provider answers with a token of Ann's and the callback logs her in. *)
Lemma oidc_login_verified_witness :
  let p := foldl (exec_provider Parse Example7.sha256 Example7.rsa_verify Example7.json_header json_claims)
    (NewProvider "https://idp.example" "litemlflow" "shh" "https://ours/callback" []) [] in
  ∃ token p' id c w1,
    OIDCCallback Example7.sha256 Parse Example7.rsa_verify Example7.json_header json_claims handler true net
      (Some [171; 205]) (back true "/ui/") p (mkWorld ex_db 0) =
      (Ok (mkLoginReply 302 "" NoBody (Some "/ui/"%string) [ClearOIDCStateCookie; c]), (p', w1)) ∧
    token_verified Example7.sha256 Example7.rsa_verify Example7.json_header json_claims 1 p' token claims ∧
    session_holds Example7.sha256 (λ _ _, false) (λ _, true) true cfg handler id "ann" 604801010 w1.
Proof.
  intros p.
  destruct (oidc_login_verified Example7.sha256 (λ _ _, false) (λ _, true) true Parse Example7.rsa_verify Example7.json_header json_claims
    "https://idp.example" "litemlflow" "shh" "https://ours/callback" [] [] handler net (Some [171; 205]) (back true "/ui/") (mkWorld ex_db 0))
    as [(st & token & cl & p' & id & c & w1 & (_ & Hst & _ & _ & Hx & _) & Hcb & Hv & _ & _ & _ & _ & _ & Hh)|(status & code & p' & w1 & H & _)];
    [reflexivity..| |].
  - assert (st = mkPKCEState (b64_encode [1; 2]) (b64_encode [9; 8; 7]) nonce "/ui/") as -> by (revert Hst; vm_compute; congruence).
    assert (cl = claims) as ->.
    { pose proof (f_equal fst Hx) as E. cbn [fst ps_CodeVerifier ps_Nonce] in E.
      assert ((exec_exchange Parse Example7.sha256 Example7.rsa_verify Example7.json_header json_claims net (clock 0) "code"
        (b64_encode [9; 8; 7]) nonce Example7.configured).1 = OOk (Example7.token, claims)) as E' by (vm_compute; reflexivity).
      assert (OOk (token, cl) = OOk (Example7.token, claims)) as E2 by (rewrite <- E, <- E'; reflexivity). by injection E2. }
    exists token, p', id, c, w1. split; [exact Hcb|]. split; [exact Hv|exact Hh].
  - exfalso. eapply H. split_and!; [vm_compute; reflexivity..|discriminate|vm_compute; reflexivity|].
    split_and!; [vm_compute; reflexivity|discriminate|vm_compute; reflexivity].
Defined.

(** The check of [return_to] is made before the redirection cleans the path:
    the text that passes stays on the site, the [Location] made of it does not. *)
Example return_to_leaves :
  safeReturnTo "/./\evil.example" = "/./\evil.example"%string ∧ stays_on_site "/./\evil.example" = true ∧
  lr_Location (reply_of (finished true "/./\evil.example").1) = Some "/\evil.example"%string ∧
  stays_on_site "/\evil.example" = false.
Proof. vm_compute. by split_and!. Qed.

(** Over plain HTTP the cookie that should clear the state of the login is
    marked secure, and the browser keeps the state; over TLS it is cleared. *)
Example state_cookie_survives :
  foldl (keep false) (jar false "/ui/") (lr_SetCookie (reply_of (finished false "/ui/").1)) !! OIDCStateCookieName =
    jar false "/ui/" !! OIDCStateCookieName ∧
  is_Some (jar false "/ui/" !! OIDCStateCookieName) ∧
  foldl (keep true) (jar true "/ui/") (lr_SetCookie (reply_of (finished true "/ui/").1)) !! OIDCStateCookieName = None.
Proof. vm_compute. split_and!; [done|by eexists|done]. Qed.
End Example12.
