(* ===== verification/Migrations.v ===== *)
(** * The migration runner (internal/migrations/embed.go)

    The scripts are parsed and put in order, applied one transaction each with
    foreign keys off, and recorded in [schema_migrations]; the newest one can be
    rolled back, guarded by a look at the tables its script drops.  The
    database is a parameter: what a script does to it, how many rows violate a
    foreign key, how many rows a table has; every statement may fail. *)

From S2P Require Import Prelude GoStrings Database.
From Stdlib Require Import Ascii.

Open Scope Z_scope.

(** ** The scripts *)

Record Migration := mkMigration { mg_Version : Z; mg_Name : string; mg_Up : string; mg_Down : string }.

Definition newline : string := String "010"%char EmptyString.

(** One line: the mode and the lines of both parts, newest first. *)
Definition split_line (st : bool * list string * list string) (l : string) : bool * list string * list string :=
  let '(down, ups, downs) := st in
  let trimmed := TrimSpace l in
  if decide (trimmed = "-- UP"%string) then (false, ups, downs)
  else if decide (trimmed = "-- DOWN"%string) then (true, ups, downs)
  else if down then (down, ups, l :: downs) else (down, l :: ups, downs).

Definition splitUpDown (body : string) : string * string :=
  let '(_, ups, downs) := foldl split_line (false, [], []) (Split1 "010" body) in
  (TrimSpace (Join newline (reverse ups)), TrimSpace (Join newline (reverse downs))).

(** A directory entry: name, whether it is a directory, content. *)
Record Entry := mkEntry { en_Name : string; en_IsDir : bool; en_Body : string }.

Definition load_entry (e : Entry) : option (option Migration) :=
  if en_IsDir e || negb (HasSuffix (en_Name e) ".sql") then Some None else
  '(num, rest) ← Cut (en_Name e) "_";
  version ← ParseInt num;
  let '(up, down) := splitUpDown (en_Body e) in
  Some (Some (mkMigration version (TrimSuffix rest ".sql") up down)).

Fixpoint load_entries (es : list Entry) : option (list Migration) :=
  match es with
  | [] => Some []
  | e :: es' => m ← load_entry e; l ← load_entries es'; Some (match m with Some m => m :: l | None => l end)
  end.

Fixpoint contiguous (from : Z) (l : list Migration) : bool :=
  match l with
  | [] => true
  | m :: l' => bool_decide (mg_Version m = from) && contiguous (from + 1) l'
  end.

Definition version_le (a b : Migration) : Prop := mg_Version a ≤ mg_Version b.
#[export] Instance version_le_dec a b : Decision (version_le a b) := Z_le_dec _ _.

Definition Load (files : list Entry) : option (list Migration) :=
  out ← load_entries files;
  let out := merge_sort version_le out in
  if contiguous 1 out then Some out else None.

(** ** Tables a script drops *)

Definition drop_table : string := "DROP TABLE".

Fixpoint IndexAny (s chars : string) : option nat :=
  match s with
  | EmptyString => None
  | String c s' => if any_byte (λ d, bool_decide (c = d)) chars then Some O else S <$> IndexAny s' chars
  end.

Definition ident_quotes : string := String "034"%char "`'".
Definition after_ident : string := String " " (String "009" (String "010" "(")).

Definition dropped_table (line : string) : option string :=
  let s := TrimSpace line in
  if negb (HasPrefix (ToUpper s) drop_table) then None else
  let s := TrimSpace (sdrop (slen drop_table) s) in
  let s := TrimPrefix s "IF EXISTS " in
  let s := TrimPrefix s "if exists " in
  let s := TrimSpace s in
  let s := match IndexAny s after_ident with Some i => stake i s | None => s end in
  let s := Trim s ident_quotes in
  if decide (s = EmptyString) then None else Some s.

Definition extractDroppedTables (downSQL : string) : list string := omap dropped_table (Split1 ";" downSQL).

Definition double_quote (c : ascii) : string :=
  if decide (c = "034"%char) then String c (String c EmptyString) else String c EmptyString.

Fixpoint double_quotes (s : string) : string :=
  match s with EmptyString => EmptyString | String c s' => double_quote c +:+ double_quotes s' end.

Definition quoteIdent (name : string) : string :=
  String "034" (double_quotes name +:+ String "034" EmptyString).

(** ** The database *)

(** What the runner relies on of SQLite.  [run_script] is the effect of a
    script on the tables other than [schema_migrations]; [table_rows] is
    [SELECT COUNT( * )] of a quoted name, [None] when there is no such table. *)
Class Sqlite := {
  Tables : Type;
  run_script : string → Tables → option Tables;
  violations : Tables → Z;
  table_rows : string → Tables → option Z;
  (** Whether the [n]-th call of the driver fails. *)
  driver_fails : nat → bool }.

(** The tables, the rows of [schema_migrations] ([None]: no such table), the
    idle connections of the pool (whether foreign keys are enforced on each),
    and the calls made. *)
Record SqlServer `{Sqlite} := mkSqlServer {
  sv_tables : Tables; sv_applied : option (gmap Z (string * Z)); sv_pool : list bool; sv_calls : nat }.
Arguments mkSqlServer {_}.

Section runner.
Context `{Clock} `{Sqlite}.

Definition MG (A : Type) : Type := SqlServer → option A * SqlServer.
#[local] Instance MG_ret : MRet MG := λ A a s, (Some a, s).
#[local] Instance MG_bind : MBind MG := λ A B k m s,
  match m s with (Some a, s') => k a s' | (None, s') => (None, s') end.

Definition mg_fail {A} : MG A := λ s, (None, s).

(** A call of the driver: it fails and does nothing, or does [f]. *)
Definition driver {A} (f : SqlServer → option A * SqlServer) : MG A := λ s,
  let s' := mkSqlServer (sv_tables s) (sv_applied s) (sv_pool s) (S (sv_calls s)) in
  if driver_fails (sv_calls s) then (None, s') else f s'.

Definition set_applied (m : gmap Z (string * Z)) (s : SqlServer) : SqlServer := mkSqlServer (sv_tables s) (Some m) (sv_pool s) (sv_calls s).
Definition set_pool (l : list bool) (s : SqlServer) : SqlServer := mkSqlServer (sv_tables s) (sv_applied s) l (sv_calls s).

(** The rows of [schema_migrations]. *)
Definition applied (s : SqlServer) : gmap Z (string * Z) := default ∅ (sv_applied s).

Definition EnsureSchemaTable : MG unit := driver (λ s, (Some tt, set_applied (applied s) s)).

Definition CurrentVersion : MG Z :=
  _ ← EnsureSchemaTable;
  driver (λ s, (match sv_applied s with Some m => Some (default 0 (sql_max (map_to_list m).*1)) | None => None end, s)).

(** [db.Conn]: an idle connection, or a new one, which the DSN opens with
    foreign keys enforced. *)
Definition Conn : MG bool := driver (λ s,
  match sv_pool s with fk :: l => (Some fk, set_pool l s) | [] => (Some true, s) end).

(** [conn.Close]: the connection goes back to the pool. *)
Definition Close (fk : bool) (s : SqlServer) : SqlServer := set_pool (fk :: sv_pool s) s.

(** The deferred function that enforces the keys again, and drops the
    connection when that fails. *)
Definition restore_keys (s : SqlServer) : SqlServer :=
  match driver (λ s, (Some tt, s)) s with
  | (Some _, s') => Close true s'
  | (None, s') => s'
  end.

Definition countFKViolations : MG Z := driver (λ s, (Some (violations (sv_tables s)), s)).

Definition exec_script (script : string) : MG unit := driver (λ s,
  match run_script script (sv_tables s) with
  | Some t => (Some tt, mkSqlServer t (sv_applied s) (sv_pool s) (sv_calls s))
  | None => (None, s)
  end).

(** The bookkeeping statements. *)
Inductive bookkeeping := InsertVersion (version : Z) (name : string) (applied_at : Z) | DeleteVersion (version : Z).

Definition exec_bookkeeping (b : bookkeeping) : MG unit := driver (λ s,
  match b, sv_applied s with
  | _, None => (None, s)
  | InsertVersion v name at_, Some m =>
      if decide (is_Some (m !! v)) then (None, s) else (Some tt, set_applied (<[v := (name, at_)]> m) s)
  | DeleteVersion v, Some m => (Some tt, set_applied (delete v m) s)
  end).

(** What the transaction of [runScript] does; a failure rolls back. *)
Definition script_tx (script : string) (b : bookkeeping) : MG unit :=
  before ← countFKViolations;
  _ ← exec_script script;
  after ← countFKViolations;
  if before <? after then mg_fail else
  _ ← exec_bookkeeping b;
  driver (λ s, (Some tt, s)).

Definition in_tx {A} (m : MG A) : MG A := λ s,
  match driver (λ s, (Some tt, s)) s with
  | (None, s') => (None, s')
  | (Some _, s') =>
      match m s' with
      | (Some a, s'') => (Some a, s'')
      | (None, s'') => (None, mkSqlServer (sv_tables s') (sv_applied s') (sv_pool s') (sv_calls s''))
      end
  end.

(** On a connection: the keys are switched off, the transaction is run, and
    the keys are switched on again. *)
Definition on_conn (fk : bool) (m : MG unit) : MG unit := λ s,
  match driver (λ s, (Some tt, s)) s with
  | (None, s') => (None, Close fk s')
  | (Some _, s') => let '(r, s'') := in_tx m s' in (r, restore_keys s'')
  end.

Definition runScript (script : string) (b : bookkeeping) : MG unit :=
  fk ← Conn; on_conn fk (script_tx script b).

Definition applyOne (m : Migration) : MG unit := λ s,
  runScript (mg_Up m) (InsertVersion (mg_Version m) (mg_Name m) (clock (sv_calls s))) s.

Fixpoint apply_pending (cur : Z) (l : list Migration) : MG unit :=
  match l with
  | [] => mret tt
  | m :: l' => if mg_Version m <=? cur then apply_pending cur l' else _ ← applyOne m; apply_pending cur l'
  end.

Context (files : list Entry).

Definition Apply : MG unit :=
  _ ← EnsureSchemaTable;
  match Load files with
  | None => mg_fail
  | Some all =>
      cur ← CurrentVersion;
      let highest := foldl (λ h m, if h <? mg_Version m then mg_Version m else h) 0 all in
      if highest <? cur then mg_fail else apply_pending cur all
  end.

(** The guard of a rollback: a table that is missing is no hazard. *)
Fixpoint guard_tables (tables : list string) : MG unit :=
  match tables with
  | [] => mret tt
  | t :: tables' => λ s,
      match driver (λ s, (table_rows (quoteIdent t) (sv_tables s), s)) s with
      | (Some n, s') => if 0 <? n then (None, s') else guard_tables tables' s'
      | (None, s') => guard_tables tables' s'
      end
  end.

Definition rollbackImpl (force : bool) : MG unit :=
  match Load files with
  | None => mg_fail
  | Some all =>
      cur ← CurrentVersion;
      if decide (cur = 0) then mg_fail else
      match List.find (λ m, bool_decide (mg_Version m = cur)) all with
      | None => mg_fail
      | Some target =>
          if decide (mg_Down target = EmptyString) then mg_fail else
          _ ← (if force then mret tt else guard_tables (extractDroppedTables (mg_Down target)));
          runScript (mg_Down target) (DeleteVersion cur)
      end
  end.

Definition Rollback : MG unit := rollbackImpl false.
Definition RollbackForce : MG unit := rollbackImpl true.
End runner.

(** * Laws *)

Section laws.
Context `{Clock} `{Sqlite}.

Definition bump (s : SqlServer) : SqlServer := mkSqlServer (sv_tables s) (sv_applied s) (sv_pool s) (S (sv_calls s)).

(** The same data, whatever calls were made. *)
Definition same_data (s s' : SqlServer) : Prop := sv_tables s' = sv_tables s ∧ sv_applied s' = sv_applied s.

Definition keys_on (s : SqlServer) : Prop := Forall (λ fk, fk = true) (sv_pool s).

Definition reliable : Prop := ∀ n, driver_fails n = false.

Lemma driver_cases {A} (f : SqlServer → option A * SqlServer) s :
  driver f s = f (bump s) ∨ (¬ reliable ∧ driver f s = (None, bump s)).
Proof. unfold driver, reliable. destruct (driver_fails (sv_calls s)) eqn:E; [right|by left]. split; [|done]. intros Hr. by rewrite Hr in E. Qed.

(** The effect of a bookkeeping statement. *)
Definition book (b : bookkeeping) (m : option (gmap Z (string * Z))) : option (option (gmap Z (string * Z))) :=
  m ← m;
  match b with
  | InsertVersion v name at_ => if decide (is_Some (m !! v)) then None else Some (Some (<[v := (name, at_)]> m))
  | DeleteVersion v => Some (Some (delete v m))
  end.

(** What a script makes of the tables, when it breaks no key. *)
Definition script_ok (script : string) (t t' : Tables) : Prop :=
  run_script script t = Some t' ∧ violations t' ≤ violations t.

Lemma script_tx_spec script b s :
  match script_tx script b s with
  | (Some _, s') => script_ok script (sv_tables s) (sv_tables s') ∧ book b (sv_applied s) = Some (sv_applied s') ∧
                    sv_pool s' = sv_pool s
  | (None, s') => ¬ (reliable ∧ (∃ t', script_ok script (sv_tables s) t') ∧ is_Some (book b (sv_applied s)))
  end.
Proof.
  unfold script_tx, mbind, MG_bind, countFKViolations, exec_script, exec_bookkeeping, script_ok.
  edestruct (driver_cases (A := Z)) as [-> |[Hr ->]]; [|tauto]. cbn [bump sv_tables].
  edestruct (driver_cases (A := unit)) as [-> |[Hr ->]]; [|tauto]. cbn [bump sv_tables].
  destruct (run_script script (sv_tables s)) as [t|] eqn:Et; [|intros (_ & (t' & Hx & _) & _); congruence].
  edestruct (driver_cases (A := Z)) as [-> |[Hr ->]]; [|tauto]. cbn [bump sv_tables sv_applied sv_pool sv_calls].
  destruct (Z.ltb_spec (violations (sv_tables s)) (violations t)) as [Hlt|Hle].
  { unfold mg_fail. intros (_ & (t' & [= <-] & ?) & _). lia. }
  edestruct (driver_cases (A := unit)) as [-> |[Hr ->]]; [|tauto]. cbn [bump sv_tables sv_applied sv_pool sv_calls].
  unfold book. destruct (sv_applied s) as [m|]; [|destruct b; intros (_ & _ & [? ?]); done]. cbn [mbind option_bind].
  destruct b as [v name at_|v]; [case_decide; [intros (_ & _ & [? ?]); done|]|];
    (edestruct (driver_cases (A := unit)) as [-> |[Hr ->]]; [by cbn|tauto]).
Qed.

Lemma runScript_spec script b s :
  keys_on s →
  let '(r, s') := runScript script b s in
  keys_on s' ∧
  match r with
  | Some _ => script_ok script (sv_tables s) (sv_tables s') ∧ book b (sv_applied s) = Some (sv_applied s')
  | None => same_data s s' ∧ ¬ (reliable ∧ (∃ t', script_ok script (sv_tables s) t') ∧ is_Some (book b (sv_applied s)))
  end.
Proof.
  intros Hk. unfold runScript, mbind, MG_bind, Conn.
  edestruct (driver_cases (A := bool)) as [-> |[Hr ->]]; [|by split; [|split; [|tauto]]].
  assert (∃ fk l, (fk :: l = sv_pool s ∨ fk = true ∧ l = sv_pool s) ∧
    match sv_pool (bump s) with fk :: l => (Some fk, set_pool l (bump s)) | [] => (Some true, bump s) end =
    (Some fk, set_pool l (bump s))) as (fk & l & Hfk & ->).
  { cbn [bump sv_pool]. destruct (sv_pool s) as [|fk l] eqn:E; [exists true, []|exists fk, l]; (split; [auto|]); [|done].
    unfold set_pool, bump. cbn. by rewrite E. }
  assert (fk = true ∧ Forall (λ fk, fk = true) l) as [-> Hl].
  { unfold keys_on in Hk. destruct Hfk as [Hfk|[-> ->]]; [rewrite <- Hfk in Hk; by apply Forall_cons in Hk|done]. }
  unfold on_conn. edestruct (driver_cases (A := unit)) as [-> |[Hr ->]].
  2:{ split; [by constructor|]. split; [done|tauto]. }
  cbn [bump]. unfold in_tx. edestruct (driver_cases (A := unit)) as [-> |[Hr ->]].
  - match goal with |- context [script_tx script b ?x] => pose proof (script_tx_spec script b x) as Hs; destruct (script_tx script b x) as [[u|] s'] end;
      unfold restore_keys; (edestruct (driver_cases (A := unit)) as [-> |[Hr ->]]); cbn [bump sv_pool set_pool sv_tables sv_applied] in *.
    + destruct Hs as (H1 & H2 & H3). cbn in *. split; [unfold keys_on; cbn; rewrite H3; by constructor|done].
    + destruct Hs as (H1 & H2 & H3). cbn in *. split; [unfold keys_on; cbn; by rewrite H3|done].
    + split; [by constructor|done].
    + split; [done|done].
  - unfold restore_keys; (edestruct (driver_cases (A := unit)) as [-> |[Hr' ->]]); cbn.
    + split; [by constructor|]. split; [done|tauto].
    + split; [done|]. split; [done|tauto].
Qed.

(** ** The version of the database *)

Context (files : list Entry) (all : list Migration) (Hload : Load files = Some all).

Lemma contiguous_lookup from l i m : contiguous from l = true → l !! i = Some m → mg_Version m = from + Z.of_nat i.
Proof.
  revert from i. induction l as [|x l IH]; intros from i; [done|]. cbn [contiguous].
  intros [Hv%bool_decide_eq_true Hl]%andb_prop. destruct i as [|i]; cbn; [intros [= ->]; lia|]. intros Hi. rewrite (IH _ _ Hl Hi). lia.
Qed.

Lemma contiguous_highest from l :
  contiguous from l = true → foldl (λ h m, if h <? mg_Version m then mg_Version m else h) (from - 1) l = from - 1 + Z.of_nat (length l).
Proof.
  revert from. induction l as [|x l IH]; intros from; [cbn; lia|]. cbn [contiguous foldl length].
  intros [->%bool_decide_eq_true Hl]%andb_prop. rewrite (proj2 (Z.ltb_lt _ _)) by lia.
  pose proof (IH _ Hl) as E. replace (from + 1 - 1) with from in E by lia. rewrite E. lia.
Qed.

Lemma load_contiguous : contiguous 1 all = true.
Proof. unfold Load in Hload. destruct (load_entries files) as [l|]; [|done]. cbn in Hload. by destruct (contiguous 1 _) eqn:E; simplify_eq. Qed.

Lemma load_version i m : all !! i = Some m → mg_Version m = 1 + Z.of_nat i.
Proof. apply contiguous_lookup, load_contiguous. Qed.

(** The tables that [k] migrations make of [t0], with any rollbacks on the
    way. *)
Inductive migrated (t0 : Tables) : nat → Tables → Prop :=
  | migrated_init : migrated t0 O t0
  | migrated_up k m t t' : migrated t0 k t → all !! k = Some m → script_ok (mg_Up m) t t' → migrated t0 (S k) t'
  | migrated_down k m t t' : migrated t0 (S k) t → all !! k = Some m → script_ok (mg_Down m) t t' → migrated t0 k t'.

(** No migration leaves a foreign key violated that was not before. *)
Lemma migrated_keys t0 k t : migrated t0 k t → violations t ≤ violations t0.
Proof. induction 1 as [|k m t t' _ IH _ [_ ?]|k m t t' _ IH _ [_ ?]]; lia. Qed.

Record at_version (t0 : Tables) (k : nat) (s : SqlServer) : Prop := {
  av_keys : keys_on s;
  av_bound : (k ≤ length all)%nat;
  av_rows v : is_Some (applied s !! v) ↔ 1 ≤ v ≤ Z.of_nat k;
  av_names i m row : all !! i = Some m → applied s !! (1 + Z.of_nat i) = Some row → row.1 = mg_Name m;
  av_tables : migrated t0 k (sv_tables s) }.

Lemma at_version_same t0 k s s' :
  at_version t0 k s → keys_on s' → sv_tables s' = sv_tables s → applied s' = applied s → at_version t0 k s'.
Proof. intros [H1 H2 H3 H4 H5] Hk Ht Ha. split; rewrite ?Ha, ?Ht; done. Qed.

Lemma EnsureSchemaTable_spec s :
  let '(r, s') := EnsureSchemaTable s in
  sv_tables s' = sv_tables s ∧ applied s' = applied s ∧ sv_pool s' = sv_pool s ∧
  match r with Some _ => sv_applied s' = Some (applied s) | None => ¬ reliable end.
Proof. unfold EnsureSchemaTable. destruct (driver_cases (λ s, (Some tt, set_applied (applied s) s)) s) as [-> |[? ->]]; done. Qed.

Lemma max_applied t0 k s : at_version t0 k s → default 0 (sql_max (map_to_list (applied s)).*1) = Z.of_nat k.
Proof.
  intros [_ _ Hrows _ _]. destruct (sql_max _) as [v|] eqn:E; cbn.
  - apply sql_max_Some in E as [Hin Hmax]. apply list_elem_of_fmap in Hin as ([v' row] & -> & Hin%elem_of_map_to_list).
    cbn in *. assert (1 ≤ v' ≤ Z.of_nat k) by (apply Hrows; by eexists).
    assert (is_Some (applied s !! Z.of_nat k)) as [row' Hk] by (apply Hrows; lia).
    assert (Z.of_nat k ≤ v'); [|lia]. apply Hmax, list_elem_of_fmap. exists (Z.of_nat k, row'). split; [done|]. by apply elem_of_map_to_list.
  - apply sql_max_None in E. apply fmap_nil_inv, map_to_list_empty_iff in E.
    destruct k as [|k]; [done|]. assert (is_Some (applied s !! 1)) as [row Hr] by (apply Hrows; lia). by rewrite E in Hr.
Qed.

Lemma CurrentVersion_spec t0 k s :
  at_version t0 k s →
  let '(r, s') := CurrentVersion s in
  sv_tables s' = sv_tables s ∧ applied s' = applied s ∧ at_version t0 k s' ∧
  match r with Some v => v = Z.of_nat k ∧ sv_applied s' = Some (applied s) | None => ¬ reliable end.
Proof.
  intros Hv. unfold CurrentVersion, mbind, MG_bind. pose proof (EnsureSchemaTable_spec s) as He.
  destruct (EnsureSchemaTable s) as [[u|] s1]; destruct He as (H1 & H2 & H3 & H4).
  2:{ split_and!; try done. eapply at_version_same; [done| |done..]. unfold keys_on. rewrite H3. apply Hv. }
  edestruct (driver_cases (A := Z)) as [-> |[Hr ->]]; cbn [bump sv_applied].
  - rewrite H4. cbn. split_and!; try done; [|by eapply max_applied].
    eapply at_version_same; [done| |done..]. unfold keys_on. cbn. rewrite H3. apply Hv.
  - split_and!; try done. eapply at_version_same; [done| |done..]. unfold keys_on. cbn. rewrite H3. apply Hv.
Qed.

Lemma applyOne_spec t0 k s m :
  at_version t0 k s → is_Some (sv_applied s) → all !! k = Some m →
  let '(r, s') := applyOne m s in
  is_Some (sv_applied s') ∧
  match r with
  | Some _ => at_version t0 (S k) s'
  | None => at_version t0 k s' ∧ same_data s s' ∧ ¬ (reliable ∧ ∃ t', script_ok (mg_Up m) (sv_tables s) t')
  end.
Proof.
  intros Hv [rows Hrows] Hm. pose proof (load_version k m Hm) as Hver. unfold applyOne.
  set (b := InsertVersion _ _ _). pose proof (runScript_spec (mg_Up m) b s (av_keys _ _ _ Hv)) as Hrun.
  destruct (runScript (mg_Up m) b s) as [r s']. destruct Hrun as [Hk Hr].
  assert (applied s = rows) as Ha by (unfold applied; by rewrite Hrows).
  assert (rows !! mg_Version m = None) as Hnew.
  { apply eq_None_not_Some. rewrite <- Ha. intros Hs. apply (av_rows _ _ _ Hv) in Hs. lia. }
  assert (book b (sv_applied s) = Some (Some (<[mg_Version m := (mg_Name m, clock (sv_calls s))]> rows))) as Hb.
  { rewrite Hrows. cbn. rewrite decide_False; [done|]. rewrite Hnew. by intros [? ?]. }
  destruct r as [u|].
  - destruct Hr as [Hok Hb']. rewrite Hb in Hb'. injection Hb' as Ha'. split; [by rewrite <- Ha'|].
    assert (applied s' = <[mg_Version m := (mg_Name m, clock (sv_calls s))]> (applied s)) as E by (unfold applied at 1; rewrite <- Ha'; cbn; by rewrite Ha).
    destruct Hv as [V1 V2 V3 V4 V5]. split; [done|apply lookup_lt_Some in Hm; lia| | |by eapply migrated_up].
    + intros v. rewrite E, lookup_insert_is_Some, V3. lia.
    + intros i m' row Hi. rewrite E. destruct (decide (i = k)) as [->|Hne].
      * rewrite Hver, lookup_insert_eq. intros [= <-]. cbn. congruence.
      * rewrite lookup_insert_ne by lia. by apply V4.
  - destruct Hr as [[E1 E2] Hno]. split; [by rewrite E2, Hrows|]. split_and!; [|done|].
    + eapply at_version_same; [done..|]. unfold applied. by rewrite E2.
    + intros [? ?]. apply Hno. split_and!; [done..|]. by rewrite Hb.
Qed.

(** Every script can be run from the tables it finds. *)
Definition scripts_run (t0 : Tables) : Prop :=
  ∀ j m t, all !! j = Some m → migrated t0 j t → ∃ t', script_ok (mg_Up m) t t'.

Lemma apply_pending_spec t0 cur j k s :
  at_version t0 k s → is_Some (sv_applied s) → k = (cur `max` j)%nat →
  let '(r, s') := apply_pending (Z.of_nat cur) (drop j all) s in
  ∃ k', (k ≤ k')%nat ∧ at_version t0 k' s' ∧ (k' = k → same_data s s') ∧
    match r with Some _ => k' = length all | None => ¬ (reliable ∧ scripts_run t0) end.
Proof.
  remember (drop j all) as l eqn:El. revert j k s El. induction l as [|m l IH]; intros j k s El Hv Ha Hk.
  - cbn. exists k. split_and!; [done..|]. pose proof (av_bound _ _ _ Hv). assert (length all ≤ j)%nat; [|lia].
    apply (f_equal length) in El. rewrite length_drop in El. cbn in El. lia.
  - assert (all !! j = Some m) as Hm by (rewrite <- (Nat.add_0_r j), <- lookup_drop, <- El; done).
    assert (l = drop (S j) all) as El' by (rewrite <- Nat.add_1_r, <- drop_drop, <- El; done).
    pose proof (load_version j m Hm) as Hver. cbn [apply_pending].
    destruct (Z.leb_spec (mg_Version m) (Z.of_nat cur)) as [Hle|Hgt].
    { apply (IH (S j) k s El' Hv Ha). lia. }
    assert (k = j) as -> by lia. unfold mbind, MG_bind.
    pose proof (applyOne_spec t0 j s m Hv Ha Hm) as H1. destruct (applyOne m s) as [[u|] s1]; destruct H1 as [Ha1 Hv1].
    + specialize (IH (S j) (S j) s1 El' Hv1 Ha1 ltac:(lia)). destruct (apply_pending _ l s1) as [r s'].
      destruct IH as (k' & ? & ? & ? & ?). exists k'. split_and!; [lia|done|lia|done].
    + destruct Hv1 as (Hv1 & Hs & Hno). exists j. split_and!; [done..|]. intros [? Hsc]. apply Hno. split; [done|].
      eapply Hsc; [done|]. apply Hv.
Qed.

Lemma Apply_spec t0 k s :
  at_version t0 k s →
  let '(r, s') := Apply files s in
  ∃ k', (k ≤ k')%nat ∧ at_version t0 k' s' ∧ (k' = k → sv_tables s' = sv_tables s ∧ applied s' = applied s) ∧
    match r with Some _ => k' = length all | None => ¬ (reliable ∧ scripts_run t0) end.
Proof.
  intros Hv. unfold Apply, mbind, MG_bind. pose proof (EnsureSchemaTable_spec s) as He.
  destruct (EnsureSchemaTable s) as [[u|] s1]; destruct He as (H1 & H2 & H3 & H4).
  all: assert (at_version t0 k s1) as Hv1 by (eapply at_version_same; [done| |done..]; unfold keys_on; rewrite H3; apply Hv).
  2:{ exists k. split_and!; [done..|tauto]. }
  rewrite Hload. pose proof (CurrentVersion_spec t0 k s1 Hv1) as Hc.
  destruct (CurrentVersion s1) as [[v|] s2]; destruct Hc as (C1 & C2 & C3 & C4); [|exists k; split_and!; [done|done|split; congruence|tauto]].
  destruct C4 as [-> C4]. change 0 with (1 - 1). rewrite (contiguous_highest 1) by apply load_contiguous.
  rewrite (proj2 (Z.ltb_ge _ _)) by (pose proof (av_bound _ _ _ Hv); lia).
  pose proof (apply_pending_spec t0 k O k s2 C3 ltac:(by rewrite C4) ltac:(lia)) as Hp. rewrite drop_0 in Hp.
  destruct (apply_pending (Z.of_nat k) all s2) as [r s']. destruct Hp as (k' & ? & ? & Hs & ?).
  exists k'. split_and!; [done..| |done]. intros E. destruct (Hs E) as [E1 E2]. split; [congruence|]. unfold applied at 1. rewrite E2. unfold applied in *. congruence.
Qed.

(** The tables the guard looked at are empty or missing, or the look failed. *)
Lemma guard_tables_spec tables s :
  let '(r, s') := guard_tables tables s in
  same_data s s' ∧ sv_pool s' = sv_pool s ∧
  (r = Some tt → reliable → ∀ t n, t ∈ tables → table_rows (quoteIdent t) (sv_tables s) = Some n → n ≤ 0).
Proof.
  revert s. induction tables as [|t tables IH]; intros s; cbn [guard_tables].
  { cbn. split_and!; [done..|]. intros _ _ t n Ht. by apply not_elem_of_nil in Ht. }
  edestruct (driver_cases (A := Z)) as [-> |[Hr ->]]; cbn [bump sv_tables].
  - destruct (table_rows (quoteIdent t) (sv_tables s)) as [n|] eqn:En.
    + destruct (Z.ltb_spec 0 n); [by split_and!|]. specialize (IH (bump s)). unfold bump in IH. cbn [sv_tables sv_applied sv_pool] in IH.
      destruct (guard_tables tables _) as [r s']. destruct IH as (G1 & G2 & G3). split_and!; [done..|].
      intros Hr Hrel t' n' Ht' Hn'. apply elem_of_cons in Ht' as [->|Ht']; [|by eapply G3]. assert (n' = n) as -> by congruence. lia.
    + specialize (IH (bump s)). unfold bump in IH. cbn [sv_tables sv_applied sv_pool] in IH.
      destruct (guard_tables tables _) as [r s']. destruct IH as (G1 & G2 & G3). split_and!; [done..|].
      intros Hr Hrel t' n' Ht' Hn'. apply elem_of_cons in Ht' as [->|Ht']; [|by eapply G3]. congruence.
  - specialize (IH (bump s)). unfold bump in IH. cbn [sv_tables sv_applied sv_pool] in IH. destruct (guard_tables tables _) as [r s'].
    destruct IH as (G1 & G2 & G3). split_and!; [done..|]. tauto.
Qed.

(** What a completed rollback was. *)
Definition rolled_back (t0 : Tables) (force : bool) (k : nat) (s s' : SqlServer) : Prop :=
  ∃ j m, k = S j ∧ all !! j = Some m ∧ mg_Down m ≠ EmptyString ∧ at_version t0 j s' ∧
    script_ok (mg_Down m) (sv_tables s) (sv_tables s') ∧
    (force = false → reliable → ∀ t n, t ∈ extractDroppedTables (mg_Down m) →
       table_rows (quoteIdent t) (sv_tables s) = Some n → n ≤ 0).

Lemma find_version k : (k ≤ length all)%nat → k ≠ O →
  ∃ m, List.find (λ m, bool_decide (mg_Version m = Z.of_nat k)) all = Some m ∧ all !! (pred k) = Some m.
Proof.
  intros Hk Hk0. destruct (lookup_lt_is_Some_2 all (pred k)) as [m Hm]; [lia|]. exists m. split; [|done].
  destruct (List.find _ all) as [m'|] eqn:E.
  - apply find_some in E as [Hin%list_elem_of_In Hv%bool_decide_eq_true]. apply list_elem_of_lookup in Hin as [i Hi].
    pose proof (load_version i m' Hi). assert (i = pred k) as -> by lia. congruence.
  - apply find_none with (x := m) in E; [|by eapply list_elem_of_In, list_elem_of_lookup_2].
    apply bool_decide_eq_false in E. pose proof (load_version _ m Hm). lia.
Qed.

Lemma down_spec t0 k s m :
  at_version t0 (S k) s → is_Some (sv_applied s) → all !! k = Some m →
  let '(r, s') := runScript (mg_Down m) (DeleteVersion (Z.of_nat (S k))) s in
  match r with
  | Some _ => at_version t0 k s' ∧ script_ok (mg_Down m) (sv_tables s) (sv_tables s')
  | None => at_version t0 (S k) s' ∧ same_data s s'
  end.
Proof.
  intros Hv [rows Hrows] Hm. set (b := DeleteVersion _). pose proof (runScript_spec (mg_Down m) b s (av_keys _ _ _ Hv)) as Hrun.
  destruct (runScript (mg_Down m) b s) as [r s']. destruct Hrun as [Hk Hr]. destruct r as [u|].
  - destruct Hr as [Hok Hb]. split; [|done]. rewrite Hrows in Hb. cbn in Hb. injection Hb as Hb.
    assert (applied s' = delete (Z.of_nat (S k)) (applied s)) as E by (unfold applied; by rewrite <- Hb, Hrows).
    destruct Hv as [V1 V2 V3 V4 V5]. split; [done|lia| | |by eapply migrated_down].
    + intros v. rewrite E, lookup_delete_is_Some, V3. lia.
    + intros i m' row Hi. rewrite E. intros [_ Hrow]%lookup_delete_Some. by eapply V4.
  - destruct Hr as [[E1 E2] _]. split; [|done]. eapply at_version_same; [done..|]. unfold applied. by rewrite E2.
Qed.

Lemma rollbackImpl_spec t0 force k s :
  at_version t0 k s →
  let '(r, s') := rollbackImpl files force s in
  match r with
  | Some _ => rolled_back t0 force k s s'
  | None => at_version t0 k s' ∧ sv_tables s' = sv_tables s ∧ applied s' = applied s
  end.
Proof.
  intros Hv. unfold rollbackImpl, mbind, MG_bind. rewrite Hload.
  pose proof (CurrentVersion_spec t0 k s Hv) as Hc. destruct (CurrentVersion s) as [[v|] s1]; destruct Hc as (C1 & C2 & C3 & C4); [|done].
  destruct C4 as [-> C4]. case_decide as Hk0; [by split_and!|].
  destruct (find_version k) as (m & -> & Hm); [apply Hv|lia|]. case_decide as Hd; [by split_and!|].
  destruct k as [|k]; [done|]. cbn in Hm.
  assert (∃ r2 s2, (if force then mret tt else guard_tables (extractDroppedTables (mg_Down m))) s1 = (r2, s2) ∧
    same_data s1 s2 ∧ sv_pool s2 = sv_pool s1 ∧
    (r2 = Some tt → force = false → reliable → ∀ t n, t ∈ extractDroppedTables (mg_Down m) → table_rows (quoteIdent t) (sv_tables s1) = Some n → n ≤ 0))
    as (r2 & s2 & -> & [D1 D2] & Dp & Dg).
  { destruct force; [by exists (Some tt), s1|]. pose proof (guard_tables_spec (extractDroppedTables (mg_Down m)) s1) as Hg.
    destruct (guard_tables _ s1) as [r2 s2]. exists r2, s2. destruct Hg as (? & ? & Hg). split_and!; try done. intros Hr2 _. by apply Hg. }
  assert (at_version t0 (S k) s2) as Hv2.
  { eapply at_version_same; [exact C3|unfold keys_on; rewrite Dp; apply C3|done|]. unfold applied. by rewrite D2. }
  assert (applied s2 = applied s) as Ha2 by (rewrite <- C2; unfold applied; by rewrite D2).
  destruct r2 as [[]|]; [|split_and!; [done|congruence|done]].
  pose proof (down_spec t0 k s2 m Hv2 ltac:(by rewrite D2, C4) Hm) as Hs.
  destruct (runScript _ _ s2) as [[u|] s']; destruct Hs as [S1 S2].
  - exists k, m. rewrite C1 in D1, Dg. rewrite D1 in S2. split_and!; try done. by apply Dg.
  - destruct S2 as [E1 E2]. split_and!; [done|congruence|]. rewrite <- Ha2. unfold applied. by rewrite E2.
Qed.

(** ** Histories *)

Inductive mig_op := OpApply | OpRollback | OpRollbackForce.

Definition exec_mig (s : SqlServer) (o : mig_op) : SqlServer :=
  match o with
  | OpApply => (Apply files s).2
  | OpRollback => (Rollback files s).2
  | OpRollbackForce => (RollbackForce files s).2
  end.

Lemma exec_mig_spec t0 k s o : at_version t0 k s → ∃ k', at_version t0 k' (exec_mig s o).
Proof.
  intros Hv. destruct o; cbn.
  - pose proof (Apply_spec t0 k s Hv) as Ha. destruct (Apply files s) as [r s']. destruct Ha as (k' & _ & ? & _). by exists k'.
  - pose proof (rollbackImpl_spec t0 false k s Hv) as Hr. unfold Rollback. destruct (rollbackImpl files false s) as [[u|] s'];
      [destruct Hr as (j & m & _ & _ & _ & ? & _); by exists j|exists k; apply Hr].
  - pose proof (rollbackImpl_spec t0 true k s Hv) as Hr. unfold RollbackForce. destruct (rollbackImpl files true s) as [[u|] s'];
      [destruct Hr as (j & m & _ & _ & _ & ? & _); by exists j|exists k; apply Hr].
Qed.

Lemma history_version t0 ops s k : at_version t0 k s → ∃ k', at_version t0 k' (foldl exec_mig s ops).
Proof. revert s k. induction ops as [|o ops IH]; intros s k Hv; cbn; [by exists k|]. destruct (exec_mig_spec t0 k s o Hv) as [k' Hk']. eauto. Qed.
End laws.

(** C23: the database is always at a version.  Whatever calls of Apply,
    Rollback and RollbackForce were made on a database that had no migration
    applied, and whatever calls of the driver failed, the recorded versions are
    1 to some [k] under the names of the scripts, the tables are what those [k]
    scripts make of the first ones (rollbacks included), no foreign key is
    violated that was not at first, and every pooled connection enforces
    foreign keys.  From there Apply only goes forward; it succeeds if and only
    if it reaches the last version, certainly so when the driver does not fail
    and the scripts run, and at the last version it changes nothing.  A
    rollback undoes the newest migration or changes nothing, and an unforced
    one finds the tables it drops empty, if the driver does not fail. *)
Theorem migrations_versioned `{Clock} `{Sqlite} files all t0 pool calls ops :
  Load files = Some all → Forall (λ fk, fk = true) pool →
  let s := foldl (exec_mig files) (mkSqlServer t0 None pool calls) ops in
  ∃ k, at_version all t0 k s ∧ violations (sv_tables s) ≤ violations t0 ∧
    (let '(r, s') := Apply files s in
     ∃ k', (k ≤ k')%nat ∧ at_version all t0 k' s' ∧ (k' = k → sv_tables s' = sv_tables s ∧ applied s' = applied s) ∧
       (r = Some tt → k' = length all) ∧ (reliable → scripts_run all t0 → r = Some tt)) ∧
    (∀ force, let '(r, s') := rollbackImpl files force s in
       match r with
       | Some _ => rolled_back all t0 force k s s'
       | None => at_version all t0 k s' ∧ sv_tables s' = sv_tables s ∧ applied s' = applied s
       end).
Proof.
  intros Hload Hpool. cbv zeta. destruct (history_version files all Hload t0 ops (mkSqlServer t0 None pool calls) O) as [k Hk].
  { split; [done|lia| |done|constructor]. intros v. cbn. rewrite lookup_empty. split; [by intros [? ?]|lia]. }
  exists k. split_and!; [done|eapply migrated_keys, Hk| |intros force; by apply rollbackImpl_spec].
  pose proof (Apply_spec files all Hload t0 k _ Hk) as Ha. destruct (Apply files _) as [r s'].
  destruct Ha as (k' & ? & ? & ? & Hr). exists k'. split_and!; [done..| |].
  - by intros ->.
  - intros. destruct r as [[]|]; [done|]. by destruct Hr.
Qed.

(** * Witness and gaps *)

Module Example13.
(** Two scripts, two tables; the [n]-th call of the driver fails when [fails]
    says so. *)
Definition create (t : string) : string := "CREATE TABLE " +:+ t.
Definition drop_ (t : string) : string := "DROP TABLE IF EXISTS " +:+ t.
Definition commented (t : string) : string := "-- undo" +:+ newline +:+ "DROP TABLE " +:+ t.

Definition script (s : string) (t : gmap string Z) : option (gmap string Z) :=
  if decide (s = create "runs") then Some (<["runs"%string := 0]> t)
  else if decide (s = create "notes") then Some (<["notes"%string := 0]> t)
  else if decide (s = drop_ "runs") then Some (delete "runs"%string t)
  else if decide (s = drop_ "notes" ∨ s = commented "notes") then Some (delete "notes"%string t) else None.

Definition sqlite (fails : nat → bool) : Sqlite := {|
  Tables := gmap string Z; run_script := script; violations := λ _, 0;
  table_rows q t := foldr (λ p r, if decide (quoteIdent p.1 = q) then Some p.2 else r) None (map_to_list t);
  driver_fails := fails |}.

Definition script_file (name up down : string) : Entry :=
  mkEntry name false ("-- UP" +:+ newline +:+ up +:+ newline +:+ "-- DOWN" +:+ newline +:+ down +:+ newline).
Definition files (down : string) : list Entry :=
  [script_file "001_runs.sql" (create "runs") (drop_ "runs"); mkEntry "baseline" true "";
   script_file "002_notes.sql" (create "notes") down].

#[local] Instance clock0 : Clock := λ n, Z.of_nat n.

(** A database with both migrations applied and rows in [notes]. *)
Definition busy (fails : nat → bool) : @SqlServer (sqlite fails) :=
  @mkSqlServer (sqlite fails) (list_to_map [("runs"%string, 5); ("notes"%string, 7)] : gmap string Z)
    (Some (list_to_map [(1, ("runs"%string, 3)); (2, ("notes"%string, 4))])) [true] O.

Lemma migrations_versioned_witness :
  let Sq := sqlite (λ n, bool_decide (n = 10%nat)) in
  let s := foldl (exec_mig (files (drop_ "notes"))) (mkSqlServer (∅ : gmap string Z) None [true] O) [OpApply; OpApply; OpRollback] in
  ∃ all k, Load (files (drop_ "notes")) = Some all ∧ at_version all (∅ : gmap string Z) k s ∧ k = 1%nat ∧ length all = 2%nat.
Proof.
  intros Sq s. assert (∃ all, Load (files (drop_ "notes")) = Some all ∧ length all = 2%nat) as (all & Hl & Hlen)
    by (eexists; split; [vm_compute; reflexivity|reflexivity]).
  destruct (migrations_versioned (H0 := Sq) (files (drop_ "notes")) all (∅ : gmap string Z) [true] O [OpApply; OpApply; OpRollback] Hl
    (Forall_cons_2 _ _ _ eq_refl (Forall_nil_2 _))) as (k & Hk & _).
  exists all, k. split_and!; [exact Hl|exact Hk| |exact Hlen].
  assert (1 ≤ 1 ≤ Z.of_nat k) as H1 by (apply (av_rows _ _ _ _ Hk); vm_compute; by eexists).
  assert (¬ 1 ≤ 2 ≤ Z.of_nat k) as H2 by (rewrite <- (av_rows _ _ _ _ Hk); vm_compute; by intros [? ?]).
  lia.
Defined.

(** The guard refuses to drop a table with rows. *)
Example guard_refuses :
  (Rollback (H0 := sqlite (λ _, false)) (files (drop_ "notes")) (busy (λ _, false))).1 = None.
Proof. vm_compute. reflexivity. Qed.

(** It takes a count that fails for whatever reason as "no such table". *)
Example failed_count_passes :
  let fails := λ n, bool_decide (n = 2%nat) in
  (Rollback (H0 := sqlite fails) (files (drop_ "notes")) (busy fails)).1 = Some tt.
Proof. vm_compute. reflexivity. Qed.

(** It does not see a [DROP TABLE] that follows a comment. *)
Example commented_drop_passes :
  extractDroppedTables (commented "notes") = [] ∧
  (Rollback (H0 := sqlite (λ _, false)) (files (commented "notes")) (busy (λ _, false))).1 = Some tt.
Proof. vm_compute. done. Qed.
End Example13.
