(* ===== verification/Grpc.v ===== *)
(** * The OTLP receiver over gRPC (internal/grpcotlp, internal/server/grpc_auth.go)

    The trace service [Export] with its authentication interceptor and its
    workspace check, and the two things its comments promise: that it lets
    through the same callers as the HTTP API, and that it stores the same spans
    as the OTLP endpoint over HTTP. *)

From S2P Require Import Prelude GoStrings Model Float64 Database Runs Sample RunData Workspaces Sessions Access MlflowApi NativeApi.
From Stdlib Require Import Ascii DecimalString DecimalPos.

Open Scope Z_scope.

(** ** The protobuf messages

    A list of pointers may hold nil; the wire format never produces it, the
    code looks for it where the model has an option.  [VOther] is an array, a
    key-value list or bytes, by its text. *)
Inductive AnyValue := VString (s : string) | VInt (n : Z) | VDouble (x : float64) | VBool (b : bool) | VOther (repr : string).
Record KeyValue := mkKeyValue { kv_Key : string; kv_Value : AnyValue }.
Record ProtoSpan := mkProtoSpan {
  gs_TraceId : list Z; gs_SpanId : list Z; gs_ParentSpanId : list Z; gs_Name : string; gs_Kind : Z;
  gs_StartTimeUnixNano : Z; gs_EndTimeUnixNano : Z; gs_Attributes : list (option KeyValue);
  gs_Status : option (Z * string) }.
Record ProtoResourceSpans := mkProtoResourceSpans {
  gr_Resource : option (list (option KeyValue)); gr_ScopeSpans : list (list (option ProtoSpan)) }.

Definition bytesToHex (b : list Z) : string := EncodeToString b.

Fixpoint protoAttrString (attrs : list (option KeyValue)) (key : string) : string :=
  match attrs with
  | [] => EmptyString
  | Some (mkKeyValue k (VString s)) :: attrs' => if decide (k = key) then s else protoAttrString attrs' key
  | _ :: attrs' => protoAttrString attrs' key
  end.

Definition proto_value (v : AnyValue) : attrValue :=
  match v with
  | VString s => AttrString s
  | VInt n => AttrInt n
  | VDouble x => AttrDouble x
  | VBool b => AttrBool b
  | VOther repr => AttrString repr
  end.

Definition protoAttrMap (attrs : list (option KeyValue)) : gmap string attrValue :=
  foldl (λ m kv, match kv with Some kv => <[kv_Key kv := proto_value (kv_Value kv)]> m | None => m end) ∅ attrs.

(** [strconv.FormatFloat] of a value that is not finite. *)
Definition finite_attr (v : attrValue) : attrValue :=
  match v with
  | AttrDouble FNaN => AttrString "NaN"
  | AttrDouble (FInf false) => AttrString "+Inf"
  | AttrDouble (FInf true) => AttrString "-Inf"
  | _ => v
  end.

Definition protoKindToString (k : Z) : string :=
  match k with
  | 1 => "INTERNAL" | 2 => "SERVER" | 3 => "CLIENT" | 4 => "PRODUCER" | 5 => "CONSUMER" | _ => ""
  end%string.

Definition protoStatusToString (s : option (Z * string)) : string :=
  match s with Some (1, _) => "OK" | Some (2, _) => "ERROR" | _ => "UNSET" end%string.

Definition protoStatusMessage (s : option (Z * string)) : string :=
  match s with Some (_, message) => message | None => EmptyString end.

(** ** Calls *)

Inductive Code := OK | InvalidArgument | NotFound | PermissionDenied | Unauthenticated | Internal.

(** The first value of the [authorization] and [x-workspace] metadata. *)
Record Metadata := mkMetadata { md_authorization : option string; md_workspace : option string }.

Definition Authenticator : Type := string → M (option string).
(** [None]: allowed. *)
Definition Authorizer : Type := string → string → M (option Code).

Definition workspaceFromContext (md : Metadata) : string :=
  match md_workspace md with Some v => if decide (v = EmptyString) then "default"%string else v | None => "default" end.

Section export.
(** [json.Marshal] of an attribute map. *)
Context (marshal_attrs : gmap string attrValue → option string).

Definition marshalAttrs (attrs : gmap string attrValue) : string :=
  if decide (attrs = ∅) then EmptyString else
  match marshal_attrs (finite_attr <$> attrs) with
  | None => EmptyString
  | Some b => if decide (b = "{}"%string) then EmptyString else b
  end.

(** [int64(x)] of a [uint64] keeps the bits. *)
Definition proto_span (runID : string) (sp : ProtoSpan) : Span :=
  mkSpan (bytesToHex (gs_SpanId sp)) (bytesToHex (gs_TraceId sp))
    (if decide (gs_ParentSpanId sp = []) then EmptyString else bytesToHex (gs_ParentSpanId sp)) runID (gs_Name sp)
    (protoKindToString (gs_Kind sp)) (wrap64 (gs_StartTimeUnixNano sp))
    (if 0 <? gs_EndTimeUnixNano sp then Some (wrap64 (gs_EndTimeUnixNano sp)) else None)
    (marshalAttrs (protoAttrMap (gs_Attributes sp))) EmptyString
    (protoStatusToString (gs_Status sp)) (protoStatusMessage (gs_Status sp)).

Definition proto_spans (req : list ProtoResourceSpans) : list Span :=
  concat ((λ rs,
    let runID := match gr_Resource rs with Some attrs => protoAttrString attrs "litemlflow.run_id" | None => EmptyString end in
    omap (fmap (proto_span runID)) (concat (gr_ScopeSpans rs))) <$> req).

(** The runs the spans name, each looked up once. *)
Fixpoint check_runs (ws : string) (seen : gset string) (spans : list Span) : M Code :=
  match spans with
  | [] => mret OK
  | sp :: spans' =>
      if decide (span_RunID sp = EmptyString ∨ span_RunID sp ∈ seen) then check_runs ws seen spans'
      else r ← attempt (GetRunInWorkspace (span_RunID sp) ws);
           match r with
           | Ok _ => check_runs ws ({[span_RunID sp]} ∪ seen) spans'
           | Err ErrNotFound => mret NotFound
           | Err _ => mret Internal
           end
  end.

(** The part after the checks of the caller. *)
Definition ingest (newIDs : nat → string) (ws : string) (req : list ProtoResourceSpans) : M Code :=
  let spans := proto_spans req in
  c ← check_runs ws ∅ spans;
  match c with
  | OK => if decide (spans = []) then mret OK else
          r ← attempt (InsertSpans (imap (λ i sp, (newIDs i, sp)) spans));
          mret (match r with Ok _ => OK | Err _ => Internal end)
  | _ => mret c
  end.

Definition Export (authz : option Authorizer) (newIDs : nat → string) (md : Metadata) (user : string)
    (req : option (list ProtoResourceSpans)) : M Code :=
  match req with
  | None => mret InvalidArgument
  | Some req =>
      let ws := workspaceFromContext md in
      known ← (if decide (ws = "default"%string) then mret OK else
               r ← attempt (GetWorkspace ws);
               mret (match r with Ok _ => OK | Err ErrNotFound => InvalidArgument | Err _ => Internal end));
      match known with
      | OK =>
          allowed ← match authz with None => mret None | Some authz => authz ws user end;
          match allowed with
          | Some code => mret code
          | None => ingest newIDs ws req
          end
      | _ => mret known
      end
  end.
End export.

(** ** The hooks of the server *)

Section hooks.
Context `{Clock}.
Context (sha256 : string → list Z) (bcrypt_ok : string → string → bool).
(** [base64.StdEncoding.DecodeString]. *)
Context (b64_std : string → option string).

Definition authInterceptor (authn : Authenticator) (md : Metadata) (handler : string → M Code) : M Code :=
  let authz := default EmptyString (md_authorization md) in
  if decide (authz = EmptyString) then mret Unauthenticated else
  user ← authn authz;
  match user with
  | None => mret Unauthenticated
  | Some user => if decide (user = EmptyString) then mret Unauthenticated else handler user
  end.

Definition basic_credentials (cred : string) : option (string * string) := raw ← b64_std cred; Cut raw ":".

Definition grpcAuthenticator (cfg : Config) : Authenticator := λ authorization,
  match Cut (TrimSpace authorization) " " with
  | None => mret None
  | Some (scheme, cred) =>
      let cred := TrimSpace cred in
      if decide (cred = EmptyString) then mret None
      else if decide (ToLower scheme = "bearer"%string) then
        sess ← attempt (GetSession cred);
        mret (match sess with Ok s => Some (sess_UserID s) | Err _ => None end)
      else if decide (ToLower scheme = "basic"%string) then
        if decide (cfg_Auth cfg ≠ "basic"%string) then mret None else
        mret ('(user, pass) ← basic_credentials cred;
              if VerifyBasicCredentials sha256 bcrypt_ok (cfg_BasicUser cfg) (cfg_BasicPassHash cfg) user pass
              then Some user else None)
      else mret None
  end.

Definition member_check (ws user : string) : M (option Code) :=
  role ← attempt (GetMemberRole ws user);
  mret (match role with
        | Err _ => Some PermissionDenied
        | Ok role => if negb (roleAtLeast role (requiredRole "POST" "/v1/traces")) then Some PermissionDenied else None
        end).

Definition grpcAuthorizer : Authorizer := λ ws user,
  if decide (ws = "default"%string) then
    members ← attempt (ListMembers ws);
    match members with
    | Err _ => mret (Some Internal)
    | Ok [] => mret None
    | Ok _ => member_check ws user
    end
  else member_check ws user.

(** [grpcOTLPOptions] and the server it configures. *)
Definition grpc_serve (cfg : Config) (marshal_attrs : gmap string attrValue → option string) (newIDs : nat → string)
    (md : Metadata) (req : option (list ProtoResourceSpans)) : M Code :=
  if decide (cfg_Auth cfg ∈ ["none"; ""]%string) then Export marshal_attrs None newIDs md EmptyString req
  else authInterceptor (grpcAuthenticator cfg) md (λ user, Export marshal_attrs (Some grpcAuthorizer) newIDs md user req).
End hooks.

(** * The same spans *)

(** ** Decimal texts of the JSON encoding *)

Lemma of_uint_acc_ge d acc : (acc ≤ Pos.of_uint_acc d acc)%positive.
Proof.
  revert acc. induction d as [|d IH|d IH|d IH|d IH|d IH|d IH|d IH|d IH|d IH|d IH]; intros acc; cbn [Pos.of_uint_acc]; [lia|..];
    (etransitivity; [|apply IH]); lia.
Qed.

Lemma scan_uint_acc d acc :
  Z.pos (Pos.of_uint_acc d acc) < 2 ^ 64 →
  scan_uint (Z.pos acc) (NilEmpty.string_of_uint d) = Some (Z.pos (Pos.of_uint_acc d acc)).
Proof.
  revert acc. induction d as [|d IH|d IH|d IH|d IH|d IH|d IH|d IH|d IH|d IH|d IH]; intros acc; [done|..];
    cbn [Pos.of_uint_acc NilEmpty.string_of_uint scan_uint]; intros Hlt; cbn [is_digit byte_in negb];
    match goal with |- context [Pos.of_uint_acc d ?a] => pose proof (of_uint_acc_ge d a); rewrite <- (IH a Hlt) end;
    (rewrite decide_False; [|cbn; lia]); cbn; f_equal; lia.
Qed.

Lemma scan_uint_digits d : Z.of_uint d < 2 ^ 64 → scan_uint 0 (NilEmpty.string_of_uint d) = Some (Z.of_uint d).
Proof.
  induction d as [|d IH|d _|d _|d _|d _|d _|d _|d _|d _|d _]; [done|exact IH|..]; intros Hlt;
    unfold Z.of_uint in *; cbn [Pos.of_uint Z.of_N] in *; pose proof (scan_uint_acc d _ Hlt) as E; rewrite <- E; reflexivity.
Qed.

Lemma ParseInt_value_FormatInt z : in_int64 z → ParseInt_value (FormatInt z) = z.
Proof.
  unfold in_int64, int64_min, int64_max. intros Hz. destruct z as [|p|p]; [done|..]; unfold FormatInt; cbn [Z.to_int NilZero.string_of_int];
    (assert (NilZero.string_of_uint (Pos.to_uint p) = NilEmpty.string_of_uint (Pos.to_uint p)) as ->
      by (pose proof (to_uint_nonnil p); by destruct (Pos.to_uint p)));
    assert (Z.of_uint (Pos.to_uint p) = Z.pos p) as Hp by (unfold Z.of_uint; by rewrite Unsigned.of_to);
    pose proof (scan_uint_digits (Pos.to_uint p)) as Hs; rewrite Hp in Hs; specialize (Hs ltac:(lia));
    pose proof (uint_string_nonempty _ (to_uint_nonnil p)) as Hne; unfold ParseInt_value.
  - set (s := NilEmpty.string_of_uint (Pos.to_uint p)) in *.
    assert (match s with String "-" s' => (true, s') | String "+" s' => (false, s') | _ => (false, s) end = (false, s)) as ->.
    { unfold s. by destruct (Pos.to_uint p). }
    rewrite decide_False, Hs by done. lia.
  - cbn [String.append]. rewrite decide_False, Hs by done. lia.
Qed.

(** ** The JSON encoding of a request *)

Definition kv_json (kv : KeyValue) : otlpKV :=
  match kv_Value kv with
  | VString s => mkOtlpKV (kv_Key kv) s "" (FFin 0) None
  | VInt n => mkOtlpKV (kv_Key kv) "" (FormatInt n) (FFin 0) None
  | VDouble x => mkOtlpKV (kv_Key kv) "" "" x None
  | VBool b => mkOtlpKV (kv_Key kv) "" "" (FFin 0) (Some b)
  | VOther _ => mkOtlpKV (kv_Key kv) "" "" (FFin 0) None
  end.

Definition attrs_json (l : list (option KeyValue)) : list otlpKV := kv_json <$> omap id l.

Definition span_json (sp : ProtoSpan) : otlpSpan :=
  mkOtlpSpan (bytesToHex (gs_TraceId sp)) (bytesToHex (gs_SpanId sp)) (bytesToHex (gs_ParentSpanId sp)) (gs_Name sp) (gs_Kind sp)
    (FormatInt (gs_StartTimeUnixNano sp)) (FormatInt (gs_EndTimeUnixNano sp)) (attrs_json (gs_Attributes sp))
    (match gs_Status sp with Some (c, _) => c | None => 0 end) (protoStatusMessage (gs_Status sp)).

Definition request_json (req : list ProtoResourceSpans) : list resourceSpans :=
  (λ rs : ProtoResourceSpans, mkResourceSpans (match gr_Resource rs with Some l => attrs_json l | None => [] end)
           ((λ l : list (option ProtoSpan), span_json <$> omap id l) <$> gr_ScopeSpans rs)) <$> req.

(** The values on which both transports agree: no empty string, no array,
    finite numbers, times of [int64]. *)
Definition plain_value (v : AnyValue) : Prop :=
  match v with
  | VString s => s ≠ EmptyString
  | VInt n => in_int64 n
  | VDouble x => match x with FFin _ => True | _ => False end
  | VBool _ => True
  | VOther _ => False
  end.
Definition plain_attrs (l : list (option KeyValue)) : Prop := Forall (λ kv, match kv with Some kv => plain_value (kv_Value kv) | None => True end) l.
Definition plain_span (sp : ProtoSpan) : Prop :=
  0 ≤ gs_StartTimeUnixNano sp < 2 ^ 63 ∧ 0 ≤ gs_EndTimeUnixNano sp < 2 ^ 63 ∧ plain_attrs (gs_Attributes sp).
Definition plain_request (req : list ProtoResourceSpans) : Prop :=
  Forall (λ rs, (match gr_Resource rs with Some l => plain_attrs l | None => True end) ∧
    Forall (Forall (λ sp, match sp with Some sp => plain_span sp | None => True end)) (gr_ScopeSpans rs)) req.

(** [json.Marshal] writes a map as an object. *)
Class MarshalOk (marshal_attrs : gmap string attrValue → option string) : Prop := {
  marshal_empty : marshal_attrs ∅ = Some "{}"%string;
  marshal_object m s : marshal_attrs m = Some s → s ≠ "null"%string ∧ s ≠ "[]"%string }.

Lemma attr_string_agree l key : plain_attrs l → otlpAttr (attrs_json l) key = protoAttrString l key.
Proof.
  unfold attrs_json, otlpAttr. induction 1 as [|[[k v]|] l Hv Hl IH]; [done| |done]. cbn [omap list_omap id fmap list_fmap].
  cbn [protoAttrString]. destruct v as [s|n|x|b|repr]; cbn [kv_json kv_Value kv_Key] in *; try done; cbn [list_find ok_Key ok_StringValue] in *.
  - case_decide as Hk.
    + destruct (decide (k = key)); [done|tauto].
    + destruct (decide (k = key)) as [->|]; [by destruct Hk|].
      rewrite <- IH. by destruct (list_find _ _) as [[i kv]|].
  - rewrite decide_False by tauto. rewrite <- IH. by destruct (list_find _ _) as [[i kv]|].
  - rewrite decide_False by tauto. rewrite <- IH. by destruct (list_find _ _) as [[i kv]|].
  - rewrite decide_False by tauto. rewrite <- IH. by destruct (list_find _ _) as [[i kv]|].
Qed.

Lemma value_agree kv : plain_value (kv_Value kv) → otlp_value (kv_json kv) = proto_value (kv_Value kv) ∧ ok_Key (kv_json kv) = kv_Key kv.
Proof.
  destruct kv as [k [s|n|x|b|repr]]; cbn; intros Hv; (split; [|done]); unfold otlp_value; cbn.
  - by rewrite decide_True.
  - rewrite (decide_False (P := "" ≠ ""%string)) by tauto. rewrite decide_True; [by rewrite ParseInt_value_FormatInt|]. intros E.
    pose proof (ParseInt_value_FormatInt n Hv) as Hn. rewrite E in Hn. cbn in Hn. by rewrite <- Hn in E.
  - done.
  - done.
  - done.
Qed.

Definition finite_map (m : gmap string attrValue) : Prop := map_Forall (λ _ v, finite_attr v = v) m.

Lemma attr_map_agree l : plain_attrs l → otlpAttrMap (attrs_json l) = protoAttrMap l ∧ finite_map (protoAttrMap l).
Proof.
  unfold otlpAttrMap, protoAttrMap, attrs_json. generalize (map_Forall_empty (λ (_ : string) v, finite_attr v = v)).
  generalize (∅ : gmap string attrValue). intros m Hm Hl. revert m Hm.
  induction Hl as [|[kv|] l Hv Hl IH]; intros m Hm; [done| |by apply IH]. cbn [omap list_omap id fmap list_fmap foldl].
  destruct (value_agree kv Hv) as [-> ->]. apply IH. apply map_Forall_insert_2; [|done].
  destruct kv as [k [s|n|x|b|repr]]; cbn in *; try done. by destruct x.
Qed.

Section transports.
Context (marshal_attrs : gmap string attrValue → option string) `{!MarshalOk marshal_attrs}.

Lemma span_agree runID sp : plain_span sp → otlp_span marshal_attrs runID (span_json sp) = proto_span marshal_attrs runID sp.
Proof.
  intros (Hs & He & Ha). unfold otlp_span, proto_span, span_json.
  cbn [os_TraceID os_SpanID os_ParentSpanID os_Name os_Kind os_StartTimeUnixNano os_EndTimeUnixNano os_Attributes os_StatusCode os_StatusMessage].
  destruct (attr_map_agree _ Ha) as [-> Hfin].
  assert (∀ z, 0 ≤ z < 2 ^ 63 → wrap64 z = z) as Hwrap by (intros z Hz; unfold wrap64; rewrite Z.mod_small; lia).
  assert (∀ z, 0 ≤ z < 2 ^ 63 → ParseInt_value (FormatInt z) = z) as Hparse by (intros z Hz; apply ParseInt_value_FormatInt; unfold in_int64, int64_min, int64_max; lia).
  f_equal.
  - by case_decide as E; [rewrite E|].
  - unfold parseUnixNano. by rewrite Hparse, Hwrap.
  - unfold parseUnixNanoPtr. case_decide as E.
    + assert (gs_EndTimeUnixNano sp = 0) as ->; [|done]. rewrite <- (Hparse _ He). rewrite !elem_of_cons, elem_of_nil in E.
      by destruct E as [-> |[-> |?]].
    + destruct (Z.ltb_spec 0 (gs_EndTimeUnixNano sp)); [by rewrite Hparse, Hwrap|]. exfalso. apply E.
      assert (gs_EndTimeUnixNano sp = 0) as -> by lia. cbn. set_solver.
  - unfold marshalAttrs, jsonOrEmpty. assert (finite_attr <$> protoAttrMap (gs_Attributes sp) = protoAttrMap (gs_Attributes sp)) as ->.
    { rewrite <- (map_fmap_id (protoAttrMap (gs_Attributes sp))) at 2. apply map_fmap_ext. intros i x Hx. by apply (Hfin i). }
    case_decide as Hm; [rewrite Hm, marshal_empty; done|].
    destruct (marshal_attrs (protoAttrMap (gs_Attributes sp))) as [b|] eqn:Eb; [|done].
    apply marshal_object in Eb as [H1 H2]. case_decide as Hb; case_decide as Hb'; try done; exfalso.
    + rewrite !elem_of_cons, elem_of_nil in Hb. naive_solver.
    + apply Hb. subst. set_solver.
  - destruct (gs_Status sp) as [[c msg]|]; [|done]. by destruct c as [|[]|].
Qed.

Lemma spans_agree req : plain_request req → otlp_spans marshal_attrs (request_json req) = proto_spans marshal_attrs req.
Proof.
  unfold otlp_spans, proto_spans, request_json. induction 1 as [|rs req [Hr Hs] _ IH]; [done|]. cbn [fmap list_fmap concat]. f_equal; [|exact IH].
  cbn [rs_Attributes rs_ScopeSpans].
  assert (otlpAttr (match gr_Resource rs with Some l => attrs_json l | None => [] end) "litemlflow.run_id" =
    match gr_Resource rs with Some attrs => protoAttrString attrs "litemlflow.run_id" | None => EmptyString end) as ->
    by (destruct (gr_Resource rs); [by apply attr_string_agree|done]).
  induction Hs as [|l ls Hl _ IHs]; [done|]. cbn [fmap list_fmap concat]. rewrite fmap_app, omap_app. f_equal; [|exact IHs].
  induction Hl as [|[sp|] l Hsp _ IHl]; [done| |exact IHl]. cbn. f_equal; [by apply span_agree|exact IHl].
Qed.
End transports.

Definition lookup_code (r : result unit) : Code :=
  match r with Ok _ => OK | Err ErrNotFound => NotFound | Err _ => Internal end.

Lemma check_runs_agree ws seen spans w :
  check_runs ws seen spans w =
    (Ok (lookup_code (ensureSpanRunsInWorkspace ws seen spans w).1), (ensureSpanRunsInWorkspace ws seen spans w).2).
Proof.
  revert seen w. induction spans as [|sp spans IH]; intros seen w; [done|]. cbn [check_runs ensureSpanRunsInWorkspace].
  case_decide; [apply IH|]. rewrite attempt_bind. unfold ensureRunInWorkspace, mbind, M_bind.
  destruct (GetRunInWorkspace (span_RunID sp) ws w) as [[run|e] w'] eqn:E; cbn [fst snd]; [apply IH|]. by destruct e.
Qed.

(** C26: the two OTLP receivers agree.  A request over gRPC whose attributes are
    not empty texts, arrays or infinite numbers and whose times fit [int64]
    stores, after its checks of the caller, exactly what the same request in
    the JSON encoding stores over HTTP: the spans decoded from it are the same,
    the database ends up the same, and one is answered with success when the
    other is. *)
Theorem otlp_transports_agree marshal_attrs newIDs ws req w :
  MarshalOk marshal_attrs → plain_request req →
  let http := Handler_IngestOTLP marshal_attrs newIDs ws (Some (request_json req)) w in
  let grpc := ingest marshal_attrs newIDs ws req w in
  otlp_spans marshal_attrs (request_json req) = proto_spans marshal_attrs req ∧ http.2 = grpc.2 ∧
  ∃ reply code, http.1 = Ok reply ∧ grpc.1 = Ok code ∧ (rp_Status reply = 200 ↔ code = OK).
Proof.
  intros Hm Hreq. cbv zeta. split; [by apply spans_agree|].
  unfold Handler_IngestOTLP, ingest, with_body. rewrite spans_agree by done. set (spans := proto_spans _ req).
  unfold on_store. rewrite (bind_Ok _ _ _ _ _ (check_runs_agree ws ∅ spans w)).
  destruct (ensureSpanRunsInWorkspace ws ∅ spans w) as [[u|e] w'] eqn:E; cbn [fst snd lookup_code].
  - case_decide as Hn.
    + rewrite Hn. cbn. split; [done|]. by do 2 eexists.
    + rewrite attempt_bind. destruct (InsertSpans _ w') as [[u'|e] w'']; cbn; (split; [done|]).
      * eexists _, OK. split_and!; [reflexivity..|]. done.
      * exists (writeStoreErr e), Internal. split_and!; [done..|]. by destruct e.
  - split; [by destruct e|]. exists (writeStoreErr e), (lookup_code (Err e)). split_and!; [done|by destruct e|]. by destruct e.
Qed.

(** * The same callers *)

Section policy.
Context `{Clock}.
Context (sha256 : string → list Z) (bcrypt_ok : string → string → bool) (b64_std : string → option string).

(** The HTTP request with the credentials and the workspace of the metadata: a
    bearer token is what the session cookie carries. *)
Definition http_credentials (authorization : string) : gmap string string * option (string * string) :=
  match Cut (TrimSpace authorization) " " with
  | None => (∅, None)
  | Some (scheme, cred) =>
      let cred := TrimSpace cred in
      if decide (cred = EmptyString) then (∅, None)
      else if decide (ToLower scheme = "bearer"%string) then ({[ SessionCookieName := cred ]}, None)
      else if decide (ToLower scheme = "basic"%string) then (∅, basic_credentials b64_std cred)
      else (∅, None)
  end.

Definition http_of (md : Metadata) : Request :=
  let '(cookies, basic) := http_credentials (default EmptyString (md_authorization md)) in
  mkRequest "POST" "/v1/traces" (match md_workspace md with Some v => {[ "X-Workspace"%string := v ]} | None => ∅ end)
    cookies basic None None None None.

Lemma authenticator_spec cfg md w :
  ∃ w1, w_db w1 = w_db w ∧ grpcAuthenticator sha256 bcrypt_ok b64_std cfg (default EmptyString (md_authorization md)) w =
    (Ok (identify sha256 bcrypt_ok cfg (http_of md) (w_db w) (clock (w_tick w))), w1).
Proof.
  unfold grpcAuthenticator, http_of, http_credentials, identify. set (a := default EmptyString (md_authorization md)).
  destruct (Cut (TrimSpace a) " ") as [[scheme cred]|]; [|exists w; split; [done|]; cbn; by case_decide].
  destruct (decide (TrimSpace cred = EmptyString)) as [Hc|Hc]; [exists w; split; [done|]; cbn; by case_decide|].
  destruct (decide (ToLower scheme = "bearer"%string)) as [Hb|Hb];
    [|destruct (decide (ToLower scheme = "basic"%string)) as [Hb'|Hb']; [|exists w; split; [done|]; cbn; by case_decide]].
  - rewrite attempt_bind. unfold GetSession, GetSessionID. cbn [rq_Cookie]. rewrite lookup_singleton_eq, get_bind. cbn [mbind option_bind].
    rewrite (decide_False (P := TrimSpace cred = _)) by done. cbn [rq_BasicAuth mbind option_bind].
    destruct (sessions (w_db w) !! TrimSpace cred) as [row|]; cbn [mbind option_bind fmap option_fmap option_map of_option].
    + rewrite lift_Ok_bind, now_bind. cbn [scan_session sess_ExpiresAt].
      destruct (decide (sr_expires_at row < clock (w_tick w))); (eexists; split; [|cbn; reflexivity || (case_decide; reflexivity)]); done.
    + exists w. split; [done|]. cbn. by case_decide.
  - exists w. split; [done|]. cbn. case_decide as Hauth; case_decide as Hauth'; try done.
Qed.

Lemma authorizer_spec ws user w :
  ∃ o, grpcAuthorizer ws user w = (Ok o, w) ∧
    match o with
    | None => ∃ role, authorized (w_db w) "POST" "/v1/traces" user ws role
    | Some code => code = PermissionDenied ∧ ∀ role, ¬ authorized (w_db w) "POST" "/v1/traces" user ws role
    end.
Proof.
  assert (own_route (w_db w) "/v1/traces" ws) as Hown by (by left).
  assert ((ws = "default"%string → has_members (w_db w) ws) → ∃ o, member_check ws user w = (Ok o, w) ∧
    match o with
    | None => ∃ role, authorized (w_db w) "POST" "/v1/traces" user ws role
    | Some code => code = PermissionDenied ∧ ∀ role, ¬ authorized (w_db w) "POST" "/v1/traces" user ws role
    end) as Hmem.
  { intros Hm. unfold member_check. rewrite attempt_bind. unfold GetMemberRole. rewrite get_bind.
    destruct (members (w_db w) !! (ws, user)) as [role|] eqn:Er; cbn [of_option lift fst snd].
    - eexists. split; [reflexivity|]. destruct (roleAtLeast role _) eqn:Ea; cbn [negb].
      + exists (Some role). by apply auth_member.
      + split; [done|]. intros r Hr.
        inversion Hr as [role' Ht1 Ht2 Hr1 Hr2|Ho Hd Hn|role' Ho Hd Hr1 Hr2]; [by destruct Ht1|by apply Hn, Hm|congruence].
    - eexists. split; [reflexivity|]. split; [done|]. intros r Hr.
        inversion Hr as [role' Ht1 Ht2 Hr1 Hr2|Ho Hd Hn|role' Ho Hd Hr1 Hr2]; [by destruct Ht1|by apply Hn, Hm|congruence]. }
  unfold grpcAuthorizer. case_decide as Hd; [|by apply Hmem].
  rewrite attempt_bind. destruct (ListMembers_eq ws w) as (l & -> & Hl). cbn [fst snd].
  destruct l as [|x l]; [|by apply Hmem]. exists None. split; [done|]. exists None. by apply auth_open.
Qed.

(** C25: gRPC lets through whom HTTP lets through.  With authentication on, an
    export over gRPC reaches the ingestion exactly when its credentials
    authenticate a user (who has a name) for the HTTP API, its workspace
    exists, and that user is authorized to POST /v1/traces there; then it is
    ingested in that workspace.  Otherwise it is refused and nothing changes. *)
Theorem grpc_policy cfg marshal_attrs newIDs md req w :
  cfg_Auth cfg ∉ ["none"; ""]%string →
  let d := w_db w in
  let ws := workspaceFromContext md in
  let caller := identify sha256 bcrypt_ok cfg (http_of md) d (clock (w_tick w)) in
  let reply := grpc_serve sha256 bcrypt_ok b64_std cfg marshal_attrs newIDs md (Some req) w in
  requested_workspace (http_of md) = ws ∧
  ((∃ user role w1, caller = Some user ∧ user ≠ EmptyString ∧ known_workspace d ws ∧
      authorized d "POST" "/v1/traces" user ws role ∧ w_db w1 = d ∧
      reply = ingest marshal_attrs newIDs ws req w1) ∨
   (∃ code w1, reply = (Ok code, w1) ∧ code ∈ [Unauthenticated; InvalidArgument; PermissionDenied] ∧ w_db w1 = d ∧
      ∀ user, caller = Some user → user ≠ EmptyString → known_workspace d ws →
        ∀ role, ¬ authorized d "POST" "/v1/traces" user ws role)).
Proof.
  intros Hcfg. cbv zeta. split.
  { unfold requested_workspace, workspaceFromContext, http_of, header.
    destruct (http_credentials _) as [ck basic] eqn:Ec. cbn [rq_Header rq_Cookie].
    assert (default EmptyString (ck !! "lmf_workspace"%string) = EmptyString) as Hck.
    { unfold http_credentials in Ec. destruct (Cut _ _) as [[? ?]|]; [repeat case_decide|]; injection Ec as <- <-; try done. }
    destruct (md_workspace md) as [v|]; [rewrite lookup_singleton_eq|rewrite lookup_empty]; cbn [default];
      rewrite Hck; unfold default_ws; repeat case_decide; done. }
  unfold grpc_serve. rewrite (decide_False (P := cfg_Auth cfg ∈ _)) by done. unfold authInterceptor.
  set (ws := workspaceFromContext md).
  destruct (authenticator_spec cfg md w) as (w1 & Hw1 & Ha). set (caller := identify _ _ _ _ _ _) in *.
  case_decide as He.
  { right. exists Unauthenticated, w. split_and!; [done|set_solver|done|]. intros user Hu. exfalso. revert Hu.
    unfold caller, identify, http_of, http_credentials. rewrite He. cbn. by case_decide. }
  rewrite (bind_Ok _ _ _ _ _ Ha). destruct caller as [user|];
    [|right; exists Unauthenticated, w1; split_and!; [done|set_solver|done|by intros ? [=]]].
  case_decide as Hu; [right; exists Unauthenticated, w1; split_and!; [done|set_solver|done|by intros ? [= <-]]|].
  unfold Export. fold ws. unfold known_workspace. rewrite <- Hw1.
  assert (∃ k, (if decide (ws = "default"%string) then mret OK else
      r ← attempt (GetWorkspace ws); mret (match r with Ok _ => OK | Err ErrNotFound => InvalidArgument | Err _ => Internal end)) w1 = (Ok k, w1) ∧
    ((k = OK ∧ known_workspace (w_db w1) ws) ∨ (k = InvalidArgument ∧ ¬ known_workspace (w_db w1) ws))) as (k & Hk & Hkn).
  { case_decide as Hd; [exists OK; split; [done|]; left; split; [done|by left]|].
    rewrite attempt_bind. unfold GetWorkspace. rewrite get_bind. unfold known_workspace.
    destruct (workspaces (w_db w1) !! ws) as [row|] eqn:Ew; cbn; eexists; (split; [reflexivity|]); [left|right]; (split; [done|]).
    - right. by eexists.
    - intros [?|[? ?]]; congruence. }
  rewrite (bind_Ok _ _ _ _ _ Hk). destruct Hkn as [[-> Hkn]|[-> Hkn]].
  2:{ right. exists InvalidArgument, w1. split_and!; [done|set_solver|done|]. intros ? [= <-] _ ?. done. }
  destruct (authorizer_spec ws user w1) as (o & Ho & Hz). rewrite (bind_Ok _ _ _ _ _ Ho). destruct o as [code|].
  - right. destruct Hz as [-> Hz]. exists PermissionDenied, w1. split_and!; [done|set_solver|done|]. by intros ? [= <-].
  - left. destruct Hz as [role Hz]. exists user, role, w1. by split_and!.
Qed.
End policy.

(** * Witnesses and gaps *)

Module Example14.
Definition marshal (m : gmap string attrValue) : option string :=
  if decide (m = ∅) then Some "{}"%string else Some ("{" +:+ FormatInt (Z.of_nat (size m)) +:+ " attributes}").

#[local] Instance marshal_ok : MarshalOk marshal.
Proof. split; [done|]. unfold marshal. intros m s. case_decide; intros [= <-]; done. Qed.

Definition span (attrs : list (option KeyValue)) : ProtoSpan :=
  mkProtoSpan [1; 171] [2; 205] [] "step" 2 1700000000000000000 1700000000500000000 attrs (Some (1, "fine"%string)).
Definition export (attrs : list (option KeyValue)) : list ProtoResourceSpans :=
  [mkProtoResourceSpans (Some [Some (mkKeyValue "litemlflow.run_id" (VString "r1"))]) [[Some (span attrs); None]]].
Definition attrs : list (option KeyValue) :=
  [Some (mkKeyValue "model" (VString "m")); Some (mkKeyValue "tokens" (VInt (-7))); None; Some (mkKeyValue "cached" (VBool false))].
Definition ids (n : nat) : string := FormatInt (Z.of_nat n).

Lemma otlp_transports_agree_witness :
  otlp_spans marshal (request_json (export attrs)) = proto_spans marshal (export attrs) ∧
  (Handler_IngestOTLP marshal ids "default" (Some (request_json (export attrs))) (mkWorld ex_db 0)).2 =
    (ingest marshal ids "default" (export attrs) (mkWorld ex_db 0)).2 ∧
  length (proto_spans marshal (export attrs)) = 1%nat.
Proof.
  destruct (otlp_transports_agree marshal ids "default" (export attrs) (mkWorld ex_db 0)) as (H1 & H2 & _).
  - exact marshal_ok.
  - repeat constructor; cbn; unfold in_int64, int64_min, int64_max; try lia; discriminate.
  - split; [exact H1|]. split; [exact H2|]. vm_compute. reflexivity.
Defined.

Definition b64_std (s : string) : option string := if decide (s = "YW5uOnB3"%string) then Some "ann:pw"%string else None.
Definition metadata : Metadata := mkMetadata (Some "Basic YW5uOnB3"%string) None.

(** Ann, a viewer, is let in and refused the write, as over HTTP. *)
Lemma grpc_policy_witness :
  ∃ code w1, grpc_serve (λ _, []) ex_bcrypt b64_std ex_cfg marshal ids metadata (Some (export attrs)) (mkWorld viewer_db 0) = (Ok code, w1) ∧
    code ∈ [Unauthenticated; InvalidArgument; PermissionDenied] ∧ w_db w1 = viewer_db.
Proof.
  destruct (grpc_policy (λ _, []) ex_bcrypt b64_std ex_cfg marshal ids metadata (export attrs) (mkWorld viewer_db 0))
    as [_ [(user & role & w1 & Hu & _ & _ & Hz & _)|(code & w1 & H1 & H2 & H3 & _)]].
  - intros H. apply (bool_decide_eq_true_2 _) in H. vm_compute in H. discriminate.
  - exfalso. assert (user = "ann"%string) as -> by (revert Hu; vm_compute; congruence).
    inversion Hz as [role' Ht1 Ht2 Hr1 Hr2|Ho Hd Hn|role' Ho Hd Hr1 Hr2].
    + by destruct Ht1.
    + apply Hn. exists "ann"%string, "viewer"%string. vm_compute. reflexivity.
    + assert (role' = "viewer"%string) as -> by (revert Hr1; vm_compute; congruence). revert Hr2. vm_compute. discriminate.
  - exists code, w1. split; [exact H1|]. split; [exact H2|exact H3].
Defined.

(** Over HTTP an attribute that is the empty text becomes the number 0; over
    gRPC it stays a text. *)
Example empty_text_becomes_zero :
  otlp_value (kv_json (mkKeyValue "user" (VString ""))) = AttrDouble (FFin 0) ∧ proto_value (VString "") = AttrString "".
Proof. done. Qed.

(** A time beyond [int64] is cut over HTTP and turns negative over gRPC. *)
Example late_time_differs :
  parseUnixNano (FormatInt (2 ^ 63 + 5)) = 2 ^ 63 - 1 ∧ wrap64 (2 ^ 63 + 5) = - 2 ^ 63 + 5.
Proof. done. Qed.
End Example14.
