(* ===== verification/RateLimit.v ===== *)
(** * The limiter of login attempts (internal/server/ratelimit.go)

    A token bucket per client address in [float64] arithmetic, swept of idle
    buckets, and the derivation of the client's address behind trusted
    proxies. *)

From S2P Require Import Prelude GoStrings Model Float64 Database Sessions Access.
From Stdlib Require Import Ascii.

Open Scope Z_scope.

(** ** Buckets

    Times are nanoseconds. *)

Record tokenBucket := mkTokenBucket { tb_tokens : float64; tb_last : Z }.

Definition second : Z := 10 ^ 9.
Definition minute : Z := 60 * second.

(** [time.Duration.Seconds]. *)
Definition Seconds (d : Z) : float64 := fadd (of_int (Z.quot d second)) (fdiv (of_int (Z.rem d second)) (of_int second)).

(** ** Client addresses

    An address of netip: 4 or 16 bytes and a zone. *)

Record Addr := mkAddr { ad_bytes : list Z; ad_zone : string }.
Record Prefix := mkPrefix { pf_bytes : list Z; pf_bits : Z }.

Definition is4 (ip : Addr) : bool := bool_decide (length (ad_bytes ip) = 4%nat).

Definition mapped_prefix : list Z := replicate 10 0 ++ [255; 255].

Definition Unmap (ip : Addr) : Addr :=
  if decide (length (ad_bytes ip) = 16%nat ∧ take 12 (ad_bytes ip) = mapped_prefix)
  then mkAddr (drop 12 (ad_bytes ip)) EmptyString else ip.

Definition WithoutZone (ip : Addr) : Addr := mkAddr (ad_bytes ip) EmptyString.

(** The number of the bytes, for comparing the leading bits. *)
Definition bytes_number (l : list Z) : Z := foldl (λ n x, n * 256 + x) 0 l.

(** [netip.Prefix.Contains] of an address without zone. *)
Definition prefix_Contains (p : Prefix) (ip : Addr) : bool :=
  bool_decide (length (pf_bytes p) = length (ad_bytes ip)) &&
  (let shift := 8 * Z.of_nat (length (ad_bytes ip)) - pf_bits p in
   Z.shiftr (bytes_number (pf_bytes p)) shift =? Z.shiftr (bytes_number (ad_bytes ip)) shift).

Definition isTrusted (trusted : list Prefix) (ip : Addr) : bool :=
  existsb (λ p, prefix_Contains p (WithoutZone (Unmap ip))) trusted.

(** What the limiter reads of a request. *)
Record AuthRequest := mkAuthRequest {
  ar_Method : string; ar_Path : string; ar_RemoteAddr : string;
  ar_ForwardedFor : list string; ar_RealIP : string }.

Section addresses.
(** [net.SplitHostPort] (the host), [netip.ParseAddr], and the texts of an
    address and of the masked prefix of 64 bits. *)
Context (SplitHostPort : string → option string) (ParseAddr : string → option Addr)
  (addr_String : list Z → string) (prefix64_String : list Z → string).

Definition ipKey (ip : Addr) : string :=
  let ip := WithoutZone (Unmap ip) in
  if is4 ip then addr_String (ad_bytes ip) else prefix64_String (take 8 (ad_bytes ip)).

Definition remote_host (r : AuthRequest) : string := default (ar_RemoteAddr r) (SplitHostPort (ar_RemoteAddr r)).

Definition clientIP (r : AuthRequest) : string :=
  match ParseAddr (remote_host r) with Some ip => ipKey ip | None => remote_host r end.

(** The loop over the hops, from the right: [None] falls through. *)
Fixpoint first_untrusted (trusted : list Prefix) (rev_hops : list string) : option string :=
  match rev_hops with
  | [] => None
  | h :: hops =>
      match ParseAddr (TrimSpace h) with
      | None => None
      | Some ip => if isTrusted trusted ip then first_untrusted trusted hops else Some (ipKey ip)
      end
  end.

Definition clientKey (trusted : list Prefix) (r : AuthRequest) : string :=
  if decide (trusted = []) then clientIP r else
  match ParseAddr (remote_host r) with
  | None => clientIP r
  | Some remote =>
      if negb (isTrusted trusted remote) then clientIP r
      else if decide (ar_ForwardedFor r ≠ []) then
        default (ipKey remote) (first_untrusted trusted (reverse (Split1 "," (Join "," (ar_ForwardedFor r)))))
      else match ParseAddr (TrimSpace (ar_RealIP r)) with
           | Some ip => ipKey ip
           | None => ipKey remote
           end
  end.
End addresses.

(** ** The limiter *)

Record authRateLimiter := mkAuthRateLimiter {
  rl_buckets : gmap string tokenBucket; rl_capacity : float64; rl_refill : float64; rl_lastSweep : option Z }.

Definition newAuthRateLimiter (capacity refillPerSec : float64) : authRateLimiter :=
  mkAuthRateLimiter ∅ capacity refillPerSec None.

Definition set_buckets (m : gmap string tokenBucket) (rl : authRateLimiter) : authRateLimiter :=
  mkAuthRateLimiter m (rl_capacity rl) (rl_refill rl) (rl_lastSweep rl).

(** [b.tokens + d.Seconds()*refill], the tokens a bucket would have. *)
Definition refilled (rl : authRateLimiter) (b : tokenBucket) (now : Z) : float64 :=
  fadd (tb_tokens b) (fmul (Seconds (now - tb_last b)) (rl_refill rl)).

(** The bucket is idle and full. *)
Definition evictable (rl : authRateLimiter) (now : Z) (b : tokenBucket) : bool :=
  (minute <? now - tb_last b) && negb (flt (refilled rl b now) (rl_capacity rl)).

(** [lastSweep] is the zero time at first, which is long ago. *)
Definition sweep (now : Z) (rl : authRateLimiter) : authRateLimiter :=
  let recent := match rl_lastSweep rl with Some t => now - t <? minute | None => false end in
  if recent then rl
  else mkAuthRateLimiter (filter (λ p, evictable rl now p.2 = false) (rl_buckets rl)) (rl_capacity rl) (rl_refill rl) (Some now).

(** The bucket of a key when it is used. *)
Definition current_bucket (rl : authRateLimiter) (now : Z) (b : option tokenBucket) : tokenBucket :=
  match b with
  | None => mkTokenBucket (rl_capacity rl) now
  | Some b => mkTokenBucket (fmin (rl_capacity rl) (refilled rl b now)) now
  end.

Definition one : float64 := of_int 1.

Definition allow (now : Z) (key : string) (rl : authRateLimiter) : bool * authRateLimiter :=
  let b := current_bucket rl now (rl_buckets rl !! key) in
  let rl := sweep now (set_buckets (<[key := b]> (rl_buckets rl)) rl) in
  if flt (tb_tokens b) one then (false, rl)
  else (true, set_buckets (alter (λ b, mkTokenBucket (fsub (tb_tokens b) one) (tb_last b)) key (rl_buckets rl)) rl).

Definition isRateLimitedAuthPath (r : AuthRequest) : bool :=
  bool_decide (ar_Method r = "POST"%string) && bool_decide (ar_Path r = "/api/v1/auth/login"%string).

(** [None]: the request goes on; otherwise the status of the reply. *)
Definition rateLimitAuthMiddleware (key : AuthRequest → string) (now : Z) (r : AuthRequest) (rl : authRateLimiter) :
    option Z * authRateLimiter :=
  if isRateLimitedAuthPath r then
    let '(ok, rl') := allow now (key r) rl in (if ok then None else Some 429, rl')
  else (None, rl).

(** * Laws *)

(** ** Arithmetic *)

Lemma fle_fin a x b : fle (FFin a) x → fle x (FFin b) → ∃ c, x = FFin c ∧ a ≤ c ≤ b.
Proof. destruct x as [|[]|c]; cbn; try done. intros. by exists c. Qed.

Lemma round_ratio_inf n d : 0 ≤ n → 0 < d → fle (round_ratio n d) (FInf false).
Proof. intros Hn Hd. rewrite round_ratio_rounded by done. by destruct (_ <=? _). Qed.

Lemma fadd_mono t x y : 0 ≤ t → fle (FFin 0) x → fle x y → fle (fadd (FFin t) x) (fadd (FFin t) y).
Proof.
  intros Ht Hx Hxy. destruct x as [|[]|a], y as [|[]|b]; cbn in *; try done.
  - by apply round_ratio_inf; lia.
  - apply round_ratio_mono; lia.
Qed.

Lemma fadd_nonneg t x : 0 ≤ t → fle (FFin 0) x → fle (FFin 0) (fadd (FFin t) x).
Proof. intros Ht Hx. destruct x as [|[]|a]; cbn in *; try done. apply round_ratio_nonneg; lia. Qed.

Lemma fmul_mono s s' c : 0 ≤ s ≤ s' → 0 ≤ c → fle (FFin 0) (fmul (FFin s) (FFin c)) ∧ fle (fmul (FFin s) (FFin c)) (fmul (FFin s') (FFin c)).
Proof. intros Hs Hc. pose proof unit64_pos. cbn [fmul]. split; [apply round_ratio_nonneg; nia|apply round_ratio_mono; nia]. Qed.

Definition fraction (n : Z) : float64 := fdiv (of_int n) (of_int second).

Lemma fraction_mono n n' : 0 ≤ n ≤ n' → n' ≤ second → fle (fraction n) (fraction n').
Proof.
  intros Hn Hn'. unfold fraction. assert (second = 10 ^ 9) by done. rewrite !of_int_exact by lia. pose proof unit64_pos. cbn [fdiv].
  destruct (Z.eqb_spec (second * unit64) 0); [nia|]. rewrite Z.sgn_pos, Z.abs_eq by nia. apply round_ratio_mono; nia.
Qed.

Lemma fraction_ends : fraction 0 = FFin 0 ∧ fraction second = FFin (1 * unit64).
Proof.
  unfold fraction. assert (second = 10 ^ 9) by done. rewrite !of_int_exact by lia. pose proof unit64_pos. cbn [fdiv].
  destruct (Z.eqb_spec (second * unit64) 0); [nia|]. rewrite Z.sgn_pos, Z.abs_eq by nia. split.
  - rewrite round_ratio_rounded by nia. replace (1 * (0 * unit64) * unit64) with 0 by lia. rewrite rounded_0 by nia.
    destruct (Z.leb_spec (2 ^ 1024 * unit64) 0); [nia|done].
  - rewrite <- (round_ratio_int 1 (second * unit64)) by nia. f_equal.
Qed.

Lemma Seconds_split d : 0 ≤ d → Seconds d = fadd (of_int (d / second)) (fraction (d `mod` second)).
Proof. intros Hd. unfold Seconds, fraction. by rewrite Z.quot_div_nonneg, Z.rem_mod_nonneg by done. Qed.

Definition duration (d : Z) : Prop := 0 ≤ d < 2 ^ 63.

Lemma whole_seconds d : duration d → 0 ≤ d / second < 2 ^ 53 - 1 ∧ 0 ≤ d `mod` second < second.
Proof.
  intros [? ?]. assert (second = 10 ^ 9) as -> by done. pose proof (Z.mod_pos_bound d (10 ^ 9)).
  split; [|lia]. split; [apply Z.div_pos; lia|]. apply Z.div_lt_upper_bound; lia.
Qed.

(** Within the second [d / second], the value lies between its ends. *)
Lemma Seconds_bounds d : duration d →
  fle (FFin (d / second * unit64)) (Seconds d) ∧ fle (Seconds d) (FFin ((d / second + 1) * unit64)).
Proof.
  intros Hd. destruct (whole_seconds d Hd) as [Hs Hn]. rewrite Seconds_split, of_int_exact by (destruct Hd; lia).
  pose proof unit64_pos. destruct fraction_ends as [F0 F1].
  pose proof (fraction_mono 0 (d `mod` second) ltac:(lia) ltac:(lia)) as M0. rewrite F0 in M0.
  pose proof (fraction_mono (d `mod` second) second ltac:(lia) ltac:(lia)) as M1. rewrite F1 in M1. split.
  - rewrite <- (Z.add_0_r (d / second)) at 1. rewrite <- fadd_int by lia. apply fadd_mono; [nia|cbn; lia|done].
  - rewrite <- fadd_int by lia. apply fadd_mono; [nia|done..].
Qed.

Lemma Seconds_mono d d' : duration d → duration d' → d ≤ d' → fle (Seconds d) (Seconds d').
Proof.
  intros Hd Hd' Hle. destruct (whole_seconds d Hd) as [Hs Hn], (whole_seconds d' Hd') as [Hs' Hn']. pose proof unit64_pos.
  assert (d / second ≤ d' / second) as Hq by (apply Z.div_le_mono; [done|lia]).
  destruct (decide (d / second = d' / second)) as [E|].
  - rewrite !Seconds_split, E, of_int_exact by (destruct Hd, Hd'; lia).
    pose proof (Z.div_mod d second) as D. pose proof (Z.div_mod d' second) as D'. assert (second ≠ 0) by done. rewrite E in D.
    apply fadd_mono; [nia| |apply fraction_mono; lia]. rewrite <- (proj1 fraction_ends). apply fraction_mono; lia.
  - destruct (Seconds_bounds d Hd) as [_ H1], (Seconds_bounds d' Hd') as [H2 _]. eapply fle_trans; [exact H1|].
    eapply fle_trans; [|exact H2]. cbn. nia.
Qed.

Lemma Seconds_fin d : duration d → ∃ s, Seconds d = FFin s ∧ 0 ≤ s.
Proof.
  intros Hd. destruct (Seconds_bounds d Hd) as [H1 H2]. destruct (fle_fin _ _ _ H1 H2) as (s & E & Hs).
  destruct (whole_seconds d Hd). pose proof unit64_pos. exists s. split; [done|]. nia.
Qed.

(** ** The abstract limiter: one bucket, never evicted *)

Section refinement.
(** The capacity is a whole number of tokens, the rate is finite. *)
Context (C refill : Z) (HC : 1 ≤ C < 2 ^ 53) (Hrefill : 0 ≤ refill).

Definition limiter (rl : authRateLimiter) : Prop := rl_capacity rl = of_int C ∧ rl_refill rl = FFin refill.

Definition fresh : authRateLimiter := newAuthRateLimiter (of_int C) (FFin refill).

(** One attempt on the key's own bucket. *)
Definition own_attempt (now : Z) (b : option tokenBucket) : bool * tokenBucket :=
  let b := current_bucket fresh now b in
  if flt (tb_tokens b) one then (false, b) else (true, mkTokenBucket (fsub (tb_tokens b) one) (tb_last b)).

Fixpoint own_results (b : option tokenBucket) (times : list Z) : list bool :=
  match times with
  | [] => []
  | t :: times' => let '(ok, b') := own_attempt t b in ok :: own_results (Some b') times'
  end.

(** The answers of the limiter to attempts [(key, time)]. *)
Fixpoint answers (rl : authRateLimiter) (h : list (string * Z)) : list (string * bool) :=
  match h with
  | [] => []
  | (k, t) :: h' => let '(ok, rl') := allow t k rl in (k, ok) :: answers rl' h'
  end.

(** What concerns one key. *)
Definition of_key {A} (k : string) (l : list (string * A)) : list A := (filter (λ p, p.1 = k) l).*2.

(** The clock does not run back, and counts [int64] nanoseconds. *)
Fixpoint ordered (from : Z) (h : list (string * Z)) : Prop :=
  match h with [] => True | (_, t) :: h' => from ≤ t < 2 ^ 63 ∧ ordered t h' end.

Definition good_bucket (now : Z) (b : tokenBucket) : Prop :=
  (∃ a, tb_tokens b = FFin a ∧ 0 ≤ a ≤ C * unit64) ∧ 0 ≤ tb_last b ≤ now.

Lemma capacity_units rl : limiter rl → rl_capacity rl = FFin (C * unit64).
Proof. intros [-> _]. apply of_int_exact. lia. Qed.

Lemma one_units : one = FFin (1 * unit64).
Proof. unfold one. apply of_int_exact. lia. Qed.

Lemma refilled_mono rl b t t' :
  limiter rl → good_bucket t b → t ≤ t' < 2 ^ 63 →
  fle (FFin 0) (refilled rl b t) ∧ fle (refilled rl b t) (refilled rl b t').
Proof.
  intros [_ Hr] ((a & Ha & Ha0) & Hl) Ht. unfold refilled. rewrite Hr, Ha.
  assert (duration (t - tb_last b)) as D by (unfold duration; lia). assert (duration (t' - tb_last b)) as D' by (unfold duration; lia).
  destruct (Seconds_fin _ D) as (s & Es & Hs), (Seconds_fin _ D') as (s' & Es' & Hs').
  pose proof (Seconds_mono _ _ D D' ltac:(lia)) as Hm. rewrite Es, Es' in *. cbn in Hm.
  destruct (fmul_mono s s' refill ltac:(lia) Hrefill) as [H1 H2].
  split; [apply fadd_nonneg; [lia|done]|apply fadd_mono; [lia|done..]].
Qed.

Lemma current_good rl now b :
  limiter rl → 0 ≤ now < 2 ^ 63 → (∀ b', b = Some b' → good_bucket now b') → good_bucket now (current_bucket rl now b).
Proof.
  intros Hl Hn Hb. pose proof unit64_pos. unfold current_bucket. destruct b as [b|]; (split; [|cbn; lia]); cbn [tb_tokens].
  - destruct (refilled_mono rl b now now Hl (Hb b eq_refl) ltac:(lia)) as [H0 _]. rewrite capacity_units by done.
    destruct (refilled rl b now) as [|[]|x]; cbn in *; try done; [eexists; split; [done|nia]|].
    destruct (Z.ltb_spec x (C * unit64)); eexists; (split; [done|]); [lia|nia].
  - rewrite capacity_units by done. eexists. split; [done|]. nia.
Qed.

Lemma own_attempt_good now b :
  0 ≤ now < 2 ^ 63 → (∀ b', b = Some b' → good_bucket now b') → good_bucket now (own_attempt now b).2.
Proof.
  intros Hn Hb. pose proof (current_good fresh now b ltac:(done) Hn Hb) as Hg. unfold own_attempt.
  destruct (flt _ _) eqn:E; [exact Hg|]. destruct Hg as [(a & Ha & Ha0) Hl]. split; [|exact Hl]. cbn [snd tb_tokens].
  rewrite one_units, Ha in *. cbn in E. apply Z.ltb_ge in E. pose proof unit64_pos.
  unfold fsub, fopp. cbn [fadd].
  pose proof (round_ratio_nonneg (a + - (1 * unit64)) 1 ltac:(lia) ltac:(lia)) as H1.
  pose proof (round_ratio_mono (a + - (1 * unit64)) ((C - 1) * unit64 * 1) 1 ltac:(lia) ltac:(lia)) as H2.
  rewrite round_ratio_int in H2 by lia. destruct (fle_fin _ _ _ H1 H2) as (x & -> & Hx). exists x. split; [done|]. nia.
Qed.

(** A bucket that is full at [t] is as good as none. *)
Lemma full_is_fresh rl b t t' :
  limiter rl → good_bucket t b → t ≤ t' < 2 ^ 63 → flt (refilled rl b t) (rl_capacity rl) = false →
  current_bucket rl t' (Some b) = current_bucket rl t' None.
Proof.
  intros Hl Hg Ht Hf. destruct (refilled_mono rl b t t' Hl Hg Ht) as [H0 Hm]. cbn. f_equal. apply fle_min.
  eapply fle_trans; [|exact Hm]. rewrite capacity_units in * by done. destruct (refilled rl b t) as [|[]|x]; cbn in *; try done.
  by apply Z.ltb_ge in Hf.
Qed.

(** The limiter has the bucket of the abstract one, or none because it was full
    when it was swept. *)
Definition simulates (now : Z) (rl : authRateLimiter) (own : gmap string tokenBucket) : Prop :=
  limiter rl ∧ ∀ k, match rl_buckets rl !! k, own !! k with
  | Some b, Some b' => b = b' ∧ good_bucket now b'
  | None, None => True
  | None, Some b' => ∃ t, 0 ≤ t ≤ now ∧ good_bucket t b' ∧ flt (refilled rl b' t) (rl_capacity rl) = false
  | Some _, None => False
  end.

Lemma good_later t t' b : good_bucket t b → t ≤ t' → good_bucket t' b.
Proof. intros [? ?] ?. split; [done|lia]. Qed.

Lemma same_current now t rl own k :
  simulates now rl own → now ≤ t < 2 ^ 63 →
  current_bucket rl t (rl_buckets rl !! k) = current_bucket fresh t (own !! k) ∧
  (∀ b', own !! k = Some b' → good_bucket t b').
Proof.
  intros [Hl Hs] Ht. specialize (Hs k). assert (∀ b, current_bucket rl t b = current_bucket fresh t b) as E.
  { intros b. unfold current_bucket, refilled. destruct Hl as [-> ->]. done. }
  destruct (rl_buckets rl !! k) as [b|], (own !! k) as [b'|]; [|done| |].
  - destruct Hs as [-> Hg]. split; [apply E|]. intros ? [= <-]. by apply (good_later now); [|lia].
  - destruct Hs as (t0 & Ht0 & Hg & Hf). split; [|intros ? [= <-]; by apply (good_later t0); [|lia]].
    rewrite <- E. symmetry. by apply (full_is_fresh rl b' t0); [..|lia|].
  - split; [apply E|done].
Qed.

Lemma sweep_simulates now rl own : 0 ≤ now → simulates now rl own → simulates now (sweep now rl) own.
Proof.
  intros Hnow [Hl Hs]. unfold sweep. destruct (match rl_lastSweep rl with Some t => _ | None => false end); [by split|].
  split; [exact Hl|]. intros k. specialize (Hs k). cbn [rl_buckets rl_capacity].
  destruct (rl_buckets rl !! k) as [b|] eqn:Eb.
  - destruct (evictable rl now b) eqn:Ev.
    + assert (filter (λ p, evictable rl now p.2 = false) (rl_buckets rl) !! k = None) as ->.
      { apply map_lookup_filter_None. right. intros b' Hb'. rewrite Eb in Hb'. injection Hb' as <-. cbn. congruence. }
      destruct (own !! k) as [b'|]; [|done]. destruct Hs as [-> Hg]. exists now. split_and!; [lia..|done|].
      unfold evictable in Ev. apply andb_prop in Ev as [_ Ev%negb_true_iff]. exact Ev.
    + rewrite (map_lookup_filter_Some_2 _ _ k b Eb); [done|exact Ev].
  - assert (filter (λ p, evictable rl now p.2 = false) (rl_buckets rl) !! k = None) as -> by (apply map_lookup_filter_None; by left).
    done.
Qed.

Lemma allow_simulates now t rl own k :
  simulates now rl own → 0 ≤ now ≤ t → t < 2 ^ 63 →
  (allow t k rl).1 = (own_attempt t (own !! k)).1 ∧
  simulates t (allow t k rl).2 (<[k := (own_attempt t (own !! k)).2]> own).
Proof.
  intros Hs Ht Ht'. destruct (same_current now t rl own k Hs ltac:(lia)) as [Hc Hg].
  pose proof (own_attempt_good t (own !! k) ltac:(lia) Hg) as Hgood.
  unfold allow. rewrite Hc. unfold own_attempt in *. set (b := current_bucket fresh t (own !! k)) in *.
  assert (simulates t (set_buckets (<[k := b]> (rl_buckets rl)) rl) (<[k := b]> own)) as Hs1.
  { destruct Hs as [Hl Hs]. split; [exact Hl|]. intros k'. cbn [set_buckets rl_buckets].
    destruct (decide (k' = k)) as [->|Hne].
    - rewrite !lookup_insert_eq. split; [done|]. apply current_good; [done|lia|done].
    - rewrite !lookup_insert_ne by done. specialize (Hs k'). destruct (rl_buckets rl !! k'), (own !! k'); try done.
      + destruct Hs as [-> Hg']. split; [done|]. by apply (good_later now); [|lia].
      + destruct Hs as (t1 & ? & ? & ?). exists t1. split_and!; [lia..|done|done]. }
  pose proof (sweep_simulates t _ _ ltac:(lia) Hs1) as Hs2.
  assert (rl_buckets (sweep t (set_buckets (<[k := b]> (rl_buckets rl)) rl)) !! k = Some b) as Hkeep.
  { unfold sweep. destruct (match rl_lastSweep _ with Some _ => _ | None => false end); cbn [rl_buckets set_buckets]; [by rewrite lookup_insert_eq|].
    apply map_lookup_filter_Some_2; [by rewrite lookup_insert_eq|]. cbn [snd]. unfold evictable.
    assert (tb_last b = t) as -> by (unfold b, current_bucket; by destruct (own !! k)).
    destruct (Z.ltb_spec minute (t - t)) as [Hx|]; [exfalso; assert (minute = 60000000000) by done; lia|done]. }
  destruct (flt (tb_tokens b) one); [by split|]. split; [done|]. cbn [snd] in *.
  destruct Hs2 as [Hl2 Hs2]. split; [exact Hl2|]. intros k'. specialize (Hs2 k'). cbn [set_buckets rl_buckets].
  destruct (decide (k' = k)) as [->|Hne].
  - rewrite lookup_alter_eq, lookup_insert_eq, Hkeep. cbn. done.
  - rewrite lookup_alter_ne, !lookup_insert_ne in * by done. done.
Qed.

Lemma answers_simulated h now rl own k :
  simulates now rl own → 0 ≤ now → ordered now h → of_key k (answers rl h) = own_results (own !! k) (of_key k h).
Proof.
  revert now rl own. induction h as [|[k' t] h IH]; intros now rl own Hs Hnow Ho; [done|]. destruct Ho as [Ht Ho].
  cbn [answers]. destruct (allow_simulates now t rl own k' Hs ltac:(lia) ltac:(lia)) as [Hok Hs'].
  destruct (allow t k' rl) as [ok rl']. cbn [fst snd] in *. specialize (IH t rl' _ Hs' ltac:(lia) Ho).
  unfold of_key in *. rewrite !filter_cons. cbn [fst]. destruct (decide (k' = k)) as [->|Hne].
  - cbn [fmap list_fmap snd]. cbn [own_results]. destruct (own_attempt t (own !! k)) as [ok' b'] eqn:E. cbn [fst snd] in *. subst ok'.
    f_equal. rewrite IH, lookup_insert_eq. done.
  - rewrite IH, lookup_insert_ne by done. done.
Qed.

(** ** Bursts *)

Fixpoint own_after (b : option tokenBucket) (times : list Z) : option tokenBucket :=
  match times with [] => b | t :: times' => own_after (Some (own_attempt t b).2) times' end.

Lemma own_results_app b l l' : own_results b (l ++ l') = own_results b l ++ own_results (own_after b l) l'.
Proof.
  revert b. induction l as [|t l IH]; intros b; [done|]. cbn. destruct (own_attempt t b) as [ok b'] eqn:E. cbn. by rewrite IH.
Qed.

Lemma length_own_results b l : length (own_results b l) = length l.
Proof. revert b. induction l as [|t l IH]; intros b; [done|]. cbn. destruct (own_attempt t b). cbn. by rewrite IH. Qed.

Definition allowed (l : list bool) : nat := length (filter (λ ok, ok = true) l).

(** The bucket has at most [j] tokens, up to the refill of an instant. *)
Definition at_most (j t : Z) (b : option tokenBucket) : Prop :=
  ∃ a, tb_tokens (current_bucket fresh t b) = FFin a ∧ 0 ≤ a ≤ j * unit64.

Lemma no_time_refill t a : 0 ≤ a → refilled fresh (mkTokenBucket (FFin a) t) t = round_ratio a 1.
Proof.
  intros Ha. unfold refilled. cbn [tb_last tb_tokens rl_refill fresh newAuthRateLimiter]. rewrite Z.sub_diag.
  assert (Seconds 0 = FFin 0) as ->.
  { rewrite Seconds_split by lia. change (0 / second) with 0. change (0 `mod` second) with 0. rewrite (proj1 fraction_ends), of_int_exact by lia.
    apply (fadd_int 0 0); lia. }
  assert (fmul (FFin 0) (FFin refill) = FFin 0) as ->.
  { cbn [fmul]. pose proof unit64_pos. rewrite Z.mul_0_l, round_ratio_rounded, rounded_0 by lia.
    destruct (Z.leb_spec (2 ^ 1024 * unit64) 0); [nia|done]. }
  cbn [fadd]. by rewrite Z.add_0_r.
Qed.

Lemma at_most_next j t a : 0 ≤ j < 2 ^ 53 → j ≤ C → 0 ≤ a ≤ j * unit64 → at_most j t (Some (mkTokenBucket (FFin a) t)).
Proof.
  intros Hj HjC Ha. unfold at_most, current_bucket. cbn [tb_tokens]. rewrite no_time_refill by lia.
  pose proof unit64_pos. pose proof (round_ratio_nonneg a 1 ltac:(lia) ltac:(lia)) as H1.
  pose proof (round_ratio_mono a (j * unit64 * 1) 1 ltac:(lia) ltac:(lia)) as H2. rewrite round_ratio_int in H2 by lia.
  destruct (fle_fin _ _ _ H1 H2) as (x & -> & Hx). cbn [fresh newAuthRateLimiter rl_capacity]. rewrite of_int_exact by lia. cbn [fmin flt].
  destruct (Z.ltb_spec x (C * unit64)); eexists; (split; [done|]); [done|]. split; [nia|]. assert (x = C * unit64) by nia. lia.
Qed.

Lemma burst_bound n j t b : 0 ≤ j ≤ C → at_most j t b → Z.of_nat (allowed (own_results b (replicate n t))) ≤ j.
Proof.
  revert j b. induction n as [|n IH]; intros j b Hj (a & Ha & Ha0); [cbn; lia|]. cbn [replicate own_results]. unfold own_attempt.
  set (b' := current_bucket fresh t b) in *. assert (tb_last b' = t) as Hl by (unfold b', current_bucket; by destruct b).
  assert (b' = mkTokenBucket (FFin a) t) as Eb by (rewrite <- Ha, <- Hl; by destruct b').
  destruct (flt (tb_tokens b') one) eqn:E.
  - unfold allowed. rewrite filter_cons, decide_False by done. apply IH; [done|]. rewrite Eb. apply at_most_next; lia.
  - unfold allowed. rewrite filter_cons, decide_True by done. cbn [length]. rewrite Nat2Z.inj_succ.
    rewrite one_units, Ha in *. cbn in E. apply Z.ltb_ge in E. pose proof unit64_pos. assert (1 ≤ j) as Hj1 by nia.
    assert (Z.of_nat (allowed (own_results (Some (mkTokenBucket (fsub (FFin a) (FFin (1 * unit64))) (tb_last b'))) (replicate n t))) ≤ j - 1) as Hx; [|unfold allowed in Hx; lia].
    apply IH; [lia|]. rewrite Hl. unfold fsub, fopp. cbn [fadd].
    pose proof (round_ratio_nonneg (a + - (1 * unit64)) 1 ltac:(lia) ltac:(lia)) as H1.
    pose proof (round_ratio_mono (a + - (1 * unit64)) ((j - 1) * unit64 * 1) 1 ltac:(lia) ltac:(lia)) as H2.
    rewrite round_ratio_int in H2 by lia. destruct (fle_fin _ _ _ H1 H2) as (x & -> & Hx). apply at_most_next; lia.
Qed.

Lemma own_after_good now b times t :
  0 ≤ now → (∀ b', b = Some b' → good_bucket now b') → ordered now ((λ t, (EmptyString, t)) <$> times ++ [t]) →
  ∀ b', own_after b times = Some b' → good_bucket t b'.
Proof.
  revert now b. induction times as [|t0 times IH]; intros now b Hnow Hb Ho b'; cbn in *.
  - intros Hb'. apply (good_later now); [by apply Hb|lia].
  - destruct Ho as [Ht0 Ho]. apply (IH t0); [lia| |done]. intros b1 [= <-]. apply own_attempt_good; [lia|].
    intros b2 Hb2. apply (good_later now); [by apply Hb|lia].
Qed.

Lemma ordered_key k from h : ordered from h → ordered from ((λ t, (EmptyString, t)) <$> of_key k h).
Proof.
  unfold of_key. revert from. induction h as [|[k' t] h IH]; intros from; [done|]. cbn [ordered]. intros [Ht Ho].
  rewrite filter_cons. cbn [fst]. case_decide; cbn [fmap list_fmap snd ordered]; [split; [done|by apply IH]|].
  assert (ordered from h) as Ho' by (revert Ho; destruct h as [|[? ?] ?]; cbn; [done|]; intros [? ?]; split; [lia|done]). by apply IH.
Qed.
End refinement.

(** C27: the limiter of login attempts.  Whatever other clients do and whenever
    buckets are swept, the attempts of a client are answered as by a bucket of
    its own that is never evicted; so evicting idle buckets, which bounds the
    memory, forgets nothing.  And of any number of attempts of one client at
    one instant, whatever came before, at most the capacity are let through. *)
Theorem attempts_limited C refill h k :
  1 ≤ C < 2 ^ 53 → 0 ≤ refill → ordered 0 h →
  of_key k (answers (fresh C refill) h) = own_results C refill None (of_key k h) ∧
  ∀ n t, ordered 0 (h ++ replicate n (k, t)) →
    Z.of_nat (allowed (drop (length (of_key k h)) (of_key k (answers (fresh C refill) (h ++ replicate n (k, t)))))) ≤ C.
Proof.
  intros HC Hr Ho.
  assert (∀ h, ordered 0 h → of_key k (answers (fresh C refill) h) = own_results C refill None (of_key k h)) as Hsim.
  { intros h' Ho'. rewrite (answers_simulated C refill HC Hr h' 0 (fresh C refill) ∅ k); [by rewrite lookup_empty| |lia|done].
    split; [done|]. intros k'. cbn. by rewrite !lookup_empty. }
  split; [by apply Hsim|]. intros n t Hn. rewrite Hsim by done.
  assert (of_key k (h ++ replicate n (k, t)) = of_key k h ++ replicate n t) as ->.
  { unfold of_key. rewrite filter_app, fmap_app. f_equal. clear. induction n as [|n IH]; [done|]. cbn [replicate].
    rewrite filter_cons, decide_True by done. cbn. by rewrite IH. }
  rewrite own_results_app, drop_app_length' by (by rewrite length_own_results).
  destruct n as [|n]; [cbn; lia|]. apply (burst_bound C refill HC); [lia|].
  assert (ordered 0 (h ++ [(k, t)])) as Ho1.
  { clear -Hn. revert Hn. generalize 0. induction h as [|[k' t'] h IH]; intros z; cbn; [tauto|]. intros [? ?]. split; [done|by apply IH]. }
  apply (ordered_key k) in Ho1. unfold of_key in Ho1. rewrite filter_app, filter_cons, decide_True, fmap_app in Ho1 by done. cbn in Ho1.
  assert (0 ≤ t < 2 ^ 63) as Ht.
  { clear -Hn. revert Hn. generalize (Z.le_refl 0). generalize 0 at 2 3. induction h as [|[k' t'] h IH]; intros z Hz; cbn; [lia|].
    intros [? ?]. apply (IH t'); [lia|done]. }
  destruct (current_good C refill HC Hr (fresh C refill) t (own_after C refill None (of_key k h)) ltac:(done) Ht) as [(a & Ha & Ha0) _].
  { apply (own_after_good C refill HC Hr 0 None (of_key k h) t); [lia|done|exact Ho1]. }
  exists a. done.
Qed.

(** ** Keys *)

Section keys.
Context (SplitHostPort : string → option string) (ParseAddr : string → option Addr)
  (addr_String : list Z → string) (prefix64_String : list Z → string).
Context (trusted : list Prefix).

Notation clientKey := (clientKey SplitHostPort ParseAddr addr_String prefix64_String trusted).
Notation clientIP := (clientIP SplitHostPort ParseAddr addr_String prefix64_String).
Notation ipKey := (ipKey addr_String prefix64_String).
Notation remote_host := (remote_host SplitHostPort).

(** The hop parses to a trusted proxy. *)
Definition trusted_hop (h : string) : Prop := ∃ ip, ParseAddr (TrimSpace h) = Some ip ∧ isTrusted trusted ip = true.

Lemma first_untrusted_skips proxies rest : Forall trusted_hop proxies →
  first_untrusted ParseAddr addr_String prefix64_String trusted (proxies ++ rest) =
  first_untrusted ParseAddr addr_String prefix64_String trusted rest.
Proof. induction 1 as [|h l (ip & H1 & H2) Hl IH]; [done|]. cbn. by rewrite H1, H2. Qed.

Lemma client_key_untrusted r :
  (∀ ip, ParseAddr (remote_host r) = Some ip → isTrusted trusted ip = false) → clientKey r = clientIP r.
Proof.
  intros Hr. unfold RateLimit.clientKey. case_decide; [done|]. destruct (ParseAddr (remote_host r)) as [ip|]; [|done].
  by rewrite (Hr ip).
Qed.

Lemma client_key_forwarded r remote ip spoofed client proxies :
  ParseAddr (remote_host r) = Some remote → isTrusted trusted remote = true → ar_ForwardedFor r ≠ [] →
  Split1 "," (Join "," (ar_ForwardedFor r)) = spoofed ++ client :: proxies →
  ParseAddr (TrimSpace client) = Some ip → isTrusted trusted ip = false → Forall trusted_hop proxies →
  clientKey r = ipKey ip.
Proof.
  intros H1 H2 H3 H4 H5 H6 H7. unfold RateLimit.clientKey. rewrite decide_False by (intros ->; done). rewrite H1, H2. cbn [negb].
  rewrite decide_True by done. rewrite H4, reverse_app, reverse_cons, <- app_assoc, first_untrusted_skips by by apply Forall_reverse.
  cbn. by rewrite H5, H6.
Qed.
End keys.

(** Two IPv6 addresses of one /64 have one key. *)
Lemma ipKey_site aS pS ip ip' :
  length (ad_bytes ip) = 16%nat → length (ad_bytes ip') = 16%nat → take 8 (ad_bytes ip) = take 8 (ad_bytes ip') →
  take 8 (ad_bytes ip) ≠ replicate 8 0 → ipKey aS pS ip = ipKey aS pS ip'.
Proof.
  intros H1 H2 H3 H4.
  assert (∀ j, take 8 (ad_bytes j) ≠ replicate 8 0 → Unmap j = j) as Hu.
  { intros j Hj. unfold Unmap. rewrite decide_False; [done|]. intros [_ E]. apply Hj.
    change 8%nat with (8 `min` 12)%nat at 1. by rewrite <- take_take, E. }
  unfold ipKey. rewrite !Hu by congruence. unfold WithoutZone, is4. cbn [ad_bytes ad_zone].
  rewrite H1, H2, H3. done.
Qed.

(** C28: the key of a client.  Unless the peer is a configured proxy the key is
    that of the peer's own address, whatever the forwarding headers say.  When
    it is one, and the hops the proxies appended name the client followed by
    further proxies, the key is that of the client, whatever the client wrote
    in front.  And the addresses of one IPv6 site of 64 bits share a key. *)
Theorem client_key_unspoofable SplitHostPort ParseAddr aS pS trusted r remote :
  ParseAddr (remote_host SplitHostPort r) = Some remote →
  let key := clientKey SplitHostPort ParseAddr aS pS trusted r in
  (isTrusted trusted remote = false → key = ipKey aS pS remote) ∧
  (∀ spoofed client proxies ip,
     isTrusted trusted remote = true → ar_ForwardedFor r ≠ [] →
     Split1 "," (Join "," (ar_ForwardedFor r)) = spoofed ++ client :: proxies →
     ParseAddr (TrimSpace client) = Some ip → isTrusted trusted ip = false → Forall (trusted_hop ParseAddr trusted) proxies →
     key = ipKey aS pS ip) ∧
  (∀ ip ip', length (ad_bytes ip) = 16%nat → length (ad_bytes ip') = 16%nat →
     take 8 (ad_bytes ip) = take 8 (ad_bytes ip') → take 8 (ad_bytes ip) ≠ replicate 8 0 →
     ipKey aS pS ip = ipKey aS pS ip').
Proof.
  intros Hr key. split; [|split].
  - intros Ht. unfold key. rewrite client_key_untrusted by (intros ? ?; congruence). unfold clientIP. by rewrite Hr.
  - intros. by eapply client_key_forwarded.
  - apply ipKey_site.
Qed.

(** * Witnesses *)

Module Example15.
Definition host_port (s : string) : option string := if decide (s = "10.0.0.1:443"%string) then Some "10.0.0.1"%string else None.
Definition parse (s : string) : option Addr :=
  if decide (s = "10.0.0.1"%string) then Some (mkAddr [10; 0; 0; 1] EmptyString)
  else if decide (s = "203.0.113.7"%string) then Some (mkAddr [203; 0; 113; 7] EmptyString) else None.
Definition bytes_text (l : list Z) : string := Join "." (map FormatInt l).
Definition proxies : list Prefix := [mkPrefix [10; 0; 0; 0] 8].
Definition request (spoofed : string) : AuthRequest :=
  mkAuthRequest "POST" "/api/v1/auth/login" "10.0.0.1:443" [spoofed; "203.0.113.7, 10.0.0.1"%string] EmptyString.

Lemma client_key_unspoofable_witness :
  clientKey host_port parse bytes_text bytes_text proxies (request "1.2.3.4") = "203.0.113.7"%string ∧
  clientKey host_port parse bytes_text bytes_text proxies (request "5.6.7.8,9") = "203.0.113.7"%string.
Proof.
  pose (ip := mkAddr [203; 0; 113; 7] EmptyString).
  assert (Forall (trusted_hop parse proxies) [" 10.0.0.1"%string]) as Hp.
  { repeat constructor. exists (mkAddr [10; 0; 0; 1] EmptyString). vm_compute. split; reflexivity. }
  change "203.0.113.7"%string with (ipKey bytes_text bytes_text ip). split.
  - refine (proj1 (proj2 (client_key_unspoofable host_port parse bytes_text bytes_text proxies (request "1.2.3.4") (mkAddr [10; 0; 0; 1] EmptyString) _))
      ["1.2.3.4"%string] "203.0.113.7" [" 10.0.0.1"%string] ip _ _ _ _ _ Hp); vm_compute; congruence.
  - refine (proj1 (proj2 (client_key_unspoofable host_port parse bytes_text bytes_text proxies (request "5.6.7.8,9") (mkAddr [10; 0; 0; 1] EmptyString) _))
      ["5.6.7.8"; "9"]%string "203.0.113.7" [" 10.0.0.1"%string] ip _ _ _ _ _ Hp); vm_compute; congruence.
Defined.

(** The limiter of the server: 5 tokens, one more each 12 seconds. *)
Definition refill12 : Z := match fdiv (of_int 1) (of_int 12) with FFin n => n | _ => 0 end.
Definition history : list (string * Z) := [("a", 0); ("b", 1); ("a", 2)]%string ++ replicate 4 ("a"%string, 13 * second).

(** Eight attempts at one instant, after seven others. *)
Lemma attempts_limited_witness :
  Z.of_nat (allowed (drop 6 (of_key "a" (answers (fresh 5 refill12) (history ++ replicate 8 ("a"%string, 14 * second)))))) ≤ 5 ∧
  of_key "a" (answers (fresh 5 refill12) history) = own_results 5 refill12 None (of_key "a" history).
Proof.
  destruct (attempts_limited 5 refill12 history "a") as [H1 H2].
  - lia.
  - vm_compute. discriminate.
  - vm_compute. intuition discriminate.
  - split; [|exact H1]. apply (H2 8%nat (14 * second)). vm_compute. intuition discriminate.
Defined.
End Example15.
