(* ===== verification/Analytics.v ===== *)
(** * Analytics queries (internal/store/analytics.go)

    The query language, its validation, the SQL text it compiles to, and what
    the statements return on the tables: one row per group with the aggregate
    of the latest values of a metric, and for a maximum or a minimum a run
    that attains it.  The handler of internal/api/native is at the end. *)

From S2P Require Import Prelude GoStrings Model Float64 Database Keyset Filter Runs Sample Search MlflowApi NativeApi.

Open Scope Z_scope.

(** ** Queries *)

Record AnalyticsWhere := mkAnalyticsWhere {
  aw_ExperimentIDs : list Z; aw_TimeAfter : Z; aw_Lifecycle : string; aw_Status : list string;
  aw_MinMetric : option float64; aw_MaxMetric : option float64 }.

Record AnalyticsQuery := mkAnalyticsQuery {
  aq_Metric : string; aq_Agg : string; aq_GroupBy : string; aq_Where : AnalyticsWhere;
  aq_OrderBy : string; aq_Limit : Z; aq_WorkspaceID : string }.

Record AnalyticsRow := mkAnalyticsRow {
  an_Group : string; an_AggValue : float64; an_RunCount : Z;
  an_BestRunID : string; an_BestRunName : string; an_BestExpID : Z; an_groupIsNull : bool }.

Record AnalyticsResult := mkAnalyticsResult { as_Rows : list AnalyticsRow; as_TotalRunsScanned : Z }.

(** The allow lists; [None] is a key that is not in the map. *)
Definition allowedAggs (a : string) : option string :=
  if decide (a = "max"%string) then Some "MAX(ml.value)"%string
  else if decide (a = "min"%string) then Some "MIN(ml.value)"%string
  else if decide (a = "avg"%string) then Some "AVG(ml.value)"%string
  else None.

Definition allowedLifecycle (l : string) : option string :=
  if decide (l = EmptyString ∨ l = "active"%string) then Some "r.lifecycle_stage = 'active'"%string
  else if decide (l = "deleted"%string) then Some "r.lifecycle_stage = 'deleted'"%string
  else if decide (l = "all"%string) then Some "1=1"%string
  else None.

Definition allowedStatuses (s : string) : bool :=
  bool_decide (s ∈ ["RUNNING"; "FINISHED"; "FAILED"; "KILLED"; "SCHEDULED"]%string).

(** The key after [params.] or [tags.]: 1 to 250 bytes. *)
Definition valid_group_key (prefix s : string) : bool :=
  negb (slen s <=? slen prefix)%nat && negb (250 + slen prefix <? slen s)%nat.

Definition valid_group (g : string) : bool :=
  if decide (g = EmptyString ∨ g = "experiment_id"%string ∨ g = "status"%string) then true
  else if HasPrefix g "params." then valid_group_key "params." g
  else if HasPrefix g "tags." then valid_group_key "tags." g
  else false.

Definition Validate (q : AnalyticsQuery) : result unit :=
  _ ← guard_err (bool_decide (TrimSpace (aq_Metric q) = EmptyString)) ErrOther;
  _ ← guard_err (250 <? slen (aq_Metric q))%nat ErrOther;
  _ ← guard_err (bool_decide (allowedAggs (aq_Agg q) = None)) ErrOther;
  _ ← guard_err (negb (valid_group (aq_GroupBy q))) ErrOther;
  _ ← guard_err (bool_decide (allowedLifecycle (aw_Lifecycle (aq_Where q)) = None)) ErrOther;
  _ ← guard_err (negb (forallb allowedStatuses (aw_Status (aq_Where q)))) ErrOther;
  _ ← guard_err (bool_decide (aq_OrderBy q ∉ [EmptyString; "value_desc"; "value_asc"; "count_desc"; "group_asc"]%string)) ErrOther;
  _ ← guard_err (aq_Limit q <? 0) ErrOther;
  _ ← guard_err (Z.of_nat (length (aw_ExperimentIDs (aq_Where q))) >? 1000) ErrOther;
  guard_err (Z.of_nat (length (aw_Status (aq_Where q))) >? 16) ErrOther.

(** The defaults [AnalyticsQuery] fills in after the validation. *)
Definition with_defaults (q : AnalyticsQuery) : AnalyticsQuery :=
  let limit := if decide (aq_Limit q = 0) then 100 else aq_Limit q in
  mkAnalyticsQuery (aq_Metric q) (aq_Agg q) (aq_GroupBy q) (aq_Where q) (aq_OrderBy q) (Z.min limit 1000)
    (default_to (aq_WorkspaceID q) "default").

Definition with_workspace (ws : string) (q : AnalyticsQuery) : AnalyticsQuery :=
  mkAnalyticsQuery (aq_Metric q) (aq_Agg q) (aq_GroupBy q) (aq_Where q) (aq_OrderBy q) (aq_Limit q) ws.

(** ** The dimension of the groups *)

Inductive dimension :=
  | NoGroup
  | ByExperiment
  | ByStatus
  | ByParam (key : string)
  | ByTag (key : string).

Definition dimension_of (g : string) : dimension :=
  if decide (g = EmptyString) then NoGroup
  else if decide (g = "experiment_id"%string) then ByExperiment
  else if decide (g = "status"%string) then ByStatus
  else if HasPrefix g "params." then ByParam (TrimPrefix g "params.")
  else if HasPrefix g "tags." then ByTag (TrimPrefix g "tags.")
  else NoGroup.

(** ** The SQL text *)

Definition nl : string := String (Ascii.ascii_of_nat 10) EmptyString.

(** [groupExpr], [groupJoin], [groupGroupBy] and the bound key. *)
Definition group_sql (g : dimension) : string * string * string * list sqlval :=
  match g with
  | NoGroup => ("NULL", "", "", [])%string
  | ByExperiment => ("CAST(r.experiment_id AS TEXT)", "", "r.experiment_id", [])%string
  | ByStatus => ("r.status", "", "r.status", [])%string
  | ByParam k => ("p_grp.value", "LEFT JOIN params p_grp ON p_grp.run_id = r.id AND p_grp.key = ?", "p_grp.value", [SText k])%string
  | ByTag k => ("t_grp.value", "LEFT JOIN tags t_grp ON t_grp.run_id = r.id AND t_grp.key = ?", "t_grp.value", [SText k])%string
  end.

(** The loop that writes [?,?,...,?]. *)
Definition in_marks (n : nat) : string := Join "," (replicate n "?"%string).

Definition in_clause {A} (indent column : string) (bind : A → sqlval) (l : list A) : string * list sqlval :=
  if decide (l = []) then (EmptyString, [])
  else (indent +:+ "AND " +:+ column +:+ " IN (" +:+ in_marks (length l) +:+ ")" +:+ nl, bind <$> l).

Definition opt_clause (indent text : string) (v : option sqlval) : string * list sqlval :=
  match v with None => (EmptyString, []) | Some v => (indent +:+ text +:+ nl, [v]) end.

Definition after_clause (indent : string) (t : Z) : string * list sqlval :=
  opt_clause indent "AND r.start_time >= ?" (if decide (0 < t) then Some (SInt t) else None).

(** The clauses both statements have after the metric, [indent] being the
    leading blanks. *)
Definition common_clauses (indent : string) (q : AnalyticsQuery) : list (string * list sqlval) :=
  let w := aq_Where q in
  [(indent +:+ "AND e.workspace_id = ?" +:+ nl, [SText (aq_WorkspaceID q)]);
   (indent +:+ "AND " +:+ default EmptyString (allowedLifecycle (aw_Lifecycle w)) +:+ nl, []);
   in_clause indent "r.experiment_id" SInt (aw_ExperimentIDs w);
   after_clause indent (aw_TimeAfter w);
   in_clause indent "r.status" SText (aw_Status w)].

Definition concat_sql (l : list (string * list sqlval)) : string * list sqlval :=
  (Join EmptyString l.*1, concat l.*2).

Definition from_sql : string :=
  "FROM metrics_latest ml" +:+ nl +:+ "JOIN runs r ON r.id = ml.run_id" +:+ nl +:+
  "JOIN experiments e ON e.id = r.experiment_id" +:+ nl.

Definition order_sql (o : string) : string :=
  if decide (o = EmptyString ∨ o = "value_desc"%string) then "ORDER BY agg_value DESC" +:+ nl
  else if decide (o = "value_asc"%string) then "ORDER BY agg_value ASC" +:+ nl
  else if decide (o = "count_desc"%string) then "ORDER BY run_count DESC, agg_value DESC" +:+ nl
  else if decide (o = "group_asc"%string) then "ORDER BY group_key ASC" +:+ nl
  else EmptyString.

Definition buildAnalyticsSQL (q : AnalyticsQuery) : string * list sqlval :=
  let '(groupExpr, groupJoin, groupGroupBy, key) := group_sql (dimension_of (aq_GroupBy q)) in
  let w := aq_Where q in
  concat_sql
    ([("SELECT " +:+ groupExpr +:+ " AS group_key, " +:+ default EmptyString (allowedAggs (aq_Agg q)) +:+
       " AS agg_value, COUNT(*) AS run_count" +:+ nl +:+ from_sql, []);
      (if decide (groupJoin = EmptyString) then EmptyString else groupJoin +:+ nl, key);
      ("  WHERE ml.key = ?" +:+ nl, [SText (aq_Metric q)])] ++
     common_clauses "    " q ++
     [opt_clause "    " "AND ml.value >= ?" (real_sql <$> aw_MinMetric w);
      opt_clause "    " "AND ml.value <= ?" (real_sql <$> aw_MaxMetric w);
      (if decide (groupGroupBy = EmptyString) then EmptyString else "GROUP BY " +:+ groupGroupBy +:+ nl, []);
      (order_sql (aq_OrderBy q), []);
      ("LIMIT ?" +:+ nl, [SInt (aq_Limit q)])]).

(** The join and the last clause of the lookup of a best run; [None] skips
    the row. *)
Definition best_join (g : dimension) : string * list sqlval :=
  match g with
  | ByParam k => ("LEFT JOIN params p ON p.run_id = r.id AND p.key = ?" +:+ nl, [SText k])
  | ByTag k => ("LEFT JOIN tags t ON t.run_id = r.id AND t.key = ?" +:+ nl, [SText k])
  | _ => (EmptyString, [])
  end.

Definition best_group (g : dimension) (row : AnalyticsRow) : option (string * list sqlval) :=
  match g with
  | NoGroup => Some (EmptyString, [])
  | ByExperiment => id ← ParseInt (an_Group row); Some ("  AND r.experiment_id = ?" +:+ nl, [SInt id])
  | ByStatus => Some ("  AND r.status = ?" +:+ nl, [SText (an_Group row)])
  | ByParam _ =>
      Some (if an_groupIsNull row then ("  AND p.value IS NULL" +:+ nl, []) else ("  AND p.value = ?" +:+ nl, [SText (an_Group row)]))
  | ByTag _ =>
      Some (if an_groupIsNull row then ("  AND t.value IS NULL" +:+ nl, []) else ("  AND t.value = ?" +:+ nl, [SText (an_Group row)]))
  end.

Definition best_sql (q : AnalyticsQuery) (row : AnalyticsRow) : option (string * list sqlval) :=
  let g := dimension_of (aq_GroupBy q) in
  group ← best_group g row;
  Some (concat_sql
    ([("SELECT ml.run_id, COALESCE(r.name,''), r.experiment_id" +:+ nl +:+ from_sql, []);
      best_join g;
      ("WHERE ml.key = ? AND ml.value = ?" +:+ nl, [SText (aq_Metric q); real_sql (an_AggValue row)])] ++
     common_clauses "  " q ++ [group; ("LIMIT 1"%string, [])])).

(** ** What the statements return *)

(** SQLite's order of REAL values is [real_key]; a NaN is never stored. *)
Definition real_le (v v' : float64) : Prop := cmp_le (real_key v) (real_key v').
#[export] Instance real_le_dec v v' : Decision (real_le v v').
Proof. unfold real_le. apply _. Defined.

(** A row of the joined tables: the run and the value. *)
Record Joined := mkJoined { jn_run : string; jn_row : RunRow; jn_value : float64 }.

(** [metrics_latest ml JOIN runs r JOIN experiments e] where [ml.key] is the
    metric, with the workspace of [e]. *)
Definition joined (d : DB) (metric : string) : list (Joined * string) :=
  omap (λ '((R, k), (v, _)),
    if decide (k = metric) then
      row ← runs d !! R; e ← rows (experiments d) !! rr_experiment_id row; Some (mkJoined R row v, er_workspace_id e)
    else None) (map_to_list (metrics_latest d)).

Definition lifecycle_holds (l : string) (row : RunRow) : Prop :=
  l = "all"%string ∨ rr_lifecycle_stage row = (if decide (l = "deleted"%string) then LifecycleDeleted else LifecycleActive).
#[export] Instance lifecycle_holds_dec l row : Decision (lifecycle_holds l row).
Proof. unfold lifecycle_holds. apply _. Defined.

(** The common clauses. *)
Definition common_holds (q : AnalyticsQuery) (p : Joined * string) : Prop :=
  let w := aq_Where q in
  let row := jn_row p.1 in
  p.2 = aq_WorkspaceID q ∧ lifecycle_holds (aw_Lifecycle w) row ∧
  (aw_ExperimentIDs w = [] ∨ rr_experiment_id row ∈ aw_ExperimentIDs w) ∧
  (aw_TimeAfter w ≤ 0 ∨ aw_TimeAfter w ≤ rr_start_time row) ∧
  (aw_Status w = [] ∨ rr_status row ∈ aw_Status w).
#[export] Instance common_holds_dec q p : Decision (common_holds q p).
Proof. unfold common_holds. apply _. Defined.

(** A comparison with NULL, which a NaN is bound as, is not true. *)
Definition at_least (b : option float64) (v : float64) : Prop :=
  match b with None => True | Some b => b ≠ FNaN ∧ real_le b v end.
Definition bounded_by (b : option float64) (v : float64) : Prop :=
  match b with None => True | Some b => b ≠ FNaN ∧ real_le v b end.
#[export] Instance at_least_dec b v : Decision (at_least b v).
Proof. unfold at_least. destruct b; apply _. Defined.
#[export] Instance bounded_by_dec b v : Decision (bounded_by b v).
Proof. unfold bounded_by. destruct b; apply _. Defined.

Definition matching (d : DB) (q : AnalyticsQuery) : list Joined :=
  fst <$> filter (λ p, common_holds q p ∧ at_least (aw_MinMetric (aq_Where q)) (jn_value p.1) ∧
                        bounded_by (aw_MaxMetric (aq_Where q)) (jn_value p.1)) (joined d (aq_Metric q)).

(** The group of a run, [None] for NULL. *)
Definition group_of (d : DB) (g : dimension) (j : Joined) : option string :=
  match g with
  | NoGroup => None
  | ByExperiment => Some (FormatInt (rr_experiment_id (jn_row j)))
  | ByStatus => Some (rr_status (jn_row j))
  | ByParam k => params d !! (jn_run j, k)
  | ByTag k => tags d !! (jn_run j, k)
  end.

Section queries.
(** SQLite's [AVG], [None] for NULL. *)
Context (AVG : list float64 → option float64).
(** The row a [LIMIT 1] without an order keeps. *)
Context (limit1 : list (string * string * Z) → option (string * string * Z)).

Definition aggregate (agg : string) (l : list float64) : option float64 :=
  if decide (agg = "max"%string) then head (sort_by (λ v, Desc (real_key v)) l)
  else if decide (agg = "min"%string) then head (sort_by real_key l)
  else AVG l.

Record SqlRow := mkSqlRow { sq_group : option string; sq_agg : option float64; sq_count : Z }.

Definition sql_row (agg : string) (g : option string) (l : list Joined) : SqlRow :=
  mkSqlRow g (aggregate agg (jn_value <$> l)) (Z.of_nat (length l)).

(** Without GROUP BY there is one row, also for no input. *)
Definition sql_groups (d : DB) (q : AnalyticsQuery) : list SqlRow :=
  let g := dimension_of (aq_GroupBy q) in
  let l := matching d q in
  match g with
  | NoGroup => [sql_row (aq_Agg q) None l]
  | _ => (λ k, sql_row (aq_Agg q) k (filter (λ j, group_of d g j = k) l)) <$> remove_dups (group_of d g <$> l)
  end.

(** NULL is below every value. *)
Definition value_key (v : option float64) : Z * Z := match v with None => (-3, 0) | Some v => real_key v end.
Definition group_key (g : option string) : Z * string := match g with None => (0, EmptyString) | Some s => (1, s) end.

(** The ORDER BY of the query; ties, which SQL leaves open, by group. *)
Definition order_rows (o : string) (l : list SqlRow) : list SqlRow :=
  if decide (o = EmptyString ∨ o = "value_desc"%string) then sort_by (λ r, (Desc (value_key (sq_agg r)), group_key (sq_group r))) l
  else if decide (o = "value_asc"%string) then sort_by (λ r, (value_key (sq_agg r), group_key (sq_group r))) l
  else if decide (o = "count_desc"%string) then
    sort_by (λ r, (Desc (sq_count r), Desc (value_key (sq_agg r)), group_key (sq_group r))) l
  else if decide (o = "group_asc"%string) then sort_by (λ r, group_key (sq_group r)) l
  else l.

Definition sql_select (d : DB) (q : AnalyticsQuery) : list SqlRow :=
  take (Z.to_nat (aq_Limit q)) (order_rows (aq_OrderBy q) (sql_groups d q)).

(** The scan of one row; a NULL aggregate is skipped. *)
Definition scan_row (r : SqlRow) : option AnalyticsRow :=
  v ← sq_agg r;
  Some (mkAnalyticsRow (default EmptyString (sq_group r)) v (sq_count r) EmptyString EmptyString 0 (bool_decide (sq_group r = None))).

(** The last clause of the lookup. *)
Definition in_group (d : DB) (g : dimension) (row : AnalyticsRow) (j : Joined) : Prop :=
  match g with
  | NoGroup => True
  | ByExperiment => ParseInt (an_Group row) = Some (rr_experiment_id (jn_row j))
  | ByStatus => rr_status (jn_row j) = an_Group row
  | ByParam k => params d !! (jn_run j, k) = if an_groupIsNull row then None else Some (an_Group row)
  | ByTag k => tags d !! (jn_run j, k) = if an_groupIsNull row then None else Some (an_Group row)
  end.
#[local] Instance in_group_dec d g row j : Decision (in_group d g row j).
Proof. unfold in_group. destruct g; apply _. Defined.

Definition best_rows (d : DB) (q : AnalyticsQuery) (row : AnalyticsRow) : list Joined :=
  fst <$> filter (λ p, jn_value p.1 = an_AggValue row ∧ common_holds q p ∧ in_group d (dimension_of (aq_GroupBy q)) row p.1)
    (joined d (aq_Metric q)).

Definition best_columns (j : Joined) : string * string * Z :=
  (jn_run j, coalesce (rr_name (jn_row j)), rr_experiment_id (jn_row j)).

Definition set_best (row : AnalyticsRow) (b : string * string * Z) : AnalyticsRow :=
  mkAnalyticsRow (an_Group row) (an_AggValue row) (an_RunCount row) b.1.1 b.1.2 b.2 (an_groupIsNull row).

Definition resolveBestRun (d : DB) (q : AnalyticsQuery) (row : AnalyticsRow) : AnalyticsRow :=
  match limit1 (best_columns <$> best_rows d q row) with Some b => set_best row b | None => row end.

Definition resolveBestRuns (d : DB) (q : AnalyticsQuery) (l : list AnalyticsRow) : list AnalyticsRow := resolveBestRun d q <$> l.

Definition RunAnalytics (q : AnalyticsQuery) : M AnalyticsResult :=
  _ ← lift (Validate q);
  d ← get;
  let q := with_defaults q in
  let out := omap scan_row (sql_select d q) in
  let total := foldr (λ r n, an_RunCount r + n) 0 out in
  mret (mkAnalyticsResult (if decide (aq_Agg q = "max"%string ∨ aq_Agg q = "min"%string) then resolveBestRuns d q out else out) total).

(** ** The handler

    The prefix [validate:] of the error tells the reply. *)
Definition Handler_AnalyticsQuery (ws : string) (body : option AnalyticsQuery) : M (Reply AnalyticsResult) :=
  with_body body (λ q,
    let q := with_workspace ws q in
    match Validate q with
    | Err _ => mret (reply_error 400 "INVALID_PARAMETER_VALUE")
    | Ok _ => let! res := RunAnalytics q in write_status 200 res
    end).
End queries.

(** * Laws *)

(** ** The statement text *)

Lemma Join_empty_cons x l : Join EmptyString (x :: l) = x +:+ Join EmptyString l.
Proof. unfold Join. destruct l as [|y l]; [done|]. cbn [foldr]. done. Qed.

Lemma concat_sql_cons x l : concat_sql (x :: l) = (x.1 +:+ (concat_sql l).1, x.2 ++ (concat_sql l).2).
Proof. unfold concat_sql. cbn [fmap list_fmap concat fst snd]. by rewrite Join_empty_cons. Qed.

Definition one_mark_each (p : string * list sqlval) : Prop := count_marks p.1 = length p.2.

Lemma concat_sql_marks l : Forall one_mark_each l → one_mark_each (concat_sql l).
Proof.
  induction 1 as [|x l Hx Hl IH]; [done|]. rewrite concat_sql_cons. unfold one_mark_each in *. cbn [fst snd].
  rewrite count_marks_app, length_app. lia.
Qed.

Lemma count_in_marks n : count_marks (in_marks n) = n.
Proof.
  unfold in_marks. destruct n as [|n]; [done|]. cbn [replicate Join]. rewrite count_marks_app. cbn [count_marks Ascii.eqb Bool.eqb].
  assert (count_marks (foldr (λ y acc, "," +:+ y +:+ acc) EmptyString (replicate n "?"%string)) = n) as ->; [|done].
  induction n as [|n IH]; [done|]. cbn [replicate foldr]. by rewrite !count_marks_app, IH.
Qed.

Lemma in_clause_marks {A} i c (bind : A → sqlval) l :
  count_marks i = 0%nat → count_marks c = 0%nat → one_mark_each (in_clause i c bind l).
Proof.
  intros Hi Hc. unfold in_clause, one_mark_each. case_decide; [done|]. cbn [fst snd].
  rewrite !count_marks_app, Hi, Hc, count_in_marks, length_fmap. change (count_marks nl) with 0%nat. cbn. lia.
Qed.

Lemma opt_clause_marks i t v : count_marks i = 0%nat → count_marks t = 1%nat → one_mark_each (opt_clause i t v).
Proof. intros Hi Ht. unfold opt_clause, one_mark_each. destruct v; [|done]. cbn [fst snd]. by rewrite !count_marks_app, Hi, Ht. Qed.

Lemma allowed_no_marks q : count_marks (default EmptyString (allowedLifecycle (aw_Lifecycle (aq_Where q)))) = 0%nat ∧
  count_marks (default EmptyString (allowedAggs (aq_Agg q))) = 0%nat ∧ count_marks (order_sql (aq_OrderBy q)) = 0%nat.
Proof. unfold allowedLifecycle, allowedAggs, order_sql. split_and!; repeat case_decide; done. Qed.

Lemma common_clauses_marks i q : count_marks i = 0%nat → Forall one_mark_each (common_clauses i q).
Proof.
  intros Hi. destruct (allowed_no_marks q) as (H1 & _ & _). unfold common_clauses. repeat constructor.
  - unfold one_mark_each. cbn [fst snd]. by rewrite count_marks_app, Hi.
  - unfold one_mark_each. cbn [fst snd]. by rewrite !count_marks_app, Hi, H1.
  - by apply in_clause_marks.
  - by apply opt_clause_marks.
  - by apply in_clause_marks.
Qed.

Lemma build_marks q : one_mark_each (buildAnalyticsSQL q).
Proof.
  unfold buildAnalyticsSQL. destruct (allowed_no_marks q) as (_ & H2 & H3).
  destruct (group_sql (dimension_of (aq_GroupBy q))) as [[[groupExpr groupJoin] groupGroupBy] key] eqn:E.
  assert (count_marks groupExpr = 0%nat ∧ count_marks groupGroupBy = 0%nat ∧
    count_marks (if decide (groupJoin = EmptyString) then EmptyString else groupJoin +:+ nl) = length key) as (Hg & Hb & Hj)
    by (destruct (dimension_of _); injection E as <- <- <- <-; done).
  apply concat_sql_marks. apply Forall_app. split; [|apply Forall_app; split; [by apply common_clauses_marks|]].
  - repeat constructor; [|done]. unfold one_mark_each. cbn [fst snd]. by rewrite !count_marks_app, Hg, H2.
  - repeat constructor; [by apply opt_clause_marks|by apply opt_clause_marks| |exact H3].
    unfold one_mark_each. cbn [fst snd]. destruct (decide (groupGroupBy = EmptyString)); [done|]. by rewrite !count_marks_app, Hb.
Qed.

Lemma best_marks q row p : best_sql q row = Some p → one_mark_each p.
Proof.
  unfold best_sql. set (g := dimension_of _). destruct (best_group g row) as [group|] eqn:E; [|done]. intros Hp. apply (inj Some) in Hp as <-.
  assert (one_mark_each group) as Hg.
  { unfold best_group in E. destruct g; [injection E as <-; done|destruct (ParseInt _); [injection E as <-|]; done|injection E as <-; done|..];
      injection E as <-; destruct (an_groupIsNull row); done. }
  apply concat_sql_marks. apply Forall_app. split; [|apply Forall_app; split; [by apply common_clauses_marks|by repeat constructor]].
  repeat constructor. by destruct g.
Qed.

Lemma same_decision P Q `{Decision P, Decision Q} : bool_decide P = bool_decide Q → P ↔ Q.
Proof. intros E. by rewrite <- (bool_decide_eq_true P), E, bool_decide_eq_true. Qed.

(** The choices of the query that shape the text. *)
Definition dimension_shape (g : dimension) : dimension :=
  match g with ByParam _ => ByParam EmptyString | ByTag _ => ByTag EmptyString | g => g end.

Definition shape (q : AnalyticsQuery) : option string * dimension * option string * nat * bool * nat * bool * bool * string :=
  let w := aq_Where q in
  (allowedAggs (aq_Agg q), dimension_shape (dimension_of (aq_GroupBy q)), allowedLifecycle (aw_Lifecycle w),
   length (aw_ExperimentIDs w), bool_decide (0 < aw_TimeAfter w), length (aw_Status w),
   bool_decide (aw_MinMetric w = None), bool_decide (aw_MaxMetric w = None), order_sql (aq_OrderBy q)).

Lemma in_clause_text {A} i c (bind : A → sqlval) l l' : length l = length l' → (in_clause i c bind l).1 = (in_clause i c bind l').1.
Proof. intros Hl. unfold in_clause. destruct l, l'; try done. rewrite !decide_False by done. cbn [fst]. by rewrite Hl. Qed.

Lemma opt_clause_text i t v v' : (v = None ↔ v' = None) → (opt_clause i t v).1 = (opt_clause i t v').1.
Proof. unfold opt_clause. destruct v, v'; naive_solver. Qed.

Lemma common_clauses_text i q q' : shape q = shape q' → (common_clauses i q).*1 = (common_clauses i q').*1.
Proof.
  unfold shape. intros [= _ _ Hl He Ht Hs _ _ _]. unfold common_clauses. cbn [fmap list_fmap fst]. rewrite Hl.
  rewrite (in_clause_text i "r.experiment_id" SInt _ (aw_ExperimentIDs (aq_Where q'))) by done.
  rewrite (in_clause_text i "r.status" SText _ (aw_Status (aq_Where q'))) by done.
  do 3 f_equal. f_equal. apply opt_clause_text. apply same_decision in Ht. repeat case_decide; naive_solver.
Qed.

Lemma concat_sql_text l l' : l.*1 = l'.*1 → (concat_sql l).1 = (concat_sql l').1.
Proof. unfold concat_sql. cbn [fst]. by intros ->. Qed.

Lemma build_text q q' : shape q = shape q' → (buildAnalyticsSQL q).1 = (buildAnalyticsSQL q').1.
Proof.
  intros Hs. pose proof (common_clauses_text "    " q q' Hs) as Hc. unfold shape in Hs. injection Hs as Ha Hg _ _ _ _ Hmin Hmax Ho.
  apply same_decision in Hmin, Hmax. unfold buildAnalyticsSQL.
  assert (∃ e j b k k', group_sql (dimension_of (aq_GroupBy q)) = (e, j, b, k) ∧ group_sql (dimension_of (aq_GroupBy q')) = (e, j, b, k'))
    as (e & j & b & k & k' & -> & ->).
  { destruct (dimension_of (aq_GroupBy q)), (dimension_of (aq_GroupBy q')); try discriminate Hg; do 5 eexists; done. }
  apply concat_sql_text. rewrite !fmap_app, Hc, Ha, Ho. f_equal. f_equal. cbn [fmap list_fmap fst]. f_equal; [|f_equal];
    apply opt_clause_text; rewrite !fmap_None; done.
Qed.

(** ** The rows *)

Lemma elem_of_joined d m j ws :
  (j, ws) ∈ joined d m ↔
  ∃ o e, metrics_latest d !! (jn_run j, m) = Some (jn_value j, o) ∧ runs d !! jn_run j = Some (jn_row j) ∧
    rows (experiments d) !! rr_experiment_id (jn_row j) = Some e ∧ ws = er_workspace_id e.
Proof.
  unfold joined. rewrite list_elem_of_omap. split.
  - intros ([[R k] [v o]] & Hin & Hj). apply elem_of_map_to_list in Hin. case_decide as Hk; [|done]. subst k.
    destruct (runs d !! R) as [row|] eqn:Hr; [|done]. cbn in Hj. destruct (rows (experiments d) !! rr_experiment_id row) as [e|] eqn:He; [|done].
    cbn in Hj. injection Hj as <- <-. by exists o, e.
  - intros (o & e & H1 & H2 & H3 & ->). exists ((jn_run j, m), (jn_value j, o)). rewrite elem_of_map_to_list. split; [done|].
    rewrite decide_True by done. rewrite H2. cbn. rewrite H3. cbn. by destruct j.
Qed.

(** The runs of a group of the query. *)
Definition group_rows (d : DB) (q : AnalyticsQuery) (k : option string) : list Joined :=
  filter (λ j, group_of d (dimension_of (aq_GroupBy q)) j = k) (matching d q).
Definition groups (d : DB) (q : AnalyticsQuery) : list (option string) :=
  remove_dups (group_of d (dimension_of (aq_GroupBy q)) <$> matching d q).

Definition row_key (r : AnalyticsRow) : option string := if an_groupIsNull r then None else Some (an_Group r).

Lemma head_sort_by_le `{TotalCmp B} {A} (key : A → B) l x : head (sort_by key l) = Some x → x ∈ l ∧ ∀ y, y ∈ l → key_le key x y.
Proof.
  intros Hh. destruct (sort_by key l) as [|x' l'] eqn:E; [done|]. injection Hh as ->.
  pose proof (sort_by_le key l) as Hs. rewrite E in Hs. apply StronglySorted_inv in Hs as [_ Hs]. rewrite Forall_forall in Hs.
  split; [apply (elem_of_sort_by key); rewrite E; left|]. intros y Hy. apply (elem_of_sort_by key) in Hy. rewrite E in Hy.
  apply elem_of_cons in Hy as [->|Hy]; [|auto]. unfold key_le. apply cmp_le_iff. by right.
Qed.

Lemma head_sort_by_some `{TotalCmp B} {A} (key : A → B) l : l ≠ [] → is_Some (head (sort_by key l)).
Proof.
  intros Hl. pose proof (length_sort_by key l) as E. destruct (sort_by key l); [destruct l; done|by eexists].
Qed.

(** [v] is an extreme of the values for the aggregate. *)
Definition beats (agg : string) (v v' : float64) : Prop :=
  if decide (agg = "max"%string) then real_le v' v else real_le v v'.

Section rows.
Context (AVG : list float64 → option float64).
Context (agg : string) (Hagg : agg = "max"%string ∨ agg = "min"%string).

Lemma aggregate_extreme l v : aggregate AVG agg l = Some v → v ∈ l ∧ ∀ v', v' ∈ l → beats agg v v'.
Proof.
  unfold aggregate, beats. case_decide.
  - intros [H1 H2]%head_sort_by_le. split; [done|]. intros v' Hv'. specialize (H2 v' Hv'). unfold key_le, real_le, cmp_le in *.
    exact H2.
  - destruct Hagg as [|H2]; [done|]. rewrite decide_True by done. intros [H3 H4]%head_sort_by_le. by split.
Qed.

Lemma aggregate_some l : l ≠ [] → is_Some (aggregate AVG agg l).
Proof.
  intros Hl. unfold aggregate. case_decide; [by apply head_sort_by_some|]. destruct Hagg as [|]; [done|].
  rewrite decide_True by done. by apply head_sort_by_some.
Qed.
End rows.

Lemma elem_of_groups d q k : k ∈ groups d q ↔ ∃ j, j ∈ group_rows d q k.
Proof.
  unfold groups, group_rows. rewrite elem_of_remove_dups, list_elem_of_fmap. split.
  - intros (j & -> & Hj). exists j. by apply list_elem_of_filter.
  - intros (j & [Hk Hj]%list_elem_of_filter). by exists j.
Qed.

Lemma group_rows_ungrouped d q : dimension_of (aq_GroupBy q) = NoGroup → group_rows d q None = matching d q.
Proof. intros Hg. unfold group_rows. rewrite Hg. by apply filter_all. Qed.

(** The rows with a value are the rows of the groups, however grouped. *)
Lemma sql_groups_rows AVG d q r :
  aggregate AVG (aq_Agg q) [] = None →
  r ∈ sql_groups AVG d q → is_Some (sq_agg r) → sq_group r ∈ groups d q ∧ r = sql_row AVG (aq_Agg q) (sq_group r) (group_rows d q (sq_group r)).
Proof.
  intros Hempty Hr Hs. unfold sql_groups in Hr. destruct (dimension_of (aq_GroupBy q)) as [| | |key|key] eqn:Hg.
  2-5: apply list_elem_of_fmap in Hr as (k & -> & Hk); cbn [sq_group sql_row]; unfold groups, group_rows; rewrite Hg; by split.
  apply list_elem_of_singleton in Hr as ->. cbn [sq_group sql_row]. rewrite group_rows_ungrouped by done. split; [|done].
  cbn [sq_agg sql_row] in Hs. destruct (matching d q) as [|j l] eqn:E; [cbn in Hs; rewrite Hempty in Hs; by destruct Hs|].
  apply elem_of_groups. exists j. rewrite group_rows_ungrouped, E by done. left.
Qed.

Lemma groups_sql_rows AVG d q k : k ∈ groups d q → sql_row AVG (aq_Agg q) k (group_rows d q k) ∈ sql_groups AVG d q.
Proof.
  intros Hk. unfold sql_groups. destruct (dimension_of (aq_GroupBy q)) as [| | |key|key] eqn:Hg.
  2-5: apply list_elem_of_fmap; exists k; split; [unfold group_rows; by rewrite Hg|unfold groups in Hk; by rewrite Hg in Hk].
  assert (k = None) as ->.
  { unfold groups in Hk. rewrite Hg in Hk. apply elem_of_remove_dups, list_elem_of_fmap in Hk as (? & -> & _). done. }
  rewrite group_rows_ungrouped by done. apply list_elem_of_singleton. done.
Qed.

Lemma sql_groups_NoDup AVG d q : NoDup (sq_group <$> sql_groups AVG d q).
Proof.
  unfold sql_groups. destruct (dimension_of (aq_GroupBy q)) eqn:Hg; [by apply NoDup_singleton|..]; rewrite <- list_fmap_compose;
    unfold compose; cbn [sq_group sql_row]; rewrite list_fmap_id; apply NoDup_remove_dups.
Qed.

(** ** The best runs *)

(** What [LIMIT 1] promises. *)
Class Limit1 (limit1 : list (string * string * Z) → option (string * string * Z)) : Prop := {
  limit1_some l : l ≠ [] → is_Some (limit1 l);
  limit1_elem l x : limit1 l = Some x → x ∈ l
}.

(** The ids of experiments are [int64]. *)
Definition ids_ok (d : DB) : Prop := ∀ R row, runs d !! R = Some row → in_int64 (rr_experiment_id row).

Lemma elem_of_matching d q j :
  j ∈ matching d q ↔ ∃ ws, (j, ws) ∈ joined d (aq_Metric q) ∧ common_holds q (j, ws) ∧
    at_least (aw_MinMetric (aq_Where q)) (jn_value j) ∧ bounded_by (aw_MaxMetric (aq_Where q)) (jn_value j).
Proof.
  unfold matching. rewrite list_elem_of_fmap. split.
  - intros ([j' ws] & -> & [H1 H2]%list_elem_of_filter). cbn in *. exists ws. tauto.
  - intros (ws & H1 & H2 & H3 & H4). exists (j, ws). split; [done|]. apply list_elem_of_filter. done.
Qed.

Lemma in_group_of d g row j j0 :
  in_int64 (rr_experiment_id (jn_row j)) → in_int64 (rr_experiment_id (jn_row j0)) →
  row_key row = group_of d g j0 → in_group d g row j ↔ group_of d g j = row_key row.
Proof.
  intros Hj Hj0 Hk. unfold in_group, row_key in *. destruct g; cbn [group_of] in *; destruct (an_groupIsNull row); try done.
  - injection Hk as Hk. rewrite Hk, ParseInt_FormatInt by done. split; [by intros [= ->]|].
    intros [= E]. f_equal. apply (f_equal ParseInt) in E. rewrite !ParseInt_FormatInt in E by done. congruence.
  - split; congruence.
Qed.

Section best.
Context (AVG : list float64 → option float64).
Context (limit1 : list (string * string * Z) → option (string * string * Z)) `{!Limit1 limit1}.
Context (d : DB) (q : AnalyticsQuery) (Hids : ids_ok d) (Hagg : aq_Agg q = "max"%string ∨ aq_Agg q = "min"%string).

Lemma joined_int64 j ws : (j, ws) ∈ joined d (aq_Metric q) → in_int64 (rr_experiment_id (jn_row j)).
Proof. intros (o & e & _ & Hr & _)%elem_of_joined. by apply Hids in Hr. Qed.

Lemma best_rows_spec row j0 :
  j0 ∈ matching d q → row_key row = group_of d (dimension_of (aq_GroupBy q)) j0 → an_AggValue row = jn_value j0 →
  ∀ j, j ∈ best_rows d q row ↔ j ∈ group_rows d q (row_key row) ∧ jn_value j = an_AggValue row.
Proof.
  intros (ws0 & Hj0 & _ & Hmin & Hmax)%elem_of_matching Hk Hv j. apply joined_int64 in Hj0.
  unfold best_rows, group_rows. rewrite list_elem_of_filter, elem_of_matching, list_elem_of_fmap. split.
  - intros ([j' ws] & -> & [(H1 & H2 & H3) H4]%list_elem_of_filter). cbn [fst] in *. split; [|done]. split.
    + apply (in_group_of d _ row j' j0) in H3; [done|by eapply joined_int64|done..].
    + exists ws. rewrite H1, Hv. done.
  - intros [[H1 (ws & H2 & H3 & _)] H4]. exists (j, ws). split; [done|]. apply list_elem_of_filter. split; [|done].
    cbn [fst]. split; [done|]. split; [done|]. apply (in_group_of d _ row j j0); [by eapply joined_int64|done..].
Qed.

(** The row of a group: its runs are counted, no run of it has a better value,
    and the best run is one of them and has the value. *)
Definition describes (r : AnalyticsRow) : Prop :=
  let l := group_rows d q (row_key r) in
  an_RunCount r = Z.of_nat (length l) ∧ (∀ j, j ∈ l → beats (aq_Agg q) (an_AggValue r) (jn_value j)) ∧
  ∃ j, j ∈ l ∧ jn_value j = an_AggValue r ∧ (an_BestRunID r, an_BestRunName r, an_BestExpID r) = best_columns j.

Lemma aggregate_nil : aggregate AVG (aq_Agg q) [] = None.
Proof. unfold aggregate. destruct Hagg as [->| ->]; done. Qed.

Lemma scan_row_key r row : scan_row r = Some row → row_key row = sq_group r ∧ sq_agg r = Some (an_AggValue row) ∧ an_RunCount row = sq_count r.
Proof. unfold scan_row, row_key. destruct r as [[g|] [v|] n]; cbn; intros [= <-]; done. Qed.

Lemma resolve_describes r row :
  r ∈ sql_groups AVG d q → scan_row r = Some row → describes (resolveBestRun limit1 d q row) ∧ row_key (resolveBestRun limit1 d q row) = sq_group r.
Proof.
  intros Hr Hs. destruct (scan_row_key _ _ Hs) as (Hk & Ha & Hc).
  destruct (sql_groups_rows AVG d q r aggregate_nil Hr) as [Hg E]; [by rewrite Ha|]. rewrite E in Ha, Hc. cbn [sq_agg sql_row sq_count] in Ha, Hc.
  destruct (aggregate_extreme AVG (aq_Agg q) Hagg _ _ Ha) as [Hin Hbest]. apply list_elem_of_fmap in Hin as (j0 & Hv0 & Hj0).
  pose proof Hj0 as [Hk0 Hm0]%list_elem_of_filter. rewrite <- Hk in Hk0, Hc, Ha, Hbest, Hj0.
  pose proof (best_rows_spec row j0 Hm0 (eq_sym Hk0) Hv0) as Hb. unfold resolveBestRun.
  destruct (limit1_some (best_columns <$> best_rows d q row)) as [b Hb'].
  { intros En%fmap_nil_inv. assert (j0 ∈ best_rows d q row) as Hx by by apply Hb. rewrite En in Hx. by apply elem_of_nil in Hx. }
  rewrite Hb'. apply limit1_elem, list_elem_of_fmap in Hb' as (j & -> & Hj). apply Hb in Hj as [Hj Hjv].
  split; [|by rewrite <- Hk]. unfold describes. cbn [an_RunCount an_AggValue an_BestRunID an_BestRunName an_BestExpID set_best fst snd].
  change (row_key (set_best row (best_columns j))) with (row_key row). split; [done|]. split; [|by exists j].
  intros j' Hj'. apply Hbest. by apply list_elem_of_fmap_2.
Qed.
End best.

Lemma order_rows_perm o l : order_rows o l ≡ₚ l.
Proof. unfold order_rows. repeat case_decide; rewrite ?sort_by_perm; done. Qed.

Lemma omap_scan_keys l : row_key <$> omap scan_row l `sublist_of` sq_group <$> l.
Proof.
  induction l as [|r l IH]; [done|]. cbn [omap list_omap fmap list_fmap]. destruct (scan_row r) as [row|] eqn:E; [|by apply sublist_cons].
  cbn [fmap list_fmap]. rewrite (proj1 (scan_row_key _ _ E)). by apply sublist_skip.
Qed.

(** A row that is cut off does not come before one that is kept. *)
Lemma take_sorted {A K} `{TotalCmp K} (f : A → K) n l r r' :
  r ∈ take n (sort_by f l) → r' ∈ l → r' ∉ take n (sort_by f l) → key_le f r r'.
Proof.
  set (s := sort_by f l). intros Hr Hr' Hout. pose proof (sort_by_le f l) as Hs. fold s in Hs.
  rewrite <- (take_drop n s) in Hs. apply StronglySorted_app in Hs as (Hx & _ & _). apply Hx; [done|].
  assert (r' ∈ s) as Hin by by apply elem_of_sort_by. rewrite <- (take_drop n s), elem_of_app in Hin. tauto.
Qed.

Lemma take_order n o l r r' :
  r ∈ take n (order_rows o l) → r' ∈ l → r' ∉ take n (order_rows o l) →
  (o = EmptyString ∨ o = "value_desc"%string → cmp_le (value_key (sq_agg r')) (value_key (sq_agg r))) ∧
  (o = "value_asc"%string → cmp_le (value_key (sq_agg r)) (value_key (sq_agg r'))) ∧
  (o = "count_desc"%string → sq_count r' ≤ sq_count r).
Proof.
  intros Hr Hr' Hout. unfold order_rows in *. split_and!; intros Ho.
  - rewrite decide_True in Hr, Hout by done. pose proof (take_sorted _ _ _ _ _ Hr Hr' Hout) as Hx.
    intros E. apply Hx. cbn in E |- *. by rewrite E.
  - subst o. cbn in Hr, Hout. pose proof (take_sorted _ _ _ _ _ Hr Hr' Hout) as Hx.
    intros E. apply Hx. cbn in E |- *. by rewrite E.
  - subst o. cbn in Hr, Hout. pose proof (take_sorted _ _ _ _ _ Hr Hr' Hout) as Hx.
    apply Z.nlt_ge. intros E%Z.compare_lt_iff. apply Hx. cbn. rewrite Z.compare_antisym, E. done.
Qed.

Lemma elem_of_take_1 {A} n (l : list A) x : x ∈ take n l → x ∈ l.
Proof. intros Hx. rewrite <- (take_drop n l). apply elem_of_app. by left. Qed.

Section shown.
Context (AVG : list float64 → option float64).
Context (limit1 : list (string * string * Z) → option (string * string * Z)) `{!Limit1 limit1}.
Context (d : DB) (q : AnalyticsQuery) (Hids : ids_ok d) (Hagg : aq_Agg q = "max"%string ∨ aq_Agg q = "min"%string).

Definition shown : list AnalyticsRow := resolveBestRuns limit1 d q (omap scan_row (sql_select AVG d q)).
Notation best_of k := (sql_row AVG (aq_Agg q) k (group_rows d q k)).
Notation group j := (group_of d (dimension_of (aq_GroupBy q)) j).

Lemma shown_keys : row_key <$> shown = row_key <$> omap scan_row (sql_select AVG d q).
Proof.
  unfold shown, resolveBestRuns. rewrite <- list_fmap_compose. apply list_fmap_ext. intros i row _.
  unfold compose, resolveBestRun. by case_match.
Qed.

Lemma shown_NoDup : NoDup (row_key <$> shown).
Proof.
  rewrite shown_keys. eapply sublist_NoDup; [|apply omap_scan_keys]. unfold sql_select. rewrite fmap_take.
  eapply sublist_NoDup; [|apply sublist_take]. rewrite order_rows_perm. apply sql_groups_NoDup.
Qed.

Lemma shown_length : (length shown ≤ Z.to_nat (aq_Limit q))%nat.
Proof.
  assert (length shown = length (row_key <$> shown)) as -> by by rewrite length_fmap. rewrite shown_keys.
  etransitivity; [apply sublist_length, omap_scan_keys|]. rewrite length_fmap. unfold sql_select. rewrite length_take. lia.
Qed.

Lemma shown_row r : r ∈ shown → ∃ sr, sr ∈ sql_select AVG d q ∧ sq_agg sr = Some (an_AggValue r) ∧ an_RunCount r = sq_count sr ∧ describes d q r.
Proof.
  intros (row & -> & (sr & Hsr & Hrow)%list_elem_of_omap)%list_elem_of_fmap. exists sr. split; [done|].
  assert (sr ∈ sql_groups AVG d q) as Hin by (apply elem_of_take_1 in Hsr; by rewrite order_rows_perm in Hsr).
  destruct (scan_row_key _ _ Hrow) as (_ & -> & Hc). split_and!; [..|by apply (resolve_describes AVG limit1 d q Hids Hagg sr row)];
    rewrite <- ?Hc; unfold resolveBestRun; by case_match.
Qed.

Lemma group_value k : k ∈ groups d q → ∃ v, sq_agg (best_of k) = Some v ∧ ∀ j, j ∈ group_rows d q k → beats (aq_Agg q) v (jn_value j).
Proof.
  intros (j & Hj)%elem_of_groups. cbn [sq_agg sql_row].
  destruct (aggregate_some AVG (aq_Agg q) Hagg (jn_value <$> group_rows d q k)) as [v Hval].
  { intros E%fmap_nil_inv. rewrite E in Hj. by apply elem_of_nil in Hj. }
  exists v. split; [done|]. intros j' Hj'. apply (aggregate_extreme AVG (aq_Agg q) Hagg _ _ Hval). by apply list_elem_of_fmap_2.
Qed.

Lemma selected_shown k : k ∈ groups d q → best_of k ∈ sql_select AVG d q → k ∈ row_key <$> shown.
Proof.
  intros Hk Hin. destruct (group_value k Hk) as (v & Hval & _). rewrite shown_keys, list_elem_of_fmap.
  destruct (scan_row (best_of k)) as [row|] eqn:E; [|unfold scan_row in E; by rewrite Hval in E].
  exists row. split; [by rewrite (proj1 (scan_row_key _ _ E))|]. apply list_elem_of_omap. by eexists.
Qed.

Lemma matching_group j : j ∈ matching d q → group j ∈ groups d q ∧ j ∈ group_rows d q (group j).
Proof.
  intros Hj. assert (j ∈ group_rows d q (group j)) as Hin by by apply list_elem_of_filter.
  split; [|done]. apply elem_of_groups. by exists j.
Qed.

Lemma length_sql_groups : (length (sql_groups AVG d q) ≤ 1 `max` length (groups d q))%nat.
Proof.
  unfold sql_groups, groups. destruct (dimension_of (aq_GroupBy q)); [cbn [length]; lia|..]; rewrite length_fmap; lia.
Qed.

Lemma all_shown j : (1 `max` length (groups d q) ≤ Z.to_nat (aq_Limit q))%nat → j ∈ matching d q → group j ∈ row_key <$> shown.
Proof.
  intros Hlim Hj. destruct (matching_group j Hj) as [Hg _]. apply selected_shown; [done|]. unfold sql_select.
  rewrite take_ge by (rewrite order_rows_perm; pose proof length_sql_groups; lia). rewrite order_rows_perm. by apply groups_sql_rows.
Qed.

(** What the limit cuts off. *)
Lemma cut_off j r : j ∈ matching d q → r ∈ shown → group j ∉ row_key <$> shown →
  (aq_Agg q = "max"%string → aq_OrderBy q = EmptyString ∨ aq_OrderBy q = "value_desc"%string → real_le (jn_value j) (an_AggValue r)) ∧
  (aq_Agg q = "min"%string → aq_OrderBy q = "value_asc"%string → real_le (an_AggValue r) (jn_value j)) ∧
  (aq_OrderBy q = "count_desc"%string → Z.of_nat (length (group_rows d q (group j))) ≤ an_RunCount r).
Proof.
  intros Hj Hr Hout. destruct (shown_row r Hr) as (sr & Hsr & Ha & Hc & _). destruct (matching_group j Hj) as [Hg Hin].
  destruct (group_value _ Hg) as (v & Hval & Hb). specialize (Hb j Hin).
  destruct (take_order _ _ _ _ _ Hsr (groups_sql_rows AVG d q _ Hg)) as (H1 & H2 & H3).
  { intros Hsel. by apply Hout, selected_shown. }
  rewrite Ha, Hval in H1, H2. unfold beats in Hb. split_and!.
  - intros Hm Ho. rewrite decide_True in Hb by done. unfold real_le in *. etransitivity; [exact Hb|]. by apply H1.
  - intros Hm Ho. rewrite Hm in Hb. rewrite decide_False in Hb by done. unfold real_le in *. etransitivity; [|exact Hb]. by apply H2.
  - intros Ho. rewrite Hc. by apply H3.
Qed.
End shown.

(** The runs a query ranges over are those of its workspace. *)
Lemma matching_confined d q j : j ∈ matching d q → ∃ e o,
  runs d !! jn_run j = Some (jn_row j) ∧ metrics_latest d !! (jn_run j, aq_Metric q) = Some (jn_value j, o) ∧
  rows (experiments d) !! rr_experiment_id (jn_row j) = Some e ∧ er_workspace_id e = aq_WorkspaceID q.
Proof.
  intros (ws & (o & e & H1 & H2 & H3 & ->)%elem_of_joined & Hc & _)%elem_of_matching. exists e, o. split_and!; try done. apply Hc.
Qed.

Lemma with_defaults_limit q : Validate q = Ok tt → 1 ≤ aq_Limit (with_defaults q) ≤ 1000.
Proof.
  unfold Validate, guard_err. intros Hv. assert (0 ≤ aq_Limit q) as H0 by (repeat (case_match; try done); lia).
  cbn [aq_Limit with_defaults]. clear Hv. case_decide; lia.
Qed.

Lemma RunAnalytics_run AVG limit1 q w :
  Validate q = Ok tt → aq_Agg q = "max"%string ∨ aq_Agg q = "min"%string →
  ∃ total, RunAnalytics AVG limit1 q w = (Ok (mkAnalyticsResult (shown AVG limit1 (w_db w) (with_defaults q)) total), w).
Proof.
  intros Hv Hagg. unfold RunAnalytics. rewrite Hv. eexists. unfold mbind, M_bind at 1. cbn [lift].
  unfold mbind, M_bind at 1. cbn [get]. rewrite decide_True by exact Hagg. reflexivity.
Qed.

(** The SQL of an analytics query.  Both statements have one placeholder
    per bound argument, and the text of the aggregation depends only on the
    shape of the query (the aggregate, the family of the group, the lifecycle,
    the order, how many ids and statuses, which bounds): metric, group key,
    workspace, ids, statuses, bounds and limit travel as arguments only. *)
Theorem analytics_parameterised q q' row p :
  best_sql q row = Some p → shape q = shape q' →
  count_marks (buildAnalyticsSQL q).1 = length (buildAnalyticsSQL q).2 ∧ count_marks p.1 = length p.2 ∧
  (buildAnalyticsSQL q).1 = (buildAnalyticsSQL q').1.
Proof. intros Hp Hs. split; [apply build_marks|]. split; [by eapply best_marks|by apply build_text]. Qed.

(** C29: analytics.  A valid query for a maximum or a minimum succeeds, on the
    latest values of the runs of the query's workspace, with at most 1000 rows
    for distinct groups.  Each row counts the runs of its group that pass the
    filters; none of them has a better value than the row, and the best run is
    one of them and has that value (so the second lookup, which leaves out the
    bounds on the value, never picks a run the query excludes).  When the
    groups fit the limit none is missing.  When they do not, which ones are
    shown depends on the order: by falling maxima (the default) no run of a
    group left out beats a maximum that is shown, by growing minima none beats
    a minimum that is shown, and by counts no group left out has more runs than
    one that is shown. *)
Theorem analytics_correct AVG limit1 q w :
  let d := w_db w in
  let q' := with_defaults q in
  let group := group_of d (dimension_of (aq_GroupBy q)) in
  Limit1 limit1 → ids_ok d → Validate q = Ok tt → aq_Agg q = "max"%string ∨ aq_Agg q = "min"%string →
  ∃ res, RunAnalytics AVG limit1 q w = (Ok res, w) ∧ let l := as_Rows res in
    NoDup (row_key <$> l) ∧ (length l ≤ 1000)%nat ∧ Forall (describes d q') l ∧
    (Z.of_nat (length (groups d q')) ≤ aq_Limit q' → ∀ j, j ∈ matching d q' → group j ∈ row_key <$> l) ∧
    (∀ j r, j ∈ matching d q' → r ∈ l → group j ∉ row_key <$> l →
       (aq_Agg q = "max"%string → aq_OrderBy q = EmptyString ∨ aq_OrderBy q = "value_desc"%string → real_le (jn_value j) (an_AggValue r)) ∧
       (aq_Agg q = "min"%string → aq_OrderBy q = "value_asc"%string → real_le (an_AggValue r) (jn_value j)) ∧
       (aq_OrderBy q = "count_desc"%string → Z.of_nat (length (group_rows d q' (group j))) ≤ an_RunCount r)) ∧
    ∀ j, j ∈ matching d q' → ∃ e o, runs d !! jn_run j = Some (jn_row j) ∧
      metrics_latest d !! (jn_run j, aq_Metric q) = Some (jn_value j, o) ∧
      rows (experiments d) !! rr_experiment_id (jn_row j) = Some e ∧ er_workspace_id e = aq_WorkspaceID q'.
Proof.
  intros d q' group Hl1 Hids Hv Hagg. pose proof (with_defaults_limit q Hv) as Hlim. fold q' in Hlim.
  destruct (RunAnalytics_run AVG limit1 q w Hv Hagg) as [total E]. eexists. split; [exact E|]. cbn [as_Rows]. fold d q'. split_and!.
  - apply shown_NoDup.
  - pose proof (shown_length AVG limit1 d q'). lia.
  - apply Forall_forall. intros r Hr. by destruct (shown_row AVG limit1 d q' Hids Hagg r Hr) as (_ & _ & _ & _ & ?).
  - intros Hg j. apply all_shown; [done|lia].
  - intros j r. by apply (cut_off AVG limit1 d q').
  - intros j. apply (matching_confined d q').
Qed.

(** * Witnesses and gaps *)

Module Example16.
Definition value (n : Z) : float64 := FFin (n * unit64).
Definition run (status : string) : RunRow :=
  mkRunRow 1 (Some "trial"%string) status 500 None "" LifecycleActive None None None KindClassic None.
Definition db : DB :=
  set_params {[ ("r1", "lr")%string := "0.1"%string; ("r2", "lr")%string := "0.1"%string; ("r3", "lr")%string := ""%string ]}
  (set_metrics_latest {[ ("r1", "f1")%string := (value 3, (1, 0)); ("r2", "f1")%string := (value 9, (1, 0));
      ("r3", "f1")%string := (value 5, (1, 0)); ("r4", "f1")%string := (value 4, (1, 0)) ]}
  (set_runs {[ "r1"%string := run "FINISHED"; "r2"%string := run "FAILED"; "r3"%string := run "FINISHED"; "r4"%string := run "FINISHED" ]} ex_db)).
Definition bounds : AnalyticsWhere := mkAnalyticsWhere [] 0 "" [] None (Some (value 8)).
Definition query (agg : string) (limit : Z) : AnalyticsQuery := mkAnalyticsQuery "f1" agg "params.lr" bounds "value_desc" limit "default".
Definition first (l : list (string * string * Z)) : option (string * string * Z) := head l.

#[local] Instance first_limit1 : Limit1 first.
Proof.
  split; [intros [|x l]; [done|by eexists]|]. intros [|x l] y; [done|]. intros [= <-]. left.
Qed.

(** Three groups, one of the empty value and one of runs without the
    parameter; [r2] is above the bound. *)
Lemma analytics_correct_witness :
  ∃ res, RunAnalytics (λ _, None) first (query "max" 0) (mkWorld db 0) = (Ok res, mkWorld db 0) ∧ Forall (describes db (with_defaults (query "max" 0))) (as_Rows res) ∧
    (row_key <$> as_Rows res) = [Some ""; None; Some "0.1"]%string ∧ (an_BestRunID <$> as_Rows res) = ["r3"; "r4"; "r1"]%string.
Proof.
  destruct (analytics_correct (λ _, None) first (query "max" 0) (mkWorld db 0)) as (res & E & _ & _ & Hd & _).
  - exact first_limit1.
  - intros R row HR. assert (rr_experiment_id row = 1) as ->; [|unfold in_int64, int64_min, int64_max; lia].
    assert (∀ p, p ∈ map_to_list (runs db) → rr_experiment_id p.2 = 1) as Hall.
    { apply Forall_forall. vm_compute. repeat constructor. }
    apply (Hall (R, row)). by apply elem_of_map_to_list.
  - vm_compute. reflexivity.
  - by left.
  - exists res. split; [exact E|]. split; [exact Hd|]. revert E. vm_compute. intros [= <-]. split; reflexivity.
Defined.

Lemma analytics_parameterised_witness : ∃ p,
  best_sql (query "max" 0) (mkAnalyticsRow "0.1'; DROP TABLE runs; --" (value 3) 1 "" "" 0 false) = Some p ∧ count_marks p.1 = length p.2 ∧
  (buildAnalyticsSQL (query "max" 0)).1 = (buildAnalyticsSQL (with_workspace "'; DROP TABLE runs; --" (query "max" 7))).1.
Proof.
  destruct (best_sql (query "max" 0) (mkAnalyticsRow "0.1'; DROP TABLE runs; --" (value 3) 1 "" "" 0 false)) as [p|] eqn:E; [|discriminate E].
  destruct (analytics_parameterised (query "max" 0) (with_workspace "'; DROP TABLE runs; --" (query "max" 7)) _ p E) as (_ & H1 & H2).
  - vm_compute. reflexivity.
  - exists p. split; [reflexivity|]. split; [exact H1|exact H2].
Defined.

(** The aggregate [last] of the documentation is refused. *)
Example last_refused : Validate (query "last" 0) = Err ErrOther ∧ Validate (query "max" 0) = Ok tt.
Proof. split; vm_compute; reflexivity. Qed.

(** [total_runs_scanned] counts only the groups within the limit: three runs
    pass the filters, one is counted. *)
Example limited_total :
  (λ r, (length (as_Rows r), as_TotalRunsScanned r)) <$> (RunAnalytics (λ _, None) first (query "max" 1) (mkWorld db 0)).1 = Ok (1%nat, 1) ∧
  length (matching db (with_defaults (query "max" 1))) = 3%nat.
Proof. split; vm_compute; reflexivity. Qed.

(** The JSON of a row omits an empty group, so the two kinds of empty group
    look alike to the consumer. *)
Definition group_json (r : AnalyticsRow) : option string := nilIfEmpty (an_Group r).
Example groups_alike :
  (λ res, (group_json <$> as_Rows res, an_groupIsNull <$> as_Rows res)) <$>
    (RunAnalytics (λ _, None) first (query "max" 0) (mkWorld db 0)).1 =
  Ok ([None; None; Some "0.1"%string], [false; true; false]).
Proof. vm_compute. reflexivity. Qed.
End Example16.
