(* ===== verification/Metrics.v ===== *)
(** * The metrics endpoint (internal/metrics, the middleware of internal/server)

    Counter, gauge and histogram families with their series, the text of the
    exposition, the application's set of families, and the middleware that
    records a request.  A family is a value; the pointers to the families of
    the application are positions in the registry. *)

From S2P Require Import Prelude GoStrings Model Float64.
From Stdlib Require Import Ascii.

Open Scope Z_scope.

(** ** Series and label sets *)

Definition MaxSeriesPerFamily : nat := Z.to_nat 10000.
Definition OverflowLabelValue : string := "__overflow__".

Definition nul : ascii := "000".
Definition newline : ascii := "010".
Definition quote : ascii := "034".
Definition equals : ascii := "=".
Definition backslash : ascii := "\".
Definition quoted : string := String quote EmptyString.

(** [k=v] for each key; a missing value is empty. *)
Fixpoint label_pairs (keys values : list string) : list string :=
  match keys with
  | [] => []
  | k :: keys' => (k +:+ String equals (default EmptyString (head values))) :: label_pairs keys' (tail values)
  end.

Definition labelSetKey (keys values : list string) : string := Join (String nul EmptyString) (label_pairs keys values).

Definition boundedKey {V} (key : string) (m : gmap string V) (labelKeys : list string) : string :=
  if decide (labelKeys = [] ∨ (size m < MaxSeriesPerFamily)%nat ∨ is_Some (m !! key)) then key
  else labelSetKey labelKeys ((λ _, OverflowLabelValue) <$> labelKeys).

(** ** Counters *)

Record Counter := mkCounter {
  ct_name : string; ct_help : string; ct_labelKeys : list string; ct_values : gmap string float64 }.

Definition new_counter (name help : string) (labels : list string) : Counter := mkCounter name help labels ∅.

(** [c.values[key] += delta] *)
Definition Counter_Add (delta : float64) (labelValues : list string) (c : Counter) : Counter :=
  let key := boundedKey (labelSetKey (ct_labelKeys c) labelValues) (ct_values c) (ct_labelKeys c) in
  mkCounter (ct_name c) (ct_help c) (ct_labelKeys c)
    (<[key := fadd (default (FFin 0) (ct_values c !! key)) delta]> (ct_values c)).

Definition Counter_Inc (labelValues : list string) (c : Counter) : Counter := Counter_Add (of_int 1) labelValues c.

(** ** Gauges *)

Record Gauge := mkGauge { ga_name : string; ga_help : string; ga_val : float64 }.

Definition new_gauge (name help : string) : Gauge := mkGauge name help (FFin 0).
Definition Gauge_Set (v : float64) (g : Gauge) : Gauge := mkGauge (ga_name g) (ga_help g) v.
Definition Gauge_Add (delta : float64) (g : Gauge) : Gauge := mkGauge (ga_name g) (ga_help g) (fadd (ga_val g) delta).
Definition Gauge_Get (g : Gauge) : float64 := ga_val g.

(** ** Histograms *)

Record histogramSample := mkSample { hs_counts : list Z; hs_sum : float64; hs_count : Z }.

Record Histogram := mkHistogram {
  hg_name : string; hg_help : string; hg_labelKeys : list string; hg_buckets : list float64;
  hg_obs : gmap string histogramSample }.

(** Decimal fractions: [n / 1000] rounded. *)
Definition milli (n : Z) : float64 := fdiv (of_int n) (of_int 1000).
Definition DefaultHistogramBuckets : list float64 := milli <$> [5; 10; 25; 50; 100; 250; 500; 1000; 2500; 5000; 10000].

(** The loop that keeps the first of equal bounds; a NaN equals nothing. *)
Fixpoint unique_buckets (seen : list float64) (l : list float64) : list float64 :=
  match l with
  | [] => []
  | b :: l' =>
      if decide ((b ∈ seen ∧ b ≠ FNaN) ∨ b = FInf false) then unique_buckets seen l' else b :: unique_buckets (b :: seen) l'
  end.

Definition new_histogram (name help : string) (buckets : option (list float64)) (labels : list string) : Histogram :=
  mkHistogram name help labels (sort_by real_key (unique_buckets [] (default DefaultHistogramBuckets buckets))) ∅.

(** [x++] on a [uint64]. *)
Definition incr64 (n : Z) : Z := (n + 1) `mod` 2 ^ 64.

Definition observe_sample (buckets : list float64) (value : float64) (s : histogramSample) : histogramSample :=
  mkSample (zip_with (λ b n, if fleb value b then incr64 n else n) buckets (hs_counts s)) (fadd (hs_sum s) value) (incr64 (hs_count s)).

Definition empty_sample (buckets : list float64) : histogramSample := mkSample (replicate (length buckets) 0) (FFin 0) 0.

Definition Histogram_Observe (value : float64) (labelValues : list string) (h : Histogram) : Histogram :=
  let key := boundedKey (labelSetKey (hg_labelKeys h) labelValues) (hg_obs h) (hg_labelKeys h) in
  mkHistogram (hg_name h) (hg_help h) (hg_labelKeys h) (hg_buckets h)
    (<[key := observe_sample (hg_buckets h) value (default (empty_sample (hg_buckets h)) (hg_obs h !! key))]> (hg_obs h)).

(** ** The exposition *)

(** [strings.ReplaceAll] of a byte. *)
Fixpoint ReplaceByte (c : ascii) (new s : string) : string :=
  match s with
  | EmptyString => EmptyString
  | String a s' => if bool_decide (a = c) then new +:+ ReplaceByte c new s' else String a (ReplaceByte c new s')
  end.

Definition escapeLabelValue (s : string) : string :=
  ReplaceByte newline (String backslash "n") (ReplaceByte quote (String backslash quoted) (ReplaceByte backslash "\\" s)).

(** One part of the key; a part without [=] is written as it is. *)
Definition format_part (part : string) : string :=
  match Cut part "=" with
  | None => part
  | Some (k, v) => k +:+ "=" +:+ quoted +:+ escapeLabelValue v +:+ quoted
  end.

Definition label_text (parts : list string) : string := Join "," (format_part <$> parts).

Definition formatLabels (keys : list string) (setKey : string) : string :=
  if decide (keys = [] ∨ setKey = EmptyString) then EmptyString else "{" +:+ label_text (Split1 nul setKey) +:+ "}".

Definition le_label (le : string) : string := "le=" +:+ quoted +:+ le +:+ quoted +:+ "}".

Definition formatBucketLabels (keys : list string) (setKey le : string) : string :=
  if decide (keys = [] ∨ setKey = EmptyString) then "{" +:+ le_label le
  else let existing := formatLabels keys setKey in stake (slen existing - 1) existing +:+ "," +:+ le_label le.

Section exposition.
(** [strconv.FormatFloat(v, 'g', -1, 64)] of a finite value. *)
Context (FormatFloat : Z → string).

Definition fmtFloat (v : float64) : string :=
  match v with FInf false => "+Inf" | FInf true => "-Inf" | FNaN => "NaN" | FFin z => FormatFloat z end.

Definition line (s : string) : string := s +:+ String newline EmptyString.

Definition header (name help kind : string) : string :=
  line ("# HELP " +:+ name +:+ " " +:+ help) +:+ line ("# TYPE " +:+ name +:+ " " +:+ kind).

Definition lines (l : list string) : string := Join EmptyString (line <$> l).

Definition sorted_series {V} (m : gmap string V) : list (string * V) := sort_by fst (map_to_list m).

Definition Counter_lines (c : Counter) : list string :=
  match sorted_series (ct_values c) with
  | [] => [ct_name c +:+ " 0"]
  | l => (λ p, ct_name c +:+ formatLabels (ct_labelKeys c) p.1 +:+ " " +:+ fmtFloat p.2) <$> l
  end.
Definition Counter_writeTo (c : Counter) : string := header (ct_name c) (ct_help c) "counter" +:+ lines (Counter_lines c).

Definition Gauge_writeTo (g : Gauge) : string :=
  header (ga_name g) (ga_help g) "gauge" +:+ line (ga_name g +:+ " " +:+ fmtFloat (ga_val g)).

Definition snap_lines (h : Histogram) (p : string * histogramSample) : list string :=
  let bucket le n := hg_name h +:+ "_bucket" +:+ formatBucketLabels (hg_labelKeys h) p.1 le +:+ " " +:+ FormatInt n in
  zip_with (λ b n, bucket (fmtFloat b) n) (hg_buckets h) (hs_counts p.2) ++
  [bucket "+Inf" (hs_count p.2);
   hg_name h +:+ "_sum" +:+ formatLabels (hg_labelKeys h) p.1 +:+ " " +:+ fmtFloat (hs_sum p.2);
   hg_name h +:+ "_count" +:+ formatLabels (hg_labelKeys h) p.1 +:+ " " +:+ FormatInt (hs_count p.2)]%string.

Definition zero_lines (h : Histogram) : list string :=
  ((λ b, hg_name h +:+ "_bucket{" +:+ le_label (fmtFloat b) +:+ " 0") <$> hg_buckets h) ++
  [hg_name h +:+ "_bucket{" +:+ le_label "+Inf" +:+ " 0"; hg_name h +:+ "_sum 0"; hg_name h +:+ "_count 0"]%string.

Definition Histogram_lines (h : Histogram) : list string :=
  match sorted_series (hg_obs h) with [] => zero_lines h | l => l ≫= snap_lines h end.
Definition Histogram_writeTo (h : Histogram) : string := header (hg_name h) (hg_help h) "histogram" +:+ lines (Histogram_lines h).

(** ** The registry *)

Record Registry := mkRegistry { rg_counters : list Counter; rg_gauges : list Gauge; rg_histograms : list Histogram }.

Definition NewRegistry : Registry := mkRegistry [] [] [].

Definition add_counter (c : Counter) (r : Registry) : Registry := mkRegistry (rg_counters r ++ [c]) (rg_gauges r) (rg_histograms r).
Definition add_gauge (g : Gauge) (r : Registry) : Registry := mkRegistry (rg_counters r) (rg_gauges r ++ [g]) (rg_histograms r).
Definition add_histogram (h : Histogram) (r : Registry) : Registry := mkRegistry (rg_counters r) (rg_gauges r) (rg_histograms r ++ [h]).

Definition WriteText (r : Registry) : string :=
  Join EmptyString (Counter_writeTo <$> rg_counters r) +:+ Join EmptyString (Gauge_writeTo <$> rg_gauges r) +:+
  Join EmptyString (Histogram_writeTo <$> rg_histograms r) +:+ line "# EOF".
End exposition.

(** ** The application's families

    The fields of [Standard] are the positions below. *)

Definition HTTPRequestsTotal : nat := 0.
Definition RunsCreatedTotal : nat := 1.
Definition MetricsLoggedTotal : nat := 2.
Definition HTTPRequestDurationSeconds : nat := 0.
Definition ActiveSessions : nat := 0.
Definition DBSizeBytes : nat := 1.
Definition BuildInfo : nat := 2.
Definition ProcessCPUSecondsTotal : nat := 3.
Definition ProcessResidentMemBytes : nat := 4.
Definition ProcessOpenFDs : nat := 5.
Definition ProcessGoroutines : nat := 6.

Definition on_counter (i : nat) (f : Counter → Counter) (r : Registry) : Registry :=
  mkRegistry (alter f i (rg_counters r)) (rg_gauges r) (rg_histograms r).
Definition on_gauge (i : nat) (f : Gauge → Gauge) (r : Registry) : Registry :=
  mkRegistry (rg_counters r) (alter f i (rg_gauges r)) (rg_histograms r).
Definition on_histogram (i : nat) (f : Histogram → Histogram) (r : Registry) : Registry :=
  mkRegistry (rg_counters r) (rg_gauges r) (alter f i (rg_histograms r)).

(** On a registry [r] with nothing registered the positions are the ones above. *)
Definition NewStandard (version commit : string) (r : Registry) : Registry :=
  let r := add_counter (new_counter "litemlflow_http_requests_total"
    "Total number of HTTP requests processed, partitioned by method, path template and status code." ["method"; "path"; "status"]%string) r in
  let r := add_histogram (new_histogram "litemlflow_http_request_duration_seconds"
    "HTTP request latency in seconds, partitioned by method and path template." None ["method"; "path"]%string) r in
  let r := add_counter (new_counter "litemlflow_runs_created_total" "Total number of experiment runs created." []) r in
  let r := add_counter (new_counter "litemlflow_metrics_logged_total" "Total number of metric data-points logged (single + batch)." []) r in
  let r := add_gauge (new_gauge "litemlflow_active_sessions" "Number of active user sessions currently stored in the session table.") r in
  let r := add_gauge (new_gauge "litemlflow_db_size_bytes" "Size of the SQLite database file in bytes (refreshed on each /metrics scrape).") r in
  let r := add_gauge (Gauge_Set (of_int 1) (new_gauge "litemlflow_build_info" "Build metadata; value is always 1.")) r in
  let r := add_gauge (new_gauge "litemlflow_process_cpu_seconds_total" "Total user and system CPU time spent in seconds.") r in
  let r := add_gauge (new_gauge "litemlflow_process_resident_memory_bytes" "Resident set size in bytes.") r in
  let r := add_gauge (new_gauge "litemlflow_process_open_fds" "Number of open file descriptors.") r in
  let r := add_gauge (new_gauge "litemlflow_process_goroutines" "Number of goroutines currently running.") r in
  add_counter (Counter_Add (of_int 1) [version; commit] (new_counter "litemlflow_build_info_labels"
    "Build label set; value is always 1. Labels carry version and commit." ["version"; "commit"]%string)) r.

(** *** Readings of the process

    The text of a file, [None] when it cannot be read. *)

Definition is_rss_line (l : string) : bool := HasPrefix l "VmRSS:".

Definition readProcRSS (status : option string) : option Z :=
  data ← status;
  l ← head (filter (λ l, is_rss_line l = true) (Split1 newline data));
  kb ← Fields l !! 1%nat;
  kb ← ParseInt kb;
  Some (wrap64 (kb * 1024)).

Definition readProcCPU (stat : option string) : option float64 :=
  s ← stat;
  closeP ← LastIndex s ")";
  let fields := Fields (TrimSpace (sdrop (closeP + 1) s)) in
  if decide (length fields ≤ 12)%nat then None else
  utime ← fields !! 11%nat ≫= ParseInt;
  stime ← fields !! 12%nat ≫= ParseInt;
  Some (fdiv (of_int (wrap64 (utime + stime))) (of_int 100)).

(** What [RefreshProcess] reads: the goroutines, [ms.Sys], the two files, the
    number of open descriptors and the size of the database file. *)
Record ProcessState := mkProcessState {
  ps_goroutines : Z; ps_sys : Z; ps_status : option string; ps_stat : option string; ps_fds : option Z; ps_dbSize : option Z }.

Definition set_some (i : nat) (v : option float64) (r : Registry) : Registry :=
  match v with Some v => on_gauge i (Gauge_Set v) r | None => r end.

Definition RefreshProcess (dbPath : string) (p : ProcessState) (r : Registry) : Registry :=
  let r := on_gauge ProcessGoroutines (Gauge_Set (of_int (ps_goroutines p))) r in
  let r := on_gauge ProcessResidentMemBytes (Gauge_Set (of_int (default (ps_sys p) (readProcRSS (ps_status p))))) r in
  let r := set_some ProcessCPUSecondsTotal (readProcCPU (ps_stat p)) r in
  let r := set_some ProcessOpenFDs (of_int <$> ps_fds p) r in
  if decide (dbPath = EmptyString) then r else set_some DBSizeBytes (of_int <$> ps_dbSize p) r.

(** ** The middleware *)

Definition standard_methods : list string := ["GET"; "HEAD"; "POST"; "PUT"; "PATCH"; "DELETE"; "OPTIONS"]%string.

Definition metricsMethod (m : string) : string := if decide (m ∈ standard_methods) then m else "OTHER".

(** A finished request: its method, the pattern of the matched route (empty
    when none matched), the status written and the time taken. *)
Record Finished := mkFinished { fq_method : string; fq_pattern : string; fq_status : Z; fq_seconds : float64 }.

Definition path_label (pattern : string) : string := if decide (pattern = EmptyString) then "unmatched" else pattern.

Definition metricsMiddleware (f : Finished) (r : Registry) : Registry :=
  let method := metricsMethod (fq_method f) in
  let path := path_label (fq_pattern f) in
  on_histogram HTTPRequestDurationSeconds (Histogram_Observe (fq_seconds f) [method; path])
    (on_counter HTTPRequestsTotal (Counter_Inc [method; path; FormatInt (fq_status f)]) r).

(** * Laws *)

(** ** What was recorded, and where

    A family with the values it was given in place of what it shows of them:
    newest first, in the series the code chooses. *)

Section series.
Context {A : Type} (keys : list string).

Definition record (x : A * list string) (m : gmap string (list A)) : gmap string (list A) :=
  let key := boundedKey (labelSetKey keys x.2) m keys in <[key := x.1 :: default [] (m !! key)]> m.

(** The last element of the history is the first request. *)
Definition recorded (hist : list (A * list string)) : gmap string (list A) := foldr record ∅ hist.

Lemma recorded_cons x hist : recorded (x :: hist) = record x (recorded hist).
Proof. done. Qed.

Definition overflow_key : string := labelSetKey keys ((λ _, OverflowLabelValue) <$> keys).
Definition total (m : gmap string (list A)) : nat := map_fold (λ _ l n, length l + n)%nat 0%nat m.

Lemma total_insert_new k l m : m !! k = None → total (<[k := l]> m) = (length l + total m)%nat.
Proof. intros Hk. unfold total. rewrite map_fold_insert_L; [done|intros; lia|done]. Qed.

Lemma total_push k x m : total (<[k := x :: default [] (m !! k)]> m) = S (total m).
Proof.
  destruct (m !! k) as [l|] eqn:E; cbn [default]; [|by rewrite total_insert_new].
  rewrite <- (insert_delete_id m k l) at 2 by done. rewrite <- insert_delete_eq.
  rewrite !total_insert_new by apply lookup_delete_eq. cbn. lia.
Qed.

(** Nothing is lost, whichever series it goes to. *)
Lemma total_recorded hist : total (recorded hist) = length hist.
Proof. induction hist as [|x hist IH]; [done|]. rewrite recorded_cons. unfold record. by rewrite total_push, IH. Qed.

Lemma size_delete_insert (m : gmap string (list A)) k k' l :
  (size (delete k' (<[k := l]> m)) ≤ S (size (delete k' m)))%nat ∧
  (k = k' ∨ is_Some (m !! k) → size (delete k' (<[k := l]> m)) ≤ size (delete k' m))%nat.
Proof.
  destruct (decide (k = k')) as [->|Hne]; [rewrite delete_insert_eq; lia|]. rewrite delete_insert_ne, map_size_insert by done.
  rewrite lookup_delete_ne by done. destruct (m !! k) eqn:E; cbn; (split; [lia|]); intros [?|[? ?]]; done || lia.
Qed.

Lemma size_delete_le (m : gmap string (list A)) k : (size (delete k m) ≤ size m ≤ S (size (delete k m)))%nat.
Proof. rewrite map_size_delete. case_match; unfold id; lia. Qed.

(** Beside the overflow series there are at most [MaxSeriesPerFamily]. *)
Lemma series_bounded hist : (size (delete overflow_key (recorded hist)) ≤ MaxSeriesPerFamily)%nat.
Proof.
  induction hist as [|[a v] hist IH]; [cbn [recorded foldr]; rewrite delete_empty, map_size_empty; lia|]. rewrite recorded_cons. unfold record. cbn [fst snd].
  set (m := recorded hist) in *. unfold boundedKey.
  destruct (decide _) as [Hk|Hk]; [|etransitivity; [apply size_delete_insert; by left|done]].
  set (key := labelSetKey keys v) in *. destruct (decide (is_Some (m !! key))) as [Hs|Hs].
  { etransitivity; [apply size_delete_insert; by right|done]. }
  destruct Hk as [Hk|[Hk|Hk]]; [| |done].
  - etransitivity; [apply size_delete_insert; left|done]. unfold key, overflow_key. by rewrite Hk.
  - pose proof (proj1 (size_delete_insert m key overflow_key (a :: default [] (m !! key)))). pose proof (size_delete_le m overflow_key). lia.
Qed.
End series.

Lemma boundedKey_fmap {V W} (f : V → W) key (m : gmap string V) keys : boundedKey key (f <$> m) keys = boundedKey key m keys.
Proof.
  unfold boundedKey. rewrite map_size_fmap, lookup_fmap. apply decide_ext. by rewrite fmap_is_Some.
Qed.

(** An update that commutes with an abstraction of what a series recorded. *)
Lemma record_fmap {A V} (f : list A → V) (upd : option V → V) keys x (m : gmap string (list A)) :
  (∀ o : option (list A), o = m !! boundedKey (labelSetKey keys x.2) m keys → upd (f <$> o) = f (x.1 :: default [] o)) →
  let key := boundedKey (labelSetKey keys x.2) (f <$> m) keys in
  <[key := upd ((f <$> m) !! key)]> (f <$> m) = f <$> record keys x m.
Proof. intros Hupd key. unfold key, record. rewrite boundedKey_fmap, fmap_insert, lookup_fmap, Hupd by done. done. Qed.

(** No series is longer than the history. *)
Lemma total_lookup {A} (m : gmap string (list A)) k l : m !! k = Some l → (length l ≤ total m)%nat.
Proof.
  intros Hk. rewrite <- (insert_delete_id m k l) by done. rewrite total_insert_new by apply lookup_delete_eq. lia.
Qed.

(** *** Counters *)

Definition count_of {A} (l : list A) : float64 := of_int (Z.of_nat (length l)).

Definition inc_all (c : Counter) (hist : list (unit * list string)) : Counter := foldr (λ x, Counter_Inc x.2) c hist.

Lemma inc_all_spec name help keys hist : Z.of_nat (length hist) < 2 ^ 53 →
  inc_all (new_counter name help keys) hist = mkCounter name help keys (count_of <$> recorded keys hist).
Proof.
  induction hist as [|x hist IH]; intros Hn; [cbn; by rewrite fmap_empty|]. cbn [length] in Hn.
  cbn [inc_all foldr]. fold (inc_all (new_counter name help keys) hist). rewrite IH by lia. unfold Counter_Inc, Counter_Add.
  cbn [ct_labelKeys ct_values ct_name ct_help]. f_equal. rewrite recorded_cons.
  apply (record_fmap count_of (λ o, fadd (default (FFin 0) o) (of_int 1))). intros o Ho.
  assert (Z.of_nat (length (default [] o)) + 1 < 2 ^ 53) as Hlen.
  { destruct o as [l|]; [|done]. symmetry in Ho. apply total_lookup in Ho. rewrite total_recorded in Ho. cbn. lia. }
  assert (default (FFin 0) (count_of <$> o) = FFin (Z.of_nat (length (default [] o)) * unit64)) as ->.
  { destruct o as [l|]; [|done]. cbn in *. unfold count_of. apply of_int_exact. lia. }
  unfold count_of. cbn [length]. rewrite Nat2Z.inj_succ, !of_int_exact by lia. rewrite fadd_int by lia. f_equal.
Qed.

(** *** Histograms *)

Definition below (b : float64) (l : list float64) : Z := Z.of_nat (length (filter (λ v, fleb v b = true) l)).

Definition sample_of (buckets l : list float64) : histogramSample :=
  mkSample ((λ b, below b l) <$> buckets) (foldr (λ v s, fadd s v) (FFin 0) l) (Z.of_nat (length l)).

Lemma below_bound b l : 0 ≤ below b l ≤ Z.of_nat (length l).
Proof. unfold below. pose proof (length_filter (λ v, fleb v b = true) l). lia. Qed.

Lemma below_cons b v l : below b (v :: l) = if fleb v b then below b l + 1 else below b l.
Proof. unfold below. rewrite filter_cons. destruct (fleb v b); [rewrite decide_True by done|rewrite decide_False by done]; cbn [length]; lia. Qed.

Lemma incr64_small n : 0 ≤ n < 2 ^ 53 → incr64 n = n + 1.
Proof. intros. unfold incr64. rewrite Z.mod_small; lia. Qed.

Lemma observe_sample_of buckets v l : Z.of_nat (length l) < 2 ^ 53 →
  observe_sample buckets v (sample_of buckets l) = sample_of buckets (v :: l).
Proof.
  intros Hl. unfold observe_sample, sample_of. cbn [hs_counts hs_sum hs_count]. f_equal.
  - induction buckets as [|b bs IH]; [done|]. cbn [fmap list_fmap zip_with]. rewrite IH, below_cons.
    pose proof (below_bound b l). destruct (fleb v b); [|done]. by rewrite incr64_small by lia.
  - rewrite incr64_small by lia. cbn [length]. lia.
Qed.

Definition observe_all (h : Histogram) (hist : list (float64 * list string)) : Histogram :=
  foldr (λ x, Histogram_Observe x.1 x.2) h hist.

Lemma observe_all_spec name help buckets keys hist : Z.of_nat (length hist) < 2 ^ 53 →
  observe_all (mkHistogram name help keys buckets ∅) hist = mkHistogram name help keys buckets (sample_of buckets <$> recorded keys hist).
Proof.
  induction hist as [|x hist IH]; intros Hn; [cbn; by rewrite fmap_empty|]. cbn [length] in Hn.
  cbn [observe_all foldr]. fold (observe_all (mkHistogram name help keys buckets ∅) hist). rewrite IH by lia. unfold Histogram_Observe.
  cbn [hg_labelKeys hg_obs hg_name hg_help hg_buckets]. f_equal. rewrite recorded_cons.
  apply (record_fmap (sample_of buckets) (λ o, observe_sample buckets x.1 (default (empty_sample buckets) o))). intros o Ho.
  assert (default (empty_sample buckets) (sample_of buckets <$> o) = sample_of buckets (default [] o)) as ->.
  { destruct o as [l|]; [done|]. cbn. unfold empty_sample, sample_of. f_equal. clear. induction buckets as [|b bs IHb]; [done|]. cbn. by rewrite IHb. }
  apply observe_sample_of. destruct o as [l|]; [|done]. symmetry in Ho. apply total_lookup in Ho. rewrite total_recorded in Ho. cbn. lia.
Qed.

(** The counts grow along the bounds, up to the count of all. *)
Lemma fleb_mono v b b' : fleb v b = true → key_le real_key b b' → fleb v b' = true.
Proof.
  unfold key_le, cmp_le. destruct v as [|[]|x], b as [|[]|y], b' as [|[]|z]; try done. unfold fleb. cbn.
  rewrite !negb_true_iff, !Z.ltb_ge. change (y <= z) with (y ≤ z). intros. destruct (Z.compare_spec y z); (done || lia).
Qed.

Lemma below_mono b b' l : key_le real_key b b' → below b l ≤ below b' l.
Proof.
  intros Hb. induction l as [|v l IH]; [done|]. rewrite !below_cons. destruct (fleb v b) eqn:E.
  - rewrite (fleb_mono v b b') by done. lia.
  - destruct (fleb v b'); lia.
Qed.

Lemma cumulative buckets l : StronglySorted (key_le real_key) buckets →
  StronglySorted Z.le (hs_counts (sample_of buckets l) ++ [hs_count (sample_of buckets l)]).
Proof.
  cbn [hs_counts hs_count sample_of]. induction 1 as [|b bs Hs IH Hb]; [by repeat constructor|]. cbn [fmap list_fmap app]. constructor; [done|].
  apply Forall_app. split; [|repeat constructor; apply below_bound]. apply Forall_fmap.
  eapply Forall_impl; [exact Hb|]. intros b' Hb'. by apply below_mono.
Qed.

(** *** The middleware *)

Definition counted (f : Finished) : unit * list string := (tt, [metricsMethod (fq_method f); path_label (fq_pattern f); FormatInt (fq_status f)]).
Definition timed (f : Finished) : float64 * list string := (fq_seconds f, [metricsMethod (fq_method f); path_label (fq_pattern f)]).

Lemma middleware_all c cs gs h hs fs :
  foldr metricsMiddleware (mkRegistry (c :: cs) gs (h :: hs)) fs =
  mkRegistry (inc_all c (counted <$> fs) :: cs) gs (observe_all h (timed <$> fs) :: hs).
Proof. induction fs as [|f fs IH]; [done|]. cbn [foldr]. rewrite IH. done. Qed.

Lemma metricsMethod_bounded m : metricsMethod m ∈ "OTHER"%string :: standard_methods.
Proof. unfold metricsMethod. case_decide; [by right|left]. Qed.

Lemma size_recorded {A} keys (hist : list (A * list string)) : (size (recorded keys hist) ≤ S MaxSeriesPerFamily)%nat.
Proof. pose proof (series_bounded keys hist). pose proof (size_delete_le (recorded keys hist) (overflow_key keys)). lia. Qed.

(** ** Labels *)

(** A reader of the label part of a sample: the pairs of names and values. *)
Fixpoint unquote (s : string) : option (string * string) :=
  match s with
  | EmptyString => None
  | String c s' =>
      if bool_decide (c = quote) then Some (EmptyString, s')
      else if bool_decide (c = backslash) then
        match s' with
        | EmptyString => None
        | String d s'' =>
            let d := if bool_decide (d = "n"%char) then newline else d in
            '(v, rest) ← unquote s''; Some (String d v, rest)
        end
      else '(v, rest) ← unquote s'; Some (String c v, rest)
  end.

Fixpoint read_pairs (fuel : nat) (s : string) : option (list (string * string)) :=
  match fuel with
  | O => None
  | S fuel =>
      '(k, s) ← Cut s "=";
      s ← CutPrefix s quoted;
      '(v, s) ← unquote s;
      if decide (s = "}"%string) then Some [(k, v)]
      else s ← CutPrefix s ","; l ← read_pairs fuel s; Some ((k, v) :: l)
  end.

Definition read_labels (s : string) : option (list (string * string)) := s ← CutPrefix s "{"; read_pairs (slen s) s.

Definition escape_byte (c : ascii) : string :=
  if bool_decide (c = backslash) then "\\" else if bool_decide (c = quote) then String backslash quoted
  else if bool_decide (c = newline) then String backslash "n" else String c EmptyString.

Lemma ReplaceByte_app c new s t : ReplaceByte c new (s +:+ t) = ReplaceByte c new s +:+ ReplaceByte c new t.
Proof. induction s as [|a s IH]; [done|]. cbn. case_match; cbn; rewrite IH; [by rewrite sapp_assoc|done]. Qed.

(** The three replacements are one pass. *)
Lemma escape_cons c s : escapeLabelValue (String c s) = escape_byte c +:+ escapeLabelValue s.
Proof.
  unfold escapeLabelValue, escape_byte. cbn [ReplaceByte]. destruct (bool_decide (c = backslash)) eqn:E1.
  { by rewrite !ReplaceByte_app. }
  cbn [ReplaceByte]. destruct (bool_decide (c = quote)) eqn:E2; [by rewrite !ReplaceByte_app|].
  cbn [ReplaceByte]. by destruct (bool_decide (c = newline)).
Qed.

Lemma unquote_escape v rest : unquote (escapeLabelValue v +:+ String quote rest) = Some (v, rest).
Proof.
  induction v as [|c v IH]; [done|]. rewrite escape_cons, sapp_assoc. unfold escape_byte. repeat case_bool_decide; subst; cbn [String.append].
  - cbn. rewrite IH. done.
  - cbn. rewrite IH. done.
  - cbn. rewrite IH. done.
  - cbn [unquote]. rewrite !bool_decide_eq_false_2 by done. rewrite IH. done.
Qed.

Definition free_of (c : ascii) (s : string) : Prop := any_byte (λ d, bool_decide (d = c)) s = false.

Lemma Split1_free_of c s t : free_of c s → Split1 c (s +:+ String c t) = s :: Split1 c t.
Proof.
  unfold free_of. induction s as [|a s IH]; cbn [any_byte String.append Split1]; [by rewrite bool_decide_eq_true_2|].
  intros [Ha Hs]%orb_false_iff. rewrite Ha. by rewrite IH.
Qed.

Lemma Split1_whole c s : free_of c s → Split1 c s = [s].
Proof.
  unfold free_of. induction s as [|a s IH]; cbn [any_byte Split1]; [done|]. intros [Ha Hs]%orb_false_iff. rewrite Ha. by rewrite IH.
Qed.

Lemma Split1_Join_free c l : l ≠ [] → Forall (free_of c) l → Split1 c (Join (String c EmptyString) l) = l.
Proof.
  intros Hl Hf. induction Hf as [|x [|y l] Hx Hf IH]; [done|cbn [Join foldr]; rewrite sapp_nil_r; by apply Split1_whole|].
  assert (Join (String c EmptyString) (x :: y :: l) = x +:+ String c (Join (String c EmptyString) (y :: l))) as -> by done.
  rewrite Split1_free_of by done. by rewrite IH.
Qed.

(** A pair as it is exposed. *)
Definition pair_text (p : string * string) : string := p.1 +:+ String equals (String quote (escapeLabelValue p.2 +:+ quoted)).

Lemma format_pair k v : free_of equals k → format_part (k +:+ String equals v) = pair_text (k, v).
Proof. intros Hk. unfold format_part, pair_text. cbn [fst snd]. change "="%string with (String equals EmptyString). by rewrite Cut_app_not_in. Qed.

Lemma label_pairs_zip keys vals : length keys = length vals →
  label_pairs keys vals = (λ p, p.1 +:+ String equals p.2) <$> zip keys vals.
Proof. revert vals. induction keys as [|k keys IH]; intros [|v vals] Hl; try done. cbn in *. rewrite IH by lia. done. Qed.

Lemma CutPrefix_app p s : CutPrefix (p +:+ s) p = Some s.
Proof. unfold CutPrefix. pose proof (TrimPrefix_app p s) as E. unfold TrimPrefix in E. rewrite HasPrefix_app in *. by rewrite E. Qed.

(** One pair is read, whatever follows. *)
Lemma read_pair k v rest : free_of equals k →
  Cut (pair_text (k, v) +:+ rest) "=" = Some (k, String quote (escapeLabelValue v +:+ String quote rest)) ∧
  CutPrefix (String quote (escapeLabelValue v +:+ String quote rest)) quoted = Some (escapeLabelValue v +:+ String quote rest).
Proof.
  intros Hk. split; [|apply (CutPrefix_app quoted)]. unfold pair_text. cbn [fst snd]. rewrite sapp_assoc. cbn [String.append]. rewrite sapp_assoc.
  change "="%string with (String equals EmptyString). by rewrite Cut_app_not_in.
Qed.

Lemma read_pairs_text l fuel : l ≠ [] → Forall (λ p, free_of equals p.1) l → (length l ≤ fuel)%nat →
  read_pairs fuel (Join "," (pair_text <$> l) +:+ "}") = Some l.
Proof.
  intros Hl Hf. revert fuel. induction Hf as [|[k v] [|q l] Hk Hf IH]; intros [|fuel] Hn; cbn [length] in Hn; try done || lia.
  - cbn [fmap list_fmap Join foldr]. rewrite sapp_nil_r. cbn [read_pairs]. destruct (read_pair k v "}" Hk) as [-> E]. cbn. rewrite E. cbn.
    by rewrite unquote_escape.
  - assert (Join "," (pair_text <$> (k, v) :: q :: l) +:+ "}" = pair_text (k, v) +:+ ("," +:+ (Join "," (pair_text <$> q :: l) +:+ "}"))) as ->.
    { cbn [fmap list_fmap Join foldr]. rewrite !sapp_assoc. done. }
    set (rest := Join "," (pair_text <$> q :: l) +:+ "}") in *. cbn [read_pairs]. destruct (read_pair k v (String "," rest) Hk) as [E0 E].
    change ("," +:+ rest) with (String "," rest). rewrite E0. cbn [mbind option_bind]. rewrite E. cbn [mbind option_bind]. rewrite unquote_escape. cbn [mbind option_bind].
    rewrite decide_False by done. change (String "," rest) with ("," +:+ rest). rewrite CutPrefix_app.
    cbn [mbind option_bind]. rewrite IH by (done || (cbn [length]; lia)). done.
Qed.

Lemma pair_text_length p : (1 ≤ slen (pair_text p))%nat.
Proof. unfold pair_text. rewrite slen_app. cbn. lia. Qed.

Lemma slen_Join_pairs l : (length l ≤ slen (Join "," (pair_text <$> l)))%nat.
Proof.
  induction l as [|p [|q l] IH]; [done| |].
  - cbn [fmap list_fmap Join foldr length]. rewrite sapp_nil_r. apply pair_text_length.
  - assert (Join "," (pair_text <$> p :: q :: l) = pair_text p +:+ String "," (Join "," (pair_text <$> q :: l))) as -> by done.
    rewrite slen_app. cbn [slen length] in *. pose proof (pair_text_length p). unfold slen in *. cbn [String.length]. lia.
Qed.

(** The exposition of labels.  What a scraper reads back from the label
    text of a series is the names with the values that were recorded, whatever
    quotes, backslashes, newlines, commas or braces the values have; so no
    value can forge a label or a sample.  Names have no [=] and neither names
    nor values the NUL byte the internal key is delimited by. *)
Theorem labels_roundtrip keys vals :
  keys ≠ [] → length keys = length vals →
  Forall (λ k, free_of equals k ∧ free_of nul k) keys → Forall (free_of nul) vals →
  read_labels (formatLabels keys (labelSetKey keys vals)) = Some (zip keys vals).
Proof.
  intros Hne Hlen Hk Hv. set (l := zip keys vals). unfold labelSetKey. rewrite label_pairs_zip by done. fold l.
  assert (l ≠ []) as Hl by (destruct keys, vals; done).
  assert (Forall (λ p, free_of equals p.1) l) as Heq.
  { apply Forall_forall. intros [k v] Hin. apply elem_of_zip_l in Hin. rewrite Forall_forall in Hk. by apply Hk. }
  assert (Forall (free_of nul) ((λ p, p.1 +:+ String equals p.2) <$> l)) as Hnul.
  { apply Forall_fmap, Forall_forall. intros [k v] Hin. pose proof (elem_of_zip_l _ _ _ _ Hin). pose proof (elem_of_zip_r _ _ _ _ Hin).
    rewrite Forall_forall in Hk, Hv. unfold free_of, compose.
    rewrite any_byte_app. apply orb_false_intro; [by apply Hk|]. cbn [any_byte fst snd]. by apply Hv. }
  set (parts := (λ p, p.1 +:+ String equals p.2) <$> l) in *.
  assert (parts ≠ []) as Hp by (unfold parts; destruct l; done).
  unfold formatLabels. rewrite decide_False.
  2: { intros [|E]; [done|]. apply (f_equal (Split1 nul)) in E. rewrite Split1_Join_free in E by done. unfold parts in E.
       destruct l as [|[k v] l]; [done|]. cbn in E. injection E as E _. by destruct k. }
  rewrite Split1_Join_free by done. unfold label_text, parts. rewrite <- list_fmap_compose.
  assert ((format_part ∘ (λ p, p.1 +:+ String equals p.2)) <$> l = pair_text <$> l) as ->.
  { apply list_fmap_ext. intros i [k v] Hi. unfold compose. cbn [fst snd]. apply format_pair.
    apply list_elem_of_lookup_2 in Hi. rewrite Forall_forall in Heq. by apply (Heq (k, v)). }
  unfold read_labels. rewrite CutPrefix_app. cbn [mbind option_bind]. apply read_pairs_text; [done..|].
  rewrite slen_app. pose proof (slen_Join_pairs l). lia.
Qed.

(** ** Which series a request counts in

    The specification of the cap: the first [MaxSeriesPerFamily] distinct label
    tuples have a series of their own, all the others share the overflow series.
    The last element of the history is the first request. *)

Section spec.
Context {A : Type} (keys : list string).

Definition overflow_values : list string := (λ _, OverflowLabelValue) <$> keys.
Definition tracked (hist : list (A * list string)) : list (list string) :=
  take MaxSeriesPerFamily (reverse (remove_dups (snd <$> hist))).
Definition series (hist : list (A * list string)) (v : list string) : list string :=
  if decide (v ∈ tracked hist) then v else overflow_values.
(** What the series with the labels [u] has to show, newest first. *)
Definition shown_in (hist : list (A * list string)) (u : list string) : list A :=
  fst <$> filter (λ x, series hist x.2 = u) hist.
Definition present (l : list A) : option (list A) := match l with [] => None | _ => Some l end.

Definition labels_ok (u : list string) : Prop := length u = length keys ∧ Forall (free_of nul) u.

Context (Hkeys : keys ≠ []) (Hfree : Forall (λ k, free_of equals k ∧ free_of nul k) keys).

Lemma overflow_ok : labels_ok overflow_values.
Proof. unfold overflow_values. split; [by rewrite length_fmap|]. apply Forall_fmap, Forall_forall. done. Qed.

Lemma labelSetKey_inj u u' : labels_ok u → labels_ok u' → labelSetKey keys u = labelSetKey keys u' → u = u'.
Proof.
  intros [Hl Hu] [Hl' Hu'] E. apply (f_equal (λ k, read_labels (formatLabels keys k))) in E.
  rewrite !labels_roundtrip in E by done. injection E as E. apply (f_equal (fmap snd)) in E. by rewrite !snd_zip in E by lia.
Qed.

Lemma tracked_seen hist v : v ∈ tracked hist → v ∈ snd <$> hist.
Proof.
  intros Hv. apply elem_of_remove_dups, elem_of_reverse. rewrite <- (take_drop MaxSeriesPerFamily (reverse _)). apply elem_of_app. by left.
Qed.

Lemma tracked_cons x hist :
  tracked (x :: hist) =
  if decide (x.2 ∈ snd <$> hist ∨ (MaxSeriesPerFamily ≤ length (remove_dups (snd <$> hist)))%nat) then tracked hist else tracked hist ++ [x.2].
Proof.
  unfold tracked. cbn [fmap list_fmap remove_dups]. destruct (decide_rel _ x.2 (snd <$> hist)) as [Hin|Hin].
  { by rewrite decide_True by by left. }
  rewrite reverse_cons. destruct (decide _) as [[?|Hm]|Hm]; [done| |].
  - rewrite take_app_le; [done|by rewrite length_reverse].
  - rewrite !take_ge; [done|rewrite length_reverse; lia|rewrite length_app, length_reverse; cbn; lia].
Qed.

(** The series of what was recorded before does not change. *)
Lemma series_stable x hist y : y ∈ snd <$> hist → series (x :: hist) y = series hist y.
Proof.
  intros Hy. unfold series. rewrite tracked_cons. destruct (decide (_ ∨ _)) as [|Hn]; [done|].
  assert (y ∈ tracked hist) as Ht.
  { unfold tracked. rewrite take_ge by (rewrite length_reverse; lia). by apply elem_of_reverse, elem_of_remove_dups. }
  rewrite !decide_True; [done|done|]. apply elem_of_app. by left.
Qed.

Lemma shown_in_cons x hist u :
  shown_in (x :: hist) u = (if decide (series (x :: hist) x.2 = u) then [x.1] else []) ++ shown_in hist u.
Proof.
  unfold shown_in. rewrite filter_cons.
  assert (filter (λ y, series (x :: hist) y.2 = u) hist = filter (λ y, series hist y.2 = u) hist) as ->.
  { apply filter_ext_in. intros y Hy. rewrite series_stable; [done|]. by apply list_elem_of_fmap_2. }
  by destruct (decide _).
Qed.

Lemma shown_in_values hist u : shown_in hist u ≠ [] → u = overflow_values ∨ u ∈ tracked hist.
Proof.
  intros Hne. destruct (filter (λ x, series hist x.2 = u) hist) as [|x l] eqn:E; [unfold shown_in in Hne; by rewrite E in Hne|].
  assert (x ∈ filter (λ x, series hist x.2 = u) hist) as [<- _]%list_elem_of_filter by (rewrite E; left).
  unfold series. case_decide; auto.
Qed.

Lemma shown_in_tracked hist u : u ∈ tracked hist → shown_in hist u ≠ [].
Proof.
  intros Ht. pose proof (tracked_seen hist u Ht) as (x & -> & Hx)%list_elem_of_fmap.
  assert (x ∈ filter (λ y, series hist y.2 = x.2) hist) as Hin.
  { apply list_elem_of_filter. split; [|done]. unfold series. by rewrite decide_True. }
  unfold shown_in. intros E%fmap_nil_inv. rewrite E in Hin. by apply elem_of_nil in Hin.
Qed.

(** The keys of the map are those of the series that have something. *)
Record holds (hist : list (A * list string)) (m : gmap string (list A)) : Prop := {
  ho_lookup u : labels_ok u → m !! labelSetKey keys u = present (shown_in hist u);
  ho_keys k : is_Some (m !! k) → ∃ u, labels_ok u ∧ k = labelSetKey keys u }.

Definition all_ok (hist : list (A * list string)) : Prop := Forall (λ x, labels_ok x.2) hist.

Lemma tracked_ok hist u : all_ok hist → u ∈ tracked hist → labels_ok u.
Proof. intros Hok (x & -> & Hx)%tracked_seen%list_elem_of_fmap. by apply (proj1 (Forall_forall _ _) Hok). Qed.

Lemma NoDup_tracked hist : NoDup (tracked hist).
Proof. unfold tracked. eapply sublist_NoDup; [|apply sublist_take]. rewrite reverse_Permutation. apply NoDup_remove_dups. Qed.

(** The map reaches the cap when the tuples do. *)
Lemma holds_size hist m : all_ok hist → holds hist m →
  (size m < MaxSeriesPerFamily)%nat ↔ (length (remove_dups (snd <$> hist)) < MaxSeriesPerFamily)%nat.
Proof.
  intros Hok [Hl Hk]. set (S := labelSetKey keys <$> tracked hist).
  assert (NoDup S) as HS.
  { apply NoDup_fmap_2_strong; [|apply NoDup_tracked]. intros u u' Hu Hu'.
    apply labelSetKey_inj; by eapply tracked_ok. }
  assert (length S = MaxSeriesPerFamily `min` length (remove_dups (snd <$> hist)))%nat as HlS.
  { unfold S, tracked. by rewrite length_fmap, length_take, length_reverse. }
  assert (list_to_set S ⊆ dom m) as Hsub.
  { intros k (u & -> & Hu)%elem_of_list_to_set%list_elem_of_fmap. apply elem_of_dom. rewrite Hl by by eapply tracked_ok.
    apply shown_in_tracked in Hu. unfold present. destruct (shown_in hist u); [done|by eexists]. }
  assert (length S ≤ size m)%nat as Hge.
  { rewrite <- size_dom, <- (size_list_to_set (C := gset string) S HS). by apply subseteq_size. }
  split; [lia|]. intros Hlt. assert (dom m ⊆ list_to_set S) as Hsup.
  { intros k [x Hx]%elem_of_dom. destruct (Hk k) as (u & Hu & ->); [by rewrite Hx|]. rewrite Hl in Hx by done.
    apply elem_of_list_to_set, list_elem_of_fmap_2. destruct (shown_in hist u) as [|y l] eqn:E; [done|].
    assert (shown_in hist u ≠ []) as Hne by by rewrite E.
    destruct (filter (λ x, series hist x.2 = u) hist) as [|z f] eqn:Ef; [unfold shown_in in Hne; by rewrite Ef in Hne|].
    assert (z ∈ filter (λ x, series hist x.2 = u) hist) as [Hz Hin]%list_elem_of_filter by (rewrite Ef; left).
    assert (z.2 ∈ tracked hist) as Ht.
    { unfold tracked. rewrite take_ge by (rewrite length_reverse; lia). apply elem_of_reverse, elem_of_remove_dups. by apply list_elem_of_fmap_2. }
    unfold series in Hz. rewrite decide_True in Hz by done. by subst u. }
  apply subseteq_size in Hsup. rewrite size_dom, size_list_to_set in Hsup by done. lia.
Qed.

(** The series the code chooses is the one of the specification. *)
Lemma boundedKey_series x hist m : labels_ok x.2 → all_ok hist → holds hist m →
  boundedKey (labelSetKey keys x.2) m keys = labelSetKey keys (series (x :: hist) x.2).
Proof.
  intros Hx Hok Hm. pose proof (holds_size hist m Hok Hm) as Hsz. unfold boundedKey. fold overflow_values.
  assert (is_Some (m !! labelSetKey keys x.2) → x.2 = overflow_values ∨ x.2 ∈ tracked hist) as Hs1.
  { rewrite (ho_lookup _ _ Hm) by done. intros [l Hl]. apply shown_in_values. intros E. by rewrite E in Hl. }
  assert (x.2 ∈ tracked hist → is_Some (m !! labelSetKey keys x.2)) as Hs2.
  { rewrite (ho_lookup _ _ Hm) by done. intros Ht%shown_in_tracked. unfold present. destruct (shown_in hist x.2); [done|by eexists]. }
  unfold series. rewrite tracked_cons. destruct (decide (_ ∨ _)) as [Hc|Hc]; destruct (decide (_ ∈ snd <$> hist ∨ _)) as [Ht|Ht];
    try (destruct (decide (x.2 ∈ _)) as [Hi|Hi]); try done.
  - f_equal. destruct Hc as [?|[Hc|Hc]]; [done| |by destruct (Hs1 Hc)].
    destruct Ht as [Ht|Ht]; [|apply Hsz in Hc; lia]. exfalso. apply Hi. unfold tracked.
    rewrite take_ge by (rewrite length_reverse; apply Hsz in Hc; lia). by apply elem_of_reverse, elem_of_remove_dups.
  - exfalso. apply Hi, elem_of_app. right. by apply list_elem_of_singleton.
  - exfalso. apply Hc. auto.
  - exfalso. apply Hc. right; left. apply Hsz. lia.
Qed.

Lemma recorded_holds hist : all_ok hist → holds hist (recorded keys hist).
Proof.
  induction hist as [|x hist IH]; intros Hok.
  { split; [intros u _; unfold recorded; cbn; by rewrite lookup_empty|]. intros k [l Hl]. unfold recorded in Hl. cbn in Hl. by rewrite lookup_empty in Hl. }
  apply Forall_cons in Hok as [Hx Hok]. specialize (IH Hok). rewrite recorded_cons. unfold record.
  rewrite (boundedKey_series x hist) by done.
  assert (labels_ok (series (x :: hist) x.2)) as Hs by (unfold series; case_decide; [done|apply overflow_ok]).
  split.
  - intros u Hu. rewrite shown_in_cons. destruct (decide (series (x :: hist) x.2 = u)) as [->|Hne].
    + rewrite lookup_insert_eq, (ho_lookup _ _ IH) by done. cbn. f_equal. f_equal. by destruct (shown_in hist u).
    + rewrite lookup_insert_ne; [by apply (ho_lookup _ _ IH)|]. intros E. by apply Hne, labelSetKey_inj.
  - intros k. destruct (decide (k = labelSetKey keys (series (x :: hist) x.2))) as [->|Hne]; [eauto|].
    rewrite lookup_insert_ne by done. apply (ho_keys _ _ IH).
Qed.

(** A family that shows a value for what each series recorded: the series a
    scraper sees are those of the specification. *)
Definition exposes {V} (f : list A → V) (hist : list (A * list string)) (m : gmap string V) : Prop :=
  (∀ k v, m !! k = Some v → ∃ u, read_labels (formatLabels keys k) = Some (zip keys u) ∧ shown_in hist u ≠ [] ∧ v = f (shown_in hist u)) ∧
  (∀ u, shown_in hist u ≠ [] → ∃ k, read_labels (formatLabels keys k) = Some (zip keys u) ∧ m !! k = Some (f (shown_in hist u))).

Lemma recorded_exposes {V} (f : list A → V) hist : all_ok hist → exposes f hist (f <$> recorded keys hist).
Proof.
  intros Hok. destruct (recorded_holds hist Hok) as [Hl Hk]. split.
  - intros k v. rewrite lookup_fmap. intros (l & Hkl & ->)%fmap_Some. destruct (Hk k) as (u & Hu & ->); [by rewrite Hkl|].
    exists u. split; [by destruct Hu; apply labels_roundtrip|]. rewrite Hl in Hkl by done. unfold present in Hkl.
    destruct (shown_in hist u); [done|]. by injection Hkl as <-.
  - intros u Hne. assert (labels_ok u) as Hu by (destruct (shown_in_values hist u Hne) as [->|Ht]; [apply overflow_ok|by eapply tracked_ok]).
    exists (labelSetKey keys u). split; [by destruct Hu; apply labels_roundtrip|]. rewrite lookup_fmap, Hl by done.
    unfold present. by destruct (shown_in hist u).
Qed.
End spec.

Lemma method_free m : free_of nul (metricsMethod m).
Proof. unfold metricsMethod. case_decide as H; [|done]. by repeat (apply elem_of_cons in H as [->|H]; [done|]); apply elem_of_nil in H. Qed.

Lemma path_free p : free_of nul p → free_of nul (path_label p).
Proof. unfold path_label. by case_decide. Qed.

Lemma counted_ok fs : Forall (λ f, free_of nul (fq_pattern f)) fs → all_ok ["method"; "path"; "status"]%string (counted <$> fs).
Proof.
  intros Hfs. apply Forall_fmap. eapply Forall_impl; [exact Hfs|]. intros f Hf. split; [done|]. cbn.
  apply Forall_cons. split; [apply method_free|]. apply Forall_cons. split; [by apply path_free|].
  apply Forall_singleton, FormatInt_digits; done.
Qed.

Lemma timed_ok fs : Forall (λ f, free_of nul (fq_pattern f)) fs → all_ok ["method"; "path"]%string (timed <$> fs).
Proof.
  intros Hfs. apply Forall_fmap. eapply Forall_impl; [exact Hfs|]. intros f Hf. split; [done|]. cbn.
  apply Forall_cons. split; [apply method_free|]. by apply Forall_singleton, path_free.
Qed.

(** C30: the request metrics.  After any sequence of fewer than 2^53 recorded
    requests, on routes whose patterns have no NUL byte, a scraper sees exactly
    these series of the request counter and of the duration histogram: one for
    each of the first [MaxSeriesPerFamily] distinct tuples of labels (method,
    pattern and status; method and pattern) and the overflow series, which
    stands for all the later tuples.  The counter of a series is the exact
    number of the requests that belong there; the histogram has, for each
    bound, the number of those that took at most that long, the counts growing
    along the bounds up to the count of all.  So no recorded request is lost,
    and a family has at most [MaxSeriesPerFamily] series and the overflow
    series.  The other families do not change. *)
Theorem requests_measured version commit fs :
  Z.of_nat (length fs) < 2 ^ 53 → Forall (λ f, free_of nul (fq_pattern f)) fs →
  let r0 := NewStandard version commit NewRegistry in
  let r := foldr metricsMiddleware r0 fs in
  ∃ c h, rg_counters r = c :: tail (rg_counters r0) ∧ rg_histograms r = [h] ∧ rg_gauges r = rg_gauges r0 ∧
    exposes ["method"; "path"; "status"]%string count_of (counted <$> fs) (ct_values c) ∧
    exposes ["method"; "path"]%string (sample_of (hg_buckets h)) (timed <$> fs) (hg_obs h) ∧
    hg_buckets h = sort_by real_key DefaultHistogramBuckets ∧
    (size (ct_values c) ≤ S MaxSeriesPerFamily)%nat ∧ (size (hg_obs h) ≤ S MaxSeriesPerFamily)%nat ∧
    ∀ k s, hg_obs h !! k = Some s → StronglySorted Z.le (hs_counts s ++ [hs_count s]).
Proof.
  intros Hn Hfs r0 r.
  assert (∃ cn ch hn hh, r0 = mkRegistry (new_counter cn ch ["method"; "path"; "status"]%string :: tail (rg_counters r0)) (rg_gauges r0)
    [new_histogram hn hh None ["method"; "path"]%string]) as (cn & ch & hn & hh & E) by (do 4 eexists; reflexivity).
  clearbody r0. assert (r = foldr metricsMiddleware r0 fs) as Hr by done. clearbody r. rewrite E, middleware_all in Hr. subst r.
  eexists _, _. split; [done|]. split; [done|]. split; [done|].
  unfold new_histogram. rewrite inc_all_spec, observe_all_spec by by rewrite length_fmap. cbn [ct_values hg_obs hg_buckets].
  rewrite !map_size_fmap. split_and!; try apply size_recorded.
  - apply recorded_exposes; [done|by repeat constructor|by apply counted_ok].
  - apply recorded_exposes; [done|by repeat constructor|by apply timed_ok].
  - vm_compute. reflexivity.
  - intros k s. rewrite lookup_fmap. intros (l & _ & ->)%fmap_Some. apply cumulative, sort_by_le.
Qed.

(** * Witnesses and gaps *)

Module Example17.
Definition request (path : string) : Finished := mkFinished "GET" path 200 (milli 30).

Definition requests : list Finished := [request "/b"; request "/a"; mkFinished "BREW" "" 404 (milli 1)].

Lemma requests_measured_witness : ∃ c h,
  let r := foldr metricsMiddleware (NewStandard "v2" "abc" NewRegistry) requests in
  rg_counters r !! 0%nat = Some c ∧ rg_histograms r = [h] ∧ size (ct_values c) = 3%nat ∧
  exposes ["method"; "path"; "status"]%string count_of (counted <$> requests) (ct_values c) ∧
  hs_counts <$> (hg_obs h !! labelSetKey ["method"; "path"]%string ["OTHER"; "unmatched"]%string) = Some (replicate 11 1).
Proof.
  destruct (requests_measured "v2" "abc" requests) as (c & h & H1 & H2 & _ & H4 & _).
  - vm_compute. reflexivity.
  - repeat constructor.
  - exists c, h. cbv zeta. rewrite H1. split; [reflexivity|]. split; [exact H2|]. split; [|split; [exact H4|]].
    + revert H1. vm_compute. intros [= <-]. reflexivity.
    + revert H2. vm_compute. intros [= <-]. reflexivity.
Defined.

Definition wild : string := String quote (String "," (String newline "x=1}\")).

Lemma labels_roundtrip_witness :
  read_labels (formatLabels ["method"; "path"]%string (labelSetKey ["method"; "path"]%string ["GET"%string; wild])) =
  Some [("method", "GET"); ("path", wild)]%string.
Proof.
  apply (labels_roundtrip ["method"; "path"]%string ["GET"%string; wild]).
  - discriminate.
  - reflexivity.
  - repeat constructor.
  - repeat constructor.
Defined.

(** Nothing but its registration touches the counter of created runs: it is
    exposed as 0 whatever requests were served. *)
Example runs_never_counted FormatFloat fs :
  Counter_lines FormatFloat <$> (rg_counters (foldr metricsMiddleware (NewStandard "v2" "abc" NewRegistry) fs) !! RunsCreatedTotal) =
  Some ["litemlflow_runs_created_total 0"%string].
Proof.
  assert (rg_counters (foldr metricsMiddleware (NewStandard "v2" "abc" NewRegistry) fs) !! RunsCreatedTotal =
    rg_counters (NewStandard "v2" "abc" NewRegistry) !! RunsCreatedTotal) as ->; [|reflexivity].
  induction fs as [|f fs IH]; [reflexivity|]. cbn [foldr]. rewrite <- IH. unfold metricsMiddleware, on_histogram, on_counter.
  cbn [rg_counters]. apply list_lookup_alter_ne. discriminate.
Qed.

(** A NUL byte in a value makes the rest of it a part of its own, which is
    written as it is. *)
Example nul_injects :
  formatLabels ["path"]%string (labelSetKey ["path"]%string ["/a" +:+ String nul "admin"]%string) =
  ("{path=" +:+ quoted +:+ "/a" +:+ quoted +:+ ",admin}")%string.
Proof. reflexivity. Qed.
End Example17.
