(* ===== verification/Config.v ===== *)
(** * Configuration (internal/config/config.go)

    The settings from defaults, environment and flags, their validation, and
    the list of trusted proxies the limiter of logins uses. *)

From S2P Require Import Prelude GoStrings Paths Model Float64 Sample Access RateLimit.
From Stdlib Require Import Ascii.

Open Scope Z_scope.

(** Durations are nanoseconds. *)
Record Settings := mkSettings {
  c_DataDir : string; c_DBPath : string; c_ArtifactsDir : string; c_Addr : string; c_Auth : string;
  c_BasicUser : string; c_BasicPassHash : string;
  c_OIDCIssuer : string; c_OIDCClientID : string; c_OIDCClientSecret : string; c_OIDCRedirectURL : string; c_OIDCScopes : string;
  c_SessionTTL : Z; c_MaxArtifactSize : Z; c_MaxRequestSize : Z; c_ReadTimeout : Z; c_WriteTimeout : Z; c_IdleTimeout : Z;
  c_DevMode : bool; c_EnableMultiTenant : bool; c_FederationName : string; c_ArtifactBackend : string;
  c_S3Endpoint : string; c_S3Bucket : string; c_S3Region : string; c_S3AccessKey : string; c_S3SecretKey : string; c_S3Prefix : string;
  c_S3MultipartThreshold : Z; c_OTLPGRPCAddr : string; c_JanitorEnabled : bool; c_JanitorInterval : Z; c_RunStaleAfter : Z;
  c_EventsRetention : Z; c_TrustedProxies : string }.

(** The zero value of the struct. *)
Definition no_settings : Settings :=
  mkSettings "" "" "" "" "" "" "" "" "" "" "" "" 0 0 0 0 0 0 false false "" "" "" "" "" "" "" "" 0 "" false 0 0 0 "".

Definition hour : Z := 60 * minute.

Definition defaults : Settings :=
  mkSettings "" "" "" ":5000" "none" "" "" "" "" "" "" "openid email profile"
    (7 * 24 * hour) (Z.shiftl 5 30) (Z.shiftl 100 20) (30 * second) (30 * second) (120 * second)
    false false "" "" "" "" "" "" "" "" (Z.shiftl 100 20) "" true (5 * minute) (24 * hour) 0 "".

(** [if v := ...; v != "" { c.F = v }], and the forms with a parser. *)
Definition or_text (v old : string) : string := if decide (v = EmptyString) then old else v.
Definition or_value {A} (parse : string → option A) (ok : A → bool) (v : string) (old : A) : A :=
  if decide (v = EmptyString) then old else
  match parse v with Some x => if ok x then x else old | None => old end.
Definition any {A} (_ : A) : bool := true.
Definition positive (n : Z) : bool := 0 <? n.

(** [strings.FieldsFunc] with a set of ASCII separators. *)
Fixpoint FieldsFunc (sep : ascii → bool) (s cur : string) : list string :=
  match s with
  | EmptyString => if decide (cur = EmptyString) then [] else [cur]
  | String c s' =>
      if sep c then (if decide (cur = EmptyString) then [] else [cur]) ++ FieldsFunc sep s' EmptyString
      else FieldsFunc sep s' (cur +:+ String c EmptyString)
  end.

Definition proxy_separator (c : ascii) : bool := bool_decide (c ∈ [","; " "; "009"]%char).

Section config.
(** [os.Getenv], [time.ParseDuration], [netip.ParsePrefix] (masked) and
    [netip.ParseAddr]. *)
Context (Getenv : string → string) (ParseDuration : string → option Z).
Context (ParsePrefix : string → option Prefix) (ParseAddr : string → option Addr).

Definition overlayFromEnv (c : Settings) : Settings :=
  let text name := or_text (Getenv ("LITEMLFLOW_" +:+ name)) in
  let int name ok := or_value ParseInt ok (Getenv ("LITEMLFLOW_" +:+ name)) in
  let duration name ok := or_value ParseDuration ok (Getenv ("LITEMLFLOW_" +:+ name)) in
  mkSettings (text "DATA" (c_DataDir c)) (c_DBPath c) (c_ArtifactsDir c) (text "ADDR" (c_Addr c)) (text "AUTH" (c_Auth c))
    (text "BASIC_USER" (c_BasicUser c)) (text "BASIC_PASS_HASH" (c_BasicPassHash c))
    (text "OIDC_ISSUER" (c_OIDCIssuer c)) (text "OIDC_CLIENT_ID" (c_OIDCClientID c)) (text "OIDC_CLIENT_SECRET" (c_OIDCClientSecret c))
    (text "OIDC_REDIRECT_URL" (c_OIDCRedirectURL c)) (text "OIDC_SCOPES" (c_OIDCScopes c))
    (duration "SESSION_TTL" any (c_SessionTTL c)) (int "MAX_ARTIFACT_SIZE" any (c_MaxArtifactSize c)) (c_MaxRequestSize c)
    (c_ReadTimeout c) (c_WriteTimeout c) (c_IdleTimeout c)
    (bool_decide (Getenv "LITEMLFLOW_DEV" = "1"%string) || c_DevMode c)
    (bool_decide (Getenv "LITEMLFLOW_ENABLE_MULTI_TENANT" ∈ ["1"; "true"]%string) || c_EnableMultiTenant c)
    (if decide (c_FederationName c = EmptyString) then text "FEDERATION_NAME" (c_FederationName c) else c_FederationName c)
    (text "ARTIFACT_BACKEND" (c_ArtifactBackend c))
    (text "S3_ENDPOINT" (c_S3Endpoint c)) (text "S3_BUCKET" (c_S3Bucket c)) (text "S3_REGION" (c_S3Region c))
    (text "S3_ACCESS_KEY" (c_S3AccessKey c)) (text "S3_SECRET_KEY" (c_S3SecretKey c)) (text "S3_PREFIX" (c_S3Prefix c))
    (int "S3_MULTIPART_THRESHOLD" positive (c_S3MultipartThreshold c)) (text "OTLP_GRPC_ADDR" (c_OTLPGRPCAddr c))
    (if decide (Getenv "LITEMLFLOW_JANITOR_ENABLED" ∈ ["0"; "false"]%string) then false else c_JanitorEnabled c)
    (duration "JANITOR_INTERVAL" positive (c_JanitorInterval c)) (duration "RUN_STALE_AFTER" positive (c_RunStaleAfter c))
    (duration "EVENTS_RETENTION" positive (c_EventsRetention c)) (text "TRUSTED_PROXIES" (c_TrustedProxies c)).

Definition or_number (v old : Z) : Z := if decide (v = 0) then old else v.

Definition overlay (base explicit : Settings) : Settings :=
  let text (f : Settings → string) := or_text (f explicit) (f base) in
  let number (f : Settings → Z) := or_number (f explicit) (f base) in
  let flag (f : Settings → bool) := f explicit || f base in
  mkSettings (text c_DataDir) (text c_DBPath) (text c_ArtifactsDir) (text c_Addr) (text c_Auth) (text c_BasicUser) (text c_BasicPassHash)
    (text c_OIDCIssuer) (text c_OIDCClientID) (text c_OIDCClientSecret) (text c_OIDCRedirectURL) (text c_OIDCScopes)
    (number c_SessionTTL) (number c_MaxArtifactSize) (number c_MaxRequestSize) (number c_ReadTimeout) (number c_WriteTimeout)
    (number c_IdleTimeout) (flag c_DevMode) (flag c_EnableMultiTenant) (text c_FederationName) (text c_ArtifactBackend)
    (text c_S3Endpoint) (text c_S3Bucket) (text c_S3Region) (text c_S3AccessKey) (text c_S3SecretKey) (text c_S3Prefix)
    (number c_S3MultipartThreshold) (text c_OTLPGRPCAddr) (flag c_JanitorEnabled) (number c_JanitorInterval) (number c_RunStaleAfter)
    (number c_EventsRetention) (text c_TrustedProxies).

(** A bare address is the prefix of all its bits. *)
Definition parse_proxy (f : string) : option Prefix :=
  match ParsePrefix f with
  | Some p => Some p
  | None =>
      ip ← ParseAddr f;
      let ip := Unmap ip in Some (mkPrefix (ad_bytes ip) (8 * Z.of_nat (length (ad_bytes ip))))
  end.

Definition ParseTrustedProxies (texts : string) : option (list Prefix) := mapM parse_proxy (FieldsFunc proxy_separator texts EmptyString).

Definition empty (s : string) : bool := bool_decide (s = EmptyString).

Definition Validate (c : Settings) : result unit :=
  _ ← guard_err (empty (c_DataDir c)) ErrOther;
  _ ← guard_err (bool_decide (c_Auth c ∉ ["none"; "basic"; "oidc"]%string)) ErrOther;
  _ ← guard_err (bool_decide (c_Auth c = "basic"%string) && (empty (c_BasicUser c) || empty (c_BasicPassHash c))) ErrOther;
  _ ← guard_err (bool_decide (c_Auth c = "oidc"%string) && (empty (c_OIDCIssuer c) || empty (c_OIDCClientID c))) ErrOther;
  _ ← guard_err (bool_decide (c_Auth c = "oidc"%string) && empty (c_OIDCRedirectURL c)) ErrOther;
  _ ← guard_err ((c_MaxRequestSize c <? 0) || (c_MaxArtifactSize c <? 0)) ErrOther;
  _ ← guard_err ((c_ReadTimeout c <? 0) || (c_WriteTimeout c <? 0) || (c_IdleTimeout c <? 0) || (c_SessionTTL c <? 0)) ErrOther;
  _ ← guard_err (bool_decide (ParseTrustedProxies (c_TrustedProxies c) = None)) ErrOther;
  if decide (c_ArtifactBackend c ∈ [EmptyString; "fs"%string]) then Ok tt
  else if decide (c_ArtifactBackend c = "s3"%string) then
    guard_err (existsb empty [c_S3Endpoint c; c_S3Bucket c; c_S3Region c; c_S3AccessKey c; c_S3SecretKey c]) ErrOther
  else Err ErrOther.

Definition fillDerivedPaths (c : Settings) : Settings :=
  let path (p name : string) := if decide (p = EmptyString) then path_Join [c_DataDir c; name] else p in
  mkSettings (c_DataDir c) (path (c_DBPath c) "litemlflow.db") (path (c_ArtifactsDir c) "artifacts") (c_Addr c) (c_Auth c)
    (c_BasicUser c) (c_BasicPassHash c) (c_OIDCIssuer c) (c_OIDCClientID c) (c_OIDCClientSecret c) (c_OIDCRedirectURL c) (c_OIDCScopes c)
    (c_SessionTTL c) (c_MaxArtifactSize c) (c_MaxRequestSize c) (c_ReadTimeout c) (c_WriteTimeout c) (c_IdleTimeout c)
    (c_DevMode c) (c_EnableMultiTenant c) (c_FederationName c) (c_ArtifactBackend c)
    (c_S3Endpoint c) (c_S3Bucket c) (c_S3Region c) (c_S3AccessKey c) (c_S3SecretKey c) (c_S3Prefix c)
    (c_S3MultipartThreshold c) (c_OTLPGRPCAddr c) (c_JanitorEnabled c) (c_JanitorInterval c) (c_RunStaleAfter c)
    (c_EventsRetention c) (c_TrustedProxies c).

Definition FromEnv (explicit : Settings) : result Settings :=
  let c := overlay (overlayFromEnv defaults) explicit in
  _ ← Validate c; Ok (fillDerivedPaths c).
End config.

(** * Laws *)

Definition text_fields : list (Settings → string) :=
  [c_DataDir; c_Addr; c_Auth; c_BasicUser; c_BasicPassHash; c_OIDCIssuer; c_OIDCClientID; c_OIDCClientSecret; c_OIDCRedirectURL;
   c_OIDCScopes; c_FederationName; c_ArtifactBackend; c_S3Endpoint; c_S3Bucket; c_S3Region; c_S3AccessKey; c_S3SecretKey; c_S3Prefix;
   c_OTLPGRPCAddr; c_TrustedProxies].
Definition number_fields : list (Settings → Z) :=
  [c_SessionTTL; c_MaxArtifactSize; c_MaxRequestSize; c_ReadTimeout; c_WriteTimeout; c_IdleTimeout; c_S3MultipartThreshold;
   c_JanitorInterval; c_RunStaleAfter; c_EventsRetention].

Lemma Clean_nonempty s : Clean s ≠ EmptyString.
Proof. unfold Clean. destruct (decide (s = EmptyString)); [done|]. destruct (IsAbs s); [done|]. cbv zeta. case_decide; done. Qed.

Lemma path_Join_nonempty d name : d ≠ EmptyString → path_Join [d; name] ≠ EmptyString.
Proof. intros Hd. cbn [path_Join]. rewrite decide_False by done. apply Clean_nonempty. Qed.

(** What a valid configuration guarantees. *)
Record valid_settings (proxies : option (list Prefix)) (c : Settings) : Prop := {
  vs_dir : c_DataDir c ≠ EmptyString;
  vs_auth : c_Auth c ∈ ["none"; "basic"; "oidc"]%string;
  vs_basic : c_Auth c = "basic"%string → c_BasicUser c ≠ EmptyString ∧ c_BasicPassHash c ≠ EmptyString;
  vs_oidc : c_Auth c = "oidc"%string → c_OIDCIssuer c ≠ EmptyString ∧ c_OIDCClientID c ≠ EmptyString ∧ c_OIDCRedirectURL c ≠ EmptyString;
  vs_sizes : 0 ≤ c_MaxRequestSize c ∧ 0 ≤ c_MaxArtifactSize c;
  vs_times : 0 ≤ c_ReadTimeout c ∧ 0 ≤ c_WriteTimeout c ∧ 0 ≤ c_IdleTimeout c ∧ 0 ≤ c_SessionTTL c;
  vs_proxies : is_Some proxies;
  vs_backend : c_ArtifactBackend c ∈ [EmptyString; "fs"; "s3"]%string;
  vs_s3 : c_ArtifactBackend c = "s3"%string →
    Forall (λ s, s ≠ EmptyString) [c_S3Endpoint c; c_S3Bucket c; c_S3Region c; c_S3AccessKey c; c_S3SecretKey c]
}.

Lemma guard_bind {A} b e (k : result A) x : (_ ← guard_err b e; k) = Ok x → b = false ∧ k = Ok x.
Proof. by destruct b. Qed.

Lemma empty_false s : empty s = false ↔ s ≠ EmptyString.
Proof. unfold empty. apply bool_decide_eq_false. Qed.

Lemma Validate_valid ParsePrefix ParseAddr c :
  Validate ParsePrefix ParseAddr c = Ok tt → valid_settings (ParseTrustedProxies ParsePrefix ParseAddr (c_TrustedProxies c)) c.
Proof.
  unfold Validate. intros H. do 8 (apply guard_bind in H as [? H]). repeat match goal with
    | Hb : _ || _ = false |- _ => apply orb_false_iff in Hb as [? ?]
    | Hb : (_ <? _) = false |- _ => apply Z.ltb_ge in Hb
    | Hb : empty _ = false |- _ => apply empty_false in Hb
    | Hb : bool_decide (_ ∉ _) = false |- _ => apply bool_decide_eq_false, dec_stable in Hb
    | Hb : bool_decide (_ = None) = false |- _ => apply bool_decide_eq_false, not_eq_None_Some in Hb
    end.
  split; try done || lia.
  - intros E. match goal with Hb : bool_decide (_ = "basic"%string) && _ = false |- _ =>
      rewrite bool_decide_eq_true_2 in Hb by done; apply orb_false_iff in Hb as [?%empty_false ?%empty_false] end. done.
  - intros E. repeat match goal with Hb : bool_decide (_ = "oidc"%string) && _ = false |- _ =>
      rewrite bool_decide_eq_true_2 in Hb by done; cbn [andb] in Hb end.
    match goal with Hb : _ || _ = false |- _ => apply orb_false_iff in Hb as [?%empty_false ?%empty_false] end.
    match goal with Hb : empty _ = false |- _ => apply empty_false in Hb end. done.
  - revert H. repeat case_decide; set_solver.
  - intros E. revert H. rewrite decide_False by (rewrite E; set_solver). rewrite decide_True by done. unfold guard_err.
    destruct (existsb empty _) eqn:Ex; [done|]. intros _. apply Forall_forall. intros s Hs ->.
    apply not_true_iff_false in Ex. apply Ex, existsb_exists. exists EmptyString. split; [by apply list_elem_of_In|done].
Qed.

Lemma or_value_positive parse v old : 0 < old → 0 < or_value parse positive v old.
Proof. intros Hold. unfold or_value, positive. repeat case_match; try done. lia. Qed.

Section resolved.
Context (Getenv : string → string) (ParseDuration : string → option Z).
Context (ParsePrefix : string → option Prefix) (ParseAddr : string → option Addr).

Notation env := (overlayFromEnv Getenv ParseDuration defaults).

Lemma env_intervals : 0 < c_JanitorInterval env ∧ 0 < c_RunStaleAfter env.
Proof. split; by apply or_value_positive. Qed.

Lemma FromEnv_fields explicit c :
  FromEnv Getenv ParseDuration ParsePrefix ParseAddr explicit = Ok c →
  Forall (λ f, f c = or_text (f explicit) (f env)) text_fields ∧ Forall (λ f, f c = or_number (f explicit) (f env)) number_fields ∧
  valid_settings (ParseTrustedProxies ParsePrefix ParseAddr (c_TrustedProxies c)) c ∧ c_DBPath c ≠ EmptyString ∧ c_ArtifactsDir c ≠ EmptyString.
Proof.
  unfold FromEnv. set (c0 := overlay env explicit). destruct (Validate ParsePrefix ParseAddr c0) as [[]|] eqn:Hv; [|done]. intros [= <-].
  apply Validate_valid in Hv. split; [by repeat constructor|]. split; [by repeat constructor|]. split; [destruct Hv; by constructor|].
  pose proof (vs_dir _ _ Hv) as Hd. clearbody c0. unfold fillDerivedPaths. cbn [c_DBPath c_ArtifactsDir].
  split; case_decide; try done; by apply path_Join_nonempty.
Qed.
End resolved.

(** C31: the configuration the server starts with.  When [FromEnv] succeeds,
    the authentication mode is one the server knows and has what it needs, no
    limit or timeout is negative, the trusted proxies and the artifact backend
    are usable and the paths are set; the janitor's ticker has a positive
    period, so it does not panic; and every text and number comes from the
    flag when it is set, else from the environment or the default. *)
Theorem settings_sound Getenv ParseDuration ParsePrefix ParseAddr explicit c :
  FromEnv Getenv ParseDuration ParsePrefix ParseAddr explicit = Ok c →
  0 ≤ c_JanitorInterval explicit → 0 ≤ c_RunStaleAfter explicit →
  let env := overlayFromEnv Getenv ParseDuration defaults in
  valid_settings (ParseTrustedProxies ParsePrefix ParseAddr (c_TrustedProxies c)) c ∧
  c_DBPath c ≠ EmptyString ∧ c_ArtifactsDir c ≠ EmptyString ∧ 0 < c_JanitorInterval c ∧ 0 < c_RunStaleAfter c ∧
  (∀ f, f ∈ text_fields → f c = if decide (f explicit = EmptyString) then f env else f explicit) ∧
  (∀ f, f ∈ number_fields → f c = if decide (f explicit = 0) then f env else f explicit).
Proof.
  intros Hc Hi Hs env. destruct (FromEnv_fields _ _ _ _ _ _ Hc) as (Ht & Hn & Hv & H1 & H2).
  rewrite Forall_forall in Ht. rewrite Forall_forall in Hn. destruct (env_intervals Getenv ParseDuration) as [E1 E2]. fold env in E1, E2.
  split_and!; try done.
  - rewrite (Hn c_JanitorInterval) by (unfold number_fields; set_solver). unfold or_number. fold env. case_decide; lia.
  - rewrite (Hn c_RunStaleAfter) by (unfold number_fields; set_solver). unfold or_number. fold env. case_decide; lia.
Qed.

(** * Witnesses and gaps *)

Module Example18.
Definition Getenv (name : string) : string :=
  if decide (name = "LITEMLFLOW_DATA"%string) then "/data" else if decide (name = "LITEMLFLOW_DEV"%string) then "1"
  else if decide (name = "LITEMLFLOW_JANITOR_INTERVAL"%string) then "-5m" else "".
Definition ParseDuration (s : string) : option Z := if decide (s = "-5m"%string) then Some (- 5 * minute) else None.
Definition flags : Settings := mkSettings "" "" "" ":8080" "" "" "" "" "" "" "" "" 0 0 0 0 0 0 false false "" "" "" "" "" "" "" "" 0 "" false 0 0 0 "".
Definition resolved : result Settings := FromEnv Getenv ParseDuration (λ _, None) (λ _, None) flags.

Lemma settings_sound_witness : ∃ c, resolved = Ok c ∧ c_Addr c = ":8080"%string ∧ c_DataDir c = "/data"%string ∧
  c_DBPath c = "/data/litemlflow.db"%string ∧ c_JanitorInterval c = 5 * minute.
Proof.
  destruct resolved as [c|] eqn:E; [|vm_compute in E; discriminate].
  destruct (settings_sound Getenv ParseDuration (λ _, None) (λ _, None) flags c E) as (_ & _ & _ & _ & _ & Ht & Hn); [vm_compute; discriminate..|].
  exists c. split; [reflexivity|]. split; [rewrite (Ht c_Addr) by (unfold text_fields; set_solver); reflexivity|].
  split; [rewrite (Ht c_DataDir) by (unfold text_fields; set_solver); vm_compute; reflexivity|].
  split; [|rewrite (Hn c_JanitorInterval) by (unfold number_fields; set_solver); vm_compute; reflexivity].
  vm_compute in E. injection E as <-. reflexivity.
Defined.

(** The flag [--dev=false] does not override the environment. *)
Example flag_cannot_disable : c_DevMode flags = false ∧ c_DevMode <$> resolved = Ok true.
Proof. split; [reflexivity|]. vm_compute. reflexivity. Qed.
End Example18.
