(* ===== verification/Front.v ===== *)
(** * The outer middlewares (internal/server/middleware.go, janitor.go)

    What happens to a request before authentication: the rewriting of the v2
    namespace, the request id, the security headers, the caps on bodies and
    deadlines, and the writer that records the status; and the janitor that
    sweeps the store in the background. *)

From S2P Require Import Prelude GoStrings Urls Model Float64 Database Events Runs Sample TimeTravel Replay Access RateLimit NativeApi.
From Stdlib Require Import Ascii.

Open Scope Z_scope.

(** ** Paths of requests (package net/url)

    The decoded path and, when the default encoding of it is not what came
    in, the raw one. *)

Record ReqURL := mkReqURL { ru_Path : string; ru_RawPath : string }.

(** What a path may hold besides the unreserved: [$ & + , / : ; = @]. *)
Definition path_extra (c : ascii) : bool := segment_extra c || byte_is 44 c || byte_is 47 c || byte_is 59 c.

(** [escape(s, encodePath)] *)
Fixpoint escape_path (s : string) : string :=
  match s with
  | EmptyString => EmptyString
  | String c s' => if unreserved c || path_extra c then String c (escape_path s') else percent c (escape_path s')
  end.

(** What [validEncoded] lets pass: also [! ' ( ) * [ ] %]. *)
Definition encoded_byte (c : ascii) : bool :=
  unreserved c || path_extra c || byte_is 33 c || byte_in 39 42 c || byte_is 91 c || byte_is 93 c || byte_is 37 c.
Definition validEncoded (s : string) : bool := negb (any_byte (λ c, negb (encoded_byte c)) s).

Definition EscapedPath (u : ReqURL) : string :=
  if decide (ru_RawPath u ≠ EmptyString ∧ validEncoded (ru_RawPath u) = true ∧ PathUnescape (ru_RawPath u) = Some (ru_Path u))
  then ru_RawPath u
  else if decide (ru_Path u = "*"%string) then "*"%string else escape_path (ru_Path u).

(** [URL.setPath], when a request line is parsed. *)
Definition setPath (p : string) : option ReqURL :=
  path ← PathUnescape p; Some (mkReqURL path (if decide (escape_path path = p) then EmptyString else p)).

(** ** The v2 namespace

    The rewritten path and whether [X-API-Version] is set; [None] is the
    reply 400. *)
Definition apiV2AliasMiddleware (u : ReqURL) : option (ReqURL * bool) :=
  let esc := EscapedPath u in
  if HasPrefix esc "/api/v2/" then
    let newEsc := "/api/v1/" +:+ sdrop 8 esc in
    decoded ← PathUnescape newEsc; Some (mkReqURL decoded newEsc, true)
  else Some (u, false).

(** What the router (chi) matches: the raw path when there is one.  A parameter
    of a route is a piece of it between two slashes; [nameParam] decodes it. *)
Definition route_path (u : ReqURL) : string := if decide (ru_RawPath u = EmptyString) then ru_Path u else ru_RawPath u.
Definition route_segments (u : ReqURL) : list Segment := mkSegment (ru_RawPath u) <$> Split1 "/" (route_path u).

(** ** Request ids *)

(** The eight bytes of a seed, least significant first. *)
Definition seed_bytes (seed : Z) : string :=
  foldr (λ i s, String (ascii_of_N (Z.to_N (Z.shiftr seed (8 * Z.of_nat i) `mod` 256))) s) EmptyString (seq 0 8).

(** [hex_sha256] is the hex text of the digest. *)
Definition shortHash (hex_sha256 : string → string) (seed : Z) : string := stake 12 (hex_sha256 (seed_bytes seed)).

Definition requestIDMiddleware (hex_sha256 : string → string) (nanos : Z) (id : string) : string :=
  if decide (id = EmptyString) then shortHash hex_sha256 nanos else id.

(** ** Security headers *)

Definition csp : string :=
  "default-src 'self'; img-src 'self' data:; style-src 'self' 'unsafe-inline'; script-src 'self'; connect-src 'self'; frame-ancestors 'none'; base-uri 'self'; form-action 'self'".

(** [tls]: the connection is encrypted; [proto]: the X-Forwarded-Proto
    header. *)
Definition securityHeadersMiddleware (tls : bool) (proto : string) (h : gmap string string) : gmap string string :=
  let h := <["Content-Security-Policy" := csp]> (<["Referrer-Policy" := "no-referrer"]>
    (<["X-Frame-Options" := "DENY"]> (<["X-Content-Type-Options" := "nosniff"]> h))) in
  if tls || bool_decide (ToLower proto = "https"%string)
  then <["Strict-Transport-Security" := "max-age=31536000; includeSubDomains"]> h else h.

(** ** The status writer *)

(** The reply on the connection: net/http keeps the first status and sends
    200 with a body that comes first. *)
Record Conn := mkConn { cn_header : option Z; cn_body : string }.

Definition raw_WriteHeader (code : Z) (c : Conn) : Conn :=
  match cn_header c with None => mkConn (Some code) (cn_body c) | Some _ => c end.
Definition raw_Write (b : string) (c : Conn) : Conn := let c := raw_WriteHeader 200 c in mkConn (cn_header c) (cn_body c +:+ b).

Record statusWriter := mkStatusWriter { sw_conn : Conn; sw_status : Z; sw_bytesWritten : Z; sw_wroteHeader : bool }.

Definition new_writer : statusWriter := mkStatusWriter (mkConn None EmptyString) 200 0 false.

Definition WriteHeader (code : Z) (w : statusWriter) : statusWriter :=
  if sw_wroteHeader w then w else mkStatusWriter (raw_WriteHeader code (sw_conn w)) code (sw_bytesWritten w) true.

Definition Write (b : string) (w : statusWriter) : statusWriter :=
  let w := if sw_wroteHeader w then w else WriteHeader 200 w in
  mkStatusWriter (raw_Write b (sw_conn w)) (sw_status w) (sw_bytesWritten w + Z.of_nat (slen b)) (sw_wroteHeader w).

Inductive write_op := OpHeader (code : Z) | OpBody (b : string).
Definition apply_op (w : statusWriter) (o : write_op) : statusWriter :=
  match o with OpHeader code => WriteHeader code w | OpBody b => Write b w end.

(** A handler's calls on the writer, and whether it panics after them.
    [loggingMiddleware] and the metrics record the status and the bytes when
    the handler returns; a panic unwinds past them to [recoveryMiddleware],
    which writes the error reply on the connection. *)
Definition respond (ops : list write_op) (panics : bool) : Conn * option (Z * Z) :=
  let w := foldl apply_op new_writer ops in
  if panics then (raw_Write "internal error" (raw_WriteHeader 500 (sw_conn w)), None)
  else (sw_conn w, Some (sw_status w, sw_bytesWritten w)).

Inductive level := LevelError | LevelWarn | LevelInfo.
Definition levelFor (status : Z) : level := if 500 <=? status then LevelError else if 400 <=? status then LevelWarn else LevelInfo.

(** ** Limits *)

Definition isLargeUploadPath (method path : string) : bool :=
  bool_decide (method ∈ ["POST"; "PUT"]%string) &&
  ((bool_decide (method = "POST"%string) && HasPrefix path "/api/v1/datasets/" && HasSuffix path "/versions") ||
   HasPrefix path "/api/2.0/mlflow-artifacts/artifacts").

Definition isArtifactUploadPath (method path : string) : bool :=
  bool_decide (method ∈ ["POST"; "PUT"]%string) && HasPrefix path "/api/2.0/mlflow-artifacts/artifacts".

Definition isLargeTransferPath (method path : string) : bool :=
  isLargeUploadPath method path || (bool_decide (method = "GET"%string) && HasPrefix path "/api/2.0/mlflow-artifacts/artifacts/").

Definition largeTransferTimeout : Z := 6 * 60 * minute.

(** The deadline the connection gets, [None] leaving the server's. *)
Definition largeTransferDeadlineMiddleware (now : Z) (method path : string) : option Z :=
  if isLargeTransferPath method path then Some (now + largeTransferTimeout) else None.

(** The cap on the body, [None] for none. *)
Definition bodyLimitMiddleware (maxBytes maxArtifactBytes : Z) (method path : string) : option Z :=
  let limit := if isLargeUploadPath method path then (if isArtifactUploadPath method path then maxArtifactBytes else 0) else maxBytes in
  if 0 <? limit then Some limit else None.

(** ** The janitor *)

(** [t.UnixMilli()] of a time in nanoseconds. *)
Definition UnixMilli (t : Z) : Z := t / 10 ^ 6.

(** The part of the store the janitor needs. *)
Class JanitorStore := {
  js_ArchiveStaleRuns : Z → M Z;
  js_PruneEventsBefore : Z → M Z }.

(** The SQLite store, whose statements may fail: the functions say for which
    cutoffs they do. *)
Definition failing_sweep (fails : bool) (m : M Z) : M Z := if fails then fail ErrOther else m.

#[export] Instance sqlite_janitor `{Clock} (archive_fails prune_fails : Z → bool) : JanitorStore := {
  js_ArchiveStaleRuns cut := failing_sweep (archive_fails cut) (ArchiveStaleRuns cut);
  js_PruneEventsBefore cut := failing_sweep (prune_fails cut) (PruneEventsBefore cut) }.

Section janitor.
Context `{JanitorStore}.

(** One tick: both sweeps run, whether or not the first fails. *)
Definition janitor_tick (staleAfter eventsRetention tick : Z) : M unit :=
  _ ← attempt (js_ArchiveStaleRuns (UnixMilli (tick - staleAfter)));
  _ ← when (0 <? eventsRetention) (_ ← attempt (js_PruneEventsBefore (UnixMilli (tick - eventsRetention))); mret tt);
  mret tt.

(** The ticks until the context is canceled. *)
Fixpoint StartJanitor (staleAfter eventsRetention : Z) (ticks : list Z) : M unit :=
  match ticks with
  | [] => mret tt
  | t :: ticks' => _ ← janitor_tick staleAfter eventsRetention t; StartJanitor staleAfter eventsRetention ticks'
  end.
End janitor.

(** * Laws *)

(** ** Paths *)

Lemma escape_path_roundtrip s : PathUnescape (escape_path s) = Some s.
Proof.
  unfold PathUnescape. induction s as [|c s IH]; [done|]. cbn [escape_path]. destruct (unreserved c || path_extra c) eqn:Hc.
  - assert (forallb (λ c, negb (unreserved c || path_extra c) || negb (byte_is 37 c)) all_bytes = true) as Hall by (vm_compute; reflexivity).
    pose proof (all_bytes_spec _ Hall c) as Hp. cbv beta in Hp. rewrite Hc in Hp. apply negb_true_iff in Hp.
    by rewrite unescape_plain, IH.
  - by rewrite unescape_percent, IH.
Qed.

Lemma EscapedPath_unescape u : PathUnescape (EscapedPath u) = Some (ru_Path u).
Proof.
  unfold EscapedPath. case_decide as H1; [by destruct H1 as (_ & _ & ?)|]. case_decide as H2; [by rewrite H2|apply escape_path_roundtrip].
Qed.

Lemma validEncoded_app s t : validEncoded (s +:+ t) = validEncoded s && validEncoded t.
Proof. unfold validEncoded. by rewrite any_byte_app, negb_orb. Qed.

Lemma escape_path_valid s : validEncoded (escape_path s) = true.
Proof.
  assert (∀ c s, validEncoded (String c s) = encoded_byte c && validEncoded s) as Hcons.
  { intros c t. unfold validEncoded. cbn [any_byte]. by rewrite negb_orb, negb_involutive. }
  induction s as [|c s IH]; [done|]. cbn [escape_path]. destruct (unreserved c || path_extra c) eqn:Hc.
  - rewrite Hcons, IH. unfold encoded_byte. by rewrite Hc.
  - assert (forallb (λ c, encoded_byte (upper_hex (byte_of c / 16)) && encoded_byte (upper_hex (byte_of c mod 16))) all_bytes = true) as Hall
      by (vm_compute; reflexivity).
    pose proof (all_bytes_spec _ Hall c) as Hh. cbv beta in Hh. apply andb_prop in Hh as [H1 H2].
    unfold percent. by rewrite !Hcons, H1, H2, IH.
Qed.

Lemma EscapedPath_valid u : validEncoded (EscapedPath u) = true.
Proof. unfold EscapedPath. case_decide as H1; [by destruct H1 as (_ & ? & _)|]. case_decide; [done|apply escape_path_valid]. Qed.

(** A valid encoding of the path that is set as raw is what [EscapedPath]
    returns. *)
Lemma EscapedPath_raw path raw : raw ≠ EmptyString → validEncoded raw = true → PathUnescape raw = Some path → EscapedPath (mkReqURL path raw) = raw.
Proof. intros. unfold EscapedPath. by rewrite decide_True. Qed.

Lemma setPath_escaped p u : setPath p = Some u → validEncoded p = true → p ≠ "*"%string → p ≠ EmptyString → ru_Path u ≠ "*"%string →
  PathUnescape p = Some (ru_Path u) ∧ EscapedPath u = p.
Proof.
  unfold setPath. destruct (PathUnescape p) as [path|] eqn:E; [|done]. cbn. intros [= <-] Hv Hs Hne Hp. cbn in *. split; [done|].
  case_decide as Hd; [|by apply EscapedPath_raw]. unfold EscapedPath. cbn [ru_RawPath ru_Path]. rewrite decide_False by (by intros [? _]).
  by rewrite decide_False.
Qed.

Lemma unescape_prefix v t : v ∈ ["/api/v1/"; "/api/v2/"]%string → PathUnescape (v +:+ t) = (λ x, v +:+ x) <$> PathUnescape t.
Proof.
  intros Hv. unfold PathUnescape. apply elem_of_cons in Hv as [->|Hv]; [|apply list_elem_of_singleton in Hv as ->];
    cbn [String.append unescape]; destruct (unescape false t); done.
Qed.

(** ** Replies *)

(** The writer mirrors the connection. *)
Definition mirrors (w : statusWriter) : Prop :=
  sw_wroteHeader w = bool_decide (is_Some (cn_header (sw_conn w))) ∧ sw_status w = default 200 (cn_header (sw_conn w)) ∧
  sw_bytesWritten w = Z.of_nat (slen (cn_body (sw_conn w))) ∧ (cn_header (sw_conn w) = None → cn_body (sw_conn w) = EmptyString).

Lemma WriteHeader_mirrors code w : mirrors w → mirrors (WriteHeader code w) ∧ sw_wroteHeader (WriteHeader code w) = true.
Proof.
  unfold mirrors, WriteHeader, raw_WriteHeader. destruct w as [[[c|] b] st n wrote]; cbn; intros (-> & -> & -> & Hb); cbn; [done|].
  by rewrite Hb by done.
Qed.

Lemma Write_mirrors b w : mirrors w → mirrors (Write b w).
Proof.
  intros Hw. unfold Write. set (w' := if sw_wroteHeader w then w else WriteHeader 200 w).
  assert (mirrors w' ∧ sw_wroteHeader w' = true) as [Hm Ht] by (unfold w'; destruct (sw_wroteHeader w) eqn:E; [done|by apply WriteHeader_mirrors]).
  clearbody w'. destruct w' as [[h body] st n wrote], Hm as (H1 & H2 & H3 & H4). cbn in *. rewrite Ht in H1. symmetry in H1. subst wrote.
  apply bool_decide_eq_true in H1 as [code ->]. unfold mirrors. cbn. split; [done|]. split; [done|]. split; [|done]. rewrite slen_app. lia.
Qed.

Lemma ops_mirror ops w : mirrors w → mirrors (foldl apply_op w ops).
Proof.
  revert w. induction ops as [|[code|b] ops IH]; intros w Hw; cbn; [done|apply IH; by apply WriteHeader_mirrors|apply IH; by apply Write_mirrors].
Qed.

(** ** The janitor *)

Lemma janitor_tick_ok `{JanitorStore} staleAfter retention t w :
  janitor_tick staleAfter retention t w =
  (Ok tt, let w1 := (js_ArchiveStaleRuns (UnixMilli (t - staleAfter)) w).2 in
          if 0 <? retention then (js_PruneEventsBefore (UnixMilli (t - retention)) w1).2 else w1).
Proof.
  unfold janitor_tick. unfold mbind, M_bind, attempt at 1. destruct (js_ArchiveStaleRuns _ w) as [r w1]. unfold when. cbn [snd].
  destruct (0 <? retention); [|done]. unfold mbind, M_bind, attempt. by destruct (js_PruneEventsBefore _ w1).
Qed.

Lemma StartJanitor_ok `{JanitorStore} staleAfter retention ticks w : ∃ w', StartJanitor staleAfter retention ticks w = (Ok tt, w').
Proof.
  revert w. induction ticks as [|t ticks IH]; intros w; [by eexists|]. cbn [StartJanitor].
  rewrite (bind_Ok _ _ _ _ _ (janitor_tick_ok staleAfter retention t w)). apply IH.
Qed.

Section archiving.
Context `{Clock}.

(** A sweep that fails leaves the tables. *)
Lemma ArchiveStaleRuns_fails cut w e w' : ArchiveStaleRuns cut w = (Err e, w') → w_db w' = w_db w.
Proof.
  unfold ArchiveStaleRuns. rewrite now_bind, get_bind. cbn [w_db]. case_decide; [done|]. unfold ArchiveStaleRuns_tx, transaction.
  destruct ((archived ← archive_all _ _; _) _) as [[a|] w2]; [done|]. by intros [= _ <-].
Qed.

(** On rows that pass the checks of the schema the sweep succeeds. *)
Definition rows_checked (w : World) : Prop := map_Forall (λ _ row, check_run row = true) (runs (w_db w)).

Lemma archive_one_total now id w : rows_checked w → ∃ b w', archive_one now id w = (Ok b, w') ∧ rows_checked w'.
Proof.
  intros Hck. unfold archive_one. rewrite get_bind. destruct (runs (w_db w) !! id) as [r|] eqn:E; [|by do 2 eexists]. case_decide; [|by do 2 eexists].
  assert (check_run (archive_row now r) = true) as Hc.
  { pose proof (Hck _ _ E) as Hr. cbn beta in Hr. unfold check_run in *. apply andb_prop in Hr as [[_ Hl]%andb_prop Hk]. cbn. by rewrite Hl, Hk. }
  exists true. unfold update_run, upsert_tag. eexists. split.
  - erewrite bind_Ok. 2:{ rewrite get_bind, E. cbv zeta. rewrite Hc. cbn [negb]. replace (match rr_parent_run_id _ with Some p => _ | None => true end) with true; [reflexivity|].
      cbn. destruct (rr_parent_run_id r); [|done]. by rewrite bool_decide_eq_true_2. }
    erewrite bind_Ok; [reflexivity|]. rewrite get_bind. unfold run_exists. cbn. rewrite bool_decide_eq_true_2; [reflexivity|]. rewrite lookup_insert_eq. by eexists.
  - cbn. by apply map_Forall_insert_2.
Qed.

Lemma archive_all_total now ids w : rows_checked w → ∃ l w', archive_all now ids w = (Ok l, w').
Proof.
  revert w. induction ids as [|id ids IH]; intros w Hck; [by do 2 eexists|]. cbn [archive_all].
  destruct (archive_one_total now id w Hck) as (b & w1 & E & Hck1). destruct (IH w1 Hck1) as (l & w2 & E2).
  rewrite (bind_Ok _ _ _ _ _ E), (bind_Ok _ _ _ _ _ E2). by do 2 eexists.
Qed.

Lemma archive_one_running now id w r b w' :
  runs (w_db w) !! id = Some r → rr_status r = StatusRunning → rr_lifecycle_stage r = LifecycleActive →
  archive_one now id w = (Ok b, w') → b = true.
Proof.
  intros Hr H1 H2. unfold archive_one. rewrite get_bind, Hr, decide_True by done. intros Hx.
  apply bind_exec_Ok in Hx as (? & ? & _ & Hx). apply bind_exec_Ok in Hx as (? & ? & _ & Hx). by injection Hx as <- _.
Qed.

(** Every run of the list is archived. *)
Lemma archive_all_complete now ids w l w' : NoDup ids →
  (∀ id, id ∈ ids → ∃ r, runs (w_db w) !! id = Some r ∧ rr_status r = StatusRunning ∧ rr_lifecycle_stage r = LifecycleActive) →
  archive_all now ids w = (Ok l, w') → l = ids.
Proof.
  revert w l w'. induction ids as [|id ids IH]; intros w l w' Hnd Hrun Hx; [by injection Hx as <- _|].
  apply NoDup_cons in Hnd as [Hid Hnd]. cbn [archive_all] in Hx.
  apply bind_exec_Ok in Hx as (b & w1 & Ho & Hx). apply bind_exec_Ok in Hx as (l' & w2 & Ha & Hx). injection Hx as <- _.
  destruct (Hrun id) as (r & Hr & H1 & H2); [left|]. pose proof (archive_one_running _ _ _ _ _ _ Hr H1 H2 Ho) as ->. f_equal.
  apply archive_one_exec in Ho as (_ & _ & r0 & _ & Hruns & _). eapply IH; [done| |exact Ha].
  intros id' Hid'. rewrite Hruns, lookup_insert_ne by (intros ->; done). apply Hrun. by right.
Qed.

(** The runs the sweep is for, and what it does to them. *)
Definition overdue (cut : Z) (row : RunRow) : Prop :=
  rr_status row = "RUNNING"%string ∧ rr_lifecycle_stage row = "active"%string ∧ rr_start_time row < cut.
#[export] Instance overdue_dec cut row : Decision (overdue cut row).
Proof. unfold overdue. apply _. Defined.

Definition swept (cut now : Z) (row : RunRow) : RunRow :=
  if decide (overdue cut row) then
    mkRunRow (rr_experiment_id row) (rr_name row) "FAILED" (rr_start_time row) (Some now) (rr_artifact_uri row) (rr_lifecycle_stage row)
      (rr_user_id row) (rr_source_type row) (rr_source_name row) (rr_run_kind row) (rr_parent_run_id row)
  else row.

Lemma stale_overdue cut row : stale cut row = true ↔ overdue cut row.
Proof. unfold stale, overdue. rewrite !andb_true_iff, !bool_decide_eq_true, Z.ltb_lt. tauto. Qed.

Lemma swept_stale cut now row : swept cut now row = if stale cut row then archive_row now row else row.
Proof.
  unfold swept. destruct (stale cut row) eqn:E.
  - by rewrite decide_True by by apply stale_overdue.
  - rewrite decide_False; [done|]. intros Ho%stale_overdue. congruence.
Qed.

Lemma ArchiveStaleRuns_sweeps cut w n w' : ArchiveStaleRuns cut w = (Ok n, w') →
  runs (w_db w') = swept cut (clock (w_tick w)) <$> runs (w_db w) ∧
  ∀ R k, (∃ row, runs (w_db w) !! R = Some row ∧ ¬ overdue cut row) ∨ k ≠ archivedTag → tags (w_db w') !! (R, k) = tags (w_db w) !! (R, k).
Proof.
  unfold ArchiveStaleRuns. rewrite now_bind, get_bind. cbn [w_db]. set (ids := (filter _ (map_to_list (runs (w_db w)))).*1).
  assert (∀ R, R ∈ ids ↔ ∃ r, runs (w_db w) !! R = Some r ∧ stale cut r = true) as Hids.
  { intros R. unfold ids. rewrite list_elem_of_fmap. split.
    - intros ([R' r] & -> & [Hs Hin]%list_elem_of_filter). apply elem_of_map_to_list in Hin. exists r. split; [done|]. by destruct (stale cut r).
    - intros (r & Hr & Hs). exists (R, r). split; [done|]. apply list_elem_of_filter. rewrite Hs. by rewrite elem_of_map_to_list. }
  assert (∀ R, R ∉ ids → runs (w_db w) !! R = (swept cut (clock (w_tick w)) <$> runs (w_db w)) !! R) as Hkeep.
  { intros R HR. rewrite lookup_fmap. destruct (runs (w_db w) !! R) as [row|] eqn:E; [|done]. cbn. rewrite swept_stale.
    destruct (stale cut row) eqn:Es; [|done]. exfalso. apply HR, Hids. by exists row. }
  case_decide as He.
  { intros [= _ <-]. split; [|done]. apply map_eq. intros R. apply Hkeep. rewrite He. apply not_elem_of_nil. }
  unfold ArchiveStaleRuns_tx, transaction. destruct ((archived ← archive_all _ ids; _) _) as [[a|] w2] eqn:Hx; [|done]. intros [= _ <-].
  apply bind_exec_Ok in Hx as (l & w1 & Ha & Hx). assert (NoDup ids) as Hnd by apply NoDup_fmap_filter, NoDup_fst_map_to_list.
  pose proof Ha as Hl. apply archive_all_complete in Hl; [|done|].
  2: { intros id (r & Hr & Hs)%Hids. exists r. unfold stale in Hs. apply andb_prop in Hs as [[Hs1%bool_decide_eq_true _]%andb_prop Hs2%bool_decide_eq_true]. done. }
  subst l. apply archive_all_exec in Ha as (_ & _ & [Hin Hout Htag _]); [|done].
  assert (∀ R, R ∈ ids → is_Some (runs (w_db w) !! R)) as Hex by (intros R (r & Hr & _)%Hids; eauto).
  erewrite bind_Ok in Hx by by apply archive_events_exec. injection Hx as _ <-. cbn. split.
  - apply map_eq. intros R. destruct (decide (R ∈ ids)) as [HR|HR]; [|rewrite Hout by done; by apply Hkeep].
    destruct (Hin R HR) as (row & Hr & ->). apply Hids in HR as (r0 & Hr0 & Hs). cbn in Hr. rewrite Hr in Hr0. injection Hr0 as ->.
    rewrite lookup_fmap, Hr. cbn. by rewrite swept_stale, Hs.
  - intros R k Hk. apply Htag. destruct Hk as [(row & Hr & Hs)|?]; [left|by right]. intros (r0 & Hr0 & Hs0%stale_overdue)%Hids. congruence.
Qed.

Lemma ArchiveStaleRuns_total cut w : rows_checked w → is_ok (ArchiveStaleRuns cut w).1 = true.
Proof.
  intros Hck. unfold ArchiveStaleRuns. rewrite now_bind, get_bind. cbn [w_db]. set (ids := (filter _ (map_to_list (runs (w_db w)))).*1).
  case_decide; [done|]. unfold ArchiveStaleRuns_tx, transaction.
  destruct (archive_all_total (clock (w_tick w)) ids (mkWorld (w_db w) (S (w_tick w))) Hck) as (l & w1 & E). rewrite (bind_Ok _ _ _ _ _ E).
  apply archive_all_exec in E as (_ & Hsub & [Hin _ _ _]); [|by apply NoDup_fmap_filter, NoDup_fst_map_to_list].
  erewrite bind_Ok; [done|]. apply archive_events_exec. intros R HR. destruct (Hin R HR) as (row & Hr & _). by eexists.
Qed.
End archiving.

(** ** Theorems *)

(** The default encoding keeps the slashes. *)
Lemma Split1_escape_path s : Split1 "/" (escape_path s) = escape_path <$> Split1 "/" s.
Proof.
  induction s as [|c s IH]; [done|]. cbn [escape_path Split1]. destruct (decide (c = "/"%char)) as [->|Hc].
  { rewrite bool_decide_eq_true_2 by done. change (unreserved "/" || path_extra "/") with true.
    cbn [Split1]. rewrite bool_decide_eq_true_2, IH by done. done. }
  rewrite (bool_decide_eq_false_2 (c = "/"%char)) by done. destruct (unreserved c || path_extra c) eqn:Hx.
  - cbn [Split1]. rewrite bool_decide_eq_false_2, IH by done. destruct (Split1 "/" s); cbn; by rewrite Hx.
  - unfold percent. cbn [Split1].
    assert (forallb (λ c, negb (bool_decide (upper_hex (byte_of c / 16) = "/"%char)) && negb (bool_decide (upper_hex (byte_of c mod 16) = "/"%char)))
      all_bytes = true) as Hall by (vm_compute; reflexivity).
    pose proof (all_bytes_spec _ Hall c) as Hh. cbv beta in Hh. apply andb_prop in Hh as [H1%negb_true_iff H2%negb_true_iff].
    rewrite bool_decide_eq_false_2 by done. cbn [Split1]. rewrite H1, H2, IH.
    destruct (Split1 "/" s); cbn; by rewrite Hx.
Qed.

Lemma unescape_without s : avoids "%" s = true → PathUnescape s = Some s.
Proof.
  unfold PathUnescape. induction s as [|c s IH]; [done|]. intros [Hc Hs]%avoids_cons.
  assert (byte_is 37 c = false) as Hb by (apply not_true_iff_false; by intros ->%byte_is_eq).
  by rewrite unescape_plain, IH.
Qed.

(** Two requests that differ in the raw path only have the same names. *)
Lemma names_agree path raw :
  escape_path path = raw → raw ≠ EmptyString →
  nameParam <$> route_segments (mkReqURL path raw) = nameParam <$> route_segments (mkReqURL path EmptyString).
Proof.
  intros <- Hne. unfold route_segments, route_path. cbn [ru_RawPath ru_Path]. rewrite decide_False, decide_True by done.
  rewrite Split1_escape_path, <- !list_fmap_compose. apply list_fmap_ext. intros i x _. unfold compose, nameParam. cbn [seg_RawPath seg_Param].
  by rewrite decide_False, escape_path_roundtrip, decide_True by done.
Qed.

(** C32: the v2 namespace is the v1 namespace for names.  A request whose
    escaped path is [/api/v2/] and a rest is never refused.  It goes on with the
    decoded path (which authentication, roles and limits read) and the escaped
    path of a request that came in as [/api/v1/] with the same rest, so that an
    encoded slash stays inside its segment.  What the router matches has the
    same segments, and those read with [nameParam] are the same; without a
    percent sign in the rest all the segments are the same as they stand.  The
    rewritten request is not rewritten again. *)
Theorem v2_alias_sound u rest :
  EscapedPath u = "/api/v2/" +:+ rest →
  ∃ u' v, apiV2AliasMiddleware u = Some (u', true) ∧ setPath ("/api/v1/" +:+ rest) = Some v ∧
    ru_Path u' = ru_Path v ∧ EscapedPath u' = EscapedPath v ∧ EscapedPath u' = "/api/v1/" +:+ rest ∧
    (∃ x, ru_Path u = "/api/v2/" +:+ x ∧ ru_Path u' = "/api/v1/" +:+ x) ∧ apiV2AliasMiddleware u' = Some (u', false) ∧
    nameParam <$> route_segments u' = nameParam <$> route_segments v ∧
    (avoids "%" rest = true → seg_Param <$> route_segments u' = seg_Param <$> route_segments v).
Proof.
  intros He. pose proof (EscapedPath_unescape u) as Hu. pose proof (EscapedPath_valid u) as Hv. rewrite He in Hu, Hv.
  rewrite unescape_prefix in Hu by set_solver. rewrite validEncoded_app in Hv. apply andb_prop in Hv as [_ Hv].
  destruct (PathUnescape rest) as [x|] eqn:Hx; [|done]. cbn in Hu. injection Hu as Hu.
  set (p := "/api/v1/" +:+ rest). assert (PathUnescape p = Some ("/api/v1/" +:+ x)) as Hp.
  { unfold p. rewrite unescape_prefix by set_solver. by rewrite Hx. }
  assert (validEncoded p = true) as Hvp by (unfold p; by rewrite validEncoded_app, Hv).
  assert (EscapedPath (mkReqURL ("/api/v1/" +:+ x) p) = p) as Ep by by apply EscapedPath_raw.
  destruct (setPath p) as [v|] eqn:Es; [|unfold setPath in Es; by rewrite Hp in Es].
  assert (v = mkReqURL ("/api/v1/" +:+ x) (if decide (escape_path ("/api/v1/" +:+ x) = p) then EmptyString else p)) as Ev.
  { unfold setPath in Es. rewrite Hp in Es. cbn [mbind option_bind] in Es. congruence. }
  destruct (setPath_escaped p v Es Hvp) as [_ Ev']; [done|done|by rewrite Ev|].
  exists (mkReqURL ("/api/v1/" +:+ x) p), v. unfold apiV2AliasMiddleware. rewrite He. split_and!.
  - rewrite HasPrefix_app. change (sdrop 8 ("/api/v2/" +:+ rest)) with rest. fold p. by rewrite Hp.
  - done.
  - by rewrite Ev.
  - congruence.
  - done.
  - by exists x.
  - rewrite Ep. unfold p. done.
  - rewrite Ev. case_decide as Hd; [|done]. by apply names_agree.
  - intros Hr. assert (x = rest) as -> by (pose proof (unescape_without rest Hr); congruence).
    rewrite Ev. fold p. unfold route_segments, route_path. cbn [ru_RawPath ru_Path]. rewrite <- !list_fmap_compose.
    rewrite (decide_False (P := p = EmptyString)) by done. by destruct (decide (escape_path p = p)).
Qed.

(** C33: the janitor.  Its ticks never stop it, whatever the store answers.  On
    the SQLite store, whichever of its statements fail, a tick that archives
    turns exactly the active runs that are RUNNING since before the cutoff into
    FAILED ones, ended at the time of the tick, leaves every other run as it was
    and loses none; of the tags it touches only the archive tag of those runs.
    Archiving succeeds when its statements do, on runs that pass the checks of
    the schema; when it fails, no run changes.  With a retention, when the
    second sweep's statement succeeds, of the events exactly those not older
    than it remain; otherwise it removes none. *)
Theorem janitor_sweeps `{Clock} archive_fails prune_fails staleAfter retention t ticks w :
  let _ := sqlite_janitor archive_fails prune_fails in
  let cut := UnixMilli (t - staleAfter) in
  let old := UnixMilli (t - retention) in
  let '(archived, w1) := js_ArchiveStaleRuns cut w in
  (∀ (S : JanitorStore) w, ∃ w', @StartJanitor S staleAfter retention (t :: ticks) w = (Ok tt, w')) ∧
  (archive_fails cut = true → is_ok archived = false) ∧
  (archive_fails cut = false → rows_checked w → is_ok archived = true) ∧
  ∃ w', janitor_tick staleAfter retention t w = (Ok tt, w') ∧
    runs (w_db w') = (if is_ok archived then swept cut (clock (w_tick w)) <$> runs (w_db w) else runs (w_db w)) ∧
    (∀ R k, (∃ row, runs (w_db w) !! R = Some row ∧ ¬ overdue cut row) ∨ k ≠ archivedTag →
       tags (w_db w') !! (R, k) = tags (w_db w) !! (R, k)) ∧
    rows (events (w_db w')) =
      if (0 <? retention) && negb (prune_fails old)
      then filter (λ p, old ≤ evr_ts_ms p.2) (rows (events (w_db w1))) else rows (events (w_db w1)).
Proof.
  intros S cut old. destruct (js_ArchiveStaleRuns cut w) as [archived w1] eqn:E. split; [intros S' w0; apply StartJanitor_ok|].
  pose proof E as Es. cbn [js_ArchiveStaleRuns S sqlite_janitor] in Es. unfold failing_sweep in Es.
  split; [intros Hf; rewrite Hf in Es; by injection Es as <- _|].
  split; [intros Hf Hck; rewrite Hf in Es; pose proof (ArchiveStaleRuns_total cut w Hck) as Ht; by rewrite Es in Ht|].
  assert (runs (w_db w1) = (if is_ok archived then swept cut (clock (w_tick w)) <$> runs (w_db w) else runs (w_db w)) ∧
    ∀ R k, (∃ row, runs (w_db w) !! R = Some row ∧ ¬ overdue cut row) ∨ k ≠ archivedTag →
       tags (w_db w1) !! (R, k) = tags (w_db w) !! (R, k)) as [H1 H2].
  { destruct (archive_fails cut); [by injection Es as <- <-|].
    destruct archived as [n|e]; [by eapply ArchiveStaleRuns_sweeps|]. apply ArchiveStaleRuns_fails in Es. cbn. by rewrite Es. }
  eexists. split; [apply janitor_tick_ok|]. cbv zeta. fold cut old. rewrite E. cbn [snd]. destruct (0 <? retention); cbn [andb]; [|by rewrite H1].
  cbn [js_PruneEventsBefore S sqlite_janitor]. unfold failing_sweep. destruct (prune_fails old); cbn [fail fst snd negb]; [by rewrite H1|].
  split_and!; [exact H1|exact H2|]. cbn. apply map_filter_ext. intros id e _. cbn. lia.
Qed.

(** The status and the bytes that are logged and measured are those of the
    reply, whatever the handler called in whatever order; and a panic before
    anything was sent is answered with 500. *)
Lemma response_recorded ops :
  let '(c, rec) := respond ops false in
  rec = Some (default 200 (cn_header c), Z.of_nat (slen (cn_body c))) ∧ (ops = [] → cn_header (respond ops true).1 = Some 500).
Proof.
  unfold respond. destruct (ops_mirror ops new_writer) as (_ & H2 & H3 & _); [done|]. cbn [fst snd]. rewrite H2, H3. split; [done|]. by intros ->.
Qed.

(** With positive limits every body is capped, except those of dataset
    uploads, which the handler caps. *)
Lemma body_capped maxBytes maxArtifactBytes m p : 0 < maxBytes → 0 < maxArtifactBytes →
  bodyLimitMiddleware maxBytes maxArtifactBytes m p =
    if isArtifactUploadPath m p then Some maxArtifactBytes
    else if bool_decide (m = "POST"%string) && HasPrefix p "/api/v1/datasets/" && HasSuffix p "/versions" then None else Some maxBytes.
Proof.
  intros H1 H2. apply Z.ltb_lt in H1, H2. unfold bodyLimitMiddleware, isLargeUploadPath, isArtifactUploadPath.
  destruct (bool_decide (m = "POST"%string)) eqn:Em.
  - apply bool_decide_eq_true in Em as ->. rewrite bool_decide_eq_true_2 by set_solver. cbn [andb].
    destruct (HasPrefix p "/api/2.0/mlflow-artifacts/artifacts"), (HasPrefix p "/api/v1/datasets/" && HasSuffix p "/versions"); cbn; by rewrite ?H1, ?H2.
  - cbn [andb orb]. destruct (bool_decide (m ∈ _)), (HasPrefix p "/api/2.0/mlflow-artifacts/artifacts"); cbn; by rewrite ?H1, ?H2.
Qed.

(** * Witnesses and gaps *)

Module Example19.
Lemma v2_alias_sound_witness : ∃ u u',
  setPath "/api/v2/prompts/my%2Fname" = Some u ∧ apiV2AliasMiddleware u = Some (u', true) ∧ EscapedPath u' = "/api/v1/prompts/my%2Fname"%string ∧
  ru_Path u' = "/api/v1/prompts/my/name"%string.
Proof.
  destruct (setPath "/api/v2/prompts/my%2Fname") as [u|] eqn:E; [|discriminate E].
  destruct (v2_alias_sound u "prompts/my%2Fname") as (u' & v & H1 & _ & _ & _ & H5 & (x & H6 & H7) & _ & _).
  - injection E as <-. vm_compute. reflexivity.
  - exists u, u'. split; [reflexivity|]. split; [exact H1|]. split; [exact H5|].
    injection E as <-. vm_compute in H1. injection H1 as <-. reflexivity.
Defined.

(** A parameter that is not read with [nameParam] differs between the two
    namespaces: the member [a b] is named [a%20b] under v2. *)
Example v2_member_undecoded :
  let segment p := (u ← setPath p; '(u, _) ← apiV2AliasMiddleware u; last (seg_Param <$> route_segments u)) in
  segment "/api/v1/workspaces/x/members/a%20b" = Some "a b"%string ∧
  segment "/api/v2/workspaces/x/members/a%20b" = Some "a%20b"%string.
Proof. vm_compute. done. Qed.

(** A request that panics is neither logged nor counted. *)
Example panic_unmeasured : ∀ ops, (respond ops true).2 = None.
Proof. reflexivity. Qed.

(** With the budget of a client spent, a right password is still let in: the
    limiter answers wrong guesses with another status but does not slow the
    guessing down. *)
Example spent_budget_admits :
  (serve (λ _, []) ex_bcrypt (λ _, false) true ex_cfg ex_handler (ex_request "GET" "/api/2.0/mlflow/experiments/list") (mkWorld ex_db 0)).1 =
  Ok (mkResponse 200 "").
Proof. vm_compute. reflexivity. Qed.
End Example19.
