(* ===== verification/Backup.v ===== *)
(** * Backup and restore (cmd/litemlflow/main.go)

    The commands [backup] and [restore] on the file system of FileSystem.v.
    An archive is the sequence of its entries: that the gzip and tar formats
    return what was written is left to their packages.  Paths are taken in the
    working directory [wd]. *)

From S2P Require Import Prelude GoStrings Paths FileSystem Artifacts Model Database Config.

Open Scope Z_scope.

(** ** Archives *)

Record TarEntry := mkTarEntry { te_Name : string; te_Node : node }.

Inductive cmd_error :=
  | CmdOs (e : os_error)
  | CmdS3Gate            (* s3 backend without a choice of what to include *)
  | CmdExclusive         (* both choices *)
  | CmdArtifact (e : artifact_error)
  | CmdNoInput           (* --in is missing *)
  | CmdNotEmpty          (* the data directory is not empty *)
  | CmdUnsafePath        (* an entry leads out of the data directory *)
  | CmdArchive.          (* the archive ends early or is malformed *)

(** ** Backup *)

Section commands.
Context `{Faults} (wd : string).
(** What [VACUUM INTO] writes for the content of a database file. *)
Context (vacuum : string → string).

Notation Dm := (D cmd_error).

Definition read_file (s : string) : Dm string :=
  n ← os_Stat CmdOs s; match n with NFile c => mret c | NDir => throw (CmdOs EISDIR) end.

(** The live files that the walk must skip. *)
Definition live_files (dbPath : string) : list string := [dbPath; dbPath +:+ "-wal"; dbPath +:+ "-shm"; dbPath +:+ "-journal"].

(** The path below [root] of a path in it. *)
Fixpoint below_root (root p : list string) : option (list string) :=
  match root, p with
  | [], p => Some p
  | x :: root', y :: p' => if decide (x = y) then below_root root' p' else None
  | _ :: _, [] => None
  end.

(** The name of the snapshot: relative to the data directory, or the base name
    when it lies outside. *)
Definition snapshot_name (dataDir dbPath : string) : string :=
  if negb (Bool.eqb (IsAbs dataDir) (IsAbs dbPath)) then Base dbPath else
  match below_root (abs_components wd dataDir) (abs_components wd dbPath) with
  | Some (x :: rel) => let name := Join "/" (x :: rel) in if HasPrefix name ".." then Base dbPath else name
  | _ => Base dbPath
  end.

Definition writeDBSnapshotToTar (dataDir dbPath : string) : Dm (list TarEntry) :=
  st ← attempt (os_Stat CmdOs (Abs wd dbPath));
  match st with
  | inl (CmdOs ENOENT) => mret []
  | inl e => throw e
  | inr _ => c ← read_file (Abs wd dbPath); mret [mkTarEntry (snapshot_name dataDir dbPath) (NFile (vacuum c))]
  end.

(** The callback of the walk on the path [rel] below the root; the root itself
    has no entry. *)
Definition tar_entry (skip : list (list string)) (root rel : list string) (n : node) : list TarEntry :=
  if decide (rel = [] ∨ root ++ rel ∈ skip) then [] else [mkTarEntry (Join "/" rel) n].

(** [filepath.Walk]: an entry, then what is in it, by name. *)
Fixpoint walk (skip : list (list string)) (fuel : nat) (root rel : list string) : Dm (list TarEntry) :=
  match fuel with
  | O => throw CmdArchive
  | S fuel =>
      let s := absolute (root ++ rel) in
      n ← os_Stat CmdOs s;
      match n with
      | NFile _ => c ← read_file s; mret (tar_entry skip root rel (NFile c))
      | NDir =>
          names ← ReadDir CmdOs s;
          (fix each (l : list (string * node)) (acc : list TarEntry) : Dm (list TarEntry) :=
             match l with
             | [] => mret acc
             | (x, _) :: l' => es ← walk skip fuel root (rel ++ [x]); each l' (acc ++ es)
             end) names (tar_entry skip root rel NDir)
      end
  end.

(** The depth of the tree bounds the recursion. *)
Definition writeDirToTar (root : string) (skip : list string) : Dm (list TarEntry) := λ d,
  let skipAbs := abs_components wd <$> filter (λ s, s ≠ EmptyString) skip in
  walk skipAbs (S (size (dk_tree d))) (abs_components wd root) [] d.

(** *** Artifacts in S3 *)

Section s3.
Context {St : Type} `{ArtifactStore St}.

(** One run: the objects below [dir], [fuel] bounding the depth. *)
Fixpoint stream_run (fuel : nat) (runID dir : string) (st : St) : (artifact_error + list TarEntry) * St :=
  match fuel with
  | O => (inl ErrBackend, st)
  | S fuel =>
      match art_List runID dir st with
      | (inl e, st) => (inl e, st)
      | (inr entries, st) =>
          (fix each (l : list ListEntry) (acc : list TarEntry) (st : St) :=
             match l with
             | [] => (inr acc, st)
             | child :: l' =>
                 if le_IsDir child then
                   match stream_run fuel runID (le_Path child) st with
                   | (inl e, st) => (inl e, st)
                   | (inr es, st) => each l' (acc ++ es) st
                   end
                 else match art_Open runID (le_Path child) st with
                      | (inl e, st) => (inl e, st)
                      | (inr (c, _), st) =>
                          each l' (acc ++ [mkTarEntry ("s3-artifacts/" +:+ runID +:+ "/" +:+ le_Path child) (NFile c)]) st
                      end
             end) entries [] st
      end
  end.

(** [SELECT id FROM runs WHERE lifecycle_stage = 'active' ORDER BY id]. *)
Definition active_runs (d : DB) : list string :=
  sort_by id (filter (λ p, rr_lifecycle_stage p.2 = LifecycleActive) (map_to_list (runs d))).*1.

Fixpoint stream_runs (fuel : nat) (runIDs : list string) (st : St) : (artifact_error + list TarEntry) * St :=
  match runIDs with
  | [] => (inr [], st)
  | runID :: runIDs' =>
      match stream_run fuel runID EmptyString st with
      | (inl e, st) => (inl e, st)
      | (inr es, st) =>
          match stream_runs fuel runIDs' st with (inl e, st) => (inl e, st) | (inr es', st) => (inr (es ++ es'), st) end
      end
  end.

Definition streamS3IntoTar (fuel : nat) (d : DB) (st : St) : (artifact_error + list TarEntry) * St := stream_runs fuel (active_runs d) st.
End s3.

(** [s3_entries] is what [streamS3IntoTar] returns; [target] the output file. *)
Definition runBackup (cfg : Settings) (target : string) (includeOnlyDB includeS3 : bool) (s3_entries : artifact_error + list TarEntry) :
    Dm (list TarEntry) :=
  let s3 := bool_decide (c_ArtifactBackend cfg = "s3"%string) in
  if s3 && negb includeOnlyDB && negb includeS3 then throw CmdS3Gate
  else if includeOnlyDB && includeS3 then throw CmdExclusive else
  _ ← OpenTrunc CmdOs (Abs wd target);
  db ← writeDBSnapshotToTar (c_DataDir cfg) (c_DBPath cfg);
  files ← writeDirToTar (c_DataDir cfg) (live_files (c_DBPath cfg) ++ [target]);
  objects ← (if s3 && includeS3 then match s3_entries with inl e => throw (CmdArtifact e) | inr es => mret es end else mret []);
  _ ← Flush CmdOs;
  mret (db ++ files ++ objects).

(** ** Restore *)

Definition unsafe_name (clean : string) : bool := HasPrefix clean ".." || HasPrefix clean "/".

Definition restore_entry (dataDir : string) (e : TarEntry) : Dm unit :=
  let clean := Clean (te_Name e) in
  if unsafe_name clean then throw CmdUnsafePath else
  let dst := Abs wd (path_Join [dataDir; clean]) in
  match te_Node e with
  | NDir => MkdirAll CmdOs dst
  | NFile data =>
      _ ← MkdirAll CmdOs (Dir dst);
      _ ← OpenTrunc CmdOs dst;
      _ ← Write CmdOs dst data;
      Flush CmdOs
  end.

Fixpoint restore_all (dataDir : string) (es : list TarEntry) : Dm unit :=
  match es with [] => mret tt | e :: es' => _ ← restore_entry dataDir e; restore_all dataDir es' end.

(** [es] are the entries up to the end of the archive or to where reading it
    fails ([complete] is false), as at the cap on the inflated size.  A data
    directory that cannot be read counts as empty. *)
Definition runRestore (cfg : Settings) (input : string) (es : list TarEntry) (complete : bool) : Dm unit :=
  if decide (input = EmptyString) then throw CmdNoInput else
  entries ← attempt (ReadDir CmdOs (Abs wd (c_DataDir cfg)));
  match entries with
  | inr (_ :: _) => throw CmdNotEmpty
  | _ =>
      _ ← MkdirAll CmdOs (Abs wd (c_DataDir cfg));
      _ ← restore_all (c_DataDir cfg) es;
      if complete then mret tt else throw CmdArchive
  end.
End commands.
