(* ===== verification/BackupLaws.v ===== *)
(** * Restoring a backup

    Without I/O faults, restoring the archive that [backup] writes gives back
    the data directory: the files and directories of the walk, the snapshot in
    the place of the database, and nothing else. *)

From S2P Require Import Prelude GoStrings Paths FileSystem Faultless Artifacts Model Database Filter Config Backup.

Open Scope Z_scope.

Lemma below_root_app root p : below_root root (root ++ p) = Some p.
Proof. induction root as [|x root IH]; [done|]. cbn. by rewrite decide_True. Qed.


Section reading.
Context `{Faults} (Hnf : ∀ n, io_fault n = false).

Lemma ends_in_read l d c : tree_wf (dk_tree d) → nameable l → dk_tree d !! l = Some (NFile c) → ends_in (read_file (absolute l)) d c (dk_tree d).
Proof. intros. unfold read_file. eapply ends_in_bind; [by apply ends_in_Stat|]. intros k. apply (ends_in_ret c (mkDisk (dk_tree d) k)). Qed.
End reading.

(** ** The walk *)

(** A path is no longer than the tree is large. *)
Lemma depth_le_size (t : gmap (list string) node) p : tree_wf t → is_Some (t !! p) → (length p < size t)%nat.
Proof.
  intros Hwf Hp. set (l := (λ i, take i p) <$> seq 0 (S (length p))).
  assert (length l = S (length p)) as Hlen by (unfold l; by rewrite length_fmap, length_seq).
  assert (NoDup l) as Hnd.
  { unfold l. apply NoDup_fmap_2_strong; [|apply NoDup_seq]. intros i j Hi%elem_of_seq Hj%elem_of_seq E.
    apply (f_equal length) in E. rewrite !length_take in E. lia. }
  assert (l ⊆+ (map_to_list t).*1) as Hsub.
  { apply NoDup_submseteq; [done|]. intros q (i & -> & _)%list_elem_of_fmap. apply list_elem_of_fmap.
    assert (is_Some (t !! take i p)) as [n Hn].
    { destruct (decide (drop i p = [])) as [E|E]; [pose proof (take_drop i p) as E'; rewrite E, app_nil_r in E'; by rewrite E'|].
      rewrite (tree_wf_dir t (take i p) (drop i p)); [done|done|by rewrite take_drop|done]. }
    exists (take i p, n). split; [done|by apply elem_of_map_to_list]. }
  apply submseteq_length in Hsub. rewrite length_fmap, Hlen in Hsub. rewrite length_map_to_list in Hsub. lia.
Qed.

Section walking.
Context `{Faults} (Hnf : ∀ n, io_fault n = false).
Context (skip : list (list string)) (t : gmap (list string) node) (Hwf : tree_wf t).
Context (Hname : ∀ p, is_Some (t !! p) → nameable p).
Context (root : list string).

(** The entries of the paths from [rel] down. *)
Definition lists (rel : list string) (es : list TarEntry) : Prop :=
  ∀ e, e ∈ es ↔ ∃ p n, rel `prefix_of` p ∧ t !! (root ++ p) = Some n ∧ e ∈ tar_entry skip root p n.

Definition each_child (fuel : nat) (rel : list string) :=
  fix each (l : list (string * node)) (acc : list TarEntry) : D cmd_error (list TarEntry) :=
    match l with
    | [] => mret acc
    | (x, _) :: l' => es ← walk skip fuel root (rel ++ [x]); each l' (acc ++ es)
    end.

Lemma each_lists fuel rel l acc k :
  (∀ x k, x ∈ l.*1 → ∃ es, ends_in (walk skip fuel root (rel ++ [x])) (mkDisk t k) es t ∧ lists (rel ++ [x]) es) →
  ∃ es, ends_in (each_child fuel rel l acc) (mkDisk t k) es t ∧
    ∀ e, e ∈ es ↔ e ∈ acc ∨ ∃ x p n, x ∈ l.*1 ∧ rel ++ [x] `prefix_of` p ∧ t !! (root ++ p) = Some n ∧ e ∈ tar_entry skip root p n.
Proof.
  revert acc k. induction l as [|[x n] l IH]; intros acc k Hw.
  { exists acc. split; [apply (ends_in_ret acc (mkDisk t k))|]. intros e. split; [by left|]. intros [?|(x & p & n & Hx & _)]; [done|by apply elem_of_nil in Hx]. }
  destruct (Hw x k) as (es & [k1 E1] & Hes); [left|]. destruct (IH (acc ++ es) k1) as (es' & [k2 E2] & Hes').
  { intros y k' Hy. apply Hw. by right. }
  exists es'. split; [exists k2; cbn [each_child]; unfold mbind, D_bind; rewrite E1; exact E2|]. intros e. rewrite Hes', elem_of_app. cbn [fmap list_fmap fst].
  unfold lists in Hes. split.
  - intros [[He|He]|(y & p & m & Hy & Hrest)]; [by left| |right; exists y, p, m; split; [by right|done]].
    apply Hes in He as (p & m & Hrest). right. exists x, p, m. split; [left|done].
  - intros [He|(y & p & m & Hy & Hrest)]; [by left; left|]. apply elem_of_cons in Hy as [->|Hy].
    + left. right. apply Hes. by exists p, m.
    + right. by exists y, p, m.
Qed.

Lemma walk_lists fuel rel n k :
  t !! (root ++ rel) = Some n → (∀ p, rel `prefix_of` p → is_Some (t !! (root ++ p)) → (length p < length rel + fuel)%nat) →
  ∃ es, ends_in (walk skip fuel root rel) (mkDisk t k) es t ∧ lists rel es.
Proof.
  revert rel n k. induction fuel as [|fuel IH]; intros rel n k Hn Hf; [specialize (Hf rel (reflexivity _)); rewrite Hn in Hf; specialize (Hf ltac:(done)); lia|].
  assert (nameable (root ++ rel)) as Hnm by (apply Hname; by rewrite Hn). cbn [walk]. destruct n as [|c].
  - pose proof (ends_in_Stat (os := CmdOs) Hnf (root ++ rel) (mkDisk t k) NDir Hwf Hnm Hn) as [k1 E1]. cbn [dk_tree] in E1.
    pose proof (ends_in_ReadDir (os := CmdOs) Hnf (root ++ rel) (mkDisk t k1) Hnm) as [k2 E2]. cbn [dk_tree] in E2.
    destruct (each_lists fuel rel (sort_by fst (children t (root ++ rel))) (tar_entry skip root rel NDir) k2) as (es & [k3 E3] & Hes).
    { intros x k' (p & -> & Hx)%list_elem_of_fmap. destruct p as [x m]. apply elem_of_sort_by, elem_of_children in Hx. rewrite <- app_assoc in Hx.
      apply (IH (rel ++ [x]) m k' Hx). intros p Hp Hs. rewrite length_app. cbn. assert (rel `prefix_of` p) as Hp' by by eapply prefix_app_l.
      specialize (Hf p Hp' Hs). lia. }
    exists es. split; [exists k3; unfold mbind, D_bind; rewrite E1, E2; exact E3|]. intros e. rewrite Hes. split.
    + intros [He|(x & p & m & _ & Hp & Hrest)]; [by exists rel, NDir|]. exists p, m. split; [by eapply prefix_app_l|done].
    + intros (p & m & [r ->] & Hm & He). destruct r as [|x r].
      { rewrite app_nil_r in *. rewrite Hn in Hm. injection Hm as <-. by left. }
      right. exists x, (rel ++ x :: r), m. split; [|split; [by rewrite (app_assoc rel [x] r : (rel ++ x :: r) = (rel ++ [x]) ++ r); apply prefix_app_r|done]].
      assert (is_Some (t !! ((root ++ rel) ++ [x]))) as [m' Hm'].
      { destruct r as [|y r]; [exists m; rewrite <- app_assoc; exact Hm|]. exists NDir.
        apply (tree_wf_dir t _ (y :: r)); [done|rewrite <- !app_assoc; cbn; by rewrite Hm|done]. }
      apply list_elem_of_fmap. exists (x, m'). split; [done|]. by apply elem_of_sort_by, elem_of_children.
  - pose proof (ends_in_Stat (os := CmdOs) Hnf (root ++ rel) (mkDisk t k) _ Hwf Hnm Hn) as [k1 E1]. cbn [dk_tree] in E1.
    pose proof (ends_in_read Hnf (root ++ rel) (mkDisk t k1) c Hwf Hnm Hn) as [k2 E2]. cbn [dk_tree] in E2.
    exists (tar_entry skip root rel (NFile c)). split; [exists k2; unfold mbind, D_bind; rewrite E1, E2; done|]. intros e. split.
    + intros He. by exists rel, (NFile c).
    + intros (p & m & [r ->] & Hm & He). destruct r as [|x r]; [rewrite app_nil_r in *; congruence|].
      rewrite app_assoc in Hm. assert (t !! (root ++ rel) = Some NDir) as Hd by (apply (tree_wf_dir t _ (x :: r)); [done|by rewrite Hm|done]). congruence.
Qed.
End walking.

(** ** Restoring entries *)

Lemma prefix_app_cases {A} (r l q : list A) : r `prefix_of` l ++ q → r `prefix_of` l ∨ ∃ r', r = l ++ r' ∧ r' `prefix_of` q.
Proof.
  revert r. induction l as [|x l IH]; intros r Hr; [right; by exists r|]. destruct r as [|y r]; [left; apply prefix_nil|].
  cbn in Hr. pose proof (prefix_cons_inv_1 _ _ _ _ Hr) as ->. apply prefix_cons_inv_2, IH in Hr as [Hr|(r' & -> & Hr')].
  - left. by apply prefix_cons.
  - right. by exists r'.
Qed.

Section restoring.
Context `{Faults} (Hnf : ∀ n, io_fault n = false).
Context (wd dataDir : string) (Hwd : IsAbs wd = true) (Hdir : dataDir ≠ EmptyString).

Abbreviation dir := (abs_components wd dataDir).
Context (Hnm : nameable dir).
(** What is to be restored, by path below the directory. *)
Context (T : list string → option node).

Record restorable : Prop := {
  rs_name p : is_Some (T p) → p ≠ [] ∧ nameable p ∧ unsafe_name (Join "/" p) = false;
  rs_dir p q : is_Some (T p) → q `prefix_of` p → q ≠ [] → q ≠ p → T q = Some NDir
}.
Context (HT : restorable).

(** The paths of the entries restored so far and what leads to them are there. *)
Definition restored (ps : list (list string)) (t : gmap (list string) node) : Prop :=
  tree_wf t ∧ t !! dir = Some NDir ∧
  ∀ p, p ≠ [] → t !! (dir ++ p) = if decide (Exists (λ q, p `prefix_of` q) ps) then T p else None.

Lemma prefix_strict {A} (q p : list A) : q `prefix_of` p → q ≠ p → p ≠ [] → q `prefix_of` removelast p.
Proof.
  intros [r ->] Hne _. destruct r as [|x r _] using rev_ind; [by rewrite app_nil_r in Hne|].
  rewrite app_assoc, removelast_last. by apply prefix_app_r.
Qed.

Lemma prefix_removelast {A} (q p : list A) : q `prefix_of` removelast p → q `prefix_of` p ∧ (p ≠ [] → q ≠ p).
Proof.
  intros Hq. destruct p as [|x p _] using rev_ind; [done|]. rewrite removelast_last in Hq. split; [by apply prefix_app_r|].
  intros _ ->. apply prefix_length in Hq. rewrite length_app in Hq. cbn in Hq. lia.
Qed.

(** Making the directories to [q] adds what leads to [q]. *)
Lemma restored_mkdir ps d q p n : restored ps (dk_tree d) → T p = Some n → q `prefix_of` p → (q = p → n = NDir) →
  ∃ t, ends_in (MkdirAll CmdOs (absolute (dir ++ q))) d tt t ∧ restored (q :: ps) t.
Proof.
  intros (Hwf & Hd & Hps) Hp Hq Hqn. destruct (rs_name HT p) as (Hne & Hpn & _); [by rewrite Hp|].
  assert (nameable (dir ++ q)) as Hn by (destruct Hq as [r ->]; apply nameable_app in Hpn as [? _]; by apply nameable_app).
  assert (∀ r, r `prefix_of` q → r ≠ [] → T r = Some NDir) as Hr.
  { intros r Hrq Hrne. destruct (decide (r = p)) as [->|Hrp].
    - assert (q = p) as -> by (apply (anti_symm prefix); done). rewrite Hp. f_equal. by apply Hqn.
    - apply (rs_dir HT p); [by rewrite Hp|by etransitivity|done..]. }
  destruct (ends_in_MkdirAll (os := CmdOs) Hnf (dir ++ q) d Hn) as (t & Hy & Ht).
  { intros r Hrp Hrne. destruct (prefix_app_cases r dir q Hrp) as [Hrd|(r' & -> & Hr')].
    - left. destruct (decide (r = dir)) as [->|Hne']; [done|]. destruct Hrd as [s E]. apply (tree_wf_dir _ r s); [done|by rewrite <- E, Hd|].
      intros ->. rewrite app_nil_r in E. congruence.
    - destruct (decide (r' = [])) as [->|Hr'ne]; [rewrite app_nil_r; by left|]. rewrite Hps by done. case_decide; [left; by apply Hr|by right]. }
  exists t. split; [done|]. destruct Hy as [k Ek]. split; [|split].
  - pose proof (touches_MkdirAll CmdOs (λ _, True) (absolute (dir ++ q)) d Hwf) as [Hw _]. by rewrite Ek in Hw.
  - rewrite Ht. case_decide; [done|exact Hd].
  - intros r Hrne. rewrite Ht, Hps by done. destruct (decide (r `prefix_of` q)) as [Hrq|Hrq].
    + rewrite decide_True by (split; [by destruct dir|by apply prefix_app]). rewrite decide_True by by left. by rewrite Hr.
    + rewrite decide_False by (intros [_ Hx]; by apply prefix_app_inv in Hx). apply decide_ext. rewrite Exists_cons. tauto.
Qed.

Lemma restored_file ps d p c : restored ps (dk_tree d) → T p = Some (NFile c) →
  ∃ t, ends_in (_ ← MkdirAll CmdOs (absolute (dir ++ removelast p)); _ ← OpenTrunc CmdOs (absolute (dir ++ p));
               _ ← Write CmdOs (absolute (dir ++ p)) c; Flush CmdOs) d tt t ∧ restored (p :: ps) t.
Proof.
  intros Hres Hp. destruct (rs_name HT p) as (Hne & Hpn & _); [by rewrite Hp|].
  destruct (prefix_removelast (removelast p) p (reflexivity _)) as [Hpre Hneq]. specialize (Hneq Hne).
  destruct (restored_mkdir ps d (removelast p) p _ Hres Hp Hpre) as (t1 & Hy1 & Hwf1 & Hd1 & Hps1); [done|].
  assert (nameable (dir ++ p)) as Hn by by apply nameable_app.
  assert (removelast (dir ++ p) = dir ++ removelast p) as Erl by by apply removelast_app.
  assert (t1 !! (dir ++ removelast p) = Some NDir) as Hpar.
  { destruct (decide (removelast p = [])) as [->|Hr]; [by rewrite app_nil_r|]. rewrite Hps1, decide_True by (done || by left).
    apply (rs_dir HT p); [by rewrite Hp|done..]. }
  assert (t1 !! (dir ++ p) ≠ Some NDir) as Hnd by (rewrite Hps1 by done; case_decide; congruence).
  set (t2 := <[dir ++ p := NFile c]> (<[dir ++ p := NFile EmptyString]> t1)). exists t2. split.
  - eapply ends_in_bind; [exact Hy1|]. intros k1. eapply ends_in_bind; [apply (ends_in_OpenTrunc (os := CmdOs) Hnf); cbn; [done|done|by rewrite Erl|done]|].
    intros k2. eapply ends_in_bind; [eapply (ends_in_Write (os := CmdOs) Hnf); [done|cbn; apply lookup_insert_eq]|]. intros k3. apply (ends_in_Flush (os := CmdOs) Hnf (mkDisk t2 k3)).
  - unfold t2. rewrite insert_insert_eq. assert (∀ r, p `prefix_of` r → r ≠ p → t1 !! (dir ++ r) = None) as Hbelow.
    { intros r [s ->] Hr. assert (s ≠ []) as Hs by (intros ->; by rewrite app_nil_r in Hr).
      destruct (t1 !! (dir ++ p ++ s)) eqn:E; [|done]. exfalso. apply Hnd. apply (tree_wf_dir t1 _ s); [done|rewrite <- app_assoc, E; done|done]. }
    split; [|split].
    + apply insert_file_wf; [done|apply Hn|apply parent_dir_some; [done|by rewrite Erl]|done].
    + rewrite lookup_insert_ne; [done|]. intros E. apply Hne. apply (app_inv_head dir). by rewrite app_nil_r.
    + intros r Hr. destruct (decide (r = p)) as [->|Hrp].
      * by rewrite lookup_insert_eq, decide_True by by left.
      * rewrite lookup_insert_ne by (intros E; apply app_inv_head in E; congruence). rewrite Hps1 by done. apply decide_ext. rewrite !Exists_cons.
        split; (intros [Hx|Hx]; [left|by right]).
        -- by apply prefix_removelast in Hx as [? _].
        -- by apply prefix_strict.
Qed.

(** An entry as the archive names it. *)
Definition entry_of (p : list string) (n : node) : TarEntry := mkTarEntry (Join "/" p) n.

Lemma restored_entry ps d p n : restored ps (dk_tree d) → T p = Some n →
  ∃ t, ends_in (restore_entry wd dataDir (entry_of p n)) d tt t ∧ restored (p :: ps) t.
Proof.
  intros Hres Hp. destruct (rs_name HT p) as (Hne & Hpn & Hsafe); [by rewrite Hp|]. unfold restore_entry, entry_of. cbn [te_Name te_Node].
  rewrite (proj1 (Clean_Join p Hne (proj1 Hpn))), Hsafe, Abs_below by (done || apply Hpn). destruct n as [|c].
  - by apply (restored_mkdir ps d p p NDir).
  - assert (Dir (absolute (dir ++ p)) = absolute (dir ++ removelast p)) as ->; [|by apply restored_file].
    clear Hp Hsafe. destruct p as [|x p _] using rev_ind; [done|]. rewrite removelast_last, app_assoc.
    apply nameable_app in Hpn as [[Hp _] [Hx _]]. rewrite Forall_singleton in Hx. apply Dir_absolute; [|done]. apply Forall_app_2; [apply Hnm|done].
Qed.

Lemma restored_entries ps d ps' es : restored ps (dk_tree d) →
  Forall2 (λ p e, ∃ n, T p = Some n ∧ e = entry_of p n) ps' es →
  ∃ t, ends_in (restore_all wd dataDir es) d tt t ∧ restored (reverse ps' ++ ps) t.
Proof.
  intros Hres Hes. revert ps d Hres. induction Hes as [|p e ps' es (n & Hp & ->) Hes IH]; intros ps d Hres.
  { exists (dk_tree d). split; [apply ends_in_ret|done]. }
  destruct (restored_entry ps d p n Hres Hp) as (t1 & [k1 E1] & Hres1). destruct (IH (p :: ps) (mkDisk t1 k1) Hres1) as (t & [k2 E2] & Ht).
  exists t. split; [exists k2; cbn [restore_all]; unfold mbind, D_bind; rewrite E1; exact E2|].
  by rewrite reverse_cons, <- app_assoc.
Qed.
End restoring.

Lemma Forall_choose {A B} (R : A → B → Prop) l : Forall (λ y, ∃ x, R x y) l → ∃ xs, Forall2 R xs l.
Proof. induction 1 as [|y l (x & Hx) _ (xs & Hxs)]; [exists []; constructor|]. exists (x :: xs). by constructor. Qed.

Lemma Join_slash_inj p q : p ≠ [] → q ≠ [] → Forall plain p → Forall plain q → Join "/" p = Join "/" q → p = q.
Proof.
  assert (∀ l, l ≠ [] → Forall plain l → Split1 slash (Join "/" l) = l) as Hs.
  { intros l Hl Hp. apply Split1_Join_single; [done|]. eapply Forall_impl; [done|]. by intros ? (_ & _ & _ & ?). }
  intros H1 H2 H3 H4 E. by rewrite <- (Hs p), <- (Hs q), E.
Qed.

(** ** The round trip *)

(** A data directory [D] in the tree [t] with its database file [db] below it,
    an output file [tg] that can be written, and a fresh directory [D'] to
    restore into.  The live files are not directories, and no name at the top
    of the data directory starts with two dots, which [restore] refuses. *)
Record backup_scene (t : gmap (list string) node) (D db tg D' : list string) (skips : list (list string)) (content : string) : Prop := {
  bs_wf : tree_wf t;
  bs_names p : is_Some (t !! p) → nameable p;
  bs_dir : t !! D = Some NDir;
  bs_db : db ≠ [] ∧ t !! (D ++ db) = Some (NFile content);
  bs_skip : D ++ db ∈ skips ∧ tg ∈ skips ∧ ∀ q, q ∈ skips → t !! q ≠ Some NDir;
  bs_target : nameable tg ∧ t !! removelast tg = Some NDir ∧ tg ≠ D ++ db ∧ ¬ tg `prefix_of` D';
  bs_fresh : nameable D' ∧ t !! D' = None ∧ ∀ q, q `prefix_of` D' → t !! q = Some NDir ∨ t !! q = None;
  bs_dots p : is_Some (t !! (D ++ p)) → HasPrefix (Join "/" p) ".." = false
}.

(** What the restored directory holds. *)
Definition restored_node (t : gmap (list string) node) (D db : list string) (skips : list (list string)) (snap : string) (p : list string) : option node :=
  if decide (p = []) then None else if decide (p = db) then Some (NFile snap)
  else if decide (D ++ p ∈ skips) then None else t !! (D ++ p).

Section scene.
Context (t : gmap (list string) node) (D db tg D' : list string) (skips : list (list string)) (content snap : string).
Context (S : backup_scene t D db tg D' skips content).

(** The tree once the output file is there. *)
Abbreviation t1 := (<[tg := NFile EmptyString]> t).
Abbreviation T := (restored_node t D db skips snap).

Lemma scene_wf : tree_wf t1.
Proof.
  destruct S as [Hwf _ _ _ (_ & Htg & Hsk) (Hn & Hp & _) _ _]. apply insert_file_wf; [done|apply Hn|by apply parent_dir_some|by apply Hsk].
Qed.

Lemma scene_names p : is_Some (t1 !! p) → nameable p.
Proof.
  destruct S as [_ Hnames _ _ _ (Hn & _) _ _]. destruct (decide (p = tg)) as [->|Hne]; [done|]. rewrite lookup_insert_ne by done. apply Hnames.
Qed.

(** What is listed is what is kept. *)
Lemma scene_kept p n : p ≠ [] → p ≠ db → D ++ p ∉ skips → t1 !! (D ++ p) = Some n ↔ T p = Some n.
Proof.
  intros H1 H2 H3. unfold restored_node. rewrite !decide_False by done. destruct S as [_ _ _ _ (_ & Htg & _) _ _ _].
  rewrite lookup_insert_ne; [done|]. by intros ->.
Qed.

Lemma scene_in p n : T p = Some n → p ≠ [] ∧ ∃ n', t !! (D ++ p) = Some n' ∧ (n' = NDir → n = NDir).
Proof.
  unfold restored_node. case_decide; [done|]. intros Hp. split; [done|]. destruct S as [_ _ _ [_ Hdb] _ _ _ _].
  case_decide; [subst p; exists (NFile content); by rewrite Hdb|]. case_decide; [done|]. by exists n.
Qed.

Lemma scene_restorable : restorable T.
Proof.
  destruct S as [Hwf Hnames Hdir [_ Hdb] (_ & _ & Hsk) _ _ Hdots]. split.
  - intros p [n Hn]. destruct (scene_in p n Hn) as (Hne & n' & Hp & _). split; [done|].
    assert (nameable p) as Hnp by (apply (nameable_app D p), Hnames; by rewrite Hp). split; [done|].
    unfold unsafe_name. rewrite Hdots by by rewrite Hp. by apply (Clean_Join p Hne), Hnp.
  - intros p q [n Hn] Hq Hqne Hqp. destruct (scene_in p n Hn) as (Hne & n' & Hp & _).
    assert (t !! (D ++ q) = Some NDir) as Hd.
    { destruct Hq as [r ->]. apply (tree_wf_dir t _ r); [done|rewrite <- app_assoc; by rewrite Hp|]. intros ->. by rewrite app_nil_r in Hqp. }
    unfold restored_node. rewrite !decide_False; [done| | |done].
    + intros Hin. by apply (Hsk _ Hin).
    + intros ->. congruence.
Qed.

(** The entries of the archive are those of the restored paths. *)
Lemma scene_entries files : lists skips t1 D [] files →
  ∃ ps, Forall2 (λ p e, ∃ n, T p = Some n ∧ e = entry_of p n) ps (entry_of db (NFile snap) :: files) ∧
    ∀ p, is_Some (T p) → p ∈ ps.
Proof.
  intros Hfiles. destruct S as [Hwf Hnames Hdir [Hdbne Hdb] (Hsdb & Hstg & Hsk) Htg _ _].
  assert (T db = Some (NFile snap)) as Tdb by (unfold restored_node; by rewrite decide_False, decide_True).
  assert (Forall (λ e, ∃ p, ∃ n, T p = Some n ∧ e = entry_of p n) files) as Hall.
  { apply Forall_forall. intros e (p & n & _ & Hp & He)%Hfiles. unfold tar_entry in He. case_decide as Hc; [by apply elem_of_nil in He|].
    assert (p ≠ [] ∧ D ++ p ∉ skips) as [Hne Hns] by tauto. apply list_elem_of_singleton in He as ->. exists p, n. split; [|done].
    apply scene_kept; [done|intros ->; done|done|done]. }
  apply Forall_choose in Hall as [ps Hps]. exists (db :: ps). split; [constructor; [by exists (NFile snap)|done]|].
  intros p [n Hn]. destruct (decide (p = db)) as [->|Hpdb]; [left|right].
  destruct (scene_in p n Hn) as (Hne & n' & Hp' & _). assert (D ++ p ∉ skips) as Hns.
  { intros Hin. unfold restored_node in Hn. rewrite (decide_False (P := p = [])), (decide_False (P := p = db)), decide_True in Hn by done. done. }
  assert (entry_of p n ∈ files) as Hin.
  { apply Hfiles. exists p, n. split; [apply prefix_nil|]. split; [by apply scene_kept|]. unfold tar_entry. rewrite decide_False by tauto. left. }
  apply list_elem_of_lookup in Hin as [i Hi]. destruct (Forall2_lookup_r _ _ _ _ _ Hps Hi) as (q & Hq & m & Hm & [= E _]).
  destruct (rs_name _ scene_restorable q) as (Hqne & Hqn & _); [by rewrite Hm|]. destruct (rs_name _ scene_restorable p) as (_ & Hpn & _); [by rewrite Hn|].
  assert (p = q) as -> by (apply Join_slash_inj; [done|done|apply Hpn|apply Hqn|done]). by eapply list_elem_of_lookup_2.
Qed.

(** Nothing is below the fresh directory. *)
Lemma scene_fresh p : t1 !! (D' ++ p) = None ∧ ∀ q, q `prefix_of` D' → t1 !! q = Some NDir ∨ t1 !! q = None.
Proof.
  destruct S as [Hwf _ _ _ _ (_ & Hpar & _ & Hnp) (_ & Hnone & Hpre) _].
  assert (∀ q, q `prefix_of` D' → t1 !! q = t !! q) as Heq by (intros q Hq; rewrite lookup_insert_ne; [done|by intros ->]).
  split; [|intros q Hq; rewrite Heq by done; by apply Hpre].
  destruct (decide (p = [])) as [->|Hp]; [by rewrite app_nil_r, Heq, Hnone by done|].
  destruct (t1 !! (D' ++ p)) eqn:E; [|done]. exfalso.
  assert (t1 !! D' = Some NDir) as Hd by (apply (tree_wf_dir _ _ p); [apply scene_wf|by rewrite E|done]).
  rewrite Heq, Hnone in Hd by done. done.
Qed.
End scene.

Section commands.
Context `{Faults} (Hnf : ∀ n, io_fault n = false) (wd : string) (Hwd : IsAbs wd = true) (vacuum : string → string).
Context (t : gmap (list string) node) (root db tg D' : list string) (skips : list (list string)) (content : string).
Context (S : backup_scene t root db tg D' skips content).
Abbreviation after_open := (<[tg := NFile EmptyString]> t).

(** The snapshot is filed under the place of the database. *)
Lemma snapshot_yields dataDir dbPath k :
  dbPath ≠ EmptyString → abs_components wd dataDir = root → abs_components wd dbPath = root ++ db → IsAbs dataDir = IsAbs dbPath →
  ends_in (writeDBSnapshotToTar wd vacuum dataDir dbPath) (mkDisk after_open k) [entry_of db (NFile (vacuum content))] after_open.
Proof.
  intros Hdb Hroot Hrel Habs. pose proof (scene_wf _ _ _ _ _ _ _ S) as Hwf. destruct S as [_ Hnames _ [Hdbne Hc] _ (_ & _ & Htg & _) _ Hdots].
  assert (after_open !! (root ++ db) = Some (NFile content)) as Hc1 by by rewrite lookup_insert_ne.
  assert (nameable (root ++ db)) as Hn by (apply Hnames; by rewrite Hc).
  unfold writeDBSnapshotToTar. rewrite Abs_spec, Hrel by done. eapply ends_in_bind; [apply ends_in_attempt, (ends_in_Stat (os := CmdOs) Hnf); done|].
  intros k1. cbv iota beta. eapply ends_in_bind; [by apply (ends_in_read Hnf)|]. intros k2. cbn [dk_tree].
  assert (snapshot_name wd dataDir dbPath = Join "/" db) as ->; [|by exists k2].
  unfold snapshot_name. rewrite Habs, Bool.eqb_reflx, Hroot, Hrel, below_root_app. cbn [negb]. cbv iota.
  destruct db as [|x rel]; [done|]. cbv zeta. by rewrite Hdots by by rewrite Hc.
Qed.

(** The walk lists what is left of the data directory. *)
Lemma dir_yields dataDir skip k :
  abs_components wd dataDir = root → Forall (λ s, s ≠ EmptyString) skip → abs_components wd <$> skip = skips →
  ∃ files, ends_in (writeDirToTar wd dataDir skip) (mkDisk after_open k) files after_open ∧ lists skips after_open root [] files.
Proof.
  intros Hroot Hskip Hskips. pose proof (scene_wf _ _ _ _ _ _ _ S) as Hwf.
  assert (filter (λ s, s ≠ EmptyString) skip = skip) as Hf.
  { clear Hskips. induction Hskip as [|s skip Hs _ IH]; [done|]. by rewrite filter_cons_True, IH. }
  destruct (walk_lists Hnf skips after_open Hwf (scene_names _ _ _ _ _ _ _ S) root (Datatypes.S (size after_open)) [] NDir k) as (files & [k' E] & Hl).
  - rewrite app_nil_r. destruct S as [_ _ Hdir _ (_ & Htg & Hsk) _ _ _]. rewrite lookup_insert_ne; [done|]. intros ->. by apply (Hsk root).
  - intros p _ Hp. apply depth_le_size in Hp; [|done]. rewrite length_app in Hp. cbn. lia.
  - exists files. split; [|done]. exists k'. unfold writeDirToTar. rewrite Hf, Hskips, Hroot. exact E.
Qed.

Lemma backup_yields cfg target s3_entries k :
  c_ArtifactBackend cfg ≠ "s3"%string → c_DBPath cfg ≠ EmptyString → target ≠ EmptyString →
  abs_components wd (c_DataDir cfg) = root → abs_components wd (c_DBPath cfg) = root ++ db → IsAbs (c_DataDir cfg) = IsAbs (c_DBPath cfg) →
  abs_components wd target = tg → abs_components wd <$> (live_files (c_DBPath cfg) ++ [target]) = skips →
  ∃ files, ends_in (runBackup wd vacuum cfg target false false s3_entries) (mkDisk t k) (entry_of db (NFile (vacuum content)) :: files) after_open ∧
    lists skips after_open root [] files.
Proof.
  intros Hs3 Hdb Htarget Hroot Hrel Habs Htg Hskips. pose proof S as [Hwf _ _ _ (_ & Hin & Hsk) (Hn & Hpar & _) _ _].
  destruct (ends_in_OpenTrunc (os := CmdOs) Hnf tg (mkDisk t k) Hwf Hn Hpar (Hsk tg Hin)) as [k1 E1]. cbn [dk_tree] in E1.
  destruct (snapshot_yields (c_DataDir cfg) (c_DBPath cfg) k1 Hdb Hroot Hrel Habs) as [k2 E2].
  destruct (dir_yields (c_DataDir cfg) (live_files (c_DBPath cfg) ++ [target]) k2 Hroot) as (files & [k3 E3] & Hl); [|done|].
  { unfold live_files. repeat constructor; try done; destruct (c_DBPath cfg); done. }
  destruct (ends_in_Flush (os := CmdOs) Hnf (mkDisk after_open k3)) as [k4 E4]. cbn [dk_tree] in E4. exists files. split; [|done]. exists k4.
  unfold runBackup. rewrite bool_decide_false by done. cbn [andb negb]. cbv zeta iota.
  unfold mbind, D_bind. rewrite Abs_spec, Htg, E1, E2, E3 by done. cbv [mret D_ret]. rewrite E4. by rewrite app_nil_r.
Qed.

(** The data directory is made, and what it holds is what is restored. *)
Lemma restore_yields cfg input es k :
  input ≠ EmptyString → c_DataDir cfg ≠ EmptyString → abs_components wd (c_DataDir cfg) = D' → lists skips after_open root [] es →
  ∃ t2, ends_in (runRestore wd cfg input (entry_of db (NFile (vacuum content)) :: es) true) (mkDisk after_open k) tt t2 ∧
    ∀ p, p ≠ [] → t2 !! (D' ++ p) = restored_node t root db skips (vacuum content) p.
Proof.
  intros Hin Hdata HD Hes. pose proof (scene_wf _ _ _ _ _ _ _ S) as Hwf. pose proof (scene_fresh _ _ _ _ _ _ _ S) as Hfresh.
  assert (nameable D') as Hn by (by destruct S as [_ _ _ _ _ _ [Hn _] _]).
  destruct (ends_in_ReadDir (os := CmdOs) Hnf D' (mkDisk after_open k) Hn) as [k1 E1]. cbn [dk_tree] in E1.
  assert (children after_open D' = []) as Hc.
  { apply elem_of_nil_inv. intros [x n] Hx. apply elem_of_children in Hx. by rewrite (proj1 (Hfresh [x])) in Hx. }
  destruct (ends_in_MkdirAll (os := CmdOs) Hnf D' (mkDisk after_open k1) Hn) as (tm & [k2 E2] & Htm); [intros q Hq _; by apply (Hfresh [])|]. cbn [dk_tree] in Htm.
  assert (D' ≠ []) as HDne.
  { intros E. pose proof (proj1 (Hfresh [])) as Hno. rewrite app_nil_r, E in Hno. by rewrite (proj1 Hwf) in Hno. }
  assert (restored wd (c_DataDir cfg) (restored_node t root db skips (vacuum content)) [] tm) as Hres.
  { rewrite <- HD in *. split; [|split].
    - pose proof (touches_MkdirAll CmdOs (λ _, True) (absolute (abs_components wd (c_DataDir cfg))) (mkDisk after_open k1) Hwf) as [Hw _]. by rewrite E2 in Hw.
    - rewrite Htm. by rewrite decide_True.
    - intros p Hp. rewrite Htm, decide_False.
      + rewrite decide_False by (intros Hx; inversion Hx). apply Hfresh.
      + intros [_ Hq]. apply Hp. rewrite <- (app_nil_r (abs_components wd (c_DataDir cfg))) in Hq at 2. apply prefix_app_inv in Hq. by apply prefix_nil_inv. }
  destruct (scene_entries _ _ _ _ _ _ _ (vacuum content) S es Hes) as (ps & Hps & Hall).
  rewrite <- HD in Hn.
  destruct (restored_entries Hnf wd (c_DataDir cfg) Hwd Hdata Hn _ (scene_restorable _ _ _ _ _ _ _ (vacuum content) S) [] (mkDisk tm k2) ps _ Hres Hps) as (t2 & [k3 E3] & _ & _ & Ht2).
  exists t2. split.
  - exists k3. unfold runRestore. rewrite decide_False by done. unfold mbind, D_bind, attempt. rewrite Abs_spec, HD, E1, Hc by done.
    change (sort_by fst []) with (@nil (string * node)). cbv iota beta. rewrite E2, E3. done.
  - intros p Hp. rewrite HD in Ht2. rewrite Ht2 by done. case_decide as Hex; [done|]. destruct (restored_node _ _ _ _ _ p) eqn:E; [|done]. exfalso. apply Hex.
    apply Exists_exists. exists p. split; [|done]. rewrite app_nil_r. apply elem_of_reverse, Hall. by rewrite E.
Qed.
End commands.

(** C24: Restoring a backup gives the data directory back.  Take the file
    system backend, no I/O fault, a data directory [root] with the database file
    below it, nothing at the top of it whose name starts with two dots (which
    [restore] refuses, [dotted_name_refused]), an output file in a directory that
    exists and a fresh directory to restore into.  Then [backup] succeeds, and
    [restore] of its archive succeeds and leaves there, at every path, exactly
    what the data directory had, with the snapshot in the place of the database
    and without the live side files and the archive itself. *)
Theorem backup_restores `{Faults} wd vacuum cfg cfg' target input s3_entries t root db D' content k :
  let skips := abs_components wd <$> (live_files (c_DBPath cfg) ++ [target]) in
  (∀ n, io_fault n = false) → IsAbs wd = true →
  c_ArtifactBackend cfg ≠ "s3"%string → c_DBPath cfg ≠ EmptyString → target ≠ EmptyString →
  abs_components wd (c_DataDir cfg) = root → abs_components wd (c_DBPath cfg) = root ++ db → IsAbs (c_DataDir cfg) = IsAbs (c_DBPath cfg) →
  backup_scene t root db (abs_components wd target) D' skips content →
  input ≠ EmptyString → c_DataDir cfg' ≠ EmptyString → abs_components wd (c_DataDir cfg') = D' →
  ∃ es d1 d2, runBackup wd vacuum cfg target false false s3_entries (mkDisk t k) = (inr es, d1) ∧
    runRestore wd cfg' input es true d1 = (inr tt, d2) ∧
    ∀ p, p ≠ [] → dk_tree d2 !! (D' ++ p) = restored_node t root db skips (vacuum content) p.
Proof.
  intros skips Hnf Hwd Hs3 Hdb Htg Hroot Hrel Habs S Hin Hdata HD.
  destruct (backup_yields Hnf wd Hwd vacuum _ _ _ _ _ _ _ S cfg target s3_entries k Hs3 Hdb Htg Hroot Hrel Habs eq_refl eq_refl) as (files & [k1 E1] & Hl).
  destruct (restore_yields Hnf wd Hwd vacuum _ _ _ _ _ _ _ S cfg' input files k1 Hin Hdata HD Hl) as (t2 & [k2 E2] & Ht2).
  by exists (entry_of db (NFile (vacuum content)) :: files), (mkDisk (<[abs_components wd target := NFile EmptyString]> t) k1), (mkDisk t2 k2).
Qed.

(** ** Examples *)

Module Example20.
#[local] Instance no_faults : Faults := { io_fault _ := false; io_written _ := 0%nat; io_kept _ := [] }.

Definition settings (data db : string) : Settings :=
  mkSettings data db "" "" "" "" "" "" "" "" "" "" 0 0 0 0 0 0 false false "" "" "" "" "" "" "" "" 0 "" false 0 0 0 "".
Definition disk0 : gmap (list string) node := list_to_map
  [([], NDir); (["data"%string], NDir); (["data"; "litemlflow.db"]%string, NFile "rows"); (["data"; "litemlflow.db-wal"]%string, NFile "log");
   (["data"; "artifacts"]%string, NDir); (["data"; "artifacts"; "r1"]%string, NDir); (["data"; "artifacts"; "r1"; "m.pt"]%string, NFile "weights")].
(** The archive is written into the data directory itself. *)
Definition backup : (cmd_error + list TarEntry) * Disk :=
  runBackup "/" (λ c, "vacuumed " +:+ c) (settings "/data" "/data/litemlflow.db") "data/out.tgz" false false (inr []) (mkDisk disk0 0).
Definition live : list (list string) := abs_components "/" <$> (live_files "/data/litemlflow.db" ++ ["data/out.tgz"%string]).

Lemma scene : backup_scene disk0 ["data"%string] ["litemlflow.db"%string] (abs_components "/" "data/out.tgz") ["new"%string] live "rows".
Proof.
  split.
  - apply tree_wf_of; [reflexivity|]. apply (bool_decide_unpack _). vm_compute. exact I.
  - assert (map_Forall (λ p _, nameable p) disk0) as Hall by (apply (bool_decide_unpack _); vm_compute; exact I). intros p [n Hp]. by apply (Hall p n).
  - reflexivity.
  - split; [discriminate|reflexivity].
  - split; [apply (bool_decide_unpack _); vm_compute; exact I|]. split; [apply (bool_decide_unpack _); vm_compute; exact I|].
    assert (Forall (λ q, disk0 !! q ≠ Some NDir) live) as Hall by (apply (bool_decide_unpack _); vm_compute; exact I). by apply Forall_forall.
  - split; [apply (bool_decide_unpack _); vm_compute; exact I|]. split; [reflexivity|]. split; [discriminate|]. apply (bool_decide_unpack _). vm_compute. exact I.
  - split; [apply (bool_decide_unpack _); vm_compute; exact I|]. split; [reflexivity|]. intros q [r Hq]. destruct q as [|x q]; [by left|].
    injection Hq as <- Hq. destruct q; [by right|done].
  - assert (map_Forall (λ q _, default true (negb ∘ (λ p, HasPrefix (Join "/" p) "..") <$> below_root ["data"%string] q) = true) disk0) as Hall
      by (apply (bool_decide_unpack _); vm_compute; exact I).
    intros p [n Hp]. specialize (Hall _ _ Hp). cbv beta in Hall. rewrite below_root_app in Hall.
    unfold compose in Hall. cbn [default fmap option_fmap option_map] in Hall. by destruct (HasPrefix (Join _ p) _).
Qed.

Lemma backup_restores_witness : ∃ es d1 d2, backup = (inr es, d1) ∧ runRestore "/" (settings "/new" "") "backup.tgz" es true d1 = (inr tt, d2) ∧
  dk_tree d2 !! ["new"; "litemlflow.db"]%string = Some (NFile "vacuumed rows") ∧ dk_tree d2 !! ["new"; "litemlflow.db-wal"]%string = None ∧
  dk_tree d2 !! ["new"; "artifacts"; "r1"; "m.pt"]%string = Some (NFile "weights") ∧ dk_tree d2 !! ["new"; "out.tgz"]%string = None.
Proof.
  destruct (backup_restores "/" (λ c, "vacuumed " +:+ c) (settings "/data" "/data/litemlflow.db") (settings "/new" "") "data/out.tgz" "backup.tgz" (inr [])
    disk0 ["data"%string] ["litemlflow.db"%string] ["new"%string] "rows" 0) as (es & d1 & d2 & E1 & E2 & Ht);
    [reflexivity|reflexivity|discriminate|discriminate|discriminate|vm_compute; reflexivity|vm_compute; reflexivity|reflexivity|exact scene|discriminate|discriminate|vm_compute; reflexivity|].
  exists es, d1, d2. split; [exact E1|]. split; [exact E2|].
  split; [|split; [|split]].
  - etransitivity; [apply (Ht ["litemlflow.db"]%string); discriminate|]. vm_compute. reflexivity.
  - etransitivity; [apply (Ht ["litemlflow.db-wal"]%string); discriminate|]. vm_compute. reflexivity.
  - etransitivity; [apply (Ht ["artifacts"; "r1"; "m.pt"]%string); discriminate|]. vm_compute. reflexivity.
  - etransitivity; [apply (Ht ["out.tgz"]%string); discriminate|]. vm_compute. reflexivity.
Defined.

(** A file at the top of the data directory whose name starts with two dots is
    archived, and the archive that holds it is refused. *)
Example dotted_name_refused :
  match runBackup "/" id (settings "/data" "/data/litemlflow.db") "/out.tgz" false false (inr [])
    (mkDisk (<[["data"; "..cache"]%string := NFile "x"]> disk0) 0) with
  | (inr l, d) => (runRestore "/" (settings "/new" "") "backup.tgz" l true d).1
  | (inl _, _) => inr tt
  end = inl CmdUnsafePath.
Proof. vm_compute. reflexivity. Qed.
End Example20.
