(* ===== verification/Migrator.v ===== *)
(** * The MLflow importer (internal/migrator/mlflow.go)

    The importer reads a tracking server over its REST API and writes into the
    store, the artifact store and a checkpoint file.  The answers of the server
    to each request, the JSON codecs and the clock are parameters; the writes
    are those of Runs.v, RunData.v, Experiments.v, of the interface of
    Artifacts.v and of FileSystem.v. *)

From S2P Require Import Prelude GoStrings Urls Paths FileSystem Artifacts Model Database Events Runs RunData Experiments.

Open Scope Z_scope.

(** ** Data *)

Inductive ImportFilter := FilterActive | FilterDeleted | FilterAll.

Record Stats := mkStats { st_Experiments : Z; st_Runs : Z; st_Metrics : Z; st_Params : Z; st_Tags : Z; st_Artifacts : Z; st_Skipped : Z }.

Record mlflowExperiment := mkMlflowExperiment { me_ExperimentID : string; me_Name : string; me_LifecycleStage : string; me_Tags : list KV }.
Record mlflowRunInfo := mkMlflowRunInfo {
  mi_RunID : string; mi_ExperimentID : string; mi_RunName : string; mi_Status : string; mi_StartTime : Z; mi_EndTime : Z;
  mi_LifecycleStage : string; mi_UserID : string }.
Record mlflowRunData := mkMlflowRunData { md_Metrics : list Metric; md_Params : list KV; md_Tags : list KV }.
Record mlflowRun := mkMlflowRun { mr_Info : mlflowRunInfo; mr_Data : mlflowRunData }.
Record mlflowArtifact := mkMlflowArtifact { ma_Path : string; ma_IsDir : bool }.

Record checkpoint := mkCheckpoint { cp_ImportedRunIDs : list string; cp_Experiments : gmap string Z }.

(** The fields of the importer that are set before it runs. *)
Record MLflowImporter := mkMLflowImporter {
  im_SourceURL : string; im_Workspace : string; im_DryRun : bool; im_Include : ImportFilter;
  im_HasArtifacts : bool; im_checkpointPath : string }.

(** ** The source *)

Record HttpCall := mkHttpCall { hc_Method : string; hc_URL : string; hc_Body : string }.
Record HttpAnswer := mkHttpAnswer { ha_Status : Z; ha_Body : Reader }.

(** What the [n]-th request gets, and the codecs of encoding/json. *)
Class Source := {
  http_Do : nat → HttpCall → option HttpAnswer;
  decode_experiments : Reader → option (list mlflowExperiment * string);
  decode_runs : Reader → option (list mlflowRun * string);
  decode_metrics : Reader → option (list Metric * string);
  decode_artifacts : Reader → option (list mlflowArtifact);
  (* experiment id, view type, page token *)
  encode_search : string → string → string → string;
  encode_checkpoint : checkpoint → string;
  decode_checkpoint : string → option checkpoint }.

(** ** The monad *)

Inductive import_error :=
  | ImpNetwork | ImpStatus (code : Z) | ImpDecode | ImpStore (e : err) | ImpArtifact (e : artifact_error) | ImpFile (e : os_error)
  | ImpEndless.   (* the listing has more pages or levels than [fuel] *)

(** The state the importer works on, and the maps it keeps. *)
Record Import (St : Type) := mkImport {
  is_world : World; is_arts : St; is_disk : Disk; is_calls : nat; is_imported : gset string; is_exps : gmap string Z }.
Arguments mkImport {_} _ _ _ _ _ _.
Arguments is_world {_} _.
Arguments is_arts {_} _.
Arguments is_disk {_} _.
Arguments is_calls {_} _.
Arguments is_imported {_} _.
Arguments is_exps {_} _.

Section importer.
Context `{Clock} `{Faults} `{Source} {St : Type} `{ArtifactStore St}.
(** The working directory, [model.NewRunID], and a bound on the pages of a
    listing and the depth of a directory. *)
Context (wd : string) (new_id : nat → string) (fuel : nat).

Definition Imp (A : Type) : Type := Import St → (import_error + A) * Import St.
#[export] Instance Imp_ret : MRet Imp := λ A a s, (inr a, s).
#[export] Instance Imp_bind : MBind Imp := λ A B f m s, match m s with (inr a, s') => f a s' | (inl e, s') => (inl e, s') end.
Definition raise {A} (e : import_error) : Imp A := λ s, (inl e, s).
Definition state : Imp (Import St) := λ s, (inr s, s).

(** The outcome as a value: what the code logs and goes on from. *)
Definition outcome {A} (m : Imp A) : Imp (import_error + A) := λ s, let '(r, s') := m s in (inr r, s').

Definition on_store {A} (m : M A) : Imp A := λ s,
  let '(r, w) := m (is_world s) in
  (match r with Ok a => inr a | Err e => inl (ImpStore e) end, mkImport w (is_arts s) (is_disk s) (is_calls s) (is_imported s) (is_exps s)).
Definition on_arts {A} (f : St → (artifact_error + A) * St) : Imp A := λ s,
  let '(r, a) := f (is_arts s) in
  (match r with inr x => inr x | inl e => inl (ImpArtifact e) end, mkImport (is_world s) a (is_disk s) (is_calls s) (is_imported s) (is_exps s)).
Definition on_disk {A} (m : D import_error A) : Imp A := λ s,
  let '(r, d) := m (is_disk s) in (r, mkImport (is_world s) (is_arts s) d (is_calls s) (is_imported s) (is_exps s)).
Definition set_maps (imported : gset string) (exps : gmap string Z) : Imp unit := λ s,
  (inr tt, mkImport (is_world s) (is_arts s) (is_disk s) (is_calls s) imported exps).
Definition mark_imported (id : string) : Imp unit := s ← state; set_maps ({[ id ]} ∪ is_imported s) (is_exps s).

(** ** HTTP helpers *)

Definition http_do (q : HttpCall) : Imp HttpAnswer := λ s,
  (match http_Do (is_calls s) q with Some a => inr a | None => inl ImpNetwork end,
   mkImport (is_world s) (is_arts s) (is_disk s) (S (is_calls s)) (is_imported s) (is_exps s)).

Definition decode {A} (f : Reader → option A) (a : HttpAnswer) : Imp A :=
  match f (ha_Body a) with Some x => mret x | None => raise ImpDecode end.

Section requests.
Context (m : MLflowImporter).

Definition base : string := TrimRight (im_SourceURL m) "/".

Definition importer_get (path : string) : Imp HttpAnswer :=
  a ← http_do (mkHttpCall "GET" (base +:+ path) EmptyString);
  if 400 <=? ha_Status a then raise (ImpStatus (ha_Status a)) else mret a.

Definition getJSON {A} (f : Reader → option A) (path : string) : Imp A := a ← importer_get path; decode f a.

Definition importer_post {A} (f : Reader → option A) (path payload : string) : Imp A :=
  a ← http_do (mkHttpCall "POST" (base +:+ path) payload);
  if 400 <=? ha_Status a then raise (ImpStatus (ha_Status a)) else decode f a.

(** ** The MLflow API *)

Definition probeMLflow : Imp unit :=
  a ← importer_get "/api/2.0/mlflow/experiments/search?max_results=1";
  if decide (ha_Status a = 200) then mret tt else raise (ImpStatus (ha_Status a)).

(** The loop over the pages of a listing. *)
Fixpoint pages {A} (n : nat) (fetch : string → Imp (list A * string)) (token : string) (all : list A) : Imp (list A) :=
  match n with
  | O => raise ImpEndless
  | S n => '(l, next) ← fetch token; if decide (next = EmptyString) then mret (all ++ l) else pages n fetch next (all ++ l)
  end.

Definition view_type : string :=
  match im_Include m with FilterDeleted => "DELETED_ONLY" | FilterAll => "ALL" | FilterActive => "ACTIVE_ONLY" end.
Definition page_token (token : string) : string := if decide (token = EmptyString) then EmptyString else "&page_token=" +:+ QueryEscape token.

Definition listExperiments : Imp (list mlflowExperiment) :=
  pages fuel (λ token, getJSON decode_experiments
    ("/api/2.0/mlflow/experiments/search?max_results=1000" +:+ page_token token +:+ "&view_type=" +:+ view_type)) EmptyString [].

Definition listRuns (experimentID : string) : Imp (list mlflowRun) :=
  pages fuel (λ token, importer_post decode_runs "/api/2.0/mlflow/runs/search" (encode_search experimentID view_type token)) EmptyString [].

Definition getMetricHistory (runID key : string) : Imp (list Metric) :=
  pages fuel (λ token, getJSON decode_metrics
    ("/api/2.0/mlflow/metrics/get-history?run_id=" +:+ QueryEscape runID +:+ "&metric_key=" +:+ QueryEscape key +:+
     "&max_results=5000" +:+ page_token token)) EmptyString [].

Definition listArtifacts (runID path : string) : Imp (list mlflowArtifact) :=
  getJSON decode_artifacts ("/api/2.0/mlflow/artifacts/list?run_id=" +:+ QueryEscape runID +:+
    if decide (path = EmptyString) then EmptyString else "&path=" +:+ QueryEscape path).

(** The files below a directory, [n] levels deep. *)
Fixpoint listArtifactsRecursive2 (n : nat) (runID dir : string) : Imp (list mlflowArtifact) :=
  match n with
  | O => raise ImpEndless
  | S n =>
      entries ← listArtifacts runID dir;
      (fix each (l : list mlflowArtifact) (files : list mlflowArtifact) : Imp (list mlflowArtifact) :=
         match l with
         | [] => mret files
         | e :: l' => if ma_IsDir e then sub ← listArtifactsRecursive2 n runID (ma_Path e); each l' (files ++ sub) else each l' (files ++ [e])
         end) entries []
  end.
Definition listArtifactsRecursive (runID : string) : Imp (list mlflowArtifact) := listArtifactsRecursive2 fuel runID EmptyString.

Definition downloadArtifact (runID path : string) : Imp Reader :=
  a ← importer_get ("/api/2.0/mlflow-artifacts/artifacts/" +:+ PathEscape runID +:+ "/" +:+ Join "/" (PathEscape <$> Split1 slash path));
  if decide (ha_Status a = 200) then mret (ha_Body a) else raise (ImpStatus (ha_Status a)).

(** ** Checkpoint *)

(** [os.ReadFile] of the checkpoint; [None] when there is none. *)
Definition read_checkpoint : Imp (option string) :=
  r ← outcome (on_disk (os_Stat ImpFile (Abs wd (im_checkpointPath m))));
  match r with
  | inl (ImpFile ENOENT) => mret None
  | inl e => raise e
  | inr NDir => raise (ImpFile EISDIR)
  | inr (NFile data) => mret (Some data)
  end.

Definition loadCheckpoint : Imp unit :=
  _ ← set_maps ∅ ∅;
  if decide (im_checkpointPath m = EmptyString) then mret tt else
  data ← read_checkpoint;
  match data ≫= decode_checkpoint with
  | None => mret tt
  | Some cp => set_maps (list_to_set (cp_ImportedRunIDs cp)) (cp_Experiments cp)
  end.

Definition saveCheckpoint : Imp unit :=
  if decide (im_checkpointPath m = EmptyString) then mret tt else
  s ← state;
  let data := encode_checkpoint (mkCheckpoint (elements (is_imported s)) (is_exps s)) in
  let tmp := Abs wd (im_checkpointPath m +:+ ".part") in
  on_disk (
    _ ← OpenTrunc ImpFile tmp; _ ← Write ImpFile tmp data; _ ← Flush ImpFile;
    Rename ImpFile tmp (Abs wd (im_checkpointPath m))).

(** ** Importing *)

Definition workspace : string := if decide (im_Workspace m = EmptyString) then "default" else im_Workspace m.

Definition lifecycle_of (stage : string) : string := if decide (stage = "deleted"%string) then LifecycleDeleted else LifecycleActive.

(** A loop whose errors are logged: how many steps succeeded. *)
Fixpoint count_ok {A} (f : A → Imp unit) (l : list A) : Imp Z :=
  match l with
  | [] => mret 0
  | x :: l' => r ← outcome (f x); n ← count_ok f l'; mret (match r with inr _ => n + 1 | inl _ => n end)
  end.

Definition create_experiment (exp : mlflowExperiment) : Imp Z :=
  let e name := mkExperiment 0 name EmptyString (lifecycle_of (me_LifecycleStage exp)) 0 0 workspace [] in
  r ← outcome (on_store (CreateExperiment (e (me_Name exp))));
  match r with
  | inl (ImpStore ErrAlreadyExists) =>
      ts ← on_store time_now;
      on_store (CreateExperiment (e (me_Name exp +:+ "-imported-" +:+ FormatInt ts)))
  | inl err => raise err
  | inr id => mret id
  end.

Definition import_new (exp : mlflowExperiment) : Imp Z :=
  id ← create_experiment exp;
  _ ← count_ok (λ t, on_store (SetExperimentTag id (kv_Key t) (kv_Value t))) (me_Tags exp);
  mret id.

Definition importExperiment (exp : mlflowExperiment) : Imp Z :=
  if im_DryRun m then mret 0 else
  s ← state;
  match is_exps s !! me_ExperimentID exp with
  | Some id =>
      r ← outcome (on_store (GetExperiment id));
      match r with
      | inr _ => mret id
      | inl (ImpStore ErrNotFound) => import_new exp
      | inl e => raise e
      end
  | None => import_new exp
  end.

Definition mapStatus (s : string) : string :=
  let u := ToUpper s in
  if decide (u = "RUNNING"%string) then StatusRunning else if decide (u = "FINISHED"%string) then StatusFinished
  else if decide (u = "FAILED"%string) then StatusFailed else if decide (u = "KILLED"%string) then StatusKilled
  else if decide (u = "SCHEDULED"%string) then StatusScheduled else StatusFinished.

(** The keys in order of their first use. *)
Fixpoint unique_keys (seen : list string) (l : list Metric) : list string :=
  match l with
  | [] => []
  | x :: l' => if decide (metric_Key x ∈ seen) then unique_keys seen l' else metric_Key x :: unique_keys (metric_Key x :: seen) l'
  end.
Definition collectMetricKeys (metrics : list Metric) : list string := unique_keys [] metrics.

Definition importArtifact (runID path : string) : Imp unit :=
  if im_HasArtifacts m then r ← downloadArtifact runID path; on_arts (art_Upload runID path r 0) else mret tt.

(** The metrics of all keys; the number of values stored. *)
Fixpoint import_metrics (runID : string) (keys : list string) : Imp Z :=
  match keys with
  | [] => mret 0
  | key :: keys' =>
      history ← outcome (getMetricHistory runID key);
      k ← match history with
          | inl _ => mret 0
          | inr batch => r ← outcome (on_store (LogMetrics runID batch)); mret (match r with inr _ => Z.of_nat (length batch) | inl _ => 0 end)
          end;
      n ← import_metrics runID keys';
      mret (k + n)
  end.

Definition import_artifacts (runID : string) : Imp Z :=
  files ← outcome (listArtifactsRecursive runID);
  match files with inl _ => mret 0 | inr files => count_ok (λ af, importArtifact runID (ma_Path af)) files end.

Definition run_of (localExpID : Z) (info : mlflowRunInfo) : Run :=
  mkRun (mi_RunID info) localExpID (mi_RunName info) (mapStatus (mi_Status info)) (mi_StartTime info)
    (if 0 <? mi_EndTime info then Some (mi_EndTime info) else None) EmptyString (lifecycle_of (mi_LifecycleStage info))
    (mi_UserID info) EmptyString EmptyString KindClassic EmptyString.

(** What follows once the run is there. *)
Definition import_data (r : Run) (info : mlflowRunInfo) (data : mlflowRunData) : Imp Stats :=
  params ← count_ok (λ p, on_store (LogParam (mi_RunID info) (mkParam (kv_Key p) (kv_Value p)))) (md_Params data);
  tags ← count_ok (λ t, on_store (SetTag (mi_RunID info) t)) (md_Tags data);
  metrics ← import_metrics (mi_RunID info) (collectMetricKeys (md_Metrics data));
  artifacts ← import_artifacts (mi_RunID info);
  _ ← outcome (on_store (UpdateRun (mi_RunID info) (Some (run_Status r)) (run_EndTime r) None));
  mret (mkStats 0 1 metrics params tags artifacts 0).

Definition importRun (localExpID : Z) (run : mlflowRun) : Imp Stats :=
  let info := mr_Info run in let data := mr_Data run in
  if im_DryRun m then
    mret (mkStats 0 1 (Z.of_nat (length (md_Metrics data))) (Z.of_nat (length (md_Params data))) (Z.of_nat (length (md_Tags data))) 0 0)
  else
    s ← state;
    let r := run_of localExpID info in
    created ← outcome (on_store (CreateRun (new_id (is_calls s)) r));
    match created with
    | inr _ | inl (ImpStore ErrAlreadyExists) => import_data r info data
    | inl e => raise e
    end.

(** ** The run of the importer

    The statistics that are returned beside an error are dropped. *)

(** [sort.SliceStable] by start time. *)
Fixpoint insert_by_start (r : mlflowRun) (l : list mlflowRun) : list mlflowRun :=
  match l with
  | [] => [r]
  | r' :: l' => if mi_StartTime (mr_Info r) <=? mi_StartTime (mr_Info r') then r :: l else r' :: insert_by_start r l'
  end.
Definition oldest_first (l : list mlflowRun) : list mlflowRun := foldr insert_by_start [] l.

Fixpoint list_all (exps : list mlflowExperiment) (runsByExp : gmap string (list mlflowRun)) : Imp (gmap string (list mlflowRun)) :=
  match exps with
  | [] => mret runsByExp
  | exp :: exps' => runs ← listRuns (me_ExperimentID exp); list_all exps' (<[me_ExperimentID exp := oldest_first runs]> runsByExp)
  end.

Definition add_stats (a b : Stats) : Stats :=
  mkStats (st_Experiments a + st_Experiments b) (st_Runs a + st_Runs b) (st_Metrics a + st_Metrics b) (st_Params a + st_Params b)
    (st_Tags a + st_Tags b) (st_Artifacts a + st_Artifacts b) (st_Skipped a + st_Skipped b).
Definition no_stats : Stats := mkStats 0 0 0 0 0 0 0.
Definition one_run : Stats := mkStats 0 1 0 0 0 0 0.
Definition one_skipped : Stats := mkStats 0 0 0 0 0 0 1.
Definition one_experiment : Stats := mkStats 1 0 0 0 0 0 0.

(** The body of the loop over the runs, from where the run is not recorded. *)
Definition import_fresh (localExpID : Z) (run : mlflowRun) : Imp Stats :=
  r ← outcome (importRun localExpID run);
  match r with
  | inl _ => mret one_skipped
  | inr rs =>
      if im_DryRun m then mret rs else
      _ ← mark_imported (mi_RunID (mr_Info run));
      _ ← outcome saveCheckpoint;
      mret rs
  end.

Definition import_one (localExpID : Z) (run : mlflowRun) : Imp Stats :=
  let id := mi_RunID (mr_Info run) in
  s ← state;
  if decide (id ∈ is_imported s) then mret one_run
  else if im_DryRun m then import_fresh localExpID run
  else
    r ← outcome (on_store (GetRun id));
    match r with
    | inr _ => _ ← mark_imported id; mret one_run
    | inl (ImpStore ErrNotFound) => import_fresh localExpID run
    | inl _ => mret one_skipped
    end.

Fixpoint import_runs (localExpID : Z) (runs : list mlflowRun) (stats : Stats) : Imp Stats :=
  match runs with
  | [] => mret stats
  | run :: runs' => rs ← import_one localExpID run; import_runs localExpID runs' (add_stats stats rs)
  end.

Definition import_experiment_runs (runsByExp : gmap string (list mlflowRun)) (exp : mlflowExperiment) (stats : Stats) : Imp Stats :=
  localExpID ← importExperiment exp;
  s ← state;
  _ ← (if negb (im_DryRun m) && negb (default 0 (is_exps s !! me_ExperimentID exp) =? localExpID) then
         _ ← set_maps (is_imported s) (<[me_ExperimentID exp := localExpID]> (is_exps s)); _ ← outcome saveCheckpoint; mret tt
       else mret tt);
  import_runs localExpID (default [] (runsByExp !! me_ExperimentID exp)) (add_stats stats one_experiment).

Fixpoint import_all (runsByExp : gmap string (list mlflowRun)) (exps : list mlflowExperiment) (stats : Stats) : Imp Stats :=
  match exps with
  | [] => mret stats
  | exp :: exps' => stats ← import_experiment_runs runsByExp exp stats; import_all runsByExp exps' stats
  end.

Definition Importer_Run : Imp Stats :=
  _ ← probeMLflow;
  _ ← loadCheckpoint;
  experiments ← listExperiments;
  runsByExp ← list_all experiments ∅;
  import_all runsByExp experiments no_stats.
End requests.
End importer.
Arguments Imp : clear implicits.
