(* ===== verification/MigratorLaws.v ===== *)
(** * Resuming an import

    The importer only adds to the store, records what it has done, and a second
    run over the same source does nothing. *)

From S2P Require Import Prelude GoStrings Paths FileSystem Faultless Artifacts Model Database Events Runs RunData Experiments Migrator.

Open Scope Z_scope.

(** ** What the store keeps *)

(** No run and no experiment of [d0] is gone in [d]. *)
Definition grows (d0 d : DB) : Prop :=
  (∀ R, is_Some (runs d0 !! R) → is_Some (runs d !! R)) ∧
  (∀ id, is_Some (rows (experiments d0) !! id) → is_Some (rows (experiments d) !! id)) ∧
  (0 ≤ seq_no (experiments d0) → 0 ≤ seq_no (experiments d)).

#[export] Instance grows_preorder : PreOrder grows.
Proof. split; [by intros d|]. intros d1 d2 d3 (H1 & H2 & H3) (H4 & H5 & H6). split_and!; auto. Qed.

Lemma grows_same d0 d d' : runs d' = runs d → experiments d' = experiments d → grows d0 d → grows d0 d'.
Proof. unfold grows. by intros -> ->. Qed.

Lemma is_Some_insert `{Countable K} {V} (m : gmap K V) k v i : is_Some (m !! i) → is_Some (<[k := v]> m !! i).
Proof. intros Hi. apply lookup_insert_is_Some. destruct (decide (k = i)); auto. Qed.

Lemma grows_run d0 d id r : grows d0 d → grows d0 (set_runs (<[id := r]> (runs d)) d).
Proof. intros (H1 & H2 & H3). split_and!; [|done|done]. intros R HR. apply is_Some_insert. auto. Qed.

Section growing.
Context `{Clock} (d0 : DB).

#[local] Ltac same := by eapply grows_same.

#[local] Instance update_run_grows id f : Preserves (grows d0) (update_run id f).
Proof.
  apply get_bind_pres. intros w Hw. destruct (runs (w_db w) !! id) as [r|] eqn:E; [|done]. cbv zeta. case_match; [done|].
  match goal with |- context [(if ?b then _ else fail SqlForeignKey) w] => destruct b end; [|done]. by apply (grows_run d0 (w_db w)).
Qed.
#[local] Instance upsert_tag_grows R k v : Preserves (grows d0) (upsert_tag R k v).
Proof. apply get_bind_pres. intros w Hw. case_match; [|done]. same. Qed.
#[local] Instance write_event_grows k R p : Preserves (grows d0) (writeRunEvent k R p).
Proof. unfold writeRunEvent. apply bind_pres; [apply _|]. intros a. case_match; [|apply _]. apply modify_pres. intros d Hd. same. Qed.
#[local] Instance write_before_grows k R p : Preserves (grows d0) (write_before k R p).
Proof. unfold write_before. pres_auto. Qed.
#[local] Instance assert_run_grows R : Preserves (grows d0) (assertRunExists R).
Proof. unfold assertRunExists. pres_auto. Qed.
#[local] Instance before_grows R : Preserves (grows d0) (captureRunBefore R).
Proof. unfold captureRunBefore. pres_auto. Qed.
#[local] Instance read_tag_grows R k : Preserves (grows d0) (readTagValue R k).
Proof. unfold readTagValue. pres_auto. Qed.
#[local] Instance insert_run_grows id r : Preserves (grows d0) (insert_run id r).
Proof.
  apply get_bind_pres. intros w Hw. case_match; [done|]. case_match; [done|]. case_decide; [|done]. by apply (grows_run d0 (w_db w)).
Qed.

#[export] Instance CreateRun_grows newID r : Preserves (grows d0) (CreateRun newID r).
Proof. unfold CreateRun, setParentRunID. pres_auto. Qed.
#[export] Instance LogParam_grows R p : Preserves (grows d0) (LogParam R p).
Proof.
  unfold LogParam. apply bind_pres; [apply _|]. intros _. apply bind_pres; [apply _|]. intros _. apply get_bind_pres. intros w Hw.
  destruct (params _ !! _); [by case_decide|]. case_match; [|done]. same.
Qed.
#[export] Instance SetTag_grows R t : Preserves (grows d0) (SetTag R t).
Proof. unfold SetTag, syncParentRunIDFromTag. pres_auto. Qed.
#[local] Instance insert_metric_grows R m : Preserves (grows d0) (insert_metric R m).
Proof. apply get_bind_pres. intros w Hw. cbv zeta. case_decide; [done|]. case_match; [|done]. same. Qed.
#[export] Instance LogMetrics_grows R ms : Preserves (grows d0) (LogMetrics R ms).
Proof. unfold LogMetrics. pres_auto. apply for_each_pres. intros m _. unfold log_one. pres_auto. Qed.
#[export] Instance UpdateRun_grows R s e n : Preserves (grows d0) (UpdateRun R s e n).
Proof. unfold UpdateRun, UpdateRun_tx. pres_auto. Qed.
#[export] Instance SetExperimentTag_grows id k v : Preserves (grows d0) (SetExperimentTag id k v).
Proof. unfold SetExperimentTag. apply bind_pres; [apply _|]. intros _. apply get_bind_pres. intros w Hw. case_decide; [|done]. same. Qed.
#[local] Instance insert_experiment_grows r : Preserves (grows d0) (insert_experiment r).
Proof.
  apply get_bind_pres. intros w Hw. case_match; [done|]. case_decide; [done|]. case_decide; [|done]. destruct Hw as (Hr & He & Hq). split_and!; [exact Hr|intros i Hi; apply is_Some_insert; auto|].
  intros Hs. specialize (Hq Hs). change (0 ≤ seq_no (experiments (w_db w)) + 1). lia.
Qed.
#[export] Instance update_experiment_grows id f : Preserves (grows d0) (update_experiment id f).
Proof.
  apply get_bind_pres. intros w Hw. destruct (rows _ !! id) as [r|] eqn:E; [|done]. cbv zeta. case_match; [done|]. case_decide; [done|].
  destruct Hw as (Hr & He & Hq). split_and!; [exact Hr|intros i Hi; apply is_Some_insert; auto|exact Hq].
Qed.
#[export] Instance CreateExperiment_grows e : Preserves (grows d0) (CreateExperiment e).
Proof. unfold CreateExperiment. pres_auto. apply for_each_pres. intros t _. apply _. Qed.
#[export] Instance GetRun_grows id : Preserves (grows d0) (GetRun id).
Proof. unfold GetRun. pres_auto. Qed.
#[export] Instance GetExperiment_grows id : Preserves (grows d0) (GetExperiment id).
Proof. unfold GetExperiment. pres_auto. Qed.
End growing.

(** ** Steps of the importer *)

Section importer.
Context `{Clock} `{Faults} `{Source} {St : Type} `{ArtifactStore St}.
Context (wd : string) (new_id : nat → string) (fuel : nat) (m : MLflowImporter).
Implicit Types (s : Import St).

Abbreviation db s := (w_db (is_world s)).

(** The step adds to the store and leaves the maps and the disk alone. *)
Class Adds {A} (c : Imp St A) : Prop :=
  adds s : grows (db s) (db (c s).2) ∧ is_imported (c s).2 = is_imported s ∧ is_exps (c s).2 = is_exps s ∧ is_disk (c s).2 = is_disk s.

#[local] Instance ret_adds {A} (a : A) : Adds (mret a).
Proof. intros s. by split_and!. Qed.
#[local] Instance raise_adds {A} e : Adds (raise (A:=A) e).
Proof. intros s. by split_and!. Qed.
#[local] Instance state_adds : Adds state.
Proof. intros s. by split_and!. Qed.
#[local] Instance bind_adds {A B} (c : Imp St A) (f : A → Imp St B) : Adds c → (∀ a, Adds (f a)) → Adds (c ≫= f).
Proof.
  intros Hc Hf s. unfold mbind, Imp_bind. destruct (Hc s) as (? & ? & ? & ?). destruct (c s) as [[e|a] s1]; cbn in *; [done|].
  destruct (Hf a s1) as (? & ? & ? & ?). split_and!; [by etransitivity|congruence..].
Qed.
#[local] Instance outcome_adds {A} (c : Imp St A) : Adds c → Adds (outcome c).
Proof. intros Hc s. specialize (Hc s). unfold outcome. by destruct (c s). Qed.
#[local] Instance on_store_adds {A} (c : M A) : (∀ d0, Preserves (grows d0) c) → Adds (on_store c).
Proof.
  intros Hc s. specialize (Hc (db s) (is_world s) (reflexivity _)). unfold on_store. destruct (c (is_world s)) as [r w]. by split_and!.
Qed.
#[local] Instance on_arts_adds {A} (f : St → (artifact_error + A) * St) : Adds (on_arts f).
Proof. intros s. unfold on_arts. destruct (f _). by split_and!. Qed.
#[local] Instance http_do_adds q : Adds (http_do q).
Proof. intros s. by split_and!. Qed.

#[local] Ltac adds_auto :=
  repeat first [ progress intros | apply _ | progress cbv zeta | apply bind_adds | apply outcome_adds
    | match goal with |- Adds (match ?x with _ => _ end) => destruct x end ].

#[local] Instance get_adds path : Adds (importer_get m path).
Proof. unfold importer_get. adds_auto. Qed.
#[local] Instance getJSON_adds {A} (f : Reader → option A) path : Adds (getJSON m f path).
Proof. unfold getJSON, decode. adds_auto. Qed.
#[local] Instance post_adds {A} (f : Reader → option A) path payload : Adds (importer_post m f path payload).
Proof. unfold importer_post, decode. adds_auto. Qed.
#[local] Instance pages_adds {A} n (fetch : string → Imp St (list A * string)) token all : (∀ t, Adds (fetch t)) → Adds (pages n fetch token all).
Proof. intros Hf. revert token all. induction n as [|n IH]; intros token all; cbn [pages]; adds_auto. Qed.
#[local] Instance count_ok_adds {A} (f : A → Imp St unit) l : (∀ a, Adds (f a)) → Adds (count_ok f l).
Proof. intros Hf. induction l as [|x l IH]; cbn [count_ok]; adds_auto. Qed.
#[local] Instance artifacts_rec_adds n runID dir : Adds (listArtifactsRecursive2 m n runID dir).
Proof.
  revert dir. induction n as [|n IH]; intros dir; cbn [listArtifactsRecursive2]; [apply _|]. apply bind_adds; [unfold listArtifacts; apply _|]. intros entries.
  match goal with |- Adds (?g entries []) => enough (∀ files, Adds (g entries files)) by done end. induction entries as [|e l IHl]; intros files; [apply ret_adds|].
  destruct (ma_IsDir e); [apply bind_adds; [apply IH|]; intros sub|]; apply IHl.
Qed.
#[local] Instance import_metrics_adds runID keys : Adds (import_metrics fuel m runID keys).
Proof. induction keys as [|k keys IH]; cbn [import_metrics]; unfold getMetricHistory; adds_auto. Qed.
#[local] Instance import_artifacts_adds runID : Adds (import_artifacts fuel m runID).
Proof.
  unfold import_artifacts, listArtifactsRecursive. adds_auto. apply count_ok_adds. unfold importArtifact, downloadArtifact. adds_auto.
Qed.
#[local] Instance import_data_adds r info data : Adds (import_data fuel m r info data).
Proof. unfold import_data. adds_auto. Qed.
#[local] Instance importRun_adds e run : Adds (importRun new_id fuel m e run).
Proof. unfold importRun. adds_auto. Qed.
#[local] Instance import_new_adds exp : Adds (import_new m exp).
Proof. unfold import_new, create_experiment. adds_auto. Qed.
#[local] Instance importExperiment_adds exp : Adds (importExperiment m exp).
Proof. unfold importExperiment. adds_auto. Qed.

(** *** The listings *)

(** A source that does not change answers every time alike. *)
Definition stable : Prop := ∀ n n' q, http_Do n q = http_Do n' q.
Context (Hstable : stable).

Definition called s (k : nat) : Import St := mkImport (is_world s) (is_arts s) (is_disk s) k (is_imported s) (is_exps s).

(** The step only asks the source, and always gets the same. *)
Definition asks {A} (c : Imp St A) (r : import_error + A) : Prop := ∀ s, ∃ k, c s = (r, called s k).

Lemma asks_ret {A} (a : A) : asks (mret a) (inr a).
Proof. intros s. exists (is_calls s). by destruct s. Qed.
Lemma asks_raise {A} e : asks (raise (A:=A) e) (inl e).
Proof. intros s. exists (is_calls s). by destruct s. Qed.
Lemma asks_bind {A B} (c : Imp St A) (f : A → Imp St B) r : asks c r → (∀ a, r = inr a → ∃ r', asks (f a) r') → ∃ r', asks (c ≫= f) r'.
Proof.
  intros Hc Hf. destruct r as [e|a].
  - exists (inl e). intros s. destruct (Hc s) as [k E]. exists k. unfold mbind, Imp_bind. by rewrite E.
  - destruct (Hf a eq_refl) as [r' Hr']. exists r'. intros s. destruct (Hc s) as [k E]. destruct (Hr' (called s k)) as [k' E']. exists k'.
    unfold mbind, Imp_bind. rewrite E. exact E'.
Qed.
Lemma asks_http q : ∃ r, asks (http_do q) r.
Proof. eexists. intros s. exists (S (is_calls s)). unfold http_do. by rewrite (Hstable (is_calls s) 0%nat). Qed.

#[local] Ltac asks_auto :=
  repeat first [ progress intros | progress cbv zeta
    | match goal with
      | |- ∃ r, asks (mret ?a) r => exists (inr a); apply asks_ret
      | |- ∃ r, asks (raise ?e) r => exists (inl e); apply asks_raise
      | |- ∃ r, asks (match ?x with _ => _ end) r => destruct x
      | |- ∃ r, asks (http_do ?q ≫= _) r => destruct (asks_http q) as [? ?]; eapply asks_bind; [eassumption|]
      | Hc : asks ?c _ |- ∃ r, asks (?c ≫= _) r => eapply asks_bind; [exact Hc|]
      end ].

Lemma asks_get path : ∃ r, asks (importer_get m path) r.
Proof. unfold importer_get. asks_auto. Qed.
Lemma asks_getJSON {A} (f : Reader → option A) path : ∃ r, asks (getJSON m f path) r.
Proof. unfold getJSON, decode. destruct (asks_get path). asks_auto. Qed.
Lemma asks_post {A} (f : Reader → option A) path payload : ∃ r, asks (importer_post m f path payload) r.
Proof. unfold importer_post, decode. asks_auto. Qed.
Lemma asks_probe : ∃ r, asks (probeMLflow m) r.
Proof. unfold probeMLflow. destruct (asks_get "/api/2.0/mlflow/experiments/search?max_results=1"). asks_auto. Qed.
Lemma asks_pages {A} n (fetch : string → Imp St (list A * string)) token all :
  (∀ t, ∃ r, asks (fetch t) r) → ∃ r, asks (pages n fetch token all) r.
Proof.
  intros Hf. revert token all. induction n as [|n IH]; intros token all; cbn [pages]; [asks_auto|].
  destruct (Hf token) as [r Hr]. eapply asks_bind; [exact Hr|]. intros [l next] _. case_decide; [asks_auto|apply IH].
Qed.
Lemma asks_experiments : ∃ r, asks (listExperiments fuel m) r.
Proof. apply asks_pages. intros t. apply asks_getJSON. Qed.
Lemma asks_list_all exps acc : ∃ r, asks (list_all fuel m exps acc) r.
Proof.
  revert acc. induction exps as [|e exps IH]; intros acc; cbn [list_all]; [asks_auto|].
  destruct (asks_pages fuel (λ token, importer_post m decode_runs "/api/2.0/mlflow/runs/search" (encode_search (me_ExperimentID e) (view_type m) token)) EmptyString []) as [r Hr];
    [intros t; apply asks_post|]. eapply asks_bind; [exact Hr|]. intros l _. apply IH.
Qed.

(** *** The checkpoint *)

(** Where the checkpoint and the file it is written to first lie. *)
Record checkpoint_place (cp part : list string) : Prop := {
  pl_set : im_checkpointPath m ≠ EmptyString;
  pl_cp : Abs wd (im_checkpointPath m) = absolute cp;
  pl_part : Abs wd (im_checkpointPath m +:+ ".part") = absolute part;
  pl_names : nameable cp ∧ nameable part;
  pl_beside : part ≠ cp ∧ removelast part = removelast cp
}.
Record writable (cp part : list string) (t : gmap (list string) node) : Prop := {
  wr_wf : tree_wf t;
  wr_dir : t !! removelast cp = Some NDir;
  wr_files : t !! cp ≠ Some NDir ∧ t !! part ≠ Some NDir
}.
Context (Hnf : ∀ n, io_fault n = false) (cp part : list string) (Hplace : checkpoint_place cp part).
Context (Hcodec : ∀ c, decode_checkpoint (encode_checkpoint c) = Some c).

(** What a later run would load. *)
Definition recorded s : checkpoint :=
  match dk_tree (is_disk s) !! cp with
  | Some (NFile data) => default (mkCheckpoint [] ∅) (decode_checkpoint data)
  | _ => mkCheckpoint [] ∅
  end.

Definition with_disk s (d : Disk) : Import St := mkImport (is_world s) (is_arts s) d (is_calls s) (is_imported s) (is_exps s).

Lemma save_ok s : writable cp part (dk_tree (is_disk s)) →
  ∃ d, saveCheckpoint wd m s = (inr tt, with_disk s d) ∧ writable cp part (dk_tree d) ∧
    recorded (with_disk s d) = mkCheckpoint (elements (is_imported s)) (is_exps s).
Proof.
  intros [Hwf Hdir [Hcp Hpart]]. destruct Hplace as [Hset Ecp Epart [Hn1 Hn2] [Hne Hrl]].
  destruct (ends_in_replace (os := ImpFile) Hnf part cp (encode_checkpoint (mkCheckpoint (elements (is_imported s)) (is_exps s))) (is_disk s))
    as (t & [k E] & Hwft & Hd & Hp & Hrest); [done..|].
  exists (mkDisk t k). split; [|split].
  - unfold saveCheckpoint. rewrite decide_False by done. unfold mbind at 1, Imp_bind, state. cbv zeta. rewrite Ecp, Epart. unfold on_disk. by rewrite E.
  - split; [done| |cbn; rewrite Hd, Hp; done]. cbn. rewrite Hrest; [done|..]; intros E'; rewrite E' in Hdir; done.
  - unfold recorded. cbn. by rewrite Hd, Hcodec.
Qed.

Lemma load_ok s : writable cp part (dk_tree (is_disk s)) →
  ∃ d, dk_tree d = dk_tree (is_disk s) ∧
    loadCheckpoint wd m s = (inr tt, mkImport (is_world s) (is_arts s) d (is_calls s) (list_to_set (cp_ImportedRunIDs (recorded s))) (cp_Experiments (recorded s))).
Proof.
  intros [Hwf Hdir [Hcp Hpart]]. destruct Hplace as [Hset Ecp _ [Hn _] _].
  unfold loadCheckpoint. unfold mbind at 1, Imp_bind. cbn [set_maps]. rewrite decide_False by done.
  unfold read_checkpoint. rewrite Ecp. unfold recorded. destruct (dk_tree (is_disk s) !! cp) as [[|data]|] eqn:E; [done|..].
  - destruct (ends_in_Stat (os := ImpFile) Hnf cp (is_disk s) _ Hwf Hn E) as [k Ek]. exists (mkDisk (dk_tree (is_disk s)) k). split; [done|].
    unfold mbind at 1, Imp_bind, mbind at 1, Imp_bind, outcome, on_disk. cbn [is_disk]. rewrite Ek. cbn. by destruct (decode_checkpoint data).
  - exists (mkDisk (dk_tree (is_disk s)) (S (dk_tick (is_disk s)))). split; [done|].
    unfold mbind at 1, Imp_bind, mbind at 1, Imp_bind, outcome, on_disk. cbn [is_disk].
    unfold os_Stat, syscall. rewrite has_nul_absolute, Hnf, components_absolute by (done || apply Hn).
    assert (lookup_path (dk_tree (is_disk s)) [] cp = inl ENOENT) as ->; [|done].
    by apply lookup_missing.
Qed.

(** *** The loops *)

Context (Hwet : im_DryRun m = false).
(** The runs that the checkpoint named at the start. *)
Context (loaded : list string).

Record inv s : Prop := {
  iv_disk : writable cp part (dk_tree (is_disk s));
  iv_exps : cp_Experiments (recorded s) = is_exps s;
  iv_runs id : id ∈ is_imported s → id ∈ cp_ImportedRunIDs (recorded s) ∨ is_Some (runs (db s) !! id);
  iv_stored id : id ∈ is_imported s → id ∈ loaded ∨ id = EmptyString ∨ is_Some (runs (db s) !! id);
  iv_seq : 0 ≤ seq_no (experiments (db s))
}.

(** The experiment of the source has one in the store. *)
Definition located s (k : string) : Prop := ∃ id, is_exps s !! k = Some id ∧ is_Some (rows (experiments (db s)) !! id).

Record advance s s' : Prop := {
  ad_grows : grows (db s) (db s');
  ad_imported : is_imported s ⊆ is_imported s';
  ad_located k : located s k → located s' k
}.
#[local] Instance advance_trans : Transitive advance.
Proof. intros s1 s2 s3 [? ? ?] [? ? ?]. split; [by etransitivity|by etransitivity|auto]. Qed.

Lemma bind_inr_inv {A B} (c : Imp St A) (f : A → Imp St B) s b s' :
  (c ≫= f) s = (inr b, s') → ∃ a s1, c s = (inr a, s1) ∧ f a s1 = (inr b, s').
Proof. unfold mbind, Imp_bind. destruct (c s) as [[e|a] s1]; [done|]. eauto. Qed.

Lemma outcome_inv {A} (c : Imp St A) s r s' : outcome c s = (inr r, s') → c s = (r, s').
Proof. unfold outcome. destruct (c s). by intros [= <- <-]. Qed.

Lemma adds_inv {A} (c : Imp St A) s r s' : Adds c → inv s → c s = (r, s') →
  inv s' ∧ advance s s' ∧ is_imported s' = is_imported s ∧ is_exps s' = is_exps s.
Proof.
  intros Hc [Hd He Hr Hs Hq] E. destruct (Hc s) as (Hg & Hi & Hx & Hk). rewrite E in Hg, Hi, Hx, Hk. cbn in *.
  assert (recorded s' = recorded s) as Hrec by (unfold recorded; by rewrite Hk).
  destruct Hg as (Hg1 & Hg2 & Hg3). split; [|split; [|done]].
  - split; [by rewrite Hk|by rewrite Hrec, Hx| | |auto]; intros id; rewrite Hi, ?Hrec; [intros [?|?]%Hr|intros [?|[?|?]]%Hs]; auto.
  - split; [done|by rewrite Hi|]. intros k (id & Hk1 & Hk2). exists id. rewrite Hx. auto.
Qed.

(** New maps are recorded. *)
Lemma save_inv s r s' imported exps : inv s → is_imported s ⊆ imported →
  (∀ id, id ∈ imported → id ∈ loaded ∨ id = EmptyString ∨ is_Some (runs (db s) !! id)) → (∀ k, located s k → located (mkImport (is_world s) (is_arts s) (is_disk s) (is_calls s) imported exps) k) →
  (_ ← set_maps imported exps; outcome (saveCheckpoint wd m)) s = (r, s') →
  inv s' ∧ advance s s' ∧ is_imported s' = imported ∧ is_exps s' = exps.
Proof.
  intros [Hd He Hr Hs Hq] Hi Hst Hl E. set (s1 := mkImport (is_world s) (is_arts s) (is_disk s) (is_calls s) imported exps).
  destruct (save_ok s1 Hd) as (d & E1 & Hd' & Hrec).
  assert (s' = with_disk s1 d) as ->.
  { unfold mbind, Imp_bind in E. cbn [set_maps] in E. fold s1 in E. unfold outcome in E. rewrite E1 in E. by injection E. }
  split; [|split; [|done]].
  - split; [done|by rewrite Hrec| |exact Hst|done]. intros id Hid. left. rewrite Hrec. cbn. by apply elem_of_elements.
  - split; [done|done|exact Hl].
Qed.

Definition run_id (run : mlflowRun) : string := mi_RunID (mr_Info run).

Lemma import_data_counts r info data s rs s' : import_data fuel m r info data s = (inr rs, s') → st_Experiments rs = 0 ∧ st_Runs rs = 1 ∧ st_Skipped rs = 0.
Proof. unfold import_data. intros E. do 5 apply bind_inr_inv in E as (? & ? & _ & E). by injection E as <- <-. Qed.

(** A run that is imported was created, or there before, and then filled. *)
Lemma importRun_inr e run s rs s' : importRun new_id fuel m e run s = (inr rs, s') →
  ∃ o w1, CreateRun (new_id (is_calls s)) (run_of e (mr_Info run)) (is_world s) = (o, w1) ∧
    match o with Ok _ | Err ErrAlreadyExists => True | _ => False end ∧
    import_data fuel m (run_of e (mr_Info run)) (mr_Info run) (mr_Data run) (mkImport w1 (is_arts s) (is_disk s) (is_calls s) (is_imported s) (is_exps s)) = (inr rs, s').
Proof.
  unfold importRun. rewrite Hwet. intros (a & s1 & [= <- <-] & E)%bind_inr_inv. cbv zeta in E. apply bind_inr_inv in E as (c & s2 & E2%outcome_inv & E).
  unfold on_store in E2. destruct (CreateRun _ _ _) as [o w1]. exists o, w1. split; [done|]. injection E2 as <- <-.
  destruct o as [r|e0]; [done|]. destruct e0; try discriminate E. done.
Qed.

Lemma CreateRun_exists newID r w o w' : run_ID r ≠ EmptyString → run_ParentRunID r = EmptyString → CreateRun newID r w = (o, w') →
  match o with Ok _ | Err ErrAlreadyExists => is_Some (runs (w_db w') !! run_ID r) | Err _ => True end.
Proof.
  intros Hid Hpar. unfold CreateRun. assert (default_to (run_ID r) newID = run_ID r) as -> by (unfold default_to; by rewrite decide_False). cbv zeta.
  set (st := if decide (run_StartTime r = 0) then time_now else mret (run_StartTime r)).
  assert (∃ x w1, st w = (Ok x, w1) ∧ w_db w1 = w_db w) as (x & w1 & Est & Hw1) by (unfold st; case_decide; eexists _, _; done).
  erewrite bind_Ok by exact Est. cbn [run_ParentRunID]. rewrite decide_True by done. unfold mbind, M_bind, map_err.
  destruct (insert_run _ _ w1) as [o1 w2] eqn:Ei. unfold insert_run in Ei. rewrite get_bind in Ei. destruct (negb _); [injection Ei as <- <-; by intros [= <- <-]|].
  unfold run_exists in Ei. case_bool_decide as Hex; [injection Ei as <- <-; by intros [= <- <-]|].
  case_decide; [|injection Ei as <- <-; by intros [= <- <-]]. injection Ei as <- <-. intros [= <- <-]. by apply lookup_insert_is_Some; left.
Qed.

Lemma importRun_exists e run s rs s' : importRun new_id fuel m e run s = (inr rs, s') →
  run_id run = EmptyString ∨ is_Some (runs (db s') !! run_id run).
Proof.
  destruct (decide (run_id run = EmptyString)) as [?|Hne]; [by left|]. right. destruct (importRun_inr e run s rs s') as (o & w1 & Ec & Ho & E); [done|].
  apply CreateRun_exists in Ec; [|done|done]. assert (is_Some (runs (w_db w1) !! run_id run)) as Hs by (destruct o as [|[]]; done).
  match type of E with _ ?s1 = _ => destruct (import_data_adds (run_of e (mr_Info run)) (mr_Info run) (mr_Data run) s1) as ((Hg & _) & _) end.
  rewrite E in Hg. by apply Hg.
Qed.

Lemma import_one_inv e run s rs s' : inv s → import_one wd new_id fuel m e run s = (inr rs, s') →
  inv s' ∧ advance s s' ∧ st_Experiments rs = 0 ∧
  ((st_Runs rs = 1 ∧ st_Skipped rs = 0 ∧ mi_RunID (mr_Info run) ∈ is_imported s') ∨ st_Skipped rs = 1).
Proof.
  intros Hinv. unfold import_one. cbv zeta. intros (a & s1 & [= <- <-] & E)%bind_inr_inv. set (id := mi_RunID (mr_Info run)) in *.
  case_decide as Hin; [injection E as <- <-; split_and!; [done|by split|done|by left]|]. rewrite Hwet in E.
  apply bind_inr_inv in E as (r & s2 & E1%outcome_inv & E). destruct (adds_inv (on_store (GetRun id)) s r s2 ltac:(apply _) Hinv E1) as (Hinv2 & Had & Hi2 & Hx2).
  destruct r as [err|run0].
  - assert (import_fresh wd new_id fuel m e run s2 = (inr rs, s') ∨ (rs = one_skipped ∧ s' = s2)) as [E'|[-> ->]].
    { destruct err; try (right; by injection E as <- <-). destruct e0; try (right; by injection E as <- <-). by left. }
    + unfold import_fresh in E'. apply bind_inr_inv in E' as (r & s3 & E3%outcome_inv & E').
      destruct (adds_inv _ s2 r s3 ltac:(apply _) Hinv2 E3) as (Hinv3 & Had3 & Hi3 & Hx3). destruct r as [e3|rs3].
      { injection E' as <- <-. split_and!; [done|by etransitivity|done|by right]. }
      rewrite Hwet in E'. pose proof (importRun_exists _ _ _ _ _ E3) as Hex. apply importRun_inr in E3 as (o & w1 & _ & _ & (C1 & C2 & C3)%import_data_counts).
      unfold mark_imported in E'.
      apply bind_inr_inv in E' as (u & s4 & E4 & E'). apply bind_inr_inv in E4 as (x & s5 & [= <- <-] & E4). injection E4 as _ <-.
      apply bind_inr_inv in E' as (r5 & s5 & E5 & E'). injection E' as <- <-.
      destruct (save_inv s3 (inr r5) s5 ({[ id ]} ∪ is_imported s3) (is_exps s3) Hinv3 (union_subseteq_r _ _)) as (Hinv5 & Had5 & Hi5 & _); [|done|exact E5|].
      { intros i [->%elem_of_singleton|Hi]%elem_of_union; [by right|by apply Hinv3]. }
      split_and!; [done|by do 2 (etransitivity; [eassumption|])|done|]. left. rewrite Hi5. split_and!; [done|done|by apply elem_of_union_l, elem_of_singleton].
    + split_and!; [done|done|done|by right].
  - unfold mark_imported in E. apply bind_inr_inv in E as (u & s4 & E4 & E'). apply bind_inr_inv in E4 as (x & s5 & [= <- <-] & E4). injection E4 as _ <-.
    injection E' as <- <-. assert (is_Some (runs (db s2) !! id)) as Hrun.
    { unfold on_store in E1. destruct (GetRun id (is_world s)) as [[]] eqn:Eg; [|done]. injection E1 as <- <-. cbn. unfold GetRun in Eg. rewrite get_bind in Eg.
      destruct (runs _ !! id) eqn:El; [|done]. injection Eg as <- <-. rewrite El. eauto. }
    destruct Hinv2 as [Hd He Hr Hst Hq]. split_and!; [| |done|left; split_and!; [done|done|cbn; by apply elem_of_union_l, elem_of_singleton]].
    + split; [done|done| | |done]; cbn; intros i [->%elem_of_singleton|Hi]%elem_of_union; auto.
    + destruct Had as [Hg Hi Hl]. split; [done|cbn; etransitivity; [exact Hi|apply union_subseteq_r]|exact Hl].
Qed.

Lemma import_runs_inv e l stats s stats' s' : inv s → import_runs wd new_id fuel m e l stats s = (inr stats', s') →
  inv s' ∧ advance s s' ∧ st_Experiments stats' = st_Experiments stats ∧ st_Skipped stats ≤ st_Skipped stats' ∧
  (st_Skipped stats' = st_Skipped stats → st_Runs stats' = st_Runs stats + Z.of_nat (length l) ∧ ∀ run, run ∈ l → run_id run ∈ is_imported s').
Proof.
  revert stats s. induction l as [|run l IH]; intros stats s Hinv; cbn [import_runs].
  { intros [= <- <-]. split_and!; [done|by split|done|lia|]. intros _. split; [cbn; lia|]. by intros ? ?%elem_of_nil. }
  intros (rs & s1 & E1 & E)%bind_inr_inv. destruct (import_one_inv e run s rs s1 Hinv E1) as (Hinv1 & Had1 & Hx1 & Hcase).
  destruct (IH _ _ Hinv1 E) as (Hinv2 & Had2 & Hx2 & Hsk & Hall). cbn [add_stats st_Experiments st_Skipped st_Runs] in *.
  split_and!; [done|by etransitivity|lia|destruct Hcase as [(_ & ? & _)|?]; lia|]. intros Heq.
  destruct Hcase as [(C1 & C2 & C3)|?]; [|lia]. destruct Hall as [Hr Hin]; [lia|]. split; [cbn [length]; lia|].
  intros run' [->|Hrun']%elem_of_cons; [|auto]. by apply (ad_imported _ _ Had2).
Qed.

Lemma CreateExperiment_id e w id w' : CreateExperiment e w = (Ok id, w') →
  is_Some (rows (experiments (w_db w')) !! id) ∧ id = seq_no (experiments (w_db w)) + 1.
Proof.
  unfold CreateExperiment. intros (u & w1 & Hv & Hx)%bind_exec_Ok. injection Hv as _ <-. rewrite now_bind in Hx. cbv zeta in Hx.
  apply bind_exec_Ok in Hx as (id' & w2 & (-> & _ & _ & _ & ->)%map_err_exec_Ok%insert_experiment_exec & Hx).
  match type of Hx with (?c1 ≫= ?c2) ?w0 = _ => assert (Preserves (grows (w_db w0)) (c1 ≫= c2)) as Hp end.
  { pres_auto. apply for_each_pres. intros t _. apply _. }
  specialize (Hp _ (reflexivity _)). rewrite Hx in Hp. destruct Hp as (_ & He & _).
  match type of Hx with (?c1 ≫= ?c2) ?w0 = _ => assert (id = seq_no (experiments (w_db w)) + 1) as -> end.
  { apply bind_exec_Ok in Hx as (? & ? & _ & Hx). apply bind_exec_Ok in Hx as (? & ? & _ & Hx). by injection Hx. }
  split; [|done]. apply He. cbn. rewrite lookup_insert_eq. eauto.
Qed.

Lemma on_store_inr {A} (c : M A) s a s' : on_store c s = (inr a, s') → c (is_world s) = (Ok a, is_world s').
Proof. unfold on_store. destruct (c (is_world s)) as [[x|x] w]; [|done]. by intros [= <- <-]. Qed.

Lemma import_new_id exp s id s' : 0 ≤ seq_no (experiments (db s)) → import_new m exp s = (inr id, s') →
  is_Some (rows (experiments (db s')) !! id) ∧ 1 ≤ id.
Proof.
  intros Hq. unfold import_new. intros (id' & s1 & E1 & E)%bind_inr_inv. apply bind_inr_inv in E as (n & s2 & E2 & [= -> ->]).
  assert (is_Some (rows (experiments (db s1)) !! id) ∧ 1 ≤ id) as [Hs Hid].
  { unfold create_experiment in E1. cbv zeta in E1. apply bind_inr_inv in E1 as (r & s3 & E3%outcome_inv & E1).
    destruct (on_store_adds (CreateExperiment (mkExperiment 0 (me_Name exp) "" (lifecycle_of (me_LifecycleStage exp)) 0 0 (workspace m) [])) _ s) as ((_ & _ & Hq3) & _).
    rewrite E3 in Hq3. cbn in Hq3. specialize (Hq3 Hq). destruct r as [err|id0].
    - destruct err as [| | |e0| | |]; try discriminate E1. destruct e0; try discriminate E1.
      apply bind_inr_inv in E1 as (ts & s4 & E4%on_store_inr & E1%on_store_inr%CreateExperiment_id). injection E4 as _ E4.
      destruct E1 as [Hs ->]. split; [done|]. rewrite <- E4. cbn. lia.
    - injection E1 as <- <-. apply on_store_inr, CreateExperiment_id in E3 as [Hs ->]. split; [done|lia]. }
  split; [|done]. destruct (count_ok_adds (λ t, on_store (SetExperimentTag id (kv_Key t) (kv_Value t))) (me_Tags exp) _ s1) as ((_ & He & _) & _).
  rewrite E2 in He. auto.
Qed.

Lemma GetExperiment_run id w : GetExperiment id w =
  (match rows (experiments (w_db w)) !! id with Some r => Ok (scan_experiment id r (getExperimentTags (w_db w) id)) | None => Err ErrNotFound end, w).
Proof. unfold GetExperiment. rewrite get_bind. by destruct (rows _ !! id). Qed.

Lemma importExperiment_id exp s id s' : inv s → importExperiment m exp s = (inr id, s') →
  is_Some (rows (experiments (db s')) !! id) ∧ (is_exps s !! me_ExperimentID exp = Some id ∨ 1 ≤ id).
Proof.
  intros Hinv. unfold importExperiment. rewrite Hwet. intros (a & s1 & [= <- <-] & E)%bind_inr_inv.
  destruct (is_exps s !! _) as [id0|] eqn:Hk; [|apply import_new_id in E as [??]; [auto|apply Hinv]].
  apply bind_inr_inv in E as (r & s2 & E2%outcome_inv & E). unfold on_store in E2. rewrite GetExperiment_run in E2.
  destruct (rows _ !! id0) as [row|] eqn:Hrow.
  - injection E2 as <- <-. injection E as <- <-. cbn. rewrite Hrow. eauto.
  - injection E2 as <- <-. apply import_new_id in E as [??]; [auto|apply Hinv].
Qed.

Lemma experiment_runs_inv by_exp exp stats s stats' s' : inv s →
  import_experiment_runs wd new_id fuel m by_exp exp stats s = (inr stats', s') →
  let l := default [] (by_exp !! me_ExperimentID exp) in
  inv s' ∧ advance s s' ∧ located s' (me_ExperimentID exp) ∧ st_Experiments stats' = st_Experiments stats + 1 ∧ st_Skipped stats ≤ st_Skipped stats' ∧
  (st_Skipped stats' = st_Skipped stats → st_Runs stats' = st_Runs stats + Z.of_nat (length l) ∧ ∀ run, run ∈ l → run_id run ∈ is_imported s').
Proof.
  intros Hinv. unfold import_experiment_runs. intros (id & s1 & E1 & E)%bind_inr_inv. cbv zeta.
  destruct (importExperiment_id exp s id s1 Hinv E1) as [Hid Hcase]. destruct (adds_inv _ s _ s1 ltac:(apply _) Hinv E1) as (Hinv1 & Had1 & Hi1 & Hx1).
  apply bind_inr_inv in E as (a & s2 & [= <- <-] & E). rewrite Hwet in E. cbn [negb andb] in E.
  apply bind_inr_inv in E as (u & s3 & E3 & E).
  assert (inv s3 ∧ advance s1 s3 ∧ located s3 (me_ExperimentID exp)) as (Hinv3 & Had3 & Hloc).
  { destruct (default 0 (is_exps s1 !! me_ExperimentID exp) =? id) eqn:Hd; cbn [negb] in E3.
    - injection E3 as _ <-. split_and!; [done|by split|]. exists id. split; [|done]. apply Z.eqb_eq in Hd. rewrite Hx1 in *.
      destruct (is_exps s !! me_ExperimentID exp) as [id'|] eqn:Hk; [cbn in Hd; by subst|]. destruct Hcase as [?|?]; [done|]. cbn in Hd. lia.
    - apply bind_inr_inv in E3 as (u1 & s4 & E4 & E3). apply bind_inr_inv in E3 as (r5 & s5 & E5 & E3). injection E3 as _ <-.
      destruct (save_inv s1 (inr r5) s5 (is_imported s1) (<[me_ExperimentID exp := id]> (is_exps s1)) Hinv1) as (Hinv5 & Had5 & Hi5 & Hx5); [done|apply Hinv1| | |].
      + intros k (id' & Hk & Hs). unfold located. cbn. destruct (decide (k = me_ExperimentID exp)) as [->|].
        * exists id. by rewrite lookup_insert_eq.
        * exists id'. by rewrite lookup_insert_ne.
      + unfold mbind, Imp_bind. rewrite E4. exact E5.
      + split_and!; [done|done|]. exists id. rewrite Hx5, lookup_insert_eq. split; [done|]. by apply (proj1 (proj2 (ad_grows _ _ Had5))). }
  destruct (import_runs_inv id _ _ s3 stats' s' Hinv3 E) as (Hinv' & Had' & Hx' & Hsk & Hall).
  cbn [add_stats one_experiment st_Experiments st_Skipped st_Runs] in *. rewrite !Z.add_0_r in *.
  split_and!; [done|by do 2 (etransitivity; [eassumption|])|by apply (ad_located _ _ Had')|done|done|done].
Qed.

(** The runs of the listing. *)
Definition listed (by_exp : gmap string (list mlflowRun)) (exps : list mlflowExperiment) : list mlflowRun :=
  exps ≫= λ exp, default [] (by_exp !! me_ExperimentID exp).

Lemma import_all_inv by_exp exps stats s stats' s' : inv s → import_all wd new_id fuel m by_exp exps stats s = (inr stats', s') →
  inv s' ∧ advance s s' ∧ (∀ exp, exp ∈ exps → located s' (me_ExperimentID exp)) ∧ st_Experiments stats' = st_Experiments stats + Z.of_nat (length exps) ∧
  st_Skipped stats ≤ st_Skipped stats' ∧
  (st_Skipped stats' = st_Skipped stats → st_Runs stats' = st_Runs stats + Z.of_nat (length (listed by_exp exps)) ∧
     ∀ run, run ∈ listed by_exp exps → run_id run ∈ is_imported s').
Proof.
  revert stats s. induction exps as [|exp exps IH]; intros stats s Hinv; cbn [import_all].
  { intros [= <- <-]. split_and!; [done|by split|by intros ? ?%elem_of_nil|cbn; lia|lia|]. intros _. split; [cbn; lia|]. by intros ? ?%elem_of_nil. }
  intros (st1 & s1 & E1 & E)%bind_inr_inv. destruct (experiment_runs_inv by_exp exp stats s st1 s1 Hinv E1) as (Hinv1 & Had1 & Hl1 & Hx1 & Hs1 & Ha1).
  destruct (IH _ _ Hinv1 E) as (Hinv2 & Had2 & Hl2 & Hx2 & Hs2 & Ha2). split_and!; [done|by etransitivity| |cbn [length]; lia|lia|].
  - intros exp' [->|?]%elem_of_cons; [by apply (ad_located _ _ Had2)|auto].
  - intros Heq. destruct Ha1 as [R1 I1]; [lia|]. destruct Ha2 as [R2 I2]; [lia|]. unfold listed in *. cbn [mbind list_bind]. rewrite length_app.
    split; [lia|]. intros run [Hr|Hr]%elem_of_app; [by apply (ad_imported _ _ Had2), I1|by apply I2].
Qed.

(** *** A second run *)

(** Nothing is left to do for these runs. *)
Definition settled s (l : list mlflowRun) : Prop := ∀ run, run ∈ l → run_id run ∈ is_imported s ∨ is_Some (runs (db s) !! run_id run).

(** Only what is known about imported runs differs. *)
Definition marked s s' : Prop :=
  is_world s' = is_world s ∧ is_arts s' = is_arts s ∧ is_disk s' = is_disk s ∧ is_exps s' = is_exps s ∧ is_imported s ⊆ is_imported s'.

#[local] Instance marked_trans : Transitive marked.
Proof. intros s1 s2 s3 (? & ? & ? & ? & ?) (? & ? & ? & ? & ?). split_and!; etransitivity; eassumption. Qed.

Lemma settled_marked s s' l : marked s s' → settled s l → settled s' l.
Proof. intros (Hw & _ & _ & _ & Hi) Hs run [?|?]%Hs; [left; by apply Hi|right; by rewrite Hw]. Qed.

Lemma settled_one e run l s : settled s (run :: l) → ∃ s', import_one wd new_id fuel m e run s = (inr one_run, s') ∧ marked s s'.
Proof.
  intros Hs. unfold import_one. cbv zeta. unfold mbind at 1, Imp_bind, state. cbn beta iota. fold (run_id run).
  case_decide as Hin; [by exists s|]. rewrite Hwet. destruct (Hs run) as [?|[r Hr]]; [left|done|].
  eexists. split.
  - unfold mbind at 1, Imp_bind, outcome, on_store. unfold GetRun. rewrite get_bind, Hr. cbn. reflexivity.
  - split_and!; [by destruct (is_world s)|done|done|done|]. cbn. apply union_subseteq_r.
Qed.

Lemma settled_runs e l stats s : settled s l →
  ∃ s', import_runs wd new_id fuel m e l stats s = (inr (add_stats stats (mkStats 0 (Z.of_nat (length l)) 0 0 0 0 0)), s') ∧ marked s s'.
Proof.
  revert stats s. induction l as [|run l IH]; intros stats s Hs; cbn [import_runs].
  { exists s. split; [|done]. unfold mret, Imp_ret. do 2 f_equal. destruct stats. unfold add_stats. cbn. f_equal; lia. }
  destruct (settled_one e run l s Hs) as (s1 & E1 & Hm1). destruct (IH (add_stats stats one_run) s1) as (s2 & E2 & Hm2).
  { intros run' Hr. apply (settled_marked s s1 (run :: l)); [done|done|by right]. }
  exists s2. split; [|by etransitivity]. unfold mbind, Imp_bind. rewrite E1, E2. do 2 f_equal. destruct stats. unfold add_stats. cbn. f_equal; lia.
Qed.

Lemma settled_all by_exp exps stats s : settled s (listed by_exp exps) → (∀ exp, exp ∈ exps → located s (me_ExperimentID exp)) →
  ∃ s', import_all wd new_id fuel m by_exp exps stats s =
    (inr (add_stats stats (mkStats (Z.of_nat (length exps)) (Z.of_nat (length (listed by_exp exps))) 0 0 0 0 0)), s') ∧ marked s s'.
Proof.
  revert stats s. induction exps as [|exp exps IH]; intros stats s Hs Hl; cbn [import_all].
  { exists s. split; [|done]. unfold mret, Imp_ret. do 2 f_equal. destruct stats. unfold add_stats. cbn. f_equal; lia. }
  assert (settled s (default [] (by_exp !! me_ExperimentID exp))) as Hs1 by (intros run Hr; apply Hs; unfold listed; cbn; apply elem_of_app; by left).
  destruct (Hl exp) as (id & Hid & Hrow); [left|]. destruct (settled_runs id _ (add_stats stats one_experiment) s Hs1) as (s1 & E1 & Hm1).
  destruct (IH (add_stats (add_stats stats one_experiment) (mkStats 0 (Z.of_nat (length (default [] (by_exp !! me_ExperimentID exp)))) 0 0 0 0 0)) s1) as (s2 & E2 & Hm2).
  { apply (settled_marked s); [done|]. intros run Hr. apply Hs. unfold listed. cbn. apply elem_of_app. by right. }
  { intros exp' He. destruct (Hl exp') as (id' & H1' & H2'); [by right|]. destruct Hm1 as (Hw & _ & _ & Hx & _). exists id'. by rewrite Hx, Hw. }
  exists s2. split; [|by etransitivity]. unfold mbind at 1, Imp_bind. unfold import_experiment_runs.
  assert (importExperiment m exp s = (inr id, s)) as Ei.
  { unfold importExperiment. rewrite Hwet. unfold mbind at 1, Imp_bind, state. rewrite Hid. unfold mbind at 1, Imp_bind, outcome, on_store.
    rewrite GetExperiment_run. destruct Hrow as [r ->]. by destruct s. }
  unfold mbind at 1, Imp_bind. rewrite Ei. unfold mbind at 1, Imp_bind, state. rewrite Hwet, Hid. cbn [default negb andb]. rewrite Z.eqb_refl. cbn [negb].
  unfold mbind at 1, Imp_bind. cbn [mret Imp_ret]. rewrite E1, E2. do 2 f_equal. unfold listed. cbn [mbind list_bind length]. rewrite length_app. destruct stats. unfold add_stats. cbn. f_equal; lia.
Qed.

(** The state from which the loops start. *)
Definition started s (d : Disk) (k : nat) : Import St :=
  mkImport (is_world s) (is_arts s) d k (list_to_set (cp_ImportedRunIDs (recorded s))) (cp_Experiments (recorded s)).

Lemma asks_inr {A} (c : Imp St A) r a s s' : asks c r → c s = (inr a, s') → asks c (inr a) ∧ ∃ k, s' = called s k.
Proof. intros Hc E. destruct (Hc s) as [k Ek]. rewrite Ek in E. injection E as -> <-. eauto. Qed.

Lemma run_parts s stats s1 : writable cp part (dk_tree (is_disk s)) → Importer_Run wd new_id fuel m s = (inr stats, s1) →
  ∃ exps by_exp d k, asks (probeMLflow m) (inr tt) ∧ asks (listExperiments fuel m) (inr exps) ∧ asks (list_all fuel m exps ∅) (inr by_exp) ∧
    dk_tree d = dk_tree (is_disk s) ∧ import_all wd new_id fuel m by_exp exps no_stats (started s d k) = (inr stats, s1).
Proof.
  intros Hw. unfold Importer_Run. intros ([] & s2 & E2 & E)%bind_inr_inv. destruct asks_probe as [rp Hp]. destruct (asks_inr _ _ _ _ _ Hp E2) as [Hp' [k ->]].
  apply bind_inr_inv in E as ([] & s3 & E3 & E). destruct (load_ok (called s k) Hw) as (d & Hd & El). rewrite El in E3. injection E3 as <-.
  apply bind_inr_inv in E as (exps & s4 & E4 & E). destruct asks_experiments as [re He]. destruct (asks_inr _ _ _ _ _ He E4) as [He' [k4 ->]].
  apply bind_inr_inv in E as (by_exp & s5 & E5 & E). destruct (asks_list_all exps ∅) as [rl Hl]. destruct (asks_inr _ _ _ _ _ Hl E5) as [Hl' [k5 ->]].
  by exists exps, by_exp, d, k5.
Qed.

Lemma run_from s exps by_exp : writable cp part (dk_tree (is_disk s)) →
  asks (probeMLflow m) (inr tt) → asks (listExperiments fuel m) (inr exps) → asks (list_all fuel m exps ∅) (inr by_exp) →
  ∃ d k, dk_tree d = dk_tree (is_disk s) ∧ Importer_Run wd new_id fuel m s = import_all wd new_id fuel m by_exp exps no_stats (started s d k).
Proof.
  intros Hw Hp He Hl. destruct (Hp s) as [k Ep]. destruct (load_ok (called s k) Hw) as (d & Hd & El).
  destruct (He (started s d k)) as [k2 Ee]. destruct (Hl (called (started s d k) k2)) as [k3 El2]. exists d, k3. split; [done|].
  unfold Importer_Run. unfold mbind at 1, Imp_bind. rewrite Ep. unfold mbind at 1, Imp_bind. rewrite El. unfold mbind at 1, Imp_bind.
  change (mkImport _ _ d _ _ _) with (started s d k). rewrite Ee. unfold mbind at 1, Imp_bind. by rewrite El2.
Qed.
End importer.

(** C35: an import can be resumed.  Take a source that answers alike every time
    and a checkpoint that can be written.  When an import ends without a
    skipped run, it has counted every listed run, and each of them is in the
    store (unless an earlier checkpoint named it, or it has no id), and every
    listed experiment has its experiment there.  A second import then succeeds;
    it counts the same experiments and runs, no metric, parameter, tag or
    artifact and nothing as skipped, and changes neither the store nor an
    artifact nor the checkpoint. *)
Theorem import_resumes `{Clock} `{Faults} `{Source} {St} `{ArtifactStore St} wd new_id fuel m cp part (s s1 : Import St) stats :
  stable → (∀ n, io_fault n = false) → (∀ c, decode_checkpoint (encode_checkpoint c) = Some c) →
  checkpoint_place wd m cp part → writable cp part (dk_tree (is_disk s)) → im_DryRun m = false → 0 ≤ seq_no (experiments (w_db (is_world s))) →
  Importer_Run wd new_id fuel m s = (inr stats, s1) → st_Skipped stats = 0 →
  ∃ exps by_exp, asks (St := St) (listExperiments fuel m) (inr exps) ∧ asks (St := St) (list_all fuel m exps ∅) (inr by_exp) ∧
    st_Experiments stats = Z.of_nat (length exps) ∧ st_Runs stats = Z.of_nat (length (listed by_exp exps)) ∧
    (∀ exp, exp ∈ exps → located s1 (me_ExperimentID exp)) ∧
    (∀ run, run ∈ listed by_exp exps → run_id run ∈ cp_ImportedRunIDs (recorded cp s) ∨ run_id run = EmptyString ∨
       is_Some (runs (w_db (is_world s1)) !! run_id run)) ∧
    ∃ s2, Importer_Run wd new_id fuel m s1 = (inr (mkStats (st_Experiments stats) (st_Runs stats) 0 0 0 0 0), s2) ∧
      is_world s2 = is_world s1 ∧ is_arts s2 = is_arts s1 ∧ dk_tree (is_disk s2) = dk_tree (is_disk s1).
Proof.
  intros Hst Hnf Hcodec Hpl Hw Hwet Hq E Hsk.
  destruct (run_parts wd new_id fuel m Hst Hnf cp part Hpl s stats s1 Hw E) as (exps & by_exp & d & k & Hp & He & Hl & Hd & Ei).
  assert (inv cp part (cp_ImportedRunIDs (recorded cp s)) (started cp s d k)) as Hinv.
  { assert (recorded cp (started cp s d k) = recorded cp s) as Hr by (unfold recorded at 1; cbn; rewrite Hd; done).
    split; [cbn; by rewrite Hd|by rewrite Hr| | |done]; cbn; intros id Hid%elem_of_list_to_set; left; [by rewrite Hr|done]. }
  destruct (import_all_inv wd new_id fuel m Hnf cp part Hpl Hcodec Hwet _ by_exp exps no_stats _ stats s1 Hinv Ei) as (Hinv1 & _ & Hloc & Hx & _ & Hall).
  destruct Hall as [Hr Hin]; [done|]. cbn [no_stats st_Experiments st_Runs] in Hx, Hr. exists exps, by_exp.
  split; [done|]. split; [done|]. split; [lia|]. split; [lia|]. split; [done|]. split; [intros run Hrun; by apply Hinv1, Hin|].
  destruct (run_from wd new_id fuel m Hnf cp part Hpl s1 exps by_exp (iv_disk _ _ _ _ Hinv1) Hp He Hl) as (d2 & k2 & Hd2 & ->).
  destruct (settled_all wd new_id fuel m Hwet by_exp exps no_stats (started cp s1 d2 k2)) as (s2 & -> & Hw2 & Ha2 & Hd3 & _).
  - intros run Hrun. destruct (iv_runs _ _ _ _ Hinv1 _ (Hin run Hrun)) as [?|?]; [left; cbn; by apply elem_of_list_to_set|by right].
  - intros exp Hexp. destruct (Hloc exp Hexp) as (id & Hid & Hrow). exists id. split; [|done]. cbn. by rewrite (iv_exps _ _ _ _ Hinv1).
  - exists s2. split; [|split; [done|split; [done|by rewrite Hd3]]]. do 2 f_equal. unfold add_stats. cbn. f_equal; lia.
Qed.
