(* ===== verification/ImportLaws.v ===== *)
(** * What an import stores

    A run that is imported afresh has the fields, parameters, tags and metric
    histories of the source. *)

From Stdlib Require Import Ascii.
From S2P Require Import Prelude GoStrings Paths FileSystem Faultless Artifacts Model Float64 Database Events Runs Sample RunData Experiments Migrator MigratorLaws.

Open Scope Z_scope.

Definition valid_key (k : string) : bool := bool_decide (invalidValue (ValidKey k) = Ok tt).

(** ** Frames *)

Section frames.
Context `{Clock} {X : Type} (f : DB → X) (x : X).
Abbreviation P := (λ d, f d = x).

(** A column that depends on neither of the written tables. *)
Lemma LogParam_frame R p : (∀ d m, f (set_params m d) = f d) → Preserves P (LogParam R p).
Proof.
  intros Hf. unfold LogParam, assertRunExists. apply bind_pres; [apply _|]. intros _. apply bind_pres; [pres_auto|]. intros _.
  apply get_bind_pres. intros w Hw. destruct (params _ !! _); [by case_decide|]. case_match; [|done]. cbn. by rewrite Hf.
Qed.
Lemma LogMetrics_frame R ms : (∀ d m l, f (set_metrics_latest l (set_metrics m d)) = f d) → Preserves P (LogMetrics R ms).
Proof.
  intros Hf. assert (∀ y, Preserves P (insert_metric R y)).
  { intros y. unfold insert_metric. apply get_bind_pres. intros w Hw. cbv zeta. case_decide; [done|]. case_match; [|done]. cbn. by rewrite Hf. }
  unfold LogMetrics, assertRunExists. pres_auto. apply for_each_pres. intros y _. unfold log_one. pres_auto.
Qed.
Lemma update_run_frame R g : (∀ d m, f (set_runs m d) = f d) → Preserves P (update_run R g).
Proof.
  intros Hf. unfold update_run. apply get_bind_pres. intros w Hw. destruct (runs _ !! R); [|done]. cbv zeta. case_match; [done|].
  match goal with |- context [(if ?b then _ else fail SqlForeignKey) w] => destruct b end; [|done].
  unfold mbind, M_bind, modify. cbn [snd w_db mret M_ret]. by rewrite Hf.
Qed.
Lemma write_event_frame k R p : (∀ d m, f (set_events m d) = f d) → Preserves P (writeRunEvent k R p).
Proof. intros Hf. unfold writeRunEvent. apply bind_pres; [apply _|]. intros a. case_match; [|apply _]. apply modify_pres. intros d Hd. by rewrite Hf. Qed.
Lemma UpdateRun_frame R s e n : (∀ d m, f (set_runs m d) = f d) → (∀ d m, f (set_events m d) = f d) → Preserves P (UpdateRun R s e n).
Proof.
  intros Hf Hg. pose proof (λ g, update_run_frame R g Hf). pose proof (λ k p, write_event_frame k R p Hg).
  unfold UpdateRun, UpdateRun_tx, captureRunBefore, write_before. pres_auto.
Qed.
Lemma SetTag_frame R t : (∀ d m, f (set_runs m d) = f d) → (∀ d m, f (set_events m d) = f d) → (∀ d m, f (set_tags m d) = f d) → Preserves P (SetTag R t).
Proof.
  intros Hf Hg Ht. pose proof (λ g, update_run_frame R g Hf). pose proof (λ k p, write_event_frame k R p Hg).
  assert (∀ k v, Preserves P (upsert_tag R k v)).
  { intros k v. unfold upsert_tag. apply get_bind_pres. intros w Hw. case_match; [|done]. cbn. by rewrite Ht. }
  unfold SetTag, assertRunExists, readTagValue, syncParentRunIDFromTag, captureRunBefore, write_before. pres_auto.
Qed.
End frames.

(** ** Effects of the writes *)

Section effects.
Context `{Clock} (R : string).

Lemma valid_key_spec k : valid_key k = true ↔ invalidValue (ValidKey k) = Ok tt.
Proof. unfold valid_key. by rewrite bool_decide_eq_true. Qed.

Lemma assert_run w : is_Some (runs (w_db w) !! R) → assertRunExists R w = (Ok tt, w).
Proof. intros Hr. unfold assertRunExists. rewrite get_bind. by rewrite decide_True. Qed.

(** A parameter is stored unless it is there or its key is not valid. *)
Lemma LogParam_effect p w k : is_Some (runs (w_db w) !! R) →
  params (w_db (LogParam R p w).2) !! (R, k) =
  match params (w_db w) !! (R, k) with
  | Some v => Some v
  | None => if decide (param_Key p = k ∧ valid_key k = true) then Some (param_Value p) else None
  end.
Proof.
  intros Hr. unfold LogParam. destruct (invalidValue (ValidKey (param_Key p))) as [[]|e] eqn:Hv.
  - rewrite lift_Ok_bind. erewrite bind_Ok by by apply assert_run. rewrite get_bind.
    assert (valid_key (param_Key p) = true) as Hvk by by apply valid_key_spec.
    destruct (decide (param_Key p = k)) as [<-|Hne].
    + destruct (params (w_db w) !! (R, param_Key p)) as [v|] eqn:E; [by case_decide; cbn; rewrite E|].
      unfold run_exists. rewrite bool_decide_true by done. rewrite decide_True by done. cbn. by rewrite lookup_insert_eq.
    + rewrite (decide_False (P := _ ∧ _)) by tauto.
      assert (∀ o : option string, match o with Some v => Some v | None => None end = o) as -> by by intros [].
      destruct (params (w_db w) !! (R, param_Key p)) as [v|]; [by case_decide|]. unfold run_exists. rewrite bool_decide_true by done. cbn. by rewrite lookup_insert_ne by congruence.
  - rewrite lift_Err_bind. cbn. rewrite decide_False; [by destruct (params _ !! _)|]. intros [<- Hk%valid_key_spec]. congruence.
Qed.

(** A tag is stored when its key is valid; for the parent tag only that tag
    may change. *)
Lemma SetTag_effect t w k : is_Some (runs (w_db w) !! R) → k ≠ parentTag →
  tags (w_db (SetTag R t w).2) !! (R, k) = if decide (kv_Key t = k ∧ valid_key k = true) then Some (kv_Value t) else tags (w_db w) !! (R, k).
Proof.
  intros Hr Hk. destruct (decide (kv_Key t = k)) as [<-|Hne].
  - unfold SetTag. destruct (invalidValue (ValidKey (kv_Key t))) as [[]|e] eqn:Hv.
    + rewrite decide_True by (split; [done|by apply valid_key_spec]). rewrite lift_Ok_bind. erewrite bind_Ok by by apply assert_run.
      unfold readTagValue. rewrite bind_bind, get_bind, ret_bind. unfold transaction, upsert_tag. rewrite bind_bind, get_bind.
      unfold run_exists. rewrite (bool_decide_true (is_Some _)) by done. rewrite modify_bind. unfold writeRunEvent. rewrite bind_bind, now_bind.
      change (check_event_kind EventTagSet) with true. cbv iota. rewrite modify_bind. rewrite bool_decide_false by tauto. cbn. by rewrite lookup_insert_eq.
    + rewrite lift_Err_bind. cbn. rewrite decide_False; [done|]. intros [_ Hx%valid_key_spec]. congruence.
  - rewrite decide_False by tauto. set (P := λ d, tags d !! (R, k) = tags (w_db w) !! (R, k)).
    enough (Preserves P (SetTag R t)) as Hp by by apply (Hp w).
    assert (Preserves P (upsert_tag R (kv_Key t) (kv_Value t))).
    { unfold upsert_tag. apply get_bind_pres. intros w0 Hw. case_match; [|done]. unfold P. cbn. by rewrite lookup_insert_ne by congruence. }
    assert (∀ g, Preserves P (update_run R g)) by (intros g; by apply (update_run_frame (λ d, tags d !! (R, k)))).
    assert (∀ k p, Preserves P (writeRunEvent k R p)) by (intros k0 p; by apply (write_event_frame (λ d, tags d !! (R, k)))).
    unfold SetTag, assertRunExists, readTagValue, syncParentRunIDFromTag, captureRunBefore, write_before. pres_auto.
Qed.

(** A batch of valid observations that are not there is stored. *)
Lemma log_all_effect ms w : is_Some (runs (w_db w) !! R) →
  Forall (λ y, valid_key (metric_Key y) = true ∧ is_finite (metric_Value y) = true ∧ metric_Timestamp y ≠ 0) ms →
  NoDup (metric_pk R <$> ms) → (∀ y, y ∈ ms → metrics (w_db w) !! metric_pk R y = None) →
  ∃ w', for_each (log_one R) ms w = (Ok tt, w') ∧ ∀ y, y ∈ ms → metrics (w_db w') !! metric_pk R y = Some (metric_Value y).
Proof.
  intros Hr Hall. revert w Hr. induction Hall as [|y ms (Hv & Hf & Ht) _ IH]; intros w Hr Hnd Hnone.
  { exists w. split; [done|]. by intros ? ?%elem_of_nil. }
  cbn [fmap list_fmap] in Hnd. apply NoDup_cons in Hnd as [Hny Hnd]. cbn [for_each].
  set (w1 := mkWorld (set_metrics_latest (trg_metrics_latest_ai R y (metrics_latest (w_db w))) (set_metrics (<[metric_pk R y := metric_Value y]> (metrics (w_db w))) (w_db w))) (w_tick w)).
  assert (log_one R y w = (Ok tt, w1)) as E1.
  { unfold log_one. apply valid_key_spec in Hv. rewrite Hv, lift_Ok_bind. assert (IsNaN (metric_Value y) || IsInf (metric_Value y) = false) as -> by by destruct (metric_Value y).
    rewrite decide_False by done. rewrite ret_bind. unfold insert_metric. rewrite get_bind. cbn [metric_Key metric_Value metric_Timestamp metric_Step]. cbv zeta.
    rewrite decide_False; [|rewrite <- eq_None_not_Some; apply Hnone; left]. unfold run_exists. rewrite bool_decide_true by done. by destruct y. }
  destruct (IH w1) as (w' & E & Hst); [done|done| |].
  { intros z Hz. unfold w1. cbn. rewrite lookup_insert_ne; [apply Hnone; by right|]. intros Heq. apply Hny. rewrite Heq. by apply list_elem_of_fmap_2. }
  exists w'. split; [by erewrite bind_Ok by exact E1|]. intros z [->|Hz]%elem_of_cons; [|by apply Hst].
  destruct (log_all_exec R ms w1 w' tt E) as [Hg _]. apply Hg. unfold w1. cbn. apply lookup_insert_eq.
Qed.

(** Observations of other metrics do not get in the way. *)
Lemma LogMetrics_other key ms : Forall (λ y, metric_Key y ≠ key) ms →
  Preserves (λ d, ∀ o, metrics d !! (R, key, o) = None) (LogMetrics R ms).
Proof.
  intros Hall. set (P := λ d, ∀ o, metrics d !! (R, key, o) = None). unfold LogMetrics, assertRunExists. pres_auto. apply for_each_pres. intros y Hy.
  rewrite Forall_forall in Hall. specialize (Hall y Hy). assert (∀ ts, Preserves P (insert_metric R (mkMetric (metric_Key y) (metric_Value y) ts (metric_Step y)))).
  { intros ts. unfold insert_metric. apply get_bind_pres. intros w Hw. cbv zeta. case_decide; [done|]. case_match; [|done]. intros o. cbn. rewrite lookup_insert_ne by congruence. apply Hw. }
  unfold log_one. pres_auto.
Qed.
Lemma LogMetrics_keeps ms pk v : Preserves (λ d, metrics d !! pk = Some v) (LogMetrics R ms).
Proof.
  set (P := λ d, metrics d !! pk = Some v). assert (∀ y, Preserves P (insert_metric R y)).
  { intros y. unfold insert_metric. apply get_bind_pres. intros w Hw. cbv zeta. case_decide as Hpk; [done|]. case_match; [|done].
    unfold P. cbn. rewrite lookup_insert_ne; [done|]. intros <-. apply Hpk. eauto. }
  unfold LogMetrics, assertRunExists. pres_auto. apply for_each_pres. intros y _. unfold log_one. pres_auto.
Qed.
End effects.

(** ** Steps of the importer *)

Section importer.
Context `{Clock} `{Faults} `{Source} {St : Type} `{ArtifactStore St}.
Context (new_id : nat → string) (fuel : nat) (m : MLflowImporter).
Implicit Types (s : Import St).
Abbreviation db s := (w_db (is_world s)).

(** Steps that do not reach the store. *)
Class Offline {A} (c : Imp St A) : Prop := offline s : is_world (c s).2 = is_world s.

#[local] Instance ret_off {A} (a : A) : Offline (mret a).
Proof. by intros s. Qed.
#[local] Instance raise_off {A} e : Offline (raise (A:=A) e).
Proof. by intros s. Qed.
#[local] Instance bind_off {A B} (c : Imp St A) (f : A → Imp St B) : Offline c → (∀ a, Offline (f a)) → Offline (c ≫= f).
Proof.
  intros Hc Hf s. specialize (Hc s). unfold mbind, Imp_bind. destruct (c s) as [[e|a] s1]; [done|]. specialize (Hf a s1). cbn in *. by rewrite Hf.
Qed.
#[local] Instance outcome_off {A} (c : Imp St A) : Offline c → Offline (outcome c).
Proof. intros Hc s. specialize (Hc s). unfold outcome. by destruct (c s). Qed.
#[local] Instance on_arts_off {A} (f : St → (artifact_error + A) * St) : Offline (on_arts f).
Proof. intros s. unfold on_arts. by destruct (f _). Qed.
#[local] Instance http_do_off q : Offline (http_do q).
Proof. by intros s. Qed.

#[local] Ltac off_auto :=
  repeat first [ progress intros | apply _ | progress cbv zeta | apply bind_off | apply outcome_off
    | match goal with |- Offline (match ?x with _ => _ end) => destruct x end ].

#[local] Instance getJSON_off {A} (f : Reader → option A) path : Offline (getJSON m f path).
Proof. unfold getJSON, importer_get, decode. off_auto. Qed.
#[local] Instance pages_off {A} n (fetch : string → Imp St (list A * string)) token all : (∀ t, Offline (fetch t)) → Offline (pages n fetch token all).
Proof. intros Hf. revert token all. induction n as [|n IH]; intros token all; cbn [pages]; off_auto. Qed.
#[local] Instance count_ok_off {A} (f : A → Imp St unit) l : (∀ a, Offline (f a)) → Offline (count_ok f l).
Proof. intros Hf. induction l as [|x l IH]; cbn [count_ok]; off_auto. Qed.
#[local] Instance history_off R key : Offline (getMetricHistory fuel m R key).
Proof. unfold getMetricHistory. apply _. Qed.
#[local] Instance artifacts_rec_off n runID dir : Offline (listArtifactsRecursive2 m n runID dir).
Proof.
  revert dir. induction n as [|n IH]; intros dir; cbn [listArtifactsRecursive2]; [apply _|]. apply bind_off; [unfold listArtifacts; apply _|]. intros entries.
  match goal with |- Offline (?g entries []) => enough (∀ files, Offline (g entries files)) by done end. induction entries as [|e l IHl]; intros files; [apply ret_off|].
  destruct (ma_IsDir e); [apply bind_off; [apply IH|]; intros sub|]; apply IHl.
Qed.
#[local] Instance import_artifacts_off R : Offline (import_artifacts fuel m R).
Proof.
  unfold import_artifacts, listArtifactsRecursive. off_auto. apply count_ok_off. unfold importArtifact, downloadArtifact, importer_get. off_auto.
Qed.

(** The writes of an import, one after the other. *)
Fixpoint log_histories (hist : string → import_error + list Metric) (R : string) (keys : list string) (w : World) : World :=
  match keys with
  | [] => w
  | key :: keys' => log_histories hist R keys' (match hist key with inr h => (LogMetrics R h w).2 | inl _ => w end)
  end.

Lemma count_ok_run {A} (f : A → M unit) l s : ∃ n s', count_ok (λ a, on_store (f a)) l s = (inr n, s') ∧ is_world s' = foldl (λ w a, (f a w).2) (is_world s) l.
Proof.
  revert s. induction l as [|a l IH]; intros s; cbn [count_ok foldl]; [by eexists _, _|].
  unfold mbind at 1, Imp_bind, outcome. destruct (on_store (f a) s) as [r s1] eqn:E1. assert (is_world s1 = (f a (is_world s)).2) as Hw.
  { unfold on_store in E1. destruct (f a (is_world s)). by injection E1 as _ <-. }
  destruct (IH s1) as (n & s' & E & Hs'). eexists _, s'. unfold mbind, Imp_bind. rewrite E. split; [reflexivity|]. by rewrite Hs', Hw.
Qed.

Lemma import_metrics_run hist R keys s : (∀ key, key ∈ keys → asks (St := St) (getMetricHistory fuel m R key) (hist key)) →
  ∃ n s', import_metrics fuel m R keys s = (inr n, s') ∧ is_world s' = log_histories hist R keys (is_world s).
Proof.
  revert s. induction keys as [|key keys IH]; intros s Hh; cbn [import_metrics log_histories]; [by eexists _, _|].
  destruct (Hh key ltac:(left) s) as [k Ek]. unfold mbind at 1, Imp_bind, outcome. rewrite Ek.
  destruct (hist key) as [e|h].
  - destruct (IH (called s k)) as (n & s' & E & Hs'); [intros key' ?; apply Hh; by right|]. eexists _, s'. split; [|exact Hs'].
    unfold mbind at 1, Imp_bind. cbn [mret Imp_ret]. unfold mbind at 1, Imp_bind. rewrite E. reflexivity.
  - destruct (on_store (LogMetrics R h) (called s k)) as [r s1] eqn:E1. assert (is_world s1 = (LogMetrics R h (is_world s)).2) as Hw.
    { unfold on_store in E1. cbn [called is_world] in E1. destruct (LogMetrics R h (is_world s)). by injection E1 as _ <-. }
    destruct (IH s1) as (n & s' & E & Hs'); [intros key' ?; apply Hh; by right|]. eexists _, s'. split; [|by rewrite Hs', Hw].
    unfold mbind, Imp_bind, outcome. rewrite E1. cbn [mret Imp_ret]. rewrite E. reflexivity.
Qed.

Lemma import_artifacts_run R s : ∃ n s', import_artifacts fuel m R s = (inr n, s') ∧ is_world s' = is_world s.
Proof.
  pose proof (import_artifacts_off R s) as Hw. destruct (import_artifacts fuel m R s) as [[e|n] s'] eqn:E; [|by eexists _, _]. exfalso. revert E. unfold import_artifacts.
  unfold mbind at 1, Imp_bind, outcome. destruct (listArtifactsRecursive fuel m R s) as [[e1|files] s1]; [done|].
  assert (∀ {A} (f : A → Imp St unit) l s0 e0 s2, count_ok f l s0 ≠ (inl e0, s2)) as Hno; [|apply Hno].
  intros A f l. induction l as [|a l IH]; intros s0 e0 s2; cbn [count_ok]; [done|]. unfold mbind at 1, Imp_bind, outcome. destruct (f a s0) as [r1 s3].
  unfold mbind at 1, Imp_bind. destruct (count_ok f l s3) as [[e4|n4] s4] eqn:E4; [|done]. by destruct (IH s3 e4 s4).
Qed.

(** The store after the data of a run was imported. *)
Lemma import_data_world hist r info data s rs s' :
  (∀ key, key ∈ collectMetricKeys (md_Metrics data) → asks (St := St) (getMetricHistory fuel m (mi_RunID info) key) (hist key)) →
  import_data fuel m r info data s = (inr rs, s') →
  let R := mi_RunID info in
  let w1 := foldl (λ w p, (LogParam R (mkParam (kv_Key p) (kv_Value p)) w).2) (is_world s) (md_Params data) in
  let w2 := foldl (λ w t, (SetTag R t w).2) w1 (md_Tags data) in
  let w3 := log_histories hist R (collectMetricKeys (md_Metrics data)) w2 in
  is_world s' = (UpdateRun R (Some (run_Status r)) (run_EndTime r) None w3).2.
Proof.
  intros Hh. unfold import_data.
  destruct (count_ok_run (λ p, LogParam (mi_RunID info) (mkParam (kv_Key p) (kv_Value p))) (md_Params data) s) as (n1 & s1 & E1 & W1).
  destruct (count_ok_run (λ t, SetTag (mi_RunID info) t) (md_Tags data) s1) as (n2 & s2 & E2 & W2).
  destruct (import_metrics_run hist (mi_RunID info) _ s2 Hh) as (n3 & s3 & E3 & W3). destruct (import_artifacts_run (mi_RunID info) s3) as (n4 & s4 & E4 & W4).
  unfold mbind at 1, Imp_bind. rewrite E1. unfold mbind at 1, Imp_bind. rewrite E2. unfold mbind at 1, Imp_bind. rewrite E3. unfold mbind at 1, Imp_bind. rewrite E4.
  unfold mbind, Imp_bind, outcome, on_store. rewrite W4, W3, W2, W1. destruct (UpdateRun _ _ _ _ _) as [o w]. by intros [= _ <-].
Qed.
End importer.

(** ** The stored run *)

Section stored.
Context `{Clock} (R : string).

Lemma fold_keeps {A} (P : DB → Prop) (f : A → M unit) l w : (∀ a, Preserves P (f a)) → P (w_db w) → P (w_db (foldl (λ w a, (f a w).2) w l)).
Proof. intros Hf. revert w. induction l as [|a l IH]; intros w Hw; [done|]. apply IH. by apply Hf. Qed.

Lemma histories_keep (P : DB → Prop) hist keys w : (∀ key h, key ∈ keys → hist key = inr h → Preserves P (LogMetrics R h)) →
  P (w_db w) → P (w_db (log_histories hist R keys w)).
Proof.
  revert w. induction keys as [|key keys IH]; intros w Hf Hw; [done|]. cbn [log_histories].
  apply IH; [intros key' h Hin; apply Hf; by right|]. destruct (hist key) as [e|h] eqn:E; [done|]. by apply (Hf key h ltac:(left)).
Qed.

(** The row of the run, up to its parent. *)
Definition row_of (e start : Z) (info : mlflowRunInfo) (r : RunRow) : Prop :=
  rr_experiment_id r = e ∧ rr_name r = nilIfEmpty (mi_RunName info) ∧ rr_status r = mapStatus (mi_Status info) ∧ rr_start_time r = start ∧
  rr_end_time r = (if 0 <? mi_EndTime info then Some (mi_EndTime info) else None) ∧
  rr_lifecycle_stage r = lifecycle_of (mi_LifecycleStage info) ∧ rr_user_id r = nilIfEmpty (mi_UserID info) ∧ rr_run_kind r = KindClassic.

Definition run_stored (e start : Z) (info : mlflowRunInfo) (d : DB) : Prop := ∃ r, runs d !! R = Some r ∧ row_of e start info r.

Section row.
Context (e start : Z) (info : mlflowRunInfo).
Abbreviation P := (run_stored e start info).

Lemma same_runs_stored d d' : runs d' = runs d → P d → P d'.
Proof. unfold run_stored. by intros ->. Qed.

Lemma update_run_stored g : (∀ r, row_of e start info r → row_of e start info (g r)) → Preserves P (update_run R g).
Proof.
  intros Hg. unfold update_run. apply get_bind_pres. intros w (r & Hr & Hrow). rewrite Hr. cbv zeta. case_match; [by exists r|].
  match goal with |- context [(if ?b then _ else fail SqlForeignKey) w] => destruct b end; [|by exists r].
  exists (g r). split; [|by apply Hg]. unfold mbind, M_bind, modify. cbn. apply lookup_insert_eq.
Qed.
Lemma LogParam_stored p : Preserves P (LogParam R p).
Proof. intros w Hw. eapply same_runs_stored; [|exact Hw]. by apply (LogParam_frame (λ d, runs d)). Qed.
Lemma LogMetrics_stored h : Preserves P (LogMetrics R h).
Proof. intros w Hw. eapply same_runs_stored; [|exact Hw]. by apply (LogMetrics_frame (λ d, runs d)). Qed.
#[local] Instance event_stored k p : Preserves P (writeRunEvent k R p).
Proof. intros w Hw. eapply same_runs_stored; [|exact Hw]. by apply (write_event_frame (λ d, runs d)). Qed.
Lemma SetTag_stored t : Preserves P (SetTag R t).
Proof.
  assert (∀ v, Preserves P (update_run R (with_parent v))) by (intros v; apply update_run_stored; by intros r).
  assert (Preserves P (upsert_tag R (kv_Key t) (kv_Value t))).
  { unfold upsert_tag. apply get_bind_pres. intros w Hw. case_match; [|done]. by eapply same_runs_stored. }
  unfold SetTag, assertRunExists, readTagValue, syncParentRunIDFromTag, captureRunBefore, write_before. pres_auto.
Qed.
Lemma UpdateRun_stored x : Preserves P (UpdateRun R (Some (run_Status (run_of x info))) (run_EndTime (run_of x info)) None).
Proof.
  assert (Preserves P (update_run R (update_cols (Some (run_Status (run_of x info))) (run_EndTime (run_of x info)) None))).
  { apply update_run_stored. intros r (? & ? & ? & ? & He & ? & ? & ?). unfold update_cols. cbn [run_Status run_EndTime run_of] in *.
    unfold row_of. destruct (0 <? mi_EndTime info); cbn; split_and!; done. }
  unfold UpdateRun, UpdateRun_tx, captureRunBefore, write_before. pres_auto.
Qed.
End row.

Lemma CreateRun_stored newID e info w w1 r : mi_RunID info = R → R ≠ EmptyString → CreateRun newID (run_of e info) w = (Ok r, w1) →
  ∃ start, (mi_StartTime info ≠ 0 → start = mi_StartTime info) ∧ run_stored e start info (w_db w1) ∧
    params (w_db w1) = params (w_db w) ∧ tags (w_db w1) = tags (w_db w) ∧ metrics (w_db w1) = metrics (w_db w).
Proof.
  intros HR Hne. unfold CreateRun. cbn [run_ID run_of run_StartTime run_ParentRunID]. cbv zeta.
  assert (default_to (mi_RunID info) newID = R) as -> by (unfold default_to; rewrite HR; by rewrite decide_False).
  intros (start & w0 & E0 & E)%bind_exec_Ok. assert (w_db w0 = w_db w ∧ (mi_StartTime info ≠ 0 → start = mi_StartTime info)) as [Hw0 Hst].
  { clear E. destruct (decide (mi_StartTime info = 0)); injection E0 as <- <-; done. }
  rewrite decide_True in E by done. apply bind_exec_Ok in E as (u & w2 & E2%map_err_exec_Ok & E). injection E as _ <-.
  unfold insert_run in E2. rewrite get_bind in E2. destruct (negb _); [done|]. destruct (run_exists _ _); [done|]. case_decide; [|done]. injection E2 as _ <-.
  exists start. split; [done|]. cbn. rewrite Hw0. split_and!; try done. eexists. split; [apply lookup_insert_eq|]. unfold row_of. cbn.
  split_and!; try done.
  - unfold default_to, mapStatus. by repeat case_decide.
  - unfold default_to, lifecycle_of. by repeat case_decide.
Qed.

Lemma CreateRun_fresh newID e info w w1 : mi_RunID info = R → R ≠ EmptyString → runs (w_db w) !! R = None →
  CreateRun newID (run_of e info) w ≠ (Err ErrAlreadyExists, w1).
Proof.
  intros HR Hne Hnone. unfold CreateRun. cbn [run_ID run_of run_StartTime run_ParentRunID]. cbv zeta.
  assert (default_to (mi_RunID info) newID = R) as -> by (unfold default_to; rewrite HR; by rewrite decide_False).
  set (st := if decide (mi_StartTime info = 0) then time_now else mret (mi_StartTime info)).
  assert (∃ x w0, st w = (Ok x, w0) ∧ w_db w0 = w_db w) as (x & w0 & Est & Hw0) by (unfold st; destruct (decide _); eexists _, _; done).
  erewrite bind_Ok by exact Est. rewrite decide_True by done. unfold mbind, M_bind, map_err.
  destruct (insert_run _ _ w0) as [o1 w2] eqn:Ei. unfold insert_run in Ei. rewrite get_bind in Ei. destruct (negb _); [injection Ei as <- <-; done|].
  unfold run_exists in Ei. rewrite Hw0, Hnone, bool_decide_false in Ei by by intros []. case_decide; injection Ei as <- <-; done.
Qed.

Fixpoint value_of (k : string) (l : list KV) : option string :=
  match l with [] => None | p :: l' => if decide (kv_Key p = k) then Some (kv_Value p) else value_of k l' end.

Lemma value_of_spec k v l : NoDup (kv_Key <$> l) → value_of k l = Some v ↔ mkKV k v ∈ l.
Proof.
  induction l as [|[k0 v0] l IH]; intros Hnd; [by rewrite elem_of_nil|]. apply NoDup_cons in Hnd as [Hno Hnd]. cbn [value_of kv_Key kv_Value]. rewrite elem_of_cons.
  case_decide as Hk; [subst k0|rewrite (IH Hnd); naive_solver]. split; [intros [= ->]; by left|]. intros [[= ->]|Hin]; [done|]. exfalso. apply Hno.
  by apply (list_elem_of_fmap_2 kv_Key) in Hin.
Qed.

Lemma run_kept {A} (f : A → M unit) a w : (∀ d0, Preserves (grows d0) (f a)) → is_Some (runs (w_db w) !! R) → is_Some (runs (w_db (f a w).2) !! R).
Proof. intros Hf. apply (Hf (w_db w) w (reflexivity _)). Qed.

(** The parameters of the list that have a valid key. *)
Lemma params_stored l w k : is_Some (runs (w_db w) !! R) →
  params (w_db (foldl (λ w p, (LogParam R (mkParam (kv_Key p) (kv_Value p)) w).2) w l)) !! (R, k) =
  match params (w_db w) !! (R, k) with Some v => Some v | None => if valid_key k then value_of k l else None end.
Proof.
  revert w. induction l as [|p l IH]; intros w Hr; cbn [foldl value_of]; [destruct (params _ !! _), (valid_key k); done|].
  rewrite IH by (apply (run_kept (λ p, LogParam R (mkParam (kv_Key p) (kv_Value p))) p); [apply _|done]).
  rewrite LogParam_effect by done. cbn [param_Key param_Value]. destruct (params (w_db w) !! (R, k)); [done|].
  destruct (decide (kv_Key p = k)) as [Hk|Hk]; destruct (valid_key k); [by rewrite decide_True|by rewrite decide_False by naive_solver..].
Qed.

(** The tags of the list, the parent tag apart. *)
Lemma tags_stored l w k : is_Some (runs (w_db w) !! R) → k ≠ parentTag → NoDup (kv_Key <$> l) →
  tags (w_db (foldl (λ w t, (SetTag R t w).2) w l)) !! (R, k) =
  match (if valid_key k then value_of k l else None) with Some v => Some v | None => tags (w_db w) !! (R, k) end.
Proof.
  intros Hr Hk. revert w Hr. induction l as [|t l IH]; intros w Hr Hnd; cbn [foldl value_of]; [by destruct (valid_key k)|].
  apply NoDup_cons in Hnd as [Hno Hnd]. rewrite IH; [|apply (run_kept (SetTag R) t); [apply _|done]|done]. rewrite SetTag_effect by done.
  destruct (valid_key k) eqn:Hv; [|by rewrite decide_False by naive_solver]. destruct (decide (kv_Key t = k)) as [Ht|Ht].
  - rewrite (decide_True (P := _ ∧ _)) by done. destruct (value_of k l) eqn:E; [|done]. exfalso. apply value_of_spec in E; [|done].
    apply Hno. rewrite Ht. by apply (list_elem_of_fmap_2 kv_Key) in E.
  - by rewrite (decide_False (P := _ ∧ _)) by tauto.
Qed.

Lemma unique_keys_NoDup seen l : NoDup (unique_keys seen l) ∧ ∀ k, k ∈ unique_keys seen l → k ∉ seen.
Proof.
  revert seen. induction l as [|y l IH]; intros seen; cbn [unique_keys]; [split; [constructor|by intros ? ?%elem_of_nil]|]. case_decide; [apply IH|].
  destruct (IH (metric_Key y :: seen)) as [Hnd Hno]. split.
  - constructor; [|done]. intros Hin%Hno. apply Hin. left.
  - intros k [->|Hin]%elem_of_cons; [done|]. apply Hno in Hin. intros ?. apply Hin. by right.
Qed.

(** A history that the source serves well is stored. *)
Lemma history_stored hist keys w key h y : NoDup keys → is_Some (runs (w_db w) !! R) → (∀ k o, metrics (w_db w) !! (R, k, o) = None) →
  (∀ k' h', k' ∈ keys → hist k' = inr h' → Forall (λ z, metric_Key z = k') h') →
  key ∈ keys → hist key = inr h → valid_key key = true → Forall (λ z, is_finite (metric_Value z) = true ∧ metric_Timestamp z ≠ 0) h → NoDup (obs <$> h) → y ∈ h →
  metrics (w_db (log_histories hist R keys w)) !! metric_pk R y = Some (metric_Value y).
Proof.
  intros Hnd Hr Hnone Hkeys Hin Eh Hv Hfin Hobs Hy. specialize (Hnone key). revert w Hr Hnone Hkeys Hin. induction Hnd as [|k keys Hk Hnd IH]; intros w Hr Hnone Hkeys Hin; [by apply elem_of_nil in Hin|].
  cbn [log_histories]. destruct (decide (k = key)) as [->|Hne].
  - clear IH. rewrite Eh. apply histories_keep; [intros k' h' _ _; apply LogMetrics_keeps|].
    assert (Forall (λ z, metric_Key z = key) h) as Hk' by (by apply (Hkeys key h); [left|]).
    assert (h ≠ []) as Hne by (intros ->; by apply elem_of_nil in Hy). unfold LogMetrics. rewrite decide_False by done. erewrite bind_Ok by by apply assert_run.
    destruct (log_all_effect R h w Hr) as (w' & E & Hst).
    + apply Forall_forall. intros z Hz. rewrite Forall_forall in Hk', Hfin. rewrite (Hk' z Hz). destruct (Hfin z Hz). done.
    + clear -Hobs Hk'. induction h as [|z h IH]; [constructor|]. cbn in *. apply NoDup_cons in Hobs as [Ho Hobs]. apply Forall_cons in Hk' as [Hz Hk']. constructor; [|by apply IH].
      intros (z' & Hz' & Hin)%list_elem_of_fmap. injection Hz' as _ E1 E2. apply Ho. apply list_elem_of_fmap. exists z'. split; [|done]. unfold obs. by rewrite E1, E2.
    + intros z Hz. rewrite Forall_forall in Hk'. unfold metric_pk. rewrite (Hk' z Hz). apply Hnone.
    + unfold transaction. rewrite E. by apply Hst.
  - apply IH; [| |intros k' h' ?; apply Hkeys; by right|by apply elem_of_cons in Hin as [?|?]].
    + destruct (hist k) as [err|h'] eqn:E; [done|]. apply (run_kept (LogMetrics R) h'); [apply _|done].
    + destruct (hist k) as [err|h'] eqn:E; [done|]. apply (LogMetrics_other R key h'); [|done]. eapply Forall_impl; [by apply (Hkeys k h'); [left|]|].
      cbn. by intros z ->.
Qed.
End stored.

(** C34: an imported run is the run of the source.  Take a source that answers
    alike every time and a run that the store does not have.  When its import
    succeeds, the stored run has the experiment it was imported into and the
    name, status, times, stage and user of the source; its parameters and its
    tags (the parent tag apart) are exactly those of the source whose keys are
    valid; and every observation of a metric history that the source serves,
    finite, timed and without repetition, is stored with its value. *)
Theorem import_faithful `{Clock} `{Source} {St} `{ArtifactStore St} new_id fuel m e run (s s' : Import St) rs :
  let R := run_id run in let info := mr_Info run in let data := mr_Data run in
  let d := w_db (is_world s) in let d' := w_db (is_world s') in
  let keys := collectMetricKeys (md_Metrics data) in
  let history key h := asks (St := St) (getMetricHistory fuel m R key) (inr h) in
  stable → im_DryRun m = false → R ≠ EmptyString → runs d !! R = None →
  (∀ k, params d !! (R, k) = None ∧ tags d !! (R, k) = None) → (∀ k o, metrics d !! (R, k, o) = None) →
  NoDup (kv_Key <$> md_Params data) → NoDup (kv_Key <$> md_Tags data) →
  (∀ key h, key ∈ keys → history key h → Forall (λ y, metric_Key y = key) h) →
  importRun new_id fuel m e run s = (inr rs, s') →
  (∃ start, (mi_StartTime info ≠ 0 → start = mi_StartTime info) ∧ run_stored R e start info d') ∧
  (∀ k v, params d' !! (R, k) = Some v ↔ mkKV k v ∈ md_Params data ∧ valid_key k = true) ∧
  (∀ k v, k ≠ parentTag → tags d' !! (R, k) = Some v ↔ mkKV k v ∈ md_Tags data ∧ valid_key k = true) ∧
  (∀ key h y, key ∈ keys → history key h → valid_key key = true →
     Forall (λ z, is_finite (metric_Value z) = true ∧ metric_Timestamp z ≠ 0) h → NoDup (obs <$> h) → y ∈ h →
     metrics d' !! metric_pk R y = Some (metric_Value y)).
Proof.
  intros R info data d d' keys history Hst Hwet HR Hnone Hpt Hm Hpn Htn Hkeys E.
  assert (∀ key, ∃ r, asks (St := St) (getMetricHistory fuel m R key) r) as Hex by (intros key; apply asks_pages; intros t; by apply asks_getJSON).
  set (hist key := match (getMetricHistory fuel m R key s).1 with r => r end).
  assert (∀ key, asks (St := St) (getMetricHistory fuel m R key) (hist key)) as Hh.
  { intros key. destruct (Hex key) as [r Hr]. destruct (Hr s) as [k Ek]. unfold hist. rewrite Ek. exact Hr. }
  assert (∀ key h, history key h ↔ hist key = inr h) as Hhist.
  { intros key h. split; [|intros Hq; unfold history; rewrite <- Hq; apply Hh]. intros Hx. destruct (Hx s) as [k Ek]. unfold hist. by rewrite Ek. }
  apply (importRun_inr (St := St) new_id fuel m Hwet) in E as (o & w1 & Ec & Ho & E).
  destruct o as [r|err]; [|destruct err; try done; by apply (CreateRun_fresh R) in Ec].
  destruct (CreateRun_stored R _ e info _ w1 r eq_refl HR Ec) as (start & Hstart & Hrow & Ep & Et & Em).
  pose proof (import_data_world fuel m hist _ info data _ rs s' (λ key _, Hh key) E) as Hw. cbv zeta in Hw. fold R keys in Hw. cbn [is_world] in Hw.
  set (w2 := foldl (λ w p, (LogParam R (mkParam (kv_Key p) (kv_Value p)) w).2) w1 (md_Params data)) in *.
  set (w3 := foldl (λ w t, (SetTag R t w).2) w2 (md_Tags data)) in *. set (w4 := log_histories hist R keys w3) in *.
  assert (run_stored R e start info (w_db w2)) as Hrow2 by (apply (fold_keeps _ (λ p, LogParam R (mkParam (kv_Key p) (kv_Value p)))); [intros p; apply LogParam_stored|done]).
  assert (run_stored R e start info (w_db w3)) as Hrow3 by (apply (fold_keeps _ (SetTag R)); [intros t; apply SetTag_stored|done]).
  assert (∀ w, run_stored R e start info (w_db w) → is_Some (runs (w_db w) !! R)) as Hsome by (intros w (x & Hx & _); rewrite Hx; eauto).
  unfold d'. rewrite Hw. split; [|split; [|split]].
  - exists start. split; [done|]. apply UpdateRun_stored. apply histories_keep; [intros key h _ _; apply LogMetrics_stored|done].
  - intros k v. rewrite <- (value_of_spec k v _ Hpn).
    assert (params (w_db w2) !! (R, k) = if valid_key k then value_of k (md_Params data) else None) as H2'.
    { unfold w2. rewrite params_stored by by apply Hsome. rewrite Ep. fold d. by rewrite (proj1 (Hpt k)). }
    rewrite (UpdateRun_frame (λ d, params d) (params (w_db w2))); [rewrite H2'; destruct (valid_key k); naive_solver|done|done|].
    unfold w4. apply (histories_keep R (λ d, params d = params (w_db w2))); [intros key h _ _; by apply (LogMetrics_frame (λ d, params d))|].
    unfold w3. apply (fold_keeps (λ d, params d = params (w_db w2)) (SetTag R)); [intros t; by apply (SetTag_frame (λ d, params d))|done].
  - intros k v Hk. rewrite <- (value_of_spec k v _ Htn). assert (tags (w_db w2) = tags (w_db w1)) as Ht2.
    { unfold w2. apply (fold_keeps (λ d, tags d = tags (w_db w1)) (λ p, LogParam R (mkParam (kv_Key p) (kv_Value p)))); [intros p; by apply (LogParam_frame (λ d, tags d))|done]. }
    assert (tags (w_db w3) !! (R, k) = if valid_key k then value_of k (md_Tags data) else None) as H3'.
    { unfold w3. rewrite tags_stored; [|by apply Hsome|done|done]. rewrite Ht2, Et. fold d. rewrite (proj2 (Hpt k)). destruct (valid_key k); [by destruct (value_of _ _)|done]. }
    rewrite (UpdateRun_frame (λ d, tags d) (tags (w_db w3))); [rewrite H3'; destruct (valid_key k); naive_solver|done|done|].
    unfold w4. apply (histories_keep R (λ d, tags d = tags (w_db w3))); [intros key h _ _; by apply (LogMetrics_frame (λ d, tags d))|done].
  - intros key h y Hin Hx%Hhist Hv Hfin Hobs Hy. assert (metrics (w_db w3) = metrics d) as Hm3.
    { unfold w3. apply (fold_keeps (λ d0, metrics d0 = metrics d) (SetTag R)); [intros t; by apply (SetTag_frame (λ d, metrics d))|].
      unfold w2. apply (fold_keeps (λ d0, metrics d0 = metrics d) (λ p, LogParam R (mkParam (kv_Key p) (kv_Value p)))); [intros p; by apply (LogParam_frame (λ d, metrics d))|done]. }
    rewrite (UpdateRun_frame (λ d, metrics d) (metrics (w_db w4))); [|done|done|done].
    apply (history_stored R hist keys w3 key h); try done; [apply unique_keys_NoDup|by apply Hsome|intros k o; rewrite Hm3; apply Hm|].
    intros k' h' Hk' Hh'%Hhist. by apply (Hkeys k').
Qed.

(** ** Examples *)

(** Codecs of the checkpoint, on texts of binary digits. *)
Fixpoint pos_text (p : positive) : string :=
  match p with xH => EmptyString | xO p => String "0"%char (pos_text p) | xI p => String "1"%char (pos_text p) end.
Fixpoint text_pos (s : string) : positive :=
  match s with EmptyString => xH | String c s => if decide (c = "1"%char) then xI (text_pos s) else xO (text_pos s) end.
Lemma text_pos_text p : text_pos (pos_text p) = p.
Proof. induction p; cbn; by f_equal. Qed.

Definition checkpoint_text (c : checkpoint) : string := pos_text (countable.encode (cp_ImportedRunIDs c, map_to_list (cp_Experiments c))).
Definition text_checkpoint (s : string) : option checkpoint := (λ '(ids, l), mkCheckpoint ids (list_to_map l)) <$> countable.decode (text_pos s).
Lemma checkpoint_text_ok c : text_checkpoint (checkpoint_text c) = Some c.
Proof. unfold text_checkpoint, checkpoint_text. rewrite text_pos_text, decode_encode. cbn. rewrite list_to_map_to_list. by destruct c. Qed.

Module Example21.
#[local] Instance no_faults : Faults := { io_fault _ := false; io_written _ := 0%nat; io_kept _ := [] }.
(** Artifacts as a list of what was uploaded. *)
#[local] Instance uploads : ArtifactStore (list (string * string * string)) := {
  art_Upload run rel r _ st := (inr tt, (run, rel, rd_data r) :: st); art_Open _ _ st := (inl ErrBackend, st);
  art_Delete _ _ st := (inl ErrBackend, st); art_List _ _ st := (inl ErrBackend, st) }.

Definition acc (t : Z) : Metric := mkMetric "acc" (of_int t) (1000 + t) t.
Definition source_run (id : string) : mlflowRun :=
  mkMlflowRun (mkMlflowRunInfo id "1" "night" "killed" 700 900 "active" "ada")
    (mkMlflowRunData [acc 2] [mkKV "lr" "0.1"; mkKV "" "lost"] [mkKV "team" "vision"]).

(** A server with one experiment and one run; [healthy] says whether the [n]-th
    request is answered. *)
Definition server (name id : string) (healthy : nat → bool) : Source := {|
  http_Do n q :=
    if negb (healthy n) then None else
    let answer s := Some (mkHttpAnswer 200 (mkReader s None)) in
    if Contains (hc_URL q) "experiments/search" then answer "experiments"%string
    else if Contains (hc_URL q) "runs/search" then answer "runs"%string
    else if Contains (hc_URL q) "get-history" then answer "metrics"%string
    else if Contains (hc_URL q) "artifacts/list" then answer "artifacts"%string else answer "weights"%string;
  decode_experiments _ := Some ([mkMlflowExperiment "1" name "active" []], EmptyString);
  decode_runs _ := Some ([source_run id], EmptyString);
  decode_metrics _ := Some ([acc 1; acc 2], EmptyString);
  decode_artifacts _ := Some [mkMlflowArtifact "m.pt" false];
  encode_search _ _ _ := EmptyString;
  encode_checkpoint := checkpoint_text; decode_checkpoint := text_checkpoint |}.
Definition always (_ : nat) : bool := true.

Definition importer : MLflowImporter := mkMLflowImporter "http://old:5000/" "" false FilterActive true "/data/.import-state.json".
Definition disk0 : gmap (list string) node := {[ [] := NDir; ["data"%string] := NDir ]}.
Definition state0 : Import (list (string * string * string)) := mkImport (mkWorld ex_db 0) [] (mkDisk disk0 0) 0 ∅ ∅.
Definition import (src : Source) (s : Import (list (string * string * string))) :=
  Importer_Run (H1 := src) "/" (λ _, "new"%string) 10 importer s.
Definition src1 : Source := server "vision" "m1" always.
Definition state1 := (import src1 state0).2.
Definition cp : list string := ["data"; ".import-state.json"]%string.
Definition part : list string := ["data"; ".import-state.json.part"]%string.

Lemma import_resumes_witness :
  (import src1 state0).1 = inr (mkStats 1 1 2 1 1 1 0) ∧
  ∃ s2, import src1 state1 = (inr (mkStats 1 1 0 0 0 0 0), s2) ∧ is_world s2 = is_world state1 ∧ is_arts s2 = is_arts state1.
Proof.
  assert ((import src1 state0).1 = inr (mkStats 1 1 2 1 1 1 0)) as E by (vm_compute; reflexivity). split; [exact E|].
  destruct (import_resumes (H1 := src1) "/" (λ _, "new"%string) 10 importer cp part state0 state1 (mkStats 1 1 2 1 1 1 0)) as (exps & by_exp & _ & _ & _ & _ & _ & _ & s2 & E2 & Hw & Ha & _).
  - intros n n' q. reflexivity.
  - reflexivity.
  - exact checkpoint_text_ok.
  - split; [discriminate|vm_compute; reflexivity|vm_compute; reflexivity|split; (apply (bool_decide_unpack _); vm_compute; exact I)|split; [discriminate|reflexivity]].
  - split; [|vm_compute; reflexivity|vm_compute; split; discriminate]. apply tree_wf_of; [reflexivity|]. apply (bool_decide_unpack _). vm_compute. exact I.
  - reflexivity.
  - vm_compute. discriminate.
  - unfold state1. rewrite <- E. unfold import. by destruct (Importer_Run _ _ _ _ _).
  - reflexivity.
  - exists s2. split; [exact E2|]. split; [exact Hw|exact Ha].
Defined.

Definition imported := importRun (H1 := src1) (λ _, "new"%string) 10 importer 1 (source_run "m1") state0.

Lemma import_faithful_witness : ∃ rs s', imported = (inr rs, s') ∧
  params (w_db (is_world s')) !! ("m1", "lr")%string = Some "0.1"%string ∧ tags (w_db (is_world s')) !! ("m1", "team")%string = Some "vision"%string ∧
  metrics (w_db (is_world s')) !! metric_pk "m1" (acc 1) = Some (of_int 1).
Proof.
  destruct imported as [[err|rs] s'] eqn:E; [exfalso; vm_compute in E; discriminate|].
  destruct (import_faithful (H0 := src1) (λ _, "new"%string) 10 importer 1 (source_run "m1") state0 s' rs) as (_ & Hp & Ht & Hm).
  - intros n n' q. reflexivity.
  - reflexivity.
  - discriminate.
  - reflexivity.
  - intros k. split; [reflexivity|]. cbn. by rewrite lookup_singleton_ne.
  - intros k o. reflexivity.
  - apply (bool_decide_unpack _). vm_compute. exact I.
  - apply (bool_decide_unpack _). vm_compute. exact I.
  - intros key h Hin Hh. destruct (Hh state0) as [k Ek]. vm_compute in Hin. apply list_elem_of_singleton in Hin as ->.
    assert (h = [acc 1; acc 2]) as -> by (vm_compute in Ek; by injection Ek). repeat constructor.
  - exact E.
  - exists rs, s'. split; [reflexivity|]. split; [|split].
    + apply Hp. split; [left|vm_compute; reflexivity].
    + apply Ht; [discriminate|]. split; [left|vm_compute; reflexivity].
    + apply (Hm "acc"%string [acc 1; acc 2]); [left| |vm_compute; reflexivity| | |left].
      * intros s0. eexists. reflexivity.
      * apply Forall_cons. split; [split; [vm_compute; reflexivity|discriminate]|]. apply Forall_singleton. split; [vm_compute; reflexivity|discriminate].
      * apply (bool_decide_unpack _). vm_compute. exact I.
Defined.

(** The checkpoint keys the experiments by their ids at the source alone: the
    runs of another server with the same data directory go into the experiment
    that was made for the first server. *)
Example other_source_merged :
  let s2 := (import (server "speech" "m2" always) state1).2 in
  (rr_experiment_id <$> runs (w_db (is_world s2)) !! "m1"%string) = Some 2 ∧ (rr_experiment_id <$> runs (w_db (is_world s2)) !! "m2"%string) = Some 2 ∧
  (er_name <$> rows (experiments (w_db (is_world s2))) !! 2) = Some "vision"%string.
Proof. vm_compute. done. Qed.

(** A history that could not be fetched is lost: the run counts as imported,
    and importing again does not fetch it. *)
Example failed_history_not_retried :
  let first := import (server "vision" "m1" (λ n, negb (Nat.eqb n 3))) state0 in
  let again := import src1 first.2 in
  first.1 = inr (mkStats 1 1 0 1 1 1 0) ∧ again.1 = inr (mkStats 1 1 0 0 0 0 0) ∧ metrics (w_db (is_world again.2)) = ∅.
Proof. vm_compute. done. Qed.
End Example21.
