(* ===== verification/Server.v ===== *)
(** * The server (internal/server/server.go)

    The parts put together: the start-up with its clean-up, the chain of
    middlewares around the handlers, with the limiter in the authentication,
    and the shutdown. *)

From S2P Require Import S3 Prelude GoStrings Urls Paths Model Float64 Database Sample Workspaces Sessions Access RateLimit Metrics Config Front.

Open Scope Z_scope.

(** ** Start-up *)

(** What the process holds. *)
Record Resources := mkResources { rc_store : bool; rc_dispatcher : bool }.
Definition nothing : Resources := mkResources false false.

(** The calls of [New] that can fail. *)
Inductive init_call := InitMkdir | InitOpen | InitMigrate | InitArtifacts | InitFiles | InitCAS | InitGRPC.
#[export] Instance init_call_eq_dec : EqDecision init_call.
Proof. solve_decision. Defined.

(** What [New] returns, and what is held when it does.  [fails] says which
    calls fail; a failure after the store was opened closes it, and the
    deferred function stops the dispatcher. *)
Record Server := mkServer { sv_backend : string; sv_grpc : bool }.

(** The configuration of the S3 store. *)
Definition s3_config (cfg : Settings) : S3Config :=
  mkS3Config (c_S3Endpoint cfg) (c_S3Bucket cfg) (c_S3Region cfg) (c_S3Prefix cfg) (c_S3AccessKey cfg) (c_S3SecretKey cfg) (c_S3MultipartThreshold cfg).

(** [parse_url] is [url.Parse], which [NewS3Store] calls on the endpoint; only
    the store on the file system makes a call that can fail. *)
Definition New (parse_url : string → option Endpoint) (fails : init_call → bool) (cfg : Settings) : option Server * Resources :=
  if fails InitMkdir then (None, nothing)
  else if fails InitOpen then (None, nothing)
  else
    let r := mkResources true false in
    if fails InitMigrate then (None, mkResources false (rc_dispatcher r))
    else
      let art :=
        if decide (c_ArtifactBackend cfg ∈ [EmptyString; "fs"%string]) then (if fails InitArtifacts then None else Some "fs"%string)
        else if decide (c_ArtifactBackend cfg = "s3"%string) then (_ ← NewS3Store parse_url (s3_config cfg); Some "s3"%string)
        else None in
      match art with
      | None => (None, mkResources false (rc_dispatcher r))
      | Some backend =>
          if fails InitFiles then (None, mkResources false (rc_dispatcher r)) else
          let r := mkResources true true in
          let stop r := mkResources (rc_store r) false in
          if fails InitCAS then (None, stop (mkResources false (rc_dispatcher r)))
          else if decide (c_OTLPGRPCAddr cfg ≠ EmptyString) then
            if fails InitGRPC then (None, stop (mkResources false (rc_dispatcher r))) else (Some (mkServer backend true), r)
          else (Some (mkServer backend false), r)
      end.

(** ** The chain of middlewares *)

(** A request as it arrives. *)
Record Incoming := mkIncoming {
  in_URL : ReqURL; in_Method : string; in_Header : gmap string string; in_Cookie : gmap string string;
  in_BasicAuth : option (string * string); in_RemoteAddr : string; in_ForwardedFor : list string; in_TLS : bool }.

Definition in_header (k : string) (q : Incoming) : string := default EmptyString (in_Header q !! k).

(** What the clocks, the router of chi and the operating system say during the
    request. *)
Record Moment := mkMoment {
  mo_now : Z; mo_nanos : Z; mo_seconds : float64; mo_pattern : string; mo_process : ProcessState }.

Record ServerState := mkServerState { ss_world : World; ss_limiter : authRateLimiter; ss_metrics : Registry }.

Record Reply := mkReply { rep_Status : Z; rep_Header : gmap string string }.

Section router.
Context `{Clock}.
Context (sha256 : string → list Z) (bcrypt_ok : string → string → bool) (hex_sha256 : string → string) (touched : bool).
(** [net.SplitHostPort], [netip.ParseAddr] and the texts of addresses. *)
Context (SplitHostPort : string → option string) (ParseAddr : string → option Addr) (addr_text : list Z → string) (prefix_text : list Z → string).
Context (cfg : Settings) (trusted : list Prefix).
(** The routes behind the chain, given the cap on the body and the deadline of
    the connection; a handler that panics is one that fails. *)
Context (mux : option Z → option Z → Access.Handler).

Definition auth_request (u : ReqURL) (q : Incoming) : AuthRequest :=
  mkAuthRequest (in_Method q) (ru_Path u) (in_RemoteAddr q) (in_ForwardedFor q) (in_header "X-Real-Ip" q).

Definition inner_request (u : ReqURL) (q : Incoming) : Request :=
  mkRequest (in_Method q) (ru_Path u) (in_Header q) (in_Cookie q) (in_BasicAuth q) None None None None.

Definition auth_config : Access.Config := Access.mkConfig (c_Auth cfg) (c_BasicUser cfg) (c_BasicPassHash cfg).

Definition client_key (u : ReqURL) (q : Incoming) : string := clientKey SplitHostPort ParseAddr addr_text prefix_text trusted (auth_request u q).

(** A method of the store beside the limiter. *)
Definition on_world {A} (m : M A) (s : World * authRateLimiter) : result A * (World * authRateLimiter) :=
  let '(res, w) := m s.1 in (res, (w, s.2)).

(** [authMiddlewareWithSessions] with the limiter, which it asks only when the
    Basic credentials are wrong. *)
Definition authMiddlewareLimited (now : Z) (key : string) (next : Access.Handler) (r0 : Request) (s : World * authRateLimiter) :
    result Response * (World * authRateLimiter) :=
  let r := with_header (λ h, delete "X-LiteMLflow-Role" (delete "X-LiteMLflow-Auth-Method" (delete "X-LiteMLflow-User" h))) r0 in
  if isPublicPath (rq_Path r) then on_world (next r) s else
  match on_world (match GetSessionID r with Some sessID => GetSession sessID | None => fail ErrNotFound end) s with
  | (Ok sess, s) =>
      on_world (_ ← when touched (now ← time_now; _ ← attempt (TouchSession (sess_ID sess) now); mret tt);
                next (with_header (λ h, <["X-LiteMLflow-Auth-Method" := sess_AuthMethod sess]> (<["X-LiteMLflow-User" := sess_UserID sess]> h))
                        (with_user (sess_UserID sess) (Some sess) r))) s
  | (Err _, s) =>
      if decide (c_Auth cfg = "none"%string) then
        on_world (next (with_header (<["X-LiteMLflow-User" := "anonymous"]>) (with_user "anonymous" None r))) s
      else if decide (c_Auth cfg = "basic"%string) then
        match rq_BasicAuth r with
        | None => on_world (writeError 401 "UNAUTHENTICATED") s
        | Some (user, pass) =>
            if negb (VerifyBasicCredentials sha256 bcrypt_ok (c_BasicUser cfg) (c_BasicPassHash cfg) user pass) then
              let '(ok, rl) := allow now key s.2 in
              on_world (if negb ok then writeError 429 "RESOURCE_EXHAUSTED" else writeError 401 "UNAUTHENTICATED") (s.1, rl)
            else on_world (next (with_header (λ h, <["X-LiteMLflow-Auth-Method" := "basic"]> (<["X-LiteMLflow-User" := user]> h))
                                   (with_user user None r))) s
        end
      else if decide (c_Auth cfg = "oidc"%string) then
        on_world (if Contains (Access.header "Accept" r) "text/html" then mret (mkResponse 302 "") else writeError 401 "UNAUTHENTICATED") s
      else on_world (writeError 500 "INTERNAL_ERROR") s
  end.

(** Behind the authentication: workspace, role, deadline and the routes. *)
Definition authorized_part (mo : Moment) (u : ReqURL) (q : Incoming) : Access.Handler :=
  workspaceMiddleware (rbacMiddleware auth_config
    (mux (bodyLimitMiddleware (c_MaxRequestSize cfg) (c_MaxArtifactSize cfg) (in_Method q) (ru_Path u))
       (largeTransferDeadlineMiddleware (mo_now mo) (in_Method q) (ru_Path u)))).

(** From the limiter inwards: the status, or nothing for a panic. *)
Definition inside (mo : Moment) (u : ReqURL) (q : Incoming) (w : World) (rl : authRateLimiter) : option Z * World * authRateLimiter :=
  match rateLimitAuthMiddleware (clientKey SplitHostPort ParseAddr addr_text prefix_text trusted) (mo_now mo) (auth_request u q) rl with
  | (Some status, rl) => (Some status, w, rl)
  | (None, rl) =>
      let '(res, (w, rl)) := authMiddlewareLimited (mo_now mo) (client_key u q) (authorized_part mo u q) (inner_request u q) (w, rl) in
      (match res with Ok resp => Some (rs_Status resp) | Err _ => None end, w, rl)
  end.

(** The handler of [GET /metrics], which no middleware keeps from being
    reached ([metrics_public]), refreshes the readings of the process. *)
Definition scraped (mo : Moment) (u : ReqURL) (q : Incoming) (m : Registry) : Registry :=
  if decide (in_Method q = "GET"%string ∧ route_path u = "/metrics"%string) then RefreshProcess (c_DBPath cfg) (mo_process mo) m else m.

(** [buildRouter]: the request id, the recovery, the security headers, the
    alias, the log and the metrics around the rest. *)
Definition buildRouter (mo : Moment) (q : Incoming) (s : ServerState) : Reply * ServerState :=
  let id := requestIDMiddleware hex_sha256 (mo_nanos mo) (in_header "X-Request-Id" q) in
  let h := securityHeadersMiddleware (in_TLS q) (in_header "X-Forwarded-Proto" q) {[ "X-Request-ID"%string := id ]} in
  match apiV2AliasMiddleware (in_URL q) with
  | None => (mkReply 400 h, s)
  | Some (u, aliased) =>
      let h := if aliased then <["X-API-Version" := "2"]> h else h in
      let m := scraped mo u q (ss_metrics s) in
      match inside mo u q (ss_world s) (ss_limiter s) with
      | (Some status, w, rl) =>
          (mkReply status h, mkServerState w rl (metricsMiddleware (mkFinished (in_Method q) (mo_pattern mo) status (mo_seconds mo)) m))
      | (None, w, rl) => (mkReply 500 h, mkServerState w rl m)
      end
  end.
End router.

(** ** Shutdown *)

(** The steps of the function [shutdown], in their order. *)
Inductive phase := Serving | HttpDraining | DispatcherDraining | GrpcDraining | JanitorStopping | StoreClosing | Down.
#[export] Instance phase_eq_dec : EqDecision phase.
Proof. solve_decision. Defined.

Record Shutdown := mkShutdown {
  sd_phase : phase;
  sd_requests : nat;          (* HTTP requests in progress *)
  sd_deliveries : nat;        (* webhook deliveries in progress *)
  sd_rpcs : nat;              (* gRPC exports in progress *)
  sd_ticking : bool;          (* a tick of the janitor in progress *)
  sd_janitor : bool;          (* the janitor's goroutine runs *)
  sd_expired : bool * bool;   (* the 10 s for requests, the 5 s for deliveries are over *)
  sd_open : bool;             (* the store *)
  sd_touches : nat            (* goroutines that touch a session, which nobody waits for *) }.

Definition sd_start (janitor : bool) : Shutdown := mkShutdown Serving 0 0 0 false janitor (false, false) true 0.

(** The order of the phases. *)
Definition phase_rank (p : phase) : nat :=
  match p with Serving => 0 | HttpDraining => 1 | DispatcherDraining => 2 | GrpcDraining => 3 | JanitorStopping => 4 | StoreClosing => 5 | Down => 6 end.

(** New work: the listener is open until [httpd.Shutdown] has closed it and has
    waited for the connections, or given up; the workers of the dispatcher take
    up deliveries until [dispatcher.Stop] returns, and longer when it abandons
    them; gRPC accepts exports until [GracefulStop]. *)
Definition http_accepts (p : phase) (gave_up : bool) : bool := (phase_rank p <=? 1)%nat || gave_up.
Definition dispatcher_takes (p : phase) (gave_up : bool) : bool := (phase_rank p <=? 2)%nat || gave_up.
Definition grpc_accepts (p : phase) : bool := (phase_rank p <=? 2)%nat.

(** One step of the process.  Its [select] may take a tick of the janitor also
    once the context is cancelled, so a tick begins while the goroutine runs. *)
Inductive sd_step : Shutdown → Shutdown → Prop :=
  (* work that begins and ends *)
  | sd_request p a b c t j e o g : http_accepts p e.1 = true → sd_step (mkShutdown p a b c t j e o g) (mkShutdown p (S a) b c t j e o g)
  | sd_reply p a b c t j e o g : sd_step (mkShutdown p (S a) b c t j e o g) (mkShutdown p a b c t j e o g)
  | sd_deliver p a b c t j e o g : dispatcher_takes p e.2 = true → sd_step (mkShutdown p a b c t j e o g) (mkShutdown p a (S b) c t j e o g)
  | sd_delivered p a b c t j e o g : sd_step (mkShutdown p a (S b) c t j e o g) (mkShutdown p a b c t j e o g)
  | sd_export p a b c t j e o g : grpc_accepts p = true → sd_step (mkShutdown p a b c t j e o g) (mkShutdown p a b (S c) t j e o g)
  | sd_exported p a b c t j e o g : sd_step (mkShutdown p a b (S c) t j e o g) (mkShutdown p a b c t j e o g)
  | sd_tick p a b c e o g : sd_step (mkShutdown p a b c false true e o g) (mkShutdown p a b c true true e o g)
  | sd_tock p a b c e o g : sd_step (mkShutdown p a b c true true e o g) (mkShutdown p a b c false true e o g)
  (* a request with a session starts a goroutine that touches the session; it outlives the request, for at most 5 s *)
  | sd_touch p a b c t j e o g : sd_step (mkShutdown p (S a) b c t j e o g) (mkShutdown p (S a) b c t j e o (S g))
  | sd_touched p a b c t j e o g : sd_step (mkShutdown p a b c t j e o (S g)) (mkShutdown p a b c t j e o g)
  (* the context is cancelled, or a listener fails *)
  | sd_begin a b c t j e o g : sd_step (mkShutdown Serving a b c t j e o g) (mkShutdown HttpDraining a b c t j e o g)
  (* [httpd.Shutdown] returns: nothing is in progress, or the 10 s are over *)
  | sd_http a b c t j e o g (x : bool) : a = 0%nat ∨ x = true →
      sd_step (mkShutdown HttpDraining a b c t j e o g) (mkShutdown DispatcherDraining a b c t j (x, e.2) o g)
  (* [dispatcher.Stop] returns: the workers are gone, or the 5 s are over *)
  | sd_stop a b c t j e o g (x : bool) : b = 0%nat ∨ x = true →
      sd_step (mkShutdown DispatcherDraining a b c t j e o g) (mkShutdown GrpcDraining a b c t j (e.1, x) o g)
  (* [grpcSrv.Stop], which has no limit, returns *)
  | sd_graceful a b t j e o g : sd_step (mkShutdown GrpcDraining a b 0 t j e o g) (mkShutdown JanitorStopping a b 0 t j e o g)
  (* the janitor's goroutine ends between two ticks, once [stopJanitor] or the context cancels it; [stopJanitor] waits for that *)
  | sd_leave p a b c e o g : p ≠ Serving → sd_step (mkShutdown p a b c false true e o g) (mkShutdown p a b c false false e o g)
  | sd_awaited a b c t e o g : sd_step (mkShutdown JanitorStopping a b c t false e o g) (mkShutdown StoreClosing a b c t false e o g)
  | sd_close a b c t j e o g : sd_step (mkShutdown StoreClosing a b c t j e o g) (mkShutdown Down a b c t j e false g).

(** * Laws *)

(** ** Start-up *)

(** A failing start-up leaves nothing behind, and a server that starts has
    what it needs. *)
Lemma startup_clean parse_url fails cfg :
  match New parse_url fails cfg with
  | (None, r) => r = nothing
  | (Some sv, r) => r = mkResources true true ∧ (sv_grpc sv = true ↔ c_OTLPGRPCAddr cfg ≠ EmptyString) ∧ sv_backend sv ∈ ["fs"; "s3"]%string ∧
      (sv_backend sv = "s3"%string ↔ c_ArtifactBackend cfg = "s3"%string)
  end.
Proof.
  unfold New. destruct (fails InitMkdir); [done|]. destruct (fails InitOpen); [done|]. destruct (fails InitMigrate); [done|].
  cbv zeta. destruct (decide (c_ArtifactBackend cfg ∈ [EmptyString; "fs"%string])) as [Hfs|Hfs].
  - assert (c_ArtifactBackend cfg ≠ "s3"%string) as Hne by (intros E; rewrite E in Hfs; set_solver). destruct (fails InitArtifacts); [done|].
    destruct (fails InitFiles); [done|]. destruct (fails InitCAS); [done|]. case_decide; [destruct (fails InitGRPC); [done|]|]; (split_and!; [done|done|set_solver|done]).
  - destruct (decide (c_ArtifactBackend cfg = "s3"%string)); [|done]. destruct (NewS3Store _ _); [|done]. cbn [mbind option_bind].
    destruct (fails InitFiles); [done|]. destruct (fails InitCAS); [done|]. case_decide; [destruct (fails InitGRPC); [done|]|]; (split_and!; [done|done|set_solver|done]).
Qed.

(** On S3 a server starts only with a store that [NewS3Store] accepts; when
    nothing else fails that is enough. *)
Lemma startup_s3 parse_url fails cfg : c_ArtifactBackend cfg = "s3"%string →
  is_Some (New parse_url fails cfg).1 → is_Some (NewS3Store parse_url (s3_config cfg)).
Proof.
  intros Hs3. unfold New. destruct (fails InitMkdir); [by intros []|]. destruct (fails InitOpen); [by intros []|]. destruct (fails InitMigrate); [by intros []|].
  rewrite decide_False by (rewrite Hs3; set_solver). rewrite decide_True by done. destruct (NewS3Store _ _); [done|by intros []].
Qed.

Lemma startup_enough parse_url fails cfg : (∀ call, fails call = false) →
  c_ArtifactBackend cfg ∈ [EmptyString; "fs"%string] ∨ c_ArtifactBackend cfg = "s3"%string ∧ is_Some (NewS3Store parse_url (s3_config cfg)) →
  is_Some (New parse_url fails cfg).1.
Proof.
  intros Hf Hb. unfold New. rewrite !Hf. cbv zeta. destruct Hb as [Hb|[Hb [st Hst]]].
  - rewrite decide_True by done. by case_decide; eexists.
  - rewrite decide_False by (rewrite Hb; set_solver). rewrite decide_True, Hst by done. by case_decide; eexists.
Qed.

(** ** Requests *)

Section requests.
Context `{Clock}.
Context (sha256 : string → list Z) (bcrypt_ok : string → string → bool) (hex_sha256 : string → string) (touched : bool).
Context (SplitHostPort : string → option string) (ParseAddr : string → option Addr) (addr_text prefix_text : list Z → string).
Context (cfg : Settings) (trusted : list Prefix) (mux : option Z → option Z → Access.Handler).

(** A wrong guess: a request with Basic credentials that are wrong and without
    a live session, on a path that is not public. *)
Definition wrong_guess (r : Request) (w : World) : bool :=
  negb (isPublicPath (rq_Path r)) &&
  match GetSessionID r with Some id => negb (is_ok (GetSession id w).1) | None => true end &&
  bool_decide (c_Auth cfg = "basic"%string) &&
  match rq_BasicAuth r with
  | Some (user, pass) => negb (VerifyBasicCredentials sha256 bcrypt_ok (c_BasicUser cfg) (c_BasicPassHash cfg) user pass)
  | None => false
  end.

(** The access control of Access.v, with the answer of the limiter given. *)
Abbreviation auth b next := (authMiddlewareWithSessions sha256 bcrypt_ok (λ _, b) touched (auth_config cfg) next).
Abbreviation chain b mo u q := (auth b (authorized_part cfg mux mo u q)).

Lemma GetSession_world id w : w_db (GetSession id w).2 = w_db w.
Proof. unfold GetSession. rewrite get_bind. destruct (sessions _ !! id); [|done]. cbn [fmap option_fmap option_map of_option]. rewrite lift_Ok_bind, now_bind. by case_decide. Qed.

(** Only a wrong guess depends on the limiter, and it is refused. *)
Lemma auth_guess b next r w : wrong_guess r w = true →
  ∃ w', auth b next r w = (Ok (mkResponse (if b then 401 else 429) (if b then "UNAUTHENTICATED" else "RESOURCE_EXHAUSTED")), w') ∧ w_db w' = w_db w.
Proof.
  unfold wrong_guess. rewrite !andb_true_iff. intros [[[Hpub Hsess] Hauth%bool_decide_eq_true] Hcred]. apply negb_true_iff in Hpub.
  unfold authMiddlewareWithSessions. cbv zeta.
  change (rq_Path (with_header _ r)) with (rq_Path r). rewrite Hpub. change (GetSessionID (with_header _ r)) with (GetSessionID r).
  change (rq_BasicAuth (with_header _ r)) with (rq_BasicAuth r). destruct (rq_BasicAuth r) as [[user pass]|]; [|done].
  assert (∃ e w1, (match GetSessionID r with Some sessID => attempt (GetSession sessID) | None => mret (Err ErrNotFound) end) w = (Ok (Err e), w1) ∧ w_db w1 = w_db w) as (e & w1 & E & Hw1).
  { destruct (GetSessionID r) as [id|]; [|by eexists _, _]. unfold attempt. pose proof (GetSession_world id w) as Hg.
    destruct (GetSession id w) as [[a|e] w1]; [done|]. by exists e, w1. }
  erewrite bind_Ok by exact E. cbn [auth_config cfg_Auth cfg_BasicUser cfg_BasicPassHash]. rewrite Hauth. rewrite decide_False, decide_True, Hcred by done.
  exists w1. split; [|done]. by destruct b.
Qed.

Lemma auth_free b b' next r w : wrong_guess r w = false → auth b next r w = auth b' next r w.
Proof.
  unfold wrong_guess, authMiddlewareWithSessions. cbv zeta. intros Hc.
  change (rq_Path (with_header _ r)) with (rq_Path r). change (GetSessionID (with_header _ r)) with (GetSessionID r).
  change (rq_BasicAuth (with_header _ r)) with (rq_BasicAuth r). destruct (isPublicPath (rq_Path r)); [done|]. cbn [negb andb] in Hc.
  destruct (match GetSessionID r with Some sessID => attempt (GetSession sessID) | None => mret (Err ErrNotFound) end w) as [[[x|x]|e] w1] eqn:E.
  - by rewrite !(bind_Ok _ _ _ _ _ E).
  - rewrite !(bind_Ok _ _ _ _ _ E). cbn [auth_config cfg_Auth cfg_BasicUser cfg_BasicPassHash]. destruct (decide (c_Auth cfg = "none"%string)); [done|]. destruct (decide (c_Auth cfg = "basic"%string)) as [Hb|]; [|done].
    destruct (rq_BasicAuth r) as [[user pass]|]; [|done]. destruct (negb (VerifyBasicCredentials _ _ _ _ _ _)); [|done].
    rewrite bool_decide_true in Hc by done. rewrite !andb_true_r in Hc. exfalso. destruct (GetSessionID r) as [id|]; [|done].
    unfold attempt in E. destruct (GetSession id w) as [[a|e] w0]; [done|]. done.
  - by rewrite !(bind_Err _ _ _ _ _ E).
Qed.

(** The authentication with the limiter is that of Access.v with the limiter's
    answer, and takes a token for a wrong guess only. *)
Lemma limited_auth_spec now key next r w rl :
  let '(ok, rl') := allow now key rl in
  authMiddlewareLimited sha256 bcrypt_ok touched cfg now key next r (w, rl) =
  let '(res, w') := auth ok next r w in (res, (w', if wrong_guess r w then rl' else rl)).
Proof.
  destruct (allow now key rl) as [ok rl'] eqn:El. unfold authMiddlewareLimited, authMiddlewareWithSessions, wrong_guess. cbv zeta.
  change (rq_Path (with_header _ r)) with (rq_Path r). change (GetSessionID (with_header _ r)) with (GetSessionID r).
  change (rq_BasicAuth (with_header _ r)) with (rq_BasicAuth r). destruct (isPublicPath (rq_Path r)); [done|]. cbn [negb andb].
  assert (∀ (A : Type) (m : M A) v w1, (m w = (v, w1)) → on_world m (w, rl) = (v, (w1, rl))) as Hon by (intros A m v w1 E; unfold on_world; cbn; by rewrite E).
  destruct ((match GetSessionID r with Some sessID => GetSession sessID | None => fail ErrNotFound end) w) as [v w1] eqn:E.
  rewrite (Hon _ _ _ _ E).
  assert ((match GetSessionID r with Some sessID => attempt (GetSession sessID) | None => mret (Err ErrNotFound) end) w = (Ok v, w1)) as E'.
  { destruct (GetSessionID r) as [id|]; [unfold attempt; by rewrite E|]. by injection E as <- <-. }
  rewrite (bind_Ok _ _ _ _ _ E'). cbn [auth_config cfg_Auth cfg_BasicUser cfg_BasicPassHash].
  assert (match GetSessionID r with Some id => negb (is_ok (GetSession id w).1) | None => true end = negb (is_ok v)) as ->.
  { destruct (GetSessionID r) as [id|]; [by rewrite E|]. by injection E as <- <-. }
  destruct v as [sess|e]; cbn [is_ok negb andb].
  { unfold on_world. cbn [fst snd]. match goal with |- context [?m w1] => by destruct (m w1) end. }
  unfold on_world. cbn [fst snd]. destruct (decide (c_Auth cfg = "none"%string)) as [Hn|Hn].
  { rewrite bool_decide_false by congruence. cbn. by destruct (next _ w1). }
  destruct (decide (c_Auth cfg = "basic"%string)) as [Hb|Hb].
  - rewrite bool_decide_true by done. cbn [andb]. destruct (rq_BasicAuth r) as [[user pass]|]; [|done].
    destruct (negb (VerifyBasicCredentials _ _ _ _ _ _)); [rewrite El; by destruct ok|]. by destruct (next _ w1).
  - rewrite bool_decide_false by done. cbn. destruct (decide (c_Auth cfg = "oidc"%string)); [by destruct (Contains _ _)|done].
Qed.

Lemma login_public u q w : isRateLimitedAuthPath (auth_request u q) = true → wrong_guess (inner_request u q) w = false.
Proof.
  unfold isRateLimitedAuthPath. intros [_ Hp%bool_decide_eq_true]%andb_prop. cbn in Hp. unfold wrong_guess. cbn [inner_request rq_Path]. by rewrite Hp.
Qed.

(** Every request to [/metrics] reaches its handler. *)
Lemma metrics_public b next r w : rq_Path r = "/metrics"%string →
  ∃ r' w', serve sha256 bcrypt_ok (λ _, b) touched (auth_config cfg) next r w = next r' w' ∧ rq_Path r' = rq_Path r.
Proof.
  intros Hp. assert (isPublicPath (rq_Path r) = true) as Hpub by by rewrite Hp. unfold serve, authMiddlewareWithSessions. cbv zeta.
  change (rq_Path (with_header _ r)) with (rq_Path r). rewrite Hpub. set (r1 := with_header _ r).
  assert (rq_Path r1 = rq_Path r) as Hp1 by done. clearbody r1. unfold workspaceMiddleware.
  assert (∀ r2 w2, rq_Path r2 = rq_Path r → ∃ r' w', rbacMiddleware (auth_config cfg) next r2 w2 = next r' w' ∧ rq_Path r' = rq_Path r) as Hr.
  { intros r2 w2 Hp2. unfold rbacMiddleware. rewrite Hp2, Hpub. destruct (decide _); by exists r2, w2. }
  case_decide; [by apply Hr|]. unfold mbind, M_bind, attempt. destruct (GetWorkspace _ w) as [[x|x] w1]; [by apply Hr|].
  assert (isWorkspaceAgnosticPath (rq_Path r1) = true) as -> by by rewrite Hp1, Hp. by apply Hr.
Qed.

Abbreviation router := (buildRouter sha256 bcrypt_ok hex_sha256 touched SplitHostPort ParseAddr addr_text prefix_text cfg trusted mux).
Abbreviation key_of := (client_key SplitHostPort ParseAddr addr_text prefix_text trusted).

Lemma security_headers tls proto h k v : (k, v) ∈ [("X-Content-Type-Options", "nosniff"); ("X-Frame-Options", "DENY"); ("Referrer-Policy", "no-referrer"); ("Content-Security-Policy", csp)]%string →
  securityHeadersMiddleware tls proto h !! k = Some v.
Proof.
  intros Hk. unfold securityHeadersMiddleware. cbv zeta. rewrite !elem_of_cons, elem_of_nil in Hk.
  destruct Hk as [[= -> ->]|[[= -> ->]|[[= -> ->]|[[= -> ->]|[]]]]]; case_match; repeat (rewrite lookup_insert_eq || rewrite lookup_insert_ne by done); done.
Qed.

(** The metrics after a request: with the readings of the process when it is a
    scrape; a request that was answered without a panic is counted once, under
    the status of its reply. *)
Definition measured (mo : Moment) (u : ReqURL) (q : Incoming) (outcome : option Z) (m : Registry) : Registry :=
  let m := scraped cfg mo u q m in
  match outcome with
  | Some status => metricsMiddleware (mkFinished (in_Method q) (mo_pattern mo) status (mo_seconds mo)) m
  | None => m
  end.

(** C36: what becomes of a request.  Every reply carries the security headers.
    Behind the alias, the request takes at most one token of the bucket of its
    client: a POST to the login, whether it is let through or refused, and a
    request with wrong Basic credentials and no session, which is refused
    without a change of the data; every other request leaves the limiter alone
    and its outcome does not depend on it.  A login without a token gets 429
    and reaches neither the store nor its handler.  Every other request is what
    authentication, workspace and role checks make of it, its handler running
    with the cap on the body and the deadline for its path, and is answered
    with their status, or with 500 when the handler panics.  It is counted
    once, under the status it was answered with, exactly when the handler does
    not panic. *)
Theorem requests_served mo q s u aliased :
  apiV2AliasMiddleware (in_URL q) = Some (u, aliased) →
  let '(rep, s') := router mo q s in
  let r := inner_request u q in
  let w := ss_world s in
  let login := isRateLimitedAuthPath (auth_request u q) in
  let guess := wrong_guess r w in
  let '(ok, rl) := allow (mo_now mo) (key_of u q) (ss_limiter s) in
  (∀ k v, (k, v) ∈ [("X-Content-Type-Options", "nosniff"); ("X-Frame-Options", "DENY"); ("Referrer-Policy", "no-referrer"); ("Content-Security-Policy", csp)]%string →
     rep_Header rep !! k = Some v) ∧
  ss_limiter s' = (if login || guess then rl else ss_limiter s) ∧
  (guess = true → rep_Status rep = (if ok then 401 else 429) ∧ w_db (ss_world s') = w_db w) ∧
  (login = true → ok = false →
     rep_Status rep = 429 ∧ ss_world s' = w ∧ ss_metrics s' = measured mo u q (Some 429) (ss_metrics s)) ∧
  (login = false ∨ ok = true →
     ∃ res, chain ok mo u q r w = (res, ss_world s') ∧ (guess = false → ∀ b, chain b mo u q r w = (res, ss_world s')) ∧
       match res with
       | Ok resp => rep_Status rep = rs_Status resp ∧ ss_metrics s' = measured mo u q (Some (rs_Status resp)) (ss_metrics s)
       | Err _ => rep_Status rep = 500 ∧ ss_metrics s' = measured mo u q None (ss_metrics s)
       end).
Proof.
  intros Ha. unfold buildRouter. cbv zeta. rewrite Ha.
  set (h := securityHeadersMiddleware _ _ _). set (h' := if aliased then _ else h).
  assert (∀ k v, (k, v) ∈ [("X-Content-Type-Options", "nosniff"); ("X-Frame-Options", "DENY"); ("Referrer-Policy", "no-referrer"); ("Content-Security-Policy", csp)]%string → h' !! k = Some v) as Hh.
  { intros k v Hk. unfold h'. destruct aliased; [|by apply security_headers]. rewrite lookup_insert_ne; [by apply security_headers|]. intros <-. set_solver. }
  destruct (allow (mo_now mo) (key_of u q) (ss_limiter s)) as [ok rl] eqn:El.
  unfold inside, rateLimitAuthMiddleware. destruct (isRateLimitedAuthPath (auth_request u q)) eqn:Hl.
  - pose proof (login_public u q (ss_world s) Hl) as Hc. rewrite Hc. unfold client_key in El. rewrite El. destruct ok.
    2:{ cbn. split_and!; [done|done|done|done|]. by intros [?|?]. }
    pose proof (limited_auth_spec (mo_now mo) (key_of u q) (authorized_part cfg mux mo u q) (inner_request u q) (ss_world s) rl) as Hs.
    destruct (allow (mo_now mo) (key_of u q) rl) as [ok' rl']. rewrite Hs, Hc. rewrite (auth_free ok' true _ _ _ Hc).
    destruct (chain true mo u q (inner_request u q) (ss_world s)) as [res w'] eqn:E.
    assert (∀ b, chain b mo u q (inner_request u q) (ss_world s) = (res, w')) as Hb by (intros b; by rewrite (auth_free b true _ _ _ Hc)).
    destruct res as [resp|e]; cbn; (split_and!; [done|done|done|done|]); intros _; [exists (Ok resp)|exists (Err e)]; by split_and!.
  - pose proof (limited_auth_spec (mo_now mo) (key_of u q) (authorized_part cfg mux mo u q) (inner_request u q) (ss_world s) (ss_limiter s)) as Hs.
    rewrite El in Hs. rewrite Hs. clear Hs. cbn [orb]. destruct (wrong_guess (inner_request u q) (ss_world s)) eqn:Hc.
    + destruct (auth_guess ok (authorized_part cfg mux mo u q) _ _ Hc) as (w' & E & Hw). rewrite E. cbn.
      split_and!; [done|done|by destruct ok|done|]. intros _. eexists. by split_and!.
    + destruct (chain ok mo u q (inner_request u q) (ss_world s)) as [res w'] eqn:E.
      assert (∀ b, chain b mo u q (inner_request u q) (ss_world s) = (res, w')) as Hb by (intros b; by rewrite (auth_free b ok _ _ _ Hc)).
      destruct res as [resp|e]; cbn; (split_and!; [done|done|done|done|]); intros _; [exists (Ok resp)|exists (Err e)]; by split_and!.
Qed.
End requests.

(** ** Shutdown *)

(** What has happened when a phase is reached. *)
Record sd_inv (s : Shutdown) : Prop := {
  si_open : sd_open s = bool_decide (sd_phase s ≠ Down);
  si_tick : sd_ticking s = true → sd_janitor s = true;
  si_http : (2 ≤ phase_rank (sd_phase s))%nat → sd_requests s = 0%nat ∨ (sd_expired s).1 = true;
  si_hooks : (3 ≤ phase_rank (sd_phase s))%nat → sd_deliveries s = 0%nat ∨ (sd_expired s).2 = true;
  si_rpcs : (4 ≤ phase_rank (sd_phase s))%nat → sd_rpcs s = 0%nat;
  si_janitor : (5 ≤ phase_rank (sd_phase s))%nat → sd_janitor s = false
}.

Ltac sd_crush :=
  repeat match goal with
  | H : _ ∨ _ |- _ => destruct H
  | H : (_ || _) = true |- _ => apply orb_true_iff in H
  | H : (_ <=? _)%nat = true |- _ => apply Nat.leb_le in H
  | e : (bool * bool)%type |- _ => destruct e
  end; simplify_eq/=; try lia; naive_solver lia.

Lemma sd_step_inv s s' : sd_step s s' → sd_inv s → sd_inv s'.
Proof.
  intros Hstep [H1 H2 H3 H4 H5 H6].
  destruct Hstep; unfold http_accepts, dispatcher_takes, grpc_accepts in *; cbn in *; (split; cbn; [..]); sd_crush.
Qed.

Lemma sd_reach janitor s : rtc sd_step (sd_start janitor) s → sd_inv s.
Proof.
  assert (sd_inv (sd_start janitor)) as Hi by (split; cbn; lia || done). intros Hs. induction Hs as [|x y z Hxy _ IH]; [done|].
  apply IH. by eapply sd_step_inv.
Qed.

(** ** The shutdown ends *)

Lemma finish_exports p a b c t j e o g : rtc sd_step (mkShutdown p a b c t j e o g) (mkShutdown p a b 0 t j e o g).
Proof. induction c as [|c IH]; [done|]. eapply rtc_l; [apply sd_exported|exact IH]. Qed.

Lemma janitor_ends p a b c t j e o g : p ≠ Serving → (t = true → j = true) → rtc sd_step (mkShutdown p a b c t j e o g) (mkShutdown p a b c false false e o g).
Proof.
  intros Hp Ht. destruct t, j; try (by specialize (Ht eq_refl)); try done.
  - eapply rtc_l; [apply sd_tock|]. by apply rtc_once, sd_leave.
  - by apply rtc_once, sd_leave.
Qed.

Abbreviation ends s := (∃ s', rtc sd_step s s' ∧ sd_phase s' = Down).

Lemma ends_step s s' : sd_step s s' → ends s' → ends s.
Proof. intros Hs (x & Hx & Hd). exists x. split; [|done]. by eapply rtc_l. Qed.

Lemma ends_steps s s' : rtc sd_step s s' → ends s' → ends s.
Proof. intros Hs (x & Hx & Hd). exists x. split; [|done]. by transitivity s'. Qed.

Lemma closing_ends a b c t j e o g : ends (mkShutdown StoreClosing a b c t j e o g).
Proof. eapply ends_step; [apply sd_close|]. by eexists. Qed.

Lemma stopping_ends a b c t j e o g : (t = true → j = true) → ends (mkShutdown JanitorStopping a b c t j e o g).
Proof. intros Ht. eapply ends_steps; [by apply janitor_ends|]. eapply ends_step; [apply sd_awaited|]. apply closing_ends. Qed.

Lemma grpc_ends a b c t j e o g : (t = true → j = true) → ends (mkShutdown GrpcDraining a b c t j e o g).
Proof. intros Ht. eapply ends_steps; [apply finish_exports|]. eapply ends_step; [apply sd_graceful|]. by apply stopping_ends. Qed.

Lemma dispatcher_ends a b c t j e o g : (t = true → j = true) → ends (mkShutdown DispatcherDraining a b c t j e o g).
Proof. intros Ht. eapply ends_step; [by apply (sd_stop _ _ _ _ _ _ _ _ true); right|]. by apply grpc_ends. Qed.

Lemma http_ends a b c t j e o g : (t = true → j = true) → ends (mkShutdown HttpDraining a b c t j e o g).
Proof. intros Ht. eapply ends_step; [by apply (sd_http _ _ _ _ _ _ _ _ true); right|]. by apply dispatcher_ends. Qed.

Lemma shutdown_ends s : sd_inv s → sd_phase s ≠ Serving → ends s.
Proof.
  intros [_ Ht _ _ _ _] Hp. destruct s as [p a b c t j e o g]; cbn in *. destruct p; [done|..].
  - by apply http_ends.
  - by apply dispatcher_ends.
  - by apply grpc_ends.
  - by apply stopping_ends.
  - apply closing_ends.
  - by eexists.
Qed.

(** [GracefulStop] waits as long as an export is in progress: the deadline of
    the shutdown does not reach it. *)
Lemma export_holds_shutdown s s' : sd_step s s' → sd_phase s = GrpcDraining → sd_rpcs s ≠ 0%nat → sd_phase s' = GrpcDraining.
Proof. intros Hs. by destruct Hs. Qed.

(** The phases follow one another. *)
Lemma phase_monotone s s' : sd_step s s' → sd_phase s' = sd_phase s ∨ phase_rank (sd_phase s') = S (phase_rank (sd_phase s)).
Proof. intros Hs. destruct Hs; cbn; auto. Qed.

(** C37: the shutdown closes the store last and always can.  Whatever requests,
    webhook deliveries, gRPC exports, ticks of the janitor and touches of
    sessions are going on, the store is open until the process is down; when it
    is being closed no export and no tick is in progress and the janitor has
    ended, and what still runs are requests that outlasted the 10 s, deliveries
    that outlasted the 5 s, and touches of sessions, for which nobody waits.  A
    shutdown that has begun goes on through its phases one by one, and from each
    state of it the process can come down, if the exports end. *)
Theorem shutdown_ordered janitor s : rtc sd_step (sd_start janitor) s →
  (sd_open s = true ↔ sd_phase s ≠ Down) ∧
  ((phase_rank StoreClosing ≤ phase_rank (sd_phase s))%nat →
     sd_rpcs s = 0%nat ∧ sd_ticking s = false ∧ sd_janitor s = false ∧
     (sd_requests s = 0%nat ∨ (sd_expired s).1 = true) ∧ (sd_deliveries s = 0%nat ∨ (sd_expired s).2 = true)) ∧
  (∀ s', sd_step s s' → sd_phase s' = sd_phase s ∨ phase_rank (sd_phase s') = S (phase_rank (sd_phase s))) ∧
  (sd_phase s ≠ Serving → ∃ s', rtc sd_step s s' ∧ sd_phase s' = Down).
Proof.
  intros Hi%sd_reach. split_and!.
  - rewrite (si_open _ Hi). apply bool_decide_eq_true.
  - cbn. intros Hr. split_and!; [apply (si_rpcs _ Hi); lia| |apply (si_janitor _ Hi); lia|apply (si_http _ Hi); lia|apply (si_hooks _ Hi); lia].
    apply not_true_iff_false. intros Ht%(si_tick _ Hi). rewrite (si_janitor _ Hi) in Ht by lia. done.
  - apply phase_monotone.
  - by apply shutdown_ends.
Qed.

(** ** A run *)
Module Example22.
Definition ex_settings : Settings :=
  mkSettings "/data" "/data/db" "/data/a" ":5000" "basic" "ann" "hash" "" "" "" "" "" 0 0 0 0 0 0 false false "" "fs" "" "" "" "" "" "" 0 ":4317" true 1 1 0 "".
Definition wrong : Incoming :=
  mkIncoming (mkReqURL "/api/v2/experiments" "") "GET" ∅ ∅ (Some ("ann", "guess")%string) "10.0.0.1:443" [] false.
Definition at_start : ServerState := mkServerState (mkWorld ex_db 0) (newAuthRateLimiter (of_int 5) (fdiv (of_int 1) (of_int 12))) NewRegistry.
Definition ex_moment : Moment := mkMoment 0 0 (of_int 0) "/api/v1/experiments" (mkProcessState 1 0 None None None None).
Definition answer := buildRouter (λ _, []) (λ _ _, false) (λ s, s) true Example15.host_port Example15.parse Example15.bytes_text Example15.bytes_text
  ex_settings [] (λ _ _, ex_handler) ex_moment wrong at_start.

(** A wrong password is refused, takes a token and changes no data. *)
Lemma requests_served_witness :
  rep_Status answer.1 = 401 ∧ w_db (ss_world answer.2) = ex_db ∧ rep_Header answer.1 !! "X-Frame-Options"%string = Some "DENY"%string ∧
  ss_limiter answer.2 = (allow 0 "10.0.0.1" (ss_limiter at_start)).2.
Proof.
  pose proof (requests_served (λ _, []) (λ _ _, false) (λ s, s) true Example15.host_port Example15.parse Example15.bytes_text Example15.bytes_text
    ex_settings [] (λ _ _, ex_handler) ex_moment wrong at_start (mkReqURL "/api/v1/experiments" "/api/v1/experiments") true ltac:(vm_compute; reflexivity)) as H.
  fold answer in H. destruct answer as [rep s']. cbv zeta in H.
  replace (client_key _ _ _ _ _ _ _) with "10.0.0.1"%string in H by (vm_compute; reflexivity).
  replace (wrong_guess _ _ _ _ _) with true in H by (vm_compute; reflexivity). cbn [mo_now ex_moment] in H.
  destruct (allow 0 "10.0.0.1" (ss_limiter at_start)) as [ok rl] eqn:E. destruct H as (H1 & H2 & H3 & _). cbn [fst snd]. rewrite H2, orb_true_r.
  destruct (H3 eq_refl) as [-> ->]. assert (ok = true) as -> by (apply (f_equal fst) in E; vm_compute in E; congruence).
  split; [reflexivity|]. split; [reflexivity|]. split; [apply H1; do 1 constructor 2; constructor 1|reflexivity].
Defined.

(** A cancelled server with a request, an export and a tick in progress. *)
Definition busy : Shutdown := mkShutdown HttpDraining 1 0 1 true true (false, false) true 0.

Lemma busy_reached : rtc sd_step (sd_start true) busy.
Proof.
  eapply rtc_l; [by apply sd_request|]. eapply rtc_l; [by apply sd_export|]. eapply rtc_l; [apply sd_tick|]. eapply rtc_l; [apply sd_begin|]. done.
Qed.

(** The touch of a session may find the store closed: the request that started
    it is answered, nothing has expired, and the process is down. *)
Theorem touch_outlives_store :
  ∃ s, rtc sd_step (sd_start true) s ∧ sd_touches s = 1%nat ∧ sd_requests s = 0%nat ∧ sd_expired s = (false, false) ∧ sd_open s = false.
Proof.
  exists (mkShutdown Down 0 0 0 false false (false, false) false 1). split; [|done].
  eapply rtc_l; [by apply sd_request|]. eapply rtc_l; [apply sd_touch|]. eapply rtc_l; [apply sd_reply|]. eapply rtc_l; [apply sd_begin|].
  eapply rtc_l; [by apply (sd_http _ _ _ _ _ _ _ _ false); left|]. eapply rtc_l; [by apply (sd_stop _ _ _ _ _ _ _ _ false); left|].
  eapply rtc_l; [apply sd_graceful|]. eapply rtc_l; [by apply sd_leave|]. eapply rtc_l; [apply sd_awaited|]. by apply rtc_once, sd_close.
Qed.

Lemma shutdown_ordered_witness : sd_open busy = true ∧ ∃ s', rtc sd_step busy s' ∧ sd_phase s' = Down.
Proof.
  destruct (shutdown_ordered true busy busy_reached) as (H1 & _ & _ & H4). split; [apply H1; discriminate|apply H4; discriminate].
Defined.
End Example22.
