(* ===== verification/Command.v ===== *)
(** * The command line (cmd/litemlflow/main.go)

    The [flag] package as the program uses it, what each subcommand makes of
    its arguments, and the subcommands that are no server: [migrate],
    [rollback], [hash-password] and [healthcheck]. *)

From S2P Require Import Prelude GoStrings Urls Paths Model Database Access RateLimit Config Migrations Migrator.
From Stdlib Require Import Ascii.

Open Scope Z_scope.

(** ** Flags *)

Inductive kind := KString | KBool | KInt64 | KDuration.
Inductive flag_value := VText (s : string) | VBool (b : bool) | VNumber (n : Z).
Inductive flag_error := BadSyntax | NotDefined | HelpRequested | NeedsArgument | InvalidValue.

(** An argument: one that ends the flags, [--], a malformed flag, or a flag
    with the value after its equals sign. *)
Inductive arg := Positional | Terminator | Malformed | Flag (name : string) (text : option string).

Definition read_name (name : string) : arg :=
  match name with
  | EmptyString => Malformed
  | String c rest =>
      if decide (c ∈ ["-"; "="]%char) then Malformed
      else match Cut rest "=" with Some (n, v) => Flag (String c n) (Some v) | None => Flag name None end
  end.

Definition read_arg (s : string) : arg :=
  match s with
  | String "-" EmptyString => Positional
  | String "-" (String "-" EmptyString) => Terminator
  | String "-" (String "-" name) => read_name name
  | String "-" name => read_name name
  | _ => Positional
  end.

(** [strconv.ParseBool] *)
Definition ParseBool (s : string) : option bool :=
  if decide (s ∈ ["1"; "t"; "T"; "TRUE"; "true"; "True"]%string) then Some true
  else if decide (s ∈ ["0"; "f"; "F"; "FALSE"; "false"; "False"]%string) then Some false else None.

(** [net.SplitHostPort] and [net.JoinHostPort] *)
Definition has_byte (c : ascii) (s : string) : bool := any_byte (λ d, bool_decide (d = c)) s.

Definition SplitHostPort (s : string) : option (string * string) :=
  match s with
  | String "[" rest =>
      match Cut rest "]" with
      | Some (host, String ":" port) =>
          if has_byte ":" port || has_byte "[" host || has_byte "[" port || has_byte "]" port then None else Some (host, port)
      | _ => None
      end
  | _ =>
      match LastIndex s ":" with
      | None => None
      | Some i =>
          let host := stake i s in
          if has_byte ":" host || has_byte "[" s || has_byte "]" s then None else Some (host, sdrop (S i) s)
      end
  end.

Definition JoinHostPort (host port : string) : string :=
  if has_byte ":" host then "[" +:+ host +:+ "]:" +:+ port else host +:+ ":" +:+ port.

Section flags.
(** [time.ParseDuration], and [strconv.ParseInt] with the base taken from the
    prefix. *)
Context (ParseDuration ParseInt0 : string → option Z).

Definition Set_ (k : kind) (text : string) : option flag_value :=
  match k with
  | KString => Some (VText text)
  | KBool => VBool <$> ParseBool text
  | KInt64 => VNumber <$> ParseInt0 text
  | KDuration => VNumber <$> ParseDuration text
  end.

Abbreviation values := (gmap string flag_value).

(** [FlagSet.Parse] with the flags [defs]: the values, and the arguments that
    are left. *)
Fixpoint flag_Parse (defs : gmap string kind) (vals : values) (args : list string) : flag_error + values * list string :=
  match args with
  | [] => inr (vals, [])
  | s :: args' =>
      match read_arg s with
      | Positional => inr (vals, args)
      | Terminator => inr (vals, args')
      | Malformed => inl BadSyntax
      | Flag name text =>
          match defs !! name with
          | None => inl (if decide (name ∈ ["help"; "h"]%string) then HelpRequested else NotDefined)
          | Some KBool =>
              match Set_ KBool (default "true"%string text) with
              | Some v => flag_Parse defs (<[name := v]> vals) args'
              | None => inl InvalidValue
              end
          | Some k =>
              match text, args' with
              | Some t, _ => match Set_ k t with Some v => flag_Parse defs (<[name := v]> vals) args' | None => inl InvalidValue end
              | None, t :: args'' => match Set_ k t with Some v => flag_Parse defs (<[name := v]> vals) args'' | None => inl InvalidValue end
              | None, [] => inl NeedsArgument
              end
          end
      end
  end.
End flags.

(** The value of a flag, or its default. *)
Definition text_flag (default_ name : string) (vals : gmap string flag_value) : string :=
  match vals !! name with Some (VText s) => s | _ => default_ end.
Definition bool_flag (name : string) (vals : gmap string flag_value) : bool :=
  match vals !! name with Some (VBool b) => b | _ => false end.
Definition number_flag (default_ : Z) (name : string) (vals : gmap string flag_value) : Z :=
  match vals !! name with Some (VNumber n) => n | _ => default_ end.

(** ** The subcommands' flags *)

Definition up_texts : list string :=
  ["data"; "addr"; "auth"; "basic-user"; "basic-pass-hash"; "oidc-issuer"; "oidc-client-id"; "oidc-client-secret"; "oidc-redirect-url";
   "artifact-backend"; "s3-endpoint"; "s3-bucket"; "s3-region"; "s3-access-key"; "s3-secret-key"; "s3-prefix"; "otlp-grpc-addr"; "trusted-proxies"].

Definition up_flags : gmap string kind :=
  list_to_map (((., KString) <$> up_texts) ++
    [("dev", KBool); ("enable-multi-tenant", KBool); ("session-ttl", KDuration); ("s3-multipart-threshold", KInt64)]%string).

(** The configuration [up] hands to [config.FromEnv]. *)
Definition up_settings (v : gmap string flag_value) : Settings :=
  let text name := text_flag EmptyString name v in
  mkSettings (text "data") "" "" (text "addr") (text "auth") (text "basic-user") (text "basic-pass-hash")
    (text "oidc-issuer") (text "oidc-client-id") (text "oidc-client-secret") (text "oidc-redirect-url") ""
    (number_flag 0 "session-ttl" v) 0 0 0 0 0 (bool_flag "dev" v) (bool_flag "enable-multi-tenant" v) "" (text "artifact-backend")
    (text "s3-endpoint") (text "s3-bucket") (text "s3-region") (text "s3-access-key") (text "s3-secret-key") (text "s3-prefix")
    (number_flag 0 "s3-multipart-threshold" v) (text "otlp-grpc-addr") false 0 0 0 (text "trusted-proxies").

Definition data_settings (dir : string) : Settings :=
  mkSettings dir "" "" "" "" "" "" "" "" "" "" "" 0 0 0 0 0 0 false false "" "" "" "" "" "" "" "" 0 "" false 0 0 0 "".

Definition data_flags : gmap string kind := {[ "data" := KString ]}%string.
Definition backup_flags : gmap string kind :=
  list_to_map [("data", KString); ("out", KString); ("include-only-db", KBool); ("include-s3", KBool)]%string.
Definition restore_flags : gmap string kind := list_to_map [("data", KString); ("in", KString)]%string.
Definition import_flags : gmap string kind :=
  list_to_map [("from", KString); ("data", KString); ("workspace", KString); ("include-deleted", KBool); ("dry-run", KBool)]%string.
Definition health_flags : gmap string kind := list_to_map [("url", KString); ("timeout", KDuration)]%string.

Inductive command_error :=
  | CUsage (code : Z)             (* no command, or one that does not exist *)
  | CFlag (e : flag_error)
  | CConfig (e : err)
  | CMissing (flag : string).

(** What a command line asks for. *)
Inductive errand :=
  | JUp (cfg : Settings)
  | JVersion | JHelp
  | JMigrate (cfg : Settings) | JRollback (cfg : Settings)
  | JBackup (cfg : Settings) (out : string) (includeOnlyDB includeS3 : bool)
  | JRestore (cfg : Settings) (input : string)
  | JImport (dataDir dbPath artifactsDir : string) (imp : MLflowImporter)
  | JHashPassword
  | JHealthcheck (url : string) (timeout : Z).

(** The health endpoint of a listen address. *)
Definition defaultHealthURL (addr : string) : string :=
  let '(host, port) :=
    match (if decide (addr = EmptyString) then None else SplitHostPort addr) with
    | Some (h, p) => (if decide (h ∈ [EmptyString; "0.0.0.0"; "::"]%string) then "127.0.0.1"%string else h,
                      if decide (p = EmptyString) then "5000"%string else p)
    | None => ("127.0.0.1", "5000")%string
    end in
  "http://" +:+ JoinHostPort host port +:+ "/healthz".

Section commands.
Context (ParseDuration ParseInt0 : string → option Z) (Getenv : string → string).
Context (ParsePrefix : string → option Prefix) (ParseAddr : string → option Addr).

Definition read_flags (defs : gmap string kind) (args : list string) : command_error + gmap string flag_value :=
  match flag_Parse ParseDuration ParseInt0 defs ∅ args with inl e => inl (CFlag e) | inr (vals, _) => inr vals end.

Definition from_env (c : Settings) : command_error + Settings :=
  match FromEnv Getenv ParseDuration ParsePrefix ParseAddr c with Ok cfg => inr cfg | Err e => inl (CConfig e) end.

Definition plan_up (args : list string) : command_error + errand :=
  match read_flags up_flags args with
  | inl e => inl e
  | inr v => match from_env (up_settings v) with inl e => inl e | inr cfg => inr (JUp cfg) end
  end.

Definition plan_data (f : Settings → errand) (args : list string) : command_error + errand :=
  match read_flags data_flags args with
  | inl e => inl e
  | inr v => match from_env (data_settings (text_flag EmptyString "data" v)) with inl e => inl e | inr cfg => inr (f cfg) end
  end.

Definition plan_backup (args : list string) : command_error + errand :=
  match read_flags backup_flags args with
  | inl e => inl e
  | inr v =>
      match from_env (data_settings (text_flag EmptyString "data" v)) with
      | inl e => inl e
      | inr cfg => inr (JBackup cfg (text_flag EmptyString "out" v) (bool_flag "include-only-db" v) (bool_flag "include-s3" v))
      end
  end.

Definition plan_restore (args : list string) : command_error + errand :=
  match read_flags restore_flags args with
  | inl e => inl e
  | inr v =>
      let input := text_flag EmptyString "in" v in
      if decide (input = EmptyString) then inl (CMissing "in") else
      match from_env (data_settings (text_flag EmptyString "data" v)) with inl e => inl e | inr cfg => inr (JRestore cfg input) end
  end.

(** The importer takes its directory from the flag only. *)
Definition plan_import (args : list string) : command_error + errand :=
  match read_flags import_flags args with
  | inl e => inl e
  | inr v =>
      let from := text_flag EmptyString "from" v in
      let dataDir := text_flag EmptyString "data" v in
      if decide (from = EmptyString) then inl (CMissing "from")
      else if decide (dataDir = EmptyString) then inl (CMissing "data") else
      inr (JImport dataDir (path_Join [dataDir; "litemlflow.db"%string]) (path_Join [dataDir; "artifacts"%string])
        (mkMLflowImporter from (text_flag "default" "workspace" v) (bool_flag "dry-run" v)
           (if bool_flag "include-deleted" v then FilterAll else FilterActive) true (path_Join [dataDir; ".import-state.json"%string])))
  end.

Definition plan_health (args : list string) : command_error + errand :=
  match read_flags health_flags args with
  | inl e => inl e
  | inr v => inr (JHealthcheck (text_flag (defaultHealthURL (Getenv "LITEMLFLOW_ADDR")) "url" v) (number_flag (3 * second) "timeout" v))
  end.

(** [main]: the command of the arguments after the program's name. *)
Definition plan (argv : list string) : command_error + errand :=
  match argv with
  | [] => inl (CUsage 2)
  | cmd :: args =>
      if decide (cmd ∈ ["up"; "serve"]%string) then plan_up args
      else if decide (cmd ∈ ["version"; "--version"; "-v"]%string) then inr JVersion
      else if decide (cmd = "migrate"%string) then plan_data JMigrate args
      else if decide (cmd = "rollback"%string) then plan_data JRollback args
      else if decide (cmd = "backup"%string) then plan_backup args
      else if decide (cmd = "restore"%string) then plan_restore args
      else if decide (cmd = "import-mlflow"%string) then plan_import args
      else if decide (cmd = "hash-password"%string) then
        match read_flags ∅ args with inl e => inl e | inr _ => inr JHashPassword end
      else if decide (cmd = "healthcheck"%string) then plan_health args
      else if decide (cmd ∈ ["help"; "-h"; "--help"]%string) then inr JHelp
      else inl (CUsage 1)
  end.

(** The exit code, where [ok] says whether a planned errand succeeds. *)
Definition exit_code (ok : errand → bool) (argv : list string) : Z :=
  match plan argv with
  | inl (CUsage code) => code
  | inl _ => 1
  | inr j => if ok j then 0 else 1
  end.
End commands.

(** ** Jobs that are no server *)

(** [HashPassword]; [bcrypt] is [GenerateFromPassword] at the default cost. *)
Definition HashPassword (bcrypt : string → option string) (plaintext : string) : option string := bcrypt plaintext.

Inductive hash_error := EmptyPassword | LongPassword | BcryptFailed.

Definition line_feed : string := String "010"%char EmptyString.
Definition carriage_return : string := String "013"%char EmptyString.

(** The password of the standard input. *)
Definition typed_password (raw : string) : string := TrimSuffix (TrimSuffix raw line_feed) carriage_return.

Definition runHashPassword (bcrypt : string → option string) (raw : string) : hash_error + string :=
  let pw := typed_password raw in
  if decide (pw = EmptyString) then inl EmptyPassword
  else if (72 <? slen pw)%nat then inl LongPassword
  else match HashPassword bcrypt pw with Some h => inr h | None => inl BcryptFailed end.

(** [Get]: the status and the body of the answer; [decode]: the first JSON
    value of a text as an object, with its field [ok]. *)
Definition checkHealth (Get : string → option (Z * string)) (decode : string → option bool) (url : string) : bool :=
  match Get url with
  | None => false
  | Some (status, body) =>
      if decide (status ≠ 200) then false
      else match decode (stake 65536 body) with None => false | Some ok => ok end
  end.

#[local] Existing Instances MG_ret MG_bind.

Section schema.
Context `{Clock} `{Sqlite} (files : list Entry).

(** A driver call whose error is dropped, as [ANALYZE] and [PRAGMA optimize]. *)
Definition ignored {A} (m : MG A) : MG (option A) := λ s, let '(r, s') := m s in (Some r, s').

Definition Migrate : MG unit :=
  _ ← Apply files;
  _ ← ignored (driver (λ s, (Some tt, s)));
  _ ← ignored (driver (λ s, (Some tt, s)));
  mret tt.

(** The version that is printed. *)
Definition runMigrate : MG Z := _ ← Migrate; CurrentVersion.
Definition runRollback : MG Z := _ ← Rollback files; v ← ignored CurrentVersion; mret (default 0 v).
End schema.

(** * Laws *)

(** ** Flags *)

Inductive style := Joined | Separate.

(** A flag on the command line, with the value it stands for. *)
Record option_ := mkOption { o_style : style; o_name : string; o_text : string; o_value : flag_value }.

Definition render_option (o : option_) : list string :=
  match o_style o with
  | Joined => ["--" +:+ o_name o +:+ "=" +:+ o_text o]
  | Separate => ["--" +:+ o_name o; o_text o]
  end.

Definition good_name (name : string) : bool :=
  match name with String c n => bool_decide (c ∉ ["-"; "="]%char) && negb (has_byte "=" n) | EmptyString => false end.

Definition insert_option (vals : gmap string flag_value) (o : option_) : gmap string flag_value := <[o_name o := o_value o]> vals.

Lemma read_name_joined name text : good_name name = true → read_name (name +:+ "=" +:+ text) = Flag name (Some text).
Proof.
  destruct name as [|c n]; [done|]. cbn [good_name]. intros [Hc%bool_decide_eq_true Hn%negb_true_iff]%andb_prop.
  cbn [String.append read_name]. rewrite decide_False by done. by rewrite (Cut_app_not_in n "=" text).
Qed.

Lemma Index_absent s c : has_byte c s = false → Index s (String c EmptyString) = None.
Proof.
  induction s as [|a s IH]; [done|]. cbn [has_byte any_byte Index HasPrefix]. intros [Ha Hs]%orb_false_iff. rewrite Ha. cbn [andb].
  by rewrite IH.
Qed.

Lemma read_name_plain name : good_name name = true → read_name name = Flag name None.
Proof.
  destruct name as [|c n]; [done|]. cbn [good_name]. intros [Hc%bool_decide_eq_true Hn%negb_true_iff]%andb_prop.
  cbn [read_name]. rewrite decide_False by done. unfold Cut. by rewrite (Index_absent n "=").
Qed.

Lemma read_arg_dashes name : name ≠ EmptyString → read_arg ("--" +:+ name) = read_name name.
Proof. destruct name as [|c n]; [done|]. intros _. cbn [String.append]. reflexivity. Qed.

Section options.
Context (ParseDuration ParseInt0 : string → option Z).
Abbreviation Parse := (flag_Parse ParseDuration ParseInt0).

Definition option_ok (defs : gmap string kind) (o : option_) : Prop :=
  good_name (o_name o) = true ∧
  ∃ k, defs !! o_name o = Some k ∧ Set_ ParseDuration ParseInt0 k (o_text o) = Some (o_value o) ∧ (k = KBool → o_style o = Joined).

(** Flags are read one after the other, in both forms, and the last of two
    values counts. *)
Lemma parse_options defs vals opts rest : Forall (option_ok defs) opts →
  Parse defs vals (concat (render_option <$> opts) ++ rest) = Parse defs (foldl insert_option vals opts) rest.
Proof.
  intros Ho. revert vals. induction Ho as [|o opts (Hn & k & Hk & Hv & Hb) _ IH]; intros vals; [done|].
  destruct o as [st name text v]. cbn [o_name o_text o_value o_style] in *. destruct name as [|c n] eqn:En; [done|]. rewrite <- En in *.
  cbn [fmap list_fmap concat foldl]. rewrite <- app_assoc. unfold insert_option at 2. cbn [o_name o_value]. rewrite <- IH.
  destruct st; cbn [render_option o_style o_name o_text app flag_Parse].
  - rewrite read_arg_dashes by (by rewrite En). rewrite read_name_joined, Hk by done. destruct k; cbn [from_option]; unfold id; by rewrite Hv.
  - rewrite read_arg_dashes by (by rewrite En). rewrite read_name_plain, Hk by done. destruct k; [by rewrite Hv|by specialize (Hb eq_refl)|by rewrite Hv|by rewrite Hv].
Qed.
End options.

(** ** The command [up] *)

(** What the flags of [up] can set. *)
Definition flag_settings (s : Settings) : Prop :=
  c_DBPath s = EmptyString ∧ c_ArtifactsDir s = EmptyString ∧ c_OIDCScopes s = EmptyString ∧ c_FederationName s = EmptyString ∧
  c_MaxArtifactSize s = 0 ∧ c_MaxRequestSize s = 0 ∧ c_ReadTimeout s = 0 ∧ c_WriteTimeout s = 0 ∧ c_IdleTimeout s = 0 ∧
  c_JanitorEnabled s = false ∧ c_JanitorInterval s = 0 ∧ c_RunStaleAfter s = 0 ∧ c_EventsRetention s = 0.

Definition up_values (s : Settings) : list string :=
  [c_DataDir s; c_Addr s; c_Auth s; c_BasicUser s; c_BasicPassHash s; c_OIDCIssuer s; c_OIDCClientID s; c_OIDCClientSecret s; c_OIDCRedirectURL s;
   c_ArtifactBackend s; c_S3Endpoint s; c_S3Bucket s; c_S3Region s; c_S3AccessKey s; c_S3SecretKey s; c_S3Prefix s; c_OTLPGRPCAddr s; c_TrustedProxies s].

Definition bool_text (b : bool) : string := if b then "true" else "false".

(** The settings as flags; the switches take their value in the joined form. *)
Definition up_options (sty : string → style) (ttl threshold : string) (s : Settings) : list option_ :=
  zip_with (λ name text, mkOption (sty name) name text (VText text)) up_texts (up_values s) ++
  [mkOption Joined "dev" (bool_text (c_DevMode s)) (VBool (c_DevMode s));
   mkOption Joined "enable-multi-tenant" (bool_text (c_EnableMultiTenant s)) (VBool (c_EnableMultiTenant s));
   mkOption (sty "session-ttl"%string) "session-ttl" ttl (VNumber (c_SessionTTL s));
   mkOption (sty "s3-multipart-threshold"%string) "s3-multipart-threshold" threshold (VNumber (c_S3MultipartThreshold s))].

Lemma up_settings_options sty ttl threshold s : flag_settings s → up_settings (foldl insert_option ∅ (up_options sty ttl threshold s)) = s.
Proof. destruct s. unfold flag_settings. cbn. intros (-> & -> & -> & -> & -> & -> & -> & -> & -> & -> & -> & -> & ->). vm_compute. reflexivity. Qed.

(** A flag [up] does not have. *)
Definition unknown (defs : gmap string kind) (s : string) : Prop := ∃ name text, read_arg s = Flag name text ∧ defs !! name = None.

Section up.
Context (ParseDuration ParseInt0 : string → option Z) (Getenv : string → string).
Context (ParsePrefix : string → option Prefix) (ParseAddr : string → option Addr).

Lemma up_options_ok sty ttl threshold s : ParseDuration ttl = Some (c_SessionTTL s) → ParseInt0 threshold = Some (c_S3MultipartThreshold s) →
  Forall (option_ok ParseDuration ParseInt0 up_flags) (up_options sty ttl threshold s).
Proof.
  intros Ht Hn. unfold up_options, up_texts, up_values. cbn.
  repeat apply Forall_cons_2; try apply Forall_nil_2; (split; [vm_compute; reflexivity|]).
  all: try (exists KString; split_and!; [vm_compute; reflexivity|reflexivity|done]).
  - exists KBool. split_and!; [vm_compute; reflexivity|by destruct (c_DevMode s)|done].
  - exists KBool. split_and!; [vm_compute; reflexivity|by destruct (c_EnableMultiTenant s)|done].
  - exists KDuration. split_and!; [vm_compute; reflexivity|cbn; by rewrite Ht|done].
  - exists KInt64. split_and!; [vm_compute; reflexivity|cbn; by rewrite Hn|done].
Qed.

(** What a flag of a kind does not accept. *)
Definition malformed (k : kind) (text : string) : Prop :=
  match k with
  | KString => False
  | KBool => text ∉ ["1"; "t"; "T"; "TRUE"; "true"; "True"; "0"; "f"; "F"; "FALSE"; "false"; "False"]%string
  | KInt64 => ParseInt0 text = None
  | KDuration => ParseDuration text = None
  end.

Lemma malformed_Set k text : malformed k text → Set_ ParseDuration ParseInt0 k text = None.
Proof.
  destruct k; cbn; [done| |by intros ->|by intros ->]. intros Ht. unfold ParseBool.
  rewrite !elem_of_cons, elem_of_nil in Ht. rewrite !decide_False by (rewrite !elem_of_cons, elem_of_nil; tauto). done.
Qed.

Lemma up_flag_names name k : up_flags !! name = Some k → good_name name = true.
Proof.
  assert (Forall (λ p : string * kind, good_name p.1 = true) (map_to_list up_flags)) as Hall by (vm_compute; repeat constructor).
  rewrite <- elem_of_map_to_list. intros Hin. by apply (proj1 (Forall_forall _ _) Hall (name, k)).
Qed.

(** C38: the command line of the server says what is asked.  Whatever settings
    the flags can express, their flags (each as [--name=value] or, the switches
    apart, as two arguments) make [up] start with exactly the configuration
    [FromEnv] resolves from these settings, or fail with its error; arguments
    from the first one on that is no flag (or after [--]) are not read at all.
    A switch alone is on, and takes no value from the next argument.  Refused
    before anything starts are a malformed flag and one that does not exist, a
    flag other than a switch at the end without its value, and every value that
    its flag does not accept: of a switch, a number or a duration after the
    equals sign, of a number or a duration also as the next argument. *)
Theorem command_line s sty ttl threshold : flag_settings s →
  ParseDuration ttl = Some (c_SessionTTL s) → ParseInt0 threshold = Some (c_S3MultipartThreshold s) →
  let args := concat (render_option <$> up_options sty ttl threshold s) in
  let plan := plan ParseDuration ParseInt0 Getenv ParsePrefix ParseAddr in
  (∀ rest, head rest ≫= (λ p, Some (read_arg p)) ∈ [None; Some Positional; Some Terminator] →
     plan ("up" :: args ++ rest)%string = match FromEnv Getenv ParseDuration ParsePrefix ParseAddr s with Ok cfg => inr (JUp cfg) | Err e => inl (CConfig e) end) ∧
  (∀ name rest, up_flags !! name = Some KBool → plan ("up" :: args ++ ("--" +:+ name) :: rest)%string = plan ("up" :: args ++ ("--" +:+ name +:+ "=true") :: rest)%string) ∧
  (∀ bad rest, read_arg bad = Malformed → plan ("up" :: args ++ bad :: rest)%string = inl (CFlag BadSyntax)) ∧
  (∀ bad rest, unknown up_flags bad → ∃ e, e ∈ [NotDefined; HelpRequested] ∧ plan ("up" :: args ++ bad :: rest)%string = inl (CFlag e)) ∧
  (∀ name k, up_flags !! name = Some k → k ≠ KBool → plan ("up" :: args ++ ["--" +:+ name])%string = inl (CFlag NeedsArgument)) ∧
  (∀ name k text rest, up_flags !! name = Some k → malformed k text →
     plan ("up" :: args ++ ("--" +:+ name +:+ "=" +:+ text) :: rest)%string = inl (CFlag InvalidValue) ∧
     (k ≠ KBool → plan ("up" :: args ++ ("--" +:+ name) :: text :: rest)%string = inl (CFlag InvalidValue))).
Proof.
  intros Hs Ht Hn. cbv zeta. pose proof (up_options_ok sty _ _ s Ht Hn) as Ho. pose proof (up_settings_options sty ttl threshold s Hs) as Hset.
  assert (∀ rest, plan ParseDuration ParseInt0 Getenv ParsePrefix ParseAddr ("up" :: concat (render_option <$> up_options sty ttl threshold s) ++ rest)%string =
    match flag_Parse ParseDuration ParseInt0 up_flags (foldl insert_option ∅ (up_options sty ttl threshold s)) rest with
    | inl e => inl (CFlag e)
    | inr (v, _) => match from_env ParseDuration Getenv ParsePrefix ParseAddr (up_settings v) with inl e => inl e | inr cfg => inr (JUp cfg) end
    end) as Hplan.
  { intros rest. unfold plan. rewrite decide_True by constructor. unfold plan_up, read_flags. rewrite parse_options by done.
    by destruct (flag_Parse _ _ _ _ rest) as [?|[? ?]]. }
  revert Hplan Hset. generalize (foldl insert_option ∅ (up_options sty ttl threshold s)). intros vals Hplan Hset.
  assert (match from_env ParseDuration Getenv ParsePrefix ParseAddr (up_settings vals) with inl e => inl e | inr cfg => inr (JUp cfg) end
     = match FromEnv Getenv ParseDuration ParsePrefix ParseAddr s with Ok cfg => inr (JUp cfg) | Err e => inl (CConfig e) end) as Hend.
  { rewrite Hset. unfold from_env. by destruct (FromEnv _ _ _ _ s). }
  assert (∀ name k, up_flags !! name = Some k → read_arg ("--" +:+ name) = Flag name None ∧
    ∀ text, read_arg ("--" +:+ name +:+ "=" +:+ text) = Flag name (Some text)) as Hread.
  { intros name k Hk. apply up_flag_names in Hk as Hg. split; [|intros text]; (rewrite read_arg_dashes by (by destruct name)).
    - by apply read_name_plain.
    - by apply read_name_joined. }
  split_and!.
  - intros rest Hr. rewrite Hplan. destruct rest as [|p rest]; [exact Hend|]. cbn in Hr. cbn [flag_Parse].
    rewrite !elem_of_cons, elem_of_nil in Hr. destruct Hr as [?|[[= ->]|[[= ->]|[]]]]; [done|exact Hend|exact Hend].
  - intros name rest Hk. rewrite !Hplan. cbn [flag_Parse]. destruct (Hread _ _ Hk) as [-> Hj]. change ("=true")%string with ("=" +:+ "true")%string.
    rewrite (Hj "true"%string), Hk. done.
  - intros bad rest Hb. rewrite Hplan. cbn [flag_Parse]. by rewrite Hb.
  - intros bad rest (name & text & Hb & Hu). rewrite Hplan. cbn [flag_Parse]. rewrite Hb, Hu. eexists. split; [|reflexivity].
    case_decide; [right; left|left].
  - intros name k Hk Hne. rewrite Hplan. cbn [flag_Parse]. rewrite (proj1 (Hread _ _ Hk)), Hk. by destruct k.
  - intros name k text rest Hk Hm%malformed_Set. rewrite !Hplan. cbn [flag_Parse]. destruct (Hread _ _ Hk) as [Ha Hj]. rewrite Ha, Hj, Hk. split.
    + destruct k; cbn [from_option]; unfold id; by rewrite Hm.
    + intros Hne. destruct k; try done; by rewrite Hm.
Qed.
End up.

(** ** Passwords *)

Lemma HasSuffix_app s p : HasSuffix (s +:+ p) p = true.
Proof.
  unfold HasSuffix. rewrite slen_app. apply andb_true_iff. split; [apply Nat.leb_le; lia|].
  replace (slen s + slen p - slen p)%nat with (slen s) by lia. apply bool_decide_eq_true.
  apply sdrop_app.
Qed.

Lemma TrimSuffix_app s p : TrimSuffix (s +:+ p) p = s.
Proof. unfold TrimSuffix. rewrite HasSuffix_app, slen_app. replace (slen s + slen p - slen p)%nat with (slen s) by lia. apply stake_app. Qed.

Lemma TrimSuffix_none s p : HasSuffix s p = false → TrimSuffix s p = s.
Proof. unfold TrimSuffix. by intros ->. Qed.

(** The line that a password is typed in. *)
Lemma typed_password_line pw eol :
  HasSuffix pw line_feed = false → HasSuffix pw carriage_return = false → eol ∈ [EmptyString; line_feed; carriage_return +:+ line_feed] →
  typed_password (pw +:+ eol) = pw.
Proof.
  intros Hl Hc He. unfold typed_password. rewrite !elem_of_cons, elem_of_nil in He. destruct He as [->|[->|[->|[]]]].
  - by rewrite sapp_nil_r, (TrimSuffix_none pw line_feed), TrimSuffix_none.
  - by rewrite TrimSuffix_app, TrimSuffix_none.
  - by rewrite <- sapp_assoc, !TrimSuffix_app.
Qed.

(** A password hashed with [hash-password], with or without the end of its
    line, is the one that logs in. *)
Theorem hashed_password_logs_in sha256 bcrypt_ok bcrypt user pw eol :
  (∀ p h, bcrypt p = Some h → isBcryptHash h = true ∧ ∀ p', bcrypt_ok h p' = bool_decide (p' = p)) →
  (∀ p, (slen p ≤ 72)%nat → is_Some (bcrypt p)) →
  pw ≠ EmptyString → (slen pw ≤ 72)%nat → HasSuffix pw line_feed = false → HasSuffix pw carriage_return = false →
  eol ∈ [EmptyString; line_feed; carriage_return +:+ line_feed] →
  ∃ h, runHashPassword bcrypt (pw +:+ eol) = inr h ∧
    ∀ user' pw', VerifyBasicCredentials sha256 bcrypt_ok user h user' pw' = bool_decide (user' = user ∧ pw' = pw).
Proof.
  intros Hb Hs Hne Hlen Hl Hc He. destruct (Hs pw Hlen) as [h Hh]. exists h. unfold runHashPassword. cbv zeta. rewrite typed_password_line by done.
  rewrite decide_False by done. rewrite (proj2 (Nat.ltb_ge _ _)) by lia. unfold HashPassword. rewrite Hh. split; [done|]. intros user' pw'.
  destruct (Hb _ _ Hh) as [Hi Hv]. unfold VerifyBasicCredentials, verifyPasswordHash. rewrite Hi, Hv.
  apply eq_true_iff_eq. rewrite andb_true_iff, !bool_decide_eq_true. done.
Qed.

(** ** The health check *)

Lemma has_byte_app c s t : has_byte c (s +:+ t) = has_byte c s || has_byte c t.
Proof. apply any_byte_app. Qed.

Lemma LastIndex_none s c : has_byte c s = false → LastIndex s (String c EmptyString) = None.
Proof.
  induction s as [|a s IH]; [done|]. cbn [has_byte any_byte LastIndex HasPrefix]. intros [Ha Hs]%orb_false_iff. unfold has_byte in IH. rewrite (IH Hs).
  cbn [fmap option_fmap option_map]. by rewrite Ha.
Qed.

Lemma LastIndex_app s c t : has_byte c t = false → LastIndex (s +:+ String c t) (String c EmptyString) = Some (slen s).
Proof.
  intros Ht. induction s as [|a s IH]; cbn [String.append LastIndex].
  - rewrite LastIndex_none by done. cbn. by rewrite bool_decide_true, HasPrefix_nil by done.
  - by rewrite IH.
Qed.

Definition bracketless (s : string) : bool := negb (has_byte "[" s) && negb (has_byte "]" s).

(** The two halves of an address are found again. *)
Lemma SplitHostPort_Join host port : bracketless host = true → bracketless port = true → has_byte ":" port = false →
  SplitHostPort (JoinHostPort host port) = Some (host, port).
Proof.
  unfold bracketless. rewrite !andb_true_iff, !negb_true_iff. intros [H1 H2] [H3 H4] H5. unfold JoinHostPort. destruct (has_byte ":" host) eqn:Hc.
  - change ("[" +:+ host +:+ "]:" +:+ port)%string with (String "[" (host +:+ String "]" (String ":" port))). cbn [SplitHostPort].
    rewrite (Cut_app_not_in host "]") by exact H2. by rewrite H1, H3, H4, H5.
  - assert (∀ s, s = host +:+ String ":" port → match LastIndex s ":" with None => None | Some i =>
        let h := stake i s in if has_byte ":" h || has_byte "[" s || has_byte "]" s then None else Some (h, sdrop (S i) s) end = Some (host, port)) as Hs.
    { intros s ->. rewrite LastIndex_app by done. cbv zeta. rewrite stake_app, !has_byte_app, Hc, H1, H2. cbn [has_byte any_byte orb].
      rewrite !bool_decide_false by done. cbn [orb]. unfold has_byte in H3, H4. rewrite H3, H4. cbn [orb].
      replace (S (slen host)) with (slen host + 1)%nat by lia. by rewrite sdrop_app_plus. }
    change (host +:+ ":" +:+ port)%string with (host +:+ String ":" port). unfold SplitHostPort. destruct host as [|c h]; [by apply Hs|].
    cbn [String.append]. destruct (decide (c = "["%char)) as [->|Hne]; [done|].
    specialize (Hs (String c h +:+ String ":" port) eq_refl). cbn [String.append] in Hs.
    destruct c as [[] [] [] [] [] [] [] []]; try exact Hs. done.
Qed.

(** Where the health check looks for a server that listens on an address. *)
Lemma health_url host port : bracketless host = true → bracketless port = true → has_byte ":" port = false → port ≠ EmptyString →
  defaultHealthURL (JoinHostPort host port) =
  ("http://" +:+ JoinHostPort (if decide (host ∈ [EmptyString; "0.0.0.0"; "::"]) then "127.0.0.1" else host) port +:+ "/healthz")%string.
Proof.
  intros H1 H2 H3 H4. unfold defaultHealthURL. rewrite SplitHostPort_Join by done.
  assert (JoinHostPort host port ≠ EmptyString) as Hne by (unfold JoinHostPort; destruct (has_byte ":" host); [done|by destruct host]).
  rewrite decide_False by done. by rewrite (decide_False (P := port = EmptyString)) by done.
Qed.

(** ** The schema commands *)

Section schema_laws.
Context `{Clock} `{Sqlite} (files : list Entry) (all : list Migration) (Hload : Load files = Some all).

Lemma ignored_driver_same t0 k s : at_version all t0 k s →
  let '(r, s') := ignored (driver (λ s, (Some tt, s))) s in r ≠ None ∧ at_version all t0 k s'.
Proof.
  intros Hv. unfold ignored. destruct (driver_cases (λ s, (Some tt, s)) s) as [-> |[? ->]]; (split; [done|]); by eapply at_version_same; [exact Hv|apply Hv|..].
Qed.

(** [migrate] prints the last version when it succeeds, and [rollback] the one
    before that it found, unless it cannot be read again. *)
Lemma schema_commands t0 k s : at_version all t0 k s →
  (let '(r, s') := runMigrate files s in ∃ k', (k ≤ k')%nat ∧ at_version all t0 k' s' ∧ ∀ v, r = Some v → v = Z.of_nat (length all) ∧ k' = length all) ∧
  (let '(r, s') := runRollback files s in
   match r with
   | Some v => ∃ j, k = S j ∧ at_version all t0 j s' ∧ (v = Z.of_nat j ∨ (v = 0 ∧ ¬ reliable))
   | None => at_version all t0 k s'
   end).
Proof.
  intros Hv. split.
  - unfold runMigrate, Migrate, mbind, MG_bind. pose proof (Apply_spec files all Hload t0 k s Hv) as Ha. destruct (Apply files s) as [[u|] s1].
    2:{ destruct Ha as (k' & ? & ? & _). by exists k'. }
    destruct Ha as (k' & Hk & Hv1 & _ & ->). pose proof (ignored_driver_same _ _ _ Hv1) as H1.
    destruct (ignored (driver _) s1) as [[x1|] s2]; [|by destruct H1]. destruct H1 as [_ Hv2]. pose proof (ignored_driver_same _ _ _ Hv2) as H2.
    destruct (ignored (driver _) s2) as [[x2|] s3]; [|by destruct H2]. destruct H2 as [_ Hv3]. cbn [mret MG_ret].
    pose proof (CurrentVersion_spec all t0 _ s3 Hv3) as Hc. destruct (CurrentVersion s3) as [r s4]. destruct Hc as (_ & _ & Hv4 & Hr).
    exists (length all). split_and!; [done..|]. intros v ->. by destruct Hr as [-> _].
  - unfold runRollback, Rollback, mbind, MG_bind. pose proof (rollbackImpl_spec files all Hload t0 false k s Hv) as Hr.
    destruct (rollbackImpl files false s) as [[u|] s1]; [|apply Hr]. destruct Hr as (j & m & -> & _ & _ & Hv1 & _).
    unfold ignored. pose proof (CurrentVersion_spec all t0 _ s1 Hv1) as Hc. destruct (CurrentVersion s1) as [r s2]. destruct Hc as (_ & _ & Hv2 & Hr).
    cbn [mret MG_ret]. exists j. split_and!; [done..|]. destruct r as [v|]; [left; by destruct Hr|by right].
Qed.
End schema_laws.

(** ** A command line *)
Module Example23.
Definition durations (s : string) : option Z := if decide (s = "1h"%string) then Some hour else None.
Definition ex_start : Settings :=
  mkSettings "/data" "" "" ":8080" "none" "" "" "" "" "" "" "" hour 0 0 0 0 0 true false "" "" "" "" "" "" "" "" 7 "" false 0 0 0 "".
Definition ex_line : list string := ("up" :: concat (render_option <$> up_options (λ n, if decide (n = "addr"%string) then Separate else Joined) "1h" "7" ex_start))%string.
Definition planned := plan durations ParseInt (λ _, EmptyString) (λ _, None) (λ _, None) ex_line.

Lemma command_line_witness : ∃ cfg, planned = inr (JUp cfg) ∧ c_Addr cfg = ":8080"%string ∧ c_SessionTTL cfg = hour.
Proof.
  destruct (command_line durations ParseInt (λ _, EmptyString) (λ _, None) (λ _, None) ex_start
    (λ n, if decide (n = "addr"%string) then Separate else Joined) "1h" "7") as [H1 _].
  - repeat split.
  - reflexivity.
  - vm_compute. reflexivity.
  - specialize (H1 [] ltac:(left)). rewrite app_nil_r in H1. unfold planned, ex_line. rewrite H1. vm_compute.
    eexists. split; [reflexivity|]. split; reflexivity.
Defined.

(** A carriage return at the end of a password is cut off also where no end of
    a line follows. *)
Example lone_carriage_return : typed_password ("pw" +:+ carriage_return) = "pw"%string.
Proof. reflexivity. Qed.

(** What follows the first argument that is no flag is not read: the data
    directory named there is not the one that is migrated. *)
Example flags_after_argument :
  plan durations ParseInt (λ n, if decide (n = "LITEMLFLOW_DATA"%string) then "/live"%string else EmptyString) (λ _, None) (λ _, None)
    ["rollback"; "now"; "--data"; "/copy"]%string =
  plan durations ParseInt (λ n, if decide (n = "LITEMLFLOW_DATA"%string) then "/live"%string else EmptyString) (λ _, None) (λ _, None)
    ["rollback"]%string.
Proof. vm_compute. reflexivity. Qed.

(** The health check of a server on all addresses. *)
Example health_wildcard : defaultHealthURL "[::]:8080" = "http://127.0.0.1:8080/healthz"%string ∧ defaultHealthURL ":" = "http://127.0.0.1:5000/healthz"%string.
Proof. split; reflexivity. Qed.
End Example23.
