(* ===== verification/SyncDelivery.v ===== *)
(** * The test delivery of a webhook (internal/webhooks/sync.go)

    One delivery, made while the caller waits: the endpoint that tests a
    webhook uses it in place of the dispatcher. *)

From S2P Require Import Prelude GoStrings Model Database Integrations MlflowApi EchoLog NativeApi Dispatcher.

Open Scope Z_scope.

(** What a delivery did: the request that was sent, the echo log, the status or
    [None] for an error. *)
Record Sync := mkSync { sy_sent : option PostRequest; sy_echo : option EchoLog; sy_status : option Z }.

Section sync.
(** HMAC-SHA256 in hexadecimal and the JSON of a payload, as in the dispatcher;
    whether [http.NewRequest] takes a URL; the status of the answer to a
    request, if there is one, through the guarded client. *)
Context (hmacSHA256 : string → string → string) (json_payload : string → Run → Z → string).
Context (url_ok : string → bool) (Do : PostRequest → option Z).

(** [SyncDelivery.Deliver]; [now] and [later] are its looks at the clock. *)
Definition Deliver (now later : Z) (echo : option EchoLog) (wh : Webhook) (event : string) (run : Run) : Sync :=
  let body := json_payload event run now in
  if IsEchoURL (wh_URL wh) then
    mkSync None (EchoLog_Record later (mkEchoEntry 0 event (wh_ID wh) body (run_ID run)) <$> echo) (Some 200)
  else if url_ok (wh_URL wh) then
    let req := mkPostRequest (wh_URL wh) event
      (if decide (wh_Secret wh = EmptyString) then None else Some ("sha256=" +:+ hmacSHA256 (wh_Secret wh) body)) body in
    mkSync (Some req) echo (Do req)
  else mkSync None echo None.

(** The endpoint with this delivery. *)
Definition TestWebhook `{Clock} (now later : Z) (echo : option EchoLog) (ws id : string) : M (Reply Z) :=
  Handler_TestWebhook (λ wh run, sy_status (Deliver now later echo wh EventRunFinished run)) ws id.

(** ** A test shows what a delivery of the dispatcher would be *)

(** A delivery of the same job by a worker that begins at the same time sends
    first the request of the test, or writes the entry of the test. *)
Lemma test_like_delivery `{Clock} retryBase cancelled wh event run d now later :
  now = clock (w_tick (dp_store d)) → later = clock (S (w_tick (dp_store d))) →
  let s := Deliver now later (dp_echo d) wh event run in
  match Dispatcher.deliver hmacSHA256 json_payload retryBase cancelled CNext (DStart (mkJob wh event run)) d with
  | Some (None, d') => IsEchoURL (wh_URL wh) = true ∧ dp_echo d' = sy_echo s ∧ dp_sent d' = dp_sent d ∧ sy_sent s = None
  | Some (Some (DPost j body _ []), d') => IsEchoURL (wh_URL wh) = false ∧ j = mkJob wh event run ∧ dp_echo d' = sy_echo s ∧
      ∀ req, sy_sent s = Some req → req = Dispatcher.post hmacSHA256 wh event body
  | _ => False
  end.
Proof.
  intros -> ->. cbn [Dispatcher.deliver j_wh j_event j_run]. unfold Deliver. cbv zeta. destruct (IsEchoURL (wh_URL wh)); cbn.
  - split_and!; [done| |by destruct cancelled|done]. unfold record_attempt. by destruct cancelled.
  - split_and!; [done..| |]; [by destruct (url_ok _)|]. destruct (url_ok _); [|done]. by intros req [= <-].
Qed.
End sync.
