(* ===== verification/Operator.v ===== *)
(** * The Kubernetes operator (operator/)

    The reconciler of the custom resource: what it makes of a specification,
    its calls of the API server, each of which can fail, and its effect on the
    cluster.  The environment of the pods is the one [Config] resolves, and the
    server in them is assembled as in [Server]. *)

From S2P Require Import S3 Server Prelude GoStrings Model Database Paths RateLimit Config.

Open Scope Z_scope.

(** ** The custom resource *)

Record SecretKeyRef := mkSecretKeyRef { sk_Name : string; sk_Key : string }.
Record StorageSpec := mkStorageSpec { sp_Size : string; sp_StorageClassName : string }.
Record AuthSpec := mkAuthSpec {
  as_Mode : string; as_OIDCIssuer : string; as_BasicUserSecret : SecretKeyRef; as_BasicPassHashSecret : SecretKeyRef }.
Record S3Spec := mkS3Spec {
  s3_Endpoint : string; s3_Bucket : string; s3_Region : string; s3_AccessKeySecret : SecretKeyRef; s3_SecretKeySecret : SecretKeyRef }.
(** The resource requirements are handed on as they are: their text. *)
Record LiteMLflowSpec := mkLiteMLflowSpec {
  lm_Version : string; lm_Replicas : Z; lm_Storage : StorageSpec; lm_Auth : AuthSpec; lm_ArtifactBackend : string; lm_S3 : S3Spec;
  lm_Resources : string }.

Record Condition := mkCondition {
  cd_Type : string; cd_Status : bool; cd_Reason : string; cd_Message : string; cd_ObservedGeneration : Z; cd_LastTransitionTime : Z }.
Record LiteMLflowStatus := mkLiteMLflowStatus { ls_Ready : bool; ls_ObservedGeneration : Z; ls_Conditions : list Condition }.
Record LiteMLflow := mkLiteMLflow {
  lf_Namespace : string; lf_Name : string; lf_UID : string; lf_Generation : Z; lf_Spec : LiteMLflowSpec; lf_Status : LiteMLflowStatus }.

Definition set_status (s : LiteMLflowStatus) (l : LiteMLflow) : LiteMLflow :=
  mkLiteMLflow (lf_Namespace l) (lf_Name l) (lf_UID l) (lf_Generation l) (lf_Spec l) s.
Definition set_conditions (cs : list Condition) (l : LiteMLflow) : LiteMLflow :=
  set_status (mkLiteMLflowStatus (ls_Ready (lf_Status l)) (ls_ObservedGeneration (lf_Status l)) cs) l.

(** ** The objects *)

Record Port := mkPort { po_Name : string; po_Port : Z; po_Protocol : string }.
Record Service := mkService {
  sc_Labels : gmap string string; sc_Owner : option string; sc_ClusterIP : string; sc_Selector : gmap string string; sc_Ports : list Port }.

Inductive EnvSource := EnvValue (v : string) | EnvSecret (ref : SecretKeyRef).
Record EnvVar := mkEnvVar { ev_Name : string; ev_Source : EnvSource }.

Record PodSecurity := mkPodSecurity { ps_RunAsNonRoot : bool; ps_RunAsUser : Z; ps_RunAsGroup : Z; ps_FSGroup : Z; ps_Seccomp : string }.
Record ContainerSecurity := mkContainerSecurity { cs_AllowPrivilegeEscalation : bool; cs_ReadOnlyRootFilesystem : bool; cs_Drop : list string }.
Record Probe := mkProbe { pr_Path : string; pr_Port : Z; pr_InitialDelaySeconds : Z; pr_PeriodSeconds : Z }.
Record PodTemplate := mkPodTemplate {
  pt_Labels : gmap string string; pt_Security : PodSecurity;
  pt_Container : string; pt_Image : string; pt_PullPolicy : string; pt_Ports : list Port; pt_Env : list EnvVar;
  pt_ContainerSecurity : ContainerSecurity; pt_Liveness : Probe; pt_Readiness : Probe; pt_Resources : string;
  pt_Mounts : list (string * string); pt_EmptyDirs : list string }.
Record Claim {Q : Type} := mkClaim { cm_Name : string; cm_AccessModes : list string; cm_Storage : Q; cm_StorageClassName : option string }.
#[global] Arguments Claim : clear implicits.
Record StatefulSet {Q : Type} := mkStatefulSet {
  ss_Labels : gmap string string; ss_Owner : option string; ss_Replicas : Z; ss_ServiceName : string; ss_Selector : gmap string string;
  ss_Template : PodTemplate; ss_Claims : list (Claim Q); ss_ReadyReplicas : Z }.
#[global] Arguments StatefulSet : clear implicits.

(** ** What a resource asks for *)

Definition imageRepo : string := "ghcr.io/gorevds/litemlflow".
Definition containerPort : Z := 5000.
Definition dataDir : string := "/data".
Definition conditionMissingSecret : string := "MissingSecret".
Definition conditionReady : string := "Ready".
Definition missingSecretRequeue : Z := 30 * second.

Definition commonLabels (l : LiteMLflow) : gmap string string :=
  list_to_map [("app.kubernetes.io/name", "litemlflow"); ("app.kubernetes.io/instance", lf_Name l);
               ("app.kubernetes.io/managed-by", "litemlflow-operator"); ("app.kubernetes.io/version", lm_Version (lf_Spec l))]%string.
Definition selectorLabels (l : LiteMLflow) : gmap string string :=
  list_to_map [("app.kubernetes.io/name", "litemlflow"); ("app.kubernetes.io/instance", lf_Name l)]%string.

Definition http_port : Port := mkPort "http" containerPort "TCP".

Definition env_secret (name : string) (ref : SecretKeyRef) : list EnvVar :=
  if decide (sk_Name ref = EmptyString) then [] else [mkEnvVar name (EnvSecret ref)].

Definition env_vars (s : LiteMLflowSpec) : list EnvVar :=
  [mkEnvVar "LITEMLFLOW_ADDR" (EnvValue ":5000"); mkEnvVar "LITEMLFLOW_DATA" (EnvValue dataDir);
   mkEnvVar "LITEMLFLOW_AUTH" (EnvValue (as_Mode (lm_Auth s)))] ++
  (if decide (as_Mode (lm_Auth s) = "basic"%string) then
     env_secret "LITEMLFLOW_BASIC_USER" (as_BasicUserSecret (lm_Auth s)) ++
     env_secret "LITEMLFLOW_BASIC_PASS_HASH" (as_BasicPassHashSecret (lm_Auth s))
   else []) ++
  (if decide (lm_ArtifactBackend s = "s3"%string) then
     [mkEnvVar "LITEMLFLOW_ARTIFACT_BACKEND" (EnvValue "s3"); mkEnvVar "LITEMLFLOW_S3_ENDPOINT" (EnvValue (s3_Endpoint (lm_S3 s)));
      mkEnvVar "LITEMLFLOW_S3_BUCKET" (EnvValue (s3_Bucket (lm_S3 s))); mkEnvVar "LITEMLFLOW_S3_REGION" (EnvValue (s3_Region (lm_S3 s)))] ++
     env_secret "LITEMLFLOW_S3_ACCESS_KEY" (s3_AccessKeySecret (lm_S3 s)) ++
     env_secret "LITEMLFLOW_S3_SECRET_KEY" (s3_SecretKeySecret (lm_S3 s))
   else []).

Definition pod_template (l : LiteMLflow) : PodTemplate :=
  mkPodTemplate (selectorLabels l) (mkPodSecurity true 65532 65532 65532 "RuntimeDefault")
    "litemlflow" (imageRepo +:+ ":" +:+ lm_Version (lf_Spec l)) "IfNotPresent" [http_port] (env_vars (lf_Spec l))
    (mkContainerSecurity false true ["ALL"%string]) (mkProbe "/healthz" containerPort 5 15) (mkProbe "/readyz" containerPort 3 10)
    (lm_Resources (lf_Spec l)) [("data"%string, dataDir); ("tmp", "/tmp")%string] ["tmp"%string].

Definition headless_name (l : LiteMLflow) : string := lf_Name l +:+ "-headless".
Definition headless_service (l : LiteMLflow) : Service := mkService (commonLabels l) (Some (lf_UID l)) "None" (selectorLabels l) [http_port].
Definition cluster_service (l : LiteMLflow) : Service := mkService (commonLabels l) (Some (lf_UID l)) EmptyString (selectorLabels l) [http_port].

Section quantities.
(** [resource.ParseQuantity] *)
Context {Q : Type} (ParseQuantity : string → option Q).

(** [DesiredStatefulSet], without its owner; [None] where [MustParse] panics. *)
Definition DesiredStatefulSet (l : LiteMLflow) : option (StatefulSet Q) :=
  let s := lf_Spec l in
  let storageSize := if decide (sp_Size (lm_Storage s) = EmptyString) then "10Gi"%string else sp_Size (lm_Storage s) in
  let class := sp_StorageClassName (lm_Storage s) in
  match ParseQuantity storageSize with
  | None => None
  | Some q => Some (mkStatefulSet _ (commonLabels l) None (if decide (lm_Replicas s = 0) then 1 else lm_Replicas s) (headless_name l) (selectorLabels l)
      (pod_template l) [mkClaim _ "data" ["ReadWriteOnce"%string] q (if decide (class = EmptyString) then None else Some class)] 0)
  end.
End quantities.

(** ** The cluster *)

Abbreviation key := (string * string)%type.

Record Cluster {Q : Type} := mkCluster {
  cl_resources : gmap key LiteMLflow; cl_services : gmap key Service; cl_sets : gmap key (StatefulSet Q);
  cl_secrets : gmap key (gmap string string); cl_calls : nat }.
#[global] Arguments Cluster : clear implicits.
#[global] Arguments mkCluster {Q}.

(** The calls of the API server that fail for a transient reason. *)
Class ApiServer := api_fails : nat → bool.

Inductive kerr := KNotFound | KExists | KFailed | KTerminal | KPanic.

Definition resource_key (l : LiteMLflow) : key := (lf_Namespace l, lf_Name l).
Definition headless_key (l : LiteMLflow) : key := (lf_Namespace l, headless_name l).

Section reconciler.
Context `{Clock} `{ApiServer} {Q : Type} (ParseQuantity : string → option Q).

Definition K (A : Type) : Type := Cluster Q → (kerr + A) * Cluster Q.
#[local] Instance K_ret : MRet K := λ A a c, (inr a, c).
#[local] Instance K_bind : MBind K := λ A B f m c, match m c with (inl e, c') => (inl e, c') | (inr a, c') => f a c' end.
Definition k_fail {A} (e : kerr) : K A := λ c, (inl e, c).

Definition next_call (c : Cluster Q) : Cluster Q :=
  mkCluster (cl_resources c) (cl_services c) (cl_sets c) (cl_secrets c) (S (cl_calls c)).

Definition api {A} (f : Cluster Q → (kerr + A) * Cluster Q) : K A := λ c,
  if api_fails (cl_calls c) then (inl KFailed, next_call c) else f (next_call c).

(** [errors.IsNotFound] *)
Definition if_found {A} (m : K A) : K (option A) := λ c,
  match m c with (inl KNotFound, c') => (inr None, c') | (inl e, c') => (inl e, c') | (inr a, c') => (inr (Some a), c') end.

Definition of_lookup {A} (o : option A) : kerr + A := match o with Some a => inr a | None => inl KNotFound end.

Definition Get_resource (k : key) : K LiteMLflow := api (λ c, (of_lookup (cl_resources c !! k), c)).
Definition Get_secret (k : key) : K (gmap string string) := api (λ c, (of_lookup (cl_secrets c !! k), c)).
Definition Get_service (k : key) : K Service := api (λ c, (of_lookup (cl_services c !! k), c)).
Definition Get_set (k : key) : K (StatefulSet Q) := api (λ c, (of_lookup (cl_sets c !! k), c)).

Definition put_service (k : key) (s : Service) (c : Cluster Q) : Cluster Q :=
  mkCluster (cl_resources c) (<[k := s]> (cl_services c)) (cl_sets c) (cl_secrets c) (cl_calls c).
Definition put_set (k : key) (s : StatefulSet Q) (c : Cluster Q) : Cluster Q :=
  mkCluster (cl_resources c) (cl_services c) (<[k := s]> (cl_sets c)) (cl_secrets c) (cl_calls c).
Definition put_resource (k : key) (l : LiteMLflow) (c : Cluster Q) : Cluster Q :=
  mkCluster (<[k := l]> (cl_resources c)) (cl_services c) (cl_sets c) (cl_secrets c) (cl_calls c).

Definition Create_service (k : key) (s : Service) : K unit := api (λ c,
  match cl_services c !! k with Some _ => (inl KExists, c) | None => (inr tt, put_service k s c) end).
Definition Update_service (k : key) (s : Service) : K unit := api (λ c,
  match cl_services c !! k with Some _ => (inr tt, put_service k s c) | None => (inl KNotFound, c) end).
Definition Create_set (k : key) (s : StatefulSet Q) : K unit := api (λ c,
  match cl_sets c !! k with Some _ => (inl KExists, c) | None => (inr tt, put_set k s c) end).
Definition Update_set (k : key) (s : StatefulSet Q) : K unit := api (λ c,
  match cl_sets c !! k with Some _ => (inr tt, put_set k s c) | None => (inl KNotFound, c) end).

(** [Status().Patch]: a merge patch of the status only; the object read back. *)
Definition Patch_status (l : LiteMLflow) : K LiteMLflow := api (λ c,
  match cl_resources c !! resource_key l with
  | Some x => let x := set_status (lf_Status l) x in (inr x, put_resource (resource_key l) x c)
  | None => (inl KNotFound, c)
  end).

(** [metav1.Now] *)
Definition Now : K Z := λ c, (inr (clock (cl_calls c)), c).

(** ** Conditions *)

Fixpoint setConditionInPlace (now : Z) (c : Condition) (cs : list Condition) : list Condition :=
  match cs with
  | [] => [mkCondition (cd_Type c) (cd_Status c) (cd_Reason c) (cd_Message c) (cd_ObservedGeneration c) now]
  | e :: cs' =>
      if decide (cd_Type e = cd_Type c) then
        (if decide (cd_Status e ≠ cd_Status c)
         then mkCondition (cd_Type c) (cd_Status c) (cd_Reason c) (cd_Message c) (cd_ObservedGeneration c) now
         else mkCondition (cd_Type e) (cd_Status e) (cd_Reason c) (cd_Message c) (cd_ObservedGeneration c) (cd_LastTransitionTime e)) :: cs'
      else e :: setConditionInPlace now c cs'
  end.

Definition find_condition (ty : string) (cs : list Condition) : option Condition := List.find (λ e, bool_decide (cd_Type e = ty)) cs.

Definition setCondition (c : Condition) (l : LiteMLflow) : K LiteMLflow :=
  now ← Now; Patch_status (set_conditions (setConditionInPlace now c (ls_Conditions (lf_Status l))) l).

Definition clearCondition (ty : string) (l : LiteMLflow) : K LiteMLflow :=
  let cs := filter (λ c, cd_Type c ≠ ty) (ls_Conditions (lf_Status l)) in
  if (length cs =? length (ls_Conditions (lf_Status l)))%nat then mret l else Patch_status (set_conditions cs l).

(** ** Reconciliation *)

Definition basic_refs (l : LiteMLflow) : list (SecretKeyRef * string) :=
  [(as_BasicUserSecret (lm_Auth (lf_Spec l)), "basicUserSecret"); (as_BasicPassHashSecret (lm_Auth (lf_Spec l)), "basicPassHashSecret")]%string.

Fixpoint missing_secrets (ns : string) (refs : list (SecretKeyRef * string)) : K (list string) :=
  match refs with
  | [] => mret []
  | (ref, desc) :: refs' =>
      if decide (sk_Name ref = EmptyString) then missing_secrets ns refs' else
      secret ← if_found (Get_secret (ns, sk_Name ref));
      rest ← missing_secrets ns refs';
      mret (match secret with Some _ => rest | None => (desc +:+ "(" +:+ sk_Name ref +:+ ")") :: rest end)
  end.

Definition missing_condition (missing : list string) (l : LiteMLflow) : Condition :=
  mkCondition conditionMissingSecret true "SecretNotFound" ("missing Secrets: [" +:+ Join " " missing +:+ "]") (lf_Generation l) 0.

Definition validateBasicAuthSecrets (l : LiteMLflow) : K LiteMLflow :=
  if decide (as_Mode (lm_Auth (lf_Spec l)) ≠ "basic"%string) then clearCondition conditionMissingSecret l else
  missing ← missing_secrets (lf_Namespace l) (basic_refs l);
  match missing with
  | [] => clearCondition conditionMissingSecret l
  | _ => setCondition (missing_condition missing l) l
  end.

Definition updated_service (desired existing : Service) : Service :=
  mkService (sc_Labels desired) (sc_Owner existing) (sc_ClusterIP existing) (sc_Selector existing) (sc_Ports desired).

Definition reconcile_service (k : key) (desired : Service) : K unit :=
  existing ← if_found (Get_service k);
  match existing with
  | None => Create_service k desired
  | Some e => Update_service k (updated_service desired e)
  end.

Definition reconcileHeadlessService (l : LiteMLflow) : K unit := reconcile_service (headless_key l) (headless_service l).
Definition reconcileService (l : LiteMLflow) : K unit := reconcile_service (resource_key l) (cluster_service l).

(** The fields the operator owns; [SetControllerReference] on the desired one. *)
Definition updated_set (desired existing : StatefulSet Q) : StatefulSet Q :=
  mkStatefulSet _ (ss_Labels desired) (ss_Owner existing) (ss_Replicas desired) (ss_ServiceName existing) (ss_Selector existing)
    (ss_Template desired) (ss_Claims existing) (ss_ReadyReplicas existing).
Definition owned_set (l : LiteMLflow) (s : StatefulSet Q) : StatefulSet Q :=
  mkStatefulSet _ (ss_Labels s) (Some (lf_UID l)) (ss_Replicas s) (ss_ServiceName s) (ss_Selector s) (ss_Template s) (ss_Claims s) (ss_ReadyReplicas s).

Definition reconcileStatefulSet (l : LiteMLflow) : K (StatefulSet Q) :=
  match DesiredStatefulSet ParseQuantity l with
  | None => k_fail KPanic
  | Some s =>
      let desired := owned_set l s in
      existing ← if_found (Get_set (resource_key l));
      match existing with
      | None => _ ← Create_set (resource_key l) desired; mret desired
      | Some e => _ ← Update_set (resource_key l) (updated_set desired e); mret (updated_set desired e)
      end
  end.

Definition ready_condition (ready : bool) (l : LiteMLflow) : Condition :=
  mkCondition conditionReady ready (if ready then "Ready" else "NotReady")
    (if ready then "at least one replica is ready" else "waiting for StatefulSet to have ready replicas") (lf_Generation l) 0.

Definition updateStatus (l : LiteMLflow) : K LiteMLflow :=
  live ← if_found (Get_set (resource_key l));
  now ← Now;
  let ready := 1 <=? match live with Some s => ss_ReadyReplicas s | None => 0 end in
  Patch_status (set_status (mkLiteMLflowStatus ready (lf_Generation l)
    (setConditionInPlace now (ready_condition ready l) (ls_Conditions (lf_Status l)))) l).

(** When to run again, if at all. *)
Definition Reconcile (k : key) : K (option Z) :=
  o ← if_found (Get_resource k);
  match o with
  | None => mret None
  | Some l =>
      l ← validateBasicAuthSecrets l;
      let size := sp_Size (lm_Storage (lf_Spec l)) in
      if decide (size ≠ EmptyString ∧ ParseQuantity size = None) then k_fail KTerminal else
      _ ← reconcileHeadlessService l;
      _ ← reconcileService l;
      _ ← reconcileStatefulSet l;
      l ← updateStatus l;
      mret (match find_condition conditionMissingSecret (ls_Conditions (lf_Status l)) with Some _ => Some missingSecretRequeue | None => None end)
  end.
End reconciler.

(** * Laws *)

Section laws.
Context `{Clock} `{ApiServer} {Q : Type} (ParseQuantity : string → option Q).
#[local] Existing Instances K_ret K_bind.
Abbreviation Kq := (K (Q := Q)).

(** ** Confinement *)

(** Nothing but the status of the resource [k], its two services and its
    stateful set differs. *)
Record confined (k hk : key) (c c' : Cluster Q) : Prop := {
  cf_secrets : cl_secrets c' = cl_secrets c;
  cf_resources j : j ≠ k → cl_resources c' !! j = cl_resources c !! j;
  cf_status : ∃ f, cl_resources c' !! k = (λ l, set_status (f l) l) <$> cl_resources c !! k;
  cf_services j : j ≠ k → j ≠ hk → cl_services c' !! j = cl_services c !! j;
  cf_sets j : j ≠ k → cl_sets c' !! j = cl_sets c !! j
}.

#[local] Instance confined_preorder k hk : PreOrder (confined k hk).
Proof.
  split.
  - intros c. split; [done..| |done|done]. exists lf_Status. destruct (cl_resources c !! k) as [[]|]; done.
  - intros a b c [A1 A2 [f A3] A4 A5] [B1 B2 [g B3] B4 B5]. split; [congruence| | | |].
    + intros j Hj. by rewrite B2, A2.
    + exists (λ l, g (set_status (f l) l)). rewrite B3, A3. by destruct (cl_resources a !! k) as [[]|].
    + intros j ??. by rewrite B4, A4.
    + intros j ?. by rewrite B5, A5.
Qed.

(** What is read and patched is the resource with another status. *)
Definition same_resource (l l' : LiteMLflow) : Prop := ∃ s, l' = set_status s l.

Lemma same_resource_trans a b c : same_resource a b → same_resource b c → same_resource a c.
Proof. intros [s ->] [t ->]. by exists t. Qed.

Definition holds (l0 : LiteMLflow) (c : Cluster Q) : Prop := ∀ x, cl_resources c !! resource_key l0 = Some x → same_resource l0 x.

Lemma confined_holds l0 hk c c' : confined (resource_key l0) hk c c' → holds l0 c → holds l0 c'.
Proof.
  intros [_ _ [f Hf] _ _] Hc x. rewrite Hf. intros (y & Hy%Hc & ->)%fmap_Some. eapply same_resource_trans; [done|]. by eexists.
Qed.

Section safety.
Context (l0 : LiteMLflow).

(** A computation on the resource [l0] that stays within its objects, does not
    panic, and whose result satisfies [P]. *)
Definition safe {A} (P : A → Prop) (m : Kq A) : Prop := ∀ c, holds l0 c →
  confined (resource_key l0) (headless_key l0) c (m c).2 ∧ (m c).1 ≠ inl KPanic ∧ ∀ a, (m c).1 = inr a → P a.

Lemma safe_ret {A} (P : A → Prop) (a : A) : P a → safe P (mret a).
Proof. intros Ha c _. split_and!; [done|done|]. by intros b [= <-]. Qed.

Lemma safe_bind {A B} (P : A → Prop) (R : B → Prop) (m : Kq A) (f : A → Kq B) : safe P m → (∀ a, P a → safe R (f a)) → safe R (m ≫= f).
Proof.
  intros Hm Hf c Hc. unfold mbind, K_bind. destruct (Hm c Hc) as (H1 & H2 & H3). destruct (m c) as [[e|a] c']; [split_and!; [done|by intros [= ->]|done]|].
  destruct (Hf a (H3 a eq_refl) c') as (H4 & H5 & H6); [by eapply confined_holds|]. split_and!; [by etrans|done|done].
Qed.

Lemma safe_found {A} (P : A → Prop) (m : Kq A) : safe P m → safe (λ o, ∀ a, o = Some a → P a) (if_found m).
Proof.
  intros Hm c Hc. destruct (Hm c Hc) as (H1 & H2 & H3). unfold if_found. destruct (m c) as [[[]|a] c']; (split_and!; [done|done|]); naive_solver.
Qed.

Lemma confined_call k hk c : confined k hk c (next_call c).
Proof. split; [done..| |done|done]. exists lf_Status. cbn. destruct (cl_resources c !! k) as [[]|]; done. Qed.

Lemma safe_api {A} (P : A → Prop) (f : Cluster Q → (kerr + A) * Cluster Q) : safe P f → safe P (api f).
Proof.
  intros Hf c Hc. unfold api. pose proof (confined_call (resource_key l0) (headless_key l0) c) as Hn. destruct (api_fails _); [done|].
  destruct (Hf (next_call c)) as (H1 & H2 & H3); [by eapply confined_holds|]. split_and!; [by etrans|done|done].
Qed.

Lemma safe_lookup {A} (g : Cluster Q → option A) : safe (λ _, True) (λ c, (of_lookup (g c), c)).
Proof. intros c _. split_and!; [done|by destruct (g c)|done]. Qed.

Lemma safe_get {A} (g : Cluster Q → option A) : safe (λ _, True) (if_found (api (λ c, (of_lookup (g c), c)))).
Proof. intros c Hc. by destruct (safe_found _ _ (safe_api _ _ (safe_lookup g)) c Hc) as (? & ? & _). Qed.

Lemma confined_put_service k hk j s (c : Cluster Q) : j ∈ [k; hk] → confined k hk c (put_service j s c).
Proof.
  intros Hj. split; [done..| | |done].
  - exists lf_Status. cbn. destruct (cl_resources c !! k) as [[]|]; done.
  - intros i ??. cbn. apply lookup_insert_ne. set_solver.
Qed.

Lemma confined_put_set k hk s (c : Cluster Q) : confined k hk c (put_set k s c).
Proof.
  split; [done..| |done|].
  - exists lf_Status. cbn. destruct (cl_resources c !! k) as [[]|]; done.
  - intros i ?. cbn. by apply lookup_insert_ne.
Qed.

Lemma safe_patch l : same_resource l0 l → safe (same_resource l0) (Patch_status l).
Proof.
  intros [s ->]. apply safe_api. intros c Hc. change (resource_key (set_status s l0)) with (resource_key l0).
  destruct (cl_resources c !! resource_key l0) as [x|] eqn:E; [|done]. cbv zeta. split_and!; [|done|].
  - split; [done| | |done|done].
    + intros j ?. cbn. by apply lookup_insert_ne.
    + exists (λ _, s). cbn. by rewrite lookup_insert_eq, E.
  - intros a [= <-]. eapply same_resource_trans; [by apply Hc|]. by eexists.
Qed.

Lemma safe_now : safe (λ _, True) (Now : Kq Z).
Proof. intros c _. done. Qed.

Lemma safe_service j s : j ∈ [resource_key l0; headless_key l0] → safe (λ _, True) (reconcile_service j s).
Proof.
  intros Hj. eapply safe_bind; [apply safe_get|]. intros [e|] _; apply safe_api; intros c _;
    destruct (cl_services c !! j); (split_and!; [try done; by apply confined_put_service|done|done]).
Qed.

Lemma safe_missing ns refs : safe (λ _, True) (missing_secrets ns refs : Kq _).
Proof.
  induction refs as [|[ref desc] refs IH]; cbn [missing_secrets]; [by apply safe_ret|]. case_decide; [done|].
  eapply safe_bind; [apply safe_get|]. intros secret _. eapply safe_bind; [done|]. intros rest _. by apply safe_ret.
Qed.

Lemma safe_clear ty l : same_resource l0 l → safe (same_resource l0) (clearCondition ty l : Kq _).
Proof. intros Hl. unfold clearCondition. cbv zeta. case_match; [by apply safe_ret|]. apply safe_patch. eapply same_resource_trans; [done|]. by eexists. Qed.

Lemma safe_set x l : same_resource l0 l → safe (same_resource l0) (setCondition x l : Kq _).
Proof. intros Hl. eapply safe_bind; [apply safe_now|]. intros now _. apply safe_patch. eapply same_resource_trans; [done|]. by eexists. Qed.

Lemma safe_validate l : same_resource l0 l → safe (same_resource l0) (validateBasicAuthSecrets l : Kq _).
Proof.
  intros Hl. unfold validateBasicAuthSecrets. case_decide; [by apply safe_clear|]. eapply safe_bind; [apply safe_missing|].
  intros [|m ms] _; [by apply safe_clear|by apply safe_set].
Qed.

Lemma safe_statefulset l : same_resource l0 l → is_Some (DesiredStatefulSet ParseQuantity l) → safe (λ _, True) (reconcileStatefulSet ParseQuantity l).
Proof.
  intros [st ->] [s Hs]. unfold reconcileStatefulSet. rewrite Hs. cbv zeta. eapply safe_bind; [apply safe_get|].
  intros [e|] _; (eapply (safe_bind (λ _, True)); [|intros _ _; by apply safe_ret]); apply safe_api; intros c _;
    destruct (cl_sets c !! _); (split_and!; [try done; apply confined_put_set|done|done]).
Qed.

Lemma safe_update l : same_resource l0 l → safe (same_resource l0) (updateStatus l : Kq _).
Proof.
  intros Hl. eapply safe_bind; [apply safe_get|]. intros live _. eapply safe_bind; [apply safe_now|]. intros now _. apply safe_patch.
  eapply same_resource_trans; [done|]. by eexists.
Qed.
End safety.

Lemma desired_exists l : is_Some (ParseQuantity "10Gi") → ¬ (sp_Size (lm_Storage (lf_Spec l)) ≠ EmptyString ∧ ParseQuantity (sp_Size (lm_Storage (lf_Spec l))) = None) →
  is_Some (DesiredStatefulSet ParseQuantity l).
Proof.
  intros [q Hq] Hn. unfold DesiredStatefulSet. cbv zeta. destruct (decide (sp_Size (lm_Storage (lf_Spec l)) = EmptyString)); [rewrite Hq; by eexists|].
  destruct (ParseQuantity (sp_Size (lm_Storage (lf_Spec l)))) eqn:E; [by eexists|]. by destruct Hn.
Qed.

(** Whatever calls fail, a reconciliation touches nothing but the objects of
    its resource, and never panics. *)
Lemma reconcile_confined l c : is_Some (ParseQuantity "10Gi") → cl_resources c !! resource_key l = Some l →
  let '(r, c') := Reconcile ParseQuantity (resource_key l) c in
  confined (resource_key l) (headless_key l) c c' ∧ r ≠ inl KPanic.
Proof.
  intros Hq Hl. assert (holds l c) as Hc by (intros x Hx; rewrite Hl in Hx; injection Hx as <-; exists (lf_Status l); by destruct l).
  assert (safe l (λ _, True) (Reconcile ParseQuantity (resource_key l))) as Hs; [|destruct (Hs c Hc) as (H1 & H2 & _); by destruct (Reconcile _ _ c)].
  unfold Reconcile. eapply (safe_bind l (λ o, ∀ x, o = Some x → same_resource l x)).
  { apply safe_found, safe_api. intros d Hd. split_and!; [done|by destruct (cl_resources d !! _)|]. intros x Hx. cbn in Hx. apply Hd.
    destruct (cl_resources d !! resource_key l); [|done]. cbn in Hx. congruence. }
  intros [x|] Hx; [|by apply safe_ret]. eapply safe_bind; [by apply safe_validate, Hx|]. intros y Hy. cbv zeta. case_decide as Hd; [intros d _; done|].
  assert (resource_key y = resource_key l ∧ headless_key y = headless_key l) as [E1 E2] by (destruct Hy as [? ->]; done).
  eapply safe_bind; [apply safe_service; rewrite E2; set_solver|]. intros _ _. eapply safe_bind; [apply safe_service; rewrite E1; set_solver|]. intros _ _.
  eapply safe_bind; [apply safe_statefulset; [done|by apply desired_exists]|]. intros _ _.
  eapply safe_bind; [by apply safe_update|]. intros z Hz. by apply safe_ret.
Qed.

(** ** Conditions *)

Definition agrees (x e : Condition) : Prop :=
  cd_Status e = cd_Status x ∧ cd_Reason e = cd_Reason x ∧ cd_Message e = cd_Message x ∧ cd_ObservedGeneration e = cd_ObservedGeneration x.

(** The condition is there, whatever the time. *)
Definition settled (x : Condition) (cs : list Condition) : Prop := ∃ e, find_condition (cd_Type x) cs = Some e ∧ agrees x e.

Lemma find_set_other now x cs ty : ty ≠ cd_Type x → find_condition ty (setConditionInPlace now x cs) = find_condition ty cs.
Proof.
  unfold find_condition. intros Hne. induction cs as [|e cs IH]; cbn [setConditionInPlace List.find cd_Type].
  - by rewrite bool_decide_false by done.
  - case_decide as Ht; [|cbn [List.find]; by rewrite IH]. cbn [List.find]. rewrite Ht, (bool_decide_false (cd_Type x = ty)) by done.
    case_decide; cbn [cd_Type]; rewrite bool_decide_false by congruence; done.
Qed.

Lemma set_settles now x cs : settled x (setConditionInPlace now x cs).
Proof.
  unfold settled, find_condition. induction cs as [|e cs IH]; cbn [setConditionInPlace].
  - cbn [List.find cd_Type]. rewrite bool_decide_true by done. by eexists.
  - case_decide as Ht; [|cbn [List.find]; by rewrite bool_decide_false].
    case_decide as Hs; cbn [List.find cd_Type]; rewrite bool_decide_true by done; (eexists; split; [done|]); [done|].
    split_and!; [|done..]. cbn. by destruct (cd_Status e), (cd_Status x).
Qed.

Lemma settled_other now x y cs : cd_Type x ≠ cd_Type y → settled x cs → settled x (setConditionInPlace now y cs).
Proof. intros Hne (e & He & Ha). exists e. by rewrite find_set_other. Qed.

(** Setting a condition that is there changes nothing, not even its time. *)
Lemma settled_fixed now x cs : settled x cs → setConditionInPlace now x cs = cs.
Proof.
  intros (e & He & Ha). unfold find_condition in He. induction cs as [|f cs IH]; [done|]. cbn [List.find setConditionInPlace] in *.
  destruct (decide (cd_Type f = cd_Type x)) as [Ht|Ht].
  - rewrite bool_decide_true in He by done. injection He as ->. destruct Ha as (Hs & Hr & Hm & Hg). rewrite decide_False by (intros Hn; by apply Hn).
    f_equal. destruct e. cbn in *. congruence.
  - rewrite bool_decide_false in He by done. f_equal. by apply IH.
Qed.

Lemma find_filter ty cs : find_condition ty (filter (λ c, cd_Type c ≠ ty) cs) = None.
Proof.
  unfold find_condition. induction cs as [|e cs IH]; [done|]. rewrite filter_cons. case_decide; [|done]. cbn [List.find]. by rewrite bool_decide_false.
Qed.

Lemma filter_fixed ty cs : find_condition ty cs = None → filter (λ c, cd_Type c ≠ ty) cs = cs.
Proof.
  unfold find_condition. induction cs as [|e cs IH]; [done|]. cbn [List.find]. case_bool_decide as Ht; [done|]. intros Hn.
  rewrite filter_cons, decide_True by done. by rewrite IH.
Qed.

Lemma filter_length_fixed ty (cs : list Condition) : length (filter (λ c, cd_Type c ≠ ty) cs) = length cs → filter (λ c, cd_Type c ≠ ty) cs = cs.
Proof.
  induction cs as [|e cs IH]; [done|]. rewrite filter_cons. case_decide; cbn [length].
  - intros [= Hl]. by rewrite IH.
  - pose proof (length_filter (λ c, cd_Type c ≠ ty) cs). lia.
Qed.

(** ** A reconciliation with an API server that answers *)

Definition objects (c : Cluster Q) := (cl_resources c, cl_services c, cl_sets c, cl_secrets c).

(** The references that name a secret that does not exist. *)
Definition absent_ref (ns : string) (secrets : gmap key (gmap string string)) (p : SecretKeyRef * string) : option string :=
  if decide (sk_Name p.1 = EmptyString) then None
  else match secrets !! (ns, sk_Name p.1) with Some _ => None | None => Some (p.2 +:+ "(" +:+ sk_Name p.1 +:+ ")") end.

Definition absent (l : LiteMLflow) (secrets : gmap key (gmap string string)) : list string :=
  if decide (as_Mode (lm_Auth (lf_Spec l)) = "basic"%string) then omap (absent_ref (lf_Namespace l) secrets) (basic_refs l) else [].

Definition applied_service (desired : Service) (o : option Service) : Service := match o with None => desired | Some e => updated_service desired e end.
Definition applied_set (desired : StatefulSet Q) (o : option (StatefulSet Q)) : StatefulSet Q :=
  match o with None => desired | Some e => updated_set desired e end.
Definition ready_of (o : option (StatefulSet Q)) : bool := 1 <=? match o with Some s => ss_ReadyReplicas s | None => 0 end.

Section reliable.
Context (Hrel : ∀ n, api_fails n = false).

Lemma api_ok {A} (f : Cluster Q → (kerr + A) * Cluster Q) c : api f c = f (next_call c).
Proof. unfold api. by rewrite Hrel. Qed.

Lemma get_ok {A} (g : Cluster Q → option A) c : if_found (api (λ c, (of_lookup (g c), c))) c = (inr (g (next_call c)), next_call c).
Proof. unfold if_found. rewrite api_ok. by destruct (g (next_call c)). Qed.

Lemma missing_ok ns refs (c : Cluster Q) : ∃ c', missing_secrets ns refs c = (inr (omap (absent_ref ns (cl_secrets c)) refs), c') ∧ objects c' = objects c.
Proof.
  revert c. induction refs as [|[ref desc] refs IH]; intros c; cbn [missing_secrets omap list_omap]; [by eexists|].
  unfold absent_ref at 1. cbn [fst snd]. case_decide; [apply IH|]. unfold mbind, K_bind. unfold Get_secret. rewrite (get_ok (λ c, cl_secrets c !! (ns, sk_Name ref))).
  cbn [next_call cl_secrets]. destruct (IH (next_call c)) as (c' & E & Ho). rewrite E. exists c'. split; [|done]. cbn. by destruct (cl_secrets c !! _).
Qed.

Lemma patch_ok l x (c : Cluster Q) : cl_resources c !! resource_key l = Some x →
  Patch_status l c = (inr (set_status (lf_Status l) x), put_resource (resource_key l) (set_status (lf_Status l) x) (next_call c)).
Proof. intros Hx. unfold Patch_status. rewrite api_ok. cbn [next_call cl_resources]. by rewrite Hx. Qed.

(** The conditions after the secrets were looked for. *)
Definition checked (l : LiteMLflow) (secrets : gmap key (gmap string string)) (cs cs' : list Condition) : Prop :=
  (absent l secrets = [] ∧ cs' = filter (λ c, cd_Type c ≠ conditionMissingSecret) cs) ∨
  (absent l secrets ≠ [] ∧ ∃ now, cs' = setConditionInPlace now (missing_condition (absent l secrets) l) cs).

Lemma set_conditions_id l : set_conditions (ls_Conditions (lf_Status l)) l = l.
Proof. by destruct l as [????? []]. Qed.

Lemma clear_ok l (c : Cluster Q) : cl_resources c !! resource_key l = Some l →
  let l' := set_conditions (filter (λ c, cd_Type c ≠ conditionMissingSecret) (ls_Conditions (lf_Status l))) l in
  ∃ c', clearCondition conditionMissingSecret l c = (inr l', c') ∧
    objects c' = (<[resource_key l := l']> (cl_resources c), cl_services c, cl_sets c, cl_secrets c).
Proof.
  intros Hl l'. unfold clearCondition. cbv zeta. destruct (Nat.eqb_spec (length (filter (λ c, cd_Type c ≠ conditionMissingSecret) (ls_Conditions (lf_Status l)))) (length (ls_Conditions (lf_Status l)))) as [E|].
  - exists c. unfold l'. rewrite (filter_length_fixed _ _ E), set_conditions_id. split; [done|]. unfold objects. by rewrite insert_id.
  - rewrite (patch_ok _ l) by done. eexists. split; [done|]. done.
Qed.

Lemma validate_ok l (c : Cluster Q) : cl_resources c !! resource_key l = Some l →
  ∃ c' cs', validateBasicAuthSecrets l c = (inr (set_conditions cs' l), c') ∧ checked l (cl_secrets c) (ls_Conditions (lf_Status l)) cs' ∧
    objects c' = (<[resource_key l := set_conditions cs' l]> (cl_resources c), cl_services c, cl_sets c, cl_secrets c).
Proof.
  intros Hl. unfold validateBasicAuthSecrets, checked, absent. destruct (decide (as_Mode (lm_Auth (lf_Spec l)) = "basic"%string)) as [Hb|Hb].
  2:{ rewrite decide_True by done. destruct (clear_ok l c Hl) as (c' & E & Ho). eexists c', _. split_and!; [exact E|by left|done]. }
  rewrite decide_False by (intros Hn; by apply Hn). destruct (missing_ok (lf_Namespace l) (basic_refs l) c) as (c1 & E1 & Ho1). unfold mbind, K_bind. rewrite E1.
  assert (cl_resources c1 !! resource_key l = Some l) as Hl1 by (unfold objects in Ho1; congruence).
  destruct (omap _ (basic_refs l)) as [|m ms] eqn:Em.
  - destruct (clear_ok l c1 Hl1) as (c' & E & Ho). eexists c', _. split_and!; [exact E|by left|]. rewrite Ho. unfold objects in Ho1. congruence.
  - unfold setCondition, mbind, K_bind, Now. rewrite (patch_ok _ l) by done. eexists _, _. split_and!; [reflexivity| |].
    + right. split; [done|]. by eexists.
    + unfold objects in *. injection Ho1 as E2 E3 E4 E5. cbn. by rewrite E2, E3, E4, E5.
Qed.

Lemma service_ok j s (c : Cluster Q) : ∃ c', reconcile_service j s c = (inr tt, c') ∧
  objects c' = (cl_resources c, <[j := applied_service s (cl_services c !! j)]> (cl_services c), cl_sets c, cl_secrets c).
Proof.
  unfold reconcile_service, mbind, K_bind, Get_service. rewrite (get_ok (λ c, cl_services c !! j)). cbn [next_call cl_services].
  destruct (cl_services c !! j) as [e|] eqn:E; unfold Create_service, Update_service; rewrite api_ok; cbn [next_call cl_services]; rewrite E; by eexists.
Qed.

Lemma set_ok l s c : DesiredStatefulSet ParseQuantity l = Some s → ∃ c' r, reconcileStatefulSet ParseQuantity l c = (inr r, c') ∧
  objects c' = (cl_resources c, cl_services c, <[resource_key l := applied_set (owned_set l s) (cl_sets c !! resource_key l)]> (cl_sets c), cl_secrets c).
Proof.
  intros Hs. unfold reconcileStatefulSet. rewrite Hs. cbv zeta. unfold mbind, K_bind, Get_set. rewrite (get_ok (λ c, cl_sets c !! resource_key l)). cbn [next_call cl_sets].
  destruct (cl_sets c !! resource_key l) as [e|] eqn:E; unfold Create_set, Update_set; rewrite api_ok; cbn [next_call cl_sets]; rewrite E; by eexists _, _.
Qed.

Definition final_status (l : LiteMLflow) (ready : bool) (now : Z) (cs : list Condition) : LiteMLflow :=
  set_status (mkLiteMLflowStatus ready (lf_Generation l) (setConditionInPlace now (ready_condition ready l) cs)) l.

Lemma update_ok l (c : Cluster Q) : cl_resources c !! resource_key l = Some l → ∃ c' now,
  let l' := final_status l (ready_of (cl_sets c !! resource_key l)) now (ls_Conditions (lf_Status l)) in
  updateStatus l c = (inr l', c') ∧ objects c' = (<[resource_key l := l']> (cl_resources c), cl_services c, cl_sets c, cl_secrets c).
Proof.
  intros Hl. unfold updateStatus, mbind, K_bind, Get_set. rewrite (get_ok (λ c, cl_sets c !! resource_key l)). cbn [next_call cl_sets]. unfold Now.
  rewrite (patch_ok _ l) by done. by eexists _, _.
Qed.

Lemma headless_ne l : headless_key l ≠ resource_key l.
Proof. unfold headless_key, resource_key, headless_name. intros [= E]. apply (f_equal slen) in E. rewrite slen_app in E. cbn in E. lia. Qed.

Definition requeue (cs : list Condition) : option Z :=
  match find_condition conditionMissingSecret cs with Some _ => Some missingSecretRequeue | None => None end.

Definition valid_size (l : LiteMLflow) : Prop :=
  ¬ (sp_Size (lm_Storage (lf_Spec l)) ≠ EmptyString ∧ ParseQuantity (sp_Size (lm_Storage (lf_Spec l))) = None).

Lemma Reconcile_ok l s (c : Cluster Q) : cl_resources c !! resource_key l = Some l → valid_size l → DesiredStatefulSet ParseQuantity l = Some s →
  ∃ c' cs now,
    let set := applied_set (owned_set l s) (cl_sets c !! resource_key l) in
    let l' := final_status l (ready_of (Some set)) now cs in
    Reconcile ParseQuantity (resource_key l) c = (inr (requeue (ls_Conditions (lf_Status l'))), c') ∧
    checked l (cl_secrets c) (ls_Conditions (lf_Status l)) cs ∧
    objects c' = (<[resource_key l := l']> (cl_resources c),
      <[resource_key l := applied_service (cluster_service l) (cl_services c !! resource_key l)]>
        (<[headless_key l := applied_service (headless_service l) (cl_services c !! headless_key l)]> (cl_services c)),
      <[resource_key l := set]> (cl_sets c), cl_secrets c).
Proof.
  intros Hl Hv Hs. unfold Reconcile, Get_resource. unfold mbind at 1, K_bind at 1. rewrite (get_ok (λ c, cl_resources c !! resource_key l)). cbn [next_call cl_resources]. rewrite Hl.
  destruct (validate_ok l (next_call c) Hl) as (c1 & cs & E1 & Hc & O1). unfold mbind at 1, K_bind at 1. rewrite E1. cbv zeta.
  change (lf_Spec (set_conditions cs l)) with (lf_Spec l). rewrite decide_False by done.
  change (reconcileHeadlessService (set_conditions cs l)) with (reconcile_service (Q := Q) (headless_key l) (headless_service l)).
  destruct (service_ok (headless_key l) (headless_service l) c1) as (c2 & E2 & O2). unfold mbind at 1, K_bind at 1. rewrite E2.
  change (reconcileService (set_conditions cs l)) with (reconcile_service (Q := Q) (resource_key l) (cluster_service l)).
  destruct (service_ok (resource_key l) (cluster_service l) c2) as (c3 & E3 & O3). unfold mbind at 1, K_bind at 1. rewrite E3.
  destruct (set_ok (set_conditions cs l) s c3 Hs) as (c4 & r & E4 & O4). unfold mbind at 1, K_bind at 1. rewrite E4.
  unfold objects in O1, O2, O3, O4. injection O1 as A1 A2 A3 A4. injection O2 as B1 B2 B3 B4. injection O3 as C1 C2 C3 C4. injection O4 as D1 D2 D3 D4.
  destruct (update_ok (set_conditions cs l) c4) as (c5 & now & E5 & O5).
  { rewrite D1, C1, B1, A1. apply lookup_insert_eq. }
  unfold mbind, K_bind. rewrite E5. exists c5, cs, now. cbv zeta. change (resource_key (set_conditions cs l)) with (resource_key l) in *.
  assert (cl_sets c4 !! resource_key l = Some (applied_set (owned_set l s) (cl_sets c !! resource_key l))) as Hset by (rewrite D3, C3, B3, A3; apply lookup_insert_eq).
  rewrite Hset in *. split_and!; [done|done|]. rewrite O5, D1, C1, B1, A1, D2, C2, B2, A2, D3, C3, B3, A3, D4, C4, B4, A4. cbn [next_call cl_resources cl_services cl_sets cl_secrets].
  rewrite insert_insert_eq, lookup_insert_ne by apply headless_ne. done.
Qed.

Lemma applied_service_twice s o : applied_service s (Some (applied_service s o)) = applied_service s o.
Proof. destruct o; [done|]. by destruct s. Qed.

Lemma applied_set_twice s o : applied_set s (Some (applied_set s o)) = applied_set s o.
Proof. destruct o; [done|]. by destruct s. Qed.

(** Looking for the secrets again changes nothing. *)
Lemma checked_again l l' secrets cs cs1 now r cs2 :
  lf_Spec l' = lf_Spec l → lf_Namespace l' = lf_Namespace l → lf_Generation l' = lf_Generation l →
  checked l secrets cs cs1 → checked l' secrets (setConditionInPlace now (ready_condition r l) cs1) cs2 →
  cs2 = setConditionInPlace now (ready_condition r l) cs1.
Proof.
  intros Hspec Hns Hgen H1 H2. assert (absent l' secrets = absent l secrets) as Ha by (unfold absent, basic_refs; by rewrite Hspec, Hns).
  destruct H2 as [[Hn ->]|[Hn [now' ->]]]; rewrite Ha in Hn.
  - destruct H1 as [[_ ->]|[? _]]; [|done]. apply filter_fixed. rewrite find_set_other by done. apply find_filter.
  - destruct H1 as [[? _]|[_ [now1 ->]]]; [done|]. apply settled_fixed. unfold missing_condition. rewrite Ha, Hgen. apply settled_other; [done|]. apply set_settles.
Qed.

Lemma checked_missing l secrets cs cs1 now r : checked l secrets cs cs1 →
  is_Some (find_condition conditionMissingSecret (setConditionInPlace now (ready_condition r l) cs1)) ↔ absent l secrets ≠ [].
Proof.
  intros Hc. rewrite find_set_other by done. destruct Hc as [[-> ->]|[Hn [now1 ->]]].
  - rewrite find_filter. split; [by intros [? ?]|done].
  - destruct (set_settles now1 (missing_condition (absent l secrets) l) cs) as (e & He & _). split; [done|]. intros _. by exists e.
Qed.
End reliable.
End laws.

(** What a reconciliation makes of a service: the labels and ports are as
    asked, the rest is as found for one that is there; a new one belongs to the
    resource, has the cluster address [ip] and selects the pods of the set. *)
Definition service_as (ip : string) (l : LiteMLflow) (old new : option Service) : Prop :=
  ∃ s, new = Some s ∧ sc_Labels s = commonLabels l ∧ sc_Ports s = [mkPort "http" 5000 "TCP"] ∧
  (sc_Owner s, sc_ClusterIP s, sc_Selector s) =
  match old with
  | Some e => (sc_Owner e, sc_ClusterIP e, sc_Selector e)
  | None => (Some (lf_UID l), ip, pt_Labels (pod_template l))
  end.

(** And of the stateful set, with the storage [size]. *)
Definition set_as {Q : Type} (size : Q) (l : LiteMLflow) (old : option (StatefulSet Q)) (new : StatefulSet Q) : Prop :=
  ss_Labels new = commonLabels l ∧ ss_Template new = pod_template l ∧
  ss_Replicas new = (if decide (lm_Replicas (lf_Spec l) = 0) then 1 else lm_Replicas (lf_Spec l)) ∧
  (ss_Owner new, ss_ServiceName new, ss_Selector new, ss_Claims new, ss_ReadyReplicas new) =
  match old with
  | Some e => (ss_Owner e, ss_ServiceName e, ss_Selector e, ss_Claims e, ss_ReadyReplicas e)
  | None =>
      let class := sp_StorageClassName (lm_Storage (lf_Spec l)) in
      (Some (lf_UID l), lf_Name l +:+ "-headless", pt_Labels (ss_Template new),
       [mkClaim _ "data" ["ReadWriteOnce"%string] size (if decide (class = EmptyString) then None else Some class)], 0)
  end.

Lemma cluster_service_as l old : service_as "" l old (Some (applied_service (cluster_service l) old)).
Proof. eexists. split; [reflexivity|]. by destruct old. Qed.

Lemma headless_service_as l old : service_as "None" l old (Some (applied_service (headless_service l) old)).
Proof. eexists. split; [reflexivity|]. by destruct old. Qed.

Lemma applied_set_as {Q : Type} (ParseQuantity : string → option Q) l d old : DesiredStatefulSet ParseQuantity l = Some d →
  ∃ size, ParseQuantity (or_text (sp_Size (lm_Storage (lf_Spec l))) "10Gi") = Some size ∧ set_as size l old (applied_set (owned_set l d) old).
Proof.
  unfold DesiredStatefulSet, or_text. cbv zeta. destruct (ParseQuantity _) as [q|]; [|done]. intros [= <-]. exists q. split; [done|]. by destruct old.
Qed.

(** C39: the operator converges.  Whatever calls of the API server fail, a
    reconciliation never panics and changes nothing in the cluster but the
    status of its resource, the resource's two services and its stateful set.
    When the calls succeed and the size of the storage is empty or can be read,
    one reconciliation, whatever the state it begins in, leaves the labels and
    ports of the two services and the labels, replicas and pod template of the
    stateful set as the specification asks; the rest of these objects (owner,
    selector, cluster address, service name, claims) is as asked where the
    object was made now (both services and the set select the pods of the
    template, one service is headless), and as it was found where it was there
    before.  The
    status says whether a replica is ready and which generation was seen, the
    resource has the condition MissingSecret exactly when basic authentication
    names a secret that does not exist, exactly then it runs again after 30 s,
    and a second reconciliation changes nothing at all. *)
Theorem reconcile_converges `{Clock} `{ApiServer} {Q : Type} (ParseQuantity : string → option Q) l (c : Cluster Q) :
  is_Some (ParseQuantity "10Gi") → cl_resources c !! resource_key l = Some l →
  (let '(r, c') := Reconcile ParseQuantity (resource_key l) c in confined (resource_key l) (headless_key l) c c' ∧ r ≠ inl KPanic) ∧
  ((∀ n, api_fails n = false) → valid_size ParseQuantity l → ∃ c' l' set size,
     let requeued := if decide (absent l (cl_secrets c) = []) then None else Some missingSecretRequeue in
     Reconcile ParseQuantity (resource_key l) c = (inr requeued, c') ∧
     service_as "" l (cl_services c !! resource_key l) (cl_services c' !! resource_key l) ∧
     service_as "None" l (cl_services c !! headless_key l) (cl_services c' !! headless_key l) ∧
     ParseQuantity (or_text (sp_Size (lm_Storage (lf_Spec l))) "10Gi") = Some size ∧
     cl_sets c' !! resource_key l = Some set ∧ set_as size l (cl_sets c !! resource_key l) set ∧
     cl_resources c' !! resource_key l = Some l' ∧ same_resource l l' ∧
     ls_Ready (lf_Status l') = ready_of (Some set) ∧ ls_ObservedGeneration (lf_Status l') = lf_Generation l ∧
     settled (ready_condition (ready_of (Some set)) l) (ls_Conditions (lf_Status l')) ∧
     (is_Some (find_condition conditionMissingSecret (ls_Conditions (lf_Status l'))) ↔ absent l (cl_secrets c) ≠ []) ∧
     ∃ c'', Reconcile ParseQuantity (resource_key l) c' = (inr requeued, c'') ∧ objects c'' = objects c').
Proof.
  intros Hq Hl. split; [by apply reconcile_confined|]. intros Hrel Hv. destruct (desired_exists ParseQuantity l Hq Hv) as [d Hd].
  destruct (Reconcile_ok ParseQuantity Hrel l d c Hl Hv Hd) as (c' & cs & now & E & Hc & Ho). cbv zeta in E, Ho.
  set (set := applied_set (owned_set l d) (cl_sets c !! resource_key l)) in *. set (l' := final_status l (ready_of (Some set)) now cs) in *.
  assert (requeue (ls_Conditions (lf_Status l')) = if decide (absent l (cl_secrets c) = []) then None else Some missingSecretRequeue) as Hr.
  { unfold requeue. pose proof (checked_missing l (cl_secrets c) _ _ now (ready_of (Some set)) Hc) as Hm. change (ls_Conditions (lf_Status l')) with (setConditionInPlace now (ready_condition (ready_of (Some set)) l) cs).
    destruct (find_condition _ _) as [e|]; case_decide as Ha; try done; exfalso; [by apply Hm in Ha|]. destruct (proj2 Hm Ha) as [? ?]; done. }
  unfold objects in Ho. injection Ho as O1 O2 O3 O4.
  destruct (applied_set_as ParseQuantity l d (cl_sets c !! resource_key l) Hd) as (size & Hsize & Has).
  exists c', l', set, size. cbv zeta. rewrite <- Hr. split_and!.
  - done.
  - rewrite O2, lookup_insert_eq. apply cluster_service_as.
  - rewrite O2, lookup_insert_ne, lookup_insert_eq by (symmetry; apply headless_ne). apply headless_service_as.
  - done.
  - by rewrite O3, lookup_insert_eq.
  - exact Has.
  - by rewrite O1, lookup_insert_eq.
  - by eexists.
  - done.
  - done.
  - apply set_settles.
  - exact (checked_missing l _ _ _ now _ Hc).
  - destruct (Reconcile_ok ParseQuantity Hrel l' d c') as (c'' & cs2 & now2 & E2 & Hc2 & Ho2); [by rewrite O1; apply lookup_insert_eq|done|done|].
    cbv zeta in E2, Ho2. change (resource_key l') with (resource_key l) in *. change (headless_key l') with (headless_key l) in *.
    change (cluster_service l') with (cluster_service l) in *. change (headless_service l') with (headless_service l) in *. change (owned_set l' d) with (owned_set l d) in *.
    assert (applied_set (owned_set l d) (cl_sets c' !! resource_key l) = set) as Hset by (rewrite O3, lookup_insert_eq; apply applied_set_twice). rewrite Hset in *.
    rewrite O4 in Hc2. eapply checked_again in Hc2; [|reflexivity..|exact Hc].
    assert (final_status l' (ready_of (Some set)) now2 cs2 = l') as Hfin.
    { subst cs2. unfold final_status. rewrite settled_fixed; [done|]. apply set_settles. }
    rewrite Hfin in *. exists c''. split; [done|]. rewrite Ho2. unfold objects. rewrite O1, O2, O3, O4, !insert_insert_eq. rewrite lookup_insert_eq, applied_service_twice.
    rewrite (lookup_insert_ne _ _ (headless_key l)) by (symmetry; apply headless_ne). rewrite lookup_insert_eq, applied_service_twice.
    rewrite (insert_insert_ne _ (headless_key l) (resource_key l)), insert_insert_eq by apply headless_ne. rewrite insert_insert_eq. done.
Qed.

(** ** The server in the pod *)

Section pod.
Context (secrets : gmap key (gmap string string)) (ns : string) (s : LiteMLflowSpec).

Definition secret_value (ref : SecretKeyRef) : option string := secrets !! (ns, sk_Name ref) ≫= (.!! sk_Key ref).

(** The kubelet starts the container when every secret of its environment
    exists, with the variables of the specification; the image itself sets only
    variables that the operator sets too.  Values are handed on as they are: the
    references [$(NAME)] that the kubelet expands are not modelled. *)
Definition pod_starts : Prop := Forall (λ v, match ev_Source v with EnvValue _ => True | EnvSecret ref => is_Some (secret_value ref) end) (env_vars s).

Definition pod_getenv (name : string) : string :=
  match List.find (λ v, bool_decide (ev_Name v = name)) (env_vars s) with
  | Some (mkEnvVar _ (EnvValue v)) => v
  | Some (mkEnvVar _ (EnvSecret ref)) => default EmptyString (secret_value ref)
  | None => EmptyString
  end.

(** What a reference that may be left out stands for. *)
Definition ref_text (ref : SecretKeyRef) : string := if decide (sk_Name ref = EmptyString) then EmptyString else default EmptyString (secret_value ref).

Abbreviation mode := (as_Mode (lm_Auth s)).
Abbreviation when b x := (if decide b then x else EmptyString).
Abbreviation basic x := (if decide (mode = "basic"%string) then ref_text x else EmptyString).
Abbreviation on_s3 x := (if decide (lm_ArtifactBackend s = "s3"%string) then x else EmptyString).

Definition pod_settings : Settings :=
  mkSettings dataDir "" "" ":5000" (or_text mode "none") (basic (as_BasicUserSecret (lm_Auth s))) (basic (as_BasicPassHashSecret (lm_Auth s)))
    "" "" "" "" "openid email profile" (7 * 24 * hour) (Z.shiftl 5 30) (Z.shiftl 100 20) (30 * second) (30 * second) (120 * second) false false ""
    (on_s3 "s3"%string) (on_s3 (s3_Endpoint (lm_S3 s))) (on_s3 (s3_Bucket (lm_S3 s))) (on_s3 (s3_Region (lm_S3 s)))
    (on_s3 (ref_text (s3_AccessKeySecret (lm_S3 s)))) (on_s3 (ref_text (s3_SecretKeySecret (lm_S3 s)))) ""
    (Z.shiftl 100 20) "" true (5 * minute) (24 * hour) 0 "".

(** Find a variable in the environment of the pod. *)
Ltac pod_var := unfold pod_getenv, env_vars, env_secret, ref_text; repeat case_decide; try done; cbn [app List.find ev_Name]; repeat (rewrite bool_decide_false by done); rewrite ?bool_decide_true by done; done.

Lemma pod_values :
  pod_getenv "LITEMLFLOW_DATA" = dataDir ∧ pod_getenv "LITEMLFLOW_ADDR" = ":5000"%string ∧ pod_getenv "LITEMLFLOW_AUTH" = mode ∧
  pod_getenv "LITEMLFLOW_BASIC_USER" = basic (as_BasicUserSecret (lm_Auth s)) ∧ pod_getenv "LITEMLFLOW_BASIC_PASS_HASH" = basic (as_BasicPassHashSecret (lm_Auth s)) ∧
  pod_getenv "LITEMLFLOW_ARTIFACT_BACKEND" = on_s3 "s3"%string ∧ pod_getenv "LITEMLFLOW_S3_ENDPOINT" = on_s3 (s3_Endpoint (lm_S3 s)) ∧
  pod_getenv "LITEMLFLOW_S3_BUCKET" = on_s3 (s3_Bucket (lm_S3 s)) ∧ pod_getenv "LITEMLFLOW_S3_REGION" = on_s3 (s3_Region (lm_S3 s)) ∧
  pod_getenv "LITEMLFLOW_S3_ACCESS_KEY" = on_s3 (ref_text (s3_AccessKeySecret (lm_S3 s))) ∧ pod_getenv "LITEMLFLOW_S3_SECRET_KEY" = on_s3 (ref_text (s3_SecretKeySecret (lm_S3 s))).
Proof. split_and!; pod_var. Qed.

Definition unset_names : list string :=
  ["OIDC_ISSUER"; "OIDC_CLIENT_ID"; "OIDC_CLIENT_SECRET"; "OIDC_REDIRECT_URL"; "OIDC_SCOPES"; "SESSION_TTL"; "MAX_ARTIFACT_SIZE"; "DEV"; "ENABLE_MULTI_TENANT";
   "FEDERATION_NAME"; "S3_PREFIX"; "S3_MULTIPART_THRESHOLD"; "OTLP_GRPC_ADDR"; "JANITOR_ENABLED"; "JANITOR_INTERVAL"; "RUN_STALE_AFTER"; "EVENTS_RETENTION"; "TRUSTED_PROXIES"].

Lemma pod_unset : Forall (λ n, pod_getenv ("LITEMLFLOW_" +:+ n) = EmptyString) unset_names.
Proof. repeat constructor; pod_var. Qed.

Lemma or_text_unset x : or_text EmptyString x = x.
Proof. done. Qed.

Lemma or_text_default v : or_text v EmptyString = v.
Proof. unfold or_text. by case_decide. Qed.

Lemma or_value_unset {A} (parse : string → option A) ok x : or_value parse ok EmptyString x = x.
Proof. done. Qed.

Lemma or_number_unset x : or_number 0 x = x.
Proof. done. Qed.

Section start.
Context (ParseDuration : string → option Z) (ParsePrefix : string → option Prefix) (ParseAddr : string → option Addr).

Lemma pod_overlay : overlay (overlayFromEnv pod_getenv ParseDuration defaults) no_settings = pod_settings.
Proof.
  destruct pod_values as (V1 & V2 & V3 & V4 & V5 & V6 & V7 & V8 & V9 & V10 & V11). pose proof pod_unset as Hu. unfold unset_names in Hu.
  repeat (apply Forall_cons in Hu as [? Hu]). unfold overlayFromEnv. cbn [String.append] in *. rewrite V1, V2, V3, V4, V5, V6, V7, V8, V9, V10, V11.
  repeat match goal with Hx : pod_getenv _ = EmptyString |- _ => rewrite Hx; clear Hx end. clear. unfold pod_settings.
  unfold overlay, no_settings, defaults. cbn [c_DataDir c_DBPath c_ArtifactsDir c_Addr c_Auth c_BasicUser c_BasicPassHash c_OIDCIssuer c_OIDCClientID c_OIDCClientSecret
    c_OIDCRedirectURL c_OIDCScopes c_SessionTTL c_MaxArtifactSize c_MaxRequestSize c_ReadTimeout c_WriteTimeout c_IdleTimeout c_DevMode c_EnableMultiTenant
    c_FederationName c_ArtifactBackend c_S3Endpoint c_S3Bucket c_S3Region c_S3AccessKey c_S3SecretKey c_S3Prefix c_S3MultipartThreshold c_OTLPGRPCAddr
    c_JanitorEnabled c_JanitorInterval c_RunStaleAfter c_EventsRetention c_TrustedProxies].
  rewrite ?or_value_unset, ?or_number_unset, ?or_text_unset, ?or_text_default. reflexivity.
Qed.

(** The configuration is accepted. *)
Definition configured : Prop :=
  (mode ∈ [EmptyString; "none"%string] ∨
   (mode = "basic"%string ∧ ref_text (as_BasicUserSecret (lm_Auth s)) ≠ EmptyString ∧ ref_text (as_BasicPassHashSecret (lm_Auth s)) ≠ EmptyString)) ∧
  (lm_ArtifactBackend s = "s3"%string → Forall (λ x, x ≠ EmptyString)
     [s3_Endpoint (lm_S3 s); s3_Bucket (lm_S3 s); s3_Region (lm_S3 s); ref_text (s3_AccessKeySecret (lm_S3 s)); ref_text (s3_SecretKeySecret (lm_S3 s))]).

Lemma guard_pass {A} b e (k : result A) : b = false → (_ ← guard_err b e; k) = k.
Proof. by intros ->. Qed.

Lemma configured_valid : configured → Validate ParsePrefix ParseAddr pod_settings = Ok tt.
Proof.
  intros [Hm Hs3]. unfold Validate, pod_settings.
  cbn [c_DataDir c_Auth c_BasicUser c_BasicPassHash c_OIDCIssuer c_OIDCClientID c_OIDCRedirectURL c_SessionTTL c_MaxArtifactSize c_MaxRequestSize c_ReadTimeout
    c_WriteTimeout c_IdleTimeout c_ArtifactBackend c_S3Endpoint c_S3Bucket c_S3Region c_S3AccessKey c_S3SecretKey c_TrustedProxies].
  assert (or_text mode "none" ≠ "oidc"%string) as Hoidc.
  { unfold or_text. rewrite !elem_of_cons, elem_of_nil in Hm. destruct Hm as [[->|[->|[]]]|[-> _]]; done. }
  rewrite guard_pass by done. rewrite guard_pass.
  2:{ apply bool_decide_eq_false. intros Hn. apply Hn. unfold or_text. rewrite !elem_of_cons, elem_of_nil in Hm. destruct Hm as [[->|[->|[]]]|[-> _]]; rewrite ?decide_True, ?decide_False by done; set_solver. }
  rewrite guard_pass.
  2:{ apply andb_false_iff. rewrite !elem_of_cons, elem_of_nil in Hm. destruct Hm as [[->|[->|[]]]|(-> & H1 & H2)]; [by left..|]. right. rewrite !decide_True by done.
      apply orb_false_iff. split; by apply empty_false. }
  rewrite guard_pass by (by rewrite bool_decide_false). rewrite guard_pass by (by rewrite bool_decide_false). do 3 rewrite guard_pass by done.
  destruct (decide (lm_ArtifactBackend s = "s3"%string)) as [Hb|Hb]; [|by rewrite decide_True by constructor].
  specialize (Hs3 Hb). rewrite decide_False by (rewrite !elem_of_cons, elem_of_nil; naive_solver). rewrite decide_True by done.
  unfold guard_err. replace (existsb _ _) with false; [done|]. symmetry. apply not_true_iff_false. intros (x & Hx%list_elem_of_In & He)%existsb_exists.
  eapply Forall_forall in Hs3; [|exact Hx]. by apply empty_false in Hs3; rewrite Hs3 in He.
Qed.

Lemma valid_configured : Validate ParsePrefix ParseAddr pod_settings = Ok tt → configured.
Proof.
  intros [_ Ha Hb Ho _ _ _ _ Hs]%Validate_valid. unfold pod_settings in *.
  cbn [c_Auth c_BasicUser c_BasicPassHash c_OIDCIssuer c_ArtifactBackend c_S3Endpoint c_S3Bucket c_S3Region c_S3AccessKey c_S3SecretKey] in *. split.
  - unfold or_text in Ha, Hb, Ho. destruct (decide (mode = EmptyString)) as [->|Hne]; [left; constructor|]. rewrite !elem_of_cons, elem_of_nil in Ha.
    destruct Ha as [E|[E|[E|[]]]]; rewrite E in *; [left; do 2 constructor|right|by destruct (Ho eq_refl)]. rewrite !decide_True in Hb by done. destruct (Hb eq_refl). done.
  - intros Hb3. rewrite !decide_True in Hs by done. by apply Hs.
Qed.

(** The pod runs: the kubelet starts the container, the configuration is
    accepted, and [New] returns a server.  [parse_url] is [url.Parse], [fails]
    says which of the calls of [New] on files, database and network fail. *)
Context (parse_url : string → option Endpoint) (fails : init_call → bool).

Definition comes_up : Prop :=
  pod_starts ∧ ∃ cfg sv r, FromEnv pod_getenv ParseDuration ParsePrefix ParseAddr no_settings = Ok cfg ∧ New parse_url fails cfg = (Some sv, r).

(** What the specification has to say for that. *)
Definition startable : Prop :=
  configured ∧ (lm_ArtifactBackend s = "s3"%string → validBucketName (s3_Bucket (lm_S3 s)) = true ∧ is_Some (parse_url (TrimRightSlash (s3_Endpoint (lm_S3 s))))).

Lemma FromEnv_pod cfg : FromEnv pod_getenv ParseDuration ParsePrefix ParseAddr no_settings = Ok cfg ↔ configured ∧ cfg = fillDerivedPaths pod_settings.
Proof.
  unfold FromEnv. cbv zeta. rewrite pod_overlay. split.
  - pose proof valid_configured as Hv. destruct (Validate _ _ _) as [[]|]; [|done]. intros [= <-]. auto.
  - intros [Hc ->]. by rewrite (configured_valid Hc).
Qed.

Lemma NewS3Store_pod : lm_ArtifactBackend s = "s3"%string → configured →
  is_Some (NewS3Store parse_url (s3_config (fillDerivedPaths pod_settings))) ↔
  validBucketName (s3_Bucket (lm_S3 s)) = true ∧ is_Some (parse_url (TrimRightSlash (s3_Endpoint (lm_S3 s)))).
Proof.
  intros Hb [_ Hs]. specialize (Hs Hb). repeat (apply Forall_cons in Hs as [? Hs]). clear Hs. unfold NewS3Store, s3_config, fillDerivedPaths, pod_settings.
  cbn. destruct (decide (lm_ArtifactBackend s = "s3"%string)); [|done]. rewrite (decide_False (P := s3_Endpoint (lm_S3 s) = EmptyString)), (decide_False (P := s3_Bucket (lm_S3 s) = EmptyString)) by done.
  destruct (validBucketName _); cbn [negb].
  - rewrite !decide_False by naive_solver. destruct (parse_url _); split; [by intros _; eauto|by intros _; eexists|by intros []|by intros [_ []]].
  - split; [by intros []|by intros []].
Qed.

(** The credentials that have to be there are those the kubelet looks for. *)
Lemma env_secret_found name ref : ref_text ref ≠ EmptyString →
  Forall (λ v, match ev_Source v with EnvValue _ => True | EnvSecret ref => is_Some (secret_value ref) end) (env_secret name ref).
Proof.
  unfold ref_text, env_secret. case_decide; [done|]. intros Hne. repeat constructor. cbn. by destruct (secret_value ref).
Qed.

Lemma configured_pod : configured → pod_starts.
Proof.
  intros [Hm Hs]. unfold pod_starts, env_vars. rewrite !Forall_app. split_and!.
  - by repeat constructor.
  - case_decide as Hb; [|constructor]. destruct Hm as [Hm|(_ & ? & ?)]; [rewrite Hb in Hm; set_solver|].
    rewrite Forall_app. split; by apply env_secret_found.
  - case_decide as Hb; [|constructor]. specialize (Hs Hb). repeat (apply Forall_cons in Hs as [? Hs]).
    rewrite !Forall_app. split_and!; [by repeat constructor|by apply env_secret_found..].
Qed.

Lemma comes_up_startable : comes_up → startable.
Proof.
  intros (_ & cfg & sv & r & [Hc ->]%FromEnv_pod & Hn). split; [done|]. intros Hb. apply NewS3Store_pod; [done|done|].
  eapply (startup_s3 _ fails); [cbn; by rewrite decide_True|]. by rewrite Hn.
Qed.

Lemma startable_comes_up : (∀ call, fails call = false) → startable → comes_up.
Proof.
  intros Hf [Hc Hs]. split; [by apply configured_pod|]. set (cfg := fillDerivedPaths pod_settings).
  destruct (startup_enough parse_url fails cfg Hf) as [sv Hsv].
  { destruct (decide (lm_ArtifactBackend s = "s3"%string)) as [Hb|Hb]; [right|left].
    - split; [cbn; by rewrite decide_True|]. by apply NewS3Store_pod; auto.
    - cbn. rewrite decide_False by done. constructor. }
  exists cfg, sv, (New parse_url fails cfg).2. split; [by apply FromEnv_pod|]. rewrite <- Hsv. apply surjective_pairing.
Qed.
End start.
End pod.

(** C40: what a deployed instance does.  With the environment the operator gives
    the container and the secrets of the namespace, the pod comes up (the
    kubelet finds every secret the environment names, the configuration is
    accepted and the server is assembled) only when the mode is none, or basic
    with both credentials named, there and not empty, and, for the S3 backend,
    endpoint, region and both keys are there, the bucket is a valid bucket name
    and the endpoint is a URL; when no call on files, database or network
    fails that is enough.  It then listens where the services and probes look,
    keeps its data on the mounted volume and authenticates as the resource
    says.  In the mode oidc, which the resource allows, it never comes up. *)
Theorem instance_starts secrets ns s ParseDuration ParsePrefix ParseAddr parse_url fails :
  let up := comes_up secrets ns s ParseDuration ParsePrefix ParseAddr parse_url fails in
  (up → startable secrets ns s parse_url) ∧
  ((∀ call, fails call = false) → startable secrets ns s parse_url → up) ∧
  (as_Mode (lm_Auth s) = "oidc"%string → ¬ up) ∧
  ∀ cfg, FromEnv (pod_getenv secrets ns s) ParseDuration ParsePrefix ParseAddr no_settings = Ok cfg →
    c_Addr cfg = (":" +:+ FormatInt containerPort)%string ∧ c_DataDir cfg = dataDir ∧ c_DBPath cfg = (dataDir +:+ "/litemlflow.db")%string ∧
    c_Auth cfg = or_text (as_Mode (lm_Auth s)) "none" ∧
    (c_Auth cfg = "basic"%string → c_BasicUser cfg = ref_text secrets ns (as_BasicUserSecret (lm_Auth s)) ∧ c_BasicPassHash cfg = ref_text secrets ns (as_BasicPassHashSecret (lm_Auth s))) ∧
    (c_ArtifactBackend cfg = "s3"%string ↔ lm_ArtifactBackend s = "s3"%string).
Proof.
  cbv zeta. split_and!.
  - apply comes_up_startable.
  - apply startable_comes_up.
  - intros Ho [[Hm _] _]%comes_up_startable. rewrite Ho, !elem_of_cons, elem_of_nil in Hm. naive_solver.
  - intros cfg [_ ->]%FromEnv_pod. split_and!; [done|done|done|done| |].
    + cbn. unfold or_text. case_decide; [done|]. intros Hb. by rewrite !decide_True by done.
    + cbn. by case_decide.
Qed.

(** ** A cluster *)
Module Example24.
#[local] Instance clock24 : Clock := λ n, Z.of_nat n.
#[local] Instance answering : ApiServer := λ _, false.
Definition no_ref : SecretKeyRef := mkSecretKeyRef "" "".
Definition ex_spec (mode : string) (user hash : SecretKeyRef) : LiteMLflowSpec :=
  mkLiteMLflowSpec "v2" 1 (mkStorageSpec "" "") (mkAuthSpec mode "https://issuer" user hash) "fs" (mkS3Spec "" "" "" no_ref no_ref) "".
Definition ex_resource (name : string) : LiteMLflow :=
  mkLiteMLflow "ml" name ("uid-" +:+ name) 3 (ex_spec "basic" (mkSecretKeyRef "creds" "user") (mkSecretKeyRef "creds" "hash")) (mkLiteMLflowStatus false 0 []).
Definition quantity (t : string) : option string := Some t.
Definition ex_cluster : Cluster string :=
  mkCluster {[ ("ml", "a")%string := ex_resource "a"; ("ml", "a-headless")%string := ex_resource "a-headless" ]} ∅ ∅ ∅ 0.

Lemma reconcile_converges_witness : ∃ c' : Cluster string,
  Reconcile quantity ("ml", "a")%string ex_cluster = (inr (Some missingSecretRequeue), c') ∧
  ∃ c'', Reconcile quantity ("ml", "a")%string c' = (inr (Some missingSecretRequeue), c'') ∧ objects c'' = objects c'.
Proof.
  destruct (reconcile_converges quantity (ex_resource "a") ex_cluster) as [_ H].
  - exists "10Gi"%string. reflexivity.
  - vm_compute. reflexivity.
  - destruct H as (c' & l' & set & size & H); [reflexivity|intros [_ [=]]|]. cbv zeta in H.
    rewrite decide_False in H by (vm_compute; discriminate). exists c'. split; [exact (proj1 H)|].
    do 12 (apply proj2 in H). exact H.
Defined.

(** The resource [a-headless] makes its own service where that of [a] has to
    be: the pods of [a] get a service that is not headless and that selects
    the pods of the other resource. *)
Example services_collide :
  headless_key (ex_resource "a") = resource_key (ex_resource "a-headless") ∧
  (λ s, (sc_ClusterIP s, sc_Selector s)) <$>
    cl_services (Reconcile quantity ("ml", "a")%string (Reconcile quantity ("ml", "a-headless")%string ex_cluster).2).2 !! ("ml", "a-headless")%string =
  Some (EmptyString, selectorLabels (ex_resource "a-headless")).
Proof. split; vm_compute; reflexivity. Qed.

(** In the mode basic without named secrets the server does not come up, and
    the status has no condition that says so. *)
Example basic_without_secrets :
  absent (mkLiteMLflow "ml" "a" "u" 1 (ex_spec "basic" no_ref no_ref) (mkLiteMLflowStatus false 0 [])) ∅ = [] ∧
  is_ok (FromEnv (pod_getenv ∅ "ml" (ex_spec "basic" no_ref no_ref)) (λ _, None) (λ _, None) (λ _, None) no_settings) = false.
Proof. split; vm_compute; reflexivity. Qed.

(** A bucket name the service would refuse keeps the server from starting,
    though every setting is there. *)
Definition ex_s3 (bucket : string) : LiteMLflowSpec :=
  mkLiteMLflowSpec "v2" 1 (mkStorageSpec "" "") (mkAuthSpec "none" "" no_ref no_ref) "s3"
    (mkS3Spec "http://minio:9000" bucket "eu" (mkSecretKeyRef "s3" "id") (mkSecretKeyRef "s3" "key")) "".
Definition s3_secrets : gmap key (gmap string string) := {[ ("ml", "s3")%string := {[ "id" := "ak"; "key" := "sk" ]}%string ]}.
Definition minio_url (_ : string) : option Endpoint := Some (mkEndpoint "http" "minio:9000" "minio" "").

Lemma instance_starts_witness :
  comes_up s3_secrets "ml" (ex_s3 "models") (λ _, None) (λ _, None) (λ _, None) minio_url (λ _, false) ∧
  ¬ comes_up s3_secrets "ml" (ex_s3 "Models") (λ _, None) (λ _, None) (λ _, None) minio_url (λ _, false).
Proof.
  split.
  - apply instance_starts; [done|]. split; [split; [left; do 2 constructor|intros _; vm_compute; repeat constructor; discriminate]|].
    intros _. split; [vm_compute; reflexivity|by eexists].
  - intros H. destruct (proj1 (instance_starts _ _ _ _ _ _ _ _) H) as [_ Hs]. destruct (Hs eq_refl) as [Hv _]. vm_compute in Hv. discriminate.
Defined.

(** In the mode oidc it never does: the issuer of the resource is not handed
    on, and the client is not in the resource. *)
Example oidc_never_starts : ∀ user hash,
  is_ok (FromEnv (pod_getenv ∅ "ml" (ex_spec "oidc" user hash)) (λ _, None) (λ _, None) (λ _, None) no_settings) = false.
Proof. intros user hash. vm_compute. reflexivity. Qed.
End Example24.
